(* ===== verification/_CoqProject ===== *)
-Q . S2P
Prelude.v
Width.v
AbsPath.v
ExecRule.v
ExecPolicy.v
ExecParser.v
ExecAmend.v
PatchParser.v
PatchRoundTrip.v
SeekSequence.v
TextFile.v
FileUpdate.v
ApplyHunks.v
Invocation.v
TurnDiffTracker.v
HeadTail.v
StreamText.v
InlineTag.v
TaggedLine.v
AssistantText.v
Utf8Stream.v
PathUri.v
PathUriJoin.v
UrlModel.v
SandboxPolicy.v
SandboxAccess.v
SandboxLegacy.v
SandboxDemo.v
Approval.v
Safety.v
ShellBash.v
DangerousCommand.v
ExecApproval.v
ExecApprovalProps.v
History.v
Truncation.v
Readiness.v
NetworkHost.v
NetworkProxy.v
NetworkPolicyProps.v
NetworkDecisionProps.v
NativePath.v
PolicyTransforms.v
PolicyTransformsProps.v
RemoteSegment.v
RemoteSegmentProps.v
RemoteControl.v
RemoteControlProps.v
AgentPath.v
AgentRegistry.v
AgentRegistryProps.v
AgentAccounts.v
AgentResidency.v
WorldState.v
Rollout.v
RolloutProps.v
RolloutBounded.v
GuardianHistory.v
ContextManager.v
Compact.v
SessionDemo.v
Media.v
TokenEstimate.v
RemoteCompact.v
RemoteCompactProps.v
ThreadItems.v
ThreadHistory.v
ThreadHistoryProps.v
ThreadChanges.v
ThreadRun.v
Interaction.v
ToolApproval.v
Orchestrator.v
ToolRuntimes.v
OrchestratorProps.v
ExecHandler.v
PatchHandler.v
HandlerProps.v
ApprovalSession.v
OrchestratorDemo.v
