(* ===== verification/Prelude.v ===== *)
(** * Workx: a verification of its policies, its patch engine and its sessions

    The repository is a coding agent ([workx-rs], a Rust workspace). A model asks for
    commands to be run and for patches to be applied, and answers with streamed text.
    This development models the parts that decide, edit and interpret:

    - the _execution policy_ (crate [execpolicy]): may a command run, does the user have
      to be asked, or is it forbidden? Rules are read from policy files, merged,
      amended and evaluated;
    - the _approval of commands_ ([core/src/exec_policy.rs], crate [shell-command]): what
      a shell script runs, which commands are dangerous, and from both and the policy
      the requirement for a command: run it, ask, or refuse;
    - the _sandbox policy_ ([protocol/src/permissions.rs], [protocol/src/models.rs]): which
      paths a command may read and write; and the safety of patches
      ([core/src/safety.rs]), which are applied unasked only below writable paths;
    - the _patch engine_ (crate [apply-patch]): the patch language, its streaming
      parser, the search for the lines a chunk changes, the rewriting of a file, the
      application of a patch to a file system, and the dry run shown for approval;
    - the _turn diff_ ([core/src/turn_diff_tracker.rs]): the net diff of the patches of
      a turn;
    - the _output buffer_ ([core/src/unified_exec/head_tail_buffer.rs]): the first and
      the last bytes of what a command prints;
    - the _stream parsers_ (crate [utils/stream-parser]): citations and plans taken out
      of streamed text, and text out of streamed bytes;
    - the _permission overlays_ ([sandboxing/src/policy_transforms.rs]): permissions that
      are asked for and granted on top of a policy;
    - the _conversation history_ ([core/src/context_manager]): what is recorded, what is
      sent back to the model, with every tool call paired with its output, how turns are
      rolled back, and how many tokens all of it is estimated to have;
    - the _evidence for reviews_ (crate [guardian-context]): the original items that
      reviewers see after the history was compacted;
    - _compaction_ ([core/src/compact.rs], [core/src/compact_remote*.rs]): what a history
      is replaced by, and when ([core/src/session/context_window.rs]);
    - the _replay of sessions_ ([core/src/session/rollout_reconstruction.rs], crate
      [rollout]): the history and settings that a recorded thread leaves, and how much of
      the record has to be read; with the _world state_ ([core/src/context/world_state])
      that is recorded as patches;
    - the _thread history_ ([app-server-protocol/src/protocol/thread_history.rs]): the turns
      and items that a client of the application server sees, rebuilt from recorded events
      and kept up to date by change sets;
    - the _tool orchestrator_ and the _approvals_ ([core/src/tools/orchestrator.rs],
      [core/src/tools/approvals.rs]): who is asked before a tool runs, under which sandbox
      it runs, and when it is run again without, with the handlers of commands and patches
      that call it;
    - _agents_ ([core/src/agent]): their paths, the registry that limits how many are
      spawned, their nicknames, and which of them stay loaded;
    - _remote control_ ([app-server-transport]): messages in segments, acknowledgements and
      the connections of clients;
    - the _truncation_ of tool output ([utils/string], [utils/output-truncation]);
    - the _readiness flag_ (crate [utils/readiness]), which tasks wait for;
    - the _network policy_ (crate [network-proxy]): which hosts a command may reach, under a
      configuration that managed requirements bind;
    - _inline media_ ([utils/audio], [utils/cache]): the audio that requests carry;
    - _absolute paths_ and _path URIs_ (crates [utils/absolute-path], [utils/path-uri]),
      which the policies compare, and the native texts of paths.

    A request for a command goes through [ShellBash], [DangerousCommand] and [ExecPolicy] to
    [ExecApproval]; a patch goes through [PatchParser], [Invocation] (the dry run) and
    [Safety] to [ApplyHunks], whose deltas [TurnDiffTracker] collects. [Safety] and the
    sandbox policy speak about paths through [PathUri], and the outputs of tools go through
    [HeadTail] and [Truncation] to [ContextManager], which records them, and [History], which
    sends them. [TokenEstimate] decides when [Compact] or [RemoteCompact] replaces a history,
    Commands and patches reach a process through [ExecHandler] and [PatchHandler], which derive
    the approval they need from [ExecApproval] and [Safety], and [Orchestrator], which gets it
    through [ToolApproval].
    [GuardianHistory] keeps the evidence, and [Rollout] rebuilds all of it through the class
    [ContextManagerOps] that [Compact.replay_manager] implements.

    ** Conventions

    Definitions keep the names of the source. A Rust function that can fail returns
    [res]: a value, an error, or [Panic] for an index out of range, an unsigned
    subtraction below zero or a failed [expect]; a theorem that speaks of [Ok] thereby
    says that nothing panics. A method on [&mut self] maps the state to the state it
    leaves, also when it fails. A [str] is its list of characters and a [char] its
    scalar value; offsets count characters where the code counts bytes, which the code
    only uses to cut the same string again. Where the number of bytes itself matters, in
    [Truncation], offsets are bytes ([Width]) and arithmetic has the width of the code. Hash maps are [gmap]s; where the iteration
    order of a hash map can show, it is a parameter or any of the possible orders.
    Libraries that are not part of the repository (Starlark, shlex, serde_json,
    tree-sitter, the [url] and [globset] crates, the channels of tokio, the [similar] diff,
    SHA-1, [quick_xml] and [uuid]) and the operating system are parameters, with what the code relies on as hypotheses, and each theorem with such hypotheses
    has a witness at concrete instances. Code that waits for others, the user, a reviewer, a
    process, is a program that asks and goes on with the answer ([Interaction]): its theorems
    hold for all answers, and for runs that are cancelled anywhere.

    ** Files

    - [Prelude]: results, strings, the string functions of the standard library, sorting
      and deduplication, with their lemmas, rewrite hints and tactics.
    - [Width]: machine integers, saturating arithmetic, byte lengths and byte offsets.
    - [AbsPath]: [AbsolutePathBuf] on Unix. Normalised absolute paths survive printing
      and re-reading ([from_absolute_path_roundtrip]).
    - [ExecRule], [ExecPolicy]: [decision.rs], [error.rs], [executable_name.rs],
      [rule.rs], [policy.rs]. The verdict on a command is the strictest decision of
      exactly the rules that apply ([check_strictest_applicable],
      [check_multiple_strictest]); a forbidding prefix can not be overridden
      ([forbidden_prefix_dominates]); overlays, network domains, the list of allowed
      prefixes and the invariant of all reachable policies ([merge_overlay_spec],
      [compiled_network_domains_last_wins], [get_allowed_prefixes_spec],
      [policy_reachable_ok]); [relative_program_basename_fallback] records that the
      lookup by basename is not limited to absolute programs.
    - [ExecParser]: [parser.rs]. A policy that loads is well formed, satisfies the
      examples its files declare, and each [prefix_rule] means its pattern
      ([load_policies_well_formed], [parsed_examples_hold], [prefix_rule_semantics]).
    - [ExecAmend]: [amend.rs], [sandbox_migration.rs]. Appending a rule twice adds one
      line ([append_rules_once]); the migration removes exactly the banned rules and
      runs once ([strip_banned_exact], [migration_runs_once]).
    - [PatchParser], [PatchRoundTrip]: [parser.rs], [streaming_parser.rs]. The result of
      the streaming parser does not depend on how its input is cut
      ([push_deltas_chunking]), what it accepts is well formed
      ([parse_patch_hunks_ok]), and a printed patch is read back ([parse_print_patch]).
    - [SeekSequence]: [seek_sequence.rs]. The search returns the first match of the
      strictest pass that has one ([seek_sequence_spec]), and with [eof] set looks at
      the end only ([seek_eof_no_fallback]).
    - [TextFile], [FileUpdate]: [text_file.rs], [file_update.rs]. Files with mixed line
      endings round-trip ([source_parse_roundtrip]), an update never panics
      ([derive_new_contents_safe]), the two rewriting functions agree
      ([rewriters_agree]), and in the mode that keeps line endings everything but the
      edited lines stays as it is ([preserve_mode_edits]).
    - [ApplyHunks]: [lib.rs], against the classes [ExecutorFileSystem], [PathUriOps] and
      [FileSystemLaws], with an in-memory instance. An exact delta replayed on the
      files before gives the files after, when no file is moved onto itself
      ([apply_hunks_exact_delta]);
      [self_move_deletes] exhibits the loss of a file moved onto itself.
    - [Invocation]: [invocation.rs]. A patch that the dry run accepts and that applies
      gives the files it showed, when its moves keep clear of its other hunks
      ([verified_patch_applies]).
    - [TurnDiffTracker]: [turn_diff_tracker.rs], a client of the deltas of [ApplyHunks].
      The tracker knows the files before and after the turn
      ([tracker_follows_files]), its diff covers every change ([turn_diff_complete])
      and its cache does not change it ([diff_cache_transparent]).
    - [HeadTail]: [head_tail_buffer.rs]. However a stream is pushed and merged, the
      buffer is the summary of the stream ([head_tail_buffer_spec],
      [to_bytes_with_marker_spec]).
    - [StreamText]: [stream_text.rs], the trait as a class and [StreamLaws], what its
      implementations promise: a meaning for the text to come that does not depend on
      how it is cut.
    - [InlineTag]: [inline_hidden_tag.rs], [citation.rs] ([inline_stream_scan],
      [citations_read_back]).
    - [TaggedLine], [AssistantText]: [tagged_line_parser.rs], [proposed_plan.rs],
      [assistant_text.rs] ([plan_blocks_by_line], [assistant_stream_whole]).
    - [Utf8Stream]: [utf8_stream.rs], proved against [StreamLaws]
      ([utf8_stream_text], [utf8_push_refused]).
    - [PathUri], [PathUriJoin]: [path-uri/src/lib.rs] and
      [absolute_path_normalization.rs], against the classes [UrlCrate] and [UrlLaws], with
      the instance [UrlModel]. Containment is the prefix relation on decoded names
      ([uri_containment_prefix]), joining a URI is joining its path
      ([join_agrees_with_paths]), relative paths join back ([relative_join_roundtrip]), the
      chain of parents ends at the root ([ancestors_reach_root]) and every URI that is
      built is valid ([built_uri_valid]); [join_parent_keeps_segment] shows what [..] does
      to an empty segment.
    - [SandboxPolicy], [SandboxAccess], [SandboxLegacy], [SandboxDemo]: [permissions.rs] and
      the permission profiles of [models.rs], with the file system and environment as
      [Host]. The access to a path is that of the most specific entry
      ([resolve_access_most_specific]); metadata of writable roots is protected
      where no writable root lies within metadata ([metadata_protected]); full write access is full ([full_disk_write_sound]);
      intersection with read-only never writes ([intersect_read_only_never_writes]); deny
      entries survive a change of the rest ([deny_entries_preserved]); legacy policies
      survive the conversion ([legacy_policy_roundtrip]). [metadata_protection_order]
      exhibits a protection that depends on the order of entries. [SandboxDemo] has the
      concrete policies of the witnesses.
    - [Approval]: the settings for approval and the choice of a platform sandbox.
    - [Safety]: [core/src/safety.rs]. A patch that is applied unasked writes permitted paths
      only ([auto_approved_patch_writable]).
    - [ShellBash]: [bash.rs], [shell_detect.rs], [powershell.rs]. A script is taken apart
      only if all of its syntax is harmless ([plain_commands_checked]), into the words the
      shell would use ([plain_commands_literal]).
    - [DangerousCommand]: [is_dangerous_command.rs], [windows_dangerous_commands.rs]. On
      POSIX exactly the forced [rm]s are found, behind any wrappers
      ([dangerous_posix_iff]).
    - [ExecApproval], [ExecApprovalProps]: [core/src/exec_policy.rs] and its modules. The
      user is only asked as the settings allow ([prompts_respect_settings]), a dangerous
      script is not run unasked ([dangerous_script_not_skipped]), the sandbox is left
      exactly for explicitly allowed commands ([bypass_needs_explicit_rules]), an accepted
      rule does what it was offered for ([accepted_rule_skips]), and models that do not
      honour allow rules get none ([ignored_allow_rules]).
    - [Truncation]: [truncate.rs] and [output-truncation/src/lib.rs]. Text and tool outputs
      stay within their budget and say what was left out ([truncate_text_bounded],
      [truncate_payload_budgeted]).
    - [Readiness]: [readiness/src/lib.rs] as a step relation over the calls in progress,
      against the class [Watch] ([readiness_safety], [registered_waiter_released]);
      [wait_ready_lost_wakeup] is a run in which a waiter is never woken, and
      [is_ready_without_tokens] one in which the flag is set by asking.
    - [NetworkHost], [NetworkProxy]: [policy.rs], [config.rs], [state.rs], [runtime.rs],
      [network_policy.rs] and [connect_policy.rs] of the proxy, against the classes
      [GlobCrate], [HostCrate] and [MitmOps]; the state is what the lock of
      [NetworkProxyState] guards, and an operation that takes the lock twice gets the state
      at both times.
    - [NetworkPolicyProps], [NetworkDecisionProps]: the addresses that are not public are the
      registered blocks ([non_public_addresses]), and every address that is read has its width
      ([parse_ip_ok]); compiled lists match what their entries
      say ([compiled_spec]); managed deny and allow lists of plain
      names bind every decision ([managed_deny_enforced], [managed_allowlist_enforced]); no name but [localhost] leads
      to an address that is not public ([connect_non_public_explicit]); an added denial holds
      ([added_denial_refuses]); the log is the latest 200 blocked requests
      ([blocked_log_recent]). [port_entries_escape] and [update_forgets_blocked] show how
      entries with a port escape the requirements and how an update loses blocked requests.
      The laws of the crates ([GlobLaws], [HostLaws]) speak of plain names only: letters,
      digits, [-], [_] and [.], with a last label that starts with a letter.
    - [History]: [context_manager/normalize.rs] and the operations of [history.rs] that
      use it. A normalised history is paired and free of unsupported media
      ([normalize_history_pairs]), and dropping its oldest item keeps it paired
      ([remove_first_item_pairs]).
    - [NativePath]: [api_path_string.rs]. Native text of a path is read back
      ([native_path_roundtrip]).
    - [PolicyTransforms], [PolicyTransformsProps]:
      [policy_transforms.rs], the overlays of [models.rs] and the matcher of denied reads. Deny
      patterns aside, an intersection gives no more than was granted and reads no more than
      was asked for ([intersection_bounded]); an overlay changes a policy where it is more specific
      ([overlay_most_specific]); materialised roots keep their authority
      ([materialize_keeps_authority]). [read_only_part_becomes_writable] and
      [brace_pattern_forgotten] exhibit two losses.
    - [RemoteSegment], [RemoteSegmentProps]: [segment.rs] of remote control. Messages are cut
      within the limits ([split_within_limits]), put together again when chunks come in
      order, with repetitions and others in between ([split_reassembled]), in bounded memory ([reassembler_bounded]).
    - [RemoteControl], [RemoteControlProps]: [websocket.rs] and [client_tracker.rs]. The
      buffer holds exactly what is not acknowledged ([buffer_refines_unacked]), messages are
      delivered once and in order ([inbound_once_in_order]) and connections are opened before
      they are used and not used after they are closed ([connections_bracketed],
      [reopened_connection_closed]).
    - [AgentPath]: [agent_path.rs] ([agent_resolve_spec]).
    - [AgentRegistry], [AgentRegistryProps], [AgentAccounts]:
      [registry.rs] as a step relation over the calls in progress. A limit holds in every
      interleaving ([spawn_limit_respected]); for callers that use reservations as the code
      does, the registry is exact ([registry_accounts]); nicknames never repeat
      ([nicknames_never_repeat]).
    - [AgentResidency]: [control/residency.rs], [control/execution.rs].
      Residents are bounded ([residency_bounded]) and a call that runs alone returns
      ([reserve_slot_terminates]); [stale_residents_refuse] and [residency_overcommit]
      exhibit a refusal with room and a capacity that is exceeded.
    - [WorldState] (and the end of [RolloutProps]): the snapshots and merge patches of
      [world_state/mod.rs]. What is recorded is replayed ([recorded_world_replays]).
    - [Rollout], [RolloutProps], [RolloutBounded]:
      [rollout_reconstruction.rs], [rollout/src/model_context.rs]. The reverse replay
      rebuilds the session that a forward replay leaves, which [forward_session] describes from
      the records alone ([reconstruct_survivors]); the bounded scan gives the
      same session as the whole thread ([bounded_replay_matches_full]).
    - [GuardianHistory]: [guardian-context/src/history.rs]. Evidence is
      bounded ([retention_bounded]), a reader is told when its prefix changed
      ([generation_guards_prefix]) and only forgets ([evidence_only_forgets]).
    - [ContextManager]: recording, replacement and rollback of
      [history.rs] ([recording_appends], [rollback_drops_turns], [rollback_composes]).
    - [Compact], [SessionDemo]: [compact.rs]. The newest user messages are
      kept within the budget ([compaction_keeps_newest]), and context is put before the last
      message that counts ([context_before_last_message]). [SessionDemo] has the witnesses,
      and [steered_turn_halved], a rollback that halves a turn.
    - [Media]: [utils/audio/src/lib.rs], data URLs and the estimate of images.
      Prepared audio stays as it is ([prepared_audio_stable]) and the cache of estimates is
      transparent ([cached_estimates_agree]).
    - [TokenEstimate]: the token estimates of [history.rs],
      [TokenUsage] of [protocol.rs], [auto_compact_window.rs] and [context_window.rs]. Usage
      adds up ([usage_accounts]), claims are granted once in a window
      ([window_claims_once]).
    - [RemoteCompact], [RemoteCompactProps]: the pure parts of
      [compact_remote.rs], [compact_remote_v2.rs] and their modules. Retained messages stay
      within their budget ([retained_within_budget]), a history that is cut loses its last
      outputs only ([trim_accounts]), exactly one compaction is accepted
      ([one_compaction_expected]); [exceeded_window_reads_empty] is a session that counts as
      almost empty right after its window was exceeded.
    - [ThreadItems]: the items of [v2/item.rs] and [protocol/src/items.rs], [item_builders.rs]
      and [review_format.rs], against the class [ThreadEnv].
    - [ThreadHistory], [ThreadHistoryProps], [ThreadChanges], [ThreadRun]: [thread_history.rs] and [thread_history_projection.rs]. No reachable
      history panics or loses a turn ([history_total]), the lazy index of items is a linear
      search ([item_index_transparent]), ids identify turns and items under what
      the session guarantees of the ids in its events ([thread_ids_unique])
      and a client that applies the changes of batches has the turns that all lines give
      ([client_follows]). [unnamed_review_repeats_id] exhibits a generated id that repeats
      after a rollback.
    - [Interaction]: programs that ask, their partial runs, and what holds of all of them.
    - [ToolApproval]: [approvals.rs], [hook_names.rs], the cached approval of [sandboxing.rs]
      and the requests of [session/mod.rs] to the user.
    - [Orchestrator], [ToolRuntimes]: [orchestrator.rs], the traits and helpers of
      [sandboxing.rs] (the class [ToolRuntime]), the choice of the sandbox of [manager.rs], and
      the runtimes of commands and patches; [LawfulRuntime] is what the theorems use of a
      runtime.
    - [OrchestratorProps]: whatever is answered, denied reads and the network policy of an
      owner survive every approval ([restrictions_survive_approval]), nothing runs after a
      refusal ([nothing_runs_after_refusal]), a strict review precedes each attempt
      ([strict_review_each_attempt]), and an attempt leaves the sandbox only on a grant or
      where none was needed ([escalation_cause]).
    - [ExecHandler], [PatchHandler], [HandlerProps]: [handlers/mod.rs],
      [handlers/unified_exec/exec_command.rs], [unified_exec/process_manager.rs],
      [handlers/apply_patch.rs], [core/src/apply_patch.rs]. A command leaves the sandbox only on
      rules for all of its parts or on a grant ([command_leaves_sandbox_only_if_allowed]), and
      every attempt of a patch has its reason, a grant being one only where it covers the
      files of the patch ([patch_attempts_justified]).
    - [ApprovalSession]: the store of approvals, and the calls of a session, commands, patches
      and others, as an interleaving. A yes of the cache goes back to a yes of the user to a
      question that showed the command or the file ([cached_approval_was_given]).
    - [OrchestratorDemo]: concrete calls, and what passes without a question: a patch after an
      unrelated grant ([network_grant_silences_patch]), a second host after the approval of a
      first ([network_approval_covers_other_hosts]), and an escalation where only the network
      is restricted ([unrestricted_files_escalate_unasked]).

    ** Fuel and bounds

    Recursion is structural where the code iterates over a list. Loops that are not
    take fuel that is shown to be enough: the inline tag loop gets one more than the
    length of the pending text, of which every round drains a delimiter; the UTF-8
    decoder gets the number of bytes; printing of numbers gets 20 digits, enough for
    64 bits; the ancestors of a URI get the number of its segments, each parent having one
    less; the search for dangerous commands has a level for each of the eight wrappers the
    code allows and one more; walking a syntax tree gets the number of its nodes; shell
    detection gets the length of the path, of which a file stem is a proper part; a new
    token is found in two rounds more than there are tokens ([fresh_token_total]); cutting a
    message into chunks gets one more than its length, of which each chunk takes a part; the
    assemblies and the clients that are dropped are as many as there are; a queue of residents
    is searched once around; the loop over images takes an item each round
    ([image_loop_total]). Recording evidence calls itself once, with a smaller item. Sums of
    tokens saturate at the width of the code or are shown not to overflow for histories of at
    most [2^60] items. Byte counts that the code saturates at 64 bits saturate in [HeadTail];
    revisions of the turn diff, which the code counts in 64 bits, are unbounded, and so are the
    counters of the thread history; its theorems on ids speak of rollouts whose numbers stay
    below [DEC_MAX], more than 64 bits hold. Programs that ask are finite: a call asks a bounded
    number of questions and returns when all are answered.

    ** Not modelled

    Everything that is input or output: the session loop, processes and terminals, the
    platform sandboxes themselves, the servers of the network proxy and its interception of TLS,
    the model clients, MCP, the requests of the application server, the user interface,
    persistence and configuration. In the modelled crates: Windows paths of the host, hashing
    and serde, the heredoc extraction over a tree-sitter tree, the lookup of shells, the lists
    of roots for the platform sandboxes, the loading of policy files from the configuration
    layers, the enrolment and pairing of remote control, the sections of the world state, the
    markers by which fragments of user messages are recognised, the service that decides about
    single network requests ([network_approval.rs], an event of the interaction here), the
    start of processes, the summary of commands for display, the command-line front ends. These
    are left out because they are the operating system, a protocol of another party or text for
    display; of what decides, the intersection of permission profiles
    ([permission_profile_intersection.rs]), the environment of commands
    ([shell_environment.rs]), the merging of requirements ([requirements_layers]) and the state
    machine of unified exec processes could be added in the same way. *)
From stdpp Require Export base tactics list list_numbers strings gmap sorting.
From Stdlib Require Export ZArith Lia.

Set Default Goal Selector "!".

(** ** Computations that can fail or panic *)

(** A Rust computation returns a value, returns an error, or panics (an index
    out of range, an unsigned subtraction below zero, a failed [expect]). *)
Inductive res (E A : Type) : Type :=
| Ok (a : A)
| Err (e : E)
| Panic.
Arguments Ok {E A} a.
Arguments Err {E A} e.
Arguments Panic {E A}.

#[export] Instance res_ret {E} : MRet (res E) := fun A a => Ok a.
#[export] Instance res_bind {E} : MBind (res E) := fun A B f r =>
  match r with Ok a => f a | Err e => Err e | Panic => Panic end.
#[export] Instance res_fmap {E} : FMap (res E) := fun A B f r =>
  match r with Ok a => Ok (f a) | Err e => Err e | Panic => Panic end.

Definition is_ok {E A} (r : res E A) : bool :=
  match r with Ok _ => true | _ => false end.

Definition map_err {E F A} (f : E -> F) (r : res E A) : res F A :=
  match r with Ok a => Ok a | Err e => Err (f e) | Panic => Panic end.

(** [option::ok_or_else]. *)
Definition ok_or {E A} (o : option A) (e : E) : res E A :=
  match o with Some a => Ok a | None => Err e end.

(** [Option::expect], [slice[i]] and the like: the absent case panics. *)
Definition or_panic {E A} (o : option A) : res E A :=
  match o with Some a => Ok a | None => Panic end.

(** Iterator::collect into a [Result<Vec<_>, _>]: stops at the first failure. *)
Fixpoint map_res {E A B} (f : A -> res E B) (l : list A) : res E (list B) :=
  match l with
  | [] => Ok []
  | x :: l' => y ← f x; ys ← map_res f l'; Ok (y :: ys)
  end.

(** A [for] loop whose body may fail. *)
Fixpoint fold_res {E A B} (f : B -> A -> res E B) (b : B) (l : list A) : res E B :=
  match l with
  | [] => Ok b
  | x :: l' => b' ← f b x; fold_res f b' l'
  end.

(** The [std::io::ErrorKind]s the code tells apart. *)
Inductive IoKind := NotFound | AlreadyExists | InvalidInput | OtherKind (code : Z).

(** ** Characters and strings *)

(** A [char] is its Unicode scalar value and a [str] its sequence of chars. *)
Abbreviation char := Z (only parsing).
Abbreviation rstr := (list Z) (only parsing).

Definition z_of_ascii (a : Ascii.ascii) : Z := Z.of_N (Ascii.N_of_ascii a).

(** An ASCII string literal. *)
Fixpoint lit (s : string) : rstr :=
  match s with
  | EmptyString => []
  | String a s' => z_of_ascii a :: lit s'
  end.

Definition NL : char := 10.
Definition CR : char := 13.
Definition DQUOTE : char := 34.

Definition streq (a b : rstr) : bool := bool_decide (a = b).

Declare Scope rstr_scope.
Delimit Scope rstr_scope with rs.
Infix "=s" := streq (at level 70, no associativity) : rstr_scope.
Open Scope rstr_scope.

(** [char::is_whitespace]: the Unicode property White_Space. *)
Definition is_whitespace (c : char) : bool :=
  (((9 <=? c) && (c <=? 13)) || (c =? 32) || (c =? 133) || (c =? 160) || (c =? 5760)
  || ((8192 <=? c) && (c <=? 8202)) || (c =? 8232) || (c =? 8233) || (c =? 8239)
  || (c =? 8287) || (c =? 12288))%Z.

Definition is_ascii_digit (c : char) : bool := ((48 <=? c) && (c <=? 57))%Z.

Definition ascii_lower (c : char) : char :=
  (if (65 <=? c) && (c <=? 90) then c + 32 else c)%Z.

Definition to_ascii_lowercase (s : rstr) : rstr := map ascii_lower s.

Fixpoint drop_while {A} (p : A -> bool) (l : list A) : list A :=
  match l with
  | [] => []
  | x :: l' => if p x then drop_while p l' else l
  end.

Definition drop_while_end {A} (p : A -> bool) (l : list A) : list A :=
  reverse (drop_while p (reverse l)).

Definition trim_start (s : rstr) : rstr := drop_while is_whitespace s.
Definition trim_end (s : rstr) : rstr := drop_while_end is_whitespace s.
Definition trim (s : rstr) : rstr := trim_end (trim_start s).
Definition trim_end_matches (c : char) (s : rstr) : rstr := drop_while_end (Z.eqb c) s.

Definition is_empty {A} (l : list A) : bool :=
  match l with [] => true | _ => false end.

Fixpoint starts_with (p s : rstr) : bool :=
  match p, s with
  | [], _ => true
  | c :: p', d :: s' => (c =? d)%Z && starts_with p' s'
  | _ :: _, [] => false
  end.

Fixpoint strip_prefix (p s : rstr) : option rstr :=
  match p, s with
  | [], _ => Some s
  | c :: p', d :: s' => if (c =? d)%Z then strip_prefix p' s' else None
  | _ :: _, [] => None
  end.

Definition ends_with (p s : rstr) : bool := starts_with (reverse p) (reverse s).

Definition strip_suffix (p s : rstr) : option rstr :=
  reverse <$> strip_prefix (reverse p) (reverse s).

(** [str::find] with a string needle: the first position it occurs at. *)
Fixpoint find_sub (needle s : rstr) : option nat :=
  if starts_with needle s then Some 0%nat
  else match s with [] => None | _ :: s' => S <$> find_sub needle s' end.

Definition contains_sub (needle s : rstr) : bool :=
  match find_sub needle s with Some _ => true | None => false end.

Definition contains_char (c : char) (s : rstr) : bool := existsb (Z.eqb c) s.

(** [str::split_once] and [str::rsplit_once] with a char. *)
Fixpoint split_once (c : char) (s : rstr) : option (rstr * rstr) :=
  match s with
  | [] => None
  | d :: s' => if (d =? c)%Z then Some ([], s')
               else '(a, b) ← split_once c s'; Some (d :: a, b)
  end.

Definition rsplit_once (c : char) (s : rstr) : option (rstr * rstr) :=
  '(a, b) ← split_once c (reverse s); Some (reverse b, reverse a).

(** [str::split] with a char: always at least one piece. *)
Fixpoint split_char (c : char) (s : rstr) : list rstr :=
  match s with
  | [] => [[]]
  | d :: s' =>
      if (d =? c)%Z then [] :: split_char c s'
      else match split_char c s' with
           | [] => [[d]]
           | p :: ps => (d :: p) :: ps
           end
  end.

(** [str::split_inclusive] with a char: the separator stays at the end of its
    piece, and there is no empty last piece. *)
Fixpoint split_inclusive (c : char) (s : rstr) : list rstr :=
  match s with
  | [] => []
  | d :: s' =>
      if (d =? c)%Z then [d] :: split_inclusive c s'
      else match split_inclusive c s' with
           | [] => [[d]]
           | p :: ps => (d :: p) :: ps
           end
  end.

(** The line of one [split_inclusive('\n')] piece, as [str::lines] reports it. *)
Definition strip_line_ending (p : rstr) : rstr :=
  match strip_suffix [NL] p with
  | None => p
  | Some l => match strip_suffix [CR] l with None => l | Some l' => l' end
  end.

Definition str_lines (s : rstr) : list rstr :=
  map strip_line_ending (split_inclusive NL s).

(** [slice::join]. *)
Fixpoint join (sep : rstr) (l : list rstr) : rstr :=
  match l with
  | [] => []
  | [x] => x
  | x :: l' => x ++ sep ++ join sep l'
  end.

(** The derived order of vectors: lexicographic. *)
Fixpoint lex_leb {A} (eqb leb : A -> A -> bool) (a b : list A) : bool :=
  match a, b with
  | [], _ => true
  | _ :: _, [] => false
  | x :: a', y :: b' => if eqb x y then lex_leb eqb leb a' b' else leb x y
  end.

Definition str_leb (a b : rstr) : bool := lex_leb Z.eqb Z.leb a b.
(** [Vec::dedup]: removes consecutive repetitions. *)
Fixpoint dedup {A} `{EqDecision A} (l : list A) : list A :=
  match l with
  | [] => []
  | x :: l' => match l' with
               | [] => [x]
               | y :: _ => if bool_decide (x = y) then dedup l' else x :: dedup l'
               end
  end.

(** [slice::sort_by] and [sort_by_key]: stable. *)
Fixpoint insert_by {A} (leb : A -> A -> bool) (x : A) (l : list A) : list A :=
  match l with
  | [] => [x]
  | y :: l' => if leb x y then x :: l else y :: insert_by leb x l'
  end.

Definition sort_by {A} (leb : A -> A -> bool) (l : list A) : list A := foldr (insert_by leb) [] l.

(** Decimal rendering of an unsigned integer. *)
Fixpoint dec_digits (fuel : nat) (n : Z) (acc : rstr) : rstr :=
  match fuel with
  | O => acc
  | S f => let acc' := (48 + n mod 10)%Z :: acc in
           if (n <? 10)%Z then acc' else dec_digits f (n / 10)%Z acc'
  end.

Definition dec (n : Z) : rstr := dec_digits 20 n [].

(** ** Automation *)

(** Splits the computation that produced a result into the results of its steps. *)
Ltac res_inv :=
  unfold mbind, res_bind, mret, res_ret, fmap, res_fmap, ok_or, or_panic in *;
  repeat (case_match; simplify_eq/=).

(** Turns boolean tests of the code into propositions. *)
Ltac bool_prop :=
  repeat match goal with
  | H : (_ && _)%bool = true |- _ => apply andb_true_iff in H as [? ?]
  | H : (_ || _)%bool = false |- _ => apply orb_false_iff in H as [? ?]
  | H : negb _ = true |- _ => apply negb_true_iff in H
  | H : negb _ = false |- _ => apply negb_false_iff in H
  | H : bool_decide _ = true |- _ => apply bool_decide_eq_true in H
  | H : bool_decide _ = false |- _ => apply bool_decide_eq_false in H
  | H : streq _ _ = true |- _ => apply bool_decide_eq_true in H
  | H : streq _ _ = false |- _ => apply bool_decide_eq_false in H
  | H : (_ =? _)%Z = true |- _ => apply Z.eqb_eq in H
  | H : (_ =? _)%Z = false |- _ => apply Z.eqb_neq in H
  | H : (_ <=? _)%Z = true |- _ => apply Z.leb_le in H
  | H : (_ <=? _)%Z = false |- _ => apply Z.leb_gt in H
  | H : (_ <? _)%Z = true |- _ => apply Z.ltb_lt in H
  | H : (_ <? _)%Z = false |- _ => apply Z.ltb_ge in H
  | H : (_ <=? _)%nat = true |- _ => apply Nat.leb_le in H
  | H : (_ <=? _)%nat = false |- _ => apply Nat.leb_gt in H
  | H : (_ <? _)%nat = true |- _ => apply Nat.ltb_lt in H
  | H : (_ <? _)%nat = false |- _ => apply Nat.ltb_ge in H
  | H : (_ =? _)%nat = true |- _ => apply Nat.eqb_eq in H
  | H : (_ =? _)%nat = false |- _ => apply Nat.eqb_neq in H
  end.

(** The invariant rule of a fallible loop. *)
Lemma fold_res_app {E A B} (f : B -> A -> res E B) b l1 l2 :
  fold_res f b (l1 ++ l2) = fold_res f b l1 ≫= fun b' => fold_res f b' l2.
Proof.
  revert b. induction l1 as [|a l1 IH]; intros b; [done|]. cbn [app fold_res].
  unfold mbind, res_bind in *. by destruct (f b a).
Qed.

Lemma fold_res_inv {E A B} (P : B -> Prop) (f : B -> A -> res E B) b l b' :
  P b -> (forall b x b', x ∈ l -> P b -> f b x = Ok b' -> P b') -> fold_res f b l = Ok b' -> P b'.
Proof.
  revert b. induction l as [|x l IH]; intros b Hb Hstep H; simpl in *; [by simplify_eq|].
  destruct (f b x) as [b1|e|] eqn:Ef; [|done..]. simpl in H.
  apply (IH b1); [eapply Hstep; [|done|done]; set_solver| |done].
  intros b0 x0 b0' Hx. apply Hstep. set_solver.
Qed.

(** The rule for total correctness: a loop whose body always succeeds returns, and the
    invariant relates the state it leaves to the elements it has gone through. *)
Lemma fold_res_total {E A B} (P : list A -> B -> Prop) (f : B -> A -> res E B) b l :
  P [] b ->
  (forall seen x b, x ∈ l -> P seen b -> exists b', f b x = Ok b' /\ P (seen ++ [x]) b') ->
  exists b', fold_res f b l = Ok b' /\ P l b'.
Proof.
  intros Hb Hstep.
  assert (forall rest seen b, rest ⊆ l -> P seen b -> exists b', fold_res f b rest = Ok b' /\ P (seen ++ rest) b')
    as Hgen.
  { intros rest. induction rest as [|x rest IH]; intros seen b1 Hsub Hb1.
    - exists b1. by rewrite app_nil_r.
    - destruct (Hstep seen x b1) as (b2 & E2 & H2); [set_solver|done|].
      destruct (IH (seen ++ [x]) b2) as (b3 & E3 & H3); [set_solver|done|].
      exists b3. cbn [fold_res]. rewrite E2. rewrite <- app_assoc in H3. by split. }
  by apply (Hgen l []).
Qed.

Lemma map_res_Ok {E A B} (f : A -> res E B) l l' :
  map_res f l = Ok l' <-> Forall2 (fun x y => f x = Ok y) l l'.
Proof.
  revert l'. induction l as [|x l IH]; intros l'; simpl.
  - split; [intros [= <-]; constructor|by inversion 1].
  - split.
    + intros H. destruct (f x) eqn:Ex; [|done..]. simpl in H.
      destruct (map_res f l) eqn:El; [|done..]. simpl in H. simplify_eq. constructor; [done|by apply IH].
    + inversion 1 as [|? y ? ys Hy Hys]; subst. rewrite Hy. simpl. by rewrite (proj2 (IH ys) Hys).
Qed.

Create HintDb rstr discriminated.
Create Rewrite HintDb rstr.

(** ** Strings *)

Lemma streq_true a b : streq a b = true <-> a = b.
Proof. apply bool_decide_eq_true. Qed.

Lemma streq_refl a : streq a a = true.
Proof. by apply streq_true. Qed.

Lemma streq_false a b : streq a b = false <-> a ≠ b.
Proof. apply bool_decide_eq_false. Qed.

Lemma is_empty_true {A} (l : list A) : is_empty l = true <-> l = [].
Proof. by destruct l. Qed.

Lemma is_empty_false {A} (l : list A) : is_empty l = false <-> l ≠ [].
Proof. by destruct l. Qed.

Lemma strip_prefix_Some p s r : strip_prefix p s = Some r <-> s = p ++ r.
Proof.
  revert s. induction p as [|c p IH]; intros s; simpl.
  - split; congruence.
  - destruct s as [|d s]; [done|].
    destruct (Z.eqb_spec c d) as [->|Hne].
    + rewrite IH. split; [by intros ->|by intros [= ->]].
    + split; [done|congruence].
Qed.

Lemma contains_char_false c s : contains_char c s = false <-> c ∉ s.
Proof.
  unfold contains_char. rewrite <- not_true_iff_false, existsb_exists, list_elem_of_In.
  setoid_rewrite Z.eqb_eq. naive_solver.
Qed.

Lemma existsb_elem {A} (f : A -> bool) l : existsb f l = true <-> exists x, x ∈ l /\ f x = true.
Proof. rewrite existsb_exists. setoid_rewrite list_elem_of_In. done. Qed.

Lemma split_once_Some c s a b : split_once c s = Some (a, b) <-> s = a ++ c :: b /\ c ∉ a.
Proof.
  revert a b. induction s as [|d s IH]; intros a b; cbn [split_once].
  - split; [done|]. intros [E _]. by destruct a.
  - destruct (Z.eqb_spec d c) as [->|Hne].
    + split; [intros [= <- <-]; split; [done|set_solver]|]. intros [E Hc]. destruct a as [|x a]; simplify_eq/=; [done|set_solver].
    + destruct (split_once c s) as [[a' b']|] eqn:E; cbn [mbind option_bind].
      * split; [intros [= <- <-]; destruct (proj1 (IH a' b') eq_refl) as [-> Hc]; split; [done|set_solver]|].
        intros [Es Hc]. destruct a as [|x a]; simplify_eq/=. assert (Some (a', b') = Some (a, b)) as [= -> ->] by (apply IH; set_solver). done.
      * split; [done|]. intros [Es Hc]. destruct a as [|x a]; simplify_eq/=. assert (None = Some (a, b)) by (apply IH; set_solver). done.
Qed.

Lemma strip_prefix_app p r : strip_prefix p (p ++ r) = Some r.
Proof. by apply strip_prefix_Some. Qed.

Lemma starts_with_true p s : starts_with p s = true <-> exists r, s = p ++ r.
Proof.
  revert s. induction p as [|c p IH]; intros s; simpl.
  - split; [by exists s|done].
  - destruct s as [|d s]; [split; [done|by intros [r ?]]|].
    rewrite andb_true_iff, IH, Z.eqb_eq. split.
    + intros [-> [r ->]]. by exists r.
    + intros [r [= -> ->]]. eauto.
Qed.

Lemma starts_with_strip p s : starts_with p s = bool_decide (is_Some (strip_prefix p s)).
Proof.
  apply eq_bool_prop_intro. rewrite !Is_true_true, starts_with_true, bool_decide_eq_true.
  unfold is_Some. by setoid_rewrite strip_prefix_Some.
Qed.

Lemma starts_with_app p r : starts_with p (p ++ r) = true.
Proof. apply starts_with_true. eauto. Qed.

Lemma strip_suffix_Some p s r : strip_suffix p s = Some r <-> s = r ++ p.
Proof.
  unfold strip_suffix. rewrite fmap_Some. split.
  - intros (x & Hx & ->). apply strip_prefix_Some in Hx.
    rewrite <- (reverse_involutive s), Hx, reverse_app, reverse_involutive. done.
  - intros ->. exists (reverse r). rewrite reverse_involutive, reverse_app. split; [|done].
    apply strip_prefix_app.
Qed.

Lemma strip_suffix_app p r : strip_suffix p (r ++ p) = Some r.
Proof. by apply strip_suffix_Some. Qed.

Lemma strip_suffix_None p s : strip_suffix p s = None <-> forall r, s ≠ r ++ p.
Proof.
  destruct (strip_suffix p s) as [r|] eqn:E.
  - apply strip_suffix_Some in E. split; [done|intros H; by destruct (H r)].
  - split; [|done]. intros _ r Hr. apply strip_suffix_Some in Hr. congruence.
Qed.

Lemma ends_with_true p s : ends_with p s = true <-> exists r, s = r ++ p.
Proof.
  unfold ends_with. rewrite starts_with_true. split; intros [r Hr].
  - exists (reverse r). rewrite <- (reverse_involutive s), Hr, reverse_app, reverse_involutive. done.
  - exists (reverse r). by rewrite Hr, reverse_app.
Qed.

#[export] Hint Rewrite streq_refl strip_prefix_app starts_with_app strip_suffix_app : rstr.

(** *** Trimming *)

Lemma drop_while_suffix {A} (p : A -> bool) l :
  exists d, l = d ++ drop_while p l /\ Forall (fun x => p x = true) d.
Proof.
  induction l as [|x l [d [Hd Hp]]]; simpl; [by exists []|].
  destruct (p x) eqn:E; [|by exists []].
  exists (x :: d). split; [by rewrite Hd at 1|by constructor].
Qed.

Lemma drop_while_head {A} (p : A -> bool) l x l' :
  drop_while p l = x :: l' -> p x = false.
Proof.
  induction l as [|y l IH]; simpl; [done|].
  destruct (p y) eqn:E; [done|]. by intros [= <- <-].
Qed.

Lemma drop_while_id {A} (p : A -> bool) l :
  (forall x l', l = x :: l' -> p x = false) -> drop_while p l = l.
Proof. destruct l as [|x l]; simpl; [done|]. intros H. by rewrite (H x l). Qed.

Lemma drop_while_all {A} (p : A -> bool) l :
  Forall (fun x => p x = true) l -> drop_while p l = [].
Proof. induction 1 as [|x l Hx _ IH]; simpl; [done|]. by rewrite Hx. Qed.

Lemma drop_while_idemp {A} (p : A -> bool) l : drop_while p (drop_while p l) = drop_while p l.
Proof. apply drop_while_id. intros x l'. apply drop_while_head. Qed.

Lemma drop_while_end_id {A} (p : A -> bool) l :
  (forall l' x, l = l' ++ [x] -> p x = false) -> drop_while_end p l = l.
Proof.
  intros H. unfold drop_while_end. rewrite drop_while_id; [apply reverse_involutive|].
  intros x l' E. apply (H (reverse l')).
  by rewrite <- (reverse_involutive l), E, reverse_cons.
Qed.

Lemma drop_while_end_prefix {A} (p : A -> bool) l :
  exists d, l = drop_while_end p l ++ d /\ Forall (fun x => p x = true) d.
Proof.
  destruct (drop_while_suffix p (reverse l)) as (d & Hd & Hp).
  exists (reverse d). split.
  - unfold drop_while_end. by rewrite <- reverse_app, <- Hd, reverse_involutive.
  - by apply Forall_reverse.
Qed.

Lemma drop_while_end_idemp {A} (p : A -> bool) l :
  drop_while_end p (drop_while_end p l) = drop_while_end p l.
Proof. unfold drop_while_end. by rewrite reverse_involutive, drop_while_idemp. Qed.

Lemma drop_while_end_last {A} (p : A -> bool) l l' x :
  drop_while_end p l = l' ++ [x] -> p x = false.
Proof.
  unfold drop_while_end. intros H. apply (f_equal reverse) in H.
  rewrite reverse_involutive, reverse_snoc in H. by eapply drop_while_head.
Qed.

Lemma trim_end_idemp s : trim_end (trim_end s) = trim_end s.
Proof. apply drop_while_end_idemp. Qed.

(** A prefix of a string that starts without whitespace starts without it too. *)
Lemma trim_start_trim_end s : trim_start (trim_end (trim_start s)) = trim_end (trim_start s).
Proof.
  apply drop_while_id. intros x l' E.
  destruct (drop_while_end_prefix is_whitespace (trim_start s)) as (d & Hd & _).
  fold (trim_end (trim_start s)) in Hd. rewrite E in Hd. by eapply drop_while_head.
Qed.

Lemma trim_idemp s : trim (trim s) = trim s.
Proof. unfold trim. by rewrite trim_start_trim_end, trim_end_idemp. Qed.

(** A string neither end of which is whitespace is its own trim. *)
Definition no_edge_ws (s : rstr) : bool :=
  match s with
  | [] => true
  | c :: _ => negb (is_whitespace c) && negb (is_whitespace (List.last s 0%Z))
  end.

Lemma last_snoc_default {A} (l : list A) x d : List.last (l ++ [x]) d = x.
Proof. induction l as [|y l IH]; [done|]. simpl. by destruct l. Qed.

Lemma trim_end_id s : (forall l' x, s = l' ++ [x] -> is_whitespace x = false) -> trim_end s = s.
Proof. apply drop_while_end_id. Qed.

Lemma trim_id s : no_edge_ws s = true -> trim s = s.
Proof.
  intros H. unfold trim, trim_start. rewrite drop_while_id.
  - apply trim_end_id. intros l' x ->.
    destruct l' as [|c l']; cbn [no_edge_ws app] in H; bool_prop; [done|].
    rewrite app_comm_cons, last_snoc_default in *. done.
  - intros x l' ->. simpl in H. by bool_prop.
Qed.

(** *** Joining and splitting *)

Lemma concat_split_inclusive c s : concat (split_inclusive c s) = s.
Proof.
  induction s as [|d s IH]; simpl; [done|].
  case_match; simpl; [by rewrite IH|].
  destruct (split_inclusive c s) as [|p ps]; simpl in *; by rewrite <- IH.
Qed.

(** The shape [split_inclusive] gives its pieces: all but the last one end in
    the separator, which occurs nowhere else, and no piece is empty. *)
Inductive pieces (c : Z) : list rstr -> Prop :=
| pieces_nil : pieces c []
| pieces_last p : p ≠ [] -> c ∉ p -> pieces c [p]
| pieces_cons p ps : c ∉ p -> pieces c ps -> pieces c ((p ++ [c]) :: ps).

Lemma split_inclusive_pieces c s : pieces c (split_inclusive c s).
Proof.
  induction s as [|d s IH]; simpl; [constructor|].
  destruct (Z.eqb_spec d c) as [->|Hne].
  - apply (pieces_cons c []); [set_solver|done].
  - inversion IH as [|p Hp Hc|p ps Hc Hps].
    + apply pieces_last; [done|]. set_solver.
    + apply pieces_last; [done|]. set_solver.
    + apply (pieces_cons c (d :: p)); [set_solver|done].
Qed.

Lemma split_inclusive_app_sep c p s :
  c ∉ p -> split_inclusive c (p ++ c :: s) = (p ++ [c]) :: split_inclusive c s.
Proof.
  induction p as [|d p IH]; intros Hc; simpl.
  - by rewrite Z.eqb_refl.
  - rewrite not_elem_of_cons in Hc. destruct Hc as [Hd Hc].
    destruct (Z.eqb_spec d c) as [->|_]; [done|]. by rewrite IH.
Qed.

Lemma split_inclusive_no_sep c p : p ≠ [] -> c ∉ p -> split_inclusive c p = [p].
Proof.
  induction p as [|d p IH]; intros Hp Hc; simpl; [done|].
  rewrite not_elem_of_cons in Hc. destruct Hc as [Hd Hc].
  destruct (Z.eqb_spec d c) as [->|_]; [done|].
  destruct p as [|e p]; [done|]. rewrite IH; done.
Qed.

(** Pieces are what splitting their concatenation gives back. *)
Lemma split_inclusive_concat c ps : pieces c ps -> split_inclusive c (concat ps) = ps.
Proof.
  induction 1 as [|p Hp Hc|p ps Hc Hps IH]; simpl.
  - done.
  - rewrite app_nil_r. by apply split_inclusive_no_sep.
  - rewrite <- app_assoc. simpl. by rewrite split_inclusive_app_sep, IH.
Qed.

Lemma pieces_filter c (f : rstr -> bool) ps : pieces c ps -> pieces c (List.filter f ps).
Proof.
  induction 1 as [|p Hp Hc|p ps Hc Hps IH]; simpl.
  - constructor.
  - case_match; by constructor.
  - case_match; [by constructor|done].
Qed.

Lemma split_inclusive_app_nl c s t :
  (s = [] \/ exists s', s = s' ++ [c]) ->
  split_inclusive c (s ++ t) = split_inclusive c s ++ split_inclusive c t.
Proof.
  intros [->|[s' ->]]; [done|]. rewrite <- app_assoc. simpl.
  induction s' as [|d s' IH]; simpl.
  - by rewrite Z.eqb_refl.
  - case_match; [by rewrite IH|]. rewrite IH.
    destruct (split_inclusive c (s' ++ [c])) as [|p ps] eqn:E; [|done].
    apply (f_equal (@concat Z)) in E. rewrite concat_split_inclusive in E. by destruct s'.
Qed.

Lemma str_lines_snoc s l :
  (s = [] \/ exists s', s = s' ++ [NL]) -> NL ∉ l -> (forall l', l ≠ l' ++ [CR]) ->
  str_lines (s ++ l ++ [NL]) = str_lines s ++ [l].
Proof.
  intros Hs Hl Hcr. unfold str_lines.
  rewrite split_inclusive_app_nl, map_app by done. f_equal.
  rewrite split_inclusive_app_sep by done. simpl. f_equal.
  unfold strip_line_ending. rewrite strip_suffix_app.
  by rewrite (proj2 (strip_suffix_None _ _)).
Qed.

(** Lines without terminators, joined by newlines, are split back. *)
Definition plain_line (l : rstr) : Prop := NL ∉ l /\ forall l', l ≠ l' ++ [CR].

Lemma split_char_no_sep c p : c ∉ p -> split_char c p = [p].
Proof.
  induction p as [|d p IH]; intros Hc; simpl; [done|].
  rewrite not_elem_of_cons in Hc. destruct Hc as [Hd Hc].
  destruct (Z.eqb_spec d c) as [->|_]; [done|]. by rewrite IH.
Qed.

Lemma split_char_app_sep c p s :
  c ∉ p -> split_char c (p ++ c :: s) = p :: split_char c s.
Proof.
  induction p as [|d p IH]; intros Hc; simpl.
  - by rewrite Z.eqb_refl.
  - rewrite not_elem_of_cons in Hc. destruct Hc as [Hd Hc].
    destruct (Z.eqb_spec d c) as [->|_]; [done|]. by rewrite IH.
Qed.

Lemma split_char_app c a b : split_char c (a ++ c :: b) = split_char c a ++ split_char c b.
Proof.
  induction a as [|d a IH]; simpl; [by rewrite Z.eqb_refl|].
  case_match; [by rewrite IH|]. rewrite IH.
  destruct (split_char c a) as [|p ps] eqn:E; [|done]. exfalso.
  destruct a; simpl in E; repeat case_match; done.
Qed.

Lemma split_char_nonempty c s : split_char c s ≠ [].
Proof. destruct s; simpl; [done|]. repeat case_match; done. Qed.

Lemma join_split_char c s : join [c] (split_char c s) = s.
Proof.
  induction s as [|d s IH]; simpl; [done|].
  pose proof (split_char_nonempty c s) as Hne.
  destruct (Z.eqb_spec d c) as [->|_].
  - destruct (split_char c s); [done|]. simpl in *. by rewrite IH.
  - destruct (split_char c s) as [|p ps]; [done|]. simpl in *. rewrite <- IH.
    by destruct ps.
Qed.

Lemma split_char_join c ls :
  ls ≠ [] -> Forall (fun l => c ∉ l) ls -> split_char c (join [c] ls) = ls.
Proof.
  induction ls as [|l ls IH]; intros Hne Hall; [done|].
  apply Forall_cons in Hall as [Hl Hall].
  destruct ls as [|l' ls]; [by apply split_char_no_sep|].
  simpl. rewrite split_char_app_sep by done. f_equal. by apply IH.
Qed.

(** *** Orders, sorting and repetitions *)

Section lex.
Context {A : Type} (eqb leb : A -> A -> bool).
Context (eqb_spec : forall x y, eqb x y = true <-> x = y).
Context (leb_total : forall x y, leb x y = true \/ leb y x = true).
Context (leb_trans : forall x y z, leb x y = true -> leb y z = true -> leb x z = true).
Context (leb_antisym : forall x y, leb x y = true -> leb y x = true -> x = y).

Lemma lex_leb_total a b : lex_leb eqb leb a b = true \/ lex_leb eqb leb b a = true.
Proof using eqb_spec leb_total.
  revert b. induction a as [|x a IH]; intros [|y b]; simpl; auto.
  destruct (eqb x y) eqn:E.
  - apply eqb_spec in E as ->. rewrite (proj2 (eqb_spec y y) eq_refl). apply IH.
  - destruct (eqb y x) eqn:E'; [|apply leb_total].
    apply eqb_spec in E' as ->. by rewrite (proj2 (eqb_spec x x) eq_refl) in E.
Qed.

Lemma lex_leb_antisym a b : lex_leb eqb leb a b = true -> lex_leb eqb leb b a = true -> a = b.
Proof using eqb_spec leb_antisym.
  revert b. induction a as [|x a IH]; intros [|y b]; simpl; try done.
  destruct (eqb x y) eqn:E.
  - apply eqb_spec in E as ->. rewrite (proj2 (eqb_spec y y) eq_refl). intros. f_equal. by apply IH.
  - destruct (eqb y x) eqn:E'.
    + apply eqb_spec in E' as ->. by rewrite (proj2 (eqb_spec x x) eq_refl) in E.
    + intros H1 H2. pose proof (leb_antisym _ _ H1 H2) as ->.
      by rewrite (proj2 (eqb_spec y y) eq_refl) in E.
Qed.

Lemma lex_leb_trans a b c :
  lex_leb eqb leb a b = true -> lex_leb eqb leb b c = true -> lex_leb eqb leb a c = true.
Proof using eqb_spec leb_antisym leb_trans.
  revert b c. induction a as [|x a IH]; intros [|y b] [|z c]; simpl; try done.
  destruct (eqb x y) eqn:E1, (eqb y z) eqn:E2, (eqb x z) eqn:E3;
    rewrite ?eqb_spec in *; subst; try done; intros H1 H2; try by eapply IH.
  all: try by eapply leb_trans.
  all: try (rewrite (proj2 (eqb_spec _ _) eq_refl) in *; done).
  pose proof (leb_antisym _ _ H1 H2) as ->. rewrite (proj2 (eqb_spec _ _) eq_refl) in *. done.
Qed.
End lex.

Lemma str_leb_antisym x y : str_leb x y = true -> str_leb y x = true -> x = y.
Proof.
  apply lex_leb_antisym; [apply Z.eqb_eq|]. intros p q. rewrite !Z.leb_le. lia.
Qed.

Lemma dedup_cons2 {A} `{EqDecision A} (x y : A) l :
  dedup (x :: y :: l) = if bool_decide (x = y) then dedup (y :: l) else x :: dedup (y :: l).
Proof. done. Qed.

Lemma dedup_elem {A} `{EqDecision A} (l : list A) x : x ∈ dedup l <-> x ∈ l.
Proof.
  induction l as [|y l IH]; [done|]. destruct l as [|z l]; [done|]. rewrite dedup_cons2.
  case_bool_decide as E; [subst; rewrite IH; set_solver|rewrite !elem_of_cons, IH, elem_of_cons; tauto].
Qed.

Lemma dedup_strongly_sorted {A} `{EqDecision A} (R : relation A) (l : list A) :
  (forall a b, R a b -> R b a -> a = b) -> StronglySorted R l ->
  StronglySorted R (dedup l) /\ NoDup (dedup l).
Proof.
  intros Hanti. induction 1 as [|x l Hs IH Hx]; [repeat constructor|].
  destruct IH as [IHs IHn]. destruct l as [|z l]; [repeat constructor; set_solver|].
  rewrite dedup_cons2.
  case_bool_decide as E; [done|]. split.
  - constructor; [done|]. apply Forall_forall. intros y Hy%(proj1 (dedup_elem _ _)).
    rewrite Forall_forall in Hx. by apply Hx.
  - constructor; [|done]. intros Hin%(proj1 (dedup_elem _ _)).
    apply elem_of_cons in Hin as [|Hin]; [done|].
    apply StronglySorted_inv in Hs as [_ Hz]. rewrite Forall_forall in Hx, Hz.
    apply E, Hanti; [apply Hx; set_solver|by apply Hz].
Qed.


Lemma insert_by_elem {A} (leb : A -> A -> bool) x l y : y ∈ insert_by leb x l <-> y = x \/ y ∈ l.
Proof.
  induction l as [|z l IH]; simpl; [set_solver|]. case_match; [set_solver|].
  rewrite !elem_of_cons, IH. tauto.
Qed.

Lemma insert_by_perm {A} (leb : A -> A -> bool) x l : insert_by leb x l ≡ₚ x :: l.
Proof. induction l as [|y l IH]; [done|]. cbn [insert_by]. destruct (leb x y); [done|]. rewrite IH. apply perm_swap. Qed.

Lemma sort_by_perm {A} (leb : A -> A -> bool) l : sort_by leb l ≡ₚ l.
Proof. induction l as [|x l IH]; simpl; [done|]. by rewrite insert_by_perm, IH. Qed.

Lemma sort_by_elem {A} (leb : A -> A -> bool) l y : y ∈ sort_by leb l <-> y ∈ l.
Proof.
  induction l as [|x l IH]; simpl; [done|]. by rewrite insert_by_elem, IH, elem_of_cons.
Qed.
