(* ===== verification/Width.v ===== *)
(** * Machine integers and byte lengths of strings

    The unsigned 64-bit arithmetic that the source saturates ([usize] and [u64] on a
    64-bit target), the number of bytes of a [char] and of a [str], and slicing of a
    [str] at a byte offset, which panics when the offset is not on a character
    boundary. Used where the code counts bytes and not characters. *)
From S2P Require Import Prelude.

Set Default Goal Selector "!".

Open Scope Z_scope.

Definition USIZE_MAX : Z := 2 ^ 64 - 1.

Definition I64_MAX : Z := 2 ^ 63 - 1.

(** [usize::saturating_add], [saturating_sub] and [saturating_mul]. *)
Definition saturating_add (a b : Z) : Z := Z.min (a + b) USIZE_MAX.
Definition saturating_sub (a b : Z) : Z := Z.max (a - b) 0.
Definition saturating_mul (a b : Z) : Z := Z.min (a * b) USIZE_MAX.

(** The values of [usize]. *)
Definition usize (n : Z) : Prop := 0 <= n <= USIZE_MAX.

(** [char::len_utf8] and [str::len]. *)
Definition len_utf8 (c : char) : Z :=
  if c <? 128 then 1 else if c <? 2048 then 2 else if c <? 65536 then 3 else 4.

Fixpoint byte_len (s : rstr) : Z :=
  match s with [] => 0 | c :: s' => len_utf8 c + byte_len s' end.

(** [str::split_at]: [&s[..n]] and [&s[n..]] for a byte offset [n]. *)
Fixpoint split_at_byte {E} (n : Z) (s : rstr) : res E (rstr * rstr) :=
  if n =? 0 then Ok ([], s)
  else match s with
       | [] => Panic
       | c :: s' =>
           if len_utf8 c <=? n
           then '(a, b) ← split_at_byte (n - len_utf8 c) s'; Ok (c :: a, b)
           else Panic
       end.

(** [str::char_indices]: each character with the offset of its first byte. *)
Fixpoint char_indices_from (at_ : Z) (s : rstr) : list (Z * char) :=
  match s with [] => [] | c :: s' => (at_, c) :: char_indices_from (at_ + len_utf8 c) s' end.

Definition char_indices (s : rstr) : list (Z * char) := char_indices_from 0 s.

(** A string in memory: its size in bytes is at most [isize::MAX]. *)
Definition str_ok (s : rstr) : Prop := byte_len s <= I64_MAX.

(** ** Lemmas *)

Lemma len_utf8_bounds c : 1 <= len_utf8 c <= 4.
Proof. unfold len_utf8. repeat case_match; lia. Qed.

Lemma byte_len_nonneg s : 0 <= byte_len s.
Proof. induction s as [|c s IH]; simpl; [done|]. pose proof (len_utf8_bounds c). lia. Qed.

Lemma byte_len_app a b : byte_len (a ++ b) = byte_len a + byte_len b.
Proof. induction a as [|c a IH]; simpl; [done|]. lia. Qed.

Lemma byte_len_pos s : s ≠ [] -> 0 < byte_len s.
Proof.
  destruct s as [|c s]; [done|]. intros _. simpl.
  pose proof (len_utf8_bounds c). pose proof (byte_len_nonneg s). lia.
Qed.

Lemma byte_len_zero s : byte_len s <= 0 -> s = [].
Proof. intros H. destruct s as [|c s]; [done|]. pose proof (byte_len_pos (c :: s)). naive_solver lia. Qed.

(** At least a byte and at most four bytes for a character. *)
Lemma byte_len_length s : Z.of_nat (length s) <= byte_len s <= 4 * Z.of_nat (length s).
Proof. induction s as [|c s IH]; simpl; [done|]. pose proof (len_utf8_bounds c). lia. Qed.

Lemma byte_len_ascii s : Forall (fun c => c < 128) s -> byte_len s = Z.of_nat (length s).
Proof.
  induction 1 as [|c s Hc _ IH]; [done|]. simpl. unfold len_utf8 at 1.
  rewrite (proj2 (Z.ltb_lt c 128)) by done. lia.
Qed.

Lemma split_at_byte_app {E} a b : @split_at_byte E (byte_len a) (a ++ b) = Ok (a, b).
Proof.
  induction a as [|c a IH]; [by destruct b|]. cbn [byte_len app split_at_byte].
  pose proof (len_utf8_bounds c). pose proof (byte_len_nonneg a).
  destruct (Z.eqb_spec (len_utf8 c + byte_len a) 0); [lia|].
  destruct (Z.leb_spec (len_utf8 c) (len_utf8 c + byte_len a)); [|lia].
  replace (len_utf8 c + byte_len a - len_utf8 c) with (byte_len a) by lia.
  by rewrite IH.
Qed.

Lemma char_indices_from_app at_ a b :
  char_indices_from at_ (a ++ b) = char_indices_from at_ a ++ char_indices_from (at_ + byte_len a) b.
Proof.
  revert at_. induction a as [|c a IH]; intros at_; simpl; [by rewrite Z.add_0_r|].
  rewrite IH. do 3 f_equal. lia.
Qed.

(** Digits printed for a number take a byte each, and at most [fuel] are printed. *)
Lemma dec_digits_ascii fuel n acc :
  0 <= n -> Forall (fun c => c < 128) acc -> Forall (fun c => c < 128) (dec_digits fuel n acc).
Proof.
  revert n acc. induction fuel as [|f IH]; intros n acc Hn Hacc; [done|].
  pose proof (Z.mod_pos_bound n 10). cbn [dec_digits].
  case_match; [constructor; [lia|done]|]. apply IH; [|constructor; [lia|done]].
  apply Z.div_pos; lia.
Qed.

Lemma dec_digits_length fuel n acc : (length (dec_digits fuel n acc) <= fuel + length acc)%nat.
Proof.
  revert n acc. induction fuel as [|f IH]; intros n acc; cbn [dec_digits]; [lia|].
  case_match; simpl; [lia|]. rewrite IH. simpl. lia.
Qed.

Lemma byte_len_dec n : 0 <= n -> 0 <= byte_len (dec n) <= 20.
Proof.
  intros Hn. split; [apply byte_len_nonneg|]. unfold dec.
  rewrite byte_len_ascii by (by apply dec_digits_ascii).
  pose proof (dec_digits_length 20 n []). simpl in *. lia.
Qed.

#[export] Hint Resolve byte_len_nonneg : rstr.
#[export] Hint Rewrite byte_len_app : rstr.

Close Scope Z_scope.
