(* ===== verification/AbsPath.v ===== *)
(** * Absolute, normalised paths

    Models [workx-rs/utils/absolute-path/src/lib.rs] ([AbsolutePathBuf]) and
    [absolutize.rs] on Unix hosts: home expansion, the current directory as the
    base of relative paths, and lexical normalisation. A [PathBuf] is compared
    by its components in Rust, so a normalised path is its component list;
    [path_string] is the text it stands for. The home directory and the current
    directory are read from the process and are an argument, [PathEnv]. *)
From S2P Require Import Prelude.

Set Default Goal Selector "!".

Definition SLASH : char := 47.
Definition TILDE : char := 126.

(** ** The parts of [std::path] the code uses *)

(** [std::path::Component] without the Windows-only [Prefix]. *)
Inductive Component :=
| RootDir
| CurDir
| ParentDir
| Normal (name : rstr).

#[export] Instance Component_eq_dec : EqDecision Component.
Proof. solve_decision. Defined.

(** [Path::is_absolute] on Unix. *)
Definition is_absolute (path : rstr) : bool := starts_with [SLASH] path.

(** The component a segment between separators stands for: empty and [.]
    segments stand for none. *)
Definition segment_component (seg : rstr) : option Component :=
  if is_empty seg then None
  else if streq seg (lit ".") then None
  else if streq seg (lit "..") then Some ParentDir
  else Some (Normal seg).

(** [Path::components]: a relative path that starts with [.] keeps it. *)
Definition components (path : rstr) : list Component :=
  let segs := split_char SLASH path in
  if is_absolute path then RootDir :: omap segment_component segs
  else if streq (default [] (head segs)) (lit ".") then CurDir :: omap segment_component segs
  else omap segment_component segs.

(** [PathBuf::push] and [Path::join] on Unix. *)
Definition path_join (buf path : rstr) : rstr :=
  if is_absolute path then path
  else if is_empty buf || ends_with [SLASH] buf then buf ++ path
  else buf ++ [SLASH] ++ path.

(** [PathBuf::push] of one component. *)
Definition push_component (buf : list Component) (c : Component) : list Component :=
  match c with RootDir => [RootDir] | _ => buf ++ [c] end.

(** [PathBuf::pop]: removes the last component unless it is the root. *)
Definition pop_component (buf : list Component) : list Component :=
  match last buf with
  | None | Some RootDir => buf
  | Some _ => take (length buf - 1) buf
  end.

(** [Path::file_name]. *)
Definition file_name (path : list Component) : option rstr :=
  match last path with Some (Normal n) => Some n | _ => None end.

Definition component_string (c : Component) : rstr :=
  match c with
  | RootDir => []
  | CurDir => lit "."
  | ParentDir => lit ".."
  | Normal n => n
  end.

(** The text of a path built by pushing components. *)
Definition path_string (path : list Component) : rstr :=
  match path with
  | [RootDir] => [SLASH]
  | _ => join [SLASH] (map component_string path)
  end.

(** ** [AbsolutePathBuf] *)

Record PathEnv := {
  env_home : option rstr;
  env_cwd : option rstr;
}.

(** The error [std::env::current_dir] returns. *)
Inductive PathError := CurrentDirUnavailable | NotAbsolute (path : rstr).

Abbreviation AbsolutePathBuf := (list Component) (only parsing).

Definition trim_start_matches (c : char) (s : rstr) : rstr := drop_while (Z.eqb c) s.

Definition maybe_expand_home_directory (env : PathEnv) (path : rstr) : rstr :=
  match strip_prefix [TILDE] path, env_home env with
  | Some rest, Some home =>
      if is_empty rest then home
      else match strip_prefix [SLASH] rest with
           | Some rest' => path_join home (trim_start_matches SLASH rest')
           | None => path
           end
  | _, _ => path
  end.

Definition normalize_step (buf : list Component) (c : Component) : list Component :=
  match c with
  | CurDir => buf
  | ParentDir => pop_component buf
  | RootDir | Normal _ => push_component buf c
  end.

Definition normalize_path (path : rstr) : list Component :=
  let normalized := fold_left normalize_step (components path) [] in
  if is_empty normalized then [CurDir] else normalized.

Definition absolutize_from (path base_path : rstr) : list Component :=
  normalize_path (if is_absolute path then path else path_join base_path path).

Definition absolutize (env : PathEnv) (path : rstr) : res PathError (list Component) :=
  if is_absolute path then Ok (normalize_path path)
  else cwd ← ok_or (env_cwd env) CurrentDirUnavailable;
       Ok (absolutize_from path cwd).

Definition from_absolute_path (env : PathEnv) (path : rstr) : res PathError AbsolutePathBuf :=
  absolutize env (maybe_expand_home_directory env path).

Definition from_absolute_path_checked (env : PathEnv) (path : rstr)
  : res PathError AbsolutePathBuf :=
  let expanded := maybe_expand_home_directory env path in
  if is_absolute expanded then Ok (absolutize_from expanded [SLASH])
  else Err (NotAbsolute path).

Definition resolve_path_against_base (env : PathEnv) (path base_path : rstr) : AbsolutePathBuf :=
  absolutize_from (maybe_expand_home_directory env path) base_path.

(** [AbsolutePathBuf::join]. *)
Definition abs_join (env : PathEnv) (self : AbsolutePathBuf) (path : rstr) : AbsolutePathBuf :=
  resolve_path_against_base env path (path_string self).

(** ** The promise: absolute and normalised *)

(** A name a normalised path may hold. *)
Definition good_name (n : rstr) : Prop :=
  n ≠ [] /\ n ≠ lit "." /\ n ≠ lit ".." /\ SLASH ∉ n.

Definition good_component (c : Component) : Prop :=
  match c with Normal n => good_name n | _ => False end.

(** The root followed by proper names. *)
Definition normalized (p : list Component) : Prop :=
  exists ns, p = RootDir :: map Normal ns /\ Forall good_name ns.

(** The environment gives absolute directories, as the operating system does. *)
Definition env_absolute (env : PathEnv) : Prop :=
  (forall h, env_home env = Some h -> is_absolute h = true) /\
  (forall d, env_cwd env = Some d -> is_absolute d = true).

(** ** Lemmas *)

Lemma segment_component_good seg c :
  SLASH ∉ seg -> segment_component seg = Some c ->
  c = ParentDir \/ exists n, c = Normal n /\ good_name n.
Proof.
  unfold segment_component. intros Hs H. repeat (case_match; simplify_eq/=); [by left|].
  right. eexists. split; [done|]. bool_prop. split_and!; try done. by intros ->.
Qed.

Lemma split_char_no_elem c s : Forall (fun p => c ∉ p) (split_char c s).
Proof.
  induction s as [|d s IH]; simpl; [repeat constructor; set_solver|].
  destruct (Z.eqb_spec d c) as [->|Hne].
  - constructor; [set_solver|done].
  - destruct (split_char c s) as [|p ps]; [repeat constructor; set_solver|].
    apply Forall_cons in IH as [Hp IH]. constructor; [set_solver|done].
Qed.

Lemma omap_segments_good segs :
  Forall (fun s => SLASH ∉ s) segs ->
  Forall (fun c => c = ParentDir \/ exists n, c = Normal n /\ good_name n)
    (omap segment_component segs).
Proof.
  induction 1 as [|s segs Hs _ IH]; simpl; [done|].
  destruct (segment_component s) eqn:E; [|done].
  constructor; [by eapply segment_component_good|done].
Qed.

Lemma pop_component_snoc p c : c ≠ RootDir -> pop_component (p ++ [c]) = p.
Proof.
  intros Hc. unfold pop_component. rewrite last_snoc, length_app. simpl.
  rewrite Nat.add_sub, take_app_length. by destruct c.
Qed.

Lemma normalize_step_normalized p c :
  normalized p -> (c = ParentDir \/ exists n, c = Normal n /\ good_name n) ->
  normalized (normalize_step p c).
Proof.
  intros (ns & -> & Hns) [->|(n & -> & Hn)]; simpl.
  - destruct ns as [|n ns _] using rev_ind; [by exists []|].
    exists ns. rewrite Forall_app in Hns. split; [|tauto].
    rewrite map_app. apply (pop_component_snoc (RootDir :: map Normal ns) (Normal n)). done.
  - exists (ns ++ [n]). rewrite map_app. split; [done|].
    apply Forall_app. split; [done|]. by apply Forall_singleton.
Qed.

Lemma normalize_fold_normalized cs p :
  normalized p -> Forall (fun c => c = ParentDir \/ exists n, c = Normal n /\ good_name n) cs ->
  normalized (fold_left normalize_step cs p).
Proof.
  intros Hp Hcs. revert p Hp. induction Hcs as [|c cs Hc _ IH]; intros p Hp; simpl; [done|].
  apply IH. by apply normalize_step_normalized.
Qed.

Lemma normalize_path_normalized path :
  is_absolute path = true -> normalized (normalize_path path).
Proof.
  intros Habs. unfold normalize_path, components. rewrite Habs. simpl.
  assert (normalized (fold_left normalize_step
    (omap segment_component (split_char SLASH path)) [RootDir])) as Hn.
  { apply normalize_fold_normalized; [by exists []|].
    apply omap_segments_good, split_char_no_elem. }
  destruct (is_empty _) eqn:E; [|done].
  apply is_empty_true in E. destruct Hn as (? & ? & _). congruence.
Qed.

Lemma path_join_absolute b p : is_absolute b = true -> is_absolute (path_join b p) = true.
Proof.
  unfold path_join, is_absolute. destruct (starts_with [SLASH] p) eqn:E; [done|].
  intros (r & ->)%starts_with_true. destruct (is_empty _ || _); done.
Qed.

(** A path that starts with [/] is never taken for a home-relative one. *)
Lemma expand_home_id env path :
  is_absolute path = true -> maybe_expand_home_directory env path = path.
Proof.
  unfold is_absolute, maybe_expand_home_directory. destruct path as [|c path]; [done|].
  cbn [starts_with strip_prefix]. rewrite andb_true_r, Z.eqb_eq. by intros <-.
Qed.

Lemma path_string_segments ns :
  Forall good_name ns ->
  path_string (RootDir :: map Normal ns) = [SLASH] ++ join [SLASH] ns /\
  split_char SLASH (path_string (RootDir :: map Normal ns)) = [] :: (if is_empty ns then [[]] else ns).
Proof.
  intros Hns. destruct ns as [|n ns]; [done|].
  assert (map component_string (map Normal (n :: ns)) = n :: ns) as Hm.
  { rewrite map_map. simpl. by rewrite map_id. }
  assert (path_string (RootDir :: map Normal (n :: ns)) = [SLASH] ++ join [SLASH] (n :: ns)) as ->.
  { change (path_string (RootDir :: map Normal (n :: ns))) with
      (join [SLASH] ([] :: map component_string (map Normal (n :: ns)))).
    by rewrite Hm. }
  split; [done|]. change ([SLASH] ++ join [SLASH] (n :: ns)) with ([] ++ SLASH :: join [SLASH] (n :: ns)).
  rewrite split_char_app_sep by set_solver. f_equal.
  rewrite split_char_join; [done|done|].
  eapply Forall_impl; [done|]. by intros x (_ & _ & _ & ?).
Qed.

Lemma omap_good_names ns :
  Forall good_name ns -> omap segment_component ns = map Normal ns.
Proof.
  induction 1 as [|n ns (Hne & H1 & H2 & _) _ IH]; [done|].
  cbn [omap list_omap]. unfold segment_component at 1.
  rewrite (proj2 (is_empty_false n) Hne), (proj2 (streq_false _ _) H1), (proj2 (streq_false _ _) H2).
  simpl. by f_equal.
Qed.

Lemma fold_normal ns p : fold_left normalize_step (map Normal ns) p = p ++ map Normal ns.
Proof.
  revert p. induction ns as [|n ns IH]; intros p; simpl; [by rewrite app_nil_r|].
  by rewrite IH, <- app_assoc.
Qed.

(** The text of a normalised path normalises back to it. *)
Lemma normalize_path_string p :
  normalized p -> is_absolute (path_string p) = true /\ normalize_path (path_string p) = p.
Proof.
  intros (ns & -> & Hns). destruct (path_string_segments ns Hns) as [Hs Hsplit].
  assert (is_absolute (path_string (RootDir :: map Normal ns)) = true) as Habs by by rewrite Hs.
  split; [done|]. unfold normalize_path, components. rewrite Habs, Hsplit.
  assert (omap segment_component ([] :: (if is_empty ns then [[]] else ns)) = map Normal ns) as ->.
  { destruct ns as [|n ns]; [done|]. cbn [is_empty]. rewrite <- omap_good_names by done. done. }
  change (fold_left normalize_step (RootDir :: map Normal ns) [])
    with (fold_left normalize_step (map Normal ns) [RootDir]).
  by rewrite fold_normal.
Qed.

Lemma from_absolute_path_result env s p :
  env_absolute env -> from_absolute_path env s = Ok p -> normalized p.
Proof.
  intros Henv H. unfold from_absolute_path, absolutize in H. res_inv.
  - by apply normalize_path_normalized.
  - unfold absolutize_from. apply normalize_path_normalized.
    destruct Henv as [_ Hcwd]. case_match; [done|].
    by apply path_join_absolute, Hcwd.
Qed.

Lemma abs_join_normalized env p s :
  env_absolute env -> normalized p -> normalized (abs_join env p s).
Proof.
  intros _ Hp. apply normalize_path_normalized.
  destruct (normalize_path_string p Hp) as [Habs _].
  case_match; [done|]. by apply path_join_absolute.
Qed.

(** A string that is not read through the home directory and is absolute needs
    no current directory. *)
Lemma from_absolute_path_absolute env s :
  is_absolute s = true -> from_absolute_path env s = Ok (normalize_path s).
Proof.
  intros Hs. unfold from_absolute_path, absolutize. by rewrite expand_home_id, Hs.
Qed.

(** A name relative to the current directory resolves to a file of that name. *)
Lemma from_absolute_path_dot env cwd n :
  env_cwd env = Some cwd -> is_absolute cwd = true -> good_name n ->
  exists p, from_absolute_path env (lit "./" ++ n) = Ok p /\ file_name p = Some n.
Proof.
  intros Hcwd Habs Hn. unfold from_absolute_path, absolutize.
  change (maybe_expand_home_directory env (lit "./" ++ n)) with (lit "./" ++ n).
  change (is_absolute (lit "./" ++ n)) with false. rewrite Hcwd. cbn [mbind res_bind ok_or].
  eexists. split; [done|]. unfold absolutize_from.
  change (is_absolute (lit "./" ++ n)) with false. cbn iota.
  assert (exists a, path_join cwd (lit "./" ++ n) = a ++ SLASH :: (lit "." ++ SLASH :: n)) as [a Ha].
  { unfold path_join. change (is_absolute (lit "./" ++ n)) with false. cbn iota.
    destruct (is_empty cwd) eqn:E; [by apply is_empty_true in E as ->|]. simpl orb.
    destruct (ends_with [SLASH] cwd) eqn:E'.
    - apply ends_with_true in E' as [a ->]. exists a. by rewrite <- app_assoc.
    - by exists cwd. }
  pose proof (path_join_absolute cwd (lit "./" ++ n) Habs) as Habs'. rewrite Ha in *.
  unfold normalize_path, components. rewrite Habs', !split_char_app, (split_char_no_sep _ n) by apply Hn.
  change (split_char SLASH (lit ".")) with [lit "."]. rewrite !omap_app.
  change (omap segment_component [lit "."]) with (@nil Component).
  rewrite (omap_good_names [n]) by by apply Forall_singleton.
  cbn [app map]. rewrite app_comm_cons, fold_left_app. cbn [fold_left normalize_step push_component].
  unfold file_name. destruct (is_empty (_ ++ [Normal n])) eqn:E; [|by rewrite last_snoc].
  apply is_empty_true in E. by apply app_nil in E as [_ ?].
Qed.

(** ** Theorems *)

(** Whatever string [AbsolutePathBuf::try_from] is given, the path it
    returns is the root followed by proper names (never empty, [.] or [..], no
    separator), joining any further string to it keeps that shape, and the text
    of the path is read back as the same path. *)
Theorem from_absolute_path_roundtrip env s p t :
  env_absolute env -> from_absolute_path env s = Ok p ->
  normalized p /\ normalized (abs_join env p t) /\
  from_absolute_path env (path_string p) = Ok p.
Proof.
  intros Henv H. pose proof (from_absolute_path_result env s p Henv H) as Hn.
  destruct (normalize_path_string p Hn) as [Habs Hid].
  split_and!; [done|by apply abs_join_normalized|].
  by rewrite from_absolute_path_absolute, Hid.
Qed.

Definition demo_env : PathEnv := {| env_home := Some (lit "/home/u"); env_cwd := Some (lit "/w/d") |}.

Lemma demo_env_absolute : env_absolute demo_env.
Proof. split; by intros ? [= <-]. Qed.

Lemma from_absolute_path_roundtrip_witness :
  from_absolute_path demo_env (lit "~/a/./../b//c") = Ok [RootDir; Normal (lit "home"); Normal (lit "u"); Normal (lit "b"); Normal (lit "c")]
  /\ normalized (abs_join demo_env [RootDir; Normal (lit "home"); Normal (lit "u"); Normal (lit "b"); Normal (lit "c")] (lit "../x")).
Proof.
  assert (from_absolute_path demo_env (lit "~/a/./../b//c") =
    Ok [RootDir; Normal (lit "home"); Normal (lit "u"); Normal (lit "b"); Normal (lit "c")]) as H by by vm_compute.
  split; [exact H|].
  exact (proj1 (proj2 (from_absolute_path_roundtrip demo_env _ _ (lit "../x") demo_env_absolute H))).
Defined.
