(* ===== verification/ExecRule.v ===== *)
(** * Execution policy: decisions, errors and rules

    Models [workx-rs/execpolicy/src/decision.rs], [error.rs],
    [executable_name.rs] (Unix build) and the data and matching half of
    [rule.rs]: pattern tokens, prefix patterns, rule matches, network rules and
    the normalisation of their hosts. *)
From S2P Require Import Prelude AbsPath.

Set Default Goal Selector "!".

(** ** [decision.rs] *)

Inductive Decision := Allow | Prompt | Forbidden.

#[export] Instance Decision_eq_dec : EqDecision Decision.
Proof. solve_decision. Defined.

(** The derived [Ord]: the order of declaration. *)
Definition decision_rank (d : Decision) : nat :=
  match d with Allow => 0 | Prompt => 1 | Forbidden => 2 end.

Definition decision_le (a b : Decision) : Prop := decision_rank a <= decision_rank b.

Definition decision_max (a b : Decision) : Decision :=
  if decision_rank a <=? decision_rank b then b else a.

(** [Iterator::max] over decisions. *)
Fixpoint max_decision (ds : list Decision) : option Decision :=
  match ds with
  | [] => None
  | d :: ds' => match max_decision ds' with
                | None => Some d
                | Some m => Some (decision_max d m)
                end
  end.

(** ** [error.rs] *)

Record TextPosition := { tp_line : nat; tp_column : nat }.
Record TextRange := { tr_start : TextPosition; tr_end : TextPosition }.
Record ErrorLocation := { el_path : rstr; el_range : TextRange }.

(** What the code reads of a Starlark source span: the file and the zero-based
    positions [resolve_span] gives. *)
Record FileSpan := {
  fs_filename : rstr;
  fs_begin_line : nat; fs_begin_column : nat;
  fs_end_line : nat; fs_end_column : nat;
}.

(** A Starlark error is known by its optional span. *)
Inductive Error :=
| InvalidDecision (raw : rstr)
| InvalidPattern (msg : rstr)
| InvalidExample (msg : rstr)
| InvalidRule (msg : rstr)
| ExampleDidNotMatch (rules examples : list rstr) (loc : option ErrorLocation)
| ExampleDidMatch (rule example : rstr) (loc : option ErrorLocation)
| Starlark (span : option FileSpan).

Definition error_location_from_file_span (span : FileSpan) : ErrorLocation :=
  {| el_path := fs_filename span;
     el_range :=
       {| tr_start := {| tp_line := fs_begin_line span + 1; tp_column := fs_begin_column span + 1 |};
          tr_end := {| tp_line := fs_end_line span + 1; tp_column := fs_end_column span + 1 |} |} |}.

Definition with_location (self : Error) (location : ErrorLocation) : Error :=
  match self with
  | ExampleDidNotMatch rules examples None => ExampleDidNotMatch rules examples (Some location)
  | ExampleDidMatch rule example None => ExampleDidMatch rule example (Some location)
  | other => other
  end.

Definition error_location (self : Error) : option ErrorLocation :=
  match self with
  | ExampleDidNotMatch _ _ loc | ExampleDidMatch _ _ loc => loc
  | Starlark span => error_location_from_file_span <$> span
  | _ => None
  end.

Definition decision_parse (raw : rstr) : res Error Decision :=
  if streq raw (lit "allow") then Ok Allow
  else if streq raw (lit "prompt") then Ok Prompt
  else if streq raw (lit "forbidden") then Ok Forbidden
  else Err (InvalidDecision raw).

(** ** [executable_name.rs] *)

Definition executable_lookup_key (raw : rstr) : rstr := raw.

Definition executable_path_lookup_key (path : list Component) : option rstr :=
  executable_lookup_key <$> file_name path.

(** ** [rule.rs]: patterns *)

Inductive PatternToken :=
| Single (value : rstr)
| Alts (alternatives : list rstr).

#[export] Instance PatternToken_eq_dec : EqDecision PatternToken.
Proof. solve_decision. Defined.

Definition token_matches (self : PatternToken) (token : rstr) : bool :=
  match self with
  | Single expected => streq expected token
  | Alts alternatives => existsb (fun alt => streq alt token) alternatives
  end.

Definition token_alternatives (self : PatternToken) : list rstr :=
  match self with Single expected => [expected] | Alts alternatives => alternatives end.

Record PrefixPattern := { pat_first : rstr; pat_rest : list PatternToken }.

(** The loop over [rest.iter().zip(..)]. *)
Definition zip_matches (rest : list PatternToken) (toks : list rstr) : bool :=
  forallb (fun '(pt, ct) => token_matches pt ct) (zip rest toks).

Definition matches_prefix (self : PrefixPattern) (cmd : list rstr) : option (list rstr) :=
  let pattern_length := length (pat_rest self) + 1 in
  match cmd with
  | [] => None
  | first :: _ =>
      if (length cmd <? pattern_length) || negb (streq first (pat_first self)) then None
      else if zip_matches (pat_rest self) (drop 1 (take pattern_length cmd))
      then Some (take pattern_length cmd)
      else None
  end.

Inductive RuleMatch :=
| PrefixRuleMatch (matched_prefix : list rstr) (decision : Decision)
    (resolved_program : option (list Component)) (justification : option rstr)
| HeuristicsRuleMatch (command : list rstr) (decision : Decision).

Definition rm_decision (self : RuleMatch) : Decision :=
  match self with PrefixRuleMatch _ d _ _ => d | HeuristicsRuleMatch _ d => d end.

Definition with_resolved_program (self : RuleMatch) (resolved_program : list Component) : RuleMatch :=
  match self with
  | PrefixRuleMatch matched_prefix decision _ justification =>
      PrefixRuleMatch matched_prefix decision (Some resolved_program) justification
  | other => other
  end.

Record PrefixRule := {
  pr_pattern : PrefixPattern;
  pr_decision : Decision;
  pr_justification : option rstr;
}.

(** The trait [Rule]; [PrefixRule] is its only implementation. *)
Class Rule (R : Type) := {
  rule_program : R -> rstr;
  rule_matches : R -> list rstr -> option RuleMatch;
}.

#[export] Instance PrefixRule_Rule : Rule PrefixRule := {
  rule_program self := pat_first (pr_pattern self);
  rule_matches self cmd :=
    matched_prefix ← matches_prefix (pr_pattern self) cmd;
    Some (PrefixRuleMatch matched_prefix (pr_decision self) None (pr_justification self));
}.

(** ** [rule.rs]: network rules *)

Inductive NetworkRuleProtocol := Http | Https | Socks5Tcp | Socks5Udp.

#[export] Instance NetworkRuleProtocol_eq_dec : EqDecision NetworkRuleProtocol.
Proof. solve_decision. Defined.

Definition protocol_parse (raw : rstr) : res Error NetworkRuleProtocol :=
  if streq raw (lit "http") then Ok Http
  else if streq raw (lit "https") || streq raw (lit "https_connect") || streq raw (lit "http-connect")
  then Ok Https
  else if streq raw (lit "socks5_tcp") then Ok Socks5Tcp
  else if streq raw (lit "socks5_udp") then Ok Socks5Udp
  else Err (InvalidRule
    (lit "network_rule protocol must be one of http, https, socks5_tcp, socks5_udp (got " ++ raw ++ lit ")")).

Definition as_policy_string (self : NetworkRuleProtocol) : rstr :=
  match self with
  | Http => lit "http" | Https => lit "https"
  | Socks5Tcp => lit "socks5_tcp" | Socks5Udp => lit "socks5_udp"
  end.

Record NetworkRule := {
  nr_host : rstr;
  nr_protocol : NetworkRuleProtocol;
  nr_decision : Decision;
  nr_justification : option rstr;
}.

Definition count_char (c : char) (s : rstr) : nat := length (List.filter (Z.eqb c) s).

(** The host without its brackets or its numeric port. *)
Definition strip_host_port (raw host : rstr) : res Error rstr :=
  match strip_prefix (lit "[") host with
  | Some stripped =>
      match split_once 93 stripped with
      | None => Err (InvalidRule (lit "network_rule host has an invalid bracketed IPv6 literal"))
      | Some (inside, rest) =>
          let port_ok := match strip_prefix (lit ":") rest with
                         | Some port => negb (is_empty port) && forallb is_ascii_digit port
                         | None => false
                         end in
          if negb (is_empty rest) && negb port_ok
          then Err (InvalidRule (lit "network_rule host contains an unsupported suffix: " ++ raw))
          else Ok inside
      end
  | None =>
      if count_char 58 host =? 1 then
        match rsplit_once 58 host with
        | Some (candidate, port) =>
            if negb (is_empty candidate) && negb (is_empty port) && forallb is_ascii_digit port
            then Ok candidate else Ok host
        | None => Ok host
        end
      else Ok host
  end.

Definition normalize_network_rule_host (raw : rstr) : res Error rstr :=
  let host := trim raw in
  if is_empty host then Err (InvalidRule (lit "network_rule host cannot be empty"))
  else if contains_sub (lit "://") host || contains_char 47 host || contains_char 63 host
          || contains_char 35 host
  then Err (InvalidRule (lit "network_rule host must be a hostname or IP literal (without scheme or path)"))
  else
    host ← strip_host_port raw host;
    let normalized := to_ascii_lowercase (trim (trim_end_matches 46 host)) in
    if is_empty normalized then Err (InvalidRule (lit "network_rule host cannot be empty"))
    else if contains_char 42 normalized
    then Err (InvalidRule (lit "network_rule host must be a specific host; wildcards are not allowed"))
    else if existsb is_whitespace normalized
    then Err (InvalidRule (lit "network_rule host cannot contain whitespace"))
    else Ok normalized.

(** ** Specifications *)

(** What a pattern promises: its first token, then one alternative per
    remaining position. *)
Definition pattern_spec (p : PrefixPattern) (pre : list rstr) : Prop :=
  exists toks, pre = pat_first p :: toks /\
    Forall2 (fun pt t => t ∈ token_alternatives pt) (pat_rest p) toks.

(** A host a network rule may carry. *)
Definition host_ok (h : rstr) : Prop :=
  h ≠ [] /\ (forall c, c ∈ h -> is_whitespace c = false /\ c ≠ 42%Z /\ c ≠ 47%Z /\ c ≠ 63%Z /\ c ≠ 35%Z
                       /\ ~ (65 <= c <= 90)%Z).

(** ** Lemmas *)

Lemma decision_max_spec a b :
  decision_rank (decision_max a b) = Nat.max (decision_rank a) (decision_rank b).
Proof. by destruct a, b. Qed.

Lemma decision_rank_inj a b : decision_rank a = decision_rank b -> a = b.
Proof. by destruct a, b. Qed.

Lemma max_decision_None ds : max_decision ds = None <-> ds = [].
Proof. destruct ds; simpl; [done|]. by case_match. Qed.

(** The maximum is an upper bound that is reached. *)
Lemma max_decision_Some ds m :
  max_decision ds = Some m <-> m ∈ ds /\ Forall (fun d => decision_le d m) ds.
Proof.
  revert m. induction ds as [|d ds IH]; intros m; simpl; [set_solver|].
  destruct (max_decision ds) as [m'|] eqn:E.
  - destruct (proj1 (IH m') eq_refl) as [Hin Hall]. split.
    + intros [= <-]. unfold decision_max. destruct (Nat.leb_spec (decision_rank d) (decision_rank m')).
      * split; [set_solver|]. constructor; [done|done].
      * split; [set_solver|]. constructor; [unfold decision_le; lia|].
        eapply Forall_impl; [done|]. unfold decision_le. intros x; simpl. lia.
    + intros [Hm Hall']. f_equal. apply decision_rank_inj. rewrite decision_max_spec.
      apply Forall_cons in Hall' as [Hd Hall']. unfold decision_le in *.
      rewrite Forall_forall in Hall, Hall'. specialize (Hall' m' Hin). simpl in *.
      apply elem_of_cons in Hm as [->|Hm]; [lia|]. specialize (Hall m Hm). simpl in *. lia.
  - apply max_decision_None in E as ->. split.
    + intros [= ->]. split; [set_solver|]. repeat constructor.
    + intros [Hm _]. f_equal. set_solver.
Qed.

Lemma max_decision_app a b :
  max_decision (a ++ b) =
  match max_decision a, max_decision b with
  | Some x, Some y => Some (decision_max x y)
  | Some x, None => Some x
  | None, y => y
  end.
Proof.
  induction a as [|d a IH]; simpl; [by destruct (max_decision b)|]. rewrite IH.
  destruct (max_decision a), (max_decision b); try done.
  f_equal. apply decision_rank_inj. rewrite !decision_max_spec. lia.
Qed.

Lemma max_decision_forbidden ds : Forbidden ∈ ds -> max_decision ds = Some Forbidden.
Proof.
  intros H. apply max_decision_Some. split; [done|].
  apply Forall_forall. intros [] _; unfold decision_le; simpl; lia.
Qed.

Lemma token_matches_spec pt t : token_matches pt t = true <-> t ∈ token_alternatives pt.
Proof.
  destruct pt as [v|alts]; simpl.
  - rewrite streq_true, list_elem_of_singleton. naive_solver.
  - rewrite existsb_exists. setoid_rewrite streq_true. rewrite list_elem_of_In. naive_solver.
Qed.

Lemma zip_matches_spec rest toks :
  length rest = length toks ->
  zip_matches rest toks = true <-> Forall2 (fun pt t => t ∈ token_alternatives pt) rest toks.
Proof.
  unfold zip_matches. revert toks. induction rest as [|pt rest IH]; intros [|t toks] Hl; simplify_eq/=.
  - split; [constructor|done].
  - rewrite andb_true_iff, token_matches_spec, (IH toks) by done.
    by rewrite Forall2_cons.
Qed.

(** [matches_prefix] finds exactly the prefix of the command that satisfies the
    pattern. *)
Lemma matches_prefix_spec p cmd pre :
  matches_prefix p cmd = Some pre <-> pre `prefix_of` cmd /\ pattern_spec p pre.
Proof.
  unfold matches_prefix, pattern_spec. destruct cmd as [|first cmd].
  { split; [done|]. intros [H (toks & -> & _)]. by apply prefix_nil_inv in H. }
  replace (length (pat_rest p) + 1) with (S (length (pat_rest p))) by lia. cbn [take drop].
  split.
  - intros H. repeat (case_match; simplify_eq/=). bool_prop. subst. split.
    + apply (prefix_take (pat_first p :: cmd) (S (length (pat_rest p)))).
    + eexists. split; [done|]. apply zip_matches_spec; [|done].
      simpl in *. rewrite length_take. destruct (Nat.leb_spec (length cmd) (length (pat_rest p))); bool_prop; lia.
  - intros [[suf Hsuf] (toks & -> & Hf)]. simpl in Hsuf. injection Hsuf as -> ->.
    pose proof (Forall2_length _ _ _ Hf) as Hl. rewrite Hl.
    assert ((length (pat_first p :: toks ++ suf) <? S (length toks)) = false) as ->.
    { apply Nat.ltb_ge. simpl. rewrite length_app. lia. }
    rewrite streq_refl. cbn [negb orb]. rewrite take_app_length.
    by rewrite drop_0, (proj2 (zip_matches_spec _ _ Hl) Hf).
Qed.

Lemma rule_matches_spec (r : PrefixRule) cmd rm :
  rule_matches r cmd = Some rm <->
  exists pre, pre `prefix_of` cmd /\ pattern_spec (pr_pattern r) pre /\
    rm = PrefixRuleMatch pre (pr_decision r) None (pr_justification r).
Proof.
  unfold rule_matches, PrefixRule_Rule. rewrite bind_Some.
  setoid_rewrite matches_prefix_spec. naive_solver.
Qed.

Lemma trim_subseteq s c : c ∈ trim s -> c ∈ s.
Proof.
  intros H. unfold trim in H.
  destruct (drop_while_end_prefix is_whitespace (trim_start s)) as (d & Hd & _).
  destruct (drop_while_suffix is_whitespace s) as (d' & Hd' & _).
  rewrite Hd'. apply elem_of_app. right. fold (trim_start s). rewrite Hd.
  apply elem_of_app. by left.
Qed.

Lemma trim_end_matches_subseteq k s c : c ∈ trim_end_matches k s -> c ∈ s.
Proof.
  intros H. destruct (drop_while_end_prefix (Z.eqb k) s) as (d & Hd & _).
  rewrite Hd. apply elem_of_app. by left.
Qed.

Lemma split_once_subseteq k s a b :
  split_once k s = Some (a, b) -> s = a ++ k :: b.
Proof.
  revert a b. induction s as [|d s IH]; intros a b; simpl; [done|].
  destruct (Z.eqb_spec d k) as [->|_]; [by intros [= <- <-]|].
  destruct (split_once k s) as [[a' b']|] eqn:E; [|done].
  simpl. intros [= <- <-]. by rewrite (IH a' b').
Qed.

Lemma rsplit_once_subseteq k s a b :
  rsplit_once k s = Some (a, b) -> s = a ++ k :: b.
Proof.
  unfold rsplit_once. destruct (split_once k (reverse s)) as [[x y]|] eqn:E; [|done].
  simpl. intros [= <- <-]. apply split_once_subseteq in E.
  rewrite <- (reverse_involutive s), E, reverse_app, reverse_cons, <- app_assoc. done.
Qed.

Lemma strip_host_port_subseteq raw host h c :
  strip_host_port raw host = Ok h -> c ∈ h -> c ∈ host.
Proof.
  unfold strip_host_port. cbv zeta. intros H Hc. repeat (case_match; simplify_eq); try done.
  all: repeat match goal with
    | E : strip_prefix _ _ = Some _ |- _ => apply strip_prefix_Some in E; subst
    | E : split_once _ _ = Some _ |- _ => apply split_once_subseteq in E; subst
    | E : rsplit_once _ _ = Some _ |- _ => apply rsplit_once_subseteq in E; subst
    end; set_solver.
Qed.

(** What survives normalisation is fit for an exact host comparison. *)
Lemma normalize_network_rule_host_ok raw h :
  normalize_network_rule_host raw = Ok h -> host_ok h.
Proof.
  unfold normalize_network_rule_host. intros H. res_inv. bool_prop.
  repeat match goal with Hc : contains_char _ _ = false |- _ => apply contains_char_false in Hc end.
  split; [by apply is_empty_false|]. intros c Hc.
  assert (exists c', c = ascii_lower c' /\ c' ∈ trim raw) as (c' & -> & Hc').
  { unfold to_ascii_lowercase in Hc. apply list_elem_of_fmap in Hc as (c' & -> & Hc').
    exists c'. split; [done|].
    eapply strip_host_port_subseteq; [done|]. by eapply trim_end_matches_subseteq, trim_subseteq. }
  match goal with He : existsb is_whitespace _ = false |- _ => rename He into Hws end.
  assert (forall k, (k = 47 \/ k = 63 \/ k = 35)%Z -> ascii_lower c' = k -> c' = k) as Hlow.
  { intros k Hk. unfold ascii_lower. case_match; [|done]. bool_prop. lia. }
  split_and!.
  - destruct (is_whitespace (ascii_lower c')) eqn:Ew; [|done].
    exfalso. apply (not_true_iff_false (existsb is_whitespace _)) in Hws. apply Hws.
    apply existsb_exists. exists (ascii_lower c'). split; [by apply list_elem_of_In|done].
  - intros E. rewrite E in Hc. done.
  - intros E%Hlow; [set_solver|auto].
  - intros E%Hlow; [set_solver|auto].
  - intros E%Hlow; [set_solver|auto].
  - unfold ascii_lower. case_match; bool_prop; [lia|].
    match goal with H : (_ && _) = false |- _ => apply andb_false_iff in H as [?|?] end; bool_prop; lia.
Qed.
