(* ===== verification/ExecPolicy.v ===== *)
(** * Execution policy: evaluation

    Models [workx-rs/execpolicy/src/policy.rs]: the policy (rules keyed by
    program, network rules, host executables), its updates, overlays, the
    lookup of the rules that match a command and the aggregation of their
    decisions. A [MultiMap] is a map to the vector of its values in insertion
    order; iterating over a hash map visits the entries in the order of
    [map_to_list], one of the orders the code may see. *)
From S2P Require Import Prelude AbsPath ExecRule.

Set Default Goal Selector "!".

Record MatchOptions := { resolve_host_executables : bool }.

Definition MatchOptions_default : MatchOptions := {| resolve_host_executables := false |}.

Record Policy := {
  rules_by_program : gmap rstr (list PrefixRule);
  network_rules : list NetworkRule;
  host_executables_by_name : gmap rstr (list AbsolutePathBuf);
}.

Record Evaluation := {
  ev_decision : Decision;
  ev_matched_rules : list RuleMatch;
}.

(** [MultiMap::insert]: pushes onto the key's vector. *)
Definition mm_insert (program : rstr) (rule : PrefixRule) (m : gmap rstr (list PrefixRule))
  : gmap rstr (list PrefixRule) :=
  <[program := default [] (m !! program) ++ [rule]]> m.

Definition policy_empty : Policy :=
  {| rules_by_program := ∅; network_rules := []; host_executables_by_name := ∅ |}.

(** ** Updates *)

Definition add_prefix_rule (self : Policy) (prefix : list rstr) (decision : Decision)
  : res Error Policy :=
  match prefix with
  | [] => Err (InvalidPattern (lit "prefix cannot be empty"))
  | first_token :: rest =>
      let rule := {| pr_pattern := {| pat_first := first_token; pat_rest := map Single rest |};
                     pr_decision := decision; pr_justification := None |} in
      Ok {| rules_by_program := mm_insert first_token rule (rules_by_program self);
            network_rules := network_rules self;
            host_executables_by_name := host_executables_by_name self |}
  end.

(** The check both network-rule entry points make on a justification. *)
Definition blank_justification (justification : option rstr) : bool :=
  match justification with Some raw => is_empty (trim raw) | None => false end.

Definition add_network_rule (self : Policy) (host : rstr) (protocol : NetworkRuleProtocol)
    (decision : Decision) (justification : option rstr) : res Error Policy :=
  host ← normalize_network_rule_host host;
  if blank_justification justification
  then Err (InvalidRule (lit "justification cannot be empty"))
  else Ok {| rules_by_program := rules_by_program self;
             network_rules := network_rules self ++
               [{| nr_host := host; nr_protocol := protocol; nr_decision := decision;
                   nr_justification := justification |}];
             host_executables_by_name := host_executables_by_name self |}.

Definition set_host_executable_paths (self : Policy) (name : rstr) (paths : list AbsolutePathBuf)
  : Policy :=
  {| rules_by_program := rules_by_program self;
     network_rules := network_rules self;
     host_executables_by_name := <[name := paths]> (host_executables_by_name self) |}.

Definition insert_rules (program : rstr) (rules : list PrefixRule)
    (m : gmap rstr (list PrefixRule)) : gmap rstr (list PrefixRule) :=
  fold_left (fun acc rule => mm_insert program rule acc) rules m.

Definition merge_overlay (self overlay : Policy) : Policy :=
  {| rules_by_program :=
       fold_left (fun acc '(program, rules) => insert_rules program rules acc)
         (map_to_list (rules_by_program overlay)) (rules_by_program self);
     network_rules := network_rules self ++ network_rules overlay;
     host_executables_by_name :=
       fold_left (fun acc '(name, paths) => <[name := paths]> acc)
         (map_to_list (host_executables_by_name overlay)) (host_executables_by_name self) |}.

(** ** Network domains *)

Definition retain_ne (host : rstr) (entries : list rstr) : list rstr :=
  List.filter (fun entry => negb (streq entry host)) entries.

Definition upsert_domain (entries : list rstr) (host : rstr) : list rstr :=
  retain_ne host entries ++ [host].

Definition compile_network_rule (lists : list rstr * list rstr) (rule : NetworkRule)
  : list rstr * list rstr :=
  let '(allowed, denied) := lists in
  match nr_decision rule with
  | Allow => (upsert_domain allowed (nr_host rule), retain_ne (nr_host rule) denied)
  | Forbidden => (retain_ne (nr_host rule) allowed, upsert_domain denied (nr_host rule))
  | Prompt => (allowed, denied)
  end.

Definition compiled_network_domains (self : Policy) : list rstr * list rstr :=
  fold_left compile_network_rule (network_rules self) ([], []).

(** ** Matching *)

Definition match_exact_rules (self : Policy) (cmd : list rstr) : option (list RuleMatch) :=
  match cmd with
  | [] => None
  | first :: _ =>
      Some (match rules_by_program self !! first with
            | Some rules => omap (fun rule : PrefixRule => rule_matches rule cmd) rules
            | None => []
            end)
  end.

(** The policy lists the paths of this name and the program is not one of them. *)
Definition host_path_rejected (self : Policy) (basename : rstr) (program : AbsolutePathBuf) : bool :=
  match host_executables_by_name self !! basename with
  | Some paths => negb (existsb (fun path => bool_decide (path = program)) paths)
  | None => false
  end.

Definition match_host_executable_rules (env : PathEnv) (self : Policy) (cmd : list rstr)
  : list RuleMatch :=
  match cmd with
  | [] => []
  | first :: rest =>
      match from_absolute_path env first with
      | Ok program =>
          match executable_path_lookup_key program with
          | None => []
          | Some basename =>
              match rules_by_program self !! basename with
              | None => []
              | Some rules =>
                  if host_path_rejected self basename program then []
                  else map (fun rm => with_resolved_program rm program)
                         (omap (fun rule : PrefixRule => rule_matches rule (basename :: rest)) rules)
              end
          end
      | _ => []
      end
  end.

Definition filter_nonempty (ms : option (list RuleMatch)) : option (list RuleMatch) :=
  match ms with Some [] => None | _ => ms end.

Definition matches_for_command_with_options (env : PathEnv) (self : Policy) (cmd : list rstr)
    (heuristics_fallback : option (list rstr -> Decision)) (options : MatchOptions)
  : list RuleMatch :=
  let matched_rules :=
    default []
      (match filter_nonempty (match_exact_rules self cmd) with
       | Some ms => Some ms
       | None => filter_nonempty
           (if resolve_host_executables options
            then Some (match_host_executable_rules env self cmd) else None)
       end) in
  match matched_rules, heuristics_fallback with
  | [], Some f => [HeuristicsRuleMatch cmd (f cmd)]
  | _, _ => matched_rules
  end.

Definition matches_for_command (env : PathEnv) (self : Policy) (cmd : list rstr)
    (heuristics_fallback : option (list rstr -> Decision)) : list RuleMatch :=
  matches_for_command_with_options env self cmd heuristics_fallback MatchOptions_default.

(** ** Evaluation *)

(** Panics when there is no match: the caller is responsible for a non-empty list. *)
Definition from_matches (matched_rules : list RuleMatch) : res Error Evaluation :=
  decision ← or_panic (max_decision (map rm_decision matched_rules));
  Ok {| ev_decision := decision; ev_matched_rules := matched_rules |}.

Definition is_match (self : Evaluation) : bool :=
  existsb (fun rm => match rm with HeuristicsRuleMatch _ _ => false | _ => true end)
    (ev_matched_rules self).

Definition check_with_options (env : PathEnv) (self : Policy) (cmd : list rstr)
    (heuristics_fallback : list rstr -> Decision) (options : MatchOptions) : res Error Evaluation :=
  from_matches (matches_for_command_with_options env self cmd (Some heuristics_fallback) options).

Definition check (env : PathEnv) (self : Policy) (cmd : list rstr)
    (heuristics_fallback : list rstr -> Decision) : res Error Evaluation :=
  check_with_options env self cmd heuristics_fallback MatchOptions_default.

Definition check_multiple_with_options (env : PathEnv) (self : Policy)
    (commands : list (list rstr)) (heuristics_fallback : list rstr -> Decision)
    (options : MatchOptions) : res Error Evaluation :=
  from_matches (flat_map (fun command =>
    matches_for_command_with_options env self command (Some heuristics_fallback) options) commands).

Definition check_multiple (env : PathEnv) (self : Policy) (commands : list (list rstr))
    (heuristics_fallback : list rstr -> Decision) : res Error Evaluation :=
  check_multiple_with_options env self commands heuristics_fallback MatchOptions_default.

(** ** Allowed prefixes *)

Definition render_pattern_token (token : PatternToken) : rstr :=
  match token with
  | Single value => value
  | Alts alternatives => lit "[" ++ join (lit "|") alternatives ++ lit "]"
  end.

Definition rendered_prefix (rule : PrefixRule) : list rstr :=
  pat_first (pr_pattern rule) :: map render_pattern_token (pat_rest (pr_pattern rule)).

Definition prefix_leb (a b : list rstr) : bool := lex_leb streq str_leb a b.

#[export] Instance prefix_leb_dec : RelDecision (fun a b => prefix_leb a b = true).
Proof. intros a b. apply _. Defined.

Definition get_allowed_prefixes (self : Policy) : list (list rstr) :=
  let prefixes := flat_map (fun '(_, rules) =>
    map rendered_prefix (List.filter (fun r => bool_decide (pr_decision r = Allow)) rules))
    (map_to_list (rules_by_program self)) in
  dedup (merge_sort (fun a b => prefix_leb a b = true) prefixes).

(** ** Specifications *)

(** The rules stored for a program; an absent key stands for none. *)
Definition rules_of (pol : Policy) (program : rstr) : list PrefixRule :=
  default [] (rules_by_program pol !! program).

(** A rule keyed by the command's first token whose pattern is a prefix of the command. *)
Definition exact_applies (pol : Policy) (cmd : list rstr) (rm : RuleMatch) : Prop :=
  exists first rest r pre, cmd = first :: rest /\ r ∈ rules_of pol first /\
    pre `prefix_of` cmd /\ pattern_spec (pr_pattern r) pre /\
    rm = PrefixRuleMatch pre (pr_decision r) None (pr_justification r).

(** A rule keyed by the base name of the program the first token resolves to,
    unless the policy lists that name's paths and this one is not among them. *)
Definition host_applies (env : PathEnv) (pol : Policy) (cmd : list rstr) (rm : RuleMatch) : Prop :=
  exists first rest program basename r pre, cmd = first :: rest /\
    from_absolute_path env first = Ok program /\ file_name program = Some basename /\
    (forall paths, host_executables_by_name pol !! basename = Some paths -> program ∈ paths) /\
    r ∈ rules_of pol basename /\
    pre `prefix_of` (basename :: rest) /\ pattern_spec (pr_pattern r) pre /\
    rm = PrefixRuleMatch pre (pr_decision r) (Some program) (pr_justification r).

(** The matches a command has: exact rules first, host executables only when
    there is none, the heuristics only when there is neither. *)
Definition applicable (env : PathEnv) (pol : Policy) (heur : option (list rstr -> Decision))
    (opts : MatchOptions) (cmd : list rstr) (rm : RuleMatch) : Prop :=
  exact_applies pol cmd rm \/
  (resolve_host_executables opts = true /\ (forall rm', ~ exact_applies pol cmd rm') /\
   host_applies env pol cmd rm) \/
  (exists f, heur = Some f /\ rm = HeuristicsRuleMatch cmd (f cmd) /\
   (forall rm', ~ exact_applies pol cmd rm') /\
   (resolve_host_executables opts = true -> forall rm', ~ host_applies env pol cmd rm')).

(** What the last rule that takes sides on a host says. *)
Definition host_verdict (rules : list NetworkRule) (host : rstr) : option Decision :=
  nr_decision <$> last (List.filter (fun r =>
    streq (nr_host r) host && negb (bool_decide (nr_decision r = Prompt))) rules).

Definition policy_ok (pol : Policy) : Prop :=
  (forall k r, r ∈ rules_of pol k -> rule_program r = k) /\
  Forall (fun nr => host_ok (nr_host nr) /\ blank_justification (nr_justification nr) = false)
    (network_rules pol).

(** The policies the public operations build. *)
Inductive policy_reachable : Policy -> Prop :=
| reach_empty : policy_reachable policy_empty
| reach_prefix pol prefix d pol' :
    policy_reachable pol -> add_prefix_rule pol prefix d = Ok pol' -> policy_reachable pol'
| reach_network pol host proto d j pol' :
    policy_reachable pol -> add_network_rule pol host proto d j = Ok pol' -> policy_reachable pol'
| reach_host pol name paths :
    policy_reachable pol -> policy_reachable (set_host_executable_paths pol name paths)
| reach_merge pol overlay :
    policy_reachable pol -> policy_reachable overlay -> policy_reachable (merge_overlay pol overlay).

(** ** Lemmas *)

Lemma mm_insert_rules (p : rstr) (r : PrefixRule) (m : gmap rstr (list PrefixRule)) (q : rstr) :
  default [] (mm_insert p r m !! q) = default [] (m !! q) ++ (if decide (p = q) then [r] else []).
Proof.
  unfold mm_insert. rewrite lookup_insert. case_decide as Hpq; [by subst|by rewrite app_nil_r].
Qed.

Lemma insert_rules_lookup (p : rstr) (rs : list PrefixRule) (m : gmap rstr (list PrefixRule)) (q : rstr) :
  default [] (insert_rules p rs m !! q) = default [] (m !! q) ++ (if decide (p = q) then rs else []).
Proof.
  unfold insert_rules. revert m. induction rs as [|r rs IH]; intros m; simpl.
  - case_decide; by rewrite app_nil_r.
  - rewrite IH, mm_insert_rules, <- app_assoc. f_equal. by case_decide.
Qed.

Lemma merge_rules_lookup (l : list (rstr * list PrefixRule)) (m : gmap rstr (list PrefixRule)) (q : rstr) :
  NoDup l.*1 ->
  default [] (fold_left (fun acc '(p, rs) => insert_rules p rs acc) l m !! q)
  = default [] (m !! q) ++ default [] ((list_to_map l : gmap rstr (list PrefixRule)) !! q).
Proof.
  revert m. induction l as [|[p rs] l IH]; intros m Hnd; simpl.
  - by rewrite app_nil_r.
  - apply NoDup_cons in Hnd as [Hp Hnd]. rewrite IH by done.
    rewrite insert_rules_lookup, <- app_assoc, lookup_insert. f_equal.
    case_decide as Hpq; [|done]. subst p.
    by rewrite (not_elem_of_list_to_map_1 _ _ Hp), app_nil_r.
Qed.

Lemma merge_overlay_rules a b k : rules_of (merge_overlay a b) k = rules_of a k ++ rules_of b k.
Proof.
  unfold rules_of, merge_overlay. simpl. rewrite merge_rules_lookup by apply NoDup_fst_map_to_list.
  by rewrite list_to_map_to_list.
Qed.

Lemma merge_hosts_lookup (l : list (rstr * list AbsolutePathBuf)) (m : gmap rstr (list AbsolutePathBuf)) :
  NoDup l.*1 ->
  fold_left (fun acc '(n, ps) => <[n := ps]> acc) l m
  = (list_to_map l : gmap rstr (list AbsolutePathBuf)) ∪ m.
Proof.
  revert m. induction l as [|[n ps] l IH]; intros m Hnd; simpl; [by rewrite (left_id_L ∅ _)|].
  apply NoDup_cons in Hnd as [Hn Hnd]. rewrite IH by done.
  rewrite <- insert_union_l, insert_union_r; [done|]. by apply not_elem_of_list_to_map_1.
Qed.

Lemma merge_overlay_hosts a b :
  host_executables_by_name (merge_overlay a b)
  = host_executables_by_name b ∪ host_executables_by_name a.
Proof.
  unfold merge_overlay. simpl. rewrite merge_hosts_lookup by apply NoDup_fst_map_to_list.
  by rewrite list_to_map_to_list.
Qed.

Lemma match_exact_rules_cons pol first rest :
  match_exact_rules pol (first :: rest)
  = Some (omap (fun r : PrefixRule => rule_matches r (first :: rest)) (rules_of pol first)).
Proof. unfold match_exact_rules, rules_of. by destruct (rules_by_program pol !! first). Qed.

Lemma match_exact_rules_elem pol cmd rm :
  rm ∈ default [] (match_exact_rules pol cmd) <-> exact_applies pol cmd rm.
Proof.
  unfold exact_applies. destruct cmd as [|first rest]; [simpl; set_solver|].
  rewrite match_exact_rules_cons. cbn [from_option id]. rewrite list_elem_of_omap.
  setoid_rewrite rule_matches_spec. naive_solver.
Qed.

Lemma host_path_rejected_false pol b program :
  host_path_rejected pol b program = false <->
  forall ps, host_executables_by_name pol !! b = Some ps -> program ∈ ps.
Proof.
  unfold host_path_rejected. destruct (host_executables_by_name pol !! b) as [ps|]; [|naive_solver].
  rewrite negb_false_iff, existsb_exists. split.
  - intros (x & Hx%list_elem_of_In & ->%bool_decide_eq_true) ? [= <-]. done.
  - intros H. exists program. split; [by apply list_elem_of_In, H|by apply bool_decide_eq_true].
Qed.

Lemma match_host_elem env pol cmd rm :
  rm ∈ match_host_executable_rules env pol cmd <-> host_applies env pol cmd rm.
Proof.
  unfold host_applies, match_host_executable_rules, executable_path_lookup_key.
  assert (forall P : Prop, (P -> False) -> (rm ∈ [] <-> P)) as Hnil.
  { intros P HP. split; [by intros ?%elem_of_nil|done]. }
  destruct cmd as [|first rest]; [apply Hnil; by intros (? & ? & ? & ? & ? & ? & ? & _)|].
  destruct (from_absolute_path env first) as [program|e|] eqn:Ep;
    [|apply Hnil; intros (? & ? & ? & ? & ? & ? & [= <- <-] & ? & _); congruence..].
  destruct (file_name program) as [b|] eqn:Eb; cbn [fmap option_fmap option_map];
    [|apply Hnil; intros (? & ? & ? & ? & ? & ? & [= <- <-] & ? & ? & _); congruence].
  unfold executable_lookup_key. pose proof (host_path_rejected_false pol b program) as Hrej.
  assert (match rules_by_program pol !! b with
          | Some rules => if host_path_rejected pol b program then []
               else map (fun rm => with_resolved_program rm program)
               (omap (fun rule : PrefixRule => rule_matches rule (b :: rest)) rules)
          | None => []
          end = if host_path_rejected pol b program then []
                else map (fun rm => with_resolved_program rm program)
               (omap (fun rule : PrefixRule => rule_matches rule (b :: rest)) (rules_of pol b))) as ->.
  { unfold rules_of. destruct (rules_by_program pol !! b); [done|]. by case_match. }
  destruct (host_path_rejected pol b program).
  - apply Hnil. intros (? & ? & p' & b' & ? & ? & [= <- <-] & Hp & Hb & Hps & _).
    assert (p' = program) as -> by congruence. assert (b' = b) as -> by congruence.
    by apply Hrej in Hps.
  - change (@map RuleMatch RuleMatch) with (@fmap list list_fmap RuleMatch RuleMatch).
    rewrite list_elem_of_fmap. setoid_rewrite list_elem_of_omap. setoid_rewrite rule_matches_spec.
    apply proj1 in Hrej. specialize (Hrej eq_refl). split.
    + intros (rm0 & -> & r & Hr & pre & Hpre & Hspec & ->). simpl.
      exists first, rest, program, b, r, pre. done.
    + intros (? & ? & p' & b' & r & pre & [= <- <-] & Hp & Hn & _ & Hr & Hpre & Hspec & ->).
      assert (p' = program) as -> by congruence. assert (b' = b) as -> by congruence.
      eexists. split; [|exists r; split; [done|]; eexists; done]. done.
Qed.

Lemma elem_of_empty_iff {A} (l : list A) : l = [] <-> forall x, ~ x ∈ l.
Proof.
  split; [set_solver|]. destruct l as [|x l]; [done|]. intros H. destruct (H x). set_solver.
Qed.

Lemma filter_nonempty_default ms : default [] (filter_nonempty ms) = default [] ms.
Proof. by destruct ms as [[]|]. Qed.

Lemma matches_for_command_unfold env pol cmd heur opts :
  let exact := default [] (match_exact_rules pol cmd) in
  let host := if resolve_host_executables opts then match_host_executable_rules env pol cmd else [] in
  let ms := match exact with [] => host | _ => exact end in
  matches_for_command_with_options env pol cmd heur opts =
  match ms, heur with [], Some f => [HeuristicsRuleMatch cmd (f cmd)] | _, _ => ms end.
Proof.
  unfold matches_for_command_with_options.
  destruct (match_exact_rules pol cmd) as [[|m ms]|]; simpl; try done.
  all: by destruct (resolve_host_executables opts); [destruct (match_host_executable_rules env pol cmd)|].
Qed.

(** The matches the lookup returns are the ones the specification names. *)
Lemma matches_for_command_elem env pol cmd heur opts rm :
  rm ∈ matches_for_command_with_options env pol cmd heur opts <-> applicable env pol heur opts cmd rm.
Proof.
  rewrite matches_for_command_unfold. cbv zeta. unfold applicable.
  setoid_rewrite <- match_exact_rules_elem. setoid_rewrite <- match_host_elem.
  destruct (default [] (match_exact_rules pol cmd)) as [|m ms].
  2: { split; [naive_solver|]. intros [?|[(_ & H & _)|(f & _ & _ & H & _)]]; [done| |];
       destruct (H m); set_solver. }
  destruct (resolve_host_executables opts).
  - destruct (match_host_executable_rules env pol cmd) as [|h hs].
    + destruct heur; [rewrite list_elem_of_singleton|]; set_solver.
    + split; [set_solver|]. intros [?|[(_ & _ & ?)|(f & _ & _ & _ & H)]]; [set_solver|done|].
      destruct (H eq_refl h); set_solver.
  - destruct heur; [rewrite list_elem_of_singleton|]; set_solver.
Qed.

Lemma matches_for_command_nonempty env pol cmd f opts :
  matches_for_command_with_options env pol cmd (Some f) opts ≠ [].
Proof. rewrite matches_for_command_unfold. cbv zeta. by case_match. Qed.

Lemma from_matches_nonempty ms :
  ms ≠ [] -> exists d, max_decision (map rm_decision ms) = Some d /\
    from_matches ms = Ok {| ev_decision := d; ev_matched_rules := ms |}.
Proof.
  intros Hne. unfold from_matches. destruct (max_decision (map rm_decision ms)) eqn:E; [by eexists|].
  apply max_decision_None in E. by destruct ms.
Qed.

Lemma forbidden_exact_check env pol cmd f opts rm :
  exact_applies pol cmd rm -> rm_decision rm = Forbidden ->
  exists ev, check_with_options env pol cmd f opts = Ok ev /\ ev_decision ev = Forbidden.
Proof.
  intros Hex Hd. unfold check_with_options.
  destruct (from_matches_nonempty _ (matches_for_command_nonempty env pol cmd f opts)) as (d & Hm & ->).
  eexists. split; [done|]. simpl.
  assert (Some d = Some Forbidden) as [= ->]; [|done]. rewrite <- Hm.
  apply max_decision_forbidden. rewrite <- Hd.
  change (@map RuleMatch Decision) with (@fmap list list_fmap RuleMatch Decision).
  apply list_elem_of_fmap_2. apply matches_for_command_elem. by left.
Qed.

Lemma single_tokens_spec toks :
  Forall2 (fun pt t => t ∈ token_alternatives pt) (map Single toks) toks.
Proof. induction toks; simpl; constructor; [set_solver|done]. Qed.

Lemma add_prefix_rule_rules pol first rest d pol' k :
  add_prefix_rule pol (first :: rest) d = Ok pol' ->
  rules_of pol' k = rules_of pol k ++
    (if decide (first = k) then
       [{| pr_pattern := {| pat_first := first; pat_rest := map Single rest |};
           pr_decision := d; pr_justification := None |}] else []).
Proof. intros [= <-]. unfold rules_of. simpl. by rewrite mm_insert_rules. Qed.

(** A rule added for a prefix applies to every command that starts with it. *)
Lemma add_prefix_rule_applies pol prefix d pol' cmd :
  add_prefix_rule pol prefix d = Ok pol' -> prefix `prefix_of` cmd ->
  exact_applies pol' cmd (PrefixRuleMatch prefix d None None).
Proof.
  destruct prefix as [|first rest]; [done|]. intros H Hpre.
  pose proof Hpre as [suf ->].
  exists first, (rest ++ suf). eexists. exists (first :: rest).
  rewrite (add_prefix_rule_rules _ _ _ _ _ first H), decide_True by done.
  split_and!; [done|apply elem_of_app; right; apply list_elem_of_here|done| |done].
  exists rest. split; [done|]. apply single_tokens_spec.
Qed.

Lemma merge_overlay_exact a b cmd rm :
  exact_applies (merge_overlay a b) cmd rm <-> exact_applies a cmd rm \/ exact_applies b cmd rm.
Proof.
  unfold exact_applies. setoid_rewrite merge_overlay_rules. setoid_rewrite elem_of_app. naive_solver.
Qed.

(** *** Network domains *)

Lemma elem_of_filter_bool {A} (f : A -> bool) (l : list A) x :
  x ∈ List.filter f l <-> x ∈ l /\ f x = true.
Proof. rewrite !list_elem_of_In. apply filter_In. Qed.

Lemma NoDup_filter_bool {A} (f : A -> bool) (l : list A) : NoDup l -> NoDup (List.filter f l).
Proof.
  induction 1 as [|x l Hx Hnd IH]; simpl; [constructor|].
  destruct (f x); [|done]. constructor; [|done]. rewrite elem_of_filter_bool. tauto.
Qed.

Lemma retain_ne_elem h l x : x ∈ retain_ne h l <-> x ∈ l /\ x ≠ h.
Proof.
  unfold retain_ne. rewrite elem_of_filter_bool, negb_true_iff. by rewrite streq_false.
Qed.

Lemma upsert_domain_elem h l x : x ∈ upsert_domain l h <-> x ∈ l \/ x = h.
Proof.
  unfold upsert_domain. rewrite elem_of_app, retain_ne_elem, list_elem_of_singleton.
  destruct (decide (x = h)); naive_solver.
Qed.

Lemma upsert_domain_NoDup h l : NoDup l -> NoDup (upsert_domain l h).
Proof.
  intros H. unfold upsert_domain. apply NoDup_app. split_and!.
  - by apply NoDup_filter_bool.
  - intros x [_ Hx]%retain_ne_elem. by rewrite list_elem_of_singleton.
  - apply NoDup_singleton.
Qed.

Lemma host_verdict_snoc rules r h :
  host_verdict (rules ++ [r]) h =
  if decide (nr_host r = h /\ nr_decision r ≠ Prompt) then Some (nr_decision r) else host_verdict rules h.
Proof.
  unfold host_verdict. rewrite List.filter_app. simpl. unfold streq.
  repeat case_bool_decide; simpl; case_decide; try (exfalso; tauto); try by rewrite app_nil_r.
  by rewrite last_snoc.
Qed.

Lemma compile_network_rules_spec rules :
  let '(allowed, denied) := fold_left compile_network_rule rules ([], []) in
  NoDup allowed /\ NoDup denied /\
  (forall h, h ∈ allowed <-> host_verdict rules h = Some Allow) /\
  (forall h, h ∈ denied <-> host_verdict rules h = Some Forbidden).
Proof.
  induction rules as [|r rules IH] using rev_ind; simpl.
  { split_and!; [constructor|constructor|set_solver|set_solver]. }
  rewrite fold_left_app. simpl.
  destruct (fold_left compile_network_rule rules ([], [])) as [al de].
  destruct IH as (Ha & Hd & IHa & IHd). unfold compile_network_rule.
  destruct (nr_decision r) eqn:E;
    (split_and!; [try done; by apply upsert_domain_NoDup || by apply NoDup_filter_bool
                 |try done; by apply upsert_domain_NoDup || by apply NoDup_filter_bool
                 |intros h; rewrite host_verdict_snoc..]);
    rewrite ?retain_ne_elem, ?upsert_domain_elem, ?IHa, ?IHd; case_decide; rewrite ?E in *;
    naive_solver congruence.
Qed.

(** *** Allowed prefixes *)

#[export] Instance prefix_leb_total : Total (fun a b => prefix_leb a b = true).
Proof.
  intros a b. apply lex_leb_total; [apply streq_true|]. intros x y. apply lex_leb_total; [apply Z.eqb_eq|].
  intros p q. rewrite !Z.leb_le. lia.
Qed.

#[export] Instance prefix_leb_trans : Transitive (fun a b => prefix_leb a b = true).
Proof.
  intros a b c. apply lex_leb_trans; [apply streq_true| |apply str_leb_antisym].
  intros x y z. apply lex_leb_trans; [apply Z.eqb_eq| |].
  - intros p q r. rewrite !Z.leb_le. lia.
  - intros p q. rewrite !Z.leb_le. lia.
Qed.

Lemma prefix_leb_antisym a b : prefix_leb a b = true -> prefix_leb b a = true -> a = b.
Proof. apply lex_leb_antisym; [apply streq_true|apply str_leb_antisym]. Qed.

Lemma elem_of_flat_map_allow pol p :
  p ∈ flat_map (fun '(_, rules) =>
    map rendered_prefix (List.filter (fun r => bool_decide (pr_decision r = Allow)) rules))
    (map_to_list (rules_by_program pol)) <->
  exists k r, r ∈ rules_of pol k /\ pr_decision r = Allow /\ p = rendered_prefix r.
Proof.
  rewrite list_elem_of_In, in_flat_map. split.
  - intros ([k rs] & Hin%list_elem_of_In%elem_of_map_to_list & Hp).
    apply in_map_iff in Hp as (r & <- & [Hr Hd%bool_decide_eq_true]%filter_In).
    exists k, r. unfold rules_of. rewrite Hin. by rewrite list_elem_of_In.
  - intros (k & r & Hr & Hd & ->). unfold rules_of in Hr.
    destruct (rules_by_program pol !! k) as [rs|] eqn:E; [|by apply elem_of_nil in Hr].
    exists (k, rs). split; [by apply list_elem_of_In, elem_of_map_to_list|].
    apply in_map, filter_In. split; [by apply list_elem_of_In|by apply bool_decide_eq_true].
Qed.

(** ** Theorems *)

(** C1. [check_with_options] never panics (its matches are never empty), and its
    decision is the strictest one among exactly the applicable matches: every
    matching rule of the command's program; rules found through the base name of
    the resolved program only when no exact rule matches, resolution is on and
    the policy does not exclude that path; the heuristics only when nothing else
    applies. *)
Theorem check_strictest_applicable env pol cmd f opts :
  exists ev, check_with_options env pol cmd f opts = Ok ev /\
    (forall rm, rm ∈ ev_matched_rules ev <-> applicable env pol (Some f) opts cmd rm) /\
    (exists rm, applicable env pol (Some f) opts cmd rm /\ rm_decision rm = ev_decision ev) /\
    (forall rm, applicable env pol (Some f) opts cmd rm -> decision_le (rm_decision rm) (ev_decision ev)).
Proof.
  unfold check_with_options.
  destruct (from_matches_nonempty _ (matches_for_command_nonempty env pol cmd f opts)) as (d & Hm & ->).
  eexists. split; [done|]. simpl.
  apply max_decision_Some in Hm as [Hin Hall].
  change (@map RuleMatch Decision) with (@fmap list list_fmap RuleMatch Decision) in *.
  split_and!.
  - intros rm. apply matches_for_command_elem.
  - apply list_elem_of_fmap in Hin as (rm & -> & Hrm). exists rm.
    by rewrite <- matches_for_command_elem.
  - intros rm Hrm%matches_for_command_elem. rewrite Forall_forall in Hall.
    apply Hall. by apply list_elem_of_fmap_2.
Qed.

(** A prefix that was forbidden stays forbidden: once [add_prefix_rule]
    records it, every command that starts with the prefix evaluates to
    [Forbidden], whatever other rules, heuristics and options there are, and
    still does after merging with any other policy, as base or as overlay. *)
Theorem forbidden_prefix_dominates env pol prefix cmd f opts other :
  prefix ≠ [] -> prefix `prefix_of` cmd ->
  exists pol', add_prefix_rule pol prefix Forbidden = Ok pol' /\
    Forall (fun p => exists ev, check_with_options env p cmd f opts = Ok ev /\ ev_decision ev = Forbidden)
      [pol'; merge_overlay pol' other; merge_overlay other pol'].
Proof.
  intros Hne Hpre. destruct (add_prefix_rule pol prefix Forbidden) as [pol'|e|] eqn:E;
    [|by destruct prefix..].
  pose proof (add_prefix_rule_applies _ _ _ _ _ E Hpre) as Happ.
  exists pol'. split; [done|].
  repeat apply Forall_cons_2; [..|apply Forall_nil_2];
    (apply (forbidden_exact_check _ _ _ _ _ (PrefixRuleMatch prefix Forbidden None None)); [|done]);
    rewrite ?merge_overlay_exact; auto.
Qed.

(** Evaluating several commands gives the strictest of their individual
    decisions; with no command at all the evaluation panics, the case its
    callers have to rule out. *)
Theorem check_multiple_strictest env pol cmds f opts :
  match cmds with
  | [] => check_multiple_with_options env pol cmds f opts = Panic
  | _ => exists ev evs, check_multiple_with_options env pol cmds f opts = Ok ev /\
      Forall2 (fun cmd e => check_with_options env pol cmd f opts = Ok e) cmds evs /\
      max_decision (map ev_decision evs) = Some (ev_decision ev) /\
      ev_matched_rules ev = flat_map ev_matched_rules evs
  end.
Proof.
  assert (exists evs, Forall2 (fun cmd e => check_with_options env pol cmd f opts = Ok e) cmds evs /\
    flat_map (fun c => matches_for_command_with_options env pol c (Some f) opts) cmds
      = flat_map ev_matched_rules evs /\
    max_decision (map rm_decision (flat_map ev_matched_rules evs)) = max_decision (map ev_decision evs))
    as (evs & Hall & Hflat & Hmax).
  { induction cmds as [|c cmds (evs & Hall & Hflat & Hmax)]; [by exists []|].
    destruct (from_matches_nonempty _ (matches_for_command_nonempty env pol c f opts)) as (d & Hm & Hok).
    exists ({| ev_decision := d; ev_matched_rules :=
      matches_for_command_with_options env pol c (Some f) opts |} :: evs). split_and!.
    - by constructor.
    - simpl. by rewrite Hflat.
    - simpl. rewrite map_app, max_decision_app, Hm, Hmax. simpl. by case_match. }
  unfold check_multiple_with_options. rewrite Hflat. unfold from_matches. rewrite Hmax.
  destruct cmds as [|c cmds]; [by inversion Hall|].
  destruct evs as [|e evs]; [by inversion Hall|].
  destruct (max_decision (map ev_decision (e :: evs))) as [d|] eqn:E; [|by apply max_decision_None in E].
  by eexists _, (e :: evs).
Qed.

(** [merge_overlay] keeps every rule of both policies, the base's first:
    the exact matches of a command are those of the base followed by those of
    the overlay, network rules concatenate, and the host executables of the
    overlay replace those of the base. *)
Theorem merge_overlay_spec base overlay cmd :
  default [] (match_exact_rules (merge_overlay base overlay) cmd)
  = default [] (match_exact_rules base cmd) ++ default [] (match_exact_rules overlay cmd) /\
  network_rules (merge_overlay base overlay) = network_rules base ++ network_rules overlay /\
  host_executables_by_name (merge_overlay base overlay)
  = host_executables_by_name overlay ∪ host_executables_by_name base.
Proof.
  split_and!; [|done|apply merge_overlay_hosts].
  destruct cmd as [|first rest]; [done|].
  rewrite !match_exact_rules_cons. cbn [from_option id].
  by rewrite merge_overlay_rules, omap_app.
Qed.

(** [compiled_network_domains] is last-rule-wins: a host is allowed exactly
    when the last rule on it that is not a prompt allows it, denied exactly when
    that rule forbids it; the two lists are duplicate free and disjoint. *)
Theorem compiled_network_domains_last_wins pol :
  let '(allowed, denied) := compiled_network_domains pol in
  NoDup allowed /\ NoDup denied /\ allowed ## denied /\
  forall h, (h ∈ allowed <-> host_verdict (network_rules pol) h = Some Allow) /\
            (h ∈ denied <-> host_verdict (network_rules pol) h = Some Forbidden).
Proof.
  unfold compiled_network_domains. pose proof (compile_network_rules_spec (network_rules pol)) as H.
  destruct (fold_left _ _ _) as [al de]. destruct H as (Ha & Hd & IHa & IHd).
  split_and!; [done|done| |auto]. intros h Hh1%IHa Hh2%IHd. congruence.
Qed.

(** [get_allowed_prefixes] lists, strictly sorted and without repetition,
    the rendering of every allow rule and nothing else, independently of the
    hash map's iteration order. *)
Theorem get_allowed_prefixes_spec pol :
  StronglySorted (fun a b => prefix_leb a b = true) (get_allowed_prefixes pol) /\
  NoDup (get_allowed_prefixes pol) /\
  forall p, p ∈ get_allowed_prefixes pol <->
    exists k r, r ∈ rules_of pol k /\ pr_decision r = Allow /\ p = rendered_prefix r.
Proof.
  unfold get_allowed_prefixes.
  set (l := flat_map _ (map_to_list (rules_by_program pol))).
  destruct (dedup_strongly_sorted _ _ prefix_leb_antisym
    (StronglySorted_merge_sort (fun a b => prefix_leb a b = true) l)) as [Hs Hn].
  split_and!; [done|done|]. intros p. rewrite dedup_elem, merge_sort_Permutation.
  unfold l. rewrite elem_of_flat_map_allow. done.
Qed.

(** Every policy the public operations can build stores each rule under the
    program it names and holds only network rules with a normalised specific
    host (lower case, no blank, wildcard, path or query) and a justification
    that is not blank. *)
Theorem policy_reachable_ok pol : policy_reachable pol -> policy_ok pol.
Proof.
  induction 1 as [|pol prefix d pol' _ [IHr IHn] Hadd|pol host proto d j pol' _ [IHr IHn] Hadd
                  |pol name paths _ IH|pol ov _ [IHr IHn] _ [IHr' IHn']].
  - split; [unfold rules_of; simpl; set_solver|constructor].
  - destruct prefix as [|first rest]; [done|]. split.
    + intros k r. rewrite (add_prefix_rule_rules _ _ _ _ _ k Hadd). case_decide; set_solver.
    + by simplify_eq/=.
  - unfold add_network_rule in Hadd. destruct (normalize_network_rule_host host) eqn:Eh; [|done..].
    simpl in Hadd. case_match; simplify_eq/=. split; [done|].
    apply Forall_app. split; [done|]. apply Forall_singleton. simpl.
    split; [by eapply normalize_network_rule_host_ok|done].
  - done.
  - split; [|by apply Forall_app]. intros k r. rewrite merge_overlay_rules. set_solver.
Qed.

(** Base-name fallback is not limited to absolute program paths: [./name]
    resolves against the current directory, so every rule for [name] that the
    command satisfies applies to it (when no exact rule does and the policy
    lists no paths for that name). *)
Theorem relative_program_basename_fallback env cwd pol n rest r pre heur :
  env_cwd env = Some cwd -> is_absolute cwd = true -> good_name n ->
  rules_of pol (lit "./" ++ n) = [] -> host_executables_by_name pol !! n = None ->
  r ∈ rules_of pol n -> pre `prefix_of` (n :: rest) -> pattern_spec (pr_pattern r) pre ->
  exists p, PrefixRuleMatch pre (pr_decision r) (Some p) (pr_justification r)
    ∈ matches_for_command_with_options env pol ((lit "./" ++ n) :: rest) heur
        {| resolve_host_executables := true |}.
Proof.
  intros Hcwd Habs Hn Hnone Hhost Hr Hpre Hspec.
  destruct (from_absolute_path_dot env cwd n Hcwd Habs Hn) as (p & Hp & Hname).
  exists p. apply matches_for_command_elem. right. left. split_and!; [done| |].
  - intros rm' (first & ? & r' & ? & Heq & Hr' & _).
    assert (first = lit "./" ++ n) as -> by congruence.
    rewrite Hnone in Hr'. by apply elem_of_nil in Hr'.
  - exists (lit "./" ++ n), rest, p, n, r, pre. split_and!; try done. intros ps. by rewrite Hhost.
Qed.

(** ** Witnesses *)

Definition git_policy : Policy :=
  {| rules_by_program := {[ lit "git" := [{| pr_pattern := {| pat_first := lit "git"; pat_rest := [] |};
       pr_decision := Allow; pr_justification := None |}] ]};
     network_rules := []; host_executables_by_name := ∅ |}.

Lemma forbidden_prefix_dominates_witness :
  exists pol', add_prefix_rule git_policy [lit "git"; lit "push"] Forbidden = Ok pol' /\
    Forall (fun p => exists ev,
        check_with_options demo_env p [lit "git"; lit "push"; lit "-f"] (fun _ => Allow)
          MatchOptions_default = Ok ev /\ ev_decision ev = Forbidden)
      [pol'; merge_overlay pol' git_policy; merge_overlay git_policy pol'].
Proof.
  apply (forbidden_prefix_dominates demo_env git_policy [lit "git"; lit "push"]
    [lit "git"; lit "push"; lit "-f"]); [done|].
  by exists [lit "-f"].
Defined.

Lemma policy_reachable_ok_witness :
  exists pol, add_network_rule policy_empty (lit " API.example.com:443 ") Https Allow None = Ok pol /\
    policy_ok pol.
Proof.
  eexists. split; [vm_compute; reflexivity|].
  apply policy_reachable_ok.
  apply (reach_network policy_empty (lit " API.example.com:443 ") Https Allow None);
    [constructor|vm_compute; reflexivity].
Defined.

Lemma relative_program_basename_fallback_witness :
  exists p, PrefixRuleMatch [lit "git"] Allow (Some p) None
    ∈ matches_for_command_with_options demo_env git_policy [lit "./git"; lit "status"] None
        {| resolve_host_executables := true |}.
Proof.
  apply (relative_program_basename_fallback demo_env (lit "/w/d") git_policy (lit "git") [lit "status"]
    {| pr_pattern := {| pat_first := lit "git"; pat_rest := [] |}; pr_decision := Allow; pr_justification := None |}).
  - done.
  - done.
  - split_and!; [done|done|done|]. vm_compute. set_solver.
  - done.
  - done.
  - apply list_elem_of_here.
  - by exists [lit "status"].
  - by exists [].
Defined.
