(* ===== verification/ExecParser.v ===== *)
(** * Execution policy: building a policy from a rules file

    Models [workx-rs/execpolicy/src/parser.rs] (the builtins [prefix_rule],
    [network_rule] and [host_executable], the builder they fill and the check of
    the examples) and the example validation of [rule.rs]. Starlark is a library:
    a file is known by the builtin calls its evaluation makes, in order, and by
    the error that ends it, if any ([starlark_run]); the values the builtins
    receive are strings, lists and values of other types. [shlex] splitting and
    joining and the debug rendering of rules are arguments too. *)
From S2P Require Import Prelude AbsPath ExecRule ExecPolicy.

Set Default Goal Selector "!".

(** What the builtins can see of a Starlark value. *)
Inductive Value :=
| VStr (s : rstr)
| VList (items : list Value)
| VOther (ty : rstr).

Definition unpack_str (v : Value) : option rstr :=
  match v with VStr s => Some s | _ => None end.

Definition get_type (v : Value) : rstr :=
  match v with VStr _ => lit "string" | VList _ => lit "list" | VOther ty => ty end.

Inductive BuiltinCall :=
| CallPrefixRule (pattern : list Value) (decision : option rstr)
    (match_ not_match : option (list Value)) (justification : option rstr)
    (location : option FileSpan)
| CallNetworkRule (host protocol decision : rstr) (justification : option rstr)
| CallHostExecutable (name : rstr) (paths : list Value).

Record PendingExampleValidation := {
  pv_rules : list PrefixRule;
  pv_matches : list (list rstr);
  pv_not_matches : list (list rstr);
  pv_location : option ErrorLocation;
}.

Record PolicyBuilder := {
  pb_rules_by_program : gmap rstr (list PrefixRule);
  pb_network_rules : list NetworkRule;
  pb_host_executables_by_name : gmap rstr (list AbsolutePathBuf);
  pb_pending : list PendingExampleValidation;
}.

Definition builder_new : PolicyBuilder :=
  {| pb_rules_by_program := ∅; pb_network_rules := [];
     pb_host_executables_by_name := ∅; pb_pending := [] |}.

Definition builder_add_rule (b : PolicyBuilder) (rule : PrefixRule) : PolicyBuilder :=
  {| pb_rules_by_program := mm_insert (rule_program rule) rule (pb_rules_by_program b);
     pb_network_rules := pb_network_rules b;
     pb_host_executables_by_name := pb_host_executables_by_name b;
     pb_pending := pb_pending b |}.

Definition builder_add_network_rule (b : PolicyBuilder) (rule : NetworkRule) : PolicyBuilder :=
  {| pb_rules_by_program := pb_rules_by_program b;
     pb_network_rules := pb_network_rules b ++ [rule];
     pb_host_executables_by_name := pb_host_executables_by_name b;
     pb_pending := pb_pending b |}.

Definition builder_add_host_executable (b : PolicyBuilder) (name : rstr)
    (paths : list AbsolutePathBuf) : PolicyBuilder :=
  {| pb_rules_by_program := pb_rules_by_program b;
     pb_network_rules := pb_network_rules b;
     pb_host_executables_by_name := <[name := paths]> (pb_host_executables_by_name b);
     pb_pending := pb_pending b |}.

Definition builder_add_pending (b : PolicyBuilder) (v : PendingExampleValidation) : PolicyBuilder :=
  {| pb_rules_by_program := pb_rules_by_program b;
     pb_network_rules := pb_network_rules b;
     pb_host_executables_by_name := pb_host_executables_by_name b;
     pb_pending := pb_pending b ++ [v] |}.

Definition builder_build (b : PolicyBuilder) : Policy :=
  {| rules_by_program := pb_rules_by_program b;
     network_rules := pb_network_rules b;
     host_executables_by_name := pb_host_executables_by_name b |}.

Section Parser.
Set Default Proof Using "Type".
(** The process environment paths are resolved in. *)
Context (env : PathEnv).
(** [shlex::split] and [shlex::try_join]. *)
Context (shlex_split : rstr -> option (list rstr)).
Context (shlex_join : list rstr -> option rstr).
(** The debug rendering of rules and matches, and the text of an I/O error. *)
Context (fmt_rule : PrefixRule -> rstr) (fmt_match : RuleMatch -> rstr).
Context (fmt_path_error : PathError -> rstr).
(** The calls evaluating a file makes, and the span of the Starlark error that
    ends it; the span Starlark gives a builtin's error. *)
Context (starlark_run : rstr -> rstr -> list BuiltinCall * option (option FileSpan)).
Context (builtin_error_span : BuiltinCall -> Error -> option FileSpan).

(** ** Patterns and examples *)

Definition parse_pattern_token (value : Value) : res Error PatternToken :=
  match value with
  | VStr s => Ok (Single s)
  | VList items =>
      tokens ← map_res (fun v => ok_or (unpack_str v)
        (InvalidPattern (lit "pattern alternative must be a string (got " ++ get_type v ++ lit ")"))) items;
      match tokens with
      | [] => Err (InvalidPattern (lit "pattern alternatives cannot be empty"))
      | [single] => Ok (Single single)
      | _ => Ok (Alts tokens)
      end
  | VOther _ =>
      Err (InvalidPattern (lit "pattern element must be a string or list of strings (got "
        ++ get_type value ++ lit ")"))
  end.

Definition parse_pattern (pattern : list Value) : res Error (list PatternToken) :=
  tokens ← map_res parse_pattern_token pattern;
  match tokens with
  | [] => Err (InvalidPattern (lit "pattern cannot be empty"))
  | _ => Ok tokens
  end.

Definition parse_string_example (raw : rstr) : res Error (list rstr) :=
  tokens ← ok_or (shlex_split raw) (InvalidExample (lit "example string has invalid shell syntax"));
  match tokens with
  | [] => Err (InvalidExample (lit "example cannot be an empty string"))
  | _ => Ok tokens
  end.

Definition parse_list_example (items : list Value) : res Error (list rstr) :=
  tokens ← map_res (fun v => ok_or (unpack_str v)
    (InvalidExample (lit "example tokens must be strings (got " ++ get_type v ++ lit ")"))) items;
  match tokens with
  | [] => Err (InvalidExample (lit "example cannot be an empty list"))
  | _ => Ok tokens
  end.

Definition parse_example (value : Value) : res Error (list rstr) :=
  match value with
  | VStr raw => parse_string_example raw
  | VList items => parse_list_example items
  | VOther _ =>
      Err (InvalidExample (lit "example must be a string or list of strings (got "
        ++ get_type value ++ lit ")"))
  end.

Definition parse_examples (examples : option (list Value)) : res Error (list (list rstr)) :=
  match examples with
  | None => Ok []
  | Some values => map_res parse_example values
  end.

(** ** Host executables *)

Definition parse_literal_absolute_path (raw : rstr) : res Error AbsolutePathBuf :=
  if negb (is_absolute raw)
  then Err (InvalidRule (lit "host_executable paths must be absolute (got " ++ raw ++ lit ")"))
  else map_err (fun e => InvalidRule (lit "invalid absolute path `" ++ raw ++ lit "`: " ++ fmt_path_error e))
         (from_absolute_path env raw).

Definition validate_host_executable_name (name : rstr) : res Error unit :=
  if is_empty name then Err (InvalidRule (lit "host_executable name cannot be empty"))
  else if negb (length (components name) =? 1)
          || negb (bool_decide (file_name (components name) = Some name))
  then Err (InvalidRule (lit "host_executable name must be a bare executable name (got " ++ name ++ lit ")"))
  else Ok tt.

Definition basename_mismatch (raw name : rstr) : Error :=
  InvalidRule (lit "host_executable path `" ++ raw ++ lit "` must have basename `" ++ name ++ lit "`").

Definition host_path_step (name : rstr) (parsed : list AbsolutePathBuf) (value : Value)
  : res Error (list AbsolutePathBuf) :=
  raw ← ok_or (unpack_str value)
    (InvalidRule (lit "host_executable paths must be strings (got " ++ get_type value ++ lit ")"));
  path ← parse_literal_absolute_path raw;
  match executable_path_lookup_key path with
  | None => Err (basename_mismatch raw name)
  | Some path_name =>
      if negb (streq path_name (executable_lookup_key name)) then Err (basename_mismatch raw name)
      else if existsb (fun existing => bool_decide (existing = path)) parsed then Ok parsed
      else Ok (parsed ++ [path])
  end.

(** ** The builtins *)

Definition parse_network_rule_decision (raw : rstr) : res Error Decision :=
  if streq raw (lit "deny") then Ok Forbidden else decision_parse raw.

Definition builtin_prefix_rule (b : PolicyBuilder) (pattern : list Value) (decision : option rstr)
    (match_ not_match : option (list Value)) (justification : option rstr)
    (location : option FileSpan) : res Error PolicyBuilder :=
  decision ← match decision with Some raw => decision_parse raw | None => Ok Allow end;
  if blank_justification justification then Err (InvalidRule (lit "justification cannot be empty")) else
  pattern_tokens ← parse_pattern pattern;
  matches ← parse_examples match_;
  not_matches ← parse_examples not_match;
  match pattern_tokens with
  | [] => Err (InvalidPattern (lit "pattern cannot be empty"))
  | first_token :: remaining_tokens =>
      let rules := map (fun head =>
        {| pr_pattern := {| pat_first := head; pat_rest := remaining_tokens |};
           pr_decision := decision; pr_justification := justification |})
        (token_alternatives first_token) in
      let b' := builder_add_pending b
        {| pv_rules := rules; pv_matches := matches; pv_not_matches := not_matches;
           pv_location := error_location_from_file_span <$> location |} in
      Ok (fold_left builder_add_rule rules b')
  end.

Definition builtin_network_rule (b : PolicyBuilder) (host protocol decision : rstr)
    (justification : option rstr) : res Error PolicyBuilder :=
  protocol ← protocol_parse protocol;
  decision ← parse_network_rule_decision decision;
  if blank_justification justification then Err (InvalidRule (lit "justification cannot be empty")) else
  host ← normalize_network_rule_host host;
  Ok (builder_add_network_rule b
        {| nr_host := host; nr_protocol := protocol; nr_decision := decision;
           nr_justification := justification |}).

Definition builtin_host_executable (b : PolicyBuilder) (name : rstr) (paths : list Value)
  : res Error PolicyBuilder :=
  validate_host_executable_name name ;;
  parsed_paths ← fold_res (host_path_step name) [] paths;
  Ok (builder_add_host_executable b (executable_lookup_key name) parsed_paths).

Definition run_builtin (b : PolicyBuilder) (c : BuiltinCall) : res Error PolicyBuilder :=
  match c with
  | CallPrefixRule pattern decision m nm j loc => builtin_prefix_rule b pattern decision m nm j loc
  | CallNetworkRule host protocol decision j => builtin_network_rule b host protocol decision j
  | CallHostExecutable name paths => builtin_host_executable b name paths
  end.

(** ** Example validation ([rule.rs]) *)

Definition render_example (example : list rstr) : rstr :=
  default (lit "unable to render example") (shlex_join example).

Definition validate_match_examples (policy : Policy) (rules : list PrefixRule)
    (matches : list (list rstr)) : res Error unit :=
  let unmatched := List.filter (fun example =>
    is_empty (matches_for_command_with_options env policy example None
                {| resolve_host_executables := true |})) matches in
  match unmatched with
  | [] => Ok tt
  | _ => Err (ExampleDidNotMatch (map fmt_rule rules) (map render_example unmatched) None)
  end.

Fixpoint validate_not_match_examples (policy : Policy) (not_matches : list (list rstr))
  : res Error unit :=
  match not_matches with
  | [] => Ok tt
  | example :: rest =>
      match matches_for_command_with_options env policy example None
              {| resolve_host_executables := true |} with
      | rm :: _ => Err (ExampleDidMatch (fmt_match rm) (render_example example) None)
      | [] => validate_not_match_examples policy rest
      end
  end.

Definition attach_validation_location (error : Error) (location : option ErrorLocation) : Error :=
  match location with Some loc => with_location error loc | None => error end.

(** The policy one rule's examples are checked against: that rule's expansion
    and every host executable declared so far. *)
Definition validation_policy (b : PolicyBuilder) (v : PendingExampleValidation) : Policy :=
  {| rules_by_program :=
       fold_left (fun acc rule => mm_insert (rule_program rule) rule acc) (pv_rules v) ∅;
     network_rules := [];
     host_executables_by_name := pb_host_executables_by_name b |}.

Definition validate_one (b : PolicyBuilder) (v : PendingExampleValidation) : res Error unit :=
  let policy := validation_policy b v in
  map_err (fun e => attach_validation_location e (pv_location v))
    (validate_not_match_examples policy (pv_not_matches v)) ;;
  map_err (fun e => attach_validation_location e (pv_location v))
    (validate_match_examples policy (pv_rules v) (pv_matches v)).

(** [pending_example_validations[start..]]: slicing past the end panics. *)
Definition validate_pending_examples_from (b : PolicyBuilder) (start : nat) : res Error unit :=
  if length (pb_pending b) <? start then Panic
  else fold_res (fun _ v => validate_one b v) tt (drop start (pb_pending b)).

(** ** [PolicyParser] *)

(** Evaluation runs the builtins in order; the builder keeps what the calls
    before a failure did. *)
Fixpoint eval_module (b : PolicyBuilder) (calls : list BuiltinCall)
    (final : option (option FileSpan)) : PolicyBuilder * res Error unit :=
  match calls with
  | [] => (b, match final with Some span => Err (Starlark span) | None => Ok tt end)
  | c :: calls' =>
      match run_builtin b c with
      | Ok b' => eval_module b' calls' final
      | Err e => (b, Err (Starlark (builtin_error_span c e)))
      | Panic => (b, Panic)
      end
  end.

Definition parser_parse (b : PolicyBuilder) (policy_identifier policy_file_contents : rstr)
  : PolicyBuilder * res Error unit :=
  let pending_validation_count := length (pb_pending b) in
  let '(calls, final) := starlark_run policy_identifier policy_file_contents in
  match eval_module b calls final with
  | (b', Ok _) => (b', validate_pending_examples_from b' pending_validation_count)
  | failed => failed
  end.

(** [load_policies]: parses the files in order into one builder, stopping at the
    first failure. *)
Fixpoint load_policies (b : PolicyBuilder) (files : list (rstr * rstr)) : res Error Policy :=
  match files with
  | [] => Ok (builder_build b)
  | (ident, contents) :: files' =>
      match parser_parse b ident contents with
      | (b', Ok _) => load_policies b' files'
      | (_, Err e) => Err e
      | (_, Panic) => Panic
      end
  end.

(** ** Specifications *)

Definition builder_ok (b : PolicyBuilder) : Prop :=
  policy_ok (builder_build b) /\
  (forall name paths, pb_host_executables_by_name b !! name = Some paths ->
     good_name name /\ NoDup paths /\ Forall (fun p => file_name p = Some name) paths).

(** Every example of a validated rule behaves as the file claims. *)
Definition examples_hold (b : PolicyBuilder) (v : PendingExampleValidation) : Prop :=
  (forall ex, ex ∈ pv_matches v -> exists rm,
     applicable env (validation_policy b v) None {| resolve_host_executables := true |} ex rm) /\
  (forall ex rm, ex ∈ pv_not_matches v ->
     ~ applicable env (validation_policy b v) None {| resolve_host_executables := true |} ex rm).

(** ** Lemmas *)

Lemma builder_add_rule_rules b r k :
  rules_of (builder_build (builder_add_rule b r)) k
  = rules_of (builder_build b) k ++ (if decide (rule_program r = k) then [r] else []).
Proof. unfold rules_of. simpl. apply mm_insert_rules. Qed.

Lemma builder_add_rules_rules rs b k :
  rules_of (builder_build (fold_left builder_add_rule rs b)) k
  = rules_of (builder_build b) k ++ List.filter (fun r : PrefixRule => streq (rule_program r) k) rs.
Proof.
  revert b. induction rs as [|r rs IH]; intros b; cbn [fold_left List.filter]; [by rewrite app_nil_r|].
  rewrite IH, builder_add_rule_rules, <- app_assoc. f_equal. unfold streq.
  case_decide; case_bool_decide; done.
Qed.

Lemma builder_add_rules_other rs b :
  pb_network_rules (fold_left builder_add_rule rs b) = pb_network_rules b /\
  pb_host_executables_by_name (fold_left builder_add_rule rs b) = pb_host_executables_by_name b /\
  pb_pending (fold_left builder_add_rule rs b) = pb_pending b.
Proof. revert b. induction rs as [|r rs IH]; intros b; [done|].
  cbn [fold_left]. by destruct (IH (builder_add_rule b r)) as (-> & -> & ->).
Qed.

Lemma validate_host_executable_name_ok name u :
  validate_host_executable_name name = Ok u -> good_name name.
Proof.
  unfold validate_host_executable_name, components, file_name. intros H.
  pose proof (omap_segments_good _ (split_char_no_elem SLASH name)) as Hsegs.
  destruct (omap segment_component (split_char SLASH name)) as [|c [|]];
    repeat (case_match; simplify_eq/=); bool_prop; simplify_eq/=; try done.
  apply Forall_singleton in Hsegs as [?|(? & [= ->] & ?)]; [done|].
  by simplify_eq/=.
Qed.

Lemma blank_justification_reject (j : option rstr) (k r : res Error PolicyBuilder) b :
  (if blank_justification j then Err (InvalidRule (lit "justification cannot be empty")) else k) = Ok b ->
  blank_justification j = false /\ k = Ok b.
Proof. by case_match. Qed.

Lemma host_path_step_ok name acc v acc' :
  NoDup acc /\ Forall (fun p => file_name p = Some name) acc ->
  host_path_step name acc v = Ok acc' ->
  NoDup acc' /\ Forall (fun p => file_name p = Some name) acc'.
Proof.
  unfold host_path_step, executable_path_lookup_key, executable_lookup_key. intros [Hnd Hall] H.
  destruct (unpack_str v); [|done]. cbn [mbind res_bind ok_or] in H.
  destruct (parse_literal_absolute_path _) as [path|e|]; [|done..]. cbn [mbind res_bind] in H.
  destruct (file_name path) eqn:En; [|done]. cbn [fmap option_fmap option_map] in H.
  destruct (streq _ _) eqn:Es; [|done]. cbn [negb] in H. apply streq_true in Es as ->.
  destruct (existsb _ acc) eqn:Ex; simplify_eq; [done|]. split.
  - apply NoDup_app. split_and!; [done| |apply NoDup_singleton].
    intros x Hx. rewrite list_elem_of_singleton. intros ->.
    apply not_true_iff_false in Ex. apply Ex, existsb_exists. exists path.
    split; [by apply list_elem_of_In|by apply bool_decide_eq_true].
  - apply Forall_app. split; [done|by apply Forall_singleton].
Qed.

Lemma builtin_prefix_rule_inv b pattern d m nm j loc b' :
  builtin_prefix_rule b pattern d m nm j loc = Ok b' ->
  exists decision first rest ms nms,
    match d with Some raw => decision_parse raw | None => Ok Allow end = Ok decision /\
    parse_pattern pattern = Ok (first :: rest) /\
    parse_examples m = Ok ms /\ parse_examples nm = Ok nms /\
    let rules := map (fun head =>
        {| pr_pattern := {| pat_first := head; pat_rest := rest |};
           pr_decision := decision; pr_justification := j |}) (token_alternatives first) in
    b' = fold_left builder_add_rule rules (builder_add_pending b
      {| pv_rules := rules; pv_matches := ms; pv_not_matches := nms;
         pv_location := error_location_from_file_span <$> loc |}).
Proof.
  unfold builtin_prefix_rule. intros H.
  destruct (match d with Some raw => _ | None => _ end) as [decision|e|]; [|done..].
  cbn [mbind res_bind] in H. case_match; [done|].
  destruct (parse_pattern pattern) as [toks|e|]; [|done..]. cbn [mbind res_bind] in H.
  destruct (parse_examples m) as [ms|e|]; [|done..]. cbn [mbind res_bind] in H.
  destruct (parse_examples nm) as [nms|e|]; [|done..]. cbn [mbind res_bind] in H.
  destruct toks as [|first rest]; [done|]. simplify_eq. by eexists decision, first, rest, ms, nms.
Qed.

Lemma builder_add_pending_build b v : builder_build (builder_add_pending b v) = builder_build b.
Proof. done. Qed.

Lemma run_builtin_ok b c b' : builder_ok b -> run_builtin b c = Ok b' -> builder_ok b'.
Proof.
  intros [[Hkey Hnet] Hhost] H. destruct c as [pattern d m nm j loc|host proto d j|name paths].
  - apply builtin_prefix_rule_inv in H as (dec & first & rest & ms & nms & _ & _ & _ & _ & ->).
    set (rules := map _ (token_alternatives first)). unfold builder_ok, policy_ok.
    destruct (builder_add_rules_other rules (builder_add_pending b
      {| pv_rules := rules; pv_matches := ms; pv_not_matches := nms;
         pv_location := error_location_from_file_span <$> loc |})) as (Hn & Hh & _).
    split_and!.
    + intros k r. rewrite builder_add_rules_rules, builder_add_pending_build, elem_of_app.
      intros [Hr|[_ Hr%streq_true]%elem_of_filter_bool]; [by apply Hkey|done].
    + change (network_rules (builder_build ?x)) with (pb_network_rules x). by rewrite Hn.
    + rewrite Hh. apply Hhost.
  - simpl in H. unfold builtin_network_rule in H. destruct (protocol_parse proto); [|done..].
    cbn [mbind res_bind] in H. destruct (parse_network_rule_decision d); [|done..].
    cbn [mbind res_bind] in H. case_match eqn:Ej; [done|].
    destruct (normalize_network_rule_host host) eqn:Eh; [|done..]. cbn [mbind res_bind] in H.
    simplify_eq. split; [split|]; [apply Hkey| |apply Hhost].
    simpl. apply Forall_app. split; [done|]. apply Forall_singleton.
    split; [by eapply normalize_network_rule_host_ok|done].
  - simpl in H. unfold builtin_host_executable in H.
    destruct (validate_host_executable_name name) eqn:Ev; [|done..]. cbn [mbind res_bind] in H.
    destruct (fold_res (host_path_step name) [] paths) as [ps|e|] eqn:Ef; [|done..].
    cbn [mbind res_bind] in H. simplify_eq. split; [split; [apply Hkey|apply Hnet]|].
    intros n qs. simpl. unfold executable_lookup_key. rewrite lookup_insert.
    case_decide as Hn; [|apply Hhost]. intros [= <-]. subst n.
    split; [by eapply validate_host_executable_name_ok|].
    apply (fold_res_inv (fun acc => NoDup acc /\ Forall (fun p => file_name p = Some name) acc)
      (host_path_step name) [] paths); [split; [constructor|constructor]| |done].
    intros. by eapply host_path_step_ok.
Qed.

Lemma eval_module_ok b calls final : builder_ok b -> builder_ok (fst (eval_module b calls final)).
Proof.
  revert b. induction calls as [|c calls IH]; intros b Hb; simpl; [done|].
  destruct (run_builtin b c) eqn:E; [|done..]. by eapply IH, run_builtin_ok.
Qed.

Lemma run_builtin_pending b c b' :
  run_builtin b c = Ok b' -> exists new, pb_pending b' = pb_pending b ++ new.
Proof.
  intros H. destruct c as [pattern d m nm j loc|host proto d j|name paths].
  - apply builtin_prefix_rule_inv in H as (dec & first & rest & ms & nms & _ & _ & _ & _ & ->).
    rewrite (proj2 (proj2 (builder_add_rules_other _ _))). by eexists.
  - exists []. rewrite app_nil_r. simpl in H. unfold builtin_network_rule in H.
    res_inv. done.
  - exists []. rewrite app_nil_r. simpl in H. unfold builtin_host_executable in H.
    destruct (validate_host_executable_name name); [|done..]. cbn [mbind res_bind] in H.
    destruct (fold_res _ _ _); [|done..]. cbn [mbind res_bind] in H. by simplify_eq.
Qed.

Lemma eval_module_pending b calls final :
  exists new, pb_pending (fst (eval_module b calls final)) = pb_pending b ++ new.
Proof.
  revert b. induction calls as [|c calls IH]; intros b; simpl; [exists []; by rewrite app_nil_r|].
  destruct (run_builtin b c) eqn:E; [|exists []; by rewrite app_nil_r..].
  apply run_builtin_pending in E as [n1 E]. destruct (IH a) as [n2 ->].
  exists (n1 ++ n2). by rewrite E, app_assoc.
Qed.

Lemma validate_not_match_examples_ok pol l u :
  validate_not_match_examples pol l = Ok u ->
  forall ex rm, ex ∈ l -> ~ applicable env pol None {| resolve_host_executables := true |} ex rm.
Proof.
  induction l as [|x l IH]; [set_solver|]. cbn [validate_not_match_examples].
  destruct (matches_for_command_with_options _ _ x _ _) eqn:E; [|done].
  intros H ex rm [->|Hex]%elem_of_cons; [|by apply IH].
  rewrite <- matches_for_command_elem, E. apply not_elem_of_nil.
Qed.

Lemma validate_match_examples_ok pol rules l u :
  validate_match_examples pol rules l = Ok u ->
  forall ex, ex ∈ l -> exists rm, applicable env pol None {| resolve_host_executables := true |} ex rm.
Proof.
  unfold validate_match_examples. intros H ex Hex. case_match eqn:E; [|done].
  destruct (matches_for_command_with_options env pol ex None {| resolve_host_executables := true |})
    as [|rm rms] eqn:Em; [|exists rm; rewrite <- matches_for_command_elem, Em; apply list_elem_of_here].
  exfalso. apply (proj1 (elem_of_empty_iff _) E ex). apply elem_of_filter_bool. by rewrite Em.
Qed.

Lemma validate_one_ok b v u : validate_one b v = Ok u -> examples_hold b v.
Proof.
  unfold validate_one. intros H.
  destruct (validate_not_match_examples _ _) eqn:E1; [|done..].
  cbn [map_err mbind res_bind] in H.
  destruct (validate_match_examples _ _ _) eqn:E2; [|done..].
  split; [by eapply validate_match_examples_ok|by eapply validate_not_match_examples_ok].
Qed.

Lemma validate_all_ok b l u :
  fold_res (fun _ v => validate_one b v) tt l = Ok u -> forall v, v ∈ l -> examples_hold b v.
Proof.
  induction l as [|v l IH]; [set_solver|]. cbn [fold_res]. intros H w Hw.
  destruct (validate_one b v) as [[]|e|] eqn:E; [|done..]. cbn [mbind res_bind] in H.
  apply elem_of_cons in Hw as [->|Hw]; [by eapply validate_one_ok|by apply IH].
Qed.

Lemma builder_new_ok : builder_ok builder_new.
Proof.
  split; [split|]; [unfold rules_of; simpl; set_solver|constructor|].
  intros name paths. simpl. by rewrite lookup_empty.
Qed.

Lemma load_policies_builder_ok b files pol :
  builder_ok b -> load_policies b files = Ok pol ->
  exists b', builder_ok b' /\ pol = builder_build b'.
Proof.
  revert b. induction files as [|[ident contents] files IH]; intros b Hb H; cbn [load_policies] in H.
  - simplify_eq. by exists b.
  - destruct (parser_parse b ident contents) as [b1 r] eqn:E. destruct r; [|done..].
    apply (IH b1); [|done]. unfold parser_parse in E.
    destruct (starlark_run ident contents) as [calls final].
    pose proof (eval_module_ok b calls final Hb) as Hok.
    destruct (eval_module b calls final) as [b2 []]; by simplify_eq/=.
Qed.

(** The rules one call stores match what its pattern says, head alternatives
    included. *)
Lemma prefix_rule_expansion first rest decision j cmd (rm : RuleMatch) :
  (exists head tl r pre, cmd = head :: tl /\
     r ∈ List.filter (fun r : PrefixRule => streq (rule_program r) head)
       (map (fun h => {| pr_pattern := {| pat_first := h; pat_rest := rest |};
                         pr_decision := decision; pr_justification := j |}) (token_alternatives first)) /\
     pre `prefix_of` cmd /\ pattern_spec (pr_pattern r) pre /\
     rm = PrefixRuleMatch pre (pr_decision r) None (pr_justification r)) <->
  exists pre, pre `prefix_of` cmd /\
    Forall2 (fun pt t => t ∈ token_alternatives pt) (first :: rest) pre /\
    rm = PrefixRuleMatch pre decision None j.
Proof.
  split.
  - intros (head & tl & r & pre & -> & [Hr Hh%streq_true]%elem_of_filter_bool & Hpre & Hspec & ->).
    apply list_elem_of_In, in_map_iff in Hr as (h & <- & Hin%list_elem_of_In).
    destruct Hspec as (toks & -> & Hf). simpl in *. exists (h :: toks). by rewrite Forall2_cons.
  - intros (pre & Hpre & Hf & ->). apply Forall2_cons_inv_l in Hf as (h & toks & Hh & Hf & ->).
    destruct cmd as [|c tl]; [by apply prefix_nil_inv in Hpre|].
    pose proof (prefix_cons_inv_1 _ _ _ _ Hpre) as ->.
    eexists c, tl, {| pr_pattern := {| pat_first := c; pat_rest := rest |};
                      pr_decision := decision; pr_justification := j |}, (c :: toks).
    split_and!; [done| |done|by exists toks|done].
    apply elem_of_filter_bool. split; [|apply streq_refl].
    apply list_elem_of_In, in_map_iff. exists c. split; [done|by apply list_elem_of_In].
Qed.

(** ** Theorems *)

(** A successful [prefix_rule] call adds to the policy exactly the matches
    its pattern describes: commands whose first tokens pick one alternative per
    pattern position, the first position included, matched with the call's
    decision (allow by default) and justification; all other matches are those
    there were before. *)
Theorem prefix_rule_semantics b pattern d m nm j loc b' cmd rm :
  run_builtin b (CallPrefixRule pattern d m nm j loc) = Ok b' ->
  exists toks decision, parse_pattern pattern = Ok toks /\
    match d with Some raw => decision_parse raw | None => Ok Allow end = Ok decision /\
    (exact_applies (builder_build b') cmd rm <->
     exact_applies (builder_build b) cmd rm \/
     exists pre, pre `prefix_of` cmd /\
       Forall2 (fun pt t => t ∈ token_alternatives pt) toks pre /\
       rm = PrefixRuleMatch pre decision None j).
Proof.
  intros H. apply builtin_prefix_rule_inv in H as (dec & first & rest & ms & nms & Hd & Hp & _ & _ & ->).
  exists (first :: rest), dec. split_and!; [done|done|].
  rewrite <- prefix_rule_expansion. unfold exact_applies.
  setoid_rewrite builder_add_rules_rules. setoid_rewrite elem_of_app.
  setoid_rewrite builder_add_pending_build. clear. naive_solver.
Qed.

(** Loading rules files only yields well-formed policies: rules stored under
    their own program, network rules with normalised specific hosts, and host
    executables whose name is a bare file name and whose paths are distinct,
    each ending in that name. *)
Theorem load_policies_well_formed files pol :
  load_policies builder_new files = Ok pol ->
  policy_ok pol /\
  forall name paths, host_executables_by_name pol !! name = Some paths ->
    good_name name /\ NoDup paths /\ Forall (fun p => file_name p = Some name) paths.
Proof.
  intros H. apply load_policies_builder_ok in H as (b & [Hok Hhost] & ->); [|apply builder_new_ok].
  split; [done|]. apply Hhost.
Qed.

(** When a rules file parses, every example of every rule it declared does
    what the file says: each [match] example is matched by that rule alone (given
    the host executables declared so far) and no [not_match] example is. Rules
    of earlier files are not checked again. *)
Theorem parsed_examples_hold b ident contents b' u :
  parser_parse b ident contents = (b', Ok u) ->
  exists new, pb_pending b' = pb_pending b ++ new /\ forall v, v ∈ new -> examples_hold b' v.
Proof.
  unfold parser_parse. destruct (starlark_run ident contents) as [calls final].
  destruct (eval_module_pending b calls final) as [new Hnew].
  destruct (eval_module b calls final) as [b1 r1]. simpl in Hnew.
  destruct r1; [|done..]. intros [= <- Hv]. exists new. split; [done|].
  unfold validate_pending_examples_from in Hv. case_match; [done|].
  rewrite Hnew, drop_app_length in Hv. by eapply validate_all_ok.
Qed.
End Parser.

(** ** Witnesses: a policy file of three calls *)

Module Demo.
(** Blank-separated words, enough for the examples below. *)
Definition split (s : rstr) : option (list rstr) := Some (split_char 32 s).
Definition joinw (l : list rstr) : option rstr := Some (join [32%Z] l).
Definition fr (r : PrefixRule) : rstr := lit "rule".
Definition fm (m : RuleMatch) : rstr := lit "match".
Definition fe (e : PathError) : rstr := lit "error".
Definition espan (c : BuiltinCall) (e : Error) : option FileSpan := None.

Definition git_rule : BuiltinCall :=
  CallPrefixRule [VList [VStr (lit "git"); VStr (lit "hub")]; VStr (lit "status")] (Some (lit "prompt"))
    (Some [VStr (lit "hub status -s"); VList [VStr (lit "/usr/bin/git"); VStr (lit "status")]])
    (Some [VStr (lit "git push")]) None None.

Definition calls : list BuiltinCall :=
  [CallHostExecutable (lit "git") [VStr (lit "/usr/bin/git"); VStr (lit "/usr//bin/./git")];
   git_rule;
   CallNetworkRule (lit "Example.COM.") (lit "https_connect") (lit "deny") (Some (lit "no"))].

Definition run (ident contents : rstr) : list BuiltinCall * option (option FileSpan) := (calls, None).
Definition load := load_policies demo_env split joinw fr fm fe run espan.
Definition parse := parser_parse demo_env split joinw fr fm fe run espan.
End Demo.

Lemma prefix_rule_semantics_witness :
  exists b', run_builtin demo_env Demo.split Demo.fe builder_new Demo.git_rule = Ok b' /\
    exact_applies (builder_build b') [lit "hub"; lit "status"; lit "-s"]
      (PrefixRuleMatch [lit "hub"; lit "status"] Prompt None None).
Proof.
  destruct (run_builtin demo_env Demo.split Demo.fe builder_new Demo.git_rule) as [b'|e|] eqn:E;
    [|vm_compute in E; discriminate E..].
  exists b'. split; [done|].
  destruct (prefix_rule_semantics _ _ _ _ _ _ _ _ _ _ _ [lit "hub"; lit "status"; lit "-s"]
    (PrefixRuleMatch [lit "hub"; lit "status"] Prompt None None) E) as (toks & dec & Ht & Hd & Hiff).
  vm_compute in Ht. injection Ht as <-. vm_compute in Hd. injection Hd as <-.
  apply Hiff. right. exists [lit "hub"; lit "status"]. split_and!; [by exists [lit "-s"]| |done].
  repeat constructor; vm_compute; set_solver.
Defined.

Lemma load_policies_well_formed_witness :
  exists pol, Demo.load builder_new [(lit "a", []); (lit "b", [])] = Ok pol /\ policy_ok pol.
Proof.
  destruct (Demo.load builder_new [(lit "a", []); (lit "b", [])]) as [pol|e|] eqn:E;
    [|vm_compute in E; discriminate E..].
  exists pol. split; [done|].
  exact (proj1 (load_policies_well_formed _ _ _ _ _ _ _ _ _ _ E)).
Defined.

Lemma parsed_examples_hold_witness :
  exists b' new, Demo.parse builder_new (lit "a") [] = (b', Ok tt) /\
    pb_pending b' = new /\ length new = 1 /\
    (forall v, v ∈ new -> examples_hold demo_env b' v).
Proof.
  assert (length (pb_pending (fst (Demo.parse builder_new (lit "a") []))) = 1 /\
    snd (Demo.parse builder_new (lit "a") []) = Ok tt) as [Hlen Hr] by by vm_compute.
  destruct (Demo.parse builder_new (lit "a") []) as [b' r] eqn:E. simpl in Hlen, Hr. subst r.
  destruct (parsed_examples_hold _ _ _ _ _ _ _ _ _ _ _ _ _ E) as (new & Hnew & Hhold).
  exists b', new. split_and!; [done|by rewrite Hnew| |done].
  by rewrite Hnew in Hlen.
Defined.
