(* ===== verification/ExecAmend.v ===== *)
(** * Writing rules to a policy file, and the clean-up migration

    Models [workx-rs/execpolicy/src/amend.rs] (appending an allow rule or a
    network rule to a policy file) and [sandbox_migration.rs] (the one-shot
    removal of allow rules that are no longer offered). The file system is
    explicit: the contents of the policy file are threaded through every
    operation, and [AmendIo] and [MigrationIo] say which system call fails and
    what a failing write leaves behind. JSON printing and parsing ([serde_json])
    are parameters. *)
From S2P Require Import Prelude AbsPath ExecRule ExecPolicy.

Set Default Goal Selector "!".

(** ** [amend.rs] *)

Inductive AmendError :=
| EmptyPrefix
| InvalidNetworkRule (msg : rstr)
| MissingParent (path : rstr)
| CreatePolicyDir (dir : list Component) (source : IoKind)
| SerializePrefix
| SerializeNetworkRule
| OpenPolicyFile (path : rstr) (source : IoKind)
| WritePolicyFile (path : rstr) (source : IoKind)
| LockPolicyFile (path : rstr) (source : IoKind)
| SeekPolicyFile (path : rstr) (source : IoKind)
| ReadPolicyFile (path : rstr) (source : IoKind).

(** What the system calls of one append answer. A failing [write_all] may have
    written something first. *)
Record AmendIo := {
  io_create_dir : option IoKind;
  io_open : option IoKind;
  io_lock : option IoKind;
  io_seek : option IoKind;
  io_read : option IoKind;
  io_write_newline : option (IoKind * rstr);
  io_write_line : option (IoKind * rstr);
}.

Definition amend_io_ok : AmendIo :=
  {| io_create_dir := Some AlreadyExists; io_open := None; io_lock := None; io_seek := None;
     io_read := None; io_write_newline := None; io_write_line := None |}.

(** The policy file ([None]: there is none) after an operation, and its answer. *)
Definition amend_result : Type := option rstr * res AmendError unit.

(** [File::write_all] in append mode. *)
Definition append_bytes (fault : option (IoKind * rstr)) (contents data : rstr) : rstr * option IoKind :=
  match fault with
  | None => (contents ++ data, None)
  | Some (e, partial) => (contents ++ partial, Some e)
  end.

Definition append_locked_line (io : AmendIo) (policy_path : rstr) (file : option rstr) (line : rstr)
    : amend_result :=
  match io_open io with
  | Some e => (file, Err (OpenPolicyFile policy_path e))
  | None =>
      let contents := default [] file in
      match io_lock io with
      | Some e => (Some contents, Err (LockPolicyFile policy_path e))
      | None =>
      match io_seek io with
      | Some e => (Some contents, Err (SeekPolicyFile policy_path e))
      | None =>
      match io_read io with
      | Some e => (Some contents, Err (ReadPolicyFile policy_path e))
      | None =>
          if existsb (fun existing => existing =s line) (str_lines contents) then (Some contents, Ok ())
          else
            let '(written, e1) :=
              if negb (is_empty contents) && negb (ends_with [NL] contents)
              then append_bytes (io_write_newline io) contents [NL]
              else (contents, None) in
            match e1 with
            | Some e => (Some written, Err (WritePolicyFile policy_path e))
            | None =>
                let '(written', e2) := append_bytes (io_write_line io) written (line ++ [NL]) in
                match e2 with
                | Some e => (Some written', Err (WritePolicyFile policy_path e))
                | None => (Some written', Ok ())
                end
            end
      end end end
  end.

(** [Path::parent]. *)
Definition path_parent (path : rstr) : option (list Component) :=
  match last (components path) with
  | None | Some RootDir => None
  | Some _ => Some (removelast (components path))
  end.

Definition append_rule_line (io : AmendIo) (policy_path : rstr) (file : option rstr) (rule : rstr)
    : amend_result :=
  match path_parent policy_path with
  | None => (file, Err (MissingParent policy_path))
  | Some dir =>
      match io_create_dir io with
      | None | Some AlreadyExists => append_locked_line io policy_path file rule
      | Some source => (file, Err (CreatePolicyDir dir source))
      end
  end.

(** The display of the error [normalize_network_rule_host] answers. *)
Definition network_error_text (e : Error) : rstr :=
  match e with
  | InvalidRule msg => lit "invalid rule: " ++ msg
  | _ => []
  end.

Definition RULE_OPEN : rstr := lit "prefix_rule(pattern=".
Definition RULE_CLOSE : rstr := lit ", decision=" ++ [DQUOTE] ++ lit "allow" ++ [DQUOTE] ++ lit ")".

Section Amend.
Set Default Proof Using "Type".

(** [serde_json::to_string] on a string. *)
Variable json_string : rstr -> option rstr.

Definition blocking_append_allow_prefix_rule (io : AmendIo) (policy_path : rstr) (file : option rstr)
    (prefix : list rstr) : amend_result :=
  if is_empty prefix then (file, Err EmptyPrefix)
  else match mapM json_string prefix with
       | None => (file, Err SerializePrefix)
       | Some tokens =>
           let pattern := lit "[" ++ join (lit ", ") tokens ++ lit "]" in
           append_rule_line io policy_path file (RULE_OPEN ++ pattern ++ RULE_CLOSE)
       end.

Definition network_decision_word (decision : Decision) : rstr :=
  match decision with
  | Allow => lit "allow"
  | Prompt => lit "prompt"
  | Forbidden => lit "deny"
  end.

(** The text of a network rule, [None] when a field cannot be serialised. *)
Definition network_rule_text (host : rstr) (protocol : NetworkRuleProtocol) (decision : Decision)
    (justification : option rstr) : option rstr :=
  host ← json_string host;
  protocol ← json_string (as_policy_string protocol);
  decision ← json_string (network_decision_word decision);
  let args := [lit "host=" ++ host; lit "protocol=" ++ protocol; lit "decision=" ++ decision] in
  args ← match justification with
         | None => Some args
         | Some j => j ← json_string j; Some (args ++ [lit "justification=" ++ j])
         end;
  Some (lit "network_rule(" ++ join (lit ", ") args ++ lit ")").

Definition blocking_append_network_rule (io : AmendIo) (policy_path : rstr) (file : option rstr)
    (host : rstr) (protocol : NetworkRuleProtocol) (decision : Decision)
    (justification : option rstr) : amend_result :=
  match normalize_network_rule_host host with
  | Panic => (file, Panic)
  | Err e => (file, Err (InvalidNetworkRule (network_error_text e)))
  | Ok host =>
      if blank_justification justification
      then (file, Err (InvalidNetworkRule (lit "justification cannot be empty")))
      else match network_rule_text host protocol decision justification with
           | None => (file, Err SerializeNetworkRule)
           | Some rule => append_rule_line io policy_path file rule
           end
  end.

End Amend.

(** ** [sandbox_migration.rs] *)

Section Migration.
Set Default Proof Using "Type".

(** [serde_json::from_str::<Vec<String>>]. *)
Variable json_parse : rstr -> option (list rstr).

Definition should_remove_rule (line : rstr) (banned_prefixes : list (list rstr)) : bool :=
  let line := default line (strip_suffix [NL] line) in
  let line := default line (strip_suffix [CR] line) in
  match strip_prefix RULE_OPEN line ≫= strip_suffix RULE_CLOSE with
  | None => false
  | Some pattern =>
      match json_parse pattern with
      | None => false
      | Some prefix => bool_decide (map to_ascii_lowercase prefix ∈ banned_prefixes)
      end
  end.

Definition strip_banned_allow_rules (contents : rstr) (banned_prefixes : list (list rstr)) : rstr :=
  let banned_prefixes := map (map to_ascii_lowercase) banned_prefixes in
  concat (List.filter (fun line => negb (should_remove_rule line banned_prefixes))
                      (split_inclusive NL contents)).

(** What the system calls of one migration answer. [mio_between] is what another
    process does to the file between the first read and the open; a failing
    write or truncation leaves the given contents behind. *)
Record MigrationIo := {
  mio_try_exists : option IoKind;
  mio_read : option IoKind;
  mio_between : option rstr -> option rstr;
  mio_open : option IoKind;
  mio_read_again : option IoKind;
  mio_seek : option IoKind;
  mio_write : option (IoKind * rstr);
  mio_set_len : option (IoKind * rstr);
  mio_create_home : option IoKind;
  mio_temp_file : option IoKind;
  mio_persist : option IoKind;
}.

Definition clean_rules_file (io : MigrationIo) (file : option rstr) (banned : list (list rstr))
    : option rstr * res IoKind unit :=
  match mio_read io, file with
  | Some e, _ => (file, match e with NotFound => Ok () | _ => Err e end)
  | None, None => (None, Ok ())
  | None, Some contents =>
      if strip_banned_allow_rules contents banned =s contents then (file, Ok ())
      else
        let file := mio_between io file in
        match mio_open io, file with
        | Some e, _ => (file, match e with NotFound => Ok () | _ => Err e end)
        | None, None => (None, Ok ())
        | None, Some contents =>
            match mio_read_again io with
            | Some e => (file, Err e)
            | None =>
                let retained := strip_banned_allow_rules contents banned in
                if retained =s contents then (file, Ok ())
                else match mio_seek io with
                | Some e => (file, Err e)
                | None =>
                match mio_write io with
                | Some (e, remains) => (Some remains, Err e)
                | None =>
                match mio_set_len io with
                | Some (e, remains) => (Some remains, Err e)
                | None => (Some retained, Ok ())
                end end end
            end
        end
  end.

(** The marker file and the policy file. *)
Record Home := { home_marker : bool; home_policy : option rstr }.

(** Whether the marker exists afterwards, and the answer. A marker another process
    created first is as good. *)
Definition write_migration_marker (io : MigrationIo) : bool * res IoKind unit :=
  match mio_create_home io with
  | Some e => (false, Err e)
  | None =>
  match mio_temp_file io with
  | Some e => (false, Err e)
  | None =>
  match mio_persist io with
  | None | Some AlreadyExists => (true, Ok ())
  | Some e => (false, Err e)
  end end end.

Definition prefix_rule_migration (io : MigrationIo) (home : Home) (banned : list (list rstr))
    : Home * res IoKind unit :=
  match mio_try_exists io with
  | Some e => (home, Err e)
  | None =>
      if home_marker home then (home, Ok ())
      else
        let '(file, r) := clean_rules_file io (home_policy home) banned in
        match r with
        | Ok _ =>
            let '(marker, r) := write_migration_marker io in
            ({| home_marker := marker; home_policy := file |}, r)
        | Err e => ({| home_marker := false; home_policy := file |}, Err e)
        | Panic => ({| home_marker := false; home_policy := file |}, Panic)
        end
  end.

End Migration.

(** ** Lemmas *)

(** What a successful append does to the text. *)
Definition append_line (contents line : rstr) : rstr :=
  if existsb (fun existing => existing =s line) (str_lines contents) then contents
  else (if negb (is_empty contents) && negb (ends_with [NL] contents) then contents ++ [NL] else contents)
       ++ line ++ [NL].

Lemma append_locked_line_ok io path file line file' :
  append_locked_line io path file line = (file', Ok ()) ->
  file' = Some (append_line (default [] file) line).
Proof.
  unfold append_locked_line, append_line, append_bytes. intros H.
  repeat case_match; simplify_eq; done.
Qed.

Lemma append_rule_line_ok io path file rule file' :
  append_rule_line io path file rule = (file', Ok ()) ->
  file' = Some (append_line (default [] file) rule).
Proof.
  unfold append_rule_line. intros H. repeat case_match; simplify_eq; by eapply append_locked_line_ok.
Qed.

(** Whatever fails, text already in the file stays there. *)
Lemma append_locked_line_extends io path contents line file' r :
  append_locked_line io path (Some contents) line = (file', r) ->
  exists added, file' = Some (contents ++ added).
Proof.
  unfold append_locked_line, append_bytes. intros H.
  repeat case_match; simplify_eq; simpl in *; simplify_eq; rewrite <- ?app_assoc; eauto;
    exists []; by rewrite app_nil_r.
Qed.

Lemma existsb_streq x l : existsb (fun y => y =s x) l = true <-> x ∈ l.
Proof.
  rewrite existsb_exists. split.
  - intros (y & Hy & He). apply streq_true in He. subst. by apply list_elem_of_In.
  - intros Hx. exists x. split; [by apply list_elem_of_In|apply streq_refl].
Qed.

Lemma existsb_streq_false x l : existsb (fun y => y =s x) l = false <-> x ∉ l.
Proof. rewrite <- not_true_iff_false, existsb_streq. done. Qed.

(** A file that a line can be appended to without touching its last line. *)
Definition no_bare_cr (contents : rstr) : Prop := forall s, contents ≠ s ++ [CR].

Lemma no_sep_end {A} (c : A) p r : c ∉ p -> p ≠ r ++ [c].
Proof. intros H ->. apply H, elem_of_app. right. by apply list_elem_of_singleton. Qed.

(** An unfinished last line is the last piece. *)
Lemma split_inclusive_unfinished c s :
  s ≠ [] -> (forall s', s ≠ s' ++ [c]) ->
  exists ps p, split_inclusive c s = ps ++ [p] /\ (c ∉ p) /\ p ≠ [] /\
               s = concat ps ++ p /\ (concat ps = [] \/ exists s', concat ps = s' ++ [c]).
Proof.
  intros Hs Hne. pose proof (concat_split_inclusive c s) as Hc.
  destruct (split_inclusive_pieces c s) as [|p Hp Hcp|p ps Hcp Hps].
  - simpl in Hc. by subst.
  - exists [], p. simpl in *. rewrite app_nil_r in Hc. subst. split_and!; auto.
  - subst s. clear Hs. revert p Hcp Hne.
    induction Hps as [|p' Hp' Hcp'|p' ps Hcp' Hps IH]; intros p Hcp Hne.
    + simpl in Hne. rewrite app_nil_r in Hne. by destruct (Hne p).
    + exists [p ++ [c]], p'. simpl. rewrite !app_nil_r. split_and!; eauto.
    + destruct (IH p') as (ps' & q & E & Hq & Hq0 & Es & Hnl); [done| |].
      { intros s' E. apply (Hne ((p ++ [c]) ++ s')). simpl in *. by rewrite E, !app_assoc. }
      exists ((p ++ [c]) :: ps'), q. rewrite E. split_and!; try done.
      * simpl. rewrite concat_app. simpl. by rewrite app_nil_r, !app_assoc.
      * right. simpl. destruct Hnl as [->|[s' ->]]; [exists p; by rewrite app_nil_r|].
        exists ((p ++ [c]) ++ s'). by rewrite app_assoc.
Qed.

(** Finishing an unfinished last line changes neither the other pieces nor, for
    a line that does not end in CR, what its line is. *)
Lemma split_inclusive_finish c ps p :
  c ∉ p -> p ≠ [] -> (concat ps = [] \/ exists s', concat ps = s' ++ [c]) ->
  split_inclusive c (concat ps ++ p) = split_inclusive c (concat ps) ++ [p] /\
  split_inclusive c ((concat ps ++ p) ++ [c]) = split_inclusive c (concat ps) ++ [p ++ [c]].
Proof.
  intros Hc Hp Hps. rewrite <- app_assoc. split; rewrite split_inclusive_app_nl by done; f_equal.
  - by apply split_inclusive_no_sep.
  - by apply (split_inclusive_app_sep c p []).
Qed.

Lemma no_bare_cr_piece s p : no_bare_cr (s ++ p) -> p ≠ [] -> forall p', p ≠ p' ++ [CR].
Proof. intros H Hp p' ->. apply (H (s ++ p')). by rewrite app_assoc. Qed.

Definition finish_line (contents : rstr) : rstr :=
  if negb (is_empty contents) && negb (ends_with [NL] contents) then contents ++ [NL] else contents.

Lemma finish_line_cases contents :
  (finish_line contents = contents /\ (contents = [] \/ exists s, contents = s ++ [NL])) \/
  (finish_line contents = contents ++ [NL] /\
   exists ps p, contents = concat ps ++ p /\ (NL ∉ p) /\ p ≠ [] /\
                (concat ps = [] \/ exists s', concat ps = s' ++ [NL])).
Proof.
  unfold finish_line. destruct (is_empty contents) eqn:E1; simpl.
  - left. apply is_empty_true in E1. auto.
  - apply is_empty_false in E1. destruct (ends_with [NL] contents) eqn:E2; simpl.
    + left. apply ends_with_true in E2. auto.
    + right. split; [done|].
      destruct (split_inclusive_unfinished NL contents) as (ps & p & _ & H); [done| |].
      * intros s' ->. apply not_true_iff_false in E2. apply E2, ends_with_true. eauto.
      * exists ps, p. naive_solver.
Qed.

Lemma finish_line_nl contents : finish_line contents = [] \/ exists s, finish_line contents = s ++ [NL].
Proof. destruct (finish_line_cases contents) as [[-> H]|[-> _]]; eauto. Qed.

Lemma str_lines_finish contents : no_bare_cr contents -> str_lines (finish_line contents) = str_lines contents.
Proof.
  intros Hcr. destruct (finish_line_cases contents) as [[-> _]|[-> (ps & p & -> & Hp & Hp0 & Hps)]]; [done|].
  unfold str_lines. destruct (split_inclusive_finish NL ps p) as [-> ->]; [done..|].
  rewrite !map_app. f_equal. simpl. f_equal. unfold strip_line_ending.
  rewrite strip_suffix_app, (proj2 (strip_suffix_None [CR] p)), (proj2 (strip_suffix_None [NL] p)); [done| |].
  - intros r. by apply no_sep_end.
  - intros r. by eapply no_bare_cr_piece.
Qed.

(** Appending adds the line at the end unless the file already has it. *)
Lemma append_line_lines contents line :
  no_bare_cr contents -> plain_line line ->
  str_lines (append_line contents line) =
    if decide (line ∈ str_lines contents) then str_lines contents else str_lines contents ++ [line].
Proof.
  intros Hcr [Hnl Hlast]. unfold append_line. fold (finish_line contents).
  destruct (existsb _ _) eqn:E.
  - apply existsb_streq in E. by rewrite decide_True.
  - apply existsb_streq_false in E. rewrite decide_False by done.
    rewrite str_lines_snoc, str_lines_finish; auto using finish_line_nl.
Qed.

Lemma append_line_no_bare_cr contents line : no_bare_cr contents -> no_bare_cr (append_line contents line).
Proof.
  intros Hcr. unfold append_line. case_match; [done|].
  intros s Hs. rewrite app_assoc in Hs. by apply app_inj_tail in Hs as [_ ?].
Qed.

Lemma plain_line_snoc l c : NL ∉ l -> c ≠ NL -> c ≠ CR -> plain_line (l ++ [c]).
Proof.
  intros Hl Hn Hc. split.
  - rewrite not_elem_of_app, list_elem_of_singleton. auto.
  - intros l' E. apply app_inj_tail in E as [_ ?]. done.
Qed.

Lemma not_elem_of_join c sep l : c ∉ sep -> (forall x, x ∈ l -> c ∉ x) -> c ∉ join sep l.
Proof.
  intros Hs. induction l as [|x l IH]; intros H; [set_solver|].
  destruct l as [|y l]; [apply H; set_solver|].
  change (join sep (x :: y :: l)) with (x ++ sep ++ join sep (y :: l)).
  rewrite !not_elem_of_app. split_and!; [apply H; set_solver|done|]. apply IH. set_solver.
Qed.

(** The line [blocking_append_allow_prefix_rule] writes. *)
Definition prefix_rule_line (tokens : list rstr) : rstr :=
  RULE_OPEN ++ (lit "[" ++ join (lit ", ") tokens ++ lit "]") ++ RULE_CLOSE.

Lemma not_in_literal (c : Z) s : existsb (Z.eqb c) (lit s) = false -> c ∉ lit s.
Proof. intros H. by apply contains_char_false. Qed.

Lemma prefix_rule_line_plain tokens :
  (forall t, t ∈ tokens -> NL ∉ t) -> plain_line (prefix_rule_line tokens).
Proof.
  intros Ht. unfold prefix_rule_line, RULE_CLOSE. rewrite !app_assoc. change (lit ")") with [41%Z].
  apply plain_line_snoc; [|done..]. rewrite !not_elem_of_app.
  split_and!; try by apply not_in_literal.
  - by apply not_elem_of_join; [apply not_in_literal|].
  - by apply contains_char_false.
  - by apply contains_char_false.
Qed.

(** Adding lines that are not there yet, in order. *)
Definition add_new (lines : list rstr) (line : rstr) : list rstr :=
  if decide (line ∈ lines) then lines else lines ++ [line].

Lemma add_new_NoDup lines line : NoDup lines -> NoDup (add_new lines line).
Proof.
  intros H. unfold add_new. case_decide; [done|].
  apply NoDup_app. split_and!; [done|set_solver|apply NoDup_singleton].
Qed.

(** Appends one after the other, each under the lock of its predecessor's release. *)
Fixpoint append_all (json_string : rstr -> option rstr) (path : rstr) (file : option rstr)
    (prefixes : list (list rstr)) : amend_result :=
  match prefixes with
  | [] => (file, Ok ())
  | p :: prefixes' =>
      let '(file', r) := blocking_append_allow_prefix_rule json_string amend_io_ok path file p in
      match r with
      | Ok _ => append_all json_string path file' prefixes'
      | _ => (file', r)
      end
  end.

Lemma append_allow_io_ok json_string path contents p tokens :
  path_parent path ≠ None -> p ≠ [] -> mapM json_string p = Some tokens ->
  blocking_append_allow_prefix_rule json_string amend_io_ok path (Some contents) p =
    (Some (append_line contents (prefix_rule_line tokens)), Ok ()).
Proof.
  intros Hpath Hp Htok. unfold blocking_append_allow_prefix_rule.
  rewrite (proj2 (is_empty_false p)) by done. rewrite Htok. cbv zeta.
  unfold append_rule_line. destruct (path_parent path); [|done]. cbn [amend_io_ok io_create_dir].
  unfold append_locked_line. cbn [amend_io_ok io_open io_lock io_seek io_read io_write_line io_write_newline default]. unfold id.
  unfold append_line, prefix_rule_line, append_bytes. repeat case_match; simplify_eq; done.
Qed.

Section AmendTheorems.
Set Default Proof Using "Type".
Variable json_string : rstr -> option rstr.

(** JSON strings never contain a raw line break: control characters are escaped. *)
Hypothesis json_no_newline : forall s t, json_string s = Some t -> NL ∉ t.

Lemma tokens_no_newline p tokens t : mapM json_string p = Some tokens -> t ∈ tokens -> NL ∉ t.
Proof using json_no_newline.
  intros H Ht. apply mapM_Some in H.
  apply list_elem_of_lookup in Ht as [i Hi].
  eapply Forall2_lookup_r in Hi as (s & _ & Hs); [|done]. exact (json_no_newline s t Hs).
Qed.

(** Allow rules appended one after the other to a policy file (its last line
    not ending in a bare carriage return) all succeed, keep every line of the file
    in place, and add exactly one line per rule that is not there yet, in order:
    appending a rule twice is appending it once. *)
Theorem append_rules_once path contents prefixes tokens :
  path_parent path ≠ None -> no_bare_cr contents ->
  Forall2 (fun p ts => p ≠ [] /\ mapM json_string p = Some ts) prefixes tokens ->
  exists contents',
    append_all json_string path (Some contents) prefixes = (Some contents', Ok ()) /\
    str_lines contents' = foldl add_new (str_lines contents) (map prefix_rule_line tokens) /\
    no_bare_cr contents'.
Proof using json_no_newline.
  intros Hpath Hcr Hall. revert contents Hcr.
  induction Hall as [|p ts prefixes tokens [Hp Hts] _ IH]; intros contents Hcr; simpl; [eauto|].
  erewrite append_allow_io_ok by done.
  destruct (IH (append_line contents (prefix_rule_line ts))) as (c' & -> & Hl & Hc');
    [by apply append_line_no_bare_cr|].
  exists c'. split_and!; [done| |done]. rewrite Hl. f_equal.
  apply append_line_lines; [done|]. apply prefix_rule_line_plain. intros t. by apply (tokens_no_newline p).
Qed.

End AmendTheorems.

Section MigrationTheorems.
Set Default Proof Using "Type".
Variable json_parse : rstr -> option (list rstr).

Lemma strip_pieces contents banned :
  split_inclusive NL (strip_banned_allow_rules json_parse contents banned) =
  List.filter (fun line => negb (should_remove_rule json_parse line (map (map to_ascii_lowercase) banned)))
              (split_inclusive NL contents).
Proof. apply split_inclusive_concat, pieces_filter, split_inclusive_pieces. Qed.

Lemma filter_filter_same {A} (f : A -> bool) (l : list A) : List.filter f (List.filter f l) = List.filter f l.
Proof. induction l as [|x l IH]; simpl; [done|]. destruct (f x) eqn:E; simpl; [by rewrite E, IH|done]. Qed.

Lemma strip_idempotent contents banned :
  strip_banned_allow_rules json_parse (strip_banned_allow_rules json_parse contents banned) banned =
  strip_banned_allow_rules json_parse contents banned.
Proof.
  unfold strip_banned_allow_rules at 1. by rewrite strip_pieces, filter_filter_same.
Qed.

(** Removal looks at the line of a piece only. *)
Lemma should_remove_unfinished p banned :
  (forall p', p ≠ p' ++ [NL]) ->
  should_remove_rule json_parse (p ++ [NL]) banned = should_remove_rule json_parse p banned.
Proof.
  intros Hp. unfold should_remove_rule. rewrite strip_suffix_app. cbn [default]. unfold id.
  by rewrite (proj2 (strip_suffix_None [NL] p)).
Qed.

Lemma strip_line_ending_unfinished p : plain_line p -> strip_line_ending (p ++ [NL]) = strip_line_ending p.
Proof.
  intros [Hp Hcr]. unfold strip_line_ending.
  rewrite strip_suffix_app, (proj2 (strip_suffix_None [CR] p)), (proj2 (strip_suffix_None [NL] p)); [done| |done].
  intros r. by apply no_sep_end.
Qed.

Lemma strip_finish_lines contents banned :
  no_bare_cr contents ->
  str_lines (strip_banned_allow_rules json_parse (finish_line contents) banned) =
  str_lines (strip_banned_allow_rules json_parse contents banned).
Proof.
  intros Hcr. destruct (finish_line_cases contents) as [[-> _]|[-> (ps & p & -> & Hp & Hp0 & Hps)]]; [done|].
  unfold str_lines. rewrite !strip_pieces. destruct (split_inclusive_finish NL ps p) as [-> ->]; [done..|].
  rewrite !List.filter_app, !map_app. f_equal. simpl.
  rewrite should_remove_unfinished by (intros p'; by apply no_sep_end).
  case_match; [|done]. simpl. f_equal. apply strip_line_ending_unfinished.
  split; [done|]. intros p'. by eapply no_bare_cr_piece.
Qed.

(** The line amend writes for a banned prefix is one the migration removes. *)
Lemma should_remove_written tokens prefix banned :
  json_parse (lit "[" ++ join (lit ", ") tokens ++ lit "]") = Some prefix ->
  map to_ascii_lowercase prefix ∈ banned ->
  should_remove_rule json_parse (prefix_rule_line tokens ++ [NL]) banned = true.
Proof.
  intros Hj Hb. unfold should_remove_rule. rewrite strip_suffix_app. cbn [default]. unfold id.
  rewrite (proj2 (strip_suffix_None [CR] (prefix_rule_line tokens))).
  - cbn [default]. unfold prefix_rule_line at 1. rewrite strip_prefix_app. cbn [mbind option_bind].
    rewrite strip_suffix_app, Hj. by apply bool_decide_eq_true.
  - intros r E. unfold prefix_rule_line, RULE_CLOSE in E. rewrite !app_assoc in E.
    apply app_inj_tail in E as [_ ?]. done.
Qed.

Lemma append_line_pieces contents line :
  NL ∉ line ->
  split_inclusive NL (append_line contents line) =
    if decide (line ∈ str_lines contents) then split_inclusive NL contents
    else split_inclusive NL (finish_line contents) ++ [line ++ [NL]].
Proof.
  intros Hl. unfold append_line. fold (finish_line contents). destruct (existsb _ _) eqn:E.
  - apply existsb_streq in E. by rewrite decide_True.
  - apply existsb_streq_false in E. rewrite decide_False by done.
    rewrite split_inclusive_app_nl by apply finish_line_nl. f_equal. by apply split_inclusive_app_sep.
Qed.

(** Cleaning is exact: the lines kept are, byte for byte and in order, the
    lines that are not banned allow rules, so cleaning twice is cleaning once; and
    an allow rule that [amend] appends for a banned prefix (in any letter case) is
    gone after cleaning, which then leaves the same lines as cleaning the file
    before the append. *)
Theorem strip_banned_exact contents banned tokens prefix :
  no_bare_cr contents -> (forall t, t ∈ tokens -> NL ∉ t) ->
  json_parse (lit "[" ++ join (lit ", ") tokens ++ lit "]") = Some prefix ->
  map to_ascii_lowercase prefix ∈ map (map to_ascii_lowercase) banned ->
  let strip c := strip_banned_allow_rules json_parse c banned in
  split_inclusive NL (strip contents) =
    List.filter (fun line => negb (should_remove_rule json_parse line (map (map to_ascii_lowercase) banned)))
                (split_inclusive NL contents) /\
  strip (strip contents) = strip contents /\
  str_lines (strip (append_line contents (prefix_rule_line tokens))) = str_lines (strip contents).
Proof.
  intros Hcr Ht Hj Hb strip. unfold strip. clear strip. split_and!.
  - apply strip_pieces.
  - apply strip_idempotent.
  - pose proof (prefix_rule_line_plain tokens Ht) as [Hnl _].
    destruct (decide (prefix_rule_line tokens ∈ str_lines contents)) as [Hin|Hout].
    + unfold append_line. by rewrite (proj2 (existsb_streq _ _)).
    + rewrite <- (strip_finish_lines contents) by done. unfold str_lines.
      rewrite !strip_pieces, append_line_pieces, decide_False by done.
      rewrite List.filter_app. cbn [List.filter].
      rewrite (should_remove_written tokens prefix) by done. simpl. by rewrite app_nil_r.
Qed.

(** The migration runs at most once: a run that reports success, with no other
    process touching the file meanwhile, has cleaned the policy file (if there is
    one that can be read) and left the marker, and every later run, whatever the
    system calls answer, leaves the policy file as it is. A run that fails leaves
    no marker, so that a later run tries again. *)
Theorem migration_runs_once io io' home banned home' :
  home_marker home = false -> (forall f, mio_between io f = f) ->
  mio_write io = None -> mio_set_len io = None -> mio_read io = None -> mio_open io = None ->
  (forall r, prefix_rule_migration json_parse io home banned = (home', r) ->
   match r with
   | Ok _ => home_marker home' = true /\
             home_policy home' =
               (fun c => strip_banned_allow_rules json_parse c banned) <$> home_policy home /\
             (prefix_rule_migration json_parse io' home' banned).1 = home'
   | Err _ => home_marker home' = false
   | Panic => False
   end).
Proof.
  intros Hm Hbet Hw Hl Hr Ho r. unfold prefix_rule_migration. rewrite Hm.
  destruct (mio_try_exists io); [by intros [= <- <-]|].
  unfold clean_rules_file. rewrite Hw, Hl, Hr, Ho, !Hbet.
  unfold write_migration_marker. intros H.
  destruct (home_policy home) as [c|]; repeat case_match; simplify_eq; simpl; try done;
    bool_prop; split_and!; try done; try congruence; by case_match.
Qed.

End MigrationTheorems.

Module AmendDemo.
(** JSON for tokens that need no escape. *)
Definition plain_token (s : rstr) : bool := forallb (fun c => (97 <=? c) && (c <=? 122))%Z s.
Definition json_string (s : rstr) : option rstr :=
  if plain_token s then Some ([DQUOTE] ++ s ++ [DQUOTE]) else None.
Definition json_parse (s : rstr) : option (list rstr) :=
  if s =s (lit "[" ++ [DQUOTE] ++ lit "git" ++ [DQUOTE] ++ lit "]") then Some [lit "git"] else None.
Definition path : rstr := lit "/home/u/.workx/rules/default.rules".
Definition contents : rstr := lit "# rules" ++ [CR; NL] ++ lit "tail".
End AmendDemo.

Lemma demo_json_no_newline s t : AmendDemo.json_string s = Some t -> NL ∉ t.
Proof.
  unfold AmendDemo.json_string. case_match; [|done]. intros [= <-].
  intros Hin. apply elem_of_cons in Hin as [Hin|Hin]; [done|].
  apply elem_of_app in Hin as [Hin|Hin]; [|by apply list_elem_of_singleton in Hin].
  unfold AmendDemo.plain_token in *. rewrite forallb_forall in H.
  apply list_elem_of_In, H in Hin. done.
Qed.

Lemma append_rules_once_witness :
  exists c', append_all AmendDemo.json_string AmendDemo.path (Some AmendDemo.contents)
               [[lit "git"; lit "push"]; [lit "ls"]; [lit "git"; lit "push"]] = (Some c', Ok ()) /\
    length (str_lines c') = 4.
Proof.
  destruct (append_rules_once AmendDemo.json_string demo_json_no_newline AmendDemo.path AmendDemo.contents
    [[lit "git"; lit "push"]; [lit "ls"]; [lit "git"; lit "push"]]
    [[[DQUOTE] ++ lit "git" ++ [DQUOTE]; [DQUOTE] ++ lit "push" ++ [DQUOTE]];
     [[DQUOTE] ++ lit "ls" ++ [DQUOTE]];
     [[DQUOTE] ++ lit "git" ++ [DQUOTE]; [DQUOTE] ++ lit "push" ++ [DQUOTE]]]) as (c' & H & Hl & _).
  - by vm_compute.
  - intros s E. apply (f_equal (fun l => List.last l 0%Z)) in E. by rewrite last_snoc_default in E.
  - repeat constructor; done.
  - exists c'. split; [done|]. rewrite Hl. by vm_compute.
Defined.

Lemma strip_banned_exact_witness :
  str_lines (strip_banned_allow_rules AmendDemo.json_parse
               (append_line AmendDemo.contents (prefix_rule_line [[DQUOTE] ++ lit "git" ++ [DQUOTE]]))
               [[lit "Git"]]) = [lit "# rules"; lit "tail"].
Proof.
  destruct (strip_banned_exact AmendDemo.json_parse AmendDemo.contents [[lit "Git"]]
    [[DQUOTE] ++ lit "git" ++ [DQUOTE]] [lit "git"]) as (_ & _ & H).
  - intros s E. apply (f_equal (fun l => List.last l 0%Z)) in E. by rewrite last_snoc_default in E.
  - intros t Ht. apply list_elem_of_singleton in Ht as ->. by apply contains_char_false.
  - by vm_compute.
  - vm_compute. by left.
  - etransitivity; [exact H|]. by vm_compute.
Defined.

Lemma migration_runs_once_witness :
  let io := {| mio_try_exists := None; mio_read := None; mio_between := fun f => f; mio_open := None;
               mio_read_again := None; mio_seek := None; mio_write := None; mio_set_len := None;
               mio_create_home := None; mio_temp_file := None; mio_persist := Some AlreadyExists |} in
  let home := {| home_marker := false;
                 home_policy := Some (prefix_rule_line [[DQUOTE] ++ lit "git" ++ [DQUOTE]]) |} in
  home_policy (prefix_rule_migration AmendDemo.json_parse io home [[lit "git"]]).1 = Some [].
Proof.
  intros io home. destruct (prefix_rule_migration AmendDemo.json_parse io home [[lit "git"]]) as [h' r] eqn:E.
  pose proof (migration_runs_once AmendDemo.json_parse io io home [[lit "git"]] h'
    eq_refl (fun _ => eq_refl) eq_refl eq_refl eq_refl eq_refl r E) as H.
  vm_compute in E. simplify_eq. done.
Defined.
