(* ===== verification/PatchParser.v ===== *)
(** * The patch format: hunks and their parser

    Models [workx-rs/apply-patch/src/parser.rs] (hunks, the strict and lenient
    boundary checks, [parse_patch]) and [streaming_parser.rs] (the incremental
    line-driven parser that does the work). A method that takes [&mut self] maps
    the parser to the parser it leaves behind, errors included. A [PathBuf] read
    from a patch is the text it was made from. *)
From S2P Require Import Prelude.

Set Default Goal Selector "!".

Definition BEGIN_PATCH_MARKER : rstr := lit "*** Begin Patch".
Definition END_PATCH_MARKER : rstr := lit "*** End Patch".
Definition ADD_FILE_MARKER : rstr := lit "*** Add File: ".
Definition DELETE_FILE_MARKER : rstr := lit "*** Delete File: ".
Definition UPDATE_FILE_MARKER : rstr := lit "*** Update File: ".
Definition MOVE_TO_MARKER : rstr := lit "*** Move to: ".
Definition EOF_MARKER : rstr := lit "*** End of File".
Definition CHANGE_CONTEXT_MARKER : rstr := lit "@@ ".
Definition EMPTY_CHANGE_CONTEXT_MARKER : rstr := lit "@@".
Definition ENVIRONMENT_ID_MARKER : rstr := lit "*** Environment ID:".

Inductive ParseError :=
| InvalidPatchError (message : rstr)
| InvalidHunkError (message : rstr) (line_number : nat).

Record UpdateFileChunk := {
  change_context : option rstr;
  old_lines : list rstr;
  new_lines : list rstr;
  context_line_indices : list (nat * nat);
  is_end_of_file : bool;
}.

Definition chunk_default : UpdateFileChunk :=
  {| change_context := None; old_lines := []; new_lines := []; context_line_indices := [];
     is_end_of_file := false |}.

Inductive Hunk :=
| AddFile (path : rstr) (contents : rstr)
| DeleteFile (path : rstr)
| UpdateFile (path : rstr) (move_path : option rstr) (chunks : list UpdateFileChunk).

(** [Hunk::path]: the move destination of a rename. *)
Definition hunk_path (h : Hunk) : rstr :=
  match h with
  | AddFile path _ | DeleteFile path => path
  | UpdateFile _ (Some path) _ => path
  | UpdateFile path None _ => path
  end.

(** The path [Hunk::resolve_path] joins to the working directory. *)
Definition hunk_source_path (h : Hunk) : rstr :=
  match h with
  | UpdateFile path _ _ => path
  | AddFile _ _ | DeleteFile _ => hunk_path h
  end.

Definition push_context_line (self : UpdateFileChunk) (line : rstr) : UpdateFileChunk :=
  {| change_context := change_context self;
     old_lines := old_lines self ++ [line];
     new_lines := new_lines self ++ [line];
     context_line_indices := context_line_indices self ++ [(length (old_lines self), length (new_lines self))];
     is_end_of_file := is_end_of_file self |}.

Definition push_new_line (self : UpdateFileChunk) (line : rstr) : UpdateFileChunk :=
  {| change_context := change_context self; old_lines := old_lines self;
     new_lines := new_lines self ++ [line];
     context_line_indices := context_line_indices self; is_end_of_file := is_end_of_file self |}.

Definition push_old_line (self : UpdateFileChunk) (line : rstr) : UpdateFileChunk :=
  {| change_context := change_context self; old_lines := old_lines self ++ [line];
     new_lines := new_lines self;
     context_line_indices := context_line_indices self; is_end_of_file := is_end_of_file self |}.

Definition mark_end_of_file (self : UpdateFileChunk) : UpdateFileChunk :=
  {| change_context := change_context self; old_lines := old_lines self; new_lines := new_lines self;
     context_line_indices := context_line_indices self; is_end_of_file := true |}.

(** ** The streaming parser *)

Inductive StreamingParserMode :=
| NotStarted
| StartedPatch
| ModeAddFile
| ModeDeleteFile
| ModeUpdateFile (hunk_line_number : nat)
| EndedPatch.

Record StreamingPatchParser := {
  line_buffer : rstr;
  mode : StreamingParserMode;
  hunks : list Hunk;
  environment_id : option rstr;
  line_number : nat;
}.

Definition parser_default : StreamingPatchParser :=
  {| line_buffer := []; mode := NotStarted; hunks := []; environment_id := None; line_number := 0 |}.

Definition set_mode (p : StreamingPatchParser) (m : StreamingParserMode) : StreamingPatchParser :=
  {| line_buffer := line_buffer p; mode := m; hunks := hunks p;
     environment_id := environment_id p; line_number := line_number p |}.
Definition set_hunks (p : StreamingPatchParser) (hs : list Hunk) : StreamingPatchParser :=
  {| line_buffer := line_buffer p; mode := mode p; hunks := hs;
     environment_id := environment_id p; line_number := line_number p |}.
Definition set_environment_id (p : StreamingPatchParser) (e : rstr) : StreamingPatchParser :=
  {| line_buffer := line_buffer p; mode := mode p; hunks := hunks p;
     environment_id := Some e; line_number := line_number p |}.
Definition push_char (p : StreamingPatchParser) (c : char) : StreamingPatchParser :=
  {| line_buffer := line_buffer p ++ [c]; mode := mode p; hunks := hunks p;
     environment_id := environment_id p; line_number := line_number p |}.
(** [mem::take] of the line buffer and [line_number += 1]. *)
Definition take_line (p : StreamingPatchParser) : StreamingPatchParser :=
  {| line_buffer := []; mode := mode p; hunks := hunks p;
     environment_id := environment_id p; line_number := S (line_number p) |}.

Definition SQ : rstr := [39%Z].

Definition chunk_lines_empty (chunk : UpdateFileChunk) : bool :=
  is_empty (old_lines chunk) && is_empty (new_lines chunk).

(** [chunks.last().is_some_and(f)]. *)
Definition last_is_some_and {A} (f : A -> bool) (l : list A) : bool :=
  match last l with Some x => f x | None => false end.

(** [if let Some(x) = l.last_mut() { *x = f(x) }]. *)
Definition update_last {A} (f : A -> A) (l : list A) : list A :=
  match last l with Some x => removelast l ++ [f x] | None => l end.

Definition unexpected_line (line : rstr) : rstr :=
  lit "Unexpected line found in update hunk: '" ++ line ++
  lit "'. Every line should start with ' ' (context line), '+' (added line), or '-' (removed line)".

Definition expected_marker (line : rstr) : rstr :=
  lit "Expected update hunk to start with a @@ context marker, got: '" ++ line ++ SQ.

Definition not_a_header (trimmed : rstr) : rstr :=
  SQ ++ trimmed ++
  lit "' is not a valid hunk header. Valid hunk headers: '*** Add File: {path}', '*** Delete File: {path}', '*** Update File: {path}'".

Definition no_lines_message : rstr := lit "Update hunk does not contain any lines".
Definition last_line_message : rstr := lit "The last line of the patch must be '*** End Patch'".
Definition first_line_message : rstr := lit "The first line of the patch must be '*** Begin Patch'".

Definition ensure_update_hunk_is_not_empty (p : StreamingPatchParser) (line : rstr) : res ParseError unit :=
  match last (hunks p) with
  | Some (UpdateFile path _ chunks) =>
      match is_empty chunks, mode p with
      | true, ModeUpdateFile hunk_line_number =>
          Err (InvalidHunkError (lit "Update file hunk for path '" ++ path ++ lit "' is empty") hunk_line_number)
      | _, _ =>
          if last_is_some_and chunk_lines_empty chunks
          then if line =s END_PATCH_MARKER
               then Err (InvalidHunkError no_lines_message (line_number p))
               else Err (InvalidHunkError (unexpected_line line) (line_number p))
          else Ok ()
      end
  | _ => Ok ()
  end.

(** [Ok(Some p')] is the code's [Ok(true)] with the parser changed to [p'],
    [Ok(None)] its [Ok(false)]. *)
Definition handle_hunk_headers_and_end_patch (p : StreamingPatchParser) (trimmed : rstr)
    : res ParseError (option StreamingPatchParser) :=
  match (match mode p with StartedPatch => strip_prefix ENVIRONMENT_ID_MARKER trimmed | _ => None end) with
  | Some environment =>
      match environment_id p with
      | Some _ => Err (InvalidPatchError (lit "apply_patch environment_id cannot be specified more than once"))
      | None =>
          let environment := trim environment in
          if is_empty environment
          then Err (InvalidPatchError (lit "apply_patch environment_id cannot be empty"))
          else Ok (Some (set_environment_id p environment))
      end
  | None =>
      if trimmed =s END_PATCH_MARKER then
        _ ← ensure_update_hunk_is_not_empty p trimmed;
        Ok (Some (set_mode p EndedPatch))
      else
        match strip_prefix ADD_FILE_MARKER trimmed with
        | Some path =>
            _ ← ensure_update_hunk_is_not_empty p trimmed;
            Ok (Some (set_mode (set_hunks p (hunks p ++ [AddFile path []])) ModeAddFile))
        | None =>
        match strip_prefix DELETE_FILE_MARKER trimmed with
        | Some path =>
            _ ← ensure_update_hunk_is_not_empty p trimmed;
            Ok (Some (set_mode (set_hunks p (hunks p ++ [DeleteFile path])) ModeDeleteFile))
        | None =>
        match strip_prefix UPDATE_FILE_MARKER trimmed with
        | Some path =>
            _ ← ensure_update_hunk_is_not_empty p trimmed;
            Ok (Some (set_mode (set_hunks p (hunks p ++ [UpdateFile path None []]))
                               (ModeUpdateFile (line_number p))))
        | None => Ok None
        end end end
  end.

(** [if chunks.is_empty() { chunks.push(default) }] and then the last chunk changed. *)
Definition add_to_chunks (chunks : list UpdateFileChunk) (f : UpdateFileChunk -> UpdateFileChunk)
    : list UpdateFileChunk :=
  update_last f (if is_empty chunks then chunks ++ [chunk_default] else chunks).

Definition is_change_context (line : rstr) : bool :=
  (line =s EMPTY_CHANGE_CONTEXT_MARKER) || starts_with CHANGE_CONTEXT_MARKER line.

(** The body of [process_line] for a line of an update hunk, once it is known not
    to be a header: the move path and the chunks after the line. *)
Definition process_update_line (p : StreamingPatchParser) (line : rstr)
    (move_path : option rstr) (chunks : list UpdateFileChunk)
    : res ParseError (option rstr * list UpdateFileChunk) :=
  let update_line := trim_end line in
  let fail msg := Err (InvalidHunkError msg (line_number p)) in
  let at_eof := last_is_some_and is_end_of_file chunks in
  let open_chunk := last_is_some_and chunk_lines_empty chunks in
  if at_eof && is_empty update_line then Ok (move_path, chunks)
  else if at_eof && negb (is_change_context update_line) then fail (expected_marker line)
  else
    match (if is_empty chunks && negb (bool_decide (is_Some move_path))
           then strip_prefix MOVE_TO_MARKER update_line else None) with
    | Some move_to_path => Ok (Some move_to_path, chunks)
    | None =>
        if is_change_context update_line && open_chunk then fail (unexpected_line line)
        else if update_line =s EMPTY_CHANGE_CONTEXT_MARKER then Ok (move_path, chunks ++ [chunk_default])
        else
          match strip_prefix CHANGE_CONTEXT_MARKER update_line with
          | Some context =>
              Ok (move_path,
                  chunks ++ [{| change_context := Some context; old_lines := []; new_lines := [];
                                context_line_indices := []; is_end_of_file := false |}])
          | None =>
              if update_line =s EOF_MARKER then
                if open_chunk then fail no_lines_message
                else Ok (move_path, update_last mark_end_of_file chunks)
              else if is_empty line then
                Ok (move_path, add_to_chunks chunks (fun c => push_context_line c []))
              else
                match strip_prefix (lit " ") line with
                | Some l => Ok (move_path, add_to_chunks chunks (fun c => push_context_line c l))
                | None =>
                match strip_prefix (lit "+") line with
                | Some l => Ok (move_path, add_to_chunks chunks (fun c => push_new_line c l))
                | None =>
                match strip_prefix (lit "-") line with
                | Some l => Ok (move_path, add_to_chunks chunks (fun c => push_old_line c l))
                | None =>
                    if last_is_some_and (fun c => negb (is_empty (old_lines c)) || negb (is_empty (new_lines c))) chunks
                    then fail (expected_marker line)
                    else fail (unexpected_line line)
                end end end
          end
    end.

(** No step of [process_line] changes the parser before it fails, so that the
    parser after an error is the parser before it. *)
Definition process_line (p : StreamingPatchParser) (line : rstr) : res ParseError StreamingPatchParser :=
  let trimmed := trim line in
  match mode p with
  | NotStarted =>
      if trimmed =s BEGIN_PATCH_MARKER then Ok (set_mode p StartedPatch)
      else Err (InvalidPatchError first_line_message)
  | StartedPatch | ModeDeleteFile =>
      r ← handle_hunk_headers_and_end_patch p trimmed;
      match r with
      | Some p' => Ok p'
      | None => Err (InvalidHunkError (not_a_header trimmed) (line_number p))
      end
  | ModeAddFile =>
      r ← handle_hunk_headers_and_end_patch p trimmed;
      match r with
      | Some p' => Ok p'
      | None =>
          match strip_prefix (lit "+") line, last (hunks p) with
          | Some line_to_add, Some (AddFile path contents) =>
              Ok (set_hunks p (removelast (hunks p) ++ [AddFile path (contents ++ line_to_add ++ [NL])]))
          | _, _ => Err (InvalidHunkError (not_a_header trimmed) (line_number p))
          end
      end
  | ModeUpdateFile _ =>
      r ← handle_hunk_headers_and_end_patch p (trim_end line);
      match r with
      | Some p' => Ok p'
      | None =>
          match last (hunks p) with
          | Some (UpdateFile path move_path chunks) =>
              '(move_path', chunks') ← process_update_line p line move_path chunks;
              Ok (set_hunks p (removelast (hunks p) ++ [UpdateFile path move_path' chunks']))
          | _ => Err (InvalidHunkError (unexpected_line line) (line_number p))
          end
      end
  | EndedPatch =>
      if is_empty trimmed then Ok p else Err (InvalidPatchError last_line_message)
  end.

(** One character of a delta. *)
Definition push_delta_char (p : StreamingPatchParser) (ch : char)
    : StreamingPatchParser * res ParseError unit :=
  if (ch =? NL)%Z then
    let line := line_buffer p in
    let line := default line (strip_suffix [CR] line) in
    let p := take_line p in
    match process_line p line with
    | Ok p' => (p', Ok ())
    | Err e => (p, Err e)
    | Panic => (p, Panic)
    end
  else (push_char p ch, Ok ()).

Fixpoint push_delta (p : StreamingPatchParser) (delta : rstr)
    : StreamingPatchParser * res ParseError (list Hunk) :=
  match delta with
  | [] => (p, Ok (hunks p))
  | ch :: delta' =>
      match push_delta_char p ch with
      | (p', Ok _) => push_delta p' delta'
      | (p', Err e) => (p', Err e)
      | (p', Panic) => (p', Panic)
      end
  end.

(** The end of [finish]: the patch must have been closed. *)
Definition finish_ended (p : StreamingPatchParser) : StreamingPatchParser * res ParseError (list Hunk) :=
  match mode p with
  | EndedPatch => (p, Ok (hunks p))
  | _ => (p, Err (InvalidPatchError last_line_message))
  end.

Definition finish (p : StreamingPatchParser) : StreamingPatchParser * res ParseError (list Hunk) :=
  if is_empty (line_buffer p) then finish_ended p
  else
    let line := line_buffer p in
    let p := take_line p in
    match (if trim line =s END_PATCH_MARKER then
             _ ← ensure_update_hunk_is_not_empty p (trim line);
             Ok (set_mode p EndedPatch)
           else process_line p line) with
    | Ok p' => finish_ended p'
    | Err e => (p, Err e)
    | Panic => (p, Panic)
    end.

(** ** [parser.rs] *)

Record ApplyPatchArgs := {
  apa_patch : rstr;
  apa_hunks : list Hunk;
  apa_workdir : option rstr;
  apa_environment_id : option rstr;
}.

Inductive ParseMode := Strict | Lenient.

Definition PARSE_IN_STRICT_MODE : bool := false.

Definition check_start_and_end_lines_strict (first_line last_line : option rstr) : res ParseError unit :=
  match trim <$> first_line, trim <$> last_line with
  | Some first, Some last =>
      if (first =s BEGIN_PATCH_MARKER) && (last =s END_PATCH_MARKER) then Ok ()
      else if negb (first =s BEGIN_PATCH_MARKER) then Err (InvalidPatchError first_line_message)
      else Err (InvalidPatchError last_line_message)
  | Some first, None =>
      if negb (first =s BEGIN_PATCH_MARKER) then Err (InvalidPatchError first_line_message)
      else Err (InvalidPatchError last_line_message)
  | None, _ => Err (InvalidPatchError last_line_message)
  end.

Definition check_patch_boundaries_strict (lines : list rstr) : res ParseError (list rstr) :=
  _ ← check_start_and_end_lines_strict (head lines) (last lines);
  Ok lines.

Definition heredoc_opener (first : rstr) : bool :=
  (first =s lit "<<EOF") || (first =s lit "<<'EOF'") ||
  (first =s (lit "<<" ++ [DQUOTE] ++ lit "EOF" ++ [DQUOTE])).

Definition check_patch_boundaries_lenient (original_lines : list rstr) : res ParseError (list rstr) :=
  match check_patch_boundaries_strict original_lines with
  | Err original_parse_error =>
      match original_lines with
      | first :: ((_ :: _) as rest) =>
          match last rest with
          | Some last =>
              if heredoc_opener first && ends_with (lit "EOF") last && (4 <=? length original_lines)%nat
              then check_patch_boundaries_strict (removelast rest)
              else Err original_parse_error
          | None => Err original_parse_error
          end
      | _ => Err original_parse_error
      end
  | r => r
  end.

Definition parse_patch_text (patch : rstr) (m : ParseMode) : res ParseError ApplyPatchArgs :=
  let lines := str_lines (trim patch) in
  patch_lines ← match m with
                | Strict => check_patch_boundaries_strict lines
                | Lenient => check_patch_boundaries_lenient lines
                end;
  let patch := join [NL] patch_lines in
  match push_delta parser_default patch with
  | (parser, Ok _) =>
      let '(parser, r) := finish parser in
      hs ← r;
      Ok {| apa_patch := patch; apa_hunks := hs; apa_workdir := None;
            apa_environment_id := environment_id parser |}
  | (_, Err e) => Err e
  | (_, Panic) => Panic
  end.

Definition parse_patch (patch : rstr) : res ParseError ApplyPatchArgs :=
  parse_patch_text patch (if PARSE_IN_STRICT_MODE then Strict else Lenient).

(** ** Streaming *)

(** The client of the streaming parser: pushes deltas until one is refused. *)
Fixpoint push_deltas (p : StreamingPatchParser) (deltas : list rstr)
    : StreamingPatchParser * res ParseError (list Hunk) :=
  match deltas with
  | [] => (p, Ok (hunks p))
  | d :: deltas' =>
      match push_delta p d with
      | (p', Ok _) => push_deltas p' deltas'
      | r => r
      end
  end.

Lemma push_delta_app p a b :
  push_delta p (a ++ b) =
    match push_delta p a with
    | (p', Ok _) => push_delta p' b
    | r => r
    end.
Proof.
  revert p. induction a as [|c a IH]; intros p; simpl; [done|].
  destruct (push_delta_char p c) as [p' [[]|e|]]; [apply IH|done..].
Qed.

Lemma push_delta_hunks p d p' hs : push_delta p d = (p', Ok hs) -> hs = hunks p'.
Proof.
  revert p. induction d as [|c d IH]; intros p; simpl; [congruence|].
  destruct (push_delta_char p c) as [p1 [[]|e|]]; [apply IH|done..].
Qed.

(** Streaming is faithful: however the text of a patch is cut into deltas, the
    parser ends in the same state, with the same hunks or the same error at the
    same line, as when it is given the whole text at once. *)
Theorem push_deltas_chunking p deltas : push_deltas p deltas = push_delta p (concat deltas).
Proof.
  revert p. induction deltas as [|d deltas IH]; intros p; simpl; [done|].
  rewrite push_delta_app. destruct (push_delta p d) as [p' [hs|e|]]; [apply IH|done..].
Qed.

(** ** What a parsed hunk looks like *)

(** The lines of a chunk as the patch spells them. *)
Inductive LineOp :=
| OpContext (line : rstr)
| OpAdd (line : rstr)
| OpDelete (line : rstr).

Definition apply_op (c : UpdateFileChunk) (op : LineOp) : UpdateFileChunk :=
  match op with
  | OpContext l => push_context_line c l
  | OpAdd l => push_new_line c l
  | OpDelete l => push_old_line c l
  end.

(** The chunk a header and its lines stand for. *)
Definition chunk_of (context : option rstr) (ops : list LineOp) (eof : bool) : UpdateFileChunk :=
  foldl apply_op {| change_context := context; old_lines := []; new_lines := [];
                    context_line_indices := []; is_end_of_file := eof |} ops.

(** A file name or a change context: not empty, no trailing whitespace. *)
Definition name_ok (s : rstr) : Prop := s ≠ [] /\ trim_end s = s.
Definition opt_name_ok (s : option rstr) : Prop := match s with Some s => name_ok s | None => True end.

Definition chunk_valid (c : UpdateFileChunk) : Prop :=
  exists context ops eof, c = chunk_of context ops eof /\ opt_name_ok context.

Definition chunk_ok (c : UpdateFileChunk) : Prop := chunk_valid c /\ chunk_lines_empty c = false.

Definition hunk_ok (h : Hunk) : Prop :=
  match h with
  | AddFile path _ | DeleteFile path => name_ok path
  | UpdateFile path move_path chunks =>
      name_ok path /\ opt_name_ok move_path /\ chunks ≠ [] /\ Forall chunk_ok chunks
  end.

(** The chunks of the update hunk being read: only the last one may still be empty. *)
Definition chunks_open (chunks : list UpdateFileChunk) : Prop :=
  chunks = [] \/ exists cs c, chunks = cs ++ [c] /\ Forall chunk_ok cs /\ chunk_valid c.

Inductive hunks_ok : StreamingParserMode -> list Hunk -> Prop :=
| hunks_closed m hs : Forall hunk_ok hs -> (forall n, m ≠ ModeUpdateFile n) -> hunks_ok m hs
| hunks_open n hs path move_path chunks :
    Forall hunk_ok hs -> name_ok path -> opt_name_ok move_path -> chunks_open chunks ->
    hunks_ok (ModeUpdateFile n) (hs ++ [UpdateFile path move_path chunks]).

Definition parser_ok (p : StreamingPatchParser) : Prop := hunks_ok (mode p) (hunks p).

Lemma apply_op_eof c op : is_end_of_file (apply_op c op) = is_end_of_file c.
Proof. by destruct op. Qed.

Lemma chunk_of_snoc context ops eof op :
  chunk_of context (ops ++ [op]) eof = apply_op (chunk_of context ops eof) op.
Proof. unfold chunk_of. by rewrite foldl_app. Qed.

Lemma chunk_of_eof context ops eof : mark_end_of_file (chunk_of context ops eof) = chunk_of context ops true.
Proof.
  induction ops as [|op ops IH] using rev_ind; [done|]. rewrite !chunk_of_snoc, <- IH. by destruct op.
Qed.

Lemma apply_op_valid c op : chunk_valid c -> chunk_ok (apply_op c op).
Proof.
  intros (context & ops & eof & -> & Hc). split.
  - exists context, (ops ++ [op]), eof. by rewrite chunk_of_snoc.
  - unfold chunk_lines_empty. apply andb_false_iff. destruct op; simpl;
      rewrite ?is_empty_false; [left|right|left]; by destruct (_ (chunk_of context ops eof)).
Qed.

Lemma mark_eof_valid c : chunk_valid c -> chunk_valid (mark_end_of_file c).
Proof. intros (context & ops & eof & -> & Hc). exists context, ops, true. by rewrite chunk_of_eof. Qed.

Lemma chunk_new_valid context :
  opt_name_ok context ->
  chunk_valid {| change_context := context; old_lines := []; new_lines := [];
                 context_line_indices := []; is_end_of_file := false |}.
Proof. intros H. by exists context, [], false. Qed.

Lemma last_snoc_update {A} (f : A -> A) (l : list A) x : update_last f (l ++ [x]) = l ++ [f x].
Proof. unfold update_last. by rewrite last_snoc, removelast_last. Qed.

Lemma last_is_some_and_snoc {A} (f : A -> bool) (l : list A) x : last_is_some_and f (l ++ [x]) = f x.
Proof. unfold last_is_some_and. by rewrite last_snoc. Qed.

Lemma add_op_chunks chunks op :
  chunks_open chunks -> chunks_open (add_to_chunks chunks (fun c => apply_op c op)).
Proof.
  unfold add_to_chunks. intros [->|(cs & c & -> & Hcs & Hc)].
  - right. exists [], (apply_op chunk_default op). simpl. split_and!; [done|constructor|].
    apply apply_op_valid, (chunk_new_valid None). done.
  - right. exists cs, (apply_op c op).
    replace (is_empty (cs ++ [c])) with false by by destruct cs.
    rewrite last_snoc_update. split_and!; [done..|]. by apply apply_op_valid.
Qed.

Lemma mark_eof_chunks chunks : chunks_open chunks -> chunks_open (update_last mark_end_of_file chunks).
Proof.
  intros [->|(cs & c & -> & Hcs & Hc)]; [by left|]. right. rewrite last_snoc_update.
  exists cs, (mark_end_of_file c). split_and!; [done..|]. by apply mark_eof_valid.
Qed.

(** A chunk may be started once the one before it has lines. *)
Lemma new_chunk_open chunks context :
  chunks_open chunks -> last_is_some_and chunk_lines_empty chunks = false -> opt_name_ok context ->
  chunks_open (chunks ++ [{| change_context := context; old_lines := []; new_lines := [];
                             context_line_indices := []; is_end_of_file := false |}]).
Proof.
  intros Hopen Hlast Hc. right.
  exists chunks, {| change_context := context; old_lines := []; new_lines := [];
                    context_line_indices := []; is_end_of_file := false |}.
  split_and!; [done| |by apply chunk_new_valid].
  destruct Hopen as [->|(cs & c & -> & Hcs & Hcv)]; [done|].
  rewrite last_is_some_and_snoc in Hlast. apply Forall_app. split; [done|]. by constructor.
Qed.

Lemma chunks_closed chunks :
  chunks_open chunks -> chunks ≠ [] -> last_is_some_and chunk_lines_empty chunks = false ->
  Forall chunk_ok chunks.
Proof.
  intros [->|(cs & c & -> & Hcs & Hc)] Hne Hlast; [done|].
  rewrite last_is_some_and_snoc in Hlast. apply Forall_app. split; [done|]. by constructor.
Qed.

(** What follows a marker (which ends in a space) on a trimmed line is a name. *)
Lemma after_marker_name m t name :
  trim_end t = t -> strip_prefix (m ++ lit " ") t = Some name -> name_ok name.
Proof.
  intros Ht Hs. apply strip_prefix_Some in Hs. subst t. split.
  - intros ->. rewrite app_nil_r in Ht. change (lit " ") with [32%Z] in Ht.
    by apply (drop_while_end_last is_whitespace (m ++ [32%Z]) m 32%Z) in Ht.
  - apply trim_end_id. intros l' x ->. rewrite app_assoc in Ht.
    by eapply drop_while_end_last.
Qed.

Lemma trim_trim_end s : trim_end (trim s) = trim s.
Proof. unfold trim. apply trim_end_idemp. Qed.

Lemma ensure_closes p l :
  parser_ok p -> ensure_update_hunk_is_not_empty p l = Ok () -> Forall hunk_ok (hunks p).
Proof.
  unfold parser_ok, ensure_update_hunk_is_not_empty. intros Hok.
  destruct Hok as [m hs Hhs _|n hs path mv chunks Hhs Hpath Hmv Hopen]; [done|].
  rewrite last_snoc. intros H. apply Forall_app. split; [done|]. constructor; [|constructor].
  destruct (is_empty chunks) eqn:E; [done|]. apply is_empty_false in E.
  destruct (last_is_some_and chunk_lines_empty chunks) eqn:El; [by repeat case_match|].
  simpl. split_and!; [done..|]. by apply chunks_closed.
Qed.

Lemma handle_headers_ok p t r :
  parser_ok p -> trim_end t = t -> handle_hunk_headers_and_end_patch p t = Ok (Some r) -> parser_ok r.
Proof.
  intros Hok Ht. unfold handle_hunk_headers_and_end_patch.
  destruct (match mode p with StartedPatch => _ | _ => None end) eqn:Em.
  { intros H. repeat case_match; simplify_eq. exact Hok. }
  clear Em. intros H.
  destruct (ensure_update_hunk_is_not_empty p t) as [[]|e|] eqn:Ee;
    [|by repeat case_match; simplify_eq..].
  pose proof (ensure_closes p t Hok Ee) as Hall.
  destruct (t =s END_PATCH_MARKER). { simplify_eq/=. by apply hunks_closed. }
  destruct (strip_prefix ADD_FILE_MARKER t) as [path|] eqn:E1.
  { simplify_eq/=. apply hunks_closed; [|done]. apply Forall_app. split; [done|].
    constructor; [|constructor]. by apply (after_marker_name (lit "*** Add File:") t). }
  destruct (strip_prefix DELETE_FILE_MARKER t) as [path|] eqn:E2.
  { simplify_eq/=. apply hunks_closed; [|done]. apply Forall_app. split; [done|].
    constructor; [|constructor]. by apply (after_marker_name (lit "*** Delete File:") t). }
  destruct (strip_prefix UPDATE_FILE_MARKER t) as [path|] eqn:E3; [|done].
  simplify_eq/=. apply hunks_open; [done| |done|by left].
  by apply (after_marker_name (lit "*** Update File:") t).
Qed.

Lemma is_change_context_strip u c :
  strip_prefix CHANGE_CONTEXT_MARKER u = Some c -> is_change_context u = true.
Proof.
  intros H. apply strip_prefix_Some in H as ->. unfold is_change_context.
  rewrite starts_with_app. apply orb_true_r.
Qed.

Lemma is_change_context_empty u : u = EMPTY_CHANGE_CONTEXT_MARKER -> is_change_context u = true.
Proof. intros ->. unfold is_change_context. by rewrite streq_refl. Qed.

Lemma process_update_line_ok p line move_path chunks move_path' chunks' :
  opt_name_ok move_path -> chunks_open chunks ->
  process_update_line p line move_path chunks = Ok (move_path', chunks') ->
  opt_name_ok move_path' /\ chunks_open chunks'.
Proof.
  intros Hm Hc. unfold process_update_line.
  pose proof (trim_end_idemp line) as Ht. set (u := trim_end line) in *. clearbody u.
  destruct (last_is_some_and is_end_of_file chunks && is_empty u); [by intros [= <- <-]|].
  destruct (last_is_some_and is_end_of_file chunks && negb (is_change_context u)); [done|].
  destruct (if is_empty chunks && _ then _ else None) as [mv|] eqn:Es.
  { intros [= <- <-]. split; [|done]. case_match; [|done].
    by apply (after_marker_name (lit "*** Move to:") u). }
  clear Es.
  destruct (is_change_context u && last_is_some_and chunk_lines_empty chunks) eqn:Ectx; [done|].
  destruct (u =s EMPTY_CHANGE_CONTEXT_MARKER) eqn:Eu.
  { intros [= <- <-]. split; [done|]. bool_prop. rewrite is_change_context_empty in Ectx by done.
    by apply (new_chunk_open chunks None). }
  destruct (strip_prefix CHANGE_CONTEXT_MARKER u) as [ctx|] eqn:Es.
  { intros [= <- <-]. split; [done|]. rewrite (is_change_context_strip _ _ Es) in Ectx.
    apply (new_chunk_open chunks (Some ctx)); [done..|]. by apply (after_marker_name (lit "@@") u). }
  intros H. repeat case_match; simplify_eq; split; try done;
    first [by apply mark_eof_chunks|by apply (add_op_chunks chunks (OpContext _))
          |by apply (add_op_chunks chunks (OpAdd _))|by apply (add_op_chunks chunks (OpDelete _))].
Qed.

Lemma process_line_ok p line p' : parser_ok p -> process_line p line = Ok p' -> parser_ok p'.
Proof.
  intros Hok. unfold process_line.
  destruct (mode p) as [| | | |n|] eqn:Em.
  - case_match; [|done]. intros [= <-]. unfold parser_ok in *. rewrite Em in Hok.
    inversion Hok; subst. by apply hunks_closed.
  - destruct (handle_hunk_headers_and_end_patch p (trim line)) as [[r|]|e|] eqn:Eh; [|done..].
    intros [= <-]. by eapply handle_headers_ok; [|apply trim_trim_end|].
  - destruct (handle_hunk_headers_and_end_patch p (trim line)) as [[r|]|e|] eqn:Eh; [| |done..].
    + intros [= <-]. by eapply handle_headers_ok; [|apply trim_trim_end|].
    + cbn [mbind res_bind]. destruct (strip_prefix (lit "+") line) as [l|]; [|done].
      destruct (last (hunks p)) as [[path contents| |]|] eqn:El; try done. intros [= <-].
      unfold parser_ok in *. simpl. rewrite Em in *. inversion Hok as [m hs Hhs Hm|]; subst.
      apply last_Some in El as [hs El]. rewrite El in *. rewrite removelast_last.
      apply hunks_closed; [|done]. apply Forall_app in Hhs as [Hhs Hh]. apply Forall_app.
      split; [done|]. constructor; [exact (Forall_inv Hh)|constructor].
  - destruct (handle_hunk_headers_and_end_patch p (trim line)) as [[r|]|e|] eqn:Eh; [|done..].
    intros [= <-]. by eapply handle_headers_ok; [|apply trim_trim_end|].
  - destruct (handle_hunk_headers_and_end_patch p (trim_end line)) as [[r|]|e|] eqn:Eh; [| |done..].
    + intros [= <-]. by eapply handle_headers_ok; [|apply trim_end_idemp|].
    + cbn [mbind res_bind]. unfold parser_ok in *. rewrite Em in Hok.
      inversion Hok as [? ? ? Hm|? hs path mv chunks Hhs Hpath Hmv Hopen]; subst; [by destruct (Hm n)|].
      rewrite last_snoc, removelast_last.
      destruct (process_update_line p line mv chunks) as [[mv' chunks']|e|] eqn:Ep; [|done..].
      intros [= <-]. cbn [mode hunks set_hunks]. rewrite Em.
      apply process_update_line_ok in Ep as [? ?]; [|done..]. by apply hunks_open.
  - case_match; [|done]. by intros [= <-].
Qed.

Lemma take_line_ok p : parser_ok p -> parser_ok (take_line p).
Proof. done. Qed.

Lemma push_delta_ok p d p' r : parser_ok p -> push_delta p d = (p', r) -> parser_ok p'.
Proof.
  revert p. induction d as [|c d IH]; intros p Hok; simpl; [congruence|].
  unfold push_delta_char. destruct (c =? NL)%Z; [|by apply IH].
  destruct (process_line _ _) as [p1|e|] eqn:E.
  - apply process_line_ok in E; [|by apply take_line_ok]. by apply IH.
  - intros [= <- <-]. by apply take_line_ok.
  - intros [= <- <-]. by apply take_line_ok.
Qed.

Lemma finish_ended_ok p p' hs : parser_ok p -> finish_ended p = (p', Ok hs) -> Forall hunk_ok hs.
Proof.
  unfold finish_ended, parser_ok. intros Hok H. case_match; simplify_eq. by inversion Hok.
Qed.

Lemma finish_ok p p' hs : parser_ok p -> finish p = (p', Ok hs) -> Forall hunk_ok hs.
Proof.
  intros Hok. unfold finish. case_match; [by apply finish_ended_ok|].
  destruct (trim (line_buffer p) =s END_PATCH_MARKER).
  - destruct (ensure_update_hunk_is_not_empty _ _) as [[]|e|] eqn:Ee; [|done..].
    apply ensure_closes in Ee; [|by apply take_line_ok]. apply finish_ended_ok. by apply hunks_closed.
  - destruct (process_line _ _) as [p1|e|] eqn:E; [|done..].
    apply process_line_ok in E; [|by apply take_line_ok]. by apply finish_ended_ok.
Qed.

Lemma parser_default_ok : parser_ok parser_default.
Proof. by apply hunks_closed. Qed.

Lemma parse_patch_text_ok patch m args : parse_patch_text patch m = Ok args -> Forall hunk_ok (apa_hunks args).
Proof.
  unfold parse_patch_text. intros H.
  destruct (match m with Strict => _ | Lenient => _ end) as [ls|e|]; [|done..]. cbn [mbind res_bind] in H.
  destruct (push_delta parser_default (join [NL] ls)) as [p [hs|e|]] eqn:Ep; [|done..].
  apply push_delta_ok in Ep; [|apply parser_default_ok].
  destruct (finish p) as [p' [hs'|e|]] eqn:Ef; [|done..]. simpl in H. simplify_eq. by eapply finish_ok.
Qed.

(** The recorded context lines: both indices increase, and each pair names the same
    line of [old_lines] and [new_lines]. *)
Definition index_lt (a b : nat * nat) : Prop := a.1 < b.1 /\ a.2 < b.2.

Definition context_ok (c : UpdateFileChunk) : Prop :=
  StronglySorted index_lt (context_line_indices c) /\
  Forall (fun '(i, j) => exists l, old_lines c !! i = Some l /\ new_lines c !! j = Some l)
         (context_line_indices c).

Lemma chunk_of_context_ok context ops eof : context_ok (chunk_of context ops eof).
Proof.
  induction ops as [|op ops [IHs IHl]] using rev_ind; [split; constructor|].
  rewrite chunk_of_snoc. set (c := chunk_of context ops eof) in *. clearbody c.
  assert (forall o n, Forall (fun '(i, j) => exists l, (old_lines c ++ o) !! i = Some l /\
            (new_lines c ++ n) !! j = Some l) (context_line_indices c)) as Hext.
  { intros o n. eapply Forall_impl; [exact IHl|]. intros [i j] (l & Hi & Hj). exists l.
    by rewrite !(lookup_app_l_Some _ _ _ l). }
  unfold context_ok. destruct op as [l|l|l]; simpl.
  - split.
    + apply StronglySorted_app_2; [|done|by repeat constructor].
      intros [i j] b Hi Hb. apply list_elem_of_singleton in Hb as ->.
      rewrite Forall_forall in IHl. destruct (IHl _ Hi) as (l' & Hi' & Hj').
      split; simpl; by eapply lookup_lt_Some.
    + apply Forall_app. split; [apply Hext|]. apply Forall_singleton. exists l.
      by rewrite !list_lookup_middle.
  - split; [done|]. specialize (Hext [] [l]). by rewrite app_nil_r in Hext.
  - split; [done|]. specialize (Hext [l] []). by rewrite app_nil_r in Hext.
Qed.

(** Every hunk a successful parse returns is well formed: file names, move
    targets and change contexts are not empty and carry no trailing whitespace; an
    update has at least one chunk, every chunk has at least one line, is the result
    of its context, added and removed lines in order, and its recorded context
    pairs increase strictly on both sides and name equal lines. *)
Theorem parse_patch_hunks_ok patch args :
  parse_patch patch = Ok args ->
  forall h, h ∈ apa_hunks args -> hunk_ok h /\
    match h with UpdateFile _ _ chunks => Forall context_ok chunks | _ => True end.
Proof.
  intros H h Hh. apply parse_patch_text_ok in H. rewrite Forall_forall in H. specialize (H h Hh).
  split; [done|]. destruct h as [| |path mv chunks]; [done..|].
  destruct H as (_ & _ & _ & Hc). eapply Forall_impl; [exact Hc|].
  intros c [(ctx & ops & eof & -> & _) _]. apply chunk_of_context_ok.
Qed.

(** ** Parsing never panics *)

Lemma ensure_no_panic p l : ensure_update_hunk_is_not_empty p l ≠ Panic.
Proof. unfold ensure_update_hunk_is_not_empty. by repeat case_match. Qed.

Lemma handle_no_panic p t : handle_hunk_headers_and_end_patch p t ≠ Panic.
Proof.
  unfold handle_hunk_headers_and_end_patch, mbind, res_bind. pose proof (ensure_no_panic p t) as He.
  destruct (ensure_update_hunk_is_not_empty p t); [by repeat case_match..|done].
Qed.

Lemma process_update_line_no_panic p line mv chunks : process_update_line p line mv chunks ≠ Panic.
Proof. unfold process_update_line. by repeat case_match. Qed.

Lemma process_line_no_panic p line : process_line p line ≠ Panic.
Proof.
  unfold process_line, mbind, res_bind.
  pose proof (handle_no_panic p (trim line)) as H1. pose proof (handle_no_panic p (trim_end line)) as H2.
  pose proof (process_update_line_no_panic p line) as H3.
  repeat case_match; try done; by edestruct H3.
Qed.

Lemma push_delta_no_panic p d : (push_delta p d).2 ≠ Panic.
Proof.
  revert p. induction d as [|c d IH]; intros p; simpl; [done|]. unfold push_delta_char.
  destruct (c =? NL)%Z; [|apply IH].
  destruct (process_line _ _) eqn:E; [apply IH|done|by apply process_line_no_panic in E].
Qed.

Lemma finish_no_panic p : (finish p).2 ≠ Panic.
Proof.
  assert (forall q, (finish_ended q).2 ≠ Panic) as Hend by (intros q; unfold finish_ended; by case_match).
  unfold finish. case_match; [apply Hend|]. unfold mbind, res_bind.
  pose proof (ensure_no_panic (take_line p) (trim (line_buffer p))) as H1.
  pose proof (process_line_no_panic (take_line p) (line_buffer p)) as H2.
  destruct (trim (line_buffer p) =s END_PATCH_MARKER).
  - destruct (ensure_update_hunk_is_not_empty _ _); [apply Hend|done|done].
  - destruct (process_line _ _); [apply Hend|done|done].
Qed.

Lemma parse_patch_no_panic patch : parse_patch patch ≠ Panic.
Proof.
  unfold parse_patch, parse_patch_text.
  assert (forall ls, check_patch_boundaries_strict ls ≠ Panic) as Hs.
  { intros ls. unfold check_patch_boundaries_strict, check_start_and_end_lines_strict. by repeat case_match. }
  assert (forall ls, check_patch_boundaries_lenient ls ≠ Panic) as Hl.
  { intros ls. unfold check_patch_boundaries_lenient. pose proof (Hs ls). repeat case_match; done. }
  set (lines := str_lines (trim patch)). cbn [PARSE_IN_STRICT_MODE].
  pose proof (Hl lines) as Hlines.
  destruct (check_patch_boundaries_lenient lines) as [ls|e|]; [|done|done]. cbn [mbind res_bind].
  pose proof (push_delta_no_panic parser_default (join [NL] ls)) as Hp.
  destruct (push_delta parser_default (join [NL] ls)) as [p [hs|e|]]; [|done|done].
  pose proof (finish_no_panic p) as Hf. destruct (finish p) as [p' [hs'|e|]]; done.
Qed.
