(* ===== verification/PatchRoundTrip.v ===== *)
(** * Printing patches and reading them back

    The patch format of [workx-rs/apply-patch/src/parser.rs] as a grammar of
    abstract patches with a printer, and the proof that [parse_patch] reads every
    printed patch back. The printer follows the Lark grammar in the header comment
    of [parser.rs]. *)
From S2P Require Import Prelude PatchParser.

Set Default Goal Selector "!".

(** ** Abstract patches *)

Record ChunkSpec := { cs_context : option rstr; cs_ops : list LineOp; cs_eof : bool }.

Inductive HunkSpec :=
| SpecAdd (path : rstr) (lines : list rstr)
| SpecDelete (path : rstr)
| SpecUpdate (path : rstr) (move_path : option rstr) (chunks : list ChunkSpec).

Definition chunk_denote (c : ChunkSpec) : UpdateFileChunk := chunk_of (cs_context c) (cs_ops c) (cs_eof c).

Definition hunk_denote (h : HunkSpec) : Hunk :=
  match h with
  | SpecAdd path lines => AddFile path (concat (map (fun l => l ++ [NL]) lines))
  | SpecDelete path => DeleteFile path
  | SpecUpdate path move_path chunks => UpdateFile path move_path (map chunk_denote chunks)
  end.

Definition op_line (op : LineOp) : rstr :=
  match op with OpContext l | OpAdd l | OpDelete l => l end.

Definition print_op (op : LineOp) : rstr :=
  match op with
  | OpContext l => lit " " ++ l
  | OpAdd l => lit "+" ++ l
  | OpDelete l => lit "-" ++ l
  end.

Definition print_context (context : option rstr) : rstr :=
  match context with
  | None => EMPTY_CHANGE_CONTEXT_MARKER
  | Some context => CHANGE_CONTEXT_MARKER ++ context
  end.

Definition print_chunk (c : ChunkSpec) : list rstr :=
  print_context (cs_context c) :: map print_op (cs_ops c) ++ (if cs_eof c then [EOF_MARKER] else []).

Definition print_hunk (h : HunkSpec) : list rstr :=
  match h with
  | SpecAdd path lines => (ADD_FILE_MARKER ++ path) :: map (fun l => lit "+" ++ l) lines
  | SpecDelete path => [DELETE_FILE_MARKER ++ path]
  | SpecUpdate path move_path chunks =>
      (UPDATE_FILE_MARKER ++ path) ::
      match move_path with Some m => [MOVE_TO_MARKER ++ m] | None => [] end ++
      concat (map print_chunk chunks)
  end.

Definition print_environment (env : option rstr) : list rstr :=
  match env with Some e => [ENVIRONMENT_ID_MARKER ++ lit " " ++ e] | None => [] end.

Definition print_patch_lines (env : option rstr) (hs : list HunkSpec) : list rstr :=
  BEGIN_PATCH_MARKER :: print_environment env ++ concat (map print_hunk hs) ++ [END_PATCH_MARKER].

Definition print_patch (env : option rstr) (hs : list HunkSpec) : rstr :=
  join [NL] (print_patch_lines env hs).

(** What can be printed: names and contexts on one line, text lines without a line
    break or a trailing carriage return, chunks and updates that are not empty. *)
Definition name_line_ok (s : rstr) : Prop := name_ok s /\ NL ∉ s.

Definition chunk_spec_ok (c : ChunkSpec) : Prop :=
  match cs_context c with Some s => name_line_ok s | None => True end /\
  cs_ops c ≠ [] /\ Forall (fun op => plain_line (op_line op)) (cs_ops c).

Definition hunk_spec_ok (h : HunkSpec) : Prop :=
  match h with
  | SpecAdd path lines => name_line_ok path /\ Forall plain_line lines
  | SpecDelete path => name_line_ok path
  | SpecUpdate path move_path chunks =>
      name_line_ok path /\ match move_path with Some m => name_line_ok m | None => True end /\
      chunks ≠ [] /\ Forall chunk_spec_ok chunks
  end.

Definition environment_ok (env : option rstr) : Prop :=
  match env with Some e => e ≠ [] /\ trim e = e /\ NL ∉ e | None => True end.

(** ** Lemmas on lines *)

Definition process_lines (p : StreamingPatchParser) (ls : list rstr) : res ParseError StreamingPatchParser :=
  fold_res (fun p l => process_line (take_line p) l) p ls.

Lemma process_lines_app p p1 a b :
  process_lines p a = Ok p1 -> process_lines p (a ++ b) = process_lines p1 b.
Proof.
  unfold process_lines. revert p. induction a as [|l a IH]; intros p; simpl; [by intros [= ->]|].
  destruct (process_line (take_line p) l) as [p2|e|]; [|done..]. apply IH.
Qed.

Lemma process_lines_cons p p1 l ls :
  process_line (take_line p) l = Ok p1 -> process_lines p (l :: ls) = process_lines p1 ls.
Proof. unfold process_lines. simpl. by intros ->. Qed.

Lemma handle_line_buffer p t r :
  handle_hunk_headers_and_end_patch p t = Ok (Some r) -> line_buffer r = line_buffer p.
Proof.
  unfold handle_hunk_headers_and_end_patch, mbind, res_bind. intros H.
  destruct (ensure_update_hunk_is_not_empty p t) as [[]|e|]; repeat case_match; by simplify_eq.
Qed.

Lemma process_line_buffer p l r : process_line p l = Ok r -> line_buffer r = line_buffer p.
Proof.
  unfold process_line. intros H.
  destruct (mode p); [case_match; by simplify_eq| | | | |case_match; by simplify_eq].
  all: destruct (handle_hunk_headers_and_end_patch p _) as [[q|]|e|] eqn:Eh;
    cbn [mbind res_bind] in H; try discriminate H;
    try (injection H as <-; by eapply handle_line_buffer).
  - repeat case_match; by simplify_eq.
  - destruct (last (hunks p)) as [[| |]|]; try discriminate H.
    destruct (process_update_line _ _ _ _) as [[]|e|]; cbn [mbind res_bind] in H; by simplify_eq.
Qed.

(** Text of whole lines goes through the parser line by line. *)
Lemma push_delta_chars p s :
  NL ∉ s -> push_delta p s =
    let p' := {| line_buffer := line_buffer p ++ s; mode := mode p; hunks := hunks p;
                 environment_id := environment_id p; line_number := line_number p |} in
    (p', Ok (hunks p)).
Proof.
  revert p. induction s as [|c s IH]; intros p Hs; simpl.
  - rewrite app_nil_r. by destruct p.
  - apply not_elem_of_cons in Hs as [Hc Hs]. unfold push_delta_char.
    destruct (Z.eqb_spec c NL) as [->|_]; [done|]. rewrite IH by done. simpl.
    by rewrite <- app_assoc.
Qed.

Lemma push_delta_line p l p1 :
  line_buffer p = [] -> plain_line l -> process_line (take_line p) l = Ok p1 ->
  push_delta p (l ++ [NL]) = (p1, Ok (hunks p1)).
Proof.
  intros Hb [Hl Hcr] Hp. rewrite push_delta_app, push_delta_chars by done. simpl.
  unfold push_delta_char. simpl. rewrite Hb. simpl.
  rewrite (proj2 (strip_suffix_None [CR] l)) by done. simpl.
  change (take_line _) with (take_line p). by rewrite Hp.
Qed.

Lemma push_delta_lines ls p p1 :
  line_buffer p = [] -> Forall plain_line ls -> process_lines p ls = Ok p1 ->
  push_delta p (concat (map (fun l => l ++ [NL]) ls)) = (p1, Ok (hunks p1)) /\ line_buffer p1 = [].
Proof.
  revert p. induction ls as [|l ls IH]; intros p Hb Hls H.
  - unfold process_lines in H. simpl in H. by simplify_eq.
  - apply Forall_cons in Hls as [Hl Hls]. simpl.
    destruct (process_line (take_line p) l) as [p2|e|] eqn:E;
      [|unfold process_lines in H; simpl in H; by rewrite E in H..].
    rewrite (process_lines_cons _ _ _ _ E) in H.
    rewrite push_delta_app, (push_delta_line p l p2) by done. apply IH; [|done..].
    by apply process_line_buffer in E.
Qed.

Lemma join_snoc ls l : join [NL] (ls ++ [l]) = concat (map (fun l => l ++ [NL]) ls) ++ l.
Proof.
  induction ls as [|x ls IH]; [done|].
  change ((x :: ls) ++ [l]) with (x :: (ls ++ [l])).
  assert (join [NL] (x :: ls ++ [l]) = x ++ [NL] ++ join [NL] (ls ++ [l])) as ->.
  { by destruct ls. }
  rewrite IH. simpl. by rewrite <- !app_assoc.
Qed.

(** ** Single lines *)

Lemma trim_end_prefix s : exists d, s = trim_end s ++ d.
Proof. destruct (drop_while_end_prefix is_whitespace s) as (d & Hd & _). eauto. Qed.

(** Trimming the end does not change the first character. *)
Lemma trim_end_first s c r : trim_end s = c :: r -> exists r', s = c :: r'.
Proof. intros E. destruct (trim_end_prefix s) as [d Hd]. rewrite E in Hd. simpl in Hd. eauto. Qed.

Lemma trim_first c s : is_whitespace c = false -> trim (c :: s) = trim_end (c :: s).
Proof. intros H. unfold trim, trim_start. simpl. by rewrite H. Qed.

Definition not_star (s : rstr) : Prop := forall r, s ≠ 42%Z :: r.
Definition not_at (s : rstr) : Prop := forall r, s ≠ 64%Z :: r.

Lemma not_star_trim_end s : not_star s -> not_star (trim_end s).
Proof. intros H r E. apply trim_end_first in E as [r' ->]. by destruct (H r'). Qed.

Lemma not_at_trim_end s : not_at s -> not_at (trim_end s).
Proof. intros H r E. apply trim_end_first in E as [r' ->]. by destruct (H r'). Qed.

(** Only a line that starts with a star can be a header. *)
Lemma strip_star m s : not_star s -> strip_prefix (42%Z :: m) s = None.
Proof.
  intros H. destruct (strip_prefix _ s) as [r|] eqn:E; [|done].
  apply strip_prefix_Some in E. by destruct (H (m ++ r)).
Qed.

Lemma streq_star m s : not_star s -> streq s (42%Z :: m) = false.
Proof. intros H. apply streq_false. apply H. Qed.

Lemma handle_none p t : not_star t -> handle_hunk_headers_and_end_patch p t = Ok None.
Proof.
  intros H. unfold handle_hunk_headers_and_end_patch.
  rewrite (strip_star (lit "** Environment ID:") t H : strip_prefix ENVIRONMENT_ID_MARKER t = None).
  rewrite (strip_star (lit "** Add File: ") t H : strip_prefix ADD_FILE_MARKER t = None).
  rewrite (strip_star (lit "** Delete File: ") t H : strip_prefix DELETE_FILE_MARKER t = None).
  rewrite (strip_star (lit "** Update File: ") t H : strip_prefix UPDATE_FILE_MARKER t = None).
  rewrite (streq_star (lit "** End Patch") t H : streq t END_PATCH_MARKER = false).
  by destruct (mode p).
Qed.

Lemma not_at_context s : not_at s -> is_change_context s = false.
Proof.
  intros H. unfold is_change_context. apply orb_false_iff. split.
  - apply streq_false. apply H.
  - destruct (starts_with CHANGE_CONTEXT_MARKER s) eqn:E; [|done].
    apply starts_with_true in E as [r E]. by destruct (H (lit "@ " ++ r)).
Qed.

Lemma strip_at m s : not_at s -> strip_prefix (64%Z :: m) s = None.
Proof.
  intros H. destruct (strip_prefix _ s) as [r|] eqn:E; [|done].
  apply strip_prefix_Some in E. by destruct (H (m ++ r)).
Qed.

Lemma print_op_first op : not_star (print_op op) /\ not_at (print_op op).
Proof. destruct op; split; intros r; by intros [=]. Qed.

(** A line of a chunk extends the chunk being read. *)
Lemma process_update_op p cs c mv op :
  is_end_of_file c = false ->
  process_update_line p (print_op op) mv (cs ++ [c]) = Ok (mv, cs ++ [apply_op c op]).
Proof.
  intros Heof. destruct (print_op_first op) as [Hstar Hat].
  unfold process_update_line. cbv zeta. rewrite !last_is_some_and_snoc, Heof.
  apply not_star_trim_end in Hstar. apply not_at_trim_end in Hat.
  replace (is_empty (cs ++ [c])) with false by by destruct cs. cbn [andb].
  rewrite not_at_context by done. cbn [andb].
  rewrite (streq_star (lit "** End of File") _ Hstar : streq _ EOF_MARKER = false).
  rewrite (proj2 (streq_false _ EMPTY_CHANGE_CONTEXT_MARKER)) by apply Hat.
  rewrite (strip_at (lit "@ ") _ Hat : strip_prefix CHANGE_CONTEXT_MARKER _ = None).
  assert (forall f, add_to_chunks (cs ++ [c]) f = cs ++ [f c]) as Hadd.
  { intros f. unfold add_to_chunks. replace (is_empty (cs ++ [c])) with false by by destruct cs.
    apply last_snoc_update. }
  rewrite <- (Hadd (fun c => apply_op c op)). destruct op; reflexivity.
Qed.

Lemma process_update_eof p cs c mv :
  is_end_of_file c = false -> chunk_lines_empty c = false ->
  process_update_line p EOF_MARKER mv (cs ++ [c]) = Ok (mv, cs ++ [mark_end_of_file c]).
Proof.
  intros Heof Hne. unfold process_update_line. cbv zeta.
  rewrite !last_is_some_and_snoc, Heof, Hne, last_snoc_update.
  replace (is_empty (cs ++ [c])) with false by by destruct cs. done.
Qed.

Lemma trim_end_marker m s : s ≠ [] -> trim_end s = s -> trim_end (m ++ s) = m ++ s.
Proof.
  intros Hs Ht. apply trim_end_id. intros l' x E.
  destruct (exists_last Hs) as (s' & y & ->). rewrite app_assoc in E. apply app_inj_tail in E as [_ ->].
  by eapply drop_while_end_last.
Qed.

Lemma print_context_trim ctx : opt_name_ok ctx -> trim_end (print_context ctx) = print_context ctx.
Proof. destruct ctx as [s|]; [|done]. intros [H1 H2]. by apply trim_end_marker. Qed.

Lemma print_context_is ctx : is_change_context (print_context ctx) = true.
Proof.
  destruct ctx as [s|]; [|done]. unfold is_change_context, print_context.
  rewrite starts_with_app. apply orb_true_r.
Qed.

Lemma process_update_context p chunks mv ctx :
  opt_name_ok ctx -> last_is_some_and chunk_lines_empty chunks = false ->
  process_update_line p (print_context ctx) mv chunks = Ok (mv, chunks ++ [chunk_of ctx [] false]).
Proof.
  intros Hctx Hlast. unfold process_update_line. cbv zeta.
  rewrite print_context_trim, print_context_is, Hlast by done. cbn [negb].
  rewrite andb_false_r. cbn [andb].
  replace (is_empty (print_context ctx)) with false by by destruct ctx. rewrite andb_false_r.
  replace (strip_prefix MOVE_TO_MARKER (print_context ctx)) with (@None rstr) by by destruct ctx.
  destruct ctx as [s|].
  - replace (print_context (Some s) =s EMPTY_CHANGE_CONTEXT_MARKER) with false.
    2: { symmetry. apply streq_false. by intros [=]. }
    unfold print_context. rewrite strip_prefix_app.
    destruct (is_empty chunks && _); reflexivity.
  - rewrite streq_refl. destruct (is_empty chunks && _); reflexivity.
Qed.

Lemma process_update_move p m :
  name_ok m -> process_update_line p (MOVE_TO_MARKER ++ m) None [] = Ok (Some m, []).
Proof.
  intros [H1 H2]. unfold process_update_line. cbv zeta.
  rewrite trim_end_marker by done. cbn [last_is_some_and last andb is_empty].
  cbn [bool_decide]. rewrite bool_decide_eq_false_2 by by intros [? ?]. cbn [negb].
  by rewrite strip_prefix_app.
Qed.

(** ** Whole chunks and hunks *)

(** The parser is reading an update with these chunks so far. *)
Definition updating (p : StreamingPatchParser) (env : option rstr) (hs : list Hunk) (path : rstr)
    (mv : option rstr) (chunks : list UpdateFileChunk) : Prop :=
  (exists n, mode p = ModeUpdateFile n) /\ hunks p = hs ++ [UpdateFile path mv chunks] /\
  environment_id p = env.

(** The parser has read these hunks and may read another header. *)
Definition between (p : StreamingPatchParser) (env : option rstr) (hs : list Hunk) : Prop :=
  mode p ≠ NotStarted /\ mode p ≠ EndedPatch /\ hunks p = hs /\ environment_id p = env /\
  forall l, ensure_update_hunk_is_not_empty (take_line p) l = Ok ().

Lemma update_step p line env hs path mv chunks mv' chunks' :
  updating p env hs path mv chunks ->
  handle_hunk_headers_and_end_patch (take_line p) (trim_end line) = Ok None ->
  process_update_line (take_line p) line mv chunks = Ok (mv', chunks') ->
  exists p', process_line (take_line p) line = Ok p' /\ updating p' env hs path mv' chunks'.
Proof.
  intros ([n Hm] & Hh & He) Hhd Hp.
  exists (set_hunks (take_line p) (hs ++ [UpdateFile path mv' chunks'])). split.
  - unfold process_line. cbn [take_line mode]. rewrite Hm. fold (take_line p). rewrite Hhd. cbn [mbind res_bind].
    cbn [take_line hunks]. fold (take_line p). rewrite Hh, last_snoc, removelast_last, Hp. done.
  - split_and!; [by exists n|done|done].
Qed.

Lemma update_ops ops p env hs path mv cs c :
  updating p env hs path mv (cs ++ [c]) -> is_end_of_file c = false ->
  exists p', process_lines p (map print_op ops) = Ok p' /\
             updating p' env hs path mv (cs ++ [foldl apply_op c ops]).
Proof.
  revert p c. induction ops as [|op ops IH]; intros p c Hu Heof; [by exists p|].
  destruct (update_step p (print_op op) env hs path mv (cs ++ [c]) mv (cs ++ [apply_op c op]))
    as (p1 & Hp1 & Hu1); [done| |by apply process_update_op|].
  { apply handle_none, not_star_trim_end, print_op_first. }
  cbn [map foldl]. rewrite (process_lines_cons p p1) by done.
  apply IH; [done|]. by rewrite apply_op_eof.
Qed.

Lemma chunk_of_nonempty ctx ops eof : ops ≠ [] -> chunk_lines_empty (chunk_of ctx ops eof) = false.
Proof.
  intros H. destruct (exists_last H) as (ops' & op & ->). rewrite chunk_of_snoc.
  unfold chunk_lines_empty. apply andb_false_iff. destruct op; simpl; rewrite ?is_empty_false;
    [left|right|left]; by destruct (_ (chunk_of ctx ops' eof)).
Qed.

Lemma chunk_of_not_eof ctx ops eof : is_end_of_file (chunk_of ctx ops eof) = eof.
Proof.
  induction ops as [|op ops IH] using rev_ind; [done|]. by rewrite chunk_of_snoc, apply_op_eof.
Qed.

Lemma name_line_name o : match o with Some s => name_line_ok s | None => True end -> opt_name_ok o.
Proof. destruct o; [|done]. by intros [? _]. Qed.

Lemma update_chunk p env hs path mv chunks c :
  updating p env hs path mv chunks -> last_is_some_and chunk_lines_empty chunks = false ->
  chunk_spec_ok c ->
  exists p', process_lines p (print_chunk c) = Ok p' /\
             updating p' env hs path mv (chunks ++ [chunk_denote c]).
Proof.
  intros Hu Hlast (Hctx & Hops & _). apply name_line_name in Hctx.
  destruct (update_step p (print_context (cs_context c)) env hs path mv chunks mv
              (chunks ++ [chunk_of (cs_context c) [] false])) as (p1 & Hp1 & Hu1); [done| | |].
  { apply handle_none. rewrite print_context_trim by done. intros r. by destruct (cs_context c). }
  { by apply process_update_context. }
  destruct (update_ops (cs_ops c) p1 env hs path mv chunks (chunk_of (cs_context c) [] false))
    as (p2 & Hp2 & Hu2); [done|done|].
  change (foldl apply_op (chunk_of (cs_context c) [] false) (cs_ops c))
    with (chunk_of (cs_context c) (cs_ops c) false) in Hu2.
  unfold print_chunk. rewrite (process_lines_cons p p1) by done.
  rewrite (process_lines_app p1 p2) by done.
  unfold chunk_denote. destruct (cs_eof c); [|by exists p2].
  destruct (update_step p2 EOF_MARKER env hs path mv (chunks ++ [chunk_of (cs_context c) (cs_ops c) false]) mv
              (chunks ++ [chunk_of (cs_context c) (cs_ops c) true])) as (p3 & Hp3 & Hu3); [done| | |].
  { unfold handle_hunk_headers_and_end_patch. by destruct (mode (take_line p2)). }
  { rewrite <- (chunk_of_eof _ _ false). apply process_update_eof; [apply chunk_of_not_eof|].
    by apply chunk_of_nonempty. }
  exists p3. split; [|done]. rewrite (process_lines_cons p2 p3) by done. done.
Qed.

Lemma update_chunks cs p env hs path mv chunks :
  updating p env hs path mv chunks -> last_is_some_and chunk_lines_empty chunks = false ->
  Forall chunk_spec_ok cs ->
  exists p', process_lines p (concat (map print_chunk cs)) = Ok p' /\
             updating p' env hs path mv (chunks ++ map chunk_denote cs) /\
             last_is_some_and chunk_lines_empty (chunks ++ map chunk_denote cs) = false.
Proof.
  revert p chunks. induction cs as [|c cs IH]; intros p chunks Hu Hlast Hcs.
  - exists p. simpl. rewrite app_nil_r. done.
  - apply Forall_cons in Hcs as [Hc Hcs].
    destruct (update_chunk p env hs path mv chunks c) as (p1 & Hp1 & Hu1); [done..|].
    destruct (IH p1 (chunks ++ [chunk_denote c])) as (p2 & Hp2 & Hu2 & Hl2); [done| |done|].
    { rewrite last_is_some_and_snoc. apply chunk_of_nonempty, Hc. }
    exists p2. cbn [map concat]. rewrite (process_lines_app p p1) by done.
    by rewrite <- app_assoc in Hu2, Hl2.
Qed.

(** A header line is recognised in every mode a hunk can end in. *)
Lemma header_step p env hs line r :
  between p env hs -> trim line = line ->
  handle_hunk_headers_and_end_patch (take_line p) line = Ok (Some r) ->
  process_line (take_line p) line = Ok r.
Proof.
  intros (Hn & He & _) Ht Hh. unfold process_line.
  assert (trim_end line = line) as Hte by (rewrite <- Ht; apply trim_trim_end).
  rewrite Ht, Hte, Hh. cbn [take_line mode] in *. by destruct (mode p).
Qed.

Lemma trim_marker m s :
  name_ok s -> trim (42%Z :: m ++ s) = 42%Z :: m ++ s.
Proof. intros [H1 H2]. rewrite trim_first by done. by apply (trim_end_marker (42%Z :: m)). Qed.

Definition file_header (m : rstr) : Prop :=
  m = ADD_FILE_MARKER \/ m = DELETE_FILE_MARKER \/ m = UPDATE_FILE_MARKER.

Definition opened_hunk (m path : rstr) : Hunk :=
  if m =s ADD_FILE_MARKER then AddFile path []
  else if m =s DELETE_FILE_MARKER then DeleteFile path else UpdateFile path None [].

Definition opened_mode (m : rstr) (n : nat) : StreamingParserMode :=
  if m =s ADD_FILE_MARKER then ModeAddFile
  else if m =s DELETE_FILE_MARKER then ModeDeleteFile else ModeUpdateFile n.

Lemma file_header_step p env hs m path :
  between p env hs -> file_header m -> name_ok path ->
  exists p', process_line (take_line p) (m ++ path) = Ok p' /\
    mode p' = opened_mode m (S (line_number p)) /\ hunks p' = hs ++ [opened_hunk m path] /\ environment_id p' = env.
Proof.
  intros Hb Hm Hp. pose proof Hb as (_ & _ & Hh & He & Hens).
  exists (set_mode (set_hunks (take_line p) (hs ++ [opened_hunk m path])) (opened_mode m (S (line_number p)))).
  split; [|by rewrite <- He].
  eapply header_step; [done|by destruct Hm as [-> | [-> | ->]]; apply trim_marker|].
  rewrite <- Hh. unfold handle_hunk_headers_and_end_patch. rewrite !Hens.
  destruct Hm as [-> | [-> | ->]].
  - replace (ADD_FILE_MARKER ++ path =s END_PATCH_MARKER) with false
      by (symmetry; apply streq_false; by intros [=]).
    rewrite strip_prefix_app. by destruct (mode (take_line p)).
  - replace (DELETE_FILE_MARKER ++ path =s END_PATCH_MARKER) with false
      by (symmetry; apply streq_false; by intros [=]).
    rewrite strip_prefix_app. by destruct (mode (take_line p)).
  - replace (UPDATE_FILE_MARKER ++ path =s END_PATCH_MARKER) with false
      by (symmetry; apply streq_false; by intros [=]).
    rewrite strip_prefix_app. by destruct (mode (take_line p)).
Qed.

(** The lines of an added file. *)
Lemma add_lines ls p env hs path contents :
  mode p = ModeAddFile -> hunks p = hs ++ [AddFile path contents] -> environment_id p = env ->
  exists p', process_lines p (map (fun l => lit "+" ++ l) ls) = Ok p' /\ mode p' = ModeAddFile /\
    hunks p' = hs ++ [AddFile path (contents ++ concat (map (fun l => l ++ [NL]) ls))] /\ environment_id p' = env.
Proof.
  revert p contents. induction ls as [|l ls IH]; intros p contents Hm Hh He.
  - exists p. cbn [map concat]. by rewrite app_nil_r.
  - destruct (IH (set_hunks (take_line p) (hs ++ [AddFile path (contents ++ l ++ [NL])]))
                (contents ++ l ++ [NL])) as (p2 & Hp2 & ? & Hh2 & ?); [done..|].
    exists p2. cbn [map concat]. split_and!; [|done| |done].
    + rewrite (process_lines_cons p (set_hunks (take_line p) (hs ++ [AddFile path (contents ++ l ++ [NL])]))); [done|].
      unfold process_line. cbn [take_line mode]. rewrite Hm. fold (take_line p).
      rewrite handle_none.
      2: { change (lit "+" ++ l) with (43%Z :: l). rewrite trim_first by done.
           apply not_star_trim_end. by intros r [=]. }
      cbn [mbind res_bind]. rewrite strip_prefix_app. cbn [take_line hunks].
      by rewrite Hh, last_snoc, removelast_last.
    + rewrite Hh2. by rewrite <- !app_assoc.
Qed.

Lemma hunk_step p env hs h :
  between p env hs -> hunk_spec_ok h ->
  exists p', process_lines p (print_hunk h) = Ok p' /\ between p' env (hs ++ [hunk_denote h]).
Proof.
  intros Hb Hok. destruct h as [path lines|path|path mv chunks]; cbn [print_hunk].
  - destruct Hok as [[Hpath _] Hls].
    destruct (file_header_step p env hs ADD_FILE_MARKER path) as (p1 & Hp1 & Hm1 & Hh1 & He1); [done|by left|done|].
    destruct (add_lines lines p1 env hs path []) as (p2 & Hp2 & Hm2 & Hh2 & He2); [done..|].
    exists p2. rewrite (process_lines_cons p p1) by done. split; [done|].
    split_and!; [by rewrite Hm2|by rewrite Hm2|done..|]. intros l.
    unfold ensure_update_hunk_is_not_empty. cbn [take_line hunks]. by rewrite Hh2, last_snoc.
  - destruct Hok as [Hpath _].
    destruct (file_header_step p env hs DELETE_FILE_MARKER path) as (p1 & Hp1 & Hm1 & Hh1 & He1);
      [done|by right; left|done|].
    exists p1. rewrite (process_lines_cons p p1) by done. split; [done|].
    split_and!; [by rewrite Hm1|by rewrite Hm1|done..|]. intros l.
    unfold ensure_update_hunk_is_not_empty. cbn [take_line hunks]. by rewrite Hh1, last_snoc.
  - destruct Hok as ([Hpath _] & Hmv & Hne & Hcs).
    destruct (file_header_step p env hs UPDATE_FILE_MARKER path) as (p1 & Hp1 & Hm1 & Hh1 & He1);
      [done|by right; right|done|].
    assert (updating p1 env hs path None []) as Hu1 by (split_and!; [by eexists|done..]).
    assert (exists p2, process_lines p1 (match mv with Some m => [MOVE_TO_MARKER ++ m] | None => [] end) = Ok p2 /\
              updating p2 env hs path mv []) as (p2 & Hp2 & Hu2).
    { destruct mv as [m|]; [|by exists p1].
      destruct (update_step p1 (MOVE_TO_MARKER ++ m) env hs path None [] (Some m) []) as (p2 & Hp2 & Hu2);
        [done| |by apply process_update_move, Hmv|].
      { rewrite trim_end_marker by apply Hmv.
        unfold handle_hunk_headers_and_end_patch.
        replace (MOVE_TO_MARKER ++ m =s END_PATCH_MARKER) with false
          by (symmetry; apply streq_false; by intros [=]).
        by destruct (mode (take_line p1)). }
      exists p2. by rewrite (process_lines_cons p1 p2). }
    destruct (update_chunks chunks p2 env hs path mv []) as (p3 & Hp3 & Hu3 & Hl3); [done..|].
    exists p3. rewrite (process_lines_cons p p1), (process_lines_app p1 p2) by done. split; [done|].
    destruct Hu3 as ([n Hm3] & Hh3 & He3). split_and!; [by rewrite Hm3|by rewrite Hm3|done..|].
    intros l. unfold ensure_update_hunk_is_not_empty. cbn [take_line hunks]. rewrite Hh3, last_snoc.
    simpl in *. rewrite Hl3. by destruct chunks.
Qed.

(** ** Printed lines are lines *)

Lemma plain_app m l : plain_line m -> plain_line l -> plain_line (m ++ l).
Proof.
  intros [Hm Hmc] [Hl Hlc]. split; [by apply not_elem_of_app|].
  intros r E. destruct l as [|x l _] using rev_ind.
  - rewrite app_nil_r in E. by destruct (Hmc r).
  - rewrite app_assoc in E. apply app_inj_tail in E as [_ ->]. by destruct (Hlc l).
Qed.

Lemma plain_literal s : existsb (Z.eqb NL) (lit s) = false -> List.last (lit s) 0%Z ≠ CR -> plain_line (lit s).
Proof.
  intros H1 H2. split.
  - intros Hin. assert (existsb (Z.eqb NL) (lit s) = true) as E; [|by rewrite E in H1].
    apply existsb_exists. exists NL. split; [by apply list_elem_of_In|apply Z.eqb_refl].
  - intros r E. rewrite E, last_snoc_default in H2. done.
Qed.

Lemma name_plain s : name_line_ok s -> plain_line s.
Proof.
  intros [[H1 H2] H3]. split; [done|]. intros r ->. by apply drop_while_end_last in H2.
Qed.

Lemma print_op_plain op : plain_line (op_line op) -> plain_line (print_op op).
Proof. destruct op; simpl op_line; intros H; apply plain_app; try done; by apply plain_literal. Qed.

Lemma print_chunk_plain c : chunk_spec_ok c -> Forall plain_line (print_chunk c).
Proof.
  intros (Hctx & _ & Hops). constructor.
  - destruct (cs_context c) as [s|]; [|by apply plain_literal].
    apply plain_app; [by apply plain_literal|by apply name_plain].
  - apply Forall_app. split.
    + apply Forall_fmap. eapply Forall_impl; [exact Hops|]. intros op. apply print_op_plain.
    + destruct (cs_eof c); [|constructor]. constructor; [by apply plain_literal|constructor].
Qed.

Lemma concat_plain {A} (f : A -> list rstr) (P : A -> Prop) l :
  (forall x, P x -> Forall plain_line (f x)) -> Forall P l -> Forall plain_line (concat (map f l)).
Proof.
  intros Hf. induction 1 as [|x l Hx _ IH]; simpl; [constructor|].
  apply Forall_app. auto.
Qed.

Lemma print_hunk_plain h : hunk_spec_ok h -> Forall plain_line (print_hunk h).
Proof.
  assert (forall m s, plain_line m -> name_line_ok s -> plain_line (m ++ s)) as Hname.
  { intros m s Hm Hs. apply plain_app; [done|by apply name_plain]. }
  destruct h as [path lines|path|path mv chunks]; cbn [print_hunk hunk_spec_ok].
  - intros [Hp Hl]. constructor; [apply Hname; [by apply plain_literal|done]|].
    apply Forall_fmap. eapply Forall_impl; [exact Hl|]. intros l Hpl. apply plain_app; [by apply plain_literal|done].
  - intros Hp. constructor; [apply Hname; [by apply plain_literal|done]|constructor].
  - intros (Hp & Hmv & _ & Hcs). constructor; [apply Hname; [by apply plain_literal|done]|].
    apply Forall_app. split; [|by eapply concat_plain; [apply print_chunk_plain|]].
    destruct mv; constructor; [|constructor]. apply Hname; [by apply plain_literal|done].
Qed.

Lemma str_lines_joined ls l :
  Forall plain_line ls -> l ≠ [] -> NL ∉ l ->
  str_lines (concat (map (fun l => l ++ [NL]) ls) ++ l) = ls ++ [l].
Proof.
  intros Hls Hl Hnl. induction Hls as [|x ls [Hx Hcr] _ IH]; simpl.
  - unfold str_lines. rewrite split_inclusive_no_sep by done. simpl. f_equal.
    unfold strip_line_ending. rewrite (proj2 (strip_suffix_None [NL] l)); [done|]. intros r ->. set_solver.
  - rewrite <- !app_assoc. simpl. unfold str_lines in *. rewrite split_inclusive_app_sep by done. simpl.
    rewrite IH. f_equal. unfold strip_line_ending.
    rewrite strip_suffix_app, (proj2 (strip_suffix_None [CR] x)); done.
Qed.

(** ** Reading a printed patch *)

Lemma between_start p env :
  mode p = StartedPatch -> hunks p = [] -> environment_id p = env -> between p env [].
Proof.
  intros Hm Hh He. split_and!; [by rewrite Hm|by rewrite Hm|done..|].
  intros l. unfold ensure_update_hunk_is_not_empty. cbn [take_line hunks]. by rewrite Hh.
Qed.

Lemma environment_step p env :
  mode p = StartedPatch -> hunks p = [] -> environment_id p = None -> environment_ok env ->
  exists p', process_lines p (print_environment env) = Ok p' /\ between p' env [].
Proof.
  intros Hm Hh He Henv. destruct env as [e|].
  - destruct Henv as (Hne & Ht & _).
    exists (set_environment_id (take_line p) e). split; [|by apply between_start].
    unfold print_environment. rewrite (process_lines_cons p (set_environment_id (take_line p) e)); [done|].
    unfold process_line. cbn [take_line mode]. rewrite Hm. fold (take_line p).
    change (trim (ENVIRONMENT_ID_MARKER ++ lit " " ++ e))
      with (trim (42%Z :: lit "** Environment ID: " ++ e)).
    rewrite trim_marker.
    2: { split; [done|]. rewrite <- Ht. apply trim_trim_end. }
    unfold handle_hunk_headers_and_end_patch. cbn [take_line mode environment_id]. rewrite Hm, He. fold (take_line p).
    change (42%Z :: lit "** Environment ID: " ++ e) with (ENVIRONMENT_ID_MARKER ++ 32%Z :: e).
    rewrite strip_prefix_app. unfold trim at 1 2. unfold trim_start. cbn [drop_while].
    change (is_whitespace 32%Z) with true. cbv iota. fold (trim_start e). fold (trim e). rewrite Ht.
    by destruct e.
  - exists p. split; [done|]. by apply between_start.
Qed.

Lemma hunks_step hs p env done_hunks :
  between p env done_hunks -> Forall hunk_spec_ok hs ->
  exists p', process_lines p (concat (map print_hunk hs)) = Ok p' /\
             between p' env (done_hunks ++ map hunk_denote hs).
Proof.
  revert p done_hunks. induction hs as [|h hs IH]; intros p dn Hb Hok.
  - exists p. cbn [map concat]. by rewrite app_nil_r.
  - apply Forall_cons in Hok as [Hh Hok].
    destruct (hunk_step p env dn h) as (p1 & Hp1 & Hb1); [done..|].
    destruct (IH p1 (dn ++ [hunk_denote h])) as (p2 & Hp2 & Hb2); [done..|].
    exists p2. cbn [map concat]. rewrite (process_lines_app p p1) by done.
    by rewrite <- app_assoc in Hb2.
Qed.

Definition body_lines (env : option rstr) (hs : list HunkSpec) : list rstr :=
  BEGIN_PATCH_MARKER :: print_environment env ++ concat (map print_hunk hs).

Lemma print_patch_shape env hs :
  print_patch_lines env hs = body_lines env hs ++ [END_PATCH_MARKER] /\
  print_patch env hs = concat (map (fun l => l ++ [NL]) (body_lines env hs)) ++ END_PATCH_MARKER.
Proof.
  assert (print_patch_lines env hs = body_lines env hs ++ [END_PATCH_MARKER]) as E.
  { unfold print_patch_lines, body_lines. cbn [app]. by rewrite <- app_assoc. }
  split; [done|]. unfold print_patch. by rewrite E, join_snoc.
Qed.

Lemma body_lines_plain env hs :
  environment_ok env -> Forall hunk_spec_ok hs -> Forall plain_line (body_lines env hs).
Proof.
  intros Henv Hhs. constructor; [by apply plain_literal|]. apply Forall_app. split.
  - destruct env as [e|]; constructor; [|constructor]. destruct Henv as (Hne & Ht & Hnl).
    apply plain_app; [by apply plain_literal|]. apply plain_app; [by apply plain_literal|].
    apply name_plain. split; [|done]. split; [done|]. rewrite <- Ht. apply trim_trim_end.
  - eapply concat_plain; [apply print_hunk_plain|done].
Qed.

Lemma body_lines_processed env hs :
  environment_ok env -> Forall hunk_spec_ok hs ->
  exists p, process_lines parser_default (body_lines env hs) = Ok p /\ between p env (map hunk_denote hs).
Proof.
  intros Henv Hhs.
  set (p0 := set_mode (take_line parser_default) StartedPatch).
  destruct (environment_step p0 env) as (p1 & Hp1 & Hb1); [done..|].
  destruct (hunks_step hs p1 env []) as (p2 & Hp2 & Hb2); [done..|].
  exists p2. split; [|done]. unfold body_lines. rewrite (process_lines_cons _ p0) by done.
  by rewrite (process_lines_app p0 p1).
Qed.

(** C26. Printing and parsing round-trip: [parse_patch] reads the printed form of
    every abstract patch (environment id, added, deleted and updated files, moves,
    change contexts, end-of-file markers, and text lines that may themselves look
    like patch markers) back to exactly the hunks it denotes, with the patch text
    unchanged. *)
Theorem parse_print_patch env hs :
  environment_ok env -> Forall hunk_spec_ok hs ->
  parse_patch (print_patch env hs) =
    Ok {| apa_patch := print_patch env hs; apa_hunks := map hunk_denote hs;
          apa_workdir := None; apa_environment_id := env |}.
Proof.
  intros Henv Hhs. destruct (print_patch_shape env hs) as [Hlines Hpatch].
  pose proof (body_lines_plain env hs Henv Hhs) as Hplain.
  destruct (body_lines_processed env hs Henv Hhs) as (p & Hp & Hn & He & Hh & Hid & Hens).
  assert (str_lines (trim (print_patch env hs)) = print_patch_lines env hs) as Hsplit.
  { assert (trim (print_patch env hs) = print_patch env hs) as ->.
    { transitivity (trim_end (print_patch env hs)).
      - rewrite Hpatch. by apply (trim_first 42%Z).
      - rewrite Hpatch. by apply trim_end_marker. }
    rewrite Hpatch, str_lines_joined, Hlines; [done..|]. apply (plain_literal "*** End Patch"); done. }
  unfold parse_patch, parse_patch_text. rewrite Hsplit. cbn [PARSE_IN_STRICT_MODE].
  assert (check_patch_boundaries_strict (print_patch_lines env hs) = Ok (print_patch_lines env hs)) as Hchk.
  { unfold check_patch_boundaries_strict. rewrite Hlines, last_snoc. done. }
  unfold check_patch_boundaries_lenient. rewrite Hchk. cbn [mbind res_bind].
  fold (print_patch env hs). rewrite Hpatch at 1.
  destruct (push_delta_lines (body_lines env hs) parser_default p) as [Hpush Hbuf]; [done..|].
  rewrite push_delta_app, Hpush, push_delta_chars by (apply (plain_literal "*** End Patch"); done).
  unfold finish. cbv zeta. cbn [line_buffer]. rewrite Hbuf. cbn [app].
  change (is_empty END_PATCH_MARKER) with false. cbv iota.
  replace (trim END_PATCH_MARKER =s END_PATCH_MARKER) with true by done.
  change (take_line {| line_buffer := END_PATCH_MARKER |}) with (take_line p).
  unfold take_line at 1 2 3. cbn [mode hunks environment_id line_number].
  fold (take_line p). rewrite Hens. cbn [mbind res_bind]. unfold finish_ended. cbn [set_mode mode hunks take_line].
  cbn [mbind res_bind set_mode take_line environment_id]. by rewrite Hh, Hid.
Qed.

(** A patch whose text lines look like markers. *)
Definition demo_hunks : list HunkSpec :=
  [SpecAdd (lit "a.txt") [lit "*** End Patch"; []];
   SpecUpdate (lit "src/b c.rs") (Some (lit "d.rs"))
     [{| cs_context := Some (lit "fn main()"); cs_ops := [OpContext []; OpDelete (lit "x"); OpAdd (lit "@@")];
         cs_eof := true |};
      {| cs_context := None; cs_ops := [OpContext (lit "*** Add File: z")]; cs_eof := false |}];
   SpecDelete (lit "old")].

Lemma demo_hunks_ok : Forall hunk_spec_ok demo_hunks.
Proof.
  assert (forall s, lit s ≠ [] -> trim_end (lit s) = lit s -> existsb (Z.eqb NL) (lit s) = false ->
          List.last (lit s) 0%Z ≠ CR -> name_line_ok (lit s)) as Hn.
  { intros s H1 H2 H3 H4. split; [done|]. apply (plain_literal s H3 H4). }
  repeat first [apply Forall_cons; split|apply Forall_nil; done|split];
    first [done|apply Hn; done|apply (plain_literal ""); done|apply plain_literal; done|idtac].
Qed.

Lemma parse_print_patch_witness :
  exists args, parse_patch (print_patch (Some (lit "local")) demo_hunks) = Ok args /\ length (apa_hunks args) = 3.
Proof.
  eexists. split; [apply (parse_print_patch (Some (lit "local")) demo_hunks)|reflexivity].
  - split_and!; [done|done|]. by apply (plain_literal "local").
  - apply demo_hunks_ok.
Defined.

Lemma parse_patch_hunks_ok_witness :
  exists args, parse_patch (print_patch None demo_hunks) = Ok args /\ Forall hunk_ok (apa_hunks args).
Proof.
  destruct (parse_patch (print_patch None demo_hunks)) as [args|e|] eqn:E.
  - exists args. split; [done|]. apply Forall_forall. intros h Hh.
    by apply (parse_patch_hunks_ok (print_patch None demo_hunks) args E h Hh).
  - exfalso. vm_compute in E. discriminate E.
  - exfalso. vm_compute in E. discriminate E.
Defined.
