(* ===== verification/SeekSequence.v ===== *)
(** * Locating the old lines of a chunk in a file

    Models [workx-rs/apply-patch/src/seek_sequence.rs]: the search for a block of
    lines with decreasing strictness, and [ApplyPatchFileUpdateMode] of [lib.rs]. *)
From S2P Require Import Prelude PatchParser.

Set Default Goal Selector "!".

Inductive ApplyPatchFileUpdateMode := NormalizeToLf | PreserveLineEndings.

(** The punctuation folding of the last pass. *)
Definition normalise_char (c : char) : char :=
  (if ((8208 <=? c) && (c <=? 8213)) || (c =? 8722) then 45
   else if (8216 <=? c) && (c <=? 8219) then 39
   else if (8220 <=? c) && (c <=? 8223) then 34
   else if (c =? 160) || ((8194 <=? c) && (c <=? 8202)) || (c =? 8239) || (c =? 8287) || (c =? 12288)
   then 32
   else c)%Z.

Definition normalise (s : rstr) : rstr := map normalise_char (trim s).

(** One pass compares lines through a key: the line itself, then without trailing
    whitespace, then without surrounding whitespace, then normalised. *)
Definition passes : list (rstr -> rstr) := [fun s => s; trim_end; trim; normalise].

(** [lines[i..i + pattern.len()]] against the pattern, line by line. The loop bound
    keeps the slice inside [lines]. *)
Definition matches_at (key : rstr -> rstr) (lines pattern : list rstr) (i : nat) : bool :=
  bool_decide (map key (take (length pattern) (drop i lines)) = map key pattern).

(** [for i in search_start..=last { if .. { return Some(i) } }]. *)
Definition seek_pass (key : rstr -> rstr) (lines pattern : list rstr) (search_start : nat) : option nat :=
  List.find (matches_at key lines pattern)
            (seq search_start (S (length lines - length pattern) - search_start)).

Fixpoint seek_passes (keys : list (rstr -> rstr)) (lines pattern : list rstr) (search_start : nat)
    : option nat :=
  match keys with
  | [] => None
  | key :: keys' =>
      match seek_pass key lines pattern search_start with
      | Some i => Some i
      | None => seek_passes keys' lines pattern search_start
      end
  end.

(** Where the search begins. *)
Definition seek_start (lines pattern : list rstr) (start : nat) (eof : bool)
    (update_file_mode : ApplyPatchFileUpdateMode) : nat :=
  if eof && (length pattern <=? length lines)%nat then
    let eof_start := length lines - length pattern in
    match update_file_mode with
    | NormalizeToLf => eof_start
    | PreserveLineEndings => Nat.max eof_start start
    end
  else start.

Definition seek_sequence (lines pattern : list rstr) (start : nat) (eof : bool)
    (update_file_mode : ApplyPatchFileUpdateMode) : option nat :=
  if is_empty pattern then Some start
  else if (length lines <? length pattern)%nat then None
  else seek_passes passes lines pattern (seek_start lines pattern start eof update_file_mode).

(** ** Lemmas *)

(** The block at [i] agrees with the pattern up to the key. *)
Definition block_matches (key : rstr -> rstr) (lines pattern : list rstr) (i : nat) : Prop :=
  i + length pattern <= length lines /\ map key (take (length pattern) (drop i lines)) = map key pattern.

Lemma find_seq_Some (f : nat -> bool) s n i :
  List.find f (seq s n) = Some i <->
  s <= i < s + n /\ f i = true /\ forall j, s <= j < i -> f j = false.
Proof.
  revert s. induction n as [|n IH]; intros s; simpl.
  - split; [done|]. intros [? _]. lia.
  - destruct (f s) eqn:E.
    + split.
      * intros [= <-]. split_and!; [lia..|done|]. intros j Hj. lia.
      * intros (Hi & Hf & Hj). destruct (decide (s = i)) as [->|Hne]; [done|].
        rewrite Hj in E by lia. done.
    + rewrite IH. split.
      * intros (Hi & Hf & Hj). split_and!; [lia..|done|]. intros j Hj'.
        destruct (decide (s = j)) as [->|Hne]; [done|]. apply Hj. lia.
      * intros (Hi & Hf & Hj). destruct (decide (s = i)) as [->|Hne]; [congruence|].
        split_and!; [lia..|done|]. intros j Hj'. apply Hj. lia.
Qed.

Lemma find_seq_None (f : nat -> bool) s n :
  List.find f (seq s n) = None <-> forall j, s <= j < s + n -> f j = false.
Proof.
  revert s. induction n as [|n IH]; intros s; simpl.
  - split; [|done]. intros _ j Hj. lia.
  - destruct (f s) eqn:E.
    + split; [done|]. intros H. rewrite H in E by lia. done.
    + rewrite IH. split; intros H j Hj.
      * destruct (decide (s = j)) as [->|Hne]; [done|]. apply H. lia.
      * apply H. lia.
Qed.

Lemma matches_at_spec key lines pattern i :
  i + length pattern <= length lines ->
  matches_at key lines pattern i = true <-> block_matches key lines pattern i.
Proof. intros Hi. unfold matches_at, block_matches. rewrite bool_decide_eq_true. naive_solver. Qed.

Lemma seek_pass_Some key lines pattern s i :
  length pattern <= length lines ->
  seek_pass key lines pattern s = Some i <->
  s <= i /\ block_matches key lines pattern i /\
  forall j, s <= j < i -> ~ block_matches key lines pattern j.
Proof.
  intros Hlen. unfold seek_pass. rewrite find_seq_Some. split.
  - intros (Hi & Hm & Hj). split_and!; [lia| |].
    + apply matches_at_spec; [lia|done].
    + intros j Hj' Hb. rewrite <- matches_at_spec in Hb by lia. rewrite Hj in Hb by lia. done.
  - intros (Hi & Hm & Hj). pose proof Hm as [Hb _]. split_and!; [lia..| |].
    + by apply matches_at_spec.
    + intros j Hj'. apply not_true_iff_false. intros Hc.
      apply (Hj j Hj'), matches_at_spec; [lia|done].
Qed.

Lemma seek_pass_None key lines pattern s :
  length pattern <= length lines ->
  seek_pass key lines pattern s = None <-> forall j, s <= j -> ~ block_matches key lines pattern j.
Proof.
  intros Hlen. unfold seek_pass. rewrite find_seq_None. split.
  - intros H j Hj Hb. pose proof Hb as [Hle _]. rewrite <- matches_at_spec in Hb by lia.
    rewrite H in Hb by lia. done.
  - intros H j Hj. apply not_true_iff_false. intros Hc.
    apply (H j); [lia|]. apply matches_at_spec; [lia|done].
Qed.

(** Equal lines stay equal when compared more loosely: each pass accepts what the
    one before it accepts. *)
Lemma map_key_weaken (f g : rstr -> rstr) a b :
  (forall x y, f x = f y -> g x = g y) -> map f a = map f b -> map g a = map g b.
Proof.
  intros Hfg. revert b. induction a as [|x a IH]; intros [|y b]; simpl; try done.
  intros [= Hx Ha]. by rewrite (Hfg x y Hx), (IH b Ha).
Qed.

Lemma drop_while_app_all {A} (p : A -> bool) a b :
  Forall (fun x => p x = true) a -> drop_while p (a ++ b) = drop_while p b.
Proof. induction 1 as [|x a Hx _ IH]; simpl; [done|]. by rewrite Hx. Qed.

Lemma drop_while_all_snoc {A} (p : A -> bool) l x :
  drop_while p (l ++ [x]) = drop_while p l ++ [x] \/ (drop_while p l = [] /\ p x = true) \/
  (drop_while p l = [] /\ drop_while p (l ++ [x]) = [x]).
Proof.
  induction l as [|y l IH]; simpl; [destruct (p x); auto|].
  destruct (p y); [done|]. by left.
Qed.

Lemma trim_start_snoc_ws s x :
  is_whitespace x = true -> trim_end (trim_start (s ++ [x])) = trim_end (trim_start s).
Proof.
  intros Hx. unfold trim_start.
  assert (forall l, trim_end (l ++ [x]) = trim_end l) as Hend.
  { intros l. unfold trim_end, drop_while_end. rewrite reverse_snoc. simpl. by rewrite Hx. }
  destruct (drop_while_all_snoc is_whitespace s x) as [-> | [[E _]|[E1 E2]]]; [apply Hend| |].
  - destruct (drop_while_suffix is_whitespace s) as (d & Hd & Hp). rewrite E, app_nil_r in Hd. subst d.
    rewrite drop_while_all; [by rewrite E|]. apply Forall_app. split; [done|by constructor].
  - rewrite E2, E1. apply (Hend []).
Qed.

(** Trimming both ends sees nothing of trailing whitespace. *)
Lemma trim_trim_end_l s : trim (trim_end s) = trim s.
Proof.
  destruct (drop_while_end_prefix is_whitespace s) as (d & Hd & Hp). fold (trim_end s) in Hd.
  rewrite Hd at 2. clear Hd. generalize (trim_end s). intros t. unfold trim.
  induction d as [|x d IH] using rev_ind; [by rewrite app_nil_r|].
  apply Forall_app in Hp as [Hp Hx]. apply Forall_inv in Hx.
  rewrite app_assoc, trim_start_snoc_ws by done. by apply IH.
Qed.

Lemma passes_weaken k f g x y : passes !! k = Some f -> passes !! S k = Some g -> f x = f y -> g x = g y.
Proof.
  unfold passes. intros Hf Hg.
  destruct k as [|[|[|k]]]; cbn [lookup list_lookup] in Hf, Hg; [| | |by destruct k].
  - injection Hf as <-. injection Hg as <-. congruence.
  - injection Hf as <-. injection Hg as <-. intros H.
    rewrite <- (trim_trim_end_l x), <- (trim_trim_end_l y). congruence.
  - injection Hf as <-. injection Hg as <-. unfold normalise. congruence.
Qed.

Lemma passes_weaken_le j k f g lines pattern i :
  j <= k -> passes !! j = Some f -> passes !! k = Some g ->
  block_matches f lines pattern i -> block_matches g lines pattern i.
Proof.
  intros Hjk. revert g. induction Hjk as [|k Hjk IH]; intros g Hf Hg Hb; [congruence|].
  destruct (passes !! k) as [h|] eqn:Eh.
  - destruct (IH h Hf eq_refl Hb) as [Hle Hm]. split; [done|].
    eapply map_key_weaken; [|exact Hm]. intros x y. by eapply passes_weaken.
  - apply lookup_ge_None in Eh. apply lookup_lt_Some in Hg. lia.
Qed.

(** The first pass that finds anything decides, with its earliest hit. *)
Lemma seek_passes_Some keys lines pattern s i :
  length pattern <= length lines ->
  seek_passes keys lines pattern s = Some i <->
  exists k key, keys !! k = Some key /\ s <= i /\ block_matches key lines pattern i /\
    (forall j, s <= j < i -> ~ block_matches key lines pattern j) /\
    (forall k' key' j, k' < k -> keys !! k' = Some key' -> s <= j -> ~ block_matches key' lines pattern j).
Proof.
  intros Hlen. induction keys as [|key keys IH]; simpl.
  - split; [done|]. by intros (k & key & Hk & _).
  - destruct (seek_pass key lines pattern s) as [i'|] eqn:E.
    + apply seek_pass_Some in E as (Hs & Hb & Hj); [|done]. split.
      * intros [= <-]. exists 0, key. split_and!; [done..|]. intros. lia.
      * intros ([|k] & key' & Hk & Hs' & Hb' & Hj' & Hlow).
        -- simpl in Hk. injection Hk as <-. f_equal.
           destruct (lt_eq_lt_dec i i') as [[Hlt|Heq]|Hlt]; [|done|].
           ++ by destruct (Hj i ltac:(lia)).
           ++ by destruct (Hj' i' ltac:(lia)).
        -- by destruct (Hlow 0 key i' ltac:(lia) eq_refl Hs).
    + pose proof (proj1 (seek_pass_None _ _ _ _ Hlen) E) as Hno. rewrite IH. split.
      * intros (k & key' & Hk & Hs' & Hb' & Hj' & Hlow).
        exists (S k), key'. split_and!; [done..|].
        intros [|k'] key0 j Hk' Hkey Hsj; simpl in Hkey; [injection Hkey as <-; by apply Hno|].
        eapply Hlow; [|done|done]. lia.
      * intros ([|k] & key' & Hk & Hs' & Hb' & Hj' & Hlow).
        -- simpl in Hk. injection Hk as <-. by destruct (Hno i Hs').
        -- exists k, key'. split_and!; [done..|].
           intros k' key0 j Hk' Hkey Hsj. eapply (Hlow (S k')); [lia|done|done].
Qed.

Lemma seek_passes_None keys lines pattern s :
  length pattern <= length lines ->
  seek_passes keys lines pattern s = None <->
  forall key j, key ∈ keys -> s <= j -> ~ block_matches key lines pattern j.
Proof.
  intros Hlen. induction keys as [|key keys IH]; simpl.
  - split; [|done]. intros _ key j Hk. by apply not_elem_of_nil in Hk.
  - destruct (seek_pass key lines pattern s) as [i'|] eqn:E.
    + apply seek_pass_Some in E as (Hs & Hb & Hj); [|done]. split; [done|].
      intros H. by destruct (H key i' ltac:(by left) Hs).
    + pose proof (proj1 (seek_pass_None _ _ _ _ Hlen) E) as Hno. rewrite IH. split.
      * intros H key' j Hk Hsj. apply elem_of_cons in Hk as [->|Hk]; [by apply Hno|by apply H].
      * intros H key' j Hk. apply H. by right.
Qed.

Lemma seek_sequence_Some lines pattern start eof m i :
  pattern ≠ [] -> seek_sequence lines pattern start eof m = Some i ->
  seek_start lines pattern start eof m <= i /\ i + length pattern <= length lines /\
  exists key, key ∈ passes /\ block_matches key lines pattern i.
Proof.
  intros Hne. unfold seek_sequence. rewrite (proj2 (is_empty_false pattern)) by done.
  case_match eqn:E; [done|]. bool_prop. rewrite seek_passes_Some by lia.
  intros (k & key & Hk & Hs & Hb & _). split_and!; [done|by apply Hb|].
  exists key. split; [by eapply list_elem_of_lookup_2|done].
Qed.

Lemma seek_sequence_bounds lines pattern start eof m i :
  start <= length lines -> seek_sequence lines pattern start eof m = Some i ->
  i + length pattern <= length lines.
Proof.
  intros Hs H. destruct pattern as [|p pattern].
  - unfold seek_sequence in H. simpl in *. injection H as <-. lia.
  - apply seek_sequence_Some in H; [|done]. apply H.
Qed.

Lemma seek_sequence_after lines pattern start eof i :
  seek_sequence lines pattern start eof PreserveLineEndings = Some i -> start <= i.
Proof.
  intros H. destruct pattern as [|p pattern].
  - unfold seek_sequence in H. simpl in *. injection H as <-. lia.
  - apply seek_sequence_Some in H as (Hs & _ & _); [|done]. unfold seek_start in Hs.
    destruct (eof && _); lia.
Qed.

(** [seek_sequence] is the specified search: for a pattern that is not empty it
    returns the earliest position, at or after the search start, of the strictest of
    the four comparisons (exact, trailing whitespace ignored, surrounding whitespace
    ignored, typographic punctuation folded) that matches anywhere; the block found
    lies inside the file; and it returns nothing exactly when not even the loosest
    comparison matches at or after the search start. *)
Theorem seek_sequence_spec lines pattern start eof m :
  pattern ≠ [] ->
  let s := seek_start lines pattern start eof m in
  match seek_sequence lines pattern start eof m with
  | Some i =>
      exists k key, passes !! k = Some key /\ s <= i /\ block_matches key lines pattern i /\
        (forall j, s <= j < i -> ~ block_matches key lines pattern j) /\
        (forall k' key' j, k' < k -> passes !! k' = Some key' -> s <= j -> ~ block_matches key' lines pattern j)
  | None => forall j, s <= j -> ~ block_matches normalise lines pattern j
  end.
Proof.
  intros Hne s. unfold seek_sequence. rewrite (proj2 (is_empty_false pattern)) by done.
  destruct (length lines <? length pattern)%nat eqn:E; bool_prop.
  { intros j _ [Hle _]. lia. }
  fold s. destruct (seek_passes passes lines pattern s) as [i|] eqn:Ep.
  - by apply seek_passes_Some.
  - intros j Hj. eapply seek_passes_None; [|done| |done]; [lia|]. by apply (list_elem_of_lookup_2 _ 3).
Qed.

(** An end-of-file block is searched at the end of the file only: whatever
    [start] is, a search with [eof] set that fails at the last possible position
    finds nothing, although the block may occur earlier. *)
Theorem seek_eof_no_fallback lines pattern start m i :
  pattern ≠ [] -> seek_sequence lines pattern start true m = Some i ->
  i = length lines - length pattern.
Proof.
  intros Hne H. pose proof H as H'. apply seek_sequence_Some in H as (Hs & Hle & _); [|done].
  unfold seek_start in Hs. rewrite (proj2 (Nat.leb_le _ _)) in Hs by lia.
  destruct m; simpl in Hs; lia.
Qed.

Lemma seek_sequence_spec_witness :
  seek_sequence [lit "a"; lit "b "; lit "b"] [lit "b"] 0 false NormalizeToLf = Some 2 /\
  block_matches (fun s => s) [lit "a"; lit "b "; lit "b"] [lit "b"] 2.
Proof.
  split; [reflexivity|].
  pose proof (seek_sequence_spec [lit "a"; lit "b "; lit "b"] [lit "b"] 0 false NormalizeToLf) as H.
  destruct H as (k & key & Hk & _ & Hb & _ & Hlow); [done|].
  destruct k as [|k]; [by injection Hk as <-|].
  exfalso. apply (Hlow 0 (fun s => s) 2); [lia|done|vm_compute; lia|]. split; [simpl; lia|done].
Defined.

Lemma seek_eof_no_fallback_witness :
  seek_sequence [lit "x"; lit "y"; lit "x"] [lit "x"] 0 true NormalizeToLf = Some 2 /\
  seek_sequence [lit "x"; lit "y"] [lit "x"] 0 true NormalizeToLf = None.
Proof.
  split; [|reflexivity].
  destruct (seek_sequence [lit "x"; lit "y"; lit "x"] [lit "x"] 0 true NormalizeToLf) as [i|] eqn:E;
    [|vm_compute in E; discriminate E].
  apply (seek_eof_no_fallback _ [lit "x"]) in E; [|done]. by rewrite E.
Defined.
