(* ===== verification/TextFile.v ===== *)
(** * Source files with their line endings

    Models [workx-rs/apply-patch/src/text_file.rs]: splitting a file into lines that
    remember their endings, rebuilding it from replacements, and printing it. *)
From S2P Require Import Prelude.

Set Default Goal Selector "!".

(** [(start_index, old_len, new_lines)]. *)
Record Replacement := { r_start : nat; r_old_len : nat; r_new : list rstr }.

Inductive LineEnding := Lf | CrLf | Cr.

Definition ending_str (self : LineEnding) : rstr :=
  match self with Lf => [NL] | CrLf => [CR; NL] | Cr => [CR] end.

Record SourceLine := { sl_text : rstr; sl_ending : option LineEnding }.

Record SourceFile := { sf_lines : list SourceLine; sf_preferred_ending : LineEnding }.

(** The scanning loop: [line] is [contents[line_start..cursor]]. *)
Fixpoint parse_loop (contents line : rstr) (preferred : option LineEnding) (lines : list SourceLine)
    : list SourceLine * option LineEnding :=
  let emit e := lines ++ [{| sl_text := line; sl_ending := Some e |}] in
  let prefer e := match preferred with None => Some e | Some p => Some p end in
  match contents with
  | [] => (if is_empty line then lines else lines ++ [{| sl_text := line; sl_ending := None |}], preferred)
  | c :: rest =>
      if (c =? CR)%Z then
        match rest with
        | d :: rest' =>
            if (d =? NL)%Z then parse_loop rest' [] (prefer CrLf) (emit CrLf)
            else parse_loop rest [] (prefer Cr) (emit Cr)
        | [] => parse_loop rest [] (prefer Cr) (emit Cr)
        end
      else if (c =? NL)%Z then parse_loop rest [] (prefer Lf) (emit Lf)
      else parse_loop rest (line ++ [c]) preferred lines
  end.

(** [SourceFile::parse]. *)
Definition source_parse (contents : rstr) : SourceFile :=
  let '(lines, preferred) := parse_loop contents [] None [] in
  {| sf_lines := lines; sf_preferred_ending := default Lf preferred |}.

Definition line_texts (self : SourceFile) : list rstr := map sl_text (sf_lines self).

(** The loop of [SourceFile::apply_replacements]: what is left of the iterator over
    the source lines, the index it stands at, and the lines produced. A replacement
    that starts before that index underflows. *)
Fixpoint replace_loop (pref : LineEnding) (replacements : list Replacement) (source : list SourceLine)
    (source_index : nat) (new : list SourceLine) : res unit (list SourceLine) :=
  match replacements with
  | [] => Ok (new ++ source)
  | r :: replacements' =>
      if (r_start r <? source_index)%nat then Panic
      else
        let skip := r_start r - source_index in
        replace_loop pref replacements' (drop (r_old_len r) (drop skip source)) (r_start r + r_old_len r)
          (new ++ take skip source
             ++ map (fun text => {| sl_text := text; sl_ending := Some pref |}) (r_new r))
  end.

Definition ensure_ending (pref : LineEnding) (l : SourceLine) : SourceLine :=
  {| sl_text := sl_text l;
     sl_ending := match sl_ending l with None => Some pref | Some e => Some e end |}.

(** [SourceFile::apply_replacements]. *)
Definition source_apply_replacements (self : SourceFile) (replacements : list Replacement)
    : res unit SourceFile :=
  lines ← replace_loop (sf_preferred_ending self) replacements (sf_lines self) 0 [];
  Ok {| sf_lines := map (ensure_ending (sf_preferred_ending self)) lines;
        sf_preferred_ending := sf_preferred_ending self |}.

Definition line_contents (l : SourceLine) : rstr :=
  sl_text l ++ match sl_ending l with Some e => ending_str e | None => [] end.

Definition into_contents (self : SourceFile) : rstr := concat (map line_contents (sf_lines self)).

(** ** Splitting and printing *)

Lemma parse_loop_contents contents line preferred lines :
  concat (map line_contents (parse_loop contents line preferred lines).1) =
  concat (map line_contents lines) ++ line ++ contents.
Proof.
  assert (forall lines x, concat (map line_contents (lines ++ [x])) =
            concat (map line_contents lines) ++ line_contents x) as Hsnoc.
  { intros ls x. rewrite map_app, concat_app. simpl. by rewrite app_nil_r. }
  remember (length contents) as n eqn:Hn. revert contents line preferred lines Hn.
  induction n as [n IH] using lt_wf_ind. intros contents line preferred lines ->.
  destruct contents as [|c rest]; simpl.
  - destruct line as [|x line]; simpl; [by rewrite app_nil_r|]. rewrite Hsnoc.
    unfold line_contents at 2. simpl. by rewrite !app_nil_r.
  - destruct (Z.eqb_spec c CR) as [->|Hcr]; [destruct rest as [|d rest]|].
    + rewrite (IH 0) by (simpl; lia || done). rewrite Hsnoc. simpl. unfold line_contents at 2. simpl.
      by rewrite !app_nil_r.
    + destruct (Z.eqb_spec d NL) as [->|Hnl].
      * rewrite (IH (length rest)) by (simpl; lia || done). rewrite Hsnoc. unfold line_contents at 2. simpl.
        by rewrite <- !app_assoc.
      * rewrite (IH (length (d :: rest))) by (simpl; lia || done). rewrite Hsnoc. unfold line_contents at 2. simpl.
        by rewrite <- !app_assoc.
    + destruct (Z.eqb_spec c NL) as [->|Hnl].
      * rewrite (IH (length rest)) by (simpl; lia || done). rewrite Hsnoc. unfold line_contents at 2. simpl.
        by rewrite <- !app_assoc.
      * rewrite (IH (length rest)) by (simpl; lia || done). by rewrite <- !app_assoc.
Qed.

Definition line_ok (l : SourceLine) : Prop := NL ∉ sl_text l /\ CR ∉ sl_text l.

Lemma parse_loop_lines_ok contents line preferred lines :
  NL ∉ line -> CR ∉ line -> Forall line_ok lines ->
  Forall line_ok (parse_loop contents line preferred lines).1.
Proof.
  assert (forall lines t e, Forall line_ok lines -> NL ∉ t -> CR ∉ t ->
            Forall line_ok (lines ++ [{| sl_text := t; sl_ending := e |}])) as Hsnoc.
  { intros ls t e Hls H1 H2. apply Forall_app. split; [done|]. by repeat constructor. }
  assert (NL ∉ ([] : rstr) /\ CR ∉ ([] : rstr)) as [Hn0 Hc0] by (split; apply not_elem_of_nil).
  remember (length contents) as n eqn:Hn. revert contents line preferred lines Hn.
  induction n as [n IH] using lt_wf_ind. intros contents line preferred lines -> Hl Hc Hls.
  destruct contents as [|c rest]; simpl.
  - destruct (is_empty line); [done|]. by apply Hsnoc.
  - destruct (Z.eqb_spec c CR) as [->|Hcr]; [destruct rest as [|d rest]; [|destruct (Z.eqb_spec d NL) as [->|Hnl]]|].
    + eapply IH; [|done|done|done|by apply Hsnoc]. simpl; lia.
    + eapply IH; [|done|done|done|by apply Hsnoc]. simpl; lia.
    + eapply IH; [|done|done|done|by apply Hsnoc]. simpl; lia.
    + destruct (Z.eqb_spec c NL) as [->|Hnl].
      * eapply IH; [|done|done|done|by apply Hsnoc]. simpl; lia.
      * eapply IH; [|done| | |done]; [simpl; lia|..]; rewrite not_elem_of_app, list_elem_of_singleton; auto.
Qed.

(** All lines but the last one have an ending. *)
Lemma parse_loop_endings contents line preferred lines :
  Forall (fun l => is_Some (sl_ending l)) lines ->
  Forall (fun l => is_Some (sl_ending l)) (removelast (parse_loop contents line preferred lines).1).
Proof.
  remember (length contents) as n eqn:Hn. revert contents line preferred lines Hn.
  induction n as [n IH] using lt_wf_ind. intros contents line preferred lines -> Hls.
  assert (forall t e, Forall (fun l => is_Some (sl_ending l)) (lines ++ [{| sl_text := t; sl_ending := Some e |}])) as Hsnoc.
  { intros t e. apply Forall_app. split; [done|]. repeat constructor. by eexists. }
  destruct contents as [|c rest]; simpl.
  - destruct (is_empty line).
    + destruct lines as [|x lines _] using rev_ind; [done|]. rewrite removelast_last.
      by apply Forall_app in Hls as [? _].
    + by rewrite removelast_last.
  - destruct (c =? CR)%Z; [destruct rest as [|d rest]; [|destruct (d =? NL)%Z]|destruct (c =? NL)%Z].
    all: eapply IH; [|done|first [apply Hsnoc|done]]; simpl; lia.
Qed.

(** Reading and printing round-trip: splitting a file into lines and writing
    them back, with nothing replaced, gives the file byte for byte, whatever mix of
    LF, CRLF and CR it uses; no line text contains a line break, and only the last
    line can lack an ending. *)
Theorem source_parse_roundtrip contents :
  into_contents (source_parse contents) = contents /\
  Forall line_ok (sf_lines (source_parse contents)) /\
  Forall (fun l => is_Some (sl_ending l)) (removelast (sf_lines (source_parse contents))).
Proof.
  unfold source_parse, into_contents.
  pose proof (parse_loop_contents contents [] None []) as H1.
  pose proof (parse_loop_lines_ok contents [] None []) as H2.
  pose proof (parse_loop_endings contents [] None []) as H3.
  destruct (parse_loop contents [] None []) as [lines pref]. simpl in *.
  split_and!; [done|apply H2|apply H3]; try apply not_elem_of_nil; constructor.
Qed.
