(* ===== verification/FileUpdate.v ===== *)
(** * Updating a file from the chunks of a patch

    Models [workx-rs/apply-patch/src/file_update.rs]: where each chunk goes
    ([compute_replacements]), the line-based rewriting of the LF mode
    ([apply_replacements]) and the two modes of [derive_new_contents_from_chunks]
    after the file has been read. Subtractions and slices that could go out of
    range are explicit and panic. *)
From S2P Require Import Prelude PatchParser PatchRoundTrip SeekSequence TextFile.

Set Default Goal Selector "!".

(** [ApplyPatchError::ComputeReplacements]. *)
Inductive UpdateError := ComputeReplacements (message : rstr).

(** ** [compute_replacements] *)

Definition opt_last_empty (l : list rstr) : bool := last_is_some_and is_empty l.

(** [&s[from..to]]. *)
Definition slice {A} (from to : nat) (s : list A) : list A := take (to - from) (drop from s).

(** The loop over the context lines of a chunk found at [start_idx]. *)
Fixpoint context_loop (start_idx pattern_len : nat) (new_slice : list rstr) (context : list (nat * nat))
    (old_start new_start : nat) (replacements : list Replacement)
    : res UpdateError (nat * nat * list Replacement) :=
  match context with
  | [] => Ok (old_start, new_start, replacements)
  | (old_context, new_context) :: context' =>
      if (pattern_len <=? old_context)%nat || (length new_slice <=? new_context)%nat
      then Ok (old_start, new_start, replacements)
      else
        replacements ←
          (if negb (old_start =? old_context)%nat || negb (new_start =? new_context)%nat then
             if (old_context <? old_start)%nat || (new_context <? new_start)%nat then Panic
             else Ok (replacements ++ [{| r_start := start_idx + old_start;
                                          r_old_len := old_context - old_start;
                                          r_new := slice new_start new_context new_slice |}])
           else Ok replacements);
        context_loop start_idx pattern_len new_slice context' (S old_context) (S new_context) replacements
  end.

(** The replacements of a chunk whose [pattern] was found at [start_idx], in the
    mode that keeps line endings. *)
Definition preserve_replacements (start_idx pattern_len : nat) (new_slice : list rstr)
    (context : list (nat * nat)) (replacements : list Replacement) : res UpdateError (list Replacement) :=
  '(old_start, new_start, replacements) ←
    context_loop start_idx pattern_len new_slice context 0 0 replacements;
  if negb (old_start =? pattern_len)%nat || negb (new_start =? length new_slice)%nat then
    if (pattern_len <? old_start)%nat || (length new_slice <? new_start)%nat then Panic
    else Ok (replacements ++ [{| r_start := start_idx + old_start;
                                 r_old_len := pattern_len - old_start;
                                 r_new := drop new_start new_slice |}])
  else Ok replacements.

Definition insertion_idx (original_lines : list rstr) (m : ApplyPatchFileUpdateMode) : nat :=
  match m with
  | NormalizeToLf =>
      if opt_last_empty original_lines then length original_lines - 1 else length original_lines
  | PreserveLineEndings => length original_lines
  end.

(** The pattern, the new lines and where the pattern was found, with the retry that
    drops a trailing empty line. *)
Definition locate_chunk (original_lines : list rstr) (chunk : UpdateFileChunk) (line_index : nat)
    (m : ApplyPatchFileUpdateMode) : list rstr * list rstr * option nat :=
  let pattern := old_lines chunk in
  let new_slice := new_lines chunk in
  match seek_sequence original_lines pattern line_index (is_end_of_file chunk) m with
  | Some i => (pattern, new_slice, Some i)
  | None =>
      if opt_last_empty pattern then
        let pattern := removelast pattern in
        let new_slice := if opt_last_empty new_slice then removelast new_slice else new_slice in
        (pattern, new_slice, seek_sequence original_lines pattern line_index (is_end_of_file chunk) m)
      else (pattern, new_slice, None)
  end.

(** Moves past the change context of a chunk. *)
Definition seek_context (original_lines : list rstr) (path : rstr) (chunk : UpdateFileChunk)
    (line_index : nat) (m : ApplyPatchFileUpdateMode) : res UpdateError nat :=
  match change_context chunk with
  | None => Ok line_index
  | Some ctx_line =>
      match seek_sequence original_lines [ctx_line] line_index false m with
      | Some idx => Ok (idx + 1)
      | None => Err (ComputeReplacements (lit "Failed to find context '" ++ ctx_line ++ lit "' in " ++ path))
      end
  end.

(** The body of the loop over the chunks. *)
Definition chunk_step (original_lines : list rstr) (path : rstr) (m : ApplyPatchFileUpdateMode)
    (state : nat * list Replacement) (chunk : UpdateFileChunk) : res UpdateError (nat * list Replacement) :=
  let '(line_index, replacements) := state in
  line_index ← seek_context original_lines path chunk line_index m;
  if is_empty (old_lines chunk) then
    Ok (line_index, replacements ++ [{| r_start := insertion_idx original_lines m; r_old_len := 0;
                                        r_new := new_lines chunk |}])
  else
    match locate_chunk original_lines chunk line_index m with
    | (pattern, new_slice, Some start_idx) =>
        replacements ←
          match m with
          | NormalizeToLf =>
              Ok (replacements ++ [{| r_start := start_idx; r_old_len := length pattern; r_new := new_slice |}])
          | PreserveLineEndings =>
              preserve_replacements start_idx (length pattern) new_slice (context_line_indices chunk) replacements
          end;
        Ok (start_idx + length pattern, replacements)
    | (_, _, None) =>
        Err (ComputeReplacements (lit "Failed to find expected lines in " ++ path ++ lit ":" ++ [NL]
                                  ++ join [NL] (old_lines chunk)))
    end.

(** [sort_by_key]: stable. *)
Fixpoint insert_by_start (r : Replacement) (l : list Replacement) : list Replacement :=
  match l with
  | [] => [r]
  | r' :: l' => if (r_start r <=? r_start r')%nat then r :: l else r' :: insert_by_start r l'
  end.

Definition sort_by_start (l : list Replacement) : list Replacement := foldr insert_by_start [] l.

Definition compute_replacements (original_lines : list rstr) (path : rstr) (chunks : list UpdateFileChunk)
    (m : ApplyPatchFileUpdateMode) : res UpdateError (list Replacement) :=
  '(_, replacements) ← fold_res (chunk_step original_lines path m) (0, []) chunks;
  Ok (sort_by_start replacements).

(** ** [apply_replacements] *)

(** [Vec::remove] under its guard, repeated. *)
Fixpoint remove_lines (n start_idx : nat) (lines : list rstr) : list rstr :=
  match n with
  | 0 => lines
  | S n' =>
      remove_lines n' start_idx
        (if (start_idx <? length lines)%nat then take start_idx lines ++ drop (S start_idx) lines else lines)
  end.

(** [Vec::insert], which panics past the end, of the new lines one after the other. *)
Fixpoint insert_lines (idx : nat) (new : list rstr) (lines : list rstr) : res UpdateError (list rstr) :=
  match new with
  | [] => Ok lines
  | x :: new' =>
      if (length lines <? idx)%nat then Panic
      else insert_lines (S idx) new' (take idx lines ++ x :: drop idx lines)
  end.

Definition apply_replacement (lines : list rstr) (r : Replacement) : res UpdateError (list rstr) :=
  insert_lines (r_start r) (r_new r) (remove_lines (r_old_len r) (r_start r) lines).

Definition apply_replacements (lines : list rstr) (replacements : list Replacement)
    : res UpdateError (list rstr) :=
  fold_res apply_replacement lines (reverse replacements).

(** ** [derive_new_contents_from_chunks], once the file is read *)

(** The lines of the LF mode. *)
Definition lf_lines (contents : rstr) : list rstr :=
  let lines := split_char NL contents in
  if opt_last_empty lines then removelast lines else lines.

Definition lf_contents (new_lines : list rstr) : rstr :=
  join [NL] (if negb (opt_last_empty new_lines) then new_lines ++ [[]] else new_lines).

Definition derive_new_contents (original_contents path_text : rstr) (chunks : list UpdateFileChunk)
    (m : ApplyPatchFileUpdateMode) : res UpdateError rstr :=
  match m with
  | NormalizeToLf =>
      let original_lines := lf_lines original_contents in
      replacements ← compute_replacements original_lines path_text chunks m;
      new_lines ← apply_replacements original_lines replacements;
      Ok (lf_contents new_lines)
  | PreserveLineEndings =>
      let source_file := source_parse original_contents in
      replacements ← compute_replacements (line_texts source_file) path_text chunks m;
      match source_apply_replacements source_file replacements with
      | Ok source_file => Ok (into_contents source_file)
      | _ => Panic
      end
  end.

(** ** Replacements as an edit script *)

Definition r_end (r : Replacement) : nat := r_start r + r_old_len r.

(** [a] ends before [b] starts. *)
Definition before (a b : Replacement) : Prop := r_end a <= r_start b.

(** Replacements in source order, apart from each other, inside [[lo, hi]]. *)
Definition segment (lo hi : nat) (rs : list Replacement) : Prop :=
  lo <= hi /\ StronglySorted before rs /\ Forall (fun r => lo <= r_start r /\ r_end r <= hi) rs.

Lemma segment_nil lo hi : lo <= hi -> segment lo hi [].
Proof. intros H. split_and!; [done|constructor|constructor]. Qed.

Lemma segment_app lo mid hi a b : segment lo mid a -> segment mid hi b -> segment lo hi (a ++ b).
Proof.
  intros (Hle1 & Hs1 & Hb1) (Hle2 & Hs2 & Hb2). rewrite Forall_forall in Hb1, Hb2. split_and!; [lia| |].
  - apply StronglySorted_app_2; [|done|done]. intros x y Hx Hy. unfold before.
    destruct (Hb1 x Hx), (Hb2 y Hy). lia.
  - apply Forall_app. split; apply Forall_forall; intros r Hr.
    + destruct (Hb1 r Hr). lia.
    + destruct (Hb2 r Hr). lia.
Qed.

Lemma segment_one lo hi r : lo <= r_start r -> r_end r <= hi -> segment lo hi [r].
Proof.
  intros H1 H2. unfold r_end in *. split_and!; [lia|repeat constructor|]. by repeat constructor.
Qed.

Lemma segment_cons lo hi r rs :
  segment lo hi (r :: rs) <-> lo <= r_start r /\ segment (r_end r) hi rs.
Proof.
  unfold segment. split.
  - intros (Hle & Hs & Hb). apply StronglySorted_inv in Hs as [Hs Hr].
    apply Forall_cons in Hb as [[Hb1 Hb2] Hb]. split_and!; [done|done|done|].
    rewrite Forall_forall in *. intros x Hx. split; [by apply Hr|by apply Hb].
  - intros (H1 & Hle & Hs & Hb). unfold r_end in *. split_and!; [lia| |].
    + constructor; [done|]. rewrite Forall_forall in *. intros x Hx. by apply Hb.
    + constructor; [lia|]. rewrite Forall_forall in *. intros x Hx. destruct (Hb x Hx). lia.
Qed.

Lemma segment_weaken lo lo' hi rs : segment lo hi rs -> lo' <= lo -> segment lo' hi rs.
Proof.
  intros (Hle & Hs & Hb) Hlo. split_and!; [lia|done|].
  eapply Forall_impl; [exact Hb|]. simpl. intros x [? ?]. lia.
Qed.

(** What the replacements mean: [source] is the file from line [idx] on. *)
Fixpoint splice {A} (mk : rstr -> A) (idx : nat) (rs : list Replacement) (source : list A) : list A :=
  match rs with
  | [] => source
  | r :: rs' =>
      take (r_start r - idx) source ++ map mk (r_new r) ++
      splice mk (r_end r) rs' (drop (r_end r - idx) source)
  end.

Lemma splice_map {A B} (f : A -> B) (mk : rstr -> A) idx rs source :
  map f (splice mk idx rs source) = splice (fun t => f (mk t)) idx rs (map f source).
Proof.
  revert idx source. induction rs as [|r rs IH]; intros idx source; simpl; [done|].
  by rewrite !map_app, map_map, IH, firstn_map, skipn_map.
Qed.

(** Lines before the first replacement are kept. *)
Lemma splice_skip {A} (mk : rstr -> A) idx n hi rs source :
  segment (idx + n) hi rs -> splice mk idx rs source = take n source ++ splice mk (idx + n) rs (drop n source).
Proof.
  intros H. destruct rs as [|r rs]; simpl; [by rewrite take_drop|].
  apply segment_cons in H as [Hlo _]. unfold r_end.
  rewrite drop_drop. replace (n + (r_start r + r_old_len r - (idx + n))) with (r_start r + r_old_len r - idx) by lia.
  rewrite (app_assoc (take _ _) (take _ _)). f_equal. rewrite take_take_drop. f_equal. lia.
Qed.

(** Two runs of replacements on either side of [mid] act independently. *)
Lemma splice_app {A} (mk : rstr -> A) idx mid hi a b source :
  segment idx mid a -> segment mid hi b -> mid - idx <= length source ->
  splice mk idx (a ++ b) source =
    splice mk idx a (take (mid - idx) source) ++ splice mk mid b (drop (mid - idx) source).
Proof.
  revert idx source. induction a as [|r a IH]; intros idx source Ha Hb Hlen; simpl.
  - destruct Ha as (Hle & _). rewrite (splice_skip mk idx (mid - idx) hi);
      replace (idx + (mid - idx)) with mid by lia; done.
  - apply segment_cons in Ha as [Hlo Ha]. pose proof Ha as (Hle & _ & _). unfold r_end in *.
    rewrite IH by (rewrite ?length_drop; done || lia).
    rewrite drop_drop. replace (r_start r + r_old_len r - idx + (mid - (r_start r + r_old_len r))) with (mid - idx) by lia.
    rewrite take_take, Nat.min_l by lia. rewrite <- !app_assoc. do 4 f_equal.
    rewrite skipn_firstn_comm. f_equal. lia.
Qed.

(** *** The two rewriters *)

Lemma replace_loop_splice pref rs source idx new hi :
  segment idx hi rs ->
  replace_loop pref rs source idx new =
    Ok (new ++ splice (fun t => {| sl_text := t; sl_ending := Some pref |}) idx rs source).
Proof.
  revert source idx new. induction rs as [|r rs IH]; intros source idx new Hs; simpl; [done|].
  apply segment_cons in Hs as [Hlo Hs].
  rewrite (proj2 (Nat.ltb_ge _ _)) by done. rewrite IH by done. unfold r_end.
  rewrite drop_drop. replace (r_start r - idx + r_old_len r) with (r_start r + r_old_len r - idx) by lia.
  by rewrite <- !app_assoc.
Qed.

Lemma remove_lines_take n s lines :
  s + n <= length lines -> remove_lines n s lines = take s lines ++ drop (s + n) lines.
Proof.
  revert lines. induction n as [|n IH]; intros lines Hn; simpl.
  - by rewrite Nat.add_0_r, take_drop.
  - rewrite (proj2 (Nat.ltb_lt _ _)) by lia.
    rewrite IH by (rewrite length_app, length_take, length_drop; lia).
    rewrite take_app_le by (rewrite length_take; lia). rewrite take_take, Nat.min_id. f_equal.
    rewrite drop_app_ge by (rewrite length_take; lia). rewrite length_take, drop_drop.
    f_equal. lia.
Qed.

Lemma insert_lines_ok idx new lines :
  idx <= length lines -> insert_lines idx new lines = Ok (take idx lines ++ new ++ drop idx lines).
Proof.
  revert idx lines. induction new as [|x new IH]; intros idx lines Hi; simpl; [by rewrite take_drop|].
  rewrite (proj2 (Nat.ltb_ge _ _)) by done.
  rewrite IH by (rewrite length_app, length_take; simpl; rewrite length_drop; lia).
  f_equal. assert (length (take idx lines) = idx) as Hl by (rewrite length_take; lia).
  rewrite take_app_ge by lia. rewrite drop_app_ge by lia.
  replace (S idx - length (take idx lines)) with 1 by lia. simpl. by rewrite <- !app_assoc.
Qed.

Lemma apply_replacements_cons r rs lines :
  apply_replacements lines (r :: rs) = lines' ← apply_replacements lines rs; apply_replacement lines' r.
Proof.
  unfold apply_replacements. rewrite reverse_cons.
  generalize (reverse rs). intros l. revert lines. induction l as [|x l IH]; intros lines; simpl.
  - by destruct (apply_replacement lines r).
  - destruct (apply_replacement lines x); simpl; [apply IH|done..].
Qed.

(** The LF rewriter performs the same edits. *)
Lemma apply_replacements_splice rs lines idx :
  segment idx (length lines) rs ->
  apply_replacements lines rs = Ok (take idx lines ++ splice (fun t => t) idx rs (drop idx lines)).
Proof.
  revert idx. induction rs as [|r rs IH]; intros idx Hs.
  - simpl. by rewrite take_drop.
  - apply segment_cons in Hs as [Hlo Hs]. pose proof Hs as (Hle & _ & _).
    rewrite apply_replacements_cons, (IH (r_end r)) by done. cbn [mbind res_bind].
    set (X := splice _ _ rs _). unfold apply_replacement, r_end in *.
    assert (length (take (r_start r + r_old_len r) lines) = r_start r + r_old_len r) as Hl
      by (rewrite length_take; lia).
    rewrite remove_lines_take by (rewrite length_app; lia).
    rewrite drop_app_ge by lia. rewrite Hl, Nat.sub_diag, drop_0.
    rewrite take_app_le by lia. rewrite take_take, Nat.min_l by lia.
    rewrite insert_lines_ok by (rewrite length_app, length_take; lia). f_equal.
    assert (length (take (r_start r) lines) = r_start r) as Hl' by (rewrite length_take; lia).
    rewrite take_app_le, take_take, Nat.min_id by lia. rewrite drop_app_ge, Hl', Nat.sub_diag, drop_0 by lia.
    simpl. rewrite map_id. rewrite drop_drop. unfold r_end.
    replace (idx + (r_start r + r_old_len r - idx)) with (r_start r + r_old_len r) by lia.
    rewrite (app_assoc (take _ _) (take _ _)). f_equal. rewrite take_take_drop. f_equal. lia.
Qed.

(** *** Chunks become replacements that do not overlap *)

Lemma context_loop_ok s plen new ctx os ns reps :
  StronglySorted index_lt ctx -> Forall (fun ij => os <= ij.1 /\ ns <= ij.2) ctx ->
  os <= plen -> ns <= length new ->
  exists os' ns' nr, context_loop s plen new ctx os ns reps = Ok (os', ns', reps ++ nr) /\
    os' <= plen /\ ns' <= length new /\ segment (s + os) (s + os') nr.
Proof.
  revert os ns reps. induction ctx as [|[oc nc] ctx IH]; intros os ns reps Hsort Hlo Ho Hn; cbn [context_loop].
  - exists os, ns, []. rewrite app_nil_r. split_and!; [done..|]. by apply segment_nil.
  - destruct (_ || _) eqn:E.
    { exists os, ns, []. rewrite app_nil_r. split_and!; [done..|]. by apply segment_nil. }
    bool_prop. apply StronglySorted_inv in Hsort as [Hsort Hhd].
    apply Forall_cons in Hlo as [[Hoc Hnc] Hlo]. simpl in Hoc, Hnc.
    assert (Forall (fun ij => S oc <= ij.1 /\ S nc <= ij.2) ctx) as Hlo'.
    { rewrite Forall_forall in *. intros ij Hij. destruct (Hhd ij Hij). simpl in *. lia. }
    destruct (negb (os =? oc)%nat || negb (ns =? nc)%nat) eqn:Epush.
    + rewrite (proj2 (Nat.ltb_ge oc os)), (proj2 (Nat.ltb_ge nc ns)) by done.
      cbn [orb mbind res_bind].
      destruct (IH (S oc) (S nc) (reps ++ [{| r_start := s + os; r_old_len := oc - os; r_new := slice ns nc new |}]))
        as (os' & ns' & nr & -> & H1 & H2 & H3); [done|done|lia|lia|].
      exists os', ns'. eexists. rewrite <- app_assoc. split_and!; [done..|].
      apply (segment_app _ (s + oc)); [apply segment_one; unfold r_end; simpl; lia|].
      apply (segment_weaken (s + S oc)); [done|lia].
    + cbn [mbind res_bind].
      destruct (IH (S oc) (S nc) reps) as (os' & ns' & nr & -> & H1 & H2 & H3); [done|done|lia|lia|].
      exists os', ns', nr. split_and!; [done..|]. apply (segment_weaken (s + S oc)); [done|lia].
Qed.

Lemma preserve_replacements_ok s plen new ctx reps :
  StronglySorted index_lt ctx ->
  exists nr, preserve_replacements s plen new ctx reps = Ok (reps ++ nr) /\ segment s (s + plen) nr.
Proof.
  intros Hsort. unfold preserve_replacements.
  destruct (context_loop_ok s plen new ctx 0 0 reps) as (os & ns & nr & -> & H1 & H2 & H3);
    [done|apply Forall_forall; lia|lia|lia|]. cbn [mbind res_bind]. rewrite Nat.add_0_r in H3.
  case_match eqn:E.
  - rewrite (proj2 (Nat.ltb_ge plen os)), (proj2 (Nat.ltb_ge (length new) ns)) by done. cbn [orb].
    eexists. rewrite <- app_assoc. split; [done|].
    apply (segment_app _ (s + os)); [done|]. apply segment_one; unfold r_end; simpl; lia.
  - exists nr. split; [done|]. bool_prop. by subst.
Qed.

(** Replacements in the order they are produced: an insertion at the end of the file
    may be followed by anything, the others only by later ones. *)
Definition produced (len : nat) (a b : Replacement) : Prop :=
  before a b \/ (r_old_len a = 0 /\ r_start a = len).

Definition produced_ok (len line_index : nat) (rs : list Replacement) : Prop :=
  line_index <= len /\ StronglySorted (produced len) rs /\
  Forall (fun r => r_end r <= len /\ (r_end r <= line_index \/ (r_old_len r = 0 /\ r_start r = len))) rs.

Lemma produced_ok_advance len i j rs : produced_ok len i rs -> i <= j <= len -> produced_ok len j rs.
Proof.
  intros (H1 & H2 & H3) Hij. split_and!; [lia|done|]. eapply Forall_impl; [exact H3|].
  simpl. intros r [? [?|?]]; split; auto. left. lia.
Qed.

Lemma produced_ok_segment len i j rs nr :
  produced_ok len i rs -> segment i j nr -> j <= len -> produced_ok len j (rs ++ nr).
Proof.
  intros (H1 & H2 & H3) (Hs1 & Hs2 & Hs3) Hj. rewrite Forall_forall in H3, Hs3. split_and!; [done| |].
  - apply StronglySorted_app_2; [| done|].
    + intros x y Hx Hy. destruct (H3 x Hx) as [_ [Hxi|Hxi]]; [left|by right].
      destruct (Hs3 y Hy). unfold before. lia.
    + clear -Hs2. induction Hs2 as [|x l Hl IH Hx]; constructor; [done|].
      eapply Forall_impl; [exact Hx|]. intros y Hy. by left.
  - apply Forall_forall. intros r Hr. apply elem_of_app in Hr as [Hr|Hr].
    + destruct (H3 r Hr) as [? [?|?]]; split; auto. left. lia.
    + destruct (Hs3 r Hr). lia.
Qed.

Lemma produced_ok_insertion len i rs new :
  produced_ok len i rs -> produced_ok len i (rs ++ [{| r_start := len; r_old_len := 0; r_new := new |}]).
Proof.
  intros (H1 & H2 & H3). rewrite Forall_forall in H3. split_and!; [done| |].
  - apply StronglySorted_app_2; [|done|repeat constructor].
    intros x y Hx Hy. apply list_elem_of_singleton in Hy as ->. left. unfold before. simpl. apply H3, Hx.
  - apply Forall_app. split; [by apply Forall_forall|].
    apply Forall_singleton. unfold r_end. simpl. split; [lia|by right].
Qed.

Lemma insert_by_start_segment len r rs :
  segment 0 len rs -> r_end r <= len -> Forall (produced len r) rs -> segment 0 len (insert_by_start r rs).
Proof.
  intros Hs0 Hr Hp0.
  assert (forall lo, lo <= r_start r -> segment lo len rs -> Forall (produced len r) rs ->
            segment lo len (insert_by_start r rs)) as Hgen; [|apply Hgen; [lia|done|done]].
  clear Hs0 Hp0.
  induction rs as [|x rs IH]; intros lo Hlo Hs Hp; simpl.
  - by apply segment_one.
  - apply Forall_cons in Hp as [Hx Hp]. case_match eqn:E; bool_prop.
    + apply segment_cons. split; [done|]. apply segment_cons in Hs as [Hlx Hs]. apply segment_cons.
      split; [|done]. unfold produced, before, r_end in *. lia.
    + apply segment_cons in Hs as [Hlx Hs]. apply segment_cons. split; [done|].
      apply IH; [|done|done]. pose proof Hs as (Hle & _). unfold produced, before, r_end in *. lia.
Qed.

Lemma insert_by_start_Forall (P : Replacement -> Prop) r rs :
  P r -> Forall P rs -> Forall P (insert_by_start r rs).
Proof.
  intros Hr. induction 1 as [|y l' Hy Hl' IH]; simpl; [by constructor|]. case_match; by repeat constructor.
Qed.

Lemma sort_by_start_Forall (P : Replacement -> Prop) rs : Forall P rs -> Forall P (sort_by_start rs).
Proof. induction 1 as [|x l Hx Hl IH]; simpl; [constructor|]. by apply insert_by_start_Forall. Qed.

Lemma sort_by_start_sorted rs :
  StronglySorted (fun a b => r_start a <= r_start b) (sort_by_start rs).
Proof.
  induction rs as [|r rs IH]; simpl; [constructor|]. revert IH. generalize (sort_by_start rs) as l.
  induction 1 as [|x l Hl IH Hx]; simpl; [by repeat constructor|]. case_match eqn:E; bool_prop.
  - constructor; [by constructor|]. constructor; [done|].
    eapply Forall_impl; [exact Hx|]. simpl. intros y Hy. lia.
  - constructor; [done|]. apply insert_by_start_Forall; [lia|done].
Qed.

(** The stable sort puts them in source order. *)
Lemma sort_by_start_segment len i rs : produced_ok len i rs -> segment 0 len (sort_by_start rs).
Proof.
  intros (_ & Hs & Hb). induction Hs as [|r rs Hs IH Hr]; simpl; [by apply segment_nil; lia|].
  apply Forall_cons in Hb as [[Hb _] Hb'].
  apply insert_by_start_segment; [by apply IH|done|by apply sort_by_start_Forall].
Qed.

Lemma seek_context_bounds lines path chunk li m li' :
  li <= length lines -> seek_context lines path chunk li m = Ok li' -> li' <= length lines.
Proof.
  intros Hli. unfold seek_context. intros H. repeat case_match; simplify_eq; [|done].
  match goal with Hs : seek_sequence _ _ _ _ _ = Some _ |- _ => apply seek_sequence_bounds in Hs; simpl in Hs; lia end.
Qed.

Lemma seek_context_after lines path chunk li li' :
  seek_context lines path chunk li PreserveLineEndings = Ok li' -> li <= li'.
Proof.
  unfold seek_context. intros H. repeat case_match; simplify_eq; [|lia].
  match goal with Hs : seek_sequence _ _ _ _ _ = Some _ |- _ => apply seek_sequence_after in Hs; lia end.
Qed.

Lemma seek_context_no_panic lines path chunk li m : seek_context lines path chunk li m ≠ Panic.
Proof. unfold seek_context. by repeat case_match. Qed.

Lemma locate_chunk_seek lines chunk li m pattern new i :
  locate_chunk lines chunk li m = (pattern, new, Some i) ->
  seek_sequence lines pattern li (is_end_of_file chunk) m = Some i.
Proof. unfold locate_chunk. intros H. repeat case_match; simplify_eq; done. Qed.

Lemma chunk_step_preserve lines path chunk li reps :
  produced_ok (length lines) li reps -> context_ok chunk ->
  match chunk_step lines path PreserveLineEndings (li, reps) chunk with
  | Ok (li', reps') => produced_ok (length lines) li' reps'
  | Err _ => True
  | Panic => False
  end.
Proof.
  intros Hok [Hsort _]. unfold chunk_step. pose proof Hok as (Hli & _).
  destruct (seek_context _ _ _ _ _) as [li1|e|] eqn:Ec; [|done|by apply seek_context_no_panic in Ec].
  cbn [mbind res_bind].
  assert (produced_ok (length lines) li1 reps) as Hok1.
  { apply (produced_ok_advance _ li); [done|]. split; [by eapply seek_context_after|by eapply seek_context_bounds]. }
  pose proof Hok1 as (Hli1 & _).
  destruct (is_empty (old_lines chunk)); [by apply produced_ok_insertion|].
  destruct (locate_chunk _ _ _ _) as [[pattern new] [i|]] eqn:El; [|done].
  apply locate_chunk_seek in El. pose proof El as Eb.
  apply seek_sequence_after in El. apply seek_sequence_bounds in Eb; [|done].
  destruct (preserve_replacements_ok i (length pattern) new (context_line_indices chunk) reps Hsort) as (nr & -> & Hnr).
  cbn [mbind res_bind]. apply (produced_ok_segment _ i); [|done|done].
  apply (produced_ok_advance _ li1); [done|]. lia.
Qed.

Lemma compute_replacements_preserve lines path chunks :
  Forall context_ok chunks ->
  match compute_replacements lines path chunks PreserveLineEndings with
  | Ok reps => segment 0 (length lines) reps
  | Err _ => True
  | Panic => False
  end.
Proof.
  intros Hall. unfold compute_replacements.
  cut (forall li reps, produced_ok (length lines) li reps ->
    match ('(_, rs) ← fold_res (chunk_step lines path PreserveLineEndings) (li, reps) chunks; Ok (sort_by_start rs)) with
    | Ok reps => segment 0 (length lines) reps | Err _ => True | Panic => False end).
  { intros H. apply H. split_and!; [lia|constructor|constructor]. }
  induction Hall as [|c chunks Hc _ IH]; intros li reps Hok.
  - cbn [fold_res mbind res_bind]. by eapply sort_by_start_segment.
  - cbn [fold_res]. pose proof (chunk_step_preserve lines path c li reps Hok Hc) as Hstep.
    destruct (chunk_step lines path PreserveLineEndings (li, reps) c) as [[li' reps']|e|]; [|done|done].
    cbn [mbind res_bind]. by apply IH.
Qed.

Lemma chunk_step_normalize lines path chunk li reps :
  li <= length lines -> Forall (fun r => r_start r <= length lines) reps ->
  match chunk_step lines path NormalizeToLf (li, reps) chunk with
  | Ok (li', reps') => li' <= length lines /\ Forall (fun r => r_start r <= length lines) reps'
  | Err _ => True
  | Panic => False
  end.
Proof.
  intros Hli Hreps. unfold chunk_step.
  destruct (seek_context _ _ _ _ _) as [li1|e|] eqn:Ec; [|done|by apply seek_context_no_panic in Ec].
  apply seek_context_bounds in Ec; [|done]. cbn [mbind res_bind].
  destruct (is_empty (old_lines chunk)).
  - split; [done|]. apply Forall_app. split; [done|]. apply Forall_singleton. simpl. case_match; lia.
  - destruct (locate_chunk _ _ _ _) as [[pattern new] [i|]] eqn:El; [|done].
    apply locate_chunk_seek, seek_sequence_bounds in El; [|done]. split; [done|].
    apply Forall_app. split; [done|]. apply Forall_singleton. simpl. lia.
Qed.

Lemma compute_replacements_normalize lines path chunks :
  match compute_replacements lines path chunks NormalizeToLf with
  | Ok reps => Forall (fun r => r_start r <= length lines) reps /\
               StronglySorted (fun a b => r_start a <= r_start b) reps
  | Err _ => True
  | Panic => False
  end.
Proof.
  unfold compute_replacements.
  cut (forall li reps, li <= length lines -> Forall (fun r => r_start r <= length lines) reps ->
    match ('(_, rs) ← fold_res (chunk_step lines path NormalizeToLf) (li, reps) chunks; Ok (sort_by_start rs)) with
    | Ok reps => Forall (fun r => r_start r <= length lines) reps /\
                 StronglySorted (fun a b => r_start a <= r_start b) reps
    | Err _ => True | Panic => False end).
  { intros H. apply H; [lia|constructor]. }
  induction chunks as [|c chunks IH]; intros li reps Hli Hreps.
  - cbn [fold_res mbind res_bind]. split; [by apply sort_by_start_Forall|apply sort_by_start_sorted].
  - cbn [fold_res]. pose proof (chunk_step_normalize lines path c li reps Hli Hreps) as Hstep.
    destruct (chunk_step lines path NormalizeToLf (li, reps) c) as [[li' reps']|e|]; [|done|done].
    cbn [mbind res_bind]. apply IH; apply Hstep.
Qed.

Lemma remove_lines_length n s lines : s <= length lines -> s <= length (remove_lines n s lines).
Proof.
  revert lines. induction n as [|n IH]; intros lines H; simpl; [done|]. apply IH.
  case_match; bool_prop; [|done]. rewrite length_app, length_take, length_drop. lia.
Qed.

(** Even replacements that overlap cannot push the LF rewriter out of range. *)
Lemma apply_replacements_no_panic rs lines :
  StronglySorted (fun a b => r_start a <= r_start b) rs ->
  Forall (fun r => r_start r <= length lines) rs ->
  exists lines', apply_replacements lines rs = Ok lines' /\
    forall s, s <= length lines -> Forall (fun r => s <= r_start r) rs -> s <= length lines'.
Proof.
  induction 1 as [|r rs Hs IH Hr]; intros Hb.
  { exists lines. by split; [|intros s Hs _]. }
  apply Forall_cons in Hb as [Hb Hb']. destruct (IH Hb') as (l1 & E1 & Hl1).
  rewrite apply_replacements_cons, E1. cbn [mbind res_bind]. unfold apply_replacement.
  pose proof (remove_lines_length (r_old_len r) (r_start r) l1 (Hl1 _ Hb Hr)) as Hlen.
  rewrite insert_lines_ok by done. eexists. split; [done|].
  intros s Hs' Hall. apply Forall_cons in Hall as [Hsr _].
  rewrite !length_app, length_take. lia.
Qed.

(** Updating a file never goes out of range: for every file and every list of
    parsed chunks, in both modes, [derive_new_contents] returns the new contents or
    reports a chunk it could not place, and no subtraction, slice, insertion or
    removal on the way underflows or overruns. In the mode that keeps line endings
    the replacements are in source order, disjoint and inside the file. *)
Theorem derive_new_contents_safe contents path chunks m :
  Forall context_ok chunks ->
  derive_new_contents contents path chunks m ≠ Panic /\
  forall reps, compute_replacements (line_texts (source_parse contents)) path chunks PreserveLineEndings = Ok reps ->
    segment 0 (length (sf_lines (source_parse contents))) reps.
Proof.
  intros Hall. split.
  - unfold derive_new_contents. destruct m.
    + pose proof (compute_replacements_normalize (lf_lines contents) path chunks) as H.
      destruct (compute_replacements _ _ _ _) as [reps|e|]; [|done|done]. destruct H as [H1 H2]. cbn [mbind res_bind].
      by destruct (apply_replacements_no_panic reps (lf_lines contents) H2 H1) as (l & -> & _).
    + pose proof (compute_replacements_preserve (line_texts (source_parse contents)) path chunks Hall) as H.
      destruct (compute_replacements _ _ _ _) as [reps|e|]; [|done|done]. cbn [mbind res_bind].
      unfold source_apply_replacements. by erewrite replace_loop_splice.
  - intros reps Hr. pose proof (compute_replacements_preserve (line_texts (source_parse contents)) path chunks Hall) as H.
    rewrite Hr in H. unfold line_texts in H. by rewrite length_map in H.
Qed.

(** The two rewriters agree: on replacements in source order that do not
    overlap and lie inside the file, the LF mode's bottom-up removals and insertions
    and the line-ending-preserving single pass produce the same lines, and the
    latter gives every line an ending. *)
Theorem rewriters_agree file reps :
  segment 0 (length (sf_lines file)) reps ->
  exists file', source_apply_replacements file reps = Ok file' /\
    apply_replacements (line_texts file) reps = Ok (line_texts file') /\
    Forall (fun l => is_Some (sl_ending l)) (sf_lines file').
Proof.
  intros Hs. unfold source_apply_replacements. erewrite replace_loop_splice by done. cbn [mbind res_bind].
  eexists. split; [done|]. split.
  - rewrite (apply_replacements_splice reps _ 0) by (unfold line_texts; by rewrite length_map).
    f_equal. unfold line_texts. cbn [sf_lines app]. rewrite drop_0. simpl.
    rewrite map_map. simpl. by rewrite splice_map.
  - cbn [sf_lines]. apply Forall_fmap, Forall_forall. intros l _. simpl. destruct (sl_ending l); by eexists.
Qed.

(** ** What an update means *)

Fixpoint old_of (ops : list LineOp) : list rstr :=
  match ops with
  | [] => []
  | OpAdd _ :: ops' => old_of ops'
  | OpContext l :: ops' | OpDelete l :: ops' => l :: old_of ops'
  end.

Fixpoint new_of (ops : list LineOp) : list rstr :=
  match ops with
  | [] => []
  | OpDelete _ :: ops' => new_of ops'
  | OpContext l :: ops' | OpAdd l :: ops' => l :: new_of ops'
  end.

Fixpoint indices_of (i j : nat) (ops : list LineOp) : list (nat * nat) :=
  match ops with
  | [] => []
  | OpContext _ :: ops' => (i, j) :: indices_of (S i) (S j) ops'
  | OpAdd _ :: ops' => indices_of i (S j) ops'
  | OpDelete _ :: ops' => indices_of (S i) j ops'
  end.

Lemma foldl_apply_op c ops :
  foldl apply_op c ops =
  {| change_context := change_context c; old_lines := old_lines c ++ old_of ops;
     new_lines := new_lines c ++ new_of ops;
     context_line_indices := context_line_indices c
       ++ indices_of (length (old_lines c)) (length (new_lines c)) ops;
     is_end_of_file := is_end_of_file c |}.
Proof.
  revert c. induction ops as [|op ops IH]; intros c; simpl; [by rewrite !app_nil_r; destruct c|].
  rewrite IH. destruct op; simpl; by rewrite ?length_app, <- ?app_assoc, ?Nat.add_1_r.
Qed.

Lemma chunk_of_fields ctx ops eof :
  chunk_of ctx ops eof =
  {| change_context := ctx; old_lines := old_of ops; new_lines := new_of ops;
     context_line_indices := indices_of 0 0 ops; is_end_of_file := eof |}.
Proof. unfold chunk_of. by rewrite foldl_apply_op. Qed.

(** The edit a chunk asks for, on the lines it was matched against: context lines of
    the file stay as they are, removed lines go, added lines are made by [mk]. *)
Fixpoint edit {A} (mk : rstr -> A) (ops : list LineOp) (region : list A) : list A :=
  match ops with
  | [] => region
  | OpContext _ :: ops' => take 1 region ++ edit mk ops' (drop 1 region)
  | OpDelete _ :: ops' => edit mk ops' (drop 1 region)
  | OpAdd l :: ops' => mk l :: edit mk ops' region
  end.

(** The loop over the context lines and the push after it, from any point on. *)
Definition preserve_from (s plen : nat) (new : list rstr) (ctx : list (nat * nat)) (os ns : nat)
    (reps : list Replacement) : res UpdateError (list Replacement) :=
  '(os', ns', reps) ← context_loop s plen new ctx os ns reps;
  if negb (os' =? plen)%nat || negb (ns' =? length new)%nat then
    if (plen <? os')%nat || (length new <? ns')%nat then Panic
    else Ok (reps ++ [{| r_start := s + os'; r_old_len := plen - os'; r_new := drop ns' new |}])
  else Ok reps.

Lemma slice_snoc {A} (from to : nat) (l : list A) x r :
  from <= to -> drop to l = x :: r -> slice from (S to) l = slice from to l ++ [x].
Proof.
  intros Hle Hd. unfold slice. replace (S to - from) with (S (to - from)) by lia.
  apply take_S_r. rewrite lookup_drop. replace (from + (to - from)) with (to + 0) by lia.
  by rewrite <- lookup_drop, Hd.
Qed.

Lemma slice_all {A} (from : nat) (l : list A) : slice from (length l) l = drop from l.
Proof. unfold slice. rewrite take_ge; [done|]. rewrite length_drop. lia. Qed.

Lemma drop_cons_S {A} (n : nat) (l : list A) x r : drop n l = x :: r -> drop (S n) l = r.
Proof. intros H. by rewrite <- Nat.add_1_r, <- drop_drop, H. Qed.

(** From position [(i, j)] of the chunk, with the lines since [(os, ns)] still to be
    replaced, the replacements produced perform the rest of the edit. *)
Definition performs {A} (mk : rstr -> A) s new ops i j os ns (source : list A) : Prop :=
  forall reps, exists nr,
    preserve_from s (i + length (old_of ops)) new (indices_of i j ops) os ns reps = Ok (reps ++ nr) /\
    segment (s + os) (s + (i + length (old_of ops))) nr /\
    splice mk (s + os) nr source = map mk (slice ns j new) ++ edit mk ops (drop (i - os) source).

(** At the end of the chunk what is left is replaced at once. *)
Lemma performs_nil {A} (mk : rstr -> A) s new i os ns (source : list A) :
  os <= i -> ns <= length new -> performs mk s new [] i (length new) os ns source.
Proof.
  intros Ho Hn reps. simpl. rewrite Nat.add_0_r. unfold preserve_from. cbn [context_loop mbind res_bind].
  rewrite slice_all. case_match eqn:E.
  - rewrite (proj2 (Nat.ltb_ge i os)), (proj2 (Nat.ltb_ge (length new) ns)) by done. cbn [orb].
    eexists. split_and!; [done|apply segment_one; unfold r_end; simpl; lia|].
    simpl. rewrite Nat.sub_diag, take_0. simpl. f_equal. f_equal. unfold r_end. simpl. lia.
  - bool_prop. subst. exists []. split_and!; [by rewrite app_nil_r|by apply segment_nil|].
    by rewrite drop_all, Nat.sub_diag, drop_0.
Qed.

(** A context line ends the lines to be replaced and is copied itself. *)
Lemma performs_context {A} (mk : rstr -> A) s new l ops i j os ns (source : list A) :
  j < length new -> os <= i -> ns <= j -> i + S (length (old_of ops)) - os <= length source ->
  (forall source', length (old_of ops) <= length source' -> performs mk s new ops (S i) (S j) (S i) (S j) source') ->
  performs mk s new (OpContext l :: ops) i j os ns source.
Proof.
  intros Hj Ho Hn Hlen IH reps. cbn [old_of indices_of edit length].
  assert (forall source', length (old_of ops) <= length source' -> forall reps, exists nr,
    preserve_from s (S i + length (old_of ops)) new (indices_of (S i) (S j) ops) (S i) (S j) reps = Ok (reps ++ nr) /\
    segment (s + i) (s + (S i + length (old_of ops))) nr /\
    splice mk (s + i) nr (take 1 (drop (i - os) source) ++ source') =
      take 1 (drop (i - os) source) ++ edit mk ops source') as Hrest.
  { intros source' Hl reps'. destruct (IH source' Hl reps') as (nr & H1 & H2 & H3).
    exists nr. split_and!; [done|apply (segment_weaken (s + S i)); [done|lia]|].
    assert (length (take 1 (drop (i - os) source)) = 1) as Hone by (rewrite length_take, length_drop; lia).
    rewrite (splice_skip _ _ 1 (s + S (i + length (old_of ops)))); [|by replace (s + i + 1) with (s + S i) by lia].
    rewrite take_app_length', drop_app_length' by done. replace (s + i + 1) with (s + S i) by lia.
    rewrite H3. unfold slice. by rewrite !Nat.sub_diag, take_0, drop_0. }
  specialize (Hrest (drop 1 (drop (i - os) source)) ltac:(rewrite !length_drop; lia)). rewrite take_drop in Hrest.
  unfold preserve_from. cbn [context_loop].
  rewrite (proj2 (Nat.leb_gt _ _)), (proj2 (Nat.leb_gt _ _)) by lia. cbn [orb].
  replace (i + S (length (old_of ops))) with (S i + length (old_of ops)) by lia.
  destruct (negb (os =? i)%nat || negb (ns =? j)%nat) eqn:E.
  - rewrite (proj2 (Nat.ltb_ge i os)), (proj2 (Nat.ltb_ge j ns)) by done. cbn [orb mbind res_bind].
    destruct (Hrest (reps ++ [{| r_start := s + os; r_old_len := i - os; r_new := slice ns j new |}]))
      as (nr & H1 & H2 & H3).
    eexists. rewrite <- app_assoc in H1. split_and!; [exact H1| |].
    + apply (segment_app _ (s + i)); [apply segment_one; unfold r_end; simpl; lia|done].
    + cbn [app splice r_start r_new]. unfold r_end. cbn [r_start r_old_len]. rewrite Nat.sub_diag, take_0. simpl. f_equal.
      replace (s + os + (i - os)) with (s + i) by lia. by replace (s + i - (s + os)) with (i - os) by lia.
  - bool_prop. subst. cbn [mbind res_bind]. destruct (Hrest reps) as (nr & H1 & H2 & H3).
    exists nr. split_and!; [done..|]. rewrite Nat.sub_diag, drop_0 in *. unfold slice. by rewrite Nat.sub_diag, take_0.
Qed.

Lemma preserve_from_edit {A} (mk : rstr -> A) s new ops i j os ns (source : list A) :
  drop j new = new_of ops -> j + length (new_of ops) = length new ->
  os <= i -> ns <= j -> i + length (old_of ops) - os <= length source ->
  performs mk s new ops i j os ns source.
Proof.
  revert i j os ns source. induction ops as [|[l|l|l] ops IH]; intros i j os ns source Hd Hj Ho Hn Hlen.
  - simpl in *. rewrite Nat.add_0_r in *. subst j. by apply performs_nil.
  - cbn [new_of old_of length] in *. apply performs_context; [lia|done..|].
    intros source' Hl. apply IH; [by eapply drop_cons_S|lia..].
  - cbn [new_of old_of indices_of length] in *. intros reps.
    destruct (IH i (S j) os ns source) with (reps := reps) as (nr & H1 & H2 & H3); [by eapply drop_cons_S|lia|lia|lia|done|].
    exists nr. split_and!; [done..|]. rewrite H3, (slice_snoc ns j new l (new_of ops)), map_app by done.
    by rewrite <- app_assoc.
  - cbn [new_of old_of indices_of edit length] in *. intros reps.
    destruct (IH (S i) j os ns source) with (reps := reps) as (nr & H1 & H2 & H3); [done|lia|lia|lia|lia|].
    exists nr. cbn [old_of indices_of length]. replace (i + S (length (old_of ops))) with (S i + length (old_of ops)) by lia.
    split_and!; [done..|]. rewrite H3. cbn [edit]. f_equal. f_equal. rewrite drop_drop. f_equal. lia.
Qed.

(** Edits at given positions of the file, in order; [source] is the file from line
    [idx] on. *)
Fixpoint apply_placed {A} (mk : rstr -> A) (idx : nat) (placed : list (nat * list LineOp)) (source : list A)
    : list A :=
  match placed with
  | [] => source
  | (s, ops) :: placed' =>
      let n := length (old_of ops) in
      take (s - idx) source ++ edit mk ops (take n (drop (s - idx) source)) ++
      apply_placed mk (s + n) placed' (drop (s + n - idx) source)
  end.

(** The positions are in order and each block of old lines is found there. *)
Fixpoint placed_ok (lines : list rstr) (idx : nat) (placed : list (nat * list LineOp)) : Prop :=
  match placed with
  | [] => True
  | (s, ops) :: placed' =>
      idx <= s /\ (exists key, key ∈ passes /\ block_matches key lines (old_of ops) s) /\
      placed_ok lines (s + length (old_of ops)) placed'
  end.

(** A chunk that replaces or anchors at existing lines, the last of which is not
    blank, so that it is searched for as it stands. *)
Definition anchored (c : ChunkSpec) : Prop :=
  old_of (cs_ops c) ≠ [] /\ opt_last_empty (old_of (cs_ops c)) = false.

Lemma chunk_step_placed {A} (mk : rstr -> A) (source : list A) lines path li reps c li' reps' :
  length source = length lines -> li <= length lines -> anchored c ->
  chunk_step lines path PreserveLineEndings (li, reps) (chunk_denote c) = Ok (li', reps') ->
  exists s nr, li <= s /\ (exists key, key ∈ passes /\ block_matches key lines (old_of (cs_ops c)) s) /\
    li' = s + length (old_of (cs_ops c)) /\ li' <= length lines /\ reps' = reps ++ nr /\ segment li li' nr /\
    splice mk li nr (take (li' - li) (drop li source)) =
      take (s - li) (drop li source) ++ edit mk (cs_ops c) (take (length (old_of (cs_ops c))) (drop s source)).
Proof.
  intros Hsrc Hli [Hne Hlast] H. unfold chunk_step in H.
  destruct (seek_context _ _ _ _ _) as [li1|e|] eqn:Ec; [|done..].
  pose proof (seek_context_bounds _ _ _ _ _ _ Hli Ec) as Hli1. apply seek_context_after in Ec.
  cbn [mbind res_bind] in H. unfold chunk_denote in H. rewrite chunk_of_fields in H.
  cbn [old_lines new_lines context_line_indices is_end_of_file] in H.
  rewrite (proj2 (is_empty_false (old_of (cs_ops c)))) in H by done.
  unfold locate_chunk in H. cbn [old_lines new_lines is_end_of_file] in H. rewrite Hlast in H.
  destruct (seek_sequence _ _ _ _ _) as [s|] eqn:Es; [|done].
  pose proof (seek_sequence_after _ _ _ _ _ Es) as Hs1.
  apply seek_sequence_Some in Es as (_ & Hs2 & Hkey); [|done].
  set (n := length (old_of (cs_ops c))) in *.
  destruct (preserve_from_edit mk s (new_of (cs_ops c)) (cs_ops c) 0 0 0 0 (take n (drop s source))) with (reps := reps)
    as (nr & Hp & Hseg & Hsp); [done|done|lia|lia| |].
  { rewrite length_take, length_drop. fold n. lia. }
  simpl in Hp, Hseg, Hsp. rewrite ?Nat.add_0_r in *. fold n in Hp, Hseg.
  change (preserve_from s n (new_of (cs_ops c)) (indices_of 0 0 (cs_ops c)) 0 0 reps)
    with (preserve_replacements s n (new_of (cs_ops c)) (indices_of 0 0 (cs_ops c)) reps) in Hp.
  rewrite Hp in H. cbn [mbind res_bind] in H. injection H as <- <-.
  exists s, nr. split_and!; [lia|done|done|lia|done|apply (segment_weaken s); [done|lia]|].
  rewrite (splice_skip mk li (s - li) (s + n)); [|by replace (li + (s - li)) with s by lia].
  rewrite take_take, Nat.min_l by lia. f_equal. replace (li + (s - li)) with s by lia.
  rewrite skipn_firstn_comm, drop_drop. replace (li + (s - li)) with s by lia.
  replace (s + n - li - (s - li)) with n by lia. by rewrite Hsp.
Qed.

Lemma chunks_placed {A} (mk : rstr -> A) (source : list A) lines path cs li reps li' reps' :
  length source = length lines -> li <= length lines -> Forall anchored cs ->
  fold_res (chunk_step lines path PreserveLineEndings) (li, reps) (map chunk_denote cs) = Ok (li', reps') ->
  exists placed nr, map snd placed = map cs_ops cs /\ placed_ok lines li placed /\
    reps' = reps ++ nr /\ segment li (length lines) nr /\
    splice mk li nr (drop li source) = apply_placed mk li placed (drop li source).
Proof.
  intros Hsrc. revert li reps. induction cs as [|c cs IH]; intros li reps Hli Hall H.
  - simpl in H. simplify_eq. exists [], []. rewrite app_nil_r. split_and!; [done..|by apply segment_nil|done].
  - apply Forall_cons in Hall as [Hc Hall]. cbn [map fold_res] in H.
    destruct (chunk_step lines path PreserveLineEndings (li, reps) (chunk_denote c)) as [[li1 reps1]|e|] eqn:E; [|done..].
    eapply (chunk_step_placed mk source) in E as (s & nr1 & Hs & Hkey & -> & Hli1 & -> & Hseg1 & Hsp1); [|done..].
    cbn [mbind res_bind] in H. apply IH in H as (placed & nr2 & Hops & Hpl & -> & Hseg2 & Hsp2); [|done..].
    set (n := length (old_of (cs_ops c))) in *.
    exists ((s, cs_ops c) :: placed), (nr1 ++ nr2). split_and!.
    + simpl. by rewrite Hops.
    + simpl. done.
    + by rewrite app_assoc.
    + by eapply segment_app.
    + rewrite (splice_app mk li (s + n) (length lines)); [|done|done|rewrite length_drop; lia].
      rewrite Hsp1. simpl. fold n. rewrite <- app_assoc. f_equal.
      rewrite !drop_drop. replace (li + (s - li)) with s by lia. f_equal.
      replace (li + (s + n - li)) with (s + n) by lia. done.
Qed.

Lemma sort_by_start_id lo hi rs : segment lo hi rs -> sort_by_start rs = rs.
Proof.
  revert lo. induction rs as [|r rs IH]; intros lo Hs; [done|]. apply segment_cons in Hs as [_ Hs].
  cbn [sort_by_start foldr]. fold (sort_by_start rs). rewrite (IH (r_end r)) by done.
  destruct rs as [|x rs]; [done|]. simpl. apply segment_cons in Hs as [Hlo _]. unfold r_end in Hlo.
  by rewrite (proj2 (Nat.leb_le _ _)) by lia.
Qed.

(** What a patched file is, when line endings are kept: each chunk lands, in
    order and without overlap, at a place where its old lines match the file by one
    of the four comparisons, and the result is the file with exactly the chunk's
    edits made there: every line outside the chunks and every context line keeps its
    text and its line ending (even where the match was loose), removed lines are
    gone, added lines carry the file's preferred ending, and a missing final line
    ending is added. *)
Theorem preserve_mode_edits contents path cs out :
  Forall anchored cs ->
  derive_new_contents contents path (map chunk_denote cs) PreserveLineEndings = Ok out ->
  let file := source_parse contents in
  let pref := sf_preferred_ending file in
  exists placed, map snd placed = map cs_ops cs /\ placed_ok (line_texts file) 0 placed /\
    out = concat (map (fun l => line_contents (ensure_ending pref l))
            (apply_placed (fun t => {| sl_text := t; sl_ending := Some pref |}) 0 placed (sf_lines file))).
Proof.
  intros Hall H file pref. unfold derive_new_contents in H. fold file in H. cbv zeta in H.
  unfold compute_replacements in H.
  destruct (fold_res _ _ _) as [[li reps]|e|] eqn:E; [|done..]. cbn [mbind res_bind] in H.
  eapply (chunks_placed (fun t => {| sl_text := t; sl_ending := Some pref |}) (sf_lines file)) in E
    as (placed & nr & Hops & Hpl & -> & Hseg & Hsp); [|by unfold line_texts; rewrite length_map|lia|done].
  exists placed. split_and!; [done..|].
  rewrite app_nil_l, (sort_by_start_id _ _ _ Hseg) in H. unfold source_apply_replacements in H.
  erewrite replace_loop_splice in H by done. cbn [mbind res_bind] in H. injection H as <-.
  unfold into_contents. cbn [sf_lines app]. rewrite !drop_0 in Hsp. fold pref. by rewrite Hsp, map_map.
Qed.

Module UpdateDemo.
(** A file with mixed line endings, loose whitespace and no final newline. *)
Definition contents : rstr :=
  lit "one" ++ [CR; NL] ++ lit "two  " ++ [NL] ++ lit "three" ++ [CR; NL] ++ lit "four".
Definition chunks : list ChunkSpec :=
  [{| cs_context := None; cs_ops := [OpContext (lit "two"); OpAdd (lit "2b"); OpDelete (lit "three")];
      cs_eof := false |};
   {| cs_context := None; cs_ops := [OpDelete (lit "four"); OpAdd (lit "4")]; cs_eof := true |}].
Definition result : rstr :=
  lit "one" ++ [CR; NL] ++ lit "two  " ++ [NL] ++ lit "2b" ++ [CR; NL] ++ lit "4" ++ [CR; NL].
End UpdateDemo.

Lemma derive_new_contents_safe_witness :
  derive_new_contents UpdateDemo.contents [] (map chunk_denote UpdateDemo.chunks) NormalizeToLf ≠ Panic.
Proof.
  apply (derive_new_contents_safe UpdateDemo.contents [] (map chunk_denote UpdateDemo.chunks) NormalizeToLf).
  apply Forall_fmap, Forall_forall. intros c _. apply chunk_of_context_ok.
Defined.

Lemma rewriters_agree_witness :
  exists file', source_apply_replacements (source_parse UpdateDemo.contents)
                  [{| r_start := 1; r_old_len := 2; r_new := [lit "x"] |}] = Ok file' /\
    line_texts file' = [lit "one"; lit "x"; lit "four"].
Proof.
  destruct (rewriters_agree (source_parse UpdateDemo.contents) [{| r_start := 1; r_old_len := 2; r_new := [lit "x"] |}])
    as (f & H1 & H2 & _); [apply segment_one; vm_compute; lia|].
  exists f. split; [exact H1|].
  assert (apply_replacements (line_texts (source_parse UpdateDemo.contents))
            [{| r_start := 1; r_old_len := 2; r_new := [lit "x"] |}] = Ok [lit "one"; lit "x"; lit "four"]) as H3
    by (vm_compute; reflexivity).
  rewrite H3 in H2. by injection H2.
Defined.

Lemma preserve_mode_edits_witness :
  derive_new_contents UpdateDemo.contents [] (map chunk_denote UpdateDemo.chunks) PreserveLineEndings =
    Ok UpdateDemo.result /\
  exists placed, placed_ok (line_texts (source_parse UpdateDemo.contents)) 0 placed /\ length placed = 2.
Proof.
  assert (derive_new_contents UpdateDemo.contents [] (map chunk_denote UpdateDemo.chunks) PreserveLineEndings =
    Ok UpdateDemo.result) as H by (vm_compute; reflexivity).
  split; [exact H|].
  destruct (preserve_mode_edits UpdateDemo.contents [] UpdateDemo.chunks UpdateDemo.result) as (placed & Hops & Hok & _);
    [repeat constructor; done|exact H|].
  exists placed. split; [done|]. by rewrite <- (length_map snd), Hops.
Defined.
