(* ===== verification/ApplyHunks.v ===== *)
(** * Applying a patch to a file system

    Models the application half of [workx-rs/apply-patch/src/lib.rs]: the options,
    errors and delta types, [apply_hunks_to_files] with its helpers, and
    [apply_hunks_with_options] and [apply_patch_with_options] around it. The file
    system is the trait [ExecutorFileSystem], here a type class whose laws
    ([FileSystemLaws]) say what a file system owes its client; [PathUri] values come
    with the operations [PathUriOps]. The future-based calls run one after the other,
    as the [await]s do. *)
From S2P Require Import Prelude PatchParser PatchRoundTrip SeekSequence TextFile FileUpdate.

Set Default Goal Selector "!".

(** ** The interfaces *)

(** The answer of a file system call. *)
Inductive io (A : Type) := IoOk (a : A) | IoErr (e : IoKind).
Arguments IoOk {A} a.
Arguments IoErr {A} e.

Record Metadata := { is_file : bool; is_directory : bool; is_symlink : bool }.

(** The methods of [ExecutorFileSystem] the crate uses; the boolean is
    [follow_symlinks]. Directories are created recursively, removal is neither
    recursive nor forced. *)
Class ExecutorFileSystem (Fs Uri : Type) := {
  read_file_text : Fs -> Uri -> bool -> io rstr;
  get_metadata : Fs -> Uri -> bool -> io Metadata;
  write_file : Fs -> Uri -> rstr -> bool -> Fs * io unit;
  create_directory : Fs -> Uri -> bool -> Fs * io unit;
  remove : Fs -> Uri -> bool -> Fs * io unit;
}.

Class PathUriOps (Uri : Type) := {
  uri_join : Uri -> rstr -> option Uri;
  uri_parent : Uri -> option Uri;
  uri_text : Uri -> rstr;
}.

(** ** Errors, changes and deltas *)

Record ApplyPatchOptions := { update_file_mode : ApplyPatchFileUpdateMode; follow_symlinks : bool }.

Definition options_default : ApplyPatchOptions :=
  {| update_file_mode := NormalizeToLf; follow_symlinks := true |}.

(** [ApplyPatchError]; [source] is the kind of the [std::io::Error] inside. *)
Inductive ApplyPatchError :=
| ErrParse (e : ParseError)
| ErrIo (context : rstr) (source : IoKind)
| ErrComputeReplacements (message : rstr)
| ErrPathUri
| ErrImplicitInvocation.

(** [From<std::io::Error>]. *)
Definition from_io (e : IoKind) : ApplyPatchError := ErrIo (lit "I/O error") e.

(** The [anyhow::Error]s of [apply_hunks_to_files]. *)
Inductive AnyError :=
| AnyMessage (message : rstr)
| AnyContext (context : rstr) (source : IoKind)
| AnyApply (e : ApplyPatchError)
| AnyPathUri.

Section ApplyHunks.
Context {Fs Uri : Type} `{ExecutorFileSystem Fs Uri} `{PathUriOps Uri}.
Set Default Proof Using "Type".

Inductive AppliedPatchFileChange :=
| ChangeAdd (content : rstr) (overwritten_content : option rstr)
| ChangeDelete (content : rstr)
| ChangeUpdate (move_path : option Uri) (old_content : rstr) (overwritten_move_content : option rstr)
               (new_content : rstr).

Record AppliedPatchChange := { ac_path : Uri; ac_change : AppliedPatchFileChange }.

Record AppliedPatchDelta := { d_changes : list AppliedPatchChange; d_exact : bool }.

Definition delta_empty : AppliedPatchDelta := {| d_changes := []; d_exact := true |}.

(** [AppliedPatchDelta::append]. *)
Definition delta_append (self other : AppliedPatchDelta) : AppliedPatchDelta :=
  {| d_changes := d_changes self ++ d_changes other; d_exact := d_exact self && d_exact other |}.

Definition delta_push (d : AppliedPatchDelta) (c : AppliedPatchChange) : AppliedPatchDelta :=
  {| d_changes := d_changes d ++ [c]; d_exact := d_exact d |}.

(** [delta.exact &= b]. *)
Definition exact_and (d : AppliedPatchDelta) (b : bool) : AppliedPatchDelta :=
  {| d_changes := d_changes d; d_exact := d_exact d && b |}.

Record AffectedPaths := { added : list rstr; modified : list rstr; deleted : list rstr }.

(** ** Helpers *)

Definition note_existing_path_delta_support (fs : Fs) (path : Uri) (follow : bool)
    (d : AppliedPatchDelta) : AppliedPatchDelta :=
  match get_metadata fs path follow with
  | IoOk metadata => if is_file metadata && negb (is_symlink metadata) then d else exact_and d false
  | IoErr NotFound => d
  | IoErr _ => exact_and d false
  end.

Definition read_optional_file_text_for_delta (fs : Fs) (path : Uri) (follow : bool)
    (d : AppliedPatchDelta) : option rstr * AppliedPatchDelta :=
  let d := note_existing_path_delta_support fs path follow d in
  match read_file_text fs path follow with
  | IoOk content => (Some content, d)
  | IoErr NotFound => (None, d)
  | IoErr _ => (None, exact_and d false)
  end.

Definition ensure_not_directory (fs : Fs) (path : Uri) (follow : bool) : io unit :=
  match get_metadata fs path follow with
  | IoOk metadata => if is_directory metadata then IoErr InvalidInput else IoOk ()
  | IoErr e => IoErr e
  end.

Definition remove_failure_was_side_effect_free (fs : Fs) (path : Uri) (expected_content : option rstr)
    (follow : bool) : bool :=
  match expected_content with
  | Some expected =>
      match read_file_text fs path follow with
      | IoOk content => content =s expected
      | IoErr _ => false
      end
  | None => false
  end.

Definition with_context {A} (prefix : rstr) (path : Uri) (r : io A) : res AnyError A :=
  match r with
  | IoOk a => Ok a
  | IoErr e => Err (AnyContext (prefix ++ lit " " ++ uri_text path) e)
  end.

Definition write_file_with_missing_parent_retry (fs : Fs) (path : Uri) (contents : rstr) (follow : bool)
    : Fs * res AnyError unit :=
  match write_file fs path contents follow with
  | (fs, IoOk _) => (fs, Ok ())
  | (fs, IoErr NotFound) =>
      let '(fs, created) :=
        match uri_parent path with
        | Some parent =>
            let '(fs, r) := create_directory fs parent follow in
            (fs, with_context (lit "Failed to create parent directories for") path r)
        | None => (fs, Ok ())
        end in
      match created with
      | Ok _ =>
          let '(fs, r) := write_file fs path contents follow in
          (fs, with_context (lit "Failed to write file") path r)
      | e => (fs, e)
      end
  | (fs, IoErr e) => (fs, with_context (lit "Failed to write file") path (IoErr e))
  end.

(** [derive_new_contents_from_chunks]: the original and the new contents. *)
Definition derive_new_contents_from_chunks (fs : Fs) (path : Uri) (chunks : list UpdateFileChunk)
    (m : ApplyPatchFileUpdateMode) (follow : bool) : res ApplyPatchError (rstr * rstr) :=
  match read_file_text fs path follow with
  | IoErr e => Err (ErrIo (lit "Failed to read file to update " ++ uri_text path) e)
  | IoOk original_contents =>
      match derive_new_contents original_contents (uri_text path) chunks m with
      | Ok new_contents => Ok (original_contents, new_contents)
      | Err (ComputeReplacements message) => Err (ErrComputeReplacements message)
      | Panic => Panic
      end
  end.

(** ** The hunks *)

(** What [apply_hunks_to_files] holds between two hunks. *)
Record ApplyState := { st_fs : Fs; st_delta : AppliedPatchDelta; st_affected : AffectedPaths }.

Definition hunk_result : Type := ApplyState * res AnyError unit.

Definition set_state (st : ApplyState) (fs : Fs) (d : AppliedPatchDelta) : ApplyState :=
  {| st_fs := fs; st_delta := d; st_affected := st_affected st |}.

Definition push_added (a : AffectedPaths) (p : rstr) : AffectedPaths :=
  {| added := added a ++ [p]; modified := modified a; deleted := deleted a |}.
Definition push_modified (a : AffectedPaths) (p : rstr) : AffectedPaths :=
  {| added := added a; modified := modified a ++ [p]; deleted := deleted a |}.
Definition push_deleted (a : AffectedPaths) (p : rstr) : AffectedPaths :=
  {| added := added a; modified := modified a; deleted := deleted a ++ [p] |}.

(** The [Hunk::AddFile] arm. *)
Definition apply_add (follow : bool) (st : ApplyState) (path_uri : Uri) (affected_path contents : rstr)
    : hunk_result :=
  let '(overwritten_content, d) := read_optional_file_text_for_delta (st_fs st) path_uri follow (st_delta st) in
  match write_file_with_missing_parent_retry (st_fs st) path_uri contents follow with
  | (fs, Ok _) =>
      ({| st_fs := fs;
          st_delta := delta_push d {| ac_path := path_uri; ac_change := ChangeAdd contents overwritten_content |};
          st_affected := push_added (st_affected st) affected_path |}, Ok ())
  | (fs, e) => (set_state st fs (exact_and d false), e)
  end.

(** The [Hunk::DeleteFile] arm. *)
Definition apply_delete (follow : bool) (st : ApplyState) (path_uri : Uri) (affected_path : rstr)
    : hunk_result :=
  let fs := st_fs st in
  let d := note_existing_path_delta_support fs path_uri follow (st_delta st) in
  let deleted_content := match read_file_text fs path_uri follow with IoOk c => Some c | IoErr _ => None end in
  let d := match deleted_content with None => exact_and d false | Some _ => d end in
  match with_context (lit "Failed to delete file") path_uri (ensure_not_directory fs path_uri follow) with
  | Ok _ =>
      let '(fs, r) := remove fs path_uri follow in
      match with_context (lit "Failed to delete file") path_uri r with
      | Ok _ =>
          ({| st_fs := fs;
              st_delta := match deleted_content with
                          | Some content => delta_push d {| ac_path := path_uri; ac_change := ChangeDelete content |}
                          | None => d
                          end;
              st_affected := push_deleted (st_affected st) affected_path |}, Ok ())
      | e => (set_state st fs
                (exact_and d (remove_failure_was_side_effect_free fs path_uri deleted_content follow)), e)
      end
  | e => (set_state st fs d, e)
  end.

(** The [Hunk::UpdateFile] arm after the new contents are known, without a move. *)
Definition apply_update_in_place (follow : bool) (st : ApplyState) (d : AppliedPatchDelta) (path_uri : Uri)
    (affected_path original_contents new_contents : rstr) : hunk_result :=
  let '(fs, r) := write_file (st_fs st) path_uri new_contents follow in
  match with_context (lit "Failed to write file") path_uri r with
  | Ok _ =>
      ({| st_fs := fs;
          st_delta := delta_push d {| ac_path := path_uri;
                                      ac_change := ChangeUpdate None original_contents None new_contents |};
          st_affected := push_modified (st_affected st) affected_path |}, Ok ())
  | e => (set_state st fs (exact_and d false), e)
  end.

(** The same with a move: the destination is written and recorded, then the source
    removed and the record replaced. *)
Definition apply_update_move (follow : bool) (st : ApplyState) (d : AppliedPatchDelta) (path_uri dest_uri : Uri)
    (affected_path original_contents new_contents : rstr) : hunk_result :=
  let '(overwritten, d) := read_optional_file_text_for_delta (st_fs st) dest_uri follow d in
  match write_file_with_missing_parent_retry (st_fs st) dest_uri new_contents follow with
  | (fs, Ok _) =>
      let written := delta_push d {| ac_path := dest_uri; ac_change := ChangeAdd new_contents overwritten |} in
      match with_context (lit "Failed to remove original") path_uri (ensure_not_directory fs path_uri follow) with
      | Ok _ =>
          let '(fs, r) := remove fs path_uri follow in
          match with_context (lit "Failed to remove original") path_uri r with
          | Ok _ =>
              ({| st_fs := fs;
                  st_delta := delta_push d
                    {| ac_path := path_uri;
                       ac_change := ChangeUpdate (Some dest_uri) original_contents overwritten new_contents |};
                  st_affected := push_modified (st_affected st) affected_path |}, Ok ())
          | e => (set_state st fs
                    (exact_and written
                       (remove_failure_was_side_effect_free fs path_uri (Some original_contents) follow)), e)
          end
      | e => (set_state st fs written, e)
      end
  | (fs, e) => (set_state st fs (exact_and d false), e)
  end.

Definition apply_update (options : ApplyPatchOptions) (cwd : Uri) (st : ApplyState) (path_uri : Uri)
    (affected_path : rstr) (move_path : option rstr) (chunks : list UpdateFileChunk) : hunk_result :=
  let follow := follow_symlinks options in
  let d := note_existing_path_delta_support (st_fs st) path_uri follow (st_delta st) in
  match derive_new_contents_from_chunks (st_fs st) path_uri chunks (update_file_mode options) follow with
  | Ok (original_contents, new_contents) =>
      match move_path with
      | Some dest =>
          match uri_join cwd dest with
          | Some dest_uri => apply_update_move follow st d path_uri dest_uri affected_path original_contents new_contents
          | None => (set_state st (st_fs st) d, Err AnyPathUri)
          end
      | None => apply_update_in_place follow st d path_uri affected_path original_contents new_contents
      end
  | Err e => (set_state st (st_fs st) d, Err (AnyApply e))
  | Panic => (set_state st (st_fs st) d, Panic)
  end.

Definition apply_hunk (options : ApplyPatchOptions) (cwd : Uri) (st : ApplyState) (hunk : Hunk) : hunk_result :=
  let affected_path := hunk_path hunk in
  match uri_join cwd (hunk_source_path hunk) with
  | None => (st, Err AnyPathUri)
  | Some path_uri =>
      match hunk with
      | AddFile _ contents => apply_add (follow_symlinks options) st path_uri affected_path contents
      | DeleteFile _ => apply_delete (follow_symlinks options) st path_uri affected_path
      | UpdateFile _ move_path chunks => apply_update options cwd st path_uri affected_path move_path chunks
      end
  end.

Fixpoint apply_hunks_loop (options : ApplyPatchOptions) (cwd : Uri) (st : ApplyState) (hunks : list Hunk)
    : hunk_result :=
  match hunks with
  | [] => (st, Ok ())
  | hunk :: hunks' =>
      match apply_hunk options cwd st hunk with
      | (st', Ok _) => apply_hunks_loop options cwd st' hunks'
      | r => r
      end
  end.

Definition start_state (fs : Fs) (d : AppliedPatchDelta) : ApplyState :=
  {| st_fs := fs; st_delta := d; st_affected := {| added := []; modified := []; deleted := [] |} |}.

Definition apply_hunks_to_files (hunks : list Hunk) (options : ApplyPatchOptions) (cwd : Uri) (fs : Fs)
    (d : AppliedPatchDelta) : hunk_result :=
  if is_empty hunks then (start_state fs d, Err (AnyMessage (lit "No files were modified.")))
  else apply_hunks_loop options cwd (start_state fs d) hunks.

(** ** Around it: output and failures *)

(** [print_summary], as the lines written. *)
Definition print_summary (affected : AffectedPaths) : list rstr :=
  [lit "Success. Updated the following files:"]
  ++ map (fun p => lit "A " ++ p) (added affected)
  ++ map (fun p => lit "M " ++ p) (modified affected)
  ++ map (fun p => lit "D " ++ p) (deleted affected).

Record ApplyPatchFailure := { f_error : ApplyPatchError; f_delta : AppliedPatchDelta }.

(** [downcast_ref::<std::io::Error>] of the error, else the error as a message. *)
Definition to_apply_patch_error (message : AnyError -> rstr) (e : AnyError) : ApplyPatchError :=
  match e with
  | AnyContext _ source => from_io source
  | _ => ErrIo (message e) (OtherKind 0)
  end.

(** [stdout_err] and [stderr_err] are what writing to the two streams answers;
    [message] displays an error. The file system after the call comes first. *)
Definition apply_hunks_with_options (message : AnyError -> rstr) (stdout_err stderr_err : option IoKind)
    (hunks : list Hunk) (options : ApplyPatchOptions) (cwd : Uri) (fs : Fs)
    : Fs * res ApplyPatchFailure AppliedPatchDelta :=
  let '(st, r) := apply_hunks_to_files hunks options cwd fs delta_empty in
  (st_fs st,
   match r with
   | Ok _ =>
       match stdout_err with
       | Some e => Err {| f_error := from_io e; f_delta := st_delta st |}
       | None => Ok (st_delta st)
       end
   | Err e =>
       match stderr_err with
       | Some e' => Err {| f_error := from_io e'; f_delta := st_delta st |}
       | None => Err {| f_error := to_apply_patch_error message e; f_delta := st_delta st |}
       end
   | Panic => Panic
   end).

Definition apply_patch_with_options (message : AnyError -> rstr) (stdout_err stderr_err : option IoKind)
    (patch : rstr) (options : ApplyPatchOptions) (cwd : Uri) (fs : Fs)
    : Fs * res ApplyPatchFailure AppliedPatchDelta :=
  match parse_patch patch with
  | Ok source => apply_hunks_with_options message stdout_err stderr_err (apa_hunks source) options cwd fs
  | Err e =>
      (fs, Err {| f_error := match stderr_err with Some e' => from_io e' | None => ErrParse e end;
                  f_delta := delta_empty |})
  | Panic => (fs, Panic)
  end.

Definition apply_patch (message : AnyError -> rstr) (stdout_err stderr_err : option IoKind)
    (patch : rstr) (cwd : Uri) (fs : Fs) : Fs * res ApplyPatchFailure AppliedPatchDelta :=
  apply_patch_with_options message stdout_err stderr_err patch options_default cwd fs.

End ApplyHunks.

(** ** What a file system owes *)

(** The path is a regular file, or nothing is there. *)
Definition plain_path {Fs Uri : Type} `{ExecutorFileSystem Fs Uri} (fs : Fs) (p : Uri) (follow : bool) : Prop :=
  match get_metadata fs p follow with
  | IoOk m => is_file m = true /\ is_symlink m = false
  | IoErr e => e = NotFound
  end.

(** The laws: [view] is the text of every file, and distinct paths are distinct
    files. Nothing is assumed of a write through a symbolic link, of a write that
    fails part way, or of what a failing removal does to the path it removes. *)
Class FileSystemLaws (Fs Uri : Type) `{ExecutorFileSystem Fs Uri} `{PathUriOps Uri} `{Countable Uri} := {
  view : Fs -> gmap Uri rstr;
  law_read fs p follow c : read_file_text fs p follow = IoOk c -> view fs !! p = Some c;
  law_read_missing fs p follow : read_file_text fs p follow = IoErr NotFound -> view fs !! p = None;
  law_write fs p c follow fs' :
    plain_path fs p follow -> write_file fs p c follow = (fs', IoOk ()) -> view fs' = <[p := c]> (view fs);
  law_write_missing fs p c follow fs' : write_file fs p c follow = (fs', IoErr NotFound) -> fs' = fs;
  law_create fs p d follow fs' :
    uri_parent p = Some d -> create_directory fs d follow = (fs', IoOk ()) ->
    view fs' = view fs /\ (plain_path fs p follow -> plain_path fs' p follow);
  law_remove fs p follow fs' : remove fs p follow = (fs', IoOk ()) -> view fs' = delete p (view fs);
  law_remove_failed fs p follow fs' e q :
    remove fs p follow = (fs', IoErr e) -> q ≠ p -> view fs' !! q = view fs !! q;
}.

Section Exactness.
Context {Fs Uri : Type} `{Hlaws : FileSystemLaws Fs Uri}.
Set Default Proof Using "Type*".

Abbreviation change := (@AppliedPatchChange Uri).
Abbreviation files := (gmap Uri rstr).

(** What a recorded change says of the files before and after it. *)
Inductive change_step : files -> change -> files -> Prop :=
| step_add v p content overwritten :
    v !! p = overwritten ->
    change_step v {| ac_path := p; ac_change := ChangeAdd content overwritten |} (<[p := content]> v)
| step_delete v p content :
    v !! p = Some content ->
    change_step v {| ac_path := p; ac_change := ChangeDelete content |} (delete p v)
| step_update v p old new :
    v !! p = Some old ->
    change_step v {| ac_path := p; ac_change := ChangeUpdate None old None new |} (<[p := new]> v)
| step_move v p d old overwritten new :
    p ≠ d -> v !! p = Some old -> v !! d = overwritten ->
    change_step v {| ac_path := p; ac_change := ChangeUpdate (Some d) old overwritten new |}
                (<[d := new]> (delete p v)).

Inductive change_steps : files -> list change -> files -> Prop :=
| steps_nil v : change_steps v [] v
| steps_cons v c v1 cs v2 : change_step v c v1 -> change_steps v1 cs v2 -> change_steps v (c :: cs) v2.

Lemma change_steps_one v c v' : change_step v c v' -> change_steps v [c] v'.
Proof using Type. intros. by econstructor; [|constructor]. Qed.

Lemma change_steps_app v a v1 b v2 : change_steps v a v1 -> change_steps v1 b v2 -> change_steps v (a ++ b) v2.
Proof using Type. induction 1 as [|v c v0 cs v3 Hc _ IH]; intros Hb; simpl; [done|]. econstructor; [done|by apply IH]. Qed.

Lemma exact_and_true (d : @AppliedPatchDelta Uri) b :
  d_exact (exact_and d b) = true <-> d_exact d = true /\ b = true.
Proof. apply andb_true_iff. Qed.

Lemma note_exact (fs : Fs) (p : Uri) follow d :
  d_exact (note_existing_path_delta_support fs p follow d) = true ->
  d_exact d = true /\ plain_path fs p follow.
Proof.
  unfold note_existing_path_delta_support, plain_path.
  destruct (get_metadata fs p follow) as [m|e].
  - destruct (is_file m) eqn:E1, (is_symlink m) eqn:E2; simpl; intros Hd; try done;
      by rewrite andb_false_r in Hd.
  - destruct e; simpl; intros Hd; try done; by rewrite andb_false_r in Hd.
Qed.

Lemma note_changes (fs : Fs) (p : Uri) follow d :
  d_changes (note_existing_path_delta_support fs p follow d) = d_changes d.
Proof. unfold note_existing_path_delta_support. by repeat case_match. Qed.

Lemma read_optional_exact fs p follow d ov d' :
  read_optional_file_text_for_delta fs p follow d = (ov, d') -> d_exact d' = true ->
  d_exact d = true /\ plain_path fs p follow /\ view fs !! p = ov.
Proof.
  unfold read_optional_file_text_for_delta.
  destruct (read_file_text fs p follow) as [c|e] eqn:Er.
  - intros [= <- <-] Hd. apply note_exact in Hd as [? ?]. split_and!; [done..|]. by eapply law_read.
  - destruct e; intros [= <- <-] Hd; try (apply exact_and_true in Hd as [_ ?]; done).
    apply note_exact in Hd as [? ?]. split_and!; [done..|]. by eapply law_read_missing.
Qed.

Lemma read_optional_changes fs (p : Uri) follow d ov d' :
  read_optional_file_text_for_delta fs p follow d = (ov, d') -> d_changes d' = d_changes d.
Proof.
  unfold read_optional_file_text_for_delta. intros Hr.
  repeat case_match; simplify_eq; apply note_changes.
Qed.

(** Writing with the missing-parent retry writes the file and nothing else. *)
Lemma write_retry_view fs p c follow fs' :
  plain_path fs p follow -> write_file_with_missing_parent_retry fs p c follow = (fs', Ok ()) ->
  view fs' = <[p := c]> (view fs).
Proof.
  unfold write_file_with_missing_parent_retry. intros Hp.
  destruct (write_file fs p c follow) as [fs1 [[]|e]] eqn:Ew.
  { intros [= <-]. by eapply law_write. }
  destruct e; try by intros [=].
  apply law_write_missing in Ew as ->.
  destruct (uri_parent p) as [d|] eqn:Ed.
  - destruct (create_directory fs d follow) as [fs2 [[]|e]] eqn:Ec; [|by intros [=]]. simpl.
    destruct (law_create _ _ _ _ _ Ed Ec) as [Hv Hpl].
    destruct (write_file fs2 p c follow) as [fs3 [[]|e]] eqn:Ew2; intros [= <-].
    rewrite <- Hv. eapply law_write; [by apply Hpl|done].
  - destruct (write_file fs p c follow) as [fs3 [[]|e]] eqn:Ew2; intros [= <-].
    by eapply law_write.
Qed.

(** What one arm of the loop has to establish. *)
Definition arm_ok (st : @ApplyState Fs Uri) (r : @hunk_result Fs Uri) : Prop :=
  d_exact (st_delta r.1) = true ->
  d_exact (st_delta st) = true /\
  exists cs, d_changes (st_delta r.1) = d_changes (st_delta st) ++ cs /\
             change_steps (view (st_fs st)) cs (view (st_fs r.1)).

Lemma arm_nothing st fs d r :
  d_changes d = d_changes (st_delta st) -> (d_exact d = true -> d_exact (st_delta st) = true) ->
  view fs = view (st_fs st) -> arm_ok st (set_state st fs d, r).
Proof.
  intros Hc He Hv Hd. simpl in *. split; [by apply He|]. exists []. rewrite app_nil_r, Hv.
  split; [done|constructor].
Qed.

Lemma arm_not_exact (st : @ApplyState Fs Uri) fs d r : arm_ok st (set_state st fs (exact_and d false), r).
Proof. intros Hd. simpl in Hd. by rewrite andb_false_r in Hd. Qed.

Lemma apply_add_ok follow st p affected contents : arm_ok st (apply_add follow st p affected contents).
Proof.
  unfold apply_add.
  destruct (read_optional_file_text_for_delta _ _ _ _) as [ov d] eqn:Er.
  destruct (write_file_with_missing_parent_retry _ _ _ _) as [fs [[]|e|]] eqn:Ew; try apply arm_not_exact.
  intros Hd. simpl in Hd. pose proof (read_optional_changes _ _ _ _ _ _ Er) as Hch.
  apply read_optional_exact in Er as (He & Hpl & Hov); [|done].
  split; [done|]. eexists. simpl. rewrite Hch. split; [done|].
  rewrite (write_retry_view _ _ _ _ _ Hpl Ew). by apply change_steps_one, step_add.
Qed.

(** A removal that failed with the old text still in place changed nothing. *)
Lemma remove_failed_view fs p follow fs' e expected :
  remove fs p follow = (fs', IoErr e) ->
  remove_failure_was_side_effect_free fs' p (Some expected) follow = true ->
  view fs !! p = Some expected -> view fs' = view fs.
Proof.
  intros Hr Hs Hv. simpl in Hs. case_match eqn:Er; [|done]. bool_prop. subst.
  apply law_read in Er. apply map_eq. intros q. destruct (decide (q = p)) as [->|Hne]; [congruence|].
  by eapply law_remove_failed.
Qed.

Lemma apply_delete_ok follow st p affected : arm_ok st (apply_delete follow st p affected).
Proof.
  unfold apply_delete.
  set (d := note_existing_path_delta_support (st_fs st) p follow (st_delta st)).
  assert (d_changes d = d_changes (st_delta st)) as Hch by apply note_changes.
  assert (d_exact d = true -> d_exact (st_delta st) = true) as He by (intros Hd; by apply note_exact in Hd as [? ?]).
  clearbody d.
  destruct (read_file_text (st_fs st) p follow) as [c|e] eqn:Er.
  - apply law_read in Er.
    destruct (ensure_not_directory _ _ _) as [[]|e]; simpl; [|by apply arm_nothing].
    destruct (remove (st_fs st) p follow) as [fs [[]|e]] eqn:Erm; simpl.
    + intros Hd. simpl in Hd. split; [by apply He|]. eexists. simpl. rewrite Hch. split; [done|].
      rewrite (law_remove _ _ _ _ Erm). by apply change_steps_one, step_delete.
    + intros Hd. simpl in Hd. apply andb_true_iff in Hd as [Hd Hs]. apply arm_nothing; try done.
      * simpl. intros Hx. by apply He.
      * eapply remove_failed_view; [done|exact Hs|done].
      * simpl. rewrite Hd. exact Hs.
  - destruct (ensure_not_directory _ _ _) as [[]|e']; simpl; [|apply arm_not_exact].
    destruct (remove (st_fs st) p follow) as [fs [[]|e']] eqn:Erm; simpl;
      intros Hd; simpl in Hd; by rewrite ?andb_false_r in Hd.
Qed.

Lemma apply_update_in_place_ok follow st d p affected old new :
  d_changes d = d_changes (st_delta st) ->
  (d_exact d = true -> d_exact (st_delta st) = true /\ plain_path (st_fs st) p follow) ->
  view (st_fs st) !! p = Some old ->
  arm_ok st (apply_update_in_place follow st d p affected old new).
Proof.
  intros Hch He Hv. unfold apply_update_in_place.
  destruct (write_file _ _ _ _) as [fs [[]|e]] eqn:Ew; simpl; [|apply arm_not_exact].
  intros Hd. simpl in Hd. destruct (He Hd) as [He' Hpl]. split; [done|]. eexists. simpl. rewrite Hch.
  split; [done|]. rewrite (law_write _ _ _ _ _ Hpl Ew). by apply change_steps_one, step_update.
Qed.

Lemma apply_update_move_ok follow st d p dest affected old new :
  p ≠ dest -> d_changes d = d_changes (st_delta st) ->
  (d_exact d = true -> d_exact (st_delta st) = true) ->
  view (st_fs st) !! p = Some old ->
  arm_ok st (apply_update_move follow st d p dest affected old new).
Proof.
  intros Hne Hch He Hv. unfold apply_update_move.
  destruct (read_optional_file_text_for_delta _ _ _ _) as [ov d1] eqn:Er.
  destruct (write_file_with_missing_parent_retry _ _ _ _) as [fs [[]|e|]] eqn:Ew; try apply arm_not_exact.
  assert (d_exact d1 = true -> d_exact (st_delta st) = true /\ view fs = <[dest := new]> (view (st_fs st)) /\
          view (st_fs st) !! dest = ov) as Hd1.
  { intros Hd. pose proof Er as Er'. apply read_optional_exact in Er' as (Hx1 & Hpl & Hov); [|done].
    split_and!; [by apply He| |done]. by eapply write_retry_view. }
  apply read_optional_changes in Er. rewrite Hch in Er.
  assert (forall v, view fs = <[dest := new]> (view (st_fs st)) -> view (st_fs st) !! dest = ov -> v = view fs ->
            change_steps (view (st_fs st)) [{| ac_path := dest; ac_change := ChangeAdd new ov |}] v) as Hwritten.
  { intros v Hx1 Hx2 ->. rewrite Hx1. by apply change_steps_one, step_add. }
  destruct (ensure_not_directory _ _ _) as [[]|e]; simpl.
  2: { intros Hd. simpl in Hd. destruct (Hd1 Hd) as (Hx1 & Hx2 & Hx3). split; [done|].
       eexists. simpl. rewrite Er. split; [done|]. by apply Hwritten. }
  destruct (remove fs p follow) as [fs2 [[]|e]] eqn:Erm; simpl.
  - intros Hd. simpl in Hd. destruct (Hd1 Hd) as (Hx1 & Hx2 & Hx3). split; [done|].
    eexists. simpl. rewrite Er. split; [done|]. rewrite (law_remove _ _ _ _ Erm), Hx2.
    rewrite delete_insert_ne by done. by apply change_steps_one, step_move.
  - intros Hd. simpl in Hd. apply andb_true_iff in Hd as [Hd Hs]. destruct (Hd1 Hd) as (Hx1 & Hx2 & Hx3).
    split; [done|]. eexists. simpl. rewrite Er. split; [done|]. apply Hwritten; [done..|].
    eapply remove_failed_view; [done|exact Hs|]. by rewrite Hx2, lookup_insert_ne.
Qed.

(** No hunk moves a file onto itself. *)
Definition moves_apart (cwd : Uri) (h : Hunk) : Prop :=
  match h with
  | UpdateFile path (Some dest) _ =>
      forall p d, uri_join cwd path = Some p -> uri_join cwd dest = Some d -> p ≠ d
  | _ => True
  end.

Lemma apply_hunk_ok options cwd st h : moves_apart cwd h -> arm_ok st (apply_hunk options cwd st h).
Proof.
  intros Hap. unfold apply_hunk.
  destruct (uri_join cwd (hunk_source_path h)) as [p|] eqn:Ep.
  2: { intros Hd. split; [done|]. exists []. rewrite app_nil_r. split; [done|constructor]. }
  destruct h as [path contents|path|path mv chunks]; [apply apply_add_ok|apply apply_delete_ok|].
  unfold apply_update.
  set (d := note_existing_path_delta_support (st_fs st) p (follow_symlinks options) (st_delta st)).
  assert (d_changes d = d_changes (st_delta st)) as Hch by apply note_changes.
  assert (d_exact d = true -> d_exact (st_delta st) = true /\ plain_path (st_fs st) p (follow_symlinks options)) as He
    by (intros Hd; by apply note_exact in Hd as [? ?]).
  clearbody d.
  destruct (derive_new_contents_from_chunks _ _ _ _ _) as [[old new]|e|] eqn:Ed.
  2: { apply arm_nothing; [done|by intros Hd; apply He|done]. }
  2: { apply arm_nothing; [done|by intros Hd; apply He|done]. }
  assert (view (st_fs st) !! p = Some old) as Hv.
  { unfold derive_new_contents_from_chunks in Ed. repeat case_match; simplify_eq. by eapply law_read. }
  destruct mv as [dest|]; [|by apply apply_update_in_place_ok].
  destruct (uri_join cwd dest) as [du|] eqn:Edu.
  - apply apply_update_move_ok; [by eapply Hap|done|by intros Hd; apply He|done].
  - apply arm_nothing; [done|by intros Hd; apply He|done].
Qed.

Lemma apply_hunks_loop_ok options cwd hs st :
  Forall (moves_apart cwd) hs -> arm_ok st (apply_hunks_loop options cwd st hs).
Proof.
  intros Hall. revert st. induction Hall as [|h hs Hh _ IH]; intros st; simpl.
  - intros Hd. split; [done|]. exists []. rewrite app_nil_r. split; [done|constructor].
  - pose proof (apply_hunk_ok options cwd st h Hh) as Hstep.
    destruct (apply_hunk options cwd st h) as [st' [[]|e|]]; try exact Hstep.
    intros Hd. destruct (IH st' Hd) as (He' & cs & Hcs & Hv).
    destruct (Hstep He') as (He & cs0 & Hcs0 & Hv0). simpl in *. split; [done|].
    exists (cs0 ++ cs). rewrite Hcs, Hcs0, app_assoc. split; [done|]. by eapply change_steps_app.
Qed.

(** C3. An exact delta tells the whole truth: when [apply_hunks_to_files] returns,
    with success or with an error part way, and its delta claims to be exact, then
    replaying the recorded changes in order on the files as they were (each change
    finding exactly the old, deleted or overwritten text it records) gives the files
    as they are. Hunks that move a file onto itself are excluded. *)
Theorem apply_hunks_exact_delta hunks options cwd fs st r :
  Forall (moves_apart cwd) hunks ->
  apply_hunks_to_files hunks options cwd fs delta_empty = (st, r) ->
  d_exact (st_delta st) = true ->
  change_steps (view fs) (d_changes (st_delta st)) (view (st_fs st)).
Proof.
  intros Hall Hr Hd. unfold apply_hunks_to_files in Hr. destruct (is_empty hunks).
  { injection Hr as <- _. constructor. }
  pose proof (apply_hunks_loop_ok options cwd hunks (start_state fs delta_empty) Hall) as Hok.
  rewrite Hr in Hok. destruct (Hok Hd) as (_ & cs & Hcs & Hv). simpl in Hcs. by rewrite Hcs.
Qed.

(** A file moved onto itself is lost: when an update names its own path as the
    move destination and everything succeeds, the new text is written and then
    removed, so that no file is left, while the delta records the new text at that
    path. *)
Theorem self_move_deletes options cwd st path chunks p st' :
  uri_join cwd path = Some p ->
  apply_hunk options cwd st (UpdateFile path (Some path) chunks) = (st', Ok ()) ->
  view (st_fs st') !! p = None /\
  exists old ov new, last (d_changes (st_delta st')) =
    Some {| ac_path := p; ac_change := ChangeUpdate (Some p) old ov new |}.
Proof.
  intros Hp. unfold apply_hunk. cbn [hunk_source_path hunk_path]. rewrite Hp. unfold apply_update.
  destruct (derive_new_contents_from_chunks _ _ _ _ _) as [[old new]|e|]; [|done..].
  rewrite Hp. unfold apply_update_move. intros Hr.
  destruct (read_optional_file_text_for_delta _ _ _ _) as [ov d1].
  destruct (write_file_with_missing_parent_retry _ _ _ _) as [fs [[]|e|]]; [|done..].
  destruct (ensure_not_directory _ _ _) as [[]|e]; simpl in Hr; [|done].
  destruct (remove fs p _) as [fs2 [[]|e]] eqn:Erm; simpl in Hr; [|done].
  injection Hr as <-. simpl. split.
  - by rewrite (law_remove _ _ _ _ Erm), lookup_delete_eq.
  - exists old, ov, new. by rewrite last_snoc.
Qed.

End Exactness.

(** ** A file system in memory *)

Module MemFs.
Abbreviation t := (gmap (list Z) (list Z)).

#[export] Instance fs : ExecutorFileSystem t rstr := {|
  read_file_text m p _ := match m !! p with Some c => IoOk c | None => IoErr NotFound end;
  get_metadata m p _ :=
    match m !! p with
    | Some _ => IoOk {| is_file := true; is_directory := false; is_symlink := false |}
    | None => IoErr NotFound
    end;
  write_file m p c _ := (<[p := c]> m, IoOk ());
  create_directory m _ _ := (m, IoOk ());
  remove m p _ := match m !! p with Some _ => (delete p m, IoOk ()) | None => (m, IoErr NotFound) end;
|}.

#[export] Instance uri : PathUriOps rstr := {|
  uri_join cwd p := if is_empty p then None else Some (cwd ++ lit "/" ++ p);
  uri_parent _ := None;
  uri_text p := p;
|}.

#[export] Instance laws : FileSystemLaws t rstr.
Proof.
  refine {| view := fun m : t => m |}; simpl; intros; repeat case_match; by simplify_eq.
Defined.
End MemFs.
Import MemFs.

Module ApplyDemo.
Definition cwd : rstr := lit "/w".
Definition before_files : MemFs.t :=
  <[lit "/w/a" := lit "x" ++ [NL] ++ lit "y" ++ [NL]]> (<[lit "/w/b" := lit "z" ++ [NL]]> ∅).
Definition upd : list UpdateFileChunk := [chunk_of None [OpContext (lit "x"); OpDelete (lit "y")] false].
Definition hunks : list Hunk :=
  [AddFile (lit "c") (lit "new" ++ [NL]); UpdateFile (lit "a") (Some (lit "b")) upd; DeleteFile (lit "c");
   DeleteFile (lit "missing")].
Definition upd_hunk : Hunk := UpdateFile (lit "a") None upd.
Definition self_move : Hunk := UpdateFile (lit "a") (Some (lit "a")) upd.
End ApplyDemo.

Lemma apply_hunks_exact_delta_witness :
  let r := apply_hunks_to_files (Fs := MemFs.t) (Uri := rstr) (take 3 ApplyDemo.hunks) options_default ApplyDemo.cwd
             ApplyDemo.before_files delta_empty in
  r.2 = Ok () /\ st_fs r.1 = <[lit "/w/b" := lit "x" ++ [NL]]> ∅ /\
  change_steps (view ApplyDemo.before_files) (d_changes (st_delta r.1)) (view (st_fs r.1)).
Proof.
  intros r. destruct r as [st o] eqn:E. split; [|split].
  - assert (r.2 = Ok ()) as Hr by (vm_compute; reflexivity). by rewrite E in Hr.
  - assert (st_fs r.1 = <[lit "/w/b" := lit "x" ++ [NL]]> ∅) as Hr by (vm_compute; reflexivity).
    by rewrite E in Hr.
  - apply (apply_hunks_exact_delta (take 3 ApplyDemo.hunks) options_default ApplyDemo.cwd ApplyDemo.before_files st o).
    + repeat constructor. simpl. intros p d [= <-] [= <-]. done.
    + exact E.
    + assert (d_exact (st_delta r.1) = true) as Hr by (vm_compute; reflexivity). by rewrite E in Hr.
Defined.

Lemma self_move_deletes_witness :
  let st := start_state (Fs := MemFs.t) (Uri := rstr) ApplyDemo.before_files delta_empty in
  let r := apply_hunk options_default ApplyDemo.cwd st ApplyDemo.self_move in
  r.2 = Ok () /\ view (st_fs r.1) !! lit "/w/a" = None.
Proof.
  intros st r. assert (r.2 = Ok ()) as Hr by (vm_compute; reflexivity). split; [exact Hr|].
  destruct r as [st' o] eqn:E. simpl in Hr. subst o.
  eapply (self_move_deletes options_default ApplyDemo.cwd st (lit "a") ApplyDemo.upd (lit "/w/a") st');
    [reflexivity|exact E].
Defined.
