(* ===== verification/Invocation.v ===== *)
(** * Recognising and verifying an [apply_patch] invocation

    Models [workx-rs/apply-patch/src/invocation.rs]: which argument vectors are
    [apply_patch] calls, and the dry run that turns a parsed patch into the file
    changes shown for approval ([try_verify_apply_patch_args]), with the diff
    functions of [file_update.rs] it calls. The tree-sitter extraction of a heredoc
    from a shell script, the text of a unified diff ([similar]) and the path
    conventions of [PathUri] are parameters. *)
From S2P Require Import Prelude PatchParser PatchRoundTrip SeekSequence TextFile FileUpdate ApplyHunks.

Set Default Goal Selector "!".

Inductive PathConvention := Posix | Windows.
Inductive ApplyPatchShell := UnixShell | PowerShell | Cmd.

Inductive ExtractHeredocError :=
| CommandDidNotStartWithApplyPatch
| FailedToLoadBashGrammar
| HeredocNotUtf8
| FailedToParsePatchIntoAst
| FailedToFindHeredocBody.

Inductive MaybeApplyPatch :=
| MaybeBody (args : ApplyPatchArgs)
| MaybeShellParseError (e : ExtractHeredocError)
| MaybePatchParseError (e : ParseError)
| MaybeNotApplyPatch.

Definition set_workdir (args : ApplyPatchArgs) (workdir : option rstr) : ApplyPatchArgs :=
  {| apa_patch := apa_patch args; apa_hunks := apa_hunks args; apa_workdir := workdir;
     apa_environment_id := apa_environment_id args |}.

Definition eq_ignore_ascii_case (a b : rstr) : bool := to_ascii_lowercase a =s to_ascii_lowercase b.

Definition is_apply_patch_command (cmd : rstr) : bool :=
  (cmd =s lit "apply_patch") || (cmd =s lit "applypatch").

Section Invocation.
Context {Fs Uri : Type} `{ExecutorFileSystem Fs Uri} `{PathUriOps Uri} `{Countable Uri}.
Set Default Proof Using "Type".

(** [PathUri::infer_path_convention] and [PathConvention::path_segments]. *)
Variable infer_path_convention : Uri -> option PathConvention.
Variable path_segments : PathConvention -> rstr -> list rstr.
(** [extract_apply_patch_from_bash]. *)
Variable extract_apply_patch_from_bash : rstr -> (rstr * option rstr) + ExtractHeredocError.
(** The unified diff of two texts with a context radius. *)
Variable text_diff : rstr -> rstr -> nat -> rstr.

Definition classify_shell_name (shell : rstr) (convention : PathConvention) : option rstr :=
  basename ← last (path_segments convention shell);
  let stem := match rsplit_once 46 basename with
              | Some (stem, _) => if is_empty stem then basename else stem
              | None => basename
              end in
  Some (to_ascii_lowercase stem).

Definition is_powershell (name : rstr) : bool := (name =s lit "pwsh") || (name =s lit "powershell").

Definition classify_shell (shell flag : rstr) (convention : PathConvention) : option ApplyPatchShell :=
  name ← classify_shell_name shell convention;
  if ((name =s lit "bash") || (name =s lit "zsh") || (name =s lit "sh"))
     && ((flag =s lit "-lc") || (flag =s lit "-c")) then Some UnixShell
  else if is_powershell name && eq_ignore_ascii_case flag (lit "-command") then Some PowerShell
  else if (name =s lit "cmd") && eq_ignore_ascii_case flag (lit "/c") then Some Cmd
  else None.

Definition can_skip_flag (shell flag : rstr) (convention : PathConvention) : bool :=
  match classify_shell_name shell convention with
  | Some name => is_powershell name && eq_ignore_ascii_case flag (lit "-noprofile")
  | None => false
  end.

Definition parse_shell_script (argv : list rstr) (cwd : Uri) : option (ApplyPatchShell * rstr) :=
  convention ← infer_path_convention cwd;
  match argv with
  | [shell; flag; script] =>
      shell_type ← classify_shell shell flag convention; Some (shell_type, script)
  | [shell; skip_flag; flag; script] =>
      if negb (can_skip_flag shell skip_flag convention) then None
      else shell_type ← classify_shell shell flag convention; Some (shell_type, script)
  | _ => None
  end.

Definition extract_apply_patch_from_shell (shell : ApplyPatchShell) (script : rstr)
    : (rstr * option rstr) + ExtractHeredocError :=
  match shell with
  | UnixShell | PowerShell | Cmd => extract_apply_patch_from_bash script
  end.

(** [parse_patch] never panics; the third case cannot arise. *)
Definition maybe_parse (body : rstr) (workdir : option rstr) : MaybeApplyPatch :=
  match parse_patch body with
  | Ok source => MaybeBody (match workdir with None => source | w => set_workdir source w end)
  | Err e => MaybePatchParseError e
  | Panic => MaybeNotApplyPatch
  end.

Definition maybe_parse_shell (argv : list rstr) (cwd : Uri) : MaybeApplyPatch :=
  match parse_shell_script argv cwd with
  | Some (shell, script) =>
      match extract_apply_patch_from_shell shell script with
      | inl (body, workdir) => maybe_parse body workdir
      | inr CommandDidNotStartWithApplyPatch => MaybeNotApplyPatch
      | inr e => MaybeShellParseError e
      end
  | None => MaybeNotApplyPatch
  end.

Definition maybe_parse_apply_patch (argv : list rstr) (cwd : Uri) : MaybeApplyPatch :=
  match argv with
  | [cmd; body] => if is_apply_patch_command cmd then maybe_parse body None else maybe_parse_shell argv cwd
  | _ => maybe_parse_shell argv cwd
  end.

(** ** Verification *)

Inductive ApplyPatchFileChange :=
| FileAdd (content : rstr)
| FileDelete (content : rstr)
| FileUpdate (unified_diff : rstr) (move_path : option Uri) (new_content : rstr).

Record ApplyPatchAction := {
  aa_changes : gmap Uri ApplyPatchFileChange;
  aa_update_file_mode : ApplyPatchFileUpdateMode;
  aa_patch : rstr;
  aa_cwd : Uri;
}.

Inductive MaybeApplyPatchVerified :=
| VerifiedBody (action : ApplyPatchAction)
| VerifiedShellParseError (e : ExtractHeredocError)
| VerifiedCorrectnessError (e : ApplyPatchError)
| VerifiedNotApplyPatch.

Record ApplyPatchFileUpdate := { fu_unified_diff : rstr; fu_original_content : rstr; fu_content : rstr }.

Definition unified_diff_from_chunks_with_context_and_mode (fs : Fs) (path : Uri) (chunks : list UpdateFileChunk)
    (context : nat) (m : ApplyPatchFileUpdateMode) : res ApplyPatchError ApplyPatchFileUpdate :=
  '(original_contents, new_contents) ← derive_new_contents_from_chunks fs path chunks m true;
  Ok {| fu_unified_diff := text_diff original_contents new_contents context;
        fu_original_content := original_contents; fu_content := new_contents |}.

Definition unified_diff_from_chunks_with_mode (fs : Fs) (path : Uri) (chunks : list UpdateFileChunk)
    (m : ApplyPatchFileUpdateMode) : res ApplyPatchError ApplyPatchFileUpdate :=
  unified_diff_from_chunks_with_context_and_mode fs path chunks 1 m.

Definition unified_diff_from_chunks (fs : Fs) (path : Uri) (chunks : list UpdateFileChunk)
    : res ApplyPatchError ApplyPatchFileUpdate :=
  unified_diff_from_chunks_with_mode fs path chunks NormalizeToLf.

Definition unified_diff_from_chunks_with_context (fs : Fs) (path : Uri) (chunks : list UpdateFileChunk)
    (context : nat) : res ApplyPatchError ApplyPatchFileUpdate :=
  unified_diff_from_chunks_with_context_and_mode fs path chunks context NormalizeToLf.

(** The change one hunk stands for. *)
Definition verify_change (m : ApplyPatchFileUpdateMode) (fs : Fs) (cwd path : Uri) (hunk : Hunk)
    : res ApplyPatchError ApplyPatchFileChange :=
  match hunk with
  | AddFile _ contents => Ok (FileAdd contents)
  | DeleteFile _ =>
      match read_file_text fs path true with
      | IoOk content => Ok (FileDelete content)
      | IoErr e => Err (ErrIo (lit "Failed to read " ++ uri_text path) e)
      end
  | UpdateFile _ move_path chunks =>
      u ← unified_diff_from_chunks_with_mode fs path chunks m;
      move_uri ← match move_path with
                 | None => Ok None
                 | Some dest => match uri_join cwd dest with Some d => Ok (Some d) | None => Err ErrPathUri end
                 end;
      Ok (FileUpdate (fu_unified_diff u) move_uri (fu_content u))
  end.

Definition verify_hunk (m : ApplyPatchFileUpdateMode) (fs : Fs) (cwd : Uri)
    (changes : gmap Uri ApplyPatchFileChange) (hunk : Hunk) : res ApplyPatchError (gmap Uri ApplyPatchFileChange) :=
  match uri_join cwd (hunk_source_path hunk) with
  | None => Err ErrPathUri
  | Some path =>
      match changes !! path with
      | Some _ => Err (ErrParse (InvalidPatchError (lit "multiple operations target " ++ uri_text path)))
      | None => change ← verify_change m fs cwd path hunk; Ok (<[path := change]> changes)
      end
  end.

Definition try_verify_apply_patch_args (args : ApplyPatchArgs) (cwd : Uri) (m : ApplyPatchFileUpdateMode) (fs : Fs)
    : res ApplyPatchError ApplyPatchAction :=
  effective_cwd ← match apa_workdir args with
                  | None => Ok cwd
                  | Some dir => match uri_join cwd dir with Some d => Ok d | None => Err ErrPathUri end
                  end;
  changes ← fold_res (verify_hunk m fs effective_cwd) ∅ (apa_hunks args);
  Ok {| aa_changes := changes; aa_update_file_mode := m; aa_patch := apa_patch args; aa_cwd := effective_cwd |}.

Definition verify_apply_patch_args_with_mode (args : ApplyPatchArgs) (cwd : Uri) (m : ApplyPatchFileUpdateMode)
    (fs : Fs) : res ApplyPatchError MaybeApplyPatchVerified :=
  match try_verify_apply_patch_args args cwd m fs with
  | Ok action => Ok (VerifiedBody action)
  | Err e => Ok (VerifiedCorrectnessError e)
  | Panic => Panic
  end.

Definition maybe_parse_apply_patch_verified_with_mode (argv : list rstr) (cwd : Uri)
    (m : ApplyPatchFileUpdateMode) (fs : Fs) : res ApplyPatchError MaybeApplyPatchVerified :=
  let raw_body := match argv with [body] => is_ok (parse_patch body) | _ => false end in
  let raw_script := match parse_shell_script argv cwd with
                    | Some (_, script) => is_ok (parse_patch script)
                    | None => false
                    end in
  if raw_body || raw_script then Ok (VerifiedCorrectnessError ErrImplicitInvocation)
  else
    match maybe_parse_apply_patch argv cwd with
    | MaybeBody args => verify_apply_patch_args_with_mode args cwd m fs
    | MaybeShellParseError e => Ok (VerifiedShellParseError e)
    | MaybePatchParseError e => Ok (VerifiedCorrectnessError (ErrParse e))
    | MaybeNotApplyPatch => Ok VerifiedNotApplyPatch
    end.

End Invocation.

(** ** The preview is what happens *)

Section Preview.
Context {Fs Uri : Type} `{Hlaws : FileSystemLaws Fs Uri}.
Set Default Proof Using "Type*".
Variable text_diff : rstr -> rstr -> nat -> rstr.

Definition source_of (cwd : Uri) (h : Hunk) : option Uri := uri_join cwd (hunk_source_path h).

Definition dest_of (cwd : Uri) (h : Hunk) : option Uri :=
  match h with UpdateFile _ (Some dest) _ => uri_join cwd dest | _ => None end.

(** Neither of two hunks moves a file to where the other one works. *)
Definition apart (cwd : Uri) (h h' : Hunk) : Prop :=
  (forall d, dest_of cwd h = Some d -> source_of cwd h' ≠ Some d /\ dest_of cwd h' ≠ Some d) /\
  (forall d, dest_of cwd h' = Some d -> source_of cwd h ≠ Some d).

(** A file after a change that was previewed as [c]. *)
Definition preview_holds (c : @ApplyPatchFileChange Uri) (file : option rstr) : Prop :=
  match c with
  | FileAdd content => file = Some content
  | FileDelete _ => file = None
  | FileUpdate _ None new_content => file = Some new_content
  | FileUpdate _ (Some _) _ => file = None
  end.

(** Something is moved to a file. *)
Definition moved_to (changes : gmap Uri (@ApplyPatchFileChange Uri)) (p : Uri) (new_content : rstr) : Prop :=
  exists from unified_diff, changes !! from = Some (FileUpdate unified_diff (Some p) new_content).

(** The files [v] after the changes that were previewed of the files [v0]: each changed file as
    previewed, the destination of a move with the previewed text, all others as they were. *)
Record as_previewed (changes : gmap Uri ApplyPatchFileChange) (v0 v : gmap Uri rstr) : Prop := {
  ap_changed p c : changes !! p = Some c -> preview_holds c (v !! p);
  ap_moved p new_content : moved_to changes p new_content -> v !! p = Some new_content;
  ap_other p : changes !! p = None -> (forall new_content, ~ moved_to changes p new_content) -> v !! p = v0 !! p;
}.

(** What one hunk does to the files, when its delta is exact. *)
Definition hunk_effect (m : ApplyPatchFileUpdateMode) (cwd : Uri) (h : Hunk) (p : Uri) (v v' : gmap Uri rstr) : Prop :=
  match h with
  | AddFile _ c => v' = <[p := c]> v
  | DeleteFile _ => v' = delete p v
  | UpdateFile _ move_path chunks =>
      exists old new, v !! p = Some old /\ derive_new_contents old (uri_text p) chunks m = Ok new /\
        match move_path with
        | None => v' = <[p := new]> v
        | Some _ => exists d, dest_of cwd h = Some d /\ v' = delete p (<[d := new]> v)
        end
  end.

Lemma derive_from_chunks_Ok fs p chunks m follow old new :
  derive_new_contents_from_chunks fs p chunks m follow = Ok (old, new) ->
  view fs !! p = Some old /\ derive_new_contents old (uri_text p) chunks m = Ok new.
Proof.
  unfold derive_new_contents_from_chunks. intros Hd. repeat case_match; simplify_eq.
  split; [by eapply law_read|done].
Qed.

Lemma apply_hunk_effect options cwd st h st' p :
  source_of cwd h = Some p ->
  apply_hunk options cwd st h = (st', Ok ()) -> d_exact (st_delta st') = true ->
  hunk_effect (update_file_mode options) cwd h p (view (st_fs st)) (view (st_fs st')).
Proof.
  intros Hp Ha Hd. unfold apply_hunk in Ha. unfold source_of in Hp. rewrite Hp in Ha.
  destruct h as [path c|path|path mv chunks].
  - unfold apply_add in Ha.
    destruct (read_optional_file_text_for_delta _ _ _ _) as [ov d] eqn:Er.
    destruct (write_file_with_missing_parent_retry _ _ _ _) as [fs [[]|e|]] eqn:Ew; simplify_eq.
    simpl in Hd. apply read_optional_exact in Er as (_ & Hpl & _); [|done]. by eapply write_retry_view.
  - unfold apply_delete in Ha.
    destruct (ensure_not_directory _ _ _) as [[]|e]; simpl in Ha; [|done].
    destruct (remove (st_fs st) p _) as [fs [[]|e]] eqn:Erm; simpl in Ha; simplify_eq.
    by eapply law_remove.
  - unfold apply_update in Ha.
    destruct (derive_new_contents_from_chunks _ _ _ _ _) as [[old new]|e|] eqn:Ed; [|done..].
    apply derive_from_chunks_Ok in Ed as [Hold Hnew]. exists old, new. split; [done|]. split; [done|]. destruct mv as [dest|]; cbn [dest_of].
    + destruct (uri_join cwd dest) as [d|]; [|done]. exists d. split; [done|]. unfold apply_update_move in Ha.
      destruct (read_optional_file_text_for_delta _ _ _ _) as [ov d1] eqn:Er.
      destruct (write_file_with_missing_parent_retry _ _ _ _) as [fs [[]|e|]] eqn:Ew; [|done..].
      destruct (ensure_not_directory _ _ _) as [[]|e]; simpl in Ha; [|done].
      destruct (remove fs p _) as [fs2 [[]|e]] eqn:Erm; simpl in Ha; simplify_eq. simpl in Hd |- *.
      apply read_optional_exact in Er as (_ & Hpl & _); [|done]. rewrite (law_remove _ _ _ _ Erm). f_equal. by eapply write_retry_view.
    + unfold apply_update_in_place in Ha. destruct (write_file _ _ _ _) as [fs [[]|e]] eqn:Ew; simpl in Ha; simplify_eq. simpl in Hd.
      apply note_exact in Hd as [_ Hpl]. by eapply law_write.
Qed.

(** What is verified of a hunk, in terms of what it does. *)
Lemma verify_change_effect m fs0 cwd p h c v v' :
  source_of cwd h = Some p -> moves_apart cwd h -> v !! p = view fs0 !! p -> verify_change text_diff m fs0 cwd p h = Ok c -> hunk_effect m cwd h p v v' ->
  preview_holds c (v' !! p) /\
  match c with
  | FileUpdate _ (Some d) new => dest_of cwd h = Some d /\ d ≠ p /\ v' !! d = Some new /\ (forall q, q ≠ p -> q ≠ d -> v' !! q = v !! q)
  | _ => dest_of cwd h = None /\ forall q, q ≠ p -> v' !! q = v !! q
  end.
Proof.
  intros Hp Hap Hvp Hc Heff. destruct h as [path content|path|path mv chunks]; simpl in Hc, Heff.
  - injection Hc as <-. subst v'. simpl. split; [by rewrite lookup_insert_eq|]. split; [done|]. intros. by apply lookup_insert_ne.
  - subst v'. case_match; simplify_eq. simpl. split; [by rewrite lookup_delete_eq|]. split; [done|]. intros. by apply lookup_delete_ne.
  - destruct Heff as (old & new & Hold & Hnew & Heff).
    unfold unified_diff_from_chunks_with_mode, unified_diff_from_chunks_with_context_and_mode in Hc.
    destruct (derive_new_contents_from_chunks _ _ _ _ _) as [[old' new']|e|] eqn:Ed; [|done..].
    apply derive_from_chunks_Ok in Ed as [Hold' Hnew']. cbn [mbind res_bind] in Hc.
    assert (new' = new) as -> by congruence. destruct mv as [dest|]; cbn [mbind res_bind dest_of] in *.
    + destruct Heff as (d & Hd & ->). rewrite Hd in Hc. cbn [mbind res_bind] in Hc. injection Hc as <-. simpl.
      assert (d ≠ p) as Hne by (intros ->; by eapply (Hap p p)). split; [by rewrite lookup_delete_eq|]. split; [done|]. split; [done|].
      split; [by rewrite lookup_delete_ne, lookup_insert_eq by done|]. intros q Hq Hqd. by rewrite lookup_delete_ne, lookup_insert_ne.
    + subst v'. injection Hc as <-. simpl. split; [by rewrite lookup_insert_eq|]. split; [done|]. intros. by apply lookup_insert_ne.
Qed.

(** The changes come from hunks that were verified before. *)
Definition changes_from (cwd : Uri) (done_ : list Hunk) (changes : gmap Uri ApplyPatchFileChange) : Prop :=
  (forall p c, changes !! p = Some c -> exists h, h ∈ done_ /\ source_of cwd h = Some p) /\
  (forall p new, moved_to changes p new -> exists h, h ∈ done_ /\ dest_of cwd h = Some p).

Lemma preview_step fs0 cwd m done_ changes changes' h v v' p :
  changes_from cwd done_ changes -> Forall (fun h' => apart cwd h' h) done_ -> moves_apart cwd h ->
  as_previewed changes (view fs0) v -> source_of cwd h = Some p ->
  verify_hunk text_diff m fs0 cwd changes h = Ok changes' -> hunk_effect m cwd h p v v' ->
  as_previewed changes' (view fs0) v' /\ changes_from cwd (done_ ++ [h]) changes'.
Proof.
  intros [Hsrc Hdst] Hapart Hap [Hch Hmv Hoth] Hp Hv Heff. unfold verify_hunk in Hv. unfold source_of in Hp. rewrite Hp in Hv. fold (source_of cwd h) in Hp.
  rewrite Forall_forall in Hapart. destruct (changes !! p) eqn:Ep; [done|].
  destruct (verify_change text_diff m fs0 cwd p h) as [c|e|] eqn:Ec; [|done..].
  cbn [mbind res_bind] in Hv. injection Hv as <-.
  assert (forall new, ~ moved_to changes p new) as Hnot.
  { intros new (h' & Hh' & Hd)%Hdst. by destruct (proj1 (Hapart h' Hh') p Hd). }
  destruct (verify_change_effect m fs0 cwd p h c v v' Hp Hap (Hoth p Ep Hnot) Ec Heff) as [Hpv Hrest].
  assert (forall q new, moved_to (<[p := c]> changes) q new <-> moved_to changes q new \/ exists d, c = FileUpdate d (Some q) new) as Hmoved.
  { intros q new. unfold moved_to. split.
    - intros (from & d & [[-> ->]|[_ Hf]]%lookup_insert_Some); [right; by exists d|left; by exists from, d].
    - intros [(from & d & Hf)|(d & ->)]; [|exists p, d; by rewrite lookup_insert_eq].
      exists from, d. rewrite lookup_insert_ne; [done|]. intros <-. congruence. }
  assert (forall q, q ≠ p -> dest_of cwd h ≠ Some q -> v' !! q = v !! q) as Hsame.
  { intros q Hq Hd. destruct c as [| |? [d|] ?]; destruct Hrest as [Hdest Hrest]; try by apply Hrest.
    destruct Hrest as (_ & _ & Hrest). apply Hrest; [done|]. by intros ->. }
  split; [split|split].
  - intros q c' [[<- <-]|[Hne Hq]]%lookup_insert_Some; [done|]. rewrite Hsame; [by apply Hch|done|].
    intros Hd. destruct (Hsrc q c' Hq) as (h' & Hh' & Hs). by eapply (proj2 (Hapart h' Hh') q).
  - intros q new [Hm|(d & ->)]%Hmoved; [|by destruct Hrest as (_ & _ & ? & _)].
    rewrite Hsame; [by apply Hmv| |]. { by intros ->; apply (Hnot new). }
    intros Hd. destruct (Hdst q new Hm) as (h' & Hh' & Hs). by destruct (proj1 (Hapart h' Hh') q Hs).
  - intros q [Hq Hne]%lookup_insert_None Hnm. rewrite Hsame; [|done|].
    + apply Hoth; [done|]. intros new Hm. apply (Hnm new), Hmoved. by left.
    + intros Hd. destruct c as [| |d0 [d|] new]; destruct Hrest as [Hdest _]; rewrite Hd in Hdest; simplify_eq.
      apply (Hnm new), Hmoved. right. by exists d0.
  - intros q c' [[<- <-]|[Hne Hq]]%lookup_insert_Some; [exists h; set_solver|]. destruct (Hsrc q c' Hq) as (h' & ? & ?). exists h'. set_solver.
  - intros q new [Hm|(d & ->)]%Hmoved; [destruct (Hdst q new Hm) as (h' & ? & ?); exists h'; set_solver|]. exists h. destruct Hrest as [? _]. set_solver.
Qed.

Lemma preview_loop fs0 options cwd hs : forall done_ changes changes' st st',
  Forall (moves_apart cwd) hs -> ForallOrdPairs (apart cwd) hs -> Forall (fun h => Forall (fun h' => apart cwd h' h) done_) hs ->
  changes_from cwd done_ changes -> as_previewed changes (view fs0) (view (st_fs st)) ->
  fold_res (verify_hunk text_diff (update_file_mode options) fs0 cwd) changes hs = Ok changes' ->
  apply_hunks_loop options cwd st hs = (st', Ok ()) -> d_exact (st_delta st') = true ->
  as_previewed changes' (view fs0) (view (st_fs st')).
Proof.
  induction hs as [|h hs IH]; intros done_ changes changes' st st' Hap Hord Hdone Hfrom Hinv Hv Ha Hd.
  - simpl in *. by simplify_eq.
  - simpl in Hv, Ha. apply Forall_cons in Hap as [Hh Hhs]. apply Forall_cons in Hdone as [Hdh Hdone]. inversion Hord as [|? ? Hah Hord']; subst.
    destruct (verify_hunk text_diff (update_file_mode options) fs0 cwd changes h) as [changes1|e|] eqn:Ev; [|done..].
    destruct (apply_hunk options cwd st h) as [st1 [[]|e|]] eqn:Ea; [|done..].
    assert (d_exact (st_delta st1) = true) as Hd1.
    { pose proof (apply_hunks_loop_ok options cwd hs st1 Hhs) as Hok. rewrite Ha in Hok. by apply Hok. }
    destruct (source_of cwd h) as [p|] eqn:Ep; [|unfold verify_hunk in Ev; unfold source_of in Ep; by rewrite Ep in Ev].
    destruct (preview_step fs0 cwd (update_file_mode options) done_ changes changes1 h (view (st_fs st)) (view (st_fs st1)) p) as [Hinv1 Hfrom1]; try done.
    { by apply apply_hunk_effect. }
    eapply (IH (done_ ++ [h]) changes1); try done. rewrite Forall_forall in Hdone, Hah |- *. intros h' Hh'. apply Forall_app.
    split; [by apply Hdone|]. constructor; [by apply Hah|done].
Qed.

(** C18. What is approved is what happens. Let a patch pass verification against a file system, and
    let applying its hunks to the same file system succeed with an exact delta. When no hunk
    moves a file onto itself or to a file that another hunk changes or moves to, then every
    changed file ends up as previewed (added and updated files with the previewed text, deleted
    and moved files gone), the destination of each move holds the previewed text, and every
    other file is untouched; no file is changed twice. *)
Theorem verified_patch_applies args cwd m fs action options st' :
  update_file_mode options = m -> try_verify_apply_patch_args text_diff args cwd m fs = Ok action ->
  Forall (moves_apart (aa_cwd action)) (apa_hunks args) -> ForallOrdPairs (apart (aa_cwd action)) (apa_hunks args) ->
  apply_hunks_to_files (apa_hunks args) options (aa_cwd action) fs delta_empty = (st', Ok ()) ->
  d_exact (st_delta st') = true ->
  as_previewed (aa_changes action) (view fs) (view (st_fs st')).
Proof.
  intros <- Hv. unfold try_verify_apply_patch_args in Hv.
  destruct (match apa_workdir args with None => _ | Some _ => _ end) as [ecwd|e|]; [|done..].
  cbn [mbind res_bind] in Hv.
  destruct (fold_res _ _ _) as [changes|e|] eqn:Ef; [|done..]. cbn [mbind res_bind] in Hv.
  injection Hv as <-. cbn [aa_changes aa_cwd] in *. intros Hap Hord Ha Hd.
  unfold apply_hunks_to_files in Ha. destruct (is_empty (apa_hunks args)); [done|].
  eapply (preview_loop fs options ecwd (apa_hunks args) [] ∅ changes (start_state fs delta_empty) st'); try done.
  - apply Forall_forall. constructor.
  - split; [done|]. by intros p new (from & d & Hf).
  - split; [done|by intros p new (from & d & Hf)|done].
Qed.

End Preview.

Import MemFs.

(** A file is changed and moved over another one, and a third one added. *)
Lemma verified_patch_applies_witness :
  let args := {| apa_patch := []; apa_hunks := [UpdateFile (lit "a") (Some (lit "b")) ApplyDemo.upd; AddFile (lit "c") (lit "new")];
                 apa_workdir := None; apa_environment_id := None |} in
  let r := apply_hunks_to_files (Fs := MemFs.t) (Uri := list Z) (apa_hunks args) options_default ApplyDemo.cwd
             ApplyDemo.before_files delta_empty in
  view (st_fs r.1) !! lit "/w/a" = None /\ view (st_fs r.1) !! lit "/w/b" = Some (lit "x" ++ [NL]) /\
  view (st_fs r.1) !! lit "/w/c" = Some (lit "new") /\ view (st_fs r.1) !! lit "/w/d" = view ApplyDemo.before_files !! lit "/w/d".
Proof.
  intros args r.
  destruct (try_verify_apply_patch_args (Fs := MemFs.t) (fun _ _ _ => []) args ApplyDemo.cwd NormalizeToLf
              ApplyDemo.before_files) as [action|e|] eqn:Ev; [|vm_compute in Ev; discriminate Ev..].
  destruct r as [st o] eqn:E.
  assert (r.2 = Ok ()) as Ho by (vm_compute; reflexivity). rewrite E in Ho. simpl in Ho. subst o.
  assert (d_exact (st_delta r.1) = true) as Hd by (vm_compute; reflexivity). rewrite E in Hd.
  pose proof (verified_patch_applies (fun _ _ _ => []) args ApplyDemo.cwd NormalizeToLf ApplyDemo.before_files action
    options_default st eq_refl Ev) as Hall.
  assert (aa_cwd action = ApplyDemo.cwd) as Hcwd by (vm_compute in Ev; by injection Ev as <-).
  rewrite Hcwd in Hall. destruct Hall as [Hch Hmv Hoth].
  - repeat constructor. intros p d [= <-] [= <-]. done.
  - apply FOP_cons; [|apply FOP_cons; [apply Forall_nil_2|apply FOP_nil]]. apply Forall_singleton. split; intros d [= <-]; done.
  - exact E.
  - exact Hd.
  - vm_compute in Ev. injection Ev as <-. split; [exact (Hch (lit "/w/a") _ eq_refl)|]. split; [|split].
    + apply Hmv. eexists (lit "/w/a"), _. reflexivity.
    + exact (Hch (lit "/w/c") _ eq_refl).
    + apply Hoth; [reflexivity|]. intros new (from & d & Hf). cbn [aa_changes] in Hf. apply elem_of_map_to_list in Hf. vm_compute in Hf.
      repeat (apply elem_of_cons in Hf as [Hf|Hf]; [discriminate Hf|]). by apply not_elem_of_nil in Hf.
Defined.
