(* ===== verification/TurnDiffTracker.v ===== *)
(** * The diff of a turn

    Models [workx-rs/core/src/turn_diff_tracker.rs]: the bookkeeping that turns the
    deltas of the patches applied during a turn into one net diff, without reading
    the file system again, and its cache of rendered diffs. Hash map iteration
    orders, the line diff ([similar]), the Git object id (SHA-1) and the relative path
    of a [PathUri] are parameters. Revisions are unbounded here; the code counts them
    in 64 bits. *)
From S2P Require Import Prelude PatchParser SeekSequence TextFile FileUpdate ApplyHunks.

Set Default Goal Selector "!".

Definition ZERO_OID : rstr := lit "0000000000000000000000000000000000000000".
Definition DEV_NULL : rstr := lit "/dev/null".
Definition REGULAR_FILE_MODE : rstr := lit "100644".

Record TrackedContent := { tc_content : rstr; tc_revision : nat }.

Section Tracker.
Context {Uri : Type} `{Countable Uri}.
Set Default Proof Using "Type".

(** Environment id and path. *)
Abbreviation TrackedPath := (list Z * Uri)%type.

(** Left path and revision, right path and revision. *)
Abbreviation DiffCacheKey := ((list Z * Uri) * option nat * (list Z * Uri) * option nat)%type.

Record TurnDiffTracker := {
  valid : bool;
  display_roots_by_environment : gmap rstr Uri;
  baseline_by_path : gmap TrackedPath TrackedContent;
  current_by_path : gmap TrackedPath TrackedContent;
  origin_by_current_path : gmap TrackedPath TrackedPath;
  next_revision : nat;
  rendered_diffs : gmap DiffCacheKey (option rstr);
  unified_diff : option rstr;
}.

Definition tracker_default : TurnDiffTracker :=
  {| valid := true; display_roots_by_environment := ∅; baseline_by_path := ∅; current_by_path := ∅;
     origin_by_current_path := ∅; next_revision := 0; rendered_diffs := ∅; unified_diff := None |}.

Definition with_environment_display_roots (roots : gmap rstr Uri) : TurnDiffTracker :=
  {| valid := true; display_roots_by_environment := roots; baseline_by_path := ∅; current_by_path := ∅;
     origin_by_current_path := ∅; next_revision := 0; rendered_diffs := ∅; unified_diff := None |}.

(** ** Applying changes *)

Definition set_maps (t : TurnDiffTracker) (baseline current : gmap TrackedPath TrackedContent)
    (origin : gmap TrackedPath TrackedPath) (next : nat) : TurnDiffTracker :=
  {| valid := valid t; display_roots_by_environment := display_roots_by_environment t;
     baseline_by_path := baseline; current_by_path := current; origin_by_current_path := origin;
     next_revision := next; rendered_diffs := rendered_diffs t; unified_diff := unified_diff t |}.

(** [tracked_content] with the next revision. *)
Definition tracked_content (next : nat) (content : rstr) : TrackedContent :=
  {| tc_content := content; tc_revision := next |}.

(** [current] and [baseline] know nothing of the path. *)
Definition untracked (t : TurnDiffTracker) (path : TrackedPath) : bool :=
  match current_by_path t !! path, baseline_by_path t !! path with None, None => true | _, _ => false end.

(** [baseline_by_path.insert(path, tracked_content(content))]. *)
Definition insert_baseline (t : TurnDiffTracker) (path : TrackedPath) (content : rstr) : TurnDiffTracker :=
  set_maps t (<[path := tracked_content (next_revision t) content]> (baseline_by_path t))
           (current_by_path t) (origin_by_current_path t) (S (next_revision t)).

Definition insert_current (t : TurnDiffTracker) (path : TrackedPath) (content : rstr) : TurnDiffTracker :=
  set_maps t (baseline_by_path t)
           (<[path := tracked_content (next_revision t) content]> (current_by_path t))
           (origin_by_current_path t) (S (next_revision t)).

Definition remove_current (t : TurnDiffTracker) (path : TrackedPath) : TurnDiffTracker :=
  set_maps t (baseline_by_path t) (delete path (current_by_path t)) (origin_by_current_path t) (next_revision t).

Definition set_origin (t : TurnDiffTracker) (origin : gmap TrackedPath TrackedPath) : TurnDiffTracker :=
  set_maps t (baseline_by_path t) (current_by_path t) origin (next_revision t).

Definition tracker_add (t : TurnDiffTracker) (path : TrackedPath) (content : rstr)
    (overwritten_content : option rstr) : TurnDiffTracker :=
  let t := set_origin t (delete path (origin_by_current_path t)) in
  let t := match overwritten_content with
           | Some overwritten => if untracked t path then insert_baseline t path overwritten else t
           | None => t
           end in
  insert_current t path content.

Definition tracker_delete (t : TurnDiffTracker) (path : TrackedPath) (content : rstr) : TurnDiffTracker :=
  let t' := remove_current t path in
  let t' := if untracked t path then insert_baseline t' path content else t' in
  set_origin t' (delete path (origin_by_current_path t')).

Definition tracker_update (t : TurnDiffTracker) (source_path : TrackedPath) (move_path : option TrackedPath)
    (old_content : rstr) (overwritten_move_content : option rstr) (new_content : rstr) : TurnDiffTracker :=
  let t := if untracked t source_path then insert_baseline t source_path old_content else t in
  match move_path with
  | Some dest_path =>
      let t := match overwritten_move_content with
               | Some overwritten => if untracked t dest_path then insert_baseline t dest_path overwritten else t
               | None => t
               end in
      let origin := default source_path (origin_by_current_path t !! source_path) in
      let t := set_origin t (delete source_path (origin_by_current_path t)) in
      let t := remove_current t source_path in
      let t := insert_current t dest_path new_content in
      let t := set_origin t (delete dest_path (origin_by_current_path t)) in
      if bool_decide (dest_path = origin) then t
      else set_origin t (<[dest_path := origin]> (origin_by_current_path t))
  | None => insert_current t source_path new_content
  end.

Definition apply_change (t : TurnDiffTracker) (environment_id : rstr) (change : @AppliedPatchChange Uri)
    : TurnDiffTracker :=
  let source_path := (environment_id, ac_path change) in
  match ac_change change with
  | ChangeAdd content overwritten => tracker_add t source_path content overwritten
  | ChangeDelete content => tracker_delete t source_path content
  | ChangeUpdate move_path old_content overwritten new_content =>
      tracker_update t source_path ((fun p => (environment_id, p)) <$> move_path) old_content overwritten new_content
  end.

(** ** Rendering *)

Section Render.
(** The lines of a unified diff of two texts, with the headers of the two sides. *)
Variable unified : rstr -> rstr -> rstr -> rstr -> rstr.
Variable git_blob_oid : rstr -> rstr.
(** [PathUri::relative_path_from] and [inferred_native_path_string]. *)
Variable relative_path_from : Uri -> Uri -> option rstr.
Variable native_path : Uri -> rstr.
(** Iteration orders of hash maps. *)
Variable iter_keys : gmap TrackedPath TrackedContent -> list TrackedPath.
Variable iter_origins : gmap TrackedPath TrackedPath -> list (TrackedPath * TrackedPath).

(** [str::replace('\\', "/")]. *)
Definition to_slashes (s : rstr) : rstr := map (fun c => if (c =? 92)%Z then 47%Z else c) s.

Definition display_path (t : TurnDiffTracker) (path : TrackedPath) : rstr :=
  let '(environment_id, uri) := path in
  let display :=
    match display_roots_by_environment t !! environment_id ≫= relative_path_from uri with
    | Some d => d
    | None => native_path uri
    end in
  if (1 <? size (display_roots_by_environment t))%nat && negb (is_empty environment_id)
  then environment_id ++ lit "/" ++ display
  else display.

Definition render_diff (t : TurnDiffTracker) (left_path : TrackedPath) (left_content : option rstr)
    (right_path : TrackedPath) (right_content : option rstr) : option rstr :=
  if bool_decide (left_content = right_content) then None
  else
    let left_display := to_slashes (display_path t left_path) in
    let right_display := to_slashes (display_path t right_path) in
    let left_oid := match left_content with Some c => git_blob_oid c | None => ZERO_OID end in
    let right_oid := match right_content with Some c => git_blob_oid c | None => ZERO_OID end in
    let diff := lit "diff --git a/" ++ left_display ++ lit " b/" ++ right_display ++ [NL] in
    mode ← match left_content, right_content with
           | None, Some _ => Some (lit "new file mode " ++ REGULAR_FILE_MODE ++ [NL])
           | Some _, None => Some (lit "deleted file mode " ++ REGULAR_FILE_MODE ++ [NL])
           | Some _, Some _ => Some []
           | None, None => None
           end;
    let old_header := match left_content with Some _ => lit "a/" ++ left_display | None => DEV_NULL end in
    let new_header := match right_content with Some _ => lit "b/" ++ right_display | None => DEV_NULL end in
    Some (diff ++ mode ++ lit "index " ++ left_oid ++ lit ".." ++ right_oid ++ [NL]
          ++ unified (default [] left_content) (default [] right_content) old_header new_header).

(** One entry of [rename_pairs]. *)
Definition is_rename (t : TurnDiffTracker) (dest_path origin_path : TrackedPath) : bool :=
  negb (bool_decide (dest_path = origin_path)
        || bool_decide (is_Some (current_by_path t !! origin_path))
        || negb (bool_decide (is_Some (current_by_path t !! dest_path)))
        || negb (bool_decide (is_Some (baseline_by_path t !! origin_path)))
        || bool_decide (is_Some (baseline_by_path t !! dest_path))).

(** Origin to destination; a later entry with the same origin replaces an earlier one. *)
Definition rename_pairs (t : TurnDiffTracker) : gmap TrackedPath TrackedPath :=
  foldl (fun m '(dest_path, origin_path) =>
           if is_rename t dest_path origin_path then <[origin_path := dest_path]> m else m)
        ∅ (iter_origins (origin_by_current_path t)).

(** What the loop of [refresh_unified_diff] carries: the paths handled, what is left
    of the previous cache, the new cache and the text. *)
Record RefreshState := {
  rs_handled : gset TrackedPath;
  rs_previous : gmap DiffCacheKey (option rstr);
  rs_rendered : gmap DiffCacheKey (option rstr);
  rs_aggregated : rstr;
}.

(** [aggregated.push_str(diff)] and the newline after it. *)
Definition push_diff (aggregated : rstr) (rendered : option rstr) : rstr :=
  match rendered with
  | Some diff => let aggregated := aggregated ++ diff in
                 if ends_with [NL] aggregated then aggregated else aggregated ++ [NL]
  | None => aggregated
  end.

Definition refresh_step (t : TurnDiffTracker) (pairs : gmap TrackedPath TrackedPath)
    (paired_destinations : gset TrackedPath) (s : RefreshState) (path : TrackedPath) : RefreshState :=
  if bool_decide (path ∈ rs_handled s) then s
  else
    let handled := {[path]} ∪ rs_handled s in
    if bool_decide (path ∈ paired_destinations) then
      {| rs_handled := handled; rs_previous := rs_previous s; rs_rendered := rs_rendered s;
         rs_aggregated := rs_aggregated s |}
    else
      let right_path := default path (pairs !! path) in
      let handled := match pairs !! path with Some dest => {[dest]} ∪ handled | None => handled end in
      let left_content := baseline_by_path t !! path in
      let right_content := current_by_path t !! right_path in
      let key := (path, tc_revision <$> left_content, right_path, tc_revision <$> right_content) in
      let rendered :=
        match rs_previous s !! key with
        | Some r => r
        | None => render_diff t path (tc_content <$> left_content) right_path (tc_content <$> right_content)
        end in
      {| rs_handled := handled; rs_previous := delete key (rs_previous s);
         rs_rendered := <[key := rendered]> (rs_rendered s);
         rs_aggregated := push_diff (rs_aggregated s) rendered |}.

Definition sorted_paths (t : TurnDiffTracker) : list TrackedPath :=
  dedup (sort_by (fun a b => str_leb (display_path t a) (display_path t b))
                 (iter_keys (baseline_by_path t) ++ iter_keys (current_by_path t))).

Definition refresh_unified_diff (t : TurnDiffTracker) : TurnDiffTracker :=
  let pairs := rename_pairs t in
  let paired_destinations := list_to_set (map snd (map_to_list pairs)) in
  let s := foldl (refresh_step t pairs paired_destinations)
             {| rs_handled := ∅; rs_previous := rendered_diffs t; rs_rendered := ∅; rs_aggregated := [] |}
             (sorted_paths t) in
  {| valid := valid t; display_roots_by_environment := display_roots_by_environment t;
     baseline_by_path := baseline_by_path t; current_by_path := current_by_path t;
     origin_by_current_path := origin_by_current_path t; next_revision := next_revision t;
     rendered_diffs := rs_rendered s;
     unified_diff := if is_empty (rs_aggregated s) then None else Some (rs_aggregated s) |}.

Definition invalidate (t : TurnDiffTracker) : TurnDiffTracker :=
  {| valid := false; display_roots_by_environment := display_roots_by_environment t;
     baseline_by_path := baseline_by_path t; current_by_path := current_by_path t;
     origin_by_current_path := origin_by_current_path t; next_revision := next_revision t;
     rendered_diffs := ∅; unified_diff := None |}.

Definition track_delta (t : TurnDiffTracker) (environment_id : rstr) (delta : @AppliedPatchDelta Uri)
    : TurnDiffTracker :=
  if negb (valid t) then t
  else if negb (d_exact delta) then invalidate t
  else refresh_unified_diff (foldl (fun t c => apply_change t environment_id c) t (d_changes delta)).

End Render.
End Tracker.

(** ** The tracker follows the files *)

Section Consistency.
Context {Uri : Type} `{Countable Uri}.
Set Default Proof Using "Type".

Abbreviation tracker := (@TurnDiffTracker Uri _ _).
Abbreviation TrackedPath := (list Z * Uri)%type.
Abbreviation DiffCacheKey := ((list Z * Uri) * option nat * (list Z * Uri) * option nat)%type.

(** The files of every environment. *)
Abbreviation world := (rstr -> gmap Uri rstr).

Definition set_env (w : world) (env : rstr) (files : gmap Uri rstr) : world :=
  fun e => if bool_decide (e = env) then files else w e.

(** What the two entries of a path say of its text at the start of the turn and now. *)
Definition entry_ok (current baseline : option TrackedContent) (start now : option rstr) : Prop :=
  match current, baseline with
  | Some c, b => now = Some (tc_content c) /\ start = tc_content <$> b
  | None, Some b => start = Some (tc_content b) /\ now = None
  | None, None => now = start
  end.

Definition consistent (t : tracker) (w0 w : world) : Prop :=
  forall env p, entry_ok (current_by_path t !! (env, p)) (baseline_by_path t !! (env, p)) (w0 env !! p) (w env !! p).

(** Only the entries and the text of one path change. *)
Lemma consistent_one (t t' : tracker) w0 w env p v' :
  consistent t w0 w ->
  (forall q, q ≠ (env, p) -> current_by_path t' !! q = current_by_path t !! q /\
                             baseline_by_path t' !! q = baseline_by_path t !! q) ->
  (forall q, q ≠ p -> v' !! q = w env !! q) ->
  entry_ok (current_by_path t' !! (env, p)) (baseline_by_path t' !! (env, p)) (w0 env !! p) (v' !! p) ->
  consistent t' w0 (set_env w env v').
Proof.
  intros Hc Hmaps Hfiles Hp e q. unfold set_env. case_bool_decide as He.
  - subst e. destruct (decide (q = p)) as [->|Hq]; [done|].
    destruct (Hmaps (env, q)) as [-> ->]; [congruence|]. rewrite Hfiles by done. apply Hc.
  - destruct (Hmaps (e, q)) as [-> ->]; [congruence|]. apply Hc.
Qed.

Lemma untracked_entry (t : tracker) q :
  untracked t q = true <-> current_by_path t !! q = None /\ baseline_by_path t !! q = None.
Proof. unfold untracked. repeat case_match; naive_solver. Qed.

Lemma untracked_false (t : tracker) q :
  untracked t q = false <-> is_Some (current_by_path t !! q) \/ is_Some (baseline_by_path t !! q).
Proof. unfold untracked. repeat case_match; unfold is_Some; naive_solver. Qed.

Lemma tracker_add_entries (t : tracker) q content ov :
  (forall r, r ≠ q ->
     current_by_path (tracker_add t q content ov) !! r = current_by_path t !! r /\
     baseline_by_path (tracker_add t q content ov) !! r = baseline_by_path t !! r) /\
  (exists n, current_by_path (tracker_add t q content ov) !! q = Some (tracked_content n content)) /\
  tc_content <$> baseline_by_path (tracker_add t q content ov) !! q =
    if untracked t q then ov else tc_content <$> baseline_by_path t !! q.
Proof.
  unfold tracker_add. change (untracked (set_origin t _) q) with (untracked t q).
  destruct ov as [o|]; [destruct (untracked t q) eqn:E|]; simpl; split_and!;
    try (intros r Hr; rewrite ?lookup_insert_ne by done; done);
    try (eexists; by rewrite lookup_insert_eq); try by rewrite lookup_insert_eq.
  destruct (untracked t q) eqn:E; [|done]. apply untracked_entry in E as [_ ->]. done.
Qed.

Lemma add_consistent (t : tracker) w0 w env p content ov :
  consistent t w0 w -> w env !! p = ov ->
  consistent (tracker_add t (env, p) content ov) w0 (set_env w env (<[p := content]> (w env))).
Proof.
  intros Hc Hov. destruct (tracker_add_entries t (env, p) content ov) as (Hother & [n Hcur] & Hbase).
  apply (consistent_one t _ w0 w env p); [done|done|by intros; apply lookup_insert_ne|].
  rewrite Hcur, lookup_insert_eq. split; [done|]. rewrite Hbase. pose proof (Hc env p) as Hp.
  destruct (untracked t (env, p)) eqn:E.
  - apply untracked_entry in E as [E1 E2]. rewrite E1, E2 in Hp. simpl in Hp. congruence.
  - apply untracked_false in E. unfold entry_ok in Hp.
    destruct (current_by_path t !! (env, p)), (baseline_by_path t !! (env, p)); simpl in *;
      destruct E as [[? ?]|[? ?]]; naive_solver.
Qed.

Lemma delete_consistent (t : tracker) w0 w env p content :
  consistent t w0 w -> w env !! p = Some content ->
  consistent (tracker_delete t (env, p) content) w0 (set_env w env (delete p (w env))).
Proof.
  intros Hc Hp. pose proof (Hc env p) as He. unfold tracker_delete.
  destruct (untracked t (env, p)) eqn:E.
  - apply untracked_entry in E as [E1 E2]. rewrite E1, E2 in He. simpl in He.
    apply (consistent_one t _ w0 w env p); [done| |by intros; apply lookup_delete_ne|]; simpl.
    + intros q Hq. by rewrite lookup_delete_ne, lookup_insert_ne.
    + rewrite lookup_delete_eq, lookup_insert_eq, lookup_delete_eq. simpl. split; congruence.
  - apply untracked_false in E.
    apply (consistent_one t _ w0 w env p); [done| |by intros; apply lookup_delete_ne|]; simpl.
    + intros q Hq. by rewrite lookup_delete_ne.
    + rewrite !lookup_delete_eq. unfold entry_ok in *.
      destruct (current_by_path t !! (env, p)), (baseline_by_path t !! (env, p)); simpl in *;
        destruct E as [[? ?]|[? ?]]; naive_solver congruence.
Qed.

(** Recording the old text of a path that is about to change keeps the tracker
    consistent in a wider sense: the path now counts as tracked. *)
Definition recorded (t : tracker) (q : TrackedPath) (old : option rstr) : tracker :=
  match old with
  | Some old => if untracked t q then insert_baseline t q old else t
  | None => t
  end.

Lemma recorded_entries (t : tracker) q old :
  current_by_path (recorded t q old) = current_by_path t /\
  (forall r, r ≠ q -> baseline_by_path (recorded t q old) !! r = baseline_by_path t !! r) /\
  tc_content <$> baseline_by_path (recorded t q old) !! q =
    if untracked t q then old else tc_content <$> baseline_by_path t !! q.
Proof.
  unfold recorded. destruct old as [o|]; [destruct (untracked t q) eqn:E|]; simpl; split_and!; try done.
  - intros r Hr. by rewrite lookup_insert_ne.
  - by rewrite lookup_insert_eq.
  - destruct (untracked t q) eqn:E; [|done]. apply untracked_entry in E as [_ ->]. done.
Qed.

(** Once the old text is recorded, the baseline is the text at the start of the turn. *)
Lemma recorded_start (t : tracker) w0 w env p old :
  consistent t w0 w -> w env !! p = old ->
  tc_content <$> baseline_by_path (recorded t (env, p) old) !! (env, p) = w0 env !! p.
Proof.
  intros Hc Hold. destruct (recorded_entries t (env, p) old) as (_ & _ & ->).
  pose proof (Hc env p) as Hp. destruct (untracked t (env, p)) eqn:E.
  - apply untracked_entry in E as [E1 E2]. rewrite E1, E2 in Hp. simpl in Hp. congruence.
  - apply untracked_false in E. unfold entry_ok in Hp.
    destruct (current_by_path t !! (env, p)), (baseline_by_path t !! (env, p)); simpl in *;
      destruct E as [[? ?]|[? ?]]; naive_solver.
Qed.

Lemma untracked_recorded (t : tracker) q r old : r ≠ q -> untracked (recorded t q old) r = untracked t r.
Proof.
  intros Hr. destruct (recorded_entries t q old) as (Hcur & Hother & _).
  unfold untracked. by rewrite Hcur, Hother.
Qed.

(** An entry whose baseline is the text at the start of the turn. *)
Lemma entry_current c b start : tc_content <$> b = start -> entry_ok (Some c) b start (Some (tc_content c)).
Proof. by intros <-. Qed.

Lemma entry_gone b start : tc_content <$> b = start -> entry_ok None b start None.
Proof. intros <-. by destruct b. Qed.

Lemma update_consistent (t : tracker) w0 w env p old new :
  consistent t w0 w -> w env !! p = Some old ->
  consistent (tracker_update t (env, p) None old None new) w0 (set_env w env (<[p := new]> (w env))).
Proof.
  intros Hc Hold. pose proof (recorded_start t w0 w env p _ Hc Hold) as Hstart.
  destruct (recorded_entries t (env, p) (Some old)) as (Hcur & Hother & _).
  change (tracker_update t (env, p) None old None new) with (insert_current (recorded t (env, p) (Some old)) (env, p) new).
  apply (consistent_one t _ w0 w env p); [done| |by intros; apply lookup_insert_ne|].
  - intros q Hq. cbn [insert_current set_maps current_by_path baseline_by_path].
    by rewrite Hcur, lookup_insert_ne, Hother.
  - cbn [insert_current set_maps current_by_path baseline_by_path]. rewrite !lookup_insert_eq. by apply entry_current.
Qed.

Lemma tracker_move_maps (t : tracker) s d old ov new :
  let t2 := recorded (recorded t s (Some old)) d ov in
  let t' := tracker_update t s (Some d) old ov new in
  baseline_by_path t' = baseline_by_path t2 /\
  exists n, current_by_path t' = <[d := tracked_content n new]> (delete s (current_by_path t)).
Proof.
  intros t2 t'. assert (current_by_path t2 = current_by_path t) as Hcur.
  { unfold t2. destruct (recorded_entries (recorded t s (Some old)) d ov) as (-> & _).
    by destruct (recorded_entries t s (Some old)) as (-> & _). }
  unfold t', tracker_update. fold (recorded t s (Some old)).
  change (match ov with Some overwritten => if untracked (recorded t s (Some old)) d
            then insert_baseline (recorded t s (Some old)) d overwritten else recorded t s (Some old)
          | None => recorded t s (Some old) end) with t2.
  case_bool_decide; simpl; rewrite Hcur; eauto.
Qed.

Lemma move_consistent (t : tracker) w0 w env p d old ov new :
  consistent t w0 w -> p ≠ d -> w env !! p = Some old -> w env !! d = ov ->
  consistent (tracker_update t (env, p) (Some (env, d)) old ov new) w0
             (set_env w env (<[d := new]> (delete p (w env)))).
Proof.
  intros Hc Hne Hold Hov.
  pose proof (recorded_start t w0 w env p _ Hc Hold) as Hsp.
  pose proof (recorded_start t w0 w env d _ Hc Hov) as Hsd.
  destruct (tracker_move_maps t (env, p) (env, d) old ov new) as (Hb & n & Hcur).
  set (t1 := recorded t (env, p) (Some old)) in *.
  destruct (recorded_entries t (env, p) (Some old)) as (_ & Hother1 & _). fold t1 in Hother1.
  destruct (recorded_entries t1 (env, d) ov) as (_ & Hother2 & Hd2).
  destruct (recorded_entries t (env, d) ov) as (_ & _ & Hd).
  assert ((env, d) ≠ (env, p)) as Hdp by congruence.
  intros e q. rewrite Hb, Hcur. unfold set_env.
  destruct (decide ((e, q) = (env, d))) as [[= -> ->]|Hqd].
  - rewrite bool_decide_eq_true_2 by done. rewrite !lookup_insert_eq. apply entry_current.
    rewrite Hd2, <- Hsd, Hd. unfold t1. rewrite untracked_recorded by done. fold t1. by rewrite Hother1.
  - rewrite lookup_insert_ne by congruence. rewrite Hother2 by done.
    destruct (decide ((e, q) = (env, p))) as [[= -> ->]|Hqp].
    + rewrite bool_decide_eq_true_2 by done.
      rewrite lookup_delete_eq, lookup_insert_ne, lookup_delete_eq by congruence. by apply entry_gone.
    + rewrite lookup_delete_ne by congruence. rewrite Hother1 by done.
      case_bool_decide as He; [|apply Hc]. subst e.
      rewrite lookup_insert_ne, lookup_delete_ne by congruence. apply Hc.
Qed.

Lemma apply_change_consistent (t : tracker) w0 w env c v' :
  consistent t w0 w -> change_step (w env) c v' -> consistent (apply_change t env c) w0 (set_env w env v').
Proof.
  intros Hc Hs. inversion Hs; subst; simpl.
  - by apply add_consistent.
  - by apply delete_consistent.
  - by apply update_consistent.
  - by apply move_consistent.
Qed.

Lemma set_env_twice w env a b e : set_env (set_env w env a) env b e = set_env w env b e.
Proof. unfold set_env. by case_bool_decide. Qed.

Lemma consistent_ext (t : tracker) w0 w w' : consistent t w0 w -> (forall e, w' e = w e) -> consistent t w0 w'.
Proof. intros Hc Hw e p. rewrite Hw. apply Hc. Qed.

Lemma apply_changes_consistent (t : tracker) w0 w env cs v' :
  consistent t w0 w -> change_steps (w env) cs v' ->
  consistent (foldl (fun t c => apply_change t env c) t cs) w0 (set_env w env v').
Proof.
  intros Hc Hs. remember (w env) as v eqn:Hv. revert t w Hv Hc.
  induction Hs as [v|v c v1 cs v2 Hstep Hrest IH]; intros t w -> Hc; simpl.
  - eapply consistent_ext; [exact Hc|]. intros e. unfold set_env. by case_bool_decide; subst.
  - eapply consistent_ext; [apply (IH _ (set_env w env v1))|].
    + unfold set_env. by rewrite bool_decide_eq_true_2.
    + by apply apply_change_consistent.
    + intros e. symmetry. apply set_env_twice.
Qed.

(** ** Rendering *)

Variable unified : rstr -> rstr -> rstr -> rstr -> rstr.
Variable git_blob_oid : rstr -> rstr.
Variable relative_path_from : Uri -> Uri -> option rstr.
Variable native_path : Uri -> rstr.
Variable iter_keys : gmap TrackedPath TrackedContent -> list TrackedPath.
Variable iter_origins : gmap TrackedPath TrackedPath -> list (TrackedPath * TrackedPath).

(** A hash map is iterated over its own entries. *)
Hypothesis iter_keys_spec : forall m k, k ∈ iter_keys m <-> is_Some (m !! k).

Abbreviation render := (render_diff unified git_blob_oid relative_path_from native_path).
Abbreviation step := (refresh_step unified git_blob_oid relative_path_from native_path).
Abbreviation refresh := (refresh_unified_diff unified git_blob_oid relative_path_from native_path iter_keys iter_origins).
Abbreviation track :=
  (track_delta unified git_blob_oid relative_path_from native_path iter_keys iter_origins).
Abbreviation paths_of := (sorted_paths relative_path_from native_path iter_keys).
Abbreviation pairs_of := (rename_pairs iter_origins).

(** A turn: exact deltas, each describing how the files of its environment changed. *)
Inductive turn : list (rstr * @AppliedPatchDelta Uri) -> world -> world -> Prop :=
| turn_nil w : turn [] w w
| turn_cons env d v' ds w w2 :
    d_exact d = true -> change_steps (w env) (d_changes d) v' -> turn ds (set_env w env v') w2 ->
    turn ((env, d) :: ds) w w2.

Definition track_all (t : tracker) (ds : list (rstr * @AppliedPatchDelta Uri)) : tracker :=
  foldl (fun t '(env, d) => track t env d) t ds.

Lemma apply_change_valid (t : tracker) env c : valid (apply_change t env c) = valid t.
Proof.
  unfold apply_change, tracker_add, tracker_delete, tracker_update. destruct (ac_change c); simpl; by repeat case_match.
Qed.

Lemma apply_changes_valid (t : tracker) env cs : valid (foldl (fun t c => apply_change t env c) t cs) = valid t.
Proof. revert t. induction cs as [|c cs IH]; intros t; simpl; [done|]. by rewrite IH, apply_change_valid. Qed.

Lemma track_all_consistent (t : tracker) ds w0 w w' :
  valid t = true -> consistent t w0 w -> turn ds w w' ->
  valid (track_all t ds) = true /\ consistent (track_all t ds) w0 w'.
Proof.
  intros Hv Hc Hturn. revert t Hv Hc. induction Hturn as [w|env d v' ds w w2 Hex Hsteps _ IH]; intros t Hv Hc; simpl.
  - done.
  - apply IH; unfold track_delta; rewrite Hv, Hex; simpl; [by rewrite apply_changes_valid|].
    intros e p. by apply (apply_changes_consistent t w0 w env (d_changes d) v').
Qed.

(** C29. The tracker follows the files: after any turn of exact deltas (in any number
    of environments, with files added, overwritten, deleted, updated and moved in any
    order), the tracker is still valid, and for every path its baseline entry is the
    text the file had when the turn started and its current entry the text it has
    now; a path it does not know is unchanged. *)
Theorem tracker_follows_files roots ds w0 w :
  turn ds w0 w ->
  let t := track_all (with_environment_display_roots roots) ds in
  valid t = true /\
  forall env p,
    (tc_content <$> baseline_by_path t !! (env, p) = w0 env !! p /\
     tc_content <$> current_by_path t !! (env, p) = w env !! p) \/
    (current_by_path t !! (env, p) = None /\ baseline_by_path t !! (env, p) = None /\ w env !! p = w0 env !! p).
Proof.
  intros Hturn t. destruct (track_all_consistent (with_environment_display_roots roots) ds w0 w0 w) as [Hv Hc]; [done| |done|].
  { intros env p. simpl. by rewrite !lookup_empty. }
  split; [done|]. intros env p. pose proof (Hc env p) as He. fold t in He. unfold entry_ok in He.
  destruct (current_by_path t !! (env, p)) as [c|], (baseline_by_path t !! (env, p)) as [b|]; simpl in *;
    [left; by destruct He..|right; done].
Qed.

(** *** The cache *)

(** Every revision in use stands for one text, and every cached diff is the diff of
    the texts its revisions stand for. *)
Definition known (h : nat -> option rstr) (next : nat) (tc : option TrackedContent) : Prop :=
  match tc with Some c => h (tc_revision c) = Some (tc_content c) /\ tc_revision c < next | None => True end.

Definition rev_known (next : nat) (r : option nat) : Prop := match r with Some n => n < next | None => True end.

Definition cache_good (t : tracker) (h : nat -> option rstr) (cache : gmap DiffCacheKey (option rstr)) : Prop :=
  forall l lr r rr v, cache !! (l, lr, r, rr) = Some v ->
    v = render t l (lr ≫= h) r (rr ≫= h) /\ rev_known (next_revision t) lr /\ rev_known (next_revision t) rr.

Definition maps_good (t : tracker) (h : nat -> option rstr) : Prop :=
  forall q, known h (next_revision t) (baseline_by_path t !! q) /\ known h (next_revision t) (current_by_path t !! q).

(** What an entry of the loop should render. *)
Definition fresh (t : tracker) (l r : TrackedPath) : option rstr :=
  render t l (tc_content <$> baseline_by_path t !! l) r (tc_content <$> current_by_path t !! r).

Lemma known_content h next tc : known h next tc -> (tc_revision <$> tc) ≫= h = tc_content <$> tc.
Proof. destruct tc; simpl; [|done]. by intros [? _]. Qed.

Lemma known_rev h next tc : known h next tc -> rev_known next (tc_revision <$> tc).
Proof. destruct tc; simpl; [|done]. by intros [_ ?]. Qed.

(** What one turn of the loop does, whatever is in the cache. *)
Lemma refresh_step_spec (t : tracker) h pairs pd s path :
  maps_good t h -> cache_good t h (rs_previous s) -> cache_good t h (rs_rendered s) ->
  let s' := step t pairs pd s path in
  cache_good t h (rs_previous s') /\ cache_good t h (rs_rendered s') /\
  if bool_decide (path ∈ rs_handled s) then s' = s
  else if bool_decide (path ∈ pd) then
    rs_handled s' = {[path]} ∪ rs_handled s /\ rs_aggregated s' = rs_aggregated s
  else
    rs_handled s' = match pairs !! path with Some dest => {[dest]} ∪ ({[path]} ∪ rs_handled s)
                                           | None => {[path]} ∪ rs_handled s end /\
    rs_aggregated s' = push_diff (rs_aggregated s) (fresh t path (default path (pairs !! path))).
Proof.
  intros Hm Hp Hr s'. unfold s', refresh_step.
  destruct (bool_decide (path ∈ rs_handled s)); [done|].
  destruct (bool_decide (path ∈ pd)); [done|].
  set (r := default path (pairs !! path)). simpl.
  set (key := (path, tc_revision <$> baseline_by_path t !! path, r, tc_revision <$> current_by_path t !! r)).
  destruct (Hm path) as [Hb _]. destruct (Hm r) as [_ Hc].
  assert (forall v, (rs_previous s !! key = Some v -> v = fresh t path r)) as Hcached.
  { intros v Hv. apply Hp in Hv as (-> & _). by rewrite (known_content h _ _ Hb), (known_content h _ _ Hc). }
  set (rendered := match rs_previous s !! key with Some v => v | None => _ end).
  assert (rendered = fresh t path r) as Hren.
  { unfold rendered. destruct (rs_previous s !! key) eqn:E; [by apply Hcached|done]. }
  clearbody rendered. subst rendered. split_and!; [| |done|done].
  - intros l lr r' rr v Hv. apply lookup_delete_Some in Hv as [_ Hv]. by apply Hp.
  - intros l lr r' rr v Hv. apply lookup_insert_Some in Hv as [[Hk <-]|[_ Hv]]; [|by apply Hr].
    unfold key in Hk. injection Hk as <- <- <- <-.
    rewrite (known_content h _ _ Hb), (known_content h _ _ Hc).
    split_and!; [done|by eapply known_rev|by eapply known_rev].
Qed.

(** The loop produces the same text whatever good cache it starts from. *)
Lemma refresh_fold_text (t : tracker) h pairs pd paths s1 s2 :
  maps_good t h ->
  cache_good t h (rs_previous s1) -> cache_good t h (rs_rendered s1) ->
  cache_good t h (rs_previous s2) -> cache_good t h (rs_rendered s2) ->
  rs_handled s1 = rs_handled s2 -> rs_aggregated s1 = rs_aggregated s2 ->
  rs_aggregated (foldl (step t pairs pd) s1 paths) = rs_aggregated (foldl (step t pairs pd) s2 paths) /\
  cache_good t h (rs_rendered (foldl (step t pairs pd) s1 paths)).
Proof.
  intros Hm. revert s1 s2. induction paths as [|p paths IH]; intros s1 s2 Hp1 Hr1 Hp2 Hr2 Hh Ha; simpl; [done|].
  destruct (refresh_step_spec t h pairs pd s1 p Hm Hp1 Hr1) as (Hp1' & Hr1' & H1).
  destruct (refresh_step_spec t h pairs pd s2 p Hm Hp2 Hr2) as (Hp2' & Hr2' & H2).
  rewrite <- Hh in H2. apply IH; try done.
  - case_bool_decide; [by rewrite H1, H2|]. case_bool_decide; destruct H1 as [-> _], H2 as [-> _]; done.
  - case_bool_decide; [by rewrite H1, H2|]. case_bool_decide; destruct H1 as [_ ->], H2 as [_ ->]; by rewrite Ha.
Qed.

Lemma cache_good_empty (t : tracker) h : cache_good t h ∅.
Proof. intros l lr r rr v Hv. by rewrite lookup_empty in Hv. Qed.

(** A tracker whose cache can be trusted. *)
Definition tracker_good (t : tracker) : Prop :=
  exists h, maps_good t h /\ cache_good t h (rendered_diffs t).

(** Rendering looks at the display roots only. *)
Lemma render_roots (t t' : tracker) l lc r rc :
  display_roots_by_environment t' = display_roots_by_environment t -> render t' l lc r rc = render t l lc r rc.
Proof. intros Hr. unfold render_diff, display_path. destruct l, r. by rewrite Hr. Qed.

Lemma rev_known_bind (h h' : nat -> option rstr) next r :
  (forall n, n < next -> h' n = h n) -> rev_known next r -> r ≫= h' = r ≫= h.
Proof. intros Hh. destruct r; simpl; [|done]. apply Hh. Qed.

(** A change of the maps that keeps the roots and the cache, and uses old or new
    revisions, keeps the cache good. *)
Lemma tracker_good_step (t t' : tracker) content :
  tracker_good t -> display_roots_by_environment t' = display_roots_by_environment t ->
  rendered_diffs t' = rendered_diffs t -> next_revision t <= next_revision t' <= S (next_revision t) ->
  (forall q, baseline_by_path t' !! q = baseline_by_path t !! q \/ baseline_by_path t' !! q = None \/
     (next_revision t' = S (next_revision t) /\
      baseline_by_path t' !! q = Some (tracked_content (next_revision t) content))) ->
  (forall q, current_by_path t' !! q = current_by_path t !! q \/ current_by_path t' !! q = None \/
     (next_revision t' = S (next_revision t) /\
      current_by_path t' !! q = Some (tracked_content (next_revision t) content))) ->
  tracker_good t'.
Proof.
  intros (h & Hm & Hc) Hroots Hcache Hn Hb Hcur.
  set (h' := fun n => if bool_decide (n = next_revision t) then Some content else h n).
  assert (forall n, n < next_revision t -> h' n = h n) as Hh.
  { intros n Hlt. unfold h'. rewrite bool_decide_eq_false_2 by lia. done. }
  assert (forall tc, known h (next_revision t) tc -> known h' (next_revision t') tc) as Hk.
  { intros [c|]; simpl; [|done]. intros [Hx Hlt]. rewrite Hh by done. split; [done|lia]. }
  assert (next_revision t' = S (next_revision t) ->
          known h' (next_revision t') (Some (tracked_content (next_revision t) content))) as Hnew.
  { intros ->. simpl. unfold h'. rewrite bool_decide_eq_true_2 by done. split; [done|lia]. }
  exists h'. split.
  - intros q. destruct (Hm q) as [Hmb Hmc]. split.
    + destruct (Hb q) as [->|[->|[E ->]]]; [by apply Hk|done|by apply Hnew].
    + destruct (Hcur q) as [->|[->|[E ->]]]; [by apply Hk|done|by apply Hnew].
  - rewrite Hcache. intros l lr r rr v Hv. apply Hc in Hv as (-> & Hl & Hr).
    rewrite (rev_known_bind h h' (next_revision t) lr), (rev_known_bind h h' (next_revision t) rr) by done.
    split_and!.
    + by rewrite (render_roots t t').
    + destruct lr; simpl in *; [lia|done].
    + destruct rr; simpl in *; [lia|done].
Qed.

Lemma insert_baseline_good (t : tracker) q content : tracker_good t -> tracker_good (insert_baseline t q content).
Proof.
  intros Hg. apply (tracker_good_step t _ content); simpl; try done; [lia| |by left].
  intros r. destruct (decide (r = q)) as [->|Hne]; [right; right; by rewrite lookup_insert_eq|left].
  by rewrite lookup_insert_ne.
Qed.

Lemma insert_current_good (t : tracker) q content : tracker_good t -> tracker_good (insert_current t q content).
Proof.
  intros Hg. apply (tracker_good_step t _ content); simpl; try done; [lia|by left|].
  intros r. destruct (decide (r = q)) as [->|Hne]; [right; right; by rewrite lookup_insert_eq|left].
  by rewrite lookup_insert_ne.
Qed.

Lemma remove_current_good (t : tracker) q : tracker_good t -> tracker_good (remove_current t q).
Proof.
  intros Hg. apply (tracker_good_step t _ []); simpl; try done; [lia|by left|].
  intros r. destruct (decide (r = q)) as [->|Hne]; [right; left; by rewrite lookup_delete_eq|left].
  by rewrite lookup_delete_ne.
Qed.

Lemma set_origin_good (t : tracker) o : tracker_good t -> tracker_good (set_origin t o).
Proof. intros Hg. apply (tracker_good_step t _ []); simpl; try done; [lia|by left|by left]. Qed.

Lemma apply_change_good (t : tracker) env c : tracker_good t -> tracker_good (apply_change t env c).
Proof.
  intros Hg. unfold apply_change, tracker_add, tracker_delete, tracker_update.
  destruct (ac_change c) as [content ov|content|[d|] old ov new]; cbn [fmap option_fmap option_map];
    repeat case_match;
    repeat first [apply set_origin_good|apply insert_current_good|apply insert_baseline_good
                 |apply remove_current_good]; done.
Qed.

Lemma refresh_good (t : tracker) : tracker_good t -> tracker_good (refresh t).
Proof.
  intros (h & Hm & Hc). exists h. split; [exact Hm|].
  unfold refresh_unified_diff. cbn [rendered_diffs].
  set (s := {| rs_handled := ∅; rs_previous := rendered_diffs t; rs_rendered := ∅; rs_aggregated := [] |}).
  destruct (refresh_fold_text t h (pairs_of t) (list_to_set (map snd (map_to_list (pairs_of t)))) (paths_of t) s s)
    as [_ Hg]; first [done|apply cache_good_empty].
Qed.

Definition clear_cache (t : tracker) : tracker :=
  {| valid := valid t; display_roots_by_environment := display_roots_by_environment t;
     baseline_by_path := baseline_by_path t; current_by_path := current_by_path t;
     origin_by_current_path := origin_by_current_path t; next_revision := next_revision t;
     rendered_diffs := ∅; unified_diff := unified_diff t |}.

Lemma refresh_clear (t : tracker) :
  tracker_good t -> unified_diff (refresh t) = unified_diff (refresh (clear_cache (refresh t))).
Proof.
  intros (h & Hm & Hc). unfold refresh_unified_diff at 1 2. cbn [unified_diff].
  change (paths_of (clear_cache (refresh t))) with (paths_of t).
  change (pairs_of (clear_cache (refresh t))) with (pairs_of t).
  set (s1 := {| rs_handled := ∅; rs_previous := rendered_diffs t; rs_rendered := ∅; rs_aggregated := [] |}).
  change (rendered_diffs (clear_cache (refresh t))) with (∅ : gmap DiffCacheKey (option rstr)).
  set (s2 := {| rs_handled := ∅; rs_previous := ∅; rs_rendered := ∅; rs_aggregated := [] |}).
  change (step (clear_cache (refresh t))) with (step t).
  destruct (refresh_fold_text t h (pairs_of t) (list_to_set (map snd (map_to_list (pairs_of t)))) (paths_of t) s1 s2)
    as [-> _]; try done; apply cache_good_empty.
Qed.

Lemma apply_changes_good (t : tracker) env cs :
  tracker_good t -> tracker_good (foldl (fun t c => apply_change t env c) t cs).
Proof.
  revert t. induction cs as [|c cs IH]; intros t Hg; simpl; [done|]. by apply IH, apply_change_good.
Qed.

Lemma track_good (t : tracker) env d : tracker_good t -> tracker_good (track t env d).
Proof.
  intros Hg. unfold track_delta. case_match; [done|]. case_match.
  - destruct Hg as (h & Hm & _). exists h. split; [exact Hm|apply cache_good_empty].
  - by apply refresh_good, apply_changes_good.
Qed.

Lemma track_all_good ds (t : tracker) : tracker_good t -> tracker_good (track_all t ds).
Proof. revert t. induction ds as [|[e d] ds IH]; intros t Hg; simpl; [done|]. by apply IH, track_good. Qed.

Lemma with_roots_good roots : tracker_good (with_environment_display_roots roots).
Proof.
  exists (fun _ => None). split; [|apply cache_good_empty]. intros q. simpl. by rewrite !lookup_empty.
Qed.

(** A valid tracker that has seen a delta has just been refreshed. *)
Lemma track_all_refreshed (t : tracker) ds :
  ds ≠ [] -> valid (track_all t ds) = true -> tracker_good t ->
  exists t1, track_all t ds = refresh t1 /\ tracker_good t1.
Proof.
  intros Hne Hv Hg. destruct (exists_last Hne) as (ds' & [env d] & ->).
  unfold track_all in *. rewrite foldl_app in *. simpl in *.
  pose proof (track_all_good ds' t Hg) as Hg'. unfold track_all in Hg'.
  set (t0 := foldl _ t ds') in *. clearbody t0. unfold track_delta in *.
  destruct (valid t0) eqn:E; simpl in *; [|congruence].
  destruct (d_exact d); simpl in *; [|done]. eexists. split; [done|]. by apply apply_changes_good.
Qed.

(** The cache is transparent: whatever deltas a tracker has been fed, in
    whatever order its hash maps iterate, the diff it reports is the diff it would
    render with an empty cache. *)
Theorem diff_cache_transparent roots ds :
  let t := track_all (with_environment_display_roots roots) ds in
  ds ≠ [] -> valid t = true -> unified_diff t = unified_diff (refresh (clear_cache t)).
Proof.
  intros t Hne Hv. destruct (track_all_refreshed _ ds Hne Hv (with_roots_good roots)) as (t1 & E & Hg).
  unfold t. rewrite E. by apply refresh_clear.
Qed.

(** *** Completeness *)

(** Renames are what [is_rename] accepts. *)
Lemma rename_pairs_spec (t : tracker) o d : pairs_of t !! o = Some d -> is_rename t d o = true.
Proof.
  unfold rename_pairs. generalize (iter_origins (origin_by_current_path t)). intros l.
  assert (forall (m : gmap TrackedPath TrackedPath), (forall o d, m !! o = Some d -> is_rename t d o = true) ->
    forall o d, foldl (fun m '(dest_path, origin_path) =>
           if is_rename t dest_path origin_path then <[origin_path := dest_path]> m else m) m l !! o = Some d ->
      is_rename t d o = true) as Hgen.
  { induction l as [|[d0 o0] l IH]; intros m Hm; simpl; [done|]. apply IH.
    destruct (is_rename t d0 o0) eqn:E; [|done]. intros o1 d1 H1.
    apply lookup_insert_Some in H1 as [[<- <-]|[_ H1]]; [done|by apply Hm]. }
  apply Hgen. intros o1 d1 H1. by rewrite lookup_empty in H1.
Qed.

Lemma is_rename_spec (t : tracker) d o :
  is_rename t d o = true ->
  d ≠ o /\ current_by_path t !! o = None /\ is_Some (current_by_path t !! d) /\
  is_Some (baseline_by_path t !! o) /\ baseline_by_path t !! d = None.
Proof.
  unfold is_rename. rewrite negb_true_iff, !orb_false_iff, !negb_false_iff, !bool_decide_eq_false, !bool_decide_eq_true.
  rewrite <- !eq_None_not_Some. tauto.
Qed.

Definition destinations (t : tracker) : gset TrackedPath := list_to_set (map snd (map_to_list (pairs_of t))).

Lemma destinations_spec (t : tracker) d : d ∈ destinations t <-> exists o, pairs_of t !! o = Some d.
Proof.
  unfold destinations. rewrite elem_of_list_to_set.
  change (@map (TrackedPath * TrackedPath) TrackedPath) with (@fmap list list_fmap (TrackedPath * TrackedPath) TrackedPath).
  rewrite list_elem_of_fmap. split.
  - intros ([o d'] & -> & Hin). apply elem_of_map_to_list in Hin. by exists o.
  - intros (o & Ho). exists (o, d). split; [done|]. by apply elem_of_map_to_list.
Qed.

Definition emitted (t : tracker) (pairs : gmap TrackedPath TrackedPath) (l : TrackedPath) (text : rstr) : Prop :=
  match fresh t l (default l (pairs !! l)) with
  | Some d => exists a b, text = a ++ d ++ b
  | None => True
  end.

Lemma push_diff_extends text r : exists x, push_diff text r = text ++ x.
Proof.
  unfold push_diff. destruct r as [d|]; [|exists []; by rewrite app_nil_r].
  case_match; rewrite <- ?app_assoc; eauto.
Qed.

Lemma push_diff_contains text d : exists a b, push_diff text (Some d) = a ++ d ++ b.
Proof.
  unfold push_diff. case_match; [exists text, []; by rewrite app_nil_r|exists text, [NL]; by rewrite app_assoc].
Qed.

Lemma emitted_extends t pairs l text x : emitted t pairs l text -> emitted t pairs l (text ++ x).
Proof.
  unfold emitted. case_match; [|done]. intros (a & b & ->). exists a, (b ++ x). by rewrite !app_assoc.
Qed.

Lemma refresh_fold_emitted (t : tracker) h paths s :
  maps_good t h -> cache_good t h (rs_previous s) -> cache_good t h (rs_rendered s) ->
  (forall l, l ∈ rs_handled s -> l ∈ destinations t \/ emitted t (pairs_of t) l (rs_aggregated s)) ->
  let s' := foldl (step t (pairs_of t) (destinations t)) s paths in
  forall l, l ∈ paths -> l ∉ destinations t -> emitted t (pairs_of t) l (rs_aggregated s').
Proof.
  intros Hm Hp Hr Hinv s'.
  assert (forall l, l ∈ paths \/ l ∈ rs_handled s ->
            l ∈ destinations t \/ emitted t (pairs_of t) l (rs_aggregated s')) as Hall.
  2: { intros l Hl Hnd. by destruct (Hall l (or_introl Hl)). }
  unfold s'. clear s'. revert s Hp Hr Hinv. induction paths as [|p paths IH]; intros s Hp Hr Hinv l Hl; simpl.
  { destruct Hl as [Hl|Hl]; [by apply not_elem_of_nil in Hl|by apply Hinv]. }
  destruct (refresh_step_spec t h (pairs_of t) (destinations t) s p Hm Hp Hr) as (Hp' & Hr' & Hs).
  set (s1 := step t (pairs_of t) (destinations t) s p) in *. clearbody s1.
  assert (p ∈ rs_handled s1 /\ (forall q, q ∈ rs_handled s -> q ∈ rs_handled s1) /\
    forall q, q ∈ rs_handled s1 -> q ∈ destinations t \/ emitted t (pairs_of t) q (rs_aggregated s1)) as (H1 & H2 & H3).
  { case_bool_decide as E1; [subst s1; done|]. case_bool_decide as E2.
    - destruct Hs as [-> ->]. split_and!; [apply elem_of_union_l, elem_of_singleton; done|intros; by apply elem_of_union_r|].
      intros q Hq. apply elem_of_union in Hq as [Hq|Hq]; [apply elem_of_singleton in Hq as ->; by left|by apply Hinv].
    - destruct Hs as [-> ->].
      assert (emitted t (pairs_of t) p
                (push_diff (rs_aggregated s) (fresh t p (default p (pairs_of t !! p))))) as Hem.
      { unfold emitted. case_match; [apply push_diff_contains|done]. }
      destruct (push_diff_extends (rs_aggregated s) (fresh t p (default p (pairs_of t !! p)))) as [x Hx].
      assert (forall q, q ∈ {[p]} ∪ rs_handled s ->
        q ∈ destinations t \/ emitted t (pairs_of t) q (push_diff (rs_aggregated s) (fresh t p (default p (pairs_of t !! p)))))
        as Hq.
      { intros q Hq. apply elem_of_union in Hq as [Hq|Hq]; [apply elem_of_singleton in Hq as ->; by right|].
        destruct (Hinv q Hq) as [|He]; [by left|right]. rewrite Hx. by apply emitted_extends. }
      destruct (pairs_of t !! p) as [d|] eqn:Ed.
      + split_and!.
        * apply elem_of_union_r, elem_of_union_l, elem_of_singleton. done.
        * intros q Hq'. by apply elem_of_union_r, elem_of_union_r.
        * intros q Hq'. apply elem_of_union in Hq' as [Hq'|Hq']; [|by apply Hq].
          apply elem_of_singleton in Hq' as ->. left. apply destinations_spec. eauto.
      + split_and!; [by apply elem_of_union_l, elem_of_singleton|intros; by apply elem_of_union_r|exact Hq]. }
  apply (IH s1); [done|done|done|].
  destruct Hl as [Hl|Hl]; [apply elem_of_cons in Hl as [->|Hl]; [by right|by left]|right; by apply H2].
Qed.

Definition text_of (w : world) (q : TrackedPath) : option rstr := w q.1 !! q.2.

Lemma entry_start t w0 w q :
  consistent t w0 w -> (is_Some (current_by_path t !! q) \/ is_Some (baseline_by_path t !! q)) ->
  tc_content <$> baseline_by_path t !! q = text_of w0 q /\ tc_content <$> current_by_path t !! q = text_of w q.
Proof.
  intros Hc Hs. destruct q as [e p]. pose proof (Hc e p) as He. unfold text_of, entry_ok in *. simpl.
  destruct (current_by_path t !! (e, p)), (baseline_by_path t !! (e, p)); simpl in *;
    destruct Hs as [[? ?]|[? ?]]; try done; by destruct He.
Qed.

Lemma in_sorted_paths (t : tracker) q :
  q ∈ paths_of t <-> is_Some (baseline_by_path t !! q) \/ is_Some (current_by_path t !! q).
Proof using iter_keys_spec.
  unfold sorted_paths. by rewrite dedup_elem, sort_by_elem, elem_of_app, !iter_keys_spec.
Qed.

Lemma render_nonempty (t : tracker) l lc r rc d : render t l lc r rc = Some d -> d ≠ [].
Proof.
  unfold render_diff. case_match; [done|]. cbv zeta. intros Hr.
  destruct lc, rc; cbn [mbind option_bind] in Hr; try discriminate Hr; by injection Hr as <-.
Qed.

Lemma render_None (t : tracker) l lc r rc : render t l lc r rc = None -> lc = rc.
Proof.
  unfold render_diff. case_bool_decide; [done|]. cbv zeta.
  destruct lc, rc; cbn [mbind option_bind]; try discriminate; congruence.
Qed.

(** The entry of the diff that a changed path belongs to: itself, or the rename it is
    the source or the destination of. *)
Lemma changed_entry (t : tracker) w0 w q :
  consistent t w0 w -> text_of w0 q ≠ text_of w q ->
  exists l, (q = l \/ q = default l (pairs_of t !! l)) /\ l ∈ paths_of t /\ (l ∉ destinations t) /\
    (default l (pairs_of t !! l) = l \/
     is_rename t (default l (pairs_of t !! l)) l = true).
Proof using iter_keys_spec.
  intros Hc Hne.
  assert (is_Some (baseline_by_path t !! q) \/ is_Some (current_by_path t !! q)) as Htr.
  { destruct q as [e p]. pose proof (Hc e p) as He. unfold entry_ok, text_of in *. simpl in *.
    destruct (current_by_path t !! (e, p)), (baseline_by_path t !! (e, p)); [by right; eexists..|by left; eexists|].
    congruence. }
  destruct (decide (q ∈ destinations t)) as [Hd|Hnd].
  - apply destinations_spec in Hd as [o Ho]. exists o. rewrite Ho. simpl.
    pose proof (rename_pairs_spec t o q Ho) as Hren.
    pose proof (is_rename_spec t q o Hren) as (Hqo & Hco & Hcq & Hbo & Hbq). split_and!; [by right| | |by right].
    + apply in_sorted_paths. by left.
    + intros Hod. apply destinations_spec in Hod as [o' Ho']. apply rename_pairs_spec, is_rename_spec in Ho'.
      destruct Ho' as (_ & _ & [c Hc'] & _). congruence.
  - exists q. split_and!; [by left|by apply in_sorted_paths|done|].
    destruct (pairs_of t !! q) as [d|] eqn:Ed; [right|by left]. by apply rename_pairs_spec.
Qed.

(** The diff of a turn is complete and true: after a turn of exact deltas, every
    file whose text differs from the start of the turn belongs to an entry of the
    diff, either alone or as one end of a rename (a file that was there and is gone,
    and one that was not there and is), and the text reported contains that entry,
    rendered from the text at the start and the text now. The one exception is a
    rename that changes no text, which is not shown. *)
Theorem turn_diff_complete roots ds w0 w :
  turn ds w0 w -> ds ≠ [] ->
  let t := track_all (with_environment_display_roots roots) ds in
  forall q, text_of w0 q ≠ text_of w q ->
  exists l r, (q = l \/ q = r) /\
    (l = r \/ (is_Some (text_of w0 l) /\ text_of w l = None /\ text_of w0 r = None /\ is_Some (text_of w r))) /\
    match render t l (text_of w0 l) r (text_of w r) with
    | Some d => exists a b, unified_diff t = Some (a ++ d ++ b)
    | None => l ≠ r /\ text_of w0 l = text_of w r
    end.
Proof using iter_keys_spec.
  intros Hturn Hne t q Hq.
  destruct (track_all_consistent (with_environment_display_roots roots) ds w0 w0 w) as [Hv Hc]; [done| |done|].
  { intros env p. simpl. by rewrite !lookup_empty. }
  destruct (track_all_refreshed _ ds Hne Hv (with_roots_good roots)) as (t1 & E & h & Hm & Hcache).
  fold t in E, Hc.
  assert (consistent t1 w0 w) as Hc1 by (rewrite E in Hc; exact Hc).
  destruct (changed_entry t1 w0 w q Hc1 Hq) as (l & Hql & Hlp & Hld & Hren).
  set (r := default l (pairs_of t1 !! l)) in *. exists l, r.
  assert (tc_content <$> baseline_by_path t1 !! l = text_of w0 l /\
          tc_content <$> current_by_path t1 !! r = text_of w r /\
          (l = r \/ (is_Some (text_of w0 l) /\ text_of w l = None /\ text_of w0 r = None /\ is_Some (text_of w r))))
    as (Hl & Hr & Hkind).
  { destruct Hren as [Hrl|Hren].
    - rewrite Hrl. apply in_sorted_paths in Hlp.
      destruct (entry_start t1 w0 w l Hc1) as [H1 H2]; [tauto|]. split_and!; [done|done|by left].
    - apply is_rename_spec in Hren as (Hrl & Hcl & Hcr & Hbl & Hbr).
      destruct (entry_start t1 w0 w l Hc1) as [H1 H2]; [by right|].
      destruct (entry_start t1 w0 w r Hc1) as [H3 H4]; [by left|].
      split_and!; [done|done|right]. rewrite <- H1, <- H2, <- H3, <- H4, Hcl, Hbr. split_and!; try done.
      + by apply fmap_is_Some.
      + by apply fmap_is_Some. }
  split_and!; [done|done|].
  assert (emitted t1 (pairs_of t1) l
    (rs_aggregated (foldl (step t1 (pairs_of t1) (destinations t1))
       {| rs_handled := ∅; rs_previous := rendered_diffs t1; rs_rendered := ∅; rs_aggregated := [] |} (paths_of t1)))) as Hem.
  { by apply (refresh_fold_emitted t1 h (paths_of t1)). }
  unfold emitted, fresh in Hem. fold r in Hem. rewrite Hl, Hr in Hem.
  assert (forall lc rc, render t l lc r rc = render t1 l lc r rc) as Hrt
    by (intros; rewrite E; by apply render_roots).
  rewrite Hrt. destruct (render t1 l (text_of w0 l) r (text_of w r)) as [d|] eqn:Ed.
  - destruct Hem as (a & b & Hab). exists a, b. rewrite E. unfold refresh_unified_diff. cbn [unified_diff].
    fold (destinations t1). rewrite Hab. apply render_nonempty in Ed.
    by destruct a, d; [done|..].
  - apply render_None in Ed. split; [|done]. intros Hlr. rewrite <- Hlr in *.
    destruct Hql as [Hql|Hql]; subst q; done.
Qed.

End Consistency.

Module TrackerDemo.
Definition world0 : rstr -> gmap (list Z) (list Z) := fun _ => <[lit "a" := lit "old"]> ∅.
Definition delta : @AppliedPatchDelta (list Z) :=
  {| d_changes := [{| ac_path := lit "a"; ac_change := ChangeUpdate (Some (lit "b")) (lit "old") None (lit "new") |}];
     d_exact := true |}.
Definition after : gmap (list Z) (list Z) := <[lit "b" := lit "new"]> (delete (lit "a") (world0 [])).
Definition ds : list (rstr * @AppliedPatchDelta (list Z)) := [([], delta)].
Definition unified (a b ha hb : rstr) : rstr := ha ++ [NL] ++ hb ++ [NL].
Definition oid (s : rstr) : rstr := s.
Definition rel (p root : list Z) : option rstr := None.
Definition keys (m : gmap (list Z * list Z) TrackedContent) : list (list Z * list Z) := map fst (map_to_list m).
Definition track := track_all unified oid rel (fun p => p) keys map_to_list.
End TrackerDemo.

Lemma demo_keys_spec m k : k ∈ TrackerDemo.keys m <-> is_Some (m !! k).
Proof.
  unfold TrackerDemo.keys.
  change (@map (list Z * list Z * TrackedContent) (list Z * list Z))
    with (@fmap list list_fmap (list Z * list Z * TrackedContent) (list Z * list Z)).
  rewrite list_elem_of_fmap. split.
  - intros ([k' v] & -> & Hin). apply elem_of_map_to_list in Hin. by exists v.
  - intros [v Hv]. exists (k, v). split; [done|]. by apply elem_of_map_to_list.
Qed.

Lemma demo_turn : turn TrackerDemo.ds TrackerDemo.world0 (set_env TrackerDemo.world0 [] TrackerDemo.after).
Proof.
  eapply turn_cons; [done| |constructor]. apply change_steps_one.
  apply (step_move (TrackerDemo.world0 []) (lit "a") (lit "b")); done.
Qed.

Lemma tracker_follows_files_witness :
  let t := TrackerDemo.track (with_environment_display_roots ∅) TrackerDemo.ds in
  tc_content <$> current_by_path t !! ([], lit "b") = Some (lit "new").
Proof.
  intros t.
  destruct (tracker_follows_files TrackerDemo.unified TrackerDemo.oid TrackerDemo.rel (fun p => p) TrackerDemo.keys
              map_to_list ∅ TrackerDemo.ds TrackerDemo.world0 _ demo_turn) as [_ H].
  destruct (H [] (lit "b")) as [[_ Hb]|(_ & _ & Hb)].
  - etransitivity; [exact Hb|]. by vm_compute.
  - vm_compute in Hb. discriminate Hb.
Defined.

Lemma diff_cache_transparent_witness :
  let t := TrackerDemo.track (with_environment_display_roots ∅) (TrackerDemo.ds ++ TrackerDemo.ds) in
  unified_diff t = unified_diff (refresh_unified_diff TrackerDemo.unified TrackerDemo.oid TrackerDemo.rel (fun p => p)
                                   TrackerDemo.keys map_to_list (clear_cache t)).
Proof.
  intros t. apply (diff_cache_transparent TrackerDemo.unified TrackerDemo.oid TrackerDemo.rel (fun p => p)
    TrackerDemo.keys map_to_list ∅ (TrackerDemo.ds ++ TrackerDemo.ds)).
  - done.
  - vm_compute. reflexivity.
Defined.

Lemma turn_diff_complete_witness :
  let t := TrackerDemo.track (with_environment_display_roots ∅) TrackerDemo.ds in
  let w := set_env TrackerDemo.world0 [] TrackerDemo.after in
  exists l r, (([], lit "a") = l \/ ([], lit "a") = r) /\
    match render_diff TrackerDemo.unified TrackerDemo.oid TrackerDemo.rel (fun p => p) t
            l (text_of TrackerDemo.world0 l) r (text_of w r) with
    | Some d => exists a b, unified_diff t = Some (a ++ d ++ b)
    | None => l ≠ r /\ text_of TrackerDemo.world0 l = text_of w r
    end.
Proof.
  intros t w.
  destruct (turn_diff_complete TrackerDemo.unified TrackerDemo.oid TrackerDemo.rel (fun p => p) TrackerDemo.keys
              map_to_list demo_keys_spec ∅ TrackerDemo.ds TrackerDemo.world0 _ demo_turn
              ltac:(discriminate) ([], lit "a")) as (l & r & Hq & _ & Hd).
  { vm_compute. discriminate. }
  exists l, r. split; [exact Hq|exact Hd].
Defined.
