(* ===== verification/HeadTail.v ===== *)
(** * The capped output buffer of a running command

    Models [workx-rs/core/src/unified_exec/head_tail_buffer.rs] and the omission
    marker of [unified_exec/mod.rs]: a buffer that keeps the first and the last bytes
    of a stream within a budget and counts what it drops. Lengths of buffers in
    memory are natural numbers; the count of omitted bytes saturates at 64 bits. *)
From S2P Require Import Prelude Width.

Set Default Goal Selector "!".

Record HeadTailBuffer := { ht_head : list Z; ht_tail : list Z; ht_omitted_bytes : Z }.

Definition ht_default : HeadTailBuffer := {| ht_head := []; ht_tail := []; ht_omitted_bytes := 0 |}.

Definition format_output_omission_marker (omitted_bytes : Z) : rstr :=
  lit "... " ++ dec omitted_bytes ++ lit " bytes omitted ...".

Section HeadTail.
Variable MAX_BYTES : nat.
Set Default Proof Using "Type".

Definition HEAD_BUDGET : nat := MAX_BYTES / 2.
Definition TAIL_BUDGET : nat := MAX_BYTES - HEAD_BUDGET.

Definition retained_bytes (self : HeadTailBuffer) : Z :=
  saturating_add (Z.of_nat (length (ht_head self))) (Z.of_nat (length (ht_tail self))).

Definition total_bytes (self : HeadTailBuffer) : Z :=
  saturating_add (retained_bytes self) (ht_omitted_bytes self).

(** The buffer after, and the bytes that did not fit. *)
Definition fill_head (self : HeadTailBuffer) (chunk : list Z) : HeadTailBuffer * list Z :=
  let remaining_head := HEAD_BUDGET - length (ht_head self) in
  let '(chunk_head, chunk_tail) :=
    if (remaining_head <=? length chunk)%nat then (take remaining_head chunk, drop remaining_head chunk)
    else (chunk, []) in
  ({| ht_head := ht_head self ++ chunk_head; ht_tail := ht_tail self;
      ht_omitted_bytes := ht_omitted_bytes self |}, chunk_tail).

Definition push_tail (self : HeadTailBuffer) (chunk : list Z) : HeadTailBuffer :=
  let remaining_tail := TAIL_BUDGET - length (ht_tail self) in
  let excess_tail := length chunk - remaining_tail in
  let omitted := saturating_add (ht_omitted_bytes self) (Z.of_nat excess_tail) in
  let '(tail, chunk) :=
    if (excess_tail <? length (ht_tail self))%nat then (drop excess_tail (ht_tail self), chunk)
    else ([], drop (excess_tail - length (ht_tail self)) chunk) in
  {| ht_head := ht_head self; ht_tail := tail ++ chunk; ht_omitted_bytes := omitted |}.

Definition push_chunk (self : HeadTailBuffer) (chunk : list Z) : HeadTailBuffer :=
  let '(self, chunk) := fill_head self chunk in
  push_tail self chunk.

Definition to_bytes (self : HeadTailBuffer) : list Z := ht_head self ++ ht_tail self.

Definition to_bytes_with_omission_marker (self : HeadTailBuffer) : list Z :=
  if (ht_omitted_bytes self =? 0)%Z then to_bytes self
  else ht_head self ++ [NL] ++ format_output_omission_marker (ht_omitted_bytes self) ++ [NL] ++ ht_tail self.

(** [slices] is where the ring buffer of the source wraps ([VecDeque::as_slices]). *)
Definition push_buffer (slices : nat) (self buffer : HeadTailBuffer) : HeadTailBuffer :=
  let self := {| ht_head := ht_head self; ht_tail := ht_tail self;
                 ht_omitted_bytes := saturating_add (ht_omitted_bytes self) (ht_omitted_bytes buffer) |} in
  let '(self, overflow) :=
    if is_empty (ht_head self)
    then ({| ht_head := ht_head buffer; ht_tail := ht_tail self; ht_omitted_bytes := ht_omitted_bytes self |}, [])
    else fill_head self (ht_head buffer) in
  if (length (ht_tail buffer) =? TAIL_BUDGET)%nat then
    {| ht_head := ht_head self; ht_tail := ht_tail buffer;
       ht_omitted_bytes :=
         saturating_add (saturating_add (ht_omitted_bytes self) (Z.of_nat (length (ht_tail self))))
                        (Z.of_nat (length overflow)) |}
  else
    let self := push_tail self overflow in
    if is_empty (ht_tail self) then
      {| ht_head := ht_head self; ht_tail := ht_tail buffer; ht_omitted_bytes := ht_omitted_bytes self |}
    else push_tail (push_tail self (take slices (ht_tail buffer))) (drop slices (ht_tail buffer)).

(** ** What the buffer of a stream is *)

(** The last [n] elements. *)
Definition lastn {A} (n : nat) (l : list A) : list A := drop (length l - n) l.

Definition saturate (n : Z) : Z := Z.min n USIZE_MAX.

(** The first bytes up to the head budget, the last ones of the rest up to the tail
    budget, and the number in between. *)
Definition summarize (s : list Z) : HeadTailBuffer :=
  let rest := drop HEAD_BUDGET s in
  {| ht_head := take HEAD_BUDGET s; ht_tail := lastn TAIL_BUDGET rest;
     ht_omitted_bytes := saturate (Z.of_nat (length rest - TAIL_BUDGET)) |}.

Lemma length_lastn {A} n (l : list A) : length (lastn n l) = Nat.min n (length l).
Proof. unfold lastn. rewrite length_drop. lia. Qed.

Lemma lastn_all {A} n (l : list A) : length l <= n -> lastn n l = l.
Proof. intros Hl. unfold lastn. replace (length l - n) with 0 by lia. apply drop_0. Qed.

(** What was dropped before does not come back. *)
Lemma lastn_app_lastn {A} n (a b : list A) : lastn n (lastn n a ++ b) = lastn n (a ++ b).
Proof.
  unfold lastn. rewrite !length_app, length_drop.
  rewrite <- (drop_app_le a b) by lia. rewrite drop_drop. f_equal. lia.
Qed.

Lemma lastn_app_r {A} n (a b : list A) : n <= length b -> lastn n (a ++ b) = lastn n b.
Proof.
  intros Hn. unfold lastn. rewrite length_app, drop_app_ge by lia. f_equal. lia.
Qed.

Lemma saturate_add a b : (0 <= a -> 0 <= b -> saturating_add (saturate a) b = saturate (a + b))%Z.
Proof. unfold saturating_add, saturate, USIZE_MAX. lia. Qed.

(** Pushing to the tail keeps the last bytes and counts the others. *)
Lemma push_tail_spec self chunk :
  length (ht_tail self) <= TAIL_BUDGET ->
  push_tail self chunk =
    {| ht_head := ht_head self; ht_tail := lastn TAIL_BUDGET (ht_tail self ++ chunk);
       ht_omitted_bytes := saturating_add (ht_omitted_bytes self)
                             (Z.of_nat (length (ht_tail self) + length chunk - TAIL_BUDGET)) |}.
Proof.
  intros Ht. unfold push_tail.
  replace (length chunk - (TAIL_BUDGET - length (ht_tail self)))
    with (length (ht_tail self) + length chunk - TAIL_BUDGET) by lia.
  set (excess := length (ht_tail self) + length chunk - TAIL_BUDGET).
  assert (lastn TAIL_BUDGET (ht_tail self ++ chunk) = drop excess (ht_tail self ++ chunk)) as ->.
  { unfold lastn. rewrite length_app. done. }
  destruct (excess <? length (ht_tail self))%nat eqn:E; bool_prop; f_equal.
  - by rewrite drop_app_le by lia.
  - by rewrite drop_app_ge by lia.
Qed.

Lemma fill_head_spec self chunk :
  length (ht_head self) <= HEAD_BUDGET ->
  fill_head self chunk =
    ({| ht_head := take HEAD_BUDGET (ht_head self ++ chunk); ht_tail := ht_tail self;
        ht_omitted_bytes := ht_omitted_bytes self |}, drop HEAD_BUDGET (ht_head self ++ chunk)).
Proof.
  intros Hh. unfold fill_head. rewrite take_app_ge, drop_app_ge by lia.
  destruct (HEAD_BUDGET - length (ht_head self) <=? length chunk)%nat eqn:E; bool_prop; [done|].
  by rewrite (take_ge chunk), (drop_ge chunk) by lia.
Qed.

Lemma summarize_head s : length (ht_head (summarize s)) <= HEAD_BUDGET.
Proof. simpl. rewrite length_take. lia. Qed.

Lemma summarize_tail s : length (ht_tail (summarize s)) <= TAIL_BUDGET.
Proof. simpl. rewrite length_lastn. lia. Qed.

(** A chunk pushed to the summary of a stream gives the summary of the longer one. *)
Lemma push_chunk_summarize s chunk : push_chunk (summarize s) chunk = summarize (s ++ chunk).
Proof.
  unfold push_chunk. rewrite fill_head_spec by apply summarize_head.
  rewrite push_tail_spec by apply summarize_tail. unfold summarize. simpl.
  assert (take HEAD_BUDGET (take HEAD_BUDGET s ++ chunk) = take HEAD_BUDGET (s ++ chunk)) as ->.
  { destruct (decide (length s <= HEAD_BUDGET)); [by rewrite (take_ge s)|].
    rewrite !take_app_le by (rewrite ?length_take; lia). rewrite take_take. f_equal. lia. }
  assert (drop HEAD_BUDGET (s ++ chunk) = drop HEAD_BUDGET s ++ drop HEAD_BUDGET (take HEAD_BUDGET s ++ chunk)) as E.
  { destruct (decide (length s <= HEAD_BUDGET)).
    - by rewrite (drop_ge s), (take_ge s).
    - assert (length (take HEAD_BUDGET s) = HEAD_BUDGET) as Hl by (rewrite length_take; lia).
      rewrite (drop_app_ge (take HEAD_BUDGET s)), drop_app_le by lia. by rewrite Hl, Nat.sub_diag, drop_0. }
  rewrite E. f_equal; [apply lastn_app_lastn|].
  rewrite saturate_add by lia. rewrite length_lastn, length_app. f_equal. lia.
Qed.

Lemma drop_head_app (s1 s2 : list Z) :
  drop HEAD_BUDGET (s1 ++ s2) = drop HEAD_BUDGET s1 ++ drop (HEAD_BUDGET - length s1) s2.
Proof.
  destruct (decide (length s1 <= HEAD_BUDGET)).
  - rewrite drop_app_ge, (drop_ge s1) by lia. done.
  - rewrite drop_app_le by lia. by replace (HEAD_BUDGET - length s1) with 0 by lia.
Qed.

(** The head and the overflow of a merge, whichever way the code computes them. *)
Lemma merge_head (s1 s2 : list Z) om :
  (if is_empty (take HEAD_BUDGET s1)
   then ({| ht_head := take HEAD_BUDGET s2; ht_tail := lastn TAIL_BUDGET (drop HEAD_BUDGET s1);
            ht_omitted_bytes := om |}, [])
   else fill_head {| ht_head := take HEAD_BUDGET s1; ht_tail := lastn TAIL_BUDGET (drop HEAD_BUDGET s1);
                     ht_omitted_bytes := om |} (take HEAD_BUDGET s2)) =
  ({| ht_head := take HEAD_BUDGET (s1 ++ s2); ht_tail := lastn TAIL_BUDGET (drop HEAD_BUDGET s1);
      ht_omitted_bytes := om |},
   drop (HEAD_BUDGET - length s1) (take HEAD_BUDGET s2)).
Proof.
  destruct (is_empty (take HEAD_BUDGET s1)) eqn:E.
  - apply is_empty_true in E. destruct (decide (HEAD_BUDGET = 0)) as [H0|H0].
    + by rewrite H0.
    + destruct s1 as [|x s1]; [|destruct HEAD_BUDGET; done].
      simpl. rewrite Nat.sub_0_r, (drop_ge (take HEAD_BUDGET s2)) by (rewrite length_take; lia). done.
  - rewrite fill_head_spec by (simpl; rewrite length_take; lia). simpl. f_equal; [f_equal|].
    + destruct (decide (length s1 <= HEAD_BUDGET)).
      * rewrite (take_ge s1), !take_app_ge by lia. f_equal. rewrite take_take. f_equal. lia.
      * rewrite !take_app_le by (rewrite ?length_take; lia). rewrite take_take. f_equal. lia.
    + rewrite drop_app_ge by (rewrite length_take; lia). rewrite length_take. f_equal. lia.
Qed.

Lemma drop_take_drop {A} (n m : nat) (s : list A) : n <= m -> drop n s = drop n (take m s) ++ drop m s.
Proof.
  intros Hnm. destruct (decide (n <= length s)) as [Hn|Hn].
  - rewrite <- (take_drop m s) at 1. apply drop_app_le. rewrite length_take. lia.
  - rewrite !drop_ge by (rewrite ?length_take; lia). done.
Qed.

(** Merging the summaries of two streams gives the summary of one after the other. *)
Lemma push_buffer_summarize slices s1 s2 :
  push_buffer slices (summarize s1) (summarize s2) = summarize (s1 ++ s2).
Proof.
  unfold push_buffer, summarize. cbn [ht_head ht_tail ht_omitted_bytes]. cbv zeta.
  assert (0 <= saturate (Z.of_nat (length (drop HEAD_BUDGET s2) - TAIL_BUDGET)))%Z as Hpos
    by (unfold saturate, USIZE_MAX; lia).
  rewrite saturate_add by lia.
  rewrite merge_head. cbn [ht_head ht_tail ht_omitted_bytes].
  set (r1 := drop HEAD_BUDGET s1). set (r2 := drop HEAD_BUDGET s2) in *.
  set (ov := drop (HEAD_BUDGET - length s1) (take HEAD_BUDGET s2)).
  assert (drop HEAD_BUDGET (s1 ++ s2) = (r1 ++ ov) ++ r2) as Hrest.
  { rewrite drop_head_app, <- app_assoc. f_equal. apply drop_take_drop. lia. }
  rewrite Hrest. clearbody r1 r2 ov. clear Hrest.
  assert (forall om tail, length tail <= TAIL_BUDGET -> forall chunk,
    push_tail {| ht_head := take HEAD_BUDGET (s1 ++ s2); ht_tail := tail; ht_omitted_bytes := om |} chunk =
    {| ht_head := take HEAD_BUDGET (s1 ++ s2); ht_tail := lastn TAIL_BUDGET (tail ++ chunk);
       ht_omitted_bytes := saturating_add om (Z.of_nat (length tail + length chunk - TAIL_BUDGET)) |}) as Hpush.
  { intros om tail Ht chunk. by apply push_tail_spec. }
  assert (forall x : list Z, length (lastn TAIL_BUDGET x) <= TAIL_BUDGET) as Hbound by (intros x; rewrite length_lastn; lia).
  case_match eqn:E; bool_prop.
  - rewrite length_lastn in E. f_equal; [symmetry; apply lastn_app_r; lia|].
    unfold saturating_add, saturate, USIZE_MAX in *. rewrite !length_app, length_lastn. lia.
  - rewrite length_lastn in E. assert (length r2 < TAIL_BUDGET) as Hr2 by lia.
    rewrite (lastn_all _ r2) by lia. rewrite Hpush by apply Hbound. cbn [ht_tail ht_head ht_omitted_bytes].
    rewrite lastn_app_lastn.
    assert (lastn TAIL_BUDGET ((r1 ++ ov) ++ r2) = lastn TAIL_BUDGET (lastn TAIL_BUDGET (r1 ++ ov) ++ r2)) as Ht
      by by rewrite lastn_app_lastn.
    destruct (is_empty (lastn TAIL_BUDGET (r1 ++ ov))) eqn:Eemp.
    + apply is_empty_true in Eemp. rewrite Ht, Eemp. cbn [app]. rewrite (lastn_all _ r2) by lia. f_equal.
      apply (f_equal length) in Eemp. rewrite length_lastn, length_app in Eemp. simpl in Eemp.
      unfold saturating_add, saturate, USIZE_MAX in *. rewrite !length_app, length_lastn. lia.
    + rewrite !Hpush by apply Hbound. f_equal.
      * rewrite lastn_app_lastn, <- app_assoc, take_drop. by rewrite lastn_app_lastn.
      * unfold saturating_add, saturate, USIZE_MAX in *.
        rewrite !length_lastn, !length_app, !length_lastn, length_app, length_take, length_drop. lia.
Qed.

(** What a client does with a buffer: it pushes chunks, or merges the buffer of a
    later part of the stream. *)
Inductive ht_built : list Z -> HeadTailBuffer -> Prop :=
| built_default : ht_built [] ht_default
| built_chunk s b chunk : ht_built s b -> ht_built (s ++ chunk) (push_chunk b chunk)
| built_buffer s1 b1 s2 b2 slices :
    ht_built s1 b1 -> ht_built s2 b2 -> ht_built (s1 ++ s2) (push_buffer slices b1 b2).

Lemma ht_built_summarize s b : ht_built s b -> b = summarize s.
Proof.
  induction 1 as [|s b chunk _ ->|s1 b1 s2 b2 slices _ -> _ ->].
  - unfold summarize, lastn. by rewrite take_nil, drop_nil.
  - apply push_chunk_summarize.
  - apply push_buffer_summarize.
Qed.

(** The buffer is the summary of its stream: however a stream is cut into chunks
    and however the buffers of its parts are merged, the buffer holds exactly the
    first bytes up to the head budget and the last bytes of the rest up to the tail
    budget, never more than the maximum, and counts exactly the bytes in between (up
    to the 64-bit maximum). *)
Theorem head_tail_buffer_spec s b :
  ht_built s b ->
  ht_head b = take HEAD_BUDGET s /\ ht_tail b = lastn TAIL_BUDGET (drop HEAD_BUDGET s) /\
  length (ht_head b) + length (ht_tail b) = Nat.min MAX_BYTES (length s) /\
  ht_omitted_bytes b = saturate (Z.of_nat (length s - MAX_BYTES)).
Proof.
  intros Hb. rewrite (ht_built_summarize s b Hb). unfold summarize. simpl.
  assert (HEAD_BUDGET + TAIL_BUDGET = MAX_BYTES) as Hmax.
  { unfold TAIL_BUDGET. pose proof (Nat.Div0.div_le_upper_bound MAX_BYTES 2 MAX_BYTES). unfold HEAD_BUDGET. lia. }
  split_and!; [done|done| |].
  - rewrite length_take, length_lastn, length_drop. lia.
  - f_equal. rewrite length_drop. lia.
Qed.

(** A stream that fits is returned unchanged, without a marker; of a longer one
    the two ends are returned, around a line that says how many bytes are missing. *)
Theorem to_bytes_with_marker_spec s b :
  ht_built s b ->
  to_bytes_with_omission_marker b =
    if decide (length s <= MAX_BYTES) then s
    else take HEAD_BUDGET s ++ [NL]
         ++ format_output_omission_marker (saturate (Z.of_nat (length s - MAX_BYTES))) ++ [NL]
         ++ lastn TAIL_BUDGET s.
Proof.
  intros Hb. rewrite (ht_built_summarize s b Hb). clear b Hb.
  assert (HEAD_BUDGET + TAIL_BUDGET = MAX_BYTES) as Hmax.
  { unfold TAIL_BUDGET. pose proof (Nat.Div0.div_le_upper_bound MAX_BYTES 2 MAX_BYTES). unfold HEAD_BUDGET. lia. }
  unfold to_bytes_with_omission_marker, to_bytes, summarize. cbn [ht_head ht_tail ht_omitted_bytes].
  rewrite length_drop. replace (length s - HEAD_BUDGET - TAIL_BUDGET) with (length s - MAX_BYTES) by lia.
  case_decide as Hlen.
  - replace (length s - MAX_BYTES) with 0 by lia. simpl.
    rewrite lastn_all by (rewrite length_drop; lia). apply take_drop.
  - rewrite (proj2 (Z.eqb_neq _ _)) by (unfold saturate, USIZE_MAX; lia).
    do 4 f_equal. rewrite <- (lastn_app_r TAIL_BUDGET (take HEAD_BUDGET s)) by (rewrite length_drop; lia).
    by rewrite take_drop.
Qed.

End HeadTail.

Lemma demo_built :
  ht_built 4 [1; 2; 3; 4; 5; 6; 7]%Z
    (push_buffer 4 0 (push_chunk 4 ht_default [1; 2; 3]%Z) (push_chunk 4 ht_default [4; 5; 6; 7]%Z)).
Proof.
  apply (built_buffer 4 [1; 2; 3]%Z _ [4; 5; 6; 7]%Z); apply (built_chunk 4 []); constructor.
Qed.

Lemma head_tail_buffer_spec_witness :
  let b := push_buffer 4 0 (push_chunk 4 ht_default [1; 2; 3]%Z) (push_chunk 4 ht_default [4; 5; 6; 7]%Z) in
  ht_head b = [1; 2]%Z /\ ht_tail b = [6; 7]%Z /\ ht_omitted_bytes b = 3%Z.
Proof.
  intros b. destruct (head_tail_buffer_spec 4 _ _ demo_built) as (H1 & H2 & _ & H3).
  split; [exact H1|split; [exact H2|exact H3]].
Defined.

Lemma to_bytes_with_marker_spec_witness :
  to_bytes_with_omission_marker
    (push_buffer 4 0 (push_chunk 4 ht_default [1; 2; 3]%Z) (push_chunk 4 ht_default [4; 5; 6; 7]%Z)) =
  [1; 2]%Z ++ [NL] ++ lit "... 3 bytes omitted ..." ++ [NL] ++ [6; 7]%Z.
Proof. exact (to_bytes_with_marker_spec 4 _ _ demo_built). Defined.
