(* ===== verification/StreamText.v ===== *)
(** * Streamed text: the interface of the incremental parsers

    Models [workx-rs/utils/stream-parser/src/stream_text.rs]: the chunk a parser
    returns and the trait [StreamTextParser], here a type class. [StreamLaws] is what
    a parser promises to its callers: a meaning for the text still to come, to which
    every way of cutting that text into pushes leads. The positions of the code are
    byte offsets, those of the model count characters; the code only compares
    positions of one string or cuts the string there, which is the same. *)
From S2P Require Import Prelude.

Set Default Goal Selector "!".

Record StreamTextChunk (T : Type) := { visible_text : rstr; extracted : list T }.
Arguments visible_text {T} _.
Arguments extracted {T} _.

Definition stc_default {T} : StreamTextChunk T := {| visible_text := []; extracted := [] |}.

Definition stc_is_empty {T} (self : StreamTextChunk T) : bool :=
  is_empty (visible_text self) && is_empty (extracted self).

(** How callers gather the chunks of a stream: [push_str] on the text, [extend] or
    [append] on the payloads. *)
Definition stc_app {T} (a b : StreamTextChunk T) : StreamTextChunk T :=
  {| visible_text := visible_text a ++ visible_text b; extracted := extracted a ++ extracted b |}.

Class StreamTextParser (P T : Type) := {
  push_str : P -> rstr -> P * StreamTextChunk T;
  finish : P -> P * StreamTextChunk T;
}.

(** A stream: pushes one after the other, then the final flush. *)
Fixpoint push_all {P T} `{StreamTextParser P T} (p : P) (chunks : list rstr) : P * StreamTextChunk T :=
  match chunks with
  | [] => (p, stc_default)
  | c :: chunks' =>
      let '(p, out) := push_str p c in
      let '(p, outs) := push_all p chunks' in
      (p, stc_app out outs)
  end.

Definition run {P T} `{StreamTextParser P T} (p : P) (chunks : list rstr) : StreamTextChunk T :=
  let '(p, out) := push_all p chunks in stc_app out (finish p).2.

(** ** What a parser promises *)

(** [payload_eqv] relates payload lists that callers do not tell apart. *)
Class StreamLaws (P T : Type) `{StreamTextParser P T} := {
  payload_eqv : relation (list T);
  payload_eqv_equiv :: Equivalence payload_eqv;
  payload_eqv_app :: Proper (payload_eqv ==> payload_eqv ==> payload_eqv) (++);
  parser_inv : P -> Prop;
  meaning : P -> rstr -> StreamTextChunk T;
  chunk_eqv := fun a b : StreamTextChunk T =>
    visible_text a = visible_text b /\ payload_eqv (extracted a) (extracted b);
  push_str_inv p c : parser_inv p -> parser_inv (push_str p c).1;
  push_str_meaning p c rest : parser_inv p ->
    chunk_eqv (stc_app (push_str p c).2 (meaning (push_str p c).1 rest)) (meaning p (c ++ rest));
  finish_meaning p : parser_inv p -> chunk_eqv (finish p).2 (meaning p []);
}.

Lemma stc_app_default_l {T} (a : StreamTextChunk T) : stc_app stc_default a = a.
Proof. by destruct a. Qed.

Lemma stc_app_default_r {T} (a : StreamTextChunk T) : stc_app a stc_default = a.
Proof. destruct a. unfold stc_app; cbn. by rewrite !app_nil_r. Qed.

Lemma stc_app_assoc {T} (a b c : StreamTextChunk T) : stc_app (stc_app a b) c = stc_app a (stc_app b c).
Proof. unfold stc_app; cbn. by rewrite !(assoc_L (++)). Qed.

Lemma stc_eq {T} (a b : StreamTextChunk T) :
  visible_text a = visible_text b -> extracted a = extracted b -> a = b.
Proof. destruct a, b; cbn; congruence. Qed.

Section laws.
Context {P T : Type} `{StreamLaws P T}.
Set Default Proof Using "Type*".

#[export] Instance chunk_eqv_equiv : Equivalence chunk_eqv.
Proof.
  unfold chunk_eqv. split.
  - intros a. by split.
  - intros a b []. by split.
  - intros a b c [] []. split; etransitivity; eassumption.
Qed.

#[export] Instance stc_app_proper : Proper (chunk_eqv ==> chunk_eqv ==> chunk_eqv) stc_app.
Proof.
  intros a a' [Ha Ha'] b b' [Hb Hb']. split; cbn; [by rewrite Ha, Hb|].
  by apply payload_eqv_app.
Qed.

Lemma push_all_inv p chunks : parser_inv p -> parser_inv (push_all p chunks).1.
Proof.
  revert p. induction chunks as [|c chunks IH]; intros p Hp; [done|]. cbn.
  pose proof (push_str_inv p c Hp) as Hq. destruct (push_str p c) as [q o]; cbn in *.
  specialize (IH q Hq). destruct (push_all q chunks); cbn in *. done.
Qed.

Lemma push_all_meaning p chunks rest : parser_inv p ->
  chunk_eqv (stc_app (push_all p chunks).2 (meaning (push_all p chunks).1 rest))
            (meaning p (concat chunks ++ rest)).
Proof.
  revert p. induction chunks as [|c chunks IH]; intros p Hp; cbn.
  { by rewrite stc_app_default_l. }
  pose proof (push_str_inv p c Hp) as Hq.
  pose proof (push_str_meaning p c (concat chunks ++ rest) Hp) as Hm.
  rewrite <- (assoc_L (++)), <- Hm.
  destruct (push_str p c) as [q o]; cbn in *. specialize (IH q Hq).
  destruct (push_all q chunks) as [r os]; cbn in *.
  by rewrite stc_app_assoc, IH.
Qed.

(** Every way of cutting a text into pushes gives the parser's meaning of it. *)
Lemma run_meaning p chunks : parser_inv p -> chunk_eqv (run p chunks) (meaning p (concat chunks)).
Proof.
  intros Hp. unfold run. pose proof (push_all_inv p chunks Hp) as Hq.
  pose proof (push_all_meaning p chunks [] Hp) as Hm. rewrite app_nil_r in Hm.
  destruct (push_all p chunks) as [q o]; cbn in *.
  by rewrite <- Hm, finish_meaning.
Qed.

End laws.
