(* ===== verification/InlineTag.v ===== *)
(** * Hidden inline tags and citations

    Models [workx-rs/utils/stream-parser/src/inline_hidden_tag.rs] (a streaming parser
    that hides literal tags and extracts their contents) and [citation.rs] (its use for
    citations). The loop of [push_str] takes fuel: every iteration that continues
    drains a delimiter from the pending text, so its length bounds the iterations. *)
From S2P Require Import Prelude StreamText.

Set Default Goal Selector "!".

(** ** Substring search *)

(** [needle] occurs in [s] at position [i]. *)
Definition occurs (needle s : rstr) (i : nat) : Prop :=
  take (length needle) (drop i s) = needle /\ i <= length s.

Lemma starts_with_occurs n s i : i <= length s -> starts_with n (drop i s) = true <-> occurs n s i.
Proof.
  intros Hi. rewrite starts_with_true. split.
  - intros [r Hr]. split; [|done]. by rewrite Hr, take_app_length.
  - intros [Ht _]. exists (drop (length n) (drop i s)). by rewrite <- Ht at 1; rewrite take_drop.
Qed.

Lemma occurs_length n s i : occurs n s i -> i + length n <= length s.
Proof. intros [Ht Hi]. apply (f_equal length) in Ht. rewrite length_take, length_drop in Ht. lia. Qed.

Lemma occurs_S n c s i : occurs n (c :: s) (S i) <-> occurs n s i.
Proof. unfold occurs. cbn. split; intros []; split; auto with lia. Qed.

Lemma occurs_0_cons n c s : starts_with n (c :: s) = true <-> occurs n (c :: s) 0.
Proof. apply (starts_with_occurs n (c :: s) 0). lia. Qed.

Lemma find_sub_Some n s i :
  find_sub n s = Some i <-> occurs n s i /\ forall j, j < i -> ~ occurs n s j.
Proof.
  revert i. induction s as [|c s IH]; intros i.
  - cbn. destruct n; cbn.
    + split; [intros [= <-]|intros [[_ Hi] _]; cbn in Hi; by replace i with 0 by lia].
      split; [by split|lia].
    + split; [done|]. intros [[Ht _] _]. cbn in Ht. by rewrite drop_nil in Ht.
  - change (find_sub n (c :: s)) with (if starts_with n (c :: s) then Some 0 else S <$> find_sub n s).
    destruct (starts_with n (c :: s)) eqn:E.
    + apply occurs_0_cons in E. split; [intros [= <-]; split; [done|lia]|].
      intros [Ho Hmin]. destruct i; [done|]. exfalso. apply (Hmin 0); [lia|done].
    + assert (~ occurs n (c :: s) 0) as H0 by (rewrite <- occurs_0_cons, E; done).
      rewrite fmap_Some. split.
      * intros (j & Hj & ->). apply IH in Hj as [Ho Hmin].
        split; [by apply occurs_S|]. intros [|k] Hk; [done|]. rewrite occurs_S. apply Hmin. lia.
      * intros [Ho Hmin]. destruct i as [|i]; [done|]. exists i. split; [|done].
        apply IH. split; [by apply occurs_S in Ho|]. intros j Hj. rewrite <- (occurs_S n c). apply Hmin. lia.
Qed.

Lemma find_sub_None n s : find_sub n s = None <-> forall i, ~ occurs n s i.
Proof.
  induction s as [|c s IH].
  - cbn. destruct n; cbn.
    + split; [done|]. intros H. exfalso. apply (H 0). by split.
    + split; [|done]. intros _ i [Ht _]. by rewrite drop_nil in Ht.
  - change (find_sub n (c :: s)) with (if starts_with n (c :: s) then Some 0 else S <$> find_sub n s).
    destruct (starts_with n (c :: s)) eqn:E.
    + split; [done|]. intros H. exfalso. by apply (H 0), occurs_0_cons.
    + rewrite fmap_None, IH. split.
      * intros H [|i]; [rewrite <- occurs_0_cons, E; done|]. rewrite occurs_S. apply H.
      * intros H i. rewrite <- (occurs_S n c). apply H.
Qed.

Lemma find_sub_least n s i : occurs n s i -> exists j, find_sub n s = Some j /\ j <= i.
Proof.
  intros Ho. destruct (find_sub n s) as [j|] eqn:E; [|by destruct (proj1 (find_sub_None n s) E i)].
  exists j. split; [done|]. apply find_sub_Some in E as [_ Hmin].
  destruct (decide (i < j)); [by apply Hmin in Ho|lia].
Qed.

Lemma occurs_app n s r i : occurs n s i -> occurs n (s ++ r) i.
Proof.
  intros Ho. pose proof (occurs_length _ _ _ Ho) as Hl. destruct Ho as [Ht Hi].
  split; [|rewrite length_app; lia].
  rewrite drop_app_le by done. rewrite take_app_le by (rewrite length_drop; lia). done.
Qed.

Lemma occurs_app_inv n s r i : occurs n (s ++ r) i -> i + length n <= length s -> occurs n s i.
Proof.
  intros [Ht _] Hl. split; [|lia].
  rewrite drop_app_le in Ht by lia. rewrite take_app_le in Ht by (rewrite length_drop; lia). done.
Qed.

Lemma occurs_drop n s k i : occurs n (drop k s) i -> k <= length s -> occurs n s (k + i).
Proof.
  intros [Ht Hi] Hk. rewrite length_drop in Hi. rewrite drop_drop in Ht. split; [done|lia].
Qed.

Lemma occurs_drop_inv n s k i : occurs n s (k + i) -> occurs n (drop k s) i.
Proof. intros [Ht Hi]. split; [by rewrite drop_drop|rewrite length_drop; lia]. Qed.

(** An occurrence that ends after [s] shows a proper prefix of [needle] at its end. *)
Lemma occurs_straddle n s r i :
  occurs n (s ++ r) i -> i <= length s -> length s < i + length n ->
  drop i s = take (length s - i) n.
Proof.
  intros [Ht _] Hi Hl. rewrite drop_app_le in Ht by done.
  apply (f_equal (take (length s - i))) in Ht. rewrite <- Ht, take_take.
  rewrite Nat.min_l by lia. rewrite take_app_le by (rewrite length_drop; lia).
  rewrite <- length_drop. by rewrite firstn_all.
Qed.

(** An occurrence inside another. *)
Lemma occurs_nested a b s i j :
  occurs a s i -> occurs b s j -> j <= i -> i + length a <= j + length b -> occurs a b (i - j).
Proof.
  intros [Ha _] [Hb _] Hji Hl. split; [|lia]. rewrite <- Hb, skipn_firstn_comm, drop_drop.
  rewrite take_take. replace (j + (i - j)) with i by lia. by rewrite Nat.min_l by lia.
Qed.

(** ** [InlineHiddenTagParser] *)

Record ExtractedInlineTag (T : Type) := { ex_tag : T; ex_content : rstr }.
Arguments ex_tag {T} _.
Arguments ex_content {T} _.

Record InlineTagSpec (T : Type) := { spec_tag : T; spec_open : rstr; spec_close : rstr }.
Arguments spec_tag {T} _.
Arguments spec_open {T} _.
Arguments spec_close {T} _.

Record ActiveTag (T : Type) := { act_tag : T; act_close : rstr; act_content : rstr }.
Arguments act_tag {T} _.
Arguments act_close {T} _.
Arguments act_content {T} _.

Record InlineHiddenTagParser (T : Type) := {
  specs : list (InlineTagSpec T);
  pending : rstr;
  active : option (ActiveTag T);
}.
Arguments specs {T} _.
Arguments pending {T} _.
Arguments active {T} _.

Fixpoint lsp_loop (k : nat) (s needle : rstr) : nat :=
  match k with
  | 0 => 0
  | S k' => if ends_with (take k needle) s then k else lsp_loop k' s needle
  end.

Definition longest_suffix_prefix_len (s needle : rstr) : nat :=
  lsp_loop (length s `min` (length needle - 1)) s needle.

(** [Ordering::then_with]. *)
Definition then_with (a b : comparison) : comparison := match a with Eq => b | _ => a end.

(** [Iterator::min_by]: the first of the least elements. *)
Definition min_by {A} (cmp : A -> A -> comparison) (l : list A) : option A :=
  foldl (fun acc x => match acc with
                      | None => Some x
                      | Some a => match cmp a x with Gt => Some x | _ => Some a end
                      end) None l.

(** Position, length of the delimiter and index of the tag. *)
Abbreviation candidate := (nat * nat * nat)%type.

Definition candidate_cmp (a b : candidate) : comparison :=
  then_with (Nat.compare a.1.1 b.1.1) (then_with (Nat.compare b.1.2 a.1.2) (Nat.compare a.2 b.2)).

Section Inline.
Context {T : Type}.
Set Default Proof Using "Type".

Abbreviation chunk := (StreamTextChunk (ExtractedInlineTag T)).
Abbreviation parser := (InlineHiddenTagParser T).

(** The three assertions. *)
Definition inline_new (specs : list (InlineTagSpec T)) : res unit parser :=
  if is_empty specs then Panic
  else if existsb (fun spec => is_empty (spec_open spec) || is_empty (spec_close spec)) specs then Panic
  else Ok {| specs := specs; pending := []; active := None |}.

Definition open_candidates (specs : list (InlineTagSpec T)) (pending : rstr) : list candidate :=
  omap (fun '(idx, spec) => (fun pos => (pos, length (spec_open spec), idx)) <$> find_sub (spec_open spec) pending)
       (imap pair specs).

Definition find_next_open (specs : list (InlineTagSpec T)) (pending : rstr) : option (nat * nat) :=
  (fun '(pos, _, idx) => (pos, idx)) <$> min_by candidate_cmp (open_candidates specs pending).

Definition max_open_prefix_suffix_len (specs : list (InlineTagSpec T)) (pending : rstr) : nat :=
  foldr Nat.max 0 (map (fun spec => longest_suffix_prefix_len pending (spec_open spec)) specs).

Definition push_visible (out : chunk) (text : rstr) : chunk :=
  {| visible_text := visible_text out ++ text; extracted := extracted out |}.

Definition push_extracted (out : chunk) (a : ActiveTag T) (text : rstr) : chunk :=
  {| visible_text := visible_text out;
     extracted := extracted out ++ [{| ex_tag := act_tag a; ex_content := act_content a ++ text |}] |}.

Definition push_content (a : ActiveTag T) (text : rstr) : ActiveTag T :=
  {| act_tag := act_tag a; act_close := act_close a; act_content := act_content a ++ text |}.

Definition activate (spec : InlineTagSpec T) : ActiveTag T :=
  {| act_tag := spec_tag spec; act_close := spec_close spec; act_content := [] |}.

(** The loop of [push_str] on the pending text; [self.specs[spec_idx]] is in range. *)
Fixpoint push_loop (fuel : nat) (specs : list (InlineTagSpec T)) (active : option (ActiveTag T))
    (pending : rstr) (out : chunk) : option (ActiveTag T) * rstr * chunk :=
  match fuel with
  | 0 => (active, pending, out)
  | S fuel =>
      match active with
      | Some a =>
          match find_sub (act_close a) pending with
          | Some close_idx =>
              push_loop fuel specs None (drop (close_idx + length (act_close a)) pending)
                (push_extracted out a (take close_idx pending))
          | None =>
              let keep := longest_suffix_prefix_len pending (act_close a) in
              let n := length pending - keep in
              (Some (push_content a (take n pending)), drop n pending, out)
          end
      | None =>
          match find_next_open specs pending with
          | Some (open_idx, spec_idx) =>
              match specs !! spec_idx with
              | Some spec =>
                  push_loop fuel specs (Some (activate spec)) (drop (open_idx + length (spec_open spec)) pending)
                    (push_visible out (take open_idx pending))
              | None => (None, pending, out)
              end
          | None =>
              let keep := max_open_prefix_suffix_len specs pending in
              let n := length pending - keep in
              (None, drop n pending, push_visible out (take n pending))
          end
      end
  end.

Definition inline_push_str (self : parser) (c : rstr) : parser * chunk :=
  let p := pending self ++ c in
  let '(a, p, out) := push_loop (S (length p)) (specs self) (active self) p stc_default in
  ({| specs := specs self; pending := p; active := a |}, out).

Definition inline_finish (self : parser) : parser * chunk :=
  ({| specs := specs self; pending := []; active := None |},
   match active self with
   | Some a => push_extracted stc_default a (pending self)
   | None => push_visible stc_default (pending self)
   end).

#[export] Instance Inline_parser : StreamTextParser parser (ExtractedInlineTag T) :=
  {| push_str := inline_push_str; finish := inline_finish |}.

(** ** The text as a whole *)

(** What a complete text amounts to: the tags in order of appearance, each up to its
    first closing delimiter or the end. *)
Fixpoint scan_fuel (fuel : nat) (specs : list (InlineTagSpec T)) (active : option (ActiveTag T)) (s : rstr)
    : chunk :=
  match fuel with
  | 0 => stc_default
  | S fuel =>
      match active with
      | Some a =>
          match find_sub (act_close a) s with
          | Some i =>
              stc_app (push_extracted stc_default a (take i s))
                (scan_fuel fuel specs None (drop (i + length (act_close a)) s))
          | None => push_extracted stc_default a s
          end
      | None =>
          match find_next_open specs s with
          | Some (i, idx) =>
              match specs !! idx with
              | Some spec =>
                  stc_app (push_visible stc_default (take i s))
                    (scan_fuel fuel specs (Some (activate spec)) (drop (i + length (spec_open spec)) s))
              | None => stc_default
              end
          | None => push_visible stc_default s
          end
      end
  end.

Definition scan (specs : list (InlineTagSpec T)) (active : option (ActiveTag T)) (s : rstr) : chunk :=
  scan_fuel (S (length s)) specs active s.

(** The delimiters are not empty, and no opening one is inside another. *)
Definition specs_ok (specs : list (InlineTagSpec T)) : Prop :=
  (forall spec, spec ∈ specs -> spec_open spec ≠ [] /\ spec_close spec ≠ []) /\
  (forall a b k, a ∈ specs -> b ∈ specs -> occurs (spec_open a) (spec_open b) k -> spec_open a = spec_open b).

(** The pending text holds no complete delimiter that is looked for. *)
Definition settled (specs : list (InlineTagSpec T)) (active : option (ActiveTag T)) (pending : rstr) : Prop :=
  match active with
  | Some a => act_close a ≠ [] /\ find_sub (act_close a) pending = None
  | None => forall spec, spec ∈ specs -> find_sub (spec_open spec) pending = None
  end.

Definition inline_inv (p : parser) : Prop := specs_ok (specs p) /\ settled (specs p) (active p) (pending p).

(** ** Lemmas *)

Lemma lsp_loop_max k s n j :
  j <= k -> ends_with (take j n) s = true -> j <= lsp_loop k s n.
Proof.
  induction k as [|k IH]; intros Hj He; [lia|]. cbn [lsp_loop].
  destruct (ends_with (take (S k) n) s) eqn:E; [done|].
  apply IH; [|done]. destruct (decide (j = S k)) as [->|]; [by rewrite E in He|lia].
Qed.

Lemma lsp_loop_le k s n : lsp_loop k s n <= k.
Proof. induction k as [|k IH]; [done|]. cbn [lsp_loop]. case_match; lia. Qed.

Lemma longest_suffix_prefix_le s n : longest_suffix_prefix_len s n <= length s.
Proof. unfold longest_suffix_prefix_len. pose proof (lsp_loop_le (length s `min` (length n - 1)) s n). lia. Qed.

(** A suffix of [s] that [needle] starts with and does not end with is kept. *)
Lemma longest_suffix_prefix_max s n i :
  i <= length s -> length s < i + length n -> drop i s = take (length s - i) n ->
  length s - longest_suffix_prefix_len s n <= i.
Proof.
  intros Hi Hl Hd. unfold longest_suffix_prefix_len.
  assert (length s - i <= lsp_loop (length s `min` (length n - 1)) s n); [|lia].
  apply lsp_loop_max; [lia|]. apply ends_with_true. exists (take i s). by rewrite <- Hd, take_drop.
Qed.

Definition cand_le (a b : candidate) : Prop :=
  a.1.1 < b.1.1 \/ (a.1.1 = b.1.1 /\ (b.1.2 < a.1.2 \/ (a.1.2 = b.1.2 /\ a.2 <= b.2))).

Lemma candidate_cmp_le a b : candidate_cmp a b ≠ Gt <-> cand_le a b.
Proof.
  unfold candidate_cmp, then_with, cand_le.
  destruct (Nat.compare_spec a.1.1 b.1.1), (Nat.compare_spec b.1.2 a.1.2), (Nat.compare_spec a.2 b.2);
    split; try done; lia.
Qed.

Lemma min_by_snoc {A} (cmp : A -> A -> comparison) l x :
  min_by cmp (l ++ [x]) = match min_by cmp l with
                          | None => Some x
                          | Some a => match cmp a x with Gt => Some x | _ => Some a end
                          end.
Proof. unfold min_by. by rewrite foldl_app. Qed.

Lemma min_by_spec l :
  match min_by candidate_cmp l with
  | Some m => m ∈ l /\ forall x, x ∈ l -> cand_le m x
  | None => l = []
  end.
Proof.
  induction l as [|x l IH] using rev_ind; [done|]. rewrite min_by_snoc.
  destruct (min_by candidate_cmp l) as [m|]; [|subst l; split; [apply list_elem_of_here|]].
  2: { intros y ->%list_elem_of_singleton. unfold cand_le. lia. }
  destruct IH as [Hm Hle].
  assert (forall d, d = candidate_cmp m x ->
    match d with Gt => Some x | _ => Some m end = Some (if decide (cand_le m x) then m else x)) as Hd.
  { intros d ->. destruct (decide (cand_le m x)) as [Hc|Hc]; rewrite <- candidate_cmp_le in Hc;
      destruct (candidate_cmp m x); try done; by contradiction Hc. }
  rewrite (Hd _ eq_refl). destruct (decide (cand_le m x)) as [Hc|Hc].
  - split; [set_solver|]. intros y [Hy| ->%list_elem_of_singleton]%elem_of_app; auto.
  - split; [set_solver|]. intros y [Hy| ->%list_elem_of_singleton]%elem_of_app; [|unfold cand_le; lia].
    specialize (Hle y Hy). unfold cand_le in *. lia.
Qed.

Lemma open_candidates_elem sp s c :
  c ∈ open_candidates sp s <->
  exists spec, sp !! c.2 = Some spec /\ c.1.2 = length (spec_open spec) /\ find_sub (spec_open spec) s = Some c.1.1.
Proof.
  unfold open_candidates. rewrite list_elem_of_omap. split.
  - intros ([idx spec] & Hin & Hf). apply elem_of_lookup_imap in Hin as (i & y & [= -> ->] & Hy).
    apply fmap_Some in Hf as (pos & Hpos & ->). by exists y.
  - intros (spec & Hsp & Hlen & Hf). destruct c as [[pos len] idx]; cbn in *. subst len.
    exists (idx, spec). split; [|by rewrite Hf]. apply elem_of_lookup_imap. by exists idx, spec.
Qed.

(** The next tag: its delimiter is found first, the longest one of those found there,
    the first such tag of the list. *)
Definition next_open (sp : list (InlineTagSpec T)) (s : rstr) (pos idx : nat) (spec : InlineTagSpec T) : Prop :=
  sp !! idx = Some spec /\ find_sub (spec_open spec) s = Some pos /\
  forall j spec' q, sp !! j = Some spec' -> find_sub (spec_open spec') s = Some q ->
    cand_le (pos, length (spec_open spec), idx) (q, length (spec_open spec'), j).

Lemma find_next_open_cases sp s :
  match find_next_open sp s with
  | Some (pos, idx) => exists spec, next_open sp s pos idx spec
  | None => forall spec, spec ∈ sp -> find_sub (spec_open spec) s = None
  end.
Proof.
  unfold find_next_open. pose proof (min_by_spec (open_candidates sp s)) as H.
  destruct (min_by candidate_cmp (open_candidates sp s)) as [[[pos len] idx]|]; cbn.
  - destruct H as [Hin Hle]. apply open_candidates_elem in Hin as (spec & Hsp & Hlen & Hf); cbn in *; subst len.
    exists spec. split_and!; [done..|]. intros j spec' q Hj Hq. apply Hle.
    apply open_candidates_elem. by exists spec'.
  - intros spec [idx Hidx]%list_elem_of_lookup. apply eq_None_not_Some. intros [pos Hpos].
    assert ((pos, length (spec_open spec), idx) ∈ open_candidates sp s) as Hin
      by (apply open_candidates_elem; by exists spec).
    rewrite H in Hin. by apply not_elem_of_nil in Hin.
Qed.

Lemma next_open_find sp s pos idx spec : next_open sp s pos idx spec -> find_next_open sp s = Some (pos, idx).
Proof.
  intros (Hsp & Hf & Hle). pose proof (find_next_open_cases sp s) as H.
  destruct (find_next_open sp s) as [[pos' idx']|].
  - destruct H as (spec' & Hsp' & Hf' & Hle').
    specialize (Hle _ _ _ Hsp' Hf'). specialize (Hle' _ _ _ Hsp Hf). unfold cand_le in *; cbn in *.
    f_equal. f_equal; lia.
  - rewrite H in Hf; [done|]. by eapply list_elem_of_lookup_2.
Qed.

(** More text does not change a tag that is found already. *)
Lemma find_sub_app_Some n s r i : find_sub n s = Some i -> find_sub n (s ++ r) = Some i.
Proof.
  rewrite !find_sub_Some. intros [Ho Hmin]. split; [by apply occurs_app|].
  intros j Hj Hoj. apply (Hmin j Hj). eapply occurs_app_inv; [done|].
  apply occurs_length in Ho. lia.
Qed.

Lemma find_sub_app_None n s r i :
  find_sub n s = None -> find_sub n (s ++ r) = Some i -> length s < i + length n.
Proof.
  intros Hn [Ho _]%find_sub_Some. destruct (decide (i + length n <= length s)); [|lia].
  exfalso. apply (proj1 (find_sub_None n s) Hn i). by eapply occurs_app_inv.
Qed.

Lemma next_open_app sp s r pos idx spec :
  specs_ok sp -> next_open sp s pos idx spec -> next_open sp (s ++ r) pos idx spec.
Proof.
  intros [_ Hinfix] (Hsp & Hf & Hle). split_and!; [done|by apply find_sub_app_Some|].
  intros j spec' q Hj Hq. destruct (find_sub (spec_open spec') s) as [q'|] eqn:E.
  { assert (q' = q) as -> by (apply (find_sub_app_Some _ _ r) in E; congruence). by apply Hle. }
  pose proof (find_sub_app_None _ _ _ _ E Hq) as Hlen.
  apply find_sub_Some in Hf as [Ho _]. pose proof (occurs_length _ _ _ Ho).
  destruct (decide (q <= pos)) as [Hqp|]; [exfalso|unfold cand_le; cbn; lia].
  apply find_sub_Some in Hq as [Hoq _].
  assert (occurs (spec_open spec) (spec_open spec') (pos - q)) as Hnest
    by (apply (occurs_nested _ _ (s ++ r)); [by apply occurs_app|done|done|lia]).
  apply Hinfix in Hnest; [|by eapply list_elem_of_lookup_2..]. rewrite Hnest in *. lia.
Qed.

(** Without an occurrence, what is not kept is not part of one to come. *)
Lemma find_sub_keep n s r :
  find_sub n s = None ->
  forall k, length s - longest_suffix_prefix_len s n >= k ->
  find_sub n (s ++ r) = (fun i => k + i) <$> find_sub n (drop k s ++ r).
Proof.
  intros Hn k Hk. assert (k <= length s) as Hks by lia.
  assert (forall i, occurs n (s ++ r) i -> k <= i) as Hge.
  { intros i Ho. destruct (decide (i <= length s)) as [Hi|]; [|lia].
    destruct (decide (length s < i + length n)) as [Hl|Hl].
    - pose proof (longest_suffix_prefix_max s n i Hi Hl (occurs_straddle n s r i Ho Hi Hl)). lia.
    - exfalso. apply (proj1 (find_sub_None n s) Hn i). eapply occurs_app_inv; [done|lia]. }
  assert (drop k s ++ r = drop k (s ++ r)) as Hd by (by rewrite drop_app_le).
  rewrite Hd. destruct (find_sub n (drop k (s ++ r))) as [i|] eqn:E; cbn.
  - apply find_sub_Some in E as [Ho Hmin]. apply find_sub_Some. split.
    + apply occurs_drop; [done|]. rewrite length_app. lia.
    + intros j Hj Hoj. pose proof (Hge j Hoj). apply (Hmin (j - k)); [lia|].
      apply occurs_drop_inv. by replace (k + (j - k)) with j by lia.
  - apply find_sub_None. intros i Ho. pose proof (Hge i Ho).
    apply (proj1 (find_sub_None _ _) E (i - k)). apply occurs_drop_inv.
    by replace (k + (i - k)) with i by lia.
Qed.

Definition act_ok (a : option (ActiveTag T)) : Prop := forall a', a = Some a' -> act_close a' ≠ [].

Lemma act_ok_None : act_ok None.
Proof. by intros ? [=]. Qed.

Lemma act_ok_activate sp idx spec : specs_ok sp -> sp !! idx = Some spec -> act_ok (Some (activate spec)).
Proof. intros [Hne _] Hsp a [= <-]. apply (Hne spec). by eapply list_elem_of_lookup_2. Qed.

(** What follows a delimiter is shorter than the text. *)
Lemma drop_found n s i : n ≠ [] -> find_sub n s = Some i -> length (drop (i + length n) s) < length s.
Proof.
  intros Hn [Ho%occurs_length _]%find_sub_Some. rewrite length_drop. destruct n; [done|]. cbn in *. lia.
Qed.

Lemma drop_next_open sp s pos idx spec :
  specs_ok sp -> next_open sp s pos idx spec -> length (drop (pos + length (spec_open spec)) s) < length s.
Proof.
  intros [Hne _] (Hsp & Hf & _). apply drop_found; [|done]. apply (Hne spec). by eapply list_elem_of_lookup_2.
Qed.

Lemma scan_fuel_enough sp n m a s :
  specs_ok sp -> act_ok a -> length s < n -> length s < m -> scan_fuel n sp a s = scan_fuel m sp a s.
Proof.
  intros Hsp. revert m a s. induction n as [|n IH]; intros [|m] a s Ha Hn Hm; [lia..|]. cbn [scan_fuel].
  destruct a as [a|].
  - destruct (find_sub (act_close a) s) as [i|] eqn:E; [|done].
    pose proof (drop_found _ _ _ (Ha a eq_refl) E). f_equal. apply IH; [apply act_ok_None|lia..].
  - pose proof (find_next_open_cases sp s) as H. destruct (find_next_open sp s) as [[pos idx]|]; [|done].
    destruct H as (spec & H). pose proof (drop_next_open _ _ _ _ _ Hsp H). destruct H as [Hidx _].
    rewrite Hidx. f_equal. apply IH; [by eapply act_ok_activate|lia..].
Qed.

Lemma scan_active sp a s :
  specs_ok sp -> act_close a ≠ [] ->
  scan sp (Some a) s =
  match find_sub (act_close a) s with
  | Some i => stc_app (push_extracted stc_default a (take i s)) (scan sp None (drop (i + length (act_close a)) s))
  | None => push_extracted stc_default a s
  end.
Proof.
  intros Hsp Ha. unfold scan at 1. cbn [scan_fuel]. destruct (find_sub (act_close a) s) as [i|] eqn:E; [|done].
  f_equal. apply scan_fuel_enough; [done|apply act_ok_None| |lia]. by apply drop_found.
Qed.

Lemma scan_open sp s pos idx spec :
  specs_ok sp -> next_open sp s pos idx spec ->
  scan sp None s =
  stc_app (push_visible stc_default (take pos s))
    (scan sp (Some (activate spec)) (drop (pos + length (spec_open spec)) s)).
Proof.
  intros Hsp Hn. unfold scan at 1. cbn [scan_fuel]. rewrite (next_open_find _ _ _ _ _ Hn).
  pose proof (drop_next_open _ _ _ _ _ Hsp Hn) as Hlen. destruct Hn as [Hidx _]. rewrite Hidx. f_equal.
  apply scan_fuel_enough; [done|by eapply act_ok_activate|lia..].
Qed.

Lemma scan_none sp s :
  (forall spec, spec ∈ sp -> find_sub (spec_open spec) s = None) ->
  scan sp None s = push_visible stc_default s.
Proof.
  intros Hn. unfold scan. cbn [scan_fuel]. pose proof (find_next_open_cases sp s) as H.
  destruct (find_next_open sp s) as [[pos idx]|]; [|done]. destruct H as (spec & Hsp & Hf & _).
  rewrite Hn in Hf; [done|]. by eapply list_elem_of_lookup_2.
Qed.

(** Text that is flushed early belongs where it was flushed to. *)
Lemma scan_keep_active sp a s r k :
  specs_ok sp -> act_close a ≠ [] -> find_sub (act_close a) s = None ->
  k <= length s - longest_suffix_prefix_len s (act_close a) ->
  scan sp (Some (push_content a (take k s))) (drop k s ++ r) = scan sp (Some a) (s ++ r).
Proof.
  intros Hsp Ha Hn Hk. rewrite !scan_active by done. cbn [push_content act_close].
  rewrite (find_sub_keep _ s r Hn k) by lia. assert (k <= length s) by lia.
  rewrite <- (drop_app_le s r k) by done.
  destruct (find_sub (act_close a) (drop k (s ++ r))) as [i|]; cbn.
  - unfold stc_app, push_extracted; cbn. rewrite drop_drop.
    replace (k + (i + length (act_close a))) with (k + i + length (act_close a)) by lia.
    rewrite <- (take_take_drop (s ++ r) k i), (take_app_le s r k) by done. by rewrite (assoc_L (++)).
  - unfold push_extracted; cbn. rewrite <- (assoc_L (++)), <- (take_app_le s r k) by done.
    by rewrite take_drop.
Qed.

Lemma max_open_ge sp s spec :
  spec ∈ sp -> longest_suffix_prefix_len s (spec_open spec) <= max_open_prefix_suffix_len sp s.
Proof.
  unfold max_open_prefix_suffix_len. induction sp as [|x sp IH]; [by intros ?%not_elem_of_nil|].
  intros [->|Hin]%elem_of_cons; cbn; [lia|]. specialize (IH Hin). lia.
Qed.

Lemma next_open_keep sp s r k pos idx spec :
  (forall spec, spec ∈ sp -> find_sub (spec_open spec) s = None) ->
  k <= length s - max_open_prefix_suffix_len sp s ->
  next_open sp (drop k s ++ r) pos idx spec -> next_open sp (s ++ r) (k + pos) idx spec.
Proof.
  intros Hn Hk (Hsp & Hf & Hle).
  assert (forall spec', spec' ∈ sp ->
    find_sub (spec_open spec') (s ++ r) = (fun i => k + i) <$> find_sub (spec_open spec') (drop k s ++ r)) as Hfk.
  { intros spec' Hin. apply find_sub_keep; [by apply Hn|]. pose proof (max_open_ge sp s spec' Hin). lia. }
  split_and!; [done| |].
  - rewrite Hfk, Hf; [done|]. by eapply list_elem_of_lookup_2.
  - intros j spec' q Hj Hq. rewrite Hfk in Hq by (by eapply list_elem_of_lookup_2).
    apply fmap_Some in Hq as (q' & Hq' & ->). specialize (Hle _ _ _ Hj Hq'). unfold cand_le in *; cbn in *. lia.
Qed.

Lemma scan_keep_none sp s r k :
  specs_ok sp -> (forall spec, spec ∈ sp -> find_sub (spec_open spec) s = None) ->
  k <= length s - max_open_prefix_suffix_len sp s ->
  stc_app (push_visible stc_default (take k s)) (scan sp None (drop k s ++ r)) = scan sp None (s ++ r).
Proof.
  intros Hsp Hn Hk. assert (k <= length s) by lia. pose proof (find_next_open_cases sp (drop k s ++ r)) as H0.
  destruct (find_next_open sp (drop k s ++ r)) as [[pos idx]|].
  - destruct H0 as (spec & H0). rewrite (scan_open _ _ _ _ _ Hsp H0).
    rewrite (scan_open _ _ _ _ _ Hsp (next_open_keep _ _ _ _ _ _ _ Hn Hk H0)).
    rewrite <- (drop_app_le s r k), drop_drop by done. rewrite Nat.add_assoc.
    unfold stc_app, push_visible; cbn. rewrite <- (take_take_drop (s ++ r) k pos), (take_app_le s r k) by done.
    by rewrite !(assoc_L (++)).
  - rewrite !scan_none; [|intros spec Hin|done].
    + unfold stc_app, push_visible; cbn. rewrite (assoc_L (++)). by rewrite take_drop.
    + rewrite (find_sub_keep _ s r (Hn _ Hin) k).
      * by rewrite H0.
      * pose proof (max_open_ge sp s spec Hin). lia.
Qed.

Lemma push_extracted_app out a t : push_extracted out a t = stc_app out (push_extracted stc_default a t).
Proof. unfold push_extracted, stc_app; cbn. by rewrite app_nil_r. Qed.

Lemma push_visible_app out t : push_visible out t = stc_app out (push_visible stc_default t).
Proof. unfold push_visible, stc_app; cbn. by rewrite app_nil_r. Qed.

Lemma find_sub_drop_None n s k : find_sub n s = None -> find_sub n (drop k s) = None.
Proof.
  intros Hn. destruct (decide (k <= length s)) as [Hk|Hk].
  - apply find_sub_None. intros i Ho. apply (proj1 (find_sub_None n s) Hn (k + i)). by apply occurs_drop.
  - rewrite drop_ge by lia. rewrite find_sub_None in Hn. apply find_sub_None. intros i [Ht Hi]. cbn in Hi. destruct n as [|c n]; [|by rewrite drop_nil in Ht].
    exfalso. apply (Hn 0). split; [done|lia].
Qed.

Lemma settled_act_ok sp a s : settled sp a s -> act_ok a.
Proof. destruct a; [intros [Ha _] ? [= <-]; done|intros _; apply act_ok_None]. Qed.

(** The loop emits a part of the meaning of the text and leaves the rest. *)
Lemma push_loop_spec sp n a s out rest :
  specs_ok sp -> act_ok a -> length s < n ->
  match push_loop n sp a s out with
  | (a', s', out') => settled sp a' s' /\ stc_app out' (scan sp a' (s' ++ rest)) = stc_app out (scan sp a (s ++ rest))
  end.
Proof.
  intros Hsp. revert a s out. induction n as [|n IH]; intros a s out Ha Hn; [lia|]. cbn [push_loop].
  destruct a as [a|].
  - pose proof (Ha a eq_refl) as Hne. destruct (find_sub (act_close a) s) as [i|] eqn:E.
    + pose proof (drop_found _ _ _ Hne E) as Hlen.
      pose proof (proj1 (find_sub_Some _ _ _) E) as [Ho%occurs_length _].
      specialize (IH None (drop (i + length (act_close a)) s) (push_extracted out a (take i s)) act_ok_None).
      destruct (push_loop n sp None _ _) as [[a' s'] out']. destruct IH as [Ha' ->]; [lia|]. split; [done|].
      rewrite push_extracted_app, stc_app_assoc. f_equal.
      rewrite (scan_active sp a (s ++ rest)) by done. rewrite (find_sub_app_Some _ _ rest _ E).
      by rewrite take_app_le, drop_app_le by lia.
    + split; [split; [done|by apply find_sub_drop_None]|]. f_equal. apply scan_keep_active; done || lia.
  - pose proof (find_next_open_cases sp s) as Hf. destruct (find_next_open sp s) as [[pos idx]|].
    + destruct Hf as (spec & Hf). pose proof (drop_next_open _ _ _ _ _ Hsp Hf) as Hlen.
      pose proof (scan_open _ _ _ _ _ Hsp (next_open_app _ _ rest _ _ _ Hsp Hf)) as Hscan.
      destruct Hf as (Hidx & Hfs & _). rewrite Hidx. apply find_sub_Some in Hfs as [Ho%occurs_length _].
      specialize (IH (Some (activate spec)) (drop (pos + length (spec_open spec)) s) (push_visible out (take pos s))
        (act_ok_activate _ _ _ Hsp Hidx)).
      destruct (push_loop n sp _ _ _) as [[a' s'] out']. destruct IH as [Ha' ->]; [lia|]. split; [done|].
      rewrite push_visible_app, stc_app_assoc, Hscan. f_equal. by rewrite take_app_le, drop_app_le by lia.
    + split; [intros spec Hin; apply find_sub_drop_None; auto|]. rewrite push_visible_app, stc_app_assoc. f_equal.
      apply scan_keep_none; done || lia.
Qed.

Lemma inline_push_str_spec p c rest :
  inline_inv p ->
  inline_inv (inline_push_str p c).1 /\
  stc_app (inline_push_str p c).2
    (scan (specs (inline_push_str p c).1) (active (inline_push_str p c).1) (pending (inline_push_str p c).1 ++ rest))
  = scan (specs p) (active p) (pending p ++ c ++ rest).
Proof.
  intros [Hsp Hs]. unfold inline_push_str.
  pose proof (push_loop_spec (specs p) (S (length (pending p ++ c))) (active p) (pending p ++ c) stc_default rest
    Hsp (settled_act_ok _ _ _ Hs) ltac:(lia)) as H.
  destruct (push_loop _ _ _ _ _) as [[a' s'] out']. destruct H as [Hs' H]. split; [by split|].
  cbn [fst snd specs active pending]. by rewrite H, stc_app_default_l, <- (assoc_L (++)).
Qed.

Lemma inline_finish_spec p : inline_inv p -> (inline_finish p).2 = scan (specs p) (active p) (pending p).
Proof.
  intros [Hsp Hs]. unfold inline_finish. cbn [snd]. destruct (active p) as [a|].
  - destruct Hs as [Ha Hn]. by rewrite scan_active, Hn by done.
  - by rewrite scan_none.
Qed.

#[export] Instance Inline_laws : StreamLaws parser (ExtractedInlineTag T).
Proof.
  refine {| payload_eqv := eq; parser_inv := inline_inv;
            meaning p s := scan (specs p) (active p) (pending p ++ s) |}.
  - intros p c Hp. apply (inline_push_str_spec p c [] Hp).
  - intros p c rest Hp. rewrite <- (proj2 (inline_push_str_spec p c rest Hp)). by split.
  - intros p Hp. by rewrite app_nil_r, <- (inline_finish_spec p Hp).
Defined.
End Inline.

(** ** [citation.rs] *)

Inductive CitationTag := Citation.

Definition CITATION_OPEN : rstr := lit "<oai-mem-citation>".
Definition CITATION_CLOSE : rstr := lit "</oai-mem-citation>".

Definition citation_specs : list (InlineTagSpec CitationTag) :=
  [{| spec_tag := Citation; spec_open := CITATION_OPEN; spec_close := CITATION_CLOSE |}].

Record CitationStreamParser := { inner : InlineHiddenTagParser CitationTag }.

Definition citation_new : res unit CitationStreamParser :=
  i ← inline_new citation_specs; Ok {| inner := i |}.

Definition citation_chunk (c : StreamTextChunk (ExtractedInlineTag CitationTag)) : StreamTextChunk rstr :=
  {| visible_text := visible_text c; extracted := map ex_content (extracted c) |}.

#[export] Instance Citation_parser : StreamTextParser CitationStreamParser rstr := {|
  push_str self chunk :=
    let '(i, c) := push_str (inner self) chunk in ({| inner := i |}, citation_chunk c);
  finish self :=
    let '(i, c) := finish (inner self) in ({| inner := i |}, citation_chunk c);
|}.

Definition strip_citations (text : rstr) : res unit (rstr * list rstr) :=
  parser ← citation_new;
  let '(parser, out) := push_str parser text in
  let '(_, tail) := finish parser in
  Ok (visible_text out ++ visible_text tail, extracted out ++ extracted tail).

Lemma citation_chunk_app a b : citation_chunk (stc_app a b) = stc_app (citation_chunk a) (citation_chunk b).
Proof. unfold citation_chunk, stc_app; cbn. by rewrite map_app. Qed.

#[export] Instance Citation_laws : StreamLaws CitationStreamParser rstr.
Proof.
  refine {| payload_eqv := eq; parser_inv p := inline_inv (inner p);
            meaning p s := citation_chunk (scan (specs (inner p)) (active (inner p)) (pending (inner p) ++ s)) |}.
  - intros p c Hp. pose proof (proj1 (inline_push_str_spec (inner p) c [] Hp)) as H.
    cbn. by destruct (inline_push_str (inner p) c).
  - intros p c rest Hp. pose proof (proj2 (inline_push_str_spec (inner p) c rest Hp)) as H.
    rewrite <- H, citation_chunk_app. cbn [push_str Citation_parser Inline_parser].
    destruct (inline_push_str (inner p) c). by split.
  - intros p Hp. rewrite app_nil_r, <- (inline_finish_spec (inner p) Hp). by split.
Defined.

(** ** A text with citations *)

(** Visible text, then citations each followed by more visible text; the last citation
    may lack its closing delimiter. *)
Record CitedText := { ct_first : rstr; ct_cited : list (rstr * rstr); ct_open : option rstr }.

Definition print_cited (d : CitedText) : rstr :=
  ct_first d ++
  concat (map (fun '(body, v) => CITATION_OPEN ++ body ++ CITATION_CLOSE ++ v) (ct_cited d)) ++
  match ct_open d with Some body => CITATION_OPEN ++ body | None => [] end.

Definition cited_visible (d : CitedText) : rstr := ct_first d ++ concat (map snd (ct_cited d)).
Definition cited_bodies (d : CitedText) : list rstr := map fst (ct_cited d) ++ option_list (ct_open d).

(** No visible part contains the opening delimiter and no body the closing one. *)
Definition cited_ok (d : CitedText) : Prop :=
  contains_sub CITATION_OPEN (ct_first d) = false /\
  Forall (fun '(body, v) => contains_sub CITATION_CLOSE body = false /\ contains_sub CITATION_OPEN v = false)
    (ct_cited d) /\
  match ct_open d with Some body => contains_sub CITATION_CLOSE body = false | None => True end.

#[export] Instance cited_ok_dec d : Decision (cited_ok d).
Proof.
  unfold cited_ok. apply and_dec; [apply _|]. apply and_dec.
  - apply Forall_dec. intros [b v]. apply _.
  - destruct (ct_open d); apply _.
Defined.

Lemma occurs_lookup n s i k : occurs n s i -> k < length n -> n !! k = s !! (i + k).
Proof. intros [Ht _] Hk. rewrite <- Ht at 1. rewrite lookup_take_lt by done. apply lookup_drop. Qed.

Lemma contains_sub_false n s : contains_sub n s = false <-> find_sub n s = None.
Proof. unfold contains_sub. by case_match. Qed.

(** A delimiter whose first character is nowhere else in it cannot overlap itself. *)
Lemma find_sub_delim c n v r :
  c ∉ n -> contains_sub (c :: n) v = false -> find_sub (c :: n) (v ++ (c :: n) ++ r) = Some (length v).
Proof.
  intros Hc Hv%contains_sub_false. apply find_sub_Some. split.
  { split; [|rewrite length_app; lia]. by rewrite drop_app_length, take_app_length. }
  intros j Hj Ho. destruct (decide (j + length (c :: n) <= length v)) as [Hl|Hl].
  { apply (proj1 (find_sub_None _ _) Hv j). by eapply occurs_app_inv. }
  pose proof (occurs_lookup _ _ _ (length v - j) Ho ltac:(lia)) as Hk.
  replace (j + (length v - j)) with (length v) in Hk by lia.
  rewrite lookup_app_r, Nat.sub_diag in Hk by done. cbn in Hk.
  destruct (length v - j) as [|k] eqn:Ek; [lia|]. cbn in Hk. apply Hc. by eapply list_elem_of_lookup_2.
Qed.

Definition citation_spec : InlineTagSpec CitationTag :=
  {| spec_tag := Citation; spec_open := CITATION_OPEN; spec_close := CITATION_CLOSE |}.

Lemma citation_specs_ok : specs_ok citation_specs.
Proof. unfold citation_specs. split; [intros spec|intros a b k]; rewrite !list_elem_of_singleton; naive_solver. Qed.

Lemma citation_new_inv p : citation_new = Ok p -> parser_inv p.
Proof. intros [= <-]. split; [apply citation_specs_ok|]. by intros spec ->%list_elem_of_singleton. Qed.

Definition cite (body : rstr) : StreamTextChunk (ExtractedInlineTag CitationTag) :=
  {| visible_text := []; extracted := [{| ex_tag := Citation; ex_content := body |}] |}.

Definition shown (v : rstr) : StreamTextChunk (ExtractedInlineTag CitationTag) :=
  {| visible_text := v; extracted := [] |}.

Lemma scan_cite_visible v r : contains_sub CITATION_OPEN v = false ->
  scan citation_specs None (v ++ CITATION_OPEN ++ r) =
  stc_app (shown v) (scan citation_specs (Some (activate citation_spec)) r).
Proof.
  intros Hv. assert (find_sub CITATION_OPEN (v ++ CITATION_OPEN ++ r) = Some (length v)) as Hf.
  { apply find_sub_delim; [by apply (bool_decide_unpack _)|done]. }
  rewrite (scan_open _ _ (length v) 0 citation_spec); [|apply citation_specs_ok|].
  - cbn [spec_open citation_spec]. rewrite take_app_length, <- drop_drop, drop_app_length.
    by rewrite drop_app_length.
  - split_and!; [done..|]. intros [|j] spec' q [=]. subst spec'. cbn [spec_open]. rewrite Hf.
    intros [= <-]. unfold cand_le; cbn. lia.
Qed.

Lemma scan_cite_body b r : contains_sub CITATION_CLOSE b = false ->
  scan citation_specs (Some (activate citation_spec)) (b ++ CITATION_CLOSE ++ r) =
  stc_app (cite b) (scan citation_specs None r).
Proof.
  intros Hb. rewrite scan_active; [|apply citation_specs_ok|done].
  cbn [activate act_close spec_close citation_spec].
  assert (find_sub CITATION_CLOSE (b ++ CITATION_CLOSE ++ r) = Some (length b)) as ->.
  { apply find_sub_delim; [by apply (bool_decide_unpack _)|done]. }
  rewrite take_app_length, <- drop_drop, drop_app_length. by rewrite drop_app_length.
Qed.

Lemma scan_cited first cited last :
  cited_ok {| ct_first := first; ct_cited := cited; ct_open := last |} ->
  citation_chunk (scan citation_specs None (print_cited {| ct_first := first; ct_cited := cited; ct_open := last |})) =
  {| visible_text := first ++ concat (map snd cited); extracted := map fst cited ++ option_list last |}.
Proof.
  unfold cited_ok, print_cited; cbn [ct_first ct_cited ct_open].
  revert first. induction cited as [|[b v] cited IH]; intros first (Hf & Hc & Hl).
  - cbn [map concat]. rewrite app_nil_l, app_nil_r. destruct last as [b|].
    + rewrite scan_cite_visible by done.
      rewrite scan_active; [|apply citation_specs_ok|done]. cbn [activate act_close spec_close citation_spec].
      rewrite (proj1 (contains_sub_false _ _) Hl).
      unfold citation_chunk; cbn. by rewrite app_nil_r.
    + rewrite app_nil_r, scan_none; [done|].
      intros spec ->%list_elem_of_singleton. by apply contains_sub_false.
  - apply Forall_cons in Hc as [[Hb Hv] Hc]. cbn [map concat]. rewrite <- !(assoc_L (++)).
    rewrite scan_cite_visible, scan_cite_body by done. rewrite !citation_chunk_app, (IH v) by done.
    done.
Qed.

Lemma citation_run p chunks :
  citation_new = Ok p -> run p chunks = citation_chunk (scan citation_specs None (concat chunks)).
Proof.
  intros Hp. pose proof (citation_new_inv p Hp) as Hi. injection Hp as <-.
  destruct (run_meaning _ chunks Hi). by apply stc_eq.
Qed.

Lemma strip_citations_scan text :
  strip_citations text =
  let c := citation_chunk (scan citation_specs None text) in Ok (visible_text c, extracted c).
Proof.
  destruct citation_new as [p| |] eqn:E; [|done..].
  pose proof (citation_run p [text] E) as Hr. unfold strip_citations. rewrite E. cbn [mbind res_bind].
  unfold run in Hr. cbn [push_all concat] in Hr. rewrite app_nil_r in Hr.
  destruct (push_str p text) as [q out]. rewrite stc_app_default_r in Hr.
  destruct (finish q) as [q' tail]. cbn [snd] in Hr. by rewrite <- Hr.
Qed.

(** ** Theorems *)

(** For tags with nonempty delimiters of which no opening one lies inside another,
    the streaming parser finds the same visible text and the same tag contents in a
    text however it is cut into pushes, and they are those of the complete text: the
    earliest opening delimiter, up to its first closing delimiter or the end. *)
Theorem inline_stream_scan {T} (sp : list (InlineTagSpec T)) p chunks :
  inline_new sp = Ok p ->
  (forall a b k, a ∈ sp -> b ∈ sp -> occurs (spec_open a) (spec_open b) k -> spec_open a = spec_open b) ->
  run p chunks = scan sp None (concat chunks).
Proof.
  intros Hp Hinfix. unfold inline_new in Hp. destruct (is_empty sp); [done|].
  destruct (existsb _ sp) eqn:E; [done|]. injection Hp as <-.
  assert (specs_ok sp) as Hsp.
  { split; [|done]. intros spec Hin. split; intros Hnil; rewrite <- not_true_iff_false in E; apply E;
      apply existsb_exists; exists spec; (split; [by apply list_elem_of_In|]); rewrite Hnil; [done|].
    apply orb_true_r. }
  assert (parser_inv (P := InlineHiddenTagParser T) {| specs := sp; pending := []; active := None |}) as Hi.
  { split; [done|]. intros spec Hin. destruct Hsp as [Hne _]. destruct (Hne spec Hin) as [Ho _]. cbn.
    by destruct (spec_open spec). }
  destruct (run_meaning _ chunks Hi). by apply stc_eq.
Qed.

(** Citations read back: a text of visible parts and citations, the last of which
    may be unclosed, yields the visible parts and the bodies, both from
    [strip_citations] and from a parser that receives the text in any pieces. *)
Theorem citations_read_back d chunks :
  cited_ok d -> concat chunks = print_cited d ->
  strip_citations (print_cited d) = Ok (cited_visible d, cited_bodies d) /\
  exists p, citation_new = Ok p /\ run p chunks = {| visible_text := cited_visible d; extracted := cited_bodies d |}.
Proof.
  intros Hd Hc. destruct d as [first cited last]. pose proof (scan_cited _ _ _ Hd) as Hs. split.
  - rewrite strip_citations_scan. cbn zeta. by rewrite Hs.
  - eexists. split; [reflexivity|]. rewrite citation_run, Hc by reflexivity. exact Hs.
Qed.

(** ** Witnesses *)

Module InlineDemo.

Definition tags : list (InlineTagSpec nat) :=
  [{| spec_tag := 0; spec_open := lit "<a>"; spec_close := lit "</a>" |};
   {| spec_tag := 1; spec_open := lit "<b>"; spec_close := lit "</b>" |}].

Definition pieces : list rstr := [lit "x<"; lit "a>1<"; lit "/a>y<b"; lit ">2"].

Definition cited : CitedText :=
  {| ct_first := lit "hello "; ct_cited := [(lit "doc A", lit " world")]; ct_open := Some (lit "doc B") |}.

(** With an opening delimiter inside another the result does depend on the pieces:
    the longer one only wins when it arrives whole. *)
Definition overlapping : list (InlineTagSpec nat) :=
  [{| spec_tag := 0; spec_open := lit "<a>"; spec_close := lit "." |};
   {| spec_tag := 1; spec_open := lit "<a>>"; spec_close := lit "." |}].

Example overlapping_openers_depend_on_pieces :
  exists p, inline_new overlapping = Ok p /\
  map ex_tag (extracted (run p [lit "<a>>x."])) = [1] /\
  map ex_tag (extracted (run p [lit "<a>"; lit ">x."])) = [0].
Proof. eexists. split; [reflexivity|]. vm_compute. done. Qed.

End InlineDemo.

Lemma inline_stream_scan_witness :
  exists p, inline_new InlineDemo.tags = Ok p /\
  run p InlineDemo.pieces =
  {| visible_text := lit "xy"; extracted := [{| ex_tag := 0; ex_content := lit "1" |}; {| ex_tag := 1; ex_content := lit "2" |}] |}.
Proof.
  eexists. split; [reflexivity|].
  etransitivity; [apply (inline_stream_scan InlineDemo.tags); [reflexivity|]|vm_compute; reflexivity].
  intros a b k Ha Hb [Ht Hk]. unfold InlineDemo.tags in *.
  repeat match goal with H : _ ∈ _ :: _ |- _ => apply elem_of_cons in H as [-> | H] end;
    try (by apply not_elem_of_nil in Ha); try (by apply not_elem_of_nil in Hb); try reflexivity;
    exfalso; cbn in Hk; do 4 (destruct k as [|k]; [discriminate Ht|]); lia.
Defined.

Lemma citations_read_back_witness :
  strip_citations (print_cited InlineDemo.cited) = Ok (lit "hello  world", [lit "doc A"; lit "doc B"]).
Proof.
  apply (citations_read_back InlineDemo.cited [print_cited InlineDemo.cited]).
  - apply (bool_decide_unpack _). vm_compute. reflexivity.
  - apply app_nil_r.
Defined.
