(* ===== verification/TaggedLine.v ===== *)
(** * Tags that stand alone on a line

    Models [workx-rs/utils/stream-parser/src/tagged_line_parser.rs], a streaming parser
    that cuts text into normal text and tag blocks. It buffers a line while the line
    can still be a tag. Segments of the same kind are merged within one push but not
    across pushes: callers see segments up to merging, the relation [same_segments]. *)
From S2P Require Import Prelude.

Set Default Goal Selector "!".

Record TagSpec (T : Type) := { tl_open : rstr; tl_close : rstr; tl_tag : T }.
Arguments tl_open {T} _.
Arguments tl_close {T} _.
Arguments tl_tag {T} _.

Inductive TaggedLineSegment (T : Type) :=
| Normal (s : rstr)
| TagStart (tag : T)
| TagDelta (tag : T) (s : rstr)
| TagEnd (tag : T).
Arguments Normal {T} s.
Arguments TagStart {T} tag.
Arguments TagDelta {T} tag s.
Arguments TagEnd {T} tag.

Record TaggedLineParser (T : Type) := {
  tl_specs : list (TagSpec T);
  active_tag : option T;
  detect_tag : bool;
  line_buffer : rstr;
}.
Arguments tl_specs {T} _.
Arguments active_tag {T} _.
Arguments detect_tag {T} _.
Arguments line_buffer {T} _.

Section TaggedLine.
Context {T : Type} `{EqDecision T}.
Set Default Proof Using "Type*".

Abbreviation segment := (TaggedLineSegment T).
Abbreviation parser := (TaggedLineParser T).

Definition tagged_new (specs : list (TagSpec T)) : parser :=
  {| tl_specs := specs; active_tag := None; detect_tag := true; line_buffer := [] |}.

Definition set_line (p : parser) (active : option T) (detect : bool) (buffer : rstr) : parser :=
  {| tl_specs := tl_specs p; active_tag := active; detect_tag := detect; line_buffer := buffer |}.

(** [segments.last_mut()] replaced by [x]. *)
Definition set_last (segments : list segment) (x : segment) : list segment :=
  take (length segments - 1) segments ++ [x].

#[local] Arguments set_last : simpl never.

Definition push_segment (segments : list segment) (seg : segment) : list segment :=
  match seg with
  | Normal delta =>
      if is_empty delta then segments
      else match last segments with
           | Some (Normal existing) => set_last segments (Normal (existing ++ delta))
           | _ => segments ++ [Normal delta]
           end
  | TagDelta tag delta =>
      if is_empty delta then segments
      else match last segments with
           | Some (TagDelta existing_tag existing) =>
               if bool_decide (existing_tag = tag) then set_last segments (TagDelta existing_tag (existing ++ delta))
               else segments ++ [TagDelta tag delta]
           | _ => segments ++ [TagDelta tag delta]
           end
  | TagStart tag => segments ++ [TagStart tag]
  | TagEnd tag => segments ++ [TagEnd tag]
  end.

(** The segment of a text inside the active tag, if any. *)
Definition text_segment (active : option T) (text : rstr) : segment :=
  match active with Some tag => TagDelta tag text | None => Normal text end.

Definition push_text (self : parser) (text : rstr) (segments : list segment) : list segment :=
  push_segment segments (text_segment (active_tag self) text).

Definition is_tag_prefix (specs : list (TagSpec T)) (slug : rstr) : bool :=
  let slug := trim_end slug in
  existsb (fun spec => starts_with slug (tl_open spec) || starts_with slug (tl_close spec)) specs.

Definition match_open (specs : list (TagSpec T)) (slug : rstr) : option T :=
  tl_tag <$> List.find (fun spec => streq (tl_open spec) slug) specs.

Definition match_close (specs : list (TagSpec T)) (slug : rstr) : option T :=
  tl_tag <$> List.find (fun spec => streq (tl_close spec) slug) specs.

Definition line_slug (line : rstr) : rstr := trim (default line (strip_suffix [NL] line)).

(** The decision both [finish_line] and [finish] take on a complete line: the tag
    active after it and the segment it gives. *)
Definition decide_line (specs : list (TagSpec T)) (active : option T) (line : rstr) : option T * segment :=
  let slug := line_slug line in
  match match_open specs slug, active with
  | Some tag, None => (Some tag, TagStart tag)
  | _, _ =>
      match match_close specs slug with
      | Some tag => if bool_decide (active = Some tag) then (None, TagEnd tag) else (active, text_segment active line)
      | None => (active, text_segment active line)
      end
  end.

Definition finish_line (self : parser) (segments : list segment) : parser * list segment :=
  let '(active, seg) := decide_line (tl_specs self) (active_tag self) (line_buffer self) in
  (set_line self active true [], push_segment segments seg).

(** One character of the loop of [parse]: the parser, [run] and the segments. *)
Definition parse_char (st : parser * rstr * list segment) (ch : char) : parser * rstr * list segment :=
  let '(self, run, segments) := st in
  if detect_tag self then
    let segments := if is_empty run then segments else push_text self run segments in
    let self := set_line self (active_tag self) true (line_buffer self ++ [ch]) in
    if (ch =? NL)%Z then let '(self, segments) := finish_line self segments in (self, [], segments)
    else
      let slug := trim_start (line_buffer self) in
      if is_empty slug || is_tag_prefix (tl_specs self) slug then (self, [], segments)
      else (set_line self (active_tag self) false [], [], push_text self (line_buffer self) segments)
  else
    let run := run ++ [ch] in
    if (ch =? NL)%Z
    then (set_line self (active_tag self) true (line_buffer self), [], push_text self run segments)
    else (self, run, segments).

Definition parse (self : parser) (delta : rstr) : parser * list segment :=
  let '(self, run, segments) := foldl parse_char (self, [], []) delta in
  (self, if is_empty run then segments else push_text self run segments).

Definition tagged_finish (self : parser) : parser * list segment :=
  let '(active, segments) :=
    if is_empty (line_buffer self) then (active_tag self, [])
    else let '(active, seg) := decide_line (tl_specs self) (active_tag self) (line_buffer self) in
         (active, push_segment [] seg) in
  let segments := match active with Some tag => push_segment segments (TagEnd tag) | None => segments end in
  (set_line self None true [], segments).

(** ** Segments up to merging *)

Definition merge (l : list segment) : list segment := foldl push_segment [] l.

Definition same_segments (a b : list segment) : Prop := merge a = merge b.

Lemma push_segment_nil active l : push_segment l (text_segment active []) = l.
Proof. by destruct active. Qed.

Lemma set_last_snoc l x y : set_last (l ++ [x]) y = l ++ [y].
Proof.
  unfold set_last. rewrite length_app. cbn. replace (length l + 1 - 1) with (length l) by lia.
  by rewrite take_app_length.
Qed.

(** Two texts pushed one after the other are one text. *)
Lemma push_segment_text active l a b :
  push_segment (push_segment l (text_segment active a)) (text_segment active b) =
  push_segment l (text_segment active (a ++ b)).
Proof.
  destruct b as [|c b]; [by rewrite app_nil_r, push_segment_nil|].
  destruct a as [|d a]; [by rewrite push_segment_nil|].
  destruct l as [|x l _] using rev_ind.
  - destruct active; cbn; [by rewrite bool_decide_true by done|done].
  - destruct active as [t|]; cbn; rewrite last_snoc; destruct x; rewrite ?set_last_snoc, ?last_snoc.
    all: try (destruct (bool_decide_reflect (tag = t)) as [->|]).
    all: rewrite ?set_last_snoc, ?last_snoc, ?bool_decide_true by done.
    all: by rewrite ?set_last_snoc, <- ?(assoc_L (++)).
Qed.

(** A fold over segments that does not see how a text is cut. *)
Definition text_additive {S} (f : S -> segment -> S) : Prop :=
  (forall st active, f st (text_segment active []) = st) /\
  (forall st active a b,
    f (f st (text_segment active a)) (text_segment active b) = f st (text_segment active (a ++ b))).

Lemma push_segment_additive : text_additive push_segment.
Proof. split; intros; [apply push_segment_nil|apply push_segment_text]. Qed.

(** A segment is appended, dropped as an empty text, or joins the text before it. *)
Lemma push_segment_cases l x :
  push_segment l x = l ++ [x] \/ (exists active, x = text_segment active [] /\ push_segment l x = l) \/
  exists l' active a b, l = l' ++ [text_segment active a] /\ x = text_segment active b /\
    push_segment l x = l' ++ [text_segment active (a ++ b)].
Proof.
  destruct x as [d|t|t d|t]; cbn; [|by left| |by left].
  all: destruct d as [|c d]; cbn; [right; left; first [by exists None | by exists (Some t)]|].
  all: destruct l as [|y l _] using rev_ind; [by left|]; rewrite last_snoc; destruct y; try by left.
  - right; right. exists l, None, s, (c :: d). by rewrite set_last_snoc.
  - destruct (bool_decide_reflect (tag = t)) as [->|]; [|by left].
    right; right. exists l, (Some t), s, (c :: d). by rewrite set_last_snoc.
Qed.

Lemma foldl_push_segment {S} (f : S -> segment -> S) st l x :
  text_additive f -> foldl f st (push_segment l x) = f (foldl f st l) x.
Proof.
  intros [Hnil Htext].
  destruct (push_segment_cases l x) as [->|[(active & -> & ->)|(l' & active & a & b & -> & -> & ->)]].
  - by rewrite foldl_app.
  - by rewrite Hnil.
  - rewrite !foldl_app. cbn [foldl]. by rewrite Htext.
Qed.

Lemma foldl_merge {S} (f : S -> segment -> S) st l :
  text_additive f -> foldl f st (merge l) = foldl f st l.
Proof.
  intros Hf. unfold merge. induction l as [|x l IH] using rev_ind; [done|].
  rewrite !foldl_app. cbn [foldl]. by rewrite foldl_push_segment, IH.
Qed.

(** Such a fold gives the same on segments that are the same up to merging. *)
Lemma same_segments_fold {S} (f : S -> segment -> S) st a b :
  text_additive f -> same_segments a b -> foldl f st a = foldl f st b.
Proof. intros Hf Hab. rewrite <- (foldl_merge f st a), <- (foldl_merge f st b) by done. by rewrite Hab. Qed.

#[export] Instance same_segments_equiv : Equivalence same_segments.
Proof. unfold same_segments. split; [by intros a|by intros a b ->|by intros a b c -> ->]. Qed.

#[export] Instance same_segments_app : Proper (same_segments ==> same_segments ==> same_segments) (++).
Proof.
  intros a a' Ha b b' Hb. unfold same_segments, merge in *. rewrite !foldl_app, Ha.
  apply same_segments_fold; [apply push_segment_additive|done].
Qed.

Lemma same_segments_push l x : same_segments (push_segment l x) (l ++ [x]).
Proof. unfold same_segments, merge. rewrite foldl_app. cbn [foldl].
  apply foldl_push_segment, push_segment_additive.
Qed.

Lemma same_segments_text active a b :
  same_segments [text_segment active a; text_segment active b] [text_segment active (a ++ b)].
Proof. unfold same_segments, merge. cbn [foldl]. by rewrite push_segment_text. Qed.

Lemma same_segments_cons x a b : same_segments a b -> same_segments (x :: a) (x :: b).
Proof. intros Hab. by apply (same_segments_app [x] [x]). Qed.

Lemma same_segments_nil active : same_segments [text_segment active []] [].
Proof. unfold same_segments, merge. cbn [foldl]. by rewrite push_segment_nil. Qed.

(** ** The text as a whole *)

(** The segments of complete lines; the end of the text ends an open tag. *)
Fixpoint lines_segments (specs : list (TagSpec T)) (active : option T) (lines : list rstr) : list segment :=
  match lines with
  | [] => match active with Some tag => [TagEnd tag] | None => [] end
  | line :: lines' =>
      let '(active, seg) := decide_line specs active line in seg :: lines_segments specs active lines'
  end.

(** The same when the first line is known not to be a tag. *)
Definition rest_segments (specs : list (TagSpec T)) (active : option T) (lines : list rstr) : list segment :=
  match lines with
  | [] => lines_segments specs active []
  | line :: lines' => text_segment active line :: lines_segments specs active lines'
  end.

Definition tagged_meaning (p : parser) (s : rstr) : list segment :=
  if detect_tag p then lines_segments (tl_specs p) (active_tag p) (split_inclusive NL (line_buffer p ++ s))
  else rest_segments (tl_specs p) (active_tag p) (split_inclusive NL s).

(** The buffer holds the part of the current line read so far, while it can be a tag. *)
Definition tagged_inv (p : parser) : Prop :=
  (NL ∉ line_buffer p) /\ (detect_tag p = false -> line_buffer p = []).

Lemma drop_while_app_l (f : Z -> bool) a b : drop_while f a ≠ [] -> drop_while f (a ++ b) = drop_while f a ++ b.
Proof. induction a as [|x a IH]; cbn; [done|]. by case_match. Qed.

Lemma drop_while_app_r (f : Z -> bool) a b : drop_while f a = [] -> drop_while f (a ++ b) = drop_while f b.
Proof. induction a as [|x a IH]; cbn; [done|]. by case_match. Qed.

Lemma trim_end_app x f : exists r, trim_end (x ++ f) = trim_end x ++ r.
Proof.
  unfold trim_end, drop_while_end. rewrite reverse_app.
  destruct (drop_while is_whitespace (reverse f)) as [|c l] eqn:E.
  - exists []. by rewrite app_nil_r, drop_while_app_r.
  - rewrite drop_while_app_l by (by rewrite E). rewrite reverse_app, reverse_involutive.
    destruct (drop_while_end_prefix is_whitespace x) as (d & Hd & _). unfold drop_while_end in Hd.
    eexists. rewrite Hd at 1. by rewrite <- (assoc_L (++)).
Qed.

Lemma trim_app_prefix b f : trim_start b ≠ [] -> exists r, trim (b ++ f) = trim_end (trim_start b) ++ r.
Proof. intros Hb. unfold trim, trim_start. rewrite drop_while_app_l by done. apply trim_end_app. Qed.

Lemma find_none_prefix specs (key : TagSpec T -> rstr) slug r :
  (forall spec, key spec = tl_open spec \/ key spec = tl_close spec) ->
  is_tag_prefix specs slug = false -> List.find (fun spec => streq (key spec) (trim_end slug ++ r)) specs = None.
Proof.
  intros Hkey Hp. destruct (List.find _ specs) as [spec|] eqn:E; [|done]. exfalso.
  apply List.find_some in E as [Hin Heq]. bool_prop. unfold is_tag_prefix in Hp. rewrite <- not_true_iff_false in Hp.
  apply Hp, existsb_exists. exists spec. split; [done|]. apply orb_true_iff.
  destruct (Hkey spec) as [Hk|Hk]; [left|right]; rewrite <- Hk, Heq; apply starts_with_app.
Qed.

(** A line that starts like no tag is text. *)
Lemma decide_line_text specs active b f :
  NL ∉ b -> trim_start b ≠ [] -> is_tag_prefix specs (trim_start b) = false ->
  decide_line specs active (b ++ f) = (active, text_segment active (b ++ f)).
Proof.
  intros Hnl Hb Hp. assert (exists r, line_slug (b ++ f) = trim_end (trim_start b) ++ r) as [r Hr].
  { unfold line_slug. destruct (strip_suffix [NL] (b ++ f)) as [l|] eqn:E; [|by apply trim_app_prefix].
    apply strip_suffix_Some in E. destruct f as [|c f _] using rev_ind.
    - rewrite app_nil_r in E. exfalso. apply Hnl. rewrite E. set_solver.
    - rewrite (assoc_L (++)) in E. apply app_inj_tail in E as [<- _]. by apply trim_app_prefix. }
  unfold decide_line, match_open, match_close. rewrite Hr.
  rewrite (find_none_prefix specs tl_open), (find_none_prefix specs tl_close) by auto. done.
Qed.

Lemma split_inclusive_cons c s :
  (c =? NL)%Z = false ->
  split_inclusive NL (c :: s) = match split_inclusive NL s with [] => [[c]] | p :: ps => (c :: p) :: ps end.
Proof. intros Hc. cbn. by rewrite Hc. Qed.

Lemma split_inclusive_app_l b s :
  NL ∉ b -> b ≠ [] ->
  split_inclusive NL (b ++ s) = match split_inclusive NL s with [] => [b] | p :: ps => (b ++ p) :: ps end.
Proof.
  induction b as [|c b IH]; intros Hnl Hb; [done|]. apply not_elem_of_cons in Hnl as [Hc Hnl].
  cbn [app]. rewrite split_inclusive_cons by (apply Z.eqb_neq; congruence).
  destruct b as [|d b]; [rewrite app_nil_l; by destruct (split_inclusive NL s)|].
  rewrite IH by done. by destruct (split_inclusive NL s).
Qed.

(** A disproved line: the buffered part is text and so is the rest of the line. *)
Lemma lines_segments_text specs active b s :
  NL ∉ b -> trim_start b ≠ [] -> is_tag_prefix specs (trim_start b) = false ->
  same_segments (text_segment active b :: rest_segments specs active (split_inclusive NL s))
                (lines_segments specs active (split_inclusive NL (b ++ s))).
Proof.
  intros Hnl Hb Hp. rewrite split_inclusive_app_l by (done || by intros ->).
  destruct (split_inclusive NL s) as [|l ls]; cbn [lines_segments rest_segments].
  - pose proof (decide_line_text specs active b [] Hnl Hb Hp) as Hd. rewrite app_nil_r in Hd. by rewrite Hd.
  - rewrite (decide_line_text specs active b l) by done.
    change (same_segments ([text_segment active b; text_segment active l] ++ lines_segments specs active ls)
                          ([text_segment active (b ++ l)] ++ lines_segments specs active ls)).
    by rewrite same_segments_text.
Qed.

Lemma rest_segments_cons specs active c s :
  (c =? NL)%Z = false ->
  same_segments (text_segment active [c] :: rest_segments specs active (split_inclusive NL s))
                (rest_segments specs active (split_inclusive NL (c :: s))).
Proof.
  intros Hc. rewrite split_inclusive_cons by done.
  destruct (split_inclusive NL s) as [|l ls]; [done|]. cbn [rest_segments].
  change (same_segments ([text_segment active [c]; text_segment active l] ++ lines_segments specs active ls)
                        ([text_segment active (c :: l)] ++ lines_segments specs active ls)).
  by rewrite same_segments_text.
Qed.

(** What the loop of [parse] has emitted, what it holds in [run] and what is to come. *)
Definition loop_value (st : parser * rstr * list segment) (rest : rstr) : list segment :=
  let '(self, run, segments) := st in
  segments ++ text_segment (active_tag self) run :: tagged_meaning self rest.

Definition loop_inv (st : parser * rstr * list segment) : Prop :=
  let '(self, run, _) := st in tagged_inv self /\ (detect_tag self = true -> run = []).

Lemma loop_value_nil self segments rest :
  same_segments (loop_value (self, [], segments) rest) (segments ++ tagged_meaning self rest).
Proof.
  unfold loop_value. apply same_segments_app; [done|].
  change (same_segments ([text_segment (active_tag self) []] ++ tagged_meaning self rest)
                        ([] ++ tagged_meaning self rest)).
  by rewrite same_segments_nil.
Qed.

(** Pushing a segment first is the same as finding it at the head of what is to come. *)
Lemma loop_value_push self segments x rest later :
  same_segments (x :: tagged_meaning self rest) later ->
  same_segments (loop_value (self, [], push_segment segments x) rest) (segments ++ later).
Proof.
  intros Hl. rewrite loop_value_nil, same_segments_push, <- (assoc_L (++)). by rewrite <- Hl.
Qed.

Lemma loop_inv_empty sp active detect segments :
  loop_inv ({| tl_specs := sp; active_tag := active; detect_tag := detect; line_buffer := [] |}, [], segments).
Proof. split; [split; [apply not_elem_of_nil|done]|done]. Qed.

Lemma parse_char_spec st ch rest :
  loop_inv st ->
  loop_inv (parse_char st ch) /\ same_segments (loop_value (parse_char st ch) rest) (loop_value st (ch :: rest)).
Proof.
  destruct st as [[[sp active detect buf] run] segs]. intros [[Hnl Hbuf] Hrun]; cbn in Hnl, Hbuf, Hrun.
  unfold parse_char; cbn [detect_tag]. destruct detect.
  - rewrite Hrun by done. cbn [is_empty set_line line_buffer active_tag tl_specs].
    destruct (ch =? NL)%Z eqn:Hc; bool_prop.
    + subst ch. unfold finish_line, set_line. cbn [tl_specs active_tag line_buffer].
      destruct (decide_line sp active (buf ++ [NL])) as [active' seg] eqn:Hd.
      split; [apply loop_inv_empty|].
      rewrite (loop_value_nil _ segs). apply loop_value_push.
      unfold tagged_meaning; cbn [detect_tag set_line tl_specs active_tag line_buffer app].
      rewrite split_inclusive_app_sep by done. cbn [lines_segments]. by rewrite Hd.
    + assert (NL ∉ buf ++ [ch]) as Hnl' by (rewrite elem_of_app, list_elem_of_singleton; naive_solver).
      destruct (is_empty (trim_start (buf ++ [ch]))) eqn:He; [|destruct (is_tag_prefix sp _) eqn:Hp]; cbn [orb].
      1-2: split; [by repeat split|]; unfold loop_value, tagged_meaning, set_line; cbn [detect_tag line_buffer tl_specs active_tag];
        by rewrite <- (assoc_L (++)).
      split; [apply loop_inv_empty|].
      rewrite (loop_value_nil _ segs). apply loop_value_push.
      unfold tagged_meaning; cbn [detect_tag set_line tl_specs active_tag line_buffer].
      rewrite lines_segments_text; [by rewrite <- (assoc_L (++))|done|by apply is_empty_false|done].
  - rewrite (Hbuf eq_refl) in *. destruct (ch =? NL)%Z eqn:Hc; bool_prop.
    + subst ch. split; [apply loop_inv_empty|]. apply loop_value_push.
      unfold tagged_meaning; cbn [detect_tag set_line tl_specs active_tag line_buffer].
      cbn [split_inclusive rest_segments]. rewrite Z.eqb_refl. cbn [rest_segments].
      change (same_segments ([text_segment active (run ++ [NL])] ++ lines_segments sp active (split_inclusive NL rest))
        ([text_segment active run; text_segment active [NL]] ++ lines_segments sp active (split_inclusive NL rest))).
      by rewrite same_segments_text.
    + split; [by repeat split|]. unfold loop_value. apply same_segments_app; [done|].
      unfold tagged_meaning; cbn [detect_tag tl_specs active_tag].
      etransitivity; [|apply same_segments_cons, rest_segments_cons; by apply Z.eqb_neq].
      change (same_segments ([text_segment active (run ++ [ch])] ++ rest_segments sp active (split_inclusive NL rest))
        ([text_segment active run; text_segment active [ch]] ++ rest_segments sp active (split_inclusive NL rest))).
      by rewrite same_segments_text.
Qed.

Lemma parse_loop_spec delta st rest :
  loop_inv st ->
  loop_inv (foldl parse_char st delta) /\
  same_segments (loop_value (foldl parse_char st delta) rest) (loop_value st (delta ++ rest)).
Proof.
  revert st. induction delta as [|ch delta IH]; intros st Hst; [done|]. cbn [foldl app].
  destruct (parse_char_spec st ch (delta ++ rest) Hst) as [Hinv Hv]. destruct (IH _ Hinv) as [Hinv' Hv'].
  split; [done|]. by etransitivity.
Qed.

Lemma parse_spec p delta rest :
  tagged_inv p ->
  tagged_inv (parse p delta).1 /\
  same_segments ((parse p delta).2 ++ tagged_meaning (parse p delta).1 rest) (tagged_meaning p (delta ++ rest)).
Proof.
  intros Hp. unfold parse.
  destruct (parse_loop_spec delta (p, [], []) rest (conj Hp (fun _ => eq_refl))) as [Hinv Hv].
  destruct (foldl parse_char (p, [], []) delta) as [[q run] segs]. cbn [fst snd].
  split; [apply Hinv|]. etransitivity; [|etransitivity; [exact Hv|apply loop_value_nil]].
  unfold loop_value. change (text_segment (active_tag q) run :: tagged_meaning q rest)
    with ([text_segment (active_tag q) run] ++ tagged_meaning q rest).
  rewrite (assoc_L (++)). apply same_segments_app; [|done]. destruct run as [|c run]; cbn [is_empty].
  - etransitivity; [|apply same_segments_app; [reflexivity|symmetry; apply same_segments_nil]]. by rewrite app_nil_r.
  - apply same_segments_push.
Qed.

Lemma tagged_finish_spec p : tagged_inv p -> same_segments (tagged_finish p).2 (tagged_meaning p []).
Proof.
  intros [Hnl Hbuf]. unfold tagged_finish, tagged_meaning. rewrite app_nil_r.
  destruct (line_buffer p) as [|c buf] eqn:Eb; cbn [is_empty].
  - cbn [snd]. assert (split_inclusive NL [] = []) as -> by done. cbn [rest_segments lines_segments].
    by destruct (detect_tag p), (active_tag p).
  - destruct (detect_tag p); [|by discriminate Hbuf]. rewrite split_inclusive_no_sep by done.
    cbn [lines_segments]. destruct (decide_line _ _ _) as [active seg]. cbn [snd].
    destruct active as [tag|]; [|apply (same_segments_push [])].
    etransitivity; [apply same_segments_push|].
    apply (same_segments_app _ [seg]); [apply (same_segments_push [])|done].
Qed.

End TaggedLine.
