(* ===== verification/AssistantText.v ===== *)
(** * Proposed plans and assistant text

    Models [workx-rs/utils/stream-parser/src/proposed_plan.rs] (the tagged-line parser
    used for plans) and [assistant_text.rs] (citations removed first, then, in plan
    mode, plans taken from the text that is left). *)
From S2P Require Import Prelude StreamText InlineTag TaggedLine.

Set Default Goal Selector "!".

(** ** [proposed_plan.rs] *)

Inductive PlanTag := ProposedPlan.

#[export] Instance PlanTag_eq_dec : EqDecision PlanTag.
Proof. solve_decision. Defined.

Inductive ProposedPlanSegment :=
| PlanNormal (s : rstr)
| ProposedPlanStart
| ProposedPlanDelta (s : rstr)
| ProposedPlanEnd.

Definition OPEN_TAG : rstr := lit "<proposed_plan>".
Definition CLOSE_TAG : rstr := lit "</proposed_plan>".

Record ProposedPlanParser := { plan_parser : TaggedLineParser PlanTag }.

Definition plan_specs : list (TagSpec PlanTag) :=
  [{| tl_open := OPEN_TAG; tl_close := CLOSE_TAG; tl_tag := ProposedPlan |}].

Definition plan_new : ProposedPlanParser := {| plan_parser := tagged_new plan_specs |}.

Definition map_segment (segment : TaggedLineSegment PlanTag) : ProposedPlanSegment :=
  match segment with
  | Normal text => PlanNormal text
  | TagStart ProposedPlan => ProposedPlanStart
  | TagDelta ProposedPlan text => ProposedPlanDelta text
  | TagEnd ProposedPlan => ProposedPlanEnd
  end.

Definition map_segments (segments : list (TaggedLineSegment PlanTag)) : StreamTextChunk ProposedPlanSegment :=
  foldl (fun out segment =>
           let mapped := map_segment segment in
           {| visible_text := match mapped with PlanNormal text => visible_text out ++ text | _ => visible_text out end;
              extracted := extracted out ++ [mapped] |})
        stc_default segments.

#[export] Instance ProposedPlan_parser : StreamTextParser ProposedPlanParser ProposedPlanSegment := {|
  push_str self chunk :=
    let '(p, segments) := parse (plan_parser self) chunk in ({| plan_parser := p |}, map_segments segments);
  finish self :=
    let '(p, segments) := tagged_finish (plan_parser self) in ({| plan_parser := p |}, map_segments segments);
|}.

Definition strip_proposed_plan_blocks (text : rstr) : rstr :=
  let '(parser, out) := push_str plan_new text in
  visible_text out ++ visible_text (finish parser).2.

(** The loop over the segments: [plan_text] and [saw_plan_block]. *)
Definition plan_text_step (st : rstr * bool) (segment : ProposedPlanSegment) : rstr * bool :=
  match segment with
  | ProposedPlanStart => ([], true)
  | ProposedPlanDelta delta => (st.1 ++ delta, st.2)
  | ProposedPlanEnd | PlanNormal _ => st
  end.

Definition plan_text_of (segments : list ProposedPlanSegment) : option rstr :=
  let '(plan_text, saw_plan_block) := foldl plan_text_step ([], false) segments in
  if saw_plan_block then Some plan_text else None.

Definition extract_proposed_plan_text (text : rstr) : option rstr :=
  let '(parser, out) := push_str plan_new text in
  plan_text_of (extracted out ++ extracted (finish parser).2).

(** ** [assistant_text.rs] *)

Record AssistantTextChunk := {
  at_visible_text : rstr;
  at_citations : list rstr;
  at_plan_segments : list ProposedPlanSegment;
}.

Definition assistant_is_empty (self : AssistantTextChunk) : bool :=
  is_empty (at_visible_text self) && is_empty (at_citations self) && is_empty (at_plan_segments self).

Record AssistantTextStreamParser := {
  plan_mode : bool;
  at_citations_parser : CitationStreamParser;
  at_plan : ProposedPlanParser;
}.

Definition assistant_new (plan_mode : bool) : res unit AssistantTextStreamParser :=
  citations ← citation_new;
  Ok {| plan_mode := plan_mode; at_citations_parser := citations; at_plan := plan_new |}.

Definition parse_visible_text (self : AssistantTextStreamParser) (visible : rstr)
    : AssistantTextStreamParser * AssistantTextChunk :=
  if negb (plan_mode self)
  then (self, {| at_visible_text := visible; at_citations := []; at_plan_segments := [] |})
  else
    let '(plan, plan_chunk) := push_str (at_plan self) visible in
    ({| plan_mode := plan_mode self; at_citations_parser := at_citations_parser self; at_plan := plan |},
     {| at_visible_text := visible_text plan_chunk; at_citations := [];
        at_plan_segments := extracted plan_chunk |}).

Definition set_citations_parser (self : AssistantTextStreamParser) (c : CitationStreamParser)
    : AssistantTextStreamParser :=
  {| plan_mode := plan_mode self; at_citations_parser := c; at_plan := at_plan self |}.

Definition assistant_push_str (self : AssistantTextStreamParser) (chunk : rstr)
    : AssistantTextStreamParser * AssistantTextChunk :=
  let '(citations, citation_chunk) := push_str (at_citations_parser self) chunk in
  let '(self, out) := parse_visible_text (set_citations_parser self citations) (visible_text citation_chunk) in
  (self, {| at_visible_text := at_visible_text out; at_citations := extracted citation_chunk;
            at_plan_segments := at_plan_segments out |}).

Definition assistant_finish (self : AssistantTextStreamParser) : AssistantTextStreamParser * AssistantTextChunk :=
  let '(citations, citation_chunk) := finish (at_citations_parser self) in
  let '(self, out) := parse_visible_text (set_citations_parser self citations) (visible_text citation_chunk) in
  let '(self, visible, plan_segments) :=
    if plan_mode self then
      let '(plan, tail) := finish (at_plan self) in
      let self := {| plan_mode := plan_mode self; at_citations_parser := at_citations_parser self; at_plan := plan |} in
      if stc_is_empty tail then (self, at_visible_text out, at_plan_segments out)
      else (self, at_visible_text out ++ visible_text tail, at_plan_segments out ++ extracted tail)
    else (self, at_visible_text out, at_plan_segments out) in
  (self, {| at_visible_text := visible; at_citations := extracted citation_chunk;
            at_plan_segments := plan_segments |}).

(** ** Segments as the callers see them *)

Definition normal_text (s : TaggedLineSegment PlanTag) : rstr := match s with Normal t => t | _ => [] end.

Definition visible_step (v : rstr) (s : TaggedLineSegment PlanTag) : rstr := v ++ normal_text s.

Definition segments_chunk (l : list (TaggedLineSegment PlanTag)) : StreamTextChunk ProposedPlanSegment :=
  {| visible_text := foldl visible_step [] l; extracted := map map_segment l |}.

Definition unmap_segment (s : ProposedPlanSegment) : TaggedLineSegment PlanTag :=
  match s with
  | PlanNormal t => Normal t
  | ProposedPlanStart => TagStart ProposedPlan
  | ProposedPlanDelta t => TagDelta ProposedPlan t
  | ProposedPlanEnd => TagEnd ProposedPlan
  end.

(** Plan segments up to merging. *)
Definition same_plan (a b : list ProposedPlanSegment) : Prop :=
  same_segments (map unmap_segment a) (map unmap_segment b).

Lemma map_segments_chunk l : map_segments l = segments_chunk l.
Proof.
  unfold map_segments, segments_chunk. induction l as [|x l IH] using rev_ind; [done|].
  rewrite !foldl_app, map_app, IH. unfold visible_step at 2. cbn.
  by destruct x as [t|[]|[] t|[]]; cbn; rewrite ?app_nil_r.
Qed.

Lemma unmap_map l : map unmap_segment (map map_segment l) = l.
Proof. rewrite map_map. rewrite <- (map_id l) at 2. apply map_ext. by intros [t|[]|[] t|[]]. Qed.

Lemma map_unmap l : map map_segment (map unmap_segment l) = l.
Proof. rewrite map_map. rewrite <- (map_id l) at 2. apply map_ext. by intros [t| |t|]. Qed.

Lemma same_plan_map a b : same_segments a b -> same_plan (map map_segment a) (map map_segment b).
Proof. unfold same_plan. by rewrite !unmap_map. Qed.

#[export] Instance same_plan_equiv : Equivalence same_plan.
Proof.
  unfold same_plan. split; [by intros a|by intros a b ?|]. intros a b c ? ?. by etransitivity.
Qed.

#[export] Instance same_plan_app : Proper (same_plan ==> same_plan ==> same_plan) (++).
Proof. unfold same_plan. intros a a' Ha b b' Hb. rewrite !map_app. by apply same_segments_app. Qed.

Lemma visible_step_additive : text_additive visible_step.
Proof.
  unfold visible_step. split.
  - intros st [[]|]; apply app_nil_r.
  - intros st [[]|] a b; cbn; by rewrite ?app_nil_r, ?(assoc_L (++)).
Qed.

Lemma visible_step_silent v x : normal_text x = [] -> visible_step v x = v.
Proof. unfold visible_step. intros ->. apply app_nil_r. Qed.

Lemma visible_step_app a b : foldl visible_step [] (a ++ b) = foldl visible_step [] a ++ foldl visible_step [] b.
Proof.
  rewrite foldl_app. generalize (foldl visible_step [] a). clear a.
  induction b as [|x b IH] using rev_ind; intros v; [by rewrite app_nil_r|].
  rewrite !foldl_app. cbn. unfold visible_step at 1 3. by rewrite IH, (assoc_L (++)).
Qed.

Lemma segments_chunk_app a b : segments_chunk (a ++ b) = stc_app (segments_chunk a) (segments_chunk b).
Proof. unfold segments_chunk, stc_app; cbn. by rewrite visible_step_app, map_app. Qed.

Lemma segments_chunk_same a b :
  same_segments a b ->
  visible_text (segments_chunk a) = visible_text (segments_chunk b) /\
  same_plan (extracted (segments_chunk a)) (extracted (segments_chunk b)).
Proof.
  intros Hab. split; [|by apply same_plan_map]. by apply same_segments_fold; [apply visible_step_additive|].
Qed.

#[export] Instance ProposedPlan_laws : StreamLaws ProposedPlanParser ProposedPlanSegment.
Proof.
  refine {| payload_eqv := same_plan; parser_inv p := tagged_inv (plan_parser p);
            meaning p s := segments_chunk (tagged_meaning (plan_parser p) s) |}.
  - intros p c Hp. pose proof (proj1 (parse_spec (plan_parser p) c [] Hp)) as H. cbn.
    by destruct (parse (plan_parser p) c).
  - intros p c rest Hp. pose proof (proj2 (parse_spec (plan_parser p) c rest Hp)) as H.
    cbn [push_str ProposedPlan_parser].
    destruct (parse (plan_parser p) c) as [q segs]. cbn [fst snd plan_parser] in *.
    rewrite map_segments_chunk, <- segments_chunk_app. by apply segments_chunk_same.
  - intros p Hp. pose proof (tagged_finish_spec (plan_parser p) Hp) as H.
    cbn [finish ProposedPlan_parser].
    destruct (tagged_finish (plan_parser p)) as [q segs]. cbn [fst snd] in *.
    rewrite map_segments_chunk. by apply segments_chunk_same.
Defined.

Lemma plan_new_inv : parser_inv plan_new.
Proof. split; [apply not_elem_of_nil|done]. Qed.

(** ** The text of the plan *)

Definition tagged_text_step (st : rstr * bool) (s : TaggedLineSegment PlanTag) : rstr * bool :=
  plan_text_step st (map_segment s).

Lemma tagged_text_step_additive : text_additive tagged_text_step.
Proof.
  split.
  - intros [t b] [[]|]; cbn; by rewrite ?app_nil_r.
  - intros [t b] [[]|] x y; cbn; by rewrite ?(assoc_L (++)).
Qed.

Lemma foldl_map_segments {A B S} (f : S -> B -> S) (g : A -> B) st l :
  foldl f st (map g l) = foldl (fun st x => f st (g x)) st l.
Proof. revert st. induction l; intros st; cbn; auto. Qed.

#[export] Instance plan_text_of_proper : Proper (same_plan ==> eq) plan_text_of.
Proof.
  intros a b Hab. unfold plan_text_of.
  rewrite <- (map_unmap a), <- (map_unmap b).
  rewrite !(foldl_map_segments plan_text_step map_segment).
  pose proof (same_segments_fold tagged_text_step ([], false) _ _ tagged_text_step_additive Hab) as Hf.
  unfold tagged_text_step in Hf. by rewrite Hf.
Qed.

(** ** Plans, line by line *)

(** The text outside plan blocks and the text of the last block, if there is one: a
    block opens at a line that is the opening tag, and closes at a line that is the
    closing one or at the end. *)
Fixpoint plan_lines (inside : bool) (plan : option rstr) (lines : list rstr) : rstr * option rstr :=
  match lines with
  | [] => ([], plan)
  | line :: lines' =>
      let slug := line_slug line in
      if negb inside && streq slug OPEN_TAG then plan_lines true (Some []) lines'
      else if inside && streq slug CLOSE_TAG then plan_lines false plan lines'
      else if inside then plan_lines true ((fun t => t ++ line) <$> plan) lines'
      else let '(visible, plan) := plan_lines false plan lines' in (line ++ visible, plan)
  end.

Lemma streq_sym a b : streq a b = streq b a.
Proof. unfold streq. apply bool_decide_ext. split; congruence. Qed.

Lemma decide_line_plan active line :
  decide_line plan_specs active line =
  let slug := line_slug line in
  match active with
  | None => if streq slug OPEN_TAG then (Some ProposedPlan, TagStart ProposedPlan) else (None, Normal line)
  | Some ProposedPlan =>
      if streq slug CLOSE_TAG then (None, TagEnd ProposedPlan) else (Some ProposedPlan, TagDelta ProposedPlan line)
  end.
Proof.
  unfold decide_line, match_open, match_close. cbn [List.find plan_specs tl_open tl_close]. cbn zeta.
  rewrite (streq_sym OPEN_TAG), (streq_sym CLOSE_TAG).
  destruct active as [[]|], (streq (line_slug line) OPEN_TAG), (streq (line_slug line) CLOSE_TAG); done.
Qed.

Definition seen_plan (st : rstr * bool) : option rstr := if st.2 then Some st.1 else None.

Lemma plan_lines_spec lines active st v :
  (is_Some active -> st.2 = true) ->
  let segs := lines_segments plan_specs active lines in
  let r := plan_lines (bool_decide (is_Some active)) (seen_plan st) lines in
  foldl visible_step v segs = v ++ r.1 /\ seen_plan (foldl tagged_text_step st segs) = r.2.
Proof.
  revert active st v. induction lines as [|line lines IH]; intros active st v Hst; cbn zeta.
  - destruct active as [[]|], st; cbn; unfold visible_step; cbn; by rewrite ?app_nil_r.
  - cbn [lines_segments plan_lines]. cbn zeta. rewrite decide_line_plan. cbn zeta.
    destruct active as [[]|].
    + rewrite bool_decide_true by eauto. cbn [negb andb]. destruct st as [t b]. cbn in Hst. rewrite Hst in * by eauto.
      destruct (streq (line_slug line) CLOSE_TAG); cbn [foldl]; rewrite visible_step_silent by done.
      * by apply (IH None (t, true)).
      * by apply (IH (Some ProposedPlan) (t ++ line, true)).
    + rewrite bool_decide_false by (by intros [? ?]). cbn [negb andb].
      destruct (streq (line_slug line) OPEN_TAG); cbn [foldl].
      * rewrite visible_step_silent by done. by apply (IH (Some ProposedPlan) ([], true)).
      * destruct (IH None st (visible_step v (Normal line))) as [Hv Hp]; [by intros [? ?]|].
        rewrite bool_decide_false in Hv, Hp by (by intros [? ?]). rewrite Hv. unfold visible_step. cbn [normal_text].
        destruct (plan_lines false (seen_plan st) lines). split; [|done]. by rewrite <- (assoc_L (++)).
Qed.

Definition plan_of (text : rstr) : rstr * option rstr := plan_lines false None (split_inclusive NL text).

Lemma plan_meaning text :
  visible_text (meaning plan_new text) = (plan_of text).1 /\
  plan_text_of (extracted (meaning plan_new text)) = (plan_of text).2.
Proof.
  destruct (plan_lines_spec (split_inclusive NL text) None ([], false) []) as [Hv Hp]; [by intros [? ?]|].
  split; [exact Hv|]. unfold plan_of. rewrite bool_decide_false in Hp by (by intros [? ?]).
  change (seen_plan ([], false)) with (@None rstr) in Hp. rewrite <- Hp.
  unfold plan_text_of, seen_plan, tagged_text_step. rewrite <- (foldl_map_segments plan_text_step map_segment).
  cbn [meaning ProposedPlan_laws segments_chunk extracted].
  change (tagged_meaning (plan_parser plan_new) text)
    with (lines_segments plan_specs None (split_inclusive NL text)).
  by destruct (foldl plan_text_step _ _) as [t []].
Qed.

Lemma plan_run_lines chunks :
  visible_text (run plan_new chunks) = (plan_of (concat chunks)).1 /\
  plan_text_of (extracted (run plan_new chunks)) = (plan_of (concat chunks)).2.
Proof.
  destruct (run_meaning plan_new chunks plan_new_inv) as [Hv He].
  destruct (plan_meaning (concat chunks)) as [Hv' He'].
  split; [by rewrite Hv|]. rewrite <- He'. by apply plan_text_of_proper.
Qed.

Lemma run_single {P T} `{StreamTextParser P T} (p : P) text :
  run p [text] = stc_app (push_str p text).2 (finish (push_str p text).1).2.
Proof. unfold run. cbn [push_all]. destruct (push_str p text). by rewrite stc_app_default_r. Qed.

Lemma strip_run text : strip_proposed_plan_blocks text = visible_text (run plan_new [text]).
Proof. rewrite run_single. unfold strip_proposed_plan_blocks. by destruct (push_str plan_new text). Qed.

Lemma extract_run text : extract_proposed_plan_text text = plan_text_of (extracted (run plan_new [text])).
Proof. rewrite run_single. unfold extract_proposed_plan_text. by destruct (push_str plan_new text). Qed.

Lemma strip_plan_of text : strip_proposed_plan_blocks text = (plan_of text).1.
Proof. rewrite strip_run, (proj1 (plan_run_lines [text])). cbn [concat]. by rewrite app_nil_r. Qed.

Lemma extract_plan_of text : extract_proposed_plan_text text = (plan_of text).2.
Proof. rewrite extract_run, (proj2 (plan_run_lines [text])). cbn [concat]. by rewrite app_nil_r. Qed.

(** ** A stream of assistant text *)

Definition at_app (a b : AssistantTextChunk) : AssistantTextChunk :=
  {| at_visible_text := at_visible_text a ++ at_visible_text b;
     at_citations := at_citations a ++ at_citations b;
     at_plan_segments := at_plan_segments a ++ at_plan_segments b |}.

Fixpoint assistant_run (p : AssistantTextStreamParser) (chunks : list rstr) : AssistantTextChunk :=
  match chunks with
  | [] => (assistant_finish p).2
  | c :: chunks' => let '(p, out) := assistant_push_str p c in at_app out (assistant_run p chunks')
  end.

(** What the stream still amounts to: the meaning of the citations parser, and of the
    plan parser on the visible text the former leaves. *)
Definition assistant_is (p : AssistantTextStreamParser) (text : rstr) (out : AssistantTextChunk) : Prop :=
  let c := meaning (at_citations_parser p) text in
  at_citations out = extracted c /\
  if plan_mode p then
    let q := meaning (at_plan p) (visible_text c) in
    at_visible_text out = visible_text q /\ same_plan (at_plan_segments out) (extracted q)
  else at_visible_text out = visible_text c /\ at_plan_segments out = [].

Definition assistant_inv (p : AssistantTextStreamParser) : Prop :=
  parser_inv (at_citations_parser p) /\ parser_inv (at_plan p).

Lemma assistant_push_spec p c rest out :
  assistant_inv p ->
  assistant_inv (assistant_push_str p c).1 /\
  (assistant_is (assistant_push_str p c).1 rest out ->
   assistant_is p (c ++ rest) (at_app (assistant_push_str p c).2 out)).
Proof.
  intros [Hc Hp]. unfold assistant_push_str, assistant_is.
  pose proof (push_str_inv _ c Hc) as Hc'. pose proof (push_str_meaning _ c rest Hc) as [Hv He].
  destruct (push_str (at_citations_parser p) c) as [cit cc]. cbn [fst snd] in *.
  unfold parse_visible_text, set_citations_parser; cbn [plan_mode at_plan at_citations_parser].
  destruct (plan_mode p); cbn [negb].
  - pose proof (push_str_inv _ (visible_text cc) Hp) as Hp'.
    pose proof (push_str_meaning _ (visible_text cc) (visible_text (meaning cit rest)) Hp) as [Hpv Hpe].
    destruct (push_str (at_plan p) (visible_text cc)) as [plan pc]. cbn [fst snd] in *.
    split; [by split|]. cbn. intros (Hcit & Hvis & Hseg). change (extracted cc ++ extracted (meaning cit rest) =
      extracted (meaning (at_citations_parser p) (c ++ rest))) in He.
    split; [by rewrite Hcit|].
    cbn in Hv, Hpv, Hpe. rewrite <- Hv. split; [by rewrite Hvis|].
    etransitivity; [|exact Hpe]. by apply same_plan_app.
  - split; [by split|]. cbn. intros (Hcit & Hvis & Hseg). change (extracted cc ++ extracted (meaning cit rest) =
      extracted (meaning (at_citations_parser p) (c ++ rest))) in He.
    split; [by rewrite Hcit|]. cbn in Hv. rewrite <- Hv. split; [by rewrite Hvis|done].
Qed.

Lemma assistant_finish_spec p : assistant_inv p -> assistant_is p [] (assistant_finish p).2.
Proof.
  intros [Hc Hp]. unfold assistant_finish, assistant_is. pose proof (finish_meaning _ Hc) as [Hv He].
  destruct (finish (at_citations_parser p)) as [cit cc]. cbn [fst snd] in *.
  unfold parse_visible_text, set_citations_parser; cbn [plan_mode at_plan at_citations_parser].
  destruct (plan_mode p); cbn [negb].
  - pose proof (push_str_inv _ (visible_text cc) Hp) as Hp'.
    pose proof (push_str_meaning _ (visible_text cc) [] Hp) as [Hpv Hpe].
    destruct (push_str (at_plan p) (visible_text cc)) as [plan pc]. cbn [fst snd plan_mode at_plan] in *.
    pose proof (finish_meaning _ Hp') as [Hfv Hfe]. destruct (finish plan) as [plan' tail].
    cbn [fst snd] in *. rewrite app_nil_r, Hv in Hpv, Hpe. cbn [stc_app visible_text] in Hpv. rewrite <- Hpv, <- Hfv.
    assert (same_plan (extracted pc ++ extracted tail)
              (extracted (meaning (at_plan p) (visible_text (meaning (at_citations_parser p) []))))) as Hseg.
    { etransitivity; [|exact Hpe]. by apply same_plan_app. }
    destruct (stc_is_empty tail) eqn:Et; cbn [at_citations at_visible_text at_plan_segments snd]; [|done].
    unfold stc_is_empty in Et. bool_prop. destruct tail as [tv te]; cbn [visible_text extracted] in *.
    apply is_empty_true in H as ->, H0 as ->. by rewrite !app_nil_r in *.
  - cbn [at_citations at_visible_text at_plan_segments snd]. by split_and!.
Qed.

Lemma assistant_run_spec p chunks : assistant_inv p -> assistant_is p (concat chunks) (assistant_run p chunks).
Proof.
  revert p. induction chunks as [|c chunks IH]; intros p Hp; [by apply assistant_finish_spec|].
  cbn [concat assistant_run].
  destruct (assistant_push_spec p c (concat chunks) (assistant_run (assistant_push_str p c).1 chunks) Hp) as [Hq Hs].
  specialize (IH _ Hq). destruct (assistant_push_str p c) as [q out]. by apply Hs.
Qed.

(** ** Theorems *)

(** Plan blocks: what is stripped and what is extracted are decided line by line. A
    block opens at a line that consists of the opening tag, closes at a line that
    consists of the closing tag or at the end; the text outside the blocks is visible
    and the text of the last block is the plan. A parser that receives the text in any
    pieces shows the same text and the same plan. *)
Theorem plan_blocks_by_line chunks :
  strip_proposed_plan_blocks (concat chunks) = (plan_of (concat chunks)).1 /\
  extract_proposed_plan_text (concat chunks) = (plan_of (concat chunks)).2 /\
  visible_text (run plan_new chunks) = (plan_of (concat chunks)).1 /\
  plan_text_of (extracted (run plan_new chunks)) = (plan_of (concat chunks)).2.
Proof. rewrite strip_plan_of, extract_plan_of. destruct (plan_run_lines chunks). done. Qed.

(** Assistant text streamed in any pieces amounts to the whole text treated in one
    go: the citations are those of the text, the visible text is what is left of it,
    without the plan blocks in plan mode, and the plan segments then carry the plan of
    the text without its citations. *)
Theorem assistant_stream_whole mode chunks :
  exists p v citations,
    assistant_new mode = Ok p /\ strip_citations (concat chunks) = Ok (v, citations) /\
    let out := assistant_run p chunks in
    at_citations out = citations /\
    at_visible_text out = (if mode then strip_proposed_plan_blocks v else v) /\
    plan_text_of (at_plan_segments out) = (if mode then extract_proposed_plan_text v else None).
Proof.
  destruct citation_new as [cp| |] eqn:Ec; [|done..].
  set (p := {| plan_mode := mode; at_citations_parser := cp; at_plan := plan_new |}).
  exists p. eexists _, _. split_and!.
  { unfold assistant_new. by rewrite Ec. }
  { rewrite strip_citations_scan. cbn zeta. reflexivity. }
  assert (assistant_inv p) as Hp by (split; [by apply citation_new_inv|apply plan_new_inv]).
  pose proof (assistant_run_spec p chunks Hp) as [Hcit H].
  assert (meaning cp (concat chunks) = citation_chunk (scan citation_specs None (concat chunks))) as Hm
    by (by injection Ec as <-).
  cbn zeta. cbn [p plan_mode at_plan at_citations_parser] in *. rewrite Hm in *.
  split; [done|]. destruct mode; destruct H as [Hv Hs].
  - rewrite strip_plan_of, extract_plan_of.
    destruct (plan_meaning (visible_text (citation_chunk (scan citation_specs None (concat chunks))))) as [Hpv Hpe].
    split; [by rewrite Hv|]. rewrite <- Hpe. by apply plan_text_of_proper.
  - split; [done|]. by rewrite Hs.
Qed.

(** A stream in plan mode with a citation, a plan and a tag cut across chunks. *)
Example assistant_demo :
  exists p, assistant_new true = Ok p /\
  let out := assistant_run p [lit "Hi<oai-mem-"; lit "citation>d</oai-mem-citation>!"; [NL]; lit "<propo"; lit "sed_plan>";
                              [NL]; lit "step"; [NL]; lit "</proposed_plan>"; [NL]; lit "end"] in
  at_visible_text out = lit "Hi!" ++ [NL] ++ lit "end" /\ at_citations out = [lit "d"] /\
  plan_text_of (at_plan_segments out) = Some (lit "step" ++ [NL]).
Proof. eexists. split; [reflexivity|]. vm_compute. done. Qed.
