(* ===== verification/Utf8Stream.v ===== *)
(** * Text from a stream of bytes

    Models [workx-rs/utils/stream-parser/src/utf8_stream.rs]: the wrapper that feeds a
    [StreamTextParser] from raw bytes and keeps a code point cut at the end of a chunk.
    [std::str::from_utf8] is modelled after the validation the standard library
    documents: the length of the valid prefix, and whether the bytes after it are
    invalid or only incomplete. The decoder takes fuel: every character consumes a
    byte, so the number of bytes is enough. *)
From S2P Require Import Prelude StreamText InlineTag.

Set Default Goal Selector "!".

(** ** UTF-8 *)

Definition byte_ok (b : Z) : Prop := (0 <= b < 256)%Z.

(** Unicode scalar values, the values of [char]. *)
Definition scalar (c : char) : Prop := (0 <= c < 55296 \/ 57344 <= c < 1114112)%Z.

Definition between (lo hi b : Z) : bool := ((lo <=? b) && (b <=? hi))%Z.

Definition cont (b : Z) : bool := between 128 191 b.

(** The second bytes that may follow the first byte of three or four. *)
Definition second3 (b0 b1 : Z) : bool :=
  if (b0 =? 224)%Z then between 160 191 b1 else if (b0 =? 237)%Z then between 128 159 b1 else cont b1.

Definition second4 (b0 b1 : Z) : bool :=
  if (b0 =? 240)%Z then between 144 191 b1 else if (b0 =? 244)%Z then between 128 143 b1 else cont b1.

(** The first code point of a byte string: the character and what follows, an invalid
    sequence with the length of its part to skip, or too few bytes to tell. *)
Inductive utf8_step := First (c : char) (rest : list Z) | Bad (error_len : nat) | Short.

Definition utf8_first (bs : list Z) : utf8_step :=
  match bs with
  | [] => Short
  | b0 :: r =>
      if (b0 <? 128)%Z then First b0 r
      else if between 194 223 b0 then
        match r with
        | [] => Short
        | b1 :: r => if cont b1 then First ((b0 - 192) * 64 + (b1 - 128))%Z r else Bad 1
        end
      else if between 224 239 b0 then
        match r with
        | [] => Short
        | b1 :: r =>
            if second3 b0 b1 then
              match r with
              | [] => Short
              | b2 :: r =>
                  if cont b2 then First ((b0 - 224) * 4096 + (b1 - 128) * 64 + (b2 - 128))%Z r else Bad 2
              end
            else Bad 1
        end
      else if between 240 244 b0 then
        match r with
        | [] => Short
        | b1 :: r =>
            if second4 b0 b1 then
              match r with
              | [] => Short
              | b2 :: r =>
                  if cont b2 then
                    match r with
                    | [] => Short
                    | b3 :: r =>
                        if cont b3
                        then First ((b0 - 240) * 262144 + (b1 - 128) * 4096 + (b2 - 128) * 64 + (b3 - 128))%Z r
                        else Bad 3
                    end
                  else Bad 2
              end
            else Bad 1
        end
      else Bad 1
  end.

(** The decoded prefix, the bytes after it and why decoding stopped there, with the
    [error_len] of [Utf8Error]. *)
Fixpoint decode (fuel : nat) (bs : list Z) : rstr * list Z * option (option nat) :=
  match fuel, bs with
  | 0, _ | _, [] => ([], [], None)
  | S fuel, _ =>
      match utf8_first bs with
      | First c rest => let '(text, rest, err) := decode fuel rest in (c :: text, rest, err)
      | Bad n => ([], bs, Some (Some n))
      | Short => ([], bs, Some None)
      end
  end.

Inductive from_utf8_result := Utf8Ok (text : rstr) | Utf8Err (valid_up_to : nat) (error_len : option nat).

Definition from_utf8 (bs : list Z) : from_utf8_result :=
  let '(text, rest, err) := decode (length bs) bs in
  match err with None => Utf8Ok text | Some e => Utf8Err (length bs - length rest) e end.

(** ** [Utf8StreamParser] *)

Inductive Utf8StreamParserError :=
| InvalidUtf8 (valid_up_to error_len : nat)
| IncompleteUtf8AtEof.

Record Utf8StreamParser (P : Type) := { u_inner : P; pending_utf8 : list Z }.
Arguments u_inner {P} _.
Arguments pending_utf8 {P} _.

Section Utf8.
Context {P T : Type} `{StreamTextParser P T}.
Set Default Proof Using "Type*".

Definition utf8_new (inner : P) : Utf8StreamParser P := {| u_inner := inner; pending_utf8 := [] |}.

Definition push_bytes (self : Utf8StreamParser P) (chunk : list Z)
    : Utf8StreamParser P * res Utf8StreamParserError (StreamTextChunk T) :=
  let old_len := length (pending_utf8 self) in
  let pending := pending_utf8 self ++ chunk in
  let rolled_back := {| u_inner := u_inner self; pending_utf8 := take old_len pending |} in
  match from_utf8 pending with
  | Utf8Ok text =>
      let '(inner, out) := push_str (u_inner self) text in
      ({| u_inner := inner; pending_utf8 := [] |}, Ok out)
  | Utf8Err valid_up_to (Some error_len) => (rolled_back, Err (InvalidUtf8 valid_up_to error_len))
  | Utf8Err valid_up_to None =>
      if (valid_up_to =? 0)%nat
      then ({| u_inner := u_inner self; pending_utf8 := pending |}, Ok stc_default)
      else
        match from_utf8 (take valid_up_to pending) with
        | Utf8Ok text =>
            let '(inner, out) := push_str (u_inner self) text in
            ({| u_inner := inner; pending_utf8 := drop valid_up_to pending |}, Ok out)
        | Utf8Err v e => (rolled_back, Err (InvalidUtf8 v (default 0 e)))
        end
  end.

Definition utf8_finish (self : Utf8StreamParser P)
    : Utf8StreamParser P * res Utf8StreamParserError (StreamTextChunk T) :=
  let pending := pending_utf8 self in
  match (if is_empty pending then Ok tt
         else match from_utf8 pending with
              | Utf8Ok _ => Ok tt
              | Utf8Err v (Some n) => Err (InvalidUtf8 v n)
              | Utf8Err _ None => Err IncompleteUtf8AtEof
              end) with
  | Ok _ =>
      match (if is_empty pending then Ok (u_inner self, stc_default)
             else match from_utf8 pending with
                  | Utf8Ok text => Ok (push_str (u_inner self) text)
                  | Utf8Err v e => Err (InvalidUtf8 v (default 0 e))
                  end) with
      | Ok (inner, out) =>
          let '(inner, tail) := finish inner in
          ({| u_inner := inner; pending_utf8 := [] |}, Ok (stc_app out tail))
      | Err e => (self, Err e)
      | Panic => (self, Panic)
      end
  | Err e => (self, Err e)
  | Panic => (self, Panic)
  end.

Definition into_inner (self : Utf8StreamParser P) : res Utf8StreamParserError P :=
  if is_empty (pending_utf8 self) then Ok (u_inner self)
  else match from_utf8 (pending_utf8 self) with
       | Utf8Ok _ => Ok (u_inner self)
       | Utf8Err v (Some n) => Err (InvalidUtf8 v n)
       | Utf8Err _ None => Err IncompleteUtf8AtEof
       end.

Definition into_inner_lossy (self : Utf8StreamParser P) : P := u_inner self.

(** A stream of byte chunks and its end. *)
Fixpoint run_bytes (self : Utf8StreamParser P) (chunks : list (list Z))
    : res Utf8StreamParserError (StreamTextChunk T) :=
  match chunks with
  | [] => (utf8_finish self).2
  | c :: chunks' =>
      let '(self, r) := push_bytes self c in
      out ← r; outs ← run_bytes self chunks'; Ok (stc_app out outs)
  end.

End Utf8.

(** ** Encoding *)

Definition encode (c : char) : list Z :=
  (if c <? 128 then [c]
   else if c <? 2048 then [192 + c / 64; 128 + c mod 64]
   else if c <? 65536 then [224 + c / 4096; 128 + (c / 64) mod 64; 128 + c mod 64]
   else [240 + c / 262144; 128 + (c / 4096) mod 64; 128 + (c / 64) mod 64; 128 + c mod 64])%Z.

Definition encode_all (text : rstr) : list Z := concat (map encode text).

Ltac div_lia := Z.to_euclidean_division_equations; lia.

Lemma between_true lo hi b : between lo hi b = true <-> (lo <= b <= hi)%Z.
Proof. unfold between. rewrite andb_true_iff, !Z.leb_le. done. Qed.

Lemma between_false lo hi b : between lo hi b = false <-> (b < lo \/ hi < b)%Z.
Proof. rewrite <- not_true_iff_false, between_true. lia. Qed.

Lemma second3_spec b0 b1 : second3 b0 b1 = true <->
  (128 <= b1 <= 191 /\ (b0 = 224 -> 160 <= b1) /\ (b0 = 237 -> b1 <= 159))%Z.
Proof.
  unfold second3, cont. destruct (Z.eqb_spec b0 224); [|destruct (Z.eqb_spec b0 237)]; rewrite between_true; lia.
Qed.

Lemma second4_spec b0 b1 : second4 b0 b1 = true <->
  (128 <= b1 <= 191 /\ (b0 = 240 -> 144 <= b1) /\ (b0 = 244 -> b1 <= 143))%Z.
Proof.
  unfold second4, cont. destruct (Z.eqb_spec b0 240); [|destruct (Z.eqb_spec b0 244)]; rewrite between_true; lia.
Qed.

(** Splits the tests [utf8_first] makes on its bytes. *)
Ltac utf8_cases :=
  repeat match goal with
  | H : between _ _ _ = true |- _ => apply between_true in H
  | H : between _ _ _ = false |- _ => apply between_false in H
  | H : cont _ = true |- _ => apply between_true in H
  | H : second3 _ _ = true |- _ => apply second3_spec in H
  | H : second4 _ _ = true |- _ => apply second4_spec in H
  end; bool_prop.

Lemma utf8_first_app bs ext :
  bs ≠ [] ->
  utf8_first bs = Short \/
  utf8_first (bs ++ ext) = match utf8_first bs with First c r => First c (r ++ ext) | s => s end.
Proof.
  intros Hbs. destruct bs as [|b0 r]; [done|]. unfold utf8_first. cbn [app].
  repeat (case_match; cbn [app]; try (by left); try (by right)).
Qed.

Lemma utf8_first_encode c rest : scalar c -> utf8_first (encode c ++ rest) = First c rest.
Proof.
  intros Hc. unfold encode, scalar in *.
  destruct (Z.ltb_spec c 128); [|destruct (Z.ltb_spec c 2048); [|destruct (Z.ltb_spec c 65536)]];
    cbn [app utf8_first].
  - by rewrite (proj2 (Z.ltb_lt _ _)).
  - rewrite (proj2 (Z.ltb_ge _ _)) by div_lia. rewrite (proj2 (between_true 194 223 _)) by div_lia.
    unfold cont. rewrite (proj2 (between_true 128 191 _)) by div_lia. f_equal. div_lia.
  - rewrite (proj2 (Z.ltb_ge _ _)) by div_lia. rewrite (proj2 (between_false 194 223 _)) by div_lia.
    rewrite (proj2 (between_true 224 239 _)) by div_lia. rewrite (proj2 (second3_spec _ _)) by div_lia.
    unfold cont. rewrite (proj2 (between_true 128 191 _)) by div_lia. f_equal. div_lia.
  - rewrite (proj2 (Z.ltb_ge _ _)) by div_lia. rewrite (proj2 (between_false 194 223 _)) by div_lia.
    rewrite (proj2 (between_false 224 239 _)) by div_lia. rewrite (proj2 (between_true 240 244 _)) by div_lia.
    rewrite (proj2 (second4_spec _ _)) by div_lia.
    unfold cont. rewrite !(proj2 (between_true 128 191 _)) by div_lia. f_equal. div_lia.
Qed.

Lemma encode2 b0 b1 :
  (194 <= b0 <= 223)%Z -> (128 <= b1 <= 191)%Z -> encode ((b0 - 192) * 64 + (b1 - 128)) = [b0; b1].
Proof.
  intros H0 H1. unfold encode. rewrite (proj2 (Z.ltb_ge _ _)), (proj2 (Z.ltb_lt _ _)) by lia.
  repeat f_equal; div_lia.
Qed.

Lemma encode3 b0 b1 b2 :
  (224 <= b0 <= 239)%Z -> second3 b0 b1 = true -> (128 <= b2 <= 191)%Z ->
  let c := ((b0 - 224) * 4096 + (b1 - 128) * 64 + (b2 - 128))%Z in scalar c /\ encode c = [b0; b1; b2].
Proof.
  intros H0 H1%second3_spec H2. cbn zeta. split; [unfold scalar; lia|].
  unfold encode. rewrite !(proj2 (Z.ltb_ge _ _)), (proj2 (Z.ltb_lt _ _)) by lia. repeat f_equal; div_lia.
Qed.

Lemma encode4 b0 b1 b2 b3 :
  (240 <= b0 <= 244)%Z -> second4 b0 b1 = true -> (128 <= b2 <= 191)%Z -> (128 <= b3 <= 191)%Z ->
  let c := ((b0 - 240) * 262144 + (b1 - 128) * 4096 + (b2 - 128) * 64 + (b3 - 128))%Z in
  scalar c /\ encode c = [b0; b1; b2; b3].
Proof.
  intros H0 H1%second4_spec H2 H3. cbn zeta. split; [unfold scalar; lia|].
  unfold encode. rewrite !(proj2 (Z.ltb_ge _ _)) by lia. repeat f_equal; div_lia.
Qed.

Lemma utf8_first_First bs c rest :
  Forall byte_ok bs -> utf8_first bs = First c rest -> scalar c /\ bs = encode c ++ rest.
Proof.
  intros Hb. destruct bs as [|b0 r]; [done|]. apply Forall_inv in Hb. unfold byte_ok in Hb.
  cbn [utf8_first]. destruct (b0 <? 128)%Z eqn:E0.
  { intros [= <- <-]. bool_prop. split; [unfold scalar; lia|]. unfold encode. by rewrite (proj2 (Z.ltb_lt _ _)). }
  destruct (between 194 223 b0) eqn:E2; [|destruct (between 224 239 b0) eqn:E3; [|destruct (between 240 244 b0) eqn:E4; [|done]]].
  - destruct r as [|b1 r]; [done|]. destruct (cont b1) eqn:C1; [|done]. intros [= <- <-]. utf8_cases.
    split; [unfold scalar; lia|]. by rewrite encode2.
  - destruct r as [|b1 r]; [done|]. destruct (second3 b0 b1) eqn:C1; [|done].
    destruct r as [|b2 r]; [done|]. destruct (cont b2) eqn:C2; [|done]. intros [= <- <-].
    apply between_true in E3, C2. destruct (encode3 b0 b1 b2) as [Hs He]; [done..|]. by rewrite He.
  - destruct r as [|b1 r]; [done|]. destruct (second4 b0 b1) eqn:C1; [|done].
    destruct r as [|b2 r]; [done|]. destruct (cont b2) eqn:C2; [|done].
    destruct r as [|b3 r]; [done|]. destruct (cont b3) eqn:C3; [|done]. intros [= <- <-].
    apply between_true in E4, C2, C3. destruct (encode4 b0 b1 b2 b3) as [Hs He]; [done..|]. by rewrite He.
Qed.

(** A second byte that may follow the first, for want of one. *)
Lemma second3_exists b0 : (224 <= b0 <= 239)%Z -> exists b1, second3 b0 b1 = true.
Proof.
  intros H0. destruct (decide (b0 = 224%Z)); [exists 160%Z|exists 128%Z]; apply second3_spec; lia.
Qed.

Lemma second4_exists b0 : (240 <= b0 <= 244)%Z -> exists b1, second4 b0 b1 = true.
Proof.
  intros H0. destruct (decide (b0 = 240%Z)); [exists 144%Z|exists 128%Z]; apply second4_spec; lia.
Qed.

(** Bytes that are too few are the beginning of a character. *)
Lemma utf8_first_Short bs :
  bs ≠ [] -> utf8_first bs = Short -> exists c tail, scalar c /\ encode c = bs ++ tail /\ tail ≠ [].
Proof.
  intros Hne. destruct bs as [|b0 r]; [done|]. cbn [utf8_first]. destruct (b0 <? 128)%Z; [done|].
  destruct (between 194 223 b0) eqn:E2; [|destruct (between 224 239 b0) eqn:E3; [|destruct (between 240 244 b0) eqn:E4; [|done]]].
  - destruct r as [|b1 r]; [|by case_match]. intros _. utf8_cases.
    eexists _, [128%Z]. split_and!; [|apply encode2; lia|done]. unfold scalar. lia.
  - apply between_true in E3. destruct r as [|b1 [|b2 r]].
    + intros _. destruct (second3_exists b0 E3) as [b1 H1].
      destruct (encode3 b0 b1 128 E3 H1 ltac:(lia)). by eexists _, [b1; 128%Z].
    + destruct (second3 b0 b1) eqn:H1; [|done]. intros _.
      destruct (encode3 b0 b1 128 E3 H1 ltac:(lia)). by eexists _, [128%Z].
    + by repeat case_match.
  - apply between_true in E4. destruct r as [|b1 [|b2 [|b3 r]]].
    + intros _. destruct (second4_exists b0 E4) as [b1 H1].
      destruct (encode4 b0 b1 128 128 E4 H1 ltac:(lia) ltac:(lia)). by eexists _, [b1; 128%Z; 128%Z].
    + destruct (second4 b0 b1) eqn:H1; [|done]. intros _.
      destruct (encode4 b0 b1 128 128 E4 H1 ltac:(lia) ltac:(lia)). by eexists _, [128%Z; 128%Z].
    + destruct (second4 b0 b1) eqn:H1; [|done]. destruct (cont b2) eqn:H2; [|done]. intros _.
      apply between_true in H2. destruct (encode4 b0 b1 b2 128 E4 H1 H2 ltac:(lia)). by eexists _, [128%Z].
    + by repeat case_match.
Qed.

Lemma utf8_first_shorter bs c rest : utf8_first bs = First c rest -> length rest < length bs.
Proof.
  destruct bs as [|b0 r]; [done|]. unfold utf8_first. intros Hf.
  repeat (case_match; simplify_eq/=); lia.
Qed.

Lemma decode_enough n m bs : length bs <= n -> length bs <= m -> decode n bs = decode m bs.
Proof.
  revert m bs. induction n as [|n IH]; intros m bs Hn Hm.
  { destruct bs; cbn in Hn; [|lia]. by destruct m. }
  destruct m as [|m]; [destruct bs; cbn in Hm; [done|lia]|].
  destruct bs as [|b bs]; [done|]. cbn [decode]. destruct (utf8_first (b :: bs)) as [c rest| |] eqn:E; [|done..].
  apply utf8_first_shorter in E. cbn in *. by rewrite (IH m) by lia.
Qed.

Definition stops (rest : list Z) (err : option (option nat)) : Prop :=
  match err with
  | None => rest = []
  | Some None => rest ≠ [] /\ utf8_first rest = Short
  | Some (Some k) => rest ≠ [] /\ utf8_first rest = Bad k
  end.

Lemma decode_spec n bs :
  length bs <= n -> Forall byte_ok bs ->
  let '(t, rest, err) := decode n bs in Forall scalar t /\ bs = encode_all t ++ rest /\ stops rest err.
Proof.
  revert bs. induction n as [|n IH]; intros bs Hn Hb; [destruct bs; cbn in Hn; [done|lia]|].
  destruct bs as [|b bs]; [done|]. cbn [decode].
  destruct (utf8_first (b :: bs)) as [c rest|k|] eqn:E; [|done..].
  pose proof (utf8_first_shorter _ _ _ E) as Hlen. apply utf8_first_First in E as [Hc Heq]; [|done].
  rewrite Heq in Hb. apply Forall_app in Hb as [_ Hb]. cbn in Hlen, Hn.
  specialize (IH rest ltac:(lia) Hb). destruct (decode n rest) as [[t r] err]. destruct IH as (Ht & Hr & Hs).
  split_and!; [by constructor| |done]. rewrite Heq, Hr. unfold encode_all. cbn. by rewrite (assoc_L (++)).
Qed.

Lemma encode_nonempty c : encode c ≠ [].
Proof. unfold encode. by repeat case_match. Qed.

Lemma decode_encode t bs :
  Forall scalar t ->
  decode (length (encode_all t ++ bs)) (encode_all t ++ bs) =
  let '(t', rest, err) := decode (length bs) bs in (t ++ t', rest, err).
Proof.
  induction 1 as [|c t Hc _ IH]; [cbn; by destruct (decode _ bs) as [[? ?] ?]|].
  change (encode_all (c :: t)) with (encode c ++ encode_all t). rewrite <- (assoc_L (++)).
  pose proof (utf8_first_encode c (encode_all t ++ bs) Hc) as Hf.
  pose proof (utf8_first_shorter _ _ _ Hf) as Hlen.
  destruct (encode c ++ encode_all t ++ bs) as [|b l]; [done|]. cbn [length decode]. rewrite Hf.
  cbn in Hlen. rewrite (decode_enough _ (length (encode_all t ++ bs))) by lia. rewrite IH.
  by destruct (decode (length bs) bs) as [[t' r] err].
Qed.

Lemma from_utf8_encode t : Forall scalar t -> from_utf8 (encode_all t) = Utf8Ok t.
Proof.
  intros Ht. unfold from_utf8. pose proof (decode_encode t [] Ht) as Hd. rewrite app_nil_r in Hd.
  rewrite Hd. cbn. by rewrite app_nil_r.
Qed.

(** What [from_utf8] says of a byte string. *)
Lemma from_utf8_spec bs :
  Forall byte_ok bs ->
  exists t rest, Forall scalar t /\ bs = encode_all t ++ rest /\
  match from_utf8 bs with
  | Utf8Ok t' => t' = t /\ rest = []
  | Utf8Err v e => v = length (encode_all t) /\ stops rest (Some e)
  end.
Proof.
  intros Hb. unfold from_utf8. pose proof (decode_spec (length bs) bs ltac:(lia) Hb) as H.
  destruct (decode (length bs) bs) as [[t rest] err]. destruct H as (Ht & Heq & Hs). exists t, rest.
  split_and!; [done..|]. destruct err as [e|]; [|done]. split; [|done]. rewrite Heq, length_app. lia.
Qed.

Lemma encode_all_cons_inj c c' x y : scalar c -> scalar c' -> encode c ++ x = encode c' ++ y -> c = c' /\ x = y.
Proof.
  intros Hc Hc' Heq. pose proof (utf8_first_encode c x Hc) as H1.
  rewrite Heq, utf8_first_encode in H1 by done. by injection H1.
Qed.

(** Encodings are uniquely decodable. *)
Lemma encode_all_prefix t rest text :
  Forall scalar t -> Forall scalar text -> encode_all text = encode_all t ++ rest ->
  exists t2, text = t ++ t2 /\ encode_all t2 = rest /\ Forall scalar t2.
Proof.
  intros Ht. revert text. induction Ht as [|c t Hc _ IH]; intros text Htext Heq; [by exists text|].
  change (encode_all (c :: t)) with (encode c ++ encode_all t) in Heq. rewrite <- (assoc_L (++)) in Heq.
  destruct Htext as [|c' text Hc' Htext].
  { exfalso. pose proof (encode_nonempty c). destruct (encode c); [done|]. discriminate Heq. }
  change (encode_all (c' :: text)) with (encode c' ++ encode_all text) in Heq.
  apply encode_all_cons_inj in Heq as [-> Heq]; [|done..].
  destruct (IH text Htext Heq) as (t2 & -> & He & Hs). by exists t2.
Qed.

Lemma encode_bytes t : Forall scalar t -> Forall byte_ok (encode_all t).
Proof.
  induction 1 as [|c t Hc _ IH]; [constructor|]. apply Forall_app. split; [|done].
  unfold encode, scalar in *. repeat case_match; bool_prop; repeat constructor; unfold byte_ok; div_lia.
Qed.

(** Bytes that stop decoding as invalid are the beginning of no text; bytes that stop
    it as incomplete are the beginning of one. *)
Lemma stops_bad rest k ext text :
  stops rest (Some (Some k)) -> Forall scalar text -> rest ++ ext ≠ encode_all text.
Proof.
  intros [Hne Hbad] Ht Heq. destruct (utf8_first_app rest ext Hne) as [Hs|Hs]; [congruence|].
  rewrite Hbad, Heq in Hs. destruct Ht as [|c t Hc Ht].
  - destruct rest; [done|]. discriminate Heq.
  - change (encode_all (c :: t)) with (encode c ++ encode_all t) in Hs. by rewrite utf8_first_encode in Hs.
Qed.

Lemma stops_short rest : stops rest (Some None) -> exists ext c, scalar c /\ rest ++ ext = encode c.
Proof. intros [Hne Hs]. destruct (utf8_first_Short rest Hne Hs) as (c & tail & ? & ? & ?). by exists tail, c. Qed.

Section Utf8_proofs.
Context {P T : Type} `{StreamLaws P T}.
Set Default Proof Using "Type*".

Abbreviation parser := (Utf8StreamParser P).

(** The buffered bytes are none or the beginning of a character. *)
Definition utf8_inv (q : parser) : Prop := parser_inv (u_inner q) /\ utf8_first (pending_utf8 q) = Short.

(** A push that is not refused: [t] is what the inner parser receives. *)
Lemma push_bytes_cases (q : parser) c :
  Forall byte_ok (pending_utf8 q ++ c) -> utf8_first (pending_utf8 q) = Short ->
  exists t rest, Forall scalar t /\ pending_utf8 q ++ c = encode_all t ++ rest /\
  match push_bytes q c with
  | (q', Ok out) => pending_utf8 q' = rest /\ utf8_first rest = Short /\
      ((t = [] /\ u_inner q' = u_inner q /\ out = stc_default) \/ (u_inner q', out) = push_str (u_inner q) t)
  | (q', Err _) => q' = q /\ exists k, stops rest (Some (Some k))
  | (_, Panic) => False
  end.
Proof.
  intros Hb Hshort. destruct (from_utf8_spec _ Hb) as (t & rest & Ht & Heq & Hf). exists t, rest.
  split_and!; [done..|]. unfold push_bytes. cbn zeta. rewrite take_app_length.
  destruct (from_utf8 (pending_utf8 q ++ c)) as [t'|v [k|]].
  - destruct Hf as [-> ->]. destruct (push_str (u_inner q) t). cbn. auto.
  - destruct Hf as [_ Hs]. split; [by destruct q|]. by exists k.
  - destruct Hf as [-> [Hne Hs]]. destruct (length (encode_all t) =? 0)%nat eqn:E; bool_prop.
    + assert (t = []) as ->.
      { destruct t as [|x t]; [done|]. cbn in E. rewrite length_app in E. pose proof (encode_nonempty x).
        destruct (encode x); [done|]. cbn in E. lia. }
      cbn [fst snd pending_utf8 u_inner]. rewrite Heq. split_and!; [done..|]. by left.
    + rewrite Heq, take_app_length, from_utf8_encode, drop_app_length by done.
      destruct (push_str (u_inner q) t). cbn. auto.
Qed.

Lemma utf8_finish_empty (q : parser) :
  pending_utf8 q = [] -> (utf8_finish q).2 = Ok (finish (u_inner q)).2.
Proof.
  intros Hp. unfold utf8_finish. rewrite Hp. cbn [is_empty].
  destruct (finish (u_inner q)). cbn [snd]. by rewrite stc_app_default_l.
Qed.

(** A text cut anywhere between its bytes reaches the inner parser whole. *)
Lemma run_bytes_meaning chunks (q : parser) text :
  utf8_inv q -> Forall scalar text -> pending_utf8 q ++ concat chunks = encode_all text ->
  exists out, run_bytes q chunks = Ok out /\ chunk_eqv out (meaning (u_inner q) text).
Proof.
  revert q text. induction chunks as [|c chunks IH]; intros q text [Hp Hshort] Ht Heq; cbn [run_bytes concat] in *.
  - rewrite app_nil_r in Heq. destruct Ht as [|x text Hx Ht].
    + rewrite utf8_finish_empty by done. eexists. split; [done|]. by apply finish_meaning.
    + exfalso. rewrite Heq in Hshort. change (encode_all (x :: text)) with (encode x ++ encode_all text) in Hshort.
      by rewrite utf8_first_encode in Hshort.
  - rewrite (assoc_L (++)) in Heq.
    assert (Forall byte_ok (pending_utf8 q ++ c)) as Hb
      by (pose proof (encode_bytes text Ht) as Hbs; rewrite <- Heq in Hbs; by apply Forall_app in Hbs as [? _]).
    destruct (push_bytes_cases q c Hb Hshort) as (t & rest & Hst & Hpc & Hcase).
    rewrite Hpc, <- (assoc_L (++)) in Heq. symmetry in Heq.
    destruct (encode_all_prefix _ _ _ Hst Ht Heq) as (t2 & -> & Ht2 & Hst2).
    destruct (push_bytes q c) as [q' [out|e|]]; [| |done].
    + destruct Hcase as (Hpend & Hrest & Hpush).
      assert (parser_inv (u_inner q') /\
        chunk_eqv (stc_app out (meaning (u_inner q') t2)) (meaning (u_inner q) (t ++ t2))) as [Hp' Hm].
      { destruct Hpush as [(-> & -> & ->)|Hpush]; [by rewrite stc_app_default_l|].
        pose proof (push_str_inv (u_inner q) t Hp). pose proof (push_str_meaning (u_inner q) t t2 Hp).
        by rewrite <- Hpush in *. }
      destruct (IH q' t2) as (outs & Hr & Ho); [split; [done|by rewrite Hpend]|done|by rewrite Hpend|].
      exists (stc_app out outs). cbn [mbind res_bind]. rewrite Hr. split; [done|]. by rewrite Ho.
    + destruct Hcase as [_ [k Hbad]]. exfalso. eapply stops_bad; [exact Hbad|exact Hst2|done].
Qed.

(** A text encoded in UTF-8 and cut into chunks anywhere, inside characters too,
    streams without an error, and gives what the inner parser makes of the text. *)
Theorem utf8_stream_text (p : P) text chunks :
  parser_inv p -> Forall scalar text -> concat chunks = encode_all text ->
  exists out, run_bytes (utf8_new p) chunks = Ok out /\ chunk_eqv out (meaning p text).
Proof. intros Hp Ht Hc. by apply (run_bytes_meaning chunks (utf8_new p)). Qed.

(** The states a parser can be in. *)
Inductive reached : parser -> Prop :=
| reached_new p : reached (utf8_new p)
| reached_push q c : reached q -> Forall byte_ok c -> reached (push_bytes q c).1
| reached_finish q : reached q -> reached (utf8_finish q).1.

Lemma utf8_finish_state (q : parser) : (utf8_finish q).1 = q \/ pending_utf8 (utf8_finish q).1 = [].
Proof. unfold utf8_finish. repeat (case_match; cbn [fst]; try (by left); try (by right)). Qed.

Lemma reached_inv q : reached q -> utf8_first (pending_utf8 q) = Short /\ Forall byte_ok (pending_utf8 q).
Proof.
  induction 1 as [p|q c _ [Hs Hb] Hc|q _ IH]; [done| |].
  - assert (Forall byte_ok (pending_utf8 q ++ c)) as Hqc by (by apply Forall_app).
    destruct (push_bytes_cases q c Hqc Hs) as (t & rest & _ & Hpc & Hcase). rewrite Hpc in Hqc.
    apply Forall_app in Hqc as [_ Hrest].
    destruct (push_bytes q c) as [q' [out|e|]]; cbn [fst]; [|by destruct Hcase as [-> _]|done].
    by destruct Hcase as (-> & ? & _).
  - by destruct (utf8_finish_state q) as [->| ->].
Qed.

(** A chunk is refused exactly when the bytes received so far are the beginning of
    no UTF-8 text, and a refused chunk leaves the parser as it was. *)
Theorem utf8_push_refused (q : parser) c :
  reached q -> Forall byte_ok c ->
  ((exists e, (push_bytes q c).2 = Err e) <->
   ~ exists ext text, Forall scalar text /\ (pending_utf8 q ++ c) ++ ext = encode_all text) /\
  (forall e, (push_bytes q c).2 = Err e -> (push_bytes q c).1 = q).
Proof.
  intros [Hshort Hbq]%reached_inv Hbc. assert (Forall byte_ok (pending_utf8 q ++ c)) as Hb by (by apply Forall_app).
  destruct (push_bytes_cases q c Hb Hshort) as (t & rest & Hst & Hpc & Hcase).
  rewrite Hpc. destruct (push_bytes q c) as [q' [out|e|]]; cbn [fst snd]; [| |done].
  - split; [|done]. split; [by intros [e He]|]. intros Hno. exfalso. apply Hno.
    destruct rest as [|b rest].
    + exists [], t. by rewrite !app_nil_r.
    + destruct (stops_short (b :: rest)) as (ext & x & Hx & He); [by split; [|apply Hcase]|].
      exists ext, (t ++ [x]). split; [by apply Forall_app; split; [|constructor]|].
      unfold encode_all. rewrite map_app, concat_app. cbn [map concat]. by rewrite app_nil_r, <- He, (assoc_L (++)).
  - destruct Hcase as [-> [k Hbad]]. split; [|by intros ? _]. split; [|by eexists].
    intros _ (ext & text & Htext & Heq). rewrite <- (assoc_L (++)) in Heq. symmetry in Heq.
    destruct (encode_all_prefix _ _ _ Hst Htext Heq) as (t2 & _ & Ht2 & Hst2).
    eapply stops_bad; [exact Hbad|exact Hst2|done].
Qed.

End Utf8_proofs.

(** ** Witnesses *)

Module Utf8Demo.

Definition text : rstr := [233%Z] ++ CITATION_OPEN ++ [8364%Z] ++ CITATION_CLOSE.

(** Every byte on its own. *)
Definition chunks : list (list Z) := map (fun b => [b]) (encode_all text).

Definition citations : CitationStreamParser :=
  {| inner := {| specs := citation_specs; pending := []; active := None |} |}.

End Utf8Demo.

Lemma utf8_stream_text_witness :
  exists out, run_bytes (utf8_new Utf8Demo.citations) Utf8Demo.chunks = Ok out /\
  visible_text out = [233%Z] /\ extracted out = [[8364%Z]].
Proof.
  destruct (utf8_stream_text Utf8Demo.citations Utf8Demo.text Utf8Demo.chunks) as (out & Hr & Hv & He).
  - by apply citation_new_inv.
  - apply (bool_decide_unpack _). vm_compute. reflexivity.
  - vm_compute. reflexivity.
  - exists out. split; [exact Hr|]. split; [exact Hv|exact He].
Defined.

Lemma utf8_push_refused_witness :
  (push_bytes (utf8_new Utf8Demo.citations) [195%Z; 40%Z]).1 = utf8_new Utf8Demo.citations.
Proof.
  apply (proj2 (utf8_push_refused (utf8_new Utf8Demo.citations) [195%Z; 40%Z]
    (reached_new _) ltac:(repeat constructor; unfold byte_ok; lia)) (InvalidUtf8 0 1)).
  vm_compute. reflexivity.
Defined.
