(* ===== verification/PathUri.v ===== *)
(** * Path URIs

    Models [workx-rs/utils/path-uri/src/lib.rs] and [absolute_path_normalization.rs]:
    [file:] URIs that stand for paths of this or of another host, with containment, parents and lexical joins that follow the convention (POSIX
    or Windows) the URI is spelled in. The crates [url], [urlencoding] and [base64] are
    the class [UrlCrate]; what the code relies on is the class [UrlLaws], with an
    instance over a plain record in [UrlModel]. *)
From S2P Require Import Prelude AbsPath StreamText InlineTag Utf8Stream.

Set Default Goal Selector "!".

Inductive PathConvention := Posix | Windows.

#[export] Instance PathConvention_eq_dec : EqDecision PathConvention.
Proof. solve_decision. Defined.

(** [PathConvention::native] on Unix. *)
Definition native_convention : PathConvention := Posix.

Definition BACKSLASH : char := 92.
Definition COLON : char := 58.
Definition NUL : char := 0.

(** [str::split] with a predicate on chars. *)
Fixpoint split_pred (p : char -> bool) (s : rstr) : list rstr :=
  match s with
  | [] => [[]]
  | d :: s' =>
      if p d then [] :: split_pred p s'
      else match split_pred p s' with [] => [[d]] | q :: qs => (d :: q) :: qs end
  end.

(** [PathConvention::path_segments]. *)
Definition is_separator (self : PathConvention) (c : char) : bool :=
  match self with
  | Posix => (c =? SLASH)%Z
  | Windows => (c =? SLASH)%Z || (c =? BACKSLASH)%Z
  end.

Definition path_segments (self : PathConvention) (path : rstr) : list rstr := split_pred (is_separator self) path.

(** [str::replace] of a char by a char. *)
Definition replace_char (from to : char) (s : rstr) : rstr := map (fun c => if (c =? from)%Z then to else c) s.

Definition is_ascii_alphabetic (c : char) : bool := (((65 <=? c) && (c <=? 90)) || ((97 <=? c) && (c <=? 122)))%Z.
Definition is_ascii_uppercase (c : char) : bool := ((65 <=? c) && (c <=? 90))%Z.
Definition ascii_upper (c : char) : char := (if (97 <=? c) && (c <=? 122) then c - 32 else c)%Z.

(** [eq_ignore_ascii_case], on strings and on bytes. *)
Definition eq_ignore_ascii_case (a b : rstr) : bool := streq (to_ascii_lowercase a) (to_ascii_lowercase b).

(** ** The crates *)

(** What the code calls of [url], [urlencoding] and [base64]. The segments operations
    are those of [Url::path_segments_mut], which exists when [url_segments] does. *)
Class UrlCrate (Url : Type) := {
  url_eq_dec :: EqDecision Url;
  url_parse : rstr -> option Url;
  url_as_str : Url -> rstr;
  url_scheme : Url -> rstr;
  url_username : Url -> rstr;
  url_password : Url -> option rstr;
  url_host_str : Url -> option rstr;
  url_port : Url -> option Z;
  url_path : Url -> rstr;
  url_query : Url -> option rstr;
  url_fragment : Url -> option rstr;
  url_segments : Url -> option (list rstr);
  url_set_host : Url -> option rstr -> option Url;
  url_set_path : Url -> rstr -> Url;
  segs_clear : Url -> Url;
  segs_pop_if_empty : Url -> Url;
  segs_pop : Url -> Url;
  segs_push : Url -> rstr -> Url;
  url_from_file_path : rstr -> option Url;
  url_to_file_path : Url -> option rstr;
  decode_binary : rstr -> list Z;
  b64_encode : list Z -> rstr;
  b64_decode : rstr -> option (list Z);
}.

Definition FILE_SCHEME : rstr := lit "file".
Definition BAD_PATH_URI_PREFIX : rstr := lit "file:///%00/bad/path/".

Inductive PathUriParseError :=
| InvalidUri
| UnsupportedScheme (scheme : rstr)
| InvalidFileUriPath (path : rstr)
| CredentialsNotAllowed
| PortNotAllowed
| QueryNotAllowed
| FragmentNotAllowed
| JoinPathMustBeDescendant (path : rstr).

(** [u16::to_le_bytes] and [str::encode_utf16]. *)
Definition le_bytes (w : Z) : list Z := [w mod 256; w / 256]%Z.

Definition utf16_units (c : char) : list Z :=
  (if c <? 65536 then [c] else [55296 + (c - 65536) / 1024; 56320 + (c - 65536) mod 1024])%Z.

Definition utf16_le (s : rstr) : list Z := concat (map le_bytes (concat (map utf16_units s))).

Definition infer_opaque_path_convention (path_bytes : list Z) : option PathConvention :=
  if starts_with [SLASH] path_bytes then Some Posix
  else if negb (length path_bytes mod 2 =? 0)%nat then None
  else
    match path_bytes with
    | a0 :: a1 :: b0 :: b1 :: _ =>
        let first := (a0 + 256 * a1)%Z in
        let second := (b0 + 256 * b1)%Z in
        let has_drive := (first <? 256)%Z && is_ascii_alphabetic first && (second =? COLON)%Z in
        let has_unc_prefix := (first =? BACKSLASH)%Z && (second =? BACKSLASH)%Z in
        if has_drive || has_unc_prefix then Some Windows else None
    | _ => None
    end.

Definition is_windows_drive_uri_segment (segment : rstr) : bool :=
  match segment with
  | [drive; c] => (c =? COLON)%Z && is_ascii_alphabetic drive
  | [drive; p; three; a] =>
      (p =? 37)%Z && (three =? 51)%Z && ((a =? 65)%Z || (a =? 97)%Z) && is_ascii_alphabetic drive
  | _ => false
  end.

(** [absolute-path/src/lib.rs]: Windows device prefixes. *)
Definition is_windows_drive_absolute_path (path : rstr) : bool :=
  match path with
  | d :: c :: s :: _ => is_ascii_alphabetic d && (c =? COLON)%Z && ((s =? BACKSLASH)%Z || (s =? SLASH)%Z)
  | _ => false
  end.

Definition normalize_windows_device_path (path : rstr) : option rstr :=
  let drive_path prefix :=
    match strip_prefix (lit prefix) path with
    | Some path => if is_windows_drive_absolute_path path then Some path else None
    | None => None
    end in
  match strip_prefix (lit "\\?\UNC\") path, strip_prefix (lit "\\.\UNC\") path with
  | Some unc, _ => Some (lit "\\" ++ unc)
  | None, Some unc => Some (lit "\\" ++ unc)
  | None, None =>
      match drive_path "\\?\"%string with
      | Some path => Some path
      | None => drive_path "\\.\"%string
      end
  end.

Definition is_windows_separator_char (c : char) : bool := is_separator Windows c.

Definition nonempty (s : rstr) : bool := negb (is_empty s).

Section PathUri.
Context {Url : Type} `{UrlCrate Url}.
Set Default Proof Using "Type".

Definition decode_uri_path (path : rstr) : rstr :=
  match from_utf8 (decode_binary path) with Utf8Ok text => text | Utf8Err _ _ => path end.

Definition decode_bad_path_uri (url : Url) : option (list Z) :=
  encoded_path ← strip_prefix BAD_PATH_URI_PREFIX (url_as_str url);
  if is_empty encoded_path || contains_char SLASH encoded_path then None
  else path_bytes ← b64_decode encoded_path;
       if streq (b64_encode path_bytes) encoded_path then Some path_bytes else None.

Definition opaque_fallback_bytes (self : Url) : option (list Z) := decode_bad_path_uri self.

Definition is_opaque (self : Url) : bool := bool_decide (is_Some (opaque_fallback_bytes self)).

Definition infer_path_convention (self : Url) : option PathConvention :=
  match opaque_fallback_bytes self with
  | Some path_bytes => infer_opaque_path_convention path_bytes
  | None =>
      match url_host_str self with
      | Some _ => Some Windows
      | None =>
          let has_windows_drive :=
            match url_segments self ≫= List.find nonempty with
            | Some segment => is_windows_drive_uri_segment segment
            | None => false
            end in
          if has_windows_drive then Some Windows else Some Posix
      end
  end.

Definition containment_path_segments (url : Url) (convention : PathConvention) : option (list rstr) :=
  segments ← url_segments url;
  let segments := List.filter nonempty segments in
  if existsb (fun segment => existsb (is_separator convention) (decode_binary segment)) segments
  then None else Some segments.

Definition windows_identity_path_bytes (self : Url) : option (list Z) :=
  if negb (bool_decide (infer_path_convention self = Some Windows)) || is_opaque self then None
  else segments ← url_segments self;
       if existsb (fun segment => existsb (is_separator Windows) (decode_binary segment)) segments then None
       else Some (decode_binary (url_path self)).

(** [PartialEq::eq]. *)
Definition uri_eq (self other : Url) : bool :=
  bool_decide (self = other) ||
  match windows_identity_path_bytes self, windows_identity_path_bytes other with
  | Some path, Some other_path =>
      bool_decide (url_host_str self = url_host_str other) && eq_ignore_ascii_case path other_path
  | _, _ => false
  end.

Definition segment_matches (convention : PathConvention) (pb : rstr * rstr) : bool :=
  let '(path, base) := pb in
  match convention with
  | Posix => bool_decide (decode_binary path = decode_binary base)
  | Windows => eq_ignore_ascii_case path base || eq_ignore_ascii_case (decode_uri_path path) (decode_uri_path base)
  end.

Definition native_path_segments_start_with (path_segments base_segments : list rstr) (convention : PathConvention)
    : bool :=
  (length base_segments <=? length path_segments)%nat &&
  forallb (segment_matches convention) (List.combine path_segments base_segments).

Definition uri_starts_with (self base : Url) : bool :=
  if uri_eq self base then true
  else if is_opaque self || is_opaque base then false
  else if negb (bool_decide (url_host_str self = url_host_str base)) then false
  else
    let convention := infer_path_convention self in
    if negb (bool_decide (convention = infer_path_convention base)) then false
    else
      let convention := default Posix convention in
      match containment_path_segments self convention, containment_path_segments base convention with
      | Some path_segments, Some base_segments =>
          native_path_segments_start_with path_segments base_segments convention
      | _, _ => false
      end.

Definition lexical_depth (self : Url) : option nat :=
  if is_opaque self then None
  else convention ← infer_path_convention self;
       segments ← containment_path_segments self convention;
       Some (length segments).

Definition overlaps (self other : Url) : option bool :=
  if uri_eq self other then Some true
  else match lexical_depth self, lexical_depth other with
       | Some _, Some _ => Some (uri_starts_with self other || uri_starts_with other self)
       | _, _ => None
       end.

Definition relative_path_from (self base : Url) : option rstr :=
  if uri_eq self base then Some []
  else if is_opaque self || is_opaque base || negb (bool_decide (url_host_str self = url_host_str base))
          || negb (bool_decide (infer_path_convention self = infer_path_convention base)) then None
  else
    convention ← infer_path_convention self;
    path_segments ← containment_path_segments self convention;
    base_segments ← containment_path_segments base convention;
    if negb (native_path_segments_start_with path_segments base_segments convention) then None
    else
      let relative_segments := drop (length base_segments) path_segments in
      let separator := match convention with Posix => [SLASH] | Windows => [BACKSLASH] end in
      Some (join separator (map decode_uri_path relative_segments)).

Definition anchor_depth (convention : PathConvention) : nat :=
  match convention with Posix => 0 | Windows => 1 end.

(** [usize] of the count of non-empty segments. *)
Definition segment_count (segments : list rstr) : nat := length (List.filter nonempty segments).

Definition uri_parent (self : Url) : option Url :=
  if is_opaque self then None
  else convention ← infer_path_convention self;
       segments ← url_segments self;
       if (segment_count segments <=? anchor_depth convention)%nat then None
       else Some (segs_pop (segs_pop_if_empty self)).

(** [iter::successors(Some(self), parent)], cut after [fuel] parents. *)
Fixpoint ancestors_fuel (fuel : nat) (self : Url) : list Url :=
  self :: match fuel with
          | O => []
          | S fuel => match uri_parent self with Some p => ancestors_fuel fuel p | None => [] end
          end.

(** A parent has fewer segments or is the root: their number is enough fuel. *)
Definition ancestors (self : Url) : list Url := ancestors_fuel (length (default [] (url_segments self))) self.

Definition basename (self : Url) : option rstr :=
  if is_opaque self then None
  else segments ← url_segments self;
       decode_uri_path <$> last (List.filter nonempty segments).

(** ** Construction *)

Definition validate_common_known_uri (url : Url) : res PathUriParseError unit :=
  if nonempty (url_username url) || bool_decide (is_Some (url_password url)) then Err CredentialsNotAllowed
  else if bool_decide (is_Some (url_port url)) then Err PortNotAllowed
  else if bool_decide (is_Some (url_query url)) then Err QueryNotAllowed
  else if bool_decide (is_Some (url_fragment url)) then Err FragmentNotAllowed
  else Ok tt.

Definition validate_file_url (url : Url) : res PathUriParseError unit :=
  _ ← validate_common_known_uri url;
  if existsb (Z.eqb NUL) (decode_binary (url_path url)) && negb (is_opaque url)
  then Err (InvalidFileUriPath (url_as_str url)) else Ok tt.

Definition without_localhost_authority (url : Url) : res PathUriParseError Url :=
  if bool_decide (url_host_str url = Some (lit "localhost")) then or_panic (url_set_host url None) else Ok url.

(** The leading [/]s of a path, and the rest. *)
Fixpoint leading_slashes (path : rstr) : rstr * rstr :=
  match path with
  | c :: path' => if (c =? SLASH)%Z then let '(s, r) := leading_slashes path' in (c :: s, r) else ([], path)
  | [] => ([], [])
  end.

Definition with_normalized_windows_drive_letter (url : Url) : Url :=
  match url_host_str url with
  | Some _ => url
  | None =>
      let '(slashes, rest) := leading_slashes (url_path url) in
      match rest, head (split_char SLASH rest) with
      | drive_letter :: rest', Some drive =>
          if negb (is_windows_drive_uri_segment drive) || is_ascii_uppercase drive_letter then url
          else url_set_path url (slashes ++ ascii_upper drive_letter :: rest')
      | _, _ => url
      end
  end.

(** [TryFrom<Url>]. *)
Definition try_from_url (url : Url) : res PathUriParseError Url :=
  if negb (streq (url_scheme url) FILE_SCHEME) then Err (UnsupportedScheme (url_scheme url))
  else
    _ ← validate_file_url url;
    url ← without_localhost_authority url;
    Ok (with_normalized_windows_drive_letter url).

Definition uri_parse (uri : rstr) : res PathUriParseError Url :=
  url ← ok_or (url_parse uri) InvalidUri; try_from_url url.

Definition from_opaque_path_bytes (path_bytes : list Z) : res PathUriParseError Url :=
  match uri_parse (BAD_PATH_URI_PREFIX ++ b64_encode path_bytes) with Ok uri => Ok uri | _ => Panic end.

Definition windows_opaque_path_uri (path : rstr) : res PathUriParseError Url := from_opaque_path_bytes (utf16_le path).

(** The loop of [path_uri_from_segments]: the segments kept and whether the last one
    was empty. *)
Definition normalize_segment (convention : PathConvention) (st : list rstr * bool) (segment : rstr)
    : list rstr * bool :=
  let '(normalized_segments, _) := st in
  if is_empty segment then (normalized_segments, true)
  else if streq segment (lit ".") then (normalized_segments, false)
  else if streq segment (lit "..") then
    (if (anchor_depth convention <? length normalized_segments)%nat
     then take (length normalized_segments - 1) normalized_segments else normalized_segments, false)
  else (normalized_segments ++ [segment], false).

(** The outer [option] is the [Option] of the code, [Panic] its [unreachable!]s. *)
Definition path_uri_from_segments (convention : PathConvention) (host : option rstr) (segments : list rstr)
    : res PathUriParseError (option Url) :=
  match url_parse (lit "file:///") with
  | None => Ok None
  | Some url =>
      match (match host with None => Some url | Some host => url_set_host url (Some host) end) with
      | None => Ok None
      | Some url =>
          let '(normalized_segments, has_trailing_separator) :=
            fold_left (normalize_segment convention) segments ([], false) in
          let depth := length normalized_segments in
          let normalized_segments :=
            if has_trailing_separator
               || (bool_decide (convention = Windows) && bool_decide (host = None)
                   && (depth =? anchor_depth convention)%nat)
            then normalized_segments ++ [[]] else normalized_segments in
          match url_segments url with
          | None => Ok None
          | Some _ =>
              match try_from_url (fold_left segs_push normalized_segments (segs_clear url)) with
              | Ok uri => Ok (Some uri)
              | Err _ => Ok None
              | Panic => Panic
              end
          end
      end
  end.

Definition parse_posix_path (path : rstr) : res PathUriParseError (option Url) :=
  match strip_prefix [SLASH] path with
  | None => Ok None
  | Some path =>
      if contains_char NUL path then Some <$> from_opaque_path_bytes (encode_all (SLASH :: path))
      else path_uri_from_segments Posix None (split_char SLASH path)
  end.

Definition parse_unnormalized_windows_path (path : rstr) : res PathUriParseError (option Url) :=
  let sep := is_windows_separator_char in
  let uses_namespace :=
    match path with
    | first :: second :: namespace :: separator :: _ =>
        sep first && sep second && sep separator && ((namespace =? 46)%Z || (namespace =? 63)%Z)
    | _ => false
    end in
  if uses_namespace || contains_char NUL path then Some <$> windows_opaque_path_uri path
  else if is_windows_drive_absolute_path path then
    path_uri_from_segments Windows None (take 2 path :: split_pred sep (drop 3 path))
  else
    match path with
    | first :: second :: rest =>
        if sep first && sep second then
          match split_pred sep rest with
          | host :: share :: components =>
              if is_empty host || is_empty share then Ok None
              else
                uri ← path_uri_from_segments Windows (Some host) (share :: components);
                match uri with Some uri => Ok (Some uri) | None => Some <$> windows_opaque_path_uri path end
          | _ => Ok None
          end
        else Ok None
    | _ => Ok None
    end.

(** The first two components of a UNC path name a server and a share. *)
Definition bad_unc_component (c : option rstr) : bool :=
  match c with None => true | Some c => is_empty c || streq c (lit ".") || streq c (lit "..") end.

Definition parse_windows_path (path : rstr) : res PathUriParseError (option Url) :=
  match normalize_windows_device_path path with
  | Some normalized_path =>
      let unc := strip_prefix (lit "\\") normalized_path in
      let bad_unc :=
        match unc with
        | Some unc_path =>
            let components := split_pred is_windows_separator_char unc_path in
            bad_unc_component (components !! 0) || bad_unc_component (components !! 1)
        | None => false
        end in
      if bad_unc then Some <$> windows_opaque_path_uri path
      else
        uri ← parse_unnormalized_windows_path normalized_path;
        match uri with
        | Some uri =>
            if bool_decide (infer_path_convention uri = Some Windows) && negb (is_opaque uri)
               && (negb (bool_decide (is_Some unc))
                   || match url_host_str uri with Some host => nonempty host | None => false end)
            then Ok (Some uri) else Some <$> windows_opaque_path_uri path
        | None => Some <$> windows_opaque_path_uri path
        end
  | None => parse_unnormalized_windows_path path
  end.

Definition from_absolute_native_path (path : rstr) (convention : PathConvention)
    : res PathUriParseError (option Url) :=
  uri ← match convention with Posix => parse_posix_path path | Windows => parse_windows_path path end;
  match uri with
  | None => Ok None
  | Some uri =>
      if negb (bool_decide (url_host_str uri = Some [])) && bool_decide (infer_path_convention uri = Some convention)
      then Ok (Some uri)
      else Some <$> match convention with
                    | Posix => from_opaque_path_bytes (encode_all path)
                    | Windows => windows_opaque_path_uri path
                    end
  end.

(** [PathUri::from_abs_path]; the path is its text. *)
Definition from_abs_path (path : rstr) : res PathUriParseError Url :=
  match url_from_file_path path with
  | Some url =>
      match try_from_url url with
      | Ok uri =>
          if negb (bool_decide (url_host_str uri = Some []))
             && bool_decide (infer_path_convention uri = Some native_convention)
          then Ok uri else from_opaque_path_bytes (encode_all path)
      | Panic => Panic
      | Err _ => from_opaque_path_bytes (encode_all path)
      end
  | None => from_opaque_path_bytes (encode_all path)
  end.

(** ** Joins *)

(** The loop over the components of [join]: the URL and its depth. *)
Definition join_component (anchor : nat) (st : Url * nat) (component : rstr) : Url * nat :=
  let '(url, depth) := st in
  if is_empty component || streq component (lit ".") then st
  else if streq component (lit "..") then
    if (anchor <? depth)%nat then (segs_pop url, depth - 1) else st
  else (segs_push url component, S depth).

(** [while depth > anchor_depth { segments.pop(); depth -= 1; }] *)
Fixpoint pop_to (anchor depth : nat) (url : Url) : Url * nat :=
  match depth with
  | O => (url, O)
  | S d => if (anchor <? S d)%nat then pop_to anchor d (segs_pop url) else (url, depth)
  end.

(** Whether the base is on the drive that [path] names. *)
Definition same_drive (self : Url) (drive : char) : bool :=
  match url_segments self ≫= List.find nonempty with
  | Some segment =>
      is_windows_drive_uri_segment segment &&
      match segment with c :: _ => (ascii_lower c =? ascii_lower drive)%Z | [] => false end
  | None => false
  end.

Definition uri_join (self : Url) (path : rstr) : res PathUriParseError Url :=
  if contains_char NUL path then Err (InvalidFileUriPath path)
  else if is_empty path then Ok self
  else
    convention ← ok_or (infer_path_convention self) (InvalidFileUriPath (url_as_str self));
    absolute ← from_absolute_native_path path convention;
    match absolute with
    | Some absolute => Ok absolute
    | None =>
        path ←
          match convention, path with
          | Windows, drive :: c :: rest =>
              if (c =? COLON)%Z && is_ascii_alphabetic drive
              then if same_drive self drive then Ok rest else Err (InvalidFileUriPath path)
              else Ok path
          | _, _ => Ok path
          end;
        if is_opaque self then Err (InvalidFileUriPath (url_as_str self))
        else
          let anchor := anchor_depth convention in
          let depth := default O (segment_count <$> url_segments self) in
          let windows_root_relative :=
            bool_decide (convention = Windows) &&
            match path with
            | c :: rest =>
                is_windows_separator_char c
                && negb (match rest with d :: _ => is_windows_separator_char d | [] => false end)
            | [] => false
            end in
          match url_segments self with
          | None => Panic
          | Some _ =>
              let url := segs_pop_if_empty self in
              let '(url, depth) := if windows_root_relative then pop_to anchor depth url else (url, depth) in
              let path := match convention with Posix => path | Windows => replace_char BACKSLASH SLASH path end in
              try_from_url (fold_left (join_component anchor) (split_char SLASH path) (url, depth)).1
          end
    end.

Definition join_descendant (self : Url) (path : rstr) : res PathUriParseError Url :=
  descendant ← uri_join self path;
  let windows := bool_decide (infer_path_convention self = Some Windows) in
  if starts_with [SLASH] path
     || (windows && (starts_with [BACKSLASH] path
                     || existsb (contains_char COLON) (path_segments Windows path)))
     || negb (uri_starts_with descendant self)
  then Err (JoinPathMustBeDescendant path) else Ok descendant.

(** [PathUri::to_abs_path] on Unix; an opaque URI must be the one its path is given. *)
Definition to_abs_path (env : PathEnv) (self : Url) : res PathUriParseError AbsolutePathBuf :=
  let invalid := Err (InvalidFileUriPath (url_as_str self)) in
  if negb (bool_decide (infer_path_convention self = Some native_convention)) then invalid
  else
    match decode_bad_path_uri self with
    | Some path_bytes =>
        match from_utf8 path_bytes with
        | Utf8Ok decoded_path =>
            match from_absolute_path_checked env decoded_path with
            | Ok path =>
                match from_abs_path (path_string path) with
                | Ok uri => if uri_eq uri self then Ok path else invalid
                | _ => Panic
                end
            | _ => invalid
            end
        | Utf8Err _ _ => invalid
        end
    | None =>
        match url_to_file_path self with
        | None => invalid
        | Some path =>
            match from_absolute_path_checked env path with Ok path => Ok path | _ => invalid end
        end
    end.

(** [PathUri::from_host_native_path]. *)
Definition from_host_native_path (env : PathEnv) (path : rstr) : res PathUriParseError Url :=
  match from_absolute_path_checked env path with
  | Ok path => from_abs_path (path_string path)
  | _ => Err (InvalidFileUriPath path)
  end.

End PathUri.

(** ** What the code relies on *)

(** The characters that no URL encodes: letters, digits and [-._~]. *)
Definition is_unreserved (c : char) : bool :=
  is_ascii_alphabetic c || is_ascii_digit c || existsb (Z.eqb c) (lit "-._~").

(** A file name that a URL spells as it is. *)
Definition plain_name (n : rstr) : bool :=
  nonempty n && forallb is_unreserved n && negb (streq n (lit ".")) && negb (streq n (lit "..")).

(** All of a URL but its path. *)
Definition same_frame `{UrlCrate Url} (u v : Url) : Prop :=
  url_scheme u = url_scheme v /\ url_username u = url_username v /\ url_password u = url_password v /\
  url_host_str u = url_host_str v /\ url_port u = url_port v /\
  url_query u = url_query v /\ url_fragment u = url_fragment v.

Definition last_removed {A} (l : list A) : list A := take (length l - 1) l.

(** The segments of the URL of a path with these (encoded) names. *)
Definition to_segs (ns : list rstr) : list rstr := match ns with [] => [[]] | _ => ns end.

(** The documented behaviour of the crates, for URLs with a hierarchical path (which
    every [file:] URL has). *)
Class UrlLaws (Url : Type) `{UrlCrate Url} := {
  (** The path of a [file:] URL is [/] and its segments between [/]s, none of which is lost. *)
  law_file_segments u : url_scheme u = FILE_SCHEME -> is_Some (url_segments u);
  law_path u segs :
    url_segments u = Some segs -> url_path u = SLASH :: join [SLASH] segs /\ segs ≠ [] /\ Forall (fun s => SLASH ∉ s) segs;
  law_pop u segs :
    url_segments u = Some segs ->
    same_frame (segs_pop u) u /\
    url_segments (segs_pop u) = Some (if (length segs <=? 1)%nat then [[]] else last_removed segs);
  law_pop_if_empty u segs :
    url_segments u = Some segs ->
    same_frame (segs_pop_if_empty u) u /\
    url_segments (segs_pop_if_empty u) =
      Some (if (1 <? length segs)%nat && bool_decide (last segs = Some []) then last_removed segs else segs);
  law_push u segs n :
    url_segments u = Some segs -> plain_name n = true \/ n = [] ->
    same_frame (segs_push u n) u /\
    url_segments (segs_push u n) = Some (if bool_decide (segs = [[]]) then [n] else segs ++ [n]);
  law_clear u segs :
    url_segments u = Some segs -> same_frame (segs_clear u) u /\ url_segments (segs_clear u) = Some [[]];
  (** The URL that every local path starts from. *)
  law_root : exists u, url_parse (lit "file:///") = Some u /\ url_segments u = Some [[]] /\
    url_scheme u = FILE_SCHEME /\ url_username u = [] /\ url_password u = None /\ url_host_str u = None /\
    url_port u = None /\ url_query u = None /\ url_fragment u = None;
  (** Removing the host changes nothing else. *)
  law_unset_host u v :
    url_set_host u None = Some v ->
    url_host_str v = None /\ url_segments v = url_segments u /\ url_path v = url_path u /\
    url_scheme v = url_scheme u /\ url_username v = url_username u /\ url_password v = url_password u /\
    url_port v = url_port u /\ url_query v = url_query u /\ url_fragment v = url_fragment u;
  (** A path in which one letter is written in upper case is as valid as it was. *)
  law_set_path u a c b :
    url_path u = a ++ c :: b -> is_ascii_alphabetic c = true ->
    same_frame (url_set_path u (a ++ ascii_upper c :: b)) u /\
    url_path (url_set_path u (a ++ ascii_upper c :: b)) = a ++ ascii_upper c :: b;
  (** Percent-decoding: text without [%] is itself, no escape reaches over a [/], [%00]
      is a null byte, and the case of a letter does not make one. *)
  law_decode_plain s : 37%Z ∉ s -> Forall scalar s -> decode_binary s = encode_all s;
  law_decode_slash a b : decode_binary (a ++ SLASH :: b) = decode_binary a ++ SLASH :: decode_binary b;
  law_decode_nul : decode_binary (lit "%00") = [NUL];
  law_decode_upper a c b : NUL ∈ decode_binary (a ++ ascii_upper c :: b) -> NUL ∈ decode_binary (a ++ c :: b);
  (** A [file:] URL can lose its host. *)
  law_unset_host_ok u : url_scheme u = FILE_SCHEME -> is_Some (url_set_host u None);
  (** URL-safe base64 has no [/], can be decoded, and stands for itself in a URL. *)
  law_b64 bs : Forall byte_ok bs ->
    b64_decode (b64_encode bs) = Some bs /\ SLASH ∉ b64_encode bs /\ (bs ≠ [] -> b64_encode bs ≠ []);
  law_parse_opaque bs : Forall byte_ok bs -> exists u,
    url_parse (BAD_PATH_URI_PREFIX ++ b64_encode bs) = Some u /\ url_as_str u = BAD_PATH_URI_PREFIX ++ b64_encode bs /\
    url_scheme u = FILE_SCHEME /\ url_username u = [] /\ url_password u = None /\ url_port u = None /\
    url_query u = None /\ url_fragment u = None;
  (** Local paths with names that need no escapes are converted as they are written. *)
  law_from_file_path ns : Forall (fun n => plain_name n = true) ns -> exists u,
    url_from_file_path (path_string (RootDir :: map Normal ns)) = Some u /\ url_segments u = Some (to_segs ns) /\
    url_scheme u = FILE_SCHEME /\ url_username u = [] /\ url_password u = None /\ url_host_str u = None /\
    url_port u = None /\ url_query u = None /\ url_fragment u = None;
  law_to_file_path u segs :
    url_host_str u = None -> url_segments u = Some segs -> Forall (fun s => s = [] \/ plain_name s = true) segs ->
    url_to_file_path u = Some (SLASH :: join [SLASH] segs);
  (** The text of a URL without query and fragment ends in its path. *)
  law_as_str u e :
    url_query u = None -> url_fragment u = None -> url_as_str u = BAD_PATH_URI_PREFIX ++ e ->
    url_host_str u = None /\ url_segments u = Some ([lit "%00"; lit "bad"; lit "path"] ++ split_char SLASH e);
}.

(** The URIs that [TryFrom<Url>] lets through. *)
Record valid_uri `{UrlCrate Url} (u : Url) : Prop := {
  vu_scheme : url_scheme u = FILE_SCHEME;
  vu_username : url_username u = [];
  vu_password : url_password u = None;
  vu_port : url_port u = None;
  vu_query : url_query u = None;
  vu_fragment : url_fragment u = None;
  vu_host : url_host_str u ≠ Some (lit "localhost");
  vu_nul : NUL ∉ decode_binary (url_path u) \/ is_opaque u = true;
}.

Section Laws.
Context {Url : Type} `{Hlaws : UrlLaws Url}.
Set Default Proof Using "Type*".
Implicit Types (u v w : Url).

Lemma is_opaque_spec u : is_opaque u = true <-> exists bs, decode_bad_path_uri u = Some bs.
Proof. unfold is_opaque, opaque_fallback_bytes, is_Some. apply bool_decide_eq_true. Qed.

Lemma is_opaque_false u : is_opaque u = false <-> decode_bad_path_uri u = None.
Proof. unfold is_opaque, opaque_fallback_bytes. rewrite bool_decide_eq_false. destruct (decode_bad_path_uri u); naive_solver. Qed.

Lemma decode_bad_path_uri_Some u bs :
  decode_bad_path_uri u = Some bs -> exists e, url_as_str u = BAD_PATH_URI_PREFIX ++ e /\ SLASH ∉ e /\ e ≠ [].
Proof.
  unfold decode_bad_path_uri. intros Hd.
  destruct (strip_prefix _ _) as [e|] eqn:E; [|done]. apply strip_prefix_Some in E. simpl in Hd.
  destruct (is_empty e || contains_char SLASH e) eqn:Ee; [done|]. bool_prop.
  exists e. split; [done|]. split; [by apply contains_char_false|by apply is_empty_false].
Qed.

(** An opaque URI is spelled with a null in its first segment. *)
Lemma opaque_segments u :
  url_query u = None -> url_fragment u = None -> is_opaque u = true ->
  url_host_str u = None /\ exists e, url_segments u = Some [lit "%00"; lit "bad"; lit "path"; e].
Proof.
  intros Hq Hf Ho. apply is_opaque_spec in Ho as (bs & Hbs).
  destruct (decode_bad_path_uri_Some u bs Hbs) as (e & He & Hs & _).
  destruct (law_as_str u e Hq Hf He) as [Hh Hsegs]. split; [done|]. exists e. rewrite Hsegs.
  by rewrite (split_char_no_sep _ e Hs).
Qed.

(** The bytes of a path are those of its segments, between [/]s. *)
Lemma decode_join_nul segs :
  segs ≠ [] -> NUL ∈ decode_binary (join [SLASH] segs) <-> exists s, s ∈ segs /\ NUL ∈ decode_binary s.
Proof.
  induction segs as [|s segs IH]; intros Hne; [done|].
  destruct segs as [|t segs]; [simpl; set_solver|].
  change (join [SLASH] (s :: t :: segs)) with (s ++ SLASH :: join [SLASH] (t :: segs)).
  rewrite law_decode_slash, elem_of_app, elem_of_cons, (IH ltac:(done)). split.
  - intros [Hs|[Hs|(x & Hx & Hn)]]; [exists s; set_solver|done|exists x; set_solver].
  - intros (x & Hx & Hn). rewrite elem_of_cons in Hx. destruct Hx as [->|Hx]; [by left|].
    right. right. by exists x.
Qed.

Lemma path_nul u segs :
  url_segments u = Some segs ->
  NUL ∈ decode_binary (url_path u) <-> exists s, s ∈ segs /\ NUL ∈ decode_binary s.
Proof.
  intros Hs. destruct (law_path u segs Hs) as (-> & Hne & _).
  rewrite <- (decode_join_nul segs Hne). change (SLASH :: ?x) with ([] ++ SLASH :: x).
  rewrite (law_decode_slash [] (join [SLASH] segs)), (law_decode_plain []) by (set_solver || constructor).
  change (encode_all []) with (@nil Z). simpl. rewrite elem_of_cons. split; [by intros [?|?]|by right].
Qed.

Lemma nul_free_not_opaque u :
  url_query u = None -> url_fragment u = None -> NUL ∉ decode_binary (url_path u) -> is_opaque u = false.
Proof.
  intros Hq Hf Hn. apply not_true_iff_false. intros Ho.
  destruct (opaque_segments u Hq Hf Ho) as (_ & e & Hs). apply Hn, (path_nul u _ Hs).
  exists (lit "%00"). split; [set_solver|]. rewrite law_decode_nul. set_solver.
Qed.

Lemma leading_slashes_app path :
  let '(a, b) := leading_slashes path in path = a ++ b /\ Forall (eq SLASH) a.
Proof.
  induction path as [|c path IH]; simpl; [done|]. destruct (Z.eqb_spec c SLASH) as [->|]; [|done].
  destruct (leading_slashes path) as [a b]. destruct IH as [-> Ha]. split; [done|by constructor].
Qed.

Lemma drive_segment_alpha c s : is_windows_drive_uri_segment (c :: s) = true -> is_ascii_alphabetic c = true.
Proof. unfold is_windows_drive_uri_segment. intros Hd. repeat case_match; try done; by bool_prop. Qed.

(** The drive letter is the only thing the last step of [TryFrom] changes. *)
Lemma drive_letter_cases u :
  with_normalized_windows_drive_letter u = u \/
  exists a c b, url_path u = a ++ c :: b /\ Forall (eq SLASH) a /\ is_ascii_alphabetic c = true /\
    with_normalized_windows_drive_letter u = url_set_path u (a ++ ascii_upper c :: b).
Proof.
  unfold with_normalized_windows_drive_letter. destruct (url_host_str u) eqn:Hh; [by left|].
  pose proof (leading_slashes_app (url_path u)) as Happ. destruct (leading_slashes (url_path u)) as [a rest].
  destruct Happ as [Happ Ha]. destruct rest as [|c rest]; [by left|]. destruct (head _) as [drive|] eqn:Hd; [|by left].
  case_match eqn:E; [by left|]. apply orb_false_iff in E as [Ed _]. apply negb_false_iff in Ed.
  right. exists a, c, rest. split; [done|]. split; [done|]. split; [|done].
  assert (exists t, drive = c :: t) as (t & ->); [|by eapply drive_segment_alpha].
  simpl in Hd. destruct (Z.eqb_spec c SLASH) as [->|]; [by injection Hd as <-|].
  destruct (split_char SLASH rest); injection Hd as <-; eauto.
Qed.

Lemma same_frame_valid u v :
  valid_uri u -> same_frame v u -> NUL ∉ decode_binary (url_path v) -> valid_uri v.
Proof. intros [? ? ? ? ? ? ? _] (? & ? & ? & ? & ? & ? & ?) Hn. constructor; try congruence. by left. Qed.

Lemma validate_file_url_ok u :
  validate_file_url u = Ok tt ->
  url_username u = [] /\ url_password u = None /\ url_port u = None /\ url_query u = None /\
  url_fragment u = None /\ (NUL ∉ decode_binary (url_path u) \/ is_opaque u = true).
Proof.
  unfold validate_file_url, validate_common_known_uri, nonempty. intros Hv.
  destruct (url_username u); [|done]. destruct (url_password u); [done|]. destruct (url_port u); [done|].
  destruct (url_query u); [done|]. destruct (url_fragment u); [done|]. simpl in Hv.
  repeat (split; [done|]). destruct (is_opaque u); [by right|]. left.
  apply contains_char_false. unfold contains_char. by destruct (existsb _ _).
Qed.

Lemma valid_with_drive u : valid_uri u -> valid_uri (with_normalized_windows_drive_letter u).
Proof.
  intros Hu. destruct (drive_letter_cases u) as [->|(a & c & b & Hp & Ha & Hc & ->)]; [done|].
  destruct (law_set_path u a c b Hp Hc) as [Hframe Hpath]. apply (same_frame_valid u); [done..|].
  rewrite Hpath. intros Hn. apply law_decode_upper in Hn. rewrite <- Hp in Hn.
  destruct (vu_nul u Hu) as [Hfree|Ho]; [done|].
  destruct (opaque_segments u) as (_ & e & Hs); [apply Hu..|done|].
  destruct (law_path u _ Hs) as (Hpath' & _). rewrite Hp in Hpath'.
  destruct a as [|a1 [|a2 a]]; simplify_eq/=.
  apply Forall_cons in Ha as [_ Ha]. by apply Forall_cons in Ha as [Hpct _].
Qed.

(** Whatever passes [TryFrom<Url>] is valid. *)
Lemma try_from_url_ok u v : try_from_url u = Ok v -> valid_uri v.
Proof.
  unfold try_from_url. intros Hv.
  destruct (streq (url_scheme u) FILE_SCHEME) eqn:Hs; [|done]. apply streq_true in Hs. simpl in Hv.
  destruct (validate_file_url u) as [[]| |] eqn:Hval; [|done..]. simpl in Hv.
  apply validate_file_url_ok in Hval as (Hn & Hpw & Hport & Hq & Hf & Hnul).
  unfold without_localhost_authority in Hv. case_bool_decide as Hh.
  - unfold or_panic in Hv. destruct (url_set_host u None) as [w|] eqn:Hw; [|done]. simpl in Hv. injection Hv as <-.
    destruct (law_unset_host u w Hw) as (Hh' & _ & Hp & ? & ? & ? & ? & ? & ?).
    apply valid_with_drive. constructor; try congruence. left. rewrite Hp.
    destruct Hnul as [|Ho]; [done|]. destruct (opaque_segments u Hq Hf Ho) as [? _]. congruence.
  - simpl in Hv. injection Hv as <-. by apply valid_with_drive.
Qed.

Lemma valid_segments u : valid_uri u -> is_Some (url_segments u).
Proof. intros Hu. apply law_file_segments, Hu. Qed.

(** ** Parents *)

(** The segments after [pop_if_empty] and [pop]. *)
Lemma parent_segments u segs :
  url_segments u = Some segs ->
  let v := segs_pop (segs_pop_if_empty u) in
  same_frame v u /\ exists segs', url_segments v = Some segs' /\
    (segs' = [[]] \/ exists gone, gone ≠ [] /\ segs' ≠ [] /\ segs = segs' ++ gone).
Proof.
  intros Hs v. destruct (law_pop_if_empty u segs Hs) as [Hf1 Hs1].
  match type of Hs1 with _ = Some ?x => set (l := x) in Hs1 end.
  assert (exists g, segs = l ++ g) as (g & Hg).
  { subst l. case_match; [|by exists []; rewrite app_nil_r].
    exists (drop (length segs - 1) segs). unfold last_removed. by rewrite take_drop. }
  clearbody l. destruct (law_pop _ _ Hs1) as [Hf2 Hs2]. split.
  { subst v. unfold same_frame in *. destruct_and!. repeat split; congruence. }
  eexists; split; [exact Hs2|]. destruct (Nat.leb_spec (length l) 1) as [|El]; [by left|]. right.
  exists (drop (length l - 1) l ++ g). split; [|split].
  - intros E. apply app_nil in E as [E _]. apply (f_equal length) in E. rewrite length_drop in E. simpl in E. lia.
  - intros E. apply (f_equal length) in E. unfold last_removed in E. rewrite length_take in E. simpl in E. lia.
  - rewrite app_assoc. unfold last_removed. by rewrite take_drop.
Qed.

Lemma uri_parent_segments u p :
  uri_parent u = Some p -> exists segs, url_segments u = Some segs /\ is_opaque u = false /\
    p = segs_pop (segs_pop_if_empty u).
Proof.
  unfold uri_parent. intros Hp. destruct (is_opaque u) eqn:Ho; [done|].
  destruct (infer_path_convention u); [|done]. simpl in Hp. destruct (url_segments u) as [segs|]; [|done].
  simpl in Hp. case_match; [done|]. injection Hp as <-. by exists segs.
Qed.

Lemma decode_nil : decode_binary [] = [].
Proof. rewrite law_decode_plain; [done|set_solver|constructor]. Qed.

(** A parent is valid, and is not opaque. *)
Lemma parent_valid u p :
  valid_uri u -> uri_parent u = Some p -> valid_uri p /\ is_opaque p = false.
Proof.
  intros Hu Hp. destruct (uri_parent_segments u p Hp) as (segs & Hs & Ho & ->).
  destruct (parent_segments u segs Hs) as (Hframe & segs' & Hs' & Hcase).
  assert (NUL ∉ decode_binary (url_path (segs_pop (segs_pop_if_empty u)))) as Hn.
  { rewrite (path_nul _ _ Hs'). intros (s & Hin & Hnul).
    destruct Hcase as [->|(gone & _ & _ & ->)].
    - apply list_elem_of_singleton in Hin as ->. rewrite decode_nil in Hnul. set_solver.
    - destruct (vu_nul u Hu) as [Hfree|]; [|congruence]. apply Hfree, (path_nul u _ Hs).
      exists s. set_solver. }
  split; [by apply (same_frame_valid u)|]. destruct Hframe as (_ & _ & _ & _ & _ & Hq & Hf).
  apply nul_free_not_opaque; [|..|done]; [rewrite Hq; apply Hu|rewrite Hf; apply Hu].
Qed.

(** Every parent leaves fewer segments, or the empty path, which has no parent. *)
Lemma parent_decreases u p segs :
  url_segments u = Some segs -> uri_parent u = Some p ->
  exists segs', url_segments p = Some segs' /\ (segs' = [[]] \/ (length segs' < length segs)%nat).
Proof.
  intros Hs Hp. destruct (uri_parent_segments u p Hp) as (segs0 & Hs0 & _ & ->).
  destruct (parent_segments u segs Hs) as (_ & segs' & Hs' & Hcase). exists segs'. split; [done|].
  destruct Hcase as [->|(gone & Hg & _ & ->)]; [by left|]. right. rewrite length_app.
  destruct gone; [done|]. simpl. lia.
Qed.

Lemma root_no_parent u : url_segments u = Some [[]] -> uri_parent u = None.
Proof.
  intros Hs. unfold uri_parent. case_match; [done|]. destruct (infer_path_convention u) as [c|]; [|done].
  by rewrite Hs.
Qed.
Lemma ancestors_fuel_complete fuel u segs :
  url_segments u = Some segs -> segs = [[]] \/ (length segs <= fuel)%nat ->
  exists r, last (ancestors_fuel fuel u) = Some r /\ uri_parent r = None.
Proof.
  revert u segs. induction fuel as [|fuel IH]; intros u segs Hs Hlen.
  - exists u. split; [done|]. destruct (law_path u segs Hs) as (_ & Hne & _).
    destruct Hlen as [->|Hlen]; [by apply root_no_parent|]. destruct segs; simpl in *; [done|lia].
  - simpl. destruct (uri_parent u) as [p|] eqn:Hp; [|by exists u].
    destruct (parent_decreases u p segs Hs Hp) as (segs' & Hs' & Hlt).
    destruct (IH p segs' Hs') as (r & Hr & Hnone).
    { destruct Hlt as [->|Hlt]; [by left|]. right.
      destruct Hlen as [->|]; [|lia]. rewrite root_no_parent in Hp by done. done. }
    exists r. split; [|done]. destruct (ancestors_fuel fuel p) as [|x l] eqn:E; [done|].
    by rewrite last_cons_cons.
Qed.

Lemma ancestors_fuel_chain fuel u i a b :
  ancestors_fuel fuel u !! i = Some a -> ancestors_fuel fuel u !! S i = Some b -> uri_parent a = Some b.
Proof.
  revert u i. induction fuel as [|fuel IH]; intros u i Ha Hb; simpl in *; [done|].
  destruct (uri_parent u) as [p|] eqn:Hp; [|done].
  destruct i as [|i]; simplify_eq/=; [|by eapply IH].
  destruct fuel; simpl in Hb; by simplify_eq/=.
Qed.

Lemma ancestors_fuel_valid fuel u : valid_uri u -> Forall valid_uri (ancestors_fuel fuel u).
Proof.
  revert u. induction fuel as [|fuel IH]; intros u Hu; simpl; constructor; try done.
  destruct (uri_parent u) as [p|] eqn:Hp; [|done]. apply IH. by eapply parent_valid.
Qed.

(** ** The names of a POSIX path *)

(** The decoded names a POSIX URI goes through, when it exposes them: the list that
    containment, depth and joins are about. *)
Definition posix_names u : option (list (list Z)) :=
  if is_opaque u then None
  else if bool_decide (infer_path_convention u = Some Posix)
  then map decode_binary <$> containment_path_segments u Posix
  else None.

Lemma posix_names_Some u nu :
  posix_names u = Some nu ->
  is_opaque u = false /\ infer_path_convention u = Some Posix /\ url_host_str u = None /\
  exists segs, containment_path_segments u Posix = Some segs /\ nu = map decode_binary segs.
Proof.
  unfold posix_names. intros Hn. destruct (is_opaque u) eqn:Ho; [done|]. case_bool_decide as Hi; [|done].
  apply fmap_Some in Hn as (segs & Hs & ->). split; [done|]. split; [done|]. split; [|by exists segs].
  unfold infer_path_convention, opaque_fallback_bytes in Hi. apply is_opaque_false in Ho. rewrite Ho in Hi.
  by destruct (url_host_str u).
Qed.

Lemma lexical_depth_posix u nu : posix_names u = Some nu -> lexical_depth u = Some (length nu).
Proof.
  intros Hn. destruct (posix_names_Some u nu Hn) as (Ho & Hi & _ & segs & Hs & ->).
  unfold lexical_depth. rewrite Ho, Hi. simpl. rewrite Hs. simpl. by rewrite length_map.
Qed.

Lemma uri_eq_posix u v : infer_path_convention u = Some Posix -> uri_eq u v = bool_decide (u = v).
Proof.
  intros Hi. unfold uri_eq, windows_identity_path_bytes at 1. rewrite Hi. simpl. apply orb_false_r.
Qed.

Lemma native_start_posix ps bs :
  native_path_segments_start_with ps bs Posix = true <-> map decode_binary bs `prefix_of` map decode_binary ps.
Proof.
  unfold native_path_segments_start_with. revert ps. induction bs as [|b bs IH]; intros ps; simpl.
  - split; [intros _; apply prefix_nil|]. intros _. by destruct ps.
  - destruct ps as [|p ps]; simpl; [split; [done|]; intros H1; by apply prefix_nil_not in H1|].
    specialize (IH ps). rewrite !andb_true_iff in *. rewrite bool_decide_eq_true. split.
    + intros (Hl & Hpb & Hf). rewrite Hpb. apply prefix_cons, IH. by split.
    + intros Hp. apply prefix_cons_inv_1 in Hp as Hpb. apply prefix_cons_inv_2, IH in Hp as [Hl Hf]. by repeat split.
Qed.

(** Containment of POSIX URIs is the prefix order on their names. *)
Lemma starts_with_posix u b nu :
  posix_names u = Some nu ->
  uri_starts_with u b = true <-> exists nb, posix_names b = Some nb /\ nb `prefix_of` nu.
Proof.
  intros Hu. destruct (posix_names_Some u nu Hu) as (Ho & Hi & Hh & segs & Hs & ->).
  unfold uri_starts_with. rewrite (uri_eq_posix u b Hi). case_bool_decide as Heq.
  { subst b. split; [|done]. intros _. by exists (map decode_binary segs). }
  rewrite Ho, Hi, Hh. simpl. rewrite Hs. split.
  - intros Hsw. destruct (is_opaque b) eqn:Hob; [done|]. simpl in Hsw.
    case_bool_decide as Hhb; [|done]. simpl in Hsw. case_bool_decide as Hib; [|done]. simpl in Hsw.
    destruct (containment_path_segments b Posix) as [bs|] eqn:Hbs; [|done].
    exists (map decode_binary bs). split; [|by apply native_start_posix].
    unfold posix_names. rewrite Hob, <- Hib, Hbs. by rewrite bool_decide_true.
  - intros (nb & Hb & Hpre). destruct (posix_names_Some b nb Hb) as (Hob & Hib & Hhb & bs & Hbs & ->).
    rewrite Hob, Hhb, Hib, Hbs. simpl. by apply native_start_posix.
Qed.
End Laws.
