(* ===== verification/PathUriJoin.v ===== *)
(** * Joins and parents of POSIX path URIs

    The lexical operations of [path-uri/src/lib.rs] in terms of the names a POSIX URI
    goes through: [join] resolves [.] and [..] like [AbsolutePathBuf::join] does,
    [parent] drops a name, and the ancestors end at the root. Names are limited to the
    characters no URL encodes, so that the theorems do not depend on the percent
    encoding of the [url] crate. *)
From S2P Require Import Prelude AbsPath StreamText InlineTag Utf8Stream PathUri.

Set Default Goal Selector "!".

(** One component of a relative path, on the names walked so far. *)
Definition join_name (ns : list rstr) (component : rstr) : list rstr :=
  if is_empty component || streq component (lit ".") then ns
  else if streq component (lit "..") then last_removed ns
  else ns ++ [component].

(** A component that [join] can be given: skipped, a parent or a plain name. *)
Definition plain_component (c : rstr) : bool :=
  is_empty c || streq c (lit ".") || streq c (lit "..") || plain_name c.

Lemma plain_name_spec n :
  plain_name n = true ->
  n ≠ [] /\ n ≠ lit "." /\ n ≠ lit ".." /\
  Forall (fun c => (33 <= c < 128)%Z /\ c ≠ 37%Z /\ c ≠ SLASH /\ c ≠ BACKSLASH /\ c ≠ COLON) n.
Proof.
  unfold plain_name, nonempty. intros H. bool_prop.
  split; [by apply is_empty_false|]. split; [done|]. split; [done|].
  apply Forall_forall. intros c Hc.
  assert (is_unreserved c = true) as Hu by (eapply forallb_forall; [done|by apply list_elem_of_In]).
  unfold is_unreserved, is_ascii_alphabetic, is_ascii_digit in Hu. unfold SLASH, BACKSLASH, COLON.
  change (lit "-._~") with [45; 46; 95; 126]%Z in Hu. cbn [existsb] in Hu. lia.
Qed.

Definition relative_path (s : rstr) : Prop :=
  s ≠ [] /\ is_absolute s = false /\ Forall (fun c => plain_component c = true) (split_char SLASH s).

Lemma plain_component_no_nul c : plain_component c = true -> NUL ∉ c.
Proof.
  unfold plain_component. intros Hc Hin.
  repeat (apply orb_true_iff in Hc as [Hc|Hc]); [apply is_empty_true in Hc| | |].
  - set_solver.
  - apply streq_true in Hc as ->. apply list_elem_of_In in Hin. by destruct Hin as [|[]].
  - apply streq_true in Hc as ->. apply list_elem_of_In in Hin. by destruct Hin as [|[|[]]].
  - destruct (plain_name_spec c Hc) as (_ & _ & _ & Hall). apply (proj1 (Forall_forall _ _) Hall) in Hin.
    unfold NUL in Hin. lia.
Qed.

Lemma split_char_elem c d s : d ≠ c -> d ∈ s -> exists p, p ∈ split_char c s /\ d ∈ p.
Proof.
  intros Hd. induction s as [|e s IH]; intros Hin; [set_solver|]. simpl.
  rewrite elem_of_cons in Hin. destruct (Z.eqb_spec e c) as [->|He].
  - destruct Hin as [->|Hin]; [done|]. destruct (IH Hin) as (p & Hp & Hdp). exists p. set_solver.
  - destruct (split_char c s) as [|q qs]; [destruct Hin as [->|Hin]; [exists [e]; set_solver|]|].
    + destruct (IH Hin) as (p & Hp & _). set_solver.
    + destruct Hin as [->|Hin]; [exists (e :: q); set_solver|].
      destruct (IH Hin) as (p & Hp & Hdp). rewrite elem_of_cons in Hp. destruct Hp as [->|Hp].
      * exists (e :: q). set_solver.
      * exists p. set_solver.
Qed.

Lemma components_no_nul s :
  Forall (fun c => plain_component c = true) (split_char SLASH s) -> contains_char NUL s = false.
Proof.
  intros Hall. apply contains_char_false. intros Hin.
  destruct (split_char_elem SLASH NUL s) as (p & Hp & Hn); [done..|].
  apply (proj1 (Forall_forall _ _) Hall) in Hp. by apply (plain_component_no_nul p).
Qed.

Lemma encode_all_ascii n : Forall (fun c => (0 <= c < 128)%Z) n -> encode_all n = n.
Proof.
  induction 1 as [|c n Hc _ IH]; [done|]. unfold encode_all in *. simpl. rewrite IH.
  unfold encode. by rewrite (proj2 (Z.ltb_lt c 128)) by lia.
Qed.

Lemma last_removed_length {A} (l : list A) : length (last_removed l) = length l - 1.
Proof. unfold last_removed. rewrite length_take. lia. Qed.

Lemma plain_not_drive n : plain_name n = true -> is_windows_drive_uri_segment n = false.
Proof.
  intros Hn. destruct (plain_name_spec n Hn) as (_ & _ & _ & Hall).
  unfold is_windows_drive_uri_segment. repeat case_match; try done; subst.
  - rewrite !Forall_cons in Hall. rewrite (proj2 (Z.eqb_neq _ COLON)) by naive_solver. done.
  - rewrite !Forall_cons in Hall. rewrite (proj2 (Z.eqb_neq _ 37)) by naive_solver. done.
Qed.

Lemma filter_to_segs ns tl :
  Forall (fun n => n ≠ []) ns -> tl = [] \/ tl = [[]] -> List.filter nonempty (ns ++ tl) = ns.
Proof.
  intros Hall Htl. rewrite List.filter_app. destruct Htl as [->| ->]; simpl; rewrite app_nil_r;
    (induction Hall as [|n ns Hn _ IH]; [done|]; simpl; destruct n; [done|]; simpl; by rewrite IH).
Qed.

Lemma find_filter {A} (p : A -> bool) l : List.find p l = head (List.filter p l).
Proof. induction l as [|x l IH]; [done|]. simpl. by destruct (p x). Qed.

Lemma encode_all_nonempty s : s ≠ [] -> encode_all s ≠ [].
Proof. destruct s as [|c s]; [done|]. intros _. unfold encode_all. simpl. unfold encode. by repeat case_match. Qed.

Lemma utf16_units_ok c : scalar c -> Forall (fun w => 0 <= w < 65536)%Z (utf16_units c) /\ utf16_units c ≠ [].
Proof.
  unfold scalar, utf16_units. intros Hc. case_match; bool_prop; (split; [repeat constructor; div_lia|done]).
Qed.

Lemma utf16_le_bytes s : Forall scalar s -> Forall byte_ok (utf16_le s).
Proof.
  unfold utf16_le. induction 1 as [|c s Hc _ IH]; [constructor|]. simpl. rewrite map_app, concat_app.
  apply Forall_app. split; [|done]. destruct (utf16_units_ok c Hc) as [Hu _].
  induction Hu as [|w ws Hw _ IHw]; [constructor|]. simpl.
  repeat constructor; [..|exact IHw]; unfold byte_ok; div_lia.
Qed.

Lemma utf16_le_nonempty s : s ≠ [] -> Forall scalar s -> utf16_le s ≠ [].
Proof.
  intros Hne Hs. destruct Hs as [|c s Hc Hs]; [done|]. unfold utf16_le. simpl.
  destruct (utf16_units_ok c Hc) as [_ Hu]. by destruct (utf16_units c).
Qed.

Section Joins.
Context {Url : Type} `{Hlaws : UrlLaws Url}.
Set Default Proof Using "Type*".
Implicit Types (u v w : Url).

Lemma decode_plain_name n : plain_name n = true -> decode_binary n = n.
Proof.
  intros Hn. destruct (plain_name_spec n Hn) as (_ & _ & _ & Hall).
  rewrite law_decode_plain.
  - apply encode_all_ascii. eapply Forall_impl; [exact Hall|]. simpl. lia.
  - intros Hin. apply (proj1 (Forall_forall _ _) Hall) in Hin. lia.
  - eapply Forall_impl; [exact Hall|]. simpl. unfold scalar. lia.
Qed.

(** Names that a POSIX URI may hold: none is empty or hides a separator or a null, and
    the first one is not a drive. *)
Definition good_names (ns : list rstr) : Prop :=
  Forall (fun n => n ≠ [] /\ NUL ∉ decode_binary n /\ SLASH ∉ decode_binary n /\ SLASH ∉ n) ns /\
  forall n, head ns = Some n -> is_windows_drive_uri_segment n = false.

Lemma good_names_push ns n : good_names ns -> plain_name n = true -> good_names (ns ++ [n]).
Proof.
  intros [Hall Hhd] Hn. destruct (plain_name_spec n Hn) as (Hne & _ & _ & Hc). split.
  - apply Forall_app. split; [done|]. apply Forall_singleton. rewrite (decode_plain_name n Hn).
    split; [done|]. split_and!; intros Hin; apply (proj1 (Forall_forall _ _) Hc) in Hin; unfold NUL in *; naive_solver lia.
  - intros x Hx. destruct ns as [|y ns]; simplify_eq/=; [by apply plain_not_drive|by apply Hhd].
Qed.

Lemma good_names_take ns k : good_names ns -> good_names (take k ns).
Proof.
  intros [Hall Hhd]. split; [by apply Forall_take|].
  by destruct ns as [|n ns], k.
Qed.

(** A POSIX URI and its names; the URL may end in one [/]. *)
Record at_names u (ns : list rstr) : Prop := {
  an_valid : valid_uri u;
  an_host : url_host_str u = None;
  an_good : good_names ns;
  an_segments : url_segments u = Some (to_segs ns) \/ ns ≠ [] /\ url_segments u = Some (ns ++ [[]]);
}.

Lemma at_names_filter u ns : at_names u ns -> exists segs, url_segments u = Some segs /\ List.filter nonempty segs = ns.
Proof.
  intros [_ _ [Hall _] Hs]. assert (Forall (fun n => n ≠ []) ns) as Hne by (eapply Forall_impl; [exact Hall|]; naive_solver).
  destruct Hs as [Hs|[_ Hs]]; eexists; (split; [exact Hs|]).
  - destruct ns as [|n ns]; [done|]. rewrite <- (app_nil_r (to_segs _)). apply filter_to_segs; [done|by left].
  - apply filter_to_segs; [done|by right].
Qed.

Lemma at_names_nul_free u ns : at_names u ns -> NUL ∉ decode_binary (url_path u).
Proof.
  intros Hu. destruct (at_names_filter u ns Hu) as (segs & Hs & Hf). rewrite (path_nul u segs Hs).
  intros (s & Hin & Hn). destruct s as [|c s]; [rewrite decode_nil in Hn; set_solver|].
  assert (c :: s ∈ ns) as Hns.
  { rewrite <- Hf. apply list_elem_of_In, List.filter_In. split; [by apply list_elem_of_In|done]. }
  apply (proj1 (Forall_forall _ _) (proj1 (an_good u ns Hu))) in Hns. naive_solver.
Qed.

Lemma at_names_posix u ns : at_names u ns -> posix_names u = Some (map decode_binary ns).
Proof.
  intros Hu. pose proof (at_names_nul_free u ns Hu) as Hnul. destruct (at_names_filter u ns Hu) as (segs & Hs & Hf).
  assert (is_opaque u = false) as Ho by (apply nul_free_not_opaque; [apply Hu..|done]).
  assert (infer_path_convention u = Some Posix) as Hi.
  { unfold infer_path_convention, opaque_fallback_bytes. rewrite (proj1 (is_opaque_false u) Ho), (an_host u ns Hu), Hs.
    simpl. rewrite find_filter, Hf. destruct (head ns) as [n|] eqn:En; [|done].
    by rewrite (proj2 (an_good u ns Hu) n En). }
  unfold posix_names. rewrite Ho, Hi, bool_decide_true by done.
  unfold containment_path_segments. rewrite Hs. simpl. rewrite Hf.
  destruct (existsb _ ns) eqn:E; [|done]. apply existsb_exists in E as (n & Hin & Hn).
  apply existsb_exists in Hn as (c & Hc & Hsep). simpl in Hsep. apply Z.eqb_eq in Hsep as ->.
  apply list_elem_of_In in Hin, Hc. apply (proj1 (Forall_forall _ _) (proj1 (an_good u ns Hu))) in Hin. naive_solver.
Qed.

(** ** The operations on segments, on names *)

Lemma pop_names u ns :
  url_segments u = Some (to_segs ns) ->
  same_frame (segs_pop u) u /\ url_segments (segs_pop u) = Some (to_segs (last_removed ns)).
Proof.
  intros Hs. destruct (law_pop u _ Hs) as [Hf ->]. split; [done|]. f_equal.
  destruct ns as [|a [|b ns]]; [done..|]. cbn [to_segs].
  rewrite (proj2 (Nat.leb_gt (length (a :: b :: ns)) 1)) by (simpl; lia). by destruct ns.
Qed.

Lemma push_names u ns n :
  url_segments u = Some (to_segs ns) -> good_names ns -> plain_name n = true ->
  same_frame (segs_push u n) u /\ url_segments (segs_push u n) = Some (to_segs (ns ++ [n])).
Proof.
  intros Hs Hg Hn. destruct (law_push u _ n Hs (or_introl Hn)) as [Hf ->]. split; [done|]. f_equal.
  destruct ns as [|a ns]; [done|]. cbn [to_segs app]. rewrite bool_decide_false; [done|].
  intros [= -> ->]. destruct Hg as [Hall _]. apply Forall_cons in Hall. naive_solver.
Qed.

Lemma same_frame_trans u v w : same_frame u v -> same_frame v w -> same_frame u w.
Proof. unfold same_frame. intros. destruct_and!. repeat split; congruence. Qed.

Lemma same_frame_refl u : same_frame u u.
Proof. by repeat split. Qed.

(** One component of [join]. *)
Lemma join_step u ns c :
  plain_component c = true -> url_segments u = Some (to_segs ns) -> good_names ns ->
  exists u', join_component 0 (u, length ns) c = (u', length (join_name ns c)) /\ same_frame u' u /\
    url_segments u' = Some (to_segs (join_name ns c)) /\ good_names (join_name ns c).
Proof.
  intros Hc Hs Hg. unfold join_component, join_name, plain_component in *.
  destruct (is_empty c || streq c (lit ".")) eqn:Eskip.
  { exists u. split; [done|]. split; [apply same_frame_refl|done]. }
  cbn [orb] in Hc. destruct (streq c (lit "..")) eqn:Eup.
  - destruct (pop_names u ns Hs) as [Hf Hs'].
    destruct (Nat.ltb_spec 0 (length ns)) as [Hlt|Hle].
    + exists (segs_pop u). rewrite last_removed_length. split; [done|]. split; [done|]. split; [done|].
      by apply good_names_take.
    + destruct ns; [|simpl in Hle; lia]. exists u. split; [done|]. split; [apply same_frame_refl|done].
  - cbn [orb] in Hc. destruct (push_names u ns c Hs Hg Hc) as [Hf Hs']. exists (segs_push u c).
    rewrite length_app, Nat.add_comm. split; [done|]. split; [done|]. split; [done|]. by apply good_names_push.
Qed.

Lemma join_fold comps u ns :
  Forall (fun c => plain_component c = true) comps ->
  url_segments u = Some (to_segs ns) -> good_names ns ->
  exists u', (fold_left (join_component 0) comps (u, length ns)).1 = u' /\ same_frame u' u /\
    url_segments u' = Some (to_segs (fold_left join_name comps ns)) /\
    good_names (fold_left join_name comps ns).
Proof.
  intros Hc. revert u ns. induction Hc as [|c comps Hc _ IH]; intros u ns Hs Hg.
  { exists u. split; [done|]. split; [apply same_frame_refl|done]. }
  cbn [fold_left]. destruct (join_step u ns c Hc Hs Hg) as (u1 & -> & Hf1 & Hs1 & Hg1).
  destruct (IH u1 (join_name ns c) Hs1 Hg1) as (u2 & -> & Hf2 & Hs2 & Hg2).
  exists u2. split; [done|]. split; [by eapply same_frame_trans|done].
Qed.

(** No drive is named, so none is written in upper case. *)
Lemma drive_unchanged u ns tl :
  url_segments u = Some (ns ++ tl) -> good_names ns -> ns ≠ [] \/ tl = [[]] ->
  with_normalized_windows_drive_letter u = u.
Proof.
  intros Hs [Hall Hhd] Hne. unfold with_normalized_windows_drive_letter.
  destruct (url_host_str u); [done|]. destruct (law_path u _ Hs) as (-> & _ & Hsl).
  destruct ns as [|n ns].
  - by destruct Hne as [| ->].
  - apply Forall_cons in Hall as [(Hn & _ & _ & Hns) _]. cbn [leading_slashes]. rewrite Z.eqb_refl.
    destruct n as [|c n]; [done|]. set (segs := ((c :: n) :: ns) ++ tl).
    assert (exists t, join [SLASH] segs = c :: t) as (t & Ht).
    { subst segs. simpl. destruct (ns ++ tl); eauto. }
    assert (c ≠ SLASH) by set_solver.
    rewrite Ht. cbn [leading_slashes]. rewrite (proj2 (Z.eqb_neq c SLASH)) by done. rewrite <- Ht.
    rewrite split_char_join by done. rewrite ?Ht. subst segs. cbn [app head]. by rewrite (Hhd (c :: n)).
Qed.

(** A URL made of a valid one by changing its path to good names is a URI as it is. *)
Lemma try_from_names u v ns :
  valid_uri u -> url_host_str u = None -> same_frame v u -> good_names ns ->
  url_segments v = Some (to_segs ns) \/ ns ≠ [] /\ url_segments v = Some (ns ++ [[]]) ->
  try_from_url v = Ok v /\ at_names v ns.
Proof.
  intros Hu Hh Hf Hg Hs.
  assert (url_host_str v = None) as Hhv by (unfold same_frame in Hf; destruct_and!; congruence).
  assert (exists segs, url_segments v = Some segs /\ forall s, s ∈ segs -> s = [] \/ s ∈ ns) as (segs & Hsegs & Hin).
  { destruct Hs as [Hs|[_ Hs]]; (eexists; split; [exact Hs|]); [destruct ns|]; set_solver. }
  assert (NUL ∉ decode_binary (url_path v)) as Hnul.
  { rewrite (path_nul v segs Hsegs). intros (s & Hs' & Hn). destruct (Hin s Hs') as [->|Hns].
    - rewrite decode_nil in Hn. set_solver.
    - apply (proj1 (Forall_forall _ _) (proj1 Hg)) in Hns. naive_solver. }
  pose proof (same_frame_valid u v Hu Hf Hnul) as Hv. split; [|by constructor].
  assert (with_normalized_windows_drive_letter v = v) as Hd.
  { destruct Hs as [Hs|[Hne Hs]]; [|by apply (drive_unchanged v ns [[]]); [..|right]].
    destruct ns as [|n ns]; [by apply (drive_unchanged v [] [[]]); [..|right]|].
    rewrite <- (app_nil_r (to_segs _)) in Hs. by apply (drive_unchanged v (n :: ns) []); [..|left]. }
  unfold try_from_url, validate_file_url, validate_common_known_uri, without_localhost_authority.
  destruct Hv as [-> -> -> -> -> -> _ _]. rewrite Hhv. simpl.
  apply contains_char_false in Hnul. unfold contains_char in Hnul. rewrite Hnul. simpl. by rewrite Hd.
Qed.

(** ** [join] *)

Lemma at_names_convention u ns :
  at_names u ns -> infer_path_convention u = Some Posix /\ is_opaque u = false.
Proof. intros Hu. apply at_names_posix, posix_names_Some in Hu. naive_solver. Qed.

(** After the trailing [/] is dropped, the segments are the names. *)
Lemma pop_if_empty_names u ns :
  at_names u ns -> same_frame (segs_pop_if_empty u) u /\ url_segments (segs_pop_if_empty u) = Some (to_segs ns).
Proof.
  intros [_ _ [Hall _] Hs]. destruct Hs as [Hs|[Hne Hs]]; destruct (law_pop_if_empty u _ Hs) as [Hf ->]; (split; [done|]); f_equal.
  - destruct ns as [|n ns]; [done|]. rewrite (bool_decide_false (last _ = _)); [by rewrite andb_false_r|].
    intros Hlast. apply last_Some_elem_of in Hlast. apply (proj1 (Forall_forall _ _) Hall) in Hlast. naive_solver.
  - destruct ns as [|n ns]; [done|]. rewrite last_snoc, bool_decide_true, andb_true_r by done.
    rewrite (proj2 (Nat.ltb_lt 1 (length ((n :: ns) ++ [[]])))) by (rewrite length_app; simpl; lia).
    unfold last_removed. replace (length ((n :: ns) ++ [[]]) - 1) with (length (n :: ns)) by (rewrite length_app; simpl; lia).
    by rewrite take_app_length.
Qed.

Lemma join_relative u ns s :
  at_names u ns -> relative_path s ->
  exists v, uri_join u s = Ok v /\ at_names v (fold_left join_name (split_char SLASH s) ns).
Proof.
  intros Hu (Hne & Habs & Hcomps). destruct (at_names_convention u ns Hu) as [Hi Ho].
  destruct (at_names_filter u ns Hu) as (segs & Hsegs & Hfil).
  destruct (pop_if_empty_names u ns Hu) as [Hf Hs].
  destruct (join_fold _ (segs_pop_if_empty u) ns Hcomps Hs (an_good u ns Hu)) as (v & Hv & Hfv & Hsv & Hgv).
  destruct (try_from_names u v (fold_left join_name (split_char SLASH s) ns)) as [Htry Hat].
  { apply Hu. } { apply Hu. } { by eapply same_frame_trans. } { done. } { by left. }
  exists v. split; [|done]. unfold uri_join. rewrite (components_no_nul s Hcomps), (proj2 (is_empty_false s) Hne), Hi.
  cbn [ok_or mbind res_bind]. unfold from_absolute_native_path, parse_posix_path.
  assert (strip_prefix [SLASH] s = None) as ->.
  { destruct (strip_prefix [SLASH] s) as [r|] eqn:E; [|done]. apply strip_prefix_Some in E.
    unfold is_absolute in Habs. by rewrite E, starts_with_app in Habs. }
  cbn [mbind res_bind]. rewrite Ho, Hsegs. cbn [default fmap option_fmap option_map].
  unfold segment_count. rewrite Hfil, bool_decide_false by done. cbn [andb anchor_depth id]. by rewrite Hv.
Qed.

(** *** Absolute paths *)

Lemma normalize_segment_posix st c :
  plain_component c = true ->
  normalize_segment Posix st c = (join_name st.1 c, is_empty c).
Proof.
  intros Hc. destruct st as [ns b]. unfold normalize_segment, join_name. simpl fst.
  destruct (is_empty c) eqn:E0; [done|]. cbn [orb]. destruct (streq c (lit ".")); [done|].
  destruct (streq c (lit "..")); [|done]. cbn [anchor_depth]. unfold last_removed.
  destruct ns; [done|]. by rewrite (proj2 (Nat.ltb_lt _ _)) by (simpl; lia).
Qed.

Lemma normalize_segments_fold comps st :
  Forall (fun c => plain_component c = true) comps ->
  exists b, fold_left (normalize_segment Posix) comps st = (fold_left join_name comps st.1, b).
Proof.
  intros Hc. revert st. induction Hc as [|c comps Hc _ IH]; intros [ns b]; [by exists b|].
  cbn [fold_left]. rewrite normalize_segment_posix by done. apply IH.
Qed.

Lemma join_name_plain ns c :
  plain_component c = true -> Forall (fun n => plain_name n = true) ns -> Forall (fun n => plain_name n = true) (join_name ns c).
Proof.
  unfold plain_component, join_name. intros Hc Hns. destruct (is_empty c || streq c (lit ".")); [done|].
  cbn [orb] in Hc. destruct (streq c (lit "..")); [by apply Forall_take|]. cbn [orb] in Hc.
  apply Forall_app. split; [done|by apply Forall_singleton].
Qed.

Lemma fold_join_plain comps ns :
  Forall (fun c => plain_component c = true) comps -> Forall (fun n => plain_name n = true) ns ->
  Forall (fun n => plain_name n = true) (fold_left join_name comps ns).
Proof.
  intros Hc. revert ns. induction Hc as [|c comps Hc _ IH]; intros ns Hns; [done|].
  apply IH. by apply join_name_plain.
Qed.

Lemma push_all u pre ns :
  url_segments u = Some (to_segs pre) -> good_names pre -> Forall (fun n => plain_name n = true) ns ->
  let v := fold_left segs_push ns u in
  same_frame v u /\ url_segments v = Some (to_segs (pre ++ ns)) /\ good_names (pre ++ ns).
Proof.
  intros Hs Hg Hns. revert u pre Hs Hg. induction Hns as [|n ns Hn _ IH]; intros u pre Hs Hg; simpl.
  - rewrite app_nil_r. split; [apply same_frame_refl|done].
  - destruct (push_names u pre n Hs Hg Hn) as [Hf Hs']. destruct (IH _ (pre ++ [n]) Hs') as (Hf' & Hs'' & Hg').
    + by apply good_names_push.
    + rewrite <- app_assoc in *. split; [by eapply same_frame_trans|done].
Qed.

Lemma good_names_nil : good_names [].
Proof. by split. Qed.

(** The root URL is a valid URI with no names. *)
Lemma root_uri : exists u, url_parse (lit "file:///") = Some u /\ at_names u [].
Proof.
  destruct law_root as (u & Hu & Hs & ? & ? & ? & ? & ? & ? & ?). exists u. split; [done|].
  constructor; [|done|apply good_names_nil|by left]. constructor; try congruence. left.
  rewrite (path_nul u _ Hs). intros (s & Hin & Hn). apply list_elem_of_singleton in Hin as ->.
  rewrite decode_nil in Hn. set_solver.
Qed.

Lemma path_uri_from_plain comps :
  Forall (fun c => plain_component c = true) comps ->
  exists v, path_uri_from_segments Posix None comps = Ok (Some v) /\ at_names v (fold_left join_name comps []).
Proof.
  intros Hc. destruct root_uri as (u & Hu & Hat). destruct (at_names_filter u [] Hat) as (segs & Hsegs & _).
  unfold path_uri_from_segments. rewrite Hu. destruct (normalize_segments_fold comps ([], false) Hc) as (b & ->).
  cbn [fst]. rewrite (bool_decide_false (Posix = Windows)) by done. cbn [andb]. rewrite orb_false_r, Hsegs.
  set (ns := fold_left join_name comps []).
  pose proof (fold_join_plain comps [] Hc (Forall_nil_2 _)) as Hplain. fold ns in Hplain.
  destruct (law_clear u segs Hsegs) as [Hfc Hsc].
  destruct (push_all (segs_clear u) [] ns Hsc good_names_nil Hplain) as (Hfp & Hsp & Hgp). cbn [app] in Hsp, Hgp.
  set (v := fold_left segs_push ns (segs_clear u)) in *.
  assert (exists w, fold_left segs_push (if b then ns ++ [[]] else ns) (segs_clear u) = w /\ same_frame w u /\
    (url_segments w = Some (to_segs ns) \/ ns ≠ [] /\ url_segments w = Some (ns ++ [[]]))) as (w & -> & Hfw & Hsw).
  { pose proof (same_frame_trans _ _ _ Hfp Hfc) as Hf. destruct b; [|exists v; split; [done|]; split; [done|by left]].
    rewrite fold_left_app. cbn [fold_left]. fold v.
    destruct (law_push v _ [] Hsp (or_intror eq_refl)) as [Hfe Hse]. exists (segs_push v []). split; [done|].
    split; [by eapply same_frame_trans|]. rewrite Hse. destruct ns as [|n ns']; [by left|]. right. split; [done|].
    cbn [to_segs]. rewrite bool_decide_false; [done|]. intros [= -> ->].
    apply Forall_cons in Hplain as [Hbad _]. done. }
  destruct (try_from_names u w ns) as [-> Hatw]; [apply Hat..|done|done|done|]. by exists w.
Qed.

Definition absolute_path (s : rstr) : Prop :=
  exists r, s = SLASH :: r /\ Forall (fun c => plain_component c = true) (split_char SLASH r).

Lemma from_absolute_plain r :
  Forall (fun c => plain_component c = true) (split_char SLASH r) ->
  exists v, from_absolute_native_path (SLASH :: r) Posix = Ok (Some v) /\
    at_names v (fold_left join_name (split_char SLASH r) []).
Proof.
  intros Hc. destruct (path_uri_from_plain _ Hc) as (v & Hv & Hat). exists v. split; [|done].
  unfold from_absolute_native_path, parse_posix_path. assert (strip_prefix [SLASH] (SLASH :: r) = Some r) as -> by by apply strip_prefix_Some.
  rewrite (components_no_nul r Hc), Hv. cbn [mbind res_bind].
  destruct (at_names_convention v _ Hat) as [-> _]. rewrite (an_host v _ Hat).
  by rewrite bool_decide_false, bool_decide_true.
Qed.

(** An absolute path replaces the base. *)
Lemma join_absolute u ns r :
  at_names u ns -> Forall (fun c => plain_component c = true) (split_char SLASH r) ->
  exists v, uri_join u (SLASH :: r) = Ok v /\ at_names v (fold_left join_name (split_char SLASH r) []).
Proof.
  intros Hu Hc. destruct (from_absolute_plain r Hc) as (v & Hv & Hat). exists v. split; [|done].
  unfold uri_join. destruct (at_names_convention u ns Hu) as [-> _].
  assert (contains_char NUL (SLASH :: r) = false) as ->.
  { apply contains_char_false. pose proof (components_no_nul r Hc) as Hr. apply contains_char_false in Hr.
    rewrite not_elem_of_cons. by split. }
  cbn [is_empty ok_or mbind res_bind]. by rewrite Hv.
Qed.

(** ** Parents *)

Lemma containment_prefix u v ns segs' gone :
  containment_path_segments u Posix = Some ns -> url_segments u = Some (segs' ++ gone) ->
  url_segments v = Some segs' ->
  exists ns', containment_path_segments v Posix = Some ns' /\ ns' `prefix_of` ns.
Proof.
  unfold containment_path_segments. intros Hc Hu Hv. rewrite Hu in Hc. rewrite Hv. simpl in *.
  rewrite List.filter_app, existsb_app in Hc.
  case_match eqn:E; [done|]. apply orb_false_iff in E as [-> _]. simplify_eq.
  eexists; split; [done|]. by eexists.
Qed.

(** The parent of a POSIX URI is a POSIX URI above it. *)
Lemma parent_posix u p nu :
  valid_uri u -> posix_names u = Some nu -> uri_parent u = Some p ->
  exists np, posix_names p = Some np /\ np `prefix_of` nu.
Proof.
  intros Hu Hn Hp. destruct (parent_valid u p Hu Hp) as [Hvp Hop].
  destruct (posix_names_Some u nu Hn) as (Ho & Hi & Hh & segs & Hc & ->).
  destruct (uri_parent_segments u p Hp) as (all & Hall & _ & ->).
  destruct (parent_segments u all Hall) as (Hframe & segs' & Hs' & Hcase). set (p := segs_pop _) in *.
  assert (url_host_str p = None) as Hhp by (unfold same_frame in Hframe; destruct_and!; congruence).
  assert (exists ns', containment_path_segments p Posix = Some ns' /\ ns' `prefix_of` segs) as (ns' & Hns' & Hpre).
  { destruct Hcase as [->|(gone & _ & _ & ->)]; [|by eapply containment_prefix].
    exists []. split; [|apply prefix_nil]. unfold containment_path_segments. by rewrite Hs'. }
  exists (map decode_binary ns'). split; [|destruct Hpre as [k ->]; rewrite map_app; by eexists].
  assert (infer_path_convention p = Some Posix) as Hip.
  { unfold infer_path_convention, opaque_fallback_bytes in *. apply is_opaque_false in Ho, Hop.
    rewrite Ho, Hh, Hall in Hi. rewrite Hop, Hhp, Hs'. simpl in *. rewrite find_filter in *.
    destruct Hcase as [->|(gone & _ & _ & ->)]; [done|]. rewrite List.filter_app in Hi.
    destruct (List.filter nonempty segs') as [|x xs]; [done|]. done. }
  unfold posix_names. rewrite Hop, Hip, bool_decide_true by done. by rewrite Hns'.
Qed.

Lemma no_parent_root u nu : posix_names u = Some nu -> uri_parent u = None -> nu = [].
Proof.
  intros Hn Hp. destruct (posix_names_Some u nu Hn) as (Ho & Hi & _ & ns & Hc & ->).
  unfold containment_path_segments in Hc. destruct (url_segments u) as [segs|] eqn:Hs; [|done]. simpl in Hc.
  case_match; [done|]. simplify_eq. unfold uri_parent in Hp. rewrite Ho, Hi, Hs in Hp. simpl in Hp.
  case_match eqn:E; [|done]. bool_prop. unfold segment_count in E.
  destruct (List.filter nonempty segs); [done|simpl in E; lia].
Qed.

Lemma ancestors_posix fuel u nu :
  valid_uri u -> posix_names u = Some nu ->
  Forall (fun a => exists na, posix_names a = Some na /\ na `prefix_of` nu) (ancestors_fuel fuel u).
Proof.
  revert u nu. induction fuel as [|fuel IH]; intros u nu Hu Hn; simpl; constructor; try (by exists nu); try done.
  destruct (uri_parent u) as [p|] eqn:Hp; [|done]. destruct (parent_posix u p nu Hu Hn Hp) as (np & Hnp & Hpre).
  eapply Forall_impl; [apply (IH p np); [by eapply parent_valid|done]|].
  intros a (na & Hna & Hle). exists na. split; [done|by etransitivity].
Qed.

Lemma last_ancestor u nu :
  valid_uri u -> posix_names u = Some nu ->
  exists r, last (ancestors u) = Some r /\ uri_parent r = None /\ posix_names r = Some [].
Proof.
  intros Hu Hn. destruct (valid_segments u Hu) as (segs & Hs). unfold ancestors. rewrite Hs. simpl.
  destruct (ancestors_fuel_complete (length segs) u segs Hs) as (r & Hr & Hnone); [by right|].
  exists r. split; [done|]. split; [done|]. pose proof (ancestors_posix (length segs) u nu Hu Hn) as Hnames.
  apply last_Some_elem_of in Hr. apply (proj1 (Forall_forall _ _) Hnames) in Hr as (nr & Hnr & _).
  by rewrite Hnr, (no_parent_root r nr Hnr Hnone).
Qed.

Lemma ancestors_fuel_more fuel fuel' u segs :
  url_segments u = Some segs -> segs = [[]] \/ (length segs <= fuel)%nat -> (fuel <= fuel')%nat ->
  ancestors_fuel fuel' u = ancestors_fuel fuel u.
Proof.
  revert fuel' u segs. induction fuel as [|fuel IH]; intros fuel' u segs Hs Hlen Hle.
  - assert (uri_parent u = None) as Hp.
    { destruct Hlen as [->|Hlen]; [by apply root_no_parent|].
      destruct (law_path u segs Hs) as (_ & Hne & _). destruct segs; simpl in *; [done|lia]. }
    destruct fuel'; simpl; [done|]. by rewrite Hp.
  - destruct fuel' as [|fuel']; [lia|]. simpl. destruct (uri_parent u) as [p|] eqn:Hp; [|done].
    destruct (parent_decreases u p segs Hs Hp) as (segs' & Hs' & Hlt). f_equal. apply (IH fuel' p segs' Hs'); [|lia].
    destruct Hlt as [->|Hlt]; [by left|]. right. destruct Hlen as [->|]; [|lia].
    rewrite root_no_parent in Hp by done. done.
Qed.

(** ** Relative paths *)

Lemma decode_uri_path_plain n : plain_name n = true -> decode_uri_path n = n.
Proof.
  intros Hn. unfold decode_uri_path. rewrite (decode_plain_name n Hn).
  destruct (plain_name_spec n Hn) as (_ & _ & _ & Hall).
  rewrite <- (encode_all_ascii n) at 1 by (eapply Forall_impl; [exact Hall|]; simpl; lia).
  rewrite from_utf8_encode; [done|]. eapply Forall_impl; [exact Hall|]. unfold scalar. simpl. lia.
Qed.

Lemma map_decode_plain ns : Forall (fun n => plain_name n = true) ns -> map decode_uri_path ns = ns.
Proof. induction 1 as [|n ns Hn _ IH]; [done|]. simpl. by rewrite decode_uri_path_plain, IH. Qed.

Lemma at_names_containment u ns : at_names u ns -> containment_path_segments u Posix = Some ns.
Proof.
  intros Hu. pose proof (at_names_posix u ns Hu) as Hn. unfold posix_names in Hn.
  destruct (at_names_convention u ns Hu) as [Hi Ho]. rewrite Ho, Hi, bool_decide_true in Hn by done.
  destruct (at_names_filter u ns Hu) as (segs & Hs & Hf). unfold containment_path_segments in *. rewrite Hs in *.
  simpl in *. case_match; [done|]. by rewrite Hf.
Qed.

Lemma fold_join_names ns pre :
  Forall (fun n => plain_name n = true) ns -> fold_left join_name ns pre = pre ++ ns.
Proof.
  intros Hns. revert pre. induction Hns as [|n ns Hn _ IH]; intros pre; simpl; [by rewrite app_nil_r|].
  rewrite IH. unfold join_name. destruct (plain_name_spec n Hn) as (Hne & H1 & H2 & _).
  rewrite (proj2 (is_empty_false n) Hne), (proj2 (streq_false _ _) H1), (proj2 (streq_false _ _) H2).
  cbn [orb]. by rewrite <- app_assoc.
Qed.

Lemma plain_names_no_slash ns : Forall (fun n => plain_name n = true) ns -> Forall (fun n => SLASH ∉ n) ns.
Proof.
  intros Hns. eapply Forall_impl; [exact Hns|]. intros n Hn Hin.
  destruct (plain_name_spec n Hn) as (_ & _ & _ & Hall). apply (proj1 (Forall_forall _ _) Hall) in Hin. naive_solver.
Qed.

Lemma relative_path_plain ns :
  ns ≠ [] -> Forall (fun n => plain_name n = true) ns ->
  relative_path (join [SLASH] ns) /\ split_char SLASH (join [SLASH] ns) = ns.
Proof.
  intros Hne Hns. assert (split_char SLASH (join [SLASH] ns) = ns) as Hsplit
    by (apply split_char_join; [done|by apply plain_names_no_slash]).
  split; [|done]. destruct ns as [|n ns]; [done|]. apply Forall_cons in Hns as Hn. destruct Hn as [Hn _].
  destruct (plain_name_spec n Hn) as (Hnn & _ & _ & Hall). destruct n as [|c n]; [done|].
  assert (exists t, join [SLASH] ((c :: n) :: ns) = c :: t) as (t & Ht) by (destruct ns; simpl; eauto).
  split; [by rewrite Ht|]. split.
  - rewrite Ht. unfold is_absolute. cbn [starts_with]. apply Forall_cons in Hall as [Hc _].
    by rewrite (proj2 (Z.eqb_neq SLASH c)) by naive_solver.
  - rewrite Hsplit. eapply Forall_impl; [exact Hns|]. intros x Hx. unfold plain_component. by rewrite Hx, !orb_true_r.
Qed.

(** ** Agreement with [AbsolutePathBuf::join] *)

Lemma normalize_names comps ns :
  fold_left normalize_step (omap segment_component comps) (RootDir :: map Normal ns) =
  RootDir :: map Normal (fold_left join_name comps ns).
Proof.
  revert ns. induction comps as [|c comps IH]; intros ns; [done|]. cbn [omap list_omap fold_left].
  unfold segment_component at 1, join_name at 2.
  destruct (is_empty c); [apply IH|]. cbn [orb]. destruct (streq c (lit ".")); [apply IH|].
  destruct (streq c (lit "..")); cbn [fold_left normalize_step push_component].
  - destruct ns as [|n ns _] using rev_ind; [apply (IH [])|].
    rewrite map_app. change (RootDir :: map Normal ns ++ map Normal [n]) with ((RootDir :: map Normal ns) ++ [Normal n]).
    rewrite pop_component_snoc by done. unfold last_removed. rewrite length_app, Nat.add_sub, take_app_length. apply IH.
  - change ((RootDir :: map Normal ns) ++ [Normal c]) with (RootDir :: (map Normal ns ++ map Normal [c])).
    rewrite <- map_app. apply IH.
Qed.

Lemma normalize_path_names s :
  is_absolute s = true ->
  normalize_path s = RootDir :: map Normal (fold_left join_name (split_char SLASH s) []).
Proof.
  intros Habs. unfold normalize_path, components. rewrite Habs. cbn [fold_left normalize_step push_component].
  by rewrite (normalize_names _ []).
Qed.

Lemma abs_join_names env ns s :
  Forall good_name ns -> head s ≠ Some TILDE -> s ≠ [] ->
  abs_join env (RootDir :: map Normal ns) s =
    RootDir :: map Normal (fold_left join_name (split_char SLASH s) (if is_absolute s then [] else ns)).
Proof.
  intros Hns Htilde Hne. unfold abs_join, resolve_path_against_base, absolutize_from.
  assert (maybe_expand_home_directory env s = s) as ->.
  { unfold maybe_expand_home_directory. destruct s as [|c s]; [done|]. cbn [strip_prefix].
    rewrite (proj2 (Z.eqb_neq TILDE c)); [done|]. by intros <-. }
  destruct (is_absolute s) eqn:Habs; [by apply normalize_path_names|].
  destruct (normalize_path_string (RootDir :: map Normal ns)) as [Hpabs Hpn]; [by exists ns|].
  set (b := path_string _) in *.
  rewrite normalize_path_names by by apply path_join_absolute.
  rewrite normalize_path_names in Hpn by done. injection Hpn as Hpn.
  apply (f_equal (omap (fun c => match c with Normal n => Some n | _ => None end))) in Hpn.
  assert (forall l, omap (fun c => match c with Normal n => Some n | _ => None end) (map Normal l) = l) as Hid.
  { induction l as [|x l IHl]; [done|]. simpl. by f_equal. }
  rewrite !Hid in Hpn. unfold path_join. rewrite Habs.
  destruct (is_empty b) eqn:Eb; [apply is_empty_true in Eb; by rewrite Eb in Hpabs|]. cbn [orb].
  destruct (ends_with [SLASH] b) eqn:Ee.
  - apply ends_with_true in Ee as (a & Ea). rewrite Ea in *. rewrite <- app_assoc. cbn [app].
    rewrite split_char_app in Hpn. rewrite split_char_app, fold_left_app.
    rewrite fold_left_app in Hpn. cbn [split_char fold_left] in Hpn. change (join_name ?x []) with x in Hpn.
    by rewrite Hpn.
  - change ([SLASH] ++ s) with (SLASH :: s). by rewrite split_char_app, fold_left_app, Hpn.
Qed.

(** ** Native paths *)

(** The URI of a native path goes through its names. *)
Lemma from_abs_path_names ns :
  Forall (fun n => plain_name n = true) ns ->
  exists u, from_abs_path (path_string (RootDir :: map Normal ns)) = Ok u /\ at_names u ns.
Proof.
  intros Hns. destruct (law_from_file_path ns Hns) as (u & Hu & Hs & ? & ? & ? & Hh & ? & ? & ?).
  destruct law_root as (r & Hr & Hrs & ? & ? & ? & ? & ? & ? & ?). destruct root_uri as (r' & Hr' & Hat).
  assert (r' = r) as -> by congruence.
  destruct (push_all r [] ns Hrs good_names_nil Hns) as (_ & _ & Hg).
  destruct (try_from_names r u ns) as [Htry Hat']; [apply Hat..| |exact Hg|by left|].
  { repeat split; congruence. }
  exists u. split; [|done]. unfold from_abs_path. rewrite Hu, Htry, Hh.
  destruct (at_names_convention u ns Hat') as [-> _]. by rewrite bool_decide_false, bool_decide_true.
Qed.

(** The native path of a URI has the names the URI goes through. *)
Lemma to_abs_path_names env u ns :
  at_names u ns -> Forall (fun n => plain_name n = true) ns -> to_abs_path env u = Ok (RootDir :: map Normal ns).
Proof.
  intros Hu Hns. unfold to_abs_path. destruct (at_names_convention u ns Hu) as [-> Ho].
  rewrite bool_decide_true by done. cbn [negb]. rewrite (proj1 (is_opaque_false u) Ho).
  assert (exists segs, url_segments u = Some segs /\ Forall (fun s => s = [] \/ plain_name s = true) segs /\
    segs ≠ [] /\ Forall (fun s => SLASH ∉ s) segs /\ fold_left join_name segs [] = ns) as (segs & Hs & Hall & Hne & Hsl & Hfold).
  { assert (Forall (fun s => s = [] \/ plain_name s = true) ns) as Hor by (eapply Forall_impl; [exact Hns|]; by right).
    pose proof (plain_names_no_slash ns Hns) as Hsl.
    destruct (an_segments u ns Hu) as [Hs|[Hne Hs]]; eexists; (split; [exact Hs|]).
    - destruct ns as [|n ns]; [|split; [done|]; split; [done|]; split; [done|]; by apply (fold_join_names (n :: ns) [])].
      split; [repeat constructor; by left|]. split; [done|]. split; [|done]. repeat constructor. set_solver.
    - split; [apply Forall_app; split; [done|]; repeat constructor; by left|].
      split; [by destruct ns|]. split; [apply Forall_app; split; [done|]; repeat constructor; set_solver|].
      by rewrite fold_left_app, (fold_join_names ns [] Hns). }
  rewrite (law_to_file_path u segs (an_host u ns Hu) Hs Hall). unfold from_absolute_path_checked.
  rewrite expand_home_id by done. change (is_absolute (SLASH :: ?x)) with true. cbn iota.
  unfold absolutize_from. change (is_absolute (SLASH :: ?x)) with true. cbn iota. rewrite normalize_path_names by done.
  change (split_char SLASH (SLASH :: join [SLASH] segs)) with ([] :: split_char SLASH (join [SLASH] segs)).
  rewrite split_char_join by done. cbn [fold_left]. change (join_name [] []) with (@nil rstr). by rewrite Hfold.
Qed.

(** ** Every way to make a URI *)

Lemma uri_parse_valid s u : uri_parse s = Ok u -> valid_uri u.
Proof.
  unfold uri_parse, ok_or. destruct (url_parse s); [|done]. simpl. apply try_from_url_ok.
Qed.

Lemma from_opaque_valid bs u : from_opaque_path_bytes bs = Ok u -> valid_uri u.
Proof.
  unfold from_opaque_path_bytes. destruct (uri_parse _) eqn:E; [|done..]. intros [= <-]. by eapply uri_parse_valid.
Qed.

Lemma opaque_some_valid bs o : Some <$> from_opaque_path_bytes bs = Ok o -> exists u, o = Some u /\ valid_uri u.
Proof.
  destruct (from_opaque_path_bytes bs) as [u| |] eqn:E; [|done..]. intros [= <-]. exists u.
  split; [done|]. by eapply from_opaque_valid.
Qed.

Lemma from_segments_valid c h segs u : path_uri_from_segments c h segs = Ok (Some u) -> valid_uri u.
Proof.
  unfold path_uri_from_segments. intros Hu.
  repeat (case_match; try discriminate Hu); simplify_eq; by eapply try_from_url_ok.
Qed.

Lemma parse_unnormalized_valid s u : parse_unnormalized_windows_path s = Ok (Some u) -> valid_uri u.
Proof.
  unfold parse_unnormalized_windows_path, windows_opaque_path_uri. intros Hu. case_match.
  { apply opaque_some_valid in Hu as (? & [= <-] & ?). done. }
  case_match; [by eapply from_segments_valid|].
  destruct s as [|c1 [|c2 rest]]; [done..|]. case_match; [|done].
  destruct (split_pred _ rest) as [|h [|sh comps]]; [done..|]. case_match; [done|].
  destruct (path_uri_from_segments _ _ _) as [[w|]| |] eqn:E; simpl in Hu; [| |done..].
  - simplify_eq. by eapply from_segments_valid.
  - apply opaque_some_valid in Hu as (? & [= <-] & ?). done.
Qed.

Lemma parse_windows_valid s u : parse_windows_path s = Ok (Some u) -> valid_uri u.
Proof.
  unfold parse_windows_path, windows_opaque_path_uri. intros Hu.
  destruct (normalize_windows_device_path s) as [np|]; [|by eapply parse_unnormalized_valid].
  case_match; [by apply opaque_some_valid in Hu as (? & [= <-] & ?)|].
  destruct (parse_unnormalized_windows_path np) as [[w|]| |] eqn:E; simpl in Hu; [|..|done|done].
  - case_match; [simplify_eq; by eapply parse_unnormalized_valid|].
    by apply opaque_some_valid in Hu as (? & [= <-] & ?).
  - by apply opaque_some_valid in Hu as (? & [= <-] & ?).
Qed.

Lemma from_absolute_native_valid s c u : from_absolute_native_path s c = Ok (Some u) -> valid_uri u.
Proof.
  unfold from_absolute_native_path, windows_opaque_path_uri. intros Hu.
  assert (forall w, (match c with Posix => parse_posix_path s | Windows => parse_windows_path s end) = Ok (Some w) ->
    valid_uri w) as Hparse.
  { intros w. destruct c; [|apply parse_windows_valid]. unfold parse_posix_path. intros Hw.
    destruct (strip_prefix _ s) as [r|]; [|done]. case_match; [|by eapply from_segments_valid].
    by apply opaque_some_valid in Hw as (? & [= <-] & ?). }
  set (parsed := match c with Posix => parse_posix_path s | Windows => parse_windows_path s end) in *.
  destruct parsed as [[w|]| |]; simpl in Hu; [|done..].
  case_match; [simplify_eq; by apply Hparse|].
  destruct c; by apply opaque_some_valid in Hu as (? & [= <-] & ?).
Qed.

Lemma from_abs_path_valid s u : from_abs_path s = Ok u -> valid_uri u.
Proof.
  unfold from_abs_path. intros Hu. destruct (url_from_file_path s); [|by eapply from_opaque_valid].
  destruct (try_from_url _) as [w| |] eqn:E; [|by eapply from_opaque_valid|done].
  case_match; [|by eapply from_opaque_valid]. injection Hu as <-. by eapply try_from_url_ok.
Qed.

Lemma uri_join_valid u s v : valid_uri u -> uri_join u s = Ok v -> valid_uri v.
Proof.
  intros Hu Hv. unfold uri_join in Hv. case_match; [done|]. case_match; [by injection Hv as <-|].
  destruct (infer_path_convention u) as [c|]; [|done]. cbn [ok_or mbind res_bind] in Hv.
  destruct (from_absolute_native_path s c) as [[w|]| |] eqn:Ew; cbn [mbind res_bind] in Hv; [|..|done|done].
  { injection Hv as <-. by eapply from_absolute_native_valid. }
  match type of Hv with (mbind _ ?m) = _ => destruct m as [s'| |] end; [|done..]. cbn [mbind res_bind] in Hv.
  case_match; [done|]. destruct (url_segments u); [|done].
  case_match. by eapply try_from_url_ok.
Qed.

(** ** No panic *)

Lemma try_from_no_panic u : try_from_url u ≠ Panic.
Proof.
  unfold try_from_url. destruct (streq (url_scheme u) FILE_SCHEME) eqn:Hs; [|done]. apply streq_true in Hs. simpl.
  unfold validate_file_url, validate_common_known_uri, without_localhost_authority.
  repeat (case_match; simpl; try done).
  destruct (law_unset_host_ok u Hs) as (v & Hv). by rewrite Hv in *.
Qed.

(** The opaque URI of some bytes exists and gives them back. *)
Lemma from_opaque_ok bs :
  bs ≠ [] -> Forall byte_ok bs -> exists u, from_opaque_path_bytes bs = Ok u /\ opaque_fallback_bytes u = Some bs.
Proof.
  intros Hne Hbs. destruct (law_parse_opaque bs Hbs) as (u & Hu & Hstr & Hsch & Hname & Hpw & Hport & Hq & Hf).
  destruct (law_b64 bs Hbs) as (Hdec & Hsl & Hnn). specialize (Hnn Hne).
  assert (decode_bad_path_uri u = Some bs) as Hbad.
  { unfold decode_bad_path_uri. rewrite Hstr, strip_prefix_app. cbn [mbind option_bind].
    rewrite (proj2 (is_empty_false _) Hnn), (proj2 (contains_char_false _ _) Hsl). cbn [orb].
    rewrite Hdec. cbn [mbind option_bind]. by rewrite streq_refl. }
  assert (is_opaque u = true) as Ho by (apply is_opaque_spec; eauto).
  destruct (opaque_segments u Hq Hf Ho) as (Hh & e & Hs).
  assert (with_normalized_windows_drive_letter u = u) as Hd.
  { destruct (drive_letter_cases u) as [|(a & c & b & Hp & Ha & Hc & _)]; [done|].
    destruct (law_path u _ Hs) as (Hpath & _). rewrite Hp in Hpath. destruct a as [|a1 [|a2 a]]; simplify_eq/=.
    apply Forall_cons in Ha as [_ Ha]. by apply Forall_cons in Ha as [Hpct _]. }
  assert (validate_file_url u = Ok tt) as Hval.
  { unfold validate_file_url, validate_common_known_uri. rewrite Hname, Hpw, Hport, Hq, Hf, Ho. simpl.
    by rewrite andb_false_r. }
  exists u. split; [|done]. unfold from_opaque_path_bytes, uri_parse. rewrite Hu. cbn [ok_or mbind res_bind].
  unfold try_from_url, without_localhost_authority. rewrite Hsch, streq_refl, Hval, Hh.
  rewrite bool_decide_false by done. cbn [negb mbind res_bind]. by rewrite Hd.
Qed.

Lemma opaque_some_ok bs : bs ≠ [] -> Forall byte_ok bs -> Some <$> from_opaque_path_bytes bs ≠ Panic.
Proof. intros Hne Hbs. destruct (from_opaque_ok bs Hne Hbs) as (u & -> & _). done. Qed.

Lemma windows_opaque_ok s : s ≠ [] -> Forall scalar s -> Some <$> windows_opaque_path_uri s ≠ Panic.
Proof. intros Hne Hs. apply opaque_some_ok; [by apply utf16_le_nonempty|by apply utf16_le_bytes]. Qed.

Lemma posix_opaque_ok s : s ≠ [] -> Forall scalar s -> Some <$> from_opaque_path_bytes (encode_all s) ≠ Panic.
Proof. intros Hne Hs. apply opaque_some_ok; [by apply encode_all_nonempty|by apply encode_bytes]. Qed.

Lemma from_segments_no_panic c h segs : path_uri_from_segments c h segs ≠ Panic.
Proof.
  unfold path_uri_from_segments. repeat (case_match; try done).
  all: match goal with E : try_from_url _ = Panic |- _ => by apply try_from_no_panic in E end.
Qed.

(** Splits the outermost test of the code in the goal. *)
Ltac split_if := cbv zeta; match goal with |- (if ?b then _ else _) ≠ _ => destruct b eqn:? end.

Lemma parse_unnormalized_no_panic s : Forall scalar s -> parse_unnormalized_windows_path s ≠ Panic.
Proof.
  intros Hs. unfold parse_unnormalized_windows_path. split_if.
  { apply windows_opaque_ok; [|done]. by intros ->. }
  destruct (is_windows_drive_absolute_path s); [apply from_segments_no_panic|].
  destruct s as [|c1 [|c2 rest]] eqn:Hcs; [done..|].
  destruct (is_windows_separator_char c1 && is_windows_separator_char c2); [|done].
  destruct (split_pred _ rest) as [|h [|sh comps]]; [done..|]. destruct (is_empty h || is_empty sh); [done|].
  pose proof (from_segments_no_panic Windows (Some h) (sh :: comps)) as Hp.
  destruct (path_uri_from_segments _ _ _) as [[w|]| |]; simpl; try done. by apply windows_opaque_ok.
Qed.

Lemma normalize_device_suffix s s' :
  normalize_windows_device_path s = Some s' -> Forall scalar s -> s ≠ [] /\ Forall scalar s'.
Proof.
  unfold normalize_windows_device_path. intros Hn Hs. split; [by intros ->|].
  assert (forall p r, strip_prefix p s = Some r -> Forall scalar r) as Hsuf.
  { intros p r Hr. apply strip_prefix_Some in Hr. rewrite Hr in Hs. by apply Forall_app in Hs as [_ Hs]. }
  assert (Forall scalar (lit "\\")) as Hbs.
  { change (lit "\\") with [92; 92]%Z. repeat constructor; unfold scalar; lia. }
  assert (forall p r, strip_prefix p s = Some r -> Forall scalar (lit "\\" ++ r)) as Hunc.
  { intros p r Hr. apply Forall_app. split; [exact Hbs|by eapply Hsuf]. }
  destruct (strip_prefix (lit "\\?\UNC\") s) as [r1|] eqn:E1; [injection Hn as <-; by eapply Hunc|].
  destruct (strip_prefix (lit "\\.\UNC\") s) as [r2|] eqn:E2; [injection Hn as <-; by eapply Hunc|].
  destruct (strip_prefix (lit "\\?\") s) as [r3|] eqn:E3; destruct (strip_prefix (lit "\\.\") s) as [r4|] eqn:E4;
    repeat case_match; try discriminate Hn; simplify_eq; by eapply Hsuf.
Qed.

Lemma parse_windows_no_panic s : Forall scalar s -> parse_windows_path s ≠ Panic.
Proof.
  intros Hs. unfold parse_windows_path.
  destruct (normalize_windows_device_path s) as [np|] eqn:En; [|by apply parse_unnormalized_no_panic].
  destruct (normalize_device_suffix s np En Hs) as [Hne Hnp].
  pose proof (windows_opaque_ok s Hne Hs) as Hop. split_if; [done|].
  pose proof (parse_unnormalized_no_panic np Hnp) as Hp.
  destruct (parse_unnormalized_windows_path np) as [[w|]| |]; cbn [mbind res_bind]; try done. by split_if.
Qed.

Lemma from_absolute_native_no_panic s c : Forall scalar s -> s ≠ [] -> from_absolute_native_path s c ≠ Panic.
Proof.
  intros Hs Hne. unfold from_absolute_native_path.
  pose proof (posix_opaque_ok s Hne Hs) as Hpo. pose proof (windows_opaque_ok s Hne Hs) as Hwo.
  destruct c.
  - assert (parse_posix_path s ≠ Panic) as Hp.
    { unfold parse_posix_path. destruct (strip_prefix [SLASH] s) as [r|] eqn:E; [|done].
      apply strip_prefix_Some in E. cbn [app] in E. rewrite <- E. case_match; [done|apply from_segments_no_panic]. }
    destruct (parse_posix_path s) as [[w|]| |]; cbn [mbind res_bind]; try done. by split_if.
  - pose proof (parse_windows_no_panic s Hs) as Hp.
    destruct (parse_windows_path s) as [[w|]| |]; cbn [mbind res_bind]; try done. by split_if.
Qed.

(** Joins reach none of the [unreachable!]s in the code. *)
Lemma uri_join_no_panic u s : valid_uri u -> Forall scalar s -> uri_join u s ≠ Panic.
Proof.
  intros Hu Hs. unfold uri_join. case_match; [done|]. destruct (is_empty s) eqn:Hemp; [done|]. apply is_empty_false in Hemp.
  destruct (infer_path_convention u) as [c|]; [|done]. cbn [ok_or mbind res_bind].
  pose proof (from_absolute_native_no_panic s c Hs Hemp) as Hp.
  destruct (from_absolute_native_path s c) as [[w|]| |]; cbn [mbind res_bind]; [done| |done|done].
  match goal with |- context [mbind _ ?m] => assert (m ≠ Panic) as Hm by (repeat case_match; done); destruct m end;
    cbn [mbind res_bind]; try done.
  case_match; [done|]. destruct (valid_segments u Hu) as (segs & ->). case_match. apply try_from_no_panic.
Qed.

(** The URIs the API can return. *)
Inductive built : Url -> Prop :=
| built_parse s u : uri_parse s = Ok u -> built u
| built_native p u : from_abs_path p = Ok u -> built u
| built_join u s v : built u -> uri_join u s = Ok v -> built v
| built_join_descendant u s v : built u -> join_descendant u s = Ok v -> built v
| built_parent u p : built u -> uri_parent u = Some p -> built p.
End Joins.

(** ** Main theorems *)

Section Main.
Context {Url : Type} `{Hlaws : UrlLaws Url}.
Set Default Proof Using "Type*".
Implicit Types (u v b : Url).

(** C30. Containment of POSIX URIs is the prefix order on the names they go through, whatever
    their spelling: [starts_with] holds exactly of the URIs above, the depth is the number
    of names, and [overlaps] and [relative_path_from] answer accordingly. *)
Theorem uri_containment_prefix u b nu nb :
  posix_names u = Some nu -> posix_names b = Some nb ->
  (uri_starts_with u b = true <-> nb `prefix_of` nu) /\
  lexical_depth u = Some (length nu) /\
  (overlaps u b = Some true <-> nb `prefix_of` nu \/ nu `prefix_of` nb) /\
  (is_Some (relative_path_from u b) <-> nb `prefix_of` nu).
Proof.
  intros Hu Hb.
  assert (forall x y nx ny, posix_names x = Some nx -> posix_names y = Some ny ->
    uri_starts_with x y = true <-> ny `prefix_of` nx) as Hsw.
  { intros x y nx ny Hx Hy. rewrite (starts_with_posix x y nx Hx), Hy. naive_solver. }
  split; [by apply Hsw|]. split; [by apply lexical_depth_posix|].
  destruct (posix_names_Some u nu Hu) as (Ho & Hi & Hh & segs & Hs & ->).
  destruct (posix_names_Some b nb Hb) as (Hob & Hib & Hhb & bs & Hbs & ->). split.
  - unfold overlaps. rewrite (uri_eq_posix u b Hi). case_bool_decide as Heq.
    { subst b. assert (bs = segs) as -> by congruence. split; [|done]. intros _. by left. }
    rewrite (lexical_depth_posix u _ Hu), (lexical_depth_posix b _ Hb).
    rewrite <- (Hsw u b _ _ Hu Hb), <- (Hsw b u _ _ Hb Hu), <- orb_true_iff. split; [by intros [= ->]|by intros ->].
  - unfold relative_path_from. rewrite (uri_eq_posix u b Hi). case_bool_decide as Heq.
    { subst b. assert (bs = segs) as -> by congruence. by split. }
    rewrite Ho, Hob, Hi, Hib, Hh, Hhb. simpl. rewrite Hs, Hbs. simpl. rewrite <- native_start_posix.
    destruct (native_path_segments_start_with segs bs Posix); simpl; [by split|].
    split; [by intros []|done].
Qed.

(** Walking up from a URI ends: [ancestors] is the URI, its parent, the parent of that and so
    on up to a URI without a parent, no more steps are needed than the URI has segments, and
    every URI on the way is valid. From a POSIX path the walk ends at [/], through URIs that
    contain it. *)
Theorem ancestors_reach_root u nu :
  valid_uri u -> posix_names u = Some nu ->
  exists r, last (ancestors u) = Some r /\ uri_parent r = None /\ posix_names r = Some [] /\
    (forall i a p, ancestors u !! i = Some a -> ancestors u !! S i = Some p -> uri_parent a = Some p) /\
    (forall fuel, (length (default [] (url_segments u)) <= fuel)%nat -> ancestors_fuel fuel u = ancestors u) /\
    Forall (fun a => valid_uri a /\ uri_starts_with u a = true) (ancestors u).
Proof.
  intros Hu Hn. destruct (last_ancestor u nu Hu Hn) as (r & Hr & Hnone & Hroot). exists r.
  split; [done|]. split; [done|]. split; [done|].
  destruct (valid_segments u Hu) as (segs & Hs). unfold ancestors in *. rewrite Hs in *. simpl in *.
  pose proof (ancestors_posix (length segs) u nu Hu Hn) as Hnames.
  split; [intros; by eapply ancestors_fuel_chain|].
  split; [intros; by eapply ancestors_fuel_more; [..|right|]|].
  apply Forall_and. split; [by apply ancestors_fuel_valid|].
  eapply Forall_impl; [exact Hnames|]. intros a (na & Hna & Hpre).
  apply (starts_with_posix u a nu Hn). by exists na.
Qed.

(** Joining agrees with [AbsolutePathBuf]: for names no URL encodes, the URI of a path joined
    with further text goes through the names of the path joined with that text, [.], [..],
    repeated separators, absolute text and attempts to leave the root included. *)
Theorem join_agrees_with_paths env u ns s :
  at_names u ns -> Forall (fun n => plain_name n = true) ns ->
  relative_path s \/ absolute_path s -> head s ≠ Some TILDE ->
  exists v ns', uri_join u s = Ok v /\ at_names v ns' /\
    abs_join env (RootDir :: map Normal ns) s = RootDir :: map Normal ns'.
Proof.
  intros Hu Hns Hs Htilde.
  assert (Forall good_name ns) as Hgood.
  { pose proof (plain_names_no_slash ns Hns) as Hsl. apply Forall_forall. intros n Hn.
    apply (proj1 (Forall_forall _ _) Hns) in Hn as Hp. apply (proj1 (Forall_forall _ _) Hsl) in Hn.
    destruct (plain_name_spec n Hp) as (? & ? & ? & _). by repeat split. }
  destruct Hs as [Hrel|(r & -> & Hr)].
  - destruct (join_relative u ns s Hu Hrel) as (v & Hv & Hat). destruct Hrel as (Hne & Habs & _).
    exists v, (fold_left join_name (split_char SLASH s) ns). split; [done|]. split; [done|].
    rewrite abs_join_names by done. by rewrite Habs.
  - destruct (join_absolute u ns r Hu Hr) as (v & Hv & Hat).
    exists v, (fold_left join_name (split_char SLASH r) []). split; [done|]. split; [done|].
    by rewrite abs_join_names.
Qed.

(** The relative path from a URI to one below it, joined back to the upper one, leads to the
    lower one. *)
Theorem relative_join_roundtrip u b ns nb :
  at_names u (nb ++ ns) -> at_names b nb -> ns ≠ [] -> Forall (fun n => plain_name n = true) ns ->
  exists s v, relative_path_from u b = Some s /\ uri_join b s = Ok v /\ at_names v (nb ++ ns).
Proof.
  intros Hu Hb Hne Hns. exists (join [SLASH] ns).
  destruct (relative_path_plain ns Hne Hns) as [Hrel Hsplit].
  destruct (join_relative b nb _ Hb Hrel) as (v & Hv & Hat). rewrite Hsplit, fold_join_names in Hat by done.
  exists v. split; [|by split].
  destruct (at_names_convention u _ Hu) as [Hi Ho]. destruct (at_names_convention b _ Hb) as [Hib Hob].
  unfold relative_path_from. rewrite (uri_eq_posix u b Hi), bool_decide_false.
  2:{ intros ->. apply at_names_containment in Hu, Hb. rewrite Hb in Hu. injection Hu as Hu.
      apply (f_equal length) in Hu. rewrite length_app in Hu. destruct ns; [done|simpl in Hu; lia]. }
  rewrite Ho, Hob, Hi, Hib, (an_host u _ Hu), (an_host b _ Hb). simpl.
  rewrite (at_names_containment u _ Hu), (at_names_containment b _ Hb). simpl.
  rewrite (proj2 (native_start_posix (nb ++ ns) nb)) by (rewrite map_app; by eexists). simpl.
  rewrite drop_app_length. by rewrite map_decode_plain.
Qed.

(** C39. Whatever way a [PathUri] is made (parsed, from a native path, by a join, as a parent), it
    is a [file:] URI without credentials, port, query or fragment, its host is not
    [localhost], and no null byte is in its path unless it is an opaque one. *)
Theorem built_uri_valid u : built u -> valid_uri u.
Proof.
  induction 1 as [s u Hu|p u Hu|u s v _ IH Hv|u s v _ IH Hv|u p _ IH Hp].
  - by eapply uri_parse_valid.
  - by eapply from_abs_path_valid.
  - by eapply uri_join_valid.
  - unfold join_descendant in Hv. destruct (uri_join u s) as [w| |] eqn:Hw; [|done..]. simpl in Hv.
    case_match; [done|]. injection Hv as <-. by eapply uri_join_valid.
  - by eapply parent_valid.
Qed.

(** The depth that [join] keeps counts the segments that are not empty, but [..] takes away
    whatever segment is last: on a URI with an empty segment inside, as [file:///a//b], two
    parents lead to [file:///a] and not to the root. *)
Theorem join_parent_keeps_segment u x y :
  valid_uri u -> url_host_str u = None -> plain_name x = true -> plain_name y = true ->
  url_segments u = Some [x; []; y] ->
  exists v, uri_join u (lit "../..") = Ok v /\ posix_names u = Some [x; y] /\ posix_names v = Some [x].
Proof.
  intros Hu Hh Hx Hy Hs.
  assert (is_opaque u = false) as Ho.
  { apply not_true_iff_false. intros Ho. destruct (opaque_segments u) as (_ & e & He); [apply Hu..|done|]. congruence. }
  destruct (plain_name_spec x Hx) as (Hnx & _ & _ & Hcx). destruct (plain_name_spec y Hy) as (Hny & _ & _ & Hcy).
  assert (List.filter nonempty [x; []; y] = [x; y]) as Hfil by (by destruct x, y).
  assert (infer_path_convention u = Some Posix) as Hi.
  { unfold infer_path_convention, opaque_fallback_bytes. rewrite (proj1 (is_opaque_false u) Ho), Hh, Hs.
    cbn [mbind option_bind]. rewrite find_filter, Hfil. cbn [head]. by rewrite plain_not_drive. }
  destruct (law_pop_if_empty u _ Hs) as [Hf0 Hs0].
  rewrite (bool_decide_false (last [x; []; y] = Some [])) in Hs0 by (intros [= ->]; done). rewrite andb_false_r in Hs0.
  destruct (law_pop _ _ Hs0) as [Hf1 Hs1]. destruct (law_pop _ _ Hs1) as [Hf2 Hs2].
  set (v := segs_pop (segs_pop (segs_pop_if_empty u))) in *.
  destruct (try_from_names u v [x]) as [Htry Hat]; [done|done| |apply (good_names_push [] x); [apply good_names_nil|done]|by left|].
  { do 2 (eapply same_frame_trans; [done|]). done. }
  exists v. split.
  - unfold uri_join. change (contains_char NUL (lit "../..")) with false. change (is_empty (lit "../..")) with false.
    rewrite Hi. cbn [ok_or mbind res_bind]. unfold from_absolute_native_path, parse_posix_path.
    change (strip_prefix [SLASH] (lit "../..")) with (@None rstr). cbn [mbind res_bind].
    rewrite Ho, Hs. cbn [default fmap option_fmap option_map id]. unfold segment_count. rewrite Hfil.
    rewrite (bool_decide_false (Posix = Windows)) by done. exact Htry.
  - pose proof (at_names_posix v [x] Hat) as Hv. cbn [map] in Hv. rewrite (decode_plain_name x Hx) in Hv. split; [|done].
    unfold posix_names. rewrite Ho, Hi, bool_decide_true by done. unfold containment_path_segments. rewrite Hs.
    cbn [mbind option_bind]. rewrite Hfil. cbn [existsb].
    assert (forall n, plain_name n = true -> existsb (is_separator Posix) (decode_binary n) = false) as Hsep.
    { intros n Hn. rewrite (decode_plain_name n Hn). apply not_true_iff_false. intros (c & Hc & Hc')%existsb_exists.
      destruct (plain_name_spec n Hn) as (_ & _ & _ & Hall). apply list_elem_of_In, (proj1 (Forall_forall _ _) Hall) in Hc.
      simpl in Hc'. apply Z.eqb_eq in Hc'. naive_solver. }
    rewrite !Hsep by done. cbn [orb fmap option_fmap option_map map]. by rewrite !decode_plain_name.
Qed.
End Main.
