(* ===== verification/UrlModel.v ===== *)
(** * A URL over a record

    An instance of [UrlCrate] that satisfies [UrlLaws]: URLs as records with the
    segments of their path, in which the only escape is [%00]. It shows that the laws
    can hold together, and the theorems on path URIs are applied to it. *)
From S2P Require Import Prelude AbsPath StreamText InlineTag Utf8Stream PathUri PathUriJoin.

Set Default Goal Selector "!".

Module UrlModel.

Record t := {
  m_scheme : rstr;
  m_username : rstr;
  m_password : option rstr;
  m_host : option rstr;
  m_port : option Z;
  m_raw : list rstr;
  m_query : option rstr;
  m_fragment : option rstr;
}.

#[export] Instance t_eq_dec : EqDecision t.
Proof. solve_decision. Defined.

Definition drop_slashes (s : rstr) : rstr := List.filter (fun c => negb (c =? SLASH)%Z) s.

Definition segs (u : t) : list rstr := to_segs (map drop_slashes (m_raw u)).

Definition path (u : t) : rstr := SLASH :: join [SLASH] (segs u).

Definition with_raw (u : t) (raw : list rstr) : t :=
  {| m_scheme := m_scheme u; m_username := m_username u; m_password := m_password u; m_host := m_host u;
     m_port := m_port u; m_raw := raw; m_query := m_query u; m_fragment := m_fragment u |}.

Definition file_url (raw : list rstr) : t :=
  {| m_scheme := FILE_SCHEME; m_username := []; m_password := None; m_host := None; m_port := None; m_raw := raw;
     m_query := None; m_fragment := None |}.

Definition decode_piece (s : rstr) : list Z := if streq s (lit "%00") then [NUL] else encode_all s.

Definition decode (s : rstr) : list Z := join [SLASH] (map decode_piece (split_char SLASH s)).

#[export] Instance crate : UrlCrate t := {|
  url_parse s := (fun r => file_url (split_char SLASH r)) <$> strip_prefix (lit "file:///") s;
  url_as_str u :=
    if bool_decide (m_scheme u = FILE_SCHEME /\ m_host u = None) then lit "file://" ++ path u
    else lit "?" ++ m_scheme u ++ default [] (m_host u) ++ path u;
  url_scheme := m_scheme;
  url_username := m_username;
  url_password := m_password;
  url_host_str := m_host;
  url_port := m_port;
  url_path := path;
  url_query := m_query;
  url_fragment := m_fragment;
  url_segments u := Some (segs u);
  url_set_host u h :=
    Some {| m_scheme := m_scheme u; m_username := m_username u; m_password := m_password u; m_host := h;
            m_port := m_port u; m_raw := m_raw u; m_query := m_query u; m_fragment := m_fragment u |};
  url_set_path u p := with_raw u (split_char SLASH (drop 1 p));
  segs_clear u := with_raw u [];
  segs_pop_if_empty u :=
    if (1 <? length (segs u))%nat && bool_decide (last (segs u) = Some []) then with_raw u (last_removed (m_raw u)) else u;
  segs_pop u := with_raw u (last_removed (m_raw u));
  segs_push u n := with_raw u (if bool_decide (segs u = [[]]) then [n] else m_raw u ++ [n]);
  url_from_file_path p := (fun r => file_url (split_char SLASH r)) <$> strip_prefix [SLASH] p;
  url_to_file_path u := if bool_decide (m_host u = None) then Some (path u) else None;
  decode_binary := decode;
  b64_encode bs := map (Z.add 256) bs;
  b64_decode s := Some (map (fun c => c - 256)%Z s);
|}.

Lemma drop_slashes_none s : SLASH ∉ drop_slashes s.
Proof.
  unfold drop_slashes. intros Hin. apply list_elem_of_In, List.filter_In in Hin as [_ Hn].
  by rewrite Z.eqb_refl in Hn.
Qed.

Lemma drop_slashes_id s : SLASH ∉ s -> drop_slashes s = s.
Proof.
  unfold drop_slashes. induction s as [|c s IH]; intros Hs; [done|]. rewrite not_elem_of_cons in Hs. destruct Hs as [Hc Hs].
  simpl. rewrite (proj2 (Z.eqb_neq c SLASH)) by done. simpl. by rewrite IH.
Qed.

Lemma map_drop_slashes_id l : Forall (fun s => SLASH ∉ s) l -> map drop_slashes l = l.
Proof. induction 1 as [|s l Hs _ IH]; [done|]. simpl. by rewrite drop_slashes_id, IH. Qed.

Lemma segs_shape u : segs u ≠ [] /\ Forall (fun s => SLASH ∉ s) (segs u).
Proof.
  unfold segs. split; [by destruct (map drop_slashes (m_raw u))|].
  assert (Forall (fun s => SLASH ∉ s) (map drop_slashes (m_raw u))) as Hall.
  { apply Forall_forall. intros s (r & -> & _)%list_elem_of_fmap. apply drop_slashes_none. }
  destruct (map drop_slashes (m_raw u)); [repeat constructor; set_solver|done].
Qed.

Lemma map_last_removed (raw : list rstr) : map drop_slashes (last_removed raw) = last_removed (map drop_slashes raw).
Proof. unfold last_removed. rewrite length_map. apply fmap_take. Qed.

Lemma frame_with_raw (u : t) raw : same_frame (with_raw u raw) u.
Proof. by repeat split. Qed.

Lemma pop_law u : url_segments (segs_pop u) = Some (if (length (segs u) <=? 1)%nat then [[]] else last_removed (segs u)).
Proof.
  simpl. f_equal. unfold segs. simpl. rewrite map_last_removed. destruct (map drop_slashes (m_raw u)) as [|a [|b l]]; [done..|].
  by destruct l.
Qed.

Lemma pop_if_empty_law u :
  url_segments (segs_pop_if_empty u) =
    Some (if (1 <? length (segs u))%nat && bool_decide (last (segs u) = Some []) then last_removed (segs u) else segs u).
Proof.
  simpl. f_equal. destruct ((1 <? length (segs u))%nat && _) eqn:E; [|done]. apply andb_true_iff in E as [E _].
  unfold segs in *. simpl. rewrite map_last_removed. destruct (map drop_slashes (m_raw u)) as [|a [|b l]]; [done..|].
  by destruct l.
Qed.

Lemma push_law u n :
  SLASH ∉ n -> url_segments (segs_push u n) = Some (if bool_decide (segs u = [[]]) then [n] else segs u ++ [n]).
Proof.
  intros Hn. simpl. f_equal. case_bool_decide as E; unfold segs in *; simpl; [by rewrite drop_slashes_id|].
  rewrite map_app. simpl. rewrite drop_slashes_id by done. by destruct (map drop_slashes (m_raw u)).
Qed.

Lemma set_path_law (u : t) a c b :
  path u = a ++ c :: b -> is_ascii_alphabetic c = true ->
  path (url_set_path u (a ++ ascii_upper c :: b)) = a ++ ascii_upper c :: b.
Proof.
  intros Hp Hc. destruct a as [|s a].
  { unfold path in Hp. simpl in Hp. by injection Hp as <-. }
  assert (s = SLASH) as -> by (unfold path in Hp; simpl in Hp; by injection Hp).
  unfold path, segs. simpl. f_equal. rewrite map_drop_slashes_id by apply split_char_no_elem.
  rewrite drop_0. destruct (split_char SLASH _) as [|p ps] eqn:E; [by apply split_char_nonempty in E|].
  cbn [to_segs]. rewrite <- E. apply join_split_char.
Qed.

Lemma encode_all_app a b : encode_all (a ++ b) = encode_all a ++ encode_all b.
Proof. unfold encode_all. by rewrite map_app, concat_app. Qed.

Lemma join_app_slash (a b : list rstr) :
  a ≠ [] -> b ≠ [] -> join [SLASH] (a ++ b) = join [SLASH] a ++ SLASH :: join [SLASH] b.
Proof.
  intros Ha Hb. induction a as [|x a IH]; [done|]. destruct a as [|y a].
  - destruct b; [done|]. done.
  - change (join [SLASH] ((x :: y :: a) ++ b)) with (x ++ SLASH :: join [SLASH] ((y :: a) ++ b)).
    rewrite IH by done. change (join [SLASH] (x :: y :: a)) with (x ++ SLASH :: join [SLASH] (y :: a)).
    by rewrite <- app_assoc.
Qed.

Lemma map_split_nonempty (f : rstr -> list Z) s : map f (split_char SLASH s) ≠ [].
Proof. pose proof (split_char_nonempty SLASH s). by destruct (split_char SLASH s). Qed.

Lemma decode_slash a b : decode (a ++ SLASH :: b) = decode a ++ SLASH :: decode b.
Proof. unfold decode. rewrite split_char_app, map_app. apply join_app_slash; apply map_split_nonempty. Qed.

Lemma encode_join l : encode_all (join [SLASH] l) = join [SLASH] (map encode_all l).
Proof.
  induction l as [|x l IH]; [done|]. destruct l as [|y l]; [done|].
  change (join [SLASH] (x :: y :: l)) with (x ++ [SLASH] ++ join [SLASH] (y :: l)).
  rewrite !encode_all_app, IH. done.
Qed.

Lemma split_char_subset c s p : p ∈ split_char c s -> forall d, d ∈ p -> d ∈ s.
Proof.
  intros Hp d Hd. rewrite <- (join_split_char c s). revert Hp. generalize (split_char c s). intros l Hp.
  induction l as [|x l IH]; [set_solver|]. destruct l as [|y l]; [simpl; set_solver|].
  change (join [c] (x :: y :: l)) with (x ++ [c] ++ join [c] (y :: l)). rewrite elem_of_cons in Hp.
  destruct Hp as [->|Hp]; [set_solver|]. specialize (IH Hp). set_solver.
Qed.

Lemma decode_plain s : 37%Z ∉ s -> decode s = encode_all s.
Proof.
  intros Hs. unfold decode. rewrite <- (join_split_char SLASH s) at 2. rewrite encode_join. f_equal.
  pose proof (split_char_subset SLASH s) as Hsub. induction (split_char SLASH s) as [|x l IH]; [done|].
  simpl. rewrite IH by (intros p Hp; apply Hsub; set_solver). f_equal.
  unfold decode_piece. destruct (streq x (lit "%00")) eqn:E; [|done]. apply streq_true in E as ->.
  exfalso. apply Hs, (Hsub (lit "%00")); [set_solver|]. apply list_elem_of_In. by left.
Qed.

Lemma nul_in_join l : NUL ∈ join [SLASH] l <-> exists s, s ∈ l /\ NUL ∈ s.
Proof.
  induction l as [|x l IH]; [simpl; set_solver|]. destruct l as [|y l]; [simpl; set_solver|].
  change (join [SLASH] (x :: y :: l)) with (x ++ SLASH :: join [SLASH] (y :: l)).
  rewrite elem_of_app, elem_of_cons, IH. split.
  - intros [Hx|[Hx|(s & Hs & Hn)]]; [exists x; set_solver|done|exists s; set_solver].
  - intros (s & Hs & Hn). rewrite elem_of_cons in Hs. destruct Hs as [->|Hs]; [by left|]. right. right. by exists s.
Qed.

Lemma split_around a b : exists pre p q post, forall x, x ≠ SLASH ->
  split_char SLASH (a ++ x :: b) = pre ++ (p ++ x :: q) :: post.
Proof.
  induction a as [|d a (pre & p & q & post & IH)].
  - destruct (split_char SLASH b) as [|q post] eqn:E; [by apply split_char_nonempty in E|].
    exists [], [], q, post. intros x Hx. simpl. by rewrite (proj2 (Z.eqb_neq x SLASH)), E.
  - destruct (Z.eqb_spec d SLASH) as [->|Hd].
    + exists ([] :: pre), p, q, post. intros x Hx. simpl. by rewrite IH.
    + destruct pre as [|r pre].
      * exists [], (d :: p), q, post. intros x Hx. simpl. by rewrite (proj2 (Z.eqb_neq d SLASH)), IH.
      * exists ((d :: r) :: pre), p, q, post. intros x Hx. simpl. by rewrite (proj2 (Z.eqb_neq d SLASH)), IH.
Qed.

Lemma piece_around p q x :
  (65 <= x <= 90 \/ 97 <= x <= 122)%Z -> NUL ∈ decode_piece (p ++ x :: q) <-> NUL ∈ encode_all p \/ NUL ∈ encode_all q.
Proof.
  intros Hx. unfold decode_piece. destruct (streq (p ++ x :: q) (lit "%00")) eqn:E.
  - apply streq_true in E. exfalso. assert (x ∈ lit "%00") as Hin by (rewrite <- E; set_solver).
    change (lit "%00") with [37; 48; 48]%Z in Hin. rewrite !elem_of_cons in Hin. set_solver by lia.
  - rewrite encode_all_app. change (encode_all (x :: q)) with (encode x ++ encode_all q).
    unfold encode at 1. rewrite (proj2 (Z.ltb_lt x 128)) by lia.
    rewrite !elem_of_app, list_elem_of_singleton. unfold NUL. split; [|naive_solver]. intros [?|[?|?]]; [by left|lia|by right].
Qed.

Lemma decode_upper a c b : NUL ∈ decode (a ++ ascii_upper c :: b) -> NUL ∈ decode (a ++ c :: b).
Proof.
  unfold ascii_upper. destruct ((97 <=? c) && (c <=? 122))%Z eqn:Ec; [|done]. bool_prop.
  destruct (split_around a b) as (pre & p & q & post & Hsp). unfold decode.
  rewrite !Hsp, !map_app by (unfold SLASH; lia). cbn [map]. rewrite !nul_in_join. intros (s & Hs & Hn).
  rewrite elem_of_app, elem_of_cons in Hs. destruct Hs as [Hs|[->|Hs]].
  - exists s. set_solver.
  - exists (decode_piece (p ++ c :: q)). split; [set_solver|].
    apply piece_around in Hn; [|lia]. apply piece_around; [lia|done].
  - exists s. set_solver.
Qed.

Lemma as_str_law (u : t) e :
  url_as_str u = BAD_PATH_URI_PREFIX ++ e ->
  m_host u = None /\ segs u = [lit "%00"; lit "bad"; lit "path"] ++ split_char SLASH e.
Proof.
  cbn [url_as_str crate]. case_bool_decide as Hb.
  - destruct Hb as [_ Hh]. intros Hs. split; [done|]. destruct (segs_shape u) as [Hne Hall].
    rewrite <- (split_char_join SLASH (segs u)) by done. unfold path in Hs.
    change (BAD_PATH_URI_PREFIX ++ e) with (lit "file://" ++ SLASH :: (lit "%00/bad/path/" ++ e)) in Hs.
    apply app_inv_head in Hs. injection Hs as ->.
    reflexivity.
  - done.
Qed.

Lemma opaque_law e :
  SLASH ∉ e -> exists u, url_parse (BAD_PATH_URI_PREFIX ++ e) = Some u /\ url_as_str u = BAD_PATH_URI_PREFIX ++ e /\
    m_scheme u = FILE_SCHEME /\ m_username u = [] /\ m_password u = None /\ m_port u = None /\
    m_query u = None /\ m_fragment u = None.
Proof.
  intros He. exists (file_url [lit "%00"; lit "bad"; lit "path"; e]). split.
  - assert (strip_prefix (lit "file:///") (BAD_PATH_URI_PREFIX ++ e) = Some (lit "%00/bad/path/" ++ e)) as Hp
      by by apply strip_prefix_Some.
    cbn [url_parse crate]. rewrite Hp. cbn [fmap option_fmap option_map]. do 2 f_equal.
    change (split_char SLASH (lit "%00/bad/path/" ++ e)) with ([lit "%00"; lit "bad"; lit "path"] ++ split_char SLASH e).
    by rewrite split_char_no_sep.
  - split; [|done]. cbn [url_as_str crate]. rewrite bool_decide_true by done. unfold path, segs. cbn [m_raw file_url map].
    rewrite (drop_slashes_id e He). reflexivity.
Qed.

Lemma from_file_path_law ns :
  Forall (fun n => SLASH ∉ n) ns -> exists u,
    url_from_file_path (path_string (RootDir :: map Normal ns)) = Some u /\ Some (segs u) = Some (to_segs ns) /\
    m_scheme u = FILE_SCHEME /\ m_username u = [] /\ m_password u = None /\ m_host u = None /\
    m_port u = None /\ m_query u = None /\ m_fragment u = None.
Proof.
  intros Hns. exists (file_url (to_segs ns)). split.
  - assert (path_string (RootDir :: map Normal ns) = SLASH :: join [SLASH] (to_segs ns)) as Hp.
    { destruct ns as [|n ns]; [done|]. unfold path_string.
      assert (map component_string (map Normal (n :: ns)) = n :: ns) as Hm by (rewrite map_map; apply map_id).
      change (map component_string (RootDir :: map Normal (n :: ns))) with ([] :: map component_string (map Normal (n :: ns))).
      by rewrite Hm. }
    cbn [url_from_file_path crate]. rewrite Hp.
    assert (strip_prefix [SLASH] (SLASH :: join [SLASH] (to_segs ns)) = Some (join [SLASH] (to_segs ns))) as ->
      by by apply strip_prefix_Some.
    cbn [fmap option_fmap option_map]. rewrite split_char_join; [done|by destruct ns|].
    destruct ns; [repeat constructor; set_solver|done].
  - split; [|done]. f_equal. unfold segs. cbn [m_raw file_url]. rewrite map_drop_slashes_id; [by destruct ns|].
    destruct ns; [repeat constructor; set_solver|done].
Qed.

#[export] Instance laws : UrlLaws t.
Proof.
  split; simpl.
  - intros u _. by eexists.
  - intros u l [= <-]. split; [done|]. apply segs_shape.
  - intros u l [= <-]. split; [apply frame_with_raw|]. apply pop_law.
  - intros u l [= <-]. split; [case_match; [apply frame_with_raw|by repeat split]|]. apply pop_if_empty_law.
  - intros u l n [= <-] Hn. split; [apply frame_with_raw|]. apply push_law. destruct Hn as [Hn| ->]; [|set_solver].
    by apply (proj1 (Forall_singleton (fun n => SLASH ∉ n) n)), plain_names_no_slash, Forall_singleton.
  - intros u l [= <-]. split; [apply frame_with_raw|done].
  - by eexists.
  - intros u v [= <-]. by repeat split.
  - intros u a c b Hp Hc. split; [apply frame_with_raw|]. by apply set_path_law.
  - intros s Hs _. by apply decode_plain.
  - apply decode_slash.
  - by vm_compute.
  - apply decode_upper.
  - intros u _. by eexists.
  - intros bs Hbs. split; [|split].
    + f_equal. rewrite map_map. rewrite <- (map_id bs) at 2. apply map_ext. intros b. lia.
    + intros (b & Hb & Hin)%list_elem_of_fmap. apply (proj1 (Forall_forall _ _) Hbs) in Hin. unfold byte_ok, SLASH in *. lia.
    + by destruct bs.
  - intros bs Hbs. apply opaque_law. intros (b & Hb & Hin)%list_elem_of_fmap.
    apply (proj1 (Forall_forall _ _) Hbs) in Hin. unfold byte_ok, SLASH in *. lia.
  - intros ns Hns. apply from_file_path_law, plain_names_no_slash, Hns.
  - intros u l Hh [= <-] _. unfold path. by rewrite Hh, bool_decide_true.
  - intros u e _ _ Hs. destruct (as_str_law u e Hs) as [Hh Hsegs]. split; [done|]. by rewrite Hsegs.
Defined.
End UrlModel.
Import UrlModel.

Module UriDemo.
Definition url (names : list rstr) : UrlModel.t := UrlModel.file_url names.
Definition w : UrlModel.t := url [lit "w"; lit "src"].
Definition f : UrlModel.t := url [lit "w"; lit "src"; lit "a"; lit "f.rs"].
Definition gap : UrlModel.t := url [lit "w"; []; lit "src"].
End UriDemo.

Lemma demo_parse (names : list rstr) :
  uri_parse (lit "file:///" ++ join [SLASH] names) = Ok (UriDemo.url names) -> valid_uri (UriDemo.url names).
Proof. apply uri_parse_valid. Qed.

Lemma demo_at_names (ns : list rstr) :
  Forall (fun n => plain_name n = true) ns -> valid_uri (UriDemo.url ns) -> at_names (UriDemo.url ns) ns.
Proof.
  intros Hns Hv. destruct (push_all (UrlModel.file_url []) [] ns) as (_ & _ & Hg); [done|apply good_names_nil|done|].
  constructor; [done|done|exact Hg|]. left. simpl. f_equal. unfold UrlModel.segs. simpl.
  by rewrite UrlModel.map_drop_slashes_id by by apply plain_names_no_slash.
Qed.

Lemma uri_containment_prefix_witness :
  uri_starts_with UriDemo.f UriDemo.w = true /\ uri_starts_with UriDemo.w UriDemo.f = false /\
  (uri_starts_with UriDemo.f UriDemo.w = true <-> [lit "w"; lit "src"] `prefix_of` [lit "w"; lit "src"; lit "a"; lit "f.rs"]).
Proof.
  split; [by vm_compute|]. split; [by vm_compute|].
  exact (proj1 (uri_containment_prefix UriDemo.f UriDemo.w [lit "w"; lit "src"; lit "a"; lit "f.rs"] [lit "w"; lit "src"]
                  ltac:(by vm_compute) ltac:(by vm_compute))).
Defined.

Lemma ancestors_reach_root_witness :
  ancestors UriDemo.w = [UriDemo.w; UriDemo.url [lit "w"]; UriDemo.url []] /\
  exists r, last (ancestors UriDemo.w) = Some r /\ uri_parent r = None.
Proof.
  split; [by vm_compute|].
  destruct (ancestors_reach_root UriDemo.w [lit "w"; lit "src"]) as (r & Hr & Hn & _).
  - apply demo_parse. by vm_compute.
  - by vm_compute.
  - exists r. by split.
Defined.

Lemma join_agrees_with_paths_witness :
  exists v ns', uri_join UriDemo.w (lit "./../../../x//y") = Ok v /\ at_names v ns' /\
    abs_join demo_env [RootDir; Normal (lit "w"); Normal (lit "src")] (lit "./../../../x//y") = RootDir :: map Normal ns'.
Proof.
  apply (join_agrees_with_paths demo_env UriDemo.w [lit "w"; lit "src"]).
  - apply demo_at_names; [repeat constructor|apply demo_parse; by vm_compute].
  - repeat constructor.
  - left. split; [done|]. split; [by vm_compute|]. vm_compute. repeat constructor.
  - by vm_compute.
Defined.

Lemma relative_join_roundtrip_witness :
  relative_path_from UriDemo.f UriDemo.w = Some (lit "a/f.rs") /\
  exists s v, relative_path_from UriDemo.f UriDemo.w = Some s /\ uri_join UriDemo.w s = Ok v /\
    at_names v ([lit "w"; lit "src"] ++ [lit "a"; lit "f.rs"]).
Proof.
  split; [by vm_compute|]. apply (relative_join_roundtrip UriDemo.f UriDemo.w).
  - apply demo_at_names; [repeat constructor|apply demo_parse; by vm_compute].
  - apply demo_at_names; [repeat constructor|apply demo_parse; by vm_compute].
  - done.
  - repeat constructor.
Defined.

Lemma built_uri_valid_witness :
  uri_join UriDemo.w (lit "../x") = Ok (UriDemo.url [lit "w"; lit "x"]) /\ valid_uri (UriDemo.url [lit "w"; lit "x"]).
Proof.
  split; [by vm_compute|]. apply built_uri_valid, (built_join UriDemo.w (lit "../x")); [|by vm_compute].
  apply (built_parse (lit "file:///w/src")). by vm_compute.
Defined.

Lemma join_parent_keeps_segment_witness :
  exists v, uri_join UriDemo.gap (lit "../..") = Ok v /\ posix_names UriDemo.gap = Some [lit "w"; lit "src"] /\
    posix_names v = Some [lit "w"].
Proof.
  apply (join_parent_keeps_segment UriDemo.gap (lit "w") (lit "src")); [apply demo_parse|..]; by vm_compute.
Defined.
