(* ===== verification/SandboxPolicy.v ===== *)
(** * File system permissions

    Models the policy of [workx-rs/protocol/src/permissions.rs]: entries that give, limit
    or deny access to paths, how the access to a path is decided, the protection of
    project metadata ([.git], [.agents], [.workx]), the legacy sandbox policies, and,
    of [protocol/src/models.rs], the permission profiles around it. What the code asks
    of the host (environment, files) is the record [Host]; paths are the URIs of
    [PathUri]. The roots handed to the platform sandboxes ([get_writable_roots_with_cwd]
    and the like, which follow symbolic links) are not modelled; the matching of globs is in
    [PolicyTransforms]. *)
From S2P Require Import Prelude AbsPath PathUri.

Set Default Goal Selector "!".

(** [Result::ok]; [uri_join_no_panic] shows that the [unreachable!]s inside are not reached. *)
Definition ok_of {E A} (r : res E A) : option A := match r with Ok a => Some a | _ => None end.

Inductive NetworkSandboxPolicy := NetRestricted | NetEnabled.

Definition net_is_enabled (self : NetworkSandboxPolicy) : bool := match self with NetEnabled => true | NetRestricted => false end.

Inductive FileSystemAccessMode := Read | Write | Deny.

#[export] Instance FileSystemAccessMode_eq_dec : EqDecision FileSystemAccessMode.
Proof. solve_decision. Defined.

(** The derived order: [deny] beats [write], and [write] beats [read]. *)
Definition access_rank (a : FileSystemAccessMode) : nat := match a with Read => 0 | Write => 1 | Deny => 2 end.

Definition can_read (self : FileSystemAccessMode) : bool := negb (bool_decide (self = Deny)).
Definition can_write (self : FileSystemAccessMode) : bool := bool_decide (self = Write).
Definition is_deny (self : FileSystemAccessMode) : bool := bool_decide (self = Deny).

Inductive FileSystemSpecialPath :=
| Root
| Minimal
| ProjectRoots (subpath : option rstr)
| Tmpdir
| SlashTmp
| UnknownPath (path : rstr) (subpath : option rstr).

#[export] Instance FileSystemSpecialPath_eq_dec : EqDecision FileSystemSpecialPath.
Proof. solve_decision. Defined.

Inductive FileSystemSandboxKind := Restricted | Unrestricted | ExternalSandbox.

#[export] Instance FileSystemSandboxKind_eq_dec : EqDecision FileSystemSandboxKind.
Proof. solve_decision. Defined.

Definition PROTECTED_METADATA_PATH_NAMES : list rstr := [lit ".git"; lit ".agents"; lit ".workx"].

(** What the code reads of the process and of the file system. *)
Record Host := {
  h_env : PathEnv;
  h_tmpdir : option rstr;
  h_is_dir : AbsolutePathBuf -> bool;
  h_is_file : AbsolutePathBuf -> bool;
  h_exists : AbsolutePathBuf -> bool;
  h_read_to_string : AbsolutePathBuf -> option rstr;
}.

Section Policy.
Context {Url : Type} `{UrlCrate Url}.
Variable host : Host.
Set Default Proof Using "Type".

Inductive FileSystemPath :=
| PPath (path : Url)
| PGlob (pattern : rstr)
| PSpecial (value : FileSystemSpecialPath).

(** [missing_path_behavior] is [Some(Skip)] or [None]. *)
Record FileSystemSandboxEntry := {
  fe_path : FileSystemPath;
  fe_access : FileSystemAccessMode;
  fe_skip_missing : bool;
}.

Definition entry_new (path : FileSystemPath) (access : FileSystemAccessMode) : FileSystemSandboxEntry :=
  {| fe_path := path; fe_access := access; fe_skip_missing := false |}.

Definition skip_missing_path (path : FileSystemPath) (access : FileSystemAccessMode) : FileSystemSandboxEntry :=
  {| fe_path := path; fe_access := access; fe_skip_missing := true |}.

Record FileSystemSandboxPolicy := {
  fp_kind : FileSystemSandboxKind;
  fp_glob_scan_max_depth : option nat;
  fp_entries : list FileSystemSandboxEntry;
}.

Record FileSystemSandboxPolicyContext := {
  cx_cwd : Url;
  cx_workspace_roots : list Url;
  cx_user_home_dir : option Url;
  cx_temporary_directories : option (list Url);
}.

Definition unrestricted : FileSystemSandboxPolicy :=
  {| fp_kind := Unrestricted; fp_glob_scan_max_depth := None; fp_entries := [] |}.
Definition external_sandbox : FileSystemSandboxPolicy :=
  {| fp_kind := ExternalSandbox; fp_glob_scan_max_depth := None; fp_entries := [] |}.
Definition restricted (entries : list FileSystemSandboxEntry) : FileSystemSandboxPolicy :=
  {| fp_kind := Restricted; fp_glob_scan_max_depth := None; fp_entries := entries |}.
Definition read_only : FileSystemSandboxPolicy := restricted [entry_new (PSpecial Root) Read].

Definition with_entries (self : FileSystemSandboxPolicy) (entries : list FileSystemSandboxEntry)
    : FileSystemSandboxPolicy :=
  {| fp_kind := fp_kind self; fp_glob_scan_max_depth := fp_glob_scan_max_depth self; fp_entries := entries |}.

Definition remove_skip_missing_path_entries (self : FileSystemSandboxPolicy) : FileSystemSandboxPolicy :=
  with_entries self (List.filter (fun entry => negb (fe_skip_missing entry)) (fp_entries self)).

Definition is_restricted (self : FileSystemSandboxPolicy) : bool := bool_decide (fp_kind self = Restricted).

(** *** Comparing entries *)

(** The derived [PartialEq]s, over that of [PathUri]. *)
Definition file_system_path_eq (a b : FileSystemPath) : bool :=
  match a, b with
  | PPath a, PPath b => uri_eq a b
  | PGlob a, PGlob b => streq a b
  | PSpecial a, PSpecial b => bool_decide (a = b)
  | _, _ => false
  end.

Definition entry_eq (a b : FileSystemSandboxEntry) : bool :=
  file_system_path_eq (fe_path a) (fe_path b) && bool_decide (fe_access a = fe_access b)
  && Bool.eqb (fe_skip_missing a) (fe_skip_missing b).

Definition special_paths_share_target (left_ right_ : FileSystemSpecialPath) : bool :=
  match left_, right_ with
  | Root, Root | Minimal, Minimal | Tmpdir, Tmpdir | SlashTmp, SlashTmp => true
  | ProjectRoots l, ProjectRoots r => bool_decide (l = r)
  | UnknownPath l ls, UnknownPath r rs => streq l r && bool_decide (ls = rs)
  | _, _ => false
  end.

(** [Path::parent] of a normalised absolute path. *)
Definition abs_has_parent (path : AbsolutePathBuf) : bool := (1 <? length path)%nat.

Definition SLASH_TMP : AbsolutePathBuf := [RootDir; Normal (lit "tmp")].

Definition special_path_matches_absolute_path (value : FileSystemSpecialPath) (path : AbsolutePathBuf) : bool :=
  match value with
  | Root => negb (abs_has_parent path)
  | SlashTmp => bool_decide (path = SLASH_TMP)
  | _ => false
  end.

Definition file_system_paths_share_target (left_ right_ : FileSystemPath) : bool :=
  let special_and_path value path :=
    match to_abs_path (h_env host) path with
    | Ok path => special_path_matches_absolute_path value path
    | _ => false
    end in
  match left_, right_ with
  | PPath l, PPath r => uri_eq l r
  | PSpecial l, PSpecial r => special_paths_share_target l r
  | PPath path, PSpecial value => special_and_path value path
  | PSpecial value, PPath path => special_and_path value path
  | PGlob l, PGlob r => streq l r
  | PGlob _, _ | _, PGlob _ => false
  end.

(** *** What a policy as a whole allows *)

Definition has_root_access (self : FileSystemSandboxPolicy) (predicate : FileSystemAccessMode -> bool) : bool :=
  is_restricted self &&
  existsb (fun entry => match fe_path entry with
                        | PSpecial Root => predicate (fe_access entry)
                        | _ => false
                        end) (fp_entries self).

Definition has_denied_read_restrictions (self : FileSystemSandboxPolicy) : bool :=
  is_restricted self && existsb (fun entry => is_deny (fe_access entry)) (fp_entries self).

Definition has_same_target_write_override (self : FileSystemSandboxPolicy) (entry : FileSystemSandboxEntry) : bool :=
  existsb (fun candidate =>
    can_write (fe_access candidate)
    && (access_rank (fe_access entry) <? access_rank (fe_access candidate))%nat
    && file_system_paths_share_target (fe_path candidate) (fe_path entry)) (fp_entries self).

Definition narrows_write (self : FileSystemSandboxPolicy) (entry : FileSystemSandboxEntry) : bool :=
  if can_write (fe_access entry) then false
  else match fe_path entry with
       | PPath _ => negb (has_same_target_write_override self entry)
       | PGlob _ => true
       | PSpecial Root => is_deny (fe_access entry)
       | PSpecial Minimal | PSpecial (UnknownPath _ _) => false
       | PSpecial _ => negb (has_same_target_write_override self entry)
       end.

Definition has_write_narrowing_entries (self : FileSystemSandboxPolicy) : bool :=
  is_restricted self && existsb (narrows_write self) (fp_entries self).

Definition has_full_disk_read_access (self : FileSystemSandboxPolicy) : bool :=
  match fp_kind self with
  | Unrestricted | ExternalSandbox => true
  | Restricted => has_root_access self can_read && negb (has_denied_read_restrictions self)
  end.

Definition has_full_disk_write_access (self : FileSystemSandboxPolicy) : bool :=
  match fp_kind self with
  | Unrestricted | ExternalSandbox => true
  | Restricted => has_root_access self can_write && negb (has_write_narrowing_entries self)
  end.

Definition include_platform_defaults (self : FileSystemSandboxPolicy) : bool :=
  negb (has_full_disk_read_access self) && is_restricted self
  && existsb (fun entry => match fe_path entry with
                           | PSpecial Minimal => can_read (fe_access entry)
                           | _ => false
                           end) (fp_entries self).

(** *** The access to a path *)

Definition file_system_root (context : FileSystemSandboxPolicyContext) : option Url :=
  match lexical_depth (cx_cwd context) with
  | Some _ => last (ancestors (cx_cwd context))
  | None => None
  end.

Definition entry_paths (context : FileSystemSandboxPolicyContext) (path : FileSystemPath) : list Url :=
  let convention := infer_path_convention (cx_cwd context) in
  match path with
  | PPath path => [path]
  | PGlob _ => []
  | PSpecial Root => option_list (file_system_root context)
  | PSpecial (ProjectRoots subpath) =>
      omap (fun root => match subpath with Some subpath => ok_of (uri_join root subpath) | None => Some root end)
        (cx_workspace_roots context)
  | PSpecial Tmpdir => default [] (cx_temporary_directories context)
  | PSpecial SlashTmp =>
      if bool_decide (convention = Some Posix) then option_list (ok_of (uri_join (cx_cwd context) (lit "/tmp"))) else []
  | PSpecial Minimal | PSpecial (UnknownPath _ _) => []
  end.

Definition resolved_entries (self : FileSystemSandboxPolicy) (context : FileSystemSandboxPolicyContext)
    : list (Url * FileSystemAccessMode) :=
  let convention := infer_path_convention (cx_cwd context) in
  flat_map (fun entry =>
    map (fun path => (path, fe_access entry))
      (List.filter (fun path => bool_decide (infer_path_convention path = convention))
         (entry_paths context (fe_path entry)))) (fp_entries self).

(** The [try_fold] over the resolved entries: [None] when a root has no lexical depth. *)
Fixpoint with_depths (entries : list (Url * FileSystemAccessMode)) : option (list (Url * FileSystemAccessMode * nat)) :=
  match entries with
  | [] => Some []
  | (root, access) :: entries =>
      match lexical_depth root with
      | Some depth => rest ← with_depths entries; Some ((root, access, depth) :: rest)
      | None => if is_opaque root then with_depths entries else None
      end
  end.

(** [(depth, access)] in the order of tuples. *)
Definition key_leb (a b : nat * FileSystemAccessMode) : bool :=
  (a.1 <? b.1)%nat || ((a.1 =? b.1)%nat && (access_rank a.2 <=? access_rank b.2)%nat).

(** [Iterator::max_by_key]. *)
Definition max_key (keys : list (nat * FileSystemAccessMode)) : option (nat * FileSystemAccessMode) :=
  foldl (fun best k => match best with
                       | None => Some k
                       | Some b => if key_leb b k then Some k else Some b
                       end) None keys.

Definition resolve_access (self : FileSystemSandboxPolicy) (path : Url) (context : FileSystemSandboxPolicyContext)
    : FileSystemAccessMode :=
  match fp_kind self with
  | Unrestricted | ExternalSandbox => Write
  | Restricted =>
      match infer_path_convention (cx_cwd context) with
      | None => Deny
      | Some convention =>
          if negb (bool_decide (infer_path_convention path = Some convention))
             || bool_decide (lexical_depth path = None) || bool_decide (lexical_depth (cx_cwd context) = None)
          then Deny
          else
            match with_depths (resolved_entries self context) with
            | None => Deny
            | Some entries =>
                let matching := List.filter (fun e => uri_starts_with path e.1.1) entries in
                match max_key (map (fun e => (e.2, e.1.2)) matching) with
                | Some (_, access) => access
                | None => Deny
                end
            end
      end
  end.

(** *** Metadata *)

(** The first protected directory of a writable root that the path is in. *)
Fixpoint find_protected (names : list rstr) (root path : Url) : option (Url * rstr) :=
  match names with
  | [] => None
  | metadata_name :: names =>
      match join_descendant root metadata_name with
      | Ok protected =>
          if uri_starts_with path protected then Some (protected, metadata_name) else find_protected names root path
      | _ => find_protected names root path
      end
  end.

Fixpoint first_protected (entries : list (Url * FileSystemAccessMode)) (path : Url) : option (Url * rstr) :=
  match entries with
  | [] => None
  | (root, access) :: entries =>
      match (if can_write access then find_protected PROTECTED_METADATA_PATH_NAMES root path else None) with
      | Some found => Some found
      | None => first_protected entries path
      end
  end.

Definition metadata_write_denial (self : FileSystemSandboxPolicy) (path : Url)
    (context : FileSystemSandboxPolicyContext) : option rstr :=
  if negb (is_restricted self) then None
  else
    let entries := resolved_entries self context in
    match first_protected entries path with
    | None => None
    | Some (protected, metadata_name) =>
        if existsb (fun e => can_write e.2 && uri_starts_with path e.1 && uri_starts_with e.1 protected) entries
        then None else Some metadata_name
    end.

Definition can_write_path (self : FileSystemSandboxPolicy) (path : Url) (context : FileSystemSandboxPolicyContext) : bool :=
  if negb (can_write (resolve_access self path context)) then false
  else has_full_disk_write_access self || bool_decide (metadata_write_denial self path context = None).

(** *** Paths of this host *)

Definition resolve_candidate_path (path cwd : rstr) : option AbsolutePathBuf :=
  if is_absolute path then ok_of (from_absolute_path (h_env host) path)
  else cwd ← ok_of (from_absolute_path (h_env host) cwd); Some (abs_join (h_env host) cwd path).

Definition uri_of (path : AbsolutePathBuf) : option Url := ok_of (from_abs_path (path_string path)).

Definition local_temporary_directories : list Url :=
  match h_tmpdir host with
  | Some tmpdir =>
      if is_empty tmpdir then []
      else option_list (path ← ok_of (from_absolute_path (h_env host) tmpdir); uri_of path)
  | None => []
  end.

Definition with_local_policy_context {T} (path cwd : rstr) (evaluate : Url -> FileSystemSandboxPolicyContext -> T)
    : option T :=
  cwd ← ok_of (from_absolute_path (h_env host) cwd);
  path ← resolve_candidate_path path (path_string cwd);
  path ← uri_of path;
  cwd ← uri_of cwd;
  let context :=
    {| cx_cwd := cwd; cx_workspace_roots := [cwd];
       cx_user_home_dir := ok_of (from_host_native_path (h_env host) (lit "~"));
       cx_temporary_directories := Some local_temporary_directories |} in
  Some (evaluate path context).

Definition resolve_access_with_cwd (self : FileSystemSandboxPolicy) (path cwd : rstr) : FileSystemAccessMode :=
  default Deny (with_local_policy_context path cwd (resolve_access self)).

Definition can_read_path_with_cwd (self : FileSystemSandboxPolicy) (path cwd : rstr) : bool :=
  can_read (resolve_access_with_cwd self path cwd).

Definition can_write_path_with_cwd (self : FileSystemSandboxPolicy) (path cwd : rstr) : bool :=
  default false (with_local_policy_context path cwd (can_write_path self)).

Definition forbidden_agent_metadata_write (path cwd : rstr) (self : FileSystemSandboxPolicy) : option rstr :=
  if negb (is_restricted self) then None
  else
    denial ← with_local_policy_context path cwd (fun path context =>
      match metadata_write_denial self path context with
      | Some name => if can_write_path self path context then None else Some name
      | None => None
      end);
    denial.

Definition absolute_root_path_for_cwd (cwd : AbsolutePathBuf) : AbsolutePathBuf := take 1 cwd.

Definition resolve_file_system_special_path (value : FileSystemSpecialPath) (cwd : option AbsolutePathBuf)
    : option AbsolutePathBuf :=
  match value with
  | Root | Minimal | UnknownPath _ _ => None
  | ProjectRoots subpath =>
      cwd ← cwd;
      match subpath with
      | Some subpath => Some (resolve_path_against_base (h_env host) subpath (path_string cwd))
      | None => Some cwd
      end
  | Tmpdir =>
      tmpdir ← h_tmpdir host;
      if is_empty tmpdir then None else ok_of (from_absolute_path (h_env host) tmpdir)
  | SlashTmp => if h_is_dir host SLASH_TMP then Some SLASH_TMP else None
  end.

Definition resolve_file_system_path (path : FileSystemPath) (cwd : option AbsolutePathBuf) : option AbsolutePathBuf :=
  match path with
  | PPath path => ok_of (to_abs_path (h_env host) path)
  | PGlob _ => None
  | PSpecial value => resolve_file_system_special_path value cwd
  end.

Definition resolve_entry_path (path : FileSystemPath) (cwd : option AbsolutePathBuf) : option AbsolutePathBuf :=
  match path with
  | PSpecial Root => absolute_root_path_for_cwd <$> cwd
  | _ => resolve_file_system_path path cwd
  end.

Definition resolved_entries_with_cwd (self : FileSystemSandboxPolicy) (cwd : rstr)
    : list (AbsolutePathBuf * FileSystemAccessMode) :=
  let cwd_absolute := ok_of (from_absolute_path (h_env host) cwd) in
  omap (fun entry => (fun path => (path, fe_access entry)) <$> resolve_entry_path (fe_path entry) cwd_absolute)
    (fp_entries self).

Definition has_explicit_non_write_entry_for_path_with_cwd (self : FileSystemSandboxPolicy) (path cwd : rstr) : bool :=
  match resolve_candidate_path path cwd with
  | None => false
  | Some path =>
      let cwd := ok_of (from_absolute_path (h_env host) cwd) in
      existsb (fun entry => negb (fe_skip_missing entry) && negb (can_write (fe_access entry))
                            && bool_decide (resolve_entry_path (fe_path entry) cwd = Some path)) (fp_entries self)
  end.

Definition has_writable_roots_with_cwd (self : FileSystemSandboxPolicy) (cwd : rstr) : bool :=
  negb (has_full_disk_write_access self)
  && existsb (fun e => can_write e.2 && can_write_path_with_cwd self (path_string e.1) cwd)
       (resolved_entries_with_cwd self cwd).

(** *** Building policies *)

Definition append_default_read_only_entry_if_no_explicit_rule (entries : list FileSystemSandboxEntry)
    (path : FileSystemPath) : list FileSystemSandboxEntry :=
  if existsb (fun entry => file_system_paths_share_target (fe_path entry) path) entries then entries
  else entries ++ [skip_missing_path path Read].

Definition append_default_read_only_path_if_no_explicit_rule (entries : list FileSystemSandboxEntry)
    (path : AbsolutePathBuf) : list FileSystemSandboxEntry :=
  match uri_of path with
  | Some path => append_default_read_only_entry_if_no_explicit_rule entries (PPath path)
  | None => entries
  end.

(** [HashSet::insert] decides which paths are kept. *)
Definition dedup_paths (paths : list AbsolutePathBuf) : list AbsolutePathBuf :=
  foldl (fun deduped path => if bool_decide (path ∈ deduped) then deduped else deduped ++ [path]) [] paths.

Definition is_git_pointer_file (path : AbsolutePathBuf) : bool :=
  h_is_file host path && bool_decide (file_name path = Some (lit ".git")).

Definition resolve_gitdir_from_file (dot_git : AbsolutePathBuf) : option AbsolutePathBuf :=
  contents ← h_read_to_string host dot_git;
  let trimmed := trim contents in
  '(prefix, gitdir_raw) ← split_once COLON trimmed;
  if negb (streq (trim prefix) (lit "gitdir")) then None
  else
    let gitdir_raw := trim gitdir_raw in
    if is_empty gitdir_raw then None
    else if negb (abs_has_parent dot_git) then None
    else
      let base := pop_component dot_git in
      let gitdir_path := resolve_path_against_base (h_env host) gitdir_raw (path_string base) in
      if h_exists host gitdir_path then Some gitdir_path else None.

Definition default_read_only_subpaths_for_writable_root (writable_root : AbsolutePathBuf)
    (protect_missing_dot_workx : bool) : list AbsolutePathBuf :=
  let join name := abs_join (h_env host) writable_root (lit name) in
  let top_level_git := join ".git"%string in
  let top_level_git_is_file := h_is_file host top_level_git in
  let git :=
    if h_is_dir host top_level_git || top_level_git_is_file then
      (if top_level_git_is_file && is_git_pointer_file top_level_git
       then option_list (resolve_gitdir_from_file top_level_git) else []) ++ [top_level_git]
    else [] in
  let top_level_agents := join ".agents"%string in
  let agents := if h_is_dir host top_level_agents then [top_level_agents] else [] in
  let top_level_workx := join ".workx"%string in
  let workx := if protect_missing_dot_workx || h_is_dir host top_level_workx then [top_level_workx] else [] in
  dedup_paths (git ++ agents ++ workx).

Definition entry_of_path (access : FileSystemAccessMode) (path : AbsolutePathBuf) : option FileSystemSandboxEntry :=
  (fun path => entry_new (PPath path) access) <$> uri_of path.

Definition protect_root (protect_missing_dot_workx : bool) (entries : list FileSystemSandboxEntry)
    (writable_root : AbsolutePathBuf) : list FileSystemSandboxEntry :=
  foldl append_default_read_only_path_if_no_explicit_rule entries
    (default_read_only_subpaths_for_writable_root writable_root protect_missing_dot_workx).

Definition workspace_entries (writable_roots : list AbsolutePathBuf) (exclude_tmpdir_env_var exclude_slash_tmp : bool)
    : list FileSystemSandboxEntry :=
  [entry_new (PSpecial Root) Read; entry_new (PSpecial (ProjectRoots None)) Write]
  ++ (if exclude_slash_tmp then [] else [entry_new (PSpecial SlashTmp) Write])
  ++ (if exclude_tmpdir_env_var then [] else [entry_new (PSpecial Tmpdir) Write])
  ++ omap (entry_of_path Write) writable_roots.

Definition workspace_write (writable_roots : list AbsolutePathBuf) (exclude_tmpdir_env_var exclude_slash_tmp : bool)
    : FileSystemSandboxPolicy :=
  let entries := workspace_entries writable_roots exclude_tmpdir_env_var exclude_slash_tmp in
  let entries :=
    foldl append_default_read_only_entry_if_no_explicit_rule entries
      (map (fun name => PSpecial (ProjectRoots (Some (lit name)))) [".git"; ".agents"; ".workx"]%string) in
  restricted (foldl (protect_root false) entries writable_roots).

(** *** Legacy policies *)

Inductive NetworkAccess := NARestricted | NAEnabled.

Inductive SandboxPolicy :=
| DangerFullAccess
| ReadOnly (network_access : bool)
| SPExternalSandbox (network_access : NetworkAccess)
| WorkspaceWrite (writable_roots : list AbsolutePathBuf) (network_access exclude_tmpdir_env_var exclude_slash_tmp : bool).

Definition has_full_network_access (self : SandboxPolicy) : bool :=
  match self with
  | DangerFullAccess => true
  | SPExternalSandbox network_access => match network_access with NAEnabled => true | NARestricted => false end
  | ReadOnly network_access => network_access
  | WorkspaceWrite _ network_access _ _ => network_access
  end.

Definition network_from_legacy (value : SandboxPolicy) : NetworkSandboxPolicy :=
  if has_full_network_access value then NetEnabled else NetRestricted.

Definition from_legacy (value : SandboxPolicy) : FileSystemSandboxPolicy :=
  match value with
  | DangerFullAccess => unrestricted
  | SPExternalSandbox _ => external_sandbox
  | ReadOnly _ => restricted [entry_new (PSpecial Root) Read]
  | WorkspaceWrite writable_roots _ exclude_tmpdir_env_var exclude_slash_tmp =>
      workspace_write writable_roots exclude_tmpdir_env_var exclude_slash_tmp
  end.

Definition from_legacy_sandbox_policy_for_cwd (sandbox_policy : SandboxPolicy) (cwd : rstr) : FileSystemSandboxPolicy :=
  let file_system_policy := from_legacy sandbox_policy in
  match sandbox_policy with
  | WorkspaceWrite writable_roots _ _ _ =>
      let entries :=
        match ok_of (from_absolute_path (h_env host) cwd) with
        | Some cwd_root => protect_root true (fp_entries file_system_policy) cwd_root
        | None => fp_entries file_system_policy
        end in
      with_entries file_system_policy (foldl (protect_root false) entries writable_roots)
  | _ => file_system_policy
  end.

(** The loop over the deny entries of another policy. *)
Definition push_deny_entries (entries : list FileSystemSandboxEntry) (existing : FileSystemSandboxPolicy)
    : list FileSystemSandboxEntry :=
  foldl (fun entries deny_entry => if existsb (fun entry => entry_eq entry deny_entry) entries then entries
                                   else entries ++ [deny_entry]) entries
    (List.filter (fun entry => is_deny (fe_access entry)) (fp_entries existing)).

Definition from_legacy_sandbox_policy_preserving_deny_entries (sandbox_policy : SandboxPolicy) (cwd : rstr)
    (existing : FileSystemSandboxPolicy) : FileSystemSandboxPolicy :=
  let rebuilt := from_legacy_sandbox_policy_for_cwd sandbox_policy cwd in
  if negb (is_restricted rebuilt) then rebuilt
  else {| fp_kind := fp_kind rebuilt; fp_glob_scan_max_depth := fp_glob_scan_max_depth existing;
          fp_entries := push_deny_entries (fp_entries rebuilt) existing |}.

Definition preserve_deny_read_restrictions_from (self existing : FileSystemSandboxPolicy) : FileSystemSandboxPolicy :=
  let has_deny_read_entries := existsb (fun entry => is_deny (fe_access entry)) (fp_entries existing) in
  let self :=
    if bool_decide (fp_kind self = Unrestricted) && has_deny_read_entries
    then restricted [entry_new (PSpecial Root) Write] else self in
  if negb (is_restricted self) then self
  else
    {| fp_kind := fp_kind self;
       fp_glob_scan_max_depth :=
         match fp_glob_scan_max_depth self with None => fp_glob_scan_max_depth existing | Some d => Some d end;
       fp_entries := push_deny_entries (fp_entries self) existing |}.

Inductive LegacyError := LegacyPath | LegacyUnsupportedWrites.

(** The flags of the loop of [to_legacy_sandbox_policy]. *)
Record LegacyScan := {
  ls_workspace_root_writable : bool;
  ls_writable_roots : list AbsolutePathBuf;
  ls_tmpdir_writable : bool;
  ls_slash_tmp_writable : bool;
  ls_unbridgeable_root_write : bool;
}.

Definition legacy_scan_entry (cwd_absolute : option AbsolutePathBuf) (st : LegacyScan) (entry : FileSystemSandboxEntry)
    : res LegacyError LegacyScan :=
  let writable := can_write (fe_access entry) in
  let '{| ls_workspace_root_writable := w; ls_writable_roots := roots; ls_tmpdir_writable := t;
          ls_slash_tmp_writable := s; ls_unbridgeable_root_write := r |} := st in
  match fe_path entry with
  | PGlob _ => Ok st
  | PPath path =>
      if writable then
        match to_abs_path (h_env host) path with
        | Ok path =>
            if bool_decide (cwd_absolute = Some path) then
              Ok {| ls_workspace_root_writable := true; ls_writable_roots := roots; ls_tmpdir_writable := t;
                    ls_slash_tmp_writable := s; ls_unbridgeable_root_write := r |}
            else
              Ok {| ls_workspace_root_writable := w; ls_writable_roots := roots ++ [path]; ls_tmpdir_writable := t;
                    ls_slash_tmp_writable := s; ls_unbridgeable_root_write := r |}
        | Err _ => Err LegacyPath
        | Panic => Panic
        end
      else Ok st
  | PSpecial value =>
      match value with
      | Root =>
          Ok {| ls_workspace_root_writable := w; ls_writable_roots := roots; ls_tmpdir_writable := t;
                ls_slash_tmp_writable := s; ls_unbridgeable_root_write := r || writable |}
      | Minimal | UnknownPath _ _ => Ok st
      | ProjectRoots subpath =>
          if bool_decide (subpath = None) && writable then
            Ok {| ls_workspace_root_writable := true; ls_writable_roots := roots; ls_tmpdir_writable := t;
                  ls_slash_tmp_writable := s; ls_unbridgeable_root_write := r |}
          else
            match resolve_file_system_special_path value cwd_absolute with
            | Some path =>
                if writable then
                  Ok {| ls_workspace_root_writable := w; ls_writable_roots := roots ++ [path]; ls_tmpdir_writable := t;
                        ls_slash_tmp_writable := s; ls_unbridgeable_root_write := r |}
                else Ok st
            | None => Ok st
            end
      | Tmpdir =>
          Ok {| ls_workspace_root_writable := w; ls_writable_roots := roots; ls_tmpdir_writable := t || writable;
                ls_slash_tmp_writable := s; ls_unbridgeable_root_write := r |}
      | SlashTmp =>
          Ok {| ls_workspace_root_writable := w; ls_writable_roots := roots; ls_tmpdir_writable := t;
                ls_slash_tmp_writable := s || writable; ls_unbridgeable_root_write := r |}
      end
  end.

Definition to_legacy_sandbox_policy (self : FileSystemSandboxPolicy) (network_policy : NetworkSandboxPolicy) (cwd : rstr)
    : res LegacyError SandboxPolicy :=
  let enabled := net_is_enabled network_policy in
  match fp_kind self with
  | ExternalSandbox => Ok (SPExternalSandbox (if enabled then NAEnabled else NARestricted))
  | Unrestricted => Ok (if enabled then DangerFullAccess else SPExternalSandbox NARestricted)
  | Restricted =>
      let cwd_absolute := ok_of (from_absolute_path (h_env host) cwd) in
      st ← fold_res (legacy_scan_entry cwd_absolute)
             {| ls_workspace_root_writable := false; ls_writable_roots := []; ls_tmpdir_writable := false;
                ls_slash_tmp_writable := false; ls_unbridgeable_root_write := false |} (fp_entries self);
      if has_full_disk_write_access self then
        Ok (if enabled then DangerFullAccess else SPExternalSandbox NARestricted)
      else if ls_workspace_root_writable st then
        Ok (WorkspaceWrite (dedup_paths (ls_writable_roots st)) enabled (negb (ls_tmpdir_writable st))
              (negb (ls_slash_tmp_writable st)))
      else if ls_unbridgeable_root_write st || negb (is_empty (ls_writable_roots st)) || ls_tmpdir_writable st
              || ls_slash_tmp_writable st
      then Err LegacyUnsupportedWrites
      else Ok (ReadOnly enabled)
  end.

(** *** Materialised and additional roots *)

Definition PROJECT_ROOTS_GLOB_PATTERN_PREFIX : rstr := lit "workx-project-roots://".

Definition parse_project_roots_glob_pattern (pattern : rstr) : option rstr :=
  strip_prefix PROJECT_ROOTS_GLOB_PATTERN_PREFIX pattern.

Definition resolve_project_roots_glob_pattern (subpath : rstr) (root : AbsolutePathBuf) : rstr :=
  path_string (resolve_path_against_base (h_env host) subpath (path_string root)).

Definition with_path (entry : FileSystemSandboxEntry) (path : FileSystemPath) : FileSystemSandboxEntry :=
  {| fe_path := path; fe_access := fe_access entry; fe_skip_missing := fe_skip_missing entry |}.

Definition materialize_entry_with_cwd (cwd : option AbsolutePathBuf) (entry : FileSystemSandboxEntry)
    : FileSystemSandboxEntry :=
  match fe_path entry with
  | PSpecial (ProjectRoots _) =>
      match resolve_file_system_path (fe_path entry) cwd ≫= uri_of with
      | Some path => with_path entry (PPath path)
      | None => entry
      end
  | PGlob pattern =>
      match cwd, parse_project_roots_glob_pattern pattern with
      | Some cwd, Some subpath => with_path entry (PGlob (resolve_project_roots_glob_pattern subpath cwd))
      | _, _ => entry
      end
  | PSpecial _ | PPath _ => entry
  end.

Definition materialize_project_roots_with_cwd (self : FileSystemSandboxPolicy) (cwd : rstr) : FileSystemSandboxPolicy :=
  let cwd := ok_of (from_absolute_path (h_env host) cwd) in
  with_entries self (map (materialize_entry_with_cwd cwd) (fp_entries self)).

Definition materialize_entry (workspace_roots : list AbsolutePathBuf) (entry : FileSystemSandboxEntry)
    : list FileSystemSandboxEntry :=
  match fe_path entry with
  | PSpecial (ProjectRoots subpath) =>
      omap (fun root =>
        path ← uri_of (match subpath with
                       | Some subpath => resolve_path_against_base (h_env host) subpath (path_string root)
                       | None => root
                       end);
        Some (with_path entry (PPath path))) workspace_roots
  | PGlob pattern =>
      match parse_project_roots_glob_pattern pattern with
      | Some subpath =>
          map (fun root => with_path entry (PGlob (resolve_project_roots_glob_pattern subpath root))) workspace_roots
      | None => [entry]
      end
  | PPath _ | PSpecial _ => [entry]
  end.

Definition materialize_project_roots_with_workspace_roots (self : FileSystemSandboxPolicy)
    (workspace_roots : list AbsolutePathBuf) : FileSystemSandboxPolicy :=
  with_entries self (flat_map (materialize_entry workspace_roots) (fp_entries self)).

Definition with_materialized_project_roots_for_workspace_roots (self : FileSystemSandboxPolicy)
    (workspace_roots : list AbsolutePathBuf) : FileSystemSandboxPolicy :=
  let materialized := materialize_project_roots_with_workspace_roots self workspace_roots in
  with_entries self
    (foldl (fun entries entry => if existsb (fun e => entry_eq e entry) entries then entries else entries ++ [entry])
       (fp_entries self) (fp_entries materialized)).

Definition push_root (access : FileSystemAccessMode) (self : FileSystemSandboxPolicy) (path : AbsolutePathBuf)
    : FileSystemSandboxPolicy :=
  with_entries self (fp_entries self ++ option_list (entry_of_path access path)).

Definition with_additional_readable_roots (self : FileSystemSandboxPolicy) (cwd : rstr)
    (additional_readable_roots : list AbsolutePathBuf) : FileSystemSandboxPolicy :=
  if has_full_disk_read_access self then self
  else foldl (fun self path => if can_read_path_with_cwd self (path_string path) cwd then self else push_root Read self path)
         self additional_readable_roots.

Definition with_additional_writable_roots (self : FileSystemSandboxPolicy) (cwd : rstr)
    (additional_writable_roots : list AbsolutePathBuf) : FileSystemSandboxPolicy :=
  foldl (fun self path => if can_write_path_with_cwd self (path_string path) cwd then self else push_root Write self path)
    self additional_writable_roots.

Definition with_additional_legacy_workspace_writable_roots (self : FileSystemSandboxPolicy)
    (additional_writable_roots : list AbsolutePathBuf) : FileSystemSandboxPolicy :=
  if negb (is_restricted self) then self
  else
    with_entries self
      (foldl (fun entries path =>
         let present :=
           match uri_of path with
           | Some uri => existsb (fun entry => can_write (fe_access entry)
                                               && match fe_path entry with PPath p => uri_eq p uri | _ => false end) entries
           | None => false
           end in
         let entries := if present then entries else entries ++ option_list (entry_of_path Write path) in
         protect_root false entries path) (fp_entries self) additional_writable_roots).

(** ** [protocol/src/models.rs]: permission profiles *)

Inductive ManagedFileSystemPermissions :=
| MRestricted (entries : list FileSystemSandboxEntry) (glob_scan_max_depth : option nat)
| MUnrestricted.

Inductive PermissionProfile :=
| Managed (file_system : ManagedFileSystemPermissions) (network : NetworkSandboxPolicy)
| Disabled
| External (network : NetworkSandboxPolicy).

(** [NonZeroUsize::new]. *)
Definition non_zero (n : nat) : option nat := match n with O => None | _ => Some n end.

(** [Panic] is the [unreachable!] for external policies. *)
Definition from_sandbox_policy (policy : FileSystemSandboxPolicy) : res unit ManagedFileSystemPermissions :=
  match fp_kind policy with
  | Restricted => Ok (MRestricted (fp_entries policy) (fp_glob_scan_max_depth policy ≫= non_zero))
  | Unrestricted => Ok MUnrestricted
  | ExternalSandbox => Panic
  end.

Definition to_sandbox_policy (self : ManagedFileSystemPermissions) : FileSystemSandboxPolicy :=
  match self with
  | MRestricted entries glob_scan_max_depth =>
      {| fp_kind := Restricted; fp_glob_scan_max_depth := glob_scan_max_depth; fp_entries := entries |}
  | MUnrestricted => unrestricted
  end.

Definition file_system_sandbox_policy (self : PermissionProfile) : FileSystemSandboxPolicy :=
  match self with
  | Managed file_system _ => to_sandbox_policy file_system
  | Disabled => unrestricted
  | External _ => external_sandbox
  end.

Definition network_sandbox_policy (self : PermissionProfile) : NetworkSandboxPolicy :=
  match self with
  | Managed _ network | External network => network
  | Disabled => NetEnabled
  end.

Inductive SandboxEnforcement := EManaged | EDisabled | EExternal.

Definition from_runtime_permissions_with_enforcement (enforcement : SandboxEnforcement) (policy : FileSystemSandboxPolicy)
    (network : NetworkSandboxPolicy) : res unit PermissionProfile :=
  match fp_kind policy, enforcement with
  | ExternalSandbox, _ => Ok (External network)
  | Unrestricted, EDisabled => Ok Disabled
  | Restricted, _ | Unrestricted, _ => file_system ← from_sandbox_policy policy; Ok (Managed file_system network)
  end.

Definition from_runtime_permissions (policy : FileSystemSandboxPolicy) (network : NetworkSandboxPolicy)
    : res unit PermissionProfile :=
  let enforcement := match fp_kind policy with Restricted | Unrestricted => EManaged | ExternalSandbox => EExternal end in
  from_runtime_permissions_with_enforcement enforcement policy network.

Definition read_only_access (a : FileSystemAccessMode) : FileSystemAccessMode :=
  match a with Read | Write => Read | Deny => Deny end.

Definition intersect_with_read_only (self : PermissionProfile) : res unit (option PermissionProfile) :=
  let file_system := file_system_sandbox_policy self in
  match fp_kind file_system with
  | Restricted =>
      let entries :=
        map (fun entry => {| fe_path := fe_path entry; fe_access := read_only_access (fe_access entry);
                             fe_skip_missing := fe_skip_missing entry |}) (fp_entries file_system) in
      Some <$> from_runtime_permissions (with_entries file_system entries) NetRestricted
  | Unrestricted => Some <$> from_runtime_permissions read_only NetRestricted
  | ExternalSandbox => Ok None
  end.
End Policy.
