(* ===== verification/SandboxAccess.v ===== *)
(** * The access a policy gives

    Theorems on [SandboxPolicy]: the access to a POSIX path is that of the most specific
    entry around it, full write access means what it says, deny entries survive when a
    policy is rebuilt, and project metadata stays protected. *)
From S2P Require Import Prelude AbsPath StreamText InlineTag Utf8Stream PathUri PathUriJoin SandboxPolicy.

Set Default Goal Selector "!".

(** ** The largest key *)

Lemma key_leb_refl k : key_leb k k = true.
Proof. unfold key_leb. rewrite Nat.eqb_refl, Nat.leb_refl. by rewrite orb_true_r. Qed.

Lemma key_leb_spec a b :
  key_leb a b = true <-> a.1 < b.1 \/ (a.1 = b.1 /\ access_rank a.2 <= access_rank b.2).
Proof. unfold key_leb. rewrite orb_true_iff, andb_true_iff, Nat.ltb_lt, Nat.eqb_eq, Nat.leb_le. done. Qed.

Lemma key_leb_total a b : key_leb a b = false -> key_leb b a = true.
Proof.
  intros H. apply not_true_iff_false in H. rewrite key_leb_spec in *. lia.
Qed.

Lemma key_leb_trans a b c : key_leb a b = true -> key_leb b c = true -> key_leb a c = true.
Proof. rewrite !key_leb_spec. lia. Qed.

Lemma max_key_from best keys k :
  foldl (fun best k => match best with None => Some k | Some b => if key_leb b k then Some k else Some b end)
    (Some best) keys = Some k ->
  (k = best \/ k ∈ keys) /\ key_leb best k = true /\ forall k', k' ∈ keys -> key_leb k' k = true.
Proof.
  revert best. induction keys as [|x keys IH]; intros best; simpl.
  - intros [= <-]. split; [by left|]. split; [apply key_leb_refl|]. intros k' Hk. set_solver.
  - destruct (key_leb best x) eqn:E; intros Hk; destruct (IH _ Hk) as (Hin & Hle & Hall).
    + split; [set_solver|]. split; [by eapply key_leb_trans|].
      intros k' Hk'. rewrite elem_of_cons in Hk'. destruct Hk' as [->|Hk']; [done|by apply Hall].
    + split; [set_solver|]. split; [done|].
      intros k' Hk'. rewrite elem_of_cons in Hk'. destruct Hk' as [->|Hk']; [|by apply Hall].
      eapply key_leb_trans; [by apply key_leb_total|done].
Qed.

Lemma max_key_Some keys k :
  max_key keys = Some k -> k ∈ keys /\ forall k', k' ∈ keys -> key_leb k' k = true.
Proof.
  destruct keys as [|x keys]; [done|]. unfold max_key. simpl. intros Hk.
  destruct (max_key_from x keys k Hk) as (Hin & Hle & Hall). split; [set_solver|].
  intros k' Hk'. rewrite elem_of_cons in Hk'. destruct Hk' as [->|Hk']; [done|by apply Hall].
Qed.

Lemma max_key_None keys : max_key keys = None -> keys = [].
Proof.
  destruct keys as [|x keys]; [done|]. unfold max_key. simpl. intros Hk. exfalso. revert x Hk.
  induction keys as [|y keys IH]; intros x; simpl; [done|]. destruct (key_leb x y); apply IH.
Qed.

(** Only the largest key matters. *)
Lemma max_key_unique keys k :
  k ∈ keys -> (forall k', k' ∈ keys -> key_leb k' k = true) -> max_key keys = Some k.
Proof.
  intros Hin Hall. destruct (max_key keys) as [m|] eqn:E; [|apply max_key_None in E as ->; set_solver].
  destruct (max_key_Some keys m E) as [Hm Hle]. specialize (Hall m Hm). specialize (Hle k Hin).
  rewrite key_leb_spec in *. destruct m as [d a], k as [d' a']; simpl in *. f_equal.
  assert (d = d') as -> by lia. f_equal. destruct a, a'; simpl in *; (done || lia).
Qed.

(** Weakening every access in the same way weakens the outcome in that way. *)
Lemma max_key_map f keys :
  (forall a b, access_rank a <= access_rank b -> access_rank (f a) <= access_rank (f b)) ->
  max_key (map (fun k => (k.1, f k.2)) keys) = (fun k => (k.1, f k.2)) <$> max_key keys.
Proof.
  intros Hf. destruct (max_key keys) as [k|] eqn:E; [|by apply max_key_None in E as ->].
  apply max_key_Some in E as [Hin Hall]. apply max_key_unique.
  - apply list_elem_of_fmap. by exists k.
  - intros k' (k0 & -> & Hin0)%list_elem_of_fmap. specialize (Hall k0 Hin0).
    rewrite key_leb_spec in *. simpl. naive_solver.
Qed.

Lemma prefixes_same_length {A} (a b l : list A) : a `prefix_of` l -> b `prefix_of` l -> length a = length b -> a = b.
Proof.
  intros [x ->] [y E] Hlen. by apply app_inj_1 in E as [-> _].
Qed.

(** The keys of the entries around a path. *)
Definition keys_around (entries : list (list (list Z) * FileSystemAccessMode)) (np : list (list Z))
    : list (nat * FileSystemAccessMode) :=
  map (fun e => (length e.1, e.2)) (List.filter (fun e => bool_decide (e.1 `prefix_of` np)) entries).

Lemma elem_of_keys entries np d a :
  (d, a) ∈ keys_around entries np <-> exists n, (n, a) ∈ entries /\ n `prefix_of` np /\ d = length n.
Proof.
  unfold keys_around. rewrite list_elem_of_In, in_map_iff. split.
  - intros ([n a'] & [= <- <-] & Hin). apply List.filter_In in Hin as [Hin Hpre]. apply bool_decide_eq_true in Hpre.
    exists n. rewrite list_elem_of_In. done.
  - intros (n & Hin & Hpre & ->). exists (n, a). split; [done|]. apply List.filter_In.
    rewrite bool_decide_eq_true. split; [by apply list_elem_of_In|done].
Qed.

(** The entry that decides: no other entry around the path is deeper, and none at the same
    place is stronger. *)
Definition decides (entries : list (list (list Z) * FileSystemAccessMode)) (np : list (list Z))
    (access : FileSystemAccessMode) : Prop :=
  exists n, (n, access) ∈ entries /\ n `prefix_of` np /\
    forall n' access', (n', access') ∈ entries -> n' `prefix_of` np ->
      length n' < length n \/ (n' = n /\ access_rank access' <= access_rank access).

Lemma decides_max entries np access :
  decides entries np access <-> exists d, max_key (keys_around entries np) = Some (d, access).
Proof.
  split.
  - intros (n & Hin & Hpre & Hall). exists (length n). apply max_key_unique; [by apply elem_of_keys; exists n|].
    intros [d a] (n' & Hin' & Hpre' & ->)%elem_of_keys. apply key_leb_spec. simpl.
    destruct (Hall n' a Hin' Hpre') as [?|[-> ?]]; [by left|by right].
  - intros (d & Hmax). apply max_key_Some in Hmax as [(n & Hin & Hpre & ->)%elem_of_keys Hle].
    exists n. split; [done|]. split; [done|]. intros n' a' Hin' Hpre'.
    specialize (Hle (length n', a') (proj2 (elem_of_keys _ _ _ _) (ex_intro _ n' (conj Hin' (conj Hpre' eq_refl))))).
    apply key_leb_spec in Hle as [?|[Hlen ?]]; [by left|]. right. split; [|done]. by eapply prefixes_same_length.
Qed.

Lemma nothing_decides entries np :
  max_key (keys_around entries np) = None <-> forall n access, (n, access) ∈ entries -> ~ n `prefix_of` np.
Proof.
  split.
  - intros Hnone n a Hin Hpre. apply max_key_None in Hnone.
    assert ((length n, a) ∈ keys_around entries np) as Hk by (apply elem_of_keys; by exists n).
    rewrite Hnone in Hk. set_solver.
  - intros Hall. destruct (max_key _) as [[d a]|] eqn:E; [|done].
    apply max_key_Some in E as [(n & Hin & Hpre & _)%elem_of_keys _]. by destruct (Hall n a Hin).
Qed.

(** ** POSIX contexts *)

Section Access.
Context {Url : Type} `{Hlaws : UrlLaws Url}.
Variable host : Host.
Set Default Proof Using "Type*".
Abbreviation policy := (@FileSystemSandboxPolicy Url).
Abbreviation entry := (@FileSystemSandboxEntry Url).
Abbreviation context := (@FileSystemSandboxPolicyContext Url).
Implicit Types (self : policy) (cx : context) (path : Url).

(** A resolved entry, as the names it is about and the access it gives. *)
Definition entry_view (e : Url * FileSystemAccessMode) : option (list (list Z) * FileSystemAccessMode) :=
  (fun names => (names, e.2)) <$> posix_names e.1.

Definition view self cx : list (list (list Z) * FileSystemAccessMode) := omap entry_view (resolved_entries self cx).

(** No root hides a separator: [resolve_access] denies everything when one does. *)
Definition unambiguous self cx : Prop :=
  forall root access, (root, access) ∈ resolved_entries self cx ->
    is_opaque root = true \/ is_Some (posix_names root).

(** What the theorems ask of a context: a POSIX working directory. *)
Definition posix_context cx : Prop := exists nc, at_names (cx_cwd cx) nc.

Lemma posix_context_names cx : posix_context cx -> is_Some (posix_names (cx_cwd cx)).
Proof. intros (nc & Hc). exists (map decode_binary nc). by apply at_names_posix. Qed.

Lemma resolved_posix self cx root access :
  posix_context cx -> (root, access) ∈ resolved_entries self cx -> infer_path_convention root = Some Posix.
Proof.
  intros (nc & Hc)%posix_context_names Hin. destruct (posix_names_Some _ nc Hc) as (_ & Hi & _). unfold resolved_entries in Hin.
  rewrite Hi in Hin. apply list_elem_of_In, in_flat_map in Hin as (e & _ & Hin). apply in_map_iff in Hin as (p & [= <- <-] & Hp).
  apply List.filter_In in Hp as [_ Hp]. by apply bool_decide_eq_true in Hp.
Qed.

Lemma posix_names_opaque u : is_opaque u = true -> posix_names u = None.
Proof. unfold posix_names. by intros ->. Qed.

Lemma lexical_depth_opaque u : is_opaque u = true -> lexical_depth u = None.
Proof. unfold lexical_depth. by intros ->. Qed.

Lemma with_depths_view entries path np :
  posix_names path = Some np ->
  (forall root access, (root, access) ∈ entries -> is_opaque root = true \/ is_Some (posix_names root)) ->
  exists ds, with_depths entries = Some ds /\
    map (fun e => (e.2, e.1.2)) (List.filter (fun e => uri_starts_with path e.1.1) ds) =
    keys_around (omap entry_view entries) np.
Proof.
  intros Hp. unfold keys_around. induction entries as [|[root access] entries IH]; intros Hall; [by exists []|].
  destruct IH as (ds & Hds & Hkeys); [intros r a Hin; apply (Hall r a); set_solver|]. cbn [with_depths omap list_omap].
  unfold entry_view at 1. cbn [fst snd].
  destruct (Hall root access ltac:(set_solver)) as [Ho|(n & Hn)].
  - rewrite (lexical_depth_opaque root Ho), Ho, (posix_names_opaque root Ho). by exists ds.
  - rewrite (lexical_depth_posix root n Hn), Hn, Hds. eexists; split; [done|]. cbn [fmap option_fmap option_map List.filter fst snd].
    assert (uri_starts_with path root = bool_decide (n `prefix_of` np)) as ->.
    { apply eq_true_iff_eq. rewrite bool_decide_eq_true, (starts_with_posix path root np Hp), Hn. naive_solver. }
    case_bool_decide; cbn [map fst snd]; by rewrite Hkeys.
Qed.

Lemma resolve_access_keys self cx path np :
  fp_kind self = Restricted -> posix_context cx -> posix_names path = Some np -> unambiguous self cx ->
  resolve_access self path cx =
    match max_key (keys_around (view self cx) np) with Some (_, access) => access | None => Deny end.
Proof.
  intros Hk (nc & Hc)%posix_context_names Hp Hun. unfold resolve_access. rewrite Hk.
  destruct (posix_names_Some _ nc Hc) as (_ & -> & _). destruct (posix_names_Some _ np Hp) as (_ & -> & _).
  rewrite (lexical_depth_posix _ _ Hc), (lexical_depth_posix _ _ Hp).
  rewrite bool_decide_true, !bool_decide_false by done. cbn [negb orb].
  destruct (with_depths_view (resolved_entries self cx) path np Hp Hun) as (ds & -> & ->). done.
Qed.

Lemma resolve_access_decides self cx path np access :
  fp_kind self = Restricted -> posix_context cx -> posix_names path = Some np -> unambiguous self cx ->
  decides (view self cx) np access -> resolve_access self path cx = access.
Proof.
  intros Hk Hc Hp Hun (d & Hd)%decides_max. by rewrite (resolve_access_keys self cx path np Hk Hc Hp Hun), Hd.
Qed.

(** C2. The access a restricted policy gives to a POSIX path is that of the most specific entry:
    of the entries around the path the deepest one decides, of several at the same place the
    strongest ([deny] before [write] before [read]); a path no entry is around is denied. *)
Theorem resolve_access_most_specific self cx path np access :
  fp_kind self = Restricted -> posix_context cx -> posix_names path = Some np -> unambiguous self cx ->
  resolve_access self path cx = access <->
  decides (view self cx) np access \/
  (access = Deny /\ forall n access', (n, access') ∈ view self cx -> ~ n `prefix_of` np).
Proof.
  intros Hk Hc Hp Hun. rewrite (resolve_access_keys self cx path np Hk Hc Hp Hun), decides_max, <- nothing_decides.
  destruct (max_key _) as [[d a]|]; naive_solver.
Qed.

(** ** Weaker policies *)

Definition map_access (f : FileSystemAccessMode -> FileSystemAccessMode) self : policy :=
  with_entries self (map (fun entry => {| fe_path := fe_path entry; fe_access := f (fe_access entry);
                                          fe_skip_missing := fe_skip_missing entry |}) (fp_entries self)).

Lemma resolved_entries_map f self cx :
  resolved_entries (map_access f self) cx = map (fun e => (e.1, f e.2)) (resolved_entries self cx).
Proof.
  unfold resolved_entries, map_access. cbn [fp_entries with_entries].
  induction (fp_entries self) as [|e entries IH]; [done|]. cbn [map flat_map]. rewrite map_app, IH. f_equal.
  by rewrite map_map.
Qed.

Lemma with_depths_map f (entries : list (Url * FileSystemAccessMode)) :
  with_depths (map (fun e => (e.1, f e.2)) entries) =
  map (fun e => ((e.1.1, f e.1.2), e.2)) <$> with_depths entries.
Proof.
  induction entries as [|[root access] entries IH]; [done|]. cbn [map with_depths fst snd]. rewrite IH.
  destruct (lexical_depth root), (is_opaque root); destruct (with_depths entries); done.
Qed.

Lemma resolve_access_map f self cx path :
  (forall a b, access_rank a <= access_rank b -> access_rank (f a) <= access_rank (f b)) -> f Deny = Deny ->
  fp_kind self = Restricted ->
  resolve_access (map_access f self) path cx = f (resolve_access self path cx).
Proof.
  intros Hf HD Hk. unfold resolve_access. change (fp_kind (map_access f self)) with (fp_kind self). rewrite Hk.
  destruct (infer_path_convention (cx_cwd cx)) as [c|]; [|done]. destruct (_ || _); [done|].
  rewrite resolved_entries_map, with_depths_map. destruct (with_depths _) as [ds|]; [|done]. simpl.
  assert (map (fun e => (e.2, e.1.2)) (List.filter (fun e => uri_starts_with path e.1.1)
            (map (fun e => ((e.1.1, f e.1.2), e.2)) ds)) =
          map (fun k => (k.1, f k.2)) (map (fun e => (e.2, e.1.2)) (List.filter (fun e => uri_starts_with path e.1.1) ds))) as ->.
  { induction ds as [|[[r a] d] ds IH]; [done|]. cbn [map List.filter fst snd].
    destruct (uri_starts_with path r); cbn [map fst snd]; by rewrite IH. }
  rewrite max_key_map by done. by destruct (max_key _) as [[d a]|].
Qed.

Lemma read_only_rank a b : access_rank a <= access_rank b -> access_rank (read_only_access a) <= access_rank (read_only_access b).
Proof. destruct a, b; simpl; lia. Qed.

Lemma read_only_not_write a : read_only_access a ≠ Write.
Proof. by destruct a. Qed.

(** A profile cut down to read-only access: every profile but an external one has such a
    profile, it has no network access and lets no path be written whatever the context; it
    reads every path that a restricted profile reads, and no other. *)
Theorem intersect_read_only_never_writes (self : @PermissionProfile Url) :
  match intersect_with_read_only self with
  | Ok (Some profile) =>
      network_sandbox_policy profile = NetRestricted /\
      (forall path cx, can_write_path host (file_system_sandbox_policy profile) path cx = false) /\
      (fp_kind (file_system_sandbox_policy self) = Restricted -> forall path cx,
        can_read (resolve_access (file_system_sandbox_policy profile) path cx) =
        can_read (resolve_access (file_system_sandbox_policy self) path cx))
  | Ok None => exists network, self = External network
  | _ => False
  end.
Proof.
  assert (forall p : policy, fp_kind p = Restricted -> forall path cx,
    can_write_path host (map_access read_only_access p) path cx = false) as Hno.
  { intros p Hk path cx. unfold can_write_path. rewrite (resolve_access_map _ p cx path read_only_rank eq_refl Hk).
    unfold can_write. by rewrite (bool_decide_false _ (read_only_not_write _)). }
  destruct self as [[entries depth|] network| |network]; cbn -[resolve_access can_write_path].
  - split; [done|]. set (p := {| fp_kind := Restricted; fp_glob_scan_max_depth := depth; fp_entries := entries |}).
    set (p' := {| fp_kind := Restricted; fp_glob_scan_max_depth := depth ≫= non_zero; fp_entries := entries |}).
    change {| fp_kind := Restricted; fp_glob_scan_max_depth := depth ≫= non_zero; fp_entries := _ |} with (map_access read_only_access p').
    split; [by apply Hno|]. intros _ path cx. rewrite (resolve_access_map _ p' cx path read_only_rank) by done.
    change (resolve_access p' path cx) with (resolve_access p path cx). by destruct (resolve_access p path cx).
  - split; [done|]. split; [|done]. apply (Hno read_only eq_refl).
  - split; [done|]. split; [|done]. apply (Hno read_only eq_refl).
  - by exists network.
Qed.

(** ** Deny entries that survive *)

Lemma uri_eq_posix_r u v : infer_path_convention v = Some Posix -> uri_eq u v = bool_decide (u = v).
Proof.
  intros Hi. unfold uri_eq. assert (windows_identity_path_bytes v = None) as ->.
  { unfold windows_identity_path_bytes. by rewrite Hi. }
  destruct (windows_identity_path_bytes u); apply orb_false_r.
Qed.

Definition entry_roots cx (e : entry) : list Url :=
  List.filter (fun path => bool_decide (infer_path_convention path = infer_path_convention (cx_cwd cx)))
    (entry_paths cx (fe_path e)).

Lemma elem_of_resolved self cx root access :
  (root, access) ∈ resolved_entries self cx <->
  exists e, e ∈ fp_entries self /\ fe_access e = access /\ root ∈ entry_roots cx e.
Proof.
  unfold resolved_entries. rewrite list_elem_of_In, in_flat_map. split.
  - intros (e & He & (r & [= <- <-] & Hr)%in_map_iff). exists e. rewrite !list_elem_of_In. done.
  - intros (e & He & <- & Hr). exists e. split; [by apply list_elem_of_In|]. apply in_map_iff. exists root.
    split; [done|]. by apply list_elem_of_In.
Qed.

Lemma elem_of_view self cx n access :
  (n, access) ∈ view self cx <->
  exists e root, e ∈ fp_entries self /\ fe_access e = access /\ root ∈ entry_roots cx e /\ posix_names root = Some n.
Proof.
  unfold view. rewrite list_elem_of_omap. split.
  - intros ([root a] & (e & He & <- & Hr)%elem_of_resolved & Hv). unfold entry_view in Hv. simpl in Hv.
    destruct (posix_names root) eqn:E; simplify_eq/=. by exists e, root.
  - intros (e & root & He & <- & Hr & Hn). exists (root, fe_access e). split; [apply elem_of_resolved; by exists e|].
    unfold entry_view. simpl. by rewrite Hn.
Qed.

Lemma shared_path_roots cx (a b : entry) :
  posix_context cx -> file_system_path_eq (fe_path a) (fe_path b) = true -> entry_roots cx a = entry_roots cx b.
Proof.
  intros (nc & Hc)%posix_context_names Heq. destruct (posix_names_Some _ nc Hc) as (_ & Hi & _).
  unfold entry_roots. rewrite Hi. destruct (fe_path a) as [u|u|u], (fe_path b) as [v|v|v]; try done.
  - cbn [file_system_path_eq entry_paths List.filter] in *.
    destruct (decide (infer_path_convention u = Some Posix)) as [Hu|Hu].
    { rewrite (uri_eq_posix u v Hu) in Heq. apply bool_decide_eq_true in Heq as ->. done. }
    destruct (decide (infer_path_convention v = Some Posix)) as [Hv|Hv].
    { rewrite (uri_eq_posix_r u v Hv) in Heq. apply bool_decide_eq_true in Heq as ->. done. }
    by rewrite !bool_decide_false.
  - simpl in Heq. apply bool_decide_eq_true in Heq as ->. done.
Qed.

Lemma entry_eq_spec (a b : entry) :
  entry_eq a b = true -> file_system_path_eq (fe_path a) (fe_path b) = true /\ fe_access a = fe_access b.
Proof. unfold entry_eq. rewrite !andb_true_iff, bool_decide_eq_true. naive_solver. Qed.

Lemma uri_eq_refl u : uri_eq u u = true.
Proof. unfold uri_eq. by rewrite bool_decide_true. Qed.

Lemma entry_eq_refl (a : entry) : entry_eq a a = true.
Proof.
  unfold entry_eq. rewrite bool_decide_true, eqb_reflx, !andb_true_r by done.
  destruct (fe_path a); simpl; [apply uri_eq_refl|apply streq_refl|by apply bool_decide_true].
Qed.

(** The loop that appends entries not yet present. *)
Lemma push_new_spec (new entries : list entry) :
  let entries' := foldl (fun entries e => if existsb (fun x => entry_eq x e) entries then entries else entries ++ [e]) entries new in
  (forall e, e ∈ entries -> e ∈ entries') /\ (forall e, e ∈ entries' -> e ∈ entries \/ e ∈ new) /\
  (forall e, e ∈ new -> exists e', e' ∈ entries' /\ entry_eq e' e = true).
Proof.
  revert entries. induction new as [|x new IH]; intros entries; simpl; [set_solver|].
  destruct (existsb _ entries) eqn:E.
  - destruct (IH entries) as (H1 & H2 & H3). split; [done|]. split; [set_solver|].
    intros e [->|He]%elem_of_cons; [|by apply H3]. apply existsb_exists in E as (e' & He' & Heq).
    exists e'. split; [by apply H1, list_elem_of_In|done].
  - destruct (IH (entries ++ [x])) as (H1 & H2 & H3). split; [set_solver|]. split; [set_solver|].
    intros e [->|He]%elem_of_cons; [|by apply H3]. exists x. split; [set_solver|apply entry_eq_refl].
Qed.

Lemma push_deny_view (self existing p : policy) cx :
  posix_context cx -> fp_entries p = push_deny_entries (fp_entries self) existing ->
  (forall n a, (n, a) ∈ view self cx -> (n, a) ∈ view p cx) /\
  (forall n a, (n, a) ∈ view p cx -> (n, a) ∈ view self cx \/ a = Deny) /\
  (forall n, (n, Deny) ∈ view existing cx -> (n, Deny) ∈ view p cx).
Proof.
  intros Hc Hp. unfold push_deny_entries in Hp.
  pose proof (push_new_spec (List.filter (fun e => is_deny (fe_access e)) (fp_entries existing)) (fp_entries self)) as Hs.
  simpl in Hs. rewrite <- Hp in Hs. destruct Hs as (H1 & H2 & H3). split; [|split].
  - intros n a (e & root & He & Ha & Hr & Hn)%elem_of_view. apply elem_of_view. exists e, root. naive_solver.
  - intros n a (e & root & [He|He]%H2 & Ha & Hr & Hn)%elem_of_view; [left; apply elem_of_view; by exists e, root|].
    right. apply list_elem_of_In, List.filter_In in He as [_ He]. apply bool_decide_eq_true in He. congruence.
  - intros n (e & root & He & Ha & Hr & Hn)%elem_of_view. destruct (H3 e) as (e' & He' & Heq).
    { apply list_elem_of_In, List.filter_In. split; [by apply list_elem_of_In|]. unfold is_deny. by rewrite Ha. }
    apply entry_eq_spec in Heq as [Hpath Hacc]. apply elem_of_view. exists e', root.
    rewrite (shared_path_roots cx e' e Hc Hpath). by rewrite Hacc.
Qed.

Lemma root_entry_roots cx (e : entry) :
  posix_context cx -> fe_path e = PSpecial Root -> exists r, entry_roots cx e = [r] /\ posix_names r = Some [].
Proof.
  intros (nc & Hc) He. destruct (last_ancestor (cx_cwd cx) (map decode_binary nc)) as (r & Hr & _ & Hn).
  { apply Hc. } { by apply at_names_posix. }
  exists r. split; [|done]. unfold entry_roots. rewrite He. cbn [entry_paths]. unfold file_system_root.
  rewrite (lexical_depth_posix _ _ (at_names_posix _ _ Hc)), Hr. simpl.
  destruct (posix_names_Some _ _ (at_names_posix _ _ Hc)) as (_ & -> & _), (posix_names_Some _ _ Hn) as (_ & -> & _).
  by rewrite bool_decide_true.
Qed.

Lemma root_in_view self cx (e : entry) :
  posix_context cx -> e ∈ fp_entries self -> fe_path e = PSpecial Root -> ([], fe_access e) ∈ view self cx.
Proof.
  intros Hc He Hr. destruct (root_entry_roots cx e Hc Hr) as (r & Hroots & Hn). apply elem_of_view.
  exists e, r. rewrite Hroots. set_solver.
Qed.

(** Entries of which only denials are new: the outcome is the old one or a denial. *)
Lemma added_denials entries entries' np :
  (forall n a, (n, a) ∈ entries -> (n, a) ∈ entries') ->
  (forall n a, (n, a) ∈ entries' -> (n, a) ∈ entries \/ a = Deny) ->
  forall d a, max_key (keys_around entries' np) = Some (d, a) -> a ≠ Deny -> max_key (keys_around entries np) = Some (d, a).
Proof using Type.
  intros Hsub Hnew d a (Hin & Hall)%max_key_Some Ha. apply max_key_unique.
  - apply elem_of_keys in Hin as (n & Hin & Hpre & ->). apply elem_of_keys. exists n. by destruct (Hnew n a Hin).
  - intros [d' a'] (n & Hk & Hpre & ->)%elem_of_keys. apply Hall, elem_of_keys. exists n. auto.
Qed.

Lemma preserve_deny_cases self existing :
  fp_kind self ≠ ExternalSandbox -> has_denied_read_restrictions existing = true ->
  let p := preserve_deny_read_restrictions_from self existing in
  fp_kind p = Restricted /\ exists base : policy,
    fp_entries p = push_deny_entries (fp_entries base) existing /\ fp_kind base = Restricted /\
    (fp_kind self = Restricted /\ base = self \/
     fp_kind self = Unrestricted /\ base = restricted [entry_new (PSpecial Root) Write]).
Proof.
  unfold has_denied_read_restrictions, preserve_deny_read_restrictions_from, is_restricted.
  intros Hk [_ ->]%andb_true_iff. destruct (fp_kind self) eqn:E; [..|done].
  - simpl. rewrite E. simpl. split; [done|]. exists self. naive_solver.
  - simpl. split; [done|]. exists (restricted [entry_new (PSpecial Root) Write]). naive_solver.
Qed.

(** Deny entries survive a change of policy: after [preserve_deny_read_restrictions_from] a path
    inside a directory the earlier policy denies stays denied unless the new policy itself
    has an entry further down; and no path gains access by it. This holds for an
    unrestricted policy too, which becomes restricted when there is anything to deny. *)
Theorem deny_entries_preserved self existing cx path np :
  fp_kind self ≠ ExternalSandbox -> has_denied_read_restrictions existing = true ->
  posix_context cx -> posix_names path = Some np ->
  unambiguous (preserve_deny_read_restrictions_from self existing) cx -> unambiguous self cx ->
  (forall n, (n, Deny) ∈ view existing cx -> n `prefix_of` np ->
    (forall n' a, (n', a) ∈ view self cx -> n' `prefix_of` np -> length n' <= length n) ->
    resolve_access (preserve_deny_read_restrictions_from self existing) path cx = Deny) /\
  (resolve_access (preserve_deny_read_restrictions_from self existing) path cx = Deny \/
   resolve_access (preserve_deny_read_restrictions_from self existing) path cx = resolve_access self path cx).
Proof.
  intros Hk Hd Hc Hp Hun Huns. destruct (preserve_deny_cases self existing Hk Hd) as (Hkp & base & He & Hkb & Hbase).
  set (p := preserve_deny_read_restrictions_from self existing) in *.
  destruct (push_deny_view base existing p cx Hc He) as (Hsub & Hnew & Hdeny).
  rewrite (resolve_access_keys p cx path np Hkp Hc Hp Hun).
  destruct (max_key (keys_around (view p cx) np)) as [[d a]|] eqn:Emax; [|by split; [|left]].
  destruct (decide (a = Deny)) as [->|Ha]; [by split; [|left]|].
  pose proof (added_denials _ _ np Hsub Hnew d a Emax Ha) as Hold. apply max_key_Some in Emax as [Hin Hall]. split.
  - intros n Hn Hpre Hdeep. exfalso.
    assert (key_leb (length n, Deny) (d, a) = true) as Hle by (apply Hall, elem_of_keys; exists n; auto).
    assert (d <= length n); [|rewrite key_leb_spec in Hle; simpl in Hle; destruct a; simpl in *; naive_solver lia].
    apply max_key_Some in Hold as [(n' & Hin' & Hpre' & ->)%elem_of_keys _].
    destruct Hbase as [[_ ->]|[_ ->]]; [by eapply Hdeep|].
    apply elem_of_view in Hin' as (e & r & ->%list_elem_of_singleton & _ & Hr & Hnr).
    destruct (root_entry_roots cx (entry_new (PSpecial Root) Write) Hc eq_refl) as (r' & Hroots & Hn').
    rewrite Hroots in Hr. apply list_elem_of_singleton in Hr as ->. rewrite Hn' in Hnr. simplify_eq. simpl. lia.
  - right. destruct Hbase as [[Hks ->]|[Hks ->]].
    + by rewrite (resolve_access_keys self cx path np Hks Hc Hp Huns), Hold.
    + unfold resolve_access. rewrite Hks. apply max_key_Some in Hold as [(n' & Hin' & _)%elem_of_keys _].
      by apply elem_of_view in Hin' as (e & r & ->%list_elem_of_singleton & <- & _).
Qed.

(** ** Full write access *)

Lemma slash_tmp_roots cx (e : entry) :
  posix_context cx -> fe_path e = PSpecial SlashTmp ->
  exists r, entry_roots cx e = [r] /\ posix_names r = Some (map decode_binary [lit "tmp"]).
Proof.
  intros (nc & Hc) He. destruct (join_absolute (cx_cwd cx) nc (lit "tmp") Hc) as (r & Hr & Hat).
  { vm_compute. repeat constructor. }
  exists r. apply at_names_posix in Hat as Hn. split; [|done]. unfold entry_roots. rewrite He. cbn [entry_paths].
  destruct (posix_names_Some _ _ (at_names_posix _ _ Hc)) as (_ & -> & _). rewrite bool_decide_true by done.
  change (lit "/tmp") with (SLASH :: lit "tmp"). rewrite Hr. simpl.
  destruct (posix_names_Some _ _ Hn) as (_ & -> & _). by rewrite bool_decide_true.
Qed.

(** Paths of entries that no URL encodes, as a configuration on this host writes them. *)
Definition plain_paths self : Prop :=
  forall e u, e ∈ fp_entries self -> fe_path e = PPath u -> infer_path_convention u = Some Posix ->
    exists ns, at_names u ns /\ Forall (fun n => plain_name n = true) ns.

Lemma special_share_eq l r : special_paths_share_target l r = true -> l = r.
Proof using Type.
  destruct l, r; simpl; try done.
  - by intros ->%bool_decide_eq_true.
  - intros [->%streq_true ->%bool_decide_eq_true]%andb_true_iff. done.
Qed.

(** The place of a path entry, from the native path its URI stands for. *)
Lemma path_entry_place self cx (e : entry) u abs :
  plain_paths self -> posix_context cx -> e ∈ fp_entries self -> fe_path e = PPath u ->
  to_abs_path (h_env host) u = Ok abs ->
  exists ns, abs = RootDir :: map Normal ns /\ entry_roots cx e = [u] /\ posix_names u = Some (map decode_binary ns).
Proof.
  intros Hpl (nc & Hc) He Hu Habs. assert (infer_path_convention u = Some Posix) as Hi.
  { unfold to_abs_path in Habs. case_bool_decide as Hi; [done|]. by simpl in Habs. }
  destruct (Hpl e u He Hu Hi) as (ns & Hat & Hns). rewrite (to_abs_path_names (h_env host) u ns Hat Hns) in Habs. simplify_eq.
  exists ns. split; [done|]. split; [|by apply at_names_posix]. unfold entry_roots. rewrite Hu. cbn [entry_paths List.filter].
  destruct (posix_names_Some _ _ (at_names_posix _ _ Hc)) as (_ & -> & _). by rewrite Hi, bool_decide_true.
Qed.

Lemma normal_tmp ns : RootDir :: map Normal ns = SLASH_TMP -> ns = [lit "tmp"].
Proof using Type. unfold SLASH_TMP. destruct ns as [|n [|n' ns]]; simpl; congruence. Qed.

Lemma normal_root ns : abs_has_parent (RootDir :: map Normal ns) = false -> ns = [].
Proof using Type. by destruct ns. Qed.

(** A path and a special path that share their target resolve to the same place. *)
Lemma special_path_place self cx (ep es : entry) u abs value :
  plain_paths self -> posix_context cx -> ep ∈ fp_entries self -> fe_path ep = PPath u -> fe_path es = PSpecial value ->
  to_abs_path (h_env host) u = Ok abs -> special_path_matches_absolute_path value abs = true ->
  exists r n, entry_roots cx ep = [u] /\ entry_roots cx es = [r] /\ posix_names u = Some n /\ posix_names r = Some n.
Proof.
  intros Hpl Hc He Hu Hv Habs Hm. destruct (path_entry_place self cx ep u abs Hpl Hc He Hu Habs) as (ns & -> & Hroots & Hn).
  destruct value; simpl in Hm; try done.
  - apply negb_true_iff, normal_root in Hm as ->. destruct (root_entry_roots cx es Hc Hv) as (r & Hr & Hnr). by exists r, [].
  - apply bool_decide_eq_true, normal_tmp in Hm as ->. destruct (slash_tmp_roots cx es Hc Hv) as (r & Hr & Hnr). by eexists r, _.
Qed.

Lemma shared_target_place self cx (c e : entry) root n :
  plain_paths self -> posix_context cx -> c ∈ fp_entries self -> e ∈ fp_entries self ->
  file_system_paths_share_target host (fe_path c) (fe_path e) = true ->
  root ∈ entry_roots cx e -> posix_names root = Some n ->
  exists root', root' ∈ entry_roots cx c /\ posix_names root' = Some n.
Proof.
  intros Hpl Hcx Hc He Hs Hr Hn. destruct (fe_path c) as [u|g|v] eqn:Ec, (fe_path e) as [u'|g'|v'] eqn:Ee; try done.
  - exists root. split; [|done]. rewrite (shared_path_roots cx c e Hcx); [done|]. by rewrite Ec, Ee.
  - simpl in Hs. destruct (to_abs_path (h_env host) u) as [path| |] eqn:Ep; try done.
    destruct (special_path_place self cx c e u path v' Hpl Hcx Hc Ec Ee Ep Hs) as (r & n' & H1 & H2 & H3 & H4).
    rewrite H2 in Hr. apply list_elem_of_singleton in Hr as ->. exists u. rewrite H1. split; [set_solver|congruence].
  - simpl in Hs. unfold entry_roots in Hr. rewrite Ee in Hr. simpl in Hr. set_solver.
  - simpl in Hs. destruct (to_abs_path (h_env host) u') as [path| |] eqn:Ep; try done.
    destruct (special_path_place self cx e c u' path v Hpl Hcx He Ee Ec Ep Hs) as (r & n' & H1 & H2 & H3 & H4).
    rewrite H1 in Hr. apply list_elem_of_singleton in Hr as ->. exists r. rewrite H2. split; [set_solver|congruence].
  - exists root. split; [|done]. rewrite (shared_path_roots cx c e Hcx); [done|]. rewrite Ec, Ee. simpl in *.
    apply special_share_eq in Hs as ->. by apply bool_decide_true.
Qed.

(** An entry that narrows nothing gives write access, or something at its place does. *)
Lemma not_narrowing self cx (e : entry) root n :
  plain_paths self -> posix_context cx -> ([], Write) ∈ view self cx -> e ∈ fp_entries self ->
  narrows_write host self e = false -> root ∈ entry_roots cx e -> posix_names root = Some n ->
  fe_access e ≠ Deny /\ (n, Write) ∈ view self cx.
Proof.
  intros Hpl Hcx Hroot He Hnar Hr Hn. unfold narrows_write in Hnar. destruct (can_write (fe_access e)) eqn:Ew.
  { apply bool_decide_eq_true in Ew. split; [congruence|]. apply elem_of_view. by exists e, root. }
  assert (has_same_target_write_override host self e = true -> fe_access e ≠ Deny /\ (n, Write) ∈ view self cx) as Hover.
  { intros (c & Hc & [[Hcw%bool_decide_eq_true Hlt%Nat.ltb_lt]%andb_true_iff Hsh]%andb_true_iff)%existsb_exists.
    split; [intros Hd; rewrite Hd, Hcw in Hlt; simpl in Hlt; lia|]. apply list_elem_of_In in Hc.
    destruct (shared_target_place self cx c e root n Hpl Hcx Hc He Hsh Hr Hn) as (root' & Hr' & Hn').
    apply elem_of_view. by exists c, root'. }
  unfold entry_roots in Hr. destruct (fe_path e) as [u|g|v] eqn:Ep; [by apply Hover, negb_false_iff|done|].
  destruct v; try (by apply Hover, negb_false_iff); try (simpl in Hr; set_solver).
  split; [by apply bool_decide_eq_false in Hnar|].
  destruct (root_entry_roots cx e Hcx Ep) as (r & Hroots & Hnr). unfold entry_roots in Hroots. rewrite Ep in Hroots.
  rewrite Hroots in Hr. apply list_elem_of_singleton in Hr as ->. congruence.
Qed.

(** Full write access means what it says: when [has_full_disk_write_access] holds, every POSIX
    path resolves to [write] and may be written, project metadata included. *)
Theorem full_disk_write_sound self cx path np :
  has_full_disk_write_access host self = true -> plain_paths self -> posix_context cx ->
  posix_names path = Some np -> unambiguous self cx ->
  resolve_access self path cx = Write /\ can_write_path host self path cx = true.
Proof.
  intros Hfull Hpl Hcx Hp Hun.
  assert (resolve_access self path cx = Write) as Hw;
    [|split; [done|]; unfold can_write_path; by rewrite Hw, Hfull].
  destruct (fp_kind self) eqn:Hk; [|unfold resolve_access; by rewrite Hk..].
  unfold has_full_disk_write_access in Hfull. rewrite Hk in Hfull. apply andb_true_iff in Hfull as [Hroot Hnar].
  apply andb_true_iff in Hroot as [_ (e & He & Hw)%existsb_exists]. apply list_elem_of_In in He.
  destruct (fe_path e) as [| |[]] eqn:Ep; try done. apply bool_decide_eq_true in Hw.
  pose proof (root_in_view self cx e Hcx He Ep) as Hin. rewrite Hw in Hin.
  unfold has_write_narrowing_entries, is_restricted in Hnar. rewrite Hk in Hnar. simpl in Hnar. apply negb_true_iff in Hnar.
  rewrite (resolve_access_keys self cx path np Hk Hcx Hp Hun).
  destruct (max_key _) as [[d a]|] eqn:Emax;
    [|exfalso; by eapply (proj1 (nothing_decides _ _) Emax), prefix_nil].
  apply max_key_Some in Emax as [(n & Hn & Hpre & ->)%elem_of_keys Hall].
  apply elem_of_view in Hn as (e' & root & He' & <- & Hr & Hnr).
  destruct (not_narrowing self cx e' root n Hpl Hcx Hin He') as [Hnd Hnw]; [|done..|].
  { apply not_true_iff_false. intros Ht. apply not_true_iff_false in Hnar. apply Hnar, existsb_exists. exists e'.
    split; [by apply list_elem_of_In|done]. }
  specialize (Hall (length n, Write) (proj2 (elem_of_keys _ _ _ _) (ex_intro _ n (conj Hnw (conj Hpre eq_refl))))).
  apply key_leb_spec in Hall. simpl in Hall. destruct (fe_access e'); simpl in *; naive_solver lia.
Qed.

(** ** Project metadata *)

Lemma join_descendant_name root ns m :
  at_names root ns -> plain_name m = true ->
  exists v, join_descendant root m = Ok v /\ posix_names v = Some (map decode_binary ns ++ [m]).
Proof.
  intros Hr Hm. assert (Forall (fun n => plain_name n = true) [m]) as Hms by by constructor.
  destruct (relative_path_plain [m]) as [Hrel Hsp]; [done..|]. cbn [join] in Hrel, Hsp.
  destruct (join_relative root ns m Hr Hrel) as (v & Hv & Hat).
  rewrite Hsp, (fold_join_names [m] ns Hms) in Hat.
  apply at_names_posix in Hat as Hnv. rewrite map_app in Hnv. cbn [map] in Hnv. rewrite (decode_plain_name m Hm) in Hnv.
  exists v. split; [|done]. unfold join_descendant. rewrite Hv. cbn [mbind res_bind].
  destruct (at_names_convention root ns Hr) as [-> _]. destruct Hrel as (_ & Habs & _). unfold is_absolute in Habs.
  rewrite Habs, bool_decide_false by done. cbn [orb andb].
  assert (uri_starts_with v root = true) as ->; [|done]. apply (starts_with_posix v root _ Hnv).
  exists (map decode_binary ns). split; [by apply at_names_posix|by apply prefix_app_r].
Qed.

Lemma find_protected_posix names root ns path np :
  at_names root ns -> posix_names path = Some np -> Forall (fun m => plain_name m = true) names ->
  match find_protected names root path with
  | Some (protected, m) =>
      m ∈ names /\ posix_names protected = Some (map decode_binary ns ++ [m]) /\ map decode_binary ns ++ [m] `prefix_of` np
  | None => forall m, m ∈ names -> ~ map decode_binary ns ++ [m] `prefix_of` np
  end.
Proof.
  intros Hr Hp Hn. induction Hn as [|m names Hm _ IH]; cbn [find_protected]; [set_solver|].
  destruct (join_descendant_name root ns m Hr Hm) as (v & -> & Hv).
  destruct (uri_starts_with path v) eqn:E.
  - apply (starts_with_posix path v np Hp) in E as (nb & Hnb & Hpre). rewrite Hv in Hnb. simplify_eq. set_solver.
  - assert (~ map decode_binary ns ++ [m] `prefix_of` np) as Hno.
    { intros Hpre. apply not_true_iff_false in E. apply E, (starts_with_posix path v np Hp). eauto. }
    destruct (find_protected names root path) as [[pr m']|]; [set_solver|]. intros m' [->|Hm']%elem_of_cons; auto.
Qed.

Lemma protected_names_plain : Forall (fun m => plain_name m = true) PROTECTED_METADATA_PATH_NAMES.
Proof using Type. repeat constructor. Qed.

(** A root whose protected directory is around the path is itself around it. *)
Lemma find_protected_root names root path np protected m :
  posix_names path = Some np -> find_protected names root path = Some (protected, m) ->
  exists n, posix_names root = Some n /\ n `prefix_of` np.
Proof.
  intros Hp. induction names as [|x names IH]; cbn [find_protected]; [done|].
  destruct (join_descendant root x) as [v| |] eqn:E; try done. destruct (uri_starts_with path v) eqn:Es; [|done].
  intros [= -> ->]. apply (starts_with_posix path protected np Hp) in Es as (nb & Hnb & Hpre).
  unfold join_descendant in E. destruct (uri_join root m) as [w| |]; try done. cbn [mbind res_bind] in E.
  destruct (_ || negb (uri_starts_with w root)) eqn:Eo; [done|]. simplify_eq.
  apply orb_false_iff in Eo as [_ Hs%negb_false_iff]. apply (starts_with_posix protected root nb Hnb) in Hs as (n & Hn & Hpn).
  exists n. split; [done|by etransitivity].
Qed.

Definition writable_roots_named self cx (np : list (list Z)) : Prop :=
  forall root n, (root, Write) ∈ resolved_entries self cx -> posix_names root = Some n -> n `prefix_of` np ->
    exists ns, at_names root ns.

Lemma first_protected_posix self cx entries path np :
  (forall e, e ∈ entries -> e ∈ resolved_entries self cx) -> writable_roots_named self cx np -> posix_names path = Some np ->
  match first_protected entries path with
  | Some (protected, m) =>
      m ∈ PROTECTED_METADATA_PATH_NAMES /\
      exists n, (n, Write) ∈ view self cx /\ posix_names protected = Some (n ++ [m]) /\ n ++ [m] `prefix_of` np
  | None =>
      forall root n m, (root, Write) ∈ entries -> posix_names root = Some n -> m ∈ PROTECTED_METADATA_PATH_NAMES ->
        ~ n ++ [m] `prefix_of` np
  end.
Proof.
  intros Hsub Hwr Hp. induction entries as [|[root access] entries IH]; cbn [first_protected]; [set_solver|].
  assert ((root, access) ∈ resolved_entries self cx) as Hin by (apply Hsub; set_solver).
  specialize (IH ltac:(intros e He; apply Hsub; set_solver)).
  destruct (can_write access) eqn:Ew; [apply bool_decide_eq_true in Ew as ->|].
  - destruct (find_protected PROTECTED_METADATA_PATH_NAMES root path) as [[pr m]|] eqn:E.
    + destruct (find_protected_root _ root path np pr m Hp E) as (n & Hn & Hpre).
      destruct (Hwr root n Hin Hn Hpre) as (ns & Hat).
      pose proof (find_protected_posix _ root ns path np Hat Hp protected_names_plain) as Hf. rewrite E in Hf.
      destruct Hf as (Hm & Hpr & Hpp). split; [done|]. exists (map decode_binary ns). split; [|done].
      apply list_elem_of_omap. exists (root, Write). split; [done|]. unfold entry_view. simpl. by rewrite (at_names_posix _ _ Hat).
    + destruct (first_protected entries path) as [[pr m]|]; [done|].
      intros r n m [[= ->]|Hr]%elem_of_cons Hn Hm Hpre; [|by eapply (IH r n m)].
      destruct (Hwr root n Hin Hn) as (ns & Hat); [etransitivity; [by eapply prefix_app_r|exact Hpre]|].
      pose proof (find_protected_posix _ root ns path np Hat Hp protected_names_plain) as Hf. rewrite E in Hf.
      rewrite (at_names_posix _ _ Hat) in Hn. simplify_eq. by apply (Hf m Hm).
  - destruct (first_protected entries path) as [[pr m]|]; [done|].
    intros r n m [[= -> <-]|Hr]%elem_of_cons; [done|by apply (IH r n m)].
Qed.

(** C38. Project metadata stays protected: a path inside [.git], [.agents] or [.workx] of a writable
    root cannot be written under a policy without full write access, unless a writable root around
    the path lies itself inside one of these directories of a writable root; then the order
    of the entries decides. *)
Theorem metadata_protected self cx path np nr m :
  fp_kind self = Restricted -> has_full_disk_write_access host self = false -> posix_context cx ->
  posix_names path = Some np -> writable_roots_named self cx np ->
  (nr, Write) ∈ view self cx -> m ∈ PROTECTED_METADATA_PATH_NAMES -> nr ++ [m] `prefix_of` np ->
  (forall n n' m', (n, Write) ∈ view self cx -> (n', Write) ∈ view self cx -> m' ∈ PROTECTED_METADATA_PATH_NAMES ->
     n `prefix_of` np -> ~ n' ++ [m'] `prefix_of` n) ->
  can_write_path host self path cx = false.
Proof.
  intros Hk Hfull Hcx Hp Hwr Hr Hm Hpre Hnot. unfold can_write_path. destruct (negb _); [done|]. rewrite Hfull. simpl.
  apply bool_decide_eq_false. unfold metadata_write_denial, is_restricted. rewrite Hk. simpl.
  pose proof (first_protected_posix self cx (resolved_entries self cx) path np ltac:(done) Hwr Hp) as Hf.
  destruct (first_protected _ path) as [[pr m']|].
  - destruct Hf as (Hm' & n & Hn & Hpr & Hpp). destruct (existsb _ _) eqn:E; [|done].
    apply existsb_exists in E as ([root a] & Hin & Hc). simpl in Hc. apply andb_true_iff in Hc as [[Ha Hs]%andb_true_iff Hsp].
    apply bool_decide_eq_true in Ha as ->. apply list_elem_of_In in Hin.
    apply (starts_with_posix path root np Hp) in Hs as (nroot & Hnr & Hpr2).
    apply (starts_with_posix root pr nroot Hnr) in Hsp as (npr & Hnpr & Hpp2). rewrite Hpr in Hnpr. simplify_eq.
    exfalso. apply (Hnot nroot n m'); try done.
    apply list_elem_of_omap. exists (root, Write). split; [done|]. unfold entry_view. simpl. by rewrite Hnr.
  - exfalso. apply list_elem_of_omap in Hr as ([root a] & Hin & Hv). unfold entry_view in Hv. simpl in Hv.
    destruct (posix_names root) as [n|] eqn:En; simplify_eq/=. by eapply (Hf root nr m).
Qed.

End Access.
