(* ===== verification/SandboxLegacy.v ===== *)
(** * Legacy sandbox policies

    The two conversions of [workx-rs/protocol/src/permissions.rs] between the legacy
    [SandboxPolicy] and file system permissions, and that one undoes the other. *)
From S2P Require Import Prelude AbsPath PathUri PathUriJoin SandboxPolicy.

Set Default Goal Selector "!".

Lemma dedup_paths_from acc paths :
  NoDup (acc ++ paths) ->
  foldl (fun deduped path => if bool_decide (path ∈ deduped) then deduped else deduped ++ [path]) acc paths =
    acc ++ paths :> list AbsolutePathBuf.
Proof.
  revert acc. induction paths as [|p paths IH]; intros acc Hnd; simpl; [by rewrite app_nil_r|].
  rewrite bool_decide_false.
  - rewrite IH by (by rewrite <- app_assoc). by rewrite <- app_assoc.
  - apply NoDup_app in Hnd as (_ & Hd & _). intros Hin. apply (Hd p Hin). set_solver.
Qed.

Lemma dedup_paths_id paths : NoDup paths -> dedup_paths paths = paths.
Proof. apply (dedup_paths_from []). Qed.

Section Legacy.
Context {Url : Type} `{Hlaws : UrlLaws Url}.
Variable host : Host.
Set Default Proof Using "Type*".
Abbreviation policy := (@FileSystemSandboxPolicy Url).
Abbreviation entry := (@FileSystemSandboxEntry Url).

(** Every protection that is added by default is a read entry at the end. *)
Definition adds_reads (entries entries' : list entry) : Prop :=
  exists extra, entries' = entries ++ extra /\ Forall (fun e => fe_access e = Read) extra.

Lemma adds_reads_refl entries : adds_reads entries entries.
Proof. exists []. by rewrite app_nil_r. Qed.

Lemma adds_reads_trans e1 e2 e3 : adds_reads e1 e2 -> adds_reads e2 e3 -> adds_reads e1 e3.
Proof. intros (x & -> & Hx) (y & -> & Hy). exists (x ++ y). rewrite app_assoc. split; [done|by apply Forall_app]. Qed.

Lemma adds_reads_fold {A} (f : list entry -> A -> list entry) (l : list A) entries :
  (forall entries a, adds_reads entries (f entries a)) -> adds_reads entries (foldl f entries l).
Proof.
  intros Hf. revert entries. induction l as [|a l IH]; intros entries; [apply adds_reads_refl|].
  eapply adds_reads_trans; [apply Hf|apply IH].
Qed.

Lemma append_default_adds_reads entries path :
  adds_reads entries (append_default_read_only_entry_if_no_explicit_rule host entries path).
Proof.
  unfold append_default_read_only_entry_if_no_explicit_rule. destruct (existsb _ _); [apply adds_reads_refl|].
  eexists; split; [done|]. by constructor.
Qed.

Lemma append_path_adds_reads entries path :
  adds_reads entries (append_default_read_only_path_if_no_explicit_rule host entries path).
Proof.
  unfold append_default_read_only_path_if_no_explicit_rule. destruct (uri_of path); [apply append_default_adds_reads|apply adds_reads_refl].
Qed.

Lemma protect_root_adds_reads b entries root : adds_reads entries (protect_root host b entries root).
Proof. apply adds_reads_fold, append_path_adds_reads. Qed.

(** ** What the scan of [to_legacy_sandbox_policy] sees *)

Lemma scan_read cwd st (e : entry) : fe_access e = Read -> legacy_scan_entry host cwd st e = Ok st.
Proof.
  intros Hr. unfold legacy_scan_entry. rewrite Hr. destruct st as [w roots t s r]. cbn [can_write bool_decide].
  destruct (fe_path e) as [u|g|v]; [done..|]. destruct v as [| |sub| | |]; simpl; rewrite ?orb_false_r, ?andb_false_r; try done.
  by case_match.
Qed.

Lemma scan_reads cwd st (es : list entry) :
  Forall (fun e => fe_access e = Read) es -> fold_res (legacy_scan_entry host cwd) st es = Ok st.
Proof.
  intros Hes. induction Hes as [|e es He _ IH]; [done|]. cbn [fold_res]. by rewrite (scan_read cwd st e He).
Qed.

(** A writable root of a configuration: an absolute path with plain names. *)
Definition plain_abs (root : AbsolutePathBuf) : Prop :=
  exists ns, root = RootDir :: map Normal ns /\ Forall (fun n => plain_name n = true) ns.

Lemma uri_of_plain root :
  plain_abs root -> exists u : Url, uri_of root = Some u /\ to_abs_path (h_env host) u = Ok root.
Proof.
  intros (ns & -> & Hns). destruct (from_abs_path_names ns Hns) as (u & Hu & Hat). exists u. unfold uri_of.
  rewrite Hu. split; [done|]. by apply to_abs_path_names.
Qed.

Definition add_roots (st : LegacyScan) (roots : list AbsolutePathBuf) : LegacyScan :=
  {| ls_workspace_root_writable := ls_workspace_root_writable st; ls_writable_roots := ls_writable_roots st ++ roots;
     ls_tmpdir_writable := ls_tmpdir_writable st; ls_slash_tmp_writable := ls_slash_tmp_writable st;
     ls_unbridgeable_root_write := ls_unbridgeable_root_write st |}.

Lemma scan_roots cwd st roots :
  Forall plain_abs roots -> cwd ∉ roots ->
  fold_res (legacy_scan_entry host (Some cwd)) st (omap (entry_of_path (Url := Url) Write) roots) = Ok (add_roots st roots).
Proof.
  intros Hroots. revert st. induction Hroots as [|root roots Hr _ IH]; intros st Hcwd.
  { destruct st. unfold add_roots. simpl. by rewrite app_nil_r. }
  destruct (uri_of_plain root Hr) as (u & Hu & Hp). cbn [omap list_omap]. unfold entry_of_path at 1. rewrite Hu.
  cbn [fmap option_fmap option_map fold_res legacy_scan_entry fe_access fe_path entry_new]. destruct st as [w rs t s r].
  simpl. rewrite Hp. rewrite not_elem_of_cons in Hcwd. rewrite bool_decide_false by naive_solver. simpl.
  etransitivity; [apply IH; naive_solver|]. unfold add_roots. simpl. by rewrite <- app_assoc.
Qed.

Lemma workspace_root_read roots no_tmpdir no_tmp (e : entry) :
  e ∈ workspace_entries roots no_tmpdir no_tmp -> fe_path e = PSpecial Root -> fe_access e = Read.
Proof.
  unfold workspace_entries. rewrite !elem_of_app. intros [He|[He|[He|He]]] Hr.
  - set_solver.
  - destruct no_tmp; set_solver.
  - destruct no_tmpdir; set_solver.
  - apply list_elem_of_omap in He as (root & _ & He). unfold entry_of_path in He.
    destruct (uri_of root); simplify_eq/=.
Qed.

Lemma scan_workspace cwd roots no_tmpdir no_tmp :
  Forall plain_abs roots -> cwd ∉ roots ->
  fold_res (legacy_scan_entry host (Some cwd))
    {| ls_workspace_root_writable := false; ls_writable_roots := []; ls_tmpdir_writable := false;
       ls_slash_tmp_writable := false; ls_unbridgeable_root_write := false |}
    (workspace_entries (Url := Url) roots no_tmpdir no_tmp) =
  Ok {| ls_workspace_root_writable := true; ls_writable_roots := roots; ls_tmpdir_writable := negb no_tmpdir;
        ls_slash_tmp_writable := negb no_tmp; ls_unbridgeable_root_write := false |}.
Proof.
  intros Hroots Hcwd. unfold workspace_entries. rewrite !fold_res_app.
  destruct no_tmpdir, no_tmp; simpl; rewrite (scan_roots cwd _ roots Hroots Hcwd); done.
Qed.

(** A legacy policy survives the move to file system permissions and back: every policy, with
    the network access it stands for, comes back as it was, provided its writable roots are
    distinct absolute paths other than the working directory itself (which it makes
    writable anyway); the protections that the first step adds do not get in the way. *)
Theorem legacy_policy_roundtrip (p : SandboxPolicy) cwd :
  from_absolute_path (h_env host) (path_string cwd) = Ok cwd ->
  match p with
  | WorkspaceWrite roots _ _ _ => Forall plain_abs roots /\ NoDup roots /\ cwd ∉ roots
  | _ => True
  end ->
  to_legacy_sandbox_policy host (from_legacy_sandbox_policy_for_cwd (Url := Url) host p (path_string cwd))
    (network_from_legacy p) (path_string cwd) = Ok p.
Proof.
  intros Hcwd Hp. destruct p as [|b|[]|roots net no_tmpdir no_tmp]; try done.
  { by destruct b. }
  destruct Hp as (Hroots & Hnd & Hne).
  set (pol := from_legacy_sandbox_policy_for_cwd _ _ _).
  assert (fp_kind pol = Restricted /\ adds_reads (workspace_entries roots no_tmpdir no_tmp) (fp_entries pol)) as [Hk (extra & He & Hex)].
  { unfold pol, from_legacy_sandbox_policy_for_cwd. rewrite Hcwd. cbn [ok_of from_legacy fp_kind with_entries workspace_write restricted fp_entries].
    split; [done|]. eapply adds_reads_trans; [|apply adds_reads_fold, protect_root_adds_reads].
    eapply adds_reads_trans; [|apply protect_root_adds_reads].
    eapply adds_reads_trans; [|apply adds_reads_fold, protect_root_adds_reads].
    apply adds_reads_fold, append_default_adds_reads. }
  unfold to_legacy_sandbox_policy. rewrite Hk, Hcwd. cbn [ok_of].
  assert (has_full_disk_write_access host pol = false) as Hfull.
  { unfold has_full_disk_write_access. rewrite Hk. apply andb_false_iff. left. apply andb_false_iff. right.
    apply not_true_iff_false. intros (e & Hin & Hw)%existsb_exists. destruct (fe_path e) as [| |[]] eqn:Ep; try done.
    apply bool_decide_eq_true in Hw. rewrite He in Hin. apply list_elem_of_In, elem_of_app in Hin as [Hin|Hin].
    - rewrite (workspace_root_read _ _ _ e Hin Ep) in Hw. done.
    - apply (proj1 (Forall_forall _ _) Hex) in Hin. congruence. }
  rewrite Hfull, He, fold_res_app, scan_workspace by done. cbn [mbind res_bind]. rewrite scan_reads by done.
  cbn [mbind res_bind ls_workspace_root_writable ls_writable_roots ls_tmpdir_writable ls_slash_tmp_writable].
  rewrite dedup_paths_id, !negb_involutive by done. by destruct net.
Qed.
End Legacy.
