(* ===== verification/SandboxDemo.v ===== *)
(** * File system permissions on concrete policies

    The theorems of [SandboxAccess] and [SandboxLegacy] at concrete policies and paths,
    with the URLs of [UrlModel], and a policy whose metadata protection depends on the
    order of its entries. *)
From S2P Require Import Prelude AbsPath PathUri PathUriJoin UrlModel SandboxPolicy SandboxAccess SandboxLegacy.
Import UrlModel.

Set Default Goal Selector "!".

Module SandboxDemo.
Definition host : Host :=
  {| h_env := demo_env; h_tmpdir := Some (lit "/var/tmp"); h_is_dir := fun _ => true; h_is_file := fun _ => false;
     h_exists := fun _ => true; h_read_to_string := fun _ => None |}.

Definition path_entry (names : list rstr) (access : FileSystemAccessMode) : @FileSystemSandboxEntry UrlModel.t :=
  entry_new (PPath (UriDemo.url names)) access.

Definition cx : @FileSystemSandboxPolicyContext UrlModel.t :=
  {| cx_cwd := UriDemo.w; cx_workspace_roots := [UriDemo.w]; cx_user_home_dir := None; cx_temporary_directories := Some [] |}.

(** [/] is readable, the project writable, one directory of it hidden. *)
Definition project : @FileSystemSandboxPolicy UrlModel.t :=
  restricted [entry_new (PSpecial Root) Read; entry_new (PSpecial (ProjectRoots None)) Write;
              path_entry [lit "w"; lit "src"; lit "keys"] Deny].

Definition everything : @FileSystemSandboxPolicy UrlModel.t :=
  restricted [entry_new (PSpecial Root) Write; path_entry [lit "w"] Read; path_entry [lit "w"] Write].

Definition file : UrlModel.t := UriDemo.url [lit "w"; lit "src"; lit "keys"; lit "k.pem"].
Definition file_names : list (list Z) := [lit "w"; lit "src"; lit "keys"; lit "k.pem"].

(** A writable worktree inside the metadata of a writable project. *)
Definition outer := path_entry [lit "w"] Write.
Definition inner := path_entry [lit "w"; lit ".workx"; lit "t"] Write.
Definition git_config : UrlModel.t := UriDemo.url [lit "w"; lit ".workx"; lit "t"; lit ".git"; lit "config"].
End SandboxDemo.
Import SandboxDemo.

Lemma demo_context : posix_context cx.
Proof. exists [lit "w"; lit "src"]. apply demo_at_names; [repeat constructor|apply demo_parse; by vm_compute]. Qed.

(** Whether every resolved root of a policy is one whose names are known. *)
Definition unambiguousb (self : @FileSystemSandboxPolicy UrlModel.t) : bool :=
  forallb (fun e => match posix_names e.1 with Some _ => true | None => is_opaque e.1 end) (resolved_entries self cx).

Lemma unambiguousb_spec self : unambiguousb self = true -> unambiguous self cx.
Proof.
  intros Hall root access Hin. unfold unambiguousb in Hall. rewrite forallb_forall in Hall.
  apply list_elem_of_In, Hall in Hin. simpl in Hin. destruct (posix_names root); [right; by eexists|by left].
Qed.

(** The members of a list that [vm_compute] can write out. *)
Ltac concrete_members H :=
  match type of H with ?x ∈ ?l => let l' := eval vm_compute in l in change (x ∈ l') in H; rewrite ?elem_of_cons in H end.

Lemma resolve_access_most_specific_witness :
  resolve_access project file cx = Deny /\
  (decides (view project cx) file_names Deny \/
   (Deny = Deny /\ forall n access', (n, access') ∈ view project cx -> ~ n `prefix_of` file_names)).
Proof.
  split; [by vm_compute|].
  apply (resolve_access_most_specific project cx file file_names Deny eq_refl demo_context); [by vm_compute| |by vm_compute].
  apply unambiguousb_spec. by vm_compute.
Defined.

Lemma intersect_read_only_never_writes_witness :
  match intersect_with_read_only (Managed (MRestricted (fp_entries project) None) NetEnabled) with
  | Ok (Some profile) =>
      can_write_path host project UriDemo.f cx = true /\
      can_write_path host (file_system_sandbox_policy profile) UriDemo.f cx = false
  | _ => False
  end.
Proof.
  pose proof (intersect_read_only_never_writes host (Managed (MRestricted (fp_entries project) None) NetEnabled)) as Hr.
  simpl in Hr |- *. destruct Hr as (_ & Hno & _). split; [by vm_compute|apply Hno].
Defined.

Lemma deny_entries_preserved_witness :
  resolve_access unrestricted file cx = Write /\
  resolve_access (preserve_deny_read_restrictions_from unrestricted project) file cx = Deny.
Proof.
  split; [done|]. eapply (proj1 (deny_entries_preserved unrestricted project cx file file_names ltac:(done)
    ltac:(by vm_compute) demo_context ltac:(by vm_compute)
    ltac:(apply unambiguousb_spec; by vm_compute) ltac:(apply unambiguousb_spec; by vm_compute)) [lit "w"; lit "src"; lit "keys"]).
  - vm_compute. set_solver.
  - by exists [lit "k.pem"].
  - intros n a Hin. concrete_members Hin. set_solver.
Defined.

Lemma full_disk_write_sound_witness :
  has_full_disk_write_access host everything = true /\
  resolve_access everything file cx = Write /\ can_write_path host everything file cx = true.
Proof.
  split; [by vm_compute|].
  apply (full_disk_write_sound host everything cx file file_names); [by vm_compute| |apply demo_context|by vm_compute|].
  - intros e u Hin He _. assert (u = UriDemo.url [lit "w"]) as ->.
    { unfold everything, restricted in Hin. simpl in Hin. rewrite !elem_of_cons in Hin. set_solver. }
    exists [lit "w"]. split; [apply demo_at_names; [repeat constructor|apply demo_parse; by vm_compute]|repeat constructor].
  - apply unambiguousb_spec. by vm_compute.
Defined.

Lemma metadata_protected_witness :
  resolve_access project (UriDemo.url [lit "w"; lit "src"; lit ".git"; lit "config"]) cx = Write /\
  can_write_path host project (UriDemo.url [lit "w"; lit "src"; lit ".git"; lit "config"]) cx = false.
Proof.
  split; [by vm_compute|].
  apply (metadata_protected host project cx _ [lit "w"; lit "src"; lit ".git"; lit "config"] [lit "w"; lit "src"] (lit ".git")).
  - done.
  - by vm_compute.
  - apply demo_context.
  - by vm_compute.
  - intros root n Hin _ _. exists [lit "w"; lit "src"].
    assert (root = UriDemo.w) as ->; [|apply demo_at_names; [repeat constructor|apply demo_parse; by vm_compute]].
    concrete_members Hin. set_solver.
  - vm_compute. set_solver.
  - set_solver.
  - by exists [lit "config"].
  - intros n n' m' Hn Hn' _ _. concrete_members Hn. concrete_members Hn'.
    assert (n = [lit "w"; lit "src"]) as -> by set_solver. assert (n' = [lit "w"; lit "src"]) as -> by set_solver.
    intros [k Hk]. apply (f_equal length) in Hk. rewrite length_app, length_app in Hk. simpl in Hk. lia.
Defined.

Lemma legacy_policy_roundtrip_witness :
  let p := WorkspaceWrite [[RootDir; Normal (lit "data")]; [RootDir; Normal (lit "opt"); Normal (lit "x")]] true true false in
  to_legacy_sandbox_policy host (from_legacy_sandbox_policy_for_cwd (Url := UrlModel.t) host p (lit "/w")) (network_from_legacy p) (lit "/w") = Ok p.
Proof.
  intros p. apply (legacy_policy_roundtrip host p [RootDir; Normal (lit "w")]); [by vm_compute|]. split; [|split].
  - repeat constructor; [exists [lit "data"]|exists [lit "opt"; lit "x"]]; (split; [done|repeat constructor]).
  - apply NoDup_cons. split; [set_solver|]. apply NoDup_singleton.
  - set_solver.
Defined.

(** Which metadata is protected depends on the order of the entries: of a writable project and a
    writable directory inside its [.workx], the [.git] of the inner one is protected when
    the inner entry comes first, and can be written when the outer one comes first, because
    only the first protected directory found around the path is considered. *)
Theorem metadata_protection_order :
  can_write_path host (restricted [inner; outer]) git_config cx = false /\
  can_write_path host (restricted [outer; inner]) git_config cx = true /\
  metadata_write_denial (restricted [inner; outer]) git_config cx = Some (lit ".git") /\
  metadata_write_denial (restricted [outer; inner]) git_config cx = None.
Proof. by vm_compute. Qed.
