(* ===== verification/Approval.v ===== *)
(** * Approval settings

    The settings that decide when the user is asked: [AskForApproval] of
    [workx-rs/protocol/src/protocol.rs], [SandboxPermissions] of [protocol/src/models.rs],
    [WindowsSandboxLevel] of [protocol/src/config_types.rs], and the sandbox of the
    platform, [get_platform_sandbox] of [sandboxing/src/manager.rs]. *)
From S2P Require Import Prelude.

Set Default Goal Selector "!".

Record GranularApprovalConfig := {
  g_sandbox_approval : bool;
  g_rules : bool;
  g_skill_approval : bool;
  g_request_permissions : bool;
  g_mcp_elicitations : bool;
}.

Inductive AskForApproval :=
| UnlessTrusted
| OnRequest
| Granular (config : GranularApprovalConfig)
| Never.

#[export] Instance GranularApprovalConfig_eq_dec : EqDecision GranularApprovalConfig.
Proof. solve_decision. Defined.
#[export] Instance AskForApproval_eq_dec : EqDecision AskForApproval.
Proof. solve_decision. Defined.

Inductive WindowsSandboxLevel := WslDisabled | WslRestrictedToken | WslElevated.

Inductive SandboxType := SandboxNone | MacosSeatbelt | LinuxSeccomp | WindowsRestrictedToken.

(** [cfg!(target_os = ...)]. *)
Inductive TargetOs := MacOs | Linux | WindowsOs | OtherOs.

Definition get_platform_sandbox (target_os : TargetOs) (windows_sandbox_enabled : bool) : option SandboxType :=
  match target_os with
  | MacOs => Some MacosSeatbelt
  | Linux => Some LinuxSeccomp
  | WindowsOs => if windows_sandbox_enabled then Some WindowsRestrictedToken else None
  | OtherOs => None
  end.

Definition windows_sandbox_enabled (level : WindowsSandboxLevel) : bool :=
  match level with WslDisabled => false | _ => true end.

Inductive SandboxPermissions := UseDefault | RequireEscalated | WithAdditionalPermissions.

Definition requests_sandbox_override (self : SandboxPermissions) : bool :=
  match self with UseDefault => false | _ => true end.
