(* ===== verification/Safety.v ===== *)
(** * Approving patches

    Models [workx-rs/core/src/safety.rs]: whether a verified patch ([Invocation]) is
    applied at once, shown to the user or refused, from the approval settings of
    [Approval] and the file system permissions of [SandboxPolicy]. The operations on URIs
    that the patch code uses are instantiated with those of [PathUri] here. *)
From S2P Require Import Prelude AbsPath PathUri SandboxPolicy Approval UrlModel SandboxDemo.
From S2P Require Import PatchParser SeekSequence TextFile FileUpdate ApplyHunks Invocation.

Set Default Goal Selector "!".

Inductive SafetyCheck := AutoApprove | AskUser | Reject (reason : rstr).

Definition PATCH_REJECTED_OUTSIDE_PROJECT_REASON : rstr :=
  lit "writing outside of the project; rejected by user approval settings".
Definition PATCH_REJECTED_READ_ONLY_REASON : rstr :=
  lit "writing is blocked by read-only sandbox; rejected by user approval settings".

(** [SandboxPolicy] has the operations of [PathUri] as [res]; the patch code uses their
    success. [inferred_native_path_string] is a parameter. *)
Definition uri_ops {Url} `{PathUri.UrlCrate Url} (inferred_native_path_string : Url -> rstr) : PathUriOps Url :=
  {| ApplyHunks.uri_join := fun u s => ok_of (PathUri.uri_join u s);
     ApplyHunks.uri_parent := PathUri.uri_parent;
     ApplyHunks.uri_text := inferred_native_path_string |}.

Section Safety.
Context {Fs Url : Type} `{PathUri.UrlCrate Url} `{Countable Url} `{ExecutorFileSystem Fs Url}.
Variable inferred_native_path_string : Url -> rstr.
Variable text_diff : rstr -> rstr -> nat -> rstr.
Variable host : Host.
Variable target_os : TargetOs.
Set Default Proof Using "Type".
#[local] Instance ops : PathUriOps Url := uri_ops inferred_native_path_string.

Abbreviation policy := (@FileSystemSandboxPolicy Url).
Abbreviation profile := (@PermissionProfile Url).
Abbreviation action := (@ApplyPatchAction Url _ _).

Definition normalize (path : AbsolutePathBuf) : AbsolutePathBuf := fold_left normalize_step path [].

Definition is_path_writable (file_system_sandbox_policy : policy) (native_cwd : AbsolutePathBuf) (path : Url) : bool :=
  match PathUri.to_abs_path (h_env host) path with
  | Ok path =>
      can_write_path_with_cwd host file_system_sandbox_policy (path_string (normalize path)) (path_string native_cwd)
  | _ => false
  end.

Definition change_is_writable (file_system_sandbox_policy : policy) (native_cwd : AbsolutePathBuf)
    (change : Url * @ApplyPatchFileChange Url) : bool :=
  let is_path_writable := is_path_writable file_system_sandbox_policy native_cwd in
  match change.2 with
  | FileAdd _ | FileDelete _ => is_path_writable change.1
  | FileUpdate _ move_path _ =>
      is_path_writable change.1 && match move_path with Some dest => is_path_writable dest | None => true end
  end.

Definition is_write_patch_constrained_to_writable_paths (a : action) (file_system_sandbox_policy : policy) (cwd : Url) : bool :=
  if has_full_disk_write_access host file_system_sandbox_policy then true
  else
    match PathUri.to_abs_path (h_env host) cwd with
    | Ok native_cwd =>
        forallb (change_is_writable file_system_sandbox_policy native_cwd) (map_to_list (aa_changes a))
    | _ => false
    end.

Definition patch_rejection_reason (permission_profile : profile) (file_system_sandbox_policy : policy) (cwd : Url) : rstr :=
  let has_no_writable_roots :=
    match PathUri.to_abs_path (h_env host) cwd with
    | Ok cwd => negb (has_writable_roots_with_cwd host file_system_sandbox_policy (path_string cwd))
    | _ => false
    end in
  match permission_profile with
  | Managed _ _ =>
      if negb (has_full_disk_write_access host file_system_sandbox_policy) && has_no_writable_roots
      then PATCH_REJECTED_READ_ONLY_REASON else PATCH_REJECTED_OUTSIDE_PROJECT_REASON
  | Disabled | External _ => PATCH_REJECTED_OUTSIDE_PROJECT_REASON
  end.

Definition rejects_sandbox_approval (p : AskForApproval) : bool :=
  match p with
  | Never => true
  | Granular granular_config => negb (g_sandbox_approval granular_config)
  | _ => false
  end.

Definition assess_patch_safety (a : action) (approval : AskForApproval) (permission_profile : profile)
    (file_system_sandbox_policy : policy) (cwd : Url) (windows_sandbox_level : WindowsSandboxLevel) : SafetyCheck :=
  if bool_decide (aa_changes a = ∅) then Reject (lit "empty patch")
  else if bool_decide (approval = UnlessTrusted) then AskUser
  else
    let refuse := if rejects_sandbox_approval approval
                  then Reject (patch_rejection_reason permission_profile file_system_sandbox_policy cwd)
                  else AskUser in
    if is_write_patch_constrained_to_writable_paths a file_system_sandbox_policy cwd then
      match permission_profile with
      | Disabled | External _ => AutoApprove
      | Managed _ _ =>
          match get_platform_sandbox target_os (windows_sandbox_enabled windows_sandbox_level) with
          | Some _ => AutoApprove
          | None => refuse
          end
      end
    else refuse.

(** ** The changes of a verified patch *)

(** A change that stands for a hunk: the move destination included. *)
Definition change_of_hunk (cwd : Url) (h : Hunk) (changes : gmap Url (@ApplyPatchFileChange Url)) : Prop :=
  exists p c, uri_join cwd (hunk_source_path h) = Some p /\ changes !! p = Some c /\
    match h with
    | UpdateFile _ (Some dest) _ => exists d diff text, uri_join cwd dest = Some d /\ c = FileUpdate diff (Some d) text
    | _ => True
    end.

Lemma verify_hunk_changes m fs cwd changes h changes' :
  verify_hunk text_diff m fs cwd changes h = Ok changes' ->
  change_of_hunk cwd h changes' /\ forall h', change_of_hunk cwd h' changes -> change_of_hunk cwd h' changes'.
Proof.
  unfold verify_hunk. destruct (uri_join cwd (hunk_source_path h)) as [p|] eqn:Ep; [|done].
  destruct (changes !! p) eqn:Enone; [done|].
  destruct (verify_change text_diff m fs cwd p h) as [c| |] eqn:Ec; [|done..]. intros [= <-]. split.
  - exists p, c. split; [done|]. split; [apply lookup_insert_eq|]. destruct h as [| |? [dest|] chunks]; try done.
    simpl in Ec. destruct (unified_diff_from_chunks_with_mode _ _ _ _ _) as [u| |]; simplify_eq/=.
    destruct (ok_of (PathUri.uri_join cwd dest)) as [d|]; simplify_eq/=. by exists d, (fu_unified_diff u), (fu_content u).
  - intros h' (p' & c' & Hp' & Hc' & Hm). exists p', c'. split; [done|]. split; [|done].
    rewrite lookup_insert_ne by congruence. done.
Qed.

Lemma verify_hunks_changes m fs cwd hunks changes changes' :
  fold_res (verify_hunk text_diff m fs cwd) changes hunks = Ok changes' ->
  (forall h, h ∈ hunks -> change_of_hunk cwd h changes') /\
  (forall h, change_of_hunk cwd h changes -> change_of_hunk cwd h changes').
Proof.
  revert changes. induction hunks as [|h hunks IH]; intros changes; cbn [fold_res].
  { intros [= <-]. split; [set_solver|done]. }
  destruct (verify_hunk text_diff m fs cwd changes h) as [c1| |] eqn:E; [|done..]. cbn [mbind res_bind]. intros Hf.
  destruct (verify_hunk_changes m fs cwd changes h c1 E) as [Hh Hkeep]. destruct (IH c1 Hf) as [Hin Hkeep']. split.
  - intros h' [->|Hh']%elem_of_cons; [by apply Hkeep'|by apply Hin].
  - intros h' Hh'. by apply Hkeep', Hkeep.
Qed.

Lemma verified_changes args cwd m fs a :
  try_verify_apply_patch_args text_diff args cwd m fs = Ok a ->
  forall h, h ∈ apa_hunks args -> change_of_hunk (aa_cwd a) h (aa_changes a).
Proof.
  unfold try_verify_apply_patch_args. destruct (match apa_workdir args with None => _ | Some _ => _ end) as [ecwd| |]; [|done..].
  cbn [mbind res_bind]. destruct (fold_res _ _ _) as [changes| |] eqn:E; [|done..]. intros [= <-]. simpl.
  apply (verify_hunks_changes m fs ecwd _ _ _ E).
Qed.

(** A path the permissions let the patch write. *)
Definition permitted (file_system_sandbox_policy : policy) (cwd path : Url) : Prop :=
  has_full_disk_write_access host file_system_sandbox_policy = true \/
  exists native_cwd native,
    PathUri.to_abs_path (h_env host) cwd = Ok native_cwd /\ PathUri.to_abs_path (h_env host) path = Ok native /\
    can_write_path_with_cwd host file_system_sandbox_policy (path_string (normalize native)) (path_string native_cwd) = true.

Lemma constrained_permitted a pol cwd h :
  is_write_patch_constrained_to_writable_paths a pol cwd = true -> change_of_hunk (aa_cwd a) h (aa_changes a) ->
  forall s p, s = hunk_source_path h \/ (exists src chunks, h = UpdateFile src (Some s) chunks) ->
    uri_join (aa_cwd a) s = Some p -> permitted pol cwd p.
Proof.
  unfold is_write_patch_constrained_to_writable_paths, permitted. intros Hc (q & c & Hq & Hl & Hm) s p Hs Hp.
  destruct (has_full_disk_write_access host pol); [by left|]. right.
  destruct (PathUri.to_abs_path (h_env host) cwd) as [native_cwd| |]; [|done..]. exists native_cwd.
  assert (forall u, is_path_writable pol native_cwd u = true -> exists native,
    Ok native_cwd = Ok native_cwd :> res PathUri.PathUriParseError _ /\ PathUri.to_abs_path (h_env host) u = Ok native /\
    can_write_path_with_cwd host pol (path_string (normalize native)) (path_string native_cwd) = true) as Hw.
  { intros u Hu. unfold is_path_writable in Hu. destruct (PathUri.to_abs_path (h_env host) u) as [n| |]; [|done..]. by exists n. }
  apply Hw. rewrite forallb_forall in Hc. specialize (Hc (q, c)). simpl in Hc.
  specialize (Hc (proj1 (list_elem_of_In _ _) (proj2 (elem_of_map_to_list _ _ _) Hl))). unfold change_is_writable in Hc. simpl in Hc.
  destruct Hs as [->|(src & chunks & ->)].
  - assert (q = p) as -> by congruence. destruct c; [done..|]. by apply andb_true_iff in Hc as [Hc _].
  - destruct Hm as (d & diff & text & Hd & ->). assert (d = p) as -> by congruence. by apply andb_true_iff in Hc as [_ Hc].
Qed.

(** C6. A patch is applied without asking only where the permissions let it write: if a verified
    patch is auto-approved, then it is not empty, the approval setting is not [untrusted],
    writes are confined by the platform sandbox unless the profile asks for none, and for
    every hunk the file it names and the file it moves to may both be written. *)
Theorem auto_approved_patch_writable args cwd0 m fs a approval prof pol cwd level :
  try_verify_apply_patch_args text_diff args cwd0 m fs = Ok a ->
  assess_patch_safety a approval prof pol cwd level = AutoApprove ->
  apa_hunks args ≠ [] /\ approval ≠ UnlessTrusted /\
  (forall files network, prof = Managed files network ->
     is_Some (get_platform_sandbox target_os (windows_sandbox_enabled level))) /\
  forall h s p, h ∈ apa_hunks args ->
    s = hunk_source_path h \/ (exists src chunks, h = UpdateFile src (Some s) chunks) ->
    uri_join (aa_cwd a) s = Some p -> permitted pol cwd p.
Proof.
  intros Hv Ha. unfold assess_patch_safety in Ha. case_bool_decide as Hne; [done|]. case_bool_decide as Hun; [done|].
  assert (is_write_patch_constrained_to_writable_paths a pol cwd = true) as Hc.
  { destruct (is_write_patch_constrained_to_writable_paths a pol cwd); [done|]. by destruct (rejects_sandbox_approval approval). }
  rewrite Hc in Ha. split; [|split; [done|split]].
  - intros Hnil. unfold try_verify_apply_patch_args in Hv. rewrite Hnil in Hv.
    destruct (match apa_workdir args with None => _ | Some _ => _ end); [|done..]. by simplify_eq/=.
  - intros files network ->. destruct (get_platform_sandbox _ _); [by eexists|]. by destruct (rejects_sandbox_approval approval).
  - intros h s p Hh. eapply constrained_permitted; [exact Hc|]. by eapply verified_changes.
Qed.

End Safety.

(** ** A concrete patch *)

Import UrlModel.UrlModel.

Module SafetyDemo.

Definition encode_opt {A} (f : A -> rstr) (o : option A) : rstr := match o with None => [] | Some a => 1%Z :: f a end.
Definition decode_opt (s : rstr) : option rstr := match s with [] => None | _ :: s => Some s end.

Definition fields (u : UrlModel.t) : list rstr :=
  m_scheme u :: m_username u :: encode_opt id (m_password u) :: encode_opt id (m_host u) ::
  encode_opt (fun z => [z]) (m_port u) :: encode_opt id (m_query u) :: encode_opt id (m_fragment u) :: m_raw u.

Definition of_fields (l : list rstr) : option UrlModel.t :=
  match l with
  | s :: us :: pw :: h :: p :: q :: f :: r =>
      Some {| m_scheme := s; m_username := us; m_password := decode_opt pw; m_host := decode_opt h;
              m_port := decode_opt p ≫= head; m_raw := r; m_query := decode_opt q; m_fragment := decode_opt f |}
  | _ => None
  end.

#[export] Instance t_countable : Countable UrlModel.t.
Proof. refine (inj_countable fields of_fields _). by intros [s us [] [] [] r [] []]. Defined.

(** A file system in which every path is a file with the same text. *)
#[export] Instance same_file : ExecutorFileSystem rstr UrlModel.t := {|
  read_file_text fs _ _ := IoOk fs;
  get_metadata _ _ _ := IoOk {| is_file := true; is_directory := false; is_symlink := false |};
  write_file fs _ _ _ := (fs, IoOk ());
  create_directory fs _ _ := (fs, IoOk ());
  remove fs _ _ := (fs, IoOk ());
|}.

Definition chunk : UpdateFileChunk :=
  {| change_context := None; old_lines := [lit "a"]; new_lines := [lit "b"]; context_line_indices := []; is_end_of_file := false |}.

Definition args : ApplyPatchArgs :=
  {| apa_patch := []; apa_hunks := [AddFile (lit "n.rs") (lit "x"); UpdateFile (lit "o.rs") (Some (lit "p.rs")) [chunk]];
     apa_workdir := None; apa_environment_id := None |}.

Definition verified := try_verify_apply_patch_args (Fs := rstr) (Uri := UrlModel.t)
  (H0 := ops PathUri.url_as_str) (fun _ _ _ => []) args UriDemo.w NormalizeToLf (lit "a" ++ [NL]).
End SafetyDemo.

Import SafetyDemo.

Module SafetyChecks.
Definition managed : @PermissionProfile UrlModel.t := Managed (MRestricted (fp_entries SandboxDemo.project) None) NetRestricted.

Definition assess (a : @ApplyPatchAction UrlModel.t _ SafetyDemo.t_countable) : SafetyCheck :=
  assess_patch_safety SandboxDemo.host Linux a OnRequest managed SandboxDemo.project UriDemo.w WslDisabled.

Definition moved : UrlModel.t := UriDemo.url [lit "w"; lit "src"; lit "p.rs"].
End SafetyChecks.

Lemma auto_approved_patch_writable_witness :
  exists a, SafetyDemo.verified = Ok a /\ SafetyChecks.assess a = AutoApprove /\
    permitted SandboxDemo.host SandboxDemo.project UriDemo.w SafetyChecks.moved.
Proof.
  assert (match SafetyDemo.verified with
          | Ok a => match SafetyChecks.assess a with AutoApprove => true | _ => false end && bool_decide (aa_cwd a = UriDemo.w)
          | _ => false
          end = true) as Hb by (vm_compute; reflexivity).
  destruct SafetyDemo.verified as [a| |] eqn:Ev; [|discriminate Hb..]. exists a. split; [done|].
  apply andb_true_iff in Hb as [Ha Hcwd]. apply bool_decide_eq_true in Hcwd.
  assert (SafetyChecks.assess a = AutoApprove) as Hauto by by destruct (SafetyChecks.assess a). split; [done|].
  destruct (auto_approved_patch_writable PathUri.url_as_str (fun _ _ _ => []) SandboxDemo.host Linux _ _ _ _ _ _ _ _ _ _ Ev Hauto)
    as (_ & _ & _ & Hw).
  apply (Hw (UpdateFile (lit "o.rs") (Some (lit "p.rs")) [SafetyDemo.chunk]) (lit "p.rs")).
  - unfold SafetyDemo.args. cbn [apa_hunks]. set_solver.
  - right. by eexists _, _.
  - rewrite Hcwd. by vm_compute.
Defined.
