(* ===== verification/ShellBash.v ===== *)
(** * Commands inside shell scripts

    Models [workx-rs/shell-command/src/bash.rs], [detect_shell_type] of
    [shell_detect.rs] and [extract_powershell_command] of [powershell.rs]: which argument
    vectors run a script in a shell, and the commands that are read off the script's
    syntax tree, either as a sequence of plain commands whose words are exactly known or
    as the literal parts of all commands. The tree comes from the crates [tree-sitter]
    and [tree-sitter-bash], a parameter; a node is what the code asks of it. *)
From S2P Require Import Prelude AbsPath.

Set Default Goal Selector "!".

(** ** Shells *)

Inductive ShellType := Zsh | Bash | PowerShell | Sh | Cmd.

#[export] Instance ShellType_eq_dec : EqDecision ShellType.
Proof. solve_decision. Defined.

Definition DOT : char := 46.

(** [Path::file_stem] on Unix. *)
Definition file_stem (path : rstr) : option rstr :=
  name ← file_name (components path);
  Some (match rsplit_once DOT name with
        | Some (before, _) => if is_empty before then name else before
        | None => name
        end).

Definition shell_of_name (name : rstr) : option ShellType :=
  if streq name (lit "zsh") then Some Zsh
  else if streq name (lit "sh") then Some Sh
  else if streq name (lit "cmd") then Some Cmd
  else if streq name (lit "bash") then Some Bash
  else if streq name (lit "pwsh") then Some PowerShell
  else if streq name (lit "powershell") then Some PowerShell
  else None.

(** A stem that differs from the path is shorter, so the length of the path is enough. *)
Fixpoint detect_shell_type_fuel (fuel : nat) (shell_path : rstr) : option ShellType :=
  match shell_of_name shell_path with
  | Some shell => Some shell
  | None =>
      match file_stem shell_path, fuel with
      | Some shell_name, S fuel =>
          if bool_decide (components shell_name = components shell_path) then None
          else detect_shell_type_fuel fuel shell_name
      | _, _ => None
      end
  end.

Definition detect_shell_type (shell_path : rstr) : option ShellType :=
  detect_shell_type_fuel (length shell_path) shell_path.

Definition is_posix_shell (shell : option ShellType) : bool :=
  match shell with Some Zsh | Some Bash | Some Sh => true | _ => false end.

Definition extract_bash_command (command : list rstr) : option (rstr * rstr) :=
  match command with
  | [shell; flag; script] =>
      if negb (streq flag (lit "-lc") || streq flag (lit "-c")) || negb (is_posix_shell (detect_shell_type shell))
      then None else Some (shell, script)
  | _ => None
  end.

Definition POWERSHELL_FLAGS : list rstr := map lit ["-nologo"; "-noprofile"; "-command"; "-c"]%string.

(** The loop from index 1 over the flags; the last argument is never taken as a flag. *)
Fixpoint find_powershell_script (args : list rstr) : option rstr :=
  match args with
  | flag :: (script :: _) as rest =>
      let lower := to_ascii_lowercase flag in
      if negb (existsb (streq lower) POWERSHELL_FLAGS) then None
      else if streq lower (lit "-command") || streq lower (lit "-c") then head rest
      else find_powershell_script rest
  | _ => None
  end.

Definition extract_powershell_command (command : list rstr) : option (rstr * rstr) :=
  match command with
  | shell :: ((_ :: _ :: _) as args) =>
      if bool_decide (detect_shell_type shell = Some PowerShell)
      then (fun script => (shell, script)) <$> find_powershell_script args
      else None
  | _ => None
  end.

(** ** Syntax trees *)

(** A node of [tree_sitter::Tree]: [kind], [is_named], [start_byte], [utf8_text] of the
    source, [has_error] and [children]. *)
Inductive Node :=
| MkNode (kind : rstr) (is_named : bool) (start_byte : nat) (utf8_text : option rstr) (has_error : bool)
    (children : list Node).

Definition kind (n : Node) : rstr := let '(MkNode k _ _ _ _ _) := n in k.
Definition is_named (n : Node) : bool := let '(MkNode _ b _ _ _ _) := n in b.
Definition start_byte (n : Node) : nat := let '(MkNode _ _ s _ _ _) := n in s.
Definition utf8_text (n : Node) : option rstr := let '(MkNode _ _ _ t _ _) := n in t.
Definition has_error (n : Node) : bool := let '(MkNode _ _ _ _ e _) := n in e.
Definition children (n : Node) : list Node := let '(MkNode _ _ _ _ _ cs) := n in cs.
Definition named_children (n : Node) : list Node := List.filter is_named (children n).

Definition kind_is (k : string) (n : Node) : bool := streq (kind n) (lit k).

Fixpoint node_size (n : Node) : nat := let '(MkNode _ _ _ _ _ cs) := n in S (list_sum (map node_size cs)).

Definition stack_size (stack : list Node) : nat := list_sum (map node_size stack).

(** ** Words *)

Definition EXPANSION_CHARS : rstr := lit "{}*?[]\~^#$`".

Definition literal_text (word : rstr) : bool :=
  negb (starts_with (lit "=") word) && negb (existsb (fun c => contains_char c word) EXPANSION_CHARS).

Definition is_literal_word_or_number (node : Node) : bool :=
  if negb (kind_is "word" node || kind_is "number" node) then false
  else is_empty (named_children node)
       && match utf8_text node with Some word => literal_text word | None => false end.

(** [as_bytes().windows(2)] with an escape that double quotes do not protect from. *)
Fixpoint has_escape (s : rstr) : bool :=
  match s with
  | a :: (b :: _) as rest =>
      ((a =? 92)%Z && existsb (Z.eqb b) [36; 96; 34; 92; 10]%Z) || has_escape rest
  | _ => false
  end.

Definition quoted (q : char) (raw : rstr) : option rstr := text ← strip_prefix [q] raw; strip_suffix [q] text.

Definition parse_double_quoted_string (node : Node) : option rstr :=
  if negb (kind_is "string" node) then None
  else if negb (forallb (kind_is "string_content") (named_children node)) then None
  else
    raw ← utf8_text node;
    stripped ← quoted DQUOTE raw;
    if has_escape stripped then None else Some stripped.

Definition parse_raw_string (node : Node) : option rstr :=
  if negb (kind_is "raw_string" node) then None
  else raw_string ← utf8_text node; quoted 39 raw_string.

(** ** Plain commands *)

Definition plain_part (part : Node) : option rstr :=
  if kind_is "word" part || kind_is "number" part then utf8_text part
  else if kind_is "string" part then parse_double_quoted_string part
  else if kind_is "raw_string" part then parse_raw_string part
  else None.

Definition non_empty (s : rstr) : option rstr := if is_empty s then None else Some s.

Definition plain_word (child : Node) : option rstr :=
  if kind_is "command_name" child then
    word_node ← head (named_children child);
    if negb (kind_is "word" word_node) then None else utf8_text word_node
  else if kind_is "word" child || kind_is "number" child then utf8_text child
  else if kind_is "string" child then parse_double_quoted_string child
  else if kind_is "raw_string" child then parse_raw_string child
  else if kind_is "concatenation" child then
    parts ← mapM plain_part (named_children child); non_empty (concat parts)
  else None.

Definition parse_plain_command_from_node (cmd : Node) : option (list rstr) :=
  if negb (kind_is "command" cmd) then None else mapM plain_word (named_children cmd).

Definition ALLOWED_KINDS : list rstr :=
  map lit ["program"; "list"; "pipeline"; "command"; "command_name"; "word"; "string"; "string_content"; "raw_string";
           "number"; "concatenation"]%string.

Definition ALLOWED_PUNCT_TOKENS : list rstr := map lit ["&&"; "||"; ";"; "|"]%string ++ [[DQUOTE]; lit "'"].

Definition allowed_node (node : Node) : bool :=
  let k := kind node in
  if is_named node then
    existsb (streq k) ALLOWED_KINDS
    && negb ((streq k (lit "word") || streq k (lit "number")) && negb (is_literal_word_or_number node))
  else
    negb (existsb (fun c => contains_char c (lit "&;|")) k && negb (existsb (streq k) ALLOWED_PUNCT_TOKENS))
    && (existsb (streq k) ALLOWED_PUNCT_TOKENS || is_empty (trim k)).

(** The walk; the head of [stack] is the top of the [Vec]. Every pop removes a node, so
    the size of the stack is enough. *)
Fixpoint walk_plain (fuel : nat) (stack command_nodes : list Node) : option (list Node) :=
  match stack, fuel with
  | [], _ => Some command_nodes
  | _, O => None
  | node :: stack, S fuel =>
      if negb (allowed_node node) then None
      else
        let command_nodes := if is_named node && kind_is "command" node then command_nodes ++ [node] else command_nodes in
        walk_plain fuel (rev (children node) ++ stack) command_nodes
  end.

Definition sort_nodes : list Node -> list Node := sort_by (fun a b => (start_byte a <=? start_byte b)%nat).

Definition try_parse_word_only_commands_sequence (root : Node) : option (list (list rstr)) :=
  if has_error root then None
  else
    command_nodes ← walk_plain (node_size root) [root] [];
    mapM parse_plain_command_from_node (sort_nodes command_nodes).

(** ** Literal commands *)

Fixpoint parse_literal_shell_word (node : Node) : option rstr :=
  let '(MkNode k _ _ text _ cs) := node in
  if (streq k (lit "word") || streq k (lit "number")) && is_literal_word_or_number node then text
  else if streq k (lit "string") then parse_double_quoted_string node
  else if streq k (lit "raw_string") then parse_raw_string node
  else if streq k (lit "concatenation") then
    parts ← (fix parts (l : list Node) : option (list rstr) :=
               match l with
               | [] => Some []
               | p :: l => if is_named p then w ← parse_literal_shell_word p; ws ← parts l; Some (w :: ws) else parts l
               end) cs;
    non_empty (concat parts)
  else None.

(** The loop over the children of a command: [None] is the early return. *)
Fixpoint literal_words (found_command_name : bool) (l : list Node) : option (bool * list rstr) :=
  match l with
  | [] => Some (found_command_name, [])
  | child :: l =>
      if kind_is "command_name" child then
        word_node ← head (named_children child);
        command_name ← parse_literal_shell_word word_node;
        '(found, words) ← literal_words true l;
        Some (found, command_name :: words)
      else
        '(found, words) ← literal_words found_command_name l;
        Some (found, (if found_command_name then option_list (parse_literal_shell_word child) else []) ++ words)
  end.

Definition parse_literal_command_from_node (cmd : Node) : option (list rstr) :=
  if negb (kind_is "command" cmd) then None
  else
    '(found_command_name, words) ← literal_words false (named_children cmd);
    if (found_command_name : bool) then Some words else None.

Fixpoint walk_literal (fuel : nat) (stack : list Node) (commands : list (list rstr)) : list (list rstr) :=
  match stack, fuel with
  | [], _ | _, O => commands
  | node :: stack, S fuel =>
      let commands := commands ++ option_list (parse_literal_command_from_node node) in
      walk_literal fuel (rev (named_children node) ++ stack) commands
  end.

Section Parse.
(** [try_parse_shell]: [tree-sitter-bash] on a script. *)
Variable try_parse_shell : rstr -> option Node.

Definition parse_shell_script_into_commands (script : rstr) : option (list (list rstr)) :=
  tree ← try_parse_shell script; try_parse_word_only_commands_sequence tree.

Definition parse_shell_lc_plain_commands (command : list rstr) : option (list (list rstr)) :=
  '(shell, script) ← extract_bash_command command; parse_shell_script_into_commands script.

Definition parse_shell_lc_literal_commands (command : list rstr) : option (list (list rstr)) :=
  '(shell, script) ← extract_bash_command command;
  root ← try_parse_shell script;
  if has_error root then None else Some (walk_literal (node_size root) [root] []).
End Parse.

(** ** Trees *)

Lemma node_ind' (P : Node -> Prop) :
  (forall k b s t e cs, Forall P cs -> P (MkNode k b s t e cs)) -> forall n, P n.
Proof.
  intros HP. fix IH 1. intros [k b s t e cs]. apply HP. induction cs as [|c cs IHcs]; constructor; [apply IH|exact IHcs].
Qed.

(** All nodes, in source order, and those reached through named children. *)
Fixpoint nodes (n : Node) : list Node := let '(MkNode _ _ _ _ _ cs) := n in n :: concat (map nodes cs).

Definition forest (l : list Node) : list Node := concat (map nodes l).

Fixpoint named_nodes (n : Node) : list Node :=
  let '(MkNode _ _ _ _ _ cs) := n in
  n :: concat (map (fun c => if is_named c then named_nodes c else []) cs).

Definition command_nodes_of (n : Node) : list Node := List.filter (fun c => is_named c && kind_is "command" c) (nodes n).

Lemma nodes_unfold n : nodes n = n :: forest (children n).
Proof. by destruct n. Qed.

Lemma nodes_self n : n ∈ nodes n.
Proof. rewrite nodes_unfold. set_solver. Qed.

Lemma named_nodes_unfold n : named_nodes n = n :: concat (map named_nodes (named_children n)).
Proof.
  destruct n as [k b s t e cs]. unfold named_children. cbn [named_nodes children]. f_equal.
  induction cs as [|c cs IH]; [done|]. cbn [map List.filter concat]. destruct (is_named c); cbn [map concat]; by rewrite IH.
Qed.

Lemma node_size_unfold n : node_size n = S (stack_size (children n)).
Proof. by destruct n. Qed.

Lemma stack_size_app a b : stack_size (a ++ b) = stack_size a + stack_size b.
Proof. unfold stack_size. by rewrite map_app, list_sum_app. Qed.

Lemma stack_size_rev a : stack_size (rev a) = stack_size a.
Proof. induction a as [|x a IH]; [done|]. simpl. rewrite stack_size_app, IH. unfold stack_size. simpl. lia. Qed.

Lemma stack_size_filter f a : stack_size (List.filter f a) <= stack_size a.
Proof. induction a as [|x a IH]; [done|]. unfold stack_size in *. simpl. destruct (f x); simpl; lia. Qed.

Lemma forest_app a b : forest (a ++ b) = forest a ++ forest b.
Proof. unfold forest. by rewrite map_app, concat_app. Qed.

Lemma forest_cons a b : forest (a :: b) = nodes a ++ forest b.
Proof. done. Qed.

Lemma forest_rev a : forest (rev a) ≡ₚ forest a.
Proof.
  induction a as [|x a IH]; [done|]. simpl. rewrite forest_app, IH. unfold forest. simpl. rewrite app_nil_r. apply Permutation_app_comm.
Qed.

Lemma filter_perm {A} (f : A -> bool) l l' : l ≡ₚ l' -> List.filter f l ≡ₚ List.filter f l'.
Proof. induction 1; simpl; repeat destruct (f _); eauto using Permutation. Qed.

Lemma forallb_perm {A} (f : A -> bool) l l' : l ≡ₚ l' -> forallb f l = forallb f l'.
Proof. induction 1; simpl; [done|congruence|by rewrite !andb_assoc, (andb_comm (f x))|congruence]. Qed.

(** The walk looks at every node below the stack, and collects the commands. *)
Lemma walk_plain_spec fuel stack acc :
  stack_size stack <= fuel ->
  match walk_plain fuel stack acc with
  | Some cmds => forallb allowed_node (forest stack) = true /\ exists l, cmds = acc ++ l /\
                   l ≡ₚ List.filter (fun c => is_named c && kind_is "command" c) (forest stack)
  | None => forallb allowed_node (forest stack) = false
  end.
Proof.
  revert stack acc. induction fuel as [|fuel IH]; intros [|n stack] acc Hf; cbn [walk_plain].
  1,3: split; [done|exists []; by rewrite app_nil_r].
  { unfold stack_size in Hf. simpl in Hf. rewrite node_size_unfold in Hf. lia. }
  rewrite forest_cons, nodes_unfold. cbn [app forallb List.filter].
  destruct (allowed_node n) eqn:Ea; [|done]. cbn [negb andb].
  assert (forest (rev (children n) ++ stack) ≡ₚ forest (children n) ++ forest stack) as Hperm.
  { rewrite forest_app. by rewrite forest_rev. }
  set (acc' := if is_named n && kind_is "command" n then acc ++ [n] else acc).
  specialize (IH (rev (children n) ++ stack) acc').
  rewrite <- (forallb_perm allowed_node _ _ Hperm). destruct (walk_plain fuel _ acc') as [cmds|].
  - destruct IH as (Hall & l & -> & Hl).
    { rewrite stack_size_app, stack_size_rev. unfold stack_size in Hf. simpl in Hf. rewrite node_size_unfold in Hf.
      fold (stack_size stack) in Hf. lia. }
    split; [done|]. rewrite (filter_perm _ _ _ Hperm) in Hl. unfold acc'.
    destruct (is_named n && kind_is "command" n).
    + exists (n :: l). rewrite <- app_assoc. split; [done|]. by apply perm_skip.
    + by exists l.
  - apply IH. rewrite stack_size_app, stack_size_rev. unfold stack_size in Hf. simpl in Hf. rewrite node_size_unfold in Hf.
    fold (stack_size stack) in Hf. lia.
Qed.

(** ** Source order *)

Definition before (a b : Node) : Prop := start_byte a < start_byte b.
Definition not_after (a b : Node) : Prop := start_byte a <= start_byte b.

Lemma insert_node_sorted n l :
  StronglySorted not_after l -> StronglySorted not_after (insert_by (fun a b => (start_byte a <=? start_byte b)%nat) n l).
Proof.
  intros Hl. induction Hl as [|m l Hl IH Hm]; [repeat constructor|]. cbn [insert_by].
  destruct (Nat.leb_spec (start_byte n) (start_byte m)) as [Hle|Hgt].
  - constructor; [by constructor|]. constructor; [done|]. eapply Forall_impl; [exact Hm|]. unfold not_after. lia.
  - constructor; [done|]. apply Forall_forall. intros x [->|Hx]%insert_by_elem; [unfold not_after; lia|].
    by apply (proj1 (Forall_forall _ _) Hm).
Qed.

Lemma sort_nodes_spec l : StronglySorted not_after (sort_nodes l) /\ sort_nodes l ≡ₚ l.
Proof.
  unfold sort_nodes, sort_by. induction l as [|n l [Hs Hp]]; [split; [constructor|done]|]. cbn [foldr].
  split; [by apply insert_node_sorted|]. by rewrite insert_by_perm, Hp.
Qed.

Lemma sorted_unique l l0 : StronglySorted before l0 -> StronglySorted not_after l -> l ≡ₚ l0 -> l = l0.
Proof.
  intros H0. revert l. induction H0 as [|x l0 H0 IH Hx]; intros l Hl Hp; [by apply Permutation_nil_r in Hp|].
  destruct Hl as [|y l Hl Hy]; [by apply Permutation_nil_l in Hp|].
  assert (y = x) as ->; [|f_equal; apply IH; [done|]; by eapply Permutation_cons_inv].
  assert (y ∈ x :: l0) as Hin by (rewrite <- Hp; set_solver). apply elem_of_cons in Hin as [|Hin]; [done|].
  assert (x ∈ y :: l) as Hin' by (rewrite Hp; set_solver). apply elem_of_cons in Hin' as [|Hin']; [done|].
  apply (proj1 (Forall_forall _ _) Hx) in Hin. apply (proj1 (Forall_forall _ _) Hy) in Hin'. unfold before, not_after in *. lia.
Qed.

Lemma sort_nodes_perm l l0 : StronglySorted before l0 -> l ≡ₚ l0 -> sort_nodes l = l0.
Proof. intros H0 Hp. destruct (sort_nodes_spec l) as [Hs Hl]. apply sorted_unique; [done..|]. by rewrite Hl. Qed.

(** ** What the words stand for *)

Definition ESCAPED : list char := [36; 96; 34; 92; 10]%Z.

(** The word a shell makes of a node: nothing in it is expanded or unescaped. *)
Inductive literal_value : Node -> rstr -> Prop :=
| value_word n w :
    kind n = lit "word" \/ kind n = lit "number" -> named_children n = [] -> utf8_text n = Some w ->
    head w ≠ Some 61%Z -> (forall c, c ∈ EXPANSION_CHARS -> c ∉ w) -> literal_value n w
| value_string n w :
    kind n = lit "string" -> Forall (fun c => kind c = lit "string_content") (named_children n) ->
    utf8_text n = Some (DQUOTE :: w ++ [DQUOTE]) ->
    (forall a x b, w = a ++ 92%Z :: x :: b -> x ∉ ESCAPED) -> literal_value n w
| value_raw_string n w : kind n = lit "raw_string" -> utf8_text n = Some (39%Z :: w ++ [39%Z]) -> literal_value n w
| value_concatenation n ws :
    kind n = lit "concatenation" -> Forall2 literal_value (named_children n) ws -> concat ws ≠ [] ->
    literal_value n (concat ws).

Lemma kind_is_spec k n : kind_is k n = true <-> kind n = lit k.
Proof. apply streq_true. Qed.

Lemma literal_text_spec w :
  literal_text w = true <-> head w ≠ Some 61%Z /\ forall c, c ∈ EXPANSION_CHARS -> c ∉ w.
Proof.
  unfold literal_text. rewrite andb_true_iff, !negb_true_iff. split.
  - intros [Hs Hc]. split.
    + destruct w as [|c w]; [done|]. intros [= ->]. done.
    + intros c Hin Hw. apply not_true_iff_false in Hc. apply Hc, existsb_exists. exists c.
      split; [by apply list_elem_of_In|]. unfold contains_char. apply existsb_exists. exists c.
      split; [by apply list_elem_of_In|apply Z.eqb_refl].
  - intros [Hh Hc]. split.
    + destruct w as [|c w]; [done|]. change (lit "=") with [61%Z]. cbn [starts_with].
      destruct (Z.eqb_spec 61 c) as [<-|]; [done|done].
    + apply not_true_iff_false. intros (c & Hin & Hcon)%existsb_exists.
      apply (Hc c); [by apply list_elem_of_In|]. unfold contains_char in Hcon. apply existsb_exists in Hcon as (x & Hx & ->%Z.eqb_eq).
      by apply list_elem_of_In.
Qed.

Lemma has_escape_spec w : has_escape w = false <-> forall a x b, w = a ++ 92%Z :: x :: b -> x ∉ ESCAPED.
Proof.
  induction w as [|c w IH]; [split; [|done]; intros _ [|? a] x b Hw; simplify_list_eq|].
  destruct w as [|d w]; [split; [|done]; intros _ [|? [|? a]] x b Hw; simplify_list_eq|].
  cbn [has_escape] in *. rewrite orb_false_iff, IH. split.
  - intros [Hc Hrest] [|c' a] x b Hw; simplify_list_eq; [|by eapply Hrest].
    intros Hin. apply not_true_iff_false in Hc. apply Hc.
    apply (existsb_exists (Z.eqb x) [36; 96; 34; 92; 10]%Z). exists x. split; [by apply list_elem_of_In|apply Z.eqb_refl].
  - intros Hall. split.
    + apply not_true_iff_false. intros [->%Z.eqb_eq (y & Hy & ->%Z.eqb_eq)%existsb_exists]%andb_true_iff.
      apply (Hall [] y w eq_refl). by apply list_elem_of_In.
    + intros a x b Hw. apply (Hall (c :: a) x b). by rewrite Hw.
Qed.

Lemma quoted_spec q raw w : quoted q raw = Some w <-> raw = q :: w ++ [q].
Proof.
  unfold quoted. destruct (strip_prefix [q] raw) as [t|] eqn:E; cbn [mbind option_bind].
  - apply strip_prefix_Some in E as ->. cbn [app]. rewrite strip_suffix_Some. split; [by intros ->|by intros [= ->]].
  - split; [done|]. intros ->. exfalso. assert (strip_prefix [q] (q :: w ++ [q]) = Some (w ++ [q])) by by apply strip_prefix_Some.
    congruence.
Qed.

Lemma literal_word_value n w :
  kind_is "word" n || kind_is "number" n = true -> is_literal_word_or_number n = true -> utf8_text n = Some w -> literal_value n w.
Proof.
  intros Hk Hl Ht. unfold is_literal_word_or_number in Hl. rewrite Hk, Ht in Hl. cbn [negb] in Hl.
  apply andb_true_iff in Hl as [Hn%is_empty_true [Hh Hc]%literal_text_spec].
  apply orb_true_iff in Hk as [Hk%kind_is_spec|Hk%kind_is_spec]; constructor; auto.
Qed.

Lemma double_quoted_value n w : parse_double_quoted_string n = Some w -> literal_value n w.
Proof.
  unfold parse_double_quoted_string. destruct (kind_is "string" n) eqn:Hk; [|done]. cbn [negb].
  destruct (forallb _ _) eqn:Hf; [|done]. cbn [negb]. destruct (utf8_text n) as [raw|] eqn:Ht; [|done]. cbn [mbind option_bind].
  destruct (quoted DQUOTE raw) as [s|] eqn:Hq; [|done]. cbn [mbind option_bind]. destruct (has_escape s) eqn:He; [done|]. intros [= ->].
  apply quoted_spec in Hq as ->. apply value_string; [by apply kind_is_spec| |done|by apply has_escape_spec].
  apply Forall_forall. intros c Hc. apply kind_is_spec. rewrite forallb_forall in Hf. by apply Hf, list_elem_of_In.
Qed.

Lemma raw_string_value n w : parse_raw_string n = Some w -> literal_value n w.
Proof.
  unfold parse_raw_string. destruct (kind_is "raw_string" n) eqn:Hk; [|done]. cbn [negb].
  destruct (utf8_text n) as [raw|] eqn:Ht; [|done]. cbn [mbind option_bind]. intros ->%quoted_spec.
  apply value_raw_string; [by apply kind_is_spec|done].
Qed.

(** A word node that the walk accepts is literal. *)
Lemma allowed_word n :
  is_named n = true -> allowed_node n = true -> kind_is "word" n || kind_is "number" n = true -> is_literal_word_or_number n = true.
Proof.
  unfold allowed_node, kind_is. intros -> [_ Ha]%andb_true_iff Hk. rewrite Hk in Ha. cbn [andb] in Ha.
  by rewrite negb_involutive in Ha.
Qed.

Lemma plain_part_value n w : is_named n = true -> allowed_node n = true -> plain_part n = Some w -> literal_value n w.
Proof.
  intros Hn Ha. unfold plain_part. destruct (kind_is "word" n || kind_is "number" n) eqn:Hk.
  - intros Ht. apply literal_word_value; [done| |done]. by apply allowed_word.
  - destruct (kind_is "string" n); [apply double_quoted_value|]. destruct (kind_is "raw_string" n); [apply raw_string_value|done].
Qed.

Lemma named_child n c : c ∈ named_children n <-> c ∈ children n /\ is_named c = true.
Proof. unfold named_children. rewrite !list_elem_of_In. apply List.filter_In. Qed.

(** An argument of a command: its name, or a literal word. *)
Definition argument (n : Node) (w : rstr) : Prop :=
  (kind n = lit "command_name" /\
   exists word_node, head (named_children n) = Some word_node /\ kind word_node = lit "word" /\ literal_value word_node w) \/
  literal_value n w.

Lemma mapM_value (f : Node -> option rstr) (R : Node -> rstr -> Prop) l ws :
  (forall n w, n ∈ l -> f n = Some w -> R n w) -> mapM f l = Some ws -> Forall2 R l ws.
Proof.
  intros Hf Hm. apply mapM_Some in Hm. induction Hm as [|n w l ws Hnw _ IH]; constructor.
  - apply Hf; [set_solver|done].
  - apply IH. intros m v Hin. apply Hf. set_solver.
Qed.

Lemma plain_word_argument n w :
  is_named n = true -> allowed_node n = true -> (forall c, c ∈ children n -> allowed_node c = true) ->
  plain_word n = Some w -> argument n w.
Proof.
  intros Hn Ha Hc. unfold plain_word. destruct (kind_is "command_name" n) eqn:Hcn.
  - destruct (head (named_children n)) as [m|] eqn:Hh; [|done]. cbn [mbind option_bind].
    destruct (kind_is "word" m) eqn:Hk; [|done]. cbn [negb]. intros Ht. left. split; [by apply kind_is_spec|].
    assert (m ∈ named_children n) as [Hm Hnm]%named_child by (destruct (named_children n); [done|]; simplify_eq/=; set_solver).
    exists m. split; [done|]. split; [by apply kind_is_spec|]. apply literal_word_value; [by rewrite Hk| |done].
    apply allowed_word; [done|by apply Hc|by rewrite Hk].
  - intros Hw. right. revert Hw. destruct (kind_is "word" n || kind_is "number" n) eqn:Hk.
    { intros Ht. apply literal_word_value; [done| |done]. by apply allowed_word. }
    destruct (kind_is "string" n); [apply double_quoted_value|]. destruct (kind_is "raw_string" n); [apply raw_string_value|].
    destruct (kind_is "concatenation" n) eqn:Hcat; [|done]. destruct (mapM plain_part _) as [ws|] eqn:Hm; [|done].
    cbn [mbind option_bind]. unfold non_empty. destruct (is_empty (concat ws)) eqn:He; [done|]. intros [= <-].
    apply value_concatenation; [by apply kind_is_spec| |by apply is_empty_false].
    eapply mapM_value; [|exact Hm]. intros m v [Hin Hnm]%named_child Hv. apply plain_part_value; [done|by apply Hc|done].
Qed.

Lemma child_nodes root n c : n ∈ nodes root -> c ∈ children n -> c ∈ nodes root.
Proof.
  revert n c. induction root as [k b s t e cs IH] using node_ind'. intros n c Hn Hc.
  rewrite nodes_unfold in Hn |- *. cbn [children] in *. rewrite elem_of_cons in Hn. destruct Hn as [->|Hn].
  - apply elem_of_cons. right. unfold forest. apply list_elem_of_In, in_concat. exists (nodes c).
    split; [apply in_map; by apply list_elem_of_In|]. apply list_elem_of_In, nodes_self.
  - apply elem_of_cons. right. unfold forest in *. apply list_elem_of_In, in_concat in Hn as (l & (m & <- & Hm)%in_map_iff & Hin).
    apply list_elem_of_In, in_concat. exists (nodes m). split; [by apply in_map|]. apply list_elem_of_In.
    apply list_elem_of_In in Hm, Hin. by apply (proj1 (Forall_forall _ _) IH m Hm n c).
Qed.

(** What a successful parse has seen. *)
Lemma plain_parse_spec root cmds :
  try_parse_word_only_commands_sequence root = Some cmds ->
  has_error root = false /\ (forall n, n ∈ nodes root -> allowed_node n = true) /\
  exists l, l ≡ₚ command_nodes_of root /\ mapM parse_plain_command_from_node (sort_nodes l) = Some cmds.
Proof.
  unfold try_parse_word_only_commands_sequence. destruct (has_error root); [done|].
  pose proof (walk_plain_spec (node_size root) [root] []) as Hw. unfold forest in Hw. cbn [map concat] in Hw.
  rewrite app_nil_r in Hw. destruct (walk_plain _ _ _) as [l|]; [|done]. cbn [mbind option_bind]. intros Hm.
  destruct Hw as (Hall & l' & -> & Hl); [unfold stack_size; simpl; lia|]. rewrite forallb_forall in Hall.
  split; [done|]. split; [intros n Hn; by apply Hall, list_elem_of_In|]. by exists l'.
Qed.

Lemma Forall2_impl_l {A B} (P : A -> Prop) (R R' : A -> B -> Prop) l k :
  Forall P l -> (forall a b, P a -> R a b -> R' a b) -> Forall2 R l k -> Forall2 R' l k.
Proof. intros HP HR Hf. induction Hf; inversion HP; subst; constructor; auto. Qed.

(** C25. The plain commands of a script are exactly the commands in its tree, in the order they are
    written, and every word of them is literal: a word without anything the shell expands,
    a quoted string without expansions or escapes, or a concatenation of those. A tree with
    any other construct gives no commands at all. *)
Theorem plain_commands_literal root cmds :
  StronglySorted before (command_nodes_of root) ->
  try_parse_word_only_commands_sequence root = Some cmds ->
  has_error root = false /\ Forall (fun n => allowed_node n = true) (nodes root) /\
  Forall2 (fun cmd words => Forall2 argument (named_children cmd) words) (command_nodes_of root) cmds.
Proof.
  intros Hs Hparse. destruct (plain_parse_spec root cmds Hparse) as (Herr & Hok & l & Hl & Hm).
  rewrite (sort_nodes_perm l _ Hs Hl) in Hm.
  split; [done|]. split; [by apply Forall_forall|].
  apply mapM_Some in Hm. eapply (Forall2_impl_l (fun n => n ∈ nodes root)); [| |exact Hm].
  - apply Forall_forall. intros n Hi. apply list_elem_of_In, List.filter_In in Hi as [Hi _]. by apply list_elem_of_In.
  - intros n words Hn Hp. unfold parse_plain_command_from_node in Hp. destruct (negb _); [done|].
    eapply mapM_value; [|exact Hp]. intros c w [Hc Hnc]%named_child Hw. apply plain_word_argument; [done| | |done].
    + by apply Hok, (child_nodes root n).
    + intros d Hd. apply Hok, (child_nodes root c); [by apply (child_nodes root n)|done].
Qed.

(** ** Every literal command is found *)

Lemma elem_of_option_list {A} (o : option A) x : x ∈ option_list o <-> o = Some x.
Proof. destruct o; simpl; set_solver. Qed.

Lemma walk_literal_spec fuel stack acc words :
  stack_size stack <= fuel ->
  words ∈ walk_literal fuel stack acc <->
  words ∈ acc \/ exists r n, r ∈ stack /\ n ∈ named_nodes r /\ parse_literal_command_from_node n = Some words.
Proof.
  revert stack acc. induction fuel as [|fuel IH]; intros [|n stack] acc Hf; cbn [walk_literal].
  1,3: set_solver.
  { unfold stack_size in Hf. simpl in Hf. rewrite node_size_unfold in Hf. lia. }
  rewrite IH.
  2:{ rewrite stack_size_app, stack_size_rev. pose proof (stack_size_filter is_named (children n)) as Hs.
      unfold stack_size in Hf. simpl in Hf. rewrite node_size_unfold in Hf. fold (stack_size stack) in Hf.
      unfold named_children. lia. }
  rewrite elem_of_app, elem_of_option_list. split.
  - intros [[Hin|Hp]|(r & m & Hr & Hm & Hp)]; [by left|right; exists n, n|right].
    + split; [set_solver|]. split; [rewrite named_nodes_unfold; set_solver|done].
    + rewrite elem_of_app in Hr. destruct Hr as [Hr|Hr]; [|exists r, m; set_solver].
      apply list_elem_of_In, in_rev, list_elem_of_In in Hr. exists n, m. split; [set_solver|]. split; [|done].
      rewrite named_nodes_unfold. apply elem_of_cons. right. apply list_elem_of_In, in_concat.
      exists (named_nodes r). split; [apply in_map; by apply list_elem_of_In|by apply list_elem_of_In].
  - intros [Hin|(r & m & [->|Hr]%elem_of_cons & Hm & Hp)]; [by left; left| |right; exists r, m; set_solver].
    rewrite named_nodes_unfold, elem_of_cons in Hm. destruct Hm as [->|Hm]; [by left; right|]. right.
    apply list_elem_of_In, in_concat in Hm as (l & (c & <- & Hc)%in_map_iff & Hin). exists c, m.
    rewrite elem_of_app. split; [left; apply list_elem_of_In; by apply -> in_rev|]. split; [by apply list_elem_of_In|done].
Qed.

Lemma literal_commands_elem parse command shell script root words :
  extract_bash_command command = Some (shell, script) -> parse script = Some root -> has_error root = false ->
  exists cmds, parse_shell_lc_literal_commands parse command = Some cmds /\
    (words ∈ cmds <-> exists n, n ∈ named_nodes root /\ parse_literal_command_from_node n = Some words).
Proof.
  intros He Hp Herr. unfold parse_shell_lc_literal_commands. rewrite He. cbn [mbind option_bind]. rewrite Hp.
  cbn [mbind option_bind]. rewrite Herr. eexists; split; [done|].
  rewrite (walk_literal_spec _ [root] [] words) by (unfold stack_size; simpl; lia). set_solver.
Qed.

(** ** Plain commands are literal commands *)

(** What the grammar guarantees: tokens have no children, and a command starts with its
    name. *)
Definition well_shaped (root : Node) : Prop :=
  forall n, n ∈ nodes root ->
    (is_named n = false -> children n = []) /\
    (kind n = lit "command" -> exists c rest, named_children n = c :: rest /\ kind c = lit "command_name" /\
       Forall (fun c => kind c ≠ lit "command_name") rest).

Lemma word_literal n w :
  is_literal_word_or_number n = true -> utf8_text n = Some w -> parse_literal_shell_word n = Some w.
Proof.
  intros Hl Ht. destruct n as [k b s t e cs]. cbn [parse_literal_shell_word]. rewrite Hl, andb_true_r.
  unfold is_literal_word_or_number, kind_is in Hl. cbn [kind] in Hl.
  destruct (streq k (lit "word") || streq k (lit "number")) eqn:E; [exact Ht|done].
Qed.

(** Kinds that are compared with each other. *)
Ltac kinds :=
  repeat match goal with
  | H : kind_is _ _ = true |- _ => apply kind_is_spec in H
  | H : kind ?n = lit _, H' : kind ?n = lit _ |- _ => rewrite H in H'; discriminate H'
  end.

Lemma string_literal n w : parse_double_quoted_string n = Some w -> parse_literal_shell_word n = Some w.
Proof.
  intros Hp. assert (kind n = lit "string") as Hk.
  { unfold parse_double_quoted_string in Hp. destruct (kind_is "string" n) eqn:E; [by apply kind_is_spec|done]. }
  destruct n as [k b s t e cs]. cbn [kind] in Hk. subst k. exact Hp.
Qed.

Lemma raw_literal n w : parse_raw_string n = Some w -> parse_literal_shell_word n = Some w.
Proof.
  intros Hp. assert (kind n = lit "raw_string") as Hk.
  { unfold parse_raw_string in Hp. destruct (kind_is "raw_string" n) eqn:E; [by apply kind_is_spec|done]. }
  destruct n as [k b s t e cs]. cbn [kind] in Hk. subst k. exact Hp.
Qed.

Lemma part_literal n w :
  is_named n = true -> allowed_node n = true -> plain_part n = Some w -> parse_literal_shell_word n = Some w.
Proof.
  intros Hn Ha. unfold plain_part. destruct (kind_is "word" n || kind_is "number" n) eqn:Hk.
  - intros Ht. apply word_literal; [by apply allowed_word|done].
  - destruct (kind_is "string" n); [apply string_literal|]. destruct (kind_is "raw_string" n); [apply raw_literal|done].
Qed.

Lemma concatenation_literal n ws :
  kind n = lit "concatenation" -> (forall c w, c ∈ named_children n -> plain_part c = Some w -> parse_literal_shell_word c = Some w) ->
  mapM plain_part (named_children n) = Some ws -> concat ws ≠ [] -> parse_literal_shell_word n = Some (concat ws).
Proof.
  intros Hk Hc Hm Hne. destruct n as [k b s t e cs]. cbn [kind] in Hk. subst k. unfold named_children in Hc, Hm. cbn [children] in Hc, Hm.
  cbn [parse_literal_shell_word]. change (streq (lit "concatenation") (lit "concatenation")) with true.
  change (streq (lit "concatenation") (lit "word")) with false. change (streq (lit "concatenation") (lit "number")) with false.
  change (streq (lit "concatenation") (lit "string")) with false. change (streq (lit "concatenation") (lit "raw_string")) with false.
  cbn [orb andb].
  match goal with |- mbind _ (?f cs) = _ => assert (f cs = Some ws) as -> end.
  - revert ws Hm Hne. clear t. intros ws Hm _. revert ws Hm. induction cs as [|c cs IH]; intros ws Hm; [by simplify_eq/=|].
    cbn [List.filter] in Hm, Hc. destruct (is_named c) eqn:Ec.
    + cbn [mapM] in Hm. destruct (plain_part c) as [w|] eqn:Ew; [|done]. cbn [mbind option_bind] in Hm.
      destruct (mapM plain_part _) as [ws'|] eqn:Em; [|done]. simplify_eq/=.
      rewrite (Hc c w) by set_solver. cbn [mbind option_bind]. by rewrite (IH ltac:(set_solver) ws').
    + by apply IH.
  - cbn [mbind option_bind]. unfold non_empty. by rewrite (proj2 (is_empty_false _) Hne).
Qed.

Lemma literal_words_rest l ws :
  Forall (fun c => kind c ≠ lit "command_name") l -> Forall2 (fun c w => parse_literal_shell_word c = Some w) l ws ->
  literal_words true l = Some (true, ws).
Proof.
  intros Hk Hf. revert Hk. induction Hf as [|c w l ws Hc _ IH]; intros Hk; [done|]. apply Forall_cons in Hk as [Hkc Hk].
  cbn [literal_words]. destruct (kind_is "command_name" c) eqn:E; [by apply kind_is_spec in E|].
  rewrite (IH Hk). cbn [mbind option_bind]. by rewrite Hc.
Qed.

Lemma plain_word_literal n w :
  is_named n = true -> allowed_node n = true -> (forall c, c ∈ children n -> allowed_node c = true) ->
  kind n ≠ lit "command_name" -> plain_word n = Some w -> parse_literal_shell_word n = Some w.
Proof.
  intros Hn Ha Hc Hk. unfold plain_word. destruct (kind_is "command_name" n) eqn:E; [by apply kind_is_spec in E|].
  destruct (kind_is "word" n || kind_is "number" n) eqn:Hw.
  { intros Ht. apply word_literal; [by apply allowed_word|done]. }
  destruct (kind_is "string" n); [apply string_literal|]. destruct (kind_is "raw_string" n); [apply raw_literal|].
  destruct (kind_is "concatenation" n) eqn:Hcat; [|done]. destruct (mapM plain_part _) as [ws|] eqn:Hm; [|done].
  cbn [mbind option_bind]. unfold non_empty. destruct (is_empty (concat ws)) eqn:He; [done|]. intros [= <-].
  apply concatenation_literal; [by apply kind_is_spec| |done|by apply is_empty_false].
  intros c v [Hin Hnc]%named_child. apply part_literal; [done|by apply Hc].
Qed.

Lemma plain_command_literal root n words :
  well_shaped root -> (forall m, m ∈ nodes root -> allowed_node m = true) -> n ∈ nodes root ->
  parse_plain_command_from_node n = Some words -> parse_literal_command_from_node n = Some words.
Proof.
  intros Hws Hok Hn. unfold parse_plain_command_from_node, parse_literal_command_from_node.
  destruct (kind_is "command" n) eqn:Hk; [|done]. cbn [negb].
  destruct (proj2 (Hws n Hn)) as (c & rest & Hnc & Hkc & Hrest); [by apply kind_is_spec|]. rewrite Hnc.
  assert (forall m, m ∈ c :: rest -> m ∈ nodes root /\ is_named m = true) as Hch.
  { intros m Hm. rewrite <- Hnc in Hm. apply named_child in Hm as [Hm ?]. split; [by eapply child_nodes|done]. }
  intros Hm. apply mapM_Some in Hm. inversion Hm as [|? w ? ws Hc Hm']; subst.
  cbn [literal_words]. rewrite (proj2 (kind_is_spec "command_name" c) Hkc).
  unfold plain_word in Hc. rewrite (proj2 (kind_is_spec "command_name" c) Hkc) in Hc.
  destruct (head (named_children c)) as [wn|] eqn:Hh; [|done]. cbn [mbind option_bind] in Hc |- *.
  destruct (kind_is "word" wn) eqn:Hkw; [|done]. cbn [negb] in Hc.
  assert (wn ∈ named_children c) as [Hin Hnamed]%named_child by (destruct (named_children c); [done|]; simplify_eq/=; set_solver).
  assert (wn ∈ nodes root) as Hwn by (apply (child_nodes root c); [apply Hch; set_solver|done]).
  rewrite (word_literal wn w) by (done || (apply allowed_word; [done|by apply Hok|by rewrite Hkw])).
  cbn [mbind option_bind]. rewrite (literal_words_rest rest ws); [done|done|].
  eapply (Forall2_impl_l (fun m => m ∈ c :: rest /\ kind m ≠ lit "command_name")); [| |exact Hm'].
  - apply Forall_forall. intros m Hin'. split; [set_solver|]. by apply (proj1 (Forall_forall _ _) Hrest).
  - intros m v [Hmin Hmk] Hv. destruct (Hch m Hmin) as [Hmn Hmnamed]. apply plain_word_literal; [done|by apply Hok| |done|done].
    intros d Hd. apply Hok. by eapply child_nodes.
Qed.

Lemma named_reachable root n :
  (forall m, m ∈ nodes root -> is_named m = false -> children m = []) -> n ∈ nodes root -> is_named n = true -> n ∈ named_nodes root.
Proof.
  induction root as [k b s t e cs IH] using node_ind'. intros Htok Hn Hnamed. rewrite nodes_unfold in Hn. rewrite named_nodes_unfold.
  unfold named_children. cbn [children] in *. rewrite elem_of_cons in *. destruct Hn as [Hn|Hn]; [by left|]. right.
  unfold forest in Hn. apply list_elem_of_In, in_concat in Hn as (l & (c & <- & Hc)%in_map_iff & Hin).
  apply list_elem_of_In in Hc, Hin.
  assert (forall m, m ∈ nodes c -> m ∈ nodes (MkNode k b s t e cs)) as Hsub.
  { intros m Hm. rewrite nodes_unfold. apply elem_of_cons. right. unfold forest. apply list_elem_of_In, in_concat.
    exists (nodes c). split; [apply in_map; by apply list_elem_of_In|by apply list_elem_of_In]. }
  assert (is_named c = true) as Hnc.
  { destruct (is_named c) eqn:Ec; [done|]. rewrite nodes_unfold, (Htok c) in Hin; [|apply Hsub, nodes_self|done].
    apply list_elem_of_singleton in Hin as ->. congruence. }
  apply list_elem_of_In, in_concat. exists (named_nodes c). split.
  - apply in_map, List.filter_In. split; [by apply list_elem_of_In|done].
  - apply list_elem_of_In. apply (proj1 (Forall_forall _ _) IH c Hc); [|done|done]. intros m Hm. by apply Htok, Hsub.
Qed.

Lemma Forall2_elem_l {A B} (R : A -> B -> Prop) l k a : Forall2 R l k -> a ∈ l -> exists b, b ∈ k /\ R a b.
Proof. induction 1; set_solver. Qed.

Lemma Forall2_elem_r {A B} (R : A -> B -> Prop) l k b : Forall2 R l k -> b ∈ k -> exists a, a ∈ l /\ R a b.
Proof. induction 1; set_solver. Qed.

(** The two readings of a script agree: every plain command that the policy is asked about is
    also among the literal commands that the dangerous-command check looks at. *)
Theorem plain_commands_checked parse command shell script root cmds :
  extract_bash_command command = Some (shell, script) -> parse script = Some root -> well_shaped root ->
  parse_shell_lc_plain_commands parse command = Some cmds ->
  exists literal, parse_shell_lc_literal_commands parse command = Some literal /\ cmds ⊆ literal.
Proof.
  intros He Hp Hws Hplain. unfold parse_shell_lc_plain_commands, parse_shell_script_into_commands in Hplain.
  rewrite He in Hplain. cbn [mbind option_bind] in Hplain. rewrite Hp in Hplain. cbn [mbind option_bind] in Hplain.
  destruct (plain_parse_spec root cmds Hplain) as (Herr & Hok & l & Hl & Hm).
  destruct (literal_commands_elem parse command shell script root [] He Hp Herr) as (literal & Hlit & _).
  exists literal. split; [done|]. intros words Hin.
  destruct (literal_commands_elem parse command shell script root words He Hp Herr) as (literal' & Hlit' & Hiff).
  assert (literal' = literal) as -> by congruence. apply Hiff.
  apply mapM_Some in Hm. destruct (Forall2_elem_r _ _ _ _ Hm Hin) as (n & Hn & Hpn).
  destruct (sort_nodes_spec l) as [_ Hperm]. rewrite Hperm, Hl in Hn.
  apply list_elem_of_In, List.filter_In in Hn as [Hn%list_elem_of_In [Hnamed _]%andb_true_iff].
  exists n. split; [apply named_reachable; [intros; by apply Hws|done..]|]. by apply (plain_command_literal root).
Qed.

Lemma named_nodes_nodes root n : n ∈ named_nodes root -> n ∈ nodes root.
Proof.
  induction root as [k b s t e cs IH] using node_ind'. rewrite named_nodes_unfold, nodes_unfold. unfold named_children.
  cbn [children]. rewrite !elem_of_cons. intros [->|Hin]; [by left|]. right.
  apply list_elem_of_In, in_concat in Hin as (l & (c & <- & Hc)%in_map_iff & Hin). apply List.filter_In in Hc as [Hc _].
  apply list_elem_of_In, in_concat. exists (nodes c). split; [by apply in_map|]. apply list_elem_of_In in Hc, Hin.
  apply list_elem_of_In. by apply (proj1 (Forall_forall _ _) IH c Hc).
Qed.

(** A script that has plain commands at all has every literal command among them. *)
Lemma plain_contains_literal parse command shell script root cmds n words :
  extract_bash_command command = Some (shell, script) -> parse script = Some root -> well_shaped root ->
  parse_shell_lc_plain_commands parse command = Some cmds ->
  n ∈ named_nodes root -> is_named n = true -> parse_literal_command_from_node n = Some words -> words ∈ cmds.
Proof.
  intros He Hp Hws Hplain Hn Hnamed Hlit. unfold parse_shell_lc_plain_commands, parse_shell_script_into_commands in Hplain.
  rewrite He in Hplain. cbn [mbind option_bind] in Hplain. rewrite Hp in Hplain. cbn [mbind option_bind] in Hplain.
  destruct (plain_parse_spec root cmds Hplain) as (_ & Hok & l & Hl & Hm).
  assert (kind_is "command" n = true) as Hk.
  { unfold parse_literal_command_from_node in Hlit. by destruct (kind_is "command" n). }
  assert (n ∈ nodes root) as Hnn by by apply named_nodes_nodes.
  destruct (sort_nodes_spec l) as [_ Hperm]. assert (n ∈ sort_nodes l) as Hin.
  { rewrite Hperm, Hl. apply list_elem_of_In, List.filter_In. split; [by apply list_elem_of_In|]. by rewrite Hnamed, Hk. }
  apply mapM_Some in Hm. destruct (Forall2_elem_l _ _ _ _ Hm Hin) as (words' & Hw & Hpn).
  apply (plain_command_literal root) in Hpn; [|done..]. congruence.
Qed.

(** ** The fuel of [detect_shell_type] *)

Lemma split_char_part c s p : p ∈ split_char c s -> length p <= length s /\ (length p = length s -> p = s).
Proof.
  revert p. induction s as [|x s IH]; intros p; cbn [split_char]; [set_solver|].
  destruct (x =? c)%Z.
  - intros [->|Hp]%elem_of_cons; [simpl; split; [lia|done]|]. destruct (IH p Hp). simpl. split; lia.
  - destruct (split_char c s) as [|q qs] eqn:E.
    + intros ->%list_elem_of_singleton. simpl. split; [lia|]. by destruct s.
    + intros [->|Hp]%elem_of_cons.
      * destruct (IH q ltac:(set_solver)) as [Hl He]. simpl. split; [lia|]. intros. f_equal. apply He. lia.
      * destruct (IH p ltac:(set_solver)). simpl. split; lia.
Qed.

Lemma components_part path n : Normal n ∈ components path -> n ∈ split_char SLASH path.
Proof.
  unfold components. assert (forall segs : list rstr, Normal n ∈ omap segment_component segs -> n ∈ segs) as Hin.
  { intros segs (seg & Hseg & Hc)%list_elem_of_omap. unfold segment_component in Hc. by repeat case_match; simplify_eq. }
  destruct (is_absolute path); [|destruct (streq _ _)]; rewrite ?elem_of_cons; naive_solver.
Qed.

Lemma split_once_length c s a b : split_once c s = Some (a, b) -> length b < length s.
Proof.
  revert a b. induction s as [|x s IH]; intros a b; cbn [split_once]; [done|]. destruct (x =? c)%Z; [intros [= <- <-]; simpl; lia|].
  destruct (split_once c s) as [[a' b']|]; [|done]. intros [= <- <-]. specialize (IH a' b' eq_refl). simpl. lia.
Qed.

Lemma file_stem_shorter path stem :
  file_stem path = Some stem -> length stem <= length path /\ (length stem = length path -> stem = path).
Proof.
  unfold file_stem, file_name. destruct (last (components path)) as [[| | |n]|] eqn:El; try done. cbn [mbind option_bind].
  apply last_Some_elem_of, components_part, split_char_part in El as [Hle Heq]. unfold rsplit_once.
  destruct (split_once DOT (reverse n)) as [[a b]|] eqn:Es; cbn [mbind option_bind].
  - apply split_once_length in Es. rewrite length_reverse in Es.
    destruct (is_empty (reverse b)); intros [= <-]; [done|]. rewrite length_reverse. split; lia.
  - by intros [= <-].
Qed.

Lemma detect_fuel_more fuel path :
  (length path <= fuel)%nat -> detect_shell_type_fuel fuel path = detect_shell_type path.
Proof.
  unfold detect_shell_type. assert (forall f1 f2 p, length p <= f1 -> length p <= f2 ->
    detect_shell_type_fuel f1 p = detect_shell_type_fuel f2 p) as Hgen; [|intros; by apply Hgen].
  induction f1 as [|f1 IH]; intros [|f2] p H1 H2; cbn [detect_shell_type_fuel]; destruct (shell_of_name p); try done;
    destruct (file_stem p) as [stem|] eqn:Es; try done; try (destruct p; [done|simpl in *; lia]).
  case_bool_decide as Hc; [done|]. destruct (file_stem_shorter p stem Es) as [Hle Heq].
  assert (length stem ≠ length p) by (intros Hl; by rewrite (Heq Hl) in Hc). apply IH; lia.
Qed.

(** ** A concrete script *)

Module BashDemo.
Definition leaf (k : string) (start : nat) (text : string) : Node := MkNode (lit k) true start (Some (lit text)) false [].
Definition name (start : nat) (text : string) : Node :=
  MkNode (lit "command_name") true start (Some (lit text)) false [leaf "word" start text].
Definition token (start : nat) (text : string) : Node := MkNode (lit text) false start (Some (lit text)) false [].

(** [rm -r 'a b' && ls -1]. *)
Definition rm_node : Node :=
  MkNode (lit "command") true 0 None false [name 0 "rm"; leaf "word" 3 "-r"; leaf "raw_string" 6 "'a b'"].
Definition ls_node : Node := MkNode (lit "command") true 15 None false [name 15 "ls"; leaf "word" 18 "-1"].
Definition root : Node :=
  MkNode (lit "program") true 0 None false [MkNode (lit "list") true 0 None false [rm_node; token 12 "&&"; ls_node]].
Definition script : rstr := lit "rm -r 'a b' && ls -1".
Definition parse (s : rstr) : option Node := if streq s script then Some root else None.
Definition command : list rstr := [lit "/bin/bash"; lit "-lc"; script].
Definition commands : list (list rstr) := [[lit "rm"; lit "-r"; lit "a b"]; [lit "ls"; lit "-1"]].
End BashDemo.
Import BashDemo.

Lemma plain_commands_literal_witness :
  try_parse_word_only_commands_sequence root = Some commands /\
  Forall2 (fun cmd words => Forall2 argument (named_children cmd) words) [rm_node; ls_node] commands.
Proof.
  split; [by vm_compute|]. apply (plain_commands_literal root commands); [|by vm_compute].
  change (command_nodes_of root) with [rm_node; ls_node].
  apply SSorted_cons; [repeat constructor|]. apply Forall_singleton. unfold before. simpl. lia.
Defined.

Lemma demo_well_shaped : well_shaped root.
Proof.
  intros n Hn. rewrite list_elem_of_In in Hn. vm_compute in Hn.
  repeat destruct Hn as [<-|Hn]; try done; (split; [done|]); intros Hk; try discriminate Hk.
  - eexists _, _. split; [reflexivity|]. split; [done|]. repeat constructor; discriminate.
  - eexists _, _. split; [reflexivity|]. split; [done|]. repeat constructor; discriminate.
Qed.

Lemma plain_commands_checked_witness :
  exists literal, parse_shell_lc_literal_commands parse command = Some literal /\ commands ⊆ literal.
Proof.
  apply (plain_commands_checked parse command (lit "/bin/bash") script root commands).
  - by vm_compute.
  - by vm_compute.
  - apply demo_well_shaped.
  - by vm_compute.
Defined.
