(* ===== verification/DangerousCommand.v ===== *)
(** * Dangerous commands

    Models [workx-rs/shell-command/src/command_safety/is_dangerous_command.rs] and
    [windows_dangerous_commands.rs]: which commands are never run without approval. On
    POSIX these are forced [rm]s, also behind [sudo], [env], [trap] and shell scripts; on
    Windows also forced deletions and the opening of URLs. The crates [shlex], [regex]
    (one expression) and [url], and the bash grammar, are parameters. *)
From S2P Require Import Prelude AbsPath PathUri ShellBash.

Set Default Goal Selector "!".

Inductive DangerousCommandPlatform := PosixPlatform | WindowsPlatform.
Inductive DangerousCommandMatch := ForcedRm | OtherMatch.

Definition MAX_DANGEROUS_COMMAND_WRAPPER_DEPTH : nat := 8.

Definition is_slash (c : char) : bool := (c =? SLASH)%Z || (c =? BACKSLASH)%Z.

(** [rsplit(..).next()], a name only if it is not empty. *)
Definition last_piece (pieces : list rstr) : option rstr :=
  name ← last pieces; if is_empty name then None else Some name.

Definition strip_drive (name : rstr) : rstr :=
  match name with
  | drive :: c :: rest => if (c =? COLON)%Z && is_ascii_alphabetic drive then rest else name
  | _ => name
  end.

Definition EXECUTABLE_SUFFIXES : list rstr := map lit [".exe"; ".cmd"; ".bat"; ".com"]%string.

Fixpoint strip_first_suffix (suffixes : list rstr) (name : rstr) : option rstr :=
  match suffixes with
  | [] => None
  | suffix :: suffixes =>
      match strip_suffix suffix name with Some stripped => Some stripped | None => strip_first_suffix suffixes name end
  end.

Definition executable_name_lookup_key (raw : rstr) (platform : DangerousCommandPlatform) : option rstr :=
  match platform with
  | PosixPlatform => last_piece (split_char SLASH raw)
  | WindowsPlatform =>
      name ← last_piece (split_pred is_slash raw);
      let name := to_ascii_lowercase (strip_drive name) in
      match strip_first_suffix EXECUTABLE_SUFFIXES name with
      | Some stripped => Some stripped
      | None => if is_empty name then None else Some name
      end
  end.

Fixpoint take_while {A} (p : A -> bool) (l : list A) : list A :=
  match l with [] => [] | x :: l => if p x then x :: take_while p l else [] end.

Definition DASH : char := 45.

Definition rm_args_include_force_option (args : list rstr) : bool :=
  existsb (fun arg =>
    streq arg (lit "--force")
    || match strip_prefix [DASH] arg with
       | Some flags => negb (starts_with [DASH] flags) && contains_char 102 flags
       | None => false
       end) (take_while (fun arg => negb (streq arg (lit "--"))) args).

(** The loop of [dangerous_command_match_for_env]: what is left after the options and
    assignments. *)
Fixpoint skip_env_args (args : list rstr) : list rstr :=
  match args with
  | [] => []
  | argument :: rest =>
      if streq argument (lit "--") then rest
      else if streq argument (lit "-i") || streq argument (lit "--ignore-environment")
              || match split_once 61 argument with
                 | Some (name, _) => negb (is_empty name) && negb (starts_with [DASH] name)
                 | None => false
                 end
      then skip_env_args rest
      else args
  end.

(** The action of [trap], after the name. *)
Definition trap_action (args : list rstr) : option rstr :=
  action ← match args with
           | a :: rest => if streq a (lit "--") then head rest else Some a
           | [] => None
           end;
  if starts_with [DASH] action then None else Some action.

(** ** What the arguments mean on POSIX *)

(** The program is [name], as such or at the end of a path. *)
Definition runs (program name : rstr) : Prop := program = name \/ exists dir, program = dir ++ SLASH :: name.

(** [--force], or short options with an [f] among them. *)
Definition force_option (arg : rstr) : Prop :=
  arg = lit "--force" \/ exists flags, arg = DASH :: flags /\ head flags ≠ Some DASH /\ 102%Z ∈ flags.

(** A word that [env] takes before the command: an option, or [NAME=VALUE]. *)
Definition env_word (arg : rstr) : Prop :=
  arg = lit "-i" \/ arg = lit "--ignore-environment" \/
  exists name value, arg = name ++ 61%Z :: value /\ 61%Z ∉ name /\ name ≠ [] /\ head name ≠ Some DASH.

(** The command that [env] runs. *)
Definition env_runs (args rest : list rstr) : Prop :=
  exists words, Forall env_word words /\
    (args = words ++ lit "--" :: rest \/
     (args = words ++ rest /\ forall w r, rest = w :: r -> w ≠ lit "--" /\ ~ env_word w)).

(** The action that [trap] stores. *)
Definition trap_stores (args : list rstr) (action : rstr) : Prop :=
  head action ≠ Some DASH /\ exists rest, args = action :: rest \/ args = lit "--" :: action :: rest.

Lemma last_split_char c s p : last (split_char c s) = Some p <-> c ∉ p /\ (s = p \/ exists d, s = d ++ c :: p).
Proof.
  split.
  - intros Hl. split; [apply last_Some in Hl as [l Hl]; pose proof (split_char_no_elem c s) as Hf; rewrite Hl, Forall_app in Hf; by destruct Hf as [_ [Hp _]%Forall_cons]|].
    apply last_Some in Hl as [l Hl]. rewrite <- (join_split_char c s), Hl. clear Hl. induction l as [|x l IH]; [by left|].
    right. destruct IH as [E|[d E]]; cbn [app join]; destruct (l ++ [p]) as [|y l'] eqn:El; [by destruct l| |by destruct l|].
    + rewrite E. by exists x.
    + exists (x ++ c :: d). rewrite E, <- app_assoc. done.
  - intros [Hc [->|[d ->]]]; [by rewrite split_char_no_sep|]. by rewrite split_char_app, (split_char_no_sep c p), last_snoc.
Qed.

Lemma lookup_posix program name :
  name ≠ [] -> SLASH ∉ name -> executable_name_lookup_key program PosixPlatform = Some name <-> runs program name.
Proof.
  intros Hne Hs. cbn [executable_name_lookup_key]. unfold last_piece, runs. split.
  - destruct (last (split_char SLASH program)) as [p|] eqn:E; [|done]. cbn [mbind option_bind].
    destruct (is_empty p); [done|]. intros [= ->]. by apply last_split_char in E as [_ ?].
  - intros Hr. rewrite (proj2 (last_split_char SLASH program name) (conj Hs Hr)). by destruct name.
Qed.

Lemma take_while_dash args arg :
  arg ∈ take_while (fun a => negb (streq a (lit "--"))) args <->
  arg ≠ lit "--" /\ exists before after, args = before ++ arg :: after /\ lit "--" ∉ before.
Proof.
  induction args as [|a args IH]; cbn [take_while].
  - split; [by intros ?%elem_of_nil|]. intros (_ & before & after & E & _). by destruct before.
  - destruct (streq a (lit "--")) eqn:Ea; cbn [negb].
    + apply streq_true in Ea as ->. split; [by intros ?%elem_of_nil|].
      intros (Hne & [|b before] & after & E & Hb); [by injection E as <-|]. injection E as <- _. set_solver.
    + apply streq_false in Ea. rewrite elem_of_cons, IH. split.
      * intros [->|(Hne & before & after & -> & Hb)]; (split; [done|]); [by exists [], args; set_solver|].
        exists (a :: before), after. split; [done|]. set_solver.
      * intros (Hne & [|b before] & after & E & Hb); injection E as <- ->; [by left|].
        right. split; [done|]. exists before, after. split; [done|]. set_solver.
Qed.

Lemma starts_with_dash s : starts_with [DASH] s = true <-> head s = Some DASH.
Proof.
  rewrite starts_with_true. split; [by intros [r ->]|]. destruct s as [|c s]; [done|]. intros [= ->]. by exists s.
Qed.

Lemma force_option_iff arg :
  streq arg (lit "--force")
  || match strip_prefix [DASH] arg with
     | Some flags => negb (starts_with [DASH] flags) && contains_char 102 flags
     | None => false
     end = true <-> force_option arg.
Proof.
  unfold force_option. rewrite orb_true_iff, streq_true. apply or_iff_compat_l.
  destruct (strip_prefix [DASH] arg) as [flags|] eqn:E.
  - apply strip_prefix_Some in E as ->. rewrite andb_true_iff, negb_true_iff, <- not_true_iff_false, starts_with_dash.
    rewrite <- (not_false_iff_true (contains_char 102 flags)), contains_char_false. split.
    + intros [Hh Hf]. exists flags. split; [done|]. split; [done|]. by apply dec_stable.
    + intros (flags' & [= <-] & Hh & Hf). split; [done|]. tauto.
  - split; [done|]. intros (flags & -> & _). by assert (strip_prefix [DASH] ([DASH] ++ flags) = None) by done.
Qed.

Lemma rm_force_iff args :
  rm_args_include_force_option args = true <->
  exists before arg after, args = before ++ arg :: after /\ lit "--" ∉ before /\ force_option arg.
Proof.
  unfold rm_args_include_force_option. rewrite existsb_elem. setoid_rewrite take_while_dash. setoid_rewrite force_option_iff. split.
  - intros (arg & (_ & before & after & -> & Hb) & Hf). by exists before, arg, after.
  - intros (before & arg & after & -> & Hb & Hf). exists arg. split; [|done]. split; [|by exists before, after].
    intros ->. by destruct Hf as [?|(flags & [= <-] & Hh & _)].
Qed.

Lemma env_word_iff arg :
  streq arg (lit "-i") || streq arg (lit "--ignore-environment")
  || match split_once 61 arg with
     | Some (name, _) => negb (is_empty name) && negb (starts_with [DASH] name)
     | None => false
     end = true <-> env_word arg.
Proof.
  unfold env_word. rewrite !orb_true_iff, !streq_true, Logic.or_assoc. do 2 apply or_iff_compat_l.
  destruct (split_once 61 arg) as [[name value]|] eqn:E.
  - destruct (proj1 (split_once_Some _ _ _ _) E) as [Ha Hn].
    rewrite andb_true_iff, !negb_true_iff, <- (not_true_iff_false (starts_with _ _)), starts_with_dash. split.
    + intros [Hne Hh]. exists name, value. split; [done|]. split; [done|]. split; [by intros ->|done].
    + intros (name' & value' & E' & Hn' & Hne & Hh). assert (split_once 61 arg = Some (name', value')) as E2 by by apply split_once_Some.
      rewrite E in E2. injection E2 as <- <-. split; [by destruct name|done].
  - split; [done|]. intros (name & value & -> & Hn & _). by rewrite (proj2 (split_once_Some _ _ name value)) in E.
Qed.

Lemma dashes_not_env_word : ~ env_word (lit "--").
Proof. rewrite <- env_word_iff. by vm_compute. Qed.

Lemma skip_env_iff args rest : skip_env_args args = rest <-> env_runs args rest.
Proof.
  revert rest. induction args as [|a args IH]; intros rest; cbn [skip_env_args].
  - split; [intros <-; exists []; split; [constructor|by right]|].
    intros (words & Hw & [E|[E _]]); [by destruct words|by destruct words].
  - destruct (streq a (lit "--")) eqn:Ea.
    + apply streq_true in Ea as ->. split; [intros <-; exists []; split; [constructor|by left]|].
      intros ([|w words] & Hw & [E|[E Hr]]); simplify_eq/=; [done|by destruct (Hr _ _ eq_refl)|..];
        apply Forall_cons in Hw as [Hw _]; by destruct dashes_not_env_word.
    + apply streq_false in Ea. destruct (_ || _) eqn:Eo.
      * apply env_word_iff in Eo. rewrite IH. split.
        -- intros (words & Hw & Hc). exists (a :: words). split; [by constructor|]. destruct Hc as [->|[-> Hr]]; [by left|by right].
        -- intros ([|w words] & Hw & [E|[E Hr]]); simplify_eq/=; [by destruct (Hr _ _ eq_refl)|..];
             apply Forall_cons in Hw as [_ Hw]; exists words; split; [done|by left|done|by right].
      * apply not_true_iff_false in Eo. rewrite env_word_iff in Eo. split.
        -- intros <-. exists []. split; [constructor|]. right. split; [done|]. by intros w r [= <- <-].
        -- intros ([|w words] & Hw & [E|[E _]]); simplify_eq/=; [done|..]; by apply Forall_cons in Hw as [Hw _].
Qed.

Lemma trap_action_iff args action : trap_action args = Some action <-> trap_stores args action.
Proof.
  unfold trap_action, trap_stores. destruct args as [|a args]; cbn [mbind option_bind].
  { split; [done|]. by intros (_ & rest & [?|?]). }
  destruct (streq a (lit "--")) eqn:Ea.
  - apply streq_true in Ea as ->. destruct args as [|b args]; cbn [head mbind option_bind].
    { split; [done|]. intros (Hh & rest & [E|E]); [|done]. by injection E as <- _. }
    destruct (starts_with [DASH] b) eqn:Eb; [apply starts_with_dash in Eb|apply not_true_iff_false in Eb; rewrite starts_with_dash in Eb].
    + split; [done|]. intros (Hh & rest & [E|E]); [injection E as <- _; done|injection E as -> _; done].
    + split; [intros [= ->]; split; [done|]; exists args; by right|]. intros (Hh & rest & [E|E]); [injection E as <- _; done|by injection E as -> _].
  - apply streq_false in Ea. cbn [mbind option_bind].
    destruct (starts_with [DASH] a) eqn:Eb; [apply starts_with_dash in Eb|apply not_true_iff_false in Eb; rewrite starts_with_dash in Eb].
    + split; [done|]. intros (Hh & rest & [E|E]); [injection E as -> _; done|injection E as -> _; done].
    + split; [intros [= ->]; split; [done|]; exists args; by left|]. intros (Hh & rest & [E|E]); [by injection E as -> _|injection E as -> _; done].
Qed.

(** ** Windows *)

Section Dangerous.
Variable try_parse_shell : rstr -> option Node.
Variable shlex_split : rstr -> option (list rstr).
(** The captured group of the expression in [looks_like_url], and the scheme [Url::parse]
    finds. *)
Variable url_capture : rstr -> option rstr.
Variable url_scheme_of : rstr -> option rstr.
Set Default Proof Using "Type".

Definition looks_like_url (token : rstr) : bool :=
  let lowercase_token := to_ascii_lowercase token in
  let found := match find_sub (lit "https://") lowercase_token with
               | Some idx => Some idx
               | None => find_sub (lit "http://") lowercase_token
               end in
  let urlish := match found with Some idx => drop idx token | None => token end in
  let candidate := default urlish (url_capture urlish) in
  match url_scheme_of candidate with
  | Some scheme => streq scheme (lit "http") || streq scheme (lit "https")
  | None => false
  end.

Definition args_have_url (args : list rstr) : bool := existsb looks_like_url args.

Definition executable_basename (exe : rstr) : option rstr :=
  name ← last_piece (split_pred is_slash exe);
  let name := strip_drive name in
  if is_empty name then None else Some (to_ascii_lowercase name).

Definition one_of (names : list string) (s : rstr) : bool := existsb (fun n => streq s (lit n)) names.

Definition is_powershell_executable (exe : rstr) : bool :=
  match executable_basename exe with
  | Some base => one_of ["powershell"; "powershell.exe"; "pwsh"; "pwsh.exe"]%string base
  | None => false
  end.

Definition is_browser_executable (name : rstr) : bool :=
  one_of ["chrome"; "chrome.exe"; "msedge"; "msedge.exe"; "firefox"; "firefox.exe"; "iexplore"; "iexplore.exe"]%string name.

Fixpoint parse_powershell_invocation (args : list rstr) : option (list rstr) :=
  match args with
  | [] => None
  | arg :: rest =>
      let lower := to_ascii_lowercase arg in
      if one_of ["-command"; "/command"; "-c"]%string lower then
        match rest with
        | [script] => shlex_split script
        | _ => None
        end
      else if starts_with (lit "-command:") lower || starts_with (lit "/command:") lower then
        match rest with
        | [] => '(name, script) ← split_once COLON arg; shlex_split script
        | _ => None
        end
      else if one_of ["-nologo"; "-noprofile"; "-noninteractive"; "-mta"; "-sta"]%string lower then
        parse_powershell_invocation rest
      else if starts_with [DASH] lower then parse_powershell_invocation rest
      else Some args
  end.

Definition SEG_SEPS : list char := [59; 124; 38; 10; 13; 9]%Z.
Definition SOFT_SEPS : rstr := lit "{}()[],;".
Definition DELETE_CMDLETS : list string := ["remove-item"; "ri"; "rm"; "del"; "erase"; "rd"; "rmdir"]%string.

(** The segments before the last, the last, and the text not yet pushed. *)
Record SegState := { sg_done : list (list rstr); sg_last : list rstr; sg_cur : rstr }.

Definition push_trimmed (segment : list rstr) (cur : rstr) : list rstr :=
  let s := trim cur in if is_empty s then segment else segment ++ [s].

Definition seg_char (st : SegState) (ch : char) : SegState :=
  if existsb (Z.eqb ch) SEG_SEPS then
    let last := push_trimmed (sg_last st) (sg_cur st) in
    if is_empty last then {| sg_done := sg_done st; sg_last := last; sg_cur := [] |}
    else {| sg_done := sg_done st ++ [last]; sg_last := []; sg_cur := [] |}
  else {| sg_done := sg_done st; sg_last := sg_last st; sg_cur := sg_cur st ++ [ch] |}.

Definition seg_token (st : SegState) (tok : rstr) : SegState :=
  let st := foldl seg_char {| sg_done := sg_done st; sg_last := sg_last st; sg_cur := [] |} tok in
  {| sg_done := sg_done st; sg_last := push_trimmed (sg_last st) (sg_cur st); sg_cur := [] |}.

Definition segments (tokens : list rstr) : list (list rstr) :=
  let st := foldl seg_token {| sg_done := []; sg_last := []; sg_cur := [] |} tokens in
  sg_done st ++ [sg_last st].

Definition segment_atoms (seg : list rstr) : list rstr :=
  List.filter (fun s => negb (is_empty s))
    (map trim (flat_map (split_pred (fun c => existsb (Z.eqb c) SOFT_SEPS)) seg)).

Definition is_delete_atom (a : rstr) : bool := existsb (fun cmd => eq_ignore_ascii_case a (lit cmd)) DELETE_CMDLETS.

Definition is_force_atom (a : rstr) : bool :=
  eq_ignore_ascii_case a (lit "-force") || eq_ignore_ascii_case (take 7 a) (lit "-force:").

Definition has_force_delete_cmdlet (tokens : list rstr) : bool :=
  existsb (fun seg => let atoms := segment_atoms seg in existsb is_delete_atom atoms && existsb is_force_atom atoms)
    (segments tokens).

Definition trim_matches (c : char) (s : rstr) : rstr := trim_end_matches c (drop_while (Z.eqb c) s).

Definition is_dangerous_powershell_words (words : list rstr) : bool :=
  let tokens_lc := map (fun t => to_ascii_lowercase (trim_matches DQUOTE (trim_matches 39 t))) words in
  let has_url := args_have_url words in
  let contains sub t := contains_sub (lit sub) t in
  if has_url && existsb (fun t => one_of ["start-process"; "start"; "saps"; "invoke-item"; "ii"]%string t
                                  || contains "start-process"%string t || contains "invoke-item"%string t) tokens_lc
  then true
  else if has_url && existsb (fun t => contains "shellexecute"%string t || contains "shell.application"%string t) tokens_lc
  then true
  else
    let first_dangerous :=
      match tokens_lc with
      | first :: _ =>
          (streq first (lit "rundll32") && existsb (contains "url.dll,fileprotocolhandler"%string) tokens_lc && has_url)
          || (streq first (lit "mshta") && has_url)
          || (is_browser_executable first && has_url)
          || (one_of ["explorer"; "explorer.exe"]%string first && has_url)
      | [] => false
      end in
    if first_dangerous then true else has_force_delete_cmdlet tokens_lc.

Definition is_dangerous_powershell (command : list rstr) : bool :=
  match command with
  | [] => false
  | exe :: rest =>
      if negb (is_powershell_executable exe) then false
      else match parse_powershell_invocation rest with
           | Some tokens => is_dangerous_powershell_words tokens
           | None => false
           end
  end.

(** [None] is the [return false] of the loop over the options of [cmd]. *)
Fixpoint cmd_body (args : list rstr) : option (list rstr) :=
  match args with
  | [] => Some []
  | arg :: rest =>
      let lower := to_ascii_lowercase arg in
      if one_of ["/c"; "/r"; "-c"]%string lower then Some rest
      else if starts_with [SLASH] lower then cmd_body rest
      else None
  end.

Definition is_operator_char (c : char) : bool := (c =? 38)%Z || (c =? 124)%Z.

Definition flush (cur : rstr) : list rstr := if is_empty cur then [] else [cur].

Fixpoint split_operators (cur token : rstr) : list rstr :=
  match token with
  | [] => flush cur
  | ch :: rest =>
      if is_operator_char ch then
        flush cur ++
        match rest with
        | next :: rest' => if (next =? ch)%Z then [ch; next] :: split_operators [] rest' else [ch] :: split_operators [] rest
        | [] => [[ch]]
        end
      else split_operators (cur ++ [ch]) rest
  end.

Definition split_embedded_cmd_operators (token : rstr) : list rstr :=
  List.filter (fun s => negb (is_empty (trim s))) (split_operators [] token).

(** [slice::split]. *)
Fixpoint split_list {A} (p : A -> bool) (l : list A) : list (list A) :=
  match l with
  | [] => [[]]
  | x :: l =>
      if p x then [] :: split_list p l
      else match split_list p l with [] => [[x]] | seg :: segs => (x :: seg) :: segs end
  end.

Definition has_flag (flag : string) (args : list rstr) : bool := existsb (fun a => eq_ignore_ascii_case a (lit flag)) args.

Definition dangerous_segment (segment : list rstr) : bool :=
  match segment with
  | [] => false
  | cmd :: _ =>
      let named name := eq_ignore_ascii_case cmd (lit name) in
      (named "start"%string && args_have_url segment)
      || ((named "del"%string || named "erase"%string) && has_flag "/f" segment)
      || ((named "rd"%string || named "rmdir"%string) && has_flag "/s" segment && has_flag "/q" segment)
  end.

Definition is_dangerous_cmd (command : list rstr) : bool :=
  match command with
  | [] => false
  | exe :: rest =>
      match executable_basename exe with
      | None => false
      | Some base =>
          if negb (one_of ["cmd"; "cmd.exe"]%string base) then false
          else
            match cmd_body rest with
            | None | Some [] => false
            | Some remaining =>
                let cmd_tokens := match remaining with
                                  | [only] => default [only] (shlex_split only)
                                  | _ => remaining
                                  end in
                let tokens := flat_map split_embedded_cmd_operators cmd_tokens in
                existsb dangerous_segment (split_list (one_of ["&"; "&&"; "|"; "||"]%string) tokens)
            end
      end
  end.

Definition is_direct_gui_launch (command : list rstr) : bool :=
  match command with
  | [] => false
  | exe :: rest =>
      match executable_basename exe with
      | None => false
      | Some base =>
          (one_of ["explorer"; "explorer.exe"]%string base && args_have_url rest)
          || (one_of ["mshta"; "mshta.exe"]%string base && args_have_url rest)
          || (one_of ["rundll32"; "rundll32.exe"]%string base
              && existsb (fun t => contains_sub (lit "url.dll,fileprotocolhandler") (to_ascii_lowercase t)) rest
              && args_have_url rest)
          || (is_browser_executable base && args_have_url rest)
      end
  end.

Definition is_dangerous_command_windows (command : list rstr) : bool :=
  is_dangerous_powershell command || is_dangerous_cmd command || is_direct_gui_launch command.

(** ** The classifier *)

Definition first_some {A B} (f : A -> option B) (l : list A) : option B :=
  foldr (fun a rest => match f a with Some b => Some b | None => rest end) None l.

(** [dangerous_command_match_for_exec], with the recursive call as an argument. *)
Definition match_for_exec (recurse : list rstr -> option DangerousCommandMatch) (command : list rstr)
    (platform : DangerousCommandPlatform) : option DangerousCommandMatch :=
  match command with
  | [] => None
  | program :: args =>
      match executable_name_lookup_key program platform with
      | None => None
      | Some cmd0 =>
          if streq cmd0 (lit "rm") && rm_args_include_force_option args then Some ForcedRm
          else if streq cmd0 (lit "sudo") then recurse args
          else if streq cmd0 (lit "env") then recurse (skip_env_args args)
          else if streq cmd0 (lit "trap") then
            action ← trap_action args; recurse [lit "sh"; lit "-c"; action]
          else None
      end
  end.

(** [levels] is [MAX_DANGEROUS_COMMAND_WRAPPER_DEPTH + 1 - wrapper_depth]: no level is left
    when the depth exceeds the maximum. *)
Fixpoint match_with_levels (levels : nat) (platform : DangerousCommandPlatform) (command : list rstr)
    : option DangerousCommandMatch :=
  match levels with
  | O => Some OtherMatch
  | S levels =>
      let recurse := match_with_levels levels platform in
      match match_for_exec recurse command platform with
      | Some dangerous_match => Some dangerous_match
      | None =>
          match parse_shell_lc_literal_commands try_parse_shell command ≫= first_some recurse with
          | Some dangerous_match => Some dangerous_match
          | None =>
              match platform with
              | WindowsPlatform => if is_dangerous_command_windows command then Some OtherMatch else None
              | PosixPlatform => None
              end
          end
      end
  end.

Definition dangerous_command_match_with_depth (command : list rstr) (wrapper_depth : nat)
    (platform : DangerousCommandPlatform) : option DangerousCommandMatch :=
  match_with_levels (MAX_DANGEROUS_COMMAND_WRAPPER_DEPTH + 1 - wrapper_depth) platform command.

Definition dangerous_command_match_for_platform (command : list rstr) (platform : DangerousCommandPlatform)
    : option DangerousCommandMatch :=
  dangerous_command_match_with_depth command 0 platform.

Definition dangerous_powershell_words_match (command : list rstr) (platform : DangerousCommandPlatform)
    : option DangerousCommandMatch :=
  match platform with
  | WindowsPlatform => if is_dangerous_powershell_words command then Some OtherMatch else None
  | PosixPlatform => None
  end.

(** ** What the classifier looks for *)

(** One wrapper taken off a command. *)
Inductive unwraps : list rstr -> list rstr -> Prop :=
| unwrap_sudo program args : runs program (lit "sudo") -> unwraps (program :: args) args
| unwrap_env program args rest : runs program (lit "env") -> env_runs args rest -> unwraps (program :: args) rest
| unwrap_trap program args action :
    runs program (lit "trap") -> trap_stores args action -> unwraps (program :: args) [lit "sh"; lit "-c"; action]
| unwrap_script command commands inner :
    parse_shell_lc_literal_commands try_parse_shell command = Some commands -> inner ∈ commands -> unwraps command inner.

(** [rm] with a force option before any [--]. *)
Inductive forced_rm : list rstr -> Prop :=
| forced_rm_intro program before arg after :
    runs program (lit "rm") -> lit "--" ∉ before -> force_option arg -> forced_rm (program :: before ++ arg :: after).

Lemma first_some_spec {A B} (f : A -> option B) l : is_Some (first_some f l) <-> exists a, a ∈ l /\ is_Some (f a).
Proof.
  induction l as [|x l IH]; cbn [first_some foldr]; [split; [by intros []|set_solver]|].
  destruct (f x) as [b|] eqn:E.
  - split; [|by eexists]. intros _. exists x. split; [set_solver|]. by rewrite E.
  - fold (first_some f l). rewrite IH. split.
    + intros (a & Ha & Hf). exists a. set_solver.
    + intros (a & [->|Ha]%elem_of_cons & Hf); [rewrite E in Hf; by destruct Hf|]. by exists a.
Qed.

Lemma match_for_exec_iff R command :
  is_Some (match_for_exec R command PosixPlatform) <->
  forced_rm command \/
  exists program args inner, command = program :: args /\ is_Some (R inner) /\
    (runs program (lit "sudo") /\ inner = args \/ runs program (lit "env") /\ env_runs args inner \/
     exists action, runs program (lit "trap") /\ trap_stores args action /\ inner = [lit "sh"; lit "-c"; action]).
Proof.
  clear try_parse_shell shlex_split url_capture url_scheme_of. destruct command as [|program args]; cbn [match_for_exec].
  { split; [by intros []|]. intros [Hf|(p & a & inner & E & _)]; [by inversion Hf|done]. }
  assert (forall name, name ∈ map lit ["rm"; "sudo"; "env"; "trap"]%string ->
    executable_name_lookup_key program PosixPlatform = Some name <-> runs program name) as Hk.
  { intros name Hn. cbn [map] in Hn. rewrite !elem_of_cons, elem_of_nil in Hn.
    destruct Hn as [->|[->|[->|[->|[]]]]]; apply lookup_posix; by apply (bool_decide_unpack _). }
  split.
  - destruct (executable_name_lookup_key program PosixPlatform) as [cmd0|] eqn:Ek; [|by intros []].
    destruct (streq cmd0 (lit "rm") && rm_args_include_force_option args) eqn:Er.
    { intros _. left. apply andb_true_iff in Er as [->%streq_true (before & arg & after & -> & Hb & Hf)%rm_force_iff].
      constructor; [apply Hk; [set_solver|done]|done..]. }
    destruct (streq cmd0 (lit "sudo")) eqn:Es; [apply streq_true in Es as ->|].
    { intros Hs. right. exists program, args, args. split; [done|]. split; [done|]. left. split; [apply Hk; [set_solver|done]|done]. }
    destruct (streq cmd0 (lit "env")) eqn:En; [apply streq_true in En as ->|].
    { intros Hs. right. exists program, args, (skip_env_args args). split; [done|]. split; [done|]. right; left.
      split; [apply Hk; [set_solver|done]|by apply skip_env_iff]. }
    destruct (streq cmd0 (lit "trap")) eqn:Et; [apply streq_true in Et as ->|by intros []].
    destruct (trap_action args) as [action|] eqn:Ea; [|by intros []]. intros Hs. right.
    exists program, args, [lit "sh"; lit "-c"; action]. split; [done|]. split; [done|]. right; right. exists action.
    split; [apply Hk; [set_solver|done]|]. split; [by apply trap_action_iff|done].
  - intros [Hf|(p & a & inner & [= <- <-] & HR & Hc)].
    { inversion Hf as [p before arg after Hr Hb Ho]; subst. apply Hk in Hr; [|set_solver]. rewrite Hr.
      rewrite (proj2 (rm_force_iff (before ++ arg :: after))) by by exists before, arg, after. by eexists. }
    destruct Hc as [[Hr ->]|[[Hr He]|(action & Hr & Ht & ->)]]; (apply Hk in Hr; [|set_solver]); rewrite Hr.
    + done.
    + apply skip_env_iff in He as <-. done.
    + apply trap_action_iff in Ht. rewrite Ht. done.
Qed.

Lemma match_with_levels_step levels command :
  is_Some (match_with_levels (S levels) PosixPlatform command) <->
  forced_rm command \/
  exists inner, unwraps command inner /\ is_Some (match_with_levels levels PosixPlatform inner).
Proof.
  cbn [match_with_levels]. set (R := match_with_levels levels PosixPlatform).
  pose proof (match_for_exec_iff R command) as Hx. split.
  - destruct (match_for_exec R command PosixPlatform) as [d|] eqn:Ee.
    + intros _. destruct (proj1 Hx) as [Hf|(p & a & inner & -> & HR & Hc)]; [by eexists|by left|]. right. exists inner. split; [|done].
      destruct Hc as [[Hr ->]|[[Hr He]|(action & Hr & Ht & ->)]]; [by apply unwrap_sudo|by eapply unwrap_env|by eapply unwrap_trap].
    + destruct (parse_shell_lc_literal_commands try_parse_shell command) as [commands|] eqn:Ep; cbn [mbind option_bind]; [|by intros []].
      destruct (first_some R commands) as [d|] eqn:Ef; [|by intros []]. intros _. right.
      destruct (proj1 (first_some_spec R commands)) as (inner & Hin & Hs); [by eexists|].
      exists inner. split; [by eapply unwrap_script|done].
  - intros Hd. destruct (match_for_exec R command PosixPlatform) as [d|] eqn:Ee; [by eexists|].
    destruct Hd as [Hrm|(inner & Hu & Hs)]; [by destruct (proj2 Hx (or_introl Hrm))|].
    inversion Hu as [program args Hr|program args rest Hr He|program args action Hr Ha|? commands ? Hp Hin]; subst.
    1-3: destruct (proj2 Hx) as [? [=]]; right; eexists _, _, _; split; [done|]; split; [exact Hs|]; naive_solver.
    rewrite Hp. cbn [mbind option_bind]. destruct (proj2 (first_some_spec R commands)) as [d ->]; [by exists inner|by eexists].
Qed.

Lemma match_with_levels_spec levels command :
  is_Some (match_with_levels levels PosixPlatform command) <->
  exists n inner, nsteps unwraps n command inner /\ (n = levels \/ (n < levels /\ forced_rm inner)).
Proof.
  revert command. induction levels as [|levels IH]; intros command.
  { split; [|by eexists]. intros _. exists 0, command. split; [constructor|by left]. }
  rewrite match_with_levels_step. split.
  - intros [Hf|(inner & Hu & (n & c & Hn & Hc)%IH)].
    + exists 0, command. split; [constructor|]. right. split; [lia|done].
    + exists (S n), c. split; [by econstructor|]. destruct Hc as [->|[? ?]]; [by left|right; split; [lia|done]].
  - intros (n & inner & Hn & Hc). destruct Hn as [c|n c d e Hu Hn].
    + destruct Hc as [|[_ Hf]]; [done|by left].
    + right. exists d. split; [done|]. apply IH. exists n, e. split; [done|]. destruct Hc as [?|[? ?]]; [left; lia|right; split; [lia|done]].
Qed.

(** A wrapper around a dangerous command is dangerous. *)
Lemma dangerous_unwraps command inner :
  unwraps command inner ->
  is_Some (dangerous_command_match_for_platform inner PosixPlatform) ->
  is_Some (dangerous_command_match_for_platform command PosixPlatform).
Proof.
  unfold dangerous_command_match_for_platform, dangerous_command_match_with_depth, MAX_DANGEROUS_COMMAND_WRAPPER_DEPTH.
  change (8 + 1 - 0) with 9. rewrite !match_with_levels_spec. intros Hu (n & c & Hn & Hc).
  destruct (decide (S n < 9)) as [Hlt|Hge].
  - exists (S n), c. split; [by econstructor|]. right. split; [done|]. destruct Hc as [->|[_ Hf]]; [lia|done].
  - assert (nsteps (unwraps) (9 + (S n - 9)) command c) as Hs.
    { replace (9 + (S n - 9)) with (S n) by lia. by econstructor. }
    apply nsteps_add_inv in Hs as (mid & Hmid & _). exists 9, mid. by split; [|left].
Qed.

(** C17. On POSIX a command is dangerous exactly if taking wrappers off it ([sudo], [env] with its
    options and assignments, the action of a [trap], a literal command of a shell script)
    leads to a forced [rm], or goes on for more than eight levels: wrapping a forced [rm]
    never hides it, however deep, and nothing else is flagged. *)
Theorem dangerous_posix_iff command :
  is_Some (dangerous_command_match_for_platform command PosixPlatform) <->
  exists n inner, nsteps unwraps n command inner /\
    (forced_rm inner \/ n > MAX_DANGEROUS_COMMAND_WRAPPER_DEPTH).
Proof.
  unfold dangerous_command_match_for_platform, dangerous_command_match_with_depth.
  rewrite match_with_levels_spec. unfold MAX_DANGEROUS_COMMAND_WRAPPER_DEPTH. simpl. split.
  - intros (n & inner & Hn & Hc). exists n, inner. split; [done|]. destruct Hc as [->|[_ Hf]]; [right; lia|by left].
  - intros (n & inner & Hn & Hc). destruct (decide (n < 9)) as [Hlt|Hge].
    + exists n, inner. split; [done|]. right. split; [lia|]. destruct Hc; [done|lia].
    + replace n with (9 + (n - 9)) in Hn by lia. apply nsteps_add_inv in Hn as (mid & Hmid & _). exists 9, mid. by split; [|left].
Qed.

End Dangerous.
