(* ===== verification/ExecApproval.v ===== *)
(** * Approving commands

    Models [workx-rs/core/src/exec_policy.rs] with [exec_policy/executable_identity.rs]
    and [exec_policy/model_policy.rs], and [core/src/command_canonicalization.rs]: the
    commands a request stands for, their evaluation against the exec policy
    ([ExecPolicy]) with the dangerous-command heuristics ([DangerousCommand]) as the
    fallback, whether the request runs, needs approval or is forbidden, and the rule that
    the user is offered for the next time. The file that rules are stored in is that of
    [ExecAmend]; loading the rule files of the configuration layers, and the texts of
    errors in them, are not modelled. Updates take a lock and are modelled one after
    another. *)
From S2P Require Import Prelude AbsPath ExecRule ExecPolicy ExecAmend PathUri SandboxPolicy Approval ShellBash DangerousCommand.

Set Default Goal Selector "!".

Definition PROMPT_CONFLICT_REASON : rstr := lit "approval required by policy, but AskForApproval is set to Never".
Definition REJECT_SANDBOX_APPROVAL_REASON : rstr :=
  lit "approval required by policy, but AskForApproval::Granular.sandbox_approval is false".
Definition REJECT_RULES_APPROVAL_REASON : rstr :=
  lit "approval required by policy rule, but AskForApproval::Granular.rules is false".

Definition BANNED_PREFIX_SUGGESTIONS : list (list rstr) := map (map lit) [
  ["/bin/bash"]; ["/bin/bash"; "-c"]; ["/bin/bash"; "-lc"]; ["/bin/sh"]; ["/bin/sh"; "-c"]; ["/bin/sh"; "-lc"];
  ["/bin/zsh"]; ["/bin/zsh"; "-c"]; ["/bin/zsh"; "-lc"]; ["Rscript"]; ["bash"]; ["bash"; "-c"]; ["bash"; "-lc"];
  ["bun"]; ["bun"; "-e"]; ["bun"; "run"]; ["cmd"]; ["cmd"; "/c"]; ["cmd"; "/k"]; ["cmd.exe"]; ["cmd.exe"; "/c"];
  ["cmd.exe"; "/k"]; ["dash"]; ["dash"; "-c"]; ["deno"]; ["deno"; "eval"]; ["env"]; ["fish"]; ["fish"; "-c"]; ["git"];
  ["julia"]; ["julia"; "-e"]; ["ksh"]; ["ksh"; "-c"]; ["lua"]; ["lua"; "-e"]; ["node"]; ["node"; "-e"]; ["nodejs"];
  ["nodejs"; "-e"]; ["npm"; "run"]; ["osascript"]; ["perl"]; ["perl"; "-e"]; ["php"]; ["php"; "-r"]; ["pnpm"; "run"];
  ["powershell"]; ["powershell"; "-Command"]; ["powershell"; "-EncodedCommand"]; ["powershell"; "-File"];
  ["powershell"; "-c"]; ["powershell.exe"]; ["powershell.exe"; "-Command"]; ["powershell.exe"; "-EncodedCommand"];
  ["powershell.exe"; "-File"]; ["powershell.exe"; "-c"]; ["pwsh"]; ["pwsh"; "-Command"]; ["pwsh"; "-EncodedCommand"];
  ["pwsh"; "-File"]; ["pwsh"; "-c"]; ["pwsh"; "-e"]; ["pwsh"; "-ec"]; ["pwsh"; "-f"]; ["py"]; ["py"; "-3"]; ["pypy"];
  ["pypy3"]; ["python"]; ["python"; "-"]; ["python"; "-c"]; ["python3"]; ["python3"; "-"]; ["python3"; "-c"]; ["pythonw"];
  ["pyw"]; ["rm"]; ["ruby"]; ["ruby"; "-e"]; ["sh"]; ["sh"; "-c"]; ["sh"; "-lc"]; ["sudo"]; ["yarn"; "run"]; ["zsh"];
  ["zsh"; "-c"]; ["zsh"; "-lc"]]%string.

Inductive ExecPolicyCommandOrigin := GenericOrigin | PowerShellOrigin.

Record ExecPolicyCommands := { ec_commands : list (list rstr); ec_origin : ExecPolicyCommandOrigin }.

Abbreviation ExecPolicyAmendment := (list rstr) (only parsing).

Inductive ExecApprovalRequirement :=
| Skip (bypass_sandbox : bool) (proposed_execpolicy_amendment : option ExecPolicyAmendment)
| NeedsApproval (reason : option rstr) (proposed_execpolicy_amendment : option ExecPolicyAmendment)
| ForbiddenReq (reason : rstr).

Inductive AllowPrefixRules := Honor | IgnoreForCyberModel.

Definition is_policy_match (rule_match : RuleMatch) : bool :=
  match rule_match with PrefixRuleMatch _ _ _ _ => true | HeuristicsRuleMatch _ _ => false end.

Definition prompt_is_rejected_by_policy (approval_policy : AskForApproval) (prompt_is_rule : bool) : option rstr :=
  match approval_policy with
  | Never => Some PROMPT_CONFLICT_REASON
  | OnRequest | UnlessTrusted => None
  | Granular granular_config =>
      if prompt_is_rule then
        if negb (g_rules granular_config) then Some REJECT_RULES_APPROVAL_REASON else None
      else if negb (g_sandbox_approval granular_config) then Some REJECT_SANDBOX_APPROVAL_REASON
      else None
  end.

(** Crates the code calls: the grammars, [shlex], one expression of [regex], [url], and
    [serde_json] on a string. *)
Record Crates := {
  try_parse_shell : rstr -> option Node;
  try_parse_powershell_commands : rstr -> option (list (list rstr));
  shlex_split : rstr -> option (list rstr);
  shlex_try_join : list rstr -> option rstr;
  url_capture : rstr -> option rstr;
  url_scheme_of : rstr -> option rstr;
  json_string : rstr -> option rstr;
}.

Section Approval.
Context {Url : Type} `{UrlCrate Url}.
Variable crates : Crates.
Variable host : Host.
(** [cfg!(windows)]. *)
Variable cfg_windows : bool.
Set Default Proof Using "Type".
Abbreviation env := (h_env host).

Record ExecApprovalRequest := {
  rq_command : list rstr;
  rq_approval_policy : AskForApproval;
  rq_permission_profile : @PermissionProfile Url;
  rq_environment_policy : option Policy;
  rq_windows_sandbox_level : WindowsSandboxLevel;
  rq_sandbox_permissions : SandboxPermissions;
  rq_prefix_rule : option (list rstr);
  rq_allow_prefix_rules : AllowPrefixRules;
}.

(** ** Commands *)

Definition dangerous_command_match_for_platform (command : list rstr) (platform : DangerousCommandPlatform)
    : option DangerousCommandMatch :=
  DangerousCommand.dangerous_command_match_for_platform (try_parse_shell crates) (shlex_split crates) (url_capture crates)
    (url_scheme_of crates) command platform.

Definition parse_powershell_command_into_plain_commands (command : list rstr) : option (list (list rstr)) :=
  '(shell, script) ← extract_powershell_command command; try_parse_powershell_commands crates script.

Definition commands_for_exec_policy_for_platform (command : list rstr) (command_platform : DangerousCommandPlatform)
    : ExecPolicyCommands :=
  let generic := {| ec_commands := [command]; ec_origin := GenericOrigin |} in
  match parse_shell_lc_plain_commands (try_parse_shell crates) command with
  | Some ((_ :: _) as commands) => {| ec_commands := commands; ec_origin := GenericOrigin |}
  | _ =>
      match command_platform with
      | WindowsPlatform =>
          match parse_powershell_command_into_plain_commands command with
          | Some ((_ :: _) as commands) => {| ec_commands := commands; ec_origin := PowerShellOrigin |}
          | _ => generic
          end
      | PosixPlatform => generic
      end
  end.

Definition dangerous_command_match_for_origin (command : list rstr) (command_origin : ExecPolicyCommandOrigin)
    (command_platform : DangerousCommandPlatform) : option DangerousCommandMatch :=
  match command_origin with
  | GenericOrigin => dangerous_command_match_for_platform command command_platform
  | PowerShellOrigin => dangerous_powershell_words_match (url_capture crates) (url_scheme_of crates) command command_platform
  end.

(** *** Unmatched commands *)

Definition profile_has_managed_filesystem_restrictions (permission_profile : @PermissionProfile Url) : bool :=
  let file_system_sandbox_policy := file_system_sandbox_policy permission_profile in
  match permission_profile with
  | Managed _ _ => is_restricted file_system_sandbox_policy && negb (has_full_disk_write_access host file_system_sandbox_policy)
  | _ => false
  end.

Record UnmatchedCommandContext := {
  uc_approval_policy : AskForApproval;
  uc_permission_profile : @PermissionProfile Url;
  uc_windows_sandbox_level : WindowsSandboxLevel;
  uc_sandbox_permissions : SandboxPermissions;
  uc_command_origin : ExecPolicyCommandOrigin;
}.

Definition override_decision (kind : FileSystemSandboxKind) (sandbox_permissions : SandboxPermissions) : Decision :=
  match kind with
  | Unrestricted | ExternalSandbox => Allow
  | Restricted => if requests_sandbox_override sandbox_permissions then Prompt else Allow
  end.

Definition render_decision_for_unmatched_command_for_platform (command : list rstr) (context : UnmatchedCommandContext)
    (command_platform : DangerousCommandPlatform) : Decision :=
  let dangerous_command_match :=
    dangerous_command_match_for_origin command (uc_command_origin context) command_platform in
  let file_system_sandbox_policy := file_system_sandbox_policy (uc_permission_profile context) in
  let windows_managed_fs_restrictions_without_sandbox_backend :=
    cfg_windows && negb (windows_sandbox_enabled (uc_windows_sandbox_level context))
    && profile_has_managed_filesystem_restrictions (uc_permission_profile context) in
  if bool_decide (is_Some dangerous_command_match) || windows_managed_fs_restrictions_without_sandbox_backend then
    match uc_approval_policy context with Never => Forbidden | _ => Prompt end
  else
    match uc_approval_policy context with
    | Never => Allow
    | UnlessTrusted => Prompt
    | OnRequest | Granular _ => override_decision (fp_kind file_system_sandbox_policy) (uc_sandbox_permissions context)
    end.

(** *** Amendments *)

Definition is_rule_with (decision : Decision) (rule_match : RuleMatch) : bool :=
  is_policy_match rule_match && bool_decide (rm_decision rule_match = decision).

Definition heuristics_command (decision : Decision) (rule_match : RuleMatch) : option (list rstr) :=
  match rule_match with
  | HeuristicsRuleMatch command d => if bool_decide (d = decision) then Some command else None
  | _ => None
  end.

Definition try_derive_execpolicy_amendment_for_prompt_rules (matched_rules : list RuleMatch) : option ExecPolicyAmendment :=
  if existsb (is_rule_with Prompt) matched_rules then None else first_some (heuristics_command Prompt) matched_rules.

Definition try_derive_execpolicy_amendment_for_allow_rules (matched_rules : list RuleMatch) : option ExecPolicyAmendment :=
  if existsb is_policy_match matched_rules then None else first_some (heuristics_command Allow) matched_rules.

Definition match_options : MatchOptions := {| resolve_host_executables := true |}.

Definition decision_is (r : res Error Evaluation) (d : Decision) : bool :=
  match r with Ok ev => bool_decide (ev_decision ev = d) | _ => false end.

Definition prefix_rule_would_approve_all_commands (exec_policy : Policy) (prefix_rule : list rstr)
    (commands : list (list rstr)) (exec_policy_fallback : list rstr -> Decision) : bool :=
  match add_prefix_rule exec_policy prefix_rule Allow with
  | Ok policy_with_prefix_rule =>
      forallb (fun command => decision_is (check_with_options env policy_with_prefix_rule command exec_policy_fallback
                                             match_options) Allow) commands
  | _ => false
  end.

Definition derive_requested_execpolicy_amendment_from_prefix_rule (prefix_rule : option (list rstr))
    (matched_rules : list RuleMatch) (exec_policy : Policy) (commands : list (list rstr))
    (exec_policy_fallback : list rstr -> Decision) : option ExecPolicyAmendment :=
  prefix_rule ← prefix_rule;
  if is_empty prefix_rule then None
  else if existsb (fun banned => bool_decide (prefix_rule = banned)) BANNED_PREFIX_SUGGESTIONS then None
  else if existsb is_policy_match matched_rules then None
  else if prefix_rule_would_approve_all_commands exec_policy prefix_rule commands exec_policy_fallback
  then Some prefix_rule else None.

(** *** Reasons *)

Definition render_shlex_command (args : list rstr) : rstr := default (join (lit " ") args) (shlex_try_join crates args).

(** [Iterator::max_by_key]: the last of the largest. *)
Definition max_by_key {A} (key : A -> nat) (l : list A) : option A :=
  foldl (fun best x => match best with
                       | Some b => if (key b <=? key x)%nat then Some x else Some b
                       | None => Some x
                       end) None l.

Definition rule_prefix (decision : Decision) (rule_match : RuleMatch) : option (list rstr * option rstr) :=
  match rule_match with
  | PrefixRuleMatch matched_prefix d _ justification =>
      if bool_decide (d = decision) then Some (matched_prefix, justification) else None
  | HeuristicsRuleMatch _ _ => None
  end.

Definition most_specific (decision : Decision) (evaluation : Evaluation) : option (list rstr * option rstr) :=
  max_by_key (fun p => length p.1) (omap (rule_prefix decision) (ev_matched_rules evaluation)).

Definition BACKTICK : char := 96.

Definition derive_prompt_reason (command_args : list rstr) (evaluation : Evaluation) : option rstr :=
  let command := [BACKTICK] ++ render_shlex_command command_args ++ [BACKTICK] in
  match most_specific Prompt evaluation with
  | Some (_, Some justification) => Some (command ++ lit " requires approval: " ++ justification)
  | Some (_, None) => Some (command ++ lit " requires approval by policy")
  | None => None
  end.

Definition dangerous_command_rejection_reason (m : DangerousCommandMatch) : rstr :=
  match m with
  | ForcedRm => lit "rm -f style commands are not permitted. Use a safer approach"
  | OtherMatch => lit "blocked by policy"
  end.

Definition derive_forbidden_reason (command_args : list rstr) (evaluation : Evaluation)
    (dangerous_command_match : option DangerousCommandMatch) : rstr :=
  let command := [BACKTICK] ++ render_shlex_command command_args ++ [BACKTICK] in
  match most_specific Forbidden evaluation with
  | Some (_, Some justification) => command ++ lit " rejected: " ++ justification
  | Some (matched_prefix, None) =>
      command ++ lit " rejected: policy forbids commands starting with " ++ [BACKTICK]
        ++ render_shlex_command matched_prefix ++ [BACKTICK]
  | None =>
      match dangerous_command_match with
      | Some m => command ++ lit " rejected: " ++ dangerous_command_rejection_reason m
      | None => command ++ lit " rejected: blocked by policy"
      end
  end.

Definition derive_rejected_prompt_reason (fallback_reason : rstr) (dangerous_command_match : option DangerousCommandMatch)
    : rstr :=
  match dangerous_command_match with
  | Some ForcedRm => dangerous_command_rejection_reason ForcedRm
  | Some OtherMatch | None => fallback_reason
  end.

Definition dangerous_command_match_for_heuristics (evaluation : Evaluation) (decision : Decision)
    (command_origin : ExecPolicyCommandOrigin) (command_platform : DangerousCommandPlatform) : option DangerousCommandMatch :=
  first_some (fun rule_match =>
    command ← heuristics_command decision rule_match;
    dangerous_command_match_for_origin command command_origin command_platform) (ev_matched_rules evaluation).

(** ** The manager *)

(** [policy] and the rule file it appends to. *)
Record ExecPolicyManager := { mg_policy : Policy; mg_file : option rstr }.

Definition is_allow_prefix (rule : PrefixRule) : bool := bool_decide (pr_decision rule = Allow).

Definition current_for_prefix_rules (self : ExecPolicyManager) (allow_prefix_rules : AllowPrefixRules) : Policy :=
  let policy := mg_policy self in
  match allow_prefix_rules with
  | Honor => policy
  | IgnoreForCyberModel =>
      {| rules_by_program :=
           omap (fun rules => match List.filter (fun rule => negb (is_allow_prefix rule)) rules with
                              | [] => None
                              | kept => Some kept
                              end) (rules_by_program policy);
         network_rules := network_rules policy;
         host_executables_by_name := host_executables_by_name policy |}
  end.

Definition current_for_environment (self : ExecPolicyManager) (environment_policy : option Policy)
    (allow_prefix_rules : AllowPrefixRules) : Policy :=
  let policy := current_for_prefix_rules self allow_prefix_rules in
  match environment_policy with
  | Some environment_policy => merge_overlay policy environment_policy
  | None => policy
  end.

Definition fallback_of (req : ExecApprovalRequest) (command_origin : ExecPolicyCommandOrigin)
    (command_platform : DangerousCommandPlatform) (cmd : list rstr) : Decision :=
  render_decision_for_unmatched_command_for_platform cmd
    {| uc_approval_policy := rq_approval_policy req; uc_permission_profile := rq_permission_profile req;
       uc_windows_sandbox_level := rq_windows_sandbox_level req; uc_sandbox_permissions := rq_sandbox_permissions req;
       uc_command_origin := command_origin |} command_platform.

Definition explicitly_allowed (exec_policy : Policy) (command : list rstr) : bool :=
  existsb (is_rule_with Allow) (matches_for_command_with_options env exec_policy command None match_options).

(** The requirement that an evaluation of the commands leads to. *)
Definition requirement_of (req : ExecApprovalRequest) (commands : ExecPolicyCommands)
    (command_platform : DangerousCommandPlatform) (exec_policy : Policy) (evaluation : Evaluation) : ExecApprovalRequirement :=
  let command_origin := ec_origin commands in
  let auto_amendment_allowed := match rq_allow_prefix_rules req with Honor => true | IgnoreForCyberModel => false end in
  let when_allowed {A} (o : option A) := if auto_amendment_allowed then o else None in
  let dangerous d := dangerous_command_match_for_heuristics evaluation d command_origin command_platform in
  let requested_amendment :=
    when_allowed (derive_requested_execpolicy_amendment_from_prefix_rule (rq_prefix_rule req) (ev_matched_rules evaluation)
                    exec_policy (ec_commands commands) (fallback_of req command_origin command_platform)) in
  match ev_decision evaluation with
  | Forbidden => ForbiddenReq (derive_forbidden_reason (rq_command req) evaluation (dangerous Forbidden))
  | Prompt =>
      let prompt_is_rule := existsb (is_rule_with Prompt) (ev_matched_rules evaluation) in
      match prompt_is_rejected_by_policy (rq_approval_policy req) prompt_is_rule with
      | Some reason =>
          if prompt_is_rule then ForbiddenReq reason
          else ForbiddenReq (derive_rejected_prompt_reason reason (dangerous Prompt))
      | None =>
          NeedsApproval (derive_prompt_reason (rq_command req) evaluation)
            (match requested_amendment with
             | Some a => Some a
             | None => when_allowed (try_derive_execpolicy_amendment_for_prompt_rules (ev_matched_rules evaluation))
             end)
      end
  | Allow =>
      Skip (forallb (explicitly_allowed exec_policy) (ec_commands commands))
        (when_allowed (try_derive_execpolicy_amendment_for_allow_rules (ev_matched_rules evaluation)))
  end.

Definition create_exec_approval_requirement_for_parsed_commands (self : ExecPolicyManager) (req : ExecApprovalRequest)
    (commands : ExecPolicyCommands) (command_platform : DangerousCommandPlatform) : res Error ExecApprovalRequirement :=
  let exec_policy := current_for_environment self (rq_environment_policy req) (rq_allow_prefix_rules req) in
  evaluation ← check_multiple_with_options env exec_policy (ec_commands commands)
                 (fallback_of req (ec_origin commands) command_platform) match_options;
  Ok (requirement_of req commands command_platform exec_policy evaluation).

Definition create_exec_approval_requirement_for_command_platform (self : ExecPolicyManager) (req : ExecApprovalRequest)
    (command_platform : DangerousCommandPlatform) : res Error ExecApprovalRequirement :=
  create_exec_approval_requirement_for_parsed_commands self req
    (commands_for_exec_policy_for_platform (rq_command req) command_platform) command_platform.
(** *** [executable_identity.rs], on Unix *)

Inductive UnifiedExecShellMode := Direct | ZshFork.

Definition shell_approval_command (command : list rstr) (configured_shell_path : rstr) (shell_mode : UnifiedExecShellMode)
    : list rstr :=
  match command with
  | [] => command
  | executable :: _ =>
      let is_system_shell :=
        match path_parent executable with
        | Some parent => bool_decide (parent = components (lit "/bin")) || bool_decide (parent = components (lit "/usr/bin"))
        | None => false
        end in
      let is_configured_shell := bool_decide (components executable = components configured_shell_path) in
      if is_configured_shell || is_system_shell || match shell_mode with ZshFork => true | Direct => false end
      then command else [executable]
  end.

Definition with_command (req : ExecApprovalRequest) (command : list rstr) : ExecApprovalRequest :=
  {| rq_command := command; rq_approval_policy := rq_approval_policy req; rq_permission_profile := rq_permission_profile req;
     rq_environment_policy := rq_environment_policy req; rq_windows_sandbox_level := rq_windows_sandbox_level req;
     rq_sandbox_permissions := rq_sandbox_permissions req; rq_prefix_rule := rq_prefix_rule req;
     rq_allow_prefix_rules := rq_allow_prefix_rules req |}.

(** The apparent commands of an unfamiliar executable. *)
Definition apparent_commands (command : list rstr) (command_platform : DangerousCommandPlatform) : ExecPolicyCommands :=
  match command_platform with
  | WindowsPlatform =>
      match extract_powershell_command command with
      | Some (_, script) =>
          {| ec_commands := default [command] (try_parse_powershell_commands crates script); ec_origin := PowerShellOrigin |}
      | None => commands_for_exec_policy_for_platform command command_platform
      end
  | PosixPlatform => commands_for_exec_policy_for_platform command command_platform
  end.

Definition create_exec_approval_requirement_for_shell (self : ExecPolicyManager) (request : ExecApprovalRequest)
    (configured_shell_path : rstr) (shell_mode : UnifiedExecShellMode) (command_platform : DangerousCommandPlatform)
    : res Error ExecApprovalRequirement :=
  let command := rq_command request in
  let executable := shell_approval_command command configured_shell_path shell_mode in
  if (length executable =? length command)%nat then
    create_exec_approval_requirement_for_command_platform self request command_platform
  else
    let policy_commands := apparent_commands command command_platform in
    create_exec_approval_requirement_for_parsed_commands self (with_command request executable)
      {| ec_commands := executable :: ec_commands policy_commands; ec_origin := ec_origin policy_commands |}
      command_platform.

(** *** Updates *)

Inductive ExecPolicyUpdateError := AppendRule (path : rstr) (source : AmendError) | AddRule (source : Error).

Definition default_policy_path (workx_home : rstr) : rstr :=
  path_join (path_join workx_home (lit "rules")) (lit "default.rules").

Definition already_allowed (policy : Policy) (command : list rstr) : bool :=
  match check_multiple_with_options env policy [command] (fun _ => Forbidden) match_options with
  | Ok existing_evaluation =>
      bool_decide (ev_decision existing_evaluation = Allow)
      && existsb (is_rule_with Allow) (ev_matched_rules existing_evaluation)
  | _ => false
  end.

Definition append_amendment_and_update (io : AmendIo) (self : ExecPolicyManager) (workx_home : rstr)
    (amendment : ExecPolicyAmendment) : ExecPolicyManager * res ExecPolicyUpdateError unit :=
  let policy_path := default_policy_path workx_home in
  let '(file, appended) := blocking_append_allow_prefix_rule (json_string crates) io policy_path (mg_file self) amendment in
  let self := {| mg_policy := mg_policy self; mg_file := file |} in
  match appended with
  | Err source => (self, Err (AppendRule policy_path source))
  | Panic => (self, Panic)
  | Ok _ =>
      if already_allowed (mg_policy self) amendment then (self, Ok ())
      else
        match add_prefix_rule (mg_policy self) amendment Allow with
        | Ok updated_policy => ({| mg_policy := updated_policy; mg_file := file |}, Ok ())
        | Err source => (self, Err (AddRule source))
        | Panic => (self, Panic)
        end
  end.

Definition append_network_rule_and_update (io : AmendIo) (self : ExecPolicyManager) (workx_home : rstr) (host : rstr)
    (protocol : NetworkRuleProtocol) (decision : Decision) (justification : option rstr)
    : ExecPolicyManager * res ExecPolicyUpdateError unit :=
  let policy_path := default_policy_path workx_home in
  let '(file, appended) :=
    blocking_append_network_rule (json_string crates) io policy_path (mg_file self) host protocol decision justification in
  let self := {| mg_policy := mg_policy self; mg_file := file |} in
  match appended with
  | Err source => (self, Err (AppendRule policy_path source))
  | Panic => (self, Panic)
  | Ok _ =>
      match add_network_rule (mg_policy self) host protocol decision justification with
      | Ok updated_policy => ({| mg_policy := updated_policy; mg_file := file |}, Ok ())
      | Err source => (self, Err (AddRule source))
      | Panic => (self, Panic)
      end
  end.

(** *** [command_canonicalization.rs] *)

Definition canonicalize_command_for_approval (command : list rstr) : list rstr :=
  match parse_shell_lc_plain_commands (try_parse_shell crates) command with
  | Some [single_command] => single_command
  | _ =>
      match extract_bash_command command with
      | Some (_, script) => [lit "__workx_shell_script__"; default [] (command !! 1); script]
      | None =>
          match extract_powershell_command command with
          | Some (_, script) => [lit "__workx_powershell_script__"; script]
          | None => command
          end
      end
  end.
End Approval.
