(* ===== verification/ExecApprovalProps.v ===== *)
(** * What the approval of commands guarantees

    Theorems on [ExecApproval]: the user is only asked when the settings allow it, a
    dangerous command that no rule mentions never runs unasked, the sandbox is left only
    on an explicit rule for every command, and the rule that is offered does what it is
    offered for. *)
From S2P Require Import Prelude AbsPath ExecRule ExecPolicy ExecAmend PathUri SandboxPolicy Approval ShellBash DangerousCommand ExecApproval.

Set Default Goal Selector "!".

(** ** Evaluations *)

Lemma check_multiple_total env pol cmds f opts :
  cmds ≠ [] ->
  exists ev, check_multiple_with_options env pol cmds f opts = Ok ev /\
    ev_matched_rules ev = flat_map (fun c => matches_for_command_with_options env pol c (Some f) opts) cmds /\
    max_decision (map rm_decision (ev_matched_rules ev)) = Some (ev_decision ev).
Proof.
  intros Hne. unfold check_multiple_with_options.
  destruct (from_matches_nonempty (flat_map (fun c => matches_for_command_with_options env pol c (Some f) opts) cmds))
    as (d & Hd & ->).
  - destruct cmds as [|c cmds]; [done|]. cbn [flat_map]. intros Hnil. apply app_eq_nil in Hnil as [Hnil _].
    by apply matches_for_command_nonempty in Hnil.
  - eexists. split; [done|]. by split.
Qed.

Lemma elem_of_flat_map {A B} (f : A -> list B) l b : b ∈ flat_map f l <-> exists a, a ∈ l /\ b ∈ f a.
Proof. rewrite list_elem_of_In, in_flat_map. setoid_rewrite list_elem_of_In. naive_solver. Qed.

Lemma decision_le_Allow d : decision_le d Allow -> d = Allow.
Proof. destruct d; unfold decision_le; simpl; lia || done. Qed.

(** An evaluation allows exactly when every match does. *)
Lemma max_decision_Allow (ms : list RuleMatch) d :
  max_decision (map rm_decision ms) = Some d -> d = Allow <-> forall rm, rm ∈ ms -> rm_decision rm = Allow.
Proof.
  intros [Hin Hall]%max_decision_Some. split.
  - intros -> rm Hrm. apply decision_le_Allow. rewrite Forall_forall in Hall. apply Hall.
    change (@map RuleMatch Decision) with (@fmap list list_fmap RuleMatch Decision). by apply list_elem_of_fmap_2.
  - intros Hrm. apply list_elem_of_fmap in Hin as (rm & -> & Hin). by apply Hrm.
Qed.

Lemma matches_none env pol cmd f opts :
  let explicit := matches_for_command_with_options env pol cmd None opts in
  matches_for_command_with_options env pol cmd (Some f) opts =
    match explicit with [] => [HeuristicsRuleMatch cmd (f cmd)] | _ => explicit end.
Proof. cbv zeta. rewrite !matches_for_command_unfold. cbv zeta. by repeat case_match. Qed.

Lemma explicit_is_rule env pol cmd opts rm :
  rm ∈ matches_for_command_with_options env pol cmd None opts -> is_policy_match rm = true.
Proof.
  rewrite matches_for_command_elem. unfold applicable.
  intros [(? & ? & ? & ? & _ & _ & _ & _ & ->)|[(_ & _ & Hh)|(f & Hf & _)]]; [done| |done].
  by destruct Hh as (? & ? & ? & ? & ? & ? & _ & _ & _ & _ & _ & _ & _ & ->).
Qed.

Section Props.
Context {Url : Type} `{UrlCrate Url}.
Variable crates : Crates.
Variable host : Host.
Variable cfg_windows : bool.
Set Default Proof Using "Type".
Abbreviation env := (h_env host).
Abbreviation request := (@ExecApprovalRequest Url).
Implicit Types (self : ExecPolicyManager) (req : request).

(** The policy a request is evaluated against. *)
Definition policy_for self req : Policy :=
  current_for_environment self (rq_environment_policy req) (rq_allow_prefix_rules req).

Abbreviation create := (create_exec_approval_requirement_for_parsed_commands crates host cfg_windows).

Lemma create_total self req cmds platform :
  ec_commands cmds ≠ [] ->
  exists ev, create self req cmds platform = Ok (requirement_of crates host cfg_windows req cmds platform (policy_for self req) ev) /\
    ev_matched_rules ev = flat_map (fun c => matches_for_command_with_options env (policy_for self req) c
      (Some (fallback_of crates host cfg_windows req (ec_origin cmds) platform)) match_options) (ec_commands cmds) /\
    max_decision (map rm_decision (ev_matched_rules ev)) = Some (ev_decision ev).
Proof.
  intros Hne. unfold create_exec_approval_requirement_for_parsed_commands. fold (policy_for self req).
  destruct (check_multiple_total env (policy_for self req) (ec_commands cmds)
    (fallback_of crates host cfg_windows req (ec_origin cmds) platform) match_options Hne) as (ev & -> & Hms & Hmax).
  exists ev. by split.
Qed.

Lemma commands_nonempty command platform :
  ec_commands (commands_for_exec_policy_for_platform crates command platform) ≠ [].
Proof. unfold commands_for_exec_policy_for_platform. by repeat case_match. Qed.

(** What [create_exec_approval_requirement_for_shell] evaluates. *)
Definition evaluated (command : list rstr) (configured_shell_path : rstr) (mode : UnifiedExecShellMode)
    (platform : DangerousCommandPlatform) : ExecPolicyCommands :=
  let executable := shell_approval_command command configured_shell_path mode in
  if (length executable =? length command)%nat then commands_for_exec_policy_for_platform crates command platform
  else {| ec_commands := executable :: ec_commands (apparent_commands crates command platform);
          ec_origin := ec_origin (apparent_commands crates command platform) |}.

Lemma evaluated_nonempty command path mode platform : ec_commands (evaluated command path mode platform) ≠ [].
Proof. unfold evaluated. case_match; [apply commands_nonempty|done]. Qed.

(** The request after the command was replaced by its executable. *)
Definition evaluated_request req (configured_shell_path : rstr) (mode : UnifiedExecShellMode) : request :=
  with_command req (shell_approval_command (rq_command req) configured_shell_path mode).

Lemma shell_approval_command_same command path mode :
  length (shell_approval_command command path mode) = length command -> shell_approval_command command path mode = command.
Proof. unfold shell_approval_command. destruct command as [|x [|y command]]; [done|..]; case_match; simpl; (done || lia). Qed.

Lemma create_for_shell_unfold self req path mode platform :
  create_exec_approval_requirement_for_shell crates host cfg_windows self req path mode platform =
  create self (evaluated_request req path mode) (evaluated (rq_command req) path mode platform) platform.
Proof.
  unfold create_exec_approval_requirement_for_shell, evaluated, evaluated_request, with_command. case_match eqn:E; [|done].
  apply Nat.eqb_eq, shell_approval_command_same in E. rewrite E. by destruct req.
Qed.

Lemma policy_for_evaluated self req path mode : policy_for self (evaluated_request req path mode) = policy_for self req.
Proof. done. Qed.

(** ** When the user is asked *)

Lemma max_by_key_some {A} (key : A -> nat) l : is_Some (max_by_key key l) <-> l ≠ [].
Proof.
  unfold max_by_key. assert (forall b, is_Some (foldl (fun best x => match best with
    | Some b => if (key b <=? key x)%nat then Some x else Some b | None => Some x end) (Some b) l)) as Hs.
  { induction l as [|x l IH]; intros b; simpl; [by eexists|]. case_match; apply IH. }
  destruct l as [|x l]; simpl; [split; [by intros []|done]|]. split; [done|]. intros _. specialize (Hs x).
  simpl in Hs. by rewrite Nat.leb_refl in Hs.
Qed.

Lemma prompt_reason_iff command ev :
  is_Some (derive_prompt_reason crates command ev) <-> existsb (is_rule_with Prompt) (ev_matched_rules ev) = true.
Proof.
  assert (is_Some (derive_prompt_reason crates command ev) <-> is_Some (most_specific Prompt ev)) as ->.
  { unfold derive_prompt_reason. destruct (most_specific Prompt ev) as [[? []]|]; rewrite ?is_Some_alt; done. }
  unfold most_specific. rewrite max_by_key_some. rewrite existsb_elem. split.
  - intros Hne. destruct (omap _ _) as [|x l] eqn:E; [done|].
    assert (x ∈ omap (rule_prefix Prompt) (ev_matched_rules ev)) as (rm & Hin & Hp)%list_elem_of_omap by (rewrite E; set_solver).
    exists rm. split; [done|]. destruct rm as [p d r j|c d]; [|done]. simpl in Hp. by case_bool_decide; subst.
  - intros (rm & Hin & [Hpol Hd%bool_decide_eq_true]%andb_true_iff) Hnil. destruct rm as [p d r j|c d]; [|done]. simpl in Hd. subst d.
    assert ((p, j) ∈ omap (rule_prefix Prompt) (ev_matched_rules ev)) as Hp by (apply list_elem_of_omap; by eexists).
    rewrite Hnil in Hp. set_solver.
Qed.

(** A request for a command is always answered, and the user is only asked when the settings
    allow the question: never under [never], and under granular settings a question that a
    rule asks (the one that comes with a reason) only if rule prompts are enabled, any other
    only if sandbox prompts are. *)
Theorem prompts_respect_settings self req path mode platform :
  exists r, create_exec_approval_requirement_for_shell crates host cfg_windows self req path mode platform = Ok r /\
    forall reason amendment, r = NeedsApproval reason amendment ->
      match rq_approval_policy req with
      | Never => False
      | Granular g => match reason with Some _ => g_rules g = true | None => g_sandbox_approval g = true end
      | OnRequest | UnlessTrusted => True
      end.
Proof.
  rewrite create_for_shell_unfold.
  destruct (create_total self (evaluated_request req path mode) (evaluated (rq_command req) path mode platform) platform)
    as (ev & -> & _ & _); [apply evaluated_nonempty|].
  eexists. split; [done|]. intros reason amendment Hr. unfold requirement_of in Hr.
  destruct (ev_decision ev); [done| |done]. change (rq_approval_policy (evaluated_request req path mode)) with (rq_approval_policy req) in Hr.
  destruct (prompt_is_rejected_by_policy (rq_approval_policy req) _) eqn:Ep; [by case_match|].
  injection Hr as Hreason _. destruct (rq_approval_policy req) as [| |g|]; try done. simpl in Ep.
  pose proof (prompt_reason_iff (rq_command (evaluated_request req path mode)) ev) as Hiff.
  change (derive_prompt_reason crates (rq_command (evaluated_request req path mode)) ev = reason) in Hreason.
  rewrite Hreason in Hiff.
  destruct (existsb _ _).
  - destruct (g_rules g); [|done]. destruct reason; [done|]. destruct (proj2 Hiff eq_refl); done.
  - destruct (g_sandbox_approval g); [|done]. destruct reason; [|done]. by specialize (proj1 Hiff (ex_intro _ _ eq_refl)).
Qed.
(** ** Dangerous commands *)

(** No rule of the policy in force mentions the command. *)
Definition unmentioned self req (command : list rstr) : Prop :=
  matches_for_command_with_options env (policy_for self req) command None match_options = [].

Lemma dangerous_fallback req origin platform command :
  is_Some (dangerous_command_match_for_origin crates command origin platform) ->
  fallback_of crates host cfg_windows req origin platform command ≠ Allow.
Proof.
  intros Hd. unfold fallback_of, render_decision_for_unmatched_command_for_platform. cbn [uc_command_origin uc_approval_policy].
  rewrite bool_decide_true by done. cbn [orb]. by destruct (rq_approval_policy req).
Qed.

Lemma dangerous_segment_not_skipped self req cmds platform command :
  command ∈ ec_commands cmds -> unmentioned self req command ->
  is_Some (dangerous_command_match_for_origin crates command (ec_origin cmds) platform) ->
  exists r, create self req cmds platform = Ok r /\ forall bypass amendment, r ≠ Skip bypass amendment.
Proof.
  intros Hin Hun Hd. destruct (create_total self req cmds platform) as (ev & -> & Hms & Hmax).
  { intros Hnil. rewrite Hnil in Hin. set_solver. }
  eexists. split; [done|]. intros bypass amendment Hr.
  assert (ev_decision ev = Allow) as Ha by (unfold requirement_of in Hr; by repeat case_match).
  rewrite (max_decision_Allow _ _ Hmax), Hms in Ha.
  apply (dangerous_fallback req (ec_origin cmds) platform command Hd).
  apply (Ha (HeuristicsRuleMatch command _)), elem_of_flat_map. exists command. split; [done|].
  rewrite matches_none. cbv zeta. rewrite Hun. set_solver.
Qed.

(** C24. A script with a dangerous command in it is never run unasked: if any literal command of the
    script that a shell is started with is dangerous (a forced [rm], behind whatever
    wrappers), and neither the script's command line nor that command is mentioned by a
    rule, then the request is refused or the user is asked. *)
Theorem dangerous_script_not_skipped self req shell script root n inner :
  extract_bash_command (rq_command req) = Some (shell, script) -> try_parse_shell crates script = Some root ->
  has_error root = false -> well_shaped root ->
  n ∈ named_nodes root -> is_named n = true -> parse_literal_command_from_node n = Some inner ->
  is_Some (dangerous_command_match_for_platform crates inner PosixPlatform) ->
  unmentioned self req (rq_command req) -> unmentioned self req inner ->
  exists r, create_exec_approval_requirement_for_command_platform crates host cfg_windows self req PosixPlatform = Ok r /\
    forall bypass amendment, r ≠ Skip bypass amendment.
Proof.
  intros He Hp Herr Hws Hn Hnamed Hlit Hd Hu1 Hu2. unfold create_exec_approval_requirement_for_command_platform.
  set (cmds := commands_for_exec_policy_for_platform crates (rq_command req) PosixPlatform).
  assert (ec_origin cmds = GenericOrigin /\ (ec_commands cmds = [rq_command req] \/ inner ∈ ec_commands cmds)) as [Horg Hcase].
  { unfold cmds, commands_for_exec_policy_for_platform.
    destruct (parse_shell_lc_plain_commands (try_parse_shell crates) (rq_command req)) as [[|c l]|] eqn:Epl;
      [split; [done|by left]| |split; [done|by left]].
    split; [done|]. right. by eapply plain_contains_literal. }
  destruct Hcase as [Hc|Hc].
  - apply (dangerous_segment_not_skipped self req cmds PosixPlatform (rq_command req)); [rewrite Hc; set_solver|done|].
    rewrite Horg. simpl. unfold dangerous_command_match_for_platform in *. eapply dangerous_unwraps; [|exact Hd].
    destruct (literal_commands_elem (try_parse_shell crates) (rq_command req) shell script root inner He Hp Herr)
      as (literal & Hl & Hiff). eapply unwrap_script; [exact Hl|]. apply Hiff. by exists n.
  - apply (dangerous_segment_not_skipped self req cmds PosixPlatform inner); [done..|]. by rewrite Horg.
Qed.

(** ** Leaving the sandbox *)

(** C7. The sandbox is left exactly if every command that a request stands for is explicitly
    allowed: for each one a rule that allows it applies, and no rule that asks or forbids
    does. When the program is not a shell the configuration knows, the program itself is
    one of these commands, so nothing in its arguments can grant it trust. *)
Theorem bypass_needs_explicit_rules self req path mode platform :
  (exists amendment, create_exec_approval_requirement_for_shell crates host cfg_windows self req path mode platform =
     Ok (Skip true amendment)) <->
  forall c, c ∈ ec_commands (evaluated (rq_command req) path mode platform) ->
    (exists rm, applicable env (policy_for self req) None match_options c rm /\ rm_decision rm = Allow) /\
    (forall rm, applicable env (policy_for self req) None match_options c rm -> rm_decision rm = Allow).
Proof.
  rewrite create_for_shell_unfold. set (cmds := evaluated (rq_command req) path mode platform).
  set (req' := evaluated_request req path mode). change (policy_for self req) with (policy_for self req').
  destruct (create_total self req' cmds platform (evaluated_nonempty _ _ _ _)) as (ev & -> & Hms & Hmax).
  set (F := fallback_of crates host cfg_windows req' (ec_origin cmds) platform) in *.
  setoid_rewrite <- matches_for_command_elem.
  assert (forall c, explicitly_allowed host (policy_for self req') c = true <->
    exists rm, rm ∈ matches_for_command_with_options env (policy_for self req') c None match_options /\ rm_decision rm = Allow) as Hex.
  { intros c. unfold explicitly_allowed. rewrite existsb_elem. unfold is_rule_with. split.
    - intros (rm & Hin & [_ Hd%bool_decide_eq_true]%andb_true_iff). by exists rm.
    - intros (rm & Hin & Hd). exists rm. split; [done|]. rewrite (explicit_is_rule _ _ _ _ _ Hin), Hd. done. }
  transitivity (ev_decision ev = Allow /\ forallb (explicitly_allowed host (policy_for self req')) (ec_commands cmds) = true).
  { unfold requirement_of. split.
    - intros [a Ha]. by repeat case_match; simplify_eq.
    - intros [-> ->]. by eexists. }
  rewrite forallb_forall, (max_decision_Allow _ _ Hmax), Hms. split.
  - intros [Hall Hforall] c Hc. split; [apply Hex, Hforall; by apply list_elem_of_In|].
    intros rm Hrm. apply Hall, elem_of_flat_map. exists c. split; [done|]. rewrite matches_none. cbv zeta.
    by destruct (matches_for_command_with_options env (policy_for self req') c None match_options); [set_solver|].
  - intros Hall. split.
    + intros rm (c & Hc & Hrm)%elem_of_flat_map. destruct (Hall c Hc) as [(rm' & Hin' & _) Hd]. apply Hd.
      rewrite matches_none in Hrm. cbv zeta in Hrm.
      by destruct (matches_for_command_with_options env (policy_for self req') c None match_options); [set_solver|].
    + intros c Hc%list_elem_of_In. apply Hex. by apply Hall.
Qed.
(** ** The rule that is offered *)

Lemma check_decision_Allow pol cmd f :
  decision_is (check_with_options env pol cmd f match_options) Allow = true ->
  forall rm, rm ∈ matches_for_command_with_options env pol cmd (Some f) match_options -> rm_decision rm = Allow.
Proof.
  unfold check_with_options. destruct (from_matches_nonempty _ (matches_for_command_nonempty env pol cmd f match_options)) as (d & Hd & ->).
  simpl. intros ->%bool_decide_eq_true. by apply (max_decision_Allow _ _ Hd).
Qed.

Lemma requested_spec prefix ms pol cmds f a :
  derive_requested_execpolicy_amendment_from_prefix_rule host prefix ms pol cmds f = Some a ->
  prefix = Some a /\ a ≠ [] /\ a ∉ BANNED_PREFIX_SUGGESTIONS /\ (forall rm, rm ∈ ms -> is_policy_match rm = false) /\
  exists pol', add_prefix_rule pol a Allow = Ok pol' /\
    forall c, c ∈ cmds -> decision_is (check_with_options env pol' c f match_options) Allow = true.
Proof.
  unfold derive_requested_execpolicy_amendment_from_prefix_rule. destruct prefix as [p|]; [|done]. cbn [mbind option_bind].
  destruct (is_empty p) eqn:Ee; [done|]. destruct (existsb _ BANNED_PREFIX_SUGGESTIONS) eqn:Eb; [done|].
  destruct (existsb is_policy_match ms) eqn:Em; [done|]. unfold prefix_rule_would_approve_all_commands.
  destruct (add_prefix_rule pol p Allow) as [pol'| |] eqn:Ea; [|done..]. destruct (forallb _ cmds) eqn:Ef; [|done]. intros [= <-].
  split; [done|]. split; [by apply is_empty_false|]. split; [|split].
  - intros Hin. apply not_true_iff_false in Eb. apply Eb, existsb_elem. exists p. by rewrite bool_decide_true.
  - intros rm Hin. apply not_true_iff_false. intros Ht. apply not_true_iff_false in Em. apply Em, existsb_elem. by exists rm.
  - exists pol'. split; [done|]. rewrite forallb_forall in Ef. intros c Hc. by apply Ef, list_elem_of_In.
Qed.

Lemma append_amendment_policy io self home a self' :
  append_amendment_and_update crates host io self home a = (self', Ok ()) -> already_allowed host (mg_policy self) a = false ->
  add_prefix_rule (mg_policy self) a Allow = Ok (mg_policy self').
Proof.
  unfold append_amendment_and_update. destruct (blocking_append_allow_prefix_rule _ _ _ _ _) as [file [[]| |]]; cbn [mg_policy]; [|done..].
  intros Hu Hnot. rewrite Hnot in Hu. by destruct (add_prefix_rule (mg_policy self) a Allow); simplify_eq/=.
Qed.

(** The rule that is offered does what it is offered for: when the rule that came with a request
    is accepted and stored, the same request runs without a question, and the offer is never
    an empty prefix or one of the banned ones (an interpreter, a shell, [sudo], [rm] and the
    like) and never made when a rule already speaks about the command. *)
Theorem accepted_rule_skips io self req platform home ev a self' :
  rq_allow_prefix_rules req = Honor -> rq_environment_policy req = None ->
  let cmds := commands_for_exec_policy_for_platform crates (rq_command req) platform in
  check_multiple_with_options env (mg_policy self) (ec_commands cmds)
    (fallback_of crates host cfg_windows req (ec_origin cmds) platform) match_options = Ok ev ->
  derive_requested_execpolicy_amendment_from_prefix_rule host (rq_prefix_rule req) (ev_matched_rules ev) (mg_policy self)
    (ec_commands cmds) (fallback_of crates host cfg_windows req (ec_origin cmds) platform) = Some a ->
  append_amendment_and_update crates host io self home a = (self', Ok ()) -> already_allowed host (mg_policy self) a = false ->
  a ≠ [] /\ a ∉ BANNED_PREFIX_SUGGESTIONS /\ (forall rm, rm ∈ ev_matched_rules ev -> is_policy_match rm = false) /\
  exists bypass amendment,
    create_exec_approval_requirement_for_command_platform crates host cfg_windows self' req platform = Ok (Skip bypass amendment).
Proof.
  intros Hhon Henv cmds Hev Hreq Happ Hnot.
  destruct (requested_spec _ _ _ _ _ _ Hreq) as (_ & Hne & Hban & Hnone & pol' & Hadd & Hall).
  split; [done|]. split; [done|]. split; [done|].
  rewrite (append_amendment_policy io self home a self' Happ Hnot) in Hadd. simplify_eq.
  unfold create_exec_approval_requirement_for_command_platform. fold cmds.
  destruct (create_total self' req cmds platform (commands_nonempty _ _)) as (ev' & -> & Hms & Hmax).
  assert (ev_decision ev' = Allow) as Ha.
  { apply (max_decision_Allow _ _ Hmax). rewrite Hms. intros rm (c & Hc & Hrm)%elem_of_flat_map.
    eapply check_decision_Allow; [by apply (Hall c)|]. unfold policy_for, current_for_environment, current_for_prefix_rules in Hrm.
    by rewrite Henv, Hhon in Hrm. }
  unfold requirement_of. rewrite Ha. by eexists _, _.
Qed.

(** ** Models that do not honour allow rules *)

Lemma ignored_rules self program :
  rules_of (current_for_prefix_rules self IgnoreForCyberModel) program =
  List.filter (fun rule => negb (is_allow_prefix rule)) (rules_of (mg_policy self) program).
Proof.
  unfold rules_of, current_for_prefix_rules. cbn [rules_by_program]. rewrite lookup_omap.
  destruct (rules_by_program (mg_policy self) !! program) as [rules|]; [|done]. cbn [option_bind default].
  change (default [] (Some rules)) with rules. simpl. by destruct (List.filter _ rules).
Qed.

Lemma ignored_exact self cmd rm :
  exact_applies (current_for_prefix_rules self IgnoreForCyberModel) cmd rm <->
  exact_applies (mg_policy self) cmd rm /\ rm_decision rm ≠ Allow.
Proof.
  unfold exact_applies. split.
  - intros (first & rest & r & pre & -> & Hr & Hpre & Hpat & ->). rewrite ignored_rules in Hr.
    apply list_elem_of_In, List.filter_In in Hr as [Hr Hd]. apply negb_true_iff, bool_decide_eq_false in Hd. split; [|done].
    exists first, rest, r, pre. split; [done|]. split; [by apply list_elem_of_In|done].
  - intros [(first & rest & r & pre & -> & Hr & Hpre & Hpat & ->) Hd]. exists first, rest, r, pre. split; [done|].
    split; [|done]. rewrite ignored_rules. apply list_elem_of_In, List.filter_In. split; [by apply list_elem_of_In|].
    apply negb_true_iff. by apply bool_decide_eq_false.
Qed.

Lemma ignored_host self cmd rm :
  host_applies env (current_for_prefix_rules self IgnoreForCyberModel) cmd rm -> rm_decision rm ≠ Allow.
Proof.
  intros (first & rest & program & basename & r & pre & -> & _ & _ & _ & Hr & _ & _ & ->). rewrite ignored_rules in Hr.
  apply list_elem_of_In, List.filter_In in Hr as [_ Hd]. by apply negb_true_iff, bool_decide_eq_false in Hd.
Qed.

(** For a model that does not honour allow rules, every rule that asks or forbids still applies
    to the same commands and no rule that allows does; without an environment policy no
    command leaves the sandbox, and no reusable rule is offered. *)
Theorem ignored_allow_rules self req platform :
  (forall cmd rm, exact_applies (current_for_prefix_rules self IgnoreForCyberModel) cmd rm <->
     exact_applies (mg_policy self) cmd rm /\ rm_decision rm ≠ Allow) /\
  (rq_allow_prefix_rules req = IgnoreForCyberModel -> rq_environment_policy req = None ->
   exists r, create_exec_approval_requirement_for_command_platform crates host cfg_windows self req platform = Ok r /\
     match r with
     | Skip bypass amendment => bypass = false /\ amendment = None
     | NeedsApproval _ amendment => amendment = None
     | ForbiddenReq _ => True
     end).
Proof.
  split; [apply ignored_exact|]. intros Hig Henv. unfold create_exec_approval_requirement_for_command_platform.
  set (cmds := commands_for_exec_policy_for_platform crates (rq_command req) platform).
  destruct (create_total self req cmds platform (commands_nonempty _ _)) as (ev & -> & _ & _). eexists. split; [done|].
  unfold requirement_of. rewrite Hig. destruct (ev_decision ev).
  2: destruct (prompt_is_rejected_by_policy _ _); [by destruct (existsb _ _)|done].
  2: done.
  split; [|done].
  apply not_true_iff_false. rewrite forallb_forall. intros Hall.
  destruct (ec_commands cmds) as [|c l] eqn:Ec; [by apply (commands_nonempty (rq_command req) platform)|].
  specialize (Hall c (or_introl eq_refl)). apply existsb_elem in Hall as (rm & Hin & [_ Hd%bool_decide_eq_true]%andb_true_iff).
  unfold policy_for, current_for_environment in Hin. rewrite Henv, Hig in Hin.
  apply matches_for_command_elem in Hin as [Hex|[(_ & _ & Hh)|(f & Hf & _)]]; [|by apply ignored_host in Hh|done].
  apply ignored_exact in Hex as [_ Hne]. done.
Qed.
End Props.

(** ** Concrete requests *)

From S2P Require Import UrlModel SandboxDemo.
Import UrlModel.UrlModel.

Module ApprovalDemo.
(** [rm -f x]. *)
Definition rm_f : Node :=
  MkNode (lit "command") true 0 None false [BashDemo.name 0 "rm"; BashDemo.leaf "word" 3 "-f"; BashDemo.leaf "word" 6 "x"].
Definition root : Node := MkNode (lit "program") true 0 None false [rm_f].
Definition script : rstr := lit "rm -f x".

Definition crates : Crates := {|
  try_parse_shell s := if streq s script then Some root else None;
  try_parse_powershell_commands _ := None;
  shlex_split s := Some (split_char 32 s);
  shlex_try_join args := Some (join (lit " ") args);
  url_capture _ := None;
  url_scheme_of _ := None;
  json_string s := Some ([DQUOTE] ++ s ++ [DQUOTE]);
|}.

Definition request (command : list rstr) (prefix_rule : option (list rstr)) (rules : AllowPrefixRules)
    : @ExecApprovalRequest UrlModel.t :=
  {| rq_command := command; rq_approval_policy := UnlessTrusted;
     rq_permission_profile := Managed (MRestricted (fp_entries SandboxDemo.project) None) NetRestricted;
     rq_environment_policy := None; rq_windows_sandbox_level := WslDisabled; rq_sandbox_permissions := UseDefault;
     rq_prefix_rule := prefix_rule; rq_allow_prefix_rules := rules |}.

Definition manager : ExecPolicyManager := {| mg_policy := policy_empty; mg_file := None |}.
Definition bash_rm : list rstr := [lit "bash"; lit "-lc"; script].
Definition make : list rstr := [lit "make"; lit "test"].
End ApprovalDemo.
Import ApprovalDemo.

Lemma demo_root_shaped : well_shaped root.
Proof.
  intros n Hn. rewrite list_elem_of_In in Hn. vm_compute in Hn.
  repeat destruct Hn as [<-|Hn]; try done; (split; [done|]); intros Hk; try discriminate Hk.
  eexists _, _. split; [reflexivity|]. split; [done|]. repeat constructor; discriminate.
Qed.

Lemma dangerous_script_not_skipped_witness :
  exists r, create_exec_approval_requirement_for_command_platform crates SandboxDemo.host false manager
      (request bash_rm None Honor) PosixPlatform = Ok r /\ forall bypass amendment, r ≠ Skip bypass amendment.
Proof.
  apply (dangerous_script_not_skipped crates SandboxDemo.host false manager (request bash_rm None Honor) (lit "bash") script root rm_f
           [lit "rm"; lit "-f"; lit "x"]).
  - by vm_compute.
  - by vm_compute.
  - done.
  - apply demo_root_shaped.
  - vm_compute. set_solver.
  - done.
  - by vm_compute.
  - vm_compute. by eexists.
  - by vm_compute.
  - by vm_compute.
Defined.

Lemma accepted_rule_skips_witness :
  exists bypass amendment,
    create_exec_approval_requirement_for_command_platform crates SandboxDemo.host false
      (append_amendment_and_update crates SandboxDemo.host amend_io_ok manager (lit "/h") [lit "make"]).1
      (request make (Some [lit "make"]) Honor) PosixPlatform = Ok (Skip bypass amendment).
Proof.
  destruct (append_amendment_and_update crates SandboxDemo.host amend_io_ok manager (lit "/h") [lit "make"]) as [self' o] eqn:E.
  assert (o = Ok ()) as -> by (vm_compute in E; congruence).
  eapply (accepted_rule_skips crates SandboxDemo.host false amend_io_ok manager (request make (Some [lit "make"]) Honor) PosixPlatform
           (lit "/h") {| ev_decision := Prompt; ev_matched_rules := [HeuristicsRuleMatch make Prompt] |} [lit "make"] self').
  - done.
  - done.
  - by vm_compute.
  - by vm_compute.
  - exact E.
  - by vm_compute.
Defined.

Lemma ignored_allow_rules_witness :
  exists r, create_exec_approval_requirement_for_command_platform crates SandboxDemo.host false
      {| mg_policy := git_policy; mg_file := None |} (request [lit "git"; lit "status"] None IgnoreForCyberModel) PosixPlatform = Ok r /\
    match r with
    | Skip bypass amendment => bypass = false /\ amendment = None
    | NeedsApproval _ amendment => amendment = None
    | ForbiddenReq _ => True
    end.
Proof.
  exact (proj2 (ignored_allow_rules crates SandboxDemo.host false {| mg_policy := git_policy; mg_file := None |}
                  (request [lit "git"; lit "status"] None IgnoreForCyberModel) PosixPlatform) eq_refl eq_refl).
Defined.
