(* ===== verification/History.v ===== *)
(** * The conversation history before it is sent

    Models [workx-rs/core/src/context_manager/normalize.rs] (pairing of tool calls with
    their outputs, removal of media the model does not take) and, of
    [context_manager/history.rs], the operations built on it: [normalize_history],
    [for_prompt] and [remove_first_item]; the other operations are in [ContextManager] and
    [TokenEstimate]. The items are those of [protocol/src/models.rs]
    and [history/src/lib.rs]; fields the code only carries along have the type [Opaque].
    [debug] says whether the build has debug assertions: there [error_or_panic]
    panics. The version 5 UUID of a text is the parameter [uuid_v5]. *)
From S2P Require Import Prelude.

Set Default Goal Selector "!".

(** ** Items *)

Section Items.
Context {Opaque : Type}.

Inductive ContentItem :=
| InputText (text : rstr)
| InputImage (image_url : rstr) (detail : option Opaque)
| InputAudio (audio_url : rstr)
| OutputText (text : rstr).

Inductive FunctionCallOutputContentItem :=
| OutInputText (text : rstr)
| OutInputImage (image_url : rstr) (detail : option Opaque)
| OutInputAudio (audio_url : rstr)
| EncryptedContent (encrypted_content : rstr).

Inductive FunctionCallOutputBody :=
| BodyText (text : rstr)
| BodyContentItems (items : list FunctionCallOutputContentItem).

Record FunctionCallOutputPayload := { body : FunctionCallOutputBody; success : option bool }.

Record InternalChatMessageMetadataPassthrough := {
  turn_id : option rstr;
  create_time : option Opaque;
  content_item_kinds : option (list rstr);
  cell_id : option rstr;
  executed_tool_calls : option Opaque;
  tool_calls_complete : option bool;
}.

Abbreviation passthrough := (option InternalChatMessageMetadataPassthrough).

Inductive ResponseItem :=
| AdditionalTools (id : option rstr) (role : rstr) (tools : list Opaque)
| Message (id : option rstr) (role : rstr) (content : list ContentItem) (phase : option Opaque) (meta : passthrough)
| AgentMessage (id : option rstr) (author recipient : rstr) (content : list Opaque) (meta : passthrough)
| Reasoning (id : option rstr) (summary : list Opaque) (content : option (list Opaque))
    (encrypted_content : option rstr) (meta : passthrough)
| LocalShellCall (id : option rstr) (call_id : option rstr) (status action : Opaque) (meta : passthrough)
| FunctionCall (id : option rstr) (name : rstr) (namespace : option rstr) (arguments : rstr)
    (encrypted_function_args : option (list rstr)) (call_id : rstr) (meta : passthrough)
| ToolSearchCall (id : option rstr) (call_id : option rstr) (status : option rstr) (execution : rstr)
    (arguments : Opaque) (meta : passthrough)
| FunctionCallOutput (id : option rstr) (call_id name namespace : option rstr) (output : FunctionCallOutputPayload)
    (meta : passthrough)
| CustomToolCall (id : option rstr) (status : option rstr) (call_id name : rstr) (namespace : option rstr)
    (input : rstr) (meta : passthrough)
| CustomToolCallOutput (id : option rstr) (call_id : rstr) (name : option rstr) (output : FunctionCallOutputPayload)
    (meta : passthrough)
| ToolSearchOutput (id : option rstr) (call_id : option rstr) (status execution : rstr) (tools : list Opaque)
    (meta : passthrough)
| WebSearchCall (id : option rstr) (status : option rstr) (action : option Opaque) (meta : passthrough)
| ImageGenerationCall (id : option rstr) (status : rstr) (revised_prompt : option rstr) (result : rstr)
    (meta : passthrough)
| Compaction (id : option rstr) (encrypted_content : rstr) (meta : passthrough)
| CompactionTrigger
| ContextCompaction (id : option rstr) (encrypted_content : option rstr) (meta : passthrough)
| Other.

Record WorkxHarnessMetadata := { client_authored : bool; fallback_token_limit_override : option nat }.

Record ResponseItemEnvelope := { item : ResponseItem; metadata : option WorkxHarnessMetadata }.

Definition envelope_new (i : ResponseItem) : ResponseItemEnvelope := {| item := i; metadata := None |}.

Definition from_text (content : rstr) : FunctionCallOutputPayload :=
  {| body := BodyText content; success := None |}.

(** ** [normalize.rs]: pairing *)

Definition with_suffix (prefix suffix : rstr) : rstr := prefix ++ lit "_" ++ suffix.

Variable debug : bool.
Variable uuid_v5 : rstr -> rstr.

(** [error_or_panic], then [k]. *)
Definition error_or_panic {A} (k : res unit A) : res unit A := if debug then Panic else k.

Definition synthetic_output_id (prefix : rstr) (item_id : option rstr) : option rstr :=
  match item_id with
  | Some source_id =>
      if is_empty source_id then None
      else Some (with_suffix prefix (uuid_v5 (prefix ++ lit ":" ++ source_id)))
  | None => None
  end.

(** The call ids a pass over the items collects, by family of calls. *)
Record CallIds := { function_ids : list rstr; tool_search_ids : list rstr; custom_tool_ids : list rstr }.

Definition no_ids : CallIds := {| function_ids := []; tool_search_ids := []; custom_tool_ids := [] |}.

Definition add_function (s : CallIds) (c : rstr) : CallIds :=
  {| function_ids := c :: function_ids s; tool_search_ids := tool_search_ids s; custom_tool_ids := custom_tool_ids s |}.
Definition add_tool_search (s : CallIds) (c : rstr) : CallIds :=
  {| function_ids := function_ids s; tool_search_ids := c :: tool_search_ids s; custom_tool_ids := custom_tool_ids s |}.
Definition add_custom_tool (s : CallIds) (c : rstr) : CallIds :=
  {| function_ids := function_ids s; tool_search_ids := tool_search_ids s; custom_tool_ids := c :: custom_tool_ids s |}.

Definition collect_output_id (s : CallIds) (e : ResponseItemEnvelope) : CallIds :=
  match item e with
  | FunctionCallOutput _ (Some call_id) _ _ _ _ => add_function s call_id
  | ToolSearchOutput _ (Some call_id) _ _ _ _ => add_tool_search s call_id
  | CustomToolCallOutput _ call_id _ _ _ => add_custom_tool s call_id
  | _ => s
  end.

Definition contains_id (c : rstr) (ids : list rstr) : bool := existsb (streq c) ids.

Definition aborted_function_output (id : option rstr) (call_id : rstr) : ResponseItemEnvelope :=
  envelope_new (FunctionCallOutput (synthetic_output_id (lit "fco") id) (Some call_id) None None
                  (from_text (lit "aborted")) None).

(** The arms of the second loop: the output to insert after the item, if it is missing. *)
Definition missing_output (outputs : CallIds) (e : ResponseItemEnvelope) : res unit (option ResponseItemEnvelope) :=
  match item e with
  | FunctionCall id _ _ _ _ call_id _ =>
      if negb (contains_id call_id (function_ids outputs))
      then Ok (Some (aborted_function_output id call_id)) else Ok None
  | ToolSearchCall id (Some call_id) _ _ _ _ =>
      if negb (contains_id call_id (tool_search_ids outputs))
      then Ok (Some (envelope_new (ToolSearchOutput (synthetic_output_id (lit "tso") id) (Some call_id)
                                     (lit "completed") (lit "client") [] None)))
      else Ok None
  | CustomToolCall id _ call_id _ _ _ _ =>
      if negb (contains_id call_id (custom_tool_ids outputs))
      then error_or_panic (Ok (Some (envelope_new (CustomToolCallOutput (synthetic_output_id (lit "ctco") id) call_id
                                                     None (from_text (lit "aborted")) None))))
      else Ok None
  | LocalShellCall id (Some call_id) _ _ _ =>
      if negb (contains_id call_id (function_ids outputs))
      then error_or_panic (Ok (Some (aborted_function_output id call_id))) else Ok None
  | _ => Ok None
  end.

(** [missing_outputs_to_insert], with the index of the call. *)
Fixpoint missing_outputs (outputs : CallIds) (idx : nat) (items : list ResponseItemEnvelope)
    : res unit (list (nat * ResponseItemEnvelope)) :=
  match items with
  | [] => Ok []
  | e :: items' =>
      m ← missing_output outputs e;
      ms ← missing_outputs outputs (S idx) items';
      Ok (match m with Some o => (idx, o) :: ms | None => ms end)
  end.

(** [Vec::insert]: panics past the end. *)
Definition vec_insert {A} (at_ : nat) (x : A) (l : list A) : res unit (list A) :=
  if (length l <? at_)%nat then Panic else Ok (take at_ l ++ x :: drop at_ l).

Definition ensure_call_outputs_present (items : list ResponseItemEnvelope) : res unit (list ResponseItemEnvelope) :=
  let outputs := foldl collect_output_id no_ids items in
  missing_outputs_to_insert ← missing_outputs outputs 0 items;
  fold_res (fun items '(idx, output_item) => vec_insert (idx + 1) output_item items) items
    (reverse missing_outputs_to_insert).

Definition collect_call_id (s : CallIds) (e : ResponseItemEnvelope) : CallIds :=
  match item e with
  | FunctionCall _ _ _ _ _ call_id _ => add_function s call_id
  | LocalShellCall _ (Some call_id) _ _ _ => add_function s call_id
  | ToolSearchCall _ (Some call_id) _ _ _ _ => add_tool_search s call_id
  | CustomToolCall _ _ call_id _ _ _ _ => add_custom_tool s call_id
  | _ => s
  end.

(** The guards of the arms that push a position. *)
Definition is_orphan (calls : CallIds) (e : ResponseItemEnvelope) : bool :=
  match item e with
  | FunctionCallOutput _ (Some call_id) _ _ _ _ => negb (contains_id call_id (function_ids calls))
  | CustomToolCallOutput _ call_id _ _ _ => negb (contains_id call_id (custom_tool_ids calls))
  | ToolSearchOutput _ (Some call_id) _ execution _ _ =>
      negb (execution =s lit "server") && negb (contains_id call_id (tool_search_ids calls))
  | _ => false
  end.

Fixpoint orphan_positions (calls : CallIds) (position : nat) (items : list ResponseItemEnvelope)
    : res unit (list nat) :=
  match items with
  | [] => Ok []
  | e :: items' =>
      if is_orphan calls e then error_or_panic (ps ← orphan_positions calls (S position) items'; Ok (position :: ps))
      else orphan_positions calls (S position) items'
  end.

(** [items.retain] with the peekable positions. *)
Fixpoint retain_positions {A} (positions : list nat) (position : nat) (items : list A) : list A :=
  match items with
  | [] => []
  | x :: items' =>
      match positions with
      | p :: positions' =>
          if (p =? position)%nat then retain_positions positions' (S position) items'
          else x :: retain_positions positions (S position) items'
      | [] => x :: retain_positions [] (S position) items'
      end
  end.

Definition remove_orphan_outputs (items : list ResponseItemEnvelope) : res unit (list ResponseItemEnvelope) :=
  let calls := foldl collect_call_id no_ids items in
  positions ← orphan_positions calls 0 items;
  Ok (if is_empty positions then items else retain_positions positions 0 items).

(** [Vec::remove] of the first item that satisfies the predicate. *)
Fixpoint remove_first_matching (f : ResponseItem -> bool) (items : list ResponseItemEnvelope)
    : list ResponseItemEnvelope :=
  match items with
  | [] => []
  | e :: items' => if f (item e) then items' else e :: remove_first_matching f items'
  end.

Definition is_function_output (c : rstr) (i : ResponseItem) : bool :=
  match i with FunctionCallOutput _ (Some existing) _ _ _ _ => existing =s c | _ => false end.
Definition is_function_call (c : rstr) (i : ResponseItem) : bool :=
  match i with FunctionCall _ _ _ _ _ existing _ => existing =s c | _ => false end.
Definition is_local_shell_call (c : rstr) (i : ResponseItem) : bool :=
  match i with LocalShellCall _ (Some existing) _ _ _ => existing =s c | _ => false end.
Definition is_tool_search_output (c : rstr) (i : ResponseItem) : bool :=
  match i with ToolSearchOutput _ (Some existing) _ _ _ _ => existing =s c | _ => false end.
Definition is_tool_search_call (c : rstr) (i : ResponseItem) : bool :=
  match i with ToolSearchCall _ (Some existing) _ _ _ _ => existing =s c | _ => false end.
Definition is_custom_output (c : rstr) (i : ResponseItem) : bool :=
  match i with CustomToolCallOutput _ existing _ _ _ => existing =s c | _ => false end.
Definition is_custom_call (c : rstr) (i : ResponseItem) : bool :=
  match i with CustomToolCall _ _ existing _ _ _ _ => existing =s c | _ => false end.

Definition remove_corresponding_for (items : list ResponseItemEnvelope) (i : ResponseItem)
    : list ResponseItemEnvelope :=
  match i with
  | FunctionCall _ _ _ _ _ call_id _ => remove_first_matching (is_function_output call_id) items
  | FunctionCallOutput _ (Some call_id) _ _ _ _ =>
      if existsb (fun e => is_function_call call_id (item e)) items
      then remove_first_matching (is_function_call call_id) items
      else remove_first_matching (is_local_shell_call call_id) items
  | ToolSearchCall _ (Some call_id) _ _ _ _ => remove_first_matching (is_tool_search_output call_id) items
  | ToolSearchOutput _ (Some call_id) _ _ _ _ => remove_first_matching (is_tool_search_call call_id) items
  | CustomToolCall _ _ call_id _ _ _ _ => remove_first_matching (is_custom_output call_id) items
  | CustomToolCallOutput _ call_id _ _ _ => remove_first_matching (is_custom_call call_id) items
  | LocalShellCall _ (Some call_id) _ _ _ => remove_first_matching (is_function_output call_id) items
  | _ => items
  end.

(** ** [normalize.rs]: media *)

Inductive InputModality := Text | Image | Audio.

(** [UnsupportedMedia]: the text that replaces the content and its kind. *)
Record UnsupportedMedia := { um_text : rstr; um_content_kind : rstr }.

Definition UnsupportedMedia_IMAGE : UnsupportedMedia :=
  {| um_text := lit "image content omitted because you do not support image input";
     um_content_kind := lit "images.unsupported" |}.
Definition UnsupportedMedia_AUDIO : UnsupportedMedia :=
  {| um_text := lit "audio content omitted because you do not support audio input";
     um_content_kind := lit "audio.unsupported" |}.

(** Contents paired with their kinds, ["unknown"] when there are too few kinds. *)
Fixpoint zip_kinds (content : list ContentItem) (kinds : list rstr) : list (ContentItem * rstr) :=
  match content with
  | [] => []
  | c :: content' =>
      match kinds with
      | k :: kinds' => (c, k) :: zip_kinds content' kinds'
      | [] => (c, lit "unknown") :: zip_kinds content' []
      end
  end.

Definition default_meta : InternalChatMessageMetadataPassthrough :=
  {| turn_id := None; create_time := None; content_item_kinds := None; cell_id := None;
     executed_tool_calls := None; tool_calls_complete := None |}.

Definition set_kinds (m : InternalChatMessageMetadataPassthrough) (kinds : option (list rstr))
    : InternalChatMessageMetadataPassthrough :=
  {| turn_id := turn_id m; create_time := create_time m; content_item_kinds := kinds; cell_id := cell_id m;
     executed_tool_calls := executed_tool_calls m; tool_calls_complete := tool_calls_complete m |}.

(** The item left behind, and the content taken from it. *)
Definition to_annotated_content (i : ResponseItem) : ResponseItem * option (list (ContentItem * rstr)) :=
  match i with
  | Message id role content phase meta =>
      let kinds := default [] (m ← meta; content_item_kinds m) in
      (Message id role [] phase ((fun m => set_kinds m None) <$> meta), Some (zip_kinds content kinds))
  | _ => (i, None)
  end.

Definition set_annotated_content (i : ResponseItem) (annotated : list (ContentItem * rstr)) : ResponseItem :=
  match i with
  | Message id role _ phase meta =>
      Message id role (map fst annotated) phase (Some (set_kinds (default default_meta meta) (Some (map snd annotated))))
  | _ => i
  end.

(** Every content item that [bad] recognises is replaced by the text of [media]. *)
Definition strip_message (bad : ContentItem -> bool) (media : UnsupportedMedia) (i : ResponseItem) : ResponseItem :=
  match to_annotated_content i with
  | (i', Some content) =>
      set_annotated_content i'
        (map (fun '(c, k) => if bad c then (InputText (um_text media), um_content_kind media) else (c, k)) content)
  | (i', None) => i'
  end.

Definition strip_output (bad : FunctionCallOutputContentItem -> bool) (media : UnsupportedMedia)
    (p : FunctionCallOutputPayload) : FunctionCallOutputPayload :=
  match body p with
  | BodyText _ => p
  | BodyContentItems items =>
      {| body := BodyContentItems (map (fun c => if bad c then OutInputText (um_text media) else c) items);
         success := success p |}
  end.

Definition is_input_image (c : ContentItem) : bool := match c with InputImage _ _ => true | _ => false end.
Definition is_input_audio (c : ContentItem) : bool := match c with InputAudio _ => true | _ => false end.
Definition is_output_image (c : FunctionCallOutputContentItem) : bool :=
  match c with OutInputImage _ _ => true | _ => false end.
Definition is_output_audio (c : FunctionCallOutputContentItem) : bool :=
  match c with OutInputAudio _ => true | _ => false end.

Definition strip_image (i : ResponseItem) : ResponseItem :=
  match i with
  | Message _ _ _ _ _ => strip_message is_input_image UnsupportedMedia_IMAGE i
  | FunctionCallOutput id call_id name namespace output meta =>
      FunctionCallOutput id call_id name namespace (strip_output is_output_image UnsupportedMedia_IMAGE output) meta
  | CustomToolCallOutput id call_id name output meta =>
      CustomToolCallOutput id call_id name (strip_output is_output_image UnsupportedMedia_IMAGE output) meta
  | ImageGenerationCall id status revised_prompt _ meta => ImageGenerationCall id status revised_prompt [] meta
  | _ => i
  end.

Definition strip_audio (i : ResponseItem) : ResponseItem :=
  match i with
  | Message _ _ _ _ _ => strip_message is_input_audio UnsupportedMedia_AUDIO i
  | FunctionCallOutput id call_id name namespace output meta =>
      FunctionCallOutput id call_id name namespace (strip_output is_output_audio UnsupportedMedia_AUDIO output) meta
  | CustomToolCallOutput id call_id name output meta =>
      CustomToolCallOutput id call_id name (strip_output is_output_audio UnsupportedMedia_AUDIO output) meta
  | _ => i
  end.

Definition supports (m : InputModality) (input_modalities : list InputModality) : bool :=
  existsb (fun x => match x, m with Text, Text | Image, Image | Audio, Audio => true | _, _ => false end)
    input_modalities.

Definition map_item (f : ResponseItem -> ResponseItem) (e : ResponseItemEnvelope) : ResponseItemEnvelope :=
  {| item := f (item e); metadata := metadata e |}.

Definition strip_images_when_unsupported (input_modalities : list InputModality) (items : list ResponseItemEnvelope)
    : list ResponseItemEnvelope :=
  if supports Image input_modalities then items else map (map_item strip_image) items.

Definition strip_audio_when_unsupported (input_modalities : list InputModality) (items : list ResponseItemEnvelope)
    : list ResponseItemEnvelope :=
  if supports Audio input_modalities then items else map (map_item strip_audio) items.

(** ** [history.rs] *)

(** The evidence for reviews, the token counts, the reference context and the baseline of
    the world are those of other components; here they are only carried along. *)
Context {Review Tokens Reference Baseline : Type}.

Record ContextManager := {
  items : list ResponseItemEnvelope;
  review_history : option Review;
  history_version : Z;
  user_message_revision : Z;
  token_info : option Tokens;
  reference_context_item : option Reference;
  world_state_baseline : option Baseline;
}.

Definition set_items (self : ContextManager) (l : list ResponseItemEnvelope) (baseline : option Baseline)
    : ContextManager :=
  {| items := l; review_history := review_history self; history_version := history_version self;
     user_message_revision := user_message_revision self; token_info := token_info self;
     reference_context_item := reference_context_item self; world_state_baseline := baseline |}.

Definition normalize_history (self : ContextManager) (input_modalities : list InputModality)
    : res unit ContextManager :=
  l ← ensure_call_outputs_present (items self);
  l ← remove_orphan_outputs l;
  let l := strip_images_when_unsupported input_modalities l in
  let l := strip_audio_when_unsupported input_modalities l in
  Ok (set_items self l (world_state_baseline self)).

Definition for_prompt_annotated (self : ContextManager) (input_modalities : list InputModality)
    : res unit (list ResponseItemEnvelope) :=
  self ← normalize_history self input_modalities; Ok (items self).

Definition for_prompt (self : ContextManager) (input_modalities : list InputModality) : res unit (list ResponseItem) :=
  l ← for_prompt_annotated self input_modalities; Ok (map item l).

Definition remove_first_item (self : ContextManager) : ContextManager :=
  match items self with
  | [] => self
  | removed :: rest => set_items self (remove_corresponding_for rest (item removed)) None
  end.

(** ** Pairing, abstractly *)

Inductive Family := FFunction | FToolSearch | FCustom.

#[export] Instance Family_eq_dec : EqDecision Family.
Proof. solve_decision. Defined.

Abbreviation key := (Family * list Z)%type.

(** A call and the output that answers it have the same key; shell calls are answered
    by function outputs. *)
Definition call_key (i : ResponseItem) : option key :=
  match i with
  | FunctionCall _ _ _ _ _ c _ => Some (FFunction, c)
  | LocalShellCall _ (Some c) _ _ _ => Some (FFunction, c)
  | ToolSearchCall _ (Some c) _ _ _ _ => Some (FToolSearch, c)
  | CustomToolCall _ _ c _ _ _ _ => Some (FCustom, c)
  | _ => None
  end.

Definition output_key (i : ResponseItem) : option key :=
  match i with
  | FunctionCallOutput _ (Some c) _ _ _ _ => Some (FFunction, c)
  | ToolSearchOutput _ (Some c) _ _ _ _ => Some (FToolSearch, c)
  | CustomToolCallOutput _ c _ _ _ => Some (FCustom, c)
  | _ => None
  end.

(** Outputs of searches the server ran stand alone. *)
Definition server_output (i : ResponseItem) : bool :=
  match i with ToolSearchOutput _ _ _ execution _ _ => execution =s lit "server" | _ => false end.

Definition calls (l : list ResponseItemEnvelope) : list key := omap (fun e => call_key (item e)) l.
Definition outputs (l : list ResponseItemEnvelope) : list key := omap (fun e => output_key (item e)) l.

(** Every call has an output, and every output a call or the server behind it. *)
Definition paired (l : list ResponseItemEnvelope) : Prop :=
  (forall k, k ∈ calls l -> k ∈ outputs l) /\
  (forall e k, e ∈ l -> output_key (item e) = Some k -> server_output (item e) = false -> k ∈ calls l).

(** The output the code makes up for a call. *)
Definition synthetic (i : ResponseItem) : option ResponseItemEnvelope :=
  match i with
  | FunctionCall id _ _ _ _ c _ => Some (aborted_function_output id c)
  | LocalShellCall id (Some c) _ _ _ => Some (aborted_function_output id c)
  | ToolSearchCall id (Some c) _ _ _ _ =>
      Some (envelope_new (ToolSearchOutput (synthetic_output_id (lit "tso") id) (Some c)
                            (lit "completed") (lit "client") [] None))
  | CustomToolCall id _ c _ _ _ _ =>
      Some (envelope_new (CustomToolCallOutput (synthetic_output_id (lit "ctco") id) c None
                            (from_text (lit "aborted")) None))
  | _ => None
  end.

Definition unanswered (l : list ResponseItemEnvelope) (e : ResponseItemEnvelope) : bool :=
  match call_key (item e) with Some k => negb (bool_decide (k ∈ outputs l)) | None => false end.

Definition orphan (l : list ResponseItemEnvelope) (e : ResponseItemEnvelope) : bool :=
  match output_key (item e) with
  | Some k => negb (server_output (item e)) && negb (bool_decide (k ∈ calls l))
  | None => false
  end.

(** The calls whose missing output a debug build reports. *)
Definition reported (i : ResponseItem) : bool :=
  match i with CustomToolCall _ _ _ _ _ _ _ => true | LocalShellCall _ _ _ _ _ => true | _ => false end.

(** Every item followed by the output made up for it, if it needs one. *)
Definition answered (l : list ResponseItemEnvelope) (e : ResponseItemEnvelope) : list ResponseItemEnvelope :=
  e :: if unanswered l e then option_list (synthetic (item e)) else [].

(** The history without its orphans and with its calls answered. *)
Definition repaired (l : list ResponseItemEnvelope) : list ResponseItemEnvelope :=
  concat (map (answered l) (List.filter (fun e => negb (orphan l e)) l)).

(** ** Lemmas: pairing *)

Definition family_ids (f : Family) (s : CallIds) : list rstr :=
  match f with FFunction => function_ids s | FToolSearch => tool_search_ids s | FCustom => custom_tool_ids s end.

Lemma contains_id_spec c ids : contains_id c ids = bool_decide (c ∈ ids).
Proof.
  unfold contains_id. apply eq_true_iff_eq. rewrite existsb_exists, bool_decide_eq_true. split.
  - intros (x & Hx & Heq). bool_prop. subst. by apply list_elem_of_In.
  - intros Hc. exists c. split; [by apply list_elem_of_In|apply streq_refl].
Qed.

(** A pass that adds the keys [k] gives to the items collects exactly those. *)
Lemma collect_ids (collect : CallIds -> ResponseItemEnvelope -> CallIds) (k : ResponseItemEnvelope -> option key) l s f c :
  (forall s e, family_ids f (collect s e) =
     match k e with Some (f', c') => if decide (f' = f) then c' :: family_ids f s else family_ids f s
               | None => family_ids f s end) ->
  c ∈ family_ids f (foldl collect s l) <-> c ∈ family_ids f s \/ (f, c) ∈ omap k l.
Proof.
  intros Hk. revert s. induction l as [|e l IH]; intros s; cbn [foldl omap list_omap].
  - split; [auto|]. by intros [?|?%not_elem_of_nil].
  - rewrite IH, Hk. change (omap k (e :: l)) with (match k e with Some y => y :: omap k l | None => omap k l end).
    destruct (k e) as [[f' c']|]; [|done]. rewrite elem_of_cons. case_decide; subst; rewrite ?elem_of_cons; naive_solver.
Qed.

Lemma collect_output_ids l f c : c ∈ family_ids f (foldl collect_output_id no_ids l) <-> (f, c) ∈ outputs l.
Proof.
  rewrite (collect_ids _ (fun e => output_key (item e))).
  - split; [|auto]. intros [Hn|?]; [|done]. by destruct f; apply not_elem_of_nil in Hn.
  - intros s [i m]. destruct i as [| | | | | | |? [?|]| |?|? [?|]| | | | | |], f; done.
Qed.

Lemma collect_call_ids l f c : c ∈ family_ids f (foldl collect_call_id no_ids l) <-> (f, c) ∈ calls l.
Proof.
  rewrite (collect_ids _ (fun e => call_key (item e))).
  - split; [|auto]. intros [Hn|?]; [|done]. by destruct f; apply not_elem_of_nil in Hn.
  - intros s [i m]. destruct i as [| | | |? [?|]| |? [?|]| | | | | | | | | |], f; done.
Qed.

Lemma contains_output l f c :
  contains_id c (family_ids f (foldl collect_output_id no_ids l)) = bool_decide ((f, c) ∈ outputs l).
Proof. rewrite contains_id_spec. apply bool_decide_ext, collect_output_ids. Qed.

Lemma contains_call l f c :
  contains_id c (family_ids f (foldl collect_call_id no_ids l)) = bool_decide ((f, c) ∈ calls l).
Proof. rewrite contains_id_spec. apply bool_decide_ext, collect_call_ids. Qed.

Definition missing (l : list ResponseItemEnvelope) (e : ResponseItemEnvelope) : option ResponseItemEnvelope :=
  if unanswered l e then synthetic (item e) else None.

Lemma missing_output_spec l e :
  missing_output (foldl collect_output_id no_ids l) e =
  if debug && unanswered l e && reported (item e) then Panic else Ok (missing l e).
Proof.
  unfold missing_output, missing, unanswered, error_or_panic.
  pose proof (contains_output l FFunction) as Hf. pose proof (contains_output l FToolSearch) as Ht.
  pose proof (contains_output l FCustom) as Hc. cbn [family_ids] in Hf, Ht, Hc.
  destruct (item e) as [| | | |? [?|]| |? [?|]| | | | | | | | | |]; cbn [call_key synthetic reported];
    rewrite ?Hf, ?Ht, ?Hc, ?andb_false_r; try done.
  all: destruct (bool_decide _); cbn [negb andb]; rewrite ?andb_false_r, ?andb_true_r; by destruct debug.
Qed.

(** The calls of a history that make a debug build panic. *)
Definition panics_unanswered (l : list ResponseItemEnvelope) : bool :=
  existsb (fun e => unanswered l e && reported (item e)) l.

Definition panics_orphan (l : list ResponseItemEnvelope) : bool := existsb (orphan l) l.

(** The positions of the items that give something, counted from [n]. *)
Fixpoint positions {A B} (f : A -> option B) (n : nat) (l : list A) : list (nat * B) :=
  match l with
  | [] => []
  | x :: l' => match f x with Some y => (n, y) :: positions f (S n) l' | None => positions f (S n) l' end
  end.

Lemma missing_outputs_spec l l' n :
  missing_outputs (foldl collect_output_id no_ids l) n l' =
  if debug && existsb (fun e => unanswered l e && reported (item e)) l' then Panic
  else Ok (positions (missing l) n l').
Proof.
  revert n. induction l' as [|e l' IH]; intros n; cbn [missing_outputs existsb positions]; [by rewrite andb_false_r|].
  rewrite missing_output_spec, IH. cbn [mbind res_bind]. destruct debug; cbn [andb]; [|by destruct (missing l e)].
  destruct (unanswered l e && reported (item e)); cbn [andb orb]; [done|].
  destruct (existsb _ l'); [done|]. by destruct (missing l e).
Qed.

(** Inserting from the last position to the first puts every element after its own. *)
Lemma insert_positions {A} (f : A -> option A) pre l :
  fold_res (fun items '(idx, x) => vec_insert (idx + 1) x items) (pre ++ l) (reverse (positions f (length pre) l)) =
  Ok (pre ++ concat (map (fun x => x :: option_list (f x)) l)).
Proof.
  revert pre. induction l as [|x l IH]; intros pre; [cbn; by rewrite app_nil_r|].
  cbn [positions map concat]. specialize (IH (pre ++ [x])). rewrite length_app, Nat.add_1_r, <- (assoc_L (++)) in IH.
  cbn [app] in IH. destruct (f x) as [y|]; cbn [option_list app].
  - rewrite reverse_cons, fold_res_app, IH. cbn [mbind res_bind fold_res].
    unfold vec_insert. rewrite (proj2 (Nat.ltb_ge _ _)) by (rewrite !length_app; cbn; lia).
    cbn [mbind res_bind]. rewrite take_app_length', drop_app_length' by (rewrite length_app; cbn; lia).
    by rewrite <- !(assoc_L (++)).
  - rewrite IH. by rewrite <- (assoc_L (++)).
Qed.

Lemma ensure_spec l :
  ensure_call_outputs_present l =
  if debug && panics_unanswered l then Panic else Ok (concat (map (answered l) l)).
Proof.
  unfold ensure_call_outputs_present. rewrite missing_outputs_spec. unfold panics_unanswered.
  destruct (debug && _); [done|]. cbn [mbind res_bind].
  pose proof (insert_positions (missing l) [] l) as Hi. cbn [app length] in Hi. rewrite Hi.
  do 2 f_equal. apply map_ext. intros e. unfold missing, answered. by destruct (unanswered l e).
Qed.

Lemma is_orphan_spec l e : is_orphan (foldl collect_call_id no_ids l) e = orphan l e.
Proof.
  unfold is_orphan, orphan.
  pose proof (contains_call l FFunction) as Hf. pose proof (contains_call l FToolSearch) as Ht.
  pose proof (contains_call l FCustom) as Hc. cbn [family_ids] in Hf, Ht, Hc.
  destruct (item e) as [| | | | | | |? [?|]| |?|? [?|]| | | | | |]; cbn [output_key server_output];
    rewrite ?Hf, ?Ht, ?Hc; done.
Qed.

Definition flag (b : bool) : option unit := if b then Some tt else None.

Lemma orphan_positions_spec l l' n :
  orphan_positions (foldl collect_call_id no_ids l) n l' =
  if debug && existsb (orphan l) l' then Panic else Ok (map fst (positions (fun e => flag (orphan l e)) n l')).
Proof.
  revert n. induction l' as [|e l' IH]; intros n; cbn [orphan_positions existsb positions]; [by rewrite andb_false_r|].
  rewrite is_orphan_spec, IH. unfold error_or_panic. destruct (orphan l e); cbn [flag orb map fst].
  - by destruct debug.
  - done.
Qed.

Lemma positions_ge {A B} (f : A -> option B) n l p : p ∈ map fst (positions f n l) -> n <= p.
Proof.
  revert n. induction l as [|x l IH]; intros n; cbn [positions]; [by intros ?%not_elem_of_nil|].
  destruct (f x); cbn [map fst].
  - intros [->|Hp]%elem_of_cons; [done|]. apply IH in Hp. lia.
  - intros Hp. apply IH in Hp. lia.
Qed.

Lemma retain_positions_spec {A} (f : A -> bool) n l :
  retain_positions (map fst (positions (fun x => flag (f x)) n l)) n l = List.filter (fun x => negb (f x)) l.
Proof.
  revert n. induction l as [|x l IH]; intros n; [done|]. cbn [positions List.filter].
  destruct (f x) eqn:E; cbn [flag negb map fst retain_positions].
  - rewrite Nat.eqb_refl. apply IH.
  - specialize (IH (S n)). destruct (map fst (positions _ (S n) l)) as [|p ps] eqn:Ep; [by rewrite IH|].
    assert (S n <= p) as Hp by (apply (positions_ge (fun x => flag (f x)) (S n) l); rewrite Ep; apply list_elem_of_here).
    rewrite (proj2 (Nat.eqb_neq p n)) by lia. by rewrite IH.
Qed.

Lemma remove_orphan_spec l :
  remove_orphan_outputs l =
  if debug && panics_orphan l then Panic else Ok (List.filter (fun e => negb (orphan l e)) l).
Proof.
  unfold remove_orphan_outputs. rewrite orphan_positions_spec. unfold panics_orphan.
  destruct (debug && _); [done|]. cbn [mbind res_bind]. f_equal. rewrite <- retain_positions_spec with (n := 0).
  destruct (map fst (positions _ 0 l)) as [|p ps] eqn:E; [|done]. cbn [is_empty].
  clear E. generalize 0. induction l as [|x l IH]; intros n; [done|]. cbn. by rewrite <- IH.
Qed.

Lemma synthetic_keys i o :
  synthetic i = Some o -> output_key (item o) = call_key i /\ call_key (item o) = None /\ server_output (item o) = false.
Proof. destruct i as [| | | |? [?|]| |? [?|]| | | | | | | | | |]; intros [= <-]; done. Qed.

Lemma call_synthetic i k : call_key i = Some k -> exists o, synthetic i = Some o /\ output_key (item o) = Some k.
Proof. destruct i as [| | | |? [?|]| |? [?|]| | | | | | | | | |]; intros [= <-]; by eexists. Qed.

Lemma call_not_output i k : call_key i = Some k -> output_key i = None.
Proof. by destruct i as [| | | |? [?|]| |? [?|]| | | | | | | | | |]. Qed.

Lemma calls_app a b : calls (a ++ b) = calls a ++ calls b.
Proof. apply omap_app. Qed.

Lemma outputs_app a b : outputs (a ++ b) = outputs a ++ outputs b.
Proof. apply omap_app. Qed.

Lemma elem_of_calls l k : k ∈ calls l <-> exists e, e ∈ l /\ call_key (item e) = Some k.
Proof. apply list_elem_of_omap. Qed.

Lemma elem_of_outputs l k : k ∈ outputs l <-> exists e, e ∈ l /\ output_key (item e) = Some k.
Proof. apply list_elem_of_omap. Qed.

Lemma calls_answered l e : calls (answered l e) = calls [e].
Proof.
  unfold answered. change (e :: ?x) with ([e] ++ x). rewrite calls_app.
  destruct (unanswered l e); [|apply app_nil_r]. destruct (synthetic (item e)) as [o|] eqn:E; [|apply app_nil_r].
  apply synthetic_keys in E as (_ & Hc & _). unfold calls at 2. cbn. rewrite Hc. apply app_nil_r.
Qed.

Lemma calls_concat_answered l l' : calls (concat (map (answered l) l')) = calls l'.
Proof.
  induction l' as [|e l' IH]; [done|]. cbn [map concat]. rewrite calls_app, calls_answered, IH.
  by rewrite <- calls_app.
Qed.

Lemma orphan_calls l l' e : calls l = calls l' -> orphan l e = orphan l' e.
Proof. unfold orphan. by intros ->. Qed.

Lemma filter_answered l e :
  e ∈ l ->
  List.filter (fun e => negb (orphan l e)) (answered l e) = if orphan l e then [] else answered l e.
Proof.
  intros He. unfold answered. cbn [List.filter]. destruct (orphan l e) eqn:Eo; cbn [negb].
  - unfold orphan in Eo. destruct (output_key (item e)) as [k|] eqn:Ek; [|done].
    assert (unanswered l e = false) as ->; [|done]. unfold unanswered.
    destruct (call_key (item e)) as [k'|] eqn:Ec; [|done]. apply call_not_output in Ec. congruence.
  - f_equal. destruct (unanswered l e) eqn:Eu; [|done]. destruct (synthetic (item e)) as [o|] eqn:Es; [|done].
    change (option_list (Some o)) with [o]. cbn [List.filter]. apply synthetic_keys in Es as (Hk & _ & Hs).
    assert (orphan l o = false) as ->; [|done]. unfold orphan. rewrite Hk, Hs. unfold unanswered in Eu.
    destruct (call_key (item e)) as [k|] eqn:Ec; [|done]. rewrite bool_decide_true; [done|].
    apply elem_of_calls. by exists e.
Qed.

Lemma repaired_spec l :
  List.filter (fun e => negb (orphan (concat (map (answered l) l)) e)) (concat (map (answered l) l)) = repaired l.
Proof.
  unfold repaired.
  rewrite (List.filter_ext _ (fun e => negb (orphan l e)))
    by (intros e; by rewrite (orphan_calls _ l) by apply calls_concat_answered).
  assert (forall l', (forall e, e ∈ l' -> e ∈ l) ->
    List.filter (fun e => negb (orphan l e)) (concat (map (answered l) l')) =
    concat (map (answered l) (List.filter (fun e => negb (orphan l e)) l'))) as H; [|by apply H].
  induction l' as [|e l' IH]; intros Hl; [done|]. cbn [map concat]. rewrite List.filter_app, filter_answered, IH.
  - cbn [List.filter]. by destruct (orphan l e).
  - intros x Hx. apply Hl. by apply list_elem_of_further.
  - apply Hl, list_elem_of_here.
Qed.

Lemma elem_of_repaired l x :
  x ∈ repaired l <->
  (x ∈ l /\ orphan l x = false) \/ (exists e, e ∈ l /\ unanswered l e = true /\ synthetic (item e) = Some x).
Proof.
  unfold repaired. rewrite list_elem_of_In, in_concat. split.
  - intros (la & Hla & Hx). apply in_map_iff in Hla as (e & <- & He). apply filter_In in He as [He Ho].
    apply list_elem_of_In in He. bool_prop. unfold answered in Hx. destruct Hx as [->|Hx]; [by left|].
    right. exists e. destruct (unanswered l e); [|done]. destruct (synthetic (item e)); [|done].
    destruct Hx as [->|[]]. done.
  - intros [[Hx Ho]|(e & He & Hu & Hs)].
    + exists (answered l x). split; [|by left]. apply in_map, filter_In. split; [by apply list_elem_of_In|].
      by rewrite Ho.
    + exists (answered l e). unfold answered. rewrite Hu, Hs. split; [|right; by left].
      apply in_map_iff. exists e. rewrite Hu, Hs. split; [done|]. apply filter_In. split; [by apply list_elem_of_In|].
      unfold unanswered in Hu. destruct (call_key (item e)) as [k|] eqn:Ec; [|done].
      unfold orphan. by rewrite (call_not_output _ _ Ec).
Qed.

Lemma calls_repaired l k : k ∈ calls (repaired l) <-> k ∈ calls l.
Proof.
  rewrite !elem_of_calls. split.
  - intros (x & Hx & Hk). apply elem_of_repaired in Hx as [[Hx _]|(e & He & _ & Hs)]; [by exists x|].
    apply synthetic_keys in Hs as (_ & Hc & _). congruence.
  - intros (e & He & Hk). exists e. split; [|done]. apply elem_of_repaired. left. split; [done|].
    unfold orphan. by rewrite (call_not_output _ _ Hk).
Qed.

Lemma repaired_paired l : paired (repaired l).
Proof.
  split.
  - intros k Hk. apply (proj1 (calls_repaired l k)) in Hk. destruct (proj1 (elem_of_calls l k) Hk) as (e & He & Hc).
    apply elem_of_outputs.
    destruct (bool_decide_reflect (k ∈ outputs l)) as [(o & Ho & Hok)%elem_of_outputs|Hno].
    + exists o. split; [|done]. apply elem_of_repaired. left. split; [done|].
      unfold orphan. rewrite Hok, (bool_decide_true (k ∈ calls l)) by exact Hk. apply andb_false_r.
    + destruct (call_synthetic _ _ Hc) as (o & Hs & Hok). exists o. split; [|done].
      apply elem_of_repaired. right. exists e. split_and!; [done| |done].
      unfold unanswered. by rewrite Hc, bool_decide_false.
  - intros x k Hx Hok Hs. apply (proj2 (calls_repaired l k)). apply elem_of_repaired in Hx as [[Hx Ho]|(e & He & Hu & Hsy)].
    + unfold orphan in Ho. rewrite Hok, Hs in Ho. cbn in Ho. apply negb_false_iff, bool_decide_eq_true in Ho. done.
    + apply synthetic_keys in Hsy as (Hk & _ & _). apply elem_of_calls. exists e. split; [done|]. congruence.
Qed.

(** Nothing changes in a history whose calls and outputs are paired. *)
Lemma paired_repaired l : paired l -> repaired l = l.
Proof.
  intros [Hc Ho]. unfold repaired.
  assert (forall l', (forall e, e ∈ l' -> e ∈ l) ->
    concat (map (answered l) (List.filter (fun e => negb (orphan l e)) l')) = l') as H; [|by apply H].
  induction l' as [|e l' IH]; intros Hl; [done|]. cbn [List.filter].
  assert (e ∈ l) as He by apply Hl, list_elem_of_here.
  assert (orphan l e = false) as ->.
  { unfold orphan. destruct (output_key (item e)) as [k|] eqn:Ek; [|done].
    destruct (server_output (item e)) eqn:Es; [done|]. cbn. rewrite bool_decide_true; [done|]. by eapply Ho. }
  cbn [negb map concat]. rewrite IH by (intros x Hx; by apply Hl, list_elem_of_further).
  assert (answered l e = [e]) as ->; [|done]. unfold answered, unanswered.
  destruct (call_key (item e)) as [k|] eqn:Ek; [|done]. rewrite bool_decide_true; [done|].
  apply Hc, elem_of_calls. by exists e.
Qed.

(** ** Lemmas: media *)

(** The kinds of a message's contents are all there. *)
Definition annotated (i : ResponseItem) : Prop :=
  match i with
  | Message _ _ content _ meta =>
      exists m kinds, meta = Some m /\ content_item_kinds m = Some kinds /\ length kinds = length content
  | _ => True
  end.

(** No content that is recognised is left. *)
Definition media_free (bad : ContentItem -> bool) (bad_out : FunctionCallOutputContentItem -> bool)
    (i : ResponseItem) : Prop :=
  let output_free p :=
    match body p with BodyText _ => True | BodyContentItems items => Forall (fun c => bad_out c = false) items end in
  match i with
  | Message _ _ content _ _ => Forall (fun c => bad c = false) content
  | FunctionCallOutput _ _ _ _ output _ => output_free output
  | CustomToolCallOutput _ _ _ output _ => output_free output
  | _ => True
  end.

Definition image_result_free (i : ResponseItem) : Prop :=
  match i with ImageGenerationCall _ _ _ result _ => result = [] | _ => True end.

Definition image_free (i : ResponseItem) : Prop :=
  media_free is_input_image is_output_image i /\ image_result_free i.

Definition audio_free (i : ResponseItem) : Prop := media_free is_input_audio is_output_audio i.

Lemma zip_kinds_pairs l : zip_kinds (map fst l) (map snd l) = l.
Proof. induction l as [|[c k] l IH]; cbn; [done|]. by rewrite IH. Qed.

Lemma zip_kinds_parts content kinds :
  length kinds = length content ->
  map fst (zip_kinds content kinds) = content /\ map snd (zip_kinds content kinds) = kinds.
Proof.
  revert kinds. induction content as [|c content IH]; intros [|k kinds] Hl; cbn in *; try done.
  destruct (IH kinds) as [H1 H2]; [lia|]. by rewrite H1, H2.
Qed.

Lemma map_id_Forall {A} (f : A -> A) l : Forall (fun x => f x = x) l -> map f l = l.
Proof. induction 1 as [|x l Hx _ IH]; cbn; [done|]. by rewrite Hx, IH. Qed.

Lemma zip_kinds_fst content kinds : map fst (zip_kinds content kinds) = content.
Proof. revert kinds. induction content as [|c content IH]; intros [|k kinds]; cbn; try done; by rewrite IH. Qed.

(** What a pass leaves of a message, whatever it replaces by text. *)
Definition replaced (bad : ContentItem -> bool) (media : UnsupportedMedia) (c : ContentItem) : ContentItem :=
  if bad c then InputText (um_text media) else c.

Lemma strip_message_content bad media id role content phase meta :
  exists meta', strip_message bad media (Message id role content phase meta) =
    Message id role (map (replaced bad media) content) phase meta' /\
    annotated (Message id role (map (replaced bad media) content) phase meta').
Proof.
  unfold strip_message. cbn [to_annotated_content set_annotated_content].
  set (kinds := default [] _). eexists. rewrite map_map.
  assert (map (fun x => fst (let '(c, k) := x in
      if bad c then (InputText (um_text media), um_content_kind media) else (c, k))) (zip_kinds content kinds) =
    map (replaced bad media) content) as ->.
  { rewrite <- (zip_kinds_fst content kinds) at 2. rewrite map_map. apply map_ext. intros [c k].
    unfold replaced. cbn. by destruct (bad c). }
  split; [done|]. cbn. eexists _, _. split_and!; [done|done|]. rewrite !length_map.
  rewrite <- (zip_kinds_fst content kinds) at 2. by rewrite length_map.
Qed.

(** A message without such content and with all its kinds is left alone. *)
Lemma strip_message_id bad media id role content phase meta :
  Forall (fun c => bad c = false) content -> annotated (Message id role content phase meta) ->
  strip_message bad media (Message id role content phase meta) = Message id role content phase meta.
Proof.
  intros Hc (m & kinds & -> & Hk & Hl). unfold strip_message. cbn [to_annotated_content mbind option_bind].
  rewrite Hk. cbn [default set_annotated_content fmap option_fmap option_map].
  destruct (zip_kinds_parts content kinds Hl) as [H1 H2].
  rewrite map_id_Forall.
  - unfold Datatypes.id. rewrite H1, H2. do 2 f_equal. destruct m; cbn in *. by subst.
  - unfold Datatypes.id. rewrite <- H1 in Hc. apply Forall_map in Hc. eapply Forall_impl; [exact Hc|]. intros [c k]; cbn. by intros ->.
Qed.

Lemma strip_output_id bad media p :
  match body p with BodyText _ => True | BodyContentItems items => Forall (fun c => bad c = false) items end ->
  strip_output bad media p = p.
Proof.
  unfold strip_output. destruct p as [[t|l] s]; cbn; [done|]. intros Hl. rewrite map_id_Forall; [done|].
  eapply Forall_impl; [exact Hl|]. by intros c ->.
Qed.

Lemma strip_output_free bad bad' media p :
  (forall t, bad' (OutInputText t) = false) ->
  (bad' = bad \/ match body p with BodyText _ => True | BodyContentItems l => Forall (fun c => bad' c = false) l end) ->
  match body (strip_output bad media p) with
  | BodyText _ => True
  | BodyContentItems items => Forall (fun c => bad' c = false) items
  end.
Proof.
  intros Ht. unfold strip_output. destruct p as [[t|l] s]; cbn; [done|]. intros Hb. apply Forall_map, Forall_forall.
  intros c Hc. destruct (bad c) eqn:E; [apply Ht|]. destruct Hb as [->|Hl]; [done|].
  by eapply Forall_forall in Hl.
Qed.

Lemma replaced_free bad bad' media content :
  (forall t, bad' (InputText t) = false) ->
  (bad' = bad \/ Forall (fun c => bad' c = false) content) ->
  Forall (fun c => bad' c = false) (map (replaced bad media) content).
Proof.
  intros Ht Hb. apply Forall_map, Forall_forall. intros c Hc. unfold replaced.
  destruct (bad c) eqn:E; [apply Ht|]. destruct Hb as [->|Hl]; [done|]. by eapply Forall_forall in Hl.
Qed.

Lemma strip_image_free i : image_free (strip_image i) /\ annotated (strip_image i).
Proof.
  unfold image_free, media_free. destruct i; cbn [strip_image image_result_free annotated]; try done.
  - edestruct strip_message_content as (meta' & -> & Ha). split_and!; [|done|done]. apply replaced_free; auto.
  - split_and!; [|done|done]. apply strip_output_free; auto.
  - split_and!; [|done|done]. apply strip_output_free; auto.
Qed.

Lemma strip_audio_free i : audio_free (strip_audio i) /\ annotated (strip_audio i).
Proof.
  unfold audio_free, media_free. destruct i; cbn [strip_audio annotated]; try done.
  - edestruct strip_message_content as (meta' & -> & Ha). split_and!; [|done]. apply replaced_free; auto.
  - split_and!; [|done]. apply strip_output_free; auto.
  - split_and!; [|done]. apply strip_output_free; auto.
Qed.

(** Text in place of audio brings no image back. *)
Lemma strip_audio_image_free i : image_free i -> image_free (strip_audio i).
Proof.
  unfold image_free, media_free. destruct i; cbn [strip_audio image_result_free]; try done; intros [Hi _].
  - edestruct strip_message_content as (meta' & -> & Ha). split; [|done]. apply replaced_free; auto.
  - split; [|done]. apply strip_output_free; auto.
  - split; [|done]. apply strip_output_free; auto.
Qed.

Lemma strip_image_id i : image_free i -> annotated i -> strip_image i = i.
Proof.
  intros [Hf Hr] Ha. destruct i; cbn [strip_image image_result_free media_free] in *; try done.
  - by apply strip_message_id.
  - by rewrite strip_output_id.
  - by rewrite strip_output_id.
  - by rewrite Hr.
Qed.

Lemma strip_audio_id i : audio_free i -> annotated i -> strip_audio i = i.
Proof.
  intros Hf Ha. destruct i; unfold audio_free in *; cbn [strip_audio media_free] in *; try done.
  - by apply strip_message_id.
  - by rewrite strip_output_id.
  - by rewrite strip_output_id.
Qed.

(** Both passes on one item. *)
Definition strip_item (mods : list InputModality) (i : ResponseItem) : ResponseItem :=
  let i := if supports Image mods then i else strip_image i in
  if supports Audio mods then i else strip_audio i.

Lemma strip_items mods l :
  strip_audio_when_unsupported mods (strip_images_when_unsupported mods l) = map (map_item (strip_item mods)) l.
Proof.
  unfold strip_audio_when_unsupported, strip_images_when_unsupported, strip_item.
  destruct (supports Image mods), (supports Audio mods); rewrite ?map_map; try (apply map_ext; by intros []); try done.
  rewrite <- (map_id l) at 1. apply map_ext. by intros [].
Qed.

Lemma strip_item_free mods i :
  (supports Image mods = false -> image_free (strip_item mods i)) /\
  (supports Audio mods = false -> audio_free (strip_item mods i)).
Proof.
  unfold strip_item. destruct (supports Image mods), (supports Audio mods); split; try done; intros _.
  - apply strip_audio_free.
  - apply strip_image_free.
  - apply strip_audio_image_free, strip_image_free.
  - apply strip_audio_free.
Qed.

Lemma strip_item_idemp mods i : strip_item mods (strip_item mods i) = strip_item mods i.
Proof.
  destruct (strip_item_free mods i) as [Hi Ha]. unfold strip_item at 1.
  destruct (supports Image mods) eqn:Ei, (supports Audio mods) eqn:Ea; try done.
  - apply strip_audio_id; [by apply Ha|]. unfold strip_item. rewrite Ei, Ea. apply strip_audio_free.
  - apply strip_image_id; [by apply Hi|]. unfold strip_item. rewrite Ei, Ea. apply strip_image_free.
  - assert (annotated (strip_item mods i)) as Han by (unfold strip_item; rewrite Ei, Ea; apply strip_audio_free).
    rewrite (strip_image_id (strip_item mods i)); [apply strip_audio_id|..]; auto.
Qed.

Lemma strip_item_keys mods i :
  call_key (strip_item mods i) = call_key i /\ output_key (strip_item mods i) = output_key i /\
  server_output (strip_item mods i) = server_output i.
Proof. unfold strip_item. destruct (supports Image mods), (supports Audio mods); by destruct i. Qed.

Lemma calls_strip mods l : calls (map (map_item (strip_item mods)) l) = calls l.
Proof.
  unfold calls. induction l as [|e l IH]; cbn; [done|]. rewrite IH.
  by rewrite (proj1 (strip_item_keys mods (item e))).
Qed.

Lemma outputs_strip mods l : outputs (map (map_item (strip_item mods)) l) = outputs l.
Proof.
  unfold outputs. induction l as [|e l IH]; cbn; [done|]. rewrite IH.
  by rewrite (proj1 (proj2 (strip_item_keys mods (item e)))).
Qed.

Lemma paired_strip mods l : paired l -> paired (map (map_item (strip_item mods)) l).
Proof.
  unfold paired. rewrite calls_strip, outputs_strip. intros [Hc Ho]. split; [done|].
  intros e k He Hk Hs. apply list_elem_of_In, in_map_iff in He as (e' & <- & He). cbn [map_item item] in *.
  destruct (strip_item_keys mods (item e')) as (_ & H2 & H3). rewrite H2 in Hk. rewrite H3 in Hs.
  apply (Ho e' k); [by apply list_elem_of_In|done|done].
Qed.

(** ** Lemmas: removal *)

Definition keyed (g : ResponseItem -> option key) (k : key) (i : ResponseItem) : bool := bool_decide (g i = Some k).

Lemma remove_first_ext (f g : ResponseItem -> bool) l :
  (forall e, e ∈ l -> f (item e) = g (item e)) -> remove_first_matching f l = remove_first_matching g l.
Proof.
  induction l as [|e l IH]; intros H; [done|]. cbn [remove_first_matching].
  rewrite (H e), IH; [done| |apply list_elem_of_here]. intros x Hx. by apply H, list_elem_of_further.
Qed.

Lemma remove_first_subset f l e : e ∈ remove_first_matching f l -> e ∈ l.
Proof.
  induction l as [|x l IH]; [done|]. cbn [remove_first_matching]. case_match; rewrite !elem_of_cons; [auto|].
  intros [->|?]; auto.
Qed.

Lemma remove_first_length f l : length (remove_first_matching f l) <= length l.
Proof. induction l as [|x l IH]; cbn; [done|]. destruct (f (item x)); cbn; lia. Qed.

(** Removing the item of a key removes that key and no other. *)
Lemma remove_first_key g k l :
  let keys := omap (fun e => g (item e)) in
  NoDup (keys l) ->
  NoDup (keys (remove_first_matching (keyed g k) l)) /\
  forall k', k' ∈ keys (remove_first_matching (keyed g k) l) <-> k' ∈ keys l /\ k' ≠ k.
Proof.
  cbn zeta. induction l as [|e l IH]; [split; [done|]; intros k'; split; [by intros ?%not_elem_of_nil|by intros [?%not_elem_of_nil _]]|].
  cbn [remove_first_matching]. unfold keyed at 1 3.
  change (omap ?f (e :: l)) with (match g (item e) with Some y => y :: omap f l | None => omap f l end).
  destruct (bool_decide_reflect (g (item e) = Some k)) as [Hk|Hk].
  - rewrite Hk. intros [Hn Hd]%NoDup_cons. split; [done|]. intros k'. rewrite elem_of_cons. split; [|naive_solver].
    intros Hk'. split; [by right|]. by intros ->.
  - destruct (g (item e)) as [k0|] eqn:Eg.
    + intros [Hn Hd]%NoDup_cons. destruct (IH Hd) as [Hd' Hel].
      change (omap ?f (e :: ?r)) with (match g (item e) with Some y => y :: omap f r | None => omap f r end). rewrite Eg.
      split.
      * apply NoDup_cons. split; [|done]. rewrite Hel. naive_solver.
      * intros k'. rewrite !elem_of_cons, Hel. naive_solver.
    + intros Hd. change (omap ?f (e :: ?r)) with (match g (item e) with Some y => y :: omap f r | None => omap f r end).
      rewrite Eg. by apply IH.
Qed.

Lemma remove_first_other (g h : ResponseItem -> option key) k l :
  (forall i k, g i = Some k -> h i = None) ->
  omap (fun e => h (item e)) (remove_first_matching (keyed g k) l) = omap (fun e => h (item e)) l.
Proof.
  intros Hgh. induction l as [|e l IH]; [done|]. cbn [remove_first_matching]. unfold keyed at 1.
  destruct (bool_decide_reflect (g (item e) = Some k)) as [Hk|Hk]; cbn; [by rewrite (Hgh _ _ Hk)|by rewrite IH].
Qed.

Lemma output_not_call i k : output_key i = Some k -> call_key i = None.
Proof. by destruct i as [| | | | | | |? [?|]| |?|? [?|]| | | | | |]. Qed.

Lemma family_key_eqb f c c' : streq c c' = bool_decide (Some (f, c) = Some (f : Family, c')).
Proof. unfold streq. apply bool_decide_ext. split; congruence. Qed.

(** The counterpart of a call is the output with its key. *)
Lemma corresponding_call l i k :
  call_key i = Some k -> remove_corresponding_for l i = remove_first_matching (keyed output_key k) l.
Proof.
  destruct i as [| | | |? [?|]| |? [?|]| | | | | | | | | |]; intros [= <-]; cbn [remove_corresponding_for];
    apply remove_first_ext; intros [i' m] _; unfold keyed; cbn [item];
    destruct i' as [| | | | | | |? [?|]| |?|? [?|]| | | | | |]; cbn; try apply family_key_eqb; symmetry;
    apply bool_decide_eq_false; congruence.
Qed.

Lemma calls_unique l e e' k :
  NoDup (calls l) -> e ∈ l -> e' ∈ l -> call_key (item e) = Some k -> call_key (item e') = Some k -> e = e'.
Proof.
  induction l as [|x l IH]; intros Hd He He' Hk Hk'; [by apply not_elem_of_nil in He|].
  change (calls (x :: l)) with (match call_key (item x) with Some y => y :: calls l | None => calls l end) in Hd.
  assert (forall y, y ∈ l -> call_key (item y) = Some k -> call_key (item x) ≠ Some k) as Hx.
  { intros y Hy Hyk Hxk. rewrite Hxk in Hd. apply NoDup_cons in Hd as [Hn _]. apply Hn, elem_of_calls. by exists y. }
  apply elem_of_cons in He as [->|He], He' as [->|He']; [done|by destruct (Hx e')|by destruct (Hx e)|].
  apply IH; try done. destruct (call_key (item x)); [by apply NoDup_cons in Hd as [_ ?]|done].
Qed.

(** The counterpart of an output is the call with its key, when no two calls share it. *)
Lemma corresponding_output l i k :
  NoDup (calls l) -> output_key i = Some k ->
  remove_corresponding_for l i = remove_first_matching (keyed call_key k) l.
Proof.
  intros Hd. destruct i as [| | | | | | |? [c|]| |?|? [?|]| | | | | |]; intros [= <-]; cbn [remove_corresponding_for].
  2-3: apply remove_first_ext; intros [i' m] _; unfold keyed; cbn [item];
    destruct i' as [| | | |? [?|]| |? [?|]| | | | | | | | | |]; cbn; try apply family_key_eqb; symmetry;
    apply bool_decide_eq_false; congruence.
  destruct (existsb _ l) eqn:Ex; apply remove_first_ext; intros e He; unfold keyed.
  - apply existsb_exists in Ex as (e0 & He0 & Hc0). apply list_elem_of_In in He0.
    assert (call_key (item e0) = Some (FFunction, c)) as Hk0.
    { destruct (item e0); try done. cbn in *. bool_prop. by subst. }
    destruct (item e) as [| | | |? [c'|]| |? [?|]| | | | | | | | | |] eqn:Ei; cbn; try apply family_key_eqb;
      symmetry; apply bool_decide_eq_false; try congruence.
    intros [= ->]. rewrite (calls_unique l e0 e (FFunction, c)) in Hc0; try done; rewrite Ei in *; done.
  - assert (is_function_call c (item e) = false) as Hn.
    { apply not_true_is_false. intros Hc. rewrite <- not_true_iff_false in Ex. apply Ex, existsb_exists.
      exists e. split; [by apply list_elem_of_In|done]. }
    destruct (item e) as [| | | |? [c'|]| |? [?|]| | | | | | | | | |]; cbn in *; try apply family_key_eqb;
      symmetry; apply bool_decide_eq_false; bool_prop; congruence.
Qed.

(** No two calls, and no two outputs, share a key. *)
Definition distinct (l : list ResponseItemEnvelope) : Prop := NoDup (calls l) /\ NoDup (outputs l).

Lemma calls_cons e l : calls (e :: l) = match call_key (item e) with Some k => k :: calls l | None => calls l end.
Proof. done. Qed.

Lemma outputs_cons e l :
  outputs (e :: l) = match output_key (item e) with Some k => k :: outputs l | None => outputs l end.
Proof. done. Qed.

Lemma remove_call_paired e l k :
  call_key (item e) = Some k -> distinct (e :: l) -> paired (e :: l) ->
  let l' := remove_first_matching (keyed output_key k) l in distinct l' /\ paired l'.
Proof.
  intros Hk [Hdc Hdo] [Hc Ho]. rewrite calls_cons, Hk in Hdc, Hc. rewrite outputs_cons, (call_not_output _ _ Hk) in Hdo, Hc.
  apply NoDup_cons in Hdc as [Hkc Hdc]. destruct (remove_first_key output_key k l Hdo) as [Hdo' Hel]. cbn zeta.
  pose proof (remove_first_other output_key call_key k l output_not_call) as Hcalls.
  fold (calls l) in Hcalls. fold (calls (remove_first_matching (keyed output_key k) l)) in Hcalls.
  split; [split; [by rewrite Hcalls|done]|]. split.
  - intros k' Hk'. rewrite Hcalls in Hk'. apply Hel. split; [apply Hc; by right|]. by intros ->.
  - intros x k' Hx Hxk Hs. rewrite Hcalls.
    assert (k' ≠ k) as Hne by (apply Hel, elem_of_outputs; by exists x).
    specialize (Ho x k'). rewrite calls_cons, Hk in Ho.
    apply elem_of_cons in Ho as [?|?]; try done. by right; apply remove_first_subset in Hx.
Qed.

Lemma remove_output_paired e l k :
  output_key (item e) = Some k -> distinct (e :: l) -> paired (e :: l) ->
  let l' := remove_first_matching (keyed call_key k) l in distinct l' /\ paired l'.
Proof.
  intros Hk [Hdc Hdo] [Hc Ho]. rewrite calls_cons, (output_not_call _ _ Hk) in Hdc, Hc. rewrite outputs_cons, Hk in Hdo, Hc.
  apply NoDup_cons in Hdo as [Hko Hdo]. destruct (remove_first_key call_key k l Hdc) as [Hdc' Hel]. cbn zeta.
  pose proof (remove_first_other call_key output_key k l call_not_output) as Houts.
  fold (outputs l) in Houts. fold (outputs (remove_first_matching (keyed call_key k) l)) in Houts.
  split; [split; [done|by rewrite Houts]|]. split.
  - intros k' [Hk' Hne]%Hel. rewrite Houts. specialize (Hc k' Hk'). apply elem_of_cons in Hc as [?|?]; done.
  - intros x k' Hx Hxk Hs. apply Hel. apply remove_first_subset in Hx. split.
    + specialize (Ho x k'). rewrite calls_cons, (output_not_call _ _ Hk) in Ho. apply Ho; try done. by right.
    + intros ->. apply Hko, elem_of_outputs. by exists x.
Qed.

Lemma corresponding_none l i : call_key i = None -> output_key i = None -> remove_corresponding_for l i = l.
Proof. by destruct i as [| | | |? [?|]| |? [?|]|? [?|]| |?|? [?|]| | | | | |]. Qed.

Lemma remove_other_paired e l :
  call_key (item e) = None -> output_key (item e) = None -> distinct (e :: l) -> paired (e :: l) ->
  distinct l /\ paired l.
Proof.
  intros Hc Ho. unfold distinct, paired. rewrite calls_cons, outputs_cons, Hc, Ho. intros Hd [Hcalls Houts].
  split_and!; [apply Hd..|done|]. intros x k Hx. apply Houts. by right.
Qed.

(** ** Lemmas: the whole pass *)

Lemma panics_orphan_answered l : panics_orphan (concat (map (answered l) l)) = panics_orphan l.
Proof.
  unfold panics_orphan. apply eq_true_iff_eq. rewrite !existsb_exists. split.
  - intros (x & Hx & Ho). rewrite (orphan_calls _ l) in Ho by apply calls_concat_answered.
    apply in_concat in Hx as (la & Hla & Hx). apply in_map_iff in Hla as (e & <- & He).
    exists e. split; [done|]. pose proof (filter_answered l e (proj2 (list_elem_of_In _ _) He)) as Hf.
    destruct (orphan l e); [done|]. exfalso.
    assert (In x (List.filter (fun e => negb (orphan l e)) (answered l e))) as Hin by (by rewrite Hf).
    apply filter_In in Hin as [_ Hin]. by rewrite Ho in Hin.
  - intros (x & Hx & Ho). exists x. rewrite (orphan_calls _ l) by apply calls_concat_answered. split; [|done].
    apply in_concat. exists (answered l x). split; [by apply in_map|by left].
Qed.

(** The histories on which a debug build panics. *)
Definition reported_history (l : list ResponseItemEnvelope) : bool := panics_unanswered l || panics_orphan l.

Definition normalized (self : ContextManager) (mods : list InputModality) : ContextManager :=
  set_items self (map (map_item (strip_item mods)) (repaired (items self))) (world_state_baseline self).

Lemma normalize_history_spec self mods :
  normalize_history self mods =
  if debug && reported_history (items self) then Panic else Ok (normalized self mods).
Proof.
  unfold normalize_history, reported_history. rewrite ensure_spec. destruct (panics_unanswered (items self)) eqn:Eu.
  - destruct debug eqn:Ed; cbn [andb orb mbind res_bind]; [done|].
    rewrite remove_orphan_spec, Ed. cbn [andb mbind res_bind]. by rewrite repaired_spec, strip_items.
  - rewrite andb_false_r. cbn [mbind res_bind orb]. rewrite remove_orphan_spec, panics_orphan_answered.
    destruct (debug && panics_orphan (items self)); [done|]. cbn [mbind res_bind].
    by rewrite repaired_spec, strip_items.
Qed.

Lemma paired_not_reported l : paired l -> reported_history l = false.
Proof.
  intros [Hc Ho]. unfold reported_history, panics_unanswered, panics_orphan. apply orb_false_iff. split.
  - apply not_true_is_false. intros (e & He & Hb)%existsb_exists. apply list_elem_of_In in He. bool_prop.
    unfold unanswered in *. destruct (call_key (item e)) as [k|] eqn:Ek; [|done].
    rewrite bool_decide_true in *; [done|]. apply Hc, elem_of_calls. by exists e.
  - apply not_true_is_false. intros (e & He & Hb)%existsb_exists. apply list_elem_of_In in He.
    unfold orphan in Hb. destruct (output_key (item e)) as [k|] eqn:Ek; [|done]. bool_prop. by eapply Ho in Ek.
Qed.

End Items.

(** ** Theorems *)

(** C40. The history sent to the model: normalisation answers every call that lacks an
    output, right after the call, and drops every output without a call unless the
    server ran it; the result is paired, holds no image and no audio the model does
    not take, differs from a paired history by that alone, and normalising it again
    changes nothing. A release build never panics; a debug build panics exactly on
    histories with an orphan output or an unanswered custom or shell call. *)
Theorem normalize_history_pairs {Opaque Review Tokens Reference Baseline : Type} debug uuid_v5
  (self : @ContextManager Opaque Review Tokens Reference Baseline) mods :
  let result := normalized uuid_v5 self mods in
  normalize_history debug uuid_v5 self mods =
    (if debug && reported_history (items self) then Panic else Ok result) /\
  paired (items result) /\
  (forall e, e ∈ items result ->
    (supports Image mods = false -> image_free (item e)) /\ (supports Audio mods = false -> audio_free (item e))) /\
  (paired (items self) -> items result = map (map_item (strip_item mods)) (items self)) /\
  normalize_history debug uuid_v5 result mods = Ok result.
Proof.
  cbn zeta. assert (paired (items (normalized uuid_v5 self mods))) as Hp by apply paired_strip, repaired_paired.
  split_and!; [apply normalize_history_spec|done| | |].
  - intros e He. apply list_elem_of_In, in_map_iff in He as (e' & <- & _). apply strip_item_free.
  - intros Hs. cbn [normalized set_items items]. by rewrite paired_repaired.
  - rewrite normalize_history_spec, (paired_not_reported _ Hp), andb_false_r. unfold normalized.
    rewrite (paired_repaired _ _ Hp). cbn [normalized set_items items]. rewrite map_map. f_equal. unfold set_items. f_equal.
    apply map_ext. intros e. unfold map_item. cbn. by rewrite strip_item_idemp.
Qed.

(** Dropping the oldest item of a paired history in which no two calls and no two
    outputs share an id also drops its counterpart, so that the history stays paired
    without another pass. *)
Theorem remove_first_item_pairs {Opaque Review Tokens Reference Baseline : Type}
  (self : @ContextManager Opaque Review Tokens Reference Baseline) :
  paired (items self) -> distinct (items self) ->
  paired (items (remove_first_item self)) /\ distinct (items (remove_first_item self)) /\
  length (items (remove_first_item self)) <= length (items self) - 1.
Proof.
  intros Hp Hd. unfold remove_first_item. destruct (items self) as [|e l] eqn:El; [by rewrite El|].
  cbn [set_items items length].
  pose proof (@remove_first_length Opaque) as Hlen.
  destruct (call_key (item e)) as [k|] eqn:Hc; [|destruct (output_key (item e)) as [k|] eqn:Ho].
  - rewrite (corresponding_call l _ k) by done. pose proof (Hlen (keyed output_key k) l).
    destruct (remove_call_paired e l k Hc Hd Hp). split_and!; [done..|lia].
  - assert (NoDup (calls l)) by (destruct Hd as [Hd _]; by rewrite calls_cons, Hc in Hd).
    rewrite (corresponding_output l _ k) by done. pose proof (Hlen (keyed call_key k) l).
    destruct (remove_output_paired e l k Ho Hd Hp). split_and!; [done..|lia].
  - rewrite corresponding_none by done. destruct (remove_other_paired e l Hc Ho Hd Hp). split_and!; [done..|lia].
Qed.

(** ** Witness *)

Module HistoryDemo.

Definition call : @ResponseItemEnvelope unit :=
  envelope_new (FunctionCall None (lit "shell") None (lit "{}") None (lit "c1") None).
Definition output : @ResponseItemEnvelope unit :=
  envelope_new (FunctionCallOutput None (Some (lit "c1")) None None (from_text (lit "ok")) None).
Definition said : @ResponseItemEnvelope unit :=
  envelope_new (Message None (lit "user") [InputText (lit "hi")] None None).

Definition history : @ContextManager unit unit unit unit unit :=
  {| items := [call; said; output]; review_history := None; history_version := 0; user_message_revision := 0;
     token_info := None; reference_context_item := None; world_state_baseline := None |}.

(** An unanswered call is answered in place. *)
Example aborted_call :
  for_prompt (Review := unit) (Tokens := unit) (Reference := unit) (Baseline := unit) false (fun s => s)
    {| items := [call; said]; review_history := None; history_version := 0; user_message_revision := 0;
       token_info := None; reference_context_item := None; world_state_baseline := None |} [Text; Image; Audio] =
  Ok [item call; FunctionCallOutput None (Some (lit "c1")) None None (from_text (lit "aborted")) None; item said].
Proof. reflexivity. Qed.

End HistoryDemo.

Lemma remove_first_item_pairs_witness :
  paired (items (remove_first_item HistoryDemo.history)) /\
  items (remove_first_item HistoryDemo.history) = [HistoryDemo.said].
Proof.
  split; [|reflexivity]. apply (remove_first_item_pairs HistoryDemo.history).
  - split.
    + intros k Hk. exact Hk.
    + intros e k He Hk _. repeat (apply elem_of_cons in He as [-> | He]; [cbn in Hk; try discriminate Hk; injection Hk as <-; apply list_elem_of_here|]).
      by apply not_elem_of_nil in He.
  - split; apply (bool_decide_unpack _); vm_compute; reflexivity.
Defined.
