(* ===== verification/Truncation.v ===== *)
(** * Truncation of output to a budget

    Models [workx-rs/utils/string/src/truncate.rs] (cutting the middle out of a string
    on character boundaries), [workx-rs/utils/output-truncation/src/lib.rs] (the
    budgets of tool outputs, text and media) and [TruncationPolicy] of
    [protocol/src/protocol.rs]. Offsets are byte offsets here; a slice that is not on a
    character boundary panics, and the theorems show that none does. The estimate of
    the tokens of an audio item is a parameter, as it is in the code. *)
From S2P Require Import Prelude Width History.

Set Default Goal Selector "!".

Open Scope Z_scope.

(** ** [utils/string/src/truncate.rs] *)

Definition APPROX_BYTES_PER_TOKEN : Z := 4.

Definition approx_token_count (text : rstr) : Z :=
  saturating_add (byte_len text) (saturating_sub APPROX_BYTES_PER_TOKEN 1) / APPROX_BYTES_PER_TOKEN.

Definition approx_bytes_for_tokens (tokens : Z) : Z := saturating_mul tokens APPROX_BYTES_PER_TOKEN.

Definition approx_tokens_from_byte_count (bytes : Z) : Z :=
  saturating_add bytes (saturating_sub APPROX_BYTES_PER_TOKEN 1) / APPROX_BYTES_PER_TOKEN.

(** The variables of the loop of [split_string]. *)
Record Split := { prefix_end : Z; suffix_start : Z; removed_chars : Z; suffix_started : bool }.

Definition split_step (beginning_bytes tail_start_target : Z) (st : Split) (ic : Z * char) : Split :=
  let '(idx, ch) := ic in
  let char_end := idx + len_utf8 ch in
  if char_end <=? beginning_bytes then
    {| prefix_end := char_end; suffix_start := suffix_start st; removed_chars := removed_chars st;
       suffix_started := suffix_started st |}
  else if tail_start_target <=? idx then
    if negb (suffix_started st) then
      {| prefix_end := prefix_end st; suffix_start := idx; removed_chars := removed_chars st;
         suffix_started := true |}
    else st
  else
    {| prefix_end := prefix_end st; suffix_start := suffix_start st;
       removed_chars := saturating_add (removed_chars st) 1; suffix_started := suffix_started st |}.

Definition split_string (s : rstr) (beginning_bytes end_bytes : Z) : res Empty_set (Z * rstr * rstr) :=
  if is_empty s then Ok (0, [], [])
  else
    let len := byte_len s in
    let tail_start_target := saturating_sub len end_bytes in
    let st := foldl (split_step beginning_bytes tail_start_target)
                {| prefix_end := 0; suffix_start := len; removed_chars := 0; suffix_started := false |}
                (char_indices s) in
    let suffix_start :=
      if suffix_start st <? prefix_end st then prefix_end st else suffix_start st in
    '(before, _) ← split_at_byte (prefix_end st) s;
    '(_, after) ← split_at_byte suffix_start s;
    Ok (removed_chars st, before, after).

Definition split_budget (budget : Z) : Z * Z :=
  let left := budget / 2 in (left, budget - left).

(** U+2026, the ellipsis. *)
Definition ELLIPSIS : char := 8230.

Definition format_truncation_marker (use_tokens : bool) (removed_count : Z) : rstr :=
  if use_tokens then [ELLIPSIS] ++ dec removed_count ++ lit " tokens truncated" ++ [ELLIPSIS]
  else [ELLIPSIS] ++ dec removed_count ++ lit " chars truncated" ++ [ELLIPSIS].

Definition removed_units (use_tokens : bool) (removed_bytes removed_chars : Z) : Z :=
  if use_tokens then approx_tokens_from_byte_count removed_bytes else removed_chars.

Definition assemble_truncated_output (prefix suffix marker : rstr) : rstr := prefix ++ marker ++ suffix.

Definition truncate_with_byte_estimate (s : rstr) (max_bytes : Z) (use_tokens : bool) : res Empty_set rstr :=
  if is_empty s then Ok []
  else
    let total_chars := Z.of_nat (length s) in
    if max_bytes =? 0 then
      Ok (format_truncation_marker use_tokens (removed_units use_tokens (byte_len s) total_chars))
    else if byte_len s <=? max_bytes then Ok s
    else
      let total_bytes := byte_len s in
      let '(left_budget, right_budget) := split_budget max_bytes in
      '(removed_chars, left_, right_) ← split_string s left_budget right_budget;
      let marker := format_truncation_marker use_tokens
                      (removed_units use_tokens (saturating_sub total_bytes max_bytes) removed_chars) in
      Ok (assemble_truncated_output left_ right_ marker).

Definition truncate_middle_chars (s : rstr) (max_bytes : Z) : res Empty_set rstr :=
  truncate_with_byte_estimate s max_bytes false.

Definition truncate_middle_with_token_budget (s : rstr) (max_tokens : Z)
    : res Empty_set (rstr * option Z) :=
  if is_empty s then Ok ([], None)
  else if (0 <? max_tokens) && (byte_len s <=? approx_bytes_for_tokens max_tokens) then Ok (s, None)
  else
    truncated ← truncate_with_byte_estimate s (approx_bytes_for_tokens max_tokens) true;
    let total_tokens := approx_token_count s in
    Ok (if streq truncated s then (truncated, None) else (truncated, Some total_tokens)).

(** ** [protocol/src/protocol.rs]: [TruncationPolicy] *)

Inductive TruncationPolicy := Bytes (bytes : Z) | Tokens (tokens : Z).

Definition token_budget (self : TruncationPolicy) : Z :=
  match self with
  | Bytes bytes => approx_tokens_from_byte_count bytes
  | Tokens tokens => tokens
  end.

Definition byte_budget (self : TruncationPolicy) : Z :=
  match self with
  | Bytes bytes => bytes
  | Tokens tokens => approx_bytes_for_tokens tokens
  end.

(** ** [utils/output-truncation/src/lib.rs] *)

Definition truncate_text (content : rstr) (policy : TruncationPolicy) : res Empty_set rstr :=
  match policy with
  | Bytes bytes => truncate_middle_chars content bytes
  | Tokens tokens => fst <$> truncate_middle_with_token_budget content tokens
  end.

Definition formatted_truncate_text (content : rstr) (policy : TruncationPolicy) : res Empty_set rstr :=
  if byte_len content <=? byte_budget policy then Ok content
  else
    let original_token_count := approx_token_count content in
    let total_lines := Z.of_nat (length (str_lines content)) in
    result ← truncate_text content policy;
    Ok (lit "Warning: truncated output (original token count: " ++ dec original_token_count ++ lit ")" ++ [NL]
          ++ lit "Total output lines: " ++ dec total_lines ++ [NL; NL] ++ result).

Definition approx_tokens_from_byte_count_i64 (bytes : Z) : Z :=
  if bytes <=? 0 then 0 else Z.min (approx_tokens_from_byte_count bytes) I64_MAX.

Section Payload.
Context {Opaque : Type}.
Abbreviation OutItem := (FunctionCallOutputContentItem (Opaque := Opaque)).

Definition text_of (i : OutItem) : option rstr :=
  match i with OutInputText text => Some text | _ => None end.

Definition not_text (i : OutItem) : bool := match i with OutInputText _ => false | _ => true end.

(** The loop that joins the text segments. *)
Definition push_segment (combined text : rstr) : rstr :=
  (if is_empty combined then combined else combined ++ [NL]) ++ text.

Definition formatted_truncate_text_content_items_with_policy (items : list OutItem) (policy : TruncationPolicy)
    : res Empty_set (list OutItem * option Z) :=
  let text_segments := omap text_of items in
  if is_empty text_segments then Ok (items, None)
  else
    let combined := foldl push_segment [] text_segments in
    if byte_len combined <=? byte_budget policy then Ok (items, None)
    else
      let original_token_count := approx_token_count combined in
      text ← formatted_truncate_text combined policy;
      Ok (OutInputText text :: List.filter not_text items, Some original_token_count).

Variable estimate_audio_token_count : rstr -> Z.

(** The variables of the loop of [truncate_function_output_items_with_policy]. *)
Record Budget := {
  out : list OutItem;
  remaining_budget : Z;
  omitted_text_items : Z;
  omitted_audio_items : Z;
}.

Definition text_cost (policy : TruncationPolicy) (text : rstr) : Z :=
  match policy with Bytes _ => byte_len text | Tokens _ => approx_token_count text end.

Definition audio_cost (policy : TruncationPolicy) (audio_url : rstr) : Z :=
  let token_cost := estimate_audio_token_count audio_url in
  match policy with Bytes _ => approx_bytes_for_tokens token_cost | Tokens _ => token_cost end.

Definition with_budget (policy : TruncationPolicy) (n : Z) : TruncationPolicy :=
  match policy with Bytes _ => Bytes n | Tokens _ => Tokens n end.

Definition item_step (policy : TruncationPolicy) (st : Budget) (i : OutItem) : res Empty_set Budget :=
  let push o rem :=
    {| out := out st ++ [o]; remaining_budget := rem;
       omitted_text_items := omitted_text_items st; omitted_audio_items := omitted_audio_items st |} in
  match i with
  | OutInputText text =>
      if is_empty text then Ok st
      else if remaining_budget st =? 0 then
        Ok {| out := out st; remaining_budget := remaining_budget st;
              omitted_text_items := omitted_text_items st + 1; omitted_audio_items := omitted_audio_items st |}
      else
        let cost := text_cost policy text in
        if cost <=? remaining_budget st
        then Ok (push (OutInputText text) (saturating_sub (remaining_budget st) cost))
        else
          snippet ← truncate_text text (with_budget policy (remaining_budget st));
          if is_empty snippet
          then Ok {| out := out st; remaining_budget := 0;
                     omitted_text_items := omitted_text_items st + 1;
                     omitted_audio_items := omitted_audio_items st |}
          else Ok (push (OutInputText snippet) 0)
  | OutInputImage image_url detail => Ok (push (OutInputImage image_url detail) (remaining_budget st))
  | OutInputAudio audio_url =>
      let cost := audio_cost policy audio_url in
      if cost <=? remaining_budget st
      then Ok (push (OutInputAudio audio_url) (saturating_sub (remaining_budget st) cost))
      else Ok {| out := out st; remaining_budget := remaining_budget st;
                 omitted_text_items := omitted_text_items st;
                 omitted_audio_items := omitted_audio_items st + 1 |}
  | EncryptedContent encrypted_content => Ok (push (EncryptedContent encrypted_content) (remaining_budget st))
  end.

Definition omitted_marker (n : Z) (what : string) : list OutItem :=
  if 0 <? n then [OutInputText (lit "[omitted " ++ dec n ++ lit what ++ lit " items ...]")] else [].

Definition initial_budget (policy : TruncationPolicy) : Z :=
  match policy with Bytes _ => byte_budget policy | Tokens _ => token_budget policy end.

Definition truncate_function_output_items_with_policy (items : list OutItem) (policy : TruncationPolicy)
    : res Empty_set (list OutItem) :=
  st ← fold_res (item_step policy)
         {| out := []; remaining_budget := initial_budget policy; omitted_text_items := 0; omitted_audio_items := 0 |}
         items;
  Ok (out st ++ omitted_marker (omitted_text_items st) " text" ++ omitted_marker (omitted_audio_items st) " audio").

Definition truncate_function_output_payload (output : FunctionCallOutputPayload (Opaque := Opaque))
    (policy : TruncationPolicy) : res Empty_set FunctionCallOutputPayload :=
  match body output with
  | BodyText text =>
      text ← truncate_text text policy; Ok {| body := BodyText text; success := success output |}
  | BodyContentItems items =>
      items ← truncate_function_output_items_with_policy items policy;
      Ok {| body := BodyContentItems items; success := success output |}
  end.

End Payload.

(** ** Cutting a string on character boundaries *)

(** [cut s b e l m r]: [l] is the longest prefix of [s] of at most [b] bytes, [r] the
    longest suffix of the rest of at most [e] bytes, and [m] is what is between. *)
Definition cut (s : rstr) (b e : Z) (l m r : rstr) : Prop :=
  s = l ++ m ++ r /\
  (byte_len l <= b /\ forall c t, m ++ r = c :: t -> b < byte_len l + len_utf8 c) /\
  (byte_len r <= e /\ forall t c, m = t ++ [c] -> e < len_utf8 c + byte_len r).

Lemma longest_prefix s n : 0 <= n -> exists a b,
  s = a ++ b /\ byte_len a <= n /\ forall c t, b = c :: t -> n < byte_len a + len_utf8 c.
Proof.
  revert n. induction s as [|d s IH]; intros n Hn; [by exists [], []|].
  destruct (Z_le_gt_dec (len_utf8 d) n) as [Hd|Hd].
  - destruct (IH (n - len_utf8 d)) as (a & b & -> & Ha & Hb); [lia|].
    exists (d :: a), b. split; [done|]. simpl. split; [lia|].
    intros c t Ht. specialize (Hb c t Ht). lia.
  - exists [], (d :: s). split; [done|]. split; [done|]. simpl. intros c t [= <- <-]. lia.
Qed.

Lemma longest_suffix s n : 0 <= n -> exists a b,
  s = a ++ b /\ byte_len b <= n /\ forall t c, a = t ++ [c] -> n < len_utf8 c + byte_len b.
Proof.
  intros Hn. induction s as [|d s (a & b & -> & Hb & Ha)].
  - exists [], []. split; [done|]. split; [done|]. intros t c Ht. by destruct t.
  - destruct (Z_le_gt_dec (byte_len (d :: a ++ b)) n) as [Hd|Hd].
    + exists [], (d :: a ++ b). split; [done|]. split; [done|]. intros t c Ht. by destruct t.
    + exists (d :: a), b. split; [done|]. split; [done|].
      intros t c Ht. destruct t as [|x t]; simplify_eq/=.
      * lia.
      * by apply (Ha t).
Qed.

Lemma cut_exists s b e : 0 <= b -> 0 <= e -> exists l m r, cut s b e l m r.
Proof.
  intros Hb He. destruct (longest_prefix s b Hb) as (l & t & -> & Hl & Hl').
  destruct (longest_suffix t e He) as (m & r & -> & Hr & Hr').
  exists l, m, r. by split.
Qed.

Section Loop.
Variables (b target : Z).
Abbreviation run := (foldl (split_step b target)).

Lemma run_prefix st at_ l :
  prefix_end st = at_ -> at_ + byte_len l <= b ->
  run st (char_indices_from at_ l) =
    {| prefix_end := at_ + byte_len l; suffix_start := suffix_start st; removed_chars := removed_chars st;
       suffix_started := suffix_started st |}.
Proof.
  revert st at_. induction l as [|c l IH]; intros st at_ Hst Hb; simpl in *.
  - destruct st; simpl in *. f_equal. lia.
  - pose proof (byte_len_nonneg l). rewrite (proj2 (Z.leb_le (at_ + len_utf8 c) b)) by lia.
    rewrite IH by (simpl; lia). simpl. f_equal. lia.
Qed.

(** The positions that are neither in the prefix nor in the suffix. *)
Lemma run_middle st at_ m :
  Forall (fun ic => b < ic.1 + len_utf8 ic.2 /\ ic.1 < target) (char_indices_from at_ m) ->
  0 <= removed_chars st -> removed_chars st + Z.of_nat (length m) <= USIZE_MAX ->
  run st (char_indices_from at_ m) =
    {| prefix_end := prefix_end st; suffix_start := suffix_start st;
       removed_chars := removed_chars st + Z.of_nat (length m); suffix_started := suffix_started st |}.
Proof.
  revert st at_. induction m as [|c m IH]; intros st at_ HF H0 Hmax; simpl in *.
  - destruct st; simpl. f_equal. lia.
  - apply Forall_cons in HF as [[Hc Ht] HF]. simpl in *.
    rewrite (proj2 (Z.leb_gt (at_ + len_utf8 c) b)), (proj2 (Z.leb_gt target at_)) by lia.
    unfold saturating_add. rewrite IH; simpl; [f_equal; lia|done|lia|lia].
Qed.

Lemma run_suffix st at_ r :
  Forall (fun ic => b < ic.1 + len_utf8 ic.2 /\ target <= ic.1) (char_indices_from at_ r) ->
  run st (char_indices_from at_ r) =
    if negb (is_empty r) && negb (suffix_started st) then
      {| prefix_end := prefix_end st; suffix_start := at_; removed_chars := removed_chars st;
         suffix_started := true |}
    else st.
Proof.
  revert st at_. induction r as [|c r IH]; intros st at_ HF; simpl in *; [done|].
  apply Forall_cons in HF as [[Hc Ht] HF]. simpl in *.
  rewrite (proj2 (Z.leb_gt (at_ + len_utf8 c) b)), (proj2 (Z.leb_le target at_)) by lia.
  destruct (suffix_started st) eqn:E; simpl; rewrite IH by done; simpl.
  - by rewrite E, andb_false_r.
  - by rewrite andb_false_r.
Qed.
End Loop.

(** Where a position lies in [a ++ c :: b], from the bytes before and after it. *)
Lemma char_indices_Forall (P : Z -> char -> Prop) at_ s :
  (forall a c t, s = a ++ c :: t -> P (at_ + byte_len a) c) ->
  Forall (fun ic => P ic.1 ic.2) (char_indices_from at_ s).
Proof.
  revert at_. induction s as [|c s IH]; intros at_ H; simpl; [constructor|]. constructor.
  - simpl. specialize (H [] c s eq_refl). simpl in H. by rewrite Z.add_0_r in H.
  - apply IH. intros a d t ->. specialize (H (c :: a) d t eq_refl). simpl in H.
    by rewrite Z.add_assoc in H.
Qed.

Lemma last_split {A} (t : list A) c : exists a d, c :: t = a ++ [d].
Proof.
  revert c. induction t as [|x t IH]; intros c; [by exists [], c|].
  destruct (IH x) as (a & d & E). exists (c :: a), d. simpl. by rewrite E.
Qed.

Lemma cut_middle_positions s b e l m r :
  0 <= e -> cut s b e l m r ->
  Forall (fun ic => b < ic.1 + len_utf8 ic.2 /\ ic.1 < saturating_sub (byte_len s) e)
    (char_indices_from (byte_len l) m).
Proof.
  intros He (-> & (_ & Hl) & (_ & Hr)).
  apply (char_indices_Forall (fun i c => b < i + len_utf8 c /\ i < saturating_sub _ e)).
  intros a c t ->. split.
  - destruct a as [|d a].
    + specialize (Hl c (t ++ r) eq_refl). simpl. lia.
    + specialize (Hl d (a ++ c :: t ++ r)). rewrite <- app_assoc in Hl. specialize (Hl eq_refl). simpl.
      pose proof (byte_len_nonneg a). pose proof (len_utf8_bounds c). lia.
  - destruct (last_split t c) as (t' & d & E). specialize (Hr (a ++ t') d).
    rewrite E, app_assoc in Hr. specialize (Hr eq_refl).
    assert (byte_len (c :: t) = byte_len t' + len_utf8 d) as Hlen.
    { rewrite E, byte_len_app. simpl. lia. }
    unfold saturating_sub. rewrite !byte_len_app, Hlen. pose proof (byte_len_nonneg t'). lia.
Qed.

Lemma cut_suffix_positions s b e l m r :
  cut s b e l m r ->
  Forall (fun ic => b < ic.1 + len_utf8 ic.2 /\ saturating_sub (byte_len s) e <= ic.1)
    (char_indices_from (byte_len (l ++ m)) r).
Proof.
  intros (-> & (_ & Hl) & (Hr & _)).
  apply (char_indices_Forall (fun i c => b < i + len_utf8 c /\ saturating_sub _ e <= i)).
  intros a c t ->. split.
  - destruct (m ++ a) as [|d u] eqn:E.
    + apply app_nil in E as [-> ->]. specialize (Hl c t eq_refl). rewrite byte_len_app. simpl. lia.
    + specialize (Hl d (u ++ c :: t)). rewrite app_assoc, E in Hl. specialize (Hl eq_refl).
      apply (f_equal byte_len) in E. rewrite byte_len_app in E. simpl in E. rewrite byte_len_app.
      pose proof (byte_len_nonneg u). pose proof (len_utf8_bounds c). lia.
  - unfold saturating_sub. autorewrite with rstr in *. pose proof (byte_len_nonneg l).
    pose proof (byte_len_nonneg m). pose proof (byte_len_nonneg a). lia.
Qed.

(** The loop computes the cut, and neither slice panics. *)
Lemma split_string_cut s b e l m r :
  str_ok s -> 0 <= b -> 0 <= e -> cut s b e l m r ->
  split_string s b e = Ok (Z.of_nat (length m), l, r).
Proof.
  intros Hs Hb He Hcut. pose proof (cut_middle_positions _ _ _ _ _ _ He Hcut) as Hm.
  pose proof (cut_suffix_positions _ _ _ _ _ _ Hcut) as Hr.
  destruct Hcut as (Es & (Hl & _) & _). unfold split_string.
  destruct (is_empty s) eqn:Hemp.
  { apply is_empty_true in Hemp. rewrite Hemp in Es. symmetry in Es.
    apply app_nil in Es as [-> Es]. by apply app_nil in Es as [-> ->]. }
  unfold char_indices. replace (char_indices_from 0 s) with (char_indices_from 0 (l ++ m ++ r)) by (by rewrite <- Es).
  rewrite !char_indices_from_app, !foldl_app, Z.add_0_l.
  rewrite (run_prefix _ _ _ _ l) by (simpl; lia). simpl. rewrite (run_middle _ _ _ _ m); simpl; [|done..|].
  2:{ pose proof (byte_len_length m). unfold str_ok in Hs. rewrite Es, !byte_len_app in Hs.
      pose proof (byte_len_nonneg l). pose proof (byte_len_nonneg r).
      unfold USIZE_MAX, I64_MAX in *. lia. }
  rewrite <- byte_len_app, run_suffix by done. simpl.
  assert (byte_len s = byte_len (l ++ m) + byte_len r) as Hlen by (rewrite Es, app_assoc; apply byte_len_app).
  assert (byte_len l <= byte_len (l ++ m)) by (rewrite byte_len_app; pose proof (byte_len_nonneg m); lia).
  set (st := if negb (is_empty r) && _ then _ else _).
  assert (prefix_end st = byte_len l /\ suffix_start st = byte_len (l ++ m) /\
          removed_chars st = Z.of_nat (length m)) as (-> & -> & ->).
  { subst st. destruct r as [|c r]; simpl in *; [|done]. split; [done|split; [lia|done]]. }
  rewrite (proj2 (Z.ltb_ge (byte_len (l ++ m)) (byte_len l))) by done.
  rewrite Es at 1. rewrite split_at_byte_app. simpl.
  rewrite Es, app_assoc, split_at_byte_app. done.
Qed.

(** ** The truncated string *)

Definition MARKER_MAX : Z := 43.

Lemma marker_bytes use_tokens n : 0 <= n -> byte_len (format_truncation_marker use_tokens n) <= MARKER_MAX.
Proof.
  intros Hn. pose proof (byte_len_dec n Hn). unfold format_truncation_marker, MARKER_MAX.
  destruct use_tokens; rewrite !byte_len_app.
  - change (byte_len [ELLIPSIS]) with 3. change (byte_len (lit " tokens truncated")) with 17. lia.
  - change (byte_len [ELLIPSIS]) with 3. change (byte_len (lit " chars truncated")) with 16. lia.
Qed.

Lemma removed_units_nonneg use_tokens a b : 0 <= a -> 0 <= b -> 0 <= removed_units use_tokens a b.
Proof.
  intros Ha Hb. unfold removed_units, approx_tokens_from_byte_count. destruct use_tokens; [|done].
  apply Z.div_pos; [|done]. unfold saturating_add, saturating_sub, USIZE_MAX, APPROX_BYTES_PER_TOKEN. lia.
Qed.

(** What [truncate_with_byte_estimate] returns, on each of its branches. *)
Inductive truncated_as (s : rstr) (max_bytes : Z) (use_tokens : bool) : rstr -> Prop :=
| truncated_whole : byte_len s <= max_bytes -> truncated_as s max_bytes use_tokens s
| truncated_cut l m r :
    max_bytes < byte_len s ->
    cut s (max_bytes / 2) (max_bytes - max_bytes / 2) l m r ->
    truncated_as s max_bytes use_tokens
      (l ++ format_truncation_marker use_tokens
              (removed_units use_tokens (byte_len s - max_bytes) (Z.of_nat (length m))) ++ r).

Lemma cut_zero s : cut s 0 0 [] s [].
Proof.
  split; [by rewrite app_nil_r|]. split; (split; [done|]); intros; simpl; pose proof (len_utf8_bounds c); lia.
Qed.

Lemma truncate_with_byte_estimate_spec s max_bytes use_tokens :
  str_ok s -> 0 <= max_bytes ->
  exists out, truncate_with_byte_estimate s max_bytes use_tokens = Ok out /\ truncated_as s max_bytes use_tokens out.
Proof.
  intros Hs Hmax. unfold truncate_with_byte_estimate. destruct (is_empty s) eqn:Hemp.
  { apply is_empty_true in Hemp as ->. eexists; split; [done|]. by constructor. }
  apply is_empty_false in Hemp. pose proof (byte_len_pos s Hemp).
  destruct (Z.eqb_spec max_bytes 0) as [->|Hne].
  { eexists; split; [done|].
    pose proof (truncated_cut s 0 use_tokens [] s [] ltac:(lia) (cut_zero s)) as H'. simpl in H'.
    by rewrite app_nil_r, Z.sub_0_r in H'. }
  destruct (Z.leb_spec (byte_len s) max_bytes); [eexists; split; [done|by constructor]|]. simpl.
  assert (0 <= max_bytes / 2 <= max_bytes) by (Z.to_euclidean_division_equations; lia).
  destruct (cut_exists s (max_bytes / 2) (max_bytes - max_bytes / 2)) as (l & m & r & Hcut); [lia..|].
  rewrite (split_string_cut _ _ _ l m r) by (done || lia). simpl.
  eexists; split; [done|]. unfold assemble_truncated_output, saturating_sub. rewrite Z.max_l by lia.
  by apply truncated_cut.
Qed.

Lemma truncated_as_bound s max_bytes use_tokens out :
  0 <= max_bytes -> truncated_as s max_bytes use_tokens out -> byte_len out <= max_bytes + MARKER_MAX.
Proof.
  intros Hmax [Hle|l m r Hlt (-> & (Hl & _) & (Hr & _))]; [unfold MARKER_MAX; lia|].
  rewrite !byte_len_app in *.
  match goal with |- context [format_truncation_marker _ ?n] => pose proof (marker_bytes use_tokens n) as Hm end.
  pose proof (removed_units_nonneg use_tokens (byte_len l + (byte_len m + byte_len r) - max_bytes) (Z.of_nat (length m))).
  lia.
Qed.

(** ** Policies *)

(** A policy whose limit is a [usize]. *)
Definition policy_ok (policy : TruncationPolicy) : Prop :=
  match policy with Bytes n | Tokens n => usize n end.

Definition is_tokens (policy : TruncationPolicy) : bool :=
  match policy with Bytes _ => false | Tokens _ => true end.

Lemma byte_budget_nonneg policy : policy_ok policy -> 0 <= byte_budget policy.
Proof.
  destruct policy as [n|n]; unfold policy_ok, usize, byte_budget, approx_bytes_for_tokens, saturating_mul,
    APPROX_BYTES_PER_TOKEN, USIZE_MAX; lia.
Qed.

Lemma approx_token_count_ceil text : str_ok text -> approx_token_count text = (byte_len text + 3) / 4.
Proof.
  intros H. unfold str_ok, I64_MAX in H. pose proof (byte_len_nonneg text).
  unfold approx_token_count, saturating_add, saturating_sub, APPROX_BYTES_PER_TOKEN, USIZE_MAX.
  rewrite Z.min_l by lia. done.
Qed.

Lemma truncate_middle_with_token_budget_spec s max_tokens :
  str_ok s -> usize max_tokens ->
  exists out, truncate_middle_with_token_budget s max_tokens =
      Ok (out, if streq out s then None else Some (approx_token_count s)) /\
    truncated_as s (approx_bytes_for_tokens max_tokens) true out.
Proof.
  intros Hs Hmax. pose proof (byte_budget_nonneg (Tokens max_tokens) Hmax) as Hb. simpl in Hb.
  unfold truncate_middle_with_token_budget. destruct (is_empty s) eqn:Hemp.
  { apply is_empty_true in Hemp as ->. exists []. split; [done|]. by apply truncated_whole. }
  case_match eqn:Efit.
  { bool_prop. exists s. rewrite streq_refl. split; [done|]. by apply truncated_whole. }
  destruct (truncate_with_byte_estimate_spec s (approx_bytes_for_tokens max_tokens) true) as (out & -> & Hout); [done..|].
  exists out. simpl. split; [by case_match|done].
Qed.

Lemma truncate_text_as content policy :
  str_ok content -> policy_ok policy ->
  exists out, truncate_text content policy = Ok out /\
    truncated_as content (byte_budget policy) (is_tokens policy) out.
Proof.
  intros Hc Hp. destruct policy as [n|n]; simpl.
  - apply truncate_with_byte_estimate_spec; [done|apply Hp].
  - destruct (truncate_middle_with_token_budget_spec content n Hc Hp) as (out & -> & Hout).
    by exists out.
Qed.

(** ** The budget of a list of items *)

Section Items.
Context {Opaque : Type}.
Variable estimate_audio_token_count : rstr -> Z.
Abbreviation OutItem := (FunctionCallOutputContentItem (Opaque := Opaque)).
Implicit Types (items : list OutItem).

(** Items that are never omitted, in the order of the list. *)
Definition is_media (i : OutItem) : bool :=
  match i with OutInputImage _ _ | EncryptedContent _ => true | _ => false end.
Definition is_audio (i : OutItem) : bool := match i with OutInputAudio _ => true | _ => false end.
Definition nonempty_text (i : OutItem) : bool :=
  match i with OutInputText text => negb (is_empty text) | _ => false end.

Definition count (p : OutItem -> bool) items : Z := Z.of_nat (length (List.filter p items)).

(** The bytes of all texts of a list. *)
Definition text_bytes items : Z := foldr (fun t n => byte_len t + n) 0 (omap text_of items).

(** What an item costs of the budget. *)
Definition item_cost (policy : TruncationPolicy) (i : OutItem) : Z :=
  match i with
  | OutInputText text => text_cost policy text
  | OutInputAudio audio_url => audio_cost estimate_audio_token_count policy audio_url
  | _ => 0
  end.

Definition total_cost policy items : Z := foldr (fun i n => item_cost policy i + n) 0 items.

(** Bytes in a unit of the budget. *)
Definition unit_bytes (policy : TruncationPolicy) : Z :=
  match policy with Bytes _ => 1 | Tokens _ => APPROX_BYTES_PER_TOKEN end.

Definition items_ok items : Prop :=
  Forall (fun i => match i with OutInputText text => str_ok text | _ => True end) items.

Hypothesis estimate_nonneg : forall url, 0 <= estimate_audio_token_count url.

Lemma text_bytes_app a b : text_bytes (a ++ b) = text_bytes a + text_bytes b.
Proof.
  unfold text_bytes. rewrite omap_app. induction (omap text_of a) as [|t l IH]; [done|]. simpl. lia.
Qed.

Lemma total_cost_app policy a b : total_cost policy (a ++ b) = total_cost policy a + total_cost policy b.
Proof. induction a as [|i a IH]; [done|]. simpl. lia. Qed.

Lemma count_snoc p items i : count p (items ++ [i]) = count p items + (if p i then 1 else 0).
Proof. unfold count. rewrite List.filter_app, length_app. simpl. case_match; simpl; lia. Qed.

Lemma filter_snoc (p : OutItem -> bool) items i :
  List.filter p (items ++ [i]) = List.filter p items ++ (if p i then [i] else []).
Proof. by rewrite List.filter_app. Qed.

Lemma item_cost_nonneg policy i : 0 <= item_cost policy i.
Proof using estimate_nonneg.
  destruct i as [t| |u|], policy; simpl; try done; try apply byte_len_nonneg; try apply estimate_nonneg.
  - apply Z.div_pos; [|done]. pose proof (byte_len_nonneg t).
    unfold saturating_add, saturating_sub, APPROX_BYTES_PER_TOKEN, USIZE_MAX. lia.
  - pose proof (estimate_nonneg u).
    unfold audio_cost, approx_bytes_for_tokens, saturating_mul, APPROX_BYTES_PER_TOKEN, USIZE_MAX. lia.
Qed.

Lemma total_cost_nonneg policy items : 0 <= total_cost policy items.
Proof using estimate_nonneg.
  induction items as [|i items IH]; [done|]. simpl. pose proof (item_cost_nonneg policy i). lia.
Qed.

(** A text is never longer than its cost. *)
Lemma text_cost_covers policy text : str_ok text -> byte_len text <= unit_bytes policy * text_cost policy text.
Proof.
  intros H. destruct policy; simpl; [lia|]. rewrite approx_token_count_ceil by done.
  unfold APPROX_BYTES_PER_TOKEN. Z.to_euclidean_division_equations. lia.
Qed.

Lemma text_cost_pos policy text : str_ok text -> text ≠ [] -> 0 < text_cost policy text.
Proof.
  intros H Hne. pose proof (text_cost_covers policy text H). pose proof (byte_len_pos text Hne).
  destruct policy; simpl in *; unfold APPROX_BYTES_PER_TOKEN in *; lia.
Qed.

Lemma with_budget_bytes policy n : byte_budget (with_budget policy n) <= unit_bytes policy * n.
Proof.
  destruct policy; simpl; [lia|]. unfold approx_bytes_for_tokens, saturating_mul, APPROX_BYTES_PER_TOKEN. lia.
Qed.

(** Items other than empty texts, which take a slot and carry nothing. *)
Definition has_content (i : OutItem) : bool :=
  match i with OutInputText text => negb (is_empty text) | _ => true end.

(** The invariant of the loop over the items, [seen] of which are behind it. *)
Record budget_inv (policy : TruncationPolicy) (seen : list OutItem) (st : Budget) : Prop := {
  bi_remaining : 0 <= remaining_budget st <= initial_budget policy;
  bi_bytes : text_bytes (out st) + unit_bytes policy * remaining_budget st
             <= unit_bytes policy * initial_budget policy + (if remaining_budget st =? 0 then MARKER_MAX else 0);
  bi_media : List.filter is_media (out st) = List.filter is_media seen;
  bi_texts : count nonempty_text seen = count nonempty_text (out st) + omitted_text_items st;
  bi_audio : count is_audio seen = count is_audio (out st) + omitted_audio_items st;
  bi_counts : 0 <= omitted_text_items st /\ 0 <= omitted_audio_items st;
  bi_fits : total_cost policy seen <= initial_budget policy ->
            out st = List.filter has_content seen /\
            remaining_budget st = initial_budget policy - total_cost policy seen /\
            omitted_text_items st = 0 /\ omitted_audio_items st = 0;
}.

(** An item that is kept and paid for. *)
Lemma budget_inv_keep policy seen st i :
  budget_inv policy seen st ->
  match i with OutInputText text => str_ok text | _ => True end ->
  has_content i = true -> 0 <= item_cost policy i <= remaining_budget st ->
  (nonempty_text i = true -> 0 < remaining_budget st) ->
  budget_inv policy (seen ++ [i])
    {| out := out st ++ [i]; remaining_budget := remaining_budget st - item_cost policy i;
       omitted_text_items := omitted_text_items st; omitted_audio_items := omitted_audio_items st |}.
Proof using estimate_nonneg.
  intros [Hrem Hbytes Hmedia Htext Haudio Hcounts Hfits] Hok Hcontent Hcost Hpos.
  constructor; simpl; rewrite ?count_snoc, ?filter_snoc, ?Hmedia, ?Hcontent.
  - lia.
  - rewrite text_bytes_app.
    assert (text_bytes [i] <= unit_bytes policy * item_cost policy i) as Hi.
    { destruct i as [t| | |]; unfold text_bytes; simpl in *; [|destruct policy; simpl in *; unfold APPROX_BYTES_PER_TOKEN; lia..].
      pose proof (text_cost_covers policy t Hok). lia. }
    destruct (Z.eqb_spec (remaining_budget st) 0) as [Hz|Hz].
    + destruct i as [t| | |]; simpl in *; [rewrite Hcontent in Hpos; specialize (Hpos eq_refl); lia|..];
        unfold text_bytes in *; simpl in *;
        (rewrite (proj2 (Z.eqb_eq _ 0)) by lia); nia.
    + unfold MARKER_MAX. rewrite Z.mul_sub_distr_l. destruct (_ =? 0); lia.
  - done.
  - lia.
  - lia.
  - done.
  - rewrite total_cost_app. simpl. intros Hle. destruct Hfits as (-> & -> & ? & ?); [lia|]. split; [done|].
    split; [lia|done].
Qed.

(** An item that is dropped because it does not fit. *)
Lemma budget_inv_drop policy seen st i nt na rem :
  budget_inv policy seen st -> is_media i = false ->
  nt = (if nonempty_text i then 1 else 0) -> na = (if is_audio i then 1 else 0) ->
  0 <= rem <= remaining_budget st -> remaining_budget st < item_cost policy i ->
  budget_inv policy (seen ++ [i])
    {| out := out st; remaining_budget := rem;
       omitted_text_items := omitted_text_items st + nt; omitted_audio_items := omitted_audio_items st + na |}.
Proof using estimate_nonneg.
  intros [Hrem Hbytes Hmedia Htext Haudio Hcounts Hfits] Hm -> -> Hle Hcost.
  constructor; simpl; rewrite ?count_snoc, ?filter_snoc, ?Hmedia, ?Hm, ?app_nil_r; try done; try lia.
  - assert (0 < unit_bytes policy) by (by destruct policy).
    destruct (Z.eqb_spec (remaining_budget st) 0); destruct (Z.eqb_spec rem 0); unfold MARKER_MAX in *; nia.
  - split; destruct i as [[]| | |]; simpl; lia.
  - rewrite total_cost_app. simpl. intros Hfit. pose proof (total_cost_nonneg policy seen).
    destruct Hfits as (_ & Hr & _ & _); simpl in *; lia.
Qed.

(** A text that is cut to what remains. *)
Lemma budget_inv_snippet policy seen st text snippet :
  budget_inv policy seen st -> text ≠ [] -> snippet ≠ [] -> remaining_budget st < text_cost policy text ->
  byte_len snippet <= unit_bytes policy * remaining_budget st + MARKER_MAX -> 0 < remaining_budget st ->
  budget_inv policy (seen ++ [OutInputText text])
    {| out := out st ++ [OutInputText snippet]; remaining_budget := 0;
       omitted_text_items := omitted_text_items st; omitted_audio_items := omitted_audio_items st |}.
Proof using estimate_nonneg.
  intros [Hrem Hbytes Hmedia Htext Haudio Hcounts Hfits] Ht Hs Hcost Hlen Hpos.
  apply is_empty_false in Ht, Hs.
  constructor; simpl; rewrite ?count_snoc, ?filter_snoc, ?Hmedia; simpl; rewrite ?Ht, ?Hs; simpl; try done; try lia.
  - rewrite text_bytes_app. unfold text_bytes at 2. simpl.
    rewrite (proj2 (Z.eqb_neq (remaining_budget st) 0)) in Hbytes by lia. lia.
  - rewrite total_cost_app. simpl. intros Hfit. pose proof (total_cost_nonneg policy seen).
    destruct Hfits as (_ & Hr & _ & _); simpl in *; lia.
Qed.

(** An empty text is skipped without a trace. *)
Lemma budget_inv_empty policy seen st :
  budget_inv policy seen st -> budget_inv policy (seen ++ [OutInputText []]) st.
Proof using estimate_nonneg.
  intros [Hrem Hbytes Hmedia Htext Haudio Hcounts Hfits].
  constructor; rewrite ?count_snoc, ?filter_snoc, ?app_nil_r; simpl; rewrite ?app_nil_r; try done; try lia.
  rewrite total_cost_app. replace (total_cost policy [OutInputText []]) with 0 by (by destruct policy).
  by rewrite Z.add_0_r.
Qed.

Lemma item_step_inv policy seen st i :
  policy_ok policy -> match i with OutInputText text => str_ok text | _ => True end ->
  budget_inv policy seen st ->
  exists st', item_step estimate_audio_token_count policy st i = Ok st' /\ budget_inv policy (seen ++ [i]) st'.
Proof using estimate_nonneg.
  intros Hp Hok Hinv. pose proof (bi_remaining _ _ _ Hinv) as Hrem. pose proof (item_cost_nonneg policy i) as Hc.
  assert (forall n, saturating_sub (remaining_budget st) n = Z.max (remaining_budget st - n) 0) as Hsub by done.
  destruct i as [text|url detail|url|e]; unfold item_step.
  - destruct (is_empty text) eqn:Hemp.
    { apply is_empty_true in Hemp as ->. eexists; split; [done|]. by apply budget_inv_empty. }
    pose proof Hemp as Hne. apply is_empty_false in Hne. pose proof (text_cost_pos policy text Hok Hne).
    destruct (Z.eqb_spec (remaining_budget st) 0) as [Hz|Hz].
    { eexists; split; [done|]. rewrite <- (Z.add_0_r (omitted_audio_items st)).
      apply budget_inv_drop; simpl; rewrite ?Hemp; simpl; try done; lia. }
    destruct (Z.leb_spec (text_cost policy text) (remaining_budget st)) as [Hle|Hgt].
    { eexists; split; [done|]. rewrite Hsub, Z.max_l by lia.
      apply (budget_inv_keep policy seen st (OutInputText text)); simpl; rewrite ?Hemp; simpl in *; try done; lia. }
    destruct (truncate_text_as text (with_budget policy (remaining_budget st))) as (snippet & -> & Hs); [done|..].
    { destruct policy; simpl in *; unfold usize in *; lia. }
    simpl. apply truncated_as_bound in Hs; [|apply byte_budget_nonneg; destruct policy; simpl in *; unfold usize in *; lia].
    pose proof (with_budget_bytes policy (remaining_budget st)).
    destruct (is_empty snippet) eqn:Hsn; (eexists; split; [done|]).
    + rewrite <- (Z.add_0_r (omitted_audio_items st)).
      apply budget_inv_drop; simpl; rewrite ?Hemp; simpl; try done; lia.
    + apply budget_inv_snippet; first [done|lia|by apply is_empty_false].
  - eexists; split; [done|]. rewrite <- (Z.sub_0_r (remaining_budget st)).
    apply (budget_inv_keep policy seen st (OutInputImage url detail)); simpl; try done; lia.
  - destruct (Z.leb_spec (audio_cost estimate_audio_token_count policy url) (remaining_budget st)) as [Hle|Hgt];
      (eexists; split; [done|]).
    + rewrite Hsub, Z.max_l by lia. apply (budget_inv_keep policy seen st (OutInputAudio url)); simpl; try done; lia.
    + rewrite <- (Z.add_0_r (omitted_text_items st)). apply budget_inv_drop; simpl; try done; lia.
  - eexists; split; [done|]. rewrite <- (Z.sub_0_r (remaining_budget st)).
    apply (budget_inv_keep policy seen st (EncryptedContent e)); simpl; try done; lia.
Qed.

Lemma budget_inv_init policy :
  policy_ok policy ->
  budget_inv policy [] {| out := []; remaining_budget := initial_budget policy;
                          omitted_text_items := 0; omitted_audio_items := 0 |}.
Proof.
  intros Hp. assert (0 <= initial_budget policy) by (destruct policy; simpl in *; apply Hp).
  constructor; simpl; try done.
  - unfold text_bytes, MARKER_MAX; simpl. destruct (_ =? 0); lia.
  - intros _. split; [done|]. split; [lia|done].
Qed.

(** What the list of items after truncation is, in terms of the items before. *)
Record budgeted (policy : TruncationPolicy) (items kept : list OutItem) (nt na : Z) : Prop := {
  bd_bytes : text_bytes kept <= unit_bytes policy * initial_budget policy + MARKER_MAX;
  bd_media : List.filter is_media kept = List.filter is_media items;
  bd_texts : nt = count nonempty_text items - count nonempty_text kept /\ 0 <= nt;
  bd_audio : na = count is_audio items - count is_audio kept /\ 0 <= na;
  bd_fits : total_cost policy items <= initial_budget policy ->
            kept = List.filter has_content items /\ nt = 0 /\ na = 0;
}.

Lemma truncate_items_budgeted items policy :
  policy_ok policy -> items_ok items ->
  exists kept nt na,
    truncate_function_output_items_with_policy estimate_audio_token_count items policy =
      Ok (kept ++ omitted_marker nt " text" ++ omitted_marker na " audio") /\
    budgeted policy items kept nt na.
Proof using estimate_nonneg.
  intros Hp Hok. unfold truncate_function_output_items_with_policy.
  destruct (fold_res_total (budget_inv policy) (item_step estimate_audio_token_count policy)
              {| out := []; remaining_budget := initial_budget policy; omitted_text_items := 0; omitted_audio_items := 0 |}
              items) as (st & -> & Hst).
  - by apply budget_inv_init.
  - intros seen i st Hi Hinv. apply item_step_inv; [done| |done].
    by apply (proj1 (Forall_forall _ _) Hok).
  - destruct Hst as [Hrem Hbytes Hmedia Htext Haudio [Hnt Hna] Hfits].
    exists (out st), (omitted_text_items st), (omitted_audio_items st). split; [done|].
    constructor; [|done|lia|lia|].
    + assert (0 < unit_bytes policy) by (by destruct policy). unfold MARKER_MAX in *. destruct (_ =? 0); nia.
    + intros Hle. destruct (Hfits Hle) as (-> & _ & -> & ->). done.
Qed.

End Items.

(** ** Main theorems *)

(** C28. Truncating a text never panics and keeps to its budget: a text that fits is returned
    as it is; of any other, the longest prefix that fits half of the budget and the longest
    suffix of the rest that fits the other half are kept, both cut between characters,
    around a marker that states exactly how many characters (or about how many tokens)
    were taken out. The result is at most the budget and one marker long. *)
Theorem truncate_text_bounded content policy :
  str_ok content -> policy_ok policy ->
  exists out, truncate_text content policy = Ok out /\
    byte_len out <= byte_budget policy + MARKER_MAX /\
    (byte_len content <= byte_budget policy /\ out = content \/
     byte_budget policy < byte_len content /\
     exists l m r,
       cut content (byte_budget policy / 2) (byte_budget policy - byte_budget policy / 2) l m r /\
       out = l ++ format_truncation_marker (is_tokens policy)
                    (removed_units (is_tokens policy) (byte_len content - byte_budget policy) (Z.of_nat (length m)))
               ++ r).
Proof.
  intros Hc Hp. destruct (truncate_text_as content policy Hc Hp) as (out & Hout & Has).
  exists out. split; [done|]. split; [by eapply truncated_as_bound, Has; apply byte_budget_nonneg|].
  destruct Has as [Hle|l m r Hlt Hcut]; [by left|]. right. split; [done|]. by exists l, m, r.
Qed.

Lemma truncate_text_bounded_witness :
  truncate_text (lit "abcdefghij") (Bytes 5) = Ok (lit "ab" ++ [ELLIPSIS] ++ lit "5 chars truncated" ++ [ELLIPSIS] ++ lit "hij")
  /\ byte_len (lit "ab" ++ [ELLIPSIS] ++ lit "5 chars truncated" ++ [ELLIPSIS] ++ lit "hij") <= 5 + MARKER_MAX.
Proof.
  split; [by vm_compute|].
  destruct (truncate_text_bounded (lit "abcdefghij") (Bytes 5)) as (out & Hout & Hle & _).
  - by vm_compute.
  - by vm_compute.
  - vm_compute in Hout. injection Hout as <-. exact Hle.
Defined.

(** Truncating the content items of a tool output never panics and keeps to one budget for
    all of them: the texts that remain take at most the budget and one marker; images and
    encrypted content all stay, in their order; the texts and the audio items that were
    left out are counted, and a note states each count that is not zero; and when the items
    fit, only empty texts are removed. The success flag does not change. *)
Theorem truncate_payload_budgeted {Opaque : Type} (estimate : rstr -> Z) items flag policy :
  (forall url, 0 <= estimate url) -> policy_ok policy -> items_ok (Opaque := Opaque) items ->
  exists kept nt na,
    truncate_function_output_payload estimate {| body := BodyContentItems items; success := flag |} policy =
      Ok {| body := BodyContentItems (kept ++ omitted_marker nt " text" ++ omitted_marker na " audio"); success := flag |} /\
    text_bytes kept <= unit_bytes policy * initial_budget policy + MARKER_MAX /\
    List.filter is_media kept = List.filter is_media items /\
    (nt = count nonempty_text items - count nonempty_text kept /\ 0 <= nt) /\
    (na = count is_audio items - count is_audio kept /\ 0 <= na) /\
    (total_cost estimate policy items <= initial_budget policy ->
     kept = List.filter has_content items /\ nt = 0 /\ na = 0).
Proof.
  intros He Hp Hok. destruct (truncate_items_budgeted estimate He items policy Hp Hok) as (kept & nt & na & E & []).
  exists kept, nt, na. unfold truncate_function_output_payload. simpl. by rewrite E.
Qed.

(** Two texts, of which the second is cut, an image and an audio item that does not fit. *)
Definition sample_items : list (FunctionCallOutputContentItem (Opaque := unit)) :=
  [OutInputText (lit "abcd"); OutInputImage (lit "i") None; OutInputText (lit "efghijkl"); OutInputAudio (lit "a")].

Lemma truncate_payload_budgeted_witness :
  exists kept nt na,
    truncate_function_output_payload (fun _ => 1) {| body := BodyContentItems sample_items; success := Some true |} (Bytes 6) =
      Ok {| body := BodyContentItems (kept ++ omitted_marker nt " text" ++ omitted_marker na " audio");
            success := Some true |} /\
    text_bytes kept <= 6 + MARKER_MAX.
Proof.
  destruct (truncate_payload_budgeted (fun _ => 1) sample_items (Some true) (Bytes 6)) as (kept & nt & na & E & Hb & _).
  - done.
  - by vm_compute.
  - repeat constructor; by vm_compute.
  - exists kept, nt, na. split; [exact E|exact Hb].
Defined.

Close Scope Z_scope.
