(* ===== verification/Readiness.v ===== *)
(** * The readiness flag

    Models [workx-rs/utils/readiness/src/lib.rs]: a flag that tasks wait for, and that
    becomes ready when the holder of a token says so. Calls run concurrently: a state has
    the shared fields and a list of calls in progress, and a step runs one of them up to
    its next access to shared data. What happens under the lock of [tokens] is one step,
    because every write to [ready] is made under it; getting the lock may fail (a
    [try_lock] that finds it taken, or the timeout). The channel is [tokio::sync::watch],
    the class [Watch], with its documented behaviour as laws. *)
From S2P Require Import Prelude Width.
From stdpp Require Import gmap relations.

Set Default Goal Selector "!".

(** [AtomicI32::fetch_add] wraps around. *)
Definition wrap_i32 (z : Z) : Z := ((z + 2 ^ 31) mod 2 ^ 32 - 2 ^ 31)%Z.

Definition i32 (z : Z) : Prop := (- 2 ^ 31 <= z < 2 ^ 31)%Z.

(** [watch::channel]: the value last sent, how many were sent, and [send], which is told
    whether any receiver is alive. *)
Class Watch (Chan : Type) := {
  channel : Chan;
  w_value : Chan -> bool;
  w_version : Chan -> nat;
  w_send : bool -> Chan -> Chan;
}.

(** A value that is sent is seen by every receiver; without receivers [send] fails and the
    value is not made available to later ones. *)
Class WatchLaws (Chan : Type) `{Watch Chan} := {
  law_channel : w_value channel = false;
  law_send_alive ch : w_value (w_send true ch) = true /\ w_version ch < w_version (w_send true ch);
  law_send_closed ch : w_send false ch = ch;
}.

(** The calls, by the next thing they do. [k] tells whether [is_ready] was called by
    [wait_ready]. *)
Inductive Pc :=
| SubscribeStart
| SubscribeLock
| SubscribeDone (token : option Z)
| MarkStart (token : Z)
| MarkLock (token : Z)
| MarkSend (token : Z)
| MarkDone (token : Z) (marked : option bool)
| ReadyStart (k : bool)
| ReadyLock (k : bool)
| ReadySend (k : bool)
| ReadyReload (k : bool)
| ReadyDone (answer : bool)
| WaitSubscribe
| WaitBorrow (seen : nat)
| WaitChanged (seen : nat)
| WaitCheck (seen : nat)
| WaitDone.

Inductive Call := CallSubscribe | CallMarkReady (token : Z) | CallIsReady | CallWaitReady.

Definition start (c : Call) : Pc :=
  match c with
  | CallSubscribe => SubscribeStart
  | CallMarkReady token => MarkStart token
  | CallIsReady => ReadyStart false
  | CallWaitReady => ReadyStart true
  end.

(** The calls that hold a receiver. *)
Definition has_receiver (pc : Pc) : bool :=
  match pc with WaitBorrow _ | WaitChanged _ | WaitCheck _ => true | _ => false end.

(** The calls that are about to send. *)
Definition is_sender (pc : Pc) : bool := match pc with MarkSend _ | ReadySend _ => true | _ => false end.

(** What [is_ready] answers, to its caller or to [wait_ready]. *)
Definition answer (k b : bool) : Pc :=
  if k then (if b then WaitDone else WaitSubscribe) else ReadyDone b.

(** The loop in [subscribe]: at most one token per round is taken or zero, so two rounds
    more than there are tokens are enough. *)
Fixpoint fresh_token (fuel : nat) (next_id : Z) (tokens : gset Z) : option (Z * Z) :=
  match fuel with
  | O => None
  | S fuel =>
      let token := next_id in
      let next_id := wrap_i32 (next_id + 1) in
      if negb (token =? 0)%Z && bool_decide (token ∉ tokens) then Some (token, next_id)
      else fresh_token fuel next_id tokens
  end.

Section Readiness.
Context {Chan : Type} `{Watch Chan}.
Set Default Proof Using "Type".

Record ReadinessFlag := {
  ready : bool;
  next_id : Z;
  tokens : gset Z;
  tx : Chan;
}.

Record State := { flag : ReadinessFlag; calls : list Pc }.

Definition flag_new : ReadinessFlag := {| ready := false; next_id := 1; tokens := ∅; tx := channel |}.

Definition with_ready (self : ReadinessFlag) (tokens : gset Z) : ReadinessFlag :=
  {| ready := true; next_id := next_id self; tokens := tokens; tx := tx self |}.

Definition with_tx (self : ReadinessFlag) (tx : Chan) : ReadinessFlag :=
  {| ready := ready self; next_id := next_id self; tokens := tokens self; tx := tx |}.

Definition send (self : ReadinessFlag) (alive : bool) : ReadinessFlag := with_tx self (w_send alive (tx self)).

(** One step of a call; [lock] says whether the lock is got, [alive] whether there are
    receivers. A call that waits for a change has no step until there is one. *)
Definition exec (self : ReadinessFlag) (alive lock : bool) (pc : Pc) : option (ReadinessFlag * Pc) :=
  match pc with
  | SubscribeStart => Some (self, if ready self then SubscribeDone None else SubscribeLock)
  | SubscribeLock =>
      if negb lock then Some (self, SubscribeDone None)
      else if ready self then Some (self, SubscribeDone None)
      else
        '(token, next) ← fresh_token (size (tokens self) + 2) (next_id self) (tokens self);
        Some ({| ready := ready self; next_id := next; tokens := {[token]} ∪ tokens self; tx := tx self |},
              SubscribeDone (Some token))
  | MarkStart token =>
      Some (self, if ready self then MarkDone token (Some false)
                  else if (token =? 0)%Z then MarkDone token (Some false)
                  else MarkLock token)
  | MarkLock token =>
      if negb lock then Some (self, MarkDone token None)
      else if bool_decide (token ∉ tokens self) then Some (self, MarkDone token (Some false))
      else Some (with_ready self ∅, MarkSend token)
  | MarkSend token => Some (send self alive, MarkDone token (Some true))
  | ReadyStart k => Some (self, if ready self then answer k true else ReadyLock k)
  | ReadyLock k =>
      if lock && bool_decide (tokens self = ∅)
      then Some (with_ready self (tokens self), if ready self then answer k true else ReadySend k)
      else Some (self, ReadyReload k)
  | ReadySend k => Some (send self alive, answer k true)
  | ReadyReload k => Some (self, answer k (ready self))
  | WaitSubscribe => Some (self, WaitBorrow (w_version (tx self)))
  | WaitBorrow seen => Some (self, if w_value (tx self) then WaitDone else WaitChanged seen)
  | WaitChanged seen =>
      if (w_version (tx self) =? seen)%nat then None else Some (self, WaitCheck (w_version (tx self)))
  | WaitCheck seen => Some (self, if w_value (tx self) then WaitDone else WaitChanged seen)
  | SubscribeDone _ | MarkDone _ _ | ReadyDone _ | WaitDone => None
  end.

Definition next (st : State) (i : nat) (lock : bool) : option State :=
  pc ← calls st !! i;
  '(self, pc') ← exec (flag st) (existsb has_receiver (calls st)) lock pc;
  Some {| flag := self; calls := <[i := pc']> (calls st) |}.

(** A step of a call, or a new call. *)
Inductive step : State -> State -> Prop :=
| step_run st i lock st' : next st i lock = Some st' -> step st st'
| step_call st c : step st {| flag := flag st; calls := calls st ++ [start c] |}.

Definition initial : State := {| flag := flag_new; calls := [] |}.

Definition reachable (st : State) : Prop := rtc step initial st.

(** A run of the calls named, for examples. *)
Fixpoint run (schedule : list (nat + Call)) (st : State) : option State :=
  match schedule with
  | [] => Some st
  | inl i :: schedule => st ← next st i true; run schedule st
  | inr c :: schedule => run schedule {| flag := flag st; calls := calls st ++ [start c] |}
  end.
End Readiness.
Arguments State Chan : clear implicits.
Arguments ReadinessFlag Chan : clear implicits.

(** ** Tokens *)

Lemma wrap_i32_range z : i32 (wrap_i32 z).
Proof. unfold i32, wrap_i32. pose proof (Z.mod_pos_bound (z + 2 ^ 31) (2 ^ 32)). lia. Qed.

Lemma wrap_i32_id z : i32 z -> wrap_i32 z = z.
Proof. unfold i32, wrap_i32. intros Hz. rewrite Z.mod_small by lia. lia. Qed.

Lemma wrap_i32_add a b : wrap_i32 (wrap_i32 a + b) = wrap_i32 (a + b).
Proof.
  unfold wrap_i32. f_equal. replace ((a + 2 ^ 31) mod 2 ^ 32 - 2 ^ 31 + b + 2 ^ 31)%Z with ((a + 2 ^ 31) mod 2 ^ 32 + b)%Z by lia.
  rewrite Zplus_mod_idemp_l. f_equal. lia.
Qed.

(** The candidates of the loop. *)
Definition candidates (fuel : nat) (next : Z) : list Z := map (fun k => wrap_i32 (next + Z.of_nat k)) (seq 0 fuel).

Lemma candidates_S fuel next :
  i32 next -> candidates (S fuel) next = next :: candidates fuel (wrap_i32 (next + 1)).
Proof.
  intros Hn. unfold candidates. cbn [seq map]. rewrite Z.add_0_r, (wrap_i32_id next Hn). f_equal.
  rewrite <- seq_shift, map_map. apply map_ext. intros k. rewrite wrap_i32_add. f_equal. lia.
Qed.

Lemma candidates_NoDup fuel next : (Z.of_nat fuel <= 2 ^ 32)%Z -> NoDup (candidates fuel next).
Proof.
  intros Hf. unfold candidates. apply NoDup_fmap_2_strong; [|apply NoDup_seq].
  intros a b Ha Hb Hab. rewrite elem_of_seq in Ha, Hb. unfold wrap_i32 in Hab.
  assert ((next + Z.of_nat a + 2 ^ 31) mod 2 ^ 32 = (next + Z.of_nat b + 2 ^ 31) mod 2 ^ 32)%Z as Hm by lia.
  assert ((Z.of_nat a - Z.of_nat b) mod 2 ^ 32 = 0)%Z as Hz.
  { replace (Z.of_nat a - Z.of_nat b)%Z with ((next + Z.of_nat a + 2 ^ 31) - (next + Z.of_nat b + 2 ^ 31))%Z by lia.
    rewrite Zminus_mod, Hm, Z.sub_diag. done. }
  apply Z.mod_divide in Hz as [q Hq]; [|lia]. assert (q = 0)%Z by nia. lia.
Qed.

Lemma fresh_token_None fuel next tokens :
  i32 next -> fresh_token fuel next tokens = None -> Forall (fun t => t = 0%Z \/ t ∈ tokens) (candidates fuel next).
Proof.
  revert next. induction fuel as [|fuel IH]; intros next Hn; [constructor|]. rewrite (candidates_S fuel next Hn). cbn [fresh_token].
  destruct (negb (next =? 0)%Z && bool_decide (next ∉ tokens)) eqn:E; [done|]. intros Hf. constructor; [|by apply IH, Hf; apply wrap_i32_range].
  apply andb_false_iff in E as [E|E]; [left; lia|right; by apply bool_decide_eq_false, dec_stable in E].
Qed.

Lemma fresh_token_Some fuel next tokens t next' :
  i32 next -> fresh_token fuel next tokens = Some (t, next') -> i32 t /\ t ≠ 0%Z /\ t ∉ tokens /\ i32 next'.
Proof.
  revert next. induction fuel as [|fuel IH]; intros next Hn; cbn [fresh_token]; [done|].
  destruct (negb (next =? 0)%Z && bool_decide (next ∉ tokens)) eqn:E; [|apply IH, wrap_i32_range].
  intros [= <- <-]. apply andb_true_iff in E as [E1 E2]. apply bool_decide_eq_true in E2.
  split; [done|]. split; [lia|]. split; [done|]. apply wrap_i32_range.
Qed.

(** The loop ends: among as many numbers as there are tokens, and two more, one is free. *)
Lemma fresh_token_total next tokens :
  i32 next -> (Z.of_nat (size tokens) + 2 <= 2 ^ 32)%Z -> is_Some (fresh_token (size tokens + 2) next tokens).
Proof.
  intros Hn Hs. destruct (fresh_token _ _ _) as [p|] eqn:E; [by eexists|]. exfalso.
  apply (fresh_token_None _ _ _ Hn) in E.
  assert (list_to_set (candidates (size tokens + 2) next) ⊆ {[0%Z]} ∪ tokens) as Hsub.
  { intros t Ht%elem_of_list_to_set. apply (proj1 (Forall_forall _ _) E) in Ht. set_solver. }
  apply subseteq_size in Hsub. rewrite size_list_to_set in Hsub by (apply candidates_NoDup; lia).
  unfold candidates in Hsub. rewrite length_map, length_seq in Hsub.
  pose proof (size_union_alt {[0%Z]} tokens) as Hu.
  assert (size (tokens ∖ {[0%Z]}) <= size tokens) by (apply subseteq_size; set_solver).
  rewrite size_singleton in Hu. lia.
Qed.

(** ** The states that calls can lead to *)

Section Invariant.
Context {Chan : Type} `{Hlaws : WatchLaws Chan}.
Set Default Proof Using "Type*".
Implicit Types (st : State Chan) (self : ReadinessFlag Chan).

(** The token of a call that marked the flag ready. *)
Definition marked (pc : Pc) : option Z :=
  match pc with MarkSend t | MarkDone t (Some true) => Some t | _ => None end.

Record inv st : Prop := {
  inv_next : i32 (next_id (flag st));
  inv_tokens t : t ∈ tokens (flag st) -> i32 t /\ t ≠ 0%Z /\ exists i, calls st !! i = Some (SubscribeDone (Some t));
  inv_ready : ready (flag st) = true -> tokens (flag st) = ∅;
  inv_given i t : calls st !! i = Some (SubscribeDone (Some t)) ->
    i32 t /\ t ≠ 0%Z /\ (ready (flag st) = true \/ t ∈ tokens (flag st));
  inv_distinct i j t : calls st !! i = Some (SubscribeDone (Some t)) -> calls st !! j = Some (SubscribeDone (Some t)) -> i = j;
  inv_marked i pc t : calls st !! i = Some pc -> marked pc = Some t ->
    ready (flag st) = true /\ exists j, calls st !! j = Some (SubscribeDone (Some t));
  inv_once i j pci pcj : calls st !! i = Some pci -> calls st !! j = Some pcj ->
    is_Some (marked pci) -> is_Some (marked pcj) -> i = j;
}.

Lemma inv_initial : inv initial.
Proof. by split. Qed.

(** A call that keeps the shared data the invariant speaks of, and is neither a
    subscription nor a marking that succeeds. *)
Lemma inv_quiet st i pc pc' self' :
  inv st -> calls st !! i = Some pc ->
  (forall t, pc ≠ SubscribeDone (Some t)) -> (forall t, pc' ≠ SubscribeDone (Some t)) ->
  (forall t, marked pc' = Some t -> marked pc = Some t) ->
  next_id self' = next_id (flag st) -> tokens self' = tokens (flag st) ->
  (ready (flag st) = true -> ready self' = true) -> (ready self' = true -> tokens (flag st) = ∅) ->
  inv {| flag := self'; calls := <[i := pc']> (calls st) |}.
Proof.
  intros Hinv Hi Hpc Hpc' Hm Hnext Htok Hr Hr'. assert (i < length (calls st)) as Hlt by by eapply lookup_lt_Some.
  assert (forall j t, <[i := pc']> (calls st) !! j = Some (SubscribeDone (Some t)) -> calls st !! j = Some (SubscribeDone (Some t))) as Hback.
  { intros j t. destruct (decide (i = j)) as [->|Hne]; [|by rewrite list_lookup_insert_ne].
    rewrite list_lookup_insert_eq by done. intros [= ->]. by destruct (Hpc' t). }
  assert (forall j t, calls st !! j = Some (SubscribeDone (Some t)) -> <[i := pc']> (calls st) !! j = Some (SubscribeDone (Some t))) as Hfwd.
  { intros j t Hj. destruct (decide (i = j)) as [->|Hne]; [|by rewrite list_lookup_insert_ne].
    assert (pc = SubscribeDone (Some t)) by congruence. by destruct (Hpc t). }
  assert (forall j q t, <[i := pc']> (calls st) !! j = Some q -> marked q = Some t -> exists q', calls st !! j = Some q' /\ marked q' = Some t) as Hmk.
  { intros j q t. destruct (decide (i = j)) as [->|Hne]; [|rewrite list_lookup_insert_ne by done; eauto].
    rewrite list_lookup_insert_eq by done. intros [= <-] Hq. exists pc. by split; [|apply Hm]. }
  split; simpl.
  - rewrite Hnext. apply Hinv.
  - rewrite Htok. intros t (? & ? & j & Hj)%Hinv. eauto.
  - rewrite Htok. exact Hr'.
  - intros j t (? & ? & Hor)%Hback%Hinv. rewrite Htok. split; [done|]. split; [done|]. destruct Hor; auto.
  - intros j k t Hj%Hback Hk%Hback. by eapply Hinv.
  - intros j q t Hj Hq. destruct (Hmk j q t Hj Hq) as (q' & Hj' & Hq'). destruct (inv_marked st Hinv j q' t Hj' Hq') as (? & k & Hk).
    split; [auto|]. exists k. auto.
  - intros j k qj qk Hj Hk [tj Htj] [tk Htk]. destruct (Hmk j qj tj Hj Htj) as (qj' & Hj' & Hqj').
    destruct (Hmk k qk tk Hk Htk) as (qk' & Hk' & Hqk'). by eapply (inv_once st Hinv j k qj' qk').
Qed.

Lemma answer_quiet k b t : answer k b ≠ SubscribeDone t /\ marked (answer k b) = None /\ is_sender (answer k b) = false.
Proof using Type. by destruct k, b. Qed.

Lemma inv_subscribe st i token next' :
  inv st -> calls st !! i = Some SubscribeLock -> ready (flag st) = false ->
  fresh_token (size (tokens (flag st)) + 2) (next_id (flag st)) (tokens (flag st)) = Some (token, next') ->
  inv {| flag := {| ready := ready (flag st); next_id := next'; tokens := {[token]} ∪ tokens (flag st); tx := tx (flag st) |};
         calls := <[i := SubscribeDone (Some token)]> (calls st) |}.
Proof.
  intros Hinv Hi Hr Hf. destruct (fresh_token_Some _ _ _ _ _ (inv_next st Hinv) Hf) as (H32 & H0 & Hfresh & Hn').
  assert (i < length (calls st)) as Hlt by by eapply lookup_lt_Some.
  assert (forall j q, <[i := SubscribeDone (Some token)]> (calls st) !! j = Some q -> j = i /\ q = SubscribeDone (Some token) \/ j ≠ i /\ calls st !! j = Some q) as Hcase.
  { intros j q. destruct (decide (i = j)) as [->|Hne]; [rewrite list_lookup_insert_eq by done; naive_solver|].
    rewrite list_lookup_insert_ne by done. naive_solver. }
  split; simpl.
  - done.
  - intros t [->%elem_of_singleton|Ht]%elem_of_union; [split; [done|]; split; [done|]; exists i; by rewrite list_lookup_insert_eq|].
    destruct (inv_tokens st Hinv t Ht) as (? & ? & j & Hj). split; [done|]. split; [done|]. exists j.
    rewrite list_lookup_insert_ne; [done|]. congruence.
  - by rewrite Hr.
  - intros j t [[-> [= ->]]|[_ Hj]]%Hcase; [split; [done|]; split; [done|]; right; set_solver|].
    destruct (inv_given st Hinv j t Hj) as (? & ? & [?|?]); [congruence|]. split; [done|]. split; [done|]. right. set_solver.
  - intros j k t Hj Hk. destruct (Hcase j _ Hj) as [[-> [= ->]]|[Hnj Hj']], (Hcase k _ Hk) as [[-> Hk']|[Hnk Hk']]; [done|..].
    + destruct (inv_given st Hinv k token Hk') as (_ & _ & [?|?]); [congruence|done].
    + injection Hk' as ->. destruct (inv_given st Hinv j token Hj') as (_ & _ & [?|?]); [congruence|done].
    + by eapply Hinv.
  - intros j q t [[-> ->]|[Hnj Hj]]%Hcase Hq; [done|]. destruct (inv_marked st Hinv j q t Hj Hq). congruence.
  - intros j k qj qk [[-> ->]|[Hnj Hj]]%Hcase [[-> ->]|[Hnk Hk]]%Hcase [tj Htj] [tk Htk]; try done. by eapply (inv_once st Hinv j k qj qk).
Qed.

Lemma inv_mark st i token :
  inv st -> calls st !! i = Some (MarkLock token) -> token ∈ tokens (flag st) ->
  inv {| flag := with_ready (flag st) ∅; calls := <[i := MarkSend token]> (calls st) |}.
Proof.
  intros Hinv Hi Ht. assert (i < length (calls st)) as Hlt by by eapply lookup_lt_Some.
  assert (ready (flag st) = false) as Hr.
  { destruct (ready (flag st)) eqn:Er; [|done]. rewrite (inv_ready st Hinv Er) in Ht. set_solver. }
  assert (forall j q, calls st !! j = Some q -> marked q = None) as Hnone.
  { intros j q Hj. destruct (marked q) as [t|] eqn:Em; [|done]. destruct (inv_marked st Hinv j q t Hj Em). congruence. }
  destruct (inv_tokens st Hinv token Ht) as (_ & _ & k & Hk).
  assert (forall j q, <[i := MarkSend token]> (calls st) !! j = Some q -> j = i /\ q = MarkSend token \/ j ≠ i /\ calls st !! j = Some q) as Hcase.
  { intros j q. destruct (decide (i = j)) as [->|Hne]; [rewrite list_lookup_insert_eq by done; naive_solver|].
    rewrite list_lookup_insert_ne by done. naive_solver. }
  split; simpl.
  - apply Hinv.
  - set_solver.
  - done.
  - intros j t [[-> ?]|[_ Hj]]%Hcase; [done|]. destruct (inv_given st Hinv j t Hj) as (? & ? & _). auto.
  - intros j l t [[-> ?]|[_ Hj]]%Hcase [[-> ?]|[_ Hl]]%Hcase; try done. by eapply Hinv.
  - intros j q t [[-> ->]|[_ Hj]]%Hcase Hq; [|by rewrite (Hnone j q Hj) in Hq]. simplify_eq/=. split; [done|]. exists k.
    rewrite list_lookup_insert_ne; [done|]. congruence.
  - intros j l qj ql [[-> ->]|[_ Hj]]%Hcase [[-> ->]|[_ Hl]]%Hcase [tj Htj] [tl Htl]; try done;
      try (by rewrite (Hnone _ _ Hj) in Htj); by rewrite (Hnone _ _ Hl) in Htl.
Qed.

(** A step that [inv_quiet] covers, by cases on the booleans it depends on. *)
Ltac quiet bs := eapply inv_quiet; try done; try (by auto); bs; try done; by auto.

Lemma inv_next_step st i lock st' : inv st -> next st i lock = Some st' -> inv st'.
Proof.
  intros Hinv Hn. unfold next in Hn. destruct (calls st !! i) as [pc|] eqn:Hi; [|done]. cbn [mbind option_bind] in Hn.
  destruct (exec _ _ _ pc) as [[self' pc']|] eqn:He; [|done]. cbn [mbind option_bind] in Hn. injection Hn as <-.
  pose proof (inv_ready st Hinv) as Hr.
  destruct pc; cbn [exec] in He; try done.
  - injection He as <- <-. quiet ltac:(destruct (ready (flag st))).
  - destruct lock; [|injection He as <- <-; quiet idtac]. cbn [negb] in He.
    destruct (ready (flag st)) eqn:Er; [injection He as <- <-; quiet idtac|].
    destruct (fresh_token _ _ _) as [[token next']|] eqn:Ef; [|done]. injection He as <- <-.
    pose proof (inv_subscribe st i token next' Hinv Hi Er Ef) as Hs. by rewrite Er in Hs.
  - injection He as <- <-. quiet ltac:(destruct (ready (flag st)), (token =? 0)%Z).
  - destruct lock; [|injection He as <- <-; quiet idtac]. cbn [negb] in He.
    case_bool_decide as Ht; injection He as <- <-; [quiet idtac|]. by apply inv_mark.
  - injection He as <- <-. quiet idtac.
  - injection He as <- <-. quiet ltac:(destruct (ready (flag st)), k).
  - destruct (lock && bool_decide (tokens (flag st) = ∅)) eqn:El; injection He as <- <-; [|quiet idtac].
    apply andb_true_iff in El as [_ Hempty%bool_decide_eq_true].
    quiet ltac:(destruct (ready (flag st)), k).
  - injection He as <- <-. quiet ltac:(destruct k).
  - injection He as <- <-. quiet ltac:(destruct k, (ready (flag st))).
  - injection He as <- <-. quiet idtac.
  - injection He as <- <-. quiet ltac:(destruct (w_value (tx (flag st)))).
  - case_match; [done|]. injection He as <- <-. quiet idtac.
  - injection He as <- <-. quiet ltac:(destruct (w_value (tx (flag st)))).
Qed.

Lemma lookup_spawn {A} (l : list A) x i y : (l ++ [x]) !! i = Some y -> l !! i = Some y \/ (i = length l /\ y = x).
Proof using Type.
  intros Hl. apply lookup_app_Some in Hl as [Hl|[Hge Hl]]; [by left|]. right. apply list_lookup_singleton_Some in Hl as [? ->].
  split; [lia|done].
Qed.

Lemma inv_call st c : inv st -> inv {| flag := flag st; calls := calls st ++ [start c] |}.
Proof.
  intros Hinv. assert (forall t, start c ≠ SubscribeDone t) as Hs by by destruct c.
  assert (marked (start c) = None) as Hm by by destruct c.
  assert (forall i q, calls st !! i = Some q -> (calls st ++ [start c]) !! i = Some q) as Hfwd.
  { intros i q Hi. by apply lookup_app_l_Some. }
  split; simpl; [apply Hinv| | apply Hinv |..].
  - intros t (? & ? & i & Hi)%Hinv. eauto.
  - intros i t [Hi|[_ Hc]]%lookup_spawn; [by apply Hinv in Hi|by destruct (Hs (Some t))].
  - intros i j t [Hi|[_ Hc]]%lookup_spawn [Hj|[_ Hc']]%lookup_spawn; [by eapply Hinv|by destruct (Hs (Some t))..].
  - intros i q t [Hi|[_ ->]]%lookup_spawn Hq; [|congruence]. destruct (inv_marked st Hinv i q t Hi Hq) as (? & j & Hj). eauto.
  - intros i j qi qj [Hi|[_ ->]]%lookup_spawn [Hj|[_ ->]]%lookup_spawn Hqi Hqj; [by eapply (inv_once st Hinv i j qi qj)|..];
      rewrite Hm in *; by destruct Hqi, Hqj.
Qed.

Lemma reachable_inv st : reachable st -> inv st.
Proof.
  intros Hr. unfold reachable in Hr. remember initial as st0 eqn:E.
  assert (inv st0) as H0 by (subst; apply inv_initial). clear E. induction Hr as [|a b c Hs _ IH]; [done|]. apply IH.
  inversion Hs as [? i lock ? Hn|? call]; subst; [by eapply inv_next_step|by apply inv_call].
Qed.

(** C31. The flag is set by the right call, once: however calls interleave, at most one call of
    [mark_ready] succeeds, with a token that a call of [subscribe] returned, and the flag is
    ready from then on; all tokens that [subscribe] returns are different, none is zero, all
    are 32-bit integers, and once the flag is ready no token is left. *)
Theorem readiness_safety st :
  reachable st ->
  (forall i j ti tj, calls st !! i = Some (MarkDone ti (Some true)) -> calls st !! j = Some (MarkDone tj (Some true)) -> i = j) /\
  (forall i t, calls st !! i = Some (MarkDone t (Some true)) ->
     ready (flag st) = true /\ exists j, calls st !! j = Some (SubscribeDone (Some t))) /\
  (forall i j t, calls st !! i = Some (SubscribeDone (Some t)) -> calls st !! j = Some (SubscribeDone (Some t)) -> i = j) /\
  (forall i t, calls st !! i = Some (SubscribeDone (Some t)) -> i32 t /\ t ≠ 0%Z) /\
  (ready (flag st) = true -> tokens (flag st) = ∅).
Proof.
  intros Hr%reachable_inv. split; [|split; [|split; [|split]]].
  - intros i j ti tj Hi Hj. eapply (inv_once st Hr i j); [done..|by eexists|by eexists].
  - intros i t Hi. by eapply (inv_marked st Hr i).
  - apply (inv_distinct st Hr).
  - intros i t Hi. by destruct (inv_given st Hr i t Hi) as (? & ? & _).
  - apply (inv_ready st Hr).
Qed.

(** ** Waiting *)

(** A waiter with its receiver: a value that was sent is new to it while it waits. *)
Definition waiting st (i : nat) : Prop :=
  exists pc seen, calls st !! i = Some pc /\ (pc = WaitBorrow seen \/ pc = WaitChanged seen \/ pc = WaitCheck seen) /\
    seen <= w_version (tx (flag st)) /\
    (pc = WaitChanged seen -> w_value (tx (flag st)) = true -> seen < w_version (tx (flag st))) /\
    (ready (flag st) = false \/ w_value (tx (flag st)) = true \/ exists j q, calls st !! j = Some q /\ is_sender q = true).

Lemma waiting_receiver st i : waiting st i -> existsb has_receiver (calls st) = true.
Proof.
  intros (pc & seen & Hi & Hpc & _). apply existsb_exists. exists pc.
  split; [apply list_elem_of_In; by eapply list_elem_of_lookup_2|]. by destruct Hpc as [->|[->| ->]].
Qed.

(** What a step of another call does to the flag. *)
Lemma exec_other self lock pc self' pc' :
  exec self true lock pc = Some (self', pc') ->
  (w_version (tx self) <= w_version (tx self'))%nat /\
  (w_value (tx self) = true -> w_value (tx self') = true /\ w_version (tx self') >= w_version (tx self)) /\
  (w_value (tx self) = false -> w_value (tx self') = true -> w_version (tx self) < w_version (tx self')) /\
  (is_sender pc = true -> w_value (tx self') = true) /\
  (ready self' = true -> ready self = true \/ is_sender pc' = true).
Proof.
  destruct (law_send_alive (tx self)) as [Hval Hver].
  destruct pc; cbn [exec]; intros He; try done.
  2: { destruct lock, (ready self) eqn:Er; cbn [negb] in He; try destruct (fresh_token _ _ _) as [[token next']|]; simplify_eq/=.
       all: rewrite ?Er; split_and!; intros; split_and?; (done || lia || congruence || (by left) || by right). }
  all: repeat case_match; simplify_eq/=; split_and!; intros; split_and?; (done || lia || congruence || (by left) || by right).
Qed.

Lemma waiting_other st i j lock st' pc pc' self' :
  waiting st i -> j ≠ i -> calls st !! j = Some pc -> exec (flag st) true lock pc = Some (self', pc') ->
  st' = {| flag := self'; calls := <[j := pc']> (calls st) |} -> waiting st' i.
Proof.
  intros (q & seen & Hi & Hq & Hle & Hnew & Hor) Hne Hj He ->. destruct (exec_other _ _ _ _ _ He) as (Hv & Hval & Hup & Hsend & Hrdy).
  exists q, seen. cbn [flag calls]. rewrite list_lookup_insert_ne by done. split; [done|]. split; [done|]. split; [lia|]. split.
  - intros Hq' Hval'. destruct (w_value (tx (flag st))) eqn:Ev; [specialize (Hnew Hq' eq_refl); lia|]. specialize (Hup eq_refl Hval'). lia.
  - assert (j < length (calls st)) as Hlt by by eapply lookup_lt_Some.
    destruct Hor as [Hr|[Hval'|(k & q' & Hk & Hs)]].
    + destruct (ready self') eqn:Er; [|by left]. destruct (Hrdy eq_refl) as [?|Hs]; [congruence|]. right. right. exists j, pc'.
      by rewrite list_lookup_insert_eq.
    + right. left. by apply Hval.
    + destruct (decide (j = k)) as [->|Hjk]; [right; left; apply Hsend; congruence|]. right. right. exists k, q'.
      by rewrite list_lookup_insert_ne.
Qed.

Lemma waiting_self st i pc' :
  waiting st i -> has_receiver pc' = true ->
  (forall seen, pc' = WaitBorrow seen \/ pc' = WaitChanged seen \/ pc' = WaitCheck seen -> seen <= w_version (tx (flag st)) /\
     (pc' = WaitChanged seen -> w_value (tx (flag st)) = false)) ->
  waiting {| flag := flag st; calls := <[i := pc']> (calls st) |} i.
Proof.
  intros (q & seen & Hi & Hq & _ & _ & Hor) Hrec Hpc.
  assert (exists s, pc' = WaitBorrow s \/ pc' = WaitChanged s \/ pc' = WaitCheck s) as (s & Hs) by (destruct pc'; try done; eauto).
  destruct (Hpc s Hs) as [Hle Hch]. exists pc', s. cbn [flag calls]. assert (i < length (calls st)) as Hlt by by eapply lookup_lt_Some.
  rewrite list_lookup_insert_eq by done. split; [done|]. split; [done|]. split; [done|]. split.
  - intros Hc Hval. by rewrite (Hch Hc) in Hval.
  - destruct Hor as [?|[?|(k & q' & Hk & Hsend)]]; [by left|by right; left|]. right. right. exists k, q'.
    rewrite list_lookup_insert_ne; [done|]. intros <-. assert (q' = q) as -> by congruence.
    by destruct Hq as [->|[->| ->]].
Qed.

Lemma waiting_step st st' i : step st st' -> waiting st i -> waiting st' i \/ calls st' !! i = Some WaitDone.
Proof.
  intros Hs Hw. inversion Hs as [? j lock ? Hn|? c]; subst.
  - unfold next in Hn. destruct (calls st !! j) as [pc|] eqn:Hj; [|done]. cbn [mbind option_bind] in Hn.
    rewrite (waiting_receiver st i Hw) in Hn. destruct (exec _ _ _ pc) as [[self' pc']|] eqn:He; [|done].
    cbn [mbind option_bind] in Hn. injection Hn as <-. destruct (decide (j = i)) as [->|Hne]; [|left; by eapply waiting_other].
    destruct Hw as (q & seen & Hi & Hq & Hle & Hnew & Hor) eqn:Ew. clear Ew. assert (pc = q) as -> by congruence.
    assert (i < length (calls st)) as Hlt by by eapply lookup_lt_Some.
    assert (waiting st i) as Hw' by by exists q, seen.
    destruct Hq as [->|[->| ->]]; cbn [exec] in He.
    + injection He as <- <-. destruct (w_value (tx (flag st))) eqn:Ev; [right; by apply list_lookup_insert_eq|].
      left. apply waiting_self; [done..|]. intros s Hs'. split; [naive_solver|done].
    + destruct (w_version (tx (flag st)) =? seen)%nat eqn:Ever; [done|]. injection He as <- <-. left.
      apply waiting_self; [done..|]. intros s Hs'. split; [naive_solver|naive_solver].
    + injection He as <- <-. destruct (w_value (tx (flag st))) eqn:Ev; [right; by apply list_lookup_insert_eq|].
      left. apply waiting_self; [done..|]. intros s Hs'. split; [naive_solver|done].
  - left. destruct Hw as (q & seen & Hi & Hq & Hle & Hnew & Hor). exists q, seen. cbn [flag calls].
    split; [by apply lookup_app_l_Some|]. split; [done|]. split; [done|]. split; [done|].
    destruct Hor as [?|[?|(k & q' & Hk & Hsend)]]; [by left|by right; left|]. right. right. exists k, q'. split; [by apply lookup_app_l_Some|done].
Qed.

Lemma done_stays st st' i : rtc step st st' -> calls st !! i = Some WaitDone -> calls st' !! i = Some WaitDone.
Proof.
  induction 1 as [|a b c Hs _ IH]; [done|]. intros Hi. apply IH. inversion Hs as [? j lock ? Hn|? call]; subst.
  - unfold next in Hn. destruct (calls a !! j) as [pc|] eqn:Hj; [|done]. cbn [mbind option_bind] in Hn.
    destruct (exec _ _ _ pc) as [[self' pc']|] eqn:He; [|done]. injection Hn as <-. cbn [calls].
    destruct (decide (j = i)) as [->|Hne]; [simplify_eq|by rewrite list_lookup_insert_ne].
  - by apply lookup_app_l_Some.
Qed.

(** A waiter that only needs to run. *)
Definition released st (i : nat) : Prop :=
  exists st', (exists n, nsteps (fun a b => exists lock, next a i lock = Some b) n st st') /\ calls st' !! i = Some WaitDone.

Lemma waiting_released st i :
  waiting st i -> w_value (tx (flag st)) = true -> released st i.
Proof.
  intros (q & seen & Hi & Hq & Hle & Hnew & _) Hval. assert (i < length (calls st)) as Hlt by by eapply lookup_lt_Some.
  assert (forall a s, flag a = flag st -> i < length (calls a) -> calls a !! i = Some (WaitBorrow s) \/ calls a !! i = Some (WaitCheck s) ->
    next a i true = Some {| flag := flag a; calls := <[i := WaitDone]> (calls a) |}) as Hlast.
  { intros a s Hf _ Hc. unfold next. destruct Hc as [-> | ->]; cbn [mbind option_bind exec]; by rewrite Hf, Hval. }
  destruct Hq as [->|[->| ->]].
  - eexists. split; [exists 1; eapply nsteps_once; exists true; by eapply Hlast; [..|left]|]. by apply list_lookup_insert_eq.
  - set (st1 := {| flag := flag st; calls := <[i := WaitCheck (w_version (tx (flag st)))]> (calls st) |}).
    assert (next st i true = Some st1) as H1.
    { unfold next. rewrite Hi. cbn [mbind option_bind exec].
      rewrite (proj2 (Nat.eqb_neq _ _)); [done|]. specialize (Hnew eq_refl Hval). lia. }
    assert (i < length (calls st1)) as Hlt1 by (simpl; by rewrite length_insert).
    exists {| flag := flag st1; calls := <[i := WaitDone]> (calls st1) |}. split; [|by apply list_lookup_insert_eq].
    exists 2. econstructor; [exists true; exact H1|]. eapply nsteps_once. exists true.
    apply (Hlast st1 (w_version (tx (flag st)))); [done..|]. right. simpl. by apply list_lookup_insert_eq.
  - eexists. split; [exists 1; eapply nsteps_once; exists true; by eapply Hlast; [..|right]|]. by apply list_lookup_insert_eq.
Qed.

(** C37. A waiter that is registered before the flag becomes ready is released: from a state in which
    a call of [wait_ready] holds its receiver and the flag is not ready, in every later state
    in which the flag is ready and the call that made it ready has sent its message, the
    waiter is done, or a step or two of its own finish it, whatever else has happened. *)
Theorem registered_waiter_released st0 st i seen :
  ready (flag st0) = false -> w_value (tx (flag st0)) = false ->
  calls st0 !! i = Some (WaitBorrow seen) \/ calls st0 !! i = Some (WaitChanged seen) -> seen <= w_version (tx (flag st0)) ->
  rtc step st0 st -> ready (flag st) = true -> (forall j pc, calls st !! j = Some pc -> is_sender pc = false) ->
  calls st !! i = Some WaitDone \/ released st i.
Proof.
  intros Hr0 Hv0 Hi Hle Hsteps Hr Hquiet.
  assert (waiting st0 i) as Hw.
  { destruct Hi as [Hi|Hi]; eexists _, seen; (split; [exact Hi|]); (split; [by auto|]); (split; [done|]); (split; [congruence|by left]). }
  assert (waiting st i \/ calls st !! i = Some WaitDone) as [Hwst|]; [|right|by left].
  - clear Hr Hquiet Hr0 Hv0 Hi Hle. induction Hsteps as [|a b c Hs Hrest IH]; [by left|].
    destruct (waiting_step a b i Hs Hw) as [Hb|Hb]; [by apply IH|]. right. by eapply done_stays.
  - apply waiting_released; [done|]. destruct Hwst as (q & s & _ & _ & _ & _ & [?|[?|(j & pc & Hj & Hs)]]); [congruence|done|].
    by rewrite (Hquiet j pc Hj) in Hs.
Qed.
End Invariant.

(** ** A lost wake-up *)

Section LostWakeup.
Context {Chan : Type} `{Hlaws : WatchLaws Chan}.
Set Default Proof Using "Type*".
Implicit Types (st : State Chan).

(** The flag is ready, no token is left and nobody will send. *)
Record silent st : Prop := {
  sl_ready : ready (flag st) = true;
  sl_tokens : tokens (flag st) = ∅;
  sl_senders i pc : calls st !! i = Some pc -> is_sender pc = false;
}.

(** Nothing wakes a waiter that has not seen a message when nobody is left to send one. *)
Lemma silent_step st st' i seen :
  silent st -> w_version (tx (flag st)) = seen -> calls st !! i = Some (WaitChanged seen) -> step st st' ->
  silent st' /\ w_version (tx (flag st')) = seen /\ calls st' !! i = Some (WaitChanged seen).
Proof.
  intros [Hr Ht Hs] Hv Hi Hst. inversion Hst as [? j lock ? Hn|? c]; subst.
  - unfold next in Hn. destruct (calls st !! j) as [pc|] eqn:Hj; [|done]. cbn [mbind option_bind] in Hn.
    destruct (exec _ _ _ pc) as [[self' pc']|] eqn:He; [|done]. cbn [mbind option_bind] in Hn. injection Hn as <-.
    assert (ready self' = true /\ tokens self' = ∅ /\ tx self' = tx (flag st) /\ is_sender pc' = false /\ j ≠ i) as (H1 & H2 & H3 & H4 & H5).
    { assert (is_sender pc = false) as Hpc by by eapply Hs. destruct pc; cbn [exec] in He; rewrite ?Hr, ?Ht in He; try done.
      all: try (destruct lock; cbn [negb andb] in He). all: rewrite ?bool_decide_true in He by set_solver.
      all: repeat case_match; simplify_eq/=; split_and!; try done; try (intros ->; congruence).
      all: try match goal with |- context [answer ?k _] => by destruct k end.
      all: intros ->; rewrite Hi in Hj; injection Hj as <-; by rewrite Nat.eqb_refl in *. }
    cbn [flag calls]. split; [|by rewrite H3, list_lookup_insert_ne].
    split; cbn [flag calls]; [done..|]. intros k q. destruct (decide (j = k)) as [->|Hne]; [|rewrite list_lookup_insert_ne by done; apply Hs].
    assert (k < length (calls st)) as Hlt by by eapply lookup_lt_Some. rewrite list_lookup_insert_eq by done. by intros [= <-].
  - split; [|split; [done|by apply lookup_app_l_Some]]. split; cbn [flag calls]; [done..|].
    intros k q [Hk|[_ ->]]%lookup_spawn; [by eapply Hs|by destruct c].
Qed.

Lemma silent_forever st st' i seen :
  silent st -> w_version (tx (flag st)) = seen -> calls st !! i = Some (WaitChanged seen) -> rtc step st st' ->
  calls st' !! i = Some (WaitChanged seen).
Proof.
  intros Hs Hv Hi Hr. induction Hr as [|a b c Hab _ IH]; [done|].
  destruct (silent_step a b i seen Hs Hv Hi Hab) as (Hs' & Hv' & Hi'). by apply IH.
Qed.

Lemma run_steps schedule st st' : run schedule st = Some st' -> rtc step st st'.
Proof.
  revert st. induction schedule as [|[i|c] schedule IH]; intros st; cbn [run].
  - intros [= <-]. constructor.
  - destruct (next st i true) as [st1|] eqn:E; [|done]. intros Hr. eapply rtc_l; [by eapply step_run|by apply IH].
  - intros Hr. eapply rtc_l; [apply step_call|by apply IH].
Qed.

(** [wait_ready] asks first; then the flag is marked, with no receiver to send to; then
    [wait_ready] subscribes. *)
Definition lost_schedule : list (nat + Call) :=
  [inr CallSubscribe; inl 0; inl 0; inr CallWaitReady; inl 1; inl 1; inl 1;
   inr (CallMarkReady 1); inl 2; inl 2; inl 2; inl 1; inl 1].

Definition lost_state : State Chan :=
  {| flag := {| ready := true; next_id := 2; tokens := ∅; tx := w_send false channel |};
     calls := [SubscribeDone (Some 1%Z); WaitChanged (w_version (w_send false channel)); MarkDone 1 (Some true)] |}.

Lemma lost_run : run lost_schedule initial = Some lost_state.
Proof.
  cbn -[w_send w_value w_version channel fresh_token].
  change (fresh_token (size (∅ : gset Z) + 2) 1 ∅) with (Some (1%Z, 2%Z)).
  cbn -[w_send w_value w_version channel].
  rewrite (bool_decide_false ({[1%Z]} ∪ ∅ = ∅)) by set_solver. cbn -[w_send w_value w_version channel].
  rewrite (bool_decide_false (1%Z ∉ {[1%Z]} ∪ ∅)) by set_solver. cbn -[w_send w_value w_version channel].
  unfold lost_state, send. cbn [tx with_ready]. by rewrite !law_send_closed, law_channel.
Qed.

(** A waiter can be lost: there is a run in which the flag is marked ready and [wait_ready] never
    returns, whatever calls are made afterwards. The flag is marked between the first check
    of [wait_ready] and its subscription to the channel; [send] without receivers does not
    keep the value, and [wait_ready] looks at the channel again, not at the flag. *)
Theorem wait_ready_lost_wakeup :
  exists st : State Chan, reachable st /\ ready (flag st) = true /\
    (exists t, calls st !! 2 = Some (MarkDone t (Some true))) /\
    forall st', rtc step st st' -> exists seen, calls st' !! 1 = Some (WaitChanged seen) /\ next st' 1 true = None.
Proof.
  exists lost_state. split; [eapply run_steps, lost_run|]. split; [done|]. split; [by exists 1%Z|].
  intros st' Hst. exists (w_version (w_send false channel)).
  assert (silent lost_state) as Hs.
  { split; [done..|]. intros i pc. do 3 (destruct i as [|i]; [by intros [= <-]|]). done. }
  assert (calls st' !! 1 = Some (WaitChanged (w_version (w_send false channel))) /\ w_version (tx (flag st')) = w_version (w_send false channel))
    as [Hi Hv].
  { clear -Hst Hs Hlaws. set (v := w_version (w_send false channel)).
    assert (w_version (tx (flag lost_state)) = v) as Hv by done. assert (calls lost_state !! 1 = Some (WaitChanged v)) as Hi by done.
    revert Hs Hv Hi. induction Hst as [a|a b c Hab _ IH]; intros Hs Hv Hi; [done|].
    destruct (silent_step a b 1 v Hs Hv Hi Hab) as (? & ? & ?). by apply IH. }
  split; [done|]. unfold next. rewrite Hi. cbn [mbind option_bind exec]. by rewrite Hv, Nat.eqb_refl.
Qed.

(** Asking makes it so: on a flag that nobody subscribed to, [is_ready] answers yes and sets the
    flag, although no token was ever marked. *)
Theorem is_ready_without_tokens :
  exists st : State Chan, reachable st /\ ready (flag st) = true /\ calls st = [ReadyDone true].
Proof.
  destruct (run [inr CallIsReady; inl 0; inl 0; inl 0] (initial (Chan := Chan))) as [st|] eqn:E; [|done].
  exists st. split; [by eapply run_steps|]. cbn in E. by injection E as <-.
Qed.
End LostWakeup.

(** ** A channel *)

Module WatchModel.
Record t := { value : bool; version : nat }.
#[export] Instance watch : Watch t := {|
  channel := {| value := false; version := 0 |};
  w_value := value;
  w_version := version;
  w_send alive ch := if alive then {| value := true; version := S (version ch) |} else ch;
|}.
#[export] Instance laws : WatchLaws t.
Proof. split; [done| |done]. intros ch. simpl. split; [done|lia]. Qed.
End WatchModel.
Import WatchModel.

Lemma readiness_safety_witness :
  exists st : State WatchModel.t, run [inr CallSubscribe; inl 0; inl 0; inr (CallMarkReady 1); inl 1; inl 1; inl 1] initial = Some st /\
    calls st !! 1 = Some (MarkDone 1 (Some true)) /\ ready (flag st) = true /\ exists j, calls st !! j = Some (SubscribeDone (Some 1%Z)).
Proof.
  destruct (run [inr CallSubscribe; inl 0; inl 0; inr (CallMarkReady 1); inl 1; inl 1; inl 1] (initial (Chan := WatchModel.t))) as [st|] eqn:E;
    [|vm_compute in E; discriminate E].
  exists st. split; [done|]. assert (calls st !! 1 = Some (MarkDone 1 (Some true))) as H1 by (vm_compute in E; by injection E as <-).
  split; [done|]. exact (proj1 (proj2 (readiness_safety st (run_steps _ _ _ E))) 1 1%Z H1).
Defined.

Lemma registered_waiter_released_witness :
  let st0 : State WatchModel.t :=
    {| flag := {| ready := false; next_id := 2; tokens := {[1%Z]}; tx := channel |}; calls := [WaitChanged 0; MarkLock 1] |} in
  exists st, run [inl 1; inl 1] st0 = Some st /\ (calls st !! 0 = Some WaitDone \/ released st 0).
Proof.
  intros st0. destruct (run [inl 1; inl 1] st0) as [st|] eqn:E; [|vm_compute in E; discriminate E]. exists st. split; [done|].
  apply (registered_waiter_released st0 st 0 0).
  - done.
  - done.
  - by right.
  - done.
  - by eapply run_steps.
  - vm_compute in E. by injection E as <-.
  - vm_compute in E. injection E as <-. intros j pc. do 2 (destruct j as [|j]; [by intros [= <-]|]). done.
Defined.

Lemma wait_ready_lost_wakeup_witness :
  exists st : State WatchModel.t, reachable st /\ ready (flag st) = true /\
    forall st', rtc step st st' -> next st' 1 true = None.
Proof.
  destruct (wait_ready_lost_wakeup (Chan := WatchModel.t)) as (st & Hr & Hready & _ & Hst). exists st. split; [done|]. split; [done|].
  intros st' Hs. by destruct (Hst st' Hs) as (seen & _ & Hn).
Defined.
