(* ===== verification/NetworkHost.v ===== *)
(** * Hosts and domain patterns of the network proxy

    Models [workx-rs/network-proxy/src/policy.rs]: normalisation of host names and
    addresses, the addresses that are not public, the patterns of the allow and deny lists
    and the comparison of patterns with those of managed requirements. Addresses are read
    as [std::net] reads them; an [Ipv4Addr] is a 32-bit integer and an [Ipv6Addr] its eight
    16-bit segments. The crates [globset] and [url] (hosts) are the classes [GlobCrate] and
    [HostCrate], with what the code relies on as laws. *)
From S2P Require Import Prelude Width.

Set Default Goal Selector "!".
Open Scope Z_scope.

(** ** Reading addresses *)

(** [char::to_digit]. *)
Definition to_digit (radix : Z) (c : char) : option Z :=
  let d := if is_ascii_digit c then c - 48
           else if (97 <=? c) && (c <=? 122) then c - 87
           else if (65 <=? c) && (c <=? 90) then c - 55 else 36 in
  if d <? radix then Some d else None.

Fixpoint read_digits (radix : Z) (s : rstr) : list Z * rstr :=
  match s with
  | [] => ([], [])
  | c :: s' => match to_digit radix c with
               | Some d => let '(ds, rest) := read_digits radix s' in (d :: ds, rest)
               | None => ([], s)
               end
  end.

Definition digits_value (radix : Z) (ds : list Z) : Z := fold_left (fun n d => n * radix + d) ds 0.

(** [Parser::read_number], into an integer type with the given maximum. *)
Definition read_number (radix : Z) (max_digits : nat) (allow_zero_prefix : bool) (max : Z) (s : rstr) : option (Z * rstr) :=
  let '(ds, rest) := read_digits radix s in
  let n := digits_value radix ds in
  if is_empty ds || (max_digits <? length ds)%nat || (max <? n)
     || negb allow_zero_prefix && starts_with (lit "0") s && (1 <? length ds)%nat
  then None else Some (n, rest).

Definition read_given_char (c : char) (s : rstr) : option rstr := strip_prefix [c] s.

(** [Parser::read_separator]: nothing is read when a part is missing. *)
Definition read_separator {A} (sep : char) (index : nat) (inner : rstr -> option (A * rstr)) (s : rstr) : option (A * rstr) :=
  match index with
  | O => inner s
  | S _ => s ← read_given_char sep s; inner s
  end.

Definition DOT_ : char := 46.
Definition COLON_ : char := 58.

Definition read_octet (i : nat) : rstr -> option (Z * rstr) := read_separator DOT_ i (read_number 10 3 false 255).

Definition of_octets (a b c d : Z) : Z := ((a * 256 + b) * 256 + c) * 256 + d.

Definition read_ipv4_addr (s : rstr) : option (Z * rstr) :=
  '(a, s) ← read_octet 0 s; '(b, s) ← read_octet 1 s; '(c, s) ← read_octet 2 s; '(d, s) ← read_octet 3 s;
  Some (of_octets a b c d, s).

(** [read_groups]: the groups, whether they end in an IPv4 address, and the rest. *)
Fixpoint read_groups (remaining i : nat) (s : rstr) : list Z * bool * rstr :=
  match remaining with
  | O => ([], false, s)
  | S remaining =>
      match (if (1 <=? remaining)%nat then read_separator COLON_ i read_ipv4_addr s else None) with
      | Some (v4_addr, s) => ([Z.shiftr v4_addr 16; Z.land v4_addr 65535], true, s)
      | None =>
          match read_separator COLON_ i (read_number 16 4 true 65535) s with
          | Some (g, s) => let '(gs, ipv4, s) := read_groups remaining (S i) s in (g :: gs, ipv4, s)
          | None => ([], false, s)
          end
      end
  end.

Definition read_ipv6_addr (s : rstr) : option (list Z * rstr) :=
  let '(head, head_ipv4, s) := read_groups 8 0 s in
  if (length head =? 8)%nat then Some (head, s)
  else if head_ipv4 then None
  else
    s ← read_given_char COLON_ s; s ← read_given_char COLON_ s;
    let '(tail, _, s) := read_groups (8 - (length head + 1)) 0 s in
    Some (head ++ replicate (8 - length head - length tail) 0 ++ tail, s).

Inductive IpAddr := V4 (ip : Z) | V6 (segments : list Z).

#[export] Instance IpAddr_eq_dec : EqDecision IpAddr.
Proof. solve_decision. Defined.

(** [str::parse::<IpAddr>]: all of the text has to be read. *)
Definition parse_ip (s : rstr) : option IpAddr :=
  match read_ipv4_addr s with
  | Some (ip, rest) => if is_empty rest then Some (V4 ip) else None
  | None => match read_ipv6_addr s with
            | Some (segments, rest) => if is_empty rest then Some (V6 segments) else None
            | None => None
            end
  end.

Definition is_ip (s : rstr) : bool := bool_decide (is_Some (parse_ip s)).

(** ** Addresses that are not public *)

Definition octet (ip : Z) (i : Z) : Z := Z.land (Z.shiftr ip (24 - 8 * i)) 255.

Definition v4_is_loopback (ip : Z) : bool := octet ip 0 =? 127.
Definition v4_is_private (ip : Z) : bool :=
  (octet ip 0 =? 10)
  || ((octet ip 0 =? 172) && (16 <=? octet ip 1) && (octet ip 1 <=? 31))
  || ((octet ip 0 =? 192) && (octet ip 1 =? 168)).
Definition v4_is_link_local (ip : Z) : bool := (octet ip 0 =? 169) && (octet ip 1 =? 254).
Definition v4_is_unspecified (ip : Z) : bool := ip =? 0.
Definition v4_is_multicast (ip : Z) : bool := (224 <=? octet ip 0) && (octet ip 0 <=? 239).
Definition v4_is_broadcast (ip : Z) : bool := ip =? of_octets 255 255 255 255.

Definition U32_MAX : Z := 2 ^ 32 - 1.

(** [u32::MAX << n] drops the bits beyond 32. *)
Definition shl_u32 (x n : Z) : Z := Z.land (Z.shiftl x n) U32_MAX.

Definition ipv4_in_cidr (ip base prefix : Z) : bool :=
  let mask := if prefix =? 0 then 0 else shl_u32 U32_MAX (32 - prefix) in
  Z.land ip mask =? Z.land base mask.

Definition is_non_public_ipv4 (ip : Z) : bool :=
  v4_is_loopback ip || v4_is_private ip || v4_is_link_local ip || v4_is_unspecified ip || v4_is_multicast ip
  || v4_is_broadcast ip
  || ipv4_in_cidr ip (of_octets 0 0 0 0) 8
  || ipv4_in_cidr ip (of_octets 100 64 0 0) 10
  || ipv4_in_cidr ip (of_octets 192 0 0 0) 24
  || ipv4_in_cidr ip (of_octets 192 0 2 0) 24
  || ipv4_in_cidr ip (of_octets 198 18 0 0) 15
  || ipv4_in_cidr ip (of_octets 198 51 100 0) 24
  || ipv4_in_cidr ip (of_octets 203 0 113 0) 24
  || ipv4_in_cidr ip (of_octets 240 0 0 0) 4.

(** [Ipv6Addr::to_ipv4]: mapped and compatible addresses. *)
Definition v6_to_ipv4 (segments : list Z) : option Z :=
  match segments with
  | [0; 0; 0; 0; 0; f; ab; cd] => if (f =? 0) || (f =? 65535) then Some (ab * 65536 + cd) else None
  | _ => None
  end.

Definition v6_is_loopback (segments : list Z) : bool := bool_decide (segments = [0; 0; 0; 0; 0; 0; 0; 1]).
Definition v6_is_unspecified (segments : list Z) : bool := bool_decide (segments = [0; 0; 0; 0; 0; 0; 0; 0]).
Definition first_segment (segments : list Z) : Z := default 0 (head segments).
Definition v6_is_multicast (segments : list Z) : bool := Z.shiftr (first_segment segments) 8 =? 255.
Definition v6_is_unique_local (segments : list Z) : bool := Z.land (first_segment segments) 65024 =? 64512.
Definition v6_is_unicast_link_local (segments : list Z) : bool := Z.land (first_segment segments) 65472 =? 65152.

Definition is_non_public_ipv6 (ip : list Z) : bool :=
  match v6_to_ipv4 ip with
  | Some v4 => is_non_public_ipv4 v4 || v6_is_loopback ip
  | None =>
      v6_is_loopback ip || v6_is_unspecified ip || v6_is_multicast ip || v6_is_unique_local ip
      || v6_is_unicast_link_local ip
  end.

Definition is_non_public_ip (ip : IpAddr) : bool :=
  match ip with V4 ip => is_non_public_ipv4 ip | V6 ip => is_non_public_ipv6 ip end.

Definition is_loopback (ip : IpAddr) : bool :=
  match ip with V4 ip => v4_is_loopback ip | V6 ip => v6_is_loopback ip end.

(** ** Hosts *)

(** [str::split_once] with a string. *)
Definition split_once_str (needle s : rstr) : option (rstr * rstr) :=
  i ← find_sub needle s; Some (take i s, drop (i + length needle) s).

Definition PERCENT : char := 37.

Definition unscoped_ip_literal (host : rstr) : option rstr :=
  '(ip, _) ← split_once PERCENT host; if is_ip ip then Some ip else None.

Definition scoped_ip (delimiter host : rstr) : option rstr :=
  '(ip, scope) ← split_once_str delimiter host;
  if is_ip ip then Some (ip ++ [PERCENT] ++ scope) else None.

Definition normalize_ip_literal (host : rstr) : option rstr :=
  if is_ip host then Some host
  else match scoped_ip (lit "%25") host with
       | Some h => Some h
       | None => scoped_ip (lit "%") host
       end.

Definition normalize_dns_host_or_ip_literal (host : rstr) : rstr :=
  let host := trim_end_matches DOT_ (to_ascii_lowercase host) in
  default host (normalize_ip_literal host).

Definition normalize_host (host : rstr) : rstr :=
  let host := trim host in
  match (if starts_with (lit "[") host then split_once 93 host else None) with
  | Some (inner, _) => normalize_dns_host_or_ip_literal (drop 1 inner)
  | None =>
      if (length (List.filter (Z.eqb COLON_) host) =? 1)%nat
      then normalize_dns_host_or_ip_literal (default [] (head (split_char COLON_ host)))
      else normalize_dns_host_or_ip_literal host
  end.

(** [Host::parse]; the only error is that the host is empty. *)
Definition host_parse (input : rstr) : option rstr :=
  let normalized := normalize_host input in
  if is_empty normalized then None else Some normalized.

Definition is_loopback_host (host : rstr) : bool :=
  let host := default host (unscoped_ip_literal host) in
  if streq host (lit "localhost") then true
  else match parse_ip host with Some ip => is_loopback ip | None => false end.

(** ** Domain patterns *)

Inductive DomainPattern :=
| ApexAndSubdomains (domain : rstr)
| SubdomainsOnly (domain : rstr)
| Exact (domain : rstr).

Definition DEEP : rstr := lit "**.".
Definition SUB : rstr := lit "*.".

Definition normalize_pattern (pattern : rstr) : rstr :=
  let pattern := trim pattern in
  if streq pattern (lit "*") then lit "*"
  else match strip_prefix DEEP pattern with
       | Some domain => DEEP ++ normalize_host domain
       | None => match strip_prefix SUB pattern with
                 | Some domain => SUB ++ normalize_host domain
                 | None => normalize_host pattern
                 end
       end.

Definition parse_domain (domain : rstr) (build : rstr -> DomainPattern) : DomainPattern :=
  let domain := trim domain in if is_empty domain then Exact [] else build domain.

Definition pattern_parse (input : rstr) : DomainPattern :=
  let input := trim input in
  if is_empty input then Exact []
  else match strip_prefix DEEP input with
       | Some domain => parse_domain domain ApexAndSubdomains
       | None => match strip_prefix SUB input with
                 | Some domain => parse_domain domain SubdomainsOnly
                 | None => Exact input
                 end
       end.

Definition expand_domain_pattern (pattern : rstr) : list rstr :=
  match pattern_parse pattern with
  | Exact domain => [domain]
  | SubdomainsOnly domain => [lit "?*." ++ domain]
  | ApexAndSubdomains domain => [domain; lit "?*." ++ domain]
  end.

Definition is_global_wildcard_domain_pattern (pattern : rstr) : bool :=
  existsb (streq (lit "*")) (expand_domain_pattern (normalize_pattern pattern)).

Definition normalize_domain (domain : rstr) : rstr := to_ascii_lowercase (trim_end_matches DOT_ domain).

Definition domain_eq (left_ right_ : rstr) : bool := streq (normalize_domain left_) (normalize_domain right_).

Definition is_subdomain_or_equal (child parent : rstr) : bool :=
  let child := normalize_domain child in
  let parent := normalize_domain parent in
  streq child parent || ends_with (DOT_ :: parent) child.

Definition is_strict_subdomain (child parent : rstr) : bool :=
  let child := normalize_domain child in
  let parent := normalize_domain parent in
  negb (streq child parent) && ends_with (DOT_ :: parent) child.

Definition allows (self candidate : DomainPattern) : bool :=
  match self, candidate with
  | Exact domain, Exact candidate => domain_eq candidate domain
  | Exact _, _ => false
  | SubdomainsOnly domain, Exact candidate => is_strict_subdomain candidate domain
  | SubdomainsOnly domain, SubdomainsOnly candidate => is_subdomain_or_equal candidate domain
  | SubdomainsOnly domain, ApexAndSubdomains candidate => is_strict_subdomain candidate domain
  | ApexAndSubdomains domain, (Exact candidate | SubdomainsOnly candidate | ApexAndSubdomains candidate) =>
      is_subdomain_or_equal candidate domain
  end.

(** [url::Host::parse] with [to_string]. *)
Class HostCrate := url_host_parse : rstr -> option rstr.

Definition parse_domain_for_constraints `{HostCrate} (domain : rstr) : rstr :=
  let domain := trim_end_matches DOT_ (trim domain) in
  if is_empty domain then []
  else
    let host := if starts_with (lit "[") domain && ends_with (lit "]") domain
                then take (length domain - 2) (drop 1 domain) else domain in
    if existsb (fun c => contains_char c host) (lit "*?%") then domain
    else match url_host_parse host with Some host => host | None => [] end.

Definition parse_for_constraints `{HostCrate} (input : rstr) : DomainPattern :=
  let input := trim input in
  if is_empty input then Exact []
  else match strip_prefix DEEP input with
       | Some domain => ApexAndSubdomains (parse_domain_for_constraints domain)
       | None => match strip_prefix SUB input with
                 | Some domain => SubdomainsOnly (parse_domain_for_constraints domain)
                 | None => Exact (parse_domain_for_constraints input)
                 end
       end.

(** ** Compiled lists *)

(** [globset]: globs that ignore case, and sets of them. [glob_build] and [globset_build]
    can refuse. *)
Class GlobCrate (Glob GlobSet : Type) := {
  glob_build : rstr -> option Glob;
  glob_is_match : Glob -> rstr -> bool;
  globset_build : list Glob -> option GlobSet;
  globset_is_match : GlobSet -> rstr -> bool;
}.

Inductive GlobalWildcard := WildcardAllow | WildcardReject.

Inductive CompileError := UnsupportedGlobalWildcard | InvalidGlob (candidate : rstr) | InvalidGlobSet.

Section Compile.
Context {Glob GlobSet : Type} `{GlobCrate Glob GlobSet}.

Definition add_candidate (st : list rstr * list Glob) (candidate : rstr) : res CompileError (list rstr * list Glob) :=
  let '(seen, globs) := st in
  if bool_decide (candidate ∈ seen) then Ok st
  else glob ← ok_or (glob_build candidate) (InvalidGlob candidate); Ok (candidate :: seen, globs ++ [glob]).

Definition add_pattern (global_wildcard : GlobalWildcard) (st : list rstr * list Glob) (pattern : rstr)
    : res CompileError (list rstr * list Glob) :=
  if match global_wildcard with WildcardReject => is_global_wildcard_domain_pattern pattern | WildcardAllow => false end
  then Err UnsupportedGlobalWildcard
  else fold_res add_candidate st (expand_domain_pattern (normalize_pattern pattern)).

Definition compile_globset_with_policy (patterns : list rstr) (global_wildcard : GlobalWildcard) : res CompileError GlobSet :=
  '(_, globs) ← fold_res (add_pattern global_wildcard) ([], []) patterns;
  ok_or (globset_build globs) InvalidGlobSet.

Definition compile_allowlist_globset (patterns : list rstr) : res CompileError GlobSet :=
  compile_globset_with_policy patterns WildcardAllow.

Definition compile_denylist_globset (patterns : list rstr) : res CompileError GlobSet :=
  compile_globset_with_policy patterns WildcardReject.

Definition globset_matches_host_or_unscoped (set : GlobSet) (host : rstr) : bool :=
  globset_is_match set host || match unscoped_ip_literal host with Some ip => globset_is_match set ip | None => false end.
End Compile.
