(* ===== verification/NetworkProxy.v ===== *)
(** * The network proxy: configuration, managed requirements and decisions

    Models [workx-rs/network-proxy/src/config.rs] (the configuration), [state.rs]
    (compilation and validation against managed requirements), [runtime.rs] (the state:
    which hosts are blocked, the log of blocked requests, changes of the lists and of the
    mode), [network_policy.rs] (the decision on a request) and [connect_policy.rs] (the
    check of the address that is connected to). The state is what the lock guards. The
    hooks of [mitm_hook.rs], the reloader, DNS and the observers are parameters; of the
    errors only the kind is kept. *)
From stdpp Require Import gmap.
From S2P Require Import Prelude Width AbsPath NetworkHost.

Set Default Goal Selector "!".
Open Scope Z_scope.

(** ** Configuration *)

Inductive NetworkDomainPermission := PermNone | PermAllow | PermDeny.

#[export] Instance NetworkDomainPermission_eq_dec : EqDecision NetworkDomainPermission.
Proof. solve_decision. Defined.

(** The derived order of the variants. *)
Definition perm_rank (p : NetworkDomainPermission) : Z := match p with PermNone => 0 | PermAllow => 1 | PermDeny => 2 end.

Record NetworkDomainPermissionEntry := { de_pattern : rstr; de_permission : NetworkDomainPermission }.

#[export] Instance NetworkDomainPermissionEntry_eq_dec : EqDecision NetworkDomainPermissionEntry.
Proof. solve_decision. Defined.

(** [NetworkDomainPermissions]. *)
Abbreviation Domains := (list NetworkDomainPermissionEntry) (only parsing).

Record Effective := { ef_order : list rstr; ef_permissions : gmap rstr NetworkDomainPermission }.

Definition effective_step (st : Effective) (entry : NetworkDomainPermissionEntry) : Effective :=
  match ef_permissions st !! de_pattern entry with
  | None => {| ef_order := ef_order st ++ [de_pattern entry];
               ef_permissions := <[de_pattern entry := de_permission entry]> (ef_permissions st) |}
  | Some permission =>
      if perm_rank permission <? perm_rank (de_permission entry)
      then {| ef_order := ef_order st; ef_permissions := <[de_pattern entry := de_permission entry]> (ef_permissions st) |}
      else st
  end.

Definition effective_entries (entries : Domains) : Domains :=
  let st := fold_left effective_step entries {| ef_order := []; ef_permissions := ∅ |} in
  omap (fun pattern => permission ← ef_permissions st !! pattern;
                       Some {| de_pattern := pattern; de_permission := permission |}) (ef_order st).

Inductive NetworkUnixSocketPermission := SocketAllow | SocketDeny.

#[export] Instance NetworkUnixSocketPermission_eq_dec : EqDecision NetworkUnixSocketPermission.
Proof. solve_decision. Defined.

Inductive NetworkMode := Limited | Full.

#[export] Instance NetworkMode_eq_dec : EqDecision NetworkMode.
Proof. solve_decision. Defined.

Definition allows_method (self : NetworkMode) (method : rstr) : bool :=
  match self with
  | Full => true
  | Limited => existsb (fun m => streq method (lit m)) ["GET"; "HEAD"; "OPTIONS"]%string
  end.

Definition network_mode_rank (mode : NetworkMode) : Z := match mode with Limited => 0 | Full => 1 end.

(** [unix_sockets] lists its entries in the order of the keys; [mitm_hooks] is a parameter. *)
Record NetworkProxyConfig {Hooks : Type} := {
  nc_enabled : bool;
  nc_proxy_url : rstr;
  nc_enable_socks5 : bool;
  nc_socks_url : rstr;
  nc_enable_socks5_udp : bool;
  nc_allow_upstream_proxy : bool;
  nc_dangerously_allow_non_loopback_proxy : bool;
  nc_dangerously_allow_all_unix_sockets : bool;
  nc_mode : NetworkMode;
  nc_domains : option Domains;
  nc_unix_sockets : option (list (rstr * NetworkUnixSocketPermission));
  nc_allow_local_binding : bool;
  nc_mitm : bool;
  nc_credential_broker : bool;
  nc_credential_broker_openai_host : option rstr;
  nc_dangerously_allow_plaintext_credential_injection : bool;
  nc_mitm_hooks : Hooks;
}.
Arguments NetworkProxyConfig : clear implicits.

#[export] Instance NetworkProxyConfig_eq_dec {Hooks} `{EqDecision Hooks} : EqDecision (NetworkProxyConfig Hooks).
Proof. solve_decision. Defined.

Record NetworkProxyConstraints := {
  k_enabled : option bool;
  k_mode : option NetworkMode;
  k_allow_upstream_proxy : option bool;
  k_dangerously_allow_non_loopback_proxy : option bool;
  k_dangerously_allow_all_unix_sockets : option bool;
  k_allowed_domains : option (list rstr);
  k_allowlist_expansion_enabled : option bool;
  k_denied_domains : option (list rstr);
  k_denylist_expansion_enabled : option bool;
  k_allow_unix_sockets : option (list rstr);
  k_allow_local_binding : option bool;
}.

#[export] Instance NetworkProxyConstraints_eq_dec : EqDecision NetworkProxyConstraints.
Proof. solve_decision. Defined.

Section Config.
Context {Hooks : Type}.
Abbreviation config := (NetworkProxyConfig Hooks).

Definition domain_entries (self : config) (permission : NetworkDomainPermission) : option (list rstr) :=
  domains ← nc_domains self;
  let entries := map de_pattern (List.filter (fun entry => bool_decide (de_permission entry = permission)) (effective_entries domains)) in
  if is_empty entries then None else Some entries.

Definition allowed_domains (self : config) : option (list rstr) := domain_entries self PermAllow.
Definition denied_domains (self : config) : option (list rstr) := domain_entries self PermDeny.

Definition allow_unix_sockets (self : config) : list rstr :=
  match nc_unix_sockets self with
  | None => []
  | Some entries => map fst (List.filter (fun e => bool_decide (e.2 = SocketAllow)) entries)
  end.

Definition with_domains (self : config) (domains : option Domains) : config :=
  {| nc_enabled := nc_enabled self; nc_proxy_url := nc_proxy_url self; nc_enable_socks5 := nc_enable_socks5 self;
     nc_socks_url := nc_socks_url self; nc_enable_socks5_udp := nc_enable_socks5_udp self;
     nc_allow_upstream_proxy := nc_allow_upstream_proxy self;
     nc_dangerously_allow_non_loopback_proxy := nc_dangerously_allow_non_loopback_proxy self;
     nc_dangerously_allow_all_unix_sockets := nc_dangerously_allow_all_unix_sockets self;
     nc_mode := nc_mode self; nc_domains := domains; nc_unix_sockets := nc_unix_sockets self;
     nc_allow_local_binding := nc_allow_local_binding self; nc_mitm := nc_mitm self;
     nc_credential_broker := nc_credential_broker self;
     nc_credential_broker_openai_host := nc_credential_broker_openai_host self;
     nc_dangerously_allow_plaintext_credential_injection := nc_dangerously_allow_plaintext_credential_injection self;
     nc_mitm_hooks := nc_mitm_hooks self |}.

(** The fields that [build_config_state] and [set_network_mode] change. *)
Definition with_switches (self : config) (enabled credential_broker : bool) (mode : NetworkMode) : config :=
  {| nc_enabled := enabled; nc_proxy_url := nc_proxy_url self; nc_enable_socks5 := nc_enable_socks5 self;
     nc_socks_url := nc_socks_url self; nc_enable_socks5_udp := nc_enable_socks5_udp self;
     nc_allow_upstream_proxy := nc_allow_upstream_proxy self;
     nc_dangerously_allow_non_loopback_proxy := nc_dangerously_allow_non_loopback_proxy self;
     nc_dangerously_allow_all_unix_sockets := nc_dangerously_allow_all_unix_sockets self;
     nc_mode := mode; nc_domains := nc_domains self; nc_unix_sockets := nc_unix_sockets self;
     nc_allow_local_binding := nc_allow_local_binding self; nc_mitm := nc_mitm self;
     nc_credential_broker := credential_broker;
     nc_credential_broker_openai_host := nc_credential_broker_openai_host self;
     nc_dangerously_allow_plaintext_credential_injection := nc_dangerously_allow_plaintext_credential_injection self;
     nc_mitm_hooks := nc_mitm_hooks self |}.

Definition non_empty_domains (entries : Domains) : option Domains := if is_empty entries then None else Some entries.

Definition upsert_domain_permission (self : config) (host : rstr) (permission : NetworkDomainPermission)
    (normalize : rstr -> rstr) : config :=
  let domains := default [] (nc_domains self) in
  let normalized_host := normalize host in
  let kept := List.filter (fun entry => negb (streq (normalize (de_pattern entry)) normalized_host)) domains in
  with_domains self (non_empty_domains (kept ++ [{| de_pattern := host; de_permission := permission |}])).

Definition push_entry (permission : NetworkDomainPermission) (entries : Domains) (entry : rstr) : Domains :=
  if existsb (fun existing => streq (de_pattern existing) entry && bool_decide (de_permission existing = permission)) entries
  then entries else entries ++ [{| de_pattern := entry; de_permission := permission |}].

Definition set_domain_entries (self : config) (entries : list rstr) (permission : NetworkDomainPermission) : config :=
  let domains := default [] (nc_domains self) in
  let kept := List.filter (fun entry => negb (bool_decide (de_permission entry = permission))) domains in
  with_domains self (non_empty_domains (fold_left (push_entry permission) entries kept)).

Definition set_allowed_domains (self : config) (entries : list rstr) : config := set_domain_entries self entries PermAllow.
Definition set_denied_domains (self : config) (entries : list rstr) : config := set_domain_entries self entries PermDeny.

(** [validate_unix_socket_allowlist_paths] on Unix: every path is absolute. *)
Definition validate_unix_socket_allowlist_paths (self : config) : bool :=
  forallb (starts_with (lit "/")) (allow_unix_sockets self).
End Config.

(** ** The state *)

Record BlockedRequest := {
  br_host : rstr;
  br_reason : rstr;
  br_client : option rstr;
  br_method : option rstr;
  br_mode : option NetworkMode;
  br_protocol : rstr;
  br_execution_id : option rstr;
  br_decision : option rstr;
  br_source : option rstr;
  br_port : option Z;
  br_timestamp : Z;
}.

Definition with_execution_id (r : BlockedRequest) (id : option rstr) : BlockedRequest :=
  {| br_host := br_host r; br_reason := br_reason r; br_client := br_client r; br_method := br_method r; br_mode := br_mode r;
     br_protocol := br_protocol r; br_execution_id := id; br_decision := br_decision r; br_source := br_source r;
     br_port := br_port r; br_timestamp := br_timestamp r |}.

Definition MAX_BLOCKED_EVENTS : nat := 200.
Definition U64_MAX : Z := 2 ^ 64 - 1.

Inductive HostBlockReason := Denied | NotAllowed | NotAllowedLocal.

#[export] Instance HostBlockReason_eq_dec : EqDecision HostBlockReason.
Proof. solve_decision. Defined.

Inductive HostBlockDecision := Allowed | Blocked (reason : HostBlockReason).

#[export] Instance HostBlockDecision_eq_dec : EqDecision HostBlockDecision.
Proof. solve_decision. Defined.

Definition reason_str (r : HostBlockReason) : rstr :=
  match r with Denied => lit "denied" | NotAllowed => lit "not_allowed" | NotAllowedLocal => lit "not_allowed_local" end.

Inductive NetError :=
| InvalidValue (field_name : string)
| InvalidUnixSocketPath
| BrokerRequiresMitm
| CompileFailed (e : CompileError)
| InvalidHooks
| MitmFailed
| InvalidHost
| ReloadFailed.

(** What the code uses of [mitm_hook.rs] and [mitm.rs]: whether the hooks are valid, their
    compiled form, and the state of the interception, all of which can fail. *)
Class MitmOps (Hooks Compiled Mitm : Type) := {
  validate_mitm_hook_config : NetworkProxyConfig Hooks -> bool;
  compile_mitm_hooks : NetworkProxyConfig Hooks -> option Compiled;
  mitm_new : bool -> option Mitm;
}.

(** ** Requests *)

Inductive NetworkProtocol := Http | HttpsConnect | Socks5Tcp | Socks5Udp.
Inductive NetworkPolicyDecision := DecisionDeny | DecisionAsk.
Inductive NetworkDecisionSource := BaselinePolicy | ModeGuard | ProxyState | Decider.

(** [disconnect] identifies a handle of the transport. *)
Record NetworkPolicyRequest := {
  nr_protocol : NetworkProtocol;
  nr_host : rstr;
  nr_port : Z;
  nr_environment_id : option rstr;
  nr_client_addr : option rstr;
  nr_method : option rstr;
  nr_command : option rstr;
  nr_exec_policy_hint : option rstr;
  nr_execution_id : option rstr;
  nr_disconnect : option Z;
}.

Inductive NetworkDecision :=
| NetAllow
| NetDeny (reason : rstr) (source : NetworkDecisionSource) (decision : NetworkPolicyDecision).

Definition REASON_POLICY_DENIED : rstr := lit "policy_denied".

Definition deny_with_source (reason : rstr) (source : NetworkDecisionSource) : NetworkDecision :=
  NetDeny (if is_empty reason then REASON_POLICY_DENIED else reason) source DecisionDeny.

Definition map_decider_decision (decision : NetworkDecision) : NetworkDecision :=
  match decision with
  | NetAllow => NetAllow
  | NetDeny reason _ decision => NetDeny reason Decider decision
  end.

Definition decision_str (d : NetworkPolicyDecision) : rstr := match d with DecisionDeny => lit "deny" | DecisionAsk => lit "ask" end.

Definition source_str (s : NetworkDecisionSource) : rstr :=
  match s with
  | BaselinePolicy => lit "baseline_policy"
  | ModeGuard => lit "mode_guard"
  | ProxyState => lit "proxy_state"
  | Decider => lit "decider"
  end.

Record PolicyAuditEventArgs := {
  ae_scope : rstr;
  ae_decision : rstr;
  ae_source : rstr;
  ae_reason : rstr;
  ae_protocol : NetworkProtocol;
  ae_server_address : rstr;
  ae_server_port : Z;
  ae_method : option rstr;
  ae_client_addr : option rstr;
  ae_execution_id : option rstr;
  ae_policy_override : bool;
}.

Definition request_for_decider (request : NetworkPolicyRequest) (environment_id execution_id : option rstr) : NetworkPolicyRequest :=
  {| nr_protocol := nr_protocol request; nr_host := nr_host request; nr_port := nr_port request;
     nr_environment_id := match nr_environment_id request with Some e => Some e | None => environment_id end;
     nr_client_addr := nr_client_addr request; nr_method := nr_method request; nr_command := nr_command request;
     nr_exec_policy_hint := nr_exec_policy_hint request; nr_execution_id := execution_id;
     nr_disconnect := nr_disconnect request |}.

Inductive DomainListKind := ListAllow | ListDeny.

Definition list_permission (self : DomainListKind) : NetworkDomainPermission :=
  match self with ListAllow => PermAllow | ListDeny => PermDeny end.

Definition FIELD_ALLOWED : string := "network.allowed_domains".
Definition FIELD_DENIED : string := "network.denied_domains".

Section State.
Context {Glob GlobSet : Type} `{GlobCrate Glob GlobSet} `{HostCrate}.
Context {Hooks Compiled Mitm : Type} `{EqDecision Hooks} `{MitmOps Hooks Compiled Mitm}.
Abbreviation config := (NetworkProxyConfig Hooks).

Record ConfigState := {
  st_config : config;
  st_brokerage_created_default_allowlist : bool;
  st_allow_set : GlobSet;
  st_deny_set : GlobSet;
  st_mitm : option Mitm;
  st_mitm_hooks : Compiled;
  st_constraints : NetworkProxyConstraints;
  st_blocked : list BlockedRequest;
  st_blocked_total : Z;
}.

Definition with_blocked (self : ConfigState) (blocked : list BlockedRequest) (blocked_total : Z) : ConfigState :=
  {| st_config := st_config self; st_brokerage_created_default_allowlist := st_brokerage_created_default_allowlist self;
     st_allow_set := st_allow_set self; st_deny_set := st_deny_set self; st_mitm := st_mitm self;
     st_mitm_hooks := st_mitm_hooks self; st_constraints := st_constraints self;
     st_blocked := blocked; st_blocked_total := blocked_total |}.

Definition with_config (self : ConfigState) (cfg : config) : ConfigState :=
  {| st_config := cfg; st_brokerage_created_default_allowlist := st_brokerage_created_default_allowlist self;
     st_allow_set := st_allow_set self; st_deny_set := st_deny_set self; st_mitm := st_mitm self;
     st_mitm_hooks := st_mitm_hooks self; st_constraints := st_constraints self;
     st_blocked := st_blocked self; st_blocked_total := st_blocked_total self |}.

Definition validate_non_global_wildcard_domain_patterns (field_name : string) (patterns : list rstr) : res NetError unit :=
  if existsb is_global_wildcard_domain_pattern patterns then Err (InvalidValue field_name) else Ok ().

(** ** Compilation *)

Definition build_config_state (cfg : config) (constraints : NetworkProxyConstraints) : res NetError ConfigState :=
  let credential_broker := if bool_decide (k_enabled constraints = Some false) then false else nc_credential_broker cfg in
  let brokerage_created_proxy := credential_broker && negb (nc_enabled cfg) in
  let brokerage_created_default_allowlist :=
    brokerage_created_proxy && bool_decide (allowed_domains cfg = None) && bool_decide (k_allowed_domains constraints = None) in
  let cfg := with_switches cfg (nc_enabled cfg || brokerage_created_proxy) credential_broker (nc_mode cfg) in
  let cfg := if brokerage_created_default_allowlist then set_allowed_domains cfg [lit "*"] else cfg in
  if negb (validate_unix_socket_allowlist_paths cfg) then Err InvalidUnixSocketPath
  else if nc_credential_broker cfg && negb (nc_mitm cfg) then Err BrokerRequiresMitm
  else
    let allowed := default [] (allowed_domains cfg) in
    let denied := default [] (denied_domains cfg) in
    _ ← validate_non_global_wildcard_domain_patterns FIELD_DENIED denied;
    deny_set ← map_err CompileFailed (compile_denylist_globset denied);
    allow_set ← map_err CompileFailed (compile_allowlist_globset allowed);
    mitm_hooks ← ok_or (compile_mitm_hooks cfg) InvalidHooks;
    mitm ← (if nc_mitm cfg then mitm ← ok_or (mitm_new (nc_allow_upstream_proxy cfg)) MitmFailed; Ok (Some mitm) else Ok None);
    Ok {| st_config := cfg; st_brokerage_created_default_allowlist := brokerage_created_default_allowlist;
          st_allow_set := allow_set; st_deny_set := deny_set; st_mitm := mitm; st_mitm_hooks := mitm_hooks;
          st_constraints := constraints; st_blocked := []; st_blocked_total := 0 |}.

(** ** Managed requirements *)

Definition lower_set (l : list rstr) : gset rstr := list_to_set (map to_ascii_lowercase l).

(** A check that fails names its field. *)
Definition require (b : bool) (field_name : string) : res NetError unit := if b then Ok () else Err (InvalidValue field_name).

(** A switch that the requirements turned off has to be off. *)
Definition switch_ok (candidate : bool) (constraint : option bool) : bool :=
  match constraint with Some false => negb candidate | _ => true end.

Definition validate_allowed_domains (constraints : NetworkProxyConstraints) (candidate : list rstr)
    (denied_domain_overrides : gset rstr) : res NetError unit :=
  match k_allowed_domains constraints with
  | None => Ok ()
  | Some managed =>
      _ ← validate_non_global_wildcard_domain_patterns FIELD_ALLOWED managed;
      let required_set := lower_set managed in
      let candidate_set := lower_set candidate in
      match k_allowlist_expansion_enabled constraints with
      | Some true => require (bool_decide (required_set ⊆ candidate_set ∪ denied_domain_overrides)) FIELD_ALLOWED
      | Some false => require (bool_decide (candidate_set = required_set ∖ denied_domain_overrides)) FIELD_ALLOWED
      | None =>
          let managed_patterns := map parse_for_constraints managed in
          require (forallb (fun entry => existsb (fun m => allows m (parse_for_constraints entry)) managed_patterns) candidate)
            FIELD_ALLOWED
      end
  end.

Definition validate_denied_domains (constraints : NetworkProxyConstraints) (candidate : list rstr) : res NetError unit :=
  match k_denied_domains constraints with
  | None => Ok ()
  | Some managed =>
      _ ← validate_non_global_wildcard_domain_patterns FIELD_DENIED managed;
      let required_set := lower_set managed in
      let candidate_set := lower_set candidate in
      match k_denylist_expansion_enabled constraints with
      | Some false => require (bool_decide (candidate_set = required_set)) FIELD_DENIED
      | Some true | None => require (bool_decide (required_set ⊆ candidate_set)) FIELD_DENIED
      end
  end.

Definition validate_policy_against_constraints (cfg : config) (constraints : NetworkProxyConstraints) : res NetError unit :=
  let config_allowed_domains := default [] (allowed_domains cfg) in
  let config_denied_domains := default [] (denied_domains cfg) in
  let denied_domain_overrides := lower_set config_denied_domains in
  let config_allow_unix_sockets := allow_unix_sockets cfg in
  _ ← require (validate_mitm_hook_config cfg) "network.mitm_hooks";
  _ ← validate_non_global_wildcard_domain_patterns FIELD_DENIED config_denied_domains;
  _ ← require (switch_ok (nc_enabled cfg) (k_enabled constraints)) "network.enabled";
  _ ← require (match k_mode constraints with
               | Some max_mode => negb (network_mode_rank max_mode <? network_mode_rank (nc_mode cfg))
               | None => true
               end) "network.mode";
  _ ← require (switch_ok (nc_allow_upstream_proxy cfg) (k_allow_upstream_proxy constraints)) "network.allow_upstream_proxy";
  _ ← require (switch_ok (nc_dangerously_allow_non_loopback_proxy cfg) (k_dangerously_allow_non_loopback_proxy constraints))
        "network.dangerously_allow_non_loopback_proxy";
  let allow_all_unix_sockets :=
    default (bool_decide (k_allow_unix_sockets constraints = None)) (k_dangerously_allow_all_unix_sockets constraints) in
  _ ← require (negb (nc_dangerously_allow_all_unix_sockets cfg && negb allow_all_unix_sockets))
        "network.dangerously_allow_all_unix_sockets";
  _ ← require (switch_ok (nc_allow_local_binding cfg) (k_allow_local_binding constraints)) "network.allow_local_binding";
  _ ← validate_allowed_domains constraints config_allowed_domains denied_domain_overrides;
  _ ← validate_denied_domains constraints config_denied_domains;
  match k_allow_unix_sockets constraints with
  | None => Ok ()
  | Some managed =>
      let allowed_set := lower_set managed in
      require (forallb (fun entry => bool_decide (to_ascii_lowercase entry ∈ allowed_set)) config_allow_unix_sockets)
        "network.allow_unix_sockets"
  end.

(** ** Decisions *)

Definition host_resolves_to_non_public_ip (lookup : rstr -> Z -> option (list IpAddr)) (host : rstr) (port : Z) : bool :=
  match parse_ip host with
  | Some ip => is_non_public_ip ip
  | None => match lookup host port with Some addrs => existsb is_non_public_ip addrs | None => true end
  end.

Definition is_explicit_local_allowlisted (allowed_domains : list rstr) (host : rstr) : bool :=
  let unscoped_host := unscoped_ip_literal host in
  existsb (fun pattern =>
    let pattern := trim pattern in
    if streq pattern (lit "*") || starts_with SUB pattern || starts_with DEEP pattern then false
    else if contains_char 42 pattern || contains_char 63 pattern then false
    else
      let normalized_pattern := normalize_host pattern in
      streq normalized_pattern host || bool_decide (unscoped_host = Some normalized_pattern)) allowed_domains.

Definition local_literal (host : rstr) : bool :=
  let host_no_scope := default host (unscoped_ip_literal host) in
  if is_loopback_host host then true
  else match parse_ip host_no_scope with Some ip => is_non_public_ip ip | None => false end.

(** [host_blocked], on the state after [reload_if_needed]; [lookup] is the resolver, [None]
    when it fails or takes too long. *)
Definition host_blocked (lookup : rstr -> Z -> option (list IpAddr)) (self : ConfigState) (host : rstr) (port : Z) : HostBlockDecision :=
  match host_parse host with
  | None => Blocked NotAllowed
  | Some host =>
      let allowed := allowed_domains (st_config self) in
      if globset_matches_host_or_unscoped (st_deny_set self) host then Blocked Denied
      else
        let is_allowlisted := globset_matches_host_or_unscoped (st_allow_set self) host in
        let local_refused :=
          if nc_allow_local_binding (st_config self) then false
          else if local_literal host then negb (is_explicit_local_allowlisted (default [] allowed) host)
          else host_resolves_to_non_public_ip lookup host port in
        if local_refused then Blocked NotAllowedLocal
        else if bool_decide (allowed = None) || negb is_allowlisted then Blocked NotAllowed
        else Allowed
  end.

(** [evaluate_host_policy]; [environment_id] and [execution_id] belong to the handle the
    request came through. The decider is asked only about hosts that are not on the list. *)
Definition evaluate_host_policy (lookup : rstr -> Z -> option (list IpAddr)) (self : ConfigState)
    (environment_id execution_id : option rstr) (decider : option (NetworkPolicyRequest -> NetworkDecision))
    (request : NetworkPolicyRequest) : NetworkDecision * PolicyAuditEventArgs :=
  let '(decision, policy_override) :=
    match host_blocked lookup self (nr_host request) (nr_port request) with
    | Allowed => (NetAllow, false)
    | Blocked NotAllowed =>
        match decider with
        | Some decide =>
            let decision := map_decider_decision (decide (request_for_decider request environment_id execution_id)) in
            (decision, match decision with NetAllow => true | NetDeny _ _ _ => false end)
        | None => (deny_with_source (reason_str NotAllowed) BaselinePolicy, false)
        end
    | Blocked reason => (deny_with_source (reason_str reason) BaselinePolicy, false)
    end in
  let '(policy_decision, source, reason) :=
    match decision with
    | NetAllow => (lit "allow", if policy_override then Decider else BaselinePolicy,
                   if policy_override then reason_str NotAllowed else lit "allow")
    | NetDeny reason source decision => (decision_str decision, source, reason)
    end in
  (decision, {| ae_scope := lit "domain"; ae_decision := policy_decision; ae_source := source_str source; ae_reason := reason;
                ae_protocol := nr_protocol request; ae_server_address := nr_host request; ae_server_port := nr_port request;
                ae_method := nr_method request; ae_client_addr := nr_client_addr request; ae_execution_id := execution_id;
                ae_policy_override := policy_override |}).

(** The host of a connection, as the HTTP stack parsed it. *)
Inductive TargetHost := TargetAddress (ip : IpAddr) | TargetName (name : rstr).

Definition is_localhost (name : rstr) : bool := streq (to_ascii_lowercase (trim_end_matches DOT_ name)) (lit "localhost").

Definition target_matches_non_public_addr (host : TargetHost) (addr : IpAddr) : bool :=
  match host with
  | TargetAddress ip => bool_decide (ip = addr)
  | TargetName name => is_localhost name && is_loopback addr
  end.

(** [allows_non_public_target]; [target_text] prints a host. *)
Definition allows_non_public_target (target_text : TargetHost -> rstr) (lookup : rstr -> Z -> option (list IpAddr))
    (self : ConfigState) (target : TargetHost) (port : Z) (addr : IpAddr) : bool :=
  if nc_allow_local_binding (st_config self) then true
  else if negb (target_matches_non_public_addr target addr) then false
  else bool_decide (host_blocked lookup self (target_text target) port = Allowed).

(** Whether [connect] opens a connection to the address. *)
Definition may_connect (target_text : TargetHost -> rstr) (lookup : rstr -> Z -> option (list IpAddr))
    (self : ConfigState) (target : TargetHost) (port : Z) (addr : IpAddr) : bool :=
  negb (is_non_public_ip addr && negb (allows_non_public_target target_text lookup self target port addr)).

(** ** The log of blocked requests *)

Fixpoint pop_front_while (l : list BlockedRequest) : list BlockedRequest :=
  if (MAX_BLOCKED_EVENTS <? length l)%nat then match l with [] => [] | _ :: l => pop_front_while l end else l.

Definition record_blocked (self : ConfigState) (execution_id : option rstr) (entry : BlockedRequest) : ConfigState :=
  with_blocked self (pop_front_while (st_blocked self ++ [with_execution_id entry execution_id]))
    (Z.min (st_blocked_total self + 1) U64_MAX).

Definition drain_blocked (self : ConfigState) : list BlockedRequest * ConfigState :=
  (st_blocked self, with_blocked self [] (st_blocked_total self)).

(** ** Changes *)

(** [reload_if_needed]; [reload] is what the reloader answers. *)
Definition reload_if_needed (reload : res NetError (option ConfigState)) (self : ConfigState) : res NetError ConfigState :=
  new ← reload;
  match new with
  | None => Ok self
  | Some new_state => Ok (with_blocked new_state (st_blocked self) (st_blocked_total self))
  end.

Definition force_reload (reload : res NetError ConfigState) (self : ConfigState) : ConfigState * res NetError unit :=
  match reload with
  | Ok new_state => (with_blocked new_state (st_blocked self) (st_blocked_total new_state), Ok ())
  | Err e => (self, Err e)
  | Panic => (self, Panic)
  end.

(** [replace_config_state], after the reload. *)
Definition replace_config_state (new_state self : ConfigState) : ConfigState :=
  with_blocked new_state (st_blocked self) (st_blocked_total self).

Definition list_entries (target : DomainListKind) (cfg : config) : list rstr :=
  match target with
  | ListAllow => default [] (allowed_domains cfg)
  | ListDeny => default [] (denied_domains cfg)
  end.

Definition opposite (target : DomainListKind) : DomainListKind := match target with ListAllow => ListDeny | ListDeny => ListAllow end.

Definition contains_host (entries : list rstr) (host : rstr) : bool := existsb (fun entry => streq (normalize_host entry) host) entries.

(** One turn of the loop of [update_domain_list]: [snapshot] is the state that is read and
    [current] the state when the write lock is got. [None] starts another turn. *)
Definition update_turn (host : rstr) (target : DomainListKind) (snapshot current : ConfigState) : res NetError (option ConfigState) :=
  let previous_cfg := st_config snapshot in
  let constraints := st_constraints snapshot in
  if contains_host (list_entries target previous_cfg) host && negb (contains_host (list_entries (opposite target) previous_cfg) host)
  then Ok (Some current)
  else
    let candidate := upsert_domain_permission previous_cfg host (list_permission target) normalize_host in
    _ ← validate_policy_against_constraints candidate constraints;
    new_state ← build_config_state candidate constraints;
    if negb (bool_decide (st_constraints current = constraints)) || negb (bool_decide (st_config current = previous_cfg)) then Ok None
    else Ok (Some (with_blocked new_state (st_blocked snapshot) (st_blocked_total snapshot))).

(** A turn: what the reloader answers, and what other tasks do between the read and the
    write. *)
Record Turn := { t_reload : res NetError (option ConfigState); t_meanwhile : ConfigState -> ConfigState }.

(** The loop, over the turns that other tasks leave it; [None] when they are used up. *)
Fixpoint update_loop (turns : list Turn) (host : rstr) (target : DomainListKind) (self : ConfigState)
    : option (ConfigState * res NetError unit) :=
  match turns with
  | [] => None
  | turn :: turns =>
      match reload_if_needed (t_reload turn) self with
      | Ok snapshot =>
          let current := t_meanwhile turn snapshot in
          match update_turn host target snapshot current with
          | Ok (Some st) => Some (st, Ok ())
          | Ok None => update_loop turns host target current
          | Err e => Some (current, Err e)
          | Panic => Some (current, Panic)
          end
      | Err e => Some (self, Err e)
      | Panic => Some (self, Panic)
      end
  end.

Definition update_domain_list (turns : list Turn) (host : rstr) (target : DomainListKind) (self : ConfigState)
    : option (ConfigState * res NetError unit) :=
  match host_parse host with
  | None => Some (self, Err InvalidHost)
  | Some host => update_loop turns host target self
  end.

Definition mode_turn (mode : NetworkMode) (snapshot current : ConfigState) : res NetError (option ConfigState) :=
  let cfg := st_config snapshot in
  let candidate := with_switches cfg (nc_enabled cfg) (nc_credential_broker cfg) mode in
  _ ← validate_policy_against_constraints candidate (st_constraints snapshot);
  if negb (bool_decide (st_constraints current = st_constraints snapshot)) then Ok None
  else
    let cfg := st_config current in
    Ok (Some (with_config current (with_switches cfg (nc_enabled cfg) (nc_credential_broker cfg) mode))).

Fixpoint set_network_mode (turns : list Turn) (mode : NetworkMode) (self : ConfigState) : option (ConfigState * res NetError unit) :=
  match turns with
  | [] => None
  | turn :: turns =>
      match reload_if_needed (t_reload turn) self with
      | Ok snapshot =>
          let current := t_meanwhile turn snapshot in
          match mode_turn mode snapshot current with
          | Ok (Some st) => Some (st, Ok ())
          | Ok None => set_network_mode turns mode current
          | Err e => Some (current, Err e)
          | Panic => Some (current, Panic)
          end
      | Err e => Some (self, Err e)
      | Panic => Some (self, Panic)
      end
  end.
End State.
