(* ===== verification/NetworkPolicyProps.v ===== *)
(** * Patterns, decisions and managed requirements of the network proxy

    What compiled lists match, what an allowed request satisfies and how far managed
    requirements bind the configuration, for the definitions of [NetworkHost] and
    [NetworkProxy]. The laws of the crates [globset] and [url] are the classes [GlobLaws]
    and [HostLaws], restricted to plain names: letters, digits, [-], [_] and [.], where the
    last label starts with a letter. *)
From stdpp Require Import gmap.
From S2P Require Import Prelude Width AbsPath NetworkHost NetworkProxy.

Set Default Goal Selector "!".

(** * Properties of the network proxy

    The addresses that are refused, the meaning of compiled patterns, the decisions on hosts
    and the force of managed requirements, for the definitions of [NetworkHost] and
    [NetworkProxy]. *)
Open Scope Z_scope.

(** ** Addresses *)

(** A field of bits, taken out with a mask. *)
Lemma land_field x a b :
  0 <= a -> 0 <= b -> Z.land x (Z.shiftl (Z.ones a) b) = (x / 2 ^ b) mod 2 ^ a * 2 ^ b.
Proof.
  intros Ha Hb. rewrite <- Z.shiftl_mul_pow2, <- Z.land_ones, <- Z.shiftr_div_pow2 by lia.
  apply Z.bits_inj'. intros i Hi. rewrite Z.land_spec, !Z.shiftl_spec by lia.
  destruct (Z.ltb_spec i b) as [Hlt|Hge].
  - rewrite !(Z.testbit_neg_r _ (i - b)) by lia. apply andb_false_r.
  - rewrite Z.land_spec, Z.shiftr_spec by lia. do 2 f_equal. lia.
Qed.

Lemma land_byte x : Z.land x 255 = x mod 256.
Proof. change 255 with (Z.ones 8). by rewrite Z.land_ones by lia. Qed.

Lemma octet_div ip i : 0 <= i <= 3 -> octet ip i = (ip / 2 ^ (24 - 8 * i)) mod 256.
Proof. intros Hi. unfold octet. by rewrite land_byte, Z.shiftr_div_pow2 by lia. Qed.

Lemma in_cidr_div ip base prefix :
  0 < prefix <= 32 -> 0 <= ip < 2 ^ 32 -> 0 <= base < 2 ^ 32 ->
  ipv4_in_cidr ip base prefix = true <-> ip / 2 ^ (32 - prefix) = base / 2 ^ (32 - prefix).
Proof.
  intros Hp Hip Hb. unfold ipv4_in_cidr. destruct (Z.eqb_spec prefix 0) as [|_]; [lia|]. set (k := 32 - prefix).
  assert (shl_u32 U32_MAX k = Z.shiftl (Z.ones (32 - k)) k) as ->.
  { unfold shl_u32. change U32_MAX with (Z.ones 32). apply Z.bits_inj'. intros i Hi.
    rewrite Z.land_spec, !Z.shiftl_spec, (Z.testbit_ones_nonneg 32 i) by lia.
    destruct (Z.ltb_spec i k); [rewrite !(Z.testbit_neg_r _ (i - k)) by lia; done|].
    rewrite !Z.testbit_ones_nonneg by lia. destruct (Z.ltb_spec i 32), (Z.ltb_spec (i - k) 32), (Z.ltb_spec (i - k) (32 - k)); lia || done. }
  assert (forall x, 0 <= x < 2 ^ 32 -> Z.land x (Z.shiftl (Z.ones (32 - k)) k) = x / 2 ^ k * 2 ^ k) as Hm.
  { intros x Hx. rewrite land_field by lia. f_equal. apply Z.mod_small. split; [apply Z.div_pos; lia|].
    apply Z.div_lt_upper_bound; [lia|]. rewrite <- Z.pow_add_r by lia. replace (k + (32 - k)) with 32 by lia. lia. }
  rewrite !Hm by done. rewrite Z.eqb_eq. assert (0 < 2 ^ k) by lia. nia.
Qed.

(** The blocks that the proxy keeps to itself, as they are registered. *)
Definition NON_PUBLIC_IPV4 : list (Z * Z) := [
  (of_octets 0 0 0 0, of_octets 0 255 255 255);
  (of_octets 10 0 0 0, of_octets 10 255 255 255);
  (of_octets 100 64 0 0, of_octets 100 127 255 255);
  (of_octets 127 0 0 0, of_octets 127 255 255 255);
  (of_octets 169 254 0 0, of_octets 169 254 255 255);
  (of_octets 172 16 0 0, of_octets 172 31 255 255);
  (of_octets 192 0 0 0, of_octets 192 0 0 255);
  (of_octets 192 0 2 0, of_octets 192 0 2 255);
  (of_octets 192 168 0 0, of_octets 192 168 255 255);
  (of_octets 198 18 0 0, of_octets 198 19 255 255);
  (of_octets 198 51 100 0, of_octets 198 51 100 255);
  (of_octets 203 0 113 0, of_octets 203 0 113 255);
  (of_octets 224 0 0 0, of_octets 255 255 255 255)].

Definition in_block (ip : Z) (block : Z * Z) : Prop := block.1 <= ip <= block.2.

Lemma octet_first ip c : 0 <= ip < 2 ^ 32 -> octet ip 0 = c <-> c * 2 ^ 24 <= ip < (c + 1) * 2 ^ 24.
Proof. intros Hip. rewrite octet_div by lia. change (24 - 8 * 0) with 24. Z.div_mod_to_equations. lia. Qed.

Lemma octet_second ip c lo hi :
  0 <= ip < 2 ^ 32 -> 0 <= lo -> hi <= 255 ->
  octet ip 0 = c /\ lo <= octet ip 1 <= hi <-> lo <= hi /\ (c * 256 + lo) * 2 ^ 16 <= ip < (c * 256 + hi + 1) * 2 ^ 16.
Proof. intros Hip Hlo Hhi. rewrite !octet_div by lia. change (24 - 8 * 0) with 24. change (24 - 8 * 1) with 16. Z.div_mod_to_equations. lia. Qed.

Lemma in_cidr_block ip base prefix :
  0 < prefix <= 32 -> 0 <= ip < 2 ^ 32 -> 0 <= base < 2 ^ 32 -> base mod 2 ^ (32 - prefix) = 0 ->
  ipv4_in_cidr ip base prefix = true <-> base <= ip < base + 2 ^ (32 - prefix).
Proof.
  intros Hp Hip Hb Hm. rewrite in_cidr_div by done. set (k := 2 ^ (32 - prefix)) in *. assert (0 < k) by (unfold k; lia).
  Z.div_mod_to_equations. nia.
Qed.

(** The disjunct that holds. *)
Ltac pick := first [lia | left; lia | right; pick].

Lemma non_public_ipv4_blocks ip :
  0 <= ip < 2 ^ 32 -> is_non_public_ipv4 ip = true <-> Exists (in_block ip) NON_PUBLIC_IPV4.
Proof.
  intros Hip. unfold NON_PUBLIC_IPV4, in_block. rewrite !Exists_cons, Exists_nil. cbn [fst snd].
  unfold is_non_public_ipv4. rewrite !orb_true_iff.
  assert (v4_is_loopback ip = true <-> of_octets 127 0 0 0 <= ip <= of_octets 127 255 255 255) as ->.
  { unfold v4_is_loopback, of_octets. rewrite Z.eqb_eq, octet_first by done. lia. }
  assert (v4_is_private ip = true <-> of_octets 10 0 0 0 <= ip <= of_octets 10 255 255 255 \/
    of_octets 172 16 0 0 <= ip <= of_octets 172 31 255 255 \/ of_octets 192 168 0 0 <= ip <= of_octets 192 168 255 255) as ->.
  { unfold v4_is_private, of_octets. rewrite !orb_true_iff, !andb_true_iff, !Z.eqb_eq, !Z.leb_le.
    pose proof (octet_first ip 10 Hip). pose proof (octet_second ip 172 16 31 Hip). pose proof (octet_second ip 192 168 168 Hip). lia. }
  assert (v4_is_link_local ip = true <-> of_octets 169 254 0 0 <= ip <= of_octets 169 254 255 255) as ->.
  { unfold v4_is_link_local, of_octets. rewrite !andb_true_iff, !Z.eqb_eq. pose proof (octet_second ip 169 254 254 Hip). lia. }
  assert (v4_is_unspecified ip = true <-> ip = 0) as -> by apply Z.eqb_eq.
  assert (v4_is_multicast ip = true <-> of_octets 224 0 0 0 <= ip <= of_octets 239 255 255 255) as ->.
  { unfold v4_is_multicast, of_octets. rewrite !andb_true_iff, !Z.leb_le, !octet_div by lia. change (24 - 8 * 0) with 24. Z.div_mod_to_equations. lia. }
  assert (v4_is_broadcast ip = true <-> ip = of_octets 255 255 255 255) as -> by apply Z.eqb_eq.
  rewrite !in_cidr_block by (done || unfold of_octets; lia). unfold of_octets. split.
  - intros Hor. repeat (destruct Hor as [Hor|Hor]); pick.
  - intros Hor. repeat (destruct Hor as [Hor|Hor]); [..|done]; pick.
Qed.

Definition segments_ok (segments : list Z) : Prop := length segments = 8%nat /\ Forall (fun s => 0 <= s < 2 ^ 16) segments.

Definition ip_ok (ip : IpAddr) : Prop :=
  match ip with V4 ip => 0 <= ip < 2 ^ 32 | V6 segments => segments_ok segments end.

(** An IPv4 address inside an IPv6 address: mapped, or in the first 96 bits zero. *)
Definition embeds (segments : list Z) (v4 : Z) : Prop :=
  exists f ab cd, segments = [0; 0; 0; 0; 0; f; ab; cd] /\ (f = 0 \/ f = 65535) /\ v4 = ab * 2 ^ 16 + cd.

Lemma v6_to_ipv4_spec segments v4 : v6_to_ipv4 segments = Some v4 <-> embeds segments v4.
Proof.
  unfold embeds. split.
  - unfold v6_to_ipv4. repeat case_match; try done. intros [= <-]. eexists _, _, _. split; [done|]. split; [lia|done].
  - intros (f & ab & cd & -> & Hf & ->). cbn [v6_to_ipv4]. by destruct Hf as [-> | ->].
Qed.

(** The addresses that are not public are exactly the registered blocks: for IPv4 the thirteen
    blocks listed, for IPv6 the addresses that contain such an IPv4 address, and otherwise
    the unique local ([fc00::/7]), link-local ([fe80::/10]) and multicast ([ff00::/8]) ones. *)
Theorem non_public_addresses ip :
  ip_ok ip ->
  is_non_public_ip ip = true <->
  match ip with
  | V4 ip => Exists (in_block ip) NON_PUBLIC_IPV4
  | V6 segments =>
      (exists v4, embeds segments v4 /\ Exists (in_block v4) NON_PUBLIC_IPV4) \/
      ((forall v4, ~ embeds segments v4) /\
       exists first rest, segments = first :: rest /\
         (64512 <= first <= 65023 \/ 65152 <= first <= 65215 \/ 65280 <= first <= 65535))
  end.
Proof.
  destruct ip as [ip|segments]; cbn [ip_ok is_non_public_ip]; [apply non_public_ipv4_blocks|]. intros [Hlen Hall].
  unfold is_non_public_ipv6. destruct (v6_to_ipv4 segments) as [v4|] eqn:E.
  - apply v6_to_ipv4_spec in E. assert (0 <= v4 < 2 ^ 32) as Hv4.
    { destruct E as (f & ab & cd & -> & _ & ->). rewrite !Forall_cons in Hall. lia. }
    rewrite orb_true_iff, non_public_ipv4_blocks by done. split.
    + intros [Hx|Hl]; [left; by exists v4|]. left. exists v4. split; [done|]. unfold v6_is_loopback in Hl. apply bool_decide_eq_true in Hl.
      destruct E as (f & ab & cd & -> & _ & ->). injection Hl as -> -> ->. apply Exists_cons_hd. by vm_compute.
    + intros [(v4' & He & Hx)|[Hno _]]; [|by destruct (Hno v4)].
      apply v6_to_ipv4_spec in He, E. rewrite E in He. injection He as <-. by left.
  - assert (forall v4, ~ embeds segments v4) as Hno by (intros v4 He%v6_to_ipv4_spec; congruence).
    destruct segments as [|first rest]; [done|]. apply Forall_cons in Hall as [Hf _].
    assert (v6_is_loopback (first :: rest) = false) as ->.
    { apply bool_decide_eq_false. intros El. rewrite El in E. discriminate E. }
    assert (v6_is_unspecified (first :: rest) = false) as ->.
    { apply bool_decide_eq_false. intros El. rewrite El in E. discriminate E. }
    unfold v6_is_multicast, v6_is_unique_local, v6_is_unicast_link_local. change (first_segment (first :: rest)) with first. cbn [orb].
    rewrite !orb_true_iff, !Z.eqb_eq. change 65024 with (Z.shiftl (Z.ones 7) 9). change 65472 with (Z.shiftl (Z.ones 10) 6).
    rewrite !land_field, Z.shiftr_div_pow2 by lia.
    change (2 ^ 9) with 512. change (2 ^ 7) with 128. change (2 ^ 6) with 64. change (2 ^ 10) with 1024. change (2 ^ 8) with 256.
    change (2 ^ 16) with 65536 in Hf. split.
    + intros Hor. right. split; [done|]. exists first, rest. split; [done|]. Z.div_mod_to_equations. lia.
    + intros [(v4 & He & _)|[_ (f & r & [= <- <-] & Hor)]]; [by destruct (Hno v4)|].
      destruct Hor as [Hor|[Hor|Hor]]; [left; right|right|left; left]; Z.div_mod_to_equations; lia.
Qed.

(** ** Addresses that are read *)

Lemma digits_value_nonneg radix ds : 0 <= radix -> Forall (Z.le 0) ds -> 0 <= digits_value radix ds.
Proof.
  intros Hr. unfold digits_value. assert (forall n, 0 <= n -> Forall (Z.le 0) ds -> 0 <= fold_left (fun n d => n * radix + d) ds n) as Hg; [|by apply Hg].
  induction ds as [|d ds IH]; intros n Hn Hds; [done|]. apply Forall_cons in Hds as [Hd Hds]. cbn [fold_left]. apply IH; [nia|done].
Qed.

Lemma to_digit_nonneg radix c d : to_digit radix c = Some d -> 0 <= d.
Proof. unfold to_digit, is_ascii_digit. repeat case_match; intros; simplify_eq; lia. Qed.

Lemma read_digits_nonneg radix s : Forall (Z.le 0) (read_digits radix s).1.
Proof.
  induction s as [|c s IH]; cbn [read_digits]; [constructor|]. destruct (to_digit radix c) as [d|] eqn:E; [|constructor].
  destruct (read_digits radix s). constructor; [by eapply to_digit_nonneg|done].
Qed.

Lemma read_number_bounds radix digits zero max s n rest : 0 <= radix -> read_number radix digits zero max s = Some (n, rest) -> 0 <= n <= max.
Proof.
  intros Hr. unfold read_number. pose proof (read_digits_nonneg radix s) as Hd. destruct (read_digits radix s) as [ds r].
  destruct (_ || _) eqn:E; [done|]. intros [= <- _]. rewrite !orb_false_iff in E. destruct E as [[_ E] _]. apply Z.ltb_ge in E.
  split; [by apply digits_value_nonneg|done].
Qed.

Lemma read_separator_inner {A} sep i (inner : rstr -> option (A * rstr)) s r : read_separator sep i inner s = Some r -> exists s', inner s' = Some r.
Proof. destruct i; cbn [read_separator]; [eauto|]. destruct (read_given_char sep s); [|done]. cbn [mbind option_bind]. eauto. Qed.

Lemma read_octet_bounds i s n rest : read_octet i s = Some (n, rest) -> 0 <= n <= 255.
Proof. intros (s' & Hs)%read_separator_inner. by eapply read_number_bounds in Hs. Qed.

Lemma read_ipv4_bounds s ip rest : read_ipv4_addr s = Some (ip, rest) -> 0 <= ip < 2 ^ 32.
Proof.
  unfold read_ipv4_addr. destruct (read_octet 0 s) as [[a s1]|] eqn:E0; [|done]. cbn [mbind option_bind].
  destruct (read_octet 1 s1) as [[b s2]|] eqn:E1; [|done]. cbn [mbind option_bind].
  destruct (read_octet 2 s2) as [[c s3]|] eqn:E2; [|done]. cbn [mbind option_bind].
  destruct (read_octet 3 s3) as [[d s4]|] eqn:E3; [|done]. cbn [mbind option_bind]. intros [= <- _].
  apply read_octet_bounds in E0, E1, E2, E3. unfold of_octets. lia.
Qed.

Definition segment_ok (s : Z) : Prop := 0 <= s < 2 ^ 16.

Lemma read_groups_ok remaining i s gs v4 rest :
  read_groups remaining i s = (gs, v4, rest) -> (length gs <= remaining)%nat /\ Forall segment_ok gs.
Proof.
  revert i s gs v4 rest. induction remaining as [|n IH]; intros i s gs v4 rest; cbn [read_groups].
  - intros [= <- _ _]. split; [done|constructor].
  - destruct (if (1 <=? n)%nat then _ else None) as [[ip s']|] eqn:E.
    + intros [= <- _ _]. destruct (Nat.leb_spec 1 n) as [Hn|]; [|done]. apply read_separator_inner in E as (s2 & E). apply read_ipv4_bounds in E.
      split; [cbn; lia|]. rewrite Z.shiftr_div_pow2 by lia. change 65535 with (Z.ones 16). rewrite Z.land_ones by lia.
      repeat constructor; unfold segment_ok; Z.div_mod_to_equations; lia.
    + destruct (read_separator COLON_ i (read_number 16 4 true 65535) s) as [[g s']|] eqn:E2; [|intros [= <- _ _]; split; [cbn; lia|constructor]].
      destruct (read_groups n (S i) s') as [[gs' v] s''] eqn:E3. intros [= <- _ _]. destruct (IH _ _ _ _ _ E3) as [Hl Hf].
      apply read_separator_inner in E2 as (s2 & E2). apply read_number_bounds in E2; [|lia]. split; [cbn; lia|]. constructor; [unfold segment_ok; lia|done].
Qed.

Lemma read_ipv6_ok s segments rest : read_ipv6_addr s = Some (segments, rest) -> segments_ok segments.
Proof.
  unfold read_ipv6_addr. destruct (read_groups 8 0 s) as [[hd v4] s1] eqn:E1. destruct (read_groups_ok _ _ _ _ _ _ E1) as [Hl1 Hf1].
  destruct (Nat.eqb_spec (length hd) 8) as [He|Hne]; [intros [= <- _]; done|]. destruct v4; [done|].
  destruct (read_given_char COLON_ s1) as [s2|]; [|done]. cbn [mbind option_bind]. destruct (read_given_char COLON_ s2) as [s3|]; [|done]. cbn [mbind option_bind].
  destruct (read_groups (8 - (length hd + 1)) 0 s3) as [[tl v] s4] eqn:E2. destruct (read_groups_ok _ _ _ _ _ _ E2) as [Hl2 Hf2].
  intros [= <- _]. split; [rewrite !length_app, length_replicate; lia|]. rewrite !Forall_app. split_and!; [done| |done]. apply Forall_replicate. lia.
Qed.

(** An address that is read from text is a 32-bit integer or eight 16-bit segments, so that
    the tests on addresses apply to it. *)
Theorem parse_ip_ok s ip : parse_ip s = Some ip -> ip_ok ip.
Proof.
  unfold parse_ip. destruct (read_ipv4_addr s) as [[v4 rest]|] eqn:E4.
  - case_match; [|done]. intros [= <-]. by eapply read_ipv4_bounds.
  - destruct (read_ipv6_addr s) as [[segs rest]|] eqn:E6; [|done]. case_match; [|done]. intros [= <-]. by eapply read_ipv6_ok.
Qed.

Lemma parse_ip_ok_witness : ip_ok (V6 [64512; 0; 0; 0; 0; 0; 2560; 1]).
Proof. apply (parse_ip_ok (lit "fc00::10.0.0.1")). vm_compute. reflexivity. Defined.

Lemma non_public_addresses_witness : is_non_public_ip (V6 [0; 0; 0; 0; 0; 65535; 2560; 1]) = true.
Proof.
  apply non_public_addresses.
  - split; [done|]. repeat constructor; lia.
  - left. exists 167772161. split; [by exists 65535, 2560, 1; auto|]. apply Exists_cons_tl, Exists_cons_hd. vm_compute. split; discriminate.
Defined.

(** ** Plain names *)

Definition is_lower_letter (c : char) : bool := (97 <=? c) && (c <=? 122).

Definition name_char (c : char) : bool :=
  is_lower_letter c || is_ascii_digit c || (c =? 45) || (c =? 95) || (c =? DOT_).

Definition plain_lower (d : rstr) : bool :=
  negb (is_empty d) && forallb name_char d && negb (starts_with [DOT_] d) && negb (ends_with [DOT_] d)
  && match List.last (split_char DOT_ d) [] with c :: _ => is_lower_letter c | [] => false end.

Definition plain_name (d : rstr) : bool := plain_lower (to_ascii_lowercase d).

(** An entry of a list without its wildcard, and what it stands for. *)
Definition entry_name (e : rstr) : rstr :=
  match strip_prefix DEEP e with
  | Some d => d
  | None => match strip_prefix SUB e with Some d => d | None => e end
  end.

Definition entry_pattern (f : rstr -> rstr) (e : rstr) : DomainPattern :=
  match strip_prefix DEEP e with
  | Some d => ApexAndSubdomains (f d)
  | None => match strip_prefix SUB e with Some d => SubdomainsOnly (f d) | None => Exact (f e) end
  end.

Definition plain_entry (e : rstr) : bool := plain_name (entry_name e).

Definition subdomain_of (d h : rstr) : Prop := exists x, x ≠ [] /\ to_ascii_lowercase h = x ++ DOT_ :: d.

(** The hosts a pattern stands for; its domain is in lower case. *)
Definition covers (p : DomainPattern) (h : rstr) : Prop :=
  match p with
  | Exact d => to_ascii_lowercase h = d
  | SubdomainsOnly d => subdomain_of d h
  | ApexAndSubdomains d => to_ascii_lowercase h = d \/ subdomain_of d h
  end.

(** What an entry allows or denies. *)
Definition entry_covers (e h : rstr) : Prop := covers (entry_pattern to_ascii_lowercase e) h.

(** ** What the code relies on *)

(** [globset] ignores case, as the code builds its globs: a plain name matches itself, the
    same after [?*.] whatever ends in it after something and a dot, and a set what one of
    its globs matches. *)
Class GlobLaws (Glob GlobSet : Type) `{GlobCrate Glob GlobSet} := {
  glob_literal d g h : plain_name d = true -> glob_build d = Some g ->
    glob_is_match g h = streq (to_ascii_lowercase h) (to_ascii_lowercase d);
  glob_subdomains d g h : plain_name d = true -> glob_build (lit "?*." ++ d) = Some g ->
    glob_is_match g h = true <-> subdomain_of (to_ascii_lowercase d) h;
  globset_any gs s h : globset_build gs = Some s -> globset_is_match s h = existsb (fun g => glob_is_match g h) gs;
}.

(** [url::Host] keeps a plain name, in lower case. *)
Class HostLaws `{HostCrate} := url_host_plain d h : plain_name d = true -> url_host_parse d = Some h -> h = to_ascii_lowercase d.

(** ** Lower case *)

Lemma ascii_lower_idemp c : ascii_lower (ascii_lower c) = ascii_lower c.
Proof. unfold ascii_lower. repeat case_match; bool_prop; lia. Qed.

Lemma lower_idemp s : to_ascii_lowercase (to_ascii_lowercase s) = to_ascii_lowercase s.
Proof. unfold to_ascii_lowercase. rewrite map_map. apply map_ext, ascii_lower_idemp. Qed.

Lemma lower_app a b : to_ascii_lowercase (a ++ b) = to_ascii_lowercase a ++ to_ascii_lowercase b.
Proof. apply map_app. Qed.

(** Characters that are no letters are found where they were. *)
Lemma strip_prefix_lower p s :
  Forall (fun c => c < 65) p -> strip_prefix p (to_ascii_lowercase s) = to_ascii_lowercase <$> strip_prefix p s.
Proof.
  intros Hp. revert s. induction Hp as [|c p Hc _ IH]; intros s; [done|]. destruct s as [|x s]; [done|]. cbn [to_ascii_lowercase map strip_prefix].
  fold (to_ascii_lowercase s). assert ((c =? ascii_lower x) = (c =? x)) as ->.
  { unfold ascii_lower. case_match; bool_prop; lia. }
  case_match; [apply IH|done].
Qed.

Lemma entry_name_lower e : entry_name (to_ascii_lowercase e) = to_ascii_lowercase (entry_name e).
Proof.
  unfold entry_name. rewrite !strip_prefix_lower by (repeat constructor).
  destruct (strip_prefix DEEP e); [done|]. by destruct (strip_prefix SUB e).
Qed.

Lemma entry_pattern_lower e : entry_pattern to_ascii_lowercase (to_ascii_lowercase e) = entry_pattern to_ascii_lowercase e.
Proof.
  unfold entry_pattern. rewrite !strip_prefix_lower by (repeat constructor).
  destruct (strip_prefix DEEP e); cbn [fmap option_fmap option_map]; [by rewrite lower_idemp|].
  destruct (strip_prefix SUB e); cbn [fmap option_fmap option_map]; by rewrite lower_idemp.
Qed.

Lemma plain_name_lower d : plain_name (to_ascii_lowercase d) = plain_name d.
Proof. unfold plain_name. by rewrite lower_idemp. Qed.

(** Entries that differ in case only are the same. *)
Lemma entry_eq_lower e e' :
  to_ascii_lowercase e = to_ascii_lowercase e' ->
  plain_entry e = plain_entry e' /\ entry_pattern to_ascii_lowercase e = entry_pattern to_ascii_lowercase e'.
Proof.
  intros E. split.
  - unfold plain_entry. by rewrite <- (plain_name_lower (entry_name e)), <- entry_name_lower, E, entry_name_lower, plain_name_lower.
  - by rewrite <- (entry_pattern_lower e), E, entry_pattern_lower.
Qed.

(** ** Plain names are normal *)

Lemma plain_name_parts d :
  plain_name d = true ->
  d ≠ [] /\ Forall (fun c => name_char (ascii_lower c) = true) d /\ (forall l, d ≠ DOT_ :: l) /\ (forall l, d ≠ l ++ [DOT_]).
Proof.
  unfold plain_name, plain_lower. rewrite !andb_true_iff, !negb_true_iff, forallb_forall, is_empty_false.
  intros [[[[Hne Hall] Hstart] Hend] _]. split; [by destruct d|]. split.
  - apply Forall_forall. intros c Hc. apply Hall, in_map_iff. exists c. by rewrite <- list_elem_of_In.
  - split.
    + intros l ->. discriminate Hstart.
    + intros l ->. rewrite lower_app in Hend. apply not_true_iff_false in Hend. apply Hend, ends_with_true. by exists (to_ascii_lowercase l).
Qed.

(** The characters of a plain name are no whitespace and no punctuation the code looks for. *)
Lemma name_char_plain c : name_char (ascii_lower c) = true -> is_whitespace c = false /\ c ∉ lit "[]:%*?".
Proof.
  unfold name_char, is_lower_letter, is_ascii_digit, ascii_lower, DOT_. intros Hc.
  rewrite !orb_true_iff, !andb_true_iff, !Z.leb_le, !Z.eqb_eq in Hc.
  assert (45 <= c <= 57 \/ 65 <= c <= 90 \/ 95 <= c <= 122) as Hr
    by (destruct (Z.leb_spec 65 c), (Z.leb_spec c 90); cbn [andb] in Hc; lia).
  clear Hc. split.
  - unfold is_whitespace. rewrite !orb_false_iff, !andb_false_iff, !Z.leb_gt, !Z.eqb_neq. lia.
  - change (lit _) with [91; 93; 58; 37; 42; 63]. rewrite !not_elem_of_cons. split_and!; [lia..|apply not_elem_of_nil].
Qed.

Lemma plain_avoids d c : plain_name d = true -> c ∈ lit "[]:%*?" -> c ∉ d.
Proof. intros (_ & Hall & _)%plain_name_parts Hc Hd. rewrite Forall_forall in Hall. by destruct (name_char_plain c (Hall c Hd)) as [_ []]. Qed.

Lemma plain_no_edge_ws d : Forall (fun c => is_whitespace c = false) d -> no_edge_ws d = true.
Proof.
  intros Hd. destruct d as [|c d]; [done|]. cbn [no_edge_ws]. rewrite andb_true_iff, !negb_true_iff. rewrite Forall_forall in Hd. split.
  - apply Hd. left.
  - apply Hd. destruct (exists_last (l := c :: d) ltac:(done)) as (l & x & ->). rewrite last_snoc_default. apply elem_of_app. right. left.
Qed.

Lemma plain_trim p d : Forall (fun c => is_whitespace c = false) p -> plain_name d = true -> trim (p ++ d) = p ++ d.
Proof.
  intros Hp (_ & Hall & _)%plain_name_parts. apply trim_id, plain_no_edge_ws, Forall_app. split; [done|].
  eapply Forall_impl; [exact Hall|]. intros c Hc. by apply name_char_plain.
Qed.

Lemma trim_plain d : plain_name d = true -> trim d = d.
Proof. apply (plain_trim []). constructor. Qed.

Lemma filter_absent c d : c ∉ d -> List.filter (Z.eqb c) d = [].
Proof.
  intros Hc. induction d as [|x d IH]; [done|]. apply not_elem_of_cons in Hc as [Hx Hc]. cbn [List.filter].
  rewrite (proj2 (Z.eqb_neq c x) Hx). by apply IH.
Qed.

Lemma split_once_absent c s : c ∉ s -> split_once c s = None.
Proof.
  intros Hc. destruct (split_once c s) as [[a b]|] eqn:E; [|done]. apply split_once_Some in E as [-> _]. destruct Hc. apply elem_of_app. right. left.
Qed.

Lemma find_sub_first needle s i : find_sub needle s = Some i -> exists a b, s = a ++ needle ++ b.
Proof.
  revert i. induction s as [|c s IH]; intros i; cbn [find_sub].
  - destruct (starts_with needle []) eqn:E; [|done]. apply starts_with_true in E as [r E]. intros _. by exists [], r.
  - destruct (starts_with needle (c :: s)) eqn:E.
    + apply starts_with_true in E as [r E]. intros _. by exists [], r.
    + intros Hf. destruct (find_sub needle s) as [j|]; [|done]. destruct (IH j eq_refl) as (a & b & ->). by exists (c :: a), b.
Qed.

Lemma find_sub_absent c needle s : c ∉ s -> find_sub (c :: needle) s = None.
Proof.
  intros Hc. destruct (find_sub (c :: needle) s) as [i|] eqn:E; [|done]. apply find_sub_first in E as (a & b & ->).
  destruct Hc. apply elem_of_app. right. left.
Qed.

(** Without a percent sign the address reader changes nothing. *)
Lemma normalize_ip_literal_plain host : PERCENT ∉ host -> default host (normalize_ip_literal host) = host.
Proof.
  intros Hp. unfold normalize_ip_literal, scoped_ip, split_once_str. destruct (is_ip host); [done|].
  change (lit "%25") with (PERCENT :: lit "25"). change (lit "%") with (PERCENT :: lit ""). by rewrite !find_sub_absent.
Qed.

Lemma lower_absent c s : (c < 65 \/ 90 < c < 97 \/ 122 < c) -> c ∉ s -> c ∉ to_ascii_lowercase s.
Proof.
  intros Hr Hc (x & E & Hx)%list_elem_of_In%in_map_iff. apply list_elem_of_In in Hx. unfold ascii_lower in E. case_match; bool_prop; [lia|]. by subst.
Qed.

Lemma trim_end_dot d : (forall l, d ≠ l ++ [DOT_]) -> trim_end_matches DOT_ d = d.
Proof.
  intros Hd. apply drop_while_end_id. intros l x ->. apply Z.eqb_neq. intros <-. by destruct (Hd l).
Qed.

Lemma normalize_host_plain d : plain_name d = true -> normalize_host d = to_ascii_lowercase d.
Proof.
  intros Hd. unfold normalize_host. rewrite (trim_plain d Hd).
  assert (starts_with (lit "[") d = false) as ->.
  { apply not_true_iff_false. intros [r ->]%starts_with_true. apply (plain_avoids _ 91 Hd); [left|]. left. }
  assert (List.filter (Z.eqb COLON_) d = []) as ->.
  { apply filter_absent, plain_avoids; [done|cbn; set_solver]. }
  cbn [length Nat.eqb]. unfold normalize_dns_host_or_ip_literal. rewrite trim_end_dot.
  - apply normalize_ip_literal_plain, lower_absent; [unfold PERCENT; lia|]. apply plain_avoids; [done|]. cbn; set_solver.
  - rewrite <- plain_name_lower in Hd. by apply plain_name_parts in Hd as (_ & _ & _ & Hd).
Qed.

(** An entry is its wildcard, or none, and its name. *)
Inductive entry_shape : rstr -> Prop :=
| shape_deep d : plain_name d = true -> entry_shape (DEEP ++ d)
| shape_sub d : plain_name d = true -> entry_shape (SUB ++ d)
| shape_exact d : plain_name d = true -> entry_shape d.

Lemma entry_shape_plain e : plain_entry e = true -> entry_shape e.
Proof.
  unfold plain_entry, entry_name. destruct (strip_prefix DEEP e) as [d|] eqn:E1; [apply strip_prefix_Some in E1 as ->; by constructor|].
  destruct (strip_prefix SUB e) as [d|] eqn:E2; [apply strip_prefix_Some in E2 as ->; by constructor|by constructor].
Qed.

Lemma strip_star_plain p d : plain_name d = true -> strip_prefix (42 :: p) d = None.
Proof.
  intros Hd. destruct (strip_prefix (42 :: p) d) as [r|] eqn:E; [|done]. apply strip_prefix_Some in E as ->.
  destruct (plain_avoids _ 42 Hd); [cbn; set_solver|left].
Qed.

Lemma entry_pattern_deep f d : entry_pattern f (DEEP ++ d) = ApexAndSubdomains (f d).
Proof. unfold entry_pattern. by rewrite strip_prefix_app. Qed.

Lemma entry_pattern_sub f d : entry_pattern f (SUB ++ d) = SubdomainsOnly (f d).
Proof. done. Qed.

Lemma entry_pattern_exact f d : plain_name d = true -> entry_pattern f d = Exact (f d).
Proof. intros Hd. unfold entry_pattern, DEEP, SUB. cbn [lit z_of_ascii]. by rewrite !(strip_star_plain _ d Hd). Qed.

Lemma plain_nonempty d : plain_name d = true -> is_empty d = false.
Proof. intros (Hd & _)%plain_name_parts. by apply is_empty_false. Qed.

(** Normalisation keeps what an entry stands for. *)
Lemma pattern_parse_entry e :
  plain_entry e = true ->
  pattern_parse (normalize_pattern e) = entry_pattern to_ascii_lowercase e.
Proof.
  intros [d Hd|d Hd|d Hd]%entry_shape_plain.
  all: assert (plain_name (to_ascii_lowercase d) = true) as Hl by by rewrite plain_name_lower.
  - unfold normalize_pattern. rewrite (plain_trim DEEP d) by (repeat constructor || done).
    assert (streq (DEEP ++ d) (lit "*") = false) as -> by done. rewrite strip_prefix_app, normalize_host_plain by done.
    unfold pattern_parse. rewrite (plain_trim DEEP) by (repeat constructor || done). rewrite strip_prefix_app. change (is_empty (DEEP ++ _)) with false. cbn iota.
    unfold parse_domain. rewrite (trim_plain _ Hl), plain_nonempty by done. by rewrite entry_pattern_deep.
  - unfold normalize_pattern. rewrite (plain_trim SUB d) by (repeat constructor || done).
    assert (streq (SUB ++ d) (lit "*") = false) as -> by done.
    assert (strip_prefix DEEP (SUB ++ d) = None) as -> by done. rewrite strip_prefix_app, normalize_host_plain by done.
    unfold pattern_parse. rewrite (plain_trim SUB) by (repeat constructor || done).
    assert (forall x, strip_prefix DEEP (SUB ++ x) = None) as -> by done. rewrite strip_prefix_app. change (is_empty (SUB ++ _)) with false. cbn iota.
    unfold parse_domain. by rewrite (trim_plain _ Hl), plain_nonempty by done.
  - unfold normalize_pattern. rewrite (trim_plain d Hd).
    assert (streq d (lit "*") = false) as ->.
    { apply streq_false. intros ->. destruct (plain_avoids _ 42 Hd); [cbn; set_solver|left]. }
    unfold DEEP, SUB. cbn [lit z_of_ascii]. rewrite !(strip_star_plain _ d Hd), normalize_host_plain by done.
    unfold pattern_parse, DEEP, SUB. rewrite (trim_plain _ Hl), plain_nonempty by done.
    cbn [lit z_of_ascii]. by rewrite !(strip_star_plain _ _ Hl), entry_pattern_exact.
Qed.

(** ** Compiled lists *)

Section Compiled.
Context {Glob GlobSet : Type} {Gc : GlobCrate Glob GlobSet} {Gl : GlobLaws Glob GlobSet}.

(** The globs are those of the candidates seen. *)
Definition compiled_seen (st : list rstr * list Glob) : Prop :=
  Forall (fun c => is_Some (glob_build c)) st.1 /\ forall g, g ∈ st.2 <-> exists c, c ∈ st.1 /\ glob_build c = Some g.

Lemma add_candidate_seen st c st' :
  compiled_seen st -> add_candidate st c = Ok st' -> compiled_seen st' /\ forall x, x ∈ st'.1 <-> x ∈ st.1 \/ x = c.
Proof.
  destruct st as [seen globs]. intros [Hs Hg]. unfold add_candidate. case_bool_decide as Hc.
  - intros [= <-]. split; [done|]. set_solver.
  - destruct (glob_build c) as [g|] eqn:E; [|done]. cbn [ok_or mbind res_bind]. intros [= <-]. cbn [fst snd]. split; [split|].
    + constructor; [by exists g|done].
    + intros g'. cbn [fst snd] in *. rewrite elem_of_app, Hg, list_elem_of_singleton. setoid_rewrite elem_of_cons. naive_solver.
    + intros x. rewrite elem_of_cons. tauto.
Qed.

Lemma add_candidates_seen cs st st' :
  compiled_seen st -> fold_res add_candidate st cs = Ok st' -> compiled_seen st' /\ forall x, x ∈ st'.1 <-> x ∈ st.1 \/ x ∈ cs.
Proof.
  revert st. induction cs as [|c cs IH]; intros st Hst; cbn [fold_res].
  - intros [= <-]. split; [done|]. set_solver.
  - destruct (add_candidate st c) as [st1| |] eqn:E; [|done..]. cbn [mbind res_bind]. intros Hf.
    destruct (add_candidate_seen _ _ _ Hst E) as [H1 Hx1]. destruct (IH _ H1 Hf) as [H2 Hx2]. split; [done|].
    intros x. rewrite Hx2, Hx1, elem_of_cons. tauto.
Qed.

Definition candidates (patterns : list rstr) : list rstr := flat_map (fun p => expand_domain_pattern (normalize_pattern p)) patterns.

Lemma add_patterns_seen w ps st st' :
  compiled_seen st -> fold_res (add_pattern w) st ps = Ok st' -> compiled_seen st' /\ forall x, x ∈ st'.1 <-> x ∈ st.1 \/ x ∈ candidates ps.
Proof.
  revert st. induction ps as [|p ps IH]; intros st Hst; cbn [fold_res].
  - intros [= <-]. split; [done|]. set_solver.
  - destruct (add_pattern w st p) as [st1| |] eqn:E; [|done..]. cbn [mbind res_bind]. intros Hf.
    unfold add_pattern in E. destruct w; [|destruct (is_global_wildcard_domain_pattern p); [done|]].
    all: destruct (add_candidates_seen _ _ _ Hst E) as [H1' Hx1]; destruct (IH _ H1' Hf) as [H2 Hx2]; split; [done|].
    all: intros x; rewrite Hx2, Hx1; cbn [candidates flat_map]; rewrite elem_of_app; tauto.
Qed.

Lemma compile_candidates w ps set :
  compile_globset_with_policy ps w = Ok set ->
  Forall (fun c => is_Some (glob_build c)) (candidates ps) /\
  forall h, globset_is_match set h = true <-> exists c g, c ∈ candidates ps /\ glob_build c = Some g /\ glob_is_match g h = true.
Proof.
  unfold compile_globset_with_policy. destruct (fold_res _ _ ps) as [[seen globs]| |] eqn:E; [|done..]. cbn [mbind res_bind].
  destruct (globset_build globs) as [s|] eqn:Es; [|done]. intros [= ->].
  assert (compiled_seen ([], [])) as H0 by (split; [constructor|set_solver]).
  destruct (add_patterns_seen _ _ _ _ H0 E) as [[Hs Hg] Hx]. cbn [fst snd] in *. split.
  - apply Forall_forall. intros c Hc. rewrite Forall_forall in Hs. apply Hs, Hx. by right.
  - intros h. rewrite (globset_any globs set h Es), existsb_elem. setoid_rewrite Hg. setoid_rewrite Hx. set_solver.
Qed.

(** What the globs of an entry match. *)
Lemma expand_match e h :
  plain_entry e = true -> Forall (fun c => is_Some (glob_build c)) (expand_domain_pattern (normalize_pattern e)) ->
  (exists c g, c ∈ expand_domain_pattern (normalize_pattern e) /\ glob_build c = Some g /\ glob_is_match g h = true) <-> entry_covers e h.
Proof.
  intros He. unfold expand_domain_pattern, entry_covers. rewrite pattern_parse_entry by done.
  assert (forall d, plain_name d = true -> is_Some (glob_build (to_ascii_lowercase d)) ->
    (exists g, glob_build (to_ascii_lowercase d) = Some g /\ glob_is_match g h = true) <-> to_ascii_lowercase h = to_ascii_lowercase d) as Hlit.
  { intros d Hd [g Hg]. rewrite <- plain_name_lower in Hd. pose proof (glob_literal _ g h Hd Hg) as Hm. rewrite lower_idemp in Hm.
    rewrite <- streq_true, <- Hm, Hg. naive_solver. }
  assert (forall d, plain_name d = true -> is_Some (glob_build (lit "?*." ++ to_ascii_lowercase d)) ->
    (exists g, glob_build (lit "?*." ++ to_ascii_lowercase d) = Some g /\ glob_is_match g h = true) <-> subdomain_of (to_ascii_lowercase d) h) as Hsub.
  { intros d Hd [g Hg]. rewrite <- plain_name_lower in Hd. pose proof (glob_subdomains _ g h Hd Hg) as Hm. rewrite lower_idemp in Hm.
    rewrite <- Hm, Hg. naive_solver. }
  destruct (entry_shape_plain e He) as [d Hd|d Hd|d Hd].
  - rewrite entry_pattern_deep. cbn [covers]. rewrite !Forall_cons. intros (H1' & H2 & _). rewrite <- (Hlit d Hd H1'), <- (Hsub d Hd H2). set_solver.
  - rewrite entry_pattern_sub. cbn [covers]. rewrite !Forall_cons. intros (H2 & _). rewrite <- (Hsub d Hd H2). set_solver.
  - rewrite (entry_pattern_exact _ _ Hd). cbn [covers]. rewrite !Forall_cons. intros (H1' & _). rewrite <- (Hlit d Hd H1'). set_solver.
Qed.

Lemma candidates_elem ps c : c ∈ candidates ps <-> exists p, p ∈ ps /\ c ∈ expand_domain_pattern (normalize_pattern p).
Proof. unfold candidates. rewrite list_elem_of_In, in_flat_map. setoid_rewrite list_elem_of_In. done. Qed.

(** A compiled list matches every host that one of its plain entries covers. *)
Lemma compiled_covers w ps set e h :
  compile_globset_with_policy ps w = Ok set -> e ∈ ps -> plain_entry e = true -> entry_covers e h -> globset_is_match set h = true.
Proof.
  intros [Hb Hm]%compile_candidates He Hp Hc. apply Hm. apply expand_match in Hc as (c & g & Hin & Hg); [|done|].
  - exists c, g. split; [|done]. apply candidates_elem. eauto.
  - rewrite Forall_forall in Hb |- *. intros c Hin. apply Hb, candidates_elem. eauto.
Qed.

(** A compiled list of plain entries matches the hosts its entries cover, and no others. *)
Lemma compiled_spec w ps set h :
  compile_globset_with_policy ps w = Ok set -> Forall (fun e => plain_entry e = true) ps ->
  globset_is_match set h = true <-> exists e, e ∈ ps /\ entry_covers e h.
Proof.
  intros Hc Hp. split.
  - destruct (compile_candidates _ _ _ Hc) as [Hb Hm]. intros (c & g & (e & He & Hin)%candidates_elem & Hg)%Hm.
    rewrite Forall_forall in Hp, Hb. exists e. split; [done|]. apply expand_match; [by apply Hp| |by exists c, g].
    apply Forall_forall. intros c' Hc'. apply Hb, candidates_elem. eauto.
  - intros (e & He & Hh). rewrite Forall_forall in Hp. eapply compiled_covers; eauto.
Qed.
End Compiled.

(** ** The effective lists *)

Definition strongest (l : list NetworkDomainPermissionEntry) (e : NetworkDomainPermissionEntry) : Prop :=
  e ∈ l /\ forall e', e' ∈ l -> de_pattern e' = de_pattern e -> perm_rank (de_permission e') <= perm_rank (de_permission e).

Definition effective_inv (l : list NetworkDomainPermissionEntry) (st : Effective) : Prop :=
  (forall p, p ∈ ef_order st <-> is_Some (ef_permissions st !! p)) /\
  forall p, match ef_permissions st !! p with
            | None => forall e, e ∈ l -> de_pattern e ≠ p
            | Some k => strongest l {| de_pattern := p; de_permission := k |}
            end.

Lemma effective_step_inv l st e : effective_inv l st -> effective_inv (l ++ [e]) (effective_step st e).
Proof.
  intros [Ho Hp]. destruct e as [q k]. unfold effective_step. cbn [de_pattern de_permission].
  pose proof (Hp q) as Hq. destruct (ef_permissions st !! q) as [k0|] eqn:E.
  - destruct Hq as [Hin Hmax]. destruct (Z.ltb_spec (perm_rank k0) (perm_rank k)) as [Hlt|Hge].
    + split; cbn [ef_order ef_permissions]; intros p.
      * rewrite Ho, lookup_insert_is_Some. split; [|naive_solver]. intros Hs. destruct (decide (q = p)); naive_solver.
      * destruct (decide (q = p)) as [<-|Hne].
        -- rewrite lookup_insert_eq. split; [set_solver|]. intros e' [He'|He']%elem_of_app Hpat; cbn [de_permission].
           ++ specialize (Hmax e' He' Hpat). cbn [de_permission] in Hmax. lia.
           ++ apply list_elem_of_singleton in He' as ->. cbn. lia.
        -- rewrite lookup_insert_ne by done. specialize (Hp p). destruct (ef_permissions st !! p) as [k1|]; unfold strongest in *; set_solver.
    + split; [done|]. intros p. specialize (Hp p). destruct (decide (q = p)) as [<-|Hne].
      * rewrite E. split; [set_solver|]. intros e' [He'|He']%elem_of_app Hpat; [by apply Hmax|]. apply list_elem_of_singleton in He' as ->. cbn. lia.
      * destruct (ef_permissions st !! p) as [k1|]; unfold strongest in *; set_solver.
  - split; cbn [ef_order ef_permissions]; intros p.
    + rewrite elem_of_app, Ho, lookup_insert_is_Some, list_elem_of_singleton. destruct (decide (q = p)); naive_solver.
    + destruct (decide (q = p)) as [<-|Hne].
      * rewrite lookup_insert_eq. split; [set_solver|]. intros e' [He'|He']%elem_of_app Hpat; [by destruct (Hq e' He')|].
        apply list_elem_of_singleton in He' as ->. cbn. lia.
      * rewrite lookup_insert_ne by done. specialize (Hp p). destruct (ef_permissions st !! p) as [k1|]; unfold strongest in *; set_solver.
Qed.

Lemma effective_fold_inv l : effective_inv l (fold_left effective_step l {| ef_order := []; ef_permissions := ∅ |}).
Proof.
  induction l as [|e l IH] using rev_ind.
  - split; cbn [fold_left ef_order ef_permissions]; intros p; rewrite lookup_empty; [|set_solver]. split; [set_solver|by intros [? ?]].
  - rewrite fold_left_app. by apply effective_step_inv.
Qed.

(** Of the entries with one pattern the strongest counts. *)
Lemma effective_entries_spec l e : e ∈ effective_entries l <-> strongest l e.
Proof.
  unfold effective_entries. destruct (effective_fold_inv l) as [Ho Hp].
  set (st := fold_left effective_step l _) in *. rewrite list_elem_of_omap. split.
  - intros (p & _ & Hx). specialize (Hp p). destruct (ef_permissions st !! p) as [k|]; [|done]. injection Hx as <-. done.
  - intros [Hin Hmax]. exists (de_pattern e). specialize (Ho (de_pattern e)). specialize (Hp (de_pattern e)).
    destruct (ef_permissions st !! de_pattern e) as [k|] eqn:E; [|by destruct (Hp e Hin)]. split; [by apply Ho|].
    cbn [mbind option_bind]. f_equal. destruct Hp as [Hin' Hmax']. specialize (Hmax _ Hin' eq_refl). specialize (Hmax' _ Hin eq_refl).
    destruct e as [q k']. cbn [de_pattern de_permission] in *. f_equal. destruct k, k'; cbn [perm_rank] in *; done || lia.
Qed.

Definition entries {Hooks} (cfg : NetworkProxyConfig Hooks) : list NetworkDomainPermissionEntry := default [] (nc_domains cfg).

Lemma domain_entries_spec {Hooks} (cfg : NetworkProxyConfig Hooks) perm p :
  p ∈ default [] (domain_entries cfg perm) <-> strongest (entries cfg) {| de_pattern := p; de_permission := perm |}.
Proof.
  unfold domain_entries, entries. destruct (nc_domains cfg) as [l|]; cbn [mbind option_bind default from_option id].
  - assert (p ∈ map de_pattern (List.filter (fun entry => bool_decide (de_permission entry = perm)) (effective_entries l)) <->
      strongest l {| de_pattern := p; de_permission := perm |}) as <-.
    { rewrite list_elem_of_In, in_map_iff. setoid_rewrite filter_In. setoid_rewrite <- list_elem_of_In.
      setoid_rewrite effective_entries_spec. setoid_rewrite bool_decide_eq_true. split.
      - intros ([q k] & Hq & Hs & Hk). cbn in *. by subst.
      - intros Hs. eexists. split; [|split; [exact Hs|done]]. done. }
    destruct (is_empty _) eqn:E; [|done]. apply is_empty_true in E. rewrite E. cbn. done.
  - unfold strongest. cbn. set_solver.
Qed.

Lemma denied_spec {Hooks} (cfg : NetworkProxyConfig Hooks) p :
  p ∈ default [] (denied_domains cfg) <-> {| de_pattern := p; de_permission := PermDeny |} ∈ entries cfg.
Proof.
  unfold denied_domains. rewrite domain_entries_spec. unfold strongest. split; [naive_solver|]. intros Hin. split; [done|].
  intros [q k] _ _. destruct k; cbn; lia.
Qed.

Lemma allowed_spec {Hooks} (cfg : NetworkProxyConfig Hooks) p :
  p ∈ default [] (allowed_domains cfg) <->
  {| de_pattern := p; de_permission := PermAllow |} ∈ entries cfg /\ {| de_pattern := p; de_permission := PermDeny |} ∉ entries cfg.
Proof.
  unfold allowed_domains. rewrite domain_entries_spec. unfold strongest. split.
  - intros [Hin Hmax]. split; [done|]. intros Hd. specialize (Hmax _ Hd eq_refl). cbn in Hmax. lia.
  - intros [Hin Hno]. split; [done|]. intros [q k] Hk Hq. cbn in *. subst q. destruct k; cbn; [lia..|done].
Qed.

(** ** Managed patterns *)

Section Managed.
Context {Hc : HostCrate} {Hl : HostLaws}.

Lemma plain_unbracketed d : plain_name d = true -> existsb (fun c => contains_char c d) (lit "*?%") = false /\ starts_with (lit "[") d = false.
Proof.
  intros Hd. assert (forall c, c ∈ lit "[]:%*?" -> contains_char c d = false) as Hno by (intros c Hc'; apply contains_char_false; by apply plain_avoids). split.
  - change (lit "*?%") with [42; 63; 37]. cbn [existsb]. by rewrite !Hno by (cbn; set_solver).
  - apply not_true_iff_false. intros [r ->]%starts_with_true. apply (plain_avoids _ 91 Hd); [left|left].
Qed.

Definition constrained_name (d : rstr) : rstr := default [] (url_host_parse d).

Lemma parse_domain_for_constraints_plain d : plain_name d = true -> parse_domain_for_constraints d = constrained_name d.
Proof.
  intros Hd. unfold parse_domain_for_constraints, constrained_name. rewrite (trim_plain d Hd), trim_end_dot by by apply plain_name_parts.
  rewrite plain_nonempty by done. destruct (plain_unbracketed d Hd) as [E1 E2]. rewrite E2. cbn [andb]. rewrite E1. by destruct (url_host_parse d).
Qed.

Lemma parse_for_constraints_entry e : plain_entry e = true -> parse_for_constraints e = entry_pattern constrained_name e.
Proof.
  intros [d Hd|d Hd|d Hd]%entry_shape_plain; unfold parse_for_constraints.
  - rewrite (plain_trim DEEP d) by (repeat constructor || done). rewrite strip_prefix_app. change (is_empty (DEEP ++ _)) with false. cbn iota.
    by rewrite parse_domain_for_constraints_plain, entry_pattern_deep.
  - rewrite (plain_trim SUB d) by (repeat constructor || done). change (is_empty (SUB ++ _)) with false. cbn iota.
    assert (strip_prefix DEEP (SUB ++ d) = None) as -> by done. rewrite strip_prefix_app. cbn iota. by rewrite parse_domain_for_constraints_plain.
  - rewrite (trim_plain d Hd), plain_nonempty, entry_pattern_exact by done. unfold DEEP, SUB. cbn [lit z_of_ascii].
    by rewrite !(strip_star_plain _ d Hd), parse_domain_for_constraints_plain.
Qed.

Lemma normalize_domain_plain d : plain_name d = true -> normalize_domain (to_ascii_lowercase d) = to_ascii_lowercase d.
Proof.
  intros Hd. unfold normalize_domain. rewrite trim_end_dot, lower_idemp; [done|]. rewrite <- plain_name_lower in Hd. by apply plain_name_parts.
Qed.

(** One domain below another, or the same. *)
Lemma is_subdomain_plain c d :
  plain_name c = true -> plain_name d = true ->
  ends_with (DOT_ :: to_ascii_lowercase d) (to_ascii_lowercase c) = true -> exists r, r ≠ [] /\ to_ascii_lowercase c = r ++ DOT_ :: to_ascii_lowercase d.
Proof.
  intros Hcn Hd [r Hr]%ends_with_true. exists r. split; [|done]. intros ->. rewrite <- plain_name_lower in Hcn.
  apply plain_name_parts in Hcn as (_ & _ & Hdot & _). by destruct (Hdot (to_ascii_lowercase d)).
Qed.

Lemma subdomain_trans r c d h : c = r ++ DOT_ :: d -> subdomain_of c h -> subdomain_of d h.
Proof.
  intros -> (x & Hx & E). exists (x ++ DOT_ :: r). split; [by destruct x|]. rewrite E. by rewrite <- app_assoc.
Qed.

Inductive builder : (rstr -> DomainPattern) -> Prop :=
| builder_exact : builder Exact
| builder_sub : builder SubdomainsOnly
| builder_deep : builder ApexAndSubdomains.

Lemma entry_builder e : exists b, builder b /\ forall f, entry_pattern f e = b (f (entry_name e)).
Proof.
  unfold entry_pattern, entry_name. destruct (strip_prefix DEEP e); [|destruct (strip_prefix SUB e)]; eexists; (split; [constructor|done]).
Qed.

Lemma allows_builder bm be d c h :
  builder bm -> builder be -> plain_name d = true -> plain_name c = true ->
  allows (bm (to_ascii_lowercase d)) (be (to_ascii_lowercase c)) = true -> covers (be (to_ascii_lowercase c)) h -> covers (bm (to_ascii_lowercase d)) h.
Proof.
  intros Hm He Hd Hcn. pose proof (is_subdomain_plain c d Hcn Hd) as Hsub.
  destruct Hm, He; cbn [allows covers]; unfold domain_eq, is_subdomain_or_equal, is_strict_subdomain; rewrite ?normalize_domain_plain by done;
    rewrite ?orb_true_iff, ?andb_true_iff, ?streq_true; try done.
  - congruence.
  - intros [_ (r & Hr & E)%Hsub] Hh. exists r. by rewrite Hh.
  - intros [->|(r & Hr & E)%Hsub]; [done|]. by apply (subdomain_trans r).
  - intros [_ (r & Hr & E)%Hsub] [Hh|Hh]; [exists r; by rewrite Hh|by eapply subdomain_trans].
  - intros [->|(r & Hr & E)%Hsub] Hh; [by left|right]. exists r. by rewrite Hh.
  - intros [->|(r & Hr & E)%Hsub] Hh; right; [done|by eapply subdomain_trans].
  - intros [->|(r & Hr & E)%Hsub] [Hh|Hh]; [by left|by right|right; exists r; by rewrite Hh|right; by eapply subdomain_trans].
Qed.

(** A name that could not be read is allowed by none that could. *)
Lemma allows_unread bm be d : builder bm -> builder be -> plain_name d = true -> allows (bm (to_ascii_lowercase d)) (be []) = false.
Proof.
  intros Hm He Hd. assert (to_ascii_lowercase d ≠ []) as Hne by by destruct d.
  assert (ends_with (DOT_ :: to_ascii_lowercase d) [] = false) as Hend.
  { apply not_true_iff_false. intros [r Hr]%ends_with_true. by destruct r. }
  destruct Hm, He; cbn [allows]; unfold domain_eq, is_subdomain_or_equal, is_strict_subdomain; change (normalize_domain []) with (@nil Z);
    rewrite ?normalize_domain_plain, ?Hend, ?andb_false_r, ?orb_false_r by done; try done; by apply streq_false.
Qed.

(** What a managed pattern allows, it covers. *)
Lemma allows_covers m e h :
  plain_entry m = true -> is_Some (url_host_parse (entry_name m)) -> plain_entry e = true ->
  allows (parse_for_constraints m) (parse_for_constraints e) = true -> entry_covers e h -> entry_covers m h.
Proof.
  intros Hm [hm Em] He. rewrite !parse_for_constraints_entry by done. unfold entry_covers.
  destruct (entry_builder m) as (bm & Hbm & Pm), (entry_builder e) as (be & Hbe & Pe). rewrite !Pm, !Pe.
  unfold constrained_name. rewrite Em. cbn [default from_option id]. rewrite (url_host_plain _ _ Hm Em).
  destruct (url_host_parse (entry_name e)) as [he|] eqn:Ee; cbn [default from_option id].
  - rewrite (url_host_plain _ _ He Ee). by apply allows_builder.
  - by rewrite allows_unread.
Qed.
End Managed.
