(* ===== verification/NetworkDecisionProps.v ===== *)
(** * Decisions and changes of the network proxy

    What the lists of a built state decide, how far managed requirements bind every
    decision, which addresses a connection can reach, and what the changes of the state
    keep, for the definitions of [NetworkProxy]. The last section instantiates the crates
    with concrete functions. *)
From stdpp Require Import gmap.
From S2P Require Import Prelude Width AbsPath NetworkHost NetworkProxy NetworkPolicyProps.

Set Default Goal Selector "!".
Open Scope Z_scope.

Section Decisions.
Context {Glob GlobSet : Type} {Gc : GlobCrate Glob GlobSet} {Gl : GlobLaws Glob GlobSet}.
Context {Hc : HostCrate} {Hl : HostLaws}.
Context {Hooks Compiled Mitm : Type} {Heq : EqDecision Hooks} {Hm : MitmOps Hooks Compiled Mitm}.
Abbreviation config := (NetworkProxyConfig Hooks).
Abbreviation state := (@ConfigState GlobSet Hooks Compiled Mitm).
Implicit Types (cfg : config) (st : state) (k : NetworkProxyConstraints).

(** ** Built states *)

Lemma push_star_deny (l : list NetworkDomainPermissionEntry) p :
  {| de_pattern := p; de_permission := PermDeny |} ∈
    default [] (non_empty_domains (fold_left (push_entry PermAllow) [lit "*"] (List.filter (fun e => negb (bool_decide (de_permission e = PermAllow))) l)))
  <-> {| de_pattern := p; de_permission := PermDeny |} ∈ l.
Proof.
  set (kept := List.filter _ l).
  assert ({| de_pattern := p; de_permission := PermDeny |} ∈ kept <-> {| de_pattern := p; de_permission := PermDeny |} ∈ l) as <-.
  { unfold kept. rewrite !list_elem_of_In, filter_In. cbn [de_permission]. naive_solver. }
  cbn [fold_left]. unfold push_entry. destruct (existsb _ kept) eqn:E.
  - destruct kept; [done|]. done.
  - destruct kept as [|e kept']; cbn; set_solver.
Qed.

(** What a built state was built from. *)
Record built (cfg : config) (k : NetworkProxyConstraints) (st : state) : Prop := {
  built_deny : compile_denylist_globset (default [] (denied_domains (st_config st))) = Ok (st_deny_set st);
  built_allow : compile_allowlist_globset (default [] (allowed_domains (st_config st))) = Ok (st_allow_set st);
  built_denied p : p ∈ default [] (denied_domains (st_config st)) <-> p ∈ default [] (denied_domains cfg);
  built_allowed : k_allowed_domains k ≠ None -> allowed_domains (st_config st) = allowed_domains cfg;
  built_constraints : st_constraints st = k;
  built_local : nc_allow_local_binding (st_config st) = nc_allow_local_binding cfg;
}.

Lemma build_built cfg k st : build_config_state cfg k = Ok st -> built cfg k st.
Proof.
  unfold build_config_state. set (broker := if bool_decide (k_enabled k = Some false) then false else _).
  set (fresh := broker && negb (nc_enabled cfg) && _ && _).
  set (cfg1 := with_switches cfg _ broker (nc_mode cfg)).
  set (cfg2 := if fresh then set_allowed_domains cfg1 [lit "*"] else cfg1).
  destruct (negb (validate_unix_socket_allowlist_paths cfg2)); [done|]. destruct (nc_credential_broker cfg2 && _); [done|].
  destruct (validate_non_global_wildcard_domain_patterns _ _) as [[]| |]; [|done..]. cbn [mbind res_bind].
  destruct (compile_denylist_globset _) as [deny| |] eqn:Ed; [|done..]. cbn [mbind res_bind map_err].
  destruct (compile_allowlist_globset _) as [allow| |] eqn:Ea; [|done..]. cbn [mbind res_bind map_err].
  destruct (compile_mitm_hooks cfg2); [|done]. cbn [mbind res_bind ok_or]. intros Hb.
  assert (exists m, st = {| st_config := cfg2; st_brokerage_created_default_allowlist := fresh; st_allow_set := allow; st_deny_set := deny;
    st_mitm := m; st_mitm_hooks := c; st_constraints := k; st_blocked := []; st_blocked_total := 0 |}) as [m ->].
  { destruct (nc_mitm cfg2); [|injection Hb as <-; by eexists].
    destruct (mitm_new _) as [m|]; [|done]. injection Hb as <-. by eexists. }
  split; cbn [st_config st_deny_set st_allow_set]; [done|done| | |done|].
  - intros p. rewrite !denied_spec. unfold cfg2. destruct fresh; [apply push_star_deny|done].
  - intros Hk. unfold cfg2. assert (fresh = false) as ->; [|done]. unfold fresh. by rewrite (bool_decide_eq_false_2 _ Hk), andb_false_r.
  - unfold cfg2. by destruct fresh.
Qed.

(** A host that an effective entry denies is refused. *)
Lemma denied_entry_blocked lookup cfg k st e host h port :
  build_config_state cfg k = Ok st -> e ∈ default [] (denied_domains cfg) -> plain_entry e = true ->
  host_parse host = Some h -> entry_covers e h -> host_blocked lookup st host port = Blocked Denied.
Proof.
  intros Hb%build_built He Hp Hh Hcov. unfold host_blocked. rewrite Hh. unfold globset_matches_host_or_unscoped.
  rewrite (compiled_covers _ _ _ e h (built_deny _ _ _ Hb)); [done| |done|done]. by apply (built_denied _ _ _ Hb).
Qed.

(** ** Managed requirements *)

Lemma lower_set_elem x l : x ∈ lower_set l <-> exists e, e ∈ l /\ x = to_ascii_lowercase e.
Proof. unfold lower_set. rewrite elem_of_list_to_set, list_elem_of_In, in_map_iff. setoid_rewrite list_elem_of_In. naive_solver. Qed.

Lemma require_ok b f : require b f = Ok () <-> b = true.
Proof. by destruct b. Qed.

Lemma bind_ok_unit {A} (x : res NetError unit) (f : unit -> res NetError A) r : x ≫= f = Ok r -> x = Ok () /\ f () = Ok r.
Proof. by destruct x as [[]| |]. Qed.

(** The lists of a valid configuration. *)
Lemma validate_lists cfg k :
  validate_policy_against_constraints cfg k = Ok () ->
  validate_allowed_domains k (default [] (allowed_domains cfg)) (lower_set (default [] (denied_domains cfg))) = Ok () /\
  validate_denied_domains k (default [] (denied_domains cfg)) = Ok ().
Proof.
  unfold validate_policy_against_constraints. intros Hv. do 8 apply bind_ok_unit in Hv as [_ Hv].
  apply bind_ok_unit in Hv as [Ha Hv]. by apply bind_ok_unit in Hv as [Hd _].
Qed.

Lemma validated_deny k candidate managed m :
  validate_denied_domains k candidate = Ok () -> k_denied_domains k = Some managed -> m ∈ managed ->
  exists e, e ∈ candidate /\ to_ascii_lowercase e = to_ascii_lowercase m.
Proof.
  unfold validate_denied_domains. intros Hv Hk Hin. rewrite Hk in Hv. apply bind_ok_unit in Hv as [_ Hv].
  assert (lower_set managed ⊆ lower_set candidate) as Hsub.
  { destruct (k_denylist_expansion_enabled k) as [[|]|]; apply require_ok, bool_decide_eq_true in Hv; set_solver. }
  assert (to_ascii_lowercase m ∈ lower_set candidate) as (e & He & E)%lower_set_elem by (apply Hsub, lower_set_elem; eauto). by exists e.
Qed.

(** C11. A host that a managed entry of the deny list covers is refused as denied, under every
    configuration that is valid for the requirements, whatever else the configuration lists,
    whatever the resolver answers and whatever the decider would say: it is not asked. *)
Theorem managed_deny_enforced lookup cfg k st managed m h environment_id execution_id decider request :
  validate_policy_against_constraints cfg k = Ok () -> build_config_state cfg k = Ok st ->
  k_denied_domains k = Some managed -> m ∈ managed -> plain_entry m = true ->
  host_parse (nr_host request) = Some h -> entry_covers m h ->
  (evaluate_host_policy lookup st environment_id execution_id decider request).1 = NetDeny (lit "denied") BaselinePolicy DecisionDeny.
Proof.
  intros [_ Hv]%validate_lists Hb Hk Hin Hp Hh Hcov. destruct (validated_deny _ _ _ _ Hv Hk Hin) as (e & He & E).
  destruct (entry_eq_lower _ _ E) as [Epl Epat]. unfold evaluate_host_policy.
  rewrite (denied_entry_blocked lookup cfg k st e (nr_host request) h) by (done || congruence || unfold entry_covers; by rewrite Epat). done.
Qed.

Lemma validated_allow k candidate overrides managed e h :
  validate_allowed_domains k candidate overrides = Ok () -> k_allowed_domains k = Some managed ->
  k_allowlist_expansion_enabled k ≠ Some true ->
  Forall (fun m => plain_entry m = true /\ is_Some (url_host_parse (entry_name m))) managed ->
  e ∈ candidate -> plain_entry e = true -> entry_covers e h -> exists m, m ∈ managed /\ entry_covers m h.
Proof.
  unfold validate_allowed_domains. intros Hv Hk Hx Hman He Hpe Hcov. rewrite Hk in Hv. apply bind_ok_unit in Hv as [_ Hv].
  rewrite Forall_forall in Hman. destruct (k_allowlist_expansion_enabled k) as [[|]|]; [done| |]; apply require_ok in Hv.
  - apply bool_decide_eq_true in Hv. assert (to_ascii_lowercase e ∈ lower_set candidate) as Hin by (apply lower_set_elem; eauto).
    rewrite Hv in Hin. apply elem_of_difference in Hin as [(m & Hm' & E)%lower_set_elem _]. exists m. split; [done|].
    unfold entry_covers. by rewrite <- (proj2 (entry_eq_lower _ _ E)).
  - rewrite forallb_forall in Hv. specialize (Hv e (proj1 (list_elem_of_In _ _) He)). apply existsb_elem in Hv as (p & Hp & Ha).
    apply list_elem_of_In, in_map_iff in Hp as (m & <- & Hm'%list_elem_of_In). destruct (Hman m Hm') as [Hpm Hum].
    exists m. split; [done|]. by apply (allows_covers m e h).
Qed.

Lemma globset_host_or_unscoped (set : GlobSet) h :
  globset_matches_host_or_unscoped set h = true -> exists h', (h' = h \/ unscoped_ip_literal h = Some h') /\ globset_is_match set h' = true.
Proof.
  unfold globset_matches_host_or_unscoped. destruct (globset_is_match set h) eqn:E; [intros _; exists h; auto|]. cbn [orb].
  destruct (unscoped_ip_literal h) as [ip|]; [|done]. intros Hip. exists ip. auto.
Qed.

(** What holds of an allowed host. *)
Lemma host_allowed_inv lookup st host port :
  host_blocked lookup st host port = Allowed ->
  exists h, host_parse host = Some h /\ globset_matches_host_or_unscoped (st_deny_set st) h = false /\
    globset_matches_host_or_unscoped (st_allow_set st) h = true /\
    (nc_allow_local_binding (st_config st) = false ->
       if local_literal h then is_explicit_local_allowlisted (default [] (allowed_domains (st_config st))) h = true
       else host_resolves_to_non_public_ip lookup h port = false).
Proof.
  unfold host_blocked. destruct (host_parse host) as [h|]; [|done]. destruct (globset_matches_host_or_unscoped (st_deny_set st) h) eqn:E1; [done|].
  destruct (if nc_allow_local_binding _ then _ else _) eqn:E2; [done|]. destruct (bool_decide _ || _) eqn:E3; [done|]. intros _. exists h.
  apply orb_false_iff in E3 as [_ E3]. apply negb_false_iff in E3. split_and!; [done..|]. intros Hl'. rewrite Hl' in E2.
  destruct (local_literal h); [by apply negb_false_iff in E2|done].
Qed.

(** C12. Managed requirements that list the allowed domains, and do not let them be extended,
    bind every decision: when the configuration is valid for them, and managed and configured
    entries are plain names (with or without wildcard, without a port) of which the managed
    ones can be read, a host the baseline policy allows is covered by a managed entry. *)
Theorem managed_allowlist_enforced lookup cfg k st managed host port :
  validate_policy_against_constraints cfg k = Ok () -> build_config_state cfg k = Ok st ->
  k_allowed_domains k = Some managed -> k_allowlist_expansion_enabled k ≠ Some true ->
  Forall (fun m => plain_entry m = true /\ is_Some (url_host_parse (entry_name m))) managed ->
  Forall (fun e => plain_entry e = true) (default [] (allowed_domains cfg)) ->
  host_blocked lookup st host port = Allowed ->
  exists h h' m, host_parse host = Some h /\ (h' = h \/ unscoped_ip_literal h = Some h') /\ m ∈ managed /\ entry_covers m h'.
Proof.
  intros [Hv _]%validate_lists Hb%build_built Hk Hx Hman Hpl (h & Hh & _ & Ha & _)%host_allowed_inv.
  apply globset_host_or_unscoped in Ha as (h' & Hor & Hmatch). pose proof (built_allow _ _ _ Hb) as Hbuilt.
  rewrite (built_allowed _ _ _ Hb) in Hbuilt by by rewrite Hk. apply (compiled_spec _ _ _ _ Hbuilt Hpl) in Hmatch as (e & He & Hcov).
  destruct (validated_allow _ _ _ _ e h' Hv Hk Hx Hman He) as (m & Hm' & Hcm); [by rewrite Forall_forall in Hpl; apply Hpl|done|].
  by exists h, h', m.
Qed.

(** ** Connections *)

Lemma drop_while_end_app {A} (p : A -> bool) a b : Forall (fun x => p x = true) b -> drop_while_end p (a ++ b) = drop_while_end p a.
Proof.
  intros Hb. unfold drop_while_end. rewrite reverse_app. f_equal. apply Forall_reverse in Hb. induction Hb as [|x l Hx _ IH]; [done|].
  cbn [app drop_while]. by rewrite Hx.
Qed.

(** [localhost], in any case and with dots after it, is the host [localhost]. *)
Lemma is_localhost_parse name : is_localhost name = true -> host_parse name = Some (lit "localhost").
Proof.
  unfold is_localhost. intros E%streq_true. destruct (drop_while_end_prefix (Z.eqb DOT_) name) as (d & Hd & Hdots).
  fold (trim_end_matches DOT_ name) in Hd. set (t := trim_end_matches DOT_ name) in *.
  assert (plain_name t = true) as Ht by (rewrite <- plain_name_lower, E; reflexivity).
  assert (Forall (fun c => c = DOT_) d) as Hdots' by (eapply Forall_impl; [exact Hdots|]; by intros c ->%Z.eqb_eq).
  assert (forall c, c ∈ name -> is_whitespace c = false /\ c ∉ lit "[]:%*?") as Hname.
  { intros c. rewrite Hd. intros [Hc'|Hc']%elem_of_app.
    - apply plain_name_parts in Ht as (_ & Hall & _). rewrite Forall_forall in Hall. by apply name_char_plain, Hall.
    - rewrite Forall_forall in Hdots'. rewrite (Hdots' c Hc'). split; [done|]. cbn. set_solver. }
  unfold host_parse. assert (normalize_host name = lit "localhost") as ->; [|done]. unfold normalize_host.
  rewrite trim_id by (apply plain_no_edge_ws, Forall_forall; intros c Hc'; by apply Hname).
  assert (starts_with (lit "[") name = false) as ->.
  { apply not_true_iff_false. intros [r Hr]%starts_with_true. apply (Hname 91); [rewrite Hr; left|left]. }
  assert (List.filter (Z.eqb COLON_) name = []) as ->.
  { apply filter_absent. intros Hin. destruct (Hname _ Hin) as [_ []]. cbn. set_solver. }
  cbn [length Nat.eqb]. unfold normalize_dns_host_or_ip_literal.
  assert (trim_end_matches DOT_ (to_ascii_lowercase name) = lit "localhost") as ->; [|by vm_compute].
  rewrite Hd, lower_app, E. unfold trim_end_matches. rewrite drop_while_end_app; [by vm_compute|].
  apply Forall_forall. intros c (x & <- & Hx%list_elem_of_In)%list_elem_of_In%in_map_iff. rewrite Forall_forall in Hdots'. by rewrite (Hdots' x Hx).
Qed.

(** C15. With local binding off, the proxy opens a connection to an address that is not public
    only when the client named that very address, or [localhost] for a loopback address, and
    that host stands in the allow list as it is and in no deny entry: no other name leads there,
    whatever it resolves to. The text of an address is assumed to read as that address. *)
Theorem connect_non_public_explicit target_text lookup st target port addr :
  (forall h, target = TargetAddress addr -> host_parse (target_text target) = Some h -> parse_ip h = Some addr /\ PERCENT ∉ h) ->
  (forall name, target = TargetName name -> target_text target = name) ->
  nc_allow_local_binding (st_config st) = false -> is_non_public_ip addr = true ->
  may_connect target_text lookup st target port addr = true ->
  (target = TargetAddress addr \/ exists name, target = TargetName name /\ is_localhost name = true /\ is_loopback addr = true) /\
  exists h, host_parse (target_text target) = Some h /\ globset_matches_host_or_unscoped (st_deny_set st) h = false /\
    is_explicit_local_allowlisted (default [] (allowed_domains (st_config st))) h = true.
Proof.
  intros Haddr Hname Hlocal Hnp. unfold may_connect, allows_non_public_target. rewrite Hnp, Hlocal. cbn [andb negb].
  destruct (target_matches_non_public_addr target addr) eqn:Et; [|done]. cbn [negb].
  destruct (bool_decide _) eqn:Eb; [|done]. intros _. apply bool_decide_eq_true, host_allowed_inv in Eb as (h & Hh & Hd & _ & Hex). specialize (Hex Hlocal).
  assert (target = TargetAddress addr \/ exists name, target = TargetName name /\ is_localhost name = true /\ is_loopback addr = true) as Hor.
  { destruct target as [ip|name]; cbn [target_matches_non_public_addr] in Et.
    - apply bool_decide_eq_true in Et as ->. by left.
    - apply andb_true_iff in Et as [? ?]. right. eauto. }
  split; [done|]. exists h. split_and!; [done..|]. assert (local_literal h = true) as Hll; [|by rewrite Hll in Hex].
  destruct Hor as [->|(name & -> & Hn & _)].
  - destruct (Haddr h eq_refl Hh) as [Hp Hno]. unfold local_literal, unscoped_ip_literal. rewrite (split_once_absent _ _ Hno).
    cbn [mbind option_bind default from_option id]. rewrite Hp. by destruct (is_loopback_host h).
  - rewrite (Hname name eq_refl), (is_localhost_parse name Hn) in Hh. injection Hh as <-. by vm_compute.
Qed.

(** ** The log of blocked requests *)

Lemma pop_front_while_drop l : pop_front_while l = drop (length l - MAX_BLOCKED_EVENTS) l.
Proof.
  induction l as [|e l IH]; [done|]. change (pop_front_while (e :: l)) with (if (MAX_BLOCKED_EVENTS <? length (e :: l))%nat then pop_front_while l else e :: l).
  destruct (Nat.ltb_spec MAX_BLOCKED_EVENTS (length (e :: l))) as [Hlt|Hge].
  - rewrite IH. replace (length (e :: l) - MAX_BLOCKED_EVENTS)%nat with (S (length l - MAX_BLOCKED_EVENTS)) by (cbn [length] in *; lia). done.
  - replace (length (e :: l) - MAX_BLOCKED_EVENTS)%nat with 0%nat by lia. done.
Qed.

Definition record_all st (id : option rstr) (es : list BlockedRequest) : state := fold_left (fun st e => record_blocked st id e) es st.

(** However many requests are blocked, the log holds the latest 200 of them, oldest first,
    and the count of all of them, which stops at the largest 64-bit integer. *)
Theorem blocked_log_recent st id es :
  (length (st_blocked st) <= MAX_BLOCKED_EVENTS)%nat -> 0 <= st_blocked_total st <= U64_MAX ->
  let log := st_blocked st ++ map (fun e => with_execution_id e id) es in
  st_blocked (record_all st id es) = drop (length log - MAX_BLOCKED_EVENTS) log /\
  (length (st_blocked (record_all st id es)) <= MAX_BLOCKED_EVENTS)%nat /\
  st_blocked_total (record_all st id es) = Z.min (st_blocked_total st + Z.of_nat (length es)) U64_MAX.
Proof.
  intros Hlen Htot log.
  assert (st_blocked (record_all st id es) = drop (length log - MAX_BLOCKED_EVENTS) log /\
    st_blocked_total (record_all st id es) = Z.min (st_blocked_total st + Z.of_nat (length es)) U64_MAX) as [E1 E2].
  { subst log. induction es as [|e es IH] using rev_ind.
    - cbn [record_all fold_left map length]. rewrite app_nil_r. replace (length (st_blocked st) - MAX_BLOCKED_EVENTS)%nat with 0%nat by lia. split; [done|]. cbn [Z.of_nat]. lia.
    - destruct IH as [IH1 IH2]. unfold record_all in *. rewrite fold_left_app. cbn [fold_left]. set (st1 := fold_left _ es st) in *.
      unfold record_blocked, with_blocked. cbn [st_blocked st_blocked_total]. split.
      + rewrite IH1, pop_front_while_drop, map_app. cbn [map]. rewrite (app_assoc (st_blocked st)). set (l := st_blocked st ++ _).
        rewrite !length_app, length_drop. cbn [length]. rewrite !drop_app, drop_drop, length_drop. f_equal; f_equal; lia.
      + rewrite IH2, length_app. cbn [length]. lia. }
  split_and!; [done| |done]. rewrite E1, length_drop. lia.
Qed.

(** ** Changes of the lists *)

Definition already_listed (target : DomainListKind) (cfg : config) (host : rstr) : bool :=
  contains_host (list_entries target cfg) host && negb (contains_host (list_entries (opposite target) cfg) host).

(** What a turn that writes has done. *)
Lemma update_turn_written host target snapshot current st :
  update_turn host target snapshot current = Ok (Some st) -> already_listed target (st_config snapshot) host = false ->
  exists built, let candidate := upsert_domain_permission (st_config snapshot) host (list_permission target) normalize_host in
    validate_policy_against_constraints candidate (st_constraints snapshot) = Ok () /\
    build_config_state candidate (st_constraints snapshot) = Ok built /\
    st_constraints current = st_constraints snapshot /\ st_config current = st_config snapshot /\
    st = with_blocked built (st_blocked snapshot) (st_blocked_total snapshot).
Proof.
  unfold update_turn. fold (already_listed target (st_config snapshot) host). intros Hu Hno. rewrite Hno in Hu. cbn zeta.
  apply bind_ok_unit in Hu as [Hv Hu]. destruct (build_config_state _ _) as [built'| |] eqn:Eb; [|done..]. cbn [mbind res_bind] in Hu.
  destruct (negb _ || negb _) eqn:E; [done|]. apply orb_false_iff in E as [E1 E2]. injection Hu as <-. exists built'.
  apply negb_false_iff, bool_decide_eq_true in E1, E2. done.
Qed.

Lemma upsert_entry cfg host perm : {| de_pattern := host; de_permission := perm |} ∈ entries (upsert_domain_permission cfg host perm normalize_host).
Proof.
  unfold upsert_domain_permission, entries, with_domains, non_empty_domains. cbn [nc_domains]. set (kept := List.filter _ _).
  assert (is_empty (kept ++ [{| de_pattern := host; de_permission := perm |}]) = false) as -> by by destruct kept. cbn. set_solver.
Qed.

(** A turn of [add_denied_domain] that writes the state leaves one in which the host is refused,
    and whose configuration was valid for the requirements, which do not change; the write
    happens only when neither changed since they were read. *)
Theorem added_denial_refuses lookup host snapshot current st input port :
  update_turn host ListDeny snapshot current = Ok (Some st) -> already_listed ListDeny (st_config snapshot) host = false ->
  plain_name host = true -> host_parse input = Some host ->
  host_blocked lookup st input port = Blocked Denied /\ st_constraints st = st_constraints current /\
  st_config current = st_config snapshot /\
  validate_policy_against_constraints (upsert_domain_permission (st_config snapshot) host PermDeny normalize_host) (st_constraints st) = Ok ().
Proof.
  intros Hu Hno Hp Hh. destruct (update_turn_written _ _ _ _ _ Hu Hno) as (b & Hv & Hb & Hk & Hcfg & ->).
  pose proof (built_constraints _ _ _ (build_built _ _ _ Hb)) as Ek. split_and!; [|by rewrite Hk|done|cbn [with_blocked st_constraints]; by rewrite Ek].
  change (host_blocked lookup b input port = Blocked Denied). assert (plain_entry host = true) as Hpe.
  { unfold plain_entry, entry_name, DEEP, SUB. cbn [lit z_of_ascii]. by rewrite !(strip_star_plain _ host Hp). }
  eapply denied_entry_blocked; [exact Hb| |exact Hpe|exact Hh|].
  - apply denied_spec, upsert_entry.
  - unfold entry_covers. by rewrite entry_pattern_exact.
Qed.

(** A request that is blocked while [update_domain_list] has its copy of the state is gone from
    the log, and from the count, when the new state is written: the log that was read replaces
    the log that is there. *)
Theorem update_forgets_blocked host target snapshot id entry st :
  already_listed target (st_config snapshot) host = false ->
  update_turn host target snapshot (record_blocked snapshot id entry) = Ok (Some st) ->
  st_blocked st = st_blocked snapshot /\ st_blocked_total st = st_blocked_total snapshot.
Proof. intros Hno Hu. by destruct (update_turn_written _ _ _ _ _ Hu Hno) as (b & _ & _ & _ & _ & ->). Qed.
End Decisions.

(** ** Entries with a port *)

Section Ports.
Context {Hc : HostCrate}.

Definition with_port (d : rstr) : rstr := d ++ lit ":443".

Lemma with_port_trim d : plain_name d = true -> trim (with_port d) = with_port d.
Proof.
  intros (_ & Hall & _)%plain_name_parts. apply trim_id, plain_no_edge_ws, Forall_app. split; [|repeat constructor].
  eapply Forall_impl; [exact Hall|]. intros c Hc'. by apply name_char_plain.
Qed.

Lemma with_port_star d p : plain_name d = true -> strip_prefix (42 :: p) (with_port d) = None.
Proof.
  intros Hd. destruct d as [|c d]; [done|]. cbn [with_port app strip_prefix]. destruct (Z.eqb_spec 42 c) as [<-|]; [|done].
  destruct (plain_avoids _ 42 Hd); [cbn; set_solver|left].
Qed.

Lemma with_port_absent d c : plain_name d = true -> c ∈ lit "*?%" -> contains_char c (with_port d) = false.
Proof.
  intros Hd Hc'. apply contains_char_false. unfold with_port. intros [Hin|Hin]%elem_of_app.
  - apply (plain_avoids _ c Hd); [|done]. cbn in Hc' |- *. set_solver.
  - cbn in Hc', Hin. set_solver.
Qed.

Lemma with_port_dot d l : with_port d ≠ l ++ [DOT_].
Proof. intros E. assert (((d ++ lit ":44") ++ [51]) = l ++ [DOT_]) as [_ ?]%app_inj_tail by by rewrite <- E, <- app_assoc. done. Qed.

Lemma with_port_constraint d : plain_name d = true -> url_host_parse (with_port d) = None -> parse_for_constraints (with_port d) = Exact [].
Proof.
  intros Hd Hu. unfold parse_for_constraints. rewrite with_port_trim by done. assert (is_empty (with_port d) = false) as Hne by by destruct d.
  rewrite Hne. unfold DEEP, SUB. cbn [lit z_of_ascii]. rewrite !(with_port_star d _ Hd). f_equal. unfold parse_domain_for_constraints.
  rewrite with_port_trim, trim_end_dot, Hne by (done || apply with_port_dot).
  assert (starts_with (lit "[") (with_port d) = false) as ->.
  { destruct d as [|c d]; [done|]. apply not_true_iff_false. intros [r [= -> Hr]]%starts_with_true. apply (plain_avoids _ 91 Hd); left. }
  cbn [andb]. change (lit "*?%") with [42; 63; 37]. cbn [existsb]. rewrite !with_port_absent by (done || cbn; set_solver). cbn [orb]. by rewrite Hu.
Qed.

Lemma split_char_first c a b : c ∉ a -> head (split_char c (a ++ c :: b)) = Some a.
Proof.
  induction a as [|x a IH]; intros Ha; cbn [app split_char]; [by rewrite Z.eqb_refl|]. apply not_elem_of_cons in Ha as [Hx Ha].
  destruct (Z.eqb_spec x c) as [->|_]; [done|]. specialize (IH Ha). by destruct (split_char c (a ++ c :: b)); simplify_eq/=.
Qed.

(** The port is dropped when the entry is compiled. *)
Lemma with_port_pattern d : plain_name d = true -> normalize_pattern (with_port d) = to_ascii_lowercase d.
Proof.
  intros Hd. unfold normalize_pattern. rewrite with_port_trim by done.
  assert (streq (with_port d) (lit "*") = false) as ->.
  { apply streq_false. intros E. by apply (f_equal length) in E; unfold with_port in E; rewrite length_app in E; cbn in E; lia. }
  unfold DEEP, SUB. cbn [lit z_of_ascii]. rewrite !(with_port_star d _ Hd). unfold normalize_host. rewrite with_port_trim by done.
  assert (starts_with (lit "[") (with_port d) = false) as ->.
  { destruct d as [|c d]; [done|]. apply not_true_iff_false. intros [r [= -> Hr]]%starts_with_true. apply (plain_avoids _ 91 Hd); left. }
  assert (COLON_ ∉ d) as Hcol by (apply plain_avoids; [done|cbn; set_solver]).
  assert (length (List.filter (Z.eqb COLON_) (with_port d)) = 1%nat) as ->.
  { unfold with_port. rewrite List.filter_app, length_app. assert (List.filter (Z.eqb COLON_) d = []) as ->; [|done].
    by apply filter_absent. }
  cbn [Nat.eqb]. unfold with_port. change (lit ":443") with (COLON_ :: lit "443"). rewrite (split_char_first _ _ _ Hcol). cbn [default from_option id].
  unfold normalize_dns_host_or_ip_literal. pose proof Hd as Hd'. rewrite <- plain_name_lower in Hd'. rewrite trim_end_dot by by apply plain_name_parts.
  apply normalize_ip_literal_plain. apply plain_avoids; [done|cbn; set_solver].
Qed.

(** Two entries with a port are taken for the same by managed requirements, since neither is
    read as a host, though each is compiled to its own host: requirements that allow one let a
    configuration allow the other. *)
Theorem port_entries_escape managed other :
  plain_name managed = true -> plain_name other = true ->
  url_host_parse (with_port managed) = None -> url_host_parse (with_port other) = None ->
  allows (parse_for_constraints (with_port managed)) (parse_for_constraints (with_port other)) = true /\
  expand_domain_pattern (normalize_pattern (with_port other)) = [to_ascii_lowercase other].
Proof.
  intros Hd1 Hd2 Hu1 Hu2. rewrite !with_port_constraint by done. split; [done|]. rewrite with_port_pattern by done.
  rewrite <- plain_name_lower in Hd2. unfold expand_domain_pattern, pattern_parse, DEEP, SUB.
  rewrite (trim_plain _ Hd2), plain_nonempty by done. cbn [lit z_of_ascii]. by rewrite !(strip_star_plain _ _ Hd2).
Qed.
End Ports.

(** ** An instance *)

(** Globs that are a plain name, or [?*.] and one; hosts that are plain names; no hooks. *)
Definition sample_match (g h : rstr) : bool :=
  match strip_prefix (lit "?*.") g with
  | Some d => ends_with (DOT_ :: to_ascii_lowercase d) (to_ascii_lowercase h) && (length d + 1 <? length h)%nat
  | None => streq (to_ascii_lowercase h) (to_ascii_lowercase g)
  end.

#[local] Instance sample_globs : GlobCrate rstr (list rstr) :=
  {| glob_build := Some; glob_is_match := sample_match; globset_build := Some; globset_is_match s h := existsb (fun g => sample_match g h) s |}.

#[local] Instance sample_glob_laws : GlobLaws rstr (list rstr).
Proof.
  split.
  - intros d g h Hd [= <-]. cbn [glob_is_match sample_globs]. unfold sample_match. destruct (strip_prefix (lit "?*.") d) as [r|] eqn:E; [|done].
    apply strip_prefix_Some in E as ->. destruct (plain_avoids _ 63 Hd); [cbn; set_solver|left].
  - intros d g h Hd Hg. apply (inj Some) in Hg as <-. change (glob_is_match (lit "?*." ++ d) h) with (sample_match (lit "?*." ++ d) h). unfold sample_match. rewrite strip_prefix_app.
    rewrite andb_true_iff, ends_with_true, Nat.ltb_lt. unfold subdomain_of. split.
    + intros [[r Hr] Hlen]. exists r. split; [|done]. intros ->. apply (f_equal length) in Hr. unfold to_ascii_lowercase in Hr.
      cbn [app length] in Hr. rewrite !length_map in Hr. lia.
    + intros (x & Hx & E). split; [by exists x|]. apply (f_equal length) in E. unfold to_ascii_lowercase in E.
      rewrite length_app in E. cbn [length] in E. rewrite !length_map in E. destruct x; [done|]. cbn in E. lia.
  - intros gs s h [= <-]. done.
Qed.

#[local] Instance sample_hosts : HostCrate := fun d => if plain_name d then Some (to_ascii_lowercase d) else None.

#[local] Instance sample_host_laws : HostLaws.
Proof. intros d h Hd. unfold url_host_parse, sample_hosts. rewrite Hd. by intros [= <-]. Qed.

#[local] Instance sample_mitm : MitmOps unit unit unit :=
  {| validate_mitm_hook_config _ := true; compile_mitm_hooks _ := Some (); mitm_new _ := Some () |}.

Definition sample_entry (p : string) (perm : NetworkDomainPermission) : NetworkDomainPermissionEntry := {| de_pattern := lit p; de_permission := perm |}.

Definition sample_config : NetworkProxyConfig unit := {|
  nc_enabled := true; nc_proxy_url := lit "http://127.0.0.1:3128"; nc_enable_socks5 := true; nc_socks_url := lit "http://127.0.0.1:8081";
  nc_enable_socks5_udp := true; nc_allow_upstream_proxy := true; nc_dangerously_allow_non_loopback_proxy := false;
  nc_dangerously_allow_all_unix_sockets := false; nc_mode := Full;
  nc_domains := Some [sample_entry "api.Example.com" PermAllow; sample_entry "localhost" PermAllow; sample_entry "*.evil.com" PermDeny];
  nc_unix_sockets := None; nc_allow_local_binding := false; nc_mitm := false; nc_credential_broker := false;
  nc_credential_broker_openai_host := None; nc_dangerously_allow_plaintext_credential_injection := false; nc_mitm_hooks := () |}.

Definition sample_constraints : NetworkProxyConstraints := {|
  k_enabled := Some true; k_mode := Some Full; k_allow_upstream_proxy := None; k_dangerously_allow_non_loopback_proxy := Some false;
  k_dangerously_allow_all_unix_sockets := None; k_allowed_domains := Some [lit "*.example.com"; lit "localhost"];
  k_allowlist_expansion_enabled := None; k_denied_domains := Some [lit "*.Evil.com"]; k_denylist_expansion_enabled := None;
  k_allow_unix_sockets := None; k_allow_local_binding := Some false |}.

Abbreviation sample_states := (@ConfigState (list rstr) unit unit unit).

Definition sample_state : sample_states := {|
  st_config := sample_config; st_brokerage_created_default_allowlist := false;
  st_allow_set := [lit "api.example.com"; lit "localhost"]; st_deny_set := [lit "?*.evil.com"]; st_mitm := None; st_mitm_hooks := ();
  st_constraints := sample_constraints; st_blocked := []; st_blocked_total := 0 |}.

Example sample_built : build_config_state sample_config sample_constraints = Ok sample_state.
Proof. vm_compute. reflexivity. Qed.

Example sample_valid : validate_policy_against_constraints sample_config sample_constraints = Ok ().
Proof. vm_compute. reflexivity. Qed.

Definition sample_request : NetworkPolicyRequest := {|
  nr_protocol := HttpsConnect; nr_host := lit "WWW.evil.com:443"; nr_port := 443; nr_environment_id := None; nr_client_addr := None;
  nr_method := None; nr_command := None; nr_exec_policy_hint := None; nr_execution_id := None; nr_disconnect := None |}.

Lemma managed_deny_enforced_witness :
  (evaluate_host_policy (fun _ _ => None) sample_state None None (Some (fun _ => NetAllow)) sample_request).1
    = NetDeny (lit "denied") BaselinePolicy DecisionDeny.
Proof.
  apply (managed_deny_enforced _ sample_config sample_constraints _ [lit "*.Evil.com"] (lit "*.Evil.com") (lit "www.evil.com")).
  - exact sample_valid.
  - exact sample_built.
  - reflexivity.
  - left.
  - vm_compute. reflexivity.
  - vm_compute. reflexivity.
  - exists (lit "www"). split; [discriminate|reflexivity].
Defined.

Lemma managed_allowlist_enforced_witness :
  exists h h' m, host_parse (lit "API.example.com") = Some h /\ (h' = h \/ unscoped_ip_literal h = Some h') /\
    m ∈ [lit "*.example.com"; lit "localhost"] /\ entry_covers m h'.
Proof.
  apply (managed_allowlist_enforced (fun _ _ => Some [V4 134744072]) sample_config sample_constraints sample_state _ _ 443).
  - exact sample_valid.
  - exact sample_built.
  - reflexivity.
  - discriminate.
  - do 2 (apply Forall_cons_2; [split; [vm_compute; reflexivity|eexists; vm_compute; reflexivity]|]). apply Forall_nil_2.
  - do 2 (apply Forall_cons_2; [vm_compute; reflexivity|]). apply Forall_nil_2.
  - vm_compute. reflexivity.
Defined.

Definition sample_text (t : TargetHost) : rstr := match t with TargetAddress _ => lit "127.0.0.1" | TargetName n => n end.

Lemma connect_non_public_explicit_witness :
  exists h, host_parse (lit "LocalHost.") = Some h /\
    is_explicit_local_allowlisted (default [] (allowed_domains (st_config sample_state))) h = true.
Proof.
  destruct (connect_non_public_explicit sample_text (fun _ _ => None) sample_state (TargetName (lit "LocalHost.")) 80 (V4 2130706433)) as [_ (h & Hh & _ & He)].
  - intros h E. discriminate E.
  - intros name E. injection E as <-. reflexivity.
  - reflexivity.
  - vm_compute. reflexivity.
  - vm_compute. reflexivity.
  - exists h. split; [exact Hh|exact He].
Defined.

Definition sample_blocked : BlockedRequest := {|
  br_host := lit "www.evil.com"; br_reason := lit "denied"; br_client := None; br_method := None; br_mode := Some Full;
  br_protocol := lit "http"; br_execution_id := None; br_decision := None; br_source := None; br_port := Some 443; br_timestamp := 0 |}.

Lemma blocked_log_recent_witness : st_blocked_total (record_all sample_state None (replicate 201 sample_blocked)) = 201.
Proof.
  destruct (blocked_log_recent sample_state None (replicate 201 sample_blocked)) as (_ & _ & E).
  - vm_compute. lia.
  - vm_compute. split; discriminate.
  - rewrite E. vm_compute. reflexivity.
Defined.

(** The state after [add_denied_domain("bad.org")]. *)
Definition sample_updated : sample_states :=
  match update_turn (lit "bad.org") ListDeny sample_state sample_state with Ok (Some st) => st | _ => sample_state end.

Lemma added_denial_refuses_witness : host_blocked (fun _ _ => None) sample_updated (lit "Bad.org") 443 = Blocked Denied.
Proof.
  apply (added_denial_refuses (fun _ _ => None) (lit "bad.org") sample_state sample_state); vm_compute; reflexivity.
Defined.

Lemma update_forgets_blocked_witness :
  st_blocked (record_blocked sample_state None sample_blocked) = [sample_blocked] /\ st_blocked sample_updated = [].
Proof.
  split; [vm_compute; reflexivity|].
  apply (update_forgets_blocked (lit "bad.org") ListDeny sample_state None sample_blocked); vm_compute; reflexivity.
Defined.

Lemma port_entries_escape_witness :
  allows (parse_for_constraints (lit "example.com:443")) (parse_for_constraints (lit "evil.com:443")) = true.
Proof. apply (port_entries_escape (lit "example.com") (lit "evil.com")); vm_compute; reflexivity. Defined.
