(* ===== verification/NativePath.v ===== *)
(** * Native path text

    Models [workx-rs/utils/path-uri/src/api_path_string.rs]: how a path URI is written as
    the path of its host, how text is read back, and how a path is resolved against a
    working directory; and [inferred_native_path_string] of [lib.rs]. *)
From S2P Require Import Prelude AbsPath Utf8Stream PathUri PathUriJoin.

Set Default Goal Selector "!".

(** ** Lossy decoding *)

Definition REPLACEMENT : char := 65533.

(** [String::from_utf8_lossy]; every round takes a byte at least. *)
Fixpoint utf8_lossy_fuel (fuel : nat) (bs : list Z) : rstr :=
  match fuel, bs with
  | O, _ | _, [] => []
  | S fuel, _ =>
      match utf8_first bs with
      | First c rest => c :: utf8_lossy_fuel fuel rest
      | Bad n => REPLACEMENT :: utf8_lossy_fuel fuel (drop n bs)
      | Short => [REPLACEMENT]
      end
  end.

Definition from_utf8_lossy (bs : list Z) : rstr := utf8_lossy_fuel (length bs) bs.

(** [String::from_utf16_lossy]. *)
Definition is_high_surrogate (w : Z) : bool := ((55296 <=? w) && (w <? 56320))%Z.
Definition is_low_surrogate (w : Z) : bool := ((56320 <=? w) && (w <? 57344))%Z.

Fixpoint from_utf16_lossy (ws : list Z) : rstr :=
  match ws with
  | [] => []
  | w :: ws' =>
      if is_low_surrogate w then REPLACEMENT :: from_utf16_lossy ws'
      else if is_high_surrogate w then
        match ws' with
        | w2 :: ws'' =>
            if is_low_surrogate w2 then (65536 + (w - 55296) * 1024 + (w2 - 56320))%Z :: from_utf16_lossy ws''
            else REPLACEMENT :: from_utf16_lossy ws'
        | [] => [REPLACEMENT]
        end
      else w :: from_utf16_lossy ws'
  end.

(** [chunks_exact(2)] as little-endian words. *)
Fixpoint words_le (bs : list Z) : list Z :=
  match bs with a :: b :: bs => (a + 256 * b)%Z :: words_le bs | _ => [] end.

(** ** [LegacyAppPathString] *)

Inductive LegacyAppPathStringError :=
| OpaqueFallback (path : rstr)
| IncompatibleConvention (path : rstr) (convention : PathConvention)
| InvalidNativePath (path : rstr) (convention : option PathConvention)
| MissingBaseConvention (cwd : rstr)
| MissingHomeDirectory (path : rstr)
| MismatchedConvention (path : rstr) (path_convention : PathConvention) (cwd : rstr) (convention : PathConvention)
| InvalidPathUri (e : PathUriParseError).

Section NativePath.
Context {Url : Type} `{UrlCrate Url}.
Set Default Proof Using "Type".

Definition decode_native_segment (segment : rstr) : rstr := from_utf8_lossy (decode_binary segment).

Definition incompatible_convention (path : Url) (convention : PathConvention) : LegacyAppPathStringError :=
  IncompatibleConvention (url_as_str path) convention.

(** A URL without segments panics. *)
Definition native_segments (path : Url) : res LegacyAppPathStringError (list rstr) :=
  match url_segments path with Some segments => Ok segments | None => Panic end.

Definition render_posix_path (path : Url) : res LegacyAppPathStringError rstr :=
  match url_host_str path with
  | Some _ => Err (incompatible_convention path Posix)
  | None =>
      segments ← native_segments path;
      Ok (concat (map (fun segment => SLASH :: decode_native_segment segment) segments))
  end.

Definition is_drive (drive : rstr) : bool :=
  match drive with [d; c] => is_ascii_alphabetic d && (c =? COLON)%Z | _ => false end.

(** [rendered.len() == 2 && rendered.as_bytes()[1] == b':'], where the text starts with an ASCII
    drive or with two separators. *)
Definition is_bare_drive (rendered : rstr) : bool := match rendered with [_; c] => (c =? COLON)%Z | _ => false end.

Definition render_windows_path (path : Url) : res LegacyAppPathStringError rstr :=
  segments ← native_segments path;
  '(rendered, segments) ←
    match url_host_str path, segments with
    | _, [] => Err (incompatible_convention path Windows)
    | Some host, share :: segments =>
        let share := decode_native_segment share in
        if is_empty share then Err (incompatible_convention path Windows)
        else Ok (lit "\\" ++ host ++ BACKSLASH :: share, segments)
    | None, drive :: segments =>
        let drive := decode_native_segment drive in
        if negb (is_drive drive) then Err (incompatible_convention path Windows) else Ok (drive, segments)
    end;
  let rendered := rendered ++ concat (map (fun segment => BACKSLASH :: decode_native_segment segment) segments) in
  Ok (if is_bare_drive rendered then rendered ++ [BACKSLASH] else rendered).

Definition render_windows_opaque_fallback (path_bytes : list Z) : option rstr :=
  if negb (length path_bytes mod 2 =? 0)%nat then None
  else
    let path_wide := words_le path_bytes in
    let has_drive_root :=
      match path_wide with
      | drive :: colon :: separator :: _ =>
          is_ascii_alphabetic drive && (colon =? COLON)%Z && is_separator Windows separator
      | _ => false
      end in
    let has_namespace_or_unc_root :=
      match path_wide with first :: second :: _ => is_separator Windows first && is_separator Windows second | _ => false end in
    if has_drive_root || has_namespace_or_unc_root then Some (from_utf16_lossy path_wide) else None.

Definition render_opaque_fallback (path : Url) (path_bytes : list Z) (convention : PathConvention) : res LegacyAppPathStringError rstr :=
  ok_or match convention with
        | Posix => if starts_with [SLASH] path_bytes then Some (from_utf8_lossy path_bytes) else None
        | Windows => render_windows_opaque_fallback path_bytes
        end (OpaqueFallback (url_as_str path)).

Definition from_path_uri (path : Url) (convention : PathConvention) : res LegacyAppPathStringError rstr :=
  match opaque_fallback_bytes path with
  | Some path_bytes => render_opaque_fallback path path_bytes convention
  | None => match convention with Posix => render_posix_path path | Windows => render_windows_path path end
  end.

(** A panic inside is one of the whole; it does not happen for the URIs the code builds. *)
Definition inferred_native_path_string (self : Url) : res unit rstr :=
  match infer_path_convention self with
  | None => Ok (url_as_str self)
  | Some convention =>
      match from_path_uri self convention with
      | Ok s => Ok s
      | Err _ => Ok (url_as_str self)
      | Panic => Panic
      end
  end.

Definition to_path_uri (self : rstr) (convention : PathConvention) : res LegacyAppPathStringError Url :=
  match from_absolute_native_path self convention with
  | Ok (Some uri) => Ok uri
  | Panic => Panic
  | _ => Err (InvalidNativePath self (Some convention))
  end.

Definition infer_absolute_path_convention (self : rstr) : option PathConvention :=
  let has_windows_drive_root :=
    match self with
    | drive :: c :: separator :: _ => is_ascii_alphabetic drive && (c =? COLON)%Z && is_windows_separator_char separator
    | _ => false
    end in
  if has_windows_drive_root || starts_with (lit "\\") self then Some Windows
  else if starts_with [SLASH] self then Some Posix
  else None.

(** [TryFrom<LegacyAppPathString> for PathUri]. *)
Definition to_inferred_path_uri (self : rstr) : res LegacyAppPathStringError Url :=
  match infer_absolute_path_convention self with
  | None => Err (InvalidNativePath self None)
  | Some convention => to_path_uri self convention
  end.

Definition home_relative (windows : bool) (path : rstr) : option rstr :=
  match strip_prefix (lit "~/") path with
  | Some suffix => Some suffix
  | None =>
      if streq path (lit "~") then Some []
      else if windows then strip_prefix (lit "~\") path else None
  end.

Definition trim_separators (windows : bool) (s : rstr) : rstr :=
  drop_while (fun c => (c =? SLASH)%Z || (windows && (c =? BACKSLASH)%Z)) s.

Definition join_native (base : Url) (path : rstr) : res LegacyAppPathStringError Url :=
  match uri_join base path with Ok u => Ok u | Err e => Err (InvalidPathUri e) | Panic => Panic end.

Definition resolve_against (self : rstr) (cwd : Url) (user_home_dir : option Url) : res LegacyAppPathStringError Url :=
  convention ← ok_or (infer_path_convention cwd) (MissingBaseConvention (url_as_str cwd));
  let is_windows := bool_decide (convention = Windows) in
  match home_relative is_windows self with
  | Some suffix =>
      home ← ok_or user_home_dir (MissingHomeDirectory self);
      join_native home (trim_separators is_windows suffix)
  | None =>
      if is_windows && (starts_with (lit "//") self || starts_with (lit "\\") self) then to_path_uri self Windows
      else
        match infer_absolute_path_convention self with
        | Some path_convention =>
            if bool_decide (path_convention = convention) then to_path_uri self convention
            else if bool_decide (path_convention = Posix) && is_windows then join_native cwd self
            else Err (MismatchedConvention self path_convention (url_as_str cwd) convention)
        | None => join_native cwd self
        end
  end.
End NativePath.

(** ** Round trip *)

Lemma utf8_lossy_ascii s : Forall (fun c => (0 <= c < 128)%Z) s -> from_utf8_lossy s = s.
Proof.
  intros Hs. unfold from_utf8_lossy. induction Hs as [|c s Hc _ IH]; [done|]. cbn [length utf8_lossy_fuel utf8_first].
  destruct (Z.ltb_spec c 128); [|lia]. by rewrite IH.
Qed.

Lemma concat_slashes (segs : list rstr) : segs ≠ [] -> concat (map (fun s => SLASH :: s) segs) = SLASH :: join [SLASH] segs.
Proof.
  intros Hne. induction segs as [|s segs IH]; [done|]. cbn [map concat]. destruct segs as [|t segs]; [cbn; by rewrite app_nil_r|].
  rewrite IH by done. done.
Qed.

Lemma fold_join_skip ns tl : Forall (fun n => plain_name n = true) ns -> tl = [] \/ tl = [[]] -> fold_left join_name (ns ++ tl) [] = ns.
Proof.
  intros Hns Htl. rewrite fold_left_app, (fold_join_names ns []) by done. cbn [app]. by destruct Htl as [->| ->].
Qed.

Section Laws.
Context {Url : Type} {UC : UrlCrate Url} {Hlaws : UrlLaws Url}.
Set Default Proof Using "Type*".
Implicit Types (u : Url).

Lemma inferred_native_no_panic u : valid_uri u -> inferred_native_path_string u ≠ Panic.
Proof.
  intros Hv. destruct (valid_segments u Hv) as [segs Hs]. unfold inferred_native_path_string. destruct (infer_path_convention u) as [c|]; [|done].
  assert (from_path_uri u c ≠ Panic) as Hn; [|by destruct (from_path_uri u c)].
  unfold from_path_uri, render_opaque_fallback, render_posix_path, render_windows_path, native_segments. rewrite Hs.
  destruct (opaque_fallback_bytes u) as [b|]; [destruct c; [destruct (starts_with _ _)|destruct (render_windows_opaque_fallback b)]; done|].
  destruct c; [by destruct (url_host_str u)|]. cbn [mbind res_bind]. destruct (url_host_str u), segs as [|x segs]; try done.
  - by destruct (is_empty (decode_native_segment x)).
  - by destruct (is_drive (decode_native_segment x)).
Qed.

Lemma decode_native_plain n : n = [] \/ plain_name n = true -> decode_native_segment n = n.
Proof.
  unfold decode_native_segment. intros [->|Hn]; [by rewrite decode_nil|]. rewrite (decode_plain_name n Hn). apply utf8_lossy_ascii.
  destruct (plain_name_spec n Hn) as (_ & _ & _ & Hall). eapply Forall_impl; [exact Hall|]. cbn. lia.
Qed.

(** A POSIX URI written as a path and read back is about the same names. *)
Theorem native_path_roundtrip u ns :
  at_names u ns -> Forall (fun n => plain_name n = true) ns ->
  exists s v, inferred_native_path_string u = Ok s /\ to_inferred_path_uri s = Ok v /\ at_names v ns.
Proof.
  intros Hu Hns. destruct (at_names_convention u ns Hu) as [Hi Ho]. apply is_opaque_false in Ho.
  assert (exists segs tl, url_segments u = Some segs /\ segs ≠ [] /\ fold_left join_name segs [] = ns /\ Forall (fun c => c = [] \/ plain_name c = true) segs /\
    Forall (fun c => SLASH ∉ c) segs /\ tl = @nil rstr) as (segs & _ & Hs & Hne & Hfold & Hplain & Hslash & _).
  { pose proof (plain_names_no_slash ns Hns) as Hsl. assert (Forall (fun c : rstr => c = [] \/ plain_name c = true) ns) as Hp by (eapply Forall_impl; [exact Hns|auto]).
    destruct (an_segments u ns Hu) as [Hs|[Hne Hs]]; exists (default [] (url_segments u)), []; rewrite Hs; cbn [default from_option id].
    - destruct ns as [|n ns]; cbn [to_segs]; [split_and!; [done|done|done|apply Forall_singleton; by left|apply Forall_singleton; set_solver|done]|].
      split_and!; try done. rewrite <- (app_nil_r (n :: ns)) at 1. apply fold_join_skip; auto.
    - split_and!; try done; [by destruct ns|apply fold_join_skip; auto|apply Forall_app; split; [done|apply Forall_singleton; by left]|].
      apply Forall_app. split; [done|]. apply Forall_singleton. set_solver. }
  exists (SLASH :: join [SLASH] segs).
  assert (split_char SLASH (join [SLASH] segs) = segs) as Hsplit by by apply split_char_join.
  destruct (from_absolute_plain (join [SLASH] segs)) as (v & Hv & Hat).
  { rewrite Hsplit. eapply Forall_impl; [exact Hplain|]. intros c [->|Hc]; [done|]. unfold plain_component. by rewrite Hc, !orb_true_r. }
  rewrite Hsplit, Hfold in Hat. exists v. split_and!; [| |done].
  - unfold inferred_native_path_string. rewrite Hi. unfold from_path_uri, opaque_fallback_bytes. rewrite Ho. unfold render_posix_path, native_segments.
    rewrite (an_host u ns Hu), Hs. cbn [mbind res_bind]. f_equal. rewrite <- concat_slashes by done. f_equal. apply map_ext_in. intros c Hc. f_equal.
    apply decode_native_plain. rewrite Forall_forall in Hplain. by apply Hplain, list_elem_of_In.
  - unfold to_inferred_path_uri. assert (infer_absolute_path_convention (SLASH :: join [SLASH] segs) = Some Posix) as ->.
    { unfold infer_absolute_path_convention. destruct (join [SLASH] segs) as [|a [|b r]]; done. }
    unfold to_path_uri. by rewrite Hv.
Qed.
End Laws.
