(* ===== verification/PolicyTransforms.v ===== *)
(** * Permission overlays

    Models [workx-rs/sandboxing/src/policy_transforms.rs]: permissions that are asked for and
    granted on top of a policy, how they are normalised, merged, intersected and applied;
    with the overlays of [protocol/src/models.rs] and the matcher of denied reads of
    [protocol/src/permissions.rs]. [globset] is the parameter [glob_compile]; what the
    process says of itself is the record of [SandboxPolicy]. *)
From S2P Require Import Prelude AbsPath Utf8Stream PathUri NativePath SandboxPolicy.

Set Default Goal Selector "!".

Section Transforms.
Context {Url : Type} `{UrlCrate Url}.

(** A compiled pattern with the options of [build_glob_matcher] for a convention, on bytes. *)
Context (glob_compile : PathConvention -> rstr -> option (list Z -> bool)).
Set Default Proof Using "Type".
Abbreviation entry := (@FileSystemSandboxEntry Url).
Abbreviation policy := (@FileSystemSandboxPolicy Url).
Abbreviation context := (@FileSystemSandboxPolicyContext Url).

(** ** Overlays *)

Record NetworkPermissions := { np_enabled : option bool }.

Definition np_is_empty (self : NetworkPermissions) : bool := bool_decide (np_enabled self = None).

(** The depth is not zero. *)
Record FileSystemPermissions := { fs_entries : list entry; fs_glob_scan_max_depth : option nat }.

Definition fs_is_empty (self : FileSystemPermissions) : bool := is_empty (fs_entries self).

Record AdditionalPermissionProfile := { ap_network : option NetworkPermissions; ap_file_system : option FileSystemPermissions }.

Definition ap_is_empty (self : AdditionalPermissionProfile) : bool :=
  match ap_network self, ap_file_system self with None, None => true | _, _ => false end.

Definition ap_default : AdditionalPermissionProfile := {| ap_network := None; ap_file_system := None |}.

(** ** Reads that are denied *)

(** The text of a URI; [inferred_native_no_panic] shows that it is there. *)
Definition native_string (u : Url) : rstr := match inferred_native_path_string u with Ok s => s | _ => [] end.

Definition build_glob_matcher (pattern : rstr) (convention : PathConvention) : option (list Z -> bool) :=
  glob_compile convention match convention with Windows => replace_char BACKSLASH SLASH pattern | Posix => pattern end.

Record PreparedReadDenyMatcher := {
  pm_denied_roots : list Url;
  pm_deny_read_matchers : list (list Z -> bool);
  pm_invalid_pattern : bool;
}.

Inductive InvalidDenyReadGlobBehavior := FailClosed | ReturnError.

Definition is_windows_context (cx : context) : bool := bool_decide (infer_path_convention (cx_cwd cx) = Some Windows).

(** One pattern as absolute text; the errors are told apart by their text only. *)
Definition deny_read_glob (cx : context) (pattern : rstr) : res rstr rstr :=
  let is_windows := is_windows_context cx in
  let home_relative :=
    match strip_prefix (lit "~/") pattern with
    | Some suffix => Some suffix
    | None => if is_windows then strip_prefix (lit "~\") pattern else None
    end in
  '(root, pattern) ←
    match home_relative with
    | Some suffix =>
        match cx_user_home_dir cx with
        | Some home => Ok (home, trim_separators is_windows suffix)
        | None => Err (lit "unable to resolve deny-read glob pattern without executor home")
        end
    | None => Ok (cx_cwd cx, pattern)
    end;
  match uri_join root pattern with
  | Ok path => Ok (native_string path)
  | _ => Err (lit "unable to resolve deny-read glob pattern")
  end.

Definition deny_patterns (entries : list entry) : list rstr :=
  omap (fun e => match fe_path e with PGlob pattern => if is_deny (fe_access e) then Some pattern else None | _ => None end) entries.

Definition deny_read_globs (self : policy) (cx : context) : res rstr (list rstr) :=
  map_res (deny_read_glob cx) (deny_patterns (fp_entries self)).

(** The roots of the entries that deny, but for the root of the file system. *)
Definition denied_roots (self : policy) (cx : context) : list Url :=
  map fst (List.filter (fun x =>
    negb match file_system_root cx with
         | Some root => uri_starts_with x.1 root && uri_starts_with root x.1
         | None => false
         end) (List.filter (fun x => is_deny x.2) (resolved_entries self cx))).

(** The compiled patterns, and whether one is invalid. *)
Fixpoint compile_patterns (behavior : InvalidDenyReadGlobBehavior) (convention : PathConvention) (patterns : list rstr)
    : res rstr (list (list Z -> bool) * bool) :=
  match patterns with
  | [] => Ok ([], false)
  | pattern :: patterns =>
      match build_glob_matcher pattern convention, behavior with
      | Some matcher, _ => '(matchers, invalid) ← compile_patterns behavior convention patterns; Ok (matcher :: matchers, invalid)
      | None, FailClosed => '(matchers, _) ← compile_patterns behavior convention patterns; Ok (matchers, true)
      | None, ReturnError => Err (lit "invalid deny-read glob pattern")
      end
  end.

Definition prepare_deny_read_matcher (self : policy) (cx : context) (behavior : InvalidDenyReadGlobBehavior)
    : res rstr PreparedReadDenyMatcher :=
  let failed := {| pm_denied_roots := denied_roots self cx; pm_deny_read_matchers := []; pm_invalid_pattern := true |} in
  match infer_path_convention (cx_cwd cx) with
  | None => Ok failed
  | Some convention =>
      match deny_read_globs self cx, behavior with
      | Ok patterns, _ =>
          '(matchers, invalid) ← compile_patterns behavior convention patterns;
          Ok {| pm_denied_roots := denied_roots self cx; pm_deny_read_matchers := matchers; pm_invalid_pattern := invalid |}
      | Err _, FailClosed => Ok failed
      | Err err, ReturnError => Err err
      | Panic, _ => Panic
      end
  end.

Definition match_bytes (convention : PathConvention) (path : Url) : list Z :=
  match convention with
  | Posix => decode_binary (url_path path)
  | Windows => encode_all (replace_char BACKSLASH SLASH (native_string path))
  end.

Definition matches_prepared_read_deny (path : Url) (cx : context) (prepared : PreparedReadDenyMatcher) : bool :=
  match infer_path_convention (cx_cwd cx) with
  | None => true
  | Some convention =>
      if negb (bool_decide (infer_path_convention path = Some convention))
         || bool_decide (lexical_depth path = None) || bool_decide (lexical_depth (cx_cwd cx) = None)
      then true
      else if pm_invalid_pattern prepared then true
      else existsb (uri_starts_with path) (pm_denied_roots prepared)
           || existsb (fun matcher => matcher (match_bytes convention path)) (pm_deny_read_matchers prepared)
  end.

(** [ReadDenyMatcher::from_context]. *)
Definition matcher_from_context (self : policy) (cx : context) : option PreparedReadDenyMatcher :=
  if existsb (fun e => is_deny (fe_access e)) (fp_entries self)
  then ok_of (prepare_deny_read_matcher self cx FailClosed) else None.

Definition is_read_denied_uri (self : option PreparedReadDenyMatcher) (path : Url) (cx : context) : bool :=
  match self with Some prepared => matches_prepared_read_deny path cx prepared | None => false end.

(** ** Normalisation *)

(** [if !entries.contains(&entry) { entries.push(entry) }]. *)
Definition push_new (entries : list entry) (e : entry) : list entry :=
  if existsb (fun x => entry_eq x e) entries then entries else entries ++ [e].

Definition is_glob (p : @FileSystemPath Url) : bool := match p with PGlob _ => true | _ => false end.

Definition normalize_entry (entries : list entry) (e : entry) : res rstr (list entry) :=
  if is_glob (fe_path e) && negb (is_deny (fe_access e))
  then Err (lit "glob file system permissions only support deny-read entries")
  else Ok (push_new entries e).

Definition normalize_additional_permissions (p : AdditionalPermissionProfile) : res rstr AdditionalPermissionProfile :=
  let network := match ap_network p with Some network => if np_is_empty network then None else Some network | None => None end in
  file_system ←
    match ap_file_system p with
    | Some file_system =>
        entries ← fold_res normalize_entry [] (fs_entries file_system);
        let file_system := {| fs_entries := entries; fs_glob_scan_max_depth := fs_glob_scan_max_depth file_system |} in
        Ok (if fs_is_empty file_system then None else Some file_system)
    | None => Ok None
    end;
  Ok {| ap_network := network; ap_file_system := file_system |}.

(** A path that is not for the executor of the context. *)
Definition foreign_path (cx : context) (e : entry) : bool :=
  match fe_path e with
  | PPath path =>
      bool_decide (infer_path_convention path = None)
      || negb (bool_decide (infer_path_convention path = infer_path_convention (cx_cwd cx)))
      || negb match uri_join path (lit ".") with Ok _ => true | _ => false end
  | _ => false
  end.

Definition normalize_additional_permissions_with_context (p : AdditionalPermissionProfile) (cx : context)
    : res rstr AdditionalPermissionProfile :=
  normalized ← normalize_additional_permissions p;
  match ap_file_system normalized with
  | Some file_system =>
      if existsb (foreign_path cx) (fs_entries file_system)
      then Err (lit "permission path does not match executor cwd") else Ok normalized
  | None => Ok normalized
  end.

(** ** Paths of entries *)

Definition resolve_permission_path (path : @FileSystemPath Url) (cx : context) : option Url :=
  match path with
  | PPath path => Some path
  | PGlob _ => None
  | PSpecial Root => file_system_root cx
  | PSpecial (ProjectRoots subpath) =>
      root ← head (cx_workspace_roots cx);
      match subpath with Some subpath => ok_of (uri_join root subpath) | None => Some root end
  | PSpecial Tmpdir => cx_temporary_directories cx ≫= head
  | PSpecial SlashTmp =>
      if bool_decide (infer_path_convention (cx_cwd cx) = Some Posix) then ok_of (uri_join (cx_cwd cx) (lit "/tmp")) else None
  | PSpecial Minimal | PSpecial (UnknownPath _ _) => None
  end.

Definition materialized_path_entry (e : entry) (path : Url) : entry :=
  {| fe_path := PPath path; fe_access := fe_access e; fe_skip_missing := fe_skip_missing e |}.

Definition materialize_cwd_dependent_entry (e : entry) (cx : context) : option entry :=
  match fe_path e with
  | PGlob pattern =>
      let is_windows := is_windows_context cx in
      '(root, pattern) ←
        match home_relative is_windows pattern with
        | Some suffix => home ← cx_user_home_dir cx; Some (home, trim_separators is_windows suffix)
        | None => Some (cx_cwd cx, pattern)
        end;
      path ← ok_of (uri_join root pattern);
      Some {| fe_path := PGlob (native_string path); fe_access := fe_access e; fe_skip_missing := fe_skip_missing e |}
  | PPath _ | PSpecial _ => Some e
  end.

Definition with_workspace_root (cx : context) (root : Url) : context :=
  {| cx_cwd := cx_cwd cx; cx_workspace_roots := [root]; cx_user_home_dir := cx_user_home_dir cx;
     cx_temporary_directories := cx_temporary_directories cx |}.

(** The roots of an entry, [None] when it denies and one can not be resolved. *)
Fixpoint materialize_roots (e : entry) (cx : context) (roots : list Url) : option (list entry) :=
  match roots with
  | [] => Some []
  | root :: roots =>
      match resolve_permission_path (fe_path e) (with_workspace_root cx root) with
      | Some path => resolved ← materialize_roots e cx roots; Some (materialized_path_entry e path :: resolved)
      | None => if is_deny (fe_access e) then None else materialize_roots e cx roots
      end
  end.

Definition materialize_context_entry (cx : context) (e : entry) : option (list entry) :=
  match fe_path e with
  | PSpecial (ProjectRoots _) =>
      resolved ← materialize_roots e cx (cx_workspace_roots cx);
      if is_deny (fe_access e) && is_empty resolved then None else Some resolved
  | PSpecial Tmpdir =>
      match cx_temporary_directories cx with
      | None => if is_deny (fe_access e) then None else Some [e]
      | Some temporary_directories => Some (map (materialized_path_entry e) temporary_directories)
      end
  | PSpecial Root => _ ← resolve_permission_path (fe_path e) cx; Some [e]
  | _ =>
      match materialize_cwd_dependent_entry e cx with
      | Some e => Some [e]
      | None => if is_deny (fe_access e) then None else Some []
      end
  end.

Fixpoint materialize_context_dependent_entries (entries : list entry) (cx : context) : option (list entry) :=
  match entries with
  | [] => Some []
  | e :: entries =>
      first ← materialize_context_entry cx e;
      rest ← materialize_context_dependent_entries entries cx;
      Some (first ++ rest)
  end.

Definition materialize_additional_permissions_with_context (p : AdditionalPermissionProfile) (cx : context)
    : res rstr AdditionalPermissionProfile :=
  match ap_file_system p with
  | Some file_system =>
      entries ← ok_or (materialize_context_dependent_entries (fs_entries file_system) cx) (lit "unable to resolve permission path");
      normalize_additional_permissions_with_context
        {| ap_network := ap_network p;
           ap_file_system := Some {| fs_entries := entries; fs_glob_scan_max_depth := fs_glob_scan_max_depth file_system |} |} cx
  | None => normalize_additional_permissions_with_context p cx
  end.

(** ** Depths of glob scans *)

Inductive GlobScanDepth := Bounded (depth : nat) | Unbounded.

Definition effective_glob_scan_depth (entries : list entry) (depth : option nat) : option GlobScanDepth :=
  if existsb (fun e => is_deny (fe_access e) && is_glob (fe_path e)) entries
  then Some match depth with Some depth => Bounded depth | None => Unbounded end else None.

Definition merge_glob_scan_max_depth (left_entries : list entry) (left_depth : option nat)
    (right_entries : list entry) (right_depth : option nat) : option nat :=
  match effective_glob_scan_depth left_entries left_depth, effective_glob_scan_depth right_entries right_depth with
  | Some Unbounded, _ | _, Some Unbounded => None
  | Some (Bounded l), Some (Bounded r) => Some (l `max` r)
  | Some (Bounded depth), None | None, Some (Bounded depth) => Some depth
  | None, None => None
  end.

(** ** Merging *)

Definition merge_permission_entries (base permissions : list entry) : list entry := foldl push_new [] (base ++ permissions).

Definition enabled (n : option NetworkPermissions) : bool := match n with Some {| np_enabled := Some true |} => true | _ => false end.

Definition option_filter {A} (p : A -> bool) (o : option A) : option A :=
  match o with Some a => if p a then Some a else None | None => None end.

Definition merge_permission_profiles (base permissions : option AdditionalPermissionProfile) : option AdditionalPermissionProfile :=
  match permissions, base with
  | None, _ => base
  | Some permissions, Some base =>
      let network := if enabled (ap_network base) || enabled (ap_network permissions) then Some {| np_enabled := Some true |} else None in
      let file_system :=
        match ap_file_system base, ap_file_system permissions with
        | Some base, Some permissions =>
            option_filter (fun fs => negb (fs_is_empty fs))
              (Some {| fs_entries := merge_permission_entries (fs_entries base) (fs_entries permissions);
                       fs_glob_scan_max_depth :=
                         merge_glob_scan_max_depth (fs_entries base) (fs_glob_scan_max_depth base)
                           (fs_entries permissions) (fs_glob_scan_max_depth permissions) ≫= non_zero |})
        | Some base, None => Some base
        | None, Some permissions => Some permissions
        | None, None => None
        end in
      option_filter (fun p => negb (ap_is_empty p)) (Some {| ap_network := network; ap_file_system := file_system |})
  | Some permissions, None => option_filter (fun p => negb (ap_is_empty p)) (Some permissions)
  end.

(** ** Intersection *)

Definition access_covers (requested granted : FileSystemAccessMode) : bool :=
  match granted with Read => can_read requested | Write => can_write requested | Deny => false end.

Definition is_root_entry (e : entry) : bool := match fe_path e with PSpecial Root => true | _ => false end.

Definition granted_file_system_entry_within_request (requested : FileSystemPermissions) (requested_policy : policy)
    (requested_read_deny_matcher : option PreparedReadDenyMatcher) (granted_entry : entry) (cx : context) : bool :=
  if negb (can_read (fe_access granted_entry))
     || match fe_path granted_entry with
        | PSpecial SlashTmp => negb (bool_decide (infer_path_convention (cx_cwd cx) = Some Posix))
        | _ => false
        end
  then false
  else if is_windows_context cx && is_root_entry granted_entry
          && negb (existsb (fun requested_entry =>
                     is_root_entry requested_entry && access_covers (fe_access requested_entry) (fe_access granted_entry)) (fs_entries requested))
  then false
  else
    match resolve_permission_path (fe_path granted_entry) cx with
    | Some path =>
        if negb (bool_decide (infer_path_convention path = infer_path_convention (cx_cwd cx)))
           || is_read_denied_uri requested_read_deny_matcher path cx
        then false
        else access_covers (resolve_access requested_policy path cx) (fe_access granted_entry)
    | None =>
        existsb (fun requested_entry =>
          access_covers (fe_access requested_entry) (fe_access granted_entry)
          && file_system_path_eq (fe_path requested_entry) (fe_path granted_entry)) (fs_entries requested)
    end.

(** [str::find] with the chars that make a pattern, here [* ? \[ \]]. *)
Definition is_pattern_char (c : char) : bool := existsb (Z.eqb c) (lit "*?[]").

Fixpoint find_pattern_char (s : rstr) : option nat :=
  match s with
  | [] => None
  | c :: s => if is_pattern_char c then Some O else S <$> find_pattern_char s
  end.

Definition glob_static_prefix_path (pattern : rstr) (cx : context) : option Url :=
  let is_windows := is_windows_context cx in
  '(prefix, wildcard_in_segment) ←
    match find_pattern_char pattern with
    | Some O => None
    | Some index =>
        let prefix := take index pattern in
        Some (prefix, negb (ends_with [SLASH] prefix || (is_windows && ends_with [BACKSLASH] prefix)))
    | None => Some (pattern, false)
    end;
  prefix ← ok_of (uri_join (cx_cwd cx) prefix);
  if wildcard_in_segment : bool then uri_parent prefix else Some prefix.

Definition paths_overlap (left_ right_ : Url) : bool := default true (overlaps left_ right_).

Definition overlaps_or_unknown (path : option Url) (grant_path : Url) : bool :=
  match path with Some path => paths_overlap path grant_path | None => true end.

Definition constrains (deny_entry : entry) (cx : context) (e : entry) : bool :=
  if is_root_entry e then true
  else
    match resolve_permission_path (fe_path e) cx with
    | None => true
    | Some grant_path =>
        match fe_path deny_entry with
        | PGlob pattern => overlaps_or_unknown (glob_static_prefix_path pattern cx) grant_path
        | PPath _ | PSpecial _ => overlaps_or_unknown (resolve_permission_path (fe_path deny_entry) cx) grant_path
        end
    end.

Definition deny_entry_constrains_accepted_grant (deny_entry : entry) (accepted_entries : list entry) (cx : context) : bool :=
  existsb (constrains deny_entry cx) (List.filter (fun e => can_read (fe_access e)) accepted_entries).

(** The entries with those that are kept, and the ones that are kept. *)
Definition retain_constraining_deny_entries (source_entries accepted_entries : list entry) (cx : context) (output_entries : list entry)
    : list entry * list entry :=
  let retained :=
    List.filter (fun e => deny_entry_constrains_accepted_grant e accepted_entries cx)
      (List.filter (fun e => is_deny (fe_access e)) source_entries) in
  (foldl push_new output_entries retained, retained).

Definition intersect_file_system (requested_file_system granted_file_system : FileSystemPermissions) (cx : context)
    : option FileSystemPermissions :=
  requested_entries ← materialize_context_dependent_entries (fs_entries requested_file_system) cx;
  granted_entries ← materialize_context_dependent_entries (fs_entries granted_file_system) cx;
  let requested_policy := restricted requested_entries in
  let matcher := matcher_from_context requested_policy cx in
  let accepted_entries :=
    foldl push_new []
      (List.filter (fun e => granted_file_system_entry_within_request requested_file_system requested_policy matcher e cx) granted_entries) in
  let '(entries, requested_retained) := retain_constraining_deny_entries requested_entries accepted_entries cx accepted_entries in
  let '(entries, granted_retained) := retain_constraining_deny_entries granted_entries accepted_entries cx entries in
  Some {| fs_entries := entries;
          fs_glob_scan_max_depth :=
            merge_glob_scan_max_depth requested_retained (fs_glob_scan_max_depth requested_file_system)
              granted_retained (fs_glob_scan_max_depth granted_file_system) ≫= non_zero |}.

Definition intersect_permission_profiles_with_context (requested granted : AdditionalPermissionProfile) (cx : context)
    : AdditionalPermissionProfile :=
  {| ap_network := if enabled (ap_network requested) && enabled (ap_network granted) then Some {| np_enabled := Some true |} else None;
     ap_file_system :=
       option_filter (fun fs => negb (fs_is_empty fs))
         (requested_file_system ← ap_file_system requested;
          intersect_file_system requested_file_system
            (default {| fs_entries := []; fs_glob_scan_max_depth := None |} (ap_file_system granted)) cx) |}.

(** ** On this host *)

Definition normalize_temp_path (host : Host) (path : rstr) : option Url :=
  match ok_of (from_host_native_path (h_env host) path) with
  | Some u => Some u
  | None => cwd ← env_cwd (h_env host); ok_of (from_host_native_path (h_env host) (path_join cwd path))
  end.

(** [with_local_context_for_cwd] on Unix. *)
Definition local_context_for_cwd (host : Host) (cwd : Url) : context :=
  {| cx_cwd := cwd; cx_workspace_roots := [cwd];
     cx_user_home_dir := ok_of (from_host_native_path (h_env host) (lit "~"));
     cx_temporary_directories :=
       Some match h_tmpdir host with
            | Some tmpdir => if is_empty tmpdir then [] else option_list (normalize_temp_path host tmpdir)
            | None => []
            end |}.

Definition intersect_permission_profiles (host : Host) (requested granted : AdditionalPermissionProfile) (cwd : rstr)
    : AdditionalPermissionProfile :=
  match cwd ← ok_of (from_absolute_path (h_env host) cwd); uri_of cwd with
  | Some cwd => intersect_permission_profiles_with_context requested granted (local_context_for_cwd host cwd)
  | None => ap_default
  end.

Definition materialize_additional_permissions (host : Host) (p : AdditionalPermissionProfile) (cwd : rstr)
    : res rstr AdditionalPermissionProfile :=
  match cwd ← ok_of (from_absolute_path (h_env host) cwd); uri_of cwd with
  | Some cwd => materialize_additional_permissions_with_context p (local_context_for_cwd host cwd)
  | None => Err (lit "invalid permission cwd")
  end.

(** ** The effective policy *)

Definition merge_file_system_policy_with_additional_permissions (file_system_policy : policy) (additional : FileSystemPermissions) : policy :=
  match fp_kind file_system_policy with
  | Restricted =>
      {| fp_kind := Restricted;
         fp_glob_scan_max_depth :=
           merge_glob_scan_max_depth (fp_entries file_system_policy) (fp_glob_scan_max_depth file_system_policy)
             (fs_entries additional) (fs_glob_scan_max_depth additional);
         fp_entries := foldl push_new (fp_entries file_system_policy) (fs_entries additional) |}
  | Unrestricted | ExternalSandbox => file_system_policy
  end.

Definition effective_file_system_sandbox_policy (file_system_policy : policy) (additional : option AdditionalPermissionProfile) : policy :=
  match additional ≫= ap_file_system with
  | Some permissions =>
      if fs_is_empty permissions then file_system_policy
      else merge_file_system_policy_with_additional_permissions file_system_policy permissions
  | None => file_system_policy
  end.

Definition merge_network_access (base_network_access : bool) (additional : AdditionalPermissionProfile) : bool :=
  base_network_access || default false (ap_network additional ≫= np_enabled).

Definition effective_network_sandbox_policy (network_policy : NetworkSandboxPolicy) (additional : option AdditionalPermissionProfile)
    : NetworkSandboxPolicy :=
  match additional with
  | Some permissions => if merge_network_access (net_is_enabled network_policy) permissions then NetEnabled else NetRestricted
  | None => network_policy
  end.

Definition enforcement (self : @PermissionProfile Url) : SandboxEnforcement :=
  match self with Managed _ _ => EManaged | Disabled => EDisabled | External _ => EExternal end.

Definition effective_permission_profile (permission_profile : @PermissionProfile Url) (additional : option AdditionalPermissionProfile)
    : res unit (@PermissionProfile Url) :=
  from_runtime_permissions_with_enforcement (enforcement permission_profile)
    (effective_file_system_sandbox_policy (file_system_sandbox_policy permission_profile) additional)
    (effective_network_sandbox_policy (network_sandbox_policy permission_profile) additional).

Definition should_require_platform_sandbox (host : Host) (file_system_policy : policy) (network_policy : NetworkSandboxPolicy)
    (has_managed_network_requirements : bool) : bool :=
  if has_managed_network_requirements then true
  else if negb (net_is_enabled network_policy) then negb (bool_decide (fp_kind file_system_policy = ExternalSandbox))
  else
    match fp_kind file_system_policy with
    | Restricted => negb (has_full_disk_write_access host file_system_policy)
    | Unrestricted | ExternalSandbox => false
    end.
End Transforms.
