(* ===== verification/PolicyTransformsProps.v ===== *)
(** * Properties of permission overlays

    An intersection gives no more than was granted and reads no more than was asked for, an
    overlay changes a policy only where it is more specific, and what is lost on the way;
    for the definitions of [PolicyTransforms]. *)
From S2P Require Import Prelude AbsPath Utf8Stream PathUri PathUriJoin NativePath SandboxPolicy SandboxAccess PolicyTransforms.

Set Default Goal Selector "!".

Section Overlays.
Context {Url : Type} {UC : UrlCrate Url} {Hlaws : UrlLaws Url}.
Context (glob_compile : PathConvention -> rstr -> option (list Z -> bool)).
Set Default Proof Using "Type*".
Abbreviation entry := (@FileSystemSandboxEntry Url).
Abbreviation policy := (@FileSystemSandboxPolicy Url).
Abbreviation context := (@FileSystemSandboxPolicyContext Url).
Abbreviation overlay := (@AdditionalPermissionProfile Url).
Implicit Types (cx : context) (e : entry) (path : Url).

(** ** Materialised entries *)

Definition resolved_of cx e : list (Url * FileSystemAccessMode) := map (fun root => (root, fe_access e)) (entry_roots cx e).

Lemma resolved_entries_flat self cx : resolved_entries self cx = flat_map (resolved_of cx) (fp_entries self).
Proof. done. Qed.

(** An entry about one path. *)
Definition concrete cx e : Prop := entry_paths cx (fe_path e) = option_list (resolve_permission_path (fe_path e) cx).

Lemma path_entry_resolved cx e path :
  resolved_of cx (materialized_path_entry e path) =
  map (fun root => (root, fe_access e)) (List.filter (fun p => bool_decide (infer_path_convention p = infer_path_convention (cx_cwd cx))) [path]).
Proof. done. Qed.

Lemma materialize_roots_resolved cx e sub roots l :
  fe_path e = PSpecial (ProjectRoots sub) -> materialize_roots e cx roots = Some l ->
  flat_map (resolved_of cx) l =
    map (fun root => (root, fe_access e))
      (List.filter (fun p => bool_decide (infer_path_convention p = infer_path_convention (cx_cwd cx)))
        (omap (fun root => match sub with Some sub => ok_of (uri_join root sub) | None => Some root end) roots)) /\
  Forall (concrete cx) l.
Proof.
  intros He. revert l. induction roots as [|root roots IH]; intros l; cbn [materialize_roots omap list_omap]; [intros [= <-]; by split|].
  rewrite He. cbn [resolve_permission_path with_workspace_root cx_workspace_roots head mbind option_bind].
  destruct (match sub with Some sub => ok_of (uri_join root sub) | None => Some root end) as [u|] eqn:Eu.
  - destruct (materialize_roots e cx roots) as [l'|]; [|done]. intros [= <-]. destruct (IH l' eq_refl) as [IHr IHc].
    cbn [flat_map]. rewrite IHr, path_entry_resolved. cbn [List.filter]. split; [|by constructor].
    by destruct (bool_decide _); cbn [map app].
  - destruct (is_deny (fe_access e)); [done|]. apply IH.
Qed.

Lemma materialize_entry_resolved cx e l :
  materialize_context_entry cx e = Some l -> flat_map (resolved_of cx) l = resolved_of cx e /\ Forall (concrete cx) l.
Proof.
  unfold materialize_context_entry. destruct (fe_path e) as [u|pattern|[]] eqn:Ep.
  - unfold materialize_cwd_dependent_entry. rewrite Ep. intros [= <-]. cbn [flat_map]. rewrite app_nil_r. split; [done|]. constructor; [|done]. unfold concrete. by rewrite Ep.
  - unfold materialize_cwd_dependent_entry. rewrite Ep. destruct (match home_relative _ pattern with Some _ => _ | None => _ end) as [[root p]|]; cbn [mbind option_bind].
    + destruct (ok_of (uri_join root p)); cbn [mbind option_bind].
      * intros [= <-]. cbn [flat_map]. rewrite app_nil_r. unfold resolved_of, entry_roots. rewrite Ep. split; [done|]. by constructor.
      * destruct (is_deny _); [done|]. intros [= <-]. unfold resolved_of, entry_roots. by rewrite Ep.
    + destruct (is_deny _); [done|]. intros [= <-]. unfold resolved_of, entry_roots. by rewrite Ep.
  - destruct (resolve_permission_path _ cx); [|done]. intros [= <-]. cbn [flat_map]. rewrite app_nil_r. split; [done|]. constructor; [|done]. unfold concrete. by rewrite Ep.
  - unfold materialize_cwd_dependent_entry. rewrite Ep. intros [= <-]. cbn [flat_map]. rewrite app_nil_r. split; [done|]. constructor; [|done]. unfold concrete. by rewrite Ep.
  - destruct (materialize_roots e cx _) as [l'|] eqn:El; [|done]. cbn [mbind option_bind]. destruct (_ && _); [done|]. intros [= <-].
    destruct (materialize_roots_resolved cx e subpath _ _ Ep El) as [-> Hc]. split; [|done]. unfold resolved_of, entry_roots. by rewrite Ep.
  - destruct (cx_temporary_directories cx) as [dirs|] eqn:Et.
    + intros [= <-]. unfold resolved_of at 2, entry_roots. rewrite Ep. cbn [entry_paths]. rewrite Et. cbn [default from_option id].
      split; [|apply Forall_forall; intros x (d & <- & _)%list_elem_of_In%in_map_iff; done].
      clear Et. induction dirs as [|d dirs IH]; [done|]. cbn [map flat_map List.filter]. rewrite path_entry_resolved. cbn [List.filter]. rewrite IH.
      by destruct (bool_decide _).
    + destruct (is_deny _); [done|]. intros [= <-]. cbn [flat_map]. rewrite app_nil_r. split; [done|]. constructor; [|done]. unfold concrete. rewrite Ep. cbn. by rewrite Et.
  - unfold materialize_cwd_dependent_entry. rewrite Ep. intros [= <-]. cbn [flat_map]. rewrite app_nil_r. split; [done|]. constructor; [|done]. unfold concrete. rewrite Ep. cbn.
    by destruct (bool_decide _).
  - unfold materialize_cwd_dependent_entry. rewrite Ep. intros [= <-]. cbn [flat_map]. rewrite app_nil_r. split; [done|]. constructor; [|done]. unfold concrete. by rewrite Ep.
Qed.

(** What is materialised is about the same paths. *)
Lemma materialize_resolved cx entries m :
  materialize_context_dependent_entries entries cx = Some m ->
  resolved_entries (restricted m) cx = resolved_entries (restricted entries) cx /\ Forall (concrete cx) m.
Proof.
  rewrite !resolved_entries_flat. cbn [restricted fp_entries]. revert m. induction entries as [|e entries IH]; intros m; cbn [materialize_context_dependent_entries]; [by intros [= <-]|].
  destruct (materialize_context_entry cx e) as [l|] eqn:El; [|done]. destruct (materialize_context_dependent_entries entries cx) as [rest|]; [|done].
  intros [= <-]. destruct (materialize_entry_resolved cx e l El) as [Hl Hc], (IH rest eq_refl) as [Hr Hcr]. cbn [flat_map]. rewrite flat_map_app, Hl, Hr.
  split; [done|]. by apply Forall_app.
Qed.

(** ** An intersection *)

Lemma posix_cwd cx : posix_context cx -> infer_path_convention (cx_cwd cx) = Some Posix.
Proof. intros (nc & Hc)%posix_context_names. by destruct (posix_names_Some _ nc Hc) as (_ & -> & _). Qed.

Lemma entry_root cx e root :
  concrete cx e -> root ∈ entry_roots cx e ->
  resolve_permission_path (fe_path e) cx = Some root /\ infer_path_convention root = infer_path_convention (cx_cwd cx) /\ is_glob (fe_path e) = false.
Proof.
  unfold concrete, entry_roots. intros -> Hin%list_elem_of_In. apply List.filter_In in Hin as [Hin Hi]. apply bool_decide_eq_true in Hi.
  destruct (resolve_permission_path (fe_path e) cx) as [u|] eqn:E; [|done]. destruct Hin as [->|[]]. split_and!; [done|done|]. by destruct (fe_path e).
Qed.

Lemma paths_overlap_posix u v nu nv : posix_names u = Some nu -> posix_names v = Some nv -> nu `prefix_of` nv \/ nv `prefix_of` nu -> paths_overlap u v = true.
Proof.
  intros Hu Hv Hp. unfold paths_overlap, overlaps. destruct (uri_eq u v); [done|]. rewrite (lexical_depth_posix _ _ Hu), (lexical_depth_posix _ _ Hv). cbn.
  apply orb_true_iff. destruct Hp as [Hp|Hp]; [right; apply (starts_with_posix v u nv Hv)|left; apply (starts_with_posix u v nu Hu)]; eauto.
Qed.

Lemma prefixes_comparable {A} (a b l : list A) : a `prefix_of` l -> b `prefix_of` l -> length a <= length b -> a `prefix_of` b.
Proof using Type.
  intros [x Hx] [y Hy] Hlen. exists (drop (length a) b). subst l. rewrite <- (take_drop (length a) b) at 1. f_equal.
  assert (take (length a) (a ++ x) = take (length a) (b ++ y)) as E by by rewrite Hy. rewrite take_app_length in E. by rewrite take_app_le in E.
Qed.

(** The outcome, from the entries around a path. *)
Lemma resolve_access_cases self cx path np :
  fp_kind self = Restricted -> posix_context cx -> posix_names path = Some np -> unambiguous self cx ->
  decides (view self cx) np (resolve_access self path cx) \/
  (resolve_access self path cx = Deny /\ forall n a, (n, a) ∈ view self cx -> ~ n `prefix_of` np).
Proof.
  intros Hk Hc Hp Hun. rewrite (resolve_access_keys self cx path np Hk Hc Hp Hun), decides_max, <- nothing_decides.
  destruct (max_key _) as [[d a]|]; naive_solver.
Qed.

Lemma view_restricted cx (a b : list entry) :
  resolved_entries (restricted a) cx = resolved_entries (restricted b) cx ->
  view (restricted a) cx = view (restricted b) cx /\ (unambiguous (restricted a) cx <-> unambiguous (restricted b) cx) /\
  (forall path, resolve_access (restricted a) path cx = resolve_access (restricted b) path cx).
Proof. intros E. unfold view, unambiguous, resolve_access. rewrite E. done. Qed.

(** *** Deny patterns *)

Lemma deny_patterns_app (a b : list entry) : deny_patterns (a ++ b) = deny_patterns a ++ deny_patterns b.
Proof using Type. apply omap_app. Qed.

Lemma path_entries_no_patterns (l : list entry) : Forall (fun e => is_glob (fe_path e) && is_deny (fe_access e) = false) l -> deny_patterns l = [].
Proof using Type.
  intros Hl. induction Hl as [|e l He _ IH]; [done|]. unfold deny_patterns in *. cbn [omap list_omap]. destruct (fe_path e); cbn in He; rewrite ?He; exact IH.
Qed.

Lemma materialize_no_patterns cx entries m :
  materialize_context_dependent_entries entries cx = Some m -> deny_patterns entries = [] -> deny_patterns m = [].
Proof.
  revert m. induction entries as [|e entries IH]; intros m; cbn [materialize_context_dependent_entries]; [by intros [= <-]|].
  destruct (materialize_context_entry cx e) as [l|] eqn:El; [|done]. destruct (materialize_context_dependent_entries entries cx) as [rest|]; [|done].
  intros [= <-] Hd. change (e :: entries) with ([e] ++ entries) in Hd. rewrite deny_patterns_app in Hd. apply app_eq_nil in Hd as [He Hd].
  rewrite deny_patterns_app, (IH rest eq_refl Hd), app_nil_r. apply path_entries_no_patterns. clear IH Hd. revert El.
  assert (is_glob (fe_path e) && is_deny (fe_access e) = false) as Hg by (unfold deny_patterns in He; cbn in He; destruct (fe_path e); [done|by destruct (is_deny _)|done]).
  unfold materialize_context_entry. destruct (fe_path e) as [u|pattern|[]] eqn:Ep.
  - unfold materialize_cwd_dependent_entry. rewrite Ep. intros [= <-]. constructor; [by rewrite Ep|done].
  - unfold materialize_cwd_dependent_entry. rewrite Ep. cbn in Hg. destruct (match home_relative _ pattern with Some _ => _ | None => _ end) as [[root p]|]; cbn [mbind option_bind].
    + destruct (ok_of (uri_join root p)); cbn [mbind option_bind]; rewrite ?Hg; intros [= <-]; repeat constructor; cbn; by rewrite ?Hg.
    + rewrite Hg. intros [= <-]. done.
  - destruct (resolve_permission_path _ cx); [|done]. intros [= <-]. constructor; [by rewrite Ep|done].
  - unfold materialize_cwd_dependent_entry. rewrite Ep. intros [= <-]. constructor; [by rewrite Ep|done].
  - destruct (materialize_roots e cx _) as [l'|] eqn:El'; [|done]. cbn [mbind option_bind]. destruct (is_deny (fe_access e) && is_empty l'); [done|]. intros [= <-]. revert l' El'.
    generalize (cx_workspace_roots cx). intros roots. induction roots as [|r roots IHr]; intros l'; cbn [materialize_roots]; [by intros [= <-]|].
    destruct (resolve_permission_path _ _); [|destruct (is_deny _); [done|apply IHr]]. destruct (materialize_roots e cx roots); [|done]. intros [= <-]. constructor; [done|by apply IHr].
  - destruct (cx_temporary_directories cx) as [dirs|]; [|destruct (is_deny _); [done|]; intros [= <-]; constructor; [by rewrite Ep|done]].
    intros [= <-]. apply Forall_forall. intros x (d & <- & _)%list_elem_of_In%in_map_iff. done.
  - unfold materialize_cwd_dependent_entry. rewrite Ep. intros [= <-]. constructor; [by rewrite Ep|done].
  - unfold materialize_cwd_dependent_entry. rewrite Ep. intros [= <-]. constructor; [by rewrite Ep|done].
Qed.

(** Without deny patterns, a read is denied below a root that is. *)
Lemma denied_roots_only cx (R : list entry) root n :
  posix_context cx -> deny_patterns R = [] -> posix_names root = Some n ->
  is_read_denied_uri (matcher_from_context glob_compile (restricted R) cx) root cx = existsb (uri_starts_with root) (denied_roots (restricted R) cx).
Proof.
  intros Hcx Hno Hn. unfold matcher_from_context. cbn [restricted fp_entries]. destruct (existsb (fun e => is_deny (fe_access e)) R) eqn:Ed.
  - unfold prepare_deny_read_matcher. rewrite (posix_cwd cx Hcx). unfold deny_read_globs. cbn [restricted fp_entries]. rewrite Hno. cbn [map_res compile_patterns mbind res_bind ok_of is_read_denied_uri].
    unfold matches_prepared_read_deny. rewrite (posix_cwd cx Hcx). destruct (posix_names_Some _ n Hn) as (_ & -> & _). rewrite (bool_decide_eq_true_2 _ eq_refl).
    destruct (posix_context_names cx Hcx) as [nc Hc]. rewrite (lexical_depth_posix _ _ Hn), (lexical_depth_posix _ _ Hc), !bool_decide_eq_false_2 by done.
    cbn [negb orb pm_invalid_pattern pm_denied_roots pm_deny_read_matchers existsb]. by rewrite orb_false_r.
  - cbn [is_read_denied_uri]. symmetry. apply not_true_is_false. intros (r & Hr & _)%existsb_exists. unfold denied_roots in Hr. apply in_map_iff in Hr as ([u a] & <- & Hr).
    apply List.filter_In in Hr as [[Hr Ha]%List.filter_In _]. cbn in Ha. apply list_elem_of_In, elem_of_resolved in Hr as (e & He & <- & _).
    apply not_true_iff_false in Ed. apply Ed, existsb_exists. exists e. split; [by apply list_elem_of_In|done].
Qed.

Section Intersection.
Context cx (Hcx : posix_context cx) (req gr : @FileSystemPermissions Url) (R G : list entry).
Context (HR : materialize_context_dependent_entries (fs_entries req) cx = Some R).
Context (HG : materialize_context_dependent_entries (fs_entries gr) cx = Some G).

Definition within e : bool :=
  granted_file_system_entry_within_request req (restricted R) (matcher_from_context glob_compile (restricted R) cx) e cx.
Definition accepted : list entry := foldl push_new [] (List.filter within G).
Definition denials (l : list entry) : list entry :=
  List.filter (fun e => deny_entry_constrains_accepted_grant e accepted cx) (List.filter (fun e => is_deny (fe_access e)) l).
Definition result : list entry := foldl push_new (foldl push_new accepted (denials R)) (denials G).
Abbreviation denied root := (is_read_denied_uri (matcher_from_context glob_compile (restricted R) cx) root cx) (only parsing).

Lemma concrete_R e : e ∈ R -> concrete cx e.
Proof. intros He. destruct (materialize_resolved _ _ _ HR) as [_ Hc]. rewrite Forall_forall in Hc. auto. Qed.

Lemma concrete_G e : e ∈ G -> concrete cx e.
Proof. intros He. destruct (materialize_resolved _ _ _ HG) as [_ Hc]. rewrite Forall_forall in Hc. auto. Qed.

Lemma within_spec e root :
  concrete cx e -> root ∈ entry_roots cx e ->
  within e = can_read (fe_access e) && negb (denied root) && access_covers (resolve_access (restricted R) root cx) (fe_access e).
Proof.
  intros Hc Hr. destruct (entry_root cx e root Hc Hr) as (Ep & Ei & _). unfold within, granted_file_system_entry_within_request, is_windows_context.
  rewrite (posix_cwd cx Hcx) in *. rewrite (bool_decide_eq_true_2 _ eq_refl). destruct (can_read (fe_access e)); cbn [negb orb andb]; [|done].
  replace (match fe_path e with PSpecial SlashTmp => false | _ => false end) with false by by destruct (fe_path e) as [| |[]].
  rewrite (bool_decide_eq_false_2 (Some Posix = Some Windows)) by done. cbn [andb]. rewrite Ep, (bool_decide_eq_true_2 _ Ei). cbn [negb orb].
  by destruct (denied root).
Qed.

Lemma accepted_spec e :
  e ∈ accepted -> e ∈ G /\ within e = true.
Proof.
  pose proof (push_new_spec (List.filter within G) []) as Hs. cbv zeta in Hs. change (foldl _ [] (List.filter within G)) with accepted in Hs.
  destruct Hs as (_ & H2 & _). intros [He|He]%H2; [by apply not_elem_of_nil in He|]. apply list_elem_of_In, List.filter_In in He as [He Hw].
  split; [by apply list_elem_of_In|done].
Qed.

Lemma accepted_complete e : e ∈ G -> within e = true -> exists e', e' ∈ accepted /\ entry_eq e' e = true.
Proof.
  pose proof (push_new_spec (List.filter within G) []) as Hs. cbv zeta in Hs. change (foldl _ [] (List.filter within G)) with accepted in Hs.
  destruct Hs as (_ & _ & H3). intros He Hw. apply H3. apply list_elem_of_In, List.filter_In. split; [by apply list_elem_of_In|done].
Qed.

Lemma denials_spec l e : e ∈ denials l <-> e ∈ l /\ fe_access e = Deny /\ deny_entry_constrains_accepted_grant e accepted cx = true.
Proof.
  unfold denials. rewrite list_elem_of_In, List.filter_In, List.filter_In, <- list_elem_of_In. unfold is_deny. rewrite bool_decide_eq_true. naive_solver.
Qed.

Lemma result_spec :
  (forall e, e ∈ accepted -> e ∈ result) /\
  (forall e, e ∈ result -> e ∈ accepted \/ (fe_access e = Deny /\ (e ∈ R \/ e ∈ G))) /\
  (forall e, e ∈ denials R \/ e ∈ denials G -> exists e', e' ∈ result /\ entry_eq e' e = true).
Proof.
  pose proof (push_new_spec (denials R) accepted) as H1. cbv zeta in H1. change (foldl _ accepted (denials R)) with (foldl push_new accepted (denials R)) in H1.
  pose proof (push_new_spec (denials G) (foldl push_new accepted (denials R))) as H2. cbv zeta in H2. change (foldl _ (foldl push_new accepted (denials R)) (denials G)) with result in H2.
  destruct H1 as (A1 & A2 & A3), H2 as (B1 & B2 & B3). split_and!.
  - auto.
  - intros e [[He|He]%A2|He]%B2; [by left| |]; apply denials_spec in He; naive_solver.
  - intros e [He|He]; [|by apply B3]. destruct (A3 e He) as (e' & He' & Heq). eauto.
Qed.

(** Around a path, a denial of either side stands beside every grant that is accepted. *)
Lemma denial_kept l e root k np e' root' n :
  (l = R \/ l = G) -> e ∈ l -> fe_access e = Deny -> root ∈ entry_roots cx e -> posix_names root = Some k -> k `prefix_of` np ->
  e' ∈ accepted -> root' ∈ entry_roots cx e' -> posix_names root' = Some n -> n `prefix_of` np ->
  (k, Deny) ∈ view (restricted result) cx.
Proof.
  intros Hl He Ha Hr Hk Hkp He' Hr' Hn Hnp. assert (concrete cx e) as Hc by (destruct Hl as [->| ->]; [by apply concrete_R|by apply concrete_G]).
  destruct (accepted_spec e' He') as [HG' Hw]. pose proof (concrete_G e' HG') as Hc'. destruct (entry_root cx e root Hc Hr) as (Ep & _ & Eg), (entry_root cx e' root' Hc' Hr') as (Ep' & _ & _).
  rewrite (within_spec e' root' Hc' Hr') in Hw. apply andb_true_iff in Hw as [[Hread _]%andb_true_iff _].
  assert (e ∈ denials l) as Hd.
  { apply denials_spec. split_and!; [done|done|]. apply existsb_exists. exists e'. split; [apply List.filter_In; split; [by apply list_elem_of_In|done]|].
    unfold constrains. destruct (is_root_entry e'); [done|]. rewrite Ep', Ep. destruct (fe_path e); [|done|];
      (eapply paths_overlap_posix; [done|done|]; destruct (Nat.le_ge_cases (length k) (length n)); [left|right]; by eapply prefixes_comparable). }
  destruct result_spec as (_ & _ & H3). destruct (H3 e) as (e1 & H1 & Heq); [destruct Hl as [->| ->]; auto|].
  apply entry_eq_spec in Heq as [Hp Hacc]. apply elem_of_view. exists e1, root. rewrite (shared_path_roots cx e1 e Hcx Hp). split_and!; [done|congruence|done|done].
Qed.

Context (HunR : unambiguous (restricted R) cx) (HunG : unambiguous (restricted G) cx).

Lemma result_unambiguous : unambiguous (restricted result) cx.
Proof.
  intros root a (e & He & Ha & Hr)%elem_of_resolved. cbn [restricted fp_entries] in He. destruct result_spec as (_ & H2 & _).
  destruct (H2 e He) as [[Hg _]%accepted_spec|(_ & [Hr'|Hg])]; [apply (HunG root a)|apply (HunR root a)|apply (HunG root a)]; apply elem_of_resolved; by exists e.
Qed.

Lemma grant_accepted n a : (n, a) ∈ view (restricted result) cx -> a ≠ Deny ->
  exists e root, e ∈ accepted /\ fe_access e = a /\ root ∈ entry_roots cx e /\ posix_names root = Some n.
Proof.
  intros (e & root & He & Ha & Hr & Hn)%elem_of_view Hd. destruct result_spec as (_ & H2 & _). destruct (H2 e He) as [Hacc|[E _]]; [by exists e, root|congruence].
Qed.

(** The request covers a grant that is accepted, at its path. *)
Lemma accepted_covered e root n :
  e ∈ accepted -> root ∈ entry_roots cx e -> posix_names root = Some n ->
  denied root = false /\ exists r, decides (view (restricted R) cx) n r /\ access_covers r (fe_access e) = true.
Proof.
  intros He Hr Hn. destruct (accepted_spec e He) as [HG' Hw]. rewrite (within_spec e root (concrete_G e HG') Hr) in Hw.
  rewrite !andb_true_iff, negb_true_iff in Hw. destruct Hw as [[_ Hd] Hcov]. split; [done|]. exists (resolve_access (restricted R) root cx). split; [|done].
  destruct (resolve_access_cases (restricted R) cx root n eq_refl Hcx Hn HunR) as [?|[E _]]; [done|]. rewrite E in Hcov. by destruct (fe_access e).
Qed.

(** A denial of the request around a path is below every accepted grant around it. *)
Lemma request_denial_deeper np e root n k :
  e ∈ accepted -> root ∈ entry_roots cx e -> posix_names root = Some n -> n `prefix_of` np ->
  (forall m a, (m, a) ∈ view (restricted R) cx -> m `prefix_of` np -> length m < length k \/ (m = k /\ access_rank a <= access_rank Deny)) ->
  (k, Deny) ∈ view (restricted R) cx -> k `prefix_of` np -> length n < length k.
Proof.
  intros He Hr Hn Hnp Hmax Hk Hkp. destruct (accepted_covered e root n He Hr Hn) as (_ & r & (m & Hm & Hmn & Hall) & Hcov).
  destruct (Nat.lt_ge_cases (length n) (length k)) as [|Hle]; [done|]. exfalso. assert (k `prefix_of` n) as Hkn by by eapply prefixes_comparable.
  destruct (Hmax m r Hm) as [Hlt|[-> _]]; [by etrans|..].
  - destruct (Hall k Deny Hk Hkn) as [|[-> _]]; lia.
  - destruct (Hall k Deny Hk Hkn) as [|[_ Hrank]]; [lia|]. destruct r, (fe_access e); cbn in *; try lia; done.
Qed.

Lemma result_reads_requested path np :
  posix_names path = Some np -> can_read (resolve_access (restricted result) path cx) = true ->
  can_read (resolve_access (restricted R) path cx) = true.
Proof.
  intros Hp Hread. destruct (resolve_access_cases (restricted result) cx path np eq_refl Hcx Hp result_unambiguous) as [(n & Hin & Hnp & Hall)|[E _]]; [|by rewrite E in Hread].
  set (a := resolve_access (restricted result) path cx) in *. assert (a ≠ Deny) as Ha by (intros ->; done).
  destruct (grant_accepted n a Hin Ha) as (e & root & He & Ea & Hr & Hn).
  destruct (accepted_covered e root n He Hr Hn) as (_ & r & (m & Hm & Hmn & _) & _).
  destruct (resolve_access_cases (restricted R) cx path np eq_refl Hcx Hp HunR) as [(k & Hk & Hkp & Hmax)|[_ Hno]]; [|destruct (Hno m r Hm); by etrans].
  destruct (resolve_access (restricted R) path cx) eqn:Er; [done|done|]. exfalso.
  pose proof (request_denial_deeper np e root n k He Hr Hn Hnp Hmax Hk Hkp) as Hdeep. apply elem_of_view in Hk as (ek & rk & Hek & Eak & Hrk & Hnk).
  pose proof (denial_kept R ek rk k np e root n (or_introl eq_refl) Hek Eak Hrk Hnk Hkp He Hr Hn Hnp) as Hkept.
  destruct (Hall k Deny Hkept Hkp) as [|[-> _]]; lia.
Qed.

(** A read grant that is not accepted is below a denial of the request, which is below every
    accepted grant around it. *)
Lemma refused_read e root m np e' root' n :
  deny_patterns R = [] -> e ∈ G -> within e = false -> fe_access e = Read -> root ∈ entry_roots cx e -> posix_names root = Some m -> m `prefix_of` np ->
  e' ∈ accepted -> root' ∈ entry_roots cx e' -> posix_names root' = Some n -> n `prefix_of` m ->
  exists k, (k, Deny) ∈ view (restricted result) cx /\ k `prefix_of` np /\ length n < length k.
Proof.
  intros Hno He Hw Ha Hr Hm Hmp He' Hr' Hn Hnm. assert (n `prefix_of` np) as Hnp by by etrans.
  destruct (accepted_covered e' root' n He' Hr' Hn) as (Hnd & r & (m' & Hm' & Hmn' & Hall') & _).
  rewrite (within_spec e root (concrete_G e He) Hr), Ha in Hw. cbn [can_read bool_decide andb negb access_covers] in Hw.
  assert (exists k, (k, Deny) ∈ view (restricted R) cx /\ k `prefix_of` m /\ length n < length k) as (k & Hk & Hkm & Hlen).
  { destruct (denied root) eqn:Ed.
    - rewrite (denied_roots_only cx R root m Hcx Hno Hm) in Ed. rewrite (denied_roots_only cx R root' n Hcx Hno Hn) in Hnd.
      apply existsb_exists in Ed as (u & Hu & Hsw). apply (starts_with_posix root u m Hm) in Hsw as (k & Hk & Hkm).
      exists k. split_and!; [|done|].
      + unfold denied_roots in Hu. apply in_map_iff in Hu as ([u' a] & <- & Hu). apply List.filter_In in Hu as [[Hu Hd]%List.filter_In _].
        cbn in Hd. apply bool_decide_eq_true in Hd as ->. apply list_elem_of_In, elem_of_resolved in Hu as (ek & Hek & Eak & Hrk). apply elem_of_view. exists ek, u'. done.
      + destruct (Nat.lt_ge_cases (length n) (length k)) as [|Hle]; [done|]. exfalso. apply not_true_iff_false in Hnd. apply Hnd, existsb_exists.
        exists u. split; [done|]. apply (starts_with_posix root' u n Hn). exists k. split; [done|]. by eapply prefixes_comparable.
    - cbn [negb] in Hw. rewrite andb_true_l in Hw. destruct (resolve_access_cases (restricted R) cx root m eq_refl Hcx Hm HunR) as [(k & Hk & Hkm & Hmax)|[_ Hnone]].
      + destruct (resolve_access (restricted R) root cx); [done|done|]. exists k. split_and!; [done|done|]. by eapply (request_denial_deeper m e' root' n k).
      + destruct (Hnone m' r Hm'). by etrans. }
  exists k. split_and!; [|by etrans|done]. apply elem_of_view in Hk as (ek & rk & Hek & Eak & Hrk & Hnk).
  eapply (denial_kept R ek rk k np e' root' n); eauto. by etrans.
Qed.

Lemma result_within_grant path np :
  deny_patterns R = [] -> posix_names path = Some np ->
  (can_read (resolve_access (restricted result) path cx) = true -> can_read (resolve_access (restricted G) path cx) = true) /\
  (can_write (resolve_access (restricted result) path cx) = true -> can_write (resolve_access (restricted G) path cx) = true).
Proof.
  intros Hno Hp. destruct (resolve_access_cases (restricted result) cx path np eq_refl Hcx Hp result_unambiguous) as [(n & Hin & Hnp & Hall)|[-> _]]; [|done].
  set (a := resolve_access (restricted result) path cx) in *. destruct (decide (a = Deny)) as [->|Ha]; [done|].
  destruct (grant_accepted n a Hin Ha) as (e & root & He & Ea & Hr & Hn). destruct (accepted_spec e He) as [HeG _].
  assert ((n, a) ∈ view (restricted G) cx) as HnG by (apply elem_of_view; by exists e, root).
  destruct (resolve_access_cases (restricted G) cx path np eq_refl Hcx Hp HunG) as [(m & Hm & Hmp & Hmax)|[_ Hnone]]; [|by destruct (Hnone n a HnG)].
  destruct (resolve_access (restricted G) path cx) eqn:Eg; [|done|].
  - split; [done|]. intros Hw. apply bool_decide_eq_true in Hw. exfalso. rewrite Hw in *. destruct (Hmax n Write HnG Hnp) as [Hlen|[_ Hrank]]; [|cbn in Hrank; lia].
    assert (n `prefix_of` m) as Hnm by (eapply prefixes_comparable; [exact Hnp|exact Hmp|lia]).
    apply elem_of_view in Hm as (em & rm & Hem & Eam & Hrm & Hnm'). destruct (within em) eqn:Ewm.
    + destruct (accepted_complete em Hem Ewm) as (e1 & He1 & Heq). apply entry_eq_spec in Heq as [Hpe Hae].
      assert ((m, Read) ∈ view (restricted result) cx) as Hres.
      { apply elem_of_view. exists e1, rm. rewrite (shared_path_roots cx e1 em Hcx Hpe). split_and!; [|congruence|done|done]. by apply result_spec. }
      destruct (Hall m Read Hres Hmp) as [|[-> _]]; lia.
    + destruct (refused_read em rm m np e root n Hno Hem Ewm Eam Hrm Hnm' Hmp He Hr Hn Hnm) as (k & Hk & Hkp & Hkl). destruct (Hall k Deny Hk Hkp) as [|[-> _]]; lia.
  - exfalso. apply elem_of_view in Hm as (em & rm & Hem & Eam & Hrm & Hnm').
    pose proof (denial_kept G em rm m np e root n (or_intror eq_refl) Hem Eam Hrm Hnm' Hmp He Hr Hn Hnp) as Hkept.
    destruct (Hall m Deny Hkept Hmp) as [Hlt|[-> Hrank]]; [|destruct a; cbn in Hrank; try lia; done].
    destruct (Hmax n a HnG Hnp) as [|[-> _]]; lia.
Qed.
End Intersection.

(** ** Overlays as policies *)

Definition overlay_entries (p : overlay) : list entry := match ap_file_system p with Some fs => fs_entries fs | None => [] end.

(** What an overlay gives by itself. *)
Definition overlay_policy (p : overlay) : policy := restricted (overlay_entries p).

Lemma resolve_access_empty path cx : resolve_access (restricted []) path cx = Deny.
Proof using Type. unfold resolve_access. cbn. repeat case_match; done. Qed.

(** The intersection has no entries, or those of a result. *)
Lemma intersection_entries (requested granted : overlay) cx :
  overlay_entries (intersect_permission_profiles_with_context glob_compile requested granted cx) = [] \/
  exists req gr R G, ap_file_system requested = Some req /\ overlay_entries granted = fs_entries gr /\
    materialize_context_dependent_entries (fs_entries req) cx = Some R /\ materialize_context_dependent_entries (fs_entries gr) cx = Some G /\
    overlay_entries (intersect_permission_profiles_with_context glob_compile requested granted cx) = result cx req R G.
Proof.
  unfold overlay_entries at 1 3, intersect_permission_profiles_with_context. cbn [ap_file_system]. destruct (ap_file_system requested) as [req|]; [|by left]. cbn [mbind option_bind].
  set (gr := default _ (ap_file_system granted)). destruct (intersect_file_system glob_compile req gr cx) as [fs|] eqn:E; [|by left]. cbn [option_filter].
  destruct (negb (fs_is_empty fs)); [|by left]. right. unfold intersect_file_system in E.
  destruct (materialize_context_dependent_entries (fs_entries req) cx) as [R|] eqn:ER; [|done]. destruct (materialize_context_dependent_entries (fs_entries gr) cx) as [G|] eqn:EG; [|done].
  cbn in E. injection E as <-. exists req, gr, R, G. split_and!; [done| |done|done|done].
  unfold overlay_entries, gr. by destruct (ap_file_system granted).
Qed.

(** C16. What is granted of a request. In a POSIX context the intersection of an overlay that is
    asked for and one that is granted reads nothing that the entries of the request do not let be
    read, and, when the request has no deny patterns, neither reads nor writes anything that the
    entries of the grant do not let; the network is open only when both open it. Deny patterns
    are not part of this access, they are matched apart: without patterns on either side it is
    all that can be accessed. *)
Theorem intersection_bounded (requested granted : overlay) cx path np :
  posix_context cx -> posix_names path = Some np ->
  unambiguous (overlay_policy requested) cx -> unambiguous (overlay_policy granted) cx ->
  let r := intersect_permission_profiles_with_context glob_compile requested granted cx in
  (can_read (resolve_access (overlay_policy r) path cx) = true -> can_read (resolve_access (overlay_policy requested) path cx) = true) /\
  (deny_patterns (overlay_entries requested) = [] ->
    (can_read (resolve_access (overlay_policy r) path cx) = true -> can_read (resolve_access (overlay_policy granted) path cx) = true) /\
    (can_write (resolve_access (overlay_policy r) path cx) = true -> can_write (resolve_access (overlay_policy granted) path cx) = true)) /\
  (enabled (ap_network r) = true -> enabled (ap_network requested) = true /\ enabled (ap_network granted) = true).
Proof.
  intros Hcx Hp HuR HuG r. split_and!.
  1,2: unfold overlay_policy at 1 2; destruct (intersection_entries requested granted cx) as [E|(req & gr & R & G & Er & Eg & HR & HG & E)]; fold r in E.
  1: by rewrite E, resolve_access_empty.
  2: by intros _; unfold overlay_policy; rewrite E, resolve_access_empty.
  1,2: assert (overlay_entries requested = fs_entries req) as Er' by (unfold overlay_entries; by rewrite Er);
    destruct (materialize_resolved _ _ _ HR) as [ER _], (materialize_resolved _ _ _ HG) as [EG _];
    destruct (view_restricted _ _ _ ER) as (_ & HuR' & HaR), (view_restricted _ _ _ EG) as (_ & HuG' & HaG);
    unfold overlay_policy in *; rewrite Er' in *; rewrite Eg in *; apply HuR' in HuR; apply HuG' in HuG; rewrite E.
  - rewrite <- HaR. by eapply result_reads_requested.
  - intros Hno. rewrite <- HaG. eapply result_within_grant; eauto. by eapply materialize_no_patterns.
  - unfold r. cbn [intersect_permission_profiles_with_context ap_network]. by destruct (enabled (ap_network requested)), (enabled (ap_network granted)).
Qed.

(** ** Applying an overlay *)

Lemma push_new_view cx (a b : list entry) n x :
  posix_context cx ->
  (n, x) ∈ view (restricted (foldl push_new a b)) cx <-> (n, x) ∈ view (restricted a) cx ++ view (restricted b) cx.
Proof.
  intros Hcx. pose proof (push_new_spec b a) as Hs. cbv zeta in Hs. change (foldl _ a b) with (foldl push_new a b) in Hs. destruct Hs as (H1 & H2 & H3).
  rewrite elem_of_app. split.
  - intros (e & root & [He|He]%H2 & Ha & Hr & Hn)%elem_of_view; [left|right]; apply elem_of_view; by exists e, root.
  - intros [(e & root & He & Ha & Hr & Hn)%elem_of_view|(e & root & He & Ha & Hr & Hn)%elem_of_view]; apply elem_of_view.
    + exists e, root. split_and!; try done. by apply H1.
    + destruct (H3 e He) as (e' & He' & Heq). apply entry_eq_spec in Heq as [Hp Hacc]. exists e', root. rewrite (shared_path_roots cx e' e Hcx Hp). split_and!; try done. congruence.
Qed.

Lemma push_new_unambiguous cx (a b : list entry) :
  unambiguous (restricted a) cx -> unambiguous (restricted b) cx -> unambiguous (restricted (foldl push_new a b)) cx.
Proof.
  pose proof (push_new_spec b a) as Hs. cbv zeta in Hs. change (foldl _ a b) with (foldl push_new a b) in Hs. destruct Hs as (_ & H2 & _).
  intros Ha Hb root x (e & [He|He]%H2 & Hx & Hr)%elem_of_resolved; [apply (Ha root x)|apply (Hb root x)]; apply elem_of_resolved; by exists e.
Qed.

Lemma decides_ext l l' np a : (forall x, x ∈ l <-> x ∈ l') -> decides l np a <-> decides l' np a.
Proof using Type. intros Hl. unfold decides. setoid_rewrite Hl. done. Qed.

Lemma resolve_access_union self cx path np a (l : list (list (list Z) * FileSystemAccessMode)) :
  fp_kind self = Restricted -> posix_context cx -> posix_names path = Some np -> unambiguous self cx ->
  (forall x, x ∈ view self cx <-> x ∈ l) ->
  resolve_access self path cx = a <-> decides l np a \/ (a = Deny /\ forall n x, (n, x) ∈ l -> ~ n `prefix_of` np).
Proof.
  intros Hk Hc Hp Hun Hl. rewrite (resolve_access_keys self cx path np Hk Hc Hp Hun), <- (decides_ext _ _ _ _ Hl), decides_max.
  setoid_rewrite <- Hl. rewrite <- nothing_decides. destruct (max_key _) as [[d x]|]; naive_solver.
Qed.

Lemma effective_restricted (self : policy) (p : overlay) :
  fp_kind self = Restricted ->
  fp_kind (effective_file_system_sandbox_policy self (Some p)) = Restricted /\
  fp_entries (effective_file_system_sandbox_policy self (Some p)) = foldl push_new (fp_entries self) (overlay_entries p).
Proof using Type.
  intros Hk. unfold effective_file_system_sandbox_policy, overlay_entries. cbn [mbind option_bind]. destruct (ap_file_system p) as [fs|]; [|done].
  unfold fs_is_empty. destruct (fs_entries fs) as [|e l] eqn:E; [done|]. cbn [is_empty]. unfold merge_file_system_policy_with_additional_permissions. rewrite Hk, E. done.
Qed.

(** Where an overlay is added to a restricted policy, the most specific entry of both
    decides, a denial at the same place before anything else; a policy that is not restricted
    does not change, and the network is open when either opens it. *)
Theorem overlay_most_specific (self : policy) network (p : overlay) cx path np a :
  posix_context cx -> posix_names path = Some np -> unambiguous self cx -> unambiguous (overlay_policy p) cx ->
  (fp_kind self = Restricted ->
    resolve_access (effective_file_system_sandbox_policy self (Some p)) path cx = a <->
    decides (view self cx ++ view (overlay_policy p) cx) np a \/
    (a = Deny /\ forall n x, (n, x) ∈ view self cx ++ view (overlay_policy p) cx -> ~ n `prefix_of` np)) /\
  (fp_kind self ≠ Restricted -> effective_file_system_sandbox_policy self (Some p) = self) /\
  (net_is_enabled (effective_network_sandbox_policy network (Some p)) = net_is_enabled network || enabled (ap_network p)).
Proof.
  intros Hcx Hp Hus Hup. split_and!.
  - intros Hk. destruct (effective_restricted self p Hk) as [Hk' Ee]. set (eff := effective_file_system_sandbox_policy self (Some p)) in *.
    assert (view eff cx = view (restricted (fp_entries eff)) cx) as Ev by done. assert (unambiguous eff cx <-> unambiguous (restricted (fp_entries eff)) cx) as Eu by done.
    apply resolve_access_union; [done|done|done| |].
    + apply Eu. rewrite Ee. by apply push_new_unambiguous.
    + intros [n x]. rewrite Ev, Ee. by apply push_new_view.
  - intros Hk. unfold effective_file_system_sandbox_policy. cbn [mbind option_bind]. destruct (ap_file_system p) as [fs|]; [|done]. destruct (fs_is_empty fs); [done|].
    unfold merge_file_system_policy_with_additional_permissions. by destruct (fp_kind self).
  - cbn [effective_network_sandbox_policy]. unfold merge_network_access, enabled. destruct network; cbn [net_is_enabled orb]; [|done].
    destruct (ap_network p) as [[[[]|]]|]; done.
Qed.

(** ** Normalising and materialising *)

Lemma normalize_entries_spec (l acc m : list entry) :
  fold_res normalize_entry acc l = Ok m -> m = foldl push_new acc l /\ Forall (fun e => is_glob (fe_path e) && negb (is_deny (fe_access e)) = false) l.
Proof using Type.
  revert acc. induction l as [|e l IH]; intros acc; cbn [fold_res foldl]; [by intros [= <-]|].
  assert (normalize_entry acc e = if is_glob (fe_path e) && negb (is_deny (fe_access e)) then Err (lit "glob file system permissions only support deny-read entries") else Ok (push_new acc e)) as -> by reflexivity.
  destruct (is_glob (fe_path e) && negb (is_deny (fe_access e))) eqn:E; cbn [mbind res_bind]; [done|]. intros [-> Hl]%IH. split; [done|]. by constructor.
Qed.

(** Entries that are all different stay as they are. *)
Lemma push_new_distinct (l acc : list entry) :
  (forall i j x y, (acc ++ l) !! i = Some x -> (acc ++ l) !! j = Some y -> i < j -> entry_eq x y = false) -> foldl push_new acc l = acc ++ l.
Proof using Type.
  revert acc. induction l as [|e l IH]; intros acc Hd; cbn [foldl]; [by rewrite app_nil_r|]. assert (push_new acc e = acc ++ [e]) as ->.
  { unfold push_new. destruct (existsb (fun x => entry_eq x e) acc) eqn:E; [|done]. exfalso. apply existsb_exists in E as (x & Hx & Heq).
    apply list_elem_of_In, list_elem_of_lookup in Hx as [i Hi]. pose proof (lookup_lt_Some _ _ _ Hi) as Hlt.
    rewrite (Hd i (length acc) x e) in Heq; [done| | |done]; [by rewrite lookup_app_l|]. by rewrite lookup_app_r, Nat.sub_diag. }
  rewrite IH; [by rewrite <- app_assoc|]. by rewrite <- app_assoc.
Qed.

Lemma push_new_all_distinct (l acc : list entry) :
  (forall i j x y, acc !! i = Some x -> acc !! j = Some y -> i < j -> entry_eq x y = false) ->
  forall i j x y, foldl push_new acc l !! i = Some x -> foldl push_new acc l !! j = Some y -> i < j -> entry_eq x y = false.
Proof using Type.
  revert acc. induction l as [|e l IH]; intros acc Hd; cbn [foldl]; [done|]. apply IH. unfold push_new.
  destruct (existsb (fun x => entry_eq x e) acc) eqn:E; [done|]. intros i j x y Hi Hj Hij. apply not_true_iff_false in E.
  apply lookup_app_Some in Hj as [Hj|[Hge Hj]].
  - apply lookup_app_Some in Hi as [Hi|[Hge Hi]]; [by eapply Hd|]. apply lookup_lt_Some in Hj. lia.
  - apply list_lookup_singleton_Some in Hj as [Hj ->]. apply lookup_app_Some in Hi as [Hi|[Hge' Hi]].
    + apply not_true_iff_false. intros Heq. apply E, existsb_exists. exists x. split; [|done]. apply list_elem_of_In. by eapply list_elem_of_lookup_2.
    + apply list_lookup_singleton_Some in Hi as [Hi _]. lia.
Qed.

Lemma normalize_overlay_entries (p q : overlay) :
  normalize_additional_permissions p = Ok q ->
  overlay_entries q = foldl push_new [] (overlay_entries p) /\ Forall (fun e => is_glob (fe_path e) && negb (is_deny (fe_access e)) = false) (overlay_entries p).
Proof using Type.
  unfold normalize_additional_permissions, overlay_entries. destruct (ap_file_system p) as [fs|]; cbn [mbind res_bind]; [|by intros [= <-]].
  destruct (fold_res normalize_entry [] (fs_entries fs)) as [m| |] eqn:E; cbn [mbind res_bind]; [|done..]. intros [= <-]. cbn [ap_file_system].
  destruct (normalize_entries_spec _ _ _ E) as [-> Hg]. split; [|done]. unfold fs_is_empty. cbn [fs_entries]. by destruct (foldl push_new [] (fs_entries fs)).
Qed.

Lemma normalize_context_spec (p q : overlay) cx : normalize_additional_permissions_with_context p cx = Ok q -> normalize_additional_permissions p = Ok q.
Proof using Type.
  unfold normalize_additional_permissions_with_context. destruct (normalize_additional_permissions p) as [n| |]; cbn [mbind res_bind]; [|done..].
  destruct (ap_file_system n); [destruct (existsb _ _); [done|]|]; by intros [= ->].
Qed.

Lemma normalized_access (p q : overlay) cx path np :
  normalize_additional_permissions p = Ok q -> posix_context cx -> posix_names path = Some np -> unambiguous (overlay_policy p) cx ->
  resolve_access (overlay_policy q) path cx = resolve_access (overlay_policy p) path cx.
Proof.
  intros [E _]%normalize_overlay_entries Hcx Hp Hun. unfold overlay_policy in *. rewrite E.
  apply (resolve_access_union _ cx path np _ (view (restricted (overlay_entries p)) cx)); [done|done|done| | |].
  - apply push_new_unambiguous; [|done]. intros root a Hin. cbn in Hin. by apply not_elem_of_nil in Hin.
  - intros [n x]. rewrite push_new_view by done. done.
  - by apply (resolve_access_union (restricted (overlay_entries p)) cx path np).
Qed.

(** An overlay that is normalised has no grants by pattern, is normal, and gives the same access
    to every path as before; and when it is also materialised, every path keeps the access it
    had while the entries stood for the directories of the context. *)
Theorem materialize_keeps_authority (p q : overlay) cx path np :
  posix_context cx -> posix_names path = Some np -> unambiguous (overlay_policy p) cx ->
  (normalize_additional_permissions p = Ok q ->
    normalize_additional_permissions q = Ok q /\ resolve_access (overlay_policy q) path cx = resolve_access (overlay_policy p) path cx) /\
  (materialize_additional_permissions_with_context p cx = Ok q ->
    resolve_access (overlay_policy q) path cx = resolve_access (overlay_policy p) path cx).
Proof.
  intros Hcx Hp Hun. split.
  - intros Hn. split; [|by eapply normalized_access]. revert Hn. unfold normalize_additional_permissions at 1. destruct (ap_file_system p) as [fs|] eqn:Ep; cbn [mbind res_bind].
    + destruct (fold_res normalize_entry [] (fs_entries fs)) as [m| |] eqn:E; cbn [mbind res_bind]; [|done..]. intros [= <-]. destruct (normalize_entries_spec _ _ _ E) as [-> Hg].
      unfold fs_is_empty. cbn [fs_entries]. set (m := foldl push_new [] (fs_entries fs)) in *. unfold normalize_additional_permissions. cbn [ap_network ap_file_system].
      replace (match _ with Some network => if np_is_empty network then None else Some network | None => None end)
        with (match ap_network p with Some network => if np_is_empty network then None else Some network | None => None end)
        by (destruct (ap_network p) as [n|]; [|done]; by destruct (np_is_empty n) eqn:En; rewrite ?En).
      destruct (is_empty m) eqn:Em; cbn [mbind res_bind]; [done|]. cbn [fs_entries fs_glob_scan_max_depth].
      assert (fold_res normalize_entry [] m = Ok m) as ->; [|cbn [mbind res_bind]; unfold fs_is_empty; cbn [fs_entries]; by rewrite Em].
      assert (Forall (fun e => is_glob (fe_path e) && negb (is_deny (fe_access e)) = false) m) as Hgm.
      { apply Forall_forall. intros e He. pose proof (push_new_spec (fs_entries fs) []) as Hs. cbv zeta in Hs. change (foldl _ [] (fs_entries fs)) with m in Hs. destruct Hs as (_ & H2 & _).
        rewrite Forall_forall in Hg. destruct (H2 e He) as [H|]; [by apply not_elem_of_nil in H|auto]. }
      assert (foldl push_new [] m = m) as Em' by (apply (push_new_distinct m []), push_new_all_distinct; by intros [|i] j x y).
      rewrite <- Em' at 2. clear -Hgm. generalize (@nil entry). induction Hgm as [|e l He _ IH]; intros acc; cbn [fold_res foldl]; [done|].
      assert (normalize_entry acc e = if is_glob (fe_path e) && negb (is_deny (fe_access e)) then Err (lit "glob file system permissions only support deny-read entries") else Ok (push_new acc e)) as -> by reflexivity. rewrite He. cbn [mbind res_bind]. apply IH.
    + intros [= <-]. unfold normalize_additional_permissions. cbn [ap_network ap_file_system mbind res_bind].
      destruct (ap_network p) as [n|]; [|done]. by destruct (np_is_empty n) eqn:En; rewrite ?En.
  - unfold materialize_additional_permissions_with_context. destruct (ap_file_system p) as [fs|] eqn:Ep; [|intros Hn%normalize_context_spec; by eapply normalized_access].
    destruct (materialize_context_dependent_entries (fs_entries fs) cx) as [m|] eqn:Em; cbn [ok_or mbind res_bind]; [|done]. intros Hn%normalize_context_spec.
    destruct (materialize_resolved _ _ _ Em) as [Er _]. destruct (view_restricted _ _ _ Er) as (_ & Hu & Ha).
    assert (overlay_policy p = restricted (fs_entries fs)) as Ep' by (unfold overlay_policy, overlay_entries; by rewrite Ep). rewrite Ep' in Hun. rewrite Ep', <- Ha.
    by apply (normalized_access _ _ cx path np Hn); [..|apply Hu].
Qed.

(** ** Platform sandboxes *)

(** A command that needs no platform sandbox has one from outside, or may write every file and use the
    network. *)
Theorem no_platform_sandbox_sound host (self : policy) network managed cx path np :
  should_require_platform_sandbox host self network managed = false -> plain_paths self -> posix_context cx -> posix_names path = Some np -> unambiguous self cx ->
  managed = false /\ (fp_kind self = ExternalSandbox \/ (network = NetEnabled /\ can_write_path host self path cx = true)).
Proof.
  unfold should_require_platform_sandbox. intros Hr Hpl Hcx Hp Hun. destruct managed; [done|]. split; [done|]. destruct (decide (fp_kind self = ExternalSandbox)) as [|Hk]; [by left|right].
  destruct network; cbn [net_is_enabled negb] in Hr; [by rewrite bool_decide_eq_false_2 in Hr|]. split; [done|].
  assert (has_full_disk_write_access host self = true) as Hfull by (unfold has_full_disk_write_access in *; destruct (fp_kind self) eqn:E; [by apply negb_false_iff in Hr|done..]).
  by apply (full_disk_write_sound host self cx path np).
Qed.

(** ** What an intersection loses *)

(** A directory that is asked for as writable, with a part of it as readable only, and granted as
    writable: in the intersection the part is writable too, since only denials of the request
    are kept. *)
Theorem read_only_part_becomes_writable u v nu nv :
  forall cx, posix_context cx -> posix_names u = Some nu -> posix_names v = Some nv -> nu `prefix_of` nv -> nu ≠ nv ->
  let requested := {| ap_network := None; ap_file_system := Some {| fs_entries := [entry_new (PPath u) Write; entry_new (PPath v) Read]; fs_glob_scan_max_depth := None |} |} in
  let granted := {| ap_network := None; ap_file_system := Some {| fs_entries := [entry_new (PPath u) Write]; fs_glob_scan_max_depth := None |} |} in
  resolve_access (overlay_policy requested) v cx = Read /\
  resolve_access (overlay_policy (intersect_permission_profiles_with_context glob_compile requested granted cx)) v cx = Write.
Proof.
  intros cx Hcx Hu Hv Hpre Hne requested granted.
  assert (length nu < length nv) as Hlen by (destruct Hpre as [x ->]; rewrite length_app; destruct x; [by rewrite app_nil_r in Hne|cbn; lia]).
  assert (forall w nw a, posix_names w = Some nw -> entry_roots cx (entry_new (PPath w) a) = [w]) as Hroots.
  { intros w nw a Hw. unfold entry_roots. cbn [entry_new fe_path entry_paths List.filter]. rewrite (posix_cwd cx Hcx). destruct (posix_names_Some _ nw Hw) as (_ & -> & _).
    by rewrite bool_decide_eq_true_2. }
  assert (view (overlay_policy requested) cx = [(nu, Write); (nv, Read)]) as Ev.
  { unfold view. rewrite resolved_entries_flat. cbn [overlay_policy overlay_entries requested ap_file_system restricted fp_entries fs_entries flat_map]. unfold resolved_of. rewrite (Hroots u nu Write Hu), (Hroots v nv Read Hv). cbn. unfold entry_view. cbn. by rewrite Hu, Hv. }
  assert (unambiguous (overlay_policy requested) cx) as Hun.
  { intros root a Hin. rewrite resolved_entries_flat in Hin. cbn [overlay_policy overlay_entries requested ap_file_system restricted fp_entries fs_entries flat_map] in Hin. unfold resolved_of in Hin. rewrite (Hroots u nu Write Hu), (Hroots v nv Read Hv) in Hin. cbn in Hin. right.
    apply elem_of_cons in Hin as [[= -> _]|Hin]; [by eexists|]. apply elem_of_cons in Hin as [[= -> _]|Hin]; [by eexists|by apply not_elem_of_nil in Hin]. }
  split.
  - apply (resolve_access_decides _ cx v nv); [done|done|done|done|]. rewrite Ev. exists nv. split_and!; [set_solver|done|].
    intros n a [[= -> ->]|[[= -> ->]|[]%not_elem_of_nil]%elem_of_cons]%elem_of_cons _; [by left|right; cbn; by split].
  - assert (resolve_access (overlay_policy requested) u cx = Write) as Eu.
    { apply (resolve_access_decides _ cx u nu); [done|done|done|done|]. rewrite Ev. exists nu. split_and!; [set_solver|done|].
      intros n a [[= -> ->]|[[= -> ->]|[]%not_elem_of_nil]%elem_of_cons]%elem_of_cons Hp; [right; cbn; by split|]. apply prefix_length in Hp. lia. }
    assert (overlay_policy (intersect_permission_profiles_with_context glob_compile requested granted cx) = restricted [entry_new (PPath u) Write]) as ->.
    { set (req := {| fs_entries := [entry_new (PPath u) Write; entry_new (PPath v) Read]; fs_glob_scan_max_depth := None |}) in *.
      set (eu := entry_new (PPath u) Write) in *. assert (accepted cx req (fs_entries req) [eu] = [eu]) as Hacc.
      { unfold accepted. cbn [List.filter]. rewrite (within_spec cx Hcx req req (fs_entries req) (fs_entries req) eq_refl eq_refl eu u eq_refl) by (unfold eu; rewrite (Hroots u nu Write Hu); left).
        rewrite (denied_roots_only cx (fs_entries req) u nu Hcx eq_refl Hu). change (restricted (fs_entries req)) with (overlay_policy requested). rewrite Eu.
        assert (denied_roots (overlay_policy requested) cx = []) as ->; [|done]. unfold denied_roots. rewrite resolved_entries_flat.
        cbn [overlay_policy overlay_entries requested req ap_file_system restricted fp_entries fs_entries flat_map]. unfold resolved_of, eu. by rewrite (Hroots u nu Write Hu), (Hroots v nv Read Hv). }
      assert (result cx req (fs_entries req) [eu] = [eu]) as Hres by (unfold result, denials; rewrite Hacc; done).
      assert (exists d, intersect_file_system glob_compile req {| fs_entries := [eu]; fs_glob_scan_max_depth := None |} cx =
        Some {| fs_entries := result cx req (fs_entries req) [eu]; fs_glob_scan_max_depth := d |}) as [d Ed] by (eexists; reflexivity).
      unfold overlay_policy, overlay_entries, intersect_permission_profiles_with_context. cbn [ap_file_system requested granted mbind option_bind default from_option id].
      rewrite Ed, Hres. done. }
    unfold resolve_access. cbn [restricted fp_kind]. rewrite (posix_cwd cx Hcx). destruct (posix_names_Some _ nv Hv) as (_ & -> & _). destruct (posix_context_names cx Hcx) as [nc Hc].
    rewrite (lexical_depth_posix _ _ Hv), (lexical_depth_posix _ _ Hc), bool_decide_eq_true_2, !bool_decide_eq_false_2 by done. cbn [negb orb].
    rewrite resolved_entries_flat. cbn [restricted fp_entries flat_map]. unfold resolved_of. rewrite (Hroots u nu Write Hu). cbn [map app with_depths fe_access entry_new].
    rewrite (lexical_depth_posix _ _ Hu). cbn [mbind option_bind List.filter fst]. rewrite (proj2 (starts_with_posix v u nv Hv)) by eauto. done.
Qed.
End Overlays.

(** * Permission overlays, by example

    The properties of [NativePath] and [PolicyTransformsProps] applied to concrete overlays
    over the URLs of [UrlModel], and a deny pattern with braces that an intersection
    forgets. *)
From S2P Require Import UrlModel SandboxDemo.
Import UrlModel SandboxDemo.


Module OverlayDemo.
Abbreviation overlay := (@AdditionalPermissionProfile UrlModel.t).

Definition files (entries : list (@FileSystemSandboxEntry UrlModel.t)) : overlay :=
  {| ap_network := None; ap_file_system := Some {| fs_entries := entries; fs_glob_scan_max_depth := None |} |}.

(** The project, but for its keys; and the part of it that is granted. *)
Definition requested : overlay := files [entry_new (PSpecial (ProjectRoots None)) Write; path_entry [lit "w"; lit "src"; lit "keys"] Deny].
Definition granted : overlay := files [path_entry [lit "w"; lit "src"] Write].

(** No pattern is ever compiled here. *)
Definition no_globs (c : PathConvention) (pattern : rstr) : option (list Z -> bool) := None.

(** A pattern with braces, what it matches, and a grant inside one alternative. *)
Definition braces : rstr := lit "/w/{keys,certs}/**".
Definition brace_globs (c : PathConvention) (pattern : rstr) : option (list Z -> bool) :=
  if streq pattern braces then Some (fun bytes => starts_with (lit "/w/keys/") bytes || starts_with (lit "/w/certs/") bytes) else None.
Definition brace_request : overlay := files [path_entry [lit "w"] Read; entry_new (PGlob braces) Deny].
Definition brace_grant : overlay := files [path_entry [lit "w"; lit "keys"] Read].
Definition key : UrlModel.t := UriDemo.url [lit "w"; lit "keys"; lit "k.pem"].
End OverlayDemo.
Import OverlayDemo.

Lemma native_path_roundtrip_witness :
  inferred_native_path_string UriDemo.w = Ok (lit "/w/src") /\
  exists s v, inferred_native_path_string UriDemo.w = Ok s /\ to_inferred_path_uri s = Ok v /\ at_names v [lit "w"; lit "src"].
Proof.
  split; [by vm_compute|]. apply native_path_roundtrip; [|repeat constructor]. apply demo_at_names; [repeat constructor|apply demo_parse; by vm_compute].
Defined.

Lemma intersection_bounded_witness :
  let r := intersect_permission_profiles_with_context no_globs requested granted cx in
  resolve_access (overlay_policy r) UriDemo.f cx = Write /\
  (can_write (resolve_access (overlay_policy r) file cx) = true -> can_write (resolve_access (overlay_policy granted) file cx) = true).
Proof.
  intros r. split; [by vm_compute|].
  apply (intersection_bounded no_globs requested granted cx file file_names); [apply demo_context|by vm_compute|apply unambiguousb_spec; by vm_compute..|by vm_compute].
Defined.

Lemma overlay_most_specific_witness :
  resolve_access (effective_file_system_sandbox_policy project (Some (files [path_entry [lit "w"; lit "src"; lit "keys"; lit "k.pem"] Read]))) file cx = Read /\
  effective_file_system_sandbox_policy unrestricted (Some (files [path_entry [lit "w"] Read])) = @unrestricted UrlModel.t.
Proof.
  split.
  - apply (overlay_most_specific project NetRestricted (files [path_entry [lit "w"; lit "src"; lit "keys"; lit "k.pem"] Read]) cx file file_names Read);
      [apply demo_context|by vm_compute|apply unambiguousb_spec; by vm_compute..|done|]. left. exists file_names. split_and!.
    + apply elem_of_app. right. vm_compute. left.
    + done.
    + intros n a Hin _. concrete_members Hin. destruct Hin as [[= -> ->]|[[= -> ->]|[[= -> ->]|[[= -> ->]|Hin]]]]; [left; vm_compute; lia..|right; by split|by apply not_elem_of_nil in Hin].
  - apply (overlay_most_specific unrestricted NetRestricted (files [path_entry [lit "w"] Read]) cx file file_names Read);
      [apply demo_context|by vm_compute|apply unambiguousb_spec; by vm_compute..|done].
Defined.

Lemma materialize_keeps_authority_witness :
  exists q, materialize_additional_permissions_with_context requested cx = Ok q /\
    resolve_access (overlay_policy q) file cx = resolve_access (overlay_policy requested) file cx.
Proof.
  eexists. split; [vm_compute; reflexivity|].
  apply (materialize_keeps_authority requested _ cx file file_names); [apply demo_context|by vm_compute|apply unambiguousb_spec; by vm_compute|vm_compute; reflexivity].
Defined.

Lemma no_platform_sandbox_sound_witness : can_write_path host everything file cx = true.
Proof.
  destruct (no_platform_sandbox_sound host everything NetEnabled false cx file file_names) as [_ [E|[_ H]]]; [by vm_compute| |apply demo_context|by vm_compute|apply unambiguousb_spec; by vm_compute|done|exact H].
  intros e u Hin He _. assert (u = UriDemo.url [lit "w"]) as ->.
  { unfold everything, restricted in Hin. simpl in Hin. rewrite !elem_of_cons in Hin. set_solver. }
  exists [lit "w"]. split; [apply demo_at_names; [repeat constructor|apply demo_parse; by vm_compute]|repeat constructor].
Defined.

Lemma read_only_part_becomes_writable_witness :
  resolve_access (overlay_policy (intersect_permission_profiles_with_context no_globs
    (files [path_entry [lit "w"] Write; path_entry [lit "w"; lit "src"] Read]) (files [path_entry [lit "w"] Write]) cx)) UriDemo.w cx = Write.
Proof.
  apply (read_only_part_becomes_writable no_globs (UriDemo.url [lit "w"]) UriDemo.w [lit "w"] [lit "w"; lit "src"] cx demo_context); [by vm_compute|by vm_compute|by exists [lit "src"]|done].
Defined.

(** A deny pattern with braces is forgotten: [globset] and the macOS sandbox read [{keys,certs}] as
    alternatives, but the place of the pattern is looked up as a directory with that name. The
    grant inside one of the alternatives is accepted, and the file the request denies is
    readable in the intersection. *)
Theorem brace_pattern_forgotten :
  let r := intersect_permission_profiles_with_context brace_globs brace_request brace_grant cx in
  is_read_denied_uri (matcher_from_context brace_globs (overlay_policy brace_request) cx) key cx = true /\
  resolve_access (overlay_policy r) key cx = Read /\ deny_patterns (overlay_entries r) = [] /\
  is_read_denied_uri (matcher_from_context brace_globs (overlay_policy r) cx) key cx = false.
Proof. by vm_compute. Qed.
