(* ===== verification/RemoteSegment.v ===== *)
(** * Segments of remote-control messages

    Models [workx-rs/app-server-transport/src/transport/remote_control/segment.rs] and the
    envelopes of [protocol.rs]: a message to a client that is too large for one frame is
    cut into chunks, and the chunks a client sends are put together again. [serde_json] and
    [base64] are the class [Wire]; the iteration order of the map of assemblies is a
    parameter. Sizes are [usize]s as integers; the guards keep them far below [2^64]. *)
From stdpp Require Import gmap.
From S2P Require Import Prelude Width.

Set Default Goal Selector "!".
Open Scope Z_scope.

Definition REMOTE_CONTROL_SEGMENT_TARGET_BYTES : Z := 100 * 1024.
Definition REMOTE_CONTROL_SEGMENT_MAX_BYTES : Z := 150 * 1024.
Definition REMOTE_CONTROL_REASSEMBLED_MAX_BYTES : Z := 100 * 1024 * 1024.
Definition REMOTE_CONTROL_SEGMENT_COUNT_MAX : Z := 1024.
Definition REMOTE_CONTROL_SEGMENT_ASSEMBLY_MAX_COUNT : nat := 128.

(** ** Envelopes *)

(** [JSONRPCMessage]: [Message], a parameter. *)
Inductive ClientEvent (Message : Type) :=
| ClientMessage (message : Message)
| ClientMessageChunk (segment_id segment_count message_size_bytes : Z) (message_chunk_base64 : rstr)
| ClientAck (segment_id : option Z)
| ClientPing
| ClientClosed.
Arguments ClientMessage {Message} message.
Arguments ClientMessageChunk {Message} segment_id segment_count message_size_bytes message_chunk_base64.
Arguments ClientAck {Message} segment_id.
Arguments ClientPing {Message}.
Arguments ClientClosed {Message}.

Record ClientEnvelope (Message : Type) := {
  ce_event : ClientEvent Message;
  ce_client_id : rstr;
  ce_stream_id : option rstr;
  ce_seq_id : option Z;
  ce_cursor : option rstr;
}.
Arguments Build_ClientEnvelope {Message} ce_event ce_client_id ce_stream_id ce_seq_id ce_cursor.
Arguments ce_event {Message} _.
Arguments ce_client_id {Message} _.
Arguments ce_stream_id {Message} _.
Arguments ce_seq_id {Message} _.
Arguments ce_cursor {Message} _.

(** What a message contains apart from the identifier of a request is a parameter. *)
Inductive OutgoingMessage (Payload : Type) :=
| OutRequest (request : Payload)
| OutNotification (notification : Payload)
| OutResponse (id : rstr) (result : Payload)
| OutError (id : rstr) (code : Z) (message : rstr).
Arguments OutRequest {Payload} request.
Arguments OutNotification {Payload} notification.
Arguments OutResponse {Payload} id result.
Arguments OutError {Payload} id code message.

Inductive PongStatus := PongActive | PongUnknown.

Inductive ServerEvent (Payload : Type) :=
| ServerMessage (message : OutgoingMessage Payload)
| ServerMessageChunk (segment_id segment_count message_size_bytes : Z) (message_chunk_base64 : rstr)
| ServerAck
| Pong (status : PongStatus).
Arguments ServerMessage {Payload} message.
Arguments ServerMessageChunk {Payload} segment_id segment_count message_size_bytes message_chunk_base64.
Arguments ServerAck {Payload}.
Arguments Pong {Payload} status.

Definition event_segment_id {Payload} (self : ServerEvent Payload) : option Z :=
  match self with ServerMessageChunk segment_id _ _ _ => Some segment_id | _ => None end.

Record ServerEnvelope (Payload : Type) := {
  se_event : ServerEvent Payload;
  se_client_id : rstr;
  se_stream_id : rstr;
  se_seq_id : Z;
}.
Arguments Build_ServerEnvelope {Payload} se_event se_client_id se_stream_id se_seq_id.
Arguments se_event {Payload} _.
Arguments se_client_id {Payload} _.
Arguments se_stream_id {Payload} _.
Arguments se_seq_id {Payload} _.

(** ** JSON and base64 *)

(** What [decode_slice] does with an output slice of the given length. *)
Inductive DecodeOutcome := Decoded (bytes : list Z) | OutputSliceTooSmall | InvalidBase64.

Class Wire (Message Payload : Type) := {
  to_vec : OutgoingMessage Payload -> res rstr (list Z);
  from_slice : list Z -> option Message;
  envelope_len : ServerEnvelope Payload -> res rstr Z;
  base64_encode : list Z -> rstr;
  decode_slice : rstr -> Z -> DecodeOutcome;
  decoded_len_estimate : Z -> Z;
}.

Definition len {A} (l : list A) : Z := Z.of_nat (length l).

(** [usize::div_ceil]. *)
Definition div_ceil (a b : Z) : Z := (a + b - 1) / b.

(** [slice::chunks]; each chunk takes at least one element. *)
Fixpoint chunks_fuel {A} (fuel n : nat) (l : list A) : list (list A) :=
  match fuel, l with
  | S fuel, _ :: _ => take n l :: chunks_fuel fuel n (drop n l)
  | _, _ => []
  end.

Definition chunks {A} (n : Z) (l : list A) : list (list A) := chunks_fuel (length l) (Z.to_nat n) l.

(** [Iterator::enumerate]. *)
Fixpoint enumerate_from {A} (i : Z) (l : list A) : list (Z * A) :=
  match l with [] => [] | x :: l => (i, x) :: enumerate_from (i + 1) l end.

Definition enumerate {A} (l : list A) : list (Z * A) := enumerate_from 0 l.

Section Segments.
Context {Message Payload : Type} `{Wire Message Payload}.

(** ** Cutting *)

Definition INTERNAL_ERROR_CODE : Z := -32603.

Definition response_serialization_error (request_id err : rstr) : OutgoingMessage Payload :=
  OutError request_id INTERNAL_ERROR_CODE (lit "failed to serialize response: " ++ err).

Definition with_event (envelope : ServerEnvelope Payload) (event : ServerEvent Payload) : ServerEnvelope Payload :=
  Build_ServerEnvelope event (se_client_id envelope) (se_stream_id envelope) (se_seq_id envelope).

Definition build_chunk_envelope (envelope : ServerEnvelope Payload) (segment_id segment_count message_size_bytes : Z)
    (chunk : list Z) : res rstr (ServerEnvelope Payload) :=
  if REMOTE_CONTROL_SEGMENT_COUNT_MAX <? segment_count then Err (lit "remote-control segment count exceeds maximum")
  else Ok (with_event envelope (ServerMessageChunk segment_id segment_count message_size_bytes (base64_encode chunk))).

Definition serialized_chunk_len (envelope : ServerEnvelope Payload) (segment_id segment_count message_size_bytes : Z)
    (chunk : list Z) : res rstr Z :=
  built ← build_chunk_envelope envelope segment_id segment_count message_size_bytes chunk;
  envelope_len built.

Definition segments_fit (envelope : ServerEnvelope Payload) (raw : list Z) (chunk_size segment_count : Z) : bool :=
  forallb (fun '(segment_id, chunk) =>
    match serialized_chunk_len envelope segment_id segment_count (len raw) chunk with
    | Ok size => size <=? REMOTE_CONTROL_SEGMENT_MAX_BYTES
    | _ => false
    end) (enumerate (chunks chunk_size raw)).

(** The loop; [None] when the fuel is used up. *)
Fixpoint split_loop (fuel : nat) (envelope : ServerEnvelope Payload) (raw : list Z) (segment_count : Z)
    : option (res rstr (list (ServerEnvelope Payload))) :=
  match fuel with
  | O => None
  | S fuel =>
      let message_size_bytes := len raw in
      let chunk_size := Z.max 1 (div_ceil message_size_bytes segment_count) in
      let segment_count := div_ceil message_size_bytes chunk_size in
      if segments_fit envelope raw chunk_size segment_count then
        Some (map_res (fun '(segment_id, chunk) => build_chunk_envelope envelope segment_id segment_count message_size_bytes chunk)
          (enumerate (chunks chunk_size raw)))
      else if chunk_size =? 1 then Some (Ok [])
      else
        let next_segment_count := segment_count + 1 in
        let next_chunk_size := Z.max 1 (div_ceil message_size_bytes next_segment_count) in
        split_loop fuel envelope raw (if next_chunk_size =? chunk_size then message_size_bytes else next_segment_count)
  end.

(** A round for every byte is enough, since the chunks get smaller. *)
Definition split_server_envelope_for_transport (envelope : ServerEnvelope Payload)
    : option (res rstr (list (ServerEnvelope Payload))) :=
  match se_event envelope with
  | ServerMessage message =>
      match envelope_len envelope with
      | Ok envelope_size_bytes =>
          if envelope_size_bytes <=? REMOTE_CONTROL_SEGMENT_MAX_BYTES then Some (Ok [envelope])
          else
            match to_vec message with
            | Ok raw =>
                let message_size_bytes := len raw in
                if REMOTE_CONTROL_REASSEMBLED_MAX_BYTES <? message_size_bytes then Some (Ok [])
                else
                  let minimal_segment_count := Z.min (Z.max message_size_bytes 1) REMOTE_CONTROL_SEGMENT_COUNT_MAX in
                  match serialized_chunk_len envelope 0 minimal_segment_count message_size_bytes (take 1 raw) with
                  | Ok size =>
                      if REMOTE_CONTROL_SEGMENT_MAX_BYTES <? size then Some (Ok [])
                      else split_loop (S (length raw)) envelope raw
                             (Z.max 2 (div_ceil message_size_bytes REMOTE_CONTROL_SEGMENT_TARGET_BYTES))
                  | Err e => Some (Err e)
                  | Panic => Some Panic
                  end
            | Err e => Some (Err e)
            | Panic => Some Panic
            end
      | Err err =>
          match message with
          | OutResponse id _ => Some (Ok [with_event envelope (ServerMessage (response_serialization_error id err))])
          | _ => Some (Err err)
          end
      | Panic => Some Panic
      end
  | _ => Some (Ok [envelope])
  end.

(** ** Putting together *)

Record ClientSegmentMetadata := { cm_seq_id : Z; cm_segment_count : Z; cm_message_size_bytes : Z }.

#[export] Instance ClientSegmentMetadata_eq_dec : EqDecision ClientSegmentMetadata.
Proof. solve_decision. Defined.

Record ClientSegmentAssembly := {
  as_stream_id : rstr;
  as_metadata : ClientSegmentMetadata;
  as_raw : list Z;
  as_next_segment_id : Z;
  as_last_chunk_seen_at : Z;
}.

(** [ClientSegmentReassembler]: the assemblies by client. *)
Abbreviation ClientSegmentReassembler := (gmap rstr ClientSegmentAssembly) (only parsing).

Inductive ClientSegmentObservation := Forward (envelope : ClientEnvelope Message) | Pending | Dropped.

Inductive AssemblyUpdate := UpdatePending | UpdateIgnore | UpdateDrop | UpdateComplete (message : Message).

Definition should_ignore_chunk (self : ClientSegmentReassembler) (client_id stream_id : rstr) (seq_id segment_id : Z) : bool :=
  match self !! client_id with
  | Some assembly =>
      streq (as_stream_id assembly) stream_id
      && ((seq_id <? cm_seq_id (as_metadata assembly))
          || ((seq_id =? cm_seq_id (as_metadata assembly)) && (segment_id <? as_next_segment_id assembly)))
  | None => false
  end.

Definition remove_assembly (self : ClientSegmentReassembler) (client_id stream_id : rstr) : ClientSegmentReassembler :=
  match self !! client_id with
  | Some assembly => if streq (as_stream_id assembly) stream_id then delete client_id self else self
  | None => self
  end.

Definition invalidate_stream (self : ClientSegmentReassembler) (client_id stream_id : rstr) : ClientSegmentReassembler :=
  remove_assembly self client_id stream_id.

Definition invalidate_client (self : ClientSegmentReassembler) (client_id : rstr) : ClientSegmentReassembler :=
  delete client_id self.

(** [Iterator::min_by_key] with the time of the last chunk: the first of the smallest. *)
Fixpoint min_by_seen (l : list (rstr * ClientSegmentAssembly)) : option (rstr * ClientSegmentAssembly) :=
  match l with
  | [] => None
  | x :: l => match min_by_seen l with
              | Some y => if as_last_chunk_seen_at y.2 <? as_last_chunk_seen_at x.2 then Some y else Some x
              | None => Some x
              end
  end.

Section Observe.
Context (iter : gmap rstr ClientSegmentAssembly -> list (rstr * ClientSegmentAssembly)).

(** One round for every assembly, which is as many as there can be. *)
Fixpoint evict_loop (fuel : nat) (self : ClientSegmentReassembler) : ClientSegmentReassembler :=
  match fuel with
  | O => self
  | S fuel =>
      if (REMOTE_CONTROL_SEGMENT_ASSEMBLY_MAX_COUNT <=? size self)%nat then
        match min_by_seen (iter self) with
        | Some (client_id, _) => evict_loop fuel (delete client_id self)
        | None => self
        end
      else self
  end.

Definition evict_assemblies_if_full (self : ClientSegmentReassembler) : ClientSegmentReassembler := evict_loop (size self) self.

Definition new_assembly (stream_id : rstr) (metadata : ClientSegmentMetadata) (now : Z) : ClientSegmentAssembly :=
  {| as_stream_id := stream_id; as_metadata := metadata; as_raw := []; as_next_segment_id := 0; as_last_chunk_seen_at := now |}.

(** The chunk that is due: what becomes of its assembly, and the update. The assembly is kept
    for [UpdatePending] only. *)
Definition append_chunk (assembly : ClientSegmentAssembly) (metadata : ClientSegmentMetadata) (message_chunk_base64 : rstr) (now : Z)
    : ClientSegmentAssembly * AssemblyUpdate :=
  let chunk_start := len (as_raw assembly) in
  let chunk_end := Z.min (cm_message_size_bytes metadata)
    (saturating_add chunk_start (decoded_len_estimate (len message_chunk_base64))) in
  match decode_slice message_chunk_base64 (chunk_end - chunk_start) with
  | Decoded bytes =>
      let raw := as_raw assembly ++ bytes in
      let next_segment_id := as_next_segment_id assembly + 1 in
      ({| as_stream_id := as_stream_id assembly; as_metadata := as_metadata assembly; as_raw := raw;
          as_next_segment_id := next_segment_id; as_last_chunk_seen_at := now |},
       if next_segment_id <? cm_segment_count metadata then UpdatePending
       else if negb (len raw =? cm_message_size_bytes metadata) then UpdateDrop
       else match from_slice raw with Some message => UpdateComplete message | None => UpdateDrop end)
  | OutputSliceTooSmall | InvalidBase64 => (assembly, UpdateDrop)
  end.

Definition update_assembly (assembly : ClientSegmentAssembly) (metadata : ClientSegmentMetadata) (segment_id : Z)
    (message_chunk_base64 : rstr) (now : Z) : ClientSegmentAssembly * AssemblyUpdate :=
  if cm_seq_id metadata <? cm_seq_id (as_metadata assembly) then (assembly, UpdateIgnore)
  else if negb (bool_decide (as_metadata assembly = metadata)) then (assembly, UpdateDrop)
  else if segment_id <? as_next_segment_id assembly then (assembly, UpdatePending)
  else if negb (segment_id =? as_next_segment_id assembly) then (assembly, UpdateDrop)
  else append_chunk assembly metadata message_chunk_base64 now.

Definition observe (self : ClientSegmentReassembler) (now : Z) (envelope : ClientEnvelope Message)
    : ClientSegmentObservation * ClientSegmentReassembler :=
  match ce_event envelope with
  | ClientMessageChunk segment_id segment_count message_size_bytes message_chunk_base64 =>
      match ce_seq_id envelope, ce_stream_id envelope with
      | Some seq_id, Some stream_id =>
          let client_id := ce_client_id envelope in
          let metadata := {| cm_seq_id := seq_id; cm_segment_count := segment_count; cm_message_size_bytes := message_size_bytes |} in
          if should_ignore_chunk self client_id stream_id seq_id segment_id then (Dropped, self)
          else if (segment_count =? 0) || (REMOTE_CONTROL_SEGMENT_COUNT_MAX <? segment_count) || (segment_count <=? segment_id)
                  || (message_size_bytes =? 0) || (REMOTE_CONTROL_REASSEMBLED_MAX_BYTES <? message_size_bytes)
                  || is_empty message_chunk_base64
          then (Dropped, remove_assembly self client_id stream_id)
          else
            let self :=
              match self !! client_id with
              | Some assembly =>
                  if negb (streq (as_stream_id assembly) stream_id)
                  then <[client_id := new_assembly stream_id metadata now]> self else self
              | None => <[client_id := new_assembly stream_id metadata now]> (evict_assemblies_if_full self)
              end in
            match self !! client_id with
            | None => (Dropped, self)
            | Some assembly =>
                let '(assembly, update) := update_assembly assembly metadata segment_id message_chunk_base64 now in
                let self := <[client_id := assembly]> self in
                match update with
                | UpdatePending => (Pending, self)
                | UpdateIgnore => (Dropped, self)
                | UpdateDrop => (Dropped, remove_assembly self client_id stream_id)
                | UpdateComplete message =>
                    (Forward (Build_ClientEnvelope (ClientMessage message) client_id (ce_stream_id envelope)
                       (ce_seq_id envelope) (ce_cursor envelope)),
                     remove_assembly self client_id stream_id)
                end
            end
      | _, _ => (Dropped, self)
      end
  | _ => (Forward envelope, self)
  end.
End Observe.
End Segments.
