(* ===== verification/RemoteSegmentProps.v ===== *)
(** * Properties of the segments of remote-control messages

    Cutting ends and keeps to its limits, what is cut is put together again however the
    chunks are repeated and mixed with those of other clients, and the memory for
    incomplete messages is bounded; for the definitions of [RemoteSegment]. *)
From stdpp Require Import gmap.
From S2P Require Import Prelude Width RemoteSegment.

Set Default Goal Selector "!".
Open Scope Z_scope.

(** ** What the code relies on *)

(** A byte is between 0 and 255. Decoding gives the bytes that were encoded when they fit, and
    never more than fits; the estimate is no less than the number of bytes. *)
Definition bytes (l : list Z) : Prop := Forall (fun b => 0 <= b < 256) l.

Class WireLaws (Message Payload : Type) `{Wire Message Payload} := {
  decode_encode c cap : bytes c -> len c <= cap -> decode_slice (base64_encode c) cap = Decoded c;
  decode_bounded t cap c : 0 <= cap -> decode_slice t cap = Decoded c -> len c <= cap;
  estimate_enough c : bytes c -> len c <= decoded_len_estimate (len (base64_encode c));
  estimate_nonneg n : 0 <= decoded_len_estimate n;
  encode_nonempty c : c ≠ [] -> base64_encode c ≠ [];
  to_vec_bytes m raw : to_vec m = Ok raw -> bytes raw;
}.

(** ** Arithmetic and lists *)

Lemma div_ceil_pos a b : 0 < a -> 0 < b -> 1 <= div_ceil a b.
Proof. intros Ha Hb. unfold div_ceil. apply Z.div_le_lower_bound; lia. Qed.

Lemma div_ceil_bounds a b : 0 < b -> a <= b * div_ceil a b < a + b.
Proof. intros Hb. unfold div_ceil. Z.div_mod_to_equations. nia. Qed.

Lemma div_ceil_le a b c : 0 < b -> a <= b * c -> div_ceil a b <= c.
Proof. intros Hb Hc. pose proof (div_ceil_bounds a b Hb). nia. Qed.

Lemma len_nonneg {A} (l : list A) : 0 <= len l.
Proof. unfold len. lia. Qed.

Lemma len_app {A} (a b : list A) : len (a ++ b) = len a + len b.
Proof. unfold len. rewrite length_app. lia. Qed.

Lemma chunks_fuel_concat {A} fuel n (l : list A) : (0 < n)%nat -> (length l <= fuel)%nat -> concat (chunks_fuel fuel n l) = l.
Proof.
  intros Hn. revert l. induction fuel as [|fuel IH]; intros l Hl; [by destruct l; [|cbn in Hl; lia]|].
  destruct l as [|x l]; [done|]. cbn [chunks_fuel concat]. rewrite IH; [apply take_drop|]. rewrite length_drop. cbn [length] in *. lia.
Qed.

Lemma chunks_concat {A} n (l : list A) : 1 <= n -> concat (chunks n l) = l.
Proof. intros Hn. apply chunks_fuel_concat; [lia|done]. Qed.

Lemma chunks_fuel_nonempty {A} fuel n (l : list A) : (0 < n)%nat -> Forall (fun c => c ≠ []) (chunks_fuel fuel n l).
Proof.
  intros Hn. revert l. induction fuel as [|fuel IH]; intros l; [constructor|]. destruct l as [|x l]; [constructor|].
  cbn [chunks_fuel]. constructor; [|apply IH]. destruct n; [lia|done].
Qed.

Lemma chunks_fuel_length {A} fuel n (l : list A) :
  (0 < n)%nat -> (length l <= fuel)%nat -> len (chunks_fuel fuel n l) = div_ceil (len l) (Z.of_nat n).
Proof.
  intros Hn. revert l. induction fuel as [|fuel IH]; intros l Hl.
  - destruct l; [|cbn in Hl; lia]. unfold len, div_ceil. cbn [length chunks_fuel]. rewrite Z.div_small by lia. done.
  - destruct l as [|x l]; [unfold len, div_ceil; cbn [length chunks_fuel]; rewrite Z.div_small by lia; done|].
    cbn [chunks_fuel]. change (len (?a :: ?b)) with (len (a :: b)).
    assert (len (take n (x :: l) :: chunks_fuel fuel n (drop n (x :: l))) = 1 + len (chunks_fuel fuel n (drop n (x :: l)))) as ->.
    { unfold len. cbn [length]. lia. }
    rewrite IH by (rewrite length_drop; cbn [length] in *; lia). unfold div_ceil, len. rewrite length_drop.
    destruct (Nat.le_gt_cases (length (x :: l)) n) as [Hle|Hgt].
    + replace (length (x :: l) - n)%nat with 0%nat by lia. cbn [length] in *.
      rewrite Z.div_small by lia. rewrite <- (Z.div_unique (Z.of_nat (S (length l)) + Z.of_nat n - 1) (Z.of_nat n) 1 (Z.of_nat (S (length l)) - 1)); lia.
    + replace (Z.of_nat (length (x :: l)) + Z.of_nat n - 1) with ((Z.of_nat (length (x :: l) - n) + Z.of_nat n - 1) + 1 * Z.of_nat n) by lia.
      rewrite Z.div_add by lia. lia.
Qed.

Lemma chunks_length {A} n (l : list A) : 1 <= n -> len (chunks n l) = div_ceil (len l) n.
Proof. intros Hn. unfold chunks. rewrite chunks_fuel_length by lia. by rewrite Z2Nat.id by lia. Qed.

Lemma enumerate_from_lookup {A} i (l : list A) (k : nat) : enumerate_from i l !! k = (fun x => (i + Z.of_nat k, x)) <$> l !! k.
Proof.
  revert i k. induction l as [|x l IH]; intros i k; [by destruct k|]. destruct k as [|k]; cbn [enumerate_from lookup list_lookup].
  - cbn. do 3 f_equal. lia.
  - rewrite IH. destruct (l !! k); cbn; [|done]. do 2 f_equal. lia.
Qed.

Lemma enumerate_lookup {A} (l : list A) (k : nat) : enumerate l !! k = (fun x => (Z.of_nat k, x)) <$> l !! k.
Proof. unfold enumerate. by rewrite enumerate_from_lookup. Qed.

Lemma enumerate_from_length {A} i (l : list A) : length (enumerate_from i l) = length l.
Proof. revert i. induction l as [|x l IH]; intros i; cbn; [done|by rewrite IH]. Qed.

Section Cut.
Context {Message Payload : Type} {W : Wire Message Payload} {L : WireLaws Message Payload}.
Implicit Types (envelope : ServerEnvelope Payload) (raw : list Z).

(** ** Cutting *)

(** The envelope of one chunk. *)
Definition chunk_envelope envelope raw (count : Z) (chunk : Z * list Z) : ServerEnvelope Payload :=
  with_event envelope (ServerMessageChunk chunk.1 count (len raw) (base64_encode chunk.2)).

(** A message cut into chunks of a size, each of which fits. *)
Definition cut envelope raw (n : Z) (es : list (ServerEnvelope Payload)) : Prop :=
  1 <= n /\ es = map (chunk_envelope envelope raw (len (chunks n raw))) (enumerate (chunks n raw)) /\
  len (chunks n raw) <= REMOTE_CONTROL_SEGMENT_COUNT_MAX /\
  Forall (fun e => exists size, envelope_len e = Ok size /\ size <= REMOTE_CONTROL_SEGMENT_MAX_BYTES) es.

Lemma map_res_build envelope raw count l :
  count <= REMOTE_CONTROL_SEGMENT_COUNT_MAX ->
  map_res (fun '(segment_id, chunk) => build_chunk_envelope envelope segment_id count (len raw) chunk) l
  = Ok (map (chunk_envelope envelope raw count) l).
Proof.
  intros Hc. induction l as [|[i c] l IH]; [done|]. cbn [map_res map]. rewrite IH. unfold build_chunk_envelope.
  destruct (Z.ltb_spec REMOTE_CONTROL_SEGMENT_COUNT_MAX count) as [|_]; [lia|]. done.
Qed.

Lemma segments_fit_cut envelope raw n :
  1 <= n -> raw ≠ [] -> segments_fit envelope raw n (div_ceil (len raw) n) = true ->
  exists es, cut envelope raw n es /\
    map_res (fun '(segment_id, chunk) => build_chunk_envelope envelope segment_id (div_ceil (len raw) n) (len raw) chunk) (enumerate (chunks n raw)) = Ok es.
Proof.
  intros Hn Hraw Hfit. set (count := div_ceil (len raw) n) in *. assert (len (chunks n raw) = count) as Elen by by apply chunks_length.
  unfold segments_fit in Hfit. rewrite forallb_forall in Hfit.
  assert (count <= REMOTE_CONTROL_SEGMENT_COUNT_MAX) as Hcount.
  { destruct (chunks n raw) as [|c cs] eqn:Ec; [unfold len in Elen; cbn in Elen; unfold REMOTE_CONTROL_SEGMENT_COUNT_MAX; lia|].
    specialize (Hfit (0, c)). unfold enumerate in Hfit. cbn [enumerate_from] in Hfit. specialize (Hfit (or_introl eq_refl)). cbn beta iota in Hfit.
    unfold serialized_chunk_len, build_chunk_envelope in Hfit. destruct (Z.ltb_spec REMOTE_CONTROL_SEGMENT_COUNT_MAX count); [done|lia]. }
  exists (map (chunk_envelope envelope raw count) (enumerate (chunks n raw))). split; [|by apply map_res_build]. split_and!; [done|by rewrite Elen|by rewrite Elen|].
  apply Forall_forall. intros e (ic & <- & Hic)%list_elem_of_In%in_map_iff. specialize (Hfit ic Hic). destruct ic as [i c]. cbn beta iota in Hfit.
  unfold serialized_chunk_len, build_chunk_envelope in Hfit. destruct (Z.ltb_spec REMOTE_CONTROL_SEGMENT_COUNT_MAX count); [lia|]. cbn [mbind res_bind] in Hfit.
  unfold chunk_envelope. cbn [fst snd]. destruct (envelope_len _) as [size| |]; [|done..]. exists size. split; [done|lia].
Qed.

(** The loop ends: the chunks get smaller from round to round. *)
Lemma split_loop_spec fuel envelope raw sc :
  raw ≠ [] -> 1 <= sc -> Z.max 1 (div_ceil (len raw) sc) <= Z.of_nat fuel ->
  exists es, split_loop fuel envelope raw sc = Some (Ok es) /\ (es = [] \/ exists n, cut envelope raw n es).
Proof.
  intros Hraw. assert (1 <= len raw) as Hlen by (destruct raw; [done|unfold len; cbn [length]; lia]).
  revert sc. induction fuel as [|fuel IH]; intros sc Hsc Hfuel; [lia|]. cbn [split_loop]. set (n := Z.max 1 (div_ceil (len raw) sc)) in *.
  assert (1 <= n) as Hn by lia. destruct (segments_fit envelope raw n (div_ceil (len raw) n)) eqn:Efit.
  - destruct (segments_fit_cut _ _ _ Hn Hraw Efit) as (es & Hcut & ->). exists es. split; [done|]. right. by exists n.
  - destruct (Z.eqb_spec n 1) as [_|Hn1]; [by exists []; auto|].
    pose proof (div_ceil_bounds (len raw) n ltac:(lia)) as Hb. pose proof (div_ceil_pos (len raw) n ltac:(lia) ltac:(lia)) as Hpos.
    set (next := div_ceil (len raw) n + 1) in *.
    assert (div_ceil (len raw) next <= n) as Hle by (apply div_ceil_le; nia).
    destruct (Z.eqb_spec (Z.max 1 (div_ceil (len raw) next)) n) as [Heq|Hne].
    + apply IH; [lia|]. assert (div_ceil (len raw) (len raw) <= 1) by (apply div_ceil_le; nia). lia.
    + apply IH; lia.
Qed.

(** What is sent for a message. *)
Inductive sent envelope : list (ServerEnvelope Payload) -> Prop :=
| sent_whole size : envelope_len envelope = Ok size -> size <= REMOTE_CONTROL_SEGMENT_MAX_BYTES -> sent envelope [envelope]
| sent_nothing : sent envelope []
| sent_cut message raw n es :
    se_event envelope = ServerMessage message -> to_vec message = Ok raw -> raw ≠ [] -> len raw <= REMOTE_CONTROL_REASSEMBLED_MAX_BYTES ->
    cut envelope raw n es -> sent envelope es
| sent_error id result err :
    se_event envelope = ServerMessage (OutResponse id result) -> envelope_len envelope = Err err ->
    sent envelope [with_event envelope (ServerMessage (response_serialization_error id err))].

Lemma split_loop_empty fuel envelope sc : split_loop (S fuel) envelope [] sc = Some (Ok []).
Proof. done. Qed.

Lemma split_sent envelope message :
  se_event envelope = ServerMessage message ->
  exists r, split_server_envelope_for_transport envelope = Some r /\ forall es, r = Ok es -> sent envelope es.
Proof.
  intros Em. unfold split_server_envelope_for_transport. rewrite Em.
  destruct (envelope_len envelope) as [size|err|] eqn:El.
  - destruct (Z.leb_spec size REMOTE_CONTROL_SEGMENT_MAX_BYTES) as [Hle|_]; [by eexists; split; [done|]; intros es [= <-]; econstructor|].
    destruct (to_vec message) as [raw|e|] eqn:Er; [|by eexists..].
    destruct (Z.ltb_spec REMOTE_CONTROL_REASSEMBLED_MAX_BYTES (len raw)) as [_|Hmax]; [by eexists; split; [done|]; intros es [= <-]; constructor|].
    destruct (serialized_chunk_len envelope 0 _ _ _) as [min|e|]; [|by eexists..].
    destruct (REMOTE_CONTROL_SEGMENT_MAX_BYTES <? min); [by eexists; split; [done|]; intros es [= <-]; constructor|].
    destruct (decide (raw = [])) as [->|Hraw]; [by eexists; split; [apply split_loop_empty|]; intros es [= <-]; constructor|].
    set (sc := Z.max 2 _). destruct (split_loop_spec (S (length raw)) envelope raw sc Hraw) as (es & -> & Hor); [unfold sc; lia| |].
    + assert (div_ceil (len raw) sc <= len raw) by (apply div_ceil_le; [unfold sc; lia|]; pose proof (len_nonneg raw); unfold sc; nia). unfold len in *. lia.
    + eexists. split; [done|]. intros es' [= <-]. destruct Hor as [->|[n Hcut]]; [constructor|]. by eapply sent_cut.
  - destruct message as [| |id result|]; [by eexists..| |by eexists]. eexists. split; [done|]. intros es [= <-]. by eapply sent_error.
  - by eexists.
Qed.
(** Cutting a message always ends, and never exceeds its limits: the envelope is sent whole
    when it fits, else as consecutive chunks of the message, at most 1024, each in an envelope
    that fits; else nothing is sent, or the error that replaces a response that can not be
    serialised. *)
Theorem split_within_limits envelope message :
  se_event envelope = ServerMessage message ->
  exists r, split_server_envelope_for_transport envelope = Some r /\ forall es, r = Ok es -> sent envelope es.
Proof. apply split_sent. Qed.
End Cut.

(** ** Putting together *)

Section Assemble.
Context {Message Payload : Type} {W : Wire Message Payload} {L : WireLaws Message Payload}.
Context (iter : gmap rstr ClientSegmentAssembly -> list (rstr * ClientSegmentAssembly)).
Context (iter_perm : forall m, iter m ≡ₚ map_to_list m).
Implicit Types (self : gmap rstr ClientSegmentAssembly) (e : ClientEnvelope Message).

Fixpoint observe_all self (l : list (Z * ClientEnvelope Message)) : list ClientSegmentObservation * gmap rstr ClientSegmentAssembly :=
  match l with
  | [] => ([], self)
  | (now, e) :: l =>
      let '(o, self) := observe iter self now e in
      let '(os, self) := observe_all self l in (o :: os, self)
  end.

(** The envelopes of a client that are passed on. *)
Definition forwarded (c : rstr) (os : list ClientSegmentObservation) : list (ClientEnvelope Message) :=
  omap (fun o => match o with Forward e => if streq (ce_client_id e) c then Some e else None | _ => None end) os.

(** The client that sends the chunks of a server envelope as its own. *)
Definition peer_envelope (cursor : option rstr) (e : ServerEnvelope Payload) : ClientEnvelope Message :=
  Build_ClientEnvelope
    match se_event e with
    | ServerMessageChunk i count size text => ClientMessageChunk i count size text
    | _ => ClientPing
    end (se_client_id e) (Some (se_stream_id e)) (Some (se_seq_id e)) cursor.

Lemma evict_not_full self : (size self < REMOTE_CONTROL_SEGMENT_ASSEMBLY_MAX_COUNT)%nat -> evict_assemblies_if_full iter self = self.
Proof.
  intros Hs. unfold evict_assemblies_if_full. destruct (size self) as [|n] eqn:E; [done|]. cbn [evict_loop]. rewrite E.
  destruct (Nat.leb_spec REMOTE_CONTROL_SEGMENT_ASSEMBLY_MAX_COUNT (S n)); [lia|done].
Qed.

(** All the clients of the map, and the one that comes, are among at most 128. *)
Definition room (clients : gset rstr) self : Prop :=
  dom self ⊆ clients /\ (size clients <= REMOTE_CONTROL_SEGMENT_ASSEMBLY_MAX_COUNT)%nat.

Lemma room_not_full clients self c :
  room clients self -> c ∈ clients -> self !! c = None -> evict_assemblies_if_full iter self = self.
Proof.
  intros [Hd Hs] Hc Hn. apply evict_not_full. rewrite <- size_dom. apply not_elem_of_dom in Hn.
  assert (size (dom self) < size clients)%nat; [|lia]. apply subset_size. set_solver.
Qed.

Lemma remove_assembly_other self c s c' : c ≠ c' -> remove_assembly self c s !! c' = self !! c'.
Proof. intros Hne. unfold remove_assembly. destruct (self !! c); [|done]. case_match; [|done]. by rewrite lookup_delete_ne. Qed.

Lemma remove_assembly_dom self c s : dom (remove_assembly self c s) ⊆ dom self.
Proof. unfold remove_assembly. destruct (self !! c); [|done]. case_match; [|done]. rewrite dom_delete. set_solver. Qed.

(** A client leaves the assemblies of the others alone while there is room. *)
Lemma observe_other clients self now e o self' :
  room clients self -> ce_client_id e ∈ clients -> observe iter self now e = (o, self') ->
  room clients self' /\ forall c, c ≠ ce_client_id e -> self' !! c = self !! c.
Proof.
  intros Hroom Hin. unfold observe. set (c' := ce_client_id e) in *.
  assert (forall s, dom s ⊆ {[c']} ∪ dom self -> room clients s) as Hkeep by (intros s Hs; split; [destruct Hroom; set_solver|apply Hroom]).
  assert (room clients self /\ forall c, c ≠ c' -> self !! c = self !! c) as Hsame by done.
  destruct (ce_event e) as [m|sid count size text|a| |]; [by intros [= _ <-]| |by intros [= _ <-]..].
  destruct (ce_seq_id e) as [q|]; [|by intros [= _ <-]]. destruct (ce_stream_id e) as [s|]; [|by intros [= _ <-]].
  destruct (should_ignore_chunk self c' s q sid); [by intros [= _ <-]|].
  destruct (_ || _); [intros [= _ <-]; split; [apply Hkeep; pose proof (remove_assembly_dom self c' s); set_solver|intros c Hne; by apply remove_assembly_other]|].
  set (md := {| cm_seq_id := q; cm_segment_count := count; cm_message_size_bytes := size |}).
  set (self1 := match self !! c' with Some _ => _ | None => _ end).
  assert (dom self1 ⊆ {[c']} ∪ dom self /\ forall c, c ≠ c' -> self1 !! c = self !! c) as [Hd1 Hl1].
  { unfold self1. destruct (self !! c') as [a|] eqn:E.
    - case_match; [|set_solver]. rewrite dom_insert. split; [done|]. intros c Hne. by rewrite lookup_insert_ne.
    - rewrite (room_not_full _ _ _ Hroom Hin E), dom_insert. split; [done|]. intros c Hne. by rewrite lookup_insert_ne. }
  destruct (self1 !! c') as [a|]; [|intros [= _ <-]; by split; [apply Hkeep|]].
  destruct (update_assembly a md sid text now) as [a' u]. set (self2 := <[c' := a']> self1).
  assert (dom self2 ⊆ {[c']} ∪ dom self /\ forall c, c ≠ c' -> self2 !! c = self !! c) as [Hd2 Hl2].
  { unfold self2. rewrite dom_insert. split; [set_solver|]. intros c Hne. rewrite lookup_insert_ne by done. by apply Hl1. }
  assert (room clients (remove_assembly self2 c' s) /\ forall c, c ≠ c' -> remove_assembly self2 c' s !! c = self !! c) as Hrm.
  { split; [apply Hkeep; pose proof (remove_assembly_dom self2 c' s); set_solver|]. intros c Hne. rewrite remove_assembly_other by done. by apply Hl2. }
  destruct u; intros [= _ <-]; [by split; [apply Hkeep|]..|done|done].
Qed.

Lemma observe_forward_client self now e o self' x :
  observe iter self now e = (o, self') -> o = Forward x -> ce_client_id x = ce_client_id e.
Proof.
  unfold observe. destruct (ce_event e); try (intros [= <- _] [= <-]; done).
  destruct (ce_seq_id e), (ce_stream_id e); try (intros [= <- _]; discriminate).
  destruct (should_ignore_chunk _ _ _ _ _); [by intros [= <- _]|]. destruct (_ || _); [by intros [= <- _]|].
  destruct (_ !! ce_client_id e); [|by intros [= <- _]]. destruct (update_assembly _ _ _ _ _) as [a' u].
  destruct u; try (by intros [= <- _]). intros [= <- _] [= <-]. done.
Qed.

(** A message in pieces, and the envelope of each piece. *)
Record piecewise (c s : rstr) (q : Z) (pieces : list (list Z)) (message : Message) (es : list (ClientEnvelope Message)) : Prop := {
  pw_nonempty : Forall (fun p => p ≠ []) pieces;
  pw_bytes : bytes (concat pieces);
  pw_count : 1 <= len pieces <= REMOTE_CONTROL_SEGMENT_COUNT_MAX;
  pw_size : len (concat pieces) <= REMOTE_CONTROL_REASSEMBLED_MAX_BYTES;
  pw_message : from_slice (concat pieces) = Some message;
  pw_length : length es = length pieces;
  pw_chunk k e p : es !! k = Some e -> pieces !! k = Some p ->
    ce_event e = ClientMessageChunk (Z.of_nat k) (len pieces) (len (concat pieces)) (base64_encode p) /\
    ce_client_id e = c /\ ce_stream_id e = Some s /\ ce_seq_id e = Some q;
}.

Section Pieces.
Context (c s : rstr) (q : Z) (pieces : list (list Z)) (message : Message) (es : list (ClientEnvelope Message)).
Context (P : piecewise c s q pieces message es).

Definition piece_metadata : ClientSegmentMetadata :=
  {| cm_seq_id := q; cm_segment_count := len pieces; cm_message_size_bytes := len (concat pieces) |}.

(** The assembly after the first pieces. *)
Definition partial (k : nat) (a : ClientSegmentAssembly) : Prop :=
  as_stream_id a = s /\ as_metadata a = piece_metadata /\ as_raw a = concat (take k pieces) /\ as_next_segment_id a = Z.of_nat k.

Definition assembled (k : nat) self : Prop :=
  if (k =? 0)%nat || (k =? length pieces)%nat then self !! c = None else exists a, self !! c = Some a /\ partial k a.

Lemma concat_take_S k p : pieces !! k = Some p -> concat (take (S k) pieces) = concat (take k pieces) ++ p.
Proof. intros Hk. rewrite (take_S_r _ _ _ Hk), concat_app. cbn. by rewrite app_nil_r. Qed.

Lemma take_len k p : pieces !! k = Some p -> len (concat (take k pieces)) + len p <= len (concat pieces).
Proof.
  intros Hk. rewrite <- (take_drop (S k) pieces) at 2. rewrite concat_app, len_app, (concat_take_S _ _ Hk), len_app.
  pose proof (len_nonneg (concat (drop (S k) pieces))). lia.
Qed.

Lemma append_piece k p a now :
  pieces !! k = Some p -> partial k a ->
  exists a', append_chunk a piece_metadata (base64_encode p) now =
    (a', if (S k <? length pieces)%nat then UpdatePending else UpdateComplete message) /\ partial (S k) a'.
Proof.
  intros Hk (Hs & Hm & Hr & Hn). pose proof (take_len _ _ Hk) as Hlen. unfold append_chunk, piece_metadata. cbn [cm_message_size_bytes cm_segment_count].
  assert (bytes p) as Hbytes.
  { pose proof (pw_bytes _ _ _ _ _ _ P) as Hb. unfold bytes in *. rewrite Forall_concat, Forall_forall in Hb. apply Hb. by eapply list_elem_of_lookup_2. }
  rewrite decode_encode; [|done|].
  - eexists. split; [apply (f_equal2 pair); [reflexivity|]|split_and!; cbn; [done..|by rewrite Hr, (concat_take_S _ _ Hk)|lia]].
    rewrite Hn, Hr. pose proof (lookup_lt_Some _ _ _ Hk) as Hlt. destruct (Nat.ltb_spec (S k) (length pieces)) as [Hlt'|Hge].
    + destruct (Z.ltb_spec (Z.of_nat k + 1) (len pieces)); [done|unfold len in *; lia].
    + destruct (Z.ltb_spec (Z.of_nat k + 1) (len pieces)); [unfold len in *; lia|].
      rewrite <- (concat_take_S _ _ Hk), take_ge by lia. rewrite Z.eqb_refl. cbn [negb]. by rewrite (pw_message _ _ _ _ _ _ P).
  - rewrite Hr. pose proof (estimate_enough p Hbytes). pose proof (pw_size _ _ _ _ _ _ P). pose proof (len_nonneg (concat (take k pieces))).
    unfold saturating_add, USIZE_MAX, REMOTE_CONTROL_REASSEMBLED_MAX_BYTES in *. lia.
Qed.

Lemma partial_zero now : partial 0 (new_assembly s piece_metadata now).
Proof. done. Qed.

(** The guards let the pieces through. *)
Lemma piece_guards k p :
  pieces !! k = Some p ->
  (len pieces =? 0) || (REMOTE_CONTROL_SEGMENT_COUNT_MAX <? len pieces) || (len pieces <=? Z.of_nat k)
  || (len (concat pieces) =? 0) || (REMOTE_CONTROL_REASSEMBLED_MAX_BYTES <? len (concat pieces)) || is_empty (base64_encode p) = false.
Proof.
  intros Hk. pose proof (pw_count _ _ _ _ _ _ P). pose proof (pw_size _ _ _ _ _ _ P). pose proof (lookup_lt_Some _ _ _ Hk) as Hlt.
  assert (p ≠ []) as Hp by (pose proof (pw_nonempty _ _ _ _ _ _ P) as Hne; rewrite Forall_forall in Hne; apply Hne; by eapply list_elem_of_lookup_2).
  pose proof (take_len _ _ Hk) as Hl. pose proof (len_nonneg (concat (take k pieces))).
  assert (0 < len p) by (destruct p; [done|unfold len; cbn; lia]).
  pose proof (proj2 (is_empty_false _) (encode_nonempty p Hp)) as ->. unfold len in *.
  rewrite !orb_false_iff, !Z.eqb_neq, !Z.ltb_ge, !Z.leb_gt. split_and!; lia || done.
Qed.

Definition forward_of (e : ClientEnvelope Message) : ClientEnvelope Message :=
  Build_ClientEnvelope (ClientMessage message) c (Some s) (Some q) (ce_cursor e).

(** The piece that is due is taken in. *)
Lemma observe_due clients self now k e :
  room clients self -> c ∈ clients -> assembled k self -> es !! k = Some e ->
  exists self', observe iter self now e = (if (S k <? length pieces)%nat then Pending else Forward (forward_of e), self') /\ assembled (S k) self'.
Proof.
  intros Hroom Hin Ha He. pose proof (lookup_lt_Some _ _ _ He) as Hlt. rewrite (pw_length _ _ _ _ _ _ P) in Hlt.
  destruct (lookup_lt_is_Some_2 pieces k Hlt) as [p Hp]. destruct (pw_chunk _ _ _ _ _ _ P k e p He Hp) as (Eev & Ec & Es & Eq).
  unfold observe. rewrite Eev, Es, Eq, Ec. cbn [mbind option_bind]. fold piece_metadata.
  assert (should_ignore_chunk self c s q (Z.of_nat k) = false) as ->.
  { unfold should_ignore_chunk. unfold assembled in Ha. destruct ((k =? 0)%nat || (k =? length pieces)%nat); [by rewrite Ha|].
    destruct Ha as (a & -> & Hs & Hm & _ & Hn). rewrite Hm, Hn. cbn [piece_metadata cm_seq_id]. rewrite Z.ltb_irrefl, Z.eqb_refl, Z.ltb_irrefl. by rewrite andb_false_r. }
  rewrite (piece_guards k p Hp). set (self1 := match self !! c with Some _ => _ | None => _ end).
  assert (exists a, self1 !! c = Some a /\ partial k a) as (a & E1 & Hpart).
  { unfold self1, assembled in *. destruct (Nat.eqb_spec k 0) as [->|Hk0]; cbn [orb] in Ha.
    - rewrite Ha. rewrite lookup_insert_eq. eexists. split; [done|]. apply partial_zero.
    - destruct (Nat.eqb_spec k (length pieces)); [lia|]. destruct Ha as (a & El & Hpart). destruct Hpart as (Hs & Hm & Hr & Hn).
      rewrite El, Hs, streq_refl. cbn [negb]. exists a. by split_and!. }
  rewrite E1. unfold update_assembly. destruct Hpart as (Hs & Hm & Hr & Hn). rewrite Hm, Hn. cbn [piece_metadata cm_seq_id].
  rewrite Z.ltb_irrefl, (bool_decide_eq_true_2 _ eq_refl), Z.ltb_irrefl, Z.eqb_refl. cbn [negb].
  destruct (append_piece k p a now Hp (conj Hs (conj Hm (conj Hr Hn)))) as (a' & -> & Hpart'). unfold assembled.
  destruct (Nat.ltb_spec (S k) (length pieces)) as [Hlt'|Hge].
  - eexists. split; [done|]. destruct (Nat.eqb_spec (S k) 0); [lia|]. cbn [orb]. destruct (Nat.eqb_spec (S k) (length pieces)); [lia|]. exists a'. split; [by rewrite lookup_insert_eq|done].
  - eexists. split; [done|]. destruct (Nat.eqb_spec (S k) 0); [lia|]. cbn [orb]. destruct (Nat.eqb_spec (S k) (length pieces)); [|lia].
    unfold remove_assembly. rewrite lookup_insert_eq. destruct Hpart' as (-> & _). rewrite streq_refl. by rewrite lookup_delete_eq.
Qed.

(** A piece that was taken in already is dropped. *)
Lemma observe_again self now j k e :
  assembled k self -> (j < k < length pieces)%nat -> es !! j = Some e -> observe iter self now e = (Dropped, self).
Proof.
  intros Ha Hjk He. destruct (lookup_lt_is_Some_2 pieces j ltac:(lia)) as [p Hp].
  destruct (pw_chunk _ _ _ _ _ _ P j e p He Hp) as (Eev & Ec & Es & Eq). unfold observe. rewrite Eev, Es, Eq, Ec.
  unfold assembled in Ha. destruct (Nat.eqb_spec k 0); [lia|]. destruct (Nat.eqb_spec k (length pieces)); [lia|]. cbn [orb] in Ha.
  destruct Ha as (a & Hl & Hs & Hm & _ & Hn). unfold should_ignore_chunk. rewrite Hl, Hs, Hm, Hn, streq_refl. cbn [piece_metadata cm_seq_id].
  rewrite Z.eqb_refl. destruct (Z.ltb_spec (Z.of_nat j) (Z.of_nat k)); [|lia]. by rewrite orb_true_r.
Qed.

(** Arrivals: from a number of pieces that have come to the number after them, each in its
    turn, with pieces that came before and envelopes of other clients in between. *)
Inductive arrives (clients : gset rstr) : nat -> list (Z * ClientEnvelope Message) -> nat -> Prop :=
| arrives_done k : arrives clients k [] k
| arrives_due k m now e l : es !! k = Some e -> arrives clients (S k) l m -> arrives clients k ((now, e) :: l) m
| arrives_again j k m now e l :
    es !! j = Some e -> (j < k < length es)%nat -> arrives clients k l m -> arrives clients k ((now, e) :: l) m
| arrives_other k m now e l :
    ce_client_id e ≠ c -> ce_client_id e ∈ clients -> arrives clients k l m -> arrives clients k ((now, e) :: l) m.

Lemma arrives_forwarded clients k l m self last :
  arrives clients k l m -> room clients self -> c ∈ clients -> assembled k self -> (k <= length es)%nat -> es !! (length es - 1)%nat = Some last ->
  forwarded c (observe_all self l).1 = (if (k <? length es)%nat && (length es <=? m)%nat then [forward_of last] else []) /\
  assembled m (observe_all self l).2.
Proof.
  intros Harr. revert self. pose proof (pw_length _ _ _ _ _ _ P) as Hlen.
  induction Harr as [k|k m now e l He Harr IH|j k m now e l He Hjk Harr IH|k m now e l Hne Hin Harr IH]; intros self Hroom Hcin Ha Hk Hlast; cbn [observe_all].
  - destruct (Nat.ltb_spec k (length es)), (Nat.leb_spec (length es) k); lia || done.
  - pose proof (lookup_lt_Some _ _ _ He) as Hlt. destruct (observe_due clients self now k e Hroom Hcin Ha He) as (self' & Eo & Ha').
    assert (room clients self') as Hroom' by (eapply observe_other; [exact Hroom| |exact Eo]; destruct (lookup_lt_is_Some_2 pieces k ltac:(lia)) as [p Hp];
      by rewrite (proj1 (proj2 (pw_chunk _ _ _ _ _ _ P k e p He Hp)))).
    rewrite Eo. specialize (IH self' Hroom' Hcin Ha' ltac:(lia) Hlast). destruct (observe_all self' l) as [os self'']. cbn [fst snd] in *. destruct IH as [IHf IHa]. split; [|done].
    destruct (Nat.ltb_spec k (length es)); [|lia]. rewrite Hlen in *. destruct (Nat.ltb_spec (S k) (length pieces)) as [Hlt'|Hge]; cbn [andb forwarded omap list_omap].
    + exact IHf.
    + cbn [forward_of ce_client_id]. rewrite streq_refl. assert (length pieces - 1 = k)%nat as E by lia. rewrite E, He in Hlast. injection Hlast as ->.
      assert (length pieces <= m)%nat as Hm by (assert (S k <= m)%nat by (clear -Harr; induction Harr; lia); lia).
      destruct (Nat.leb_spec (length pieces) m); [|lia]. f_equal. exact IHf.
  - rewrite (observe_again self now j k e Ha ltac:(lia) He). specialize (IH self Hroom Hcin Ha Hk Hlast). by destruct (observe_all self l) as [os self''].
  - destruct (observe iter self now e) as [o self'] eqn:Eo. destruct (observe_other clients self now e o self' Hroom Hin Eo) as [Hroom' Hsame].
    assert (assembled k self') as Ha' by (unfold assembled in *; by rewrite Hsame by done).
    specialize (IH self' Hroom' Hcin Ha' Hk Hlast). destruct (observe_all self' l) as [os self'']. cbn [fst snd] in *. destruct IH as [IHf IHa]. split; [|done].
    rewrite <- IHf. unfold forwarded. cbn [omap list_omap]. destruct o as [x| |]; [|done..].
    rewrite (proj2 (streq_false _ _)); [done|]. by rewrite (observe_forward_client _ _ _ _ _ _ Eo eq_refl).
Qed.
End Pieces.

Lemma cut_piecewise envelope raw n ses message (cursor : nat -> option rstr) :
  cut envelope raw n ses -> raw ≠ [] -> bytes raw -> len raw <= REMOTE_CONTROL_REASSEMBLED_MAX_BYTES -> from_slice raw = Some message ->
  piecewise (se_client_id envelope) (se_stream_id envelope) (se_seq_id envelope) (chunks n raw) message
    (imap (fun k => peer_envelope (cursor k)) ses).
Proof.
  intros (Hn & Eses & Hcount & _) Hraw Hb Hmax Hmsg. split.
  - apply chunks_fuel_nonempty. lia.
  - by rewrite chunks_concat.
  - rewrite chunks_length in * by done. split; [|done]. apply div_ceil_pos; [destruct raw; [done|unfold len; cbn; lia]|lia].
  - by rewrite chunks_concat.
  - by rewrite chunks_concat.
  - rewrite length_imap, Eses, length_map. apply enumerate_from_length.
  - intros k e p He Hp. rewrite list_lookup_imap, Eses, list_lookup_fmap, enumerate_lookup, Hp in He. cbn in He. injection He as <-.
    cbn. by rewrite chunks_concat.
Qed.

(** C33. A message that is cut is put together again. When the chunks come in their order, with
    repetitions of earlier ones until the last one comes and with whatever other clients send
    in between, and no more than 128 clients are involved, the message is passed on once, when
    its last chunk comes, and nothing of it stays behind. A chunk that is repeated after the
    last one starts a new assembly, and with more clients an assembly may be evicted. *)
Theorem split_reassembled (envelope : ServerEnvelope Payload) outgoing raw (message : Message) ses (cursor : nat -> option rstr) clients self l :
  se_event envelope = ServerMessage outgoing -> to_vec outgoing = Ok raw -> from_slice raw = Some message ->
  split_server_envelope_for_transport envelope = Some (Ok ses) -> ses ≠ [] -> Forall (fun x => is_Some (event_segment_id (se_event x))) ses ->
  room clients self -> se_client_id envelope ∈ clients -> self !! se_client_id envelope = None ->
  let es := imap (fun k => peer_envelope (cursor k)) ses in
  arrives (se_client_id envelope) es clients 0 l (length es) ->
  exists last, es !! (length es - 1)%nat = Some last /\
    forwarded (se_client_id envelope) (observe_all self l).1 =
      [forward_of (se_client_id envelope) (se_stream_id envelope) (se_seq_id envelope) message last] /\
    (observe_all self l).2 !! se_client_id envelope = None.
Proof.
  intros Em Er Hmsg Hsplit Hne Hchunks Hroom Hin Hnone es Harr.
  destruct (split_sent envelope outgoing Em) as (r & Er' & Hsent). rewrite Er' in Hsplit. injection Hsplit as ->. specialize (Hsent ses eq_refl).
  assert (exists n, cut envelope raw n ses /\ raw ≠ [] /\ len raw <= REMOTE_CONTROL_REASSEMBLED_MAX_BYTES) as (n & Hcut & Hraw & Hmax).
  { destruct Hsent as [size _ _| |message' raw' n es' Em' Er2 Hraw Hmax Hcut|id result err Em' _].
    - rewrite Forall_singleton, Em in Hchunks. by destruct Hchunks.
    - done.
    - rewrite Em in Em'. injection Em' as <-. rewrite Er in Er2. injection Er2 as <-. eauto.
    - rewrite Forall_singleton in Hchunks. by destruct Hchunks. }
  pose proof (cut_piecewise _ _ _ _ _ cursor Hcut Hraw (to_vec_bytes _ _ Er) Hmax Hmsg) as P.
  assert (length es ≠ 0)%nat as Hl by (unfold es; rewrite length_imap; by destruct ses).
  destruct (lookup_lt_is_Some_2 es (length es - 1)%nat ltac:(lia)) as [last Hlast]. exists last. split; [done|].
  destruct (arrives_forwarded _ _ _ _ _ _ P clients 0 l (length es) self last Harr Hroom Hin) as [Ef Ea]; [exact Hnone|lia|exact Hlast|].
  fold es in Ef. rewrite Nat.leb_refl in Ef. destruct (Nat.ltb_spec 0 (length es)); [|lia]. split; [exact Ef|]. unfold assembled in Ea.
  rewrite <- (pw_length _ _ _ _ _ _ P) in Ea. fold es in Ea. by rewrite Nat.eqb_refl, orb_true_r in Ea.
Qed.

(** ** Memory *)

Definition assembly_ok (a : ClientSegmentAssembly) : Prop :=
  0 <= as_next_segment_id a < cm_segment_count (as_metadata a) /\ cm_segment_count (as_metadata a) <= REMOTE_CONTROL_SEGMENT_COUNT_MAX /\
  len (as_raw a) <= cm_message_size_bytes (as_metadata a) <= REMOTE_CONTROL_REASSEMBLED_MAX_BYTES.

Definition reassembler_ok self : Prop :=
  (size self <= REMOTE_CONTROL_SEGMENT_ASSEMBLY_MAX_COUNT)%nat /\ map_Forall (fun _ a => assembly_ok a) self.

(** The numbers of an envelope are unsigned. *)
Definition envelope_unsigned e : Prop :=
  match ce_event e with ClientMessageChunk i count size _ => 0 <= i /\ 0 <= count /\ 0 <= size | _ => True end.

Lemma min_by_seen_elem l : l ≠ [] -> exists x, min_by_seen l = Some x /\ x ∈ l.
Proof.
  induction l as [|x l IH]; [done|]. intros _. cbn [min_by_seen]. destruct l as [|y l]; [exists x; split; [done|left]|].
  destruct IH as (z & -> & Hz); [done|]. case_match; eexists; (split; [done|]); set_solver.
Qed.

Lemma evict_loop_spec fuel self :
  (size self <= fuel)%nat ->
  (size (evict_loop iter fuel self) < REMOTE_CONTROL_SEGMENT_ASSEMBLY_MAX_COUNT)%nat /\ evict_loop iter fuel self ⊆ self.
Proof.
  revert self. induction fuel as [|fuel IH]; intros self Hs; cbn [evict_loop].
  - split; [unfold REMOTE_CONTROL_SEGMENT_ASSEMBLY_MAX_COUNT; lia|done].
  - destruct (Nat.leb_spec REMOTE_CONTROL_SEGMENT_ASSEMBLY_MAX_COUNT (size self)) as [Hfull|Hroom]; [|by split].
    destruct (min_by_seen_elem (iter self)) as ([c a] & -> & Hin).
    { intros E. pose proof (iter_perm self) as Hp. rewrite E in Hp. apply Permutation_nil in Hp. apply map_to_list_empty_iff in Hp as ->.
      rewrite map_size_empty in Hfull. unfold REMOTE_CONTROL_SEGMENT_ASSEMBLY_MAX_COUNT in Hfull. lia. }
    rewrite iter_perm in Hin. apply elem_of_map_to_list in Hin.
    assert (size (delete c self) = pred (size self)) as Hsz by (apply map_size_delete_Some; eauto).
    destruct (IH (delete c self)) as [H1 H2]; [lia|]. split; [done|]. etrans; [exact H2|]. apply delete_subseteq.
Qed.

Lemma evict_ok self :
  (size (evict_assemblies_if_full iter self) < REMOTE_CONTROL_SEGMENT_ASSEMBLY_MAX_COUNT)%nat /\ evict_assemblies_if_full iter self ⊆ self.
Proof. by apply evict_loop_spec. Qed.

Lemma reassembler_ok_sub self self' : self' ⊆ self -> reassembler_ok self -> reassembler_ok self'.
Proof.
  intros Hsub [Hs Ha]. split; [etrans; [by apply map_subseteq_size|done]|]. intros c a Hc. apply (Ha c). by eapply lookup_weaken.
Qed.

Lemma remove_assembly_sub self c s : remove_assembly self c s ⊆ self.
Proof. unfold remove_assembly. destruct (self !! c); [|done]. case_match; [apply delete_subseteq|done]. Qed.

Lemma insert_existing_ok self c a : is_Some (self !! c) -> reassembler_ok self -> assembly_ok a -> reassembler_ok (<[c := a]> self).
Proof.
  intros Hc [Hs Ha] Hok. split; [by rewrite map_size_insert_Some|]. by apply map_Forall_insert_2.
Qed.

Lemma new_assembly_ok s md now :
  0 < cm_segment_count md <= REMOTE_CONTROL_SEGMENT_COUNT_MAX -> 0 <= cm_message_size_bytes md <= REMOTE_CONTROL_REASSEMBLED_MAX_BYTES ->
  assembly_ok (new_assembly s md now).
Proof. intros Hc Hz. unfold assembly_ok, len. cbn. lia. Qed.

(** What an update does to an assembly, and which assemblies it keeps. *)
Lemma update_assembly_ok a md sid text now a' (u : AssemblyUpdate) :
  assembly_ok a -> update_assembly a md sid text now = (a', u) ->
  as_stream_id a' = as_stream_id a /\ (u = UpdatePending \/ u = UpdateIgnore -> assembly_ok a').
Proof.
  intros (Hn & Hcnt & Hraw & Hmax). assert (assembly_ok a) as Hok by done. unfold update_assembly.
  destruct (cm_seq_id md <? _); [by intros [= <- <-]|]. destruct (bool_decide (as_metadata a = md)) eqn:Em; cbn [negb]; [|intros [= <- <-]; split; [done|]; by intros [|]].
  apply bool_decide_eq_true in Em. destruct (sid <? _); [by intros [= <- <-]|]. destruct (sid =? _); cbn [negb]; [|intros [= <- <-]; split; [done|]; by intros [|]].
  unfold append_chunk. set (cap := Z.min _ _ - _). destruct (decode_slice text cap) as [b| |] eqn:Ed; [|intros [= <- <-]; split; [done|]; by intros [|]..].
  intros [= <- <-]. cbn [as_stream_id]. split; [done|]. pose proof (len_nonneg (as_raw a)) as Hl. pose proof (estimate_nonneg (len text)) as He.
  assert (0 <= cap) as Hcap by (unfold cap, saturating_add, USIZE_MAX, REMOTE_CONTROL_REASSEMBLED_MAX_BYTES in *; subst md; lia).
  pose proof (decode_bounded _ _ _ Hcap Ed) as Hb. assert (len (as_raw a ++ b) <= cm_message_size_bytes (as_metadata a)).
  { rewrite len_app. unfold cap in Hb. subst md. lia. }
  destruct (Z.ltb_spec (as_next_segment_id a + 1) (cm_segment_count md)) as [Hlt|_].
  - intros _. unfold assembly_ok. cbn. subst md. lia.
  - case_match; [by intros [|]|]. case_match; by intros [|].
Qed.

(** Whatever clients send, there are never more than 128 incomplete messages, none of more
    bytes than it announced, which is at most 100 MiB, in at most 1024 segments. *)
Theorem reassembler_bounded l :
  Forall (fun x => envelope_unsigned x.2) l -> reassembler_ok (observe_all ∅ l).2.
Proof.
  assert (reassembler_ok ∅) as H0 by (split; [rewrite map_size_empty; lia|apply map_Forall_empty]).
  revert H0. generalize (∅ : gmap rstr ClientSegmentAssembly). induction l as [|[now e] l IH]; intros self Hok; [done|].
  intros [Hu Hl]%Forall_cons. cbn [snd] in Hu. cbn [observe_all]. destruct (observe iter self now e) as [o self'] eqn:Eo.
  assert (reassembler_ok self') as Hok'; [|specialize (IH self' Hok' Hl); by destruct (observe_all self' l)].
  clear IH Hl l. unfold observe in Eo. unfold envelope_unsigned in Hu. destruct (ce_event e) as [m|sid count sz text|ack| |]; [by simplify_eq| |by simplify_eq..].
  destruct (ce_seq_id e) as [q|]; [|by simplify_eq]. destruct (ce_stream_id e) as [s|]; [|by simplify_eq]. set (c := ce_client_id e) in *.
  destruct (should_ignore_chunk self c s q sid); [by simplify_eq|].
  destruct (_ || _) eqn:Eg in Eo; [simplify_eq; eapply reassembler_ok_sub; [apply remove_assembly_sub|done]|].
  rewrite !orb_false_iff, !Z.eqb_neq, !Z.ltb_ge, !Z.leb_gt in Eg. destruct Eg as [[[[[Eg1 Eg2] Eg3] Eg4] Eg5] _].
  set (md := {| cm_seq_id := q; cm_segment_count := count; cm_message_size_bytes := sz |}) in *.
  assert (assembly_ok (new_assembly s md now)) as Hnew by (apply new_assembly_ok; cbn; lia).
  set (self1 := match self !! c with Some _ => _ | None => _ end) in Eo.
  assert (reassembler_ok self1 /\ exists a, self1 !! c = Some a /\ as_stream_id a = s) as (Hok1 & a & E1 & Es).
  { unfold self1. destruct (self !! c) as [a|] eqn:E.
    - destruct (streq (as_stream_id a) s) eqn:Es; cbn [negb]; [apply streq_true in Es; by split; [|exists a]|].
      split; [apply insert_existing_ok; eauto|]. eexists. by rewrite lookup_insert_eq.
    - destruct (evict_ok self) as [Hlt Hsub]. split; [|eexists; by rewrite lookup_insert_eq].
      destruct (reassembler_ok_sub _ _ Hsub Hok) as [_ Hall]. split; [|by apply map_Forall_insert_2].
      rewrite map_size_insert_None; [lia|]. eapply lookup_weaken_None; eauto. }
  rewrite E1 in Eo. destruct (update_assembly a md sid text now) as [a' u] eqn:Eu.
  assert (assembly_ok a) as Hoka by (apply Hok1 in E1; done). destruct (update_assembly_ok _ _ _ _ _ _ _ Hoka Eu) as [Es' Hkeep].
  assert (reassembler_ok (remove_assembly (<[c := a']> self1) c s)) as Hrm.
  { unfold remove_assembly. rewrite lookup_insert_eq, Es', Es, streq_refl, delete_insert_eq. eapply reassembler_ok_sub; [apply delete_subseteq|done]. }
  destruct u; simplify_eq; [apply insert_existing_ok; eauto..|done|done].
Qed.

(** ** A newer message after an incomplete one *)

(** A chunk that is not the first does not start an assembly. *)
Lemma observe_late c s q pieces (message : Message) es clients self now k e :
  piecewise c s q pieces message es -> room clients self -> c ∈ clients -> self !! c = None -> (0 < k)%nat -> es !! k = Some e ->
  exists self', observe iter self now e = (Dropped, self') /\ self' !! c = None.
Proof.
  intros P Hroom Hin Hn Hk He. pose proof (lookup_lt_Some _ _ _ He) as Hlt. rewrite (pw_length _ _ _ _ _ _ P) in Hlt.
  destruct (lookup_lt_is_Some_2 pieces k Hlt) as [p Hp]. destruct (pw_chunk _ _ _ _ _ _ P k e p He Hp) as (Eev & Ec & Es & Eq).
  unfold observe. rewrite Eev, Es, Eq, Ec. unfold should_ignore_chunk. rewrite Hn, (piece_guards _ _ _ _ _ _ P k p Hp).
  rewrite (room_not_full _ _ _ Hroom Hin Hn), lookup_insert_eq. unfold update_assembly. cbn [new_assembly as_metadata as_next_segment_id cm_seq_id].
  rewrite Z.ltb_irrefl, (bool_decide_eq_true_2 _ eq_refl). cbn [negb]. destruct (Z.ltb_spec (Z.of_nat k) 0); [lia|]. destruct (Z.eqb_spec (Z.of_nat k) 0); [lia|].
  cbn [negb]. eexists. split; [done|]. unfold remove_assembly. rewrite lookup_insert_eq. cbn [new_assembly as_stream_id]. rewrite streq_refl. by rewrite lookup_delete_eq.
Qed.

(** The first chunk of a newer message removes the incomplete one. *)
Lemma observe_newer c s q pieces (message : Message) es self now e old :
  piecewise c s q pieces message es -> self !! c = Some old -> as_stream_id old = s -> cm_seq_id (as_metadata old) < q -> es !! 0%nat = Some e ->
  exists self', observe iter self now e = (Dropped, self') /\ self' !! c = None.
Proof.
  intros P Hold Hs Hq He. pose proof (lookup_lt_Some _ _ _ He) as Hlt. rewrite (pw_length _ _ _ _ _ _ P) in Hlt.
  destruct (lookup_lt_is_Some_2 pieces 0 Hlt) as [p Hp]. destruct (pw_chunk _ _ _ _ _ _ P 0 e p He Hp) as (Eev & Ec & Es & Eq).
  unfold observe. rewrite Eev, Es, Eq, Ec. unfold should_ignore_chunk. rewrite Hold, Hs, streq_refl.
  destruct (Z.ltb_spec q (cm_seq_id (as_metadata old))); [lia|]. destruct (Z.eqb_spec q (cm_seq_id (as_metadata old))); [lia|]. cbn [andb orb negb].
  rewrite (piece_guards _ _ _ _ _ _ P 0 p Hp), Hold. unfold update_assembly. cbn [cm_seq_id]. destruct (Z.ltb_spec q (cm_seq_id (as_metadata old))); [lia|].
  rewrite bool_decide_eq_false_2; [|intros E; rewrite E in Hq; cbn in Hq; lia]. cbn [negb]. eexists. split; [done|].
  unfold remove_assembly. rewrite lookup_insert_eq, Hs, streq_refl. by rewrite lookup_delete_eq.
Qed.

(** When a message stays incomplete, the next message of the stream that comes in chunks is
    lost: its first chunk removes the old assembly without starting one, and no later chunk
    starts one either. *)
Theorem newer_message_lost clients self c s q pieces (message : Message) es old times :
  piecewise c s q pieces message es -> room clients self -> c ∈ clients -> length times = length es ->
  self !! c = Some old -> as_stream_id old = s -> cm_seq_id (as_metadata old) < q ->
  (observe_all self (zip times es)).1 = map (fun _ => Dropped) es.
Proof.
  intros P Hroom Hin Hlen Hold Hs Hq.
  assert (forall l ts self k, room clients self -> (0 < k)%nat -> self !! c = None -> drop k es = l -> length ts = length l ->
    (observe_all self (zip ts l)).1 = map (fun _ => Dropped) l) as Hlate.
  { induction l as [|e l IH]; intros ts self0 k Hr Hk Hn Hd Hts; [by destruct ts|]. destruct ts as [|t ts]; [done|]. cbn [zip zip_with observe_all map].
    assert (es !! k = Some e) as He by (rewrite <- (Nat.add_0_r k), <- lookup_drop, Hd; done).
    destruct (observe_late _ _ _ _ _ _ clients self0 t k e P Hr Hin Hn Hk He) as (self' & Eo & Hn'). rewrite Eo.
    assert (room clients self') as Hr'.
    { pose proof (lookup_lt_Some _ _ _ He) as Hlt. rewrite (pw_length _ _ _ _ _ _ P) in Hlt. destruct (lookup_lt_is_Some_2 pieces k Hlt) as [p Hp].
      eapply observe_other; [exact Hr| |exact Eo]. by rewrite (proj1 (proj2 (pw_chunk _ _ _ _ _ _ P k e p He Hp))). }
    specialize (IH ts self' (S k) Hr' ltac:(lia) Hn'). rewrite <- IH; [by destruct (observe_all self' (zip ts l))| |by injection Hts].
    replace (S k) with (k + 1)%nat by lia. by rewrite <- drop_drop, Hd. }
  destruct es as [|e es'] eqn:Ees; [by destruct times|]. destruct times as [|t times]; [done|]. rewrite <- Ees in *. rewrite Ees. cbn [zip zip_with observe_all map].
  assert (es !! 0%nat = Some e) as He by by rewrite Ees. destruct (observe_newer _ _ _ _ _ _ self t e old P Hold Hs Hq He) as (self' & Eo & Hn'). rewrite Eo.
  assert (room clients self') as Hr'.
  { pose proof (lookup_lt_Some _ _ _ He) as Hlt. rewrite (pw_length _ _ _ _ _ _ P) in Hlt. destruct (lookup_lt_is_Some_2 pieces 0 Hlt) as [p Hp].
    eapply observe_other; [exact Hroom| |exact Eo]. by rewrite (proj1 (proj2 (pw_chunk _ _ _ _ _ _ P 0 e p He Hp))). }
  specialize (Hlate es' times self' 1%nat Hr' ltac:(lia) Hn'). rewrite <- Hlate; [by destruct (observe_all self' (zip times es'))|by rewrite Ees|].
  rewrite Ees in Hlen. by injection Hlen.
Qed.
End Assemble.

(** ** A small wire *)

(** Bytes are their own JSON and base64, and every byte of a message counts for 60000. *)
Definition toy_to_vec (m : OutgoingMessage (list Z)) : res rstr (list Z) :=
  match m with
  | OutRequest p | OutNotification p | OutResponse _ p => if forallb (fun b => (0 <=? b) && (b <? 256)) p then Ok p else Err (lit "not bytes")
  | OutError _ _ _ => Ok []
  end.

Definition toy_envelope_len (e : ServerEnvelope (list Z)) : res rstr Z :=
  match se_event e with
  | ServerMessage m => p ← toy_to_vec m; Ok (100 + 60000 * len p)
  | ServerMessageChunk _ _ _ t => Ok (100 + 60000 * len t)
  | _ => Ok 100
  end.

#[local] Instance toy_wire : Wire (list Z) (list Z) := {|
  to_vec := toy_to_vec;
  from_slice := Some;
  envelope_len := toy_envelope_len;
  base64_encode := fun b => b;
  decode_slice := fun t cap => if len t <=? cap then Decoded t else OutputSliceTooSmall;
  decoded_len_estimate := Z.max 0;
|}.

#[local] Instance toy_laws : WireLaws (list Z) (list Z).
Proof.
  split; cbn.
  - intros c cap _ Hc. by destruct (Z.leb_spec (len c) cap); [|lia].
  - intros t cap c _. destruct (Z.leb_spec (len t) cap); [by intros [= <-]|done].
  - lia.
  - lia.
  - done.
  - intros m raw E. assert (forallb (fun b => (0 <=? b) && (b <? 256)) raw = true) as Hb.
    { destruct m; cbn in E; [case_match; simplify_eq; done..|by injection E as <-]. }
    apply Forall_forall. intros b Hin. rewrite forallb_forall in Hb. apply list_elem_of_In, Hb in Hin. lia.
Qed.

Definition toy_message : list Z := [7; 8; 9; 10; 11].

Definition toy_envelope (client : rstr) : ServerEnvelope (list Z) :=
  Build_ServerEnvelope (ServerMessage (OutNotification toy_message)) client (lit "s") 4.

Definition toy_chunk (client : rstr) (q i : Z) (text : list Z) : ClientEnvelope (list Z) :=
  Build_ClientEnvelope (ClientMessageChunk i 3 5 text) client (Some (lit "s")) (Some q) None.

Definition toy_chunks (client : rstr) (q : Z) : list (ClientEnvelope (list Z)) :=
  [toy_chunk client q 0 [7; 8]; toy_chunk client q 1 [9; 10]; toy_chunk client q 2 [11]].

Lemma split_within_limits_witness :
  exists r, split_server_envelope_for_transport (toy_envelope (lit "a")) = Some r /\ exists es, r = Ok es /\ length es = 3%nat.
Proof.
  destruct (split_within_limits (toy_envelope (lit "a")) (OutNotification toy_message) eq_refl) as (r & E & H).
  exists r. split; [exact E|]. assert (split_server_envelope_for_transport (toy_envelope (lit "a")) =
    Some (Ok (map (fun '(i, t) => Build_ServerEnvelope (ServerMessageChunk i 3 5 t) (lit "a") (lit "s") 4) [(0, [7; 8]); (1, [9; 10]); (2, [11])]))) as E' by by vm_compute.
  rewrite E in E'. injection E' as ->. eexists. split; reflexivity.
Defined.

Lemma split_reassembled_witness :
  let l := [(1, toy_chunk (lit "a") 4 0 [7; 8]); (2, toy_chunk (lit "b") 9 0 [1; 2]); (3, toy_chunk (lit "a") 4 1 [9; 10]);
            (4, toy_chunk (lit "a") 4 0 [7; 8]); (5, toy_chunk (lit "a") 4 2 [11])] in
  forwarded (lit "a") (observe_all map_to_list ∅ l).1 = [Build_ClientEnvelope (ClientMessage toy_message) (lit "a") (Some (lit "s")) (Some 4) None].
Proof.
  intros l.
  pose (ses := map (fun '(i, t) => Build_ServerEnvelope (Payload := list Z) (ServerMessageChunk i 3 5 t) (lit "a") (lit "s") 4) [(0, [7; 8]); (1, [9; 10]); (2, [11])]).
  destruct (split_reassembled map_to_list (fun m => Permutation_refl _) (toy_envelope (lit "a")) (OutNotification toy_message) toy_message toy_message ses
    (fun _ => None) {[lit "a"; lit "b"]} ∅ l) as (last & El & Hf & _).
  - done.
  - by vm_compute.
  - done.
  - by vm_compute.
  - done.
  - repeat constructor; cbn; eauto.
  - split; [set_solver|]. vm_compute. lia.
  - set_solver.
  - done.
  - apply arrives_due; [done|]. apply arrives_other; [done|set_solver|]. apply arrives_due; [done|].
    apply (arrives_again _ _ _ 0); [done|cbn; lia|]. apply arrives_due; [done|]. apply arrives_done.
  - vm_compute in El. injection El as <-. exact Hf.
Defined.

Lemma reassembler_bounded_witness :
  reassembler_ok (observe_all map_to_list (∅ : gmap rstr ClientSegmentAssembly) (map (pair 1) (toy_chunks (lit "a") 4))).2.
Proof. apply (reassembler_bounded map_to_list (fun m => Permutation_refl _)). repeat constructor; cbn; lia. Defined.

Lemma newer_message_lost_witness :
  let old := Build_ClientSegmentAssembly (lit "s") (Build_ClientSegmentMetadata 3 3 5) [1; 2] 1 0 in
  (observe_all map_to_list {[lit "a" := old]} (zip [1; 2; 3] (toy_chunks (lit "a") 4))).1 = [Dropped; Dropped; Dropped].
Proof.
  intros old. apply (newer_message_lost map_to_list (fun m => Permutation_refl _) {[lit "a"]} _ (lit "a") (lit "s") 4 [[7; 8]; [9; 10]; [11]] toy_message (toy_chunks (lit "a") 4) old).
  - split; try done.
    + repeat constructor; done.
    + repeat constructor; lia.
    + intros [|[|[|k]]] e p He Hp; cbn in He, Hp; simplify_eq; done.
  - split; [set_solver|]. vm_compute. lia.
  - set_solver.
  - done.
  - done.
  - done.
  - done.
Defined.
