(* ===== verification/RemoteControl.v ===== *)
(** * The remote-control connection

    Models the state of [workx-rs/app-server-transport/src/transport/remote_control]:
    of [websocket.rs] the buffer of envelopes that are not acknowledged, the state of a
    connection and the steps of its writer and its reader, and [client_tracker.rs], which
    turns the messages of clients into connections of the application server. What is sent
    to other tasks is a log; whether a send succeeds, the time and random identifiers are
    arguments. *)
From stdpp Require Import gmap.
From S2P Require Import Prelude Width RemoteSegment.

Set Default Goal Selector "!".
Open Scope Z_scope.

Section RemoteControl.
Context {Message Payload : Type} `{Wire Message Payload}.
Context (iter : gmap rstr ClientSegmentAssembly -> list (rstr * ClientSegmentAssembly)).
Abbreviation StreamKey := (rstr * rstr)%type (only parsing).

(** ** Envelopes that are not acknowledged *)

Record BoundedOutboundBuffer := { ob_buffer_by_stream : gmap StreamKey (list (ServerEnvelope Payload)); ob_used : Z }.

Definition buffer_new : BoundedOutboundBuffer := {| ob_buffer_by_stream := ∅; ob_used := 0 |}.

Definition envelope_key (e : ServerEnvelope Payload) : StreamKey := (se_client_id e, se_stream_id e).

Definition buffer_insert (self : BoundedOutboundBuffer) (e : ServerEnvelope Payload) : BoundedOutboundBuffer :=
  {| ob_buffer_by_stream := <[envelope_key e := default [] (ob_buffer_by_stream self !! envelope_key e) ++ [e]]> (ob_buffer_by_stream self);
     ob_used := ob_used self + 1 |}.

(** Lexicographic order of cursors. *)
Definition cursor_leb (a b : Z * Z) : bool := (a.1 <? b.1) || ((a.1 =? b.1) && (a.2 <=? b.2)).

Definition envelope_cursor (e : ServerEnvelope Payload) : Z * Z := (se_seq_id e, default 0 (event_segment_id (se_event e))).

(** [used - 1], which panics at zero. *)
Fixpoint retain_unacked (acked : Z * Z) (used : Z) (l : list (ServerEnvelope Payload)) : res unit (Z * list (ServerEnvelope Payload)) :=
  match l with
  | [] => Ok (used, [])
  | e :: l =>
      if cursor_leb (envelope_cursor e) acked then
        if used <=? 0 then Panic else retain_unacked acked (used - 1) l
      else '(used, kept) ← retain_unacked acked used l; Ok (used, e :: kept)
  end.

Definition buffer_ack (self : BoundedOutboundBuffer) (client_id stream_id : rstr) (acked_seq_id : Z) (acked_segment_id : option Z)
    : res unit BoundedOutboundBuffer :=
  let key := (client_id, stream_id) in
  match ob_buffer_by_stream self !! key with
  | None => Ok self
  | Some buffer =>
      '(used, kept) ← retain_unacked (acked_seq_id, default USIZE_MAX acked_segment_id) (ob_used self) buffer;
      Ok {| ob_buffer_by_stream := if is_empty kept then delete key (ob_buffer_by_stream self)
                                   else <[key := kept]> (ob_buffer_by_stream self);
            ob_used := used |}
  end.

(** What is sent again on a new connection, in some order of the streams. *)
Definition server_envelopes (self : BoundedOutboundBuffer) : list (ServerEnvelope Payload) :=
  concat (map snd (map_to_list (ob_buffer_by_stream self))).

(** ** The state of a connection *)

Record WebsocketState := {
  ws_outbound_buffer : BoundedOutboundBuffer;
  ws_subscribe_cursor : option rstr;
  ws_next_seq_id_by_stream : gmap StreamKey Z;
  ws_last_completed : gmap (rstr * option rstr) Z;
  ws_reassembler : gmap rstr ClientSegmentAssembly;
}.

Definition with_reassembler (self : WebsocketState) (r : gmap rstr ClientSegmentAssembly) : WebsocketState :=
  {| ws_outbound_buffer := ws_outbound_buffer self; ws_subscribe_cursor := ws_subscribe_cursor self;
     ws_next_seq_id_by_stream := ws_next_seq_id_by_stream self; ws_last_completed := ws_last_completed self; ws_reassembler := r |}.

Definition with_last_completed (self : WebsocketState) (m : gmap (rstr * option rstr) Z) : WebsocketState :=
  {| ws_outbound_buffer := ws_outbound_buffer self; ws_subscribe_cursor := ws_subscribe_cursor self;
     ws_next_seq_id_by_stream := ws_next_seq_id_by_stream self; ws_last_completed := m; ws_reassembler := ws_reassembler self |}.

Definition client_message_key (e : ClientEnvelope Message) : option ((rstr * option rstr) * Z) :=
  match ce_event e, ce_seq_id e with
  | ClientMessageChunk _ _ _ _, Some seq_id => Some ((ce_client_id e, ce_stream_id e), seq_id)
  | _, _ => None
  end.

Definition completed_before (self : WebsocketState) (key : option ((rstr * option rstr) * Z)) : bool :=
  match key with
  | Some (key, seq_id) => match ws_last_completed self !! key with Some last_seq_id => seq_id <=? last_seq_id | None => false end
  | None => false
  end.

Definition stale_chunk (self : WebsocketState) (e : ClientEnvelope Message) : bool :=
  match client_message_key e, ce_stream_id e, ce_event e with
  | Some (_, seq_id), Some stream_id, ClientMessageChunk segment_id _ _ _ =>
      should_ignore_chunk (ws_reassembler self) (ce_client_id e) stream_id seq_id segment_id
  | _, _, _ => false
  end.

Definition observe_client_message (self : WebsocketState) (now : Z) (e : ClientEnvelope Message) (wire_size_bytes : Z)
    : @ClientSegmentObservation Message * WebsocketState :=
  if completed_before self (client_message_key e) then (Dropped, self)
  else if stale_chunk self e then (Dropped, self)
  else if bool_decide (is_Some (client_message_key e)) && (REMOTE_CONTROL_SEGMENT_MAX_BYTES <? wire_size_bytes) then
    (Dropped, match ce_stream_id e with
              | Some stream_id => with_reassembler self (invalidate_stream (ws_reassembler self) (ce_client_id e) stream_id)
              | None => self
              end)
  else let '(o, r) := observe iter (ws_reassembler self) now e in (o, with_reassembler self r).

Definition record_client_message_delivery (self : WebsocketState) (e : ClientEnvelope Message)
    (client_message_key : option ((rstr * option rstr) * Z)) : res unit WebsocketState :=
  let last_completed := match client_message_key with Some (key, seq_id) => <[key := seq_id]> (ws_last_completed self) | None => ws_last_completed self end in
  outbound_buffer ←
    match ce_event e, ce_seq_id e, ce_stream_id e with
    | ClientAck segment_id, Some acked_seq_id, Some stream_id =>
        buffer_ack (ws_outbound_buffer self) (ce_client_id e) stream_id acked_seq_id segment_id
    | _, _, _ => Ok (ws_outbound_buffer self)
    end;
  Ok {| ws_outbound_buffer := outbound_buffer;
        ws_subscribe_cursor := match ce_cursor e with Some cursor => Some cursor | None => ws_subscribe_cursor self end;
        ws_next_seq_id_by_stream := ws_next_seq_id_by_stream self; ws_last_completed := last_completed;
        ws_reassembler := ws_reassembler self |}.

Definition invalidate_client_message_stream (self : WebsocketState) (client_id stream_id : rstr) : WebsocketState :=
  with_last_completed self (delete (client_id, Some stream_id) (ws_last_completed self)).

Definition invalidate_client_message_client (self : WebsocketState) (client_id : rstr) : WebsocketState :=
  with_last_completed self (filter (fun '((cursor_client_id, _), _) => cursor_client_id ≠ client_id) (ws_last_completed self)).

Definition U64_MAX_ : Z := 2 ^ 64 - 1.

Definition with_sent (self : WebsocketState) (buffer : BoundedOutboundBuffer) (next : gmap StreamKey Z) : WebsocketState :=
  {| ws_outbound_buffer := buffer; ws_subscribe_cursor := ws_subscribe_cursor self; ws_next_seq_id_by_stream := next;
     ws_last_completed := ws_last_completed self; ws_reassembler := ws_reassembler self |}.

(** An envelope that can be serialised. *)
Definition serializable (e : ServerEnvelope Payload) : bool := match envelope_len e with Ok _ => true | _ => false end.

(** One event of the writer: the envelopes that are sent, after they are buffered. *)
Definition write_event (self : WebsocketState) (event : ServerEvent Payload) (client_id stream_id : rstr)
    : list (ServerEnvelope Payload) * WebsocketState :=
  let key := (client_id, stream_id) in
  let seq_id := default 1 (ws_next_seq_id_by_stream self !! key) in
  let seen := <[key := seq_id]> (ws_next_seq_id_by_stream self) in
  match split_server_envelope_for_transport (Build_ServerEnvelope event client_id stream_id seq_id) with
  | Some (Ok envelopes) =>
      let sent := List.filter serializable envelopes in
      (sent, with_sent self (fold_left buffer_insert sent (ws_outbound_buffer self)) (<[key := Z.min (seq_id + 1) U64_MAX_]> seen))
  | _ => ([], with_sent self (ws_outbound_buffer self) seen)
  end.

Definition CHANNEL_CAPACITY : Z := 128.

(** The writer takes an event only when the buffer has room. *)
Definition outbound_has_capacity (self : WebsocketState) : bool := ob_used (ws_outbound_buffer self) <? CHANNEL_CAPACITY.

Definition writer_step (self : WebsocketState) (event : ServerEvent Payload) (client_id stream_id : rstr)
    : list (ServerEnvelope Payload) * WebsocketState :=
  if outbound_has_capacity self then write_event self event client_id stream_id else ([], self).

(** ** Clients *)

Record ClientState := { cs_connection_id : Z; cs_last_activity_at : Z; cs_last_inbound_seq_id : option Z }.

Inductive TransportEvent :=
| ConnectionOpened (connection_id : Z)
| ConnectionClosed (connection_id : Z)
| IncomingMessage (connection_id : Z) (message : Message).

(** [tr_join_set] holds the tasks that forward to a client until their end is noticed, with the
    connection they are for, [tr_cancelled] the connections whose token is cancelled, and
    [tr_events] what the application server has received, newest last. [tr_pongs] are the
    pongs that are asked for; the counter is that of [next_connection_id]. *)
Record ClientTracker := {
  tr_clients : gmap StreamKey ClientState;
  tr_legacy_stream_ids : gmap rstr rstr;
  tr_join_set : list (StreamKey * Z);
  tr_cancelled : list Z;
  tr_next_connection_id : Z;
  tr_events : list TransportEvent;
  tr_pongs : list (StreamKey * PongStatus);
}.

Definition tracker_new (next_connection_id : Z) : ClientTracker :=
  {| tr_clients := ∅; tr_legacy_stream_ids := ∅; tr_join_set := []; tr_cancelled := [];
     tr_next_connection_id := next_connection_id; tr_events := []; tr_pongs := [] |}.

Definition with_events (self : ClientTracker) (events : list TransportEvent) : ClientTracker :=
  {| tr_clients := tr_clients self; tr_legacy_stream_ids := tr_legacy_stream_ids self;
     tr_join_set := tr_join_set self; tr_cancelled := tr_cancelled self;
     tr_next_connection_id := tr_next_connection_id self; tr_events := tr_events self ++ events; tr_pongs := tr_pongs self |}.

Definition with_clients (self : ClientTracker) (clients : gmap StreamKey ClientState) : ClientTracker :=
  {| tr_clients := clients; tr_legacy_stream_ids := tr_legacy_stream_ids self;
     tr_join_set := tr_join_set self; tr_cancelled := tr_cancelled self;
     tr_next_connection_id := tr_next_connection_id self; tr_events := tr_events self; tr_pongs := tr_pongs self |}.

Definition with_legacy (self : ClientTracker) (legacy : gmap rstr rstr) : ClientTracker :=
  {| tr_clients := tr_clients self; tr_legacy_stream_ids := legacy;
     tr_join_set := tr_join_set self; tr_cancelled := tr_cancelled self;
     tr_next_connection_id := tr_next_connection_id self; tr_events := tr_events self; tr_pongs := tr_pongs self |}.

Definition with_join_set (self : ClientTracker) (join_set : list (StreamKey * Z)) : ClientTracker :=
  {| tr_clients := tr_clients self; tr_legacy_stream_ids := tr_legacy_stream_ids self;
     tr_join_set := join_set; tr_cancelled := tr_cancelled self;
     tr_next_connection_id := tr_next_connection_id self; tr_events := tr_events self; tr_pongs := tr_pongs self |}.

(** [disconnect_token.cancel()]. *)
Definition cancel (self : ClientTracker) (connection_id : Z) : ClientTracker :=
  {| tr_clients := tr_clients self; tr_legacy_stream_ids := tr_legacy_stream_ids self;
     tr_join_set := tr_join_set self; tr_cancelled := connection_id :: tr_cancelled self;
     tr_next_connection_id := tr_next_connection_id self; tr_events := tr_events self; tr_pongs := tr_pongs self |}.

Definition next_connection_id (self : ClientTracker) : Z * ClientTracker :=
  (tr_next_connection_id self,
   {| tr_clients := tr_clients self; tr_legacy_stream_ids := tr_legacy_stream_ids self;
      tr_join_set := tr_join_set self; tr_cancelled := tr_cancelled self;
      tr_next_connection_id := tr_next_connection_id self + 1; tr_events := tr_events self; tr_pongs := tr_pongs self |}).

Definition with_pong (self : ClientTracker) (key : StreamKey) (status : PongStatus) : ClientTracker :=
  {| tr_clients := tr_clients self; tr_legacy_stream_ids := tr_legacy_stream_ids self;
     tr_join_set := tr_join_set self; tr_cancelled := tr_cancelled self;
     tr_next_connection_id := tr_next_connection_id self; tr_events := tr_events self; tr_pongs := tr_pongs self ++ [(key, status)] |}.

(** The answers of the channel to the sends of one call, in turn: a send fails when the
    receiver is gone or, except for closing, takes too long. *)
Abbreviation Sends := (list bool) (only parsing).

Definition next_send (sends : Sends) : bool * Sends := match sends with [] => (false, []) | b :: sends => (b, sends) end.

Definition remove_client (self : ClientTracker) (key : StreamKey) : option ClientState * ClientTracker :=
  match tr_clients self !! key with
  | None => (None, self)
  | Some client =>
      let self := with_clients self (delete key (tr_clients self)) in
      (Some client,
       if bool_decide (tr_legacy_stream_ids self !! key.1 = Some key.2)
       then with_legacy self (delete key.1 (tr_legacy_stream_ids self)) else self)
  end.

(** [Err] is [Stopped]. *)
Definition close_client (sends : Sends) (self : ClientTracker) (key : StreamKey) : res unit unit * Sends * ClientTracker :=
  match remove_client self key with
  | (None, self) => (Ok (), sends, self)
  | (Some client, self) =>
      let self := cancel self (cs_connection_id client) in
      let '(ok, sends) := next_send sends in
      if ok then (Ok (), sends, with_events self [ConnectionClosed (cs_connection_id client)]) else (Err (), sends, self)
  end.

Definition record_inbound_message_delivery (self : ClientTracker) (key : StreamKey) (seq_id : option Z) : ClientTracker :=
  match seq_id, tr_clients self !! key with
  | Some seq_id, Some client =>
      with_clients self (<[key := {| cs_connection_id := cs_connection_id client; cs_last_activity_at := cs_last_activity_at client;
                                     cs_last_inbound_seq_id := Some seq_id |}]> (tr_clients self))
  | _, _ => self
  end.

Definition touch (now : Z) (client : ClientState) : ClientState :=
  {| cs_connection_id := cs_connection_id client; cs_last_activity_at := now; cs_last_inbound_seq_id := cs_last_inbound_seq_id client |}.

(** [remote_control_message_starts_connection]. *)
Context (starts_connection : Message -> bool).

(** The stream of an envelope: given, remembered for the client, or new; and what is
    remembered then. *)
Definition resolve_stream (self : ClientTracker) (new_stream : rstr) (e : ClientEnvelope Message) (is_initialize : bool) : rstr * ClientTracker :=
  match ce_stream_id e with
  | Some stream_id => (stream_id, self)
  | None =>
      let remembered := tr_legacy_stream_ids self !! ce_client_id e in
      if is_initialize then (default new_stream remembered, with_legacy self (delete (ce_client_id e) (tr_legacy_stream_ids self)))
      else (default (match ce_event e with ClientPing => new_stream | _ => [] end) remembered, self)
  end.

(** A message for a client that is known. *)
Definition deliver (sends : Sends) (self : ClientTracker) (now : Z) (key : StreamKey) (client : ClientState) (seq_id : option Z) (message : Message)
    : res unit unit * Sends * ClientTracker :=
  let self := with_clients self (<[key := touch now client]> (tr_clients self)) in
  let '(ok, sends) := next_send sends in
  if ok then (Ok (), sends, record_inbound_message_delivery (with_events self [IncomingMessage (cs_connection_id client) message]) key seq_id)
  else (Err (), sends, self).

(** The message that opens a connection. When its delivery fails the connection is closed by a
    task of its own; its event is recorded here, and no other event of the connection comes
    after it. *)
Definition open_connection (sends : Sends) (self : ClientTracker) (now : Z) (key : StreamKey) (is_legacy : bool) (seq_id : option Z) (message : Message)
    : res unit unit * Sends * ClientTracker :=
  let '(connection_id, self) := next_connection_id self in
  let '(ok, sends) := next_send sends in
  if negb ok then (Err (), sends, self)
  else
    let self := with_events self [ConnectionOpened connection_id] in
    let self := with_join_set self (tr_join_set self ++ [(key, connection_id)]) in
    let self := with_clients self (<[key := {| cs_connection_id := connection_id; cs_last_activity_at := now; cs_last_inbound_seq_id := None |}]> (tr_clients self)) in
    let self := if is_legacy then with_legacy self (<[key.1 := key.2]> (tr_legacy_stream_ids self)) else self in
    let '(ok, sends) := next_send sends in
    if ok then
      let self := with_events self [IncomingMessage connection_id message] in
      (Ok (), sends, if is_legacy then self else record_inbound_message_delivery self key seq_id)
    else
      match remove_client self key with
      | (Some client, self) =>
          let self := cancel self (cs_connection_id client) in
          let '(ok, sends) := next_send sends in
          (Err (), sends, if ok then with_events self [ConnectionClosed (cs_connection_id client)] else self)
      | (None, self) => (Err (), sends, self)
      end.

Definition handle_message (sends : Sends) (self : ClientTracker) (now : Z) (new_stream : rstr) (e : ClientEnvelope Message)
    : res unit unit * Sends * ClientTracker :=
  let is_legacy := bool_decide (ce_stream_id e = None) in
  let is_initialize := match ce_event e with ClientMessage message => starts_connection message | _ => false end in
  let '(stream_id, self) := resolve_stream self new_stream e is_initialize in
  let seq_id := ce_seq_id e in
  if is_empty stream_id then (Ok (), sends, self)
  else
    let key := (ce_client_id e, stream_id) in
    match ce_event e with
    | ClientMessage message =>
        let duplicate :=
          match seq_id, tr_clients self !! key with
          | Some seq_id, Some client =>
              match cs_last_inbound_seq_id client with Some last_seq_id => seq_id <=? last_seq_id | None => false end && negb is_initialize
          | _, _ => false
          end in
        if duplicate then (Ok (), sends, self)
        else
          let '(closed, sends, self) :=
            if is_initialize && bool_decide (is_Some (tr_clients self !! key)) then close_client sends self key else (Ok (), sends, self) in
          match closed with
          | Ok _ =>
              match tr_clients self !! key with
              | Some client => deliver sends self now key client seq_id message
              | None => if negb is_initialize then (Ok (), sends, self) else open_connection sends self now key is_legacy seq_id message
              end
          | r => (r, sends, self)
          end
    | ClientMessageChunk _ _ _ _ | ClientAck _ => (Ok (), sends, self)
    | ClientPing =>
        match tr_clients self !! key with
        | Some client => (Ok (), sends, with_pong (with_clients self (<[key := touch now client]> (tr_clients self))) key PongActive)
        | None => (Ok (), sends, with_pong self key PongUnknown)
        end
    | ClientClosed => close_client sends self key
    end.

Definition REMOTE_CONTROL_CLIENT_IDLE_TIMEOUT : Z := 10 * 60.

Definition remote_control_client_is_alive (client : ClientState) (now : Z) : bool :=
  now - cs_last_activity_at client <? REMOTE_CONTROL_CLIENT_IDLE_TIMEOUT.

Fixpoint close_clients (sends : Sends) (self : ClientTracker) (keys : list StreamKey) : res unit unit * Sends * ClientTracker :=
  match keys with
  | [] => (Ok (), sends, self)
  | key :: keys =>
      match close_client sends self key with
      | (Ok _, sends, self) => close_clients sends self keys
      | r => r
      end
  end.

Definition expired_clients (self : ClientTracker) (now : Z) : list StreamKey :=
  map fst (List.filter (fun x => negb (remote_control_client_is_alive x.2 now)) (map_to_list (tr_clients self))).

Definition close_expired_clients (sends : Sends) (self : ClientTracker) (now : Z) : res unit (list StreamKey) * Sends * ClientTracker :=
  let expired_client_ids := expired_clients self now in
  match close_clients sends self expired_client_ids with
  | (Ok _, sends, self) => (Ok expired_client_ids, sends, self)
  | (Err e, sends, self) => (Err e, sends, self)
  | (Panic, sends, self) => (Panic, sends, self)
  end.

(** [while let Some(client_key) = self.clients.keys().next().cloned()], with a round for every
    client; what the sends return is ignored. *)
Fixpoint shutdown_clients (fuel : nat) (sends : Sends) (self : ClientTracker) : Sends * ClientTracker :=
  match fuel with
  | O => (sends, self)
  | S fuel =>
      match map_to_list (tr_clients self) with
      | [] => (sends, self)
      | (key, _) :: _ => let '(_, sends, self) := close_client sends self key in shutdown_clients fuel sends self
      end
  end.

(** The tasks are awaited at the end, since the token of every client comes from the one that is
    cancelled first. *)
Definition tracker_shutdown (sends : Sends) (self : ClientTracker) : ClientTracker :=
  let '(_, self) := shutdown_clients (size (tr_clients self)) sends self in with_join_set self [].

(** [bookkeep_join_set], when the given task has ended. *)
Definition bookkeep_join_set (self : ClientTracker) (i : nat) : option (StreamKey * ClientTracker) :=
  match tr_join_set self !! i with
  | Some (key, _) => Some (key, with_join_set self (delete i (tr_join_set self)))
  | None => None
  end.

(** ** The reader *)

(** Forget what is known about the chunks of a stream. *)
Definition forget_stream (ws : WebsocketState) (key : StreamKey) : WebsocketState :=
  invalidate_client_message_stream (with_reassembler ws (invalidate_stream (ws_reassembler ws) key.1 key.2)) key.1 key.2.

(** One envelope from the wire. [Ok false] ends the reader. *)
Definition read_envelope (sends : Sends) (ws : WebsocketState) (tracker : ClientTracker) (now : Z) (new_stream : rstr)
    (e : ClientEnvelope Message) (wire_size_bytes : Z) : res unit bool * WebsocketState * ClientTracker :=
  let key := client_message_key e in
  match observe_client_message ws now e wire_size_bytes with
  | (Forward e, ws) =>
      let '(handled, _, tracker) := handle_message sends tracker now new_stream e in
      match handled with
      | Ok _ =>
          match record_client_message_delivery ws e key with
          | Ok ws =>
              (Ok true,
               match ce_event e with
               | ClientClosed =>
                   match ce_stream_id e with
                   | Some stream_id => forget_stream ws (ce_client_id e, stream_id)
                   | None =>
                       invalidate_client_message_client (with_reassembler ws (invalidate_client (ws_reassembler ws) (ce_client_id e))) (ce_client_id e)
                   end
               | _ => ws
               end, tracker)
          | _ => (Panic, ws, tracker)
          end
      | _ => (Ok false, ws, tracker)
      end
  | (_, ws) => (Ok true, ws, tracker)
  end.

(** The end of a task is noticed. *)
Definition reader_task_ended (sends : Sends) (ws : WebsocketState) (tracker : ClientTracker) (i : nat)
    : bool * WebsocketState * ClientTracker :=
  match bookkeep_join_set tracker i with
  | None => (true, ws, tracker)
  | Some (key, tracker) =>
      match close_client sends tracker key with
      | (Ok _, _, tracker) => (true, forget_stream ws key, tracker)
      | (_, _, tracker) => (false, ws, tracker)
      end
  end.

(** The sweep for clients that are idle. *)
Definition reader_sweep (sends : Sends) (ws : WebsocketState) (tracker : ClientTracker) (now : Z) : bool * WebsocketState * ClientTracker :=
  match close_expired_clients sends tracker now with
  | (Ok client_keys, _, tracker) => (true, fold_left forget_stream client_keys ws, tracker)
  | (_, _, tracker) => (false, ws, tracker)
  end.
End RemoteControl.
