(* ===== verification/RemoteControlProps.v ===== *)
(** * Properties of the remote-control connection

    The buffer of envelopes refines a list of those not acknowledged, messages in chunks are
    delivered once and in order, and every connection is opened before it is used and not
    used after it is closed; for the definitions of [RemoteControl]. *)
From stdpp Require Import gmap.
From S2P Require Import Prelude Width RemoteSegment RemoteSegmentProps RemoteControl.

Set Default Goal Selector "!".
Open Scope Z_scope.

Section Props.
Context {Message Payload : Type} {W : Wire Message Payload}.
Context (iter : gmap rstr ClientSegmentAssembly -> list (rstr * ClientSegmentAssembly)).
Context (starts_connection : Message -> bool).
Abbreviation envelope := (ServerEnvelope Payload) (only parsing).

(** ** The buffer *)

(** What is acknowledged by a position in a stream. *)
Definition acked (c s : rstr) (q : Z) (i : option Z) (e : envelope) : bool :=
  bool_decide (envelope_key e = (c, s)) && cursor_leb (envelope_cursor e) (q, default USIZE_MAX i).

Definition of_stream (k : rstr * rstr) (e : envelope) : bool := bool_decide (envelope_key e = k).

Definition represents (b : BoundedOutboundBuffer) (l : list envelope) : Prop :=
  (forall k, default [] (ob_buffer_by_stream b !! k) = List.filter (of_stream k) l) /\
  (forall k, ob_buffer_by_stream b !! k ≠ Some []) /\ ob_used b = len l.

Lemma filter_filter_comm {A} (f g : A -> bool) l : List.filter f (List.filter g l) = List.filter g (List.filter f l).
Proof.
  induction l as [|x l IH]; [done|]. cbn [List.filter]. destruct (f x) eqn:Ef, (g x) eqn:Eg; cbn [List.filter]; rewrite ?Ef, ?Eg, IH; done.
Qed.

Lemma retain_unacked_spec cursor used (l : list envelope) :
  len (List.filter (fun e => cursor_leb (envelope_cursor e) cursor) l) <= used ->
  retain_unacked cursor used l = Ok (used - len (List.filter (fun e => cursor_leb (envelope_cursor e) cursor) l),
    List.filter (fun e => negb (cursor_leb (envelope_cursor e) cursor)) l).
Proof.
  revert used. induction l as [|e l IH]; intros used Hu; cbn [retain_unacked List.filter]; [unfold len; cbn; do 2 f_equal; lia|].
  cbn [List.filter] in Hu. destruct (cursor_leb (envelope_cursor e) cursor); cbn [negb].
  - assert (len (e :: List.filter (fun e => cursor_leb (envelope_cursor e) cursor) l) = 1 + len (List.filter (fun e => cursor_leb (envelope_cursor e) cursor) l)) as E
      by (unfold len; cbn [length]; lia). rewrite E in *. pose proof (len_nonneg (List.filter (fun e => cursor_leb (envelope_cursor e) cursor) l)).
    destruct (Z.leb_spec used 0); [lia|]. rewrite IH by lia. do 2 f_equal. lia.
  - rewrite IH by done. done.
Qed.

Lemma len_filter_le {A} (f : A -> bool) l : len (List.filter f l) <= len l.
Proof. unfold len. pose proof (List.filter_length_le f l). lia. Qed.

Lemma len_filter_split {A} (f : A -> bool) l : len (List.filter f l) + len (List.filter (fun x => negb (f x)) l) = len l.
Proof. unfold len. pose proof (List.filter_length f l). lia. Qed.

Lemma filter_and {A} (f g : A -> bool) l : List.filter (fun x => f x && g x) l = List.filter g (List.filter f l).
Proof. induction l as [|x l IH]; [done|]. cbn [List.filter]. destruct (f x); cbn [andb List.filter]; [by destruct (g x); rewrite IH|done]. Qed.

Lemma insert_represents b l e : represents b l -> represents (buffer_insert b e) (l ++ [e]).
Proof.
  intros (Hk & Hne & Hu). split_and!; cbn [buffer_insert ob_buffer_by_stream ob_used].
  - intros k. rewrite List.filter_app. cbn [List.filter]. unfold of_stream at 2. destruct (decide (envelope_key e = k)) as [->|Hnk].
    + rewrite lookup_insert_eq, (bool_decide_eq_true_2 _ eq_refl). cbn. by rewrite Hk.
    + rewrite lookup_insert_ne, (bool_decide_eq_false_2 _ Hnk), app_nil_r by done. apply Hk.
  - intros k. destruct (decide (envelope_key e = k)) as [->|Hnk]; [rewrite lookup_insert_eq|by rewrite lookup_insert_ne].
    intros [= E]. by destruct (default [] (ob_buffer_by_stream b !! k)).
  - rewrite Hu, len_app. done.
Qed.

Lemma ack_represents b l c s q i :
  represents b l -> exists b', buffer_ack b c s q i = Ok b' /\ represents b' (List.filter (fun e => negb (acked c s q i e)) l).
Proof.
  intros (Hk & Hne & Hu). unfold buffer_ack. set (key := (c, s)). set (cursor := (q, default USIZE_MAX i)).
  assert (List.filter (acked c s q i) l = List.filter (fun e => cursor_leb (envelope_cursor e) cursor) (List.filter (of_stream key) l)) as Eacked by apply filter_and.
  assert (forall k, List.filter (of_stream k) (List.filter (fun e => negb (acked c s q i e)) l) =
    if decide (k = key) then List.filter (fun e => negb (cursor_leb (envelope_cursor e) cursor)) (List.filter (of_stream key) l) else List.filter (of_stream k) l) as Hstream.
  { intros k. rewrite filter_filter_comm. destruct (decide (k = key)) as [->|Hnk]; [|transitivity (List.filter (fun _ => true) (List.filter (of_stream k) l))].
    - apply List.filter_ext_in. intros e [_ Ee]%filter_In. apply bool_decide_eq_true in Ee. unfold acked. by rewrite (bool_decide_eq_true_2 _ Ee).
    - apply List.filter_ext_in. intros e [_ Ee]%filter_In. unfold acked. apply bool_decide_eq_true in Ee. by rewrite (bool_decide_eq_false_2 _ (fun E => Hnk (eq_trans (eq_sym Ee) E))).
    - by rewrite List.filter_true. }
  pose proof (len_filter_split (acked c s q i) l) as Hsum. rewrite Eacked in Hsum.
  specialize (Hk key) as Hkey. destruct (ob_buffer_by_stream b !! key) as [buffer|] eqn:Eb; cbn in Hkey.
  - subst buffer. rewrite retain_unacked_spec by (rewrite Hu; pose proof (len_nonneg (List.filter (fun e => negb (acked c s q i e)) l)); lia). cbn [mbind res_bind].
    eexists. split; [done|]. split_and!; cbn [ob_buffer_by_stream ob_used]; [| |lia].
    + intros k. rewrite Hstream. set (kept := List.filter _ (List.filter (of_stream key) l)). destruct (decide (k = key)) as [->|Hnk].
      * destruct kept as [|e kept'] eqn:Ekept; cbn [is_empty]; [by rewrite lookup_delete_eq|by rewrite lookup_insert_eq].
      * destruct (is_empty kept); [rewrite lookup_delete_ne by done|rewrite lookup_insert_ne by done]; apply Hk.
    + intros k. set (kept := List.filter _ (List.filter (of_stream key) l)). destruct kept as [|e kept'] eqn:Ekept; cbn [is_empty].
      * intros [_ Hl]%lookup_delete_Some. by apply (Hne k).
      * destruct (decide (k = key)) as [->|Hnk]; [by rewrite lookup_insert_eq|rewrite lookup_insert_ne by done; apply Hne].
  - exists b. split; [done|]. rewrite <- Hkey in Hsum. cbn in Hsum. split_and!; [|done|rewrite Hu; unfold len in *; cbn in *; lia].
    intros k. rewrite Hstream. destruct (decide (k = key)) as [->|Hnk]; [|apply Hk]. rewrite <- Hkey, Eb. done.
Qed.

Lemma inserts_represent b l es : represents b l -> represents (fold_left buffer_insert es b) (l ++ es).
Proof.
  revert b l. induction es as [|e es IH]; intros b l Hb; [by rewrite app_nil_r|]. cbn [fold_left]. rewrite (app_assoc l [e] es : l ++ e :: es = _).
  by apply IH, insert_represents.
Qed.

(** The streams of a buffer, one after the other. *)
Lemma streams_permutation (m : gmap (rstr * rstr) (list envelope)) l :
  (forall k, default [] (m !! k) = List.filter (of_stream k) l) -> concat (map snd (map_to_list m)) ≡ₚ l.
Proof.
  revert l. induction m as [|k x m Hk IH] using map_ind; intros l Hl.
  - rewrite map_to_list_empty. destruct l as [|e l]; [done|]. specialize (Hl (envelope_key e)). rewrite lookup_empty in Hl. cbn [List.filter] in Hl.
    unfold of_stream in Hl at 1. by rewrite (bool_decide_eq_true_2 _ eq_refl) in Hl.
  - rewrite map_to_list_insert by done. cbn [map concat snd]. rewrite (IH (List.filter (fun e => negb (of_stream k e)) l)).
    + pose proof (Hl k) as Hx. rewrite lookup_insert_eq in Hx. cbn in Hx. rewrite Hx. clear. induction l as [|e l IH]; [done|]. cbn [List.filter].
      destruct (of_stream k e); cbn [negb app]; [by constructor|]. by rewrite <- Permutation_middle, IH.
    + intros k'. rewrite filter_filter_comm. destruct (decide (k' = k)) as [->|Hn].
      * rewrite Hk. symmetry. induction l as [|e l IHl] in |-*; [done|]. cbn [List.filter]. destruct (of_stream k e) eqn:E; cbn [List.filter]; [by rewrite E|done].
      * specialize (Hl k'). rewrite lookup_insert_ne in Hl by done. rewrite Hl. clear -Hn. induction l as [|e l IHl]; [done|]. cbn [List.filter].
        destruct (of_stream k' e) eqn:E; cbn [List.filter]; [|done]. apply bool_decide_eq_true in E.
        assert (of_stream k e = false) as -> by (apply bool_decide_eq_false; congruence). cbn [negb]. by f_equal.
Qed.

(** What happens to the buffer of a connection. *)
Inductive OutboundOp :=
| OutWrite (event : ServerEvent Payload) (client_id stream_id : rstr)
| OutAck (client_id stream_id : rstr) (seq_id : Z) (segment_id : option Z).

Abbreviation websocket := (@WebsocketState Payload) (only parsing).

(** The envelopes that are sent, and the connection after it. *)
Definition outbound_step (ws : websocket) (op : OutboundOp) : res unit (list envelope * websocket) :=
  match op with
  | OutWrite event c s => Ok (writer_step ws event c s)
  | OutAck c s q i =>
      ws ← record_client_message_delivery ws (Build_ClientEnvelope (Message := Message) (ClientAck i) c (Some s) (Some q) None) None;
      Ok ([], ws)
  end.

(** The specification: the envelopes that were sent and are not acknowledged, oldest first. *)
Definition unacked_step (l sent : list envelope) (op : OutboundOp) : list envelope :=
  match op with
  | OutWrite _ _ _ => l ++ sent
  | OutAck c s q i => List.filter (fun e => negb (acked c s q i e)) l
  end.

Fixpoint outbound_run (ws : websocket) (l : list envelope) (ops : list OutboundOp) : res unit (websocket * list envelope) :=
  match ops with
  | [] => Ok (ws, l)
  | op :: ops => '(sent, ws) ← outbound_step ws op; outbound_run ws (unacked_step l sent op) ops
  end.

Lemma write_event_sent (ws : websocket) event c s :
  exists sent, write_event ws event c s = (sent, with_sent ws (fold_left buffer_insert sent (ws_outbound_buffer ws)) (ws_next_seq_id_by_stream (write_event ws event c s).2)) /\
    len sent <= REMOTE_CONTROL_SEGMENT_COUNT_MAX.
Proof.
  unfold write_event. set (e := Build_ServerEnvelope event c s _).
  assert (exists r, split_server_envelope_for_transport e = Some r /\ forall es, r = Ok es -> len es <= REMOTE_CONTROL_SEGMENT_COUNT_MAX) as (r & -> & Hr).
  { destruct event as [m|i n z t| |p]; [|by eexists; split; [done|]; intros es [= <-]; unfold len, REMOTE_CONTROL_SEGMENT_COUNT_MAX; cbn; lia..].
    destruct (split_sent e m eq_refl) as (r & Er & Hs). exists r. split; [done|]. intros es Ees. specialize (Hs es Ees).
    destruct Hs as [size _ _| |m' raw n es _ _ _ _ (_ & -> & Hc & _)|id result err _ _]; try (unfold len, REMOTE_CONTROL_SEGMENT_COUNT_MAX; cbn; lia).
    unfold len in *. rewrite length_map. unfold enumerate. by rewrite enumerate_from_length. }
  destruct r as [es|err|]; [|by exists []; split; [done|unfold len, REMOTE_CONTROL_SEGMENT_COUNT_MAX; cbn; lia]..].
  exists (List.filter serializable es). split; [done|]. etrans; [apply len_filter_le|]. by apply Hr.
Qed.

(** C35. The buffer of a connection holds, stream by stream and in order, exactly the envelopes that
    were sent and not acknowledged, which are those that are sent again after a new
    connection; its count is their number and never panics, and since the writer waits for
    room there are never more than 128 and one message of 1024 segments. *)
Theorem buffer_refines_unacked (ws : websocket) ops :
  ws_outbound_buffer ws = buffer_new ->
  exists ws' l, outbound_run ws [] ops = Ok (ws', l) /\ represents (ws_outbound_buffer ws') l /\
    server_envelopes (ws_outbound_buffer ws') ≡ₚ l /\ len l < CHANNEL_CAPACITY + REMOTE_CONTROL_SEGMENT_COUNT_MAX.
Proof.
  intros Hnew. assert (represents (ws_outbound_buffer ws) [] /\ len (@nil envelope) < CHANNEL_CAPACITY + REMOTE_CONTROL_SEGMENT_COUNT_MAX) as [H0 L0] by (rewrite Hnew; done).
  clear Hnew. revert ws H0 L0. generalize ([] : list envelope). induction ops as [|op ops IH]; intros l ws Hb Hl; cbn [outbound_run].
  - exists ws, l. split_and!; [done|done|apply streams_permutation, Hb|done].
  - destruct op as [event c s|c s q i]; cbn [outbound_step mbind res_bind unacked_step].
    + unfold writer_step, outbound_has_capacity. destruct (Z.ltb_spec (ob_used (ws_outbound_buffer ws)) CHANNEL_CAPACITY) as [Hcap|_]; [|rewrite app_nil_r; by apply IH].
      destruct (write_event_sent ws event c s) as (sent & -> & Hlen). apply IH; [by apply inserts_represent|]. rewrite len_app. destruct Hb as (_ & _ & Hu). lia.
    + unfold record_client_message_delivery. cbn [ce_event ce_seq_id ce_stream_id ce_client_id]. destruct (ack_represents _ _ c s q i Hb) as (b' & -> & Hb'). cbn [mbind res_bind].
      apply IH; [done|]. eapply Z.le_lt_trans; [apply len_filter_le|done].
Qed.

(** ** Connections *)

(** What the application server sees of a connection: it is opened, used and closed, in this
    order. *)
Inductive ConnectionPhase := PhaseFresh | PhaseOpen | PhaseClosed | PhaseBad.

Abbreviation event := (@TransportEvent Message) (only parsing).

Definition phase_step (p : ConnectionPhase) (ev : event) : ConnectionPhase :=
  match p, ev with
  | PhaseFresh, ConnectionOpened _ => PhaseOpen
  | PhaseOpen, IncomingMessage _ _ => PhaseOpen
  | PhaseOpen, ConnectionClosed _ => PhaseClosed
  | _, _ => PhaseBad
  end.

Definition event_connection (ev : event) : Z :=
  match ev with ConnectionOpened id => id | ConnectionClosed id => id | IncomingMessage id _ => id end.

Definition phase (id : Z) (l : list event) : ConnectionPhase :=
  fold_left phase_step (List.filter (fun ev => event_connection ev =? id) l) PhaseFresh.

Lemma phase_app id l l' :
  phase id (l ++ l') = fold_left phase_step (List.filter (fun ev => event_connection ev =? id) l') (phase id l).
Proof. unfold phase. by rewrite List.filter_app, fold_left_app. Qed.

Lemma phase_snoc id l ev : phase id (l ++ [ev]) = if event_connection ev =? id then phase_step (phase id l) ev else phase id l.
Proof. rewrite phase_app. cbn [List.filter]. by destruct (_ =? _). Qed.

(** The messages with a number that are delivered, with their connection. *)
Definition numbered (seq_id : option Z) (evs : list event) : list (Z * Z) :=
  flat_map (fun ev => match ev, seq_id with IncomingMessage id _, Some q => [(id, q)] | _, _ => [] end) evs.

Definition numbers (id : Z) (log : list (Z * Z)) : list Z := map snd (List.filter (fun x => x.1 =? id) log).

Lemma numbered_app q a b : numbered q (a ++ b) = numbered q a ++ numbered q b.
Proof. apply flat_map_app. Qed.

Lemma numbers_app id a b : numbers id (a ++ b) = numbers id a ++ numbers id b.
Proof. unfold numbers. by rewrite List.filter_app, map_app. Qed.

Abbreviation tracker := (@ClientTracker Message) (only parsing).

Record tracker_ok (tr : tracker) (log : list (Z * Z)) : Prop := {
  ok_phase : forall id, phase id (tr_events tr) ≠ PhaseBad;
  ok_fresh : forall id, tr_next_connection_id tr <= id -> phase id (tr_events tr) = PhaseFresh /\ numbers id log = [];
  ok_client : forall k c, tr_clients tr !! k = Some c ->
    cs_connection_id c < tr_next_connection_id tr /\ phase (cs_connection_id c) (tr_events tr) = PhaseOpen /\
    Forall (fun q => exists last, cs_last_inbound_seq_id c = Some last /\ q <= last) (numbers (cs_connection_id c) log);
  ok_distinct : forall k k' c c', tr_clients tr !! k = Some c -> tr_clients tr !! k' = Some c' ->
    cs_connection_id c = cs_connection_id c' -> k = k';
  ok_sorted : forall id, StronglySorted Z.lt (numbers id log);
}.

(** Every open connection is that of a client. *)
Definition no_leak (tr : tracker) : Prop :=
  forall id, phase id (tr_events tr) = PhaseOpen -> exists k c, tr_clients tr !! k = Some c /\ cs_connection_id c = id.

(** A step that keeps the invariant; [b] when every event was delivered. *)
Definition keeps (seq_id : option Z) (b : bool) (tr tr' : tracker) : Prop :=
  forall log, tracker_ok tr log -> exists evs, tr_events tr' = tr_events tr ++ evs /\ tracker_ok tr' (log ++ numbered seq_id evs) /\
    (b = true -> no_leak tr -> no_leak tr').

Lemma keeps_refl q b tr : keeps q b tr tr.
Proof. intros log Hok. exists []. rewrite !app_nil_r. done. Qed.

Lemma keeps_trans q b b' tr1 tr2 tr3 : keeps q b tr1 tr2 -> keeps q b' tr2 tr3 -> keeps q (b && b') tr1 tr3.
Proof.
  intros H1 H2 log Hok. destruct (H1 log Hok) as (e1 & E1 & Hok1 & L1). destruct (H2 _ Hok1) as (e2 & E2 & Hok2 & L2).
  exists (e1 ++ e2). rewrite E2, E1, numbered_app, !app_assoc in *. split_and!; [done|done|]. intros [-> ->]%andb_true_iff. auto.
Qed.

Lemma keeps_weaken q b b' tr tr' : (b' = true -> b = true) -> keeps q b tr tr' -> keeps q b' tr tr'.
Proof. intros Hb Hk log Hok. destruct (Hk log Hok) as (e & ? & ? & L). exists e. split_and!; auto. Qed.

(** Nothing of a tracker matters but its clients, its events and its counter. *)
Lemma keeps_same q b tr tr' :
  tr_clients tr' = tr_clients tr -> tr_events tr' = tr_events tr -> tr_next_connection_id tr' = tr_next_connection_id tr -> keeps q b tr tr'.
Proof.
  intros Ec Ee En log [H1 H2 H3 H4 H5]. exists []. rewrite !app_nil_r. split_and!; [done| |].
  - split; rewrite ?Ec, ?Ee, ?En; done.
  - intros _. unfold no_leak. by rewrite Ec, Ee.
Qed.

(** A client is seen again, with a number that is not smaller. *)
Lemma keeps_touch q b tr k c c' :
  tr_clients tr !! k = Some c -> cs_connection_id c' = cs_connection_id c -> cs_last_inbound_seq_id c' = cs_last_inbound_seq_id c ->
  keeps q b tr (with_clients tr (<[k := c']> (tr_clients tr))).
Proof.
  intros Hk Ei El log [H1 H2 H3 H4 H5]. exists []. cbn. rewrite !app_nil_r.
  assert (forall j d, <[k := c']> (tr_clients tr) !! j = Some d ->
    exists d0, tr_clients tr !! j = Some d0 /\ cs_connection_id d = cs_connection_id d0 /\ cs_last_inbound_seq_id d = cs_last_inbound_seq_id d0) as Hold.
  { intros j d [[<- <-]|[_ Hj]]%lookup_insert_Some; eauto. }
  split_and!; [done| |].
  - split; cbn; try done.
    + intros j d Hj. destruct (Hold j d Hj) as (d0 & Hd & -> & ->). by apply (H3 j).
    + intros j j' d d' Hj Hj' E. destruct (Hold _ _ Hj) as (d0 & Hd & E1 & _), (Hold _ _ Hj') as (d0' & Hd' & E1' & _). eapply H4; [exact Hd|exact Hd'|congruence].
  - intros _ Hl id Hid. destruct (Hl id Hid) as (j & d & Hj & <-). destruct (decide (j = k)) as [->|Hn].
    + exists k, c'. cbn. rewrite lookup_insert_eq. split; [done|]. congruence.
    + exists j, d. cbn. by rewrite lookup_insert_ne.
Qed.

Lemma numbers_snoc id log id' q : numbers id (log ++ [(id', q)]) = numbers id log ++ (if id' =? id then [q] else []).
Proof. rewrite numbers_app. unfold numbers at 2. cbn. by destruct (id' =? id). Qed.

Lemma keeps_closed q (b : bool) tr tr' k c :
  tr_clients tr !! k = Some c -> tr_clients tr' = delete k (tr_clients tr) -> tr_next_connection_id tr' = tr_next_connection_id tr ->
  tr_events tr' = tr_events tr ++ (if b then [ConnectionClosed (cs_connection_id c)] else []) -> keeps q b tr tr'.
Proof.
  intros Hk Ec En Ee log [H1 H2 H3 H4 H5]. eexists. split; [exact Ee|]. destruct (H3 k c Hk) as (Hlt & Hopen & _).
  assert (forall id, phase id (tr_events tr') = if b && (cs_connection_id c =? id) then PhaseClosed else phase id (tr_events tr)) as Hph.
  { intros id. rewrite Ee. destruct b; cbn [andb]; [|by rewrite app_nil_r]. rewrite phase_snoc. cbn [event_connection].
    destruct (Z.eqb_spec (cs_connection_id c) id) as [<-|]; [by rewrite Hopen|done]. }
  assert (numbered q (if b then [ConnectionClosed (cs_connection_id c)] else []) = []) as -> by by destruct b. rewrite app_nil_r. split.
  - split; rewrite ?En, ?Ec.
    + intros id. rewrite Hph. by destruct (b && _).
    + intros id Hid. rewrite Hph. destruct (Z.eqb_spec (cs_connection_id c) id); [lia|]. rewrite andb_false_r. by apply H2.
    + intros j d [Hn Hj]%lookup_delete_Some. rewrite Hph. destruct (Z.eqb_spec (cs_connection_id c) (cs_connection_id d)) as [E|].
      * by destruct (Hn (H4 _ _ _ _ Hk Hj E)).
      * rewrite andb_false_r. by apply (H3 j).
    + intros j j' d d' [_ Hj]%lookup_delete_Some [_ Hj']%lookup_delete_Some. by eapply H4.
    + done.
  - intros -> Hl id Hid. rewrite Hph in Hid. cbn [andb] in Hid. destruct (Z.eqb_spec (cs_connection_id c) id) as [|Hn]; [done|].
    destruct (Hl id Hid) as (j & d & Hj & <-). exists j, d. rewrite Ec, lookup_delete_ne by congruence. done.
Qed.

Lemma StronglySorted_snoc (l : list Z) x : StronglySorted Z.lt l -> Forall (fun y => y < x) l -> StronglySorted Z.lt (l ++ [x]).
Proof.
  intros Hs. induction Hs as [|y l Hs IH Hy]; intros Hx; [repeat constructor|]. apply Forall_cons in Hx as [Hyx Hx]. cbn. constructor; [auto|].
  apply Forall_app. split; [done|]. by constructor.
Qed.

Lemma keeps_delivered q tr tr' k c c' m :
  tr_clients tr !! k = Some c -> tr_clients tr' = <[k := c']> (tr_clients tr) -> tr_next_connection_id tr' = tr_next_connection_id tr ->
  cs_connection_id c' = cs_connection_id c -> (forall s l, q = Some s -> cs_last_inbound_seq_id c = Some l -> l < s) ->
  cs_last_inbound_seq_id c' = match q with Some s => Some s | None => cs_last_inbound_seq_id c end ->
  tr_events tr' = tr_events tr ++ [IncomingMessage (cs_connection_id c) m] -> keeps q true tr tr'.
Proof.
  intros Hk Ec En Ei Hq El Ee log [H1 H2 H3 H4 H5]. eexists. split; [exact Ee|]. destruct (H3 k c Hk) as (Hlt & Hopen & Hlast).
  assert (forall id, phase id (tr_events tr') = phase id (tr_events tr)) as Hph.
  { intros id. rewrite Ee, phase_snoc. cbn [event_connection]. destruct (Z.eqb_spec (cs_connection_id c) id) as [<-|]; [by rewrite Hopen|done]. }
  assert (forall id, numbers id (log ++ numbered q [IncomingMessage (cs_connection_id c) m]) =
    numbers id log ++ (match q with Some s => if cs_connection_id c =? id then [s] else [] | None => [] end)) as Hnum.
  { intros id. destruct q as [s|]; cbn [numbered flat_map]; [by rewrite app_nil_r, numbers_snoc|by rewrite !app_nil_r]. }
  split.
  - split; rewrite ?En, ?Ec.
    + intros id. by rewrite Hph.
    + intros id Hid. rewrite Hph, Hnum. destruct (Z.eqb_spec (cs_connection_id c) id); [lia|]. destruct (H2 id Hid) as [-> ->]. by destruct q.
    + intros j d Hj. rewrite Hph, Hnum. apply lookup_insert_Some in Hj as [[<- <-]|[Hn Hj]].
      * rewrite Ei, Z.eqb_refl, El. split_and!; [done|done|]. destruct q as [s|]; [|by rewrite app_nil_r]. apply Forall_app. split; [|repeat constructor; eauto with lia].
        eapply Forall_impl; [exact Hlast|]. cbn. intros x (l & Hl & Hxl). exists s. split; [done|]. specialize (Hq s l eq_refl Hl). lia.
      * destruct (Z.eqb_spec (cs_connection_id c) (cs_connection_id d)) as [E|]; [by destruct (Hn (H4 _ _ _ _ Hk Hj E))|].
        destruct q; rewrite app_nil_r; by apply (H3 j).
    + assert (forall j d, <[k := c']> (tr_clients tr) !! j = Some d -> exists d0, tr_clients tr !! j = Some d0 /\ cs_connection_id d = cs_connection_id d0) as Hold.
      { intros j d [[<- <-]|[_ Hj]]%lookup_insert_Some; eauto. }
      intros j j' d d' Hj Hj' E. destruct (Hold _ _ Hj) as (d0 & Hd & E1), (Hold _ _ Hj') as (d0' & Hd' & E1'). eapply H4; [exact Hd|exact Hd'|congruence].
    + intros id. rewrite Hnum. destruct q as [s|]; [|by rewrite app_nil_r]. destruct (Z.eqb_spec (cs_connection_id c) id) as [<-|]; [|by rewrite app_nil_r].
      apply StronglySorted_snoc; [done|]. eapply Forall_impl; [exact Hlast|]. cbn. intros x (l & Hl & Hxl). specialize (Hq s l eq_refl Hl). lia.
  - intros _ Hl id. rewrite Hph. intros Hid. destruct (Hl id Hid) as (j & d & Hj & <-). destruct (decide (j = k)) as [->|Hn].
    + exists k, c'. rewrite Ec, lookup_insert_eq. split; [done|]. congruence.
    + exists j, d. by rewrite Ec, lookup_insert_ne.
Qed.

Lemma keeps_opened q tr tr' k c :
  tr_clients tr !! k = None -> tr_clients tr' = <[k := c]> (tr_clients tr) -> tr_next_connection_id tr' = tr_next_connection_id tr + 1 ->
  cs_connection_id c = tr_next_connection_id tr ->
  tr_events tr' = tr_events tr ++ [ConnectionOpened (tr_next_connection_id tr)] -> keeps q true tr tr'.
Proof.
  intros Hk Ec En Ei Ee log [H1 H2 H3 H4 H5]. eexists. split; [exact Ee|]. set (n := tr_next_connection_id tr) in *.
  assert (forall id, phase id (tr_events tr') = if n =? id then PhaseOpen else phase id (tr_events tr)) as Hph.
  { intros id. rewrite Ee, phase_snoc. cbn [event_connection]. destruct (Z.eqb_spec n id) as [<-|]; [|done]. by rewrite (proj1 (H2 n ltac:(lia))). }
  cbn [numbered flat_map]. rewrite app_nil_r. split.
  - split; rewrite ?En, ?Ec.
    + intros id. rewrite Hph. by destruct (_ =? _).
    + intros id Hid. rewrite Hph. destruct (Z.eqb_spec n id); [lia|]. apply H2. lia.
    + intros j d Hj. rewrite Hph. apply lookup_insert_Some in Hj as [[<- <-]|[Hn Hj]].
      * rewrite Ei, Z.eqb_refl, (proj2 (H2 n ltac:(lia))). split_and!; [lia|done|constructor].
      * destruct (H3 j d Hj) as (Hlt & ? & ?). destruct (Z.eqb_spec n (cs_connection_id d)); [lia|]. split_and!; [lia|done..].
    + intros j j' d d' [[<- <-]|[Hn Hj]]%lookup_insert_Some [[<- <-]|[Hn' Hj']]%lookup_insert_Some E; [done| | |by eapply H4].
      * destruct (H3 _ _ Hj') as [? _]. lia.
      * destruct (H3 _ _ Hj) as [? _]. lia.
    + done.
  - intros _ Hl id. rewrite Hph. destruct (Z.eqb_spec n id) as [<-|]; [intros _; exists k, c; by rewrite Ec, lookup_insert_eq|].
    intros Hid. destruct (Hl id Hid) as (j & d & Hj & <-). exists j, d. rewrite Ec, lookup_insert_ne; [done|]. intros ->. congruence.
Qed.

Lemma keeps_counter q b tr : keeps q b tr (next_connection_id tr).2.
Proof.
  intros log [H1 H2 H3 H4 H5]. exists []. cbn. rewrite !app_nil_r. split_and!; [done| |done]. split; cbn; try done.
  - intros id Hid. apply H2. lia.
  - intros k c Hk. destruct (H3 k c Hk) as (? & ? & ?). split_and!; [lia|done..].
Qed.

(** ** The steps of the tracker *)

Lemma remove_client_spec (tr : tracker) k :
  match tr_clients tr !! k with
  | Some c => exists tr', remove_client tr k = (Some c, tr') /\ tr_clients tr' = delete k (tr_clients tr) /\
      tr_next_connection_id tr' = tr_next_connection_id tr /\ tr_events tr' = tr_events tr
  | None => remove_client tr k = (None, tr)
  end.
Proof. unfold remove_client. destruct (tr_clients tr !! k); [|done]. eexists. split; [done|]. by case_bool_decide. Qed.

Definition is_ok {E A} (r : res E A) : bool := match r with Ok _ => true | _ => false end.

Lemma close_client_keeps q sends tr k : let '(r, _, tr') := close_client sends tr k in keeps q (is_ok r) tr tr' /\ (r ≠ Panic).
Proof.
  unfold close_client. pose proof (remove_client_spec tr k) as Hr. destruct (tr_clients tr !! k) as [c|] eqn:Ek.
  - destruct Hr as (tr1 & -> & Ec & En & Ee). destruct (next_send sends) as [[|] sends']; (split; [|done]); eapply keeps_closed; try done; cbn; by rewrite ?app_nil_r, Ee.
  - rewrite Hr. split; [apply keeps_refl|done].
Qed.

Lemma close_clients_keeps q sends tr ks : let '(r, _, tr') := close_clients sends tr ks in keeps q (is_ok r) tr tr'.
Proof.
  revert sends tr. induction ks as [|k ks IH]; intros sends tr; cbn [close_clients]; [apply keeps_refl|].
  pose proof (close_client_keeps q sends tr k) as Hc. destruct (close_client sends tr k) as [[[[]|e|] sends1] tr1]; destruct Hc as [Hc _]; [|exact Hc..].
  specialize (IH sends1 tr1). destruct (close_clients sends1 tr1 ks) as [[r sends2] tr2]. eapply keeps_weaken; [|by eapply keeps_trans]. done.
Qed.

Lemma record_delivery_spec (tr : tracker) k q c :
  tr_clients tr !! k = Some c ->
  exists c', tr_clients (record_inbound_message_delivery tr k q) = <[k := c']> (tr_clients tr) /\
    tr_next_connection_id (record_inbound_message_delivery tr k q) = tr_next_connection_id tr /\
    tr_events (record_inbound_message_delivery tr k q) = tr_events tr /\ cs_connection_id c' = cs_connection_id c /\
    cs_last_inbound_seq_id c' = match q with Some s => Some s | None => cs_last_inbound_seq_id c end.
Proof.
  intros Hk. unfold record_inbound_message_delivery. destruct q as [s|]; [rewrite Hk; by eexists|]. exists c. by rewrite insert_id.
Qed.

Lemma deliver_keeps sends (tr : tracker) now k c q m :
  tr_clients tr !! k = Some c -> (forall s l, q = Some s -> cs_last_inbound_seq_id c = Some l -> l < s) ->
  let '(r, _, tr') := deliver sends tr now k c q m in keeps q (is_ok r) tr tr'.
Proof.
  intros Hk Hq. unfold deliver. destruct (next_send sends) as [[|] sends'].
  - set (tr1 := with_events _ _). destruct (record_delivery_spec tr1 k q (touch now c)) as (c' & Ec & En & Ee & Ei & El); [by cbn; rewrite lookup_insert_eq|].
    eapply (keeps_delivered _ _ _ k c c' m); try done. by rewrite Ec; cbn; rewrite insert_insert_eq.
  - by eapply keeps_touch.
Qed.

Lemma open_connection_keeps sends (tr : tracker) now k (legacy : bool) q m :
  tr_clients tr !! k = None ->
  let '(r, _, tr') := open_connection sends tr now k legacy q m in keeps (if legacy then None else q) (is_ok r) tr tr'.
Proof.
  intros Hk. unfold open_connection. cbn [next_connection_id]. destruct (next_send sends) as [[|] sends1]; cbn [negb]; [|apply keeps_counter].
  set (c := {| cs_connection_id := tr_next_connection_id tr |}). set (tr1 := if legacy then with_legacy _ _ else _).
  assert (tr_clients tr1 = <[k := c]> (tr_clients tr) /\ tr_next_connection_id tr1 = tr_next_connection_id tr + 1 /\
    tr_events tr1 = tr_events tr ++ [ConnectionOpened (tr_next_connection_id tr)]) as (Ec & En & Ee) by by unfold tr1; destruct legacy.
  pose proof (keeps_opened (if legacy then None else q) tr tr1 k c Hk Ec En eq_refl Ee) as Hopen.
  assert (tr_clients tr1 !! k = Some c) as Hk1 by by rewrite Ec, lookup_insert_eq.
  destruct (next_send sends1) as [[|] sends2].
  - apply (keeps_trans _ true true tr tr1 _ Hopen).
    set (tr2 := with_events tr1 _). assert (exists c', tr_clients (if legacy then tr2 else record_inbound_message_delivery tr2 k q) = <[k := c']> (tr_clients tr1) /\
      tr_next_connection_id (if legacy then tr2 else record_inbound_message_delivery tr2 k q) = tr_next_connection_id tr1 /\
      tr_events (if legacy then tr2 else record_inbound_message_delivery tr2 k q) = tr_events tr2 /\ cs_connection_id c' = cs_connection_id c /\
      cs_last_inbound_seq_id c' = match (if legacy then None else q) with Some s => Some s | None => cs_last_inbound_seq_id c end) as (c' & E1 & E2 & E3 & E4 & E5).
    { destruct legacy; [exists c; by rewrite insert_id|]. by apply (record_delivery_spec tr2). }
    by eapply (keeps_delivered _ _ _ k c c' m).
  - pose proof (remove_client_spec tr1 k) as Hr. rewrite Hk1 in Hr. destruct Hr as (tr2 & -> & Ec2 & En2 & Ee2).
    destruct (next_send sends2) as [ok sends3]. eapply (keeps_weaken _ (true && ok)); [done|]. apply (keeps_trans _ true ok tr tr1 _ Hopen).
    eapply (keeps_closed _ ok tr1 _ k c); [done|by destruct ok|by destruct ok|]. destruct ok; cbn; by rewrite ?app_nil_r, Ee2.
Qed.

(** The number that is compared for a message: that of a legacy opening message is not. *)
Definition compared_seq_id (e : ClientEnvelope Message) : option Z :=
  if bool_decide (ce_stream_id e = None) && match ce_event e with ClientMessage m => starts_connection m | _ => false end then None else ce_seq_id e.

Lemma resolve_stream_keeps q b (tr : tracker) ns e i : keeps q b tr (resolve_stream tr ns e i).2.
Proof. unfold resolve_stream. destruct (ce_stream_id e); [apply keeps_refl|]. destruct i; [by apply keeps_same|apply keeps_refl]. Qed.

(** Only an opening message closes a connection first, so that its client is gone. *)
Lemma close_client_gone sends (tr : tracker) k : tr_clients (close_client sends tr k).2 !! k = None.
Proof.
  unfold close_client. pose proof (remove_client_spec tr k) as Hr. destruct (tr_clients tr !! k) eqn:E.
  - destruct Hr as (tr1 & -> & Ec & _). destruct (next_send sends) as [[|] ?]; cbn; by rewrite Ec, lookup_delete_eq.
  - by rewrite Hr.
Qed.

(** A message for a stream. *)
Lemma message_keeps sends (tr : tracker) now k legacy q m (is_init : bool) :
  (forall s c l, is_init = false -> q = Some s -> tr_clients tr !! k = Some c -> cs_last_inbound_seq_id c = Some l -> l < s) ->
  let '(closed, sends1, tr1) := if is_init && bool_decide (is_Some (tr_clients tr !! k)) then close_client sends tr k else (Ok (), sends, tr) in
  let '(r, _, tr') :=
    match closed with
    | Ok _ =>
        match tr_clients tr1 !! k with
        | Some client => deliver sends1 tr1 now k client q m
        | None => if negb is_init then (Ok (), sends1, tr1) else open_connection sends1 tr1 now k legacy q m
        end
    | r => (r, sends1, tr1)
    end in keeps (if legacy && is_init then None else q) (is_ok r) tr tr'.
Proof.
  intros Hq. destruct is_init; cbn [andb negb].
  - rewrite andb_true_r. case_bool_decide as Hin.
    + pose proof (close_client_keeps (if legacy then None else q) sends tr k) as Hc. pose proof (close_client_gone sends tr k) as Hgone.
      destruct (close_client sends tr k) as [[[[]|e|] sends1] tr1]; destruct Hc as [Hc _]; [|done..]. cbn in Hgone. rewrite Hgone.
      pose proof (open_connection_keeps sends1 tr1 now k legacy q m Hgone) as Ho. destruct (open_connection _ _ _ _ _ _ _) as [[r s2] tr2].
      eapply keeps_weaken; [|by eapply keeps_trans]. done.
    + apply eq_None_not_Some in Hin. rewrite Hin. by apply open_connection_keeps.
  - rewrite andb_false_r. destruct (tr_clients tr !! k) as [c|] eqn:Ek; [|apply keeps_refl]. apply deliver_keeps; [done|]. eauto.
Qed.

Lemma handle_message_keeps sends (tr : tracker) now ns e :
  let '(r, _, tr') := handle_message starts_connection sends tr now ns e in keeps (compared_seq_id e) (is_ok r) tr tr'.
Proof.
  unfold handle_message, compared_seq_id. set (is_init := match ce_event e with ClientMessage _ => _ | _ => _ end).
  set (legacy := bool_decide _). pose proof (resolve_stream_keeps (if legacy && is_init then None else ce_seq_id e) true tr ns e is_init) as Hres.
  destruct (resolve_stream tr ns e is_init) as [sid tr1]. cbn [snd] in Hres. destruct (is_empty sid); [done|]. set (k := (ce_client_id e, sid)).
  assert (forall r tr', keeps (if legacy && is_init then None else ce_seq_id e) (is_ok (E := unit) (A := unit) r) tr1 tr' ->
    keeps (if legacy && is_init then None else ce_seq_id e) (is_ok r) tr tr') as Hthen.
  { intros r tr' Hk. eapply keeps_weaken; [|eapply keeps_trans; [exact Hres|exact Hk]]. done. }
  destruct (ce_event e) as [m|i n z t|a| |] eqn:Eev.
  - destruct (match ce_seq_id e with Some s => _ | None => _ end) eqn:Edup; [by apply Hthen, keeps_refl|].
    pose proof (message_keeps sends tr1 now k legacy (ce_seq_id e) m is_init) as Hm. destruct (if is_init && _ then _ else _) as [[closed s1] tr2].
    destruct (match closed with Ok _ => _ | Err _ => _ | Panic => _ end) as [[r s2] tr3]. apply Hthen, Hm. clear Hm.
    intros s c l Hi Es Ec El. rewrite Es, Ec, El, Hi in Edup. cbn in Edup. rewrite andb_true_r in Edup. by apply Z.leb_gt.
  - by apply Hthen, keeps_refl.
  - by apply Hthen, keeps_refl.
  - destruct (tr_clients tr1 !! k) as [c|] eqn:Ek; apply (Hthen (Ok ())); [|by apply keeps_same].
    apply (keeps_trans _ true true tr1 (with_clients tr1 (<[k := touch now c]> (tr_clients tr1)))); [by eapply keeps_touch|by apply keeps_same].
  - pose proof (close_client_keeps (if legacy && is_init then None else ce_seq_id e) sends tr1 k) as Hc. destruct (close_client sends tr1 k) as [[r s2] tr3]. apply Hthen, Hc.
Qed.

(** ** Runs of the reader *)

(** What the reader handles, and the end of the connection. *)
Inductive ReaderInput :=
| InEnvelope (sends : list bool) (now : Z) (new_stream : rstr) (e : ClientEnvelope Message) (wire_size_bytes : Z)
| InTaskEnded (sends : list bool) (i : nat)
| InSweep (sends : list bool) (now : Z)
| InShutdown (sends : list bool).

Abbreviation connection := (@WebsocketState Payload * tracker)%type (only parsing).

(** The new state, and whether every event was delivered. *)
Definition reader_step (s : connection) (i : ReaderInput) : bool * connection :=
  match i with
  | InEnvelope sends now ns e size =>
      let '(r, ws, tr) := read_envelope iter starts_connection sends s.1 s.2 now ns e size in
      (match r with Ok b => b | _ => false end, (ws, tr))
  | InTaskEnded sends i => let '(b, ws, tr) := reader_task_ended sends s.1 s.2 i in (b, (ws, tr))
  | InSweep sends now => let '(b, ws, tr) := reader_sweep sends s.1 s.2 now in (b, (ws, tr))
  | InShutdown sends => (forallb id (take (size (tr_clients s.2)) sends) && (size (tr_clients s.2) <=? length sends)%nat, (s.1, tracker_shutdown sends s.2))
  end.

(** The numbered messages a step delivers. *)
Definition step_numbers (s s' : connection) (i : ReaderInput) : list (Z * Z) :=
  let evs := drop (length (tr_events s.2)) (tr_events s'.2) in
  match i with InEnvelope _ _ _ e _ => numbered (compared_seq_id e) evs | _ => [] end.

Fixpoint reader_run (s : connection) (l : list ReaderInput) : bool * connection * list (Z * Z) :=
  match l with
  | [] => (true, s, [])
  | i :: l =>
      let '(b, s') := reader_step s i in
      let '(b', s'', log) := reader_run s' l in (b && b', s'', step_numbers s s' i ++ log)
  end.

Lemma observe_seq_id self now (e : ClientEnvelope Message) e' self' :
  observe iter self now e = (Forward e', self') -> e' = e \/ (ce_seq_id e' = ce_seq_id e /\ is_Some (ce_stream_id e') /\ is_Some (ce_stream_id e)).
Proof.
  unfold observe. destruct (ce_event e); [intros [= <- <-]; by left| |intros [= <- <-]; by left..].
  destruct (ce_seq_id e); [|done]. destruct (ce_stream_id e); [|done]. repeat case_match; try done; intros [= <- <-]; right; split_and!; cbn; eauto.
Qed.

Lemma observe_compared ws now (e : ClientEnvelope Message) size e' ws' :
  observe_client_message iter ws now e size = (Forward e', ws') -> compared_seq_id e' = compared_seq_id e.
Proof.
  unfold observe_client_message. repeat (case_match; [done|]). destruct (observe iter _ now e) as [o r] eqn:Eo. intros [= -> <-].
  destruct (observe_seq_id _ _ _ _ _ Eo) as [->|(Eq & [s Es] & [s' Es'])]; [done|]. unfold compared_seq_id. by rewrite Es, Es', Eq.
Qed.

Lemma shutdown_clients_keeps fuel sends (tr : tracker) :
  (size (tr_clients tr) <= fuel)%nat ->
  let tr' := (shutdown_clients fuel sends tr).2 in
  keeps None (forallb id (take (size (tr_clients tr)) sends) && (size (tr_clients tr) <=? length sends)%nat) tr tr' /\ tr_clients tr' = ∅.
Proof.
  revert sends tr. induction fuel as [|fuel IH]; intros sends tr Hf; cbn [shutdown_clients].
  - split; [apply keeps_refl|]. apply map_size_empty_iff. cbn. lia.
  - destruct (map_to_list (tr_clients tr)) as [|[k c] l] eqn:El; [split; [apply keeps_refl|by apply map_to_list_empty_iff]|].
    assert (tr_clients tr !! k = Some c) as Hk by (apply elem_of_map_to_list; rewrite El; left).
    assert (size (tr_clients tr) ≠ 0%nat) as Hsz by (intros E; apply map_size_empty_iff in E; rewrite E in Hk; done).
    pose proof (close_client_keeps None sends tr k) as Hc. unfold close_client in *. pose proof (remove_client_spec tr k) as Hr. rewrite Hk in Hr.
    destruct Hr as (tr1 & Er & Ec & En & Ee). rewrite Er in *. set (tr2 := cancel tr1 _) in *.
    assert (size (tr_clients tr2) = pred (size (tr_clients tr))) as Hs2 by (cbn; rewrite Ec; apply map_size_delete_Some; eauto).
    destruct sends as [|[|] sends]; cbn [next_send] in *; destruct Hc as [Hc _].
    + destruct (IH [] tr2) as [Hk2 He]; [lia|]. split; [|exact He]. eapply keeps_weaken; [|by eapply keeps_trans].
      destruct (size (tr_clients tr)); [done|]. rewrite andb_false_r. done.
    + destruct (IH sends (with_events tr2 [ConnectionClosed (cs_connection_id c)])) as [Hk2 He]; [change (size (tr_clients tr2) <= fuel)%nat; lia|]. split; [|exact He].
      eapply keeps_weaken; [|by eapply keeps_trans]. change (tr_clients (with_events tr2 _)) with (tr_clients tr2). rewrite Hs2.
      destruct (size (tr_clients tr)); [done|]. cbn. done.
    + destruct (IH sends tr2) as [Hk2 He]; [lia|]. split; [|exact He]. eapply keeps_weaken; [|by eapply keeps_trans].
      destruct (size (tr_clients tr)); [done|]. cbn. done.
Qed.

Lemma numbered_none evs : numbered None evs = [].
Proof. induction evs as [|[] evs IH]; done. Qed.

Lemma shutdown_keeps sends (tr : tracker) :
  keeps None (forallb id (take (size (tr_clients tr)) sends) && (size (tr_clients tr) <=? length sends)%nat) tr (tracker_shutdown sends tr).
Proof.
  unfold tracker_shutdown. destruct (shutdown_clients_keeps (size (tr_clients tr)) sends tr) as [Hk _]; [done|].
  destruct (shutdown_clients _ _ _) as [s tr']. eapply keeps_weaken; [|eapply keeps_trans; [exact Hk|by apply (keeps_same _ true)]]. intros ->. done.
Qed.

Lemma task_ended_keeps sends (ws : @WebsocketState Payload) (tr : tracker) i :
  let '(b, _, tr') := reader_task_ended sends ws tr i in keeps None b tr tr'.
Proof.
  unfold reader_task_ended, bookkeep_join_set. destruct (tr_join_set tr !! i) as [[k n]|]; [|apply keeps_refl]. set (tr1 := with_join_set _ _).
  pose proof (close_client_keeps None sends tr1 k) as Hc. assert (keeps None true tr tr1) as Hs by by apply keeps_same.
  destruct (close_client sends tr1 k) as [[[|e|] s] tr2]; destruct Hc as [Hc _]; exact (keeps_trans _ _ _ _ _ _ Hs Hc).
Qed.

Lemma sweep_keeps sends (ws : @WebsocketState Payload) (tr : tracker) now :
  let '(b, _, tr') := reader_sweep sends ws tr now in keeps None b tr tr'.
Proof.
  unfold reader_sweep, close_expired_clients. pose proof (close_clients_keeps None sends tr (expired_clients tr now)) as Hc.
  by destruct (close_clients _ _ _) as [[[|e|] s] tr2].
Qed.

Lemma read_envelope_keeps sends (ws : @WebsocketState Payload) (tr : tracker) now ns e size :
  let '(r, _, tr') := read_envelope iter starts_connection sends ws tr now ns e size in
  keeps (compared_seq_id e) (match r with Ok b => b | _ => false end) tr tr'.
Proof.
  unfold read_envelope. destruct (observe_client_message iter ws now e size) as [[e'| |] ws1] eqn:Eo; [|apply keeps_refl..].
  rewrite <- (observe_compared _ _ _ _ _ _ Eo). pose proof (handle_message_keeps sends tr now ns e') as Hm.
  destruct (handle_message _ _ _ _ _ _) as [[[|err|] s] tr1]; cbn [is_ok] in Hm; [|exact Hm..].
  destruct (record_client_message_delivery _ _ _); [exact Hm|by eapply keeps_weaken; [|exact Hm]..].
Qed.

Lemma reader_step_ok s i log b s' :
  reader_step s i = (b, s') -> tracker_ok s.2 log -> tracker_ok s'.2 (log ++ step_numbers s s' i) /\ (b = true -> no_leak s.2 -> no_leak s'.2).
Proof.
  intros Es Hok. assert (forall q, keeps q b s.2 s'.2 -> step_numbers s s' i = numbered q (drop (length (tr_events s.2)) (tr_events s'.2)) ->
    tracker_ok s'.2 (log ++ step_numbers s s' i) /\ (b = true -> no_leak s.2 -> no_leak s'.2)) as Hq.
  { intros q Hk ->. destruct (Hk log Hok) as (evs & Ee & Hok' & Hl). rewrite Ee, drop_app_length. done. }
  destruct i as [sends now ns e size|sends j|sends now|sends]; cbn [reader_step step_numbers] in *.
  - pose proof (read_envelope_keeps sends s.1 s.2 now ns e size) as Hk. destruct (read_envelope _ _ _ _ _ _ _ _ _) as [[r ws] tr]. simplify_eq. by apply (Hq (compared_seq_id e)).
  - pose proof (task_ended_keeps sends s.1 s.2 j) as Hk. destruct (reader_task_ended _ _ _ _) as [[r ws] tr]. simplify_eq. apply (Hq None); [done|by rewrite numbered_none].
  - pose proof (sweep_keeps sends s.1 s.2 now) as Hk. destruct (reader_sweep _ _ _ _) as [[r ws] tr]. simplify_eq. apply (Hq None); [done|by rewrite numbered_none].
  - injection Es as <- <-. apply (Hq None); [apply shutdown_keeps|by rewrite numbered_none].
Qed.

Lemma tracker_new_ok n : tracker_ok (tracker_new n) [] /\ no_leak (tracker_new n).
Proof. split; [|done]. split; try done. cbn. constructor. Qed.

Lemma reader_run_ok s l log b s' log' :
  reader_run s l = (b, s', log') -> tracker_ok s.2 log -> tracker_ok s'.2 (log ++ log') /\ (b = true -> no_leak s.2 -> no_leak s'.2).
Proof.
  revert s log b log'. induction l as [|i l IH]; intros s log b log'; cbn [reader_run]; [intros [= <- <- <-] Hok; by rewrite app_nil_r|].
  destruct (reader_step s i) as [b1 s1] eqn:E1. destruct (reader_run s1 l) as [[b2 s2] log2] eqn:E2. intros [= <- <- <-] Hok.
  destruct (reader_step_ok _ _ _ _ _ E1 Hok) as [Hok1 Hl1]. destruct (IH _ _ _ _ E2 Hok1) as [Hok2 Hl2]. rewrite app_assoc. split; [done|].
  intros [-> ->]%andb_true_iff. auto.
Qed.

(** Whatever comes from the network, whichever sends fail and whenever tasks end, the
    application server sees each connection opened once, then used, then closed, and nothing
    after that; a client is always that of one open connection of its own; and as long as every
    event was delivered, every open connection is still that of a client. *)
Theorem connections_bracketed ws n l b s' log :
  reader_run (ws, tracker_new n) l = (b, s', log) ->
  (forall id, phase id (tr_events s'.2) ≠ PhaseBad) /\
  (forall k c, tr_clients s'.2 !! k = Some c -> phase (cs_connection_id c) (tr_events s'.2) = PhaseOpen /\
     forall k' c', tr_clients s'.2 !! k' = Some c' -> cs_connection_id c' = cs_connection_id c -> k' = k) /\
  (b = true -> forall id, phase id (tr_events s'.2) = PhaseOpen -> exists k c, tr_clients s'.2 !! k = Some c /\ cs_connection_id c = id).
Proof.
  intros Hrun. destruct (tracker_new_ok n) as [H0 L0]. destruct (reader_run_ok _ _ [] _ _ _ Hrun H0) as [[H1 _ H3 H4 _] Hl]. split_and!; [done| |exact (fun Hb => Hl Hb L0)].
  intros k c Hk. split; [apply (H3 k c Hk)|]. intros k' c' Hk' E. by eapply H4.
Qed.

(** The numbered messages that reach the application server on one connection have strictly
    increasing numbers, in one piece or in chunks, so none is delivered twice or late. *)
Theorem inbound_once_in_order ws n l b s' log id :
  reader_run (ws, tracker_new n) l = (b, s', log) -> StronglySorted Z.lt (numbers id log).
Proof. intros Hrun. destruct (tracker_new_ok n) as [H0 _]. destruct (reader_run_ok _ _ [] _ _ _ Hrun H0) as [[_ _ _ _ H5] _]. apply H5. Qed.

(** When a client opens its stream again, the task of the old connection is cancelled; its end
    is noticed under the same client and stream, and closes the new connection, whose own task
    still runs. *)
Theorem reopened_connection_closed (ws : @WebsocketState Payload) (tr : tracker) now ns e m s c i :
  ce_event e = ClientMessage m -> starts_connection m = true -> ce_stream_id e = Some s -> s ≠ [] ->
  let k := (ce_client_id e, s) in
  tr_clients tr !! k = Some c -> tr_join_set tr !! i = Some (k, cs_connection_id c) ->
  let n := tr_next_connection_id tr in
  exists tr1 c', handle_message starts_connection [true; true; true] tr now ns e = (Ok (), [], tr1) /\
    cs_connection_id c ∈ tr_cancelled tr1 /\ tr_clients tr1 !! k = Some c' /\ cs_connection_id c' = n /\
    exists ws2 tr2, reader_task_ended [true] ws tr1 i = (true, ws2, tr2) /\
      tr_clients tr2 !! k = None /\ tr_events tr2 = tr_events tr1 ++ [ConnectionClosed n] /\ (k, n) ∈ tr_join_set tr2.
Proof.
  intros Eev Hm Es Hs k Hk Hi n. unfold handle_message, resolve_stream. rewrite Eev, Hm, Es. destruct s as [|z s]; [done|]. cbn [is_empty]. fold k.
  rewrite Hk. cbn [andb negb]. rewrite (bool_decide_eq_true_2 (is_Some (Some c)) (ex_intro _ c eq_refl)), (bool_decide_eq_false_2 (Some (z :: s) = None)) by done.
  replace (match ce_seq_id e with Some _ => _ | None => false end) with false by (destruct (ce_seq_id e), (cs_last_inbound_seq_id c); by rewrite ?andb_false_r).
  unfold close_client. pose proof (remove_client_spec tr k) as Hr. rewrite Hk in Hr. destruct Hr as (tr0 & Er & Ec & En & Ee). rewrite Er. cbn [next_send].
  assert (tr_join_set tr0 = tr_join_set tr) as Ej by (unfold remove_client in Er; rewrite Hk in Er; injection Er as <-; by case_bool_decide).
  cbn [with_events cancel tr_clients]. rewrite Ec, lookup_delete_eq. unfold open_connection. cbn [next_connection_id next_send negb].
  set (tr2 := with_events _ [IncomingMessage _ m]).
  assert (tr_clients tr2 = <[k := {| cs_connection_id := n; cs_last_activity_at := now; cs_last_inbound_seq_id := None |}]> (delete k (tr_clients tr)) /\
    tr_join_set tr2 = tr_join_set tr ++ [(k, n)] /\ cs_connection_id c ∈ tr_cancelled tr2) as (E1 & E2 & E3).
  { cbn. rewrite Ec, En, Ej. split_and!; [done|done|left]. }
  destruct (record_delivery_spec tr2 k (ce_seq_id e) {| cs_connection_id := n; cs_last_activity_at := now; cs_last_inbound_seq_id := None |}) as (c' & F1 & F2 & F3 & F4 & F5);
    [by rewrite E1, lookup_insert_eq|].
  assert (tr_join_set (record_inbound_message_delivery tr2 k (ce_seq_id e)) = tr_join_set tr ++ [(k, n)] /\
    tr_cancelled (record_inbound_message_delivery tr2 k (ce_seq_id e)) = tr_cancelled tr2) as [F6 F7].
  { unfold record_inbound_message_delivery. destruct (ce_seq_id e), (tr_clients tr2 !! k); done. }
  set (tr3 := record_inbound_message_delivery tr2 k (ce_seq_id e)) in *. exists tr3, c'. split; [done|]. rewrite F7, F1, lookup_insert_eq. split_and!; [done..|].
  unfold reader_task_ended, bookkeep_join_set. rewrite F6, lookup_app_l, Hi by (by eapply lookup_lt_Some). unfold close_client.
  set (tr4 := with_join_set tr3 _). pose proof (remove_client_spec tr4 k) as Hr. change (tr_clients tr4) with (tr_clients tr3) in Hr. rewrite F1, lookup_insert_eq in Hr.
  destruct Hr as (tr5 & Er5 & Ec5 & _ & Ee5). rewrite Er5. cbn [next_send]. do 2 eexists. split; [done|]. cbn [with_events cancel tr_clients tr_events tr_join_set].
  rewrite Ec5, Ee5, F4, lookup_delete_eq. split_and!; [done|done|].
  assert (tr_join_set tr5 = tr_join_set tr4) as -> by (unfold remove_client in Er5; destruct (tr_clients tr4 !! k); [|done]; injection Er5 as _ <-; by case_bool_decide).
  cbn. rewrite delete_take_drop. apply elem_of_app. right. rewrite drop_app_le by (apply lookup_lt_Some in Hi; lia). set_solver.
Qed.
End Props.

(** ** A run *)

(** A client opens a connection, sends a message twice, opens its stream again, and the task of
    the first connection is seen to end. *)
Definition toy_client_envelope (q : Z) (m : list Z) : ClientEnvelope (list Z) :=
  Build_ClientEnvelope (ClientMessage m) (lit "a") (Some (lit "s")) (Some q) None.

Definition toy_starts (m : list Z) : bool := bool_decide (m = [0]).

Definition toy_connection : @WebsocketState (list Z) :=
  {| ws_outbound_buffer := buffer_new; ws_subscribe_cursor := None; ws_next_seq_id_by_stream := ∅; ws_last_completed := ∅; ws_reassembler := ∅ |}.

Definition toy_inputs : list (@ReaderInput (list Z)) :=
  [InEnvelope [true; true] 1 [] (toy_client_envelope 1 [0]) 100; InEnvelope [true] 2 [] (toy_client_envelope 2 [5]) 100;
   InEnvelope [true] 3 [] (toy_client_envelope 2 [5]) 100; InEnvelope [true; true; true] 4 [] (toy_client_envelope 3 [0]) 100;
   InEnvelope [true] 5 [] (toy_client_envelope 4 [6]) 100].

#[local] Existing Instance toy_wire.

Lemma connections_bracketed_witness :
  let tr := (reader_run map_to_list toy_starts (toy_connection, tracker_new 1) toy_inputs).1.2.2 in
  tr_events tr = [ConnectionOpened 1; IncomingMessage 1 [0]; IncomingMessage 1 [5]; ConnectionClosed 1;
                  ConnectionOpened 2; IncomingMessage 2 [0]; IncomingMessage 2 [6]] /\
  forall id, phase id (tr_events tr) ≠ PhaseBad.
Proof.
  cbv zeta. destruct (reader_run map_to_list toy_starts (toy_connection, tracker_new 1) toy_inputs) as [[b s'] log] eqn:E. cbn [fst snd]. split.
  - assert (tr_events (reader_run map_to_list toy_starts (toy_connection, tracker_new 1) toy_inputs).1.2.2 =
      [ConnectionOpened 1; IncomingMessage 1 [0]; IncomingMessage 1 [5]; ConnectionClosed 1; ConnectionOpened 2; IncomingMessage 2 [0]; IncomingMessage 2 [6]]) as E'
      by (vm_compute; reflexivity). rewrite E in E'. exact E'.
  - exact (proj1 (connections_bracketed map_to_list toy_starts _ _ _ _ _ _ E)).
Defined.

Lemma inbound_once_in_order_witness :
  StronglySorted Z.lt (numbers 1 (reader_run map_to_list toy_starts (toy_connection, tracker_new 1) toy_inputs).2).
Proof.
  destruct (reader_run map_to_list toy_starts (toy_connection, tracker_new 1) toy_inputs) as [[b s'] log] eqn:E.
  exact (inbound_once_in_order map_to_list toy_starts _ _ _ _ _ _ 1 E).
Defined.

Lemma reopened_connection_closed_witness :
  let tr := (reader_run map_to_list toy_starts (toy_connection, tracker_new 1) (take 2 toy_inputs)).1.2.2 in
  exists tr1, handle_message toy_starts [true; true; true] tr 4 [] (toy_client_envelope 3 [0]) = (Ok (), [], tr1) /\
    (exists ws2 tr2, reader_task_ended [true] toy_connection tr1 0 = (true, ws2, tr2) /\ tr_clients tr2 !! (lit "a", lit "s") = None).
Proof.
  intros tr. pose (c := {| cs_connection_id := 1; cs_last_activity_at := 2; cs_last_inbound_seq_id := Some 2 |}).
  destruct (reopened_connection_closed toy_starts toy_connection tr 4 [] (toy_client_envelope 3 [0]) [0] (lit "s") c 0)
    as (tr1 & c' & E1 & _ & _ & _ & ws2 & tr2 & E2 & E3 & _); [reflexivity|reflexivity|reflexivity|discriminate|vm_compute; reflexivity|vm_compute; reflexivity|].
  exists tr1. split; [exact E1|]. exists ws2, tr2. split; [exact E2|exact E3].
Defined.

Lemma buffer_refines_unacked_witness :
  exists ws' l, outbound_run (Message := list Z) toy_connection [] [OutWrite (ServerMessage (OutNotification toy_message)) (lit "a") (lit "s"); OutAck (lit "a") (lit "s") 1 (Some 1)] = Ok (ws', l) /\
    map se_event l = [ServerMessageChunk 2 3 5 [11]] /\ represents (ws_outbound_buffer ws') l.
Proof.
  destruct (buffer_refines_unacked (Message := list Z) toy_connection [OutWrite (ServerMessage (OutNotification toy_message)) (lit "a") (lit "s"); OutAck (lit "a") (lit "s") 1 (Some 1)] eq_refl)
    as (ws' & l & E & Hr & _). exists ws', l. split; [exact E|]. split; [|exact Hr].
  assert (match outbound_run (Message := list Z) toy_connection [] [OutWrite (ServerMessage (OutNotification toy_message)) (lit "a") (lit "s"); OutAck (lit "a") (lit "s") 1 (Some 1)] with
          | Ok (_, l) => map se_event l | _ => [] end = [ServerMessageChunk 2 3 5 [11]]) as E' by (vm_compute; reflexivity).
  rewrite E in E'. exact E'.
Defined.
