(* ===== verification/AgentPath.v ===== *)
(** * Agent paths

    Models [workx-rs/protocol/src/agent_path.rs]: the names of the agents of a session, as
    the absolute paths of a tree below [/root]. An [AgentPath] is its text; [path_of] is
    the path of a list of names, and the theorems say that the operations on texts are
    those on lists of names. *)
From S2P Require Import Prelude.

Set Default Goal Selector "!".

Definition ROOT : rstr := lit "/root".
Definition MORPHEUS : rstr := lit "/morpheus".
Definition ROOT_SEGMENT : rstr := lit "root".

Definition SLASH : char := 47.

Definition agent_name_char (ch : char) : bool :=
  ((97 <=? ch) && (ch <=? 122) || is_ascii_digit ch || (ch =? 95))%Z.

Definition reserved_name (agent_name : rstr) : rstr := lit "agent_name `" ++ agent_name ++ lit "` is reserved".

Definition validate_agent_name (agent_name : rstr) : res rstr () :=
  if is_empty agent_name then Err (lit "agent_name must not be empty")
  else if agent_name =s ROOT_SEGMENT then Err (lit "agent_name `root` is reserved")
  else if (agent_name =s lit ".") || (agent_name =s lit "..") then Err (reserved_name agent_name)
  else if contains_char SLASH agent_name then Err (lit "agent_name must not contain `/`")
  else if negb (forallb agent_name_char agent_name)
  then Err (lit "agent_name must use only lowercase letters, digits, and underscores")
  else Ok ().

Fixpoint validate_agent_names (segments : list rstr) : res rstr () :=
  match segments with
  | [] => Ok ()
  | segment :: segments => _ ← validate_agent_name segment; validate_agent_names segments
  end.

Definition bad_start : rstr := lit "absolute agent paths must start with `/root` or be `/morpheus`".

Definition validate_absolute_path (path : rstr) : res rstr () :=
  if path =s MORPHEUS then Ok ()
  else
    match strip_prefix [SLASH] path with
    | None => Err bad_start
    | Some stripped =>
        match split_char SLASH stripped with
        | [] => Err (lit "absolute agent path must not be empty")
        | root :: segments =>
            if negb (root =s ROOT_SEGMENT) then Err bad_start
            else if ends_with [SLASH] stripped then Err (lit "absolute agent path must not end with `/`")
            else validate_agent_names segments
        end
    end.

Definition validate_relative_reference (reference : rstr) : res rstr () :=
  if ends_with [SLASH] reference then Err (lit "relative agent path must not end with `/`")
  else validate_agent_names (split_char SLASH reference).

Definition from_string (path : rstr) : res rstr rstr := _ ← validate_absolute_path path; Ok path.

Definition is_root (self : rstr) : bool := self =s ROOT.

Definition agent_name (self : rstr) : rstr :=
  if is_root self then ROOT_SEGMENT
  else
    match List.last (split_char SLASH self) [] with
    | [] => ROOT_SEGMENT
    | segment => segment
    end.

Definition agent_join (self agent_name : rstr) : res rstr rstr :=
  _ ← validate_agent_name agent_name; from_string (self ++ [SLASH] ++ agent_name).

Definition agent_resolve (self reference : rstr) : res rstr rstr :=
  if is_empty reference then Err (lit "agent path must not be empty")
  else if reference =s ROOT then Ok ROOT
  else if starts_with [SLASH] reference then from_string reference
  else _ ← validate_relative_reference reference; from_string (self ++ [SLASH] ++ reference).

(** ** Paths as lists of names *)

Definition valid_name (n : rstr) : Prop := validate_agent_name n = Ok ().

Definition path_of (names : list rstr) : rstr := [SLASH] ++ join [SLASH] (ROOT_SEGMENT :: names).

Lemma valid_name_plain n : valid_name n -> n ≠ [] /\ SLASH ∉ n.
Proof.
  unfold valid_name, validate_agent_name. destruct (is_empty n) eqn:He; [done|]. destruct (n =s ROOT_SEGMENT); [done|].
  destruct (_ || _); [done|]. destruct (contains_char SLASH n) eqn:Hc; [done|]. intros _.
  split; [by apply is_empty_false|by apply contains_char_false].
Qed.

Lemma valid_names_ok ns : validate_agent_names ns = Ok () <-> Forall valid_name ns.
Proof.
  induction ns as [|n ns IH]; cbn; [split; [constructor|done]|]. rewrite Forall_cons, <- IH. unfold valid_name.
  destruct (validate_agent_name n) as [[]|e|]; cbn; [tauto|split; [done|by intros [? _]]..].
Qed.

Lemma valid_names_plain ns : Forall valid_name ns -> Forall (fun n => SLASH ∉ n) ns.
Proof. intros H. eapply Forall_impl; [exact H|]. intros n Hn. by destruct (valid_name_plain n Hn). Qed.

Lemma join_last_slash ns r : ns ≠ [] -> Forall valid_name ns -> join [SLASH] ns ≠ r ++ [SLASH].
Proof.
  intros Hne Hv Heq. assert (split_char SLASH (join [SLASH] ns) = ns) as Hs by (apply split_char_join; [done|by apply valid_names_plain]).
  rewrite Heq, split_char_app in Hs. cbn in Hs. rewrite <- Hs in Hv. apply Forall_app in Hv as [_ Hv].
  apply Forall_inv in Hv. by apply valid_name_plain in Hv as [].
Qed.

Lemma root_plain : SLASH ∉ ROOT_SEGMENT.
Proof. by apply contains_char_false. Qed.

Lemma root_names_plain ns : Forall valid_name ns -> Forall (fun n => SLASH ∉ n) (ROOT_SEGMENT :: ns).
Proof. intros H. constructor; [apply root_plain|by apply valid_names_plain]. Qed.

Lemma split_path ns : Forall valid_name ns -> split_char SLASH (join [SLASH] (ROOT_SEGMENT :: ns)) = ROOT_SEGMENT :: ns.
Proof. intros H. apply split_char_join; [done|by apply root_names_plain]. Qed.

Lemma join_app_names a b : a ≠ [] -> b ≠ [] -> join [SLASH] (a ++ b) = join [SLASH] a ++ [SLASH] ++ join [SLASH] b.
Proof.
  intros Ha Hb. induction a as [|x a IH]; [done|]. destruct a as [|y a]; [by destruct b|].
  change ((x :: y :: a) ++ b) with (x :: (y :: a) ++ b).
  assert (forall l, l ≠ [] -> join [SLASH] (x :: l) = x ++ [SLASH] ++ join [SLASH] l) as Hj by (intros [|z l] ?; done).
  rewrite !Hj, IH by done. by rewrite <- !app_assoc.
Qed.

Lemma path_of_app ns ms : ms ≠ [] -> path_of (ns ++ ms) = path_of ns ++ [SLASH] ++ join [SLASH] ms.
Proof.
  intros Hne. unfold path_of. change (ROOT_SEGMENT :: ns ++ ms) with ((ROOT_SEGMENT :: ns) ++ ms).
  rewrite join_app_names by done. by rewrite <- !app_assoc.
Qed.

Lemma path_of_cons ns ms : ms ≠ [] -> path_of ns ++ SLASH :: join [SLASH] ms = path_of (ns ++ ms).
Proof. intros. by rewrite path_of_app. Qed.

Lemma path_of_no_trailing ns : Forall valid_name ns -> ends_with [SLASH] (join [SLASH] (ROOT_SEGMENT :: ns)) = false.
Proof.
  intros Hv. apply not_true_iff_false. intros H. apply ends_with_true in H as [r Hr]. destruct ns as [|n ns].
  - apply root_plain. change ROOT_SEGMENT with (join [SLASH] [ROOT_SEGMENT]). rewrite Hr. set_solver.
  - change (ROOT_SEGMENT :: n :: ns) with ([ROOT_SEGMENT] ++ n :: ns) in Hr. rewrite join_app_names in Hr by done.
    assert (exists r', join [SLASH] (n :: ns) = r' ++ [SLASH]) as [r' Hr']; [|by eapply join_last_slash in Hr'].
    destruct (join [SLASH] (n :: ns)) as [|c l _] eqn:E using rev_ind.
    + assert (split_char SLASH (join [SLASH] (n :: ns)) = n :: ns) as Hs by (apply split_char_join; [done|by apply valid_names_plain]).
      rewrite E in Hs. apply Forall_inv, valid_name_plain in Hv as []. by simplify_eq/=.
    + exists l. rewrite !app_assoc in Hr. by apply app_inj_tail in Hr as [_ ->].
Qed.

Lemma from_string_Ok p q : from_string p = Ok q <-> validate_absolute_path p = Ok () /\ q = p.
Proof. unfold from_string. destruct (validate_absolute_path p) as [[]|e|]; cbn; [|by split; [done|intros []]..]. split; [by intros [= <-]|by intros [_ ->]]. Qed.

Lemma path_of_valid ns : Forall valid_name ns -> validate_absolute_path (path_of ns) = Ok ().
Proof.
  intros Hv. unfold validate_absolute_path. destruct (path_of ns =s MORPHEUS); [done|]. unfold path_of. rewrite strip_prefix_app, split_path by done.
  rewrite streq_refl. cbn [negb]. rewrite path_of_no_trailing by done. by apply valid_names_ok.
Qed.

Lemma valid_absolute p : validate_absolute_path p = Ok () <-> p = MORPHEUS \/ exists ns, Forall valid_name ns /\ p = path_of ns.
Proof.
  split; [|intros [->|(ns & Hv & ->)]; [done|by apply path_of_valid]].
  unfold validate_absolute_path. destruct (p =s MORPHEUS) eqn:Em; [left; by apply streq_true|]. right.
  destruct (strip_prefix [SLASH] p) as [s|] eqn:Es; [|done]. destruct (split_char SLASH s) as [|root segs] eqn:Esp; [done|].
  destruct (root =s ROOT_SEGMENT) eqn:Er; cbn [negb] in *; [|done]. destruct (ends_with [SLASH] s); [done|].
  exists segs. split; [by apply valid_names_ok|]. apply strip_prefix_Some in Es as ->. apply streq_true in Er as ->.
  unfold path_of. by rewrite <- Esp, join_split_char.
Qed.

Lemma valid_relative r : validate_relative_reference r = Ok () <-> exists ms, ms ≠ [] /\ Forall valid_name ms /\ r = join [SLASH] ms.
Proof.
  unfold validate_relative_reference. split.
  - destruct (ends_with [SLASH] r); [done|]. intros H. exists (split_char SLASH r).
    split; [apply split_char_nonempty|]. split; [by apply valid_names_ok|by rewrite join_split_char].
  - intros (ms & Hne & Hv & ->). destruct (ends_with [SLASH] (join [SLASH] ms)) eqn:E.
    + apply ends_with_true in E as [q Hq]. by eapply join_last_slash in Hq.
    + rewrite split_char_join; [by apply valid_names_ok|done|by apply valid_names_plain].
Qed.

Lemma path_of_not_morpheus_prefix ms : path_of ms ≠ MORPHEUS.
Proof. unfold path_of, MORPHEUS, ROOT_SEGMENT. destruct ms; cbn; done. Qed.

Lemma path_of_inj ns ms : Forall valid_name ns -> Forall valid_name ms -> path_of ns = path_of ms -> ns = ms.
Proof.
  intros Hn Hm H. apply (app_inv_head [SLASH]) in H. apply (f_equal (split_char SLASH)) in H. rewrite !split_path in H by done. by simplify_eq.
Qed.

Lemma relative_not_slash ms : ms ≠ [] -> Forall valid_name ms -> starts_with [SLASH] (join [SLASH] ms) = false /\ is_empty (join [SLASH] ms) = false.
Proof.
  destruct ms as [|m ms]; [done|]. intros _ Hv. apply Forall_inv, valid_name_plain in Hv as [Hne Hs].
  destruct m as [|c m]; [done|]. assert (exists t, join [SLASH] ((c :: m) :: ms) = c :: t) as [t ->] by (destruct ms; cbn; eauto).
  split; [|done]. cbn [starts_with]. rewrite andb_true_r. apply Z.eqb_neq. set_solver.
Qed.

(** Resolving a reference at the path of a list of names gives exactly the valid absolute
    path that the reference is, or the path of the names followed by those of a relative
    reference; nothing else is accepted. *)
Theorem agent_resolve_spec ns reference p :
  Forall valid_name ns ->
  agent_resolve (path_of ns) reference = Ok p <->
  (p = reference /\ (reference = MORPHEUS \/ exists ms, Forall valid_name ms /\ reference = path_of ms))
  \/ (exists ms, ms ≠ [] /\ Forall valid_name ms /\ reference = join [SLASH] ms /\ p = path_of (ns ++ ms)).
Proof.
  intros Hns. unfold agent_resolve. destruct (starts_with [SLASH] reference) eqn:Ea.
  - assert (is_empty reference = false) as -> by (by destruct reference).
    assert ((if reference =s ROOT then Ok ROOT else from_string reference) = from_string reference) as ->.
    { destruct (reference =s ROOT) eqn:Er; [|done]. by apply streq_true in Er as ->. }
    rewrite from_string_Ok, valid_absolute. split; [intros [? ->]; by left|].
    intros [[-> ?]|(ms & Hne & Hv & -> & _)]; [done|]. by destruct (relative_not_slash ms Hne Hv) as [? _]; congruence.
  - assert ((reference =s ROOT) = false) as -> by (apply streq_false; by intros ->).
    split.
    + destruct (is_empty reference); [done|]. destruct (validate_relative_reference reference) as [[]|e|] eqn:Ev; cbn [mbind res_bind app]; [|done..].
      apply valid_relative in Ev as (ms & Hne & Hv & ->). rewrite path_of_cons by done. rewrite from_string_Ok. intros [_ ->].
      right. exists ms. done.
    + intros [[-> [->|(ms & Hv & ->)]]|(ms & Hne & Hv & -> & ->)]; [done..|].
      destruct (relative_not_slash ms Hne Hv) as [_ ->].
      assert (validate_relative_reference (join [SLASH] ms) = Ok ()) as -> by (apply valid_relative; eauto). cbn [mbind res_bind app].
      rewrite path_of_cons by done. apply from_string_Ok. split; [|done]. apply path_of_valid, Forall_app. done.
Qed.

Lemma agent_join_spec ns n p :
  Forall valid_name ns -> agent_join (path_of ns) n = Ok p <-> valid_name n /\ p = path_of (ns ++ [n]).
Proof.
  intros Hns. unfold agent_join, valid_name. destruct (validate_agent_name n) as [[]|e|] eqn:Ev; cbn [mbind res_bind app]; [|by split; [done|intros []]..].
  assert (path_of ns ++ SLASH :: n = path_of (ns ++ [n])) as -> by (by rewrite path_of_app). rewrite from_string_Ok.
  split; [intros [_ ->]; done|]. intros [_ ->]. split; [|done]. apply path_of_valid, Forall_app. split; [done|by constructor].
Qed.

(** The name of a joined path is the name that was joined, and two joins give the same path
    only for the same parent and name: an agent path determines its ancestors. *)
Theorem agent_join_name ns ms n m p :
  Forall valid_name ns -> Forall valid_name ms ->
  agent_join (path_of ns) n = Ok p ->
  agent_name p = n /\ is_root p = false /\ (agent_join (path_of ms) m = Ok p -> ms = ns /\ m = n).
Proof.
  intros Hns Hms [Hn ->]%agent_join_spec; [|done].
  assert (Forall valid_name (ns ++ [n])) as Hall by (apply Forall_app; split; [done|by constructor]).
  assert (is_root (path_of (ns ++ [n])) = false) as Hr.
  { apply streq_false. change ROOT with (path_of []). intros H. apply path_of_inj in H; [by destruct ns|done|constructor]. }
  split_and!; [|done|].
  - unfold agent_name. rewrite Hr. unfold path_of. change ([SLASH] ++ ?x) with (([] : rstr) ++ SLASH :: x).
    rewrite split_char_app_sep by set_solver. rewrite split_path by done.
    rewrite !app_comm_cons, last_snoc_default. by destruct (valid_name_plain n Hn) as [? _]; destruct n.
  - rewrite agent_join_spec by done. intros [Hm H]. apply path_of_inj in H; [|done|apply Forall_app; split; [done|by constructor]].
    apply app_inj_tail in H as [-> ->]. done.
Qed.
