(* ===== verification/AgentRegistry.v ===== *)
(** * The registry of agents

    Models [workx-rs/core/src/agent/registry.rs]: the agents of a session, their paths and
    nicknames, and the slots that limit how many may be spawned. The registry is shared by
    all agents. What happens under its lock is one operation on [ActiveAgents]; the counter
    [total_count] is an atomic of 64 bits outside the lock. Calls run concurrently: a state
    has the registry and the list of calls in progress, reservations that are held among
    them, and a step runs one call up to its next access to shared data.

    A [ThreadId] is a UUID, a number here, and [thread_text] its text; [Env] stands for the
    environments that are kept for an agent. [pick] is what the random generator draws. *)
From stdpp Require Import gmap relations.
From S2P Require Import Prelude Width AgentPath.

Set Default Goal Selector "!".

Abbreviation ThreadId := Z (only parsing).

(** [AtomicUsize::fetch_add] and [fetch_sub] wrap around. *)
Definition wrap_usize (n : Z) : Z := n mod 2 ^ 64.

Inductive SubAgentSource :=
| Review
| Compact
| ThreadSpawn (parent_thread_id : ThreadId) (depth : Z) (agent_path agent_nickname agent_role : option rstr)
| SubMemoryConsolidation
| SubOther (other : rstr).

Inductive InternalSessionSource := InMemoryConsolidation | InGuardian.

Inductive SessionSource :=
| Cli | VSCode | Exec | Mcp
| Custom (source : rstr)
| Internal (source : InternalSessionSource)
| SubAgent (source : SubAgentSource)
| UnknownSource.

Definition I32_MAX : Z := 2 ^ 31 - 1.

Definition session_depth (session_source : SessionSource) : Z :=
  match session_source with
  | SubAgent (ThreadSpawn _ depth _ _ _) => depth
  | SubAgent _ => 0
  | _ => 0
  end.

Definition next_thread_spawn_depth (session_source : SessionSource) : Z :=
  Z.min (session_depth session_source + 1) I32_MAX.

Definition exceeds_thread_spawn_depth_limit (depth max_depth : Z) : bool := (max_depth <? depth)%Z.

Inductive WorkxErr :=
| AgentLimitReached (max_threads : Z)
| UnsupportedOperation (message : rstr).

(** [format_agent_nickname]; the text of the number of resets. *)
Definition ordinal_suffix (value : Z) : rstr :=
  if ((11 <=? value mod 100) && (value mod 100 <=? 13))%Z then lit "th"
  else if (value mod 10 =? 1)%Z then lit "st"
  else if (value mod 10 =? 2)%Z then lit "nd"
  else if (value mod 10 =? 3)%Z then lit "rd"
  else lit "th".

Definition format_agent_nickname (name : rstr) (nickname_reset_count : Z) : rstr :=
  if (nickname_reset_count =? 0)%Z then name
  else
    let value := (nickname_reset_count + 1)%Z in
    name ++ lit " the " ++ dec value ++ ordinal_suffix value.

(** [IndexedRandom::choose]: an element of the slice, if it has any. *)
Definition choose {A} (pick : nat) (l : list A) : option A := l !! (pick mod length l)%nat.

Record AgentMetadata := {
  agent_id : option ThreadId;
  agent_path : option rstr;
  agent_nickname : option rstr;
  agent_role : option rstr;
}.

Definition metadata_default : AgentMetadata :=
  {| agent_id := None; agent_path := None; agent_nickname := None; agent_role := None |}.

Definition has_root_path (metadata : AgentMetadata) : bool :=
  match agent_path metadata with Some p => is_root p | None => false end.

Section AgentRegistry.
Context {Env : Type} (thread_text : ThreadId -> rstr).

Record RegisteredAgent := { path : rstr; evicted_environments : option Env }.

Definition registered_new (path : rstr) : RegisteredAgent := {| path := path; evicted_environments := None |}.

Record ActiveAgents := {
  agent_tree : gmap rstr AgentMetadata;
  thread_paths : gmap ThreadId RegisteredAgent;
  used_agent_nicknames : gset rstr;
  nickname_reset_count : Z;
}.

Definition set_tree (self : ActiveAgents) (tree : gmap rstr AgentMetadata) : ActiveAgents :=
  {| agent_tree := tree; thread_paths := thread_paths self;
     used_agent_nicknames := used_agent_nicknames self; nickname_reset_count := nickname_reset_count self |}.

Definition set_threads (self : ActiveAgents) (threads : gmap ThreadId RegisteredAgent) : ActiveAgents :=
  {| agent_tree := agent_tree self; thread_paths := threads;
     used_agent_nicknames := used_agent_nicknames self; nickname_reset_count := nickname_reset_count self |}.

Definition set_nicknames (self : ActiveAgents) (used : gset rstr) (resets : Z) : ActiveAgents :=
  {| agent_tree := agent_tree self; thread_paths := thread_paths self;
     used_agent_nicknames := used; nickname_reset_count := resets |}.

Record AgentRegistry := { active_agents : ActiveAgents; total_count : Z }.

Definition registry_default : AgentRegistry :=
  {| active_agents := {| agent_tree := ∅; thread_paths := ∅; used_agent_nicknames := ∅; nickname_reset_count := 0 |};
     total_count := 0 |}.

(** ** Under the lock *)

(** The block of [release_spawned_thread]: whether a counted agent was removed. *)
Definition remove_spawned (self : ActiveAgents) (thread_id : ThreadId) : bool * ActiveAgents :=
  match thread_paths self !! thread_id with
  | None => (false, self)
  | Some agent =>
      let self := set_threads self (delete thread_id (thread_paths self)) in
      match agent_tree self !! path agent with
      | None => (false, self)
      | Some metadata =>
          (negb (has_root_path metadata), set_tree self (delete (path agent) (agent_tree self)))
      end
  end.

Definition root_metadata (thread_id : ThreadId) : AgentMetadata :=
  {| agent_id := Some thread_id; agent_path := Some ROOT; agent_nickname := None; agent_role := None |}.

Definition register_root_thread (self : ActiveAgents) (thread_id : ThreadId) : ActiveAgents :=
  let metadata := default (root_metadata thread_id) (agent_tree self !! ROOT) in
  let self := set_tree self (<[ROOT := metadata]> (agent_tree self)) in
  match agent_id metadata with
  | Some root_thread_id =>
      set_threads self (<[root_thread_id := registered_new ROOT]> (thread_paths self))
  | None => self
  end.

Definition agent_id_for_path (self : ActiveAgents) (agent_path : rstr) : option ThreadId :=
  agent_tree self !! agent_path ≫= agent_id.

Definition agent_metadata_for_thread (self : ActiveAgents) (thread_id : ThreadId) : option AgentMetadata :=
  agent ← thread_paths self !! thread_id; agent_tree self !! path agent.

Definition set_environments (self : ActiveAgents) (thread_id : ThreadId) (environments : option Env) : ActiveAgents :=
  match thread_paths self !! thread_id with
  | Some agent =>
      set_threads self
        (<[thread_id := {| path := path agent; evicted_environments := environments |}]> (thread_paths self))
  | None => self
  end.

Definition save_evicted_environments (self : ActiveAgents) (thread_id : ThreadId) (environments : Env) : ActiveAgents :=
  set_environments self thread_id (Some environments).

Definition clear_evicted_environments (self : ActiveAgents) (thread_id : ThreadId) : ActiveAgents :=
  set_environments self thread_id None.

Definition get_evicted_environments (self : ActiveAgents) (thread_id : ThreadId) : option Env :=
  thread_paths self !! thread_id ≫= evicted_environments.

(** An agent that runs in a thread and is not the root. *)
Definition live (metadata : AgentMetadata) : bool :=
  bool_decide (is_Some (agent_id metadata)) && negb (has_root_path metadata).

(** In the order of the map, where the code has that of its hash map. *)
Definition live_agents (self : ActiveAgents) : list AgentMetadata :=
  List.filter live (map_to_list (agent_tree self)).*2.

Definition tree_key (agent_metadata : AgentMetadata) (thread_id : ThreadId) : rstr :=
  default (lit "thread:" ++ thread_text thread_id) (agent_path agent_metadata).

Definition register_spawned_thread (self : ActiveAgents) (agent_metadata : AgentMetadata) : ActiveAgents :=
  match agent_id agent_metadata with
  | None => self
  | Some thread_id =>
      let key := tree_key agent_metadata thread_id in
      let self :=
        match agent_nickname agent_metadata with
        | Some nickname =>
            set_nicknames self ({[nickname]} ∪ used_agent_nicknames self) (nickname_reset_count self)
        | None => self
        end in
      let previous_agent := thread_paths self !! thread_id in
      let self := set_threads self (<[thread_id := registered_new key]> (thread_paths self)) in
      let self :=
        match previous_agent with
        | Some previous_agent =>
            if path previous_agent =s key then self
            else set_tree self (delete (path previous_agent) (agent_tree self))
        | None => self
        end in
      let previous_metadata := agent_tree self !! key in
      let self := set_tree self (<[key := agent_metadata]> (agent_tree self)) in
      match previous_metadata ≫= agent_id with
      | Some previous_thread_id =>
          if (previous_thread_id =? thread_id)%Z then self
          else set_threads self (delete previous_thread_id (thread_paths self))
      | None => self
      end
  end.

Definition reserve_agent_nickname (self : ActiveAgents) (names : list rstr) (preferred : option rstr) (pick : nat)
  : option rstr * ActiveAgents :=
  let used nickname self :=
    (Some nickname, set_nicknames self ({[nickname]} ∪ used_agent_nicknames self) (nickname_reset_count self)) in
  match preferred with
  | Some preferred => used preferred self
  | None =>
      if is_empty names then (None, self)
      else
        let available_names :=
          List.filter (fun name => bool_decide (name ∉ used_agent_nicknames self))
            (map (fun name => format_agent_nickname name (nickname_reset_count self)) names) in
        match choose pick available_names with
        | Some name => used name self
        | None =>
            let self := set_nicknames self ∅ (nickname_reset_count self + 1) in
            match choose pick names with
            | Some name => used (format_agent_nickname name (nickname_reset_count self)) self
            | None => (None, self)
            end
        end
  end.

Definition path_exists (agent_path : rstr) : WorkxErr :=
  UnsupportedOperation (lit "agent path `" ++ agent_path ++ lit "` already exists").

Definition reserve_agent_path (self : ActiveAgents) (agent_path : rstr) : res WorkxErr () * ActiveAgents :=
  match agent_tree self !! agent_path with
  | Some _ => (Err (path_exists agent_path), self)
  | None =>
      (Ok (),
       set_tree self
         (<[agent_path := {| agent_id := None; agent_path := Some agent_path;
                             agent_nickname := None; agent_role := None |}]> (agent_tree self)))
  end.

Definition release_reserved_agent_path (self : ActiveAgents) (agent_path : rstr) : ActiveAgents :=
  match agent_tree self !! agent_path with
  | Some metadata =>
      match agent_id metadata with
      | None => set_tree self (delete agent_path (agent_tree self))
      | Some _ => self
      end
  | None => self
  end.

(** ** Reservations *)

Record SpawnReservation := {
  active : bool;
  reserved_agent_nickname : option rstr;
  reserved_agent_path : option rstr;
}.

Definition reservation_new : SpawnReservation :=
  {| active := true; reserved_agent_nickname := None; reserved_agent_path := None |}.

Definition no_nicknames : WorkxErr := UnsupportedOperation (lit "no available agent nicknames").

Definition reserve_agent_nickname_with_preference (self : ActiveAgents) (r : SpawnReservation) (names : list rstr)
  (preferred : option rstr) (pick : nat) : res WorkxErr rstr * ActiveAgents * SpawnReservation :=
  match reserve_agent_nickname self names preferred pick with
  | (None, self) => (Err no_nicknames, self, r)
  | (Some nickname, self) =>
      (Ok nickname, self,
       {| active := active r; reserved_agent_nickname := Some nickname; reserved_agent_path := reserved_agent_path r |})
  end.

Definition reservation_reserve_path (self : ActiveAgents) (r : SpawnReservation) (agent_path : rstr)
  : res WorkxErr () * ActiveAgents * SpawnReservation :=
  match reserve_agent_path self agent_path with
  | (Ok _, self) =>
      (Ok (), self,
       {| active := active r; reserved_agent_nickname := reserved_agent_nickname r; reserved_agent_path := Some agent_path |})
  | (e, self) => (e, self, r)
  end.

(** [commit] consumes the reservation, whose [drop] then finds it inactive. *)
Definition commit (self : ActiveAgents) (r : SpawnReservation) (agent_metadata : AgentMetadata)
  : ActiveAgents * SpawnReservation :=
  (register_spawned_thread self agent_metadata,
   {| active := false; reserved_agent_nickname := None; reserved_agent_path := None |}).

(** ** Calls in progress *)

(** [reserve_spawn_slot] loads the counter and then tries to exchange it for the next
    value until it succeeds or the limit is reached; without limit it adds at once. A
    reservation that is dropped gives its path back under the lock and then its slot; a
    release takes the agent out under the lock and then gives its slot back. *)
Inductive Pc :=
| ReserveLoad (max_threads : Z)
| ReserveExchange (max_threads current : Z)
| ReserveAdd
| ReserveRefused (max_threads : Z)
| Held (reservation : SpawnReservation)
| DropPath (reservation : SpawnReservation)
| DropCount
| ReleaseLocked (thread_id : ThreadId)
| ReleaseCount
| CallDone.

Record State := { registry : AgentRegistry; calls : list Pc }.

Definition initial : State := {| registry := registry_default; calls := [] |}.

(** What happens next: a call starts ([max_threads] is the limit it was given), a call
    makes its next step ([spurious] lets [compare_exchange_weak] fail without reason), the
    holder of a reservation uses it, or the registry is updated under its lock. *)
Inductive Op :=
| OpReserve (max_threads : option Z)
| OpRelease (thread_id : ThreadId)
| OpStep (i : nat) (spurious : bool)
| OpNickname (i : nat) (names : list rstr) (preferred : option rstr) (pick : nat)
| OpPath (i : nat) (agent_path : rstr)
| OpCommit (i : nat) (agent_metadata : AgentMetadata)
| OpDrop (i : nat)
| OpRoot (thread_id : ThreadId)
| OpSave (thread_id : ThreadId) (environments : Env)
| OpClear (thread_id : ThreadId).

(** One step of a call. *)
Definition exec (self : AgentRegistry) (spurious : bool) (pc : Pc) : option (AgentRegistry * Pc) :=
  let count n := {| active_agents := active_agents self; total_count := wrap_usize n |} in
  match pc with
  | ReserveLoad max_threads =>
      let current := total_count self in
      Some (self, if (max_threads <=? current)%Z then ReserveRefused max_threads else ReserveExchange max_threads current)
  | ReserveExchange max_threads current =>
      if (total_count self =? current)%Z && negb spurious then
        Some (count (current + 1)%Z, Held reservation_new)
      else
        let updated := total_count self in
        Some (self, if (max_threads <=? updated)%Z then ReserveRefused max_threads else ReserveExchange max_threads updated)
  | ReserveAdd => Some (count (total_count self + 1)%Z, Held reservation_new)
  | DropPath reservation =>
      if active reservation then
        let agents :=
          match reserved_agent_path reservation with
          | Some agent_path => release_reserved_agent_path (active_agents self) agent_path
          | None => active_agents self
          end in
        Some ({| active_agents := agents; total_count := total_count self |}, DropCount)
      else Some (self, CallDone)
  | DropCount => Some (count (total_count self - 1)%Z, CallDone)
  | ReleaseLocked thread_id =>
      let '(removed_counted_agent, agents) := remove_spawned (active_agents self) thread_id in
      Some ({| active_agents := agents; total_count := total_count self |},
            if removed_counted_agent then ReleaseCount else CallDone)
  | ReleaseCount => Some (count (total_count self - 1)%Z, CallDone)
  | ReserveRefused _ | Held _ | CallDone => None
  end.

Definition with_agents (st : State) (agents : ActiveAgents) : State :=
  {| registry := {| active_agents := agents; total_count := total_count (registry st) |}; calls := calls st |}.

Definition with_call (st : State) (i : nat) (pc : Pc) : State :=
  {| registry := registry st; calls := <[i := pc]> (calls st) |}.

Definition start (st : State) (pc : Pc) : State := {| registry := registry st; calls := calls st ++ [pc] |}.

Definition held (st : State) (i : nat) : option SpawnReservation :=
  match calls st !! i with Some (Held r) => Some r | _ => None end.

Definition agents (st : State) : ActiveAgents := active_agents (registry st).

Definition apply (st : State) (op : Op) : option State :=
  match op with
  | OpReserve (Some max_threads) => Some (start st (ReserveLoad max_threads))
  | OpReserve None => Some (start st ReserveAdd)
  | OpRelease thread_id => Some (start st (ReleaseLocked thread_id))
  | OpStep i spurious =>
      pc ← calls st !! i;
      '(self, pc) ← exec (registry st) spurious pc;
      Some {| registry := self; calls := <[i := pc]> (calls st) |}
  | OpNickname i names preferred pick =>
      r ← held st i;
      let '(_, agents, r) := reserve_agent_nickname_with_preference (agents st) r names preferred pick in
      Some (with_call (with_agents st agents) i (Held r))
  | OpPath i agent_path =>
      r ← held st i;
      let '(_, agents, r) := reservation_reserve_path (agents st) r agent_path in
      Some (with_call (with_agents st agents) i (Held r))
  | OpCommit i agent_metadata =>
      r ← held st i;
      let '(agents, r) := commit (agents st) r agent_metadata in
      Some (with_call (with_agents st agents) i (DropPath r))
  | OpDrop i => r ← held st i; Some (with_call st i (DropPath r))
  | OpRoot thread_id => Some (with_agents st (register_root_thread (agents st) thread_id))
  | OpSave thread_id environments => Some (with_agents st (save_evicted_environments (agents st) thread_id environments))
  | OpClear thread_id => Some (with_agents st (clear_evicted_environments (agents st) thread_id))
  end.

Fixpoint run (ops : list Op) (st : State) : option State :=
  match ops with
  | [] => Some st
  | op :: ops => st ← apply st op; run ops st
  end.

End AgentRegistry.
Arguments RegisteredAgent : clear implicits.
Arguments ActiveAgents : clear implicits.
Arguments AgentRegistry : clear implicits.
Arguments State : clear implicits.
Arguments Op : clear implicits.
