(* ===== verification/AgentRegistryProps.v ===== *)
(** * Properties of the registry of agents

    The counter of spawned agents bounds the agents that live and the reservations that are
    held, in every interleaving of the calls ([spawn_limit_respected]); for callers that use
    a reservation for the agent it was made for, the counter is exact, the two indexes of
    the registry are inverse and a path is refused exactly while it is in use
    ([registry_accounts]); nicknames drawn from a pool are not given twice
    ([nicknames_never_repeat]). *)
From stdpp Require Import gmap relations.
From S2P Require Import Prelude Width AgentPath AgentRegistry.

Set Default Goal Selector "!".

Local Open Scope Z_scope.

(** ** Counting *)

(** The slots that a call in progress accounts for. *)
Definition slot (pc : Pc) : Z :=
  match pc with
  | Held r | DropPath r => if active r then 1 else 0
  | DropCount | ReleaseCount => 1
  | _ => 0
  end.

Fixpoint slots (calls : list Pc) : Z :=
  match calls with [] => 0 | pc :: calls => slot pc + slots calls end.

Lemma slot_bounds pc : 0 <= slot pc <= 1.
Proof. destruct pc as [| | | |r|r| | | |]; cbn; try lia; destruct (active r); lia. Qed.

Lemma slots_nonneg calls : 0 <= slots calls.
Proof. induction calls as [|pc calls IH]; cbn; [lia|]. pose proof (slot_bounds pc). lia. Qed.

Lemma slots_app a b : slots (a ++ b) = slots a + slots b.
Proof. induction a as [|pc a IH]; cbn; lia. Qed.

Lemma slots_insert calls i pc pc' :
  calls !! i = Some pc -> slots (<[i := pc']> calls) = slots calls - slot pc + slot pc'.
Proof.
  revert i. induction calls as [|x calls IH]; intros [|i] H; [done|done|cbn in H; simplify_eq; cbn; lia|].
  change (<[S i := pc']> (x :: calls)) with (x :: <[i := pc']> calls). cbn [slots]. rewrite (IH i) by done. lia.
Qed.

Definition is_live (kv : rstr * AgentMetadata) : Prop := live kv.2 = true.
#[export] Instance is_live_dec kv : Decision (is_live kv) := decide (live kv.2 = true).

Definition nlive (tree : gmap rstr AgentMetadata) : Z := Z.of_nat (size (filter is_live tree)).

Lemma filter_snd_length (l : list (rstr * AgentMetadata)) : length (List.filter live l.*2) = length (filter is_live l).
Proof.
  induction l as [|[k m] l IH]; [done|]. cbn [fmap list_fmap List.filter snd]. rewrite filter_cons.
  destruct (live m) eqn:E; destruct (decide (is_live (k, m))) as [H|H]; cbn; [by rewrite IH|by destruct H|unfold is_live in H; cbn in H; congruence|done].
Qed.

Lemma live_agents_count {Env} (a : ActiveAgents Env) : Z.of_nat (length (live_agents a)) = nlive (agent_tree a).
Proof.
  unfold live_agents, nlive. f_equal. rewrite filter_snd_length, map_filter_alt, map_size_list_to_map; [done|].
  eapply sublist_NoDup; [apply (NoDup_fst_map_to_list (agent_tree a))|]. apply fmap_sublist, sublist_filter.
Qed.

Lemma nlive_nonneg tree : 0 <= nlive tree.
Proof. unfold nlive. lia. Qed.

(** What an entry counts for. *)
Definition weight (o : option AgentMetadata) : Z := match o with Some m => if live m then 1 else 0 | None => 0 end.

Lemma weight_bounds o : 0 <= weight o <= 1.
Proof. destruct o as [m|]; cbn; [destruct (live m)|]; lia. Qed.

Lemma nlive_delete tree k : nlive (delete k tree) = nlive tree - weight (tree !! k).
Proof.
  unfold nlive. rewrite map_filter_delete. destruct (tree !! k) as [m|] eqn:E; cbn.
  - destruct (live m) eqn:El.
    + assert (filter is_live tree !! k = Some m) as Hf by (by apply map_lookup_filter_Some).
      rewrite map_size_delete, Hf. cbn. assert (size (filter is_live tree) ≠ 0%nat); [|lia].
      intros H0. apply map_size_empty_inv in H0. by rewrite H0, lookup_empty in Hf.
    + rewrite delete_id; [lia|]. apply map_lookup_filter_None. right. intros x ?. simplify_eq. unfold is_live. cbn. congruence.
  - rewrite delete_id; [lia|]. apply map_lookup_filter_None. by left.
Qed.

Lemma nlive_insert tree k m : nlive (<[k := m]> tree) = nlive tree - weight (tree !! k) + weight (Some m).
Proof.
  rewrite <- (insert_delete_eq tree k m). rewrite <- nlive_delete. unfold nlive. cbn.
  set (t := delete k tree). assert (t !! k = None) as Hk by apply lookup_delete_eq.
  assert (filter is_live t !! k = None) as Hf by (apply map_lookup_filter_None; by left).
  destruct (live m) eqn:E.
  - rewrite map_filter_insert_True by done. rewrite map_size_insert_None by done. lia.
  - rewrite map_filter_insert_not' by (intros; simplify_eq; unfold is_live; cbn; congruence). lia.
Qed.

(** ** The ledger *)

Section Props.
Context {Env : Type} (thread_text : ThreadId -> rstr).
Implicit Types (a : ActiveAgents Env) (st : State Env).

(** A thread is registered under a path whose entry names it. *)
Definition threads_ok a : Prop :=
  forall t agent, thread_paths a !! t = Some agent ->
  exists m, agent_tree a !! path agent = Some m /\ agent_id m = Some t.

Definition held_active (calls : list Pc) : Prop := forall i r, calls !! i = Some (Held r) -> active r = true.

Definition count st : Z := total_count (registry st).

(** The counter is at least what the calls and the agents account for; [leak] is the rest. *)
Record ledger st (leak : Z) : Prop := {
  l_threads : threads_ok (agents st);
  l_held : held_active (calls st);
  l_leak : 0 <= leak;
  l_count : count st = slots (calls st) + nlive (agent_tree (agents st)) + leak;
}.

(** ** Operations under the lock *)

Lemma remove_spawned_spec a t :
  threads_ok a ->
  let '(removed, a') := remove_spawned a t in
  threads_ok a' /\ nlive (agent_tree a') = nlive (agent_tree a) - (if removed then 1 else 0).
Proof.
  intros Hw. unfold remove_spawned. destruct (thread_paths a !! t) as [agent|] eqn:Et; [|split; [done|cbn; lia]].
  destruct (Hw t agent Et) as (m & Hm & Hid). cbn [agent_tree set_threads]. rewrite Hm. split.
  - intros t' agent'. cbn. rewrite lookup_delete_Some. intros [Hne Ht']. destruct (Hw t' agent' Ht') as (m' & Hm' & Hid').
    exists m'. split; [|done]. rewrite lookup_delete_ne; [done|]. intros Hp. rewrite Hp in Hm. congruence.
  - cbn. rewrite nlive_delete, Hm. cbn. unfold live. rewrite Hid. rewrite bool_decide_eq_true_2 by eauto. cbn.
    by destruct (has_root_path m).
Qed.

Lemma register_root_spec a t :
  threads_ok a ->
  threads_ok (register_root_thread a t) /\ nlive (agent_tree (register_root_thread a t)) = nlive (agent_tree a).
Proof.
  intros Hw. unfold register_root_thread. cbn zeta. set (m := default (root_metadata t) (agent_tree a !! ROOT)).
  assert (weight (Some m) = weight (agent_tree a !! ROOT)) as Hwt.
  { subst m. destruct (agent_tree a !! ROOT); [done|]. cbn. reflexivity. }
  assert (forall b : ActiveAgents Env, agent_tree b = <[ROOT := m]> (agent_tree a) -> nlive (agent_tree b) = nlive (agent_tree a)) as Hn.
  { intros b ->. rewrite nlive_insert. lia. }
  assert (forall t' agent, thread_paths a !! t' = Some agent ->
          exists m', <[ROOT := m]> (agent_tree a) !! path agent = Some m' /\ agent_id m' = Some t') as Hk.
  { intros t' agent Ht. destruct (Hw t' agent Ht) as (m' & Hm & Hid). destruct (decide (path agent = ROOT)) as [Hp|Hp].
    - exists m'. rewrite Hp, lookup_insert_eq. rewrite Hp in Hm. subst m. by rewrite Hm.
    - exists m'. by rewrite lookup_insert_ne. }
  destruct (agent_id m) as [t0|] eqn:Ei; (split; [|by apply Hn]); intros t' agent; cbn; [|apply Hk].
  rewrite lookup_insert_Some. intros [[<- <-]|[_ Ht]]; [|by apply Hk]. exists m. cbn. by rewrite lookup_insert_eq.
Qed.

Lemma set_environments_spec a t e :
  threads_ok a -> threads_ok (set_environments a t e) /\ agent_tree (set_environments a t e) = agent_tree a.
Proof.
  intros Hw. unfold set_environments. destruct (thread_paths a !! t) as [agent|] eqn:Et; [|done]. split; [|done].
  intros t' agent'. cbn. rewrite lookup_insert_Some. intros [[<- <-]|[_ Ht]]; [exact (Hw t agent Et)|exact (Hw t' agent' Ht)].
Qed.

Lemma reserve_path_spec a p :
  threads_ok a ->
  threads_ok (reserve_agent_path a p).2 /\ nlive (agent_tree (reserve_agent_path a p).2) = nlive (agent_tree a).
Proof.
  intros Hw. unfold reserve_agent_path. destruct (agent_tree a !! p) as [m|] eqn:Ep; cbn; [done|]. split.
  - intros t agent Ht. cbn in *. destruct (Hw t agent Ht) as (m & Hm & Hid). exists m. split; [|done].
    rewrite lookup_insert_ne; [done|congruence].
  - rewrite nlive_insert, Ep. cbn. lia.
Qed.

Lemma release_path_spec a p :
  threads_ok a ->
  threads_ok (release_reserved_agent_path a p)
  /\ nlive (agent_tree (release_reserved_agent_path a p)) = nlive (agent_tree a).
Proof.
  intros Hw. unfold release_reserved_agent_path. destruct (agent_tree a !! p) as [m|] eqn:Ep; [|done].
  destruct (agent_id m) eqn:Ei; [done|]. split.
  - intros t agent Ht. cbn in *. destruct (Hw t agent Ht) as (m' & Hm & Hid). exists m'. split; [|done].
    rewrite lookup_delete_ne; [done|congruence].
  - cbn. rewrite nlive_delete, Ep. cbn. unfold live. rewrite Ei. rewrite bool_decide_eq_false_2 by (by intros []). cbn. lia.
Qed.

Lemma nickname_spec a names preferred pick :
  agent_tree (reserve_agent_nickname a names preferred pick).2 = agent_tree a
  /\ thread_paths (reserve_agent_nickname a names preferred pick).2 = thread_paths a.
Proof.
  unfold reserve_agent_nickname. destruct preferred; [done|]. destruct (is_empty names); [done|]. cbn zeta.
  destruct (choose _ _); [done|]. by destruct (choose _ _).
Qed.

(** The tree in which [register_spawned_thread] makes its entry: without the entry under
    which the thread was registered before. *)
Definition tree_before a (t : ThreadId) (key : rstr) : gmap rstr AgentMetadata :=
  match thread_paths a !! t with
  | Some previous => if path previous =s key then agent_tree a else delete (path previous) (agent_tree a)
  | None => agent_tree a
  end.

Lemma register_spawned_tree a m t :
  agent_id m = Some t ->
  agent_tree (register_spawned_thread thread_text a m)
  = <[tree_key thread_text m t := m]> (tree_before a t (tree_key thread_text m t)).
Proof.
  intros Hid. unfold register_spawned_thread. rewrite Hid. cbn zeta.
  set (key := tree_key thread_text m t). set (a1 := match agent_nickname m with Some _ => _ | None => _ end).
  assert (agent_tree a1 = agent_tree a /\ thread_paths a1 = thread_paths a) as [Ht Hp] by (subst a1; by destruct (agent_nickname m)).
  unfold tree_before. rewrite Hp. clearbody a1. cbn.
  destruct (thread_paths a !! t) as [pa|]; [destruct (path pa =s key)|]; cbn; rewrite <- ?Ht, <- ?Hp;
    repeat match goal with |- context [match ?x with Some _ => _ | None => _ end] => destruct x; cbn end;
    repeat match goal with |- context [if ?b then _ else _] => destruct b; cbn end; done.
Qed.

Lemma register_spawned_threads a m t t' agent :
  agent_id m = Some t ->
  let key := tree_key thread_text m t in
  thread_paths (register_spawned_thread thread_text a m) !! t' = Some agent <->
  (t' = t /\ agent = registered_new key)
  \/ (t' ≠ t /\ thread_paths a !! t' = Some agent /\ tree_before a t key !! key ≫= agent_id ≠ Some t').
Proof.
  intros Hid key. unfold register_spawned_thread. rewrite Hid. cbn zeta. fold key.
  set (a1 := match agent_nickname m with Some _ => _ | None => _ end).
  assert (agent_tree a1 = agent_tree a /\ thread_paths a1 = thread_paths a) as [Ht Hp] by (subst a1; by destruct (agent_nickname m)).
  clearbody a1. set (a2 := match thread_paths a1 !! t with Some _ => _ | None => _ end).
  assert (agent_tree a2 = tree_before a t key /\ thread_paths a2 = <[t := registered_new key]> (thread_paths a)) as [Ht2 Hp2].
  { subst a2. unfold tree_before. rewrite Hp, <- Ht. destruct (thread_paths a !! t) as [pa|]; [|done]. by destruct (path pa =s key). }
  clearbody a2. rewrite Ht2. set (o := tree_before a t key !! key ≫= agent_id).
  destruct o as [t0|] eqn:Eo; cbn; [destruct (Z.eqb_spec t0 t) as [->|Hne]; cbn|]; rewrite Hp2;
    rewrite ?lookup_delete_Some, ?lookup_insert_Some; split; intros H; destruct_and?; destruct_or?; destruct_and?; simplify_eq; auto;
    try (right; split_and!; congruence); try (left; split; congruence);
    try (split; [congruence|]; auto; right; split; congruence); try (right; split; congruence).
Qed.

Lemma tree_before_lookup a t key k :
  tree_before a t key !! k = agent_tree a !! k
  \/ (tree_before a t key !! k = None /\ k ≠ key /\ exists previous, thread_paths a !! t = Some previous /\ path previous = k).
Proof.
  unfold tree_before. destruct (thread_paths a !! t) as [pa|]; [|by left]. destruct (path pa =s key) eqn:E; [by left|].
  apply streq_false in E. destruct (decide (path pa = k)) as [<-|Hne]; [|left; by rewrite lookup_delete_ne].
  right. rewrite lookup_delete_eq. eauto.
Qed.

Lemma tree_before_key a t key : tree_before a t key !! key = agent_tree a !! key.
Proof. by destruct (tree_before_lookup a t key key) as [?|(_ & ? & _)]. Qed.

Lemma nlive_tree_before a t key : nlive (tree_before a t key) <= nlive (agent_tree a).
Proof.
  unfold tree_before. destruct (thread_paths a !! t) as [pa|]; [|lia]. destruct (path pa =s key); [lia|].
  rewrite nlive_delete. pose proof (weight_bounds (agent_tree a !! path pa)). lia.
Qed.

Lemma register_spawned_ok a m : threads_ok a -> threads_ok (register_spawned_thread thread_text a m).
Proof.
  intros Hw. destruct (agent_id m) as [t|] eqn:Hid; [|by unfold register_spawned_thread; rewrite Hid].
  intros t' agent. rewrite (register_spawned_threads a m t t' agent Hid), (register_spawned_tree a m t Hid).
  intros [[-> ->]|(Hne & Ht & Hprev)]; [exists m; cbn; by rewrite lookup_insert_eq|].
  destruct (Hw t' agent Ht) as (m' & Hm & Hid'). exists m'. split; [|done].
  rewrite tree_before_key in Hprev. destruct (decide (path agent = tree_key thread_text m t)) as [Hp|Hp].
  { destruct Hprev. rewrite <- Hp, Hm. cbn. done. }
  rewrite lookup_insert_ne by done. destruct (tree_before_lookup a t (tree_key thread_text m t) (path agent)) as [->|(_ & _ & pa & Hpa & Hpath)]; [done|].
  destruct (Hw t pa Hpa) as (m0 & Hm0 & Hid0). rewrite Hpath in Hm0. congruence.
Qed.

Lemma register_spawned_live a m :
  nlive (agent_tree (register_spawned_thread thread_text a m)) <= nlive (agent_tree a) + 1.
Proof.
  destruct (agent_id m) as [t|] eqn:Hid; [|unfold register_spawned_thread; rewrite Hid; lia].
  rewrite (register_spawned_tree a m t Hid), nlive_insert. pose proof (nlive_tree_before a t (tree_key thread_text m t)).
  pose proof (weight_bounds (Some m)). pose proof (weight_bounds (tree_before a t (tree_key thread_text m t) !! tree_key thread_text m t)). lia.
Qed.

(** ** The steps *)

Lemma wrap_small n : 0 <= n <= USIZE_MAX -> wrap_usize n = n.
Proof. unfold USIZE_MAX, wrap_usize. intros. apply Z.mod_small. lia. Qed.

Lemma held_active_insert (l : list Pc) i pc :
  held_active l -> (forall r, pc = Held r -> active r = true) -> held_active (<[i := pc]> l).
Proof.
  intros Hh Hpc j r [(-> & Hp & _)|(_ & Hj)]%list_lookup_insert_Some; [by apply Hpc|by eapply Hh].
Qed.

Lemma held_active_app (l : list Pc) pc :
  held_active l -> (forall r, pc ≠ Held r) -> held_active (l ++ [pc]).
Proof.
  intros Hh Hpc j r Hj. apply lookup_app_Some in Hj as [Hj|[_ Hj]]; [by eapply Hh|]. apply list_lookup_singleton_Some in Hj as [_ Hp]. by destruct (Hpc r).
Qed.

Lemma held_call st i r : held st i = Some r -> calls st !! i = Some (Held r).
Proof. unfold held. destruct (calls st !! i) as [[]|]; by intros [= ->]. Qed.

(** What a commit adds to the leak: the slot that the registration does not account for. *)
Definition charge st (op : Op Env) st' : Z :=
  match op with
  | OpCommit _ _ => 1 + nlive (agent_tree (agents st)) - nlive (agent_tree (agents st'))
  | _ => 0
  end.

(** A step that leaves the counter alone. *)
Lemma ledger_same_count st st' leak leak' :
  ledger st leak -> count st' = count st -> threads_ok (agents st') -> held_active (calls st') -> 0 <= leak' ->
  slots (calls st') + nlive (agent_tree (agents st')) + leak' = slots (calls st) + nlive (agent_tree (agents st)) + leak ->
  ledger st' leak'.
Proof. intros [] Hc ? ? ? ?. split; [done..|]. lia. Qed.

Lemma exec_ledger st i spurious pc self pc' leak :
  ledger st leak -> count st < USIZE_MAX ->
  calls st !! i = Some pc -> exec (registry st) spurious pc = Some (self, pc') ->
  ledger {| registry := self; calls := <[i := pc']> (calls st) |} leak.
Proof.
  intros Hl Hb Hi He. pose proof Hl as [Ht Hh Hk Hc]. pose proof (slots_nonneg (calls st)). pose proof (nlive_nonneg (agent_tree (agents st))).
  pose proof (slots_insert _ _ _ pc' Hi) as Hs. pose proof (held_active_insert (calls st) i pc' Hh) as Hh'.
  assert (slot pc <= slots (calls st)) as Hle.
  { pose proof (slots_insert _ _ _ CallDone Hi) as Hs0. pose proof (slots_nonneg (<[i := CallDone]> (calls st))). cbn in Hs0. lia. }
  unfold count, agents in *. destruct pc as [m|m c| | |r|r| |t| |]; cbn in He; simplify_eq.
  - split; unfold count, agents; cbn; [done|apply Hh'; intros; by destruct (_ <=? _)|done|]. rewrite Hs. unfold count, agents; cbn. destruct (_ <=? _); cbn; lia.
  - destruct (total_count (registry st) =? c) eqn:E; [destruct spurious|]; cbn in He; simplify_eq.
    + split; unfold count, agents; cbn; [done|apply Hh'; intros; by destruct (_ <=? _)|done|]. rewrite Hs. unfold count, agents; cbn. destruct (_ <=? _); cbn; lia.
    + apply Z.eqb_eq in E. split; unfold count, agents; cbn; [done|apply Hh'; by intros ? [= <-]|done|]. rewrite wrap_small, Hs by lia. unfold count, agents; cbn. lia.
    + split; unfold count, agents; cbn; [done|apply Hh'; intros; by destruct (_ <=? _)|done|]. rewrite Hs. unfold count, agents; cbn. destruct (_ <=? _); cbn; lia.
  - split; unfold count, agents; cbn; [done|apply Hh'; by intros ? [= <-]|done|]. rewrite wrap_small, Hs by lia. unfold count, agents; cbn. lia.
  - destruct (active r) eqn:Ea; simplify_eq.
    + set (a' := match reserved_agent_path r with Some _ => _ | None => _ end).
      assert (threads_ok a' /\ nlive (agent_tree a') = nlive (agent_tree (active_agents (registry st)))) as [Hok Hn].
      { subst a'. destruct (reserved_agent_path r) as [p|]; [by apply release_path_spec|done]. }
      split; unfold count, agents; cbn; [done|by apply Hh'|done|]. unfold count, agents. cbn. rewrite Hs, Hn. cbn. rewrite Ea. lia.
    + split; unfold count, agents; cbn; [done|by apply Hh'|done|]. rewrite Hs. cbn. rewrite Ea. unfold count, agents. cbn. lia.
  - split; unfold count, agents; cbn; [done|by apply Hh'|done|]. rewrite wrap_small by (cbn in Hle; lia). rewrite Hs. cbn. unfold count, agents. cbn. lia.
  - pose proof (remove_spawned_spec (active_agents (registry st)) t Ht) as Hr.
    destruct (remove_spawned _ t) as [b a']. destruct Hr as [Hok Hn]. simplify_eq.
    split; unfold count, agents; cbn; [done|apply Hh'; intros; by destruct b|done|]. unfold count, agents. cbn. rewrite Hs, Hn. destruct b; cbn; lia.
  - split; unfold count, agents; cbn; [done|by apply Hh'|done|]. rewrite wrap_small by (cbn in Hle; lia). rewrite Hs. cbn. unfold count, agents. cbn. lia.
Qed.

Lemma apply_ledger st op st' leak :
  ledger st leak -> count st < USIZE_MAX -> apply thread_text st op = Some st' ->
  0 <= charge st op st' /\ ledger st' (leak + charge st op st').
Proof.
  intros Hl Hb Ha. pose proof Hl as [Ht Hh Hk Hc].
  destruct op as [[m|]|t|i sp|i names pref pick|i p|i m|i|t|t e|t]; cbn in Ha.
  1-3: simplify_eq; split; [cbn; lia|]; eapply ledger_same_count; [exact Hl|done|done| |cbn; lia|]; cbn; [by apply held_active_app|rewrite slots_app; cbn; unfold agents; cbn; lia].
  - split; [cbn; lia|]. cbn [charge]. rewrite Z.add_0_r.
    destruct (calls st !! i) as [pc|] eqn:Hi; [|done]. cbn in Ha. destruct (exec _ _ _) as [[self pc']|] eqn:He; [|done]. cbn in Ha. simplify_eq. by eapply exec_ledger.
  - pose proof (nickname_spec (agents st) names pref pick) as [Hn1 Hn2]. split; [cbn; lia|]. cbn [charge]. rewrite Z.add_0_r.
    destruct (held st i) as [rr|] eqn:Hi; [|done]. cbn in Ha. apply held_call in Hi. pose proof (Hh i rr Hi) as Hr.
    unfold reserve_agent_nickname_with_preference in Ha. destruct (reserve_agent_nickname (agents st) names pref pick) as [[n|] a'] eqn:E; cbn in Hn1, Hn2; simplify_eq;
      (eapply ledger_same_count; [exact Hl|done| | |done|]; cbn).
    1,4: intros t ag; cbn; rewrite Hn1, Hn2; apply Ht.
    1,3: apply held_active_insert; [done|by intros ? [= <-]].
    1,2: unfold agents; cbn; rewrite Hn1, (slots_insert _ _ _ _ Hi); cbn; rewrite Hr; unfold agents; lia.
  - pose proof (reserve_path_spec (agents st) p Ht) as [Hn1 Hn2]. split; [cbn; lia|]. cbn [charge]. rewrite Z.add_0_r.
    destruct (held st i) as [rr|] eqn:Hi; [|done]. cbn in Ha. apply held_call in Hi. pose proof (Hh i rr Hi) as Hr.
    unfold reservation_reserve_path in Ha. destruct (reserve_agent_path (agents st) p) as [[[]|e|] a'] eqn:E; cbn in Hn1, Hn2; simplify_eq;
      (eapply ledger_same_count; [exact Hl|done|done| |done|]; cbn).
    1,3,5: apply held_active_insert; [done|by intros ? [= <-]].
    1-3: unfold agents; cbn; rewrite Hn2, (slots_insert _ _ _ _ Hi); cbn; rewrite Hr; unfold agents; lia.
  - destruct (held st i) as [rr|] eqn:Hi; [|done]. cbn in Ha. apply held_call in Hi. pose proof (Hh i rr Hi) as Hr.
    unfold commit in Ha. simplify_eq. cbn [charge]. set (st' := with_call _ _ _).
    assert (agents st' = register_spawned_thread thread_text (agents st) m) as Ea by done.
    pose proof (register_spawned_live (agents st) m). rewrite Ea. split; [lia|].
    eapply ledger_same_count; [exact Hl|done|rewrite Ea; by apply register_spawned_ok|by apply held_active_insert|lia|].
    rewrite Ea. subst st'. cbn. rewrite (slots_insert _ _ _ _ Hi). cbn. rewrite Hr. lia.
  - destruct (held st i) as [rr|] eqn:Hi; [|done]. cbn in Ha. apply held_call in Hi. simplify_eq. split; [cbn; lia|]. cbn [charge]. rewrite Z.add_0_r.
    eapply ledger_same_count; [exact Hl|done|done| |done|]; cbn; [by apply held_active_insert|]. unfold agents. cbn.
    rewrite (slots_insert _ _ _ _ Hi). cbn. unfold agents. lia.
  - simplify_eq. split; [cbn; lia|]. cbn [charge]. rewrite Z.add_0_r. destruct (register_root_spec (agents st) t Ht) as [? Hn].
    eapply ledger_same_count; [exact Hl|done|done|done|done|]. change (agents (with_agents st ?x)) with x. by rewrite Hn.
  - simplify_eq. split; [cbn; lia|]. cbn [charge]. rewrite Z.add_0_r. destruct (set_environments_spec (agents st) t (Some e) Ht) as [? Hn].
    eapply ledger_same_count; [exact Hl|done|done|done|done|]. change (agents (with_agents st ?x)) with x. unfold save_evicted_environments. by rewrite Hn.
  - simplify_eq. split; [cbn; lia|]. cbn [charge]. rewrite Z.add_0_r. destruct (set_environments_spec (agents st) t None Ht) as [? Hn].
    eapply ledger_same_count; [exact Hl|done|done|done|done|]. change (agents (with_agents st ?x)) with x. unfold clear_evicted_environments. by rewrite Hn.
Qed.

Lemma initial_ledger : ledger initial 0.
Proof. split; [by intros t ag|by intros i r|lia|reflexivity]. Qed.

(** ** Limits *)

Definition op_within (limit : Z) (op : Op Env) : bool :=
  match op with
  | OpReserve (Some max_threads) => max_threads <=? limit
  | OpReserve None => false
  | _ => true
  end.

Definition pc_within (limit : Z) (pc : Pc) : Prop :=
  match pc with
  | ReserveLoad max_threads => max_threads <= limit
  | ReserveExchange max_threads current => current < max_threads <= limit
  | ReserveAdd => False
  | _ => True
  end.

Definition limited (limit : Z) st : Prop := count st <= limit /\ Forall (pc_within limit) (calls st).

Lemma limited_call limit st i pc self :
  limited limit st -> pc_within limit pc -> total_count self <= limit ->
  limited limit {| registry := self; calls := <[i := pc]> (calls st) |}.
Proof. intros [Hc Hf] Hp Hs. split; [done|]. cbn. by apply Forall_insert. Qed.

Lemma exec_limited limit st leak i spurious pc self pc' :
  ledger st leak -> limit < USIZE_MAX -> limited limit st ->
  calls st !! i = Some pc -> exec (registry st) spurious pc = Some (self, pc') ->
  pc_within limit pc' /\ total_count self <= limit.
Proof.
  intros [_ _ Hk Hc] Hl [Hb Hf] Hi He. pose proof (nlive_nonneg (agent_tree (agents st))) as Hn.
  assert (slot pc <= slots (calls st)) as Hle.
  { pose proof (slots_insert _ _ _ CallDone Hi) as Hs0. pose proof (slots_nonneg (<[i := CallDone]> (calls st))). cbn in Hs0. lia. }
  pose proof (slot_bounds pc) as Hsb. pose proof (Forall_lookup_1 _ _ _ _ Hf Hi) as Hp.
  unfold count in *. destruct pc as [m|m c| | |r|r| |t| |]; cbn in He, Hp, Hle; simplify_eq.
  - split; [|done]. destruct (_ <=? _) eqn:E; cbn; [done|lia].
  - destruct (total_count (registry st) =? c) eqn:E; [destruct spurious|]; cbn in He; simplify_eq; (split; [|cbn; try rewrite wrap_small; lia]).
    1,3: destruct (_ <=? _) eqn:E'; cbn; [done|lia]. done.
  - done.
  - destruct (active r); by simplify_eq.
  - split; [done|]. cbn. rewrite wrap_small; lia.
  - destruct (remove_spawned _ t) as [b a']. simplify_eq. by destruct b.
  - split; [done|]. cbn. rewrite wrap_small; lia.
Qed.

Lemma apply_limited limit st leak op st' :
  ledger st leak -> limit < USIZE_MAX -> limited limit st -> op_within limit op = true ->
  apply thread_text st op = Some st' -> limited limit st'.
Proof.
  intros Hg Hl Hm Ho Ha. pose proof Hm as [Hc Hf].
  assert (forall pc, pc_within limit pc -> limited limit (start st pc)) as Hstart.
  { intros pc Hp. split; [done|]. cbn. apply Forall_app. split; [done|by constructor]. }
  assert (forall i r r', held st i = Some r -> forall a', limited limit (with_call (with_agents st a') i (Held r'))) as Hheld.
  { intros i r r' _ a'. by apply (limited_call limit (with_agents st a')). }
  destruct op as [[m|]|t|i sp|i names pref pick|i p|i m|i|t|t e|t]; cbn in Ha, Ho; simplify_eq; try done; try (apply Hstart; cbn; try lia; done).
  - destruct (calls st !! i) as [pc|] eqn:Hi; [|done]. cbn in Ha. destruct (exec _ _ _) as [[self pc']|] eqn:He; [|done]. cbn in Ha. simplify_eq.
    destruct (exec_limited limit st leak i sp pc self pc' Hg Hl Hm Hi He). by apply limited_call.
  - destruct (held st i) as [r|] eqn:Hi; [|done]. cbn in Ha. destruct (reserve_agent_nickname_with_preference _ _ _ _ _) as [[? a'] r'].
    simplify_eq. by eapply Hheld.
  - destruct (held st i) as [r|] eqn:Hi; [|done]. cbn in Ha. destruct (reservation_reserve_path _ _ _) as [[? a'] r']. simplify_eq. by eapply Hheld.
  - destruct (held st i) as [r|] eqn:Hi; [|done]. cbn in Ha. simplify_eq.
    apply (limited_call limit (with_agents st (register_spawned_thread thread_text (agents st) m))); done.
  - destruct (held st i) as [r|] eqn:Hi; [|done]. cbn in Ha. simplify_eq. by apply (limited_call limit st).
Qed.

Lemma run_limited limit ops st leak st' :
  ledger st leak -> limit < USIZE_MAX -> limited limit st -> forallb (op_within limit) ops = true ->
  run thread_text ops st = Some st' -> limited limit st' /\ exists leak', ledger st' leak'.
Proof.
  revert st leak. induction ops as [|op ops IH]; intros st leak Hg Hl Hm Ho Hr; cbn in Ho, Hr; [simplify_eq; eauto|].
  apply andb_true_iff in Ho as [Ho Hos]. destruct (apply thread_text st op) as [st1|] eqn:Ha; [|done].
  eapply IH; [|done| |done|exact Hr]; [|by eapply apply_limited].
  apply (apply_ledger st op st1 leak); [done| |done]. destruct Hm. lia.
Qed.

(** C20. However the calls of a session interleave, a counter that is only increased within
    a limit keeps the agents that run (the root apart) and the reservations that are held
    within it, and never wraps around: not when the exchange fails without reason, not when
    agents register under paths that are taken, and not while slots are being given back. *)
Theorem spawn_limit_respected limit ops st :
  0 <= limit < USIZE_MAX ->
  forallb (op_within limit) ops = true ->
  run thread_text ops initial = Some st ->
  Z.of_nat (length (live_agents (agents st))) + slots (calls st) <= total_count (registry st) <= limit.
Proof.
  intros Hl Ho Hr. destruct (run_limited limit ops initial 0 st initial_ledger ltac:(lia)) as ([Hc _] & leak & [_ _ Hk Heq]); [|done..|].
  - split; [cbn; lia|constructor].
  - rewrite live_agents_count. unfold count in *. lia.
Qed.
End Props.
