(* ===== verification/AgentAccounts.v ===== *)
(** * The registry of agents, used as it is meant to be

    [disciplined] is how [core/src/agent/control.rs] and [control/spawn.rs] use the registry:
    a reservation reserves at most one path, an agent path that is not the root; it is
    committed with a thread that is not registered and under the path it reserved; and the
    thread of an agent is not registered as the root. For such callers the registry is
    exact ([registry_accounts]): nothing leaks. *)
From stdpp Require Import gmap relations.
From S2P Require Import Prelude Width AgentPath AgentRegistry AgentRegistryProps.

Set Default Goal Selector "!".

Local Open Scope Z_scope.

(** ** Consistent indexes *)

Definition upd {A B} `{EqDecision A} (f : A -> B) (x : A) (v : B) : A -> B :=
  fun y => if decide (y = x) then v else f y.

Lemma upd_eq {A B} `{EqDecision A} (f : A -> B) x v : upd f x v x = v.
Proof. unfold upd. by rewrite decide_True. Qed.

Lemma upd_ne {A B} `{EqDecision A} (f : A -> B) x v y : y ≠ x -> upd f x v y = f y.
Proof. intros. unfold upd. by rewrite decide_False. Qed.

Lemma upd_Some {A B} `{EqDecision A} (f : A -> option B) x o y v :
  upd f x o y = Some v <-> (y = x /\ o = Some v) \/ (y ≠ x /\ f y = Some v).
Proof. unfold upd. destruct (decide (y = x)); naive_solver. Qed.

Definition placeholder (p : rstr) : AgentMetadata :=
  {| agent_id := None; agent_path := Some p; agent_nickname := None; agent_role := None |}.

Section Consistent.
Context (thread_text : ThreadId -> rstr) (text_inj : forall t t', thread_text t = thread_text t' -> t = t').

Definition thread_key (t : ThreadId) : rstr := lit "thread:" ++ thread_text t.

(** The tree of agents, the paths of threads and the paths that reservations claim. *)
Record consistent (tree : gmap rstr AgentMetadata) (paths : ThreadId -> option rstr) (claims : nat -> option rstr) : Prop := {
  c_keys k m : tree !! k = Some m ->
    (agent_path m = Some k /\ validate_absolute_path k = Ok ())
    \/ (agent_path m = None /\ exists t, agent_id m = Some t /\ k = thread_key t);
  c_threads t p : paths t = Some p -> exists m, tree !! p = Some m /\ agent_id m = Some t;
  c_index k m t : tree !! k = Some m -> agent_id m = Some t -> paths t = Some k;
  c_claimed i p : claims i = Some p -> exists m, tree !! p = Some m /\ agent_id m = None /\ p ≠ ROOT;
  c_unique i j p : claims i = Some p -> claims j = Some p -> i = j;
  c_owned k m : tree !! k = Some m -> agent_id m = None -> exists i, claims i = Some k;
}.

Lemma agents_consistent_ext tree paths claims paths' claims' :
  (forall t, paths' t = paths t) -> (forall i, claims' i = claims i) ->
  consistent tree paths claims -> consistent tree paths' claims'.
Proof.
  intros Hp Hc []. split; intros *; rewrite ?Hp, ?Hc; eauto.
  intros Hk Hn. destruct (c_owned0 k m Hk Hn) as [i Hi]. exists i. by rewrite Hc.
Qed.

Lemma consistent_claim tree paths claims i p :
  consistent tree paths claims -> tree !! p = None -> validate_absolute_path p = Ok () -> p ≠ ROOT -> claims i = None ->
  consistent (<[p := placeholder p]> tree) paths (upd claims i (Some p)).
Proof.
  intros [Hk Ht Hx Hc Hu Ho] Hp Hv Hr Hi. split.
  - intros k m. rewrite lookup_insert_Some. intros [[<- <-]|[_ H]]; [by left|by apply Hk].
  - intros t q Hq. destruct (Ht t q Hq) as (m & Hm & Hid). exists m. rewrite lookup_insert_ne; [done|congruence].
  - intros k m t. rewrite lookup_insert_Some. intros [[<- <-]|[_ H]]; [done|by apply Hx].
  - intros j q [[-> [= ->]]|[Hj Hq]]%upd_Some; [exists (placeholder q); by rewrite lookup_insert_eq|].
    destruct (Hc j q Hq) as (m & Hm & Hid). exists m. rewrite lookup_insert_ne; [done|congruence].
  - assert (forall j, claims j ≠ Some p) as Hnp by (intros j Hj; destruct (Hc j p Hj) as (m & Hm & _); congruence).
    intros j j' q [[-> E]|[Hj Hq]]%upd_Some [[-> E']|[Hj' Hq']]%upd_Some; simplify_eq; [done|by destruct (Hnp j')|by destruct (Hnp j)|by eapply Hu].
  - intros k m. rewrite lookup_insert_Some. intros [[<- <-]|[Hne H]] Hid; [exists i; by rewrite upd_eq|].
    destruct (Ho k m H Hid) as [j Hj]. exists j. rewrite upd_ne; [done|congruence].
Qed.

Lemma consistent_unclaim tree paths claims i p :
  consistent tree paths claims -> claims i = Some p -> consistent (delete p tree) paths (upd claims i None).
Proof.
  intros [Hk Ht Hx Hc Hu Ho] Hi. destruct (Hc i p Hi) as (m0 & Hm0 & Hid0 & _). split.
  - intros k m [_ H]%lookup_delete_Some. by apply Hk.
  - intros t q Hq. destruct (Ht t q Hq) as (m & Hm & Hid). exists m. rewrite lookup_delete_ne; [done|congruence].
  - intros k m t [_ H]%lookup_delete_Some. by apply Hx.
  - intros j q [[_ ?]|[Hj Hq]]%upd_Some; [done|]. destruct (Hc j q Hq) as (m & Hm & Hid & Hr). exists m. split; [|done].
    rewrite lookup_delete_ne; [done|]. intros <-. by apply Hj, (Hu j i p).
  - intros j j' q [[_ ?]|[Hj Hq]]%upd_Some [[_ ?]|[Hj' Hq']]%upd_Some; [done..|by eapply Hu].
  - intros k m [Hne H]%lookup_delete_Some Hid. destruct (Ho k m H Hid) as [j Hj]. exists j. rewrite upd_ne; [done|]. intros ->. congruence.
Qed.

Lemma consistent_remove tree paths claims t p :
  consistent tree paths claims -> paths t = Some p -> consistent (delete p tree) (upd paths t None) claims.
Proof.
  intros [Hk Ht Hx Hc Hu Ho] Hp. destruct (Ht t p Hp) as (m0 & Hm0 & Hid0). split; [| | | |done|].
  - intros k m [_ H]%lookup_delete_Some. by apply Hk.
  - intros t' q [[_ ?]|[Hne Hq]]%upd_Some; [done|]. destruct (Ht t' q Hq) as (m & Hm & Hid). exists m. rewrite lookup_delete_ne; [done|congruence].
  - intros k m t' [Hne H]%lookup_delete_Some Hid. pose proof (Hx k m t' H Hid) as Hq. rewrite upd_ne; [done|]. intros ->. congruence.
  - intros j q Hq. destruct (Hc j q Hq) as (m & Hm & Hid & Hr). exists m. rewrite lookup_delete_ne; [done|congruence].
  - intros k m [Hne H]%lookup_delete_Some Hid. by apply (Ho k m).
Qed.

(** The path of an agent without path is free. *)
Lemma thread_key_vacant tree paths claims t :
  consistent tree paths claims -> paths t = None -> tree !! thread_key t = None.
Proof using text_inj.
  intros [Hk Ht Hx Hc Hu Ho] Hp. destruct (tree !! thread_key t) as [m|] eqn:E; [|done]. exfalso.
  destruct (Hk _ _ E) as [[_ Hv]|(_ & t' & Hid & Heq)].
  - by apply valid_absolute in Hv as [Hv|(ns & _ & Hv)].
  - apply (app_inv_head (lit "thread:")), text_inj in Heq as <-. pose proof (Hx _ _ _ E Hid). congruence.
Qed.

Lemma consistent_register tree paths claims i m t :
  consistent tree paths claims -> agent_id m = Some t -> paths t = None -> agent_path m = claims i ->
  consistent (<[tree_key thread_text m t := m]> tree) (upd paths t (Some (tree_key thread_text m t))) (upd claims i None)
  /\ weight (tree !! tree_key thread_text m t) = 0 /\ tree !! tree_key thread_text m t ≫= agent_id = None /\ live m = true.
Proof using text_inj.
  intros Hcs Hid Hp Hpath. pose proof Hcs as [Hk Ht Hx Hc Hu Ho]. set (key := tree_key thread_text m t).
  assert (tree !! key ≫= agent_id = None /\ has_root_path m = false
          /\ ((agent_path m = Some key /\ validate_absolute_path key = Ok ()) \/ (agent_path m = None /\ key = thread_key t))
          /\ (forall j, j ≠ i -> claims j ≠ Some key)
          /\ (forall p, claims i = Some p -> p = key)) as (Hvac & Hroot & Hkey & Hother & Hown).
  { unfold has_root_path, key, tree_key. rewrite Hpath. destruct (claims i) as [p|] eqn:Ei; cbn [from_option]; unfold id.
    - destruct (Hc i p Ei) as (m0 & Hm0 & Hid0 & Hr). rewrite Hm0. split_and!; [done|by apply streq_false|left; split; [done|]| |by intros ? [= ->]].
      + destruct (Hk p m0 Hm0) as [[_ ?]|(_ & t' & ? & _)]; [done|congruence].
      + intros j Hj Hcj. by apply Hj, (Hu j i p).
    - pose proof (thread_key_vacant tree paths claims t Hcs Hp) as Hv. unfold thread_key in Hv. rewrite Hv. split_and!; [done|done|by right| |done].
      intros j _ Hcj. destruct (Hc j _ Hcj) as (m0 & Hm0 & _). congruence. }
  split_and!.
  - split.
    + intros k m' [[<- <-]|[_ H]]%lookup_insert_Some; [|by apply Hk]. destruct Hkey as [?|[? Hke]]; [by left|right]. split; [done|]. exists t. done.
    + intros t' q [[-> [= <-]]|[Hne Hq]]%upd_Some; [exists m; by rewrite lookup_insert_eq|].
      destruct (Ht t' q Hq) as (m' & Hm' & Hid'). exists m'. rewrite lookup_insert_ne; [done|]. intros <-. rewrite Hm' in Hvac. cbn in Hvac. congruence.
    + intros k m' t' [[<- <-]|[Hne H]]%lookup_insert_Some Hid'; [rewrite Hid in Hid'; simplify_eq; by rewrite upd_eq|].
      pose proof (Hx k m' t' H Hid'). rewrite upd_ne; [done|congruence].
    + intros j q [[_ ?]|[Hj Hq]]%upd_Some; [done|]. destruct (Hc j q Hq) as (m' & Hm' & Hid' & Hr). exists m'. rewrite lookup_insert_ne; [done|].
      intros <-. by apply (Hother j).
    + intros j j' q [[_ ?]|[Hj Hq]]%upd_Some [[_ ?]|[Hj' Hq']]%upd_Some; [done..|by eapply Hu].
    + intros k m' [[<- <-]|[Hne H]]%lookup_insert_Some Hid'; [congruence|]. destruct (Ho k m' H Hid') as [j Hj]. exists j.
      rewrite upd_ne; [done|]. intros ->. by destruct Hne; rewrite (Hown k Hj).
  - destruct (tree !! key) as [m0|]; [|done]. cbn in Hvac |- *. unfold live. rewrite Hvac. done.
  - done.
  - unfold live. rewrite Hid, Hroot. by rewrite bool_decide_eq_true_2 by eauto.
Qed.

Lemma consistent_root_new tree paths claims t :
  consistent tree paths claims -> tree !! ROOT = None -> (forall p, paths t = Some p -> p = ROOT) ->
  consistent (<[ROOT := root_metadata t]> tree) (upd paths t (Some ROOT)) claims.
Proof.
  intros [Hk Ht Hx Hc Hu Ho] Hr Hp.
  assert (paths t = None) as Hpt.
  { destruct (paths t) as [p|] eqn:E; [|done]. destruct (Ht t p E) as (m & Hm & _). rewrite (Hp p eq_refl) in Hm. congruence. }
  split; [| | | |done|].
  - intros k m [[<- <-]|[_ H]]%lookup_insert_Some; [by left|by apply Hk].
  - intros t' q [[-> [= <-]]|[Hne Hq]]%upd_Some; [exists (root_metadata t); by rewrite lookup_insert_eq|].
    destruct (Ht t' q Hq) as (m & Hm & Hid). exists m. rewrite lookup_insert_ne; [done|congruence].
  - intros k m t' [[<- <-]|[Hne H]]%lookup_insert_Some Hid; [cbn in Hid; simplify_eq; by rewrite upd_eq|].
    pose proof (Hx k m t' H Hid). rewrite upd_ne; [done|congruence].
  - intros j q Hq. destruct (Hc j q Hq) as (m & Hm & Hid & Hne). exists m. by rewrite lookup_insert_ne.
  - intros k m [[<- <-]|[Hne H]]%lookup_insert_Some Hid; [done|by apply (Ho k m)].
Qed.
End Consistent.

(** ** The discipline *)

Section Accounts.
Context {Env : Type} (thread_text : ThreadId -> rstr) (text_inj : forall t t', thread_text t = thread_text t' -> t = t').
Implicit Types (a : ActiveAgents Env) (st : State Env).

Definition disciplined st (op : Op Env) : bool :=
  match op with
  | OpPath i p =>
      match held st i with
      | Some r => bool_decide (reserved_agent_path r = None) && is_ok (validate_absolute_path p) && negb (is_root p)
      | None => true
      end
  | OpCommit i m =>
      match held st i, agent_id m with
      | Some r, Some t => bool_decide (thread_paths (agents st) !! t = None) && bool_decide (agent_path m = reserved_agent_path r)
      | Some _, None => false
      | None, _ => true
      end
  | OpRoot t => match thread_paths (agents st) !! t with Some agent => path agent =s ROOT | None => true end
  | _ => true
  end.

Fixpoint disciplined_run (ops : list (Op Env)) st : bool :=
  match ops with
  | [] => true
  | op :: ops =>
      disciplined st op && match apply thread_text st op with Some st' => disciplined_run ops st' | None => true end
  end.

(** The path that a call in progress claims. *)
Definition pc_path (pc : Pc) : option rstr :=
  match pc with
  | Held r | DropPath r => if active r then reserved_agent_path r else None
  | _ => None
  end.

Definition claims_of (calls : list Pc) (i : nat) : option rstr := calls !! i ≫= pc_path.

Definition paths_of a (t : ThreadId) : option rstr := path <$> thread_paths a !! t.

Definition exact st : Prop := consistent thread_text (agent_tree (agents st)) (paths_of (agents st)) (claims_of (calls st)).

Lemma claims_insert (l : list Pc) i pc pc' j :
  l !! i = Some pc -> claims_of (<[i := pc']> l) j = upd (claims_of l) i (pc_path pc') j.
Proof.
  intros Hi. unfold claims_of, upd. destruct (decide (j = i)) as [->|Hne]; [|by rewrite list_lookup_insert_ne].
  rewrite list_lookup_insert_eq; [done|]. by apply lookup_lt_Some in Hi.
Qed.

Lemma claims_same (l : list Pc) i pc pc' j :
  l !! i = Some pc -> pc_path pc' = pc_path pc -> claims_of (<[i := pc']> l) j = claims_of l j.
Proof.
  intros Hi Hp. rewrite (claims_insert l i pc pc' j Hi), Hp. unfold upd. destruct (decide (j = i)) as [->|]; [|done].
  unfold claims_of. by rewrite Hi.
Qed.

Lemma claims_app (l : list Pc) pc j : pc_path pc = None -> claims_of (l ++ [pc]) j = claims_of l j.
Proof.
  intros Hp. unfold claims_of. rewrite lookup_app. destruct (l !! j) as [x|] eqn:E; [done|]. cbn.
  by destruct (j - length l)%nat.
Qed.

Lemma remove_spawned_exact a t claims :
  consistent thread_text (agent_tree a) (paths_of a) claims ->
  consistent thread_text (agent_tree (remove_spawned a t).2) (paths_of (remove_spawned a t).2) claims.
Proof.
  intros Hc. unfold remove_spawned. destruct (thread_paths a !! t) as [agent|] eqn:Et; [|done].
  assert (paths_of a t = Some (path agent)) as Hp by (unfold paths_of; by rewrite Et).
  destruct (c_threads _ _ _ _ Hc t _ Hp) as (m & Hm & _). cbn. rewrite Hm. cbn.
  eapply (agents_consistent_ext thread_text); [| |apply (consistent_remove _ _ _ _ t (path agent) Hc Hp)]; [|done].
  intros t'. unfold paths_of, upd. cbn. destruct (decide (t' = t)) as [->|Hne]; [by rewrite lookup_delete_eq|by rewrite lookup_delete_ne].
Qed.

Lemma register_root_exact a t claims :
  consistent thread_text (agent_tree a) (paths_of a) claims ->
  match thread_paths a !! t with Some agent => path agent =s ROOT | None => true end = true ->
  consistent thread_text (agent_tree (register_root_thread a t)) (paths_of (register_root_thread a t)) claims.
Proof.
  intros Hc Hd. unfold register_root_thread. cbn zeta. destruct (agent_tree a !! ROOT) as [m|] eqn:Er; cbn.
  - rewrite insert_id by done. destruct (agent_id m) as [t0|] eqn:Ei; [|done].
    pose proof (c_index _ _ _ _ Hc ROOT m t0 Er Ei) as Hp. cbn. eapply (agents_consistent_ext thread_text); [| |exact Hc]; [|done].
    intros t'. unfold paths_of in *. cbn. destruct (decide (t' = t0)) as [->|]; [by rewrite lookup_insert_eq|by rewrite lookup_insert_ne].
  - eapply (agents_consistent_ext thread_text); [| |apply (consistent_root_new _ _ _ _ t Hc Er)]; [|done|].
    + intros t'. unfold paths_of, upd. cbn. destruct (decide (t' = t)) as [->|]; [by rewrite lookup_insert_eq|by rewrite lookup_insert_ne].
    + intros p. unfold paths_of. destruct (thread_paths a !! t) as [agent|]; cbn; [|done]. intros [= <-]. by apply streq_true.
Qed.

Lemma set_environments_exact a t e t' : paths_of (set_environments a t e) t' = paths_of a t'.
Proof.
  unfold set_environments. destruct (thread_paths a !! t) as [agent|] eqn:Et; [|done]. unfold paths_of. cbn.
  destruct (decide (t' = t)) as [->|]; [by rewrite lookup_insert_eq, Et|by rewrite lookup_insert_ne].
Qed.

Lemma register_spawned_exact a m t claims i :
  consistent thread_text (agent_tree a) (paths_of a) claims ->
  agent_id m = Some t -> thread_paths a !! t = None -> agent_path m = claims i ->
  let a' := register_spawned_thread thread_text a m in
  consistent thread_text (agent_tree a') (paths_of a') (upd claims i None)
  /\ nlive (agent_tree a') = nlive (agent_tree a) + 1.
Proof using text_inj.
  intros Hc Hid Ht Hp a'. assert (paths_of a t = None) as Hpt by (unfold paths_of; by rewrite Ht).
  destruct (consistent_register thread_text text_inj _ _ _ i m t Hc Hid Hpt Hp) as (Hc' & Hw & Hv & Hl).
  assert (tree_before a t (tree_key thread_text m t) = agent_tree a) as Hb by (unfold tree_before; by rewrite Ht).
  assert (agent_tree a' = <[tree_key thread_text m t := m]> (agent_tree a)) as Htree by (subst a'; by rewrite (register_spawned_tree thread_text a m t Hid), Hb).
  rewrite Htree. split.
  - eapply (agents_consistent_ext thread_text); [| |exact Hc']; [|done]. intros t'. apply option_eq. intros p. rewrite upd_Some. unfold paths_of.
    rewrite fmap_Some. subst a'. split.
    + intros (agent & Ha & ->). apply (register_spawned_threads thread_text a m t t' agent Hid) in Ha as [[-> ->]|(Hne & Ha & _)]; [by left|right].
      by rewrite Ha.
    + intros [[-> [= <-]]|[Hne H]].
      * exists (registered_new (tree_key thread_text m t)). split; [|done]. apply (register_spawned_threads thread_text a m t t _ Hid). by left.
      * apply fmap_Some in H as (agent & Ha & ->). exists agent. split; [|done].
        apply (register_spawned_threads thread_text a m t t' agent Hid). right. split_and!; [done..|]. rewrite Hb, Hv. done.
  - rewrite nlive_insert, Hw. cbn. rewrite Hl. lia.
Qed.

Lemma exec_exact st i spurious pc self pc' :
  exact st -> calls st !! i = Some pc -> exec (registry st) spurious pc = Some (self, pc') ->
  exact {| registry := self; calls := <[i := pc']> (calls st) |}.
Proof.
  intros He Hi Hx.
  assert (pc_path pc = None -> pc_path pc' = None -> active_agents self = agents st ->
          exact {| registry := self; calls := <[i := pc']> (calls st) |}) as Hsame.
  { intros H H' Ha. unfold exact, agents in *. cbn. rewrite Ha. eapply (agents_consistent_ext thread_text); [| |exact He]; [done|].
    intros j. eapply claims_same; [done|congruence]. }
  destruct pc as [m|m c| | |r|r| |t| |]; cbn in Hx; simplify_eq; try (apply Hsame; done).
  - apply Hsame; [done|by destruct (_ <=? _)|done].
  - destruct ((_ =? _) && _); simplify_eq; apply Hsame; try done. by destruct (_ <=? _).
  - destruct (active r) eqn:Ea; simplify_eq; [|apply Hsame; [cbn; by rewrite Ea|done..]].
    destruct (reserved_agent_path r) as [p|] eqn:Ep; [|apply Hsame; [cbn; by rewrite Ea, Ep|done..]].
    assert (claims_of (calls st) i = Some p) as Hcl by (unfold claims_of; rewrite Hi; cbn; by rewrite Ea).
    destruct (c_claimed _ _ _ _ He i p Hcl) as (m & Hm & Hid & _).
    unfold exact, agents. cbn. unfold release_reserved_agent_path. unfold agents in Hm. rewrite Hm, Hid. cbn.
    eapply (agents_consistent_ext thread_text); [| |apply (consistent_unclaim _ _ _ _ i p He Hcl)]; [done|].
    intros j. by eapply claims_insert.
  - pose proof (remove_spawned_exact (agents st) t (claims_of (calls st)) He) as Hr. unfold agents in Hr.
    destruct (remove_spawned (active_agents (registry st)) t) as [b a']. simplify_eq. cbn in Hr.
    eapply (agents_consistent_ext thread_text); [| |exact Hr]; [done|]. intros j. eapply claims_same; [done|by destruct b].
Qed.

Lemma apply_exact st leak op st' :
  ledger st leak -> exact st -> disciplined st op = true -> apply thread_text st op = Some st' ->
  exact st' /\ charge st op st' = 0.
Proof using text_inj.
  intros [_ Hh _ _] He Hd Ha.
  assert (forall pc, pc_path pc = None -> exact (start st pc)) as Hstart.
  { intros pc Hp. eapply (agents_consistent_ext thread_text); [| |exact He]; [done|]. intros j. by apply claims_app. }
  destruct op as [[m|]|t|i sp|i names pref pick|i p|i m|i|t|t e|t]; cbn [apply] in Ha; simplify_eq; try (split; [by apply Hstart|done]).
  - destruct (calls st !! i) as [pc|] eqn:Hi; [|done]. cbn in Ha. destruct (exec _ _ _) as [[self pc']|] eqn:Hx; [|done]. cbn in Ha. simplify_eq.
    split; [by eapply exec_exact|done].
  - destruct (held st i) as [r|] eqn:Hi; [|done]. apply held_call in Hi. cbn in Ha. split; [|done].
    pose proof (nickname_spec (agents st) names pref pick) as [Hn1 Hn2]. unfold reserve_agent_nickname_with_preference in Ha.
    destruct (reserve_agent_nickname (agents st) names pref pick) as [[n|] a']; cbn in Hn1, Hn2; simplify_eq; unfold exact, agents; cbn; rewrite Hn1;
      (eapply (agents_consistent_ext thread_text); [| |exact He]; [intros t; unfold paths_of; by rewrite Hn2|]); intros j; by eapply claims_same.
  - cbn in Hd. destruct (held st i) as [r|] eqn:Hi; [|done]. apply held_call in Hi. cbn in Ha. split; [|done]. pose proof (Hh i r Hi) as Hr.
    apply andb_true_iff in Hd as [Hd Hroot]. apply andb_true_iff in Hd as [Hnone%bool_decide_eq_true Hv]. apply negb_true_iff, streq_false in Hroot.
    unfold reservation_reserve_path, reserve_agent_path in Ha. destruct (agent_tree (agents st) !! p) as [m|] eqn:Ep; simplify_eq.
    + eapply (agents_consistent_ext thread_text); [| |exact He]; [done|]. intros j. by eapply claims_same.
    + assert (claims_of (calls st) i = None) as Hcl by (unfold claims_of; rewrite Hi; cbn; rewrite Hr; done).
      assert (validate_absolute_path p = Ok ()) as Hv' by (by destruct (validate_absolute_path p) as [[]| |]).
      eapply (agents_consistent_ext thread_text); [| |apply (consistent_claim _ _ _ _ i p He Ep Hv' Hroot Hcl)]; [done|].
      intros j. etrans; [by eapply claims_insert|]. cbn. by rewrite Hr.
  - cbn in Hd. destruct (held st i) as [r|] eqn:Hi; [|done]. apply held_call in Hi. cbn in Ha. pose proof (Hh i r Hi) as Hr.
    destruct (agent_id m) as [t|] eqn:Hid; [|done]. apply andb_true_iff in Hd as [Ht%bool_decide_eq_true Hp%bool_decide_eq_true].
    assert (agent_path m = claims_of (calls st) i) as Hp' by (unfold claims_of; rewrite Hi; cbn; by rewrite Hr).
    destruct (register_spawned_exact (agents st) m t (claims_of (calls st)) i He Hid Ht Hp') as [Hc Hn]. simplify_eq. split.
    + eapply (agents_consistent_ext thread_text); [| |exact Hc]; [done|]. intros j. etrans; [by eapply claims_insert|]. done.
    + cbn [charge]. change (agents (with_call (with_agents st ?x) i _)) with x. lia.
  - destruct (held st i) as [r|] eqn:Hi; [|done]. apply held_call in Hi. cbn in Ha. simplify_eq. split; [|done].
    eapply (agents_consistent_ext thread_text); [| |exact He]; [done|]. intros j. by eapply claims_same.
  - split; [|done]. by apply (register_root_exact (agents st) t (claims_of (calls st)) He).
  - split; [|done]. eapply (agents_consistent_ext thread_text); [intros t'; apply (set_environments_exact (agents st) t (Some e) t')|done|].
    destruct (thread_paths (agents st) !! t) eqn:E; unfold exact, agents in *; cbn; unfold save_evicted_environments, set_environments; by rewrite E.
  - split; [|done]. eapply (agents_consistent_ext thread_text); [intros t'; apply (set_environments_exact (agents st) t None t')|done|].
    destruct (thread_paths (agents st) !! t) eqn:E; unfold exact, agents in *; cbn; unfold clear_evicted_environments, set_environments; by rewrite E.
Qed.

Lemma apply_count st leak op st' :
  ledger st leak -> count st < USIZE_MAX -> apply thread_text st op = Some st' -> count st' <= count st + 1.
Proof.
  intros Hl Hb Ha. pose proof Hl as [_ _ Hk Hc]. pose proof (nlive_nonneg (agent_tree (agents st))) as Hn.
  destruct op as [[m|]|t|i sp|i names pref pick|i p|i m|i|t|t e|t]; cbn [apply] in Ha; simplify_eq; unfold count in *; cbn; try lia.
  2,3,4,5: destruct (held st i) as [r|]; [cbn in Ha|done].
  - destruct (calls st !! i) as [pc|] eqn:Hi; [|done]. cbn in Ha. destruct (exec _ _ _) as [[self pc']|] eqn:Hx; [|done]. cbn in Ha. simplify_eq. cbn.
    assert (slot pc <= slots (calls st)) as Hle.
    { pose proof (slots_insert _ _ _ CallDone Hi) as Hs0. pose proof (slots_nonneg (<[i := CallDone]> (calls st))). cbn in Hs0. lia. }
    pose proof (slots_nonneg (calls st)) as Hs.
    destruct pc as [m|m c| | |r|r| |t| |]; cbn in Hx, Hle; simplify_eq; cbn; try lia; try (rewrite wrap_small; lia).
    + destruct (_ =? c) eqn:E; [destruct sp|]; cbn in Hx; simplify_eq; cbn; try lia. rewrite wrap_small; lia.
    + destruct (active r); simplify_eq; cbn; lia.
    + destruct (remove_spawned _ t). simplify_eq. cbn. lia.
  - destruct (reserve_agent_nickname_with_preference _ _ _ _ _) as [[? ?] ?]. simplify_eq. cbn. lia.
  - destruct (reservation_reserve_path _ _ _) as [[? ?] ?]. simplify_eq. cbn. lia.
  - simplify_eq. cbn. lia.
  - simplify_eq. cbn. lia.
Qed.

Lemma run_exact ops st st' :
  ledger st 0 -> exact st -> disciplined_run ops st = true -> count st + Z.of_nat (length ops) < USIZE_MAX ->
  run thread_text ops st = Some st' -> ledger st' 0 /\ exact st'.
Proof using text_inj.
  revert st. induction ops as [|op ops IH]; intros st Hl He Hd Hb Hr; cbn in Hd, Hr; [by simplify_eq|].
  apply andb_true_iff in Hd as [Hd Hds]. destruct (apply thread_text st op) as [st1|] eqn:Ha; [|done]. cbn [length] in Hb.
  destruct (apply_exact st 0 op st1 Hl He Hd Ha) as [He1 Hc]. destruct (apply_ledger thread_text st op st1 0 Hl ltac:(lia) Ha) as [_ Hl1].
  rewrite Hc in Hl1. pose proof (apply_count st 0 op st1 Hl ltac:(lia) Ha). apply (IH st1); [done..|lia|done].
Qed.

Lemma initial_exact : exact initial.
Proof. split; intros *; cbn; by rewrite ?lookup_empty. Qed.

(** For callers that keep to the discipline the registry is exact in every
    interleaving: the counter is the number of agents that run plus the reservations and
    returns in progress, so that every slot is given back; the agent at a path runs in
    exactly the thread that is registered under it; and a path is refused exactly while an
    agent has it or a reservation claims it, so that no path stays behind. *)
Theorem registry_accounts ops st :
  Z.of_nat (length ops) < USIZE_MAX ->
  disciplined_run ops initial = true ->
  run thread_text ops initial = Some st ->
  total_count (registry st) = Z.of_nat (length (live_agents (agents st))) + slots (calls st)
  /\ (forall p t, agent_id_for_path (agents st) p = Some t <-> path <$> thread_paths (agents st) !! t = Some p)
  /\ (forall p, is_ok (reserve_agent_path (agents st) p).1 = false <->
        (exists t, agent_id_for_path (agents st) p = Some t) \/ (exists i, claims_of (calls st) i = Some p)).
Proof using text_inj.
  intros Hb Hd Hr. destruct (run_exact ops initial st initial_ledger initial_exact Hd ltac:(cbn; lia) Hr) as [[_ _ _ Hc] He].
  split_and!.
  - rewrite live_agents_count. unfold count in Hc. lia.
  - intros p t. unfold agent_id_for_path. split.
    + intros (m & Hm & Hid)%bind_Some. by eapply (c_index _ _ _ _ He).
    + intros Hp. destruct (c_threads _ _ _ _ He t p Hp) as (m & Hm & Hid). by rewrite Hm.
  - intros p. unfold reserve_agent_path, agent_id_for_path. destruct (agent_tree (agents st) !! p) as [m|] eqn:Ep; cbn.
    + split; [intros _|done]. destruct (agent_id m) as [t|] eqn:Ei; [by left; exists t|right]. by eapply (c_owned _ _ _ _ He).
    + split; [done|]. intros [[t ?]|[i Hi]]; [done|]. destruct (c_claimed _ _ _ _ He i p Hi) as (m & Hm & _). congruence.
Qed.
End Accounts.

(** * The nicknames of agents

    [nicknames_never_repeat]: the nicknames that [reserve_agent_nickname] draws from a pool
    of names are pairwise different, also across the resets of the pool, whatever the
    random generator picks. With the witnesses of the registry. *)
(** ** Decimal numbers *)

Definition dec_value (s : rstr) : Z := fold_left (fun v c => v * 10 + (c - 48)) s 0.

Lemma dec_digits_acc fuel n acc : dec_digits fuel n acc = dec_digits fuel n [] ++ acc.
Proof.
  revert n acc. induction fuel as [|f IH]; intros n acc; cbn; [done|]. destruct (n <? 10); [done|].
  rewrite IH, (IH _ [_]), <- app_assoc. done.
Qed.

Lemma dec_value_digits fuel n : 0 <= n < 10 ^ Z.of_nat fuel -> dec_value (dec_digits fuel n []) = n.
Proof.
  revert n. induction fuel as [|f IH]; intros n Hn; cbn [dec_digits]; [cbn in *; lia|].
  destruct (Z.ltb_spec n 10).
  - unfold dec_value. cbn [fold_left]. rewrite Z.mod_small by lia. lia.
  - rewrite dec_digits_acc. unfold dec_value. rewrite fold_left_app. fold (dec_value (dec_digits f (n / 10) [])).
    rewrite IH.
    + cbn [fold_left]. pose proof (Z.div_mod n 10). lia.
    + rewrite Nat2Z.inj_succ, Z.pow_succ_r in Hn by lia. split; [apply Z.div_pos; lia|apply Z.div_lt_upper_bound; lia].
Qed.

Lemma dec_digits_digits fuel n acc : 0 <= n -> Forall (fun c => is_ascii_digit c = true) acc ->
  Forall (fun c => is_ascii_digit c = true) (dec_digits fuel n acc).
Proof.
  revert n acc. induction fuel as [|f IH]; intros n acc Hn Ha; cbn [dec_digits]; [done|].
  assert (is_ascii_digit (48 + n mod 10) = true) as Hd.
  { unfold is_ascii_digit. pose proof (Z.mod_pos_bound n 10). apply andb_true_iff. split; apply Z.leb_le; lia. }
  destruct (n <? 10); [by constructor|]. apply IH; [apply Z.div_pos; lia|by constructor].
Qed.

(** Digits that are followed by something else are read back. *)
Lemma digits_prefix a b x y s t :
  Forall (fun c => is_ascii_digit c = true) a -> Forall (fun c => is_ascii_digit c = true) b ->
  is_ascii_digit x = false -> is_ascii_digit y = false -> a ++ x :: s = b ++ y :: t -> a = b.
Proof.
  revert b. induction a as [|c a IH]; intros [|d b] Ha Hb Hx Hy H; simplify_eq/=; [done| | |].
  - apply Forall_inv in Hb. congruence.
  - apply Forall_inv in Ha. congruence.
  - apply Forall_cons in Ha as [_ Ha], Hb as [_ Hb]. f_equal. by eapply IH.
Qed.

Lemma dec_suffix_inj v w s t x y :
  0 <= v < 10 ^ 20 -> 0 <= w < 10 ^ 20 -> is_ascii_digit x = false -> is_ascii_digit y = false ->
  dec v ++ x :: s = dec w ++ y :: t -> v = w.
Proof.
  intros Hv Hw Hx Hy H. apply digits_prefix in H; [|by apply dec_digits_digits; [lia|constructor]..|done|done].
  apply (f_equal dec_value) in H. unfold dec in H. by rewrite !dec_value_digits in H.
Qed.

(** ** Nicknames *)

Definition SPACE : char := 32.

Lemma ordinal_suffix_cons v : exists x s, ordinal_suffix v = x :: s /\ is_ascii_digit x = false.
Proof. unfold ordinal_suffix. destruct (_ && _); [by eauto|]. repeat (destruct (_ =? _); [by eauto|]). by eauto. Qed.

Lemma space_prefix (a b s t : rstr) : SPACE ∉ a -> SPACE ∉ b -> a ++ SPACE :: s = b ++ SPACE :: t -> s = t.
Proof.
  revert b. induction a as [|c a IH]; intros [|d b] Ha Hb H; simplify_eq/=; [done|set_solver|set_solver|].
  eapply (IH b); [set_solver|set_solver|done].
Qed.

(** Nicknames made of names without spaces tell the number of resets. *)
Lemma format_inj n n' k k' :
  SPACE ∉ n -> SPACE ∉ n' -> 0 <= k < 10 ^ 19 -> 0 <= k' < 10 ^ 19 ->
  format_agent_nickname n k = format_agent_nickname n' k' -> k = k'.
Proof.
  intros Hn Hn' Hk Hk'. unfold format_agent_nickname. change (lit " the ") with (SPACE :: lit "the ").
  assert (forall (a b s : rstr), SPACE ∉ a -> a ≠ b ++ SPACE :: s) as Hno by (intros a b s Ha ->; set_solver).
  destruct (Z.eqb_spec k 0) as [->|H0], (Z.eqb_spec k' 0) as [->|H0']; [done|intros H; by eapply Hno in H|intros H; symmetry in H; by eapply Hno in H|].
  cbn zeta. intros H. cbn [app] in H. apply space_prefix in H; [|done..]. apply (app_inv_head (lit "the ")) in H.
  destruct (ordinal_suffix_cons (k + 1)) as (x & s & Ex & Hx), (ordinal_suffix_cons (k' + 1)) as (y & t & Ey & Hy). rewrite Ex, Ey in H.
  apply dec_suffix_inj in H; [lia|lia|lia|done|done].
Qed.

Lemma choose_Some {A} pick (l : list A) x : choose pick l = Some x -> x ∈ l.
Proof. unfold choose. apply list_elem_of_lookup_2. Qed.

Section Draw.
Context {Env : Type} (names : list rstr).
Implicit Types a : ActiveAgents Env.

(** Nicknames drawn one after the other. *)
Fixpoint draw (picks : list nat) a : list rstr :=
  match picks with
  | [] => []
  | pick :: picks =>
      match reserve_agent_nickname a names None pick with
      | (Some nickname, a) => nickname :: draw picks a
      | (None, a) => draw picks a
      end
  end.

(** A nickname that was given: with the resets of its time, and in use if there was none
    since. *)
Definition given a (nickname : rstr) : Prop :=
  exists n k, n ∈ names /\ nickname = format_agent_nickname n k /\ 0 <= k <= nickname_reset_count a
  /\ (k = nickname_reset_count a -> nickname ∈ used_agent_nicknames a).

Lemma reserve_given a pick nickname a' :
  Forall (fun n => SPACE ∉ n) names -> 0 <= nickname_reset_count a < 10 ^ 19 - 1 ->
  reserve_agent_nickname a names None pick = (Some nickname, a') ->
  ~ given a nickname /\ given a' nickname /\ (forall x, given a x -> given a' x)
  /\ nickname_reset_count a <= nickname_reset_count a' <= nickname_reset_count a + 1.
Proof.
  intros Hsp Hk. unfold reserve_agent_nickname. destruct (is_empty names); [done|]. cbn zeta. rewrite Forall_forall in Hsp.
  destruct (choose pick (List.filter _ _)) as [x|] eqn:E.
  - intros [= <- <-]. apply choose_Some in E. apply list_elem_of_In, List.filter_In in E as [Hx Hu%bool_decide_eq_true].
    apply List.in_map_iff in Hx as (n & <- & Hn%list_elem_of_In). split_and!; cbn; try lia.
    + intros (n' & k & Hn' & Heq & Hkk & Hin). apply format_inj in Heq; [|by apply Hsp..|lia|lia]. subst k. by apply Hu, Hin.
    + exists n, (nickname_reset_count a). cbn. split_and!; [done..|lia|lia|]. set_solver.
    + intros x (n' & k & Hn' & -> & Hkk & Hin). exists n', k. cbn. split_and!; [done..|lia|lia|]. set_solver.
  - destruct (choose pick names) as [n|] eqn:E'; [|done]. intros [= <- <-]. apply choose_Some in E'. split_and!; cbn; try lia.
    + intros (n' & k & Hn' & Heq & Hkk & _). apply format_inj in Heq; [|by apply Hsp..|lia|lia]. lia.
    + exists n, (nickname_reset_count a + 1). cbn. split_and!; [done..|lia|lia|]. set_solver.
    + intros x (n' & k & Hn' & -> & Hkk & Hin). exists n', k. cbn. split_and!; [done..|lia|lia|]. lia.
Qed.

Lemma reserve_always a pick : names ≠ [] -> exists nickname a', reserve_agent_nickname a names None pick = (Some nickname, a').
Proof.
  intros Hne. unfold reserve_agent_nickname. rewrite (proj2 (is_empty_false names)) by done. cbn zeta.
  destruct (choose pick (List.filter _ _)); [by eauto|].
  assert (is_Some (choose pick names)) as [n ->]; [|by eauto]. unfold choose. apply lookup_lt_is_Some_2.
  apply Nat.mod_upper_bound. by destruct names.
Qed.

Lemma draw_fresh picks a :
  names ≠ [] -> Forall (fun n => SPACE ∉ n) names -> 0 <= nickname_reset_count a ->
  nickname_reset_count a + Z.of_nat (length picks) < 10 ^ 19 ->
  NoDup (draw picks a) /\ length (draw picks a) = length picks /\ (forall x, x ∈ draw picks a -> ~ given a x).
Proof.
  intros Hne Hsp. revert a. induction picks as [|pick picks IH]; intros a Hk Hb; cbn [draw length] in *; [split_and!; [constructor|done|set_solver]|].
  destruct (reserve_always a pick Hne) as (nickname & a' & E). rewrite E.
  destruct (reserve_given a pick nickname a' Hsp ltac:(lia) E) as (Hno & Hyes & Hkeep & Hk').
  destruct (IH a' ltac:(lia) ltac:(lia)) as (Hnd & Hlen & Hfresh). split_and!.
  - apply NoDup_cons. split; [|done]. intros Hin. by apply (Hfresh nickname).
  - cbn. by rewrite Hlen.
  - intros x [->|Hx]%elem_of_cons; [done|]. intros Hg. by apply (Hfresh x Hx), Hkeep.
Qed.

(** The nicknames that are drawn from a pool of names without spaces are pairwise
    different, also across the resets of the pool, and a nickname is always found: whatever
    the generator picks and whatever nicknames were in use before. *)
Theorem nicknames_never_repeat picks a :
  names ≠ [] -> Forall (fun n => SPACE ∉ n) names -> 0 <= nickname_reset_count a ->
  nickname_reset_count a + Z.of_nat (length picks) < 10 ^ 19 ->
  NoDup (draw picks a) /\ length (draw picks a) = length picks.
Proof. intros. edestruct draw_fresh as (? & ? & _); [done..|]. by split. Qed.
End Draw.

(** ** A session with two agents *)

Module RegistryDemo.
(** A text that tells threads apart. *)
Definition thread_text (t : ThreadId) : rstr := [t].

Definition worker : rstr := lit "/root/worker".

Definition worker_metadata : AgentMetadata :=
  {| agent_id := Some 2; agent_path := Some worker; agent_nickname := Some (lit "Euclid"); agent_role := None |}.

(** Two calls compete for one slot: both load the counter, one exchange succeeds and the
    other finds the limit reached. The agent is registered and the root is known; then a
    slot is asked for and dropped again in vain, and the agent is released. *)
Definition session : list (Op unit) :=
  [OpReserve (Some 1); OpReserve (Some 1); OpStep 0 false; OpStep 1 false; OpStep 0 true; OpStep 0 false; OpStep 1 false;
   OpRoot 1; OpPath 0 worker; OpNickname 0 [lit "Euclid"] None 0; OpCommit 0 worker_metadata; OpStep 0 false;
   OpSave 2 (); OpClear 2].

Definition ending : list (Op unit) := [OpRelease 2; OpStep 2 false; OpReserve (Some 1); OpStep 3 false; OpStep 2 false].

Definition after (ops : list (Op unit)) : State unit := default initial (run thread_text ops initial).

Lemma spawn_limit_witness :
  run thread_text session initial = Some (after session)
  /\ length (live_agents (agents (after session))) = 1%nat
  /\ 1 + slots (calls (after session)) <= total_count (registry (after session)) <= 1.
Proof.
  split_and!; [by vm_compute..| |by vm_compute].
  apply (spawn_limit_respected thread_text 1 session (after session)); [done|by vm_compute|by vm_compute].
Defined.

Lemma registry_accounts_witness :
  total_count (registry (after (session ++ ending))) = 0
  /\ is_ok (reserve_agent_path (agents (after session)) worker).1 = false
  /\ is_ok (reserve_agent_path (agents (after (session ++ ending))) worker).1 = true.
Proof.
  assert (forall t t', thread_text t = thread_text t' -> t = t') as Hinj by (by intros ? ? [=]).
  split_and!; [| |by vm_compute].
  - destruct (registry_accounts thread_text Hinj (session ++ ending) (after (session ++ ending))) as (-> & _); [done|by vm_compute|by vm_compute|by vm_compute].
  - apply (registry_accounts thread_text Hinj session (after session)); [done|by vm_compute|by vm_compute|].
    left. exists 2. by vm_compute.
Defined.

Definition pool : list rstr := [lit "Euclid"; lit "Gauss"].

Lemma nicknames_witness :
  draw pool [0; 0; 1; 5; 0]%nat (active_agents (registry (@initial unit)))
  = [lit "Euclid"; lit "Gauss"; lit "Gauss the 2nd"; lit "Euclid the 2nd"; lit "Euclid the 3rd"]
  /\ NoDup (draw pool [0; 0; 1; 5; 0]%nat (active_agents (registry (@initial unit)))).
Proof.
  split; [by vm_compute|].
  apply (nicknames_never_repeat pool [0; 0; 1; 5; 0]%nat (active_agents (registry (@initial unit)))); [done| |done|done].
  repeat constructor; by apply contains_char_false.
Defined.

Lemma agent_resolve_witness : agent_resolve (path_of [lit "worker"]) (lit "a/b_1") = Ok (lit "/root/worker/a/b_1").
Proof.
  apply (agent_resolve_spec [lit "worker"] (lit "a/b_1") (lit "/root/worker/a/b_1")); [by repeat constructor|].
  right. exists [lit "a"; lit "b_1"]. split_and!; [done|by repeat constructor|done|done].
Defined.

Lemma agent_join_witness : agent_join (path_of []) (lit "worker") = Ok worker /\ agent_name worker = lit "worker".
Proof.
  split; [done|]. destruct (agent_join_name [] [] (lit "worker") (lit "worker") worker) as [H _]; [apply List.Forall_nil|apply List.Forall_nil|done|exact H].
Defined.
End RegistryDemo.
