(* ===== verification/AgentResidency.v ===== *)
(** * Resident agents

    Models [workx-rs/core/src/agent/control/residency.rs] and [control/execution.rs]: how
    many agent threads stay loaded, and how many run. A caller that wants to load a thread
    reserves a slot; if there is none, the least recently used resident that is idle is
    unloaded. Every access to the shared state is made under its lock and is one step; the
    inspection of a candidate between two locks is the thread manager's, whose answer is
    part of the step. *)
From stdpp Require Import gmap relations.
From S2P Require Import Prelude Width AgentRegistry.

Set Default Goal Selector "!".

Local Open Scope Z_scope.

Record V2ResidencyState := { residents : list ThreadId; pending_slots : Z }.

Definition residency_default : V2ResidencyState := {| residents := []; pending_slots := 0 |}.

Definition set_residents (self : V2ResidencyState) (l : list ThreadId) : V2ResidencyState :=
  {| residents := l; pending_slots := pending_slots self |}.

Definition set_pending (self : V2ResidencyState) (n : Z) : V2ResidencyState :=
  {| residents := residents self; pending_slots := n |}.

Definition retain_other (thread_id : ThreadId) (l : list ThreadId) : list ThreadId :=
  List.filter (fun resident => negb (resident =? thread_id)) l.

Definition touch_resident (l : list ThreadId) (thread_id : ThreadId) : list ThreadId :=
  retain_other thread_id l ++ [thread_id].

Definition nresidents (self : V2ResidencyState) : Z := Z.of_nat (length (residents self)).

Definition try_reserve_pending_slot (self : V2ResidencyState) (capacity : Z) : bool * V2ResidencyState :=
  if capacity <=? saturating_add (nresidents self) (pending_slots self) then (false, self)
  else (true, set_pending self (pending_slots self + 1)).

Definition resident_count (self : V2ResidencyState) : nat := length (residents self).

(** The loop of [pop_lru_candidate], a round for each resident. *)
Fixpoint pop_loop (rounds : nat) (l : list ThreadId) (protected_thread_id : option ThreadId) : option ThreadId * list ThreadId :=
  match rounds with
  | O => (None, l)
  | S rounds =>
      match l with
      | [] => (None, [])
      | candidate :: l =>
          if bool_decide (Some candidate = protected_thread_id)
          then pop_loop rounds (l ++ [candidate]) protected_thread_id
          else (Some candidate, l)
      end
  end.

Definition pop_lru_candidate (self : V2ResidencyState) (protected_thread_id : option ThreadId)
  : option ThreadId * V2ResidencyState :=
  let '(candidate, l) := pop_loop (length (residents self)) (residents self) protected_thread_id in
  (candidate, set_residents self l).

Definition touch (self : V2ResidencyState) (thread_id : ThreadId) : V2ResidencyState :=
  set_residents self (touch_resident (residents self) thread_id).

Definition remove (self : V2ResidencyState) (thread_id : ThreadId) : V2ResidencyState :=
  set_residents self (retain_other thread_id (residents self)).

Definition release_pending_slot (self : V2ResidencyState) : V2ResidencyState :=
  set_pending self (saturating_sub (pending_slots self) 1).

Definition commit_slot (self : V2ResidencyState) (thread_id : ThreadId) : V2ResidencyState :=
  touch (release_pending_slot self) thread_id.

(** ** Who may be resident, and who may run *)

Inductive MultiAgentVersion := Disabled | V1 | V2.
#[export] Instance multi_agent_version_dec : EqDecision MultiAgentVersion.
Proof. solve_decision. Defined.

Definition is_v2_resident_session_source (session_source : SessionSource) : bool :=
  match session_source with SubAgent _ => true | _ => false end.

(** What the inspection of a thread uses of it. *)
Inductive AgentStatus :=
| PendingInit | Running | Interrupted | Completed (message : option rstr) | Errored (message : rstr) | Shutdown | AgentNotFound.

Record WorkxThread := {
  multi_agent_version : option MultiAgentVersion;
  session_source : SessionSource;
  agent_status : AgentStatus;
  has_active_turn : bool;
  has_pending_mailbox_items : bool;
}.

Definition is_resident_candidate (thread : WorkxThread) : bool :=
  bool_decide (multi_agent_version thread = Some V2) && is_v2_resident_session_source (session_source thread).

Definition is_unloadable (thread : WorkxThread) : bool :=
  match agent_status thread with Completed _ | Errored _ | Interrupted => true | _ => false end
  && negb (has_active_turn thread) && negb (has_pending_mailbox_items thread).

Definition is_execution_limited (version : MultiAgentVersion) (session_source : SessionSource) : bool :=
  bool_decide (version = V2) && is_v2_resident_session_source session_source.

Record AgentExecutionLimiter := { active_turns : Z; max_threads : option Z }.

(** [OnceLock::get_or_init]. *)
Definition initialize (self : AgentExecutionLimiter) (n : Z) : AgentExecutionLimiter :=
  {| active_turns := active_turns self; max_threads := Some (default n (max_threads self)) |}.

Definition limiter_max_threads (self : AgentExecutionLimiter) : Z := default USIZE_MAX (max_threads self).

Definition has_capacity (self : AgentExecutionLimiter) : bool := active_turns self <? limiter_max_threads self.

Definition ensure_execution_capacity (self : AgentExecutionLimiter) (version : MultiAgentVersion) (source : SessionSource)
  : res WorkxErr () :=
  if negb (is_execution_limited version source) then Ok ()
  else if has_capacity self then Ok ()
  else Err (AgentLimitReached (limiter_max_threads self)).

Definition execution_guard (self : AgentExecutionLimiter) (version : MultiAgentVersion) (source : SessionSource)
  : bool * AgentExecutionLimiter :=
  if is_execution_limited version source
  then (true, {| active_turns := wrap_usize (active_turns self + 1); max_threads := max_threads self |})
  else (false, self).

Definition drop_guard (self : AgentExecutionLimiter) : AgentExecutionLimiter :=
  {| active_turns := wrap_usize (active_turns self - 1); max_threads := max_threads self |}.

(** ** Reserving a slot *)

Section Reserve.
Context {Env : Type}.

(** What the manager finds: the thread, if it is loaded; whether it can be shut down; and
    the environments it leaves. *)
Record Inspection := {
  found : option WorkxThread;
  shuts_down : bool;
  environment_selections : Env;
}.

Inductive Verdict := Skip | TouchAgain | Unload.

(** The body of the loop in [try_unload_one_resident] after the candidate was popped. *)
Definition inspect (i : Inspection) : Verdict :=
  match found i with
  | Some thread =>
      if negb (is_resident_candidate thread) then Skip
      else if negb (is_unloadable thread) then TouchAgain
      else if negb (shuts_down i) then TouchAgain
      else Unload
  | None => Skip
  end.

(** A call of [reserve_slot], by what it does next; [rest] counts the candidates it still
    scans in this round of its loop. *)
Inductive RPc :=
| TryReserve
| CountResidents
| Pop (rest : nat)
| Inspect (rest : nat) (candidate : ThreadId)
| TouchBack (rest : nat) (candidate : ThreadId)
| SlotHeld
| SlotRefused
| SlotDone.

Record Call := { capacity : Z; protected : option ThreadId; rpc : RPc }.

Record RState := { residency : V2ResidencyState; rcalls : list Call; registered : ActiveAgents Env }.

(** One step of a call: the state, what it does next and the thread it unloaded. *)
Definition rexec (self : V2ResidencyState) (c : Call) (i : Inspection)
  : option (V2ResidencyState * RPc * option (ThreadId * Env)) :=
  match rpc c with
  | TryReserve =>
      let '(reserved, self) := try_reserve_pending_slot self (capacity c) in
      Some (self, if reserved then SlotHeld else CountResidents, None)
  | CountResidents => Some (self, Pop (resident_count self), None)
  | Pop O => Some (self, SlotRefused, None)
  | Pop (S rest) =>
      let '(candidate, self) := pop_lru_candidate self (protected c) in
      Some (self, match candidate with Some t => Inspect rest t | None => SlotRefused end, None)
  | Inspect rest t =>
      match inspect i with
      | Skip => Some (self, Pop rest, None)
      | TouchAgain => Some (self, TouchBack rest t, None)
      | Unload => Some (self, TryReserve, Some (t, environment_selections i))
      end
  | TouchBack rest t => Some (touch self t, Pop rest, None)
  | SlotHeld | SlotRefused | SlotDone => None
  end.

Inductive ROp :=
| RStart (capacity : Z) (protected : option ThreadId)
| RStep (i : nat) (inspection : Inspection)
| RCommit (i : nat) (thread_id : ThreadId)
| RDrop (i : nat)
| RTouch (thread_id : ThreadId)
| RForget (thread_id : ThreadId).

Definition set_rpc (c : Call) (pc : RPc) : Call := {| capacity := capacity c; protected := protected c; rpc := pc |}.

Definition holds_slot (st : RState) (i : nat) : option Call :=
  c ← rcalls st !! i; match rpc c with SlotHeld => Some c | _ => None end.

Definition rapply (st : RState) (op : ROp) : option RState :=
  match op with
  | RStart capacity protected =>
      Some {| residency := residency st; registered := registered st;
              rcalls := rcalls st ++ [{| capacity := capacity; protected := protected; rpc := TryReserve |}] |}
  | RStep i inspection =>
      c ← rcalls st !! i;
      '(self, pc, unloaded) ← rexec (residency st) c inspection;
      Some {| residency := self; rcalls := <[i := set_rpc c pc]> (rcalls st);
              registered :=
                match unloaded with
                | Some (t, environments) => save_evicted_environments (registered st) t environments
                | None => registered st
                end |}
  | RCommit i thread_id =>
      c ← holds_slot st i;
      Some {| residency := commit_slot (residency st) thread_id; registered := registered st;
              rcalls := <[i := set_rpc c SlotDone]> (rcalls st) |}
  | RDrop i =>
      c ← holds_slot st i;
      Some {| residency := release_pending_slot (residency st); registered := registered st;
              rcalls := <[i := set_rpc c SlotDone]> (rcalls st) |}
  | RTouch thread_id =>
      Some {| residency := touch (residency st) thread_id; rcalls := rcalls st; registered := registered st |}
  | RForget thread_id =>
      Some {| residency := remove (residency st) thread_id; rcalls := rcalls st; registered := registered st |}
  end.

Fixpoint rrun (ops : list ROp) (st : RState) : option RState :=
  match ops with
  | [] => Some st
  | op :: ops => st ← rapply st op; rrun ops st
  end.

Definition rinitial (registered : ActiveAgents Env) : RState :=
  {| residency := residency_default; rcalls := []; registered := registered |}.
End Reserve.
Arguments Inspection : clear implicits.
Arguments RState : clear implicits.
Arguments ROp : clear implicits.

(** * Properties of resident agents

    Calls that reserve slots one at a time keep the resident agents within the capacity,
    and [k] calls at a time exceed it by at most [k - 1] ([residency_bounded]), which
    [residency_overcommit] shows they do; a call that runs alone ends
    ([reserve_slot_terminates]); and [stale_residents_refuse] shows that a call can be
    refused although its own search has made room. *)
(** ** The queue of residents *)

Lemma elem_retain t l x : x ∈ retain_other t l <-> x ∈ l /\ x ≠ t.
Proof.
  unfold retain_other. rewrite !list_elem_of_In, List.filter_In, negb_true_iff, Z.eqb_neq. done.
Qed.

Lemma retain_NoDup t l : NoDup l -> NoDup (retain_other t l).
Proof. rewrite !NoDup_ListNoDup. apply List.NoDup_filter. Qed.

Lemma retain_length t l : (length (retain_other t l) <= length l)%nat.
Proof. apply List.filter_length_le. Qed.

Lemma touch_NoDup l t : NoDup l -> NoDup (touch_resident l t).
Proof.
  intros H. apply NoDup_app. split_and!; [by apply retain_NoDup| |apply NoDup_singleton].
  intros x Hx Hin. apply list_elem_of_singleton in Hin as ->. by apply elem_retain in Hx as [_ ?].
Qed.

Lemma touch_length l t : (length (touch_resident l t) <= S (length l))%nat.
Proof. unfold touch_resident. rewrite length_app. cbn. pose proof (retain_length t l). lia. Qed.

Lemma pop_loop_spec n l p :
  NoDup l ->
  let '(candidate, l') := pop_loop n l p in
  NoDup l' /\ match candidate with
              | Some t => length l = S (length l') /\ t ∈ l /\ Some t ≠ p /\ (forall x, x ∈ l -> x = t \/ x ∈ l')
              | None => length l' = length l
              end.
Proof.
  revert l. induction n as [|n IH]; intros l Hl; cbn; [done|]. destruct l as [|c l]; [done|].
  apply NoDup_cons in Hl as [Hc Hl]. destruct (bool_decide_reflect (Some c = p)) as [E|E].
  - specialize (IH (l ++ [c])). destruct (pop_loop n (l ++ [c]) p) as [[t|] l'].
    + destruct IH as (Hnd & Hlen & Ht & Hne & Hall). { apply NoDup_app. split_and!; [done|set_solver|apply NoDup_singleton]. }
      rewrite length_app in Hlen. cbn in *. split_and!; [done|lia|set_solver|done|]. intros x Hx. apply Hall. set_solver.
    + destruct IH as [Hnd Hlen]. { apply NoDup_app. split_and!; [done|set_solver|apply NoDup_singleton]. }
      split; [done|]. rewrite Hlen, length_app. cbn. lia.
  - split_and!; [done|done|set_solver|done|]. intros x Hx. set_solver.
Qed.

Section Props.
Context {Env : Type}.
Implicit Types st : RState Env.

(** ** The bound *)

Definition searching (c : Call) : Z :=
  match rpc c with SlotHeld | SlotRefused | SlotDone => 0 | _ => 1 end.

(** Calls that have taken a candidate out of the queue. *)
Definition in_flight (c : Call) : Z :=
  match rpc c with Inspect _ _ | TouchBack _ _ => 1 | _ => 0 end.

Definition holding (c : Call) : Z := match rpc c with SlotHeld => 1 | _ => 0 end.

Fixpoint total (f : Call -> Z) (l : list Call) : Z := match l with [] => 0 | c :: l => f c + total f l end.

Lemma seats_total_app f a b : total f (a ++ b) = total f a + total f b.
Proof. induction a as [|c a IH]; cbn; lia. Qed.

Lemma total_insert f l i c c' : l !! i = Some c -> total f (<[i := c']> l) = total f l - f c + f c'.
Proof.
  revert i. induction l as [|x l IH]; intros [|i] H; [done|done|cbn in H; simplify_eq; cbn; lia|].
  change (<[S i := c']> (x :: l)) with (x :: <[i := c']> l). cbn [total]. rewrite (IH i) by done. lia.
Qed.

Lemma total_le f g l : (forall c, f c <= g c) -> total f l <= total g l.
Proof. intros H. induction l as [|c l IH]; cbn; [lia|]. pose proof (H c). lia. Qed.

Lemma seats_total_nonneg f l : (forall c, 0 <= f c) -> 0 <= total f l.
Proof. intros H. induction l as [|c l IH]; cbn; [lia|]. pose proof (H c). lia. Qed.

Lemma holding_nonneg c : 0 <= holding c.
Proof. unfold holding. destruct (rpc c); lia. Qed.

Definition is_touch (op : ROp Env) : bool := match op with RTouch _ => true | _ => false end.

Definition touches (ops : list (ROp Env)) : Z := Z.of_nat (length (List.filter is_touch ops)).

(** At most [k] calls search at a time, for at most [limit] residents. *)
Fixpoint within (limit k : Z) (ops : list (ROp Env)) st : bool :=
  (total searching (rcalls st) <=? k)
  && match ops with
     | [] => true
     | op :: ops =>
         match op with RStart capacity _ => capacity <=? limit | _ => true end
         && match rapply st op with Some st' => within limit k ops st' | None => true end
     end.

Definition load st : Z := nresidents (residency st) + pending_slots (residency st) + total in_flight (rcalls st).

Record resident_inv (limit : Z) st : Prop := {
  r_nodup : NoDup (residents (residency st));
  r_pending : pending_slots (residency st) = total holding (rcalls st);
  r_capacity : Forall (fun c => capacity c <= limit) (rcalls st);
  r_protected : forall i c t, rcalls st !! i = Some c ->
    match rpc c with Inspect _ t' | TouchBack _ t' => t' = t | _ => False end -> protected c ≠ Some t;
}.

Lemma held_slot st i c : holds_slot st i = Some c -> rcalls st !! i = Some c /\ rpc c = SlotHeld.
Proof.
  unfold holds_slot. destruct (rcalls st !! i) as [c'|]; [|done]. cbn. destruct (rpc c') eqn:E; try done. by intros [= ->].
Qed.

Lemma protected_insert limit st i c self (reg : ActiveAgents Env) pc :
  resident_inv limit st -> rcalls st !! i = Some c ->
  (forall t, match pc with Inspect _ t' | TouchBack _ t' => t' = t | _ => False end -> protected c ≠ Some t) ->
  NoDup (residents self) -> pending_slots self = pending_slots (residency st) - holding c + holding (set_rpc c pc) ->
  resident_inv limit {| residency := self; rcalls := <[i := set_rpc c pc]> (rcalls st); registered := reg |}.
Proof.
  intros [Hn Hp Hc Hq] Hi Hpr Hnd Hpend. split; cbn.
  - done.
  - rewrite (total_insert _ _ _ _ _ Hi). lia.
  - apply Forall_insert; [done|]. apply (Forall_lookup_1 _ _ _ _ Hc Hi).
  - intros j c' t Hj Ht. apply list_lookup_insert_Some in Hj as [(-> & <- & _)|(_ & Hj)]; [by apply Hpr|by eapply Hq].
Qed.

Lemma rexec_inv limit k st i c (inspection : Inspection Env) self pc unloaded reg :
  0 <= limit <= USIZE_MAX -> resident_inv limit st -> total searching (rcalls st) <= k ->
  rcalls st !! i = Some c -> rexec (residency st) c inspection = Some (self, pc, unloaded) ->
  let st' := {| residency := self; rcalls := <[i := set_rpc c pc]> (rcalls st); registered := reg |} in
  resident_inv limit st' /\ load st' <= Z.max (load st) (limit + (k - 1)).
Proof.
  intros Hl Hinv Hk Hi He st'. pose proof Hinv as [Hn Hp Hc Hq].
  assert (capacity c <= limit) as Hcap by (apply (Forall_lookup_1 _ _ _ _ Hc Hi)).
  assert (load st' = nresidents self + pending_slots self + (total in_flight (rcalls st) - in_flight c + in_flight (set_rpc c pc))) as Hload.
  { unfold load, st'. cbn. by rewrite (total_insert _ _ _ _ _ Hi). }
  assert (forall s p, self = s -> pc = p -> NoDup (residents s) -> pending_slots s = pending_slots (residency st) - holding c + holding (set_rpc c p) ->
          (forall t, match p with Inspect _ t' | TouchBack _ t' => t' = t | _ => False end -> protected c ≠ Some t) ->
          resident_inv limit st') as Hres.
  { intros s p <- <- ? ? ?. by apply protected_insert. }
  assert (in_flight c = match rpc c with Inspect _ _ | TouchBack _ _ => 1 | _ => 0 end) as Hif by done.
  assert (holding c = match rpc c with SlotHeld => 1 | _ => 0 end) as Hho by done.
  assert (searching c = match rpc c with SlotHeld | SlotRefused | SlotDone => 0 | _ => 1 end) as Hse by done.
  rewrite Hload, Hif. rewrite Hho in Hres. unfold rexec in He. pose proof (Hq i c) as Hqc. unfold load. destruct (rpc c) as [| |[|n]|n t|n t| | |] eqn:Epc; simplify_eq.
  - unfold try_reserve_pending_slot in He. destruct (Z.leb_spec (capacity c) (saturating_add (nresidents (residency st)) (pending_slots (residency st)))); simplify_eq; cbn.
    + split; [|lia]. eapply Hres; [done|done|done|cbn; lia|done].
    + split; [eapply Hres; [done|done|done|cbn; lia|done]|].
      assert (total in_flight (rcalls st) <= total searching (rcalls st) - 1) as Hf.
      { pose proof (total_insert in_flight _ _ _ (set_rpc c SlotDone) Hi) as H1. pose proof (total_insert searching _ _ _ (set_rpc c SlotDone) Hi) as H2.
        rewrite Hif in H1. rewrite Hse in H2. cbn in H1, H2.
        assert (total in_flight (<[i:=set_rpc c SlotDone]> (rcalls st)) <= total searching (<[i:=set_rpc c SlotDone]> (rcalls st))); [|lia].
        apply total_le. intros x. unfold in_flight, searching. destruct (rpc x); lia. }
      unfold saturating_add in *. change (nresidents (set_pending ?a ?b)) with (nresidents a). lia.
  - cbn. split; [|lia]. eapply Hres; [done|done|done|cbn; lia|done].
  - cbn. split; [|lia]. eapply Hres; [done|done|done|cbn; lia|done].
  - unfold pop_lru_candidate in He. pose proof (pop_loop_spec (length (residents (residency st))) (residents (residency st)) (protected c) Hn) as Hpop.
    destruct (pop_loop _ _ (protected c)) as [[t|] l]; cbn in He; simplify_eq.
    + destruct Hpop as (Hnd & Hlen & _ & Hne & _). split; [eapply Hres; [done|done|done|cbn; lia|by intros ? <-]|].
      unfold nresidents. cbn. rewrite Hlen. lia.
    + destruct Hpop as (Hnd & Hlen). split; [eapply Hres; [done|done|done|cbn; lia|done]|]. unfold nresidents. cbn. rewrite Hlen. lia.
  - destruct (inspect inspection); simplify_eq; cbn; (split; [|lia]); (eapply Hres; [done|done|done|cbn; lia|]); [done| |done].
    intros t' <-. by apply Hqc.
  - split; [eapply Hres; [done|done|by apply touch_NoDup|cbn; lia|done]|].
    unfold nresidents. cbn. pose proof (touch_length (residents (residency st)) t). lia.
Qed.

Lemma holder_pending limit st i c : resident_inv limit st -> holds_slot st i = Some c -> 1 <= pending_slots (residency st).
Proof.
  intros [_ Hp _ _] [Hi Hh]%held_slot. pose proof (total_insert holding _ _ _ (set_rpc c SlotDone) Hi) as H.
  assert (holding c = 1) as H1 by (unfold holding; by rewrite Hh). assert (holding (set_rpc c SlotDone) = 0) as H0 by done.
  pose proof (seats_total_nonneg holding (<[i:=set_rpc c SlotDone]> (rcalls st)) holding_nonneg). lia.
Qed.

Lemma rapply_inv limit k st op st' :
  0 <= limit <= USIZE_MAX -> 1 <= k -> resident_inv limit st -> total searching (rcalls st) <= k ->
  match op with RStart capacity _ => capacity <= limit | _ => True end ->
  rapply st op = Some st' ->
  resident_inv limit st' /\ load st' <= Z.max (load st) (limit + (k - 1)) + (if is_touch op then 1 else 0).
Proof.
  intros Hl Hk1 Hinv Hk Ho Ha. pose proof Hinv as [Hn Hp Hc Hq].
  destruct op as [cap prot|i insp|i t|i|t|t]; cbn [rapply] in Ha; simplify_eq.
  - split; [|unfold load; cbn; rewrite seats_total_app; cbn; lia]. split; cbn; [done| | |].
    + rewrite seats_total_app. cbn. lia.
    + apply Forall_app. split; [done|]. by constructor.
    + intros j c t [Hj|[_ Hj]]%lookup_app_Some Ht; [by eapply Hq|]. apply list_lookup_singleton_Some in Hj as [_ <-]. done.
  - destruct (rcalls st !! i) as [c|] eqn:Hi; [|done]. cbn in Ha. destruct (rexec (residency st) c insp) as [[[self pc] un]|] eqn:He; [|done].
    cbn in Ha. simplify_eq. cbn [is_touch]. rewrite Z.add_0_r. by eapply rexec_inv.
  - destruct (holds_slot st i) as [c|] eqn:Hh; [|done]. cbn in Ha. simplify_eq. pose proof (holder_pending _ _ _ _ Hinv Hh) as Hpp.
    apply held_slot in Hh as [Hi Hh]. assert (holding c = 1 /\ in_flight c = 0) as [H1 H2] by (unfold holding, in_flight; by rewrite Hh). split.
    + eapply protected_insert; [done|done|done|cbn; by apply touch_NoDup|]. cbn. unfold saturating_sub. lia.
    + assert (in_flight (set_rpc c SlotDone) = 0) as H3 by done. unfold load. cbn [residency rcalls]. rewrite (total_insert _ _ _ _ _ Hi), H2, H3.
      cbn [is_touch]. unfold nresidents. change (residents (commit_slot ?s t)) with (touch_resident (residents s) t).
      change (pending_slots (commit_slot ?s t)) with (saturating_sub (pending_slots s) 1). pose proof (touch_length (residents (residency st)) t). unfold saturating_sub. lia.
  - destruct (holds_slot st i) as [c|] eqn:Hh; [|done]. cbn in Ha. simplify_eq. pose proof (holder_pending _ _ _ _ Hinv Hh) as Hpp.
    apply held_slot in Hh as [Hi Hh]. assert (holding c = 1 /\ in_flight c = 0) as [H1 H2] by (unfold holding, in_flight; by rewrite Hh). split.
    + eapply protected_insert; [done|done|done|done|]. cbn. unfold saturating_sub. lia.
    + assert (in_flight (set_rpc c SlotDone) = 0) as H3 by done. unfold load. cbn [residency rcalls]. rewrite (total_insert _ _ _ _ _ Hi), H2, H3.
      unfold nresidents. cbn. unfold saturating_sub. lia.
  - split; [split; cbn; [by apply touch_NoDup|done|done|done]|]. unfold load, nresidents. cbn [residency rcalls touch set_residents residents pending_slots is_touch]. pose proof (touch_length (residents (residency st)) t). lia.
  - split; [split; cbn; [by apply retain_NoDup|done|done|done]|]. unfold load, nresidents. cbn [residency rcalls remove set_residents residents pending_slots is_touch]. pose proof (retain_length t (residents (residency st))). lia.
Qed.

Lemma rrun_inv limit k ops st st' :
  0 <= limit <= USIZE_MAX -> 1 <= k -> resident_inv limit st -> within limit k ops st = true -> rrun ops st = Some st' ->
  resident_inv limit st' /\ load st' <= Z.max (load st) (limit + (k - 1)) + touches ops.
Proof.
  intros Hl Hk. revert st. induction ops as [|op ops IH]; intros st Hinv Hw Hr; cbn in Hw, Hr; [simplify_eq; split; [done|]; unfold touches; cbn; lia|].
  apply andb_true_iff in Hw as [Hs Hw]. apply andb_true_iff in Hw as [Ho Hw]. destruct (rapply st op) as [st1|] eqn:Ha; [|done].
  destruct (rapply_inv limit k st op st1) as [Hinv1 Hload]; [done|done|done|lia| |done|].
  { destruct op; try done. lia. }
  destruct (IH st1 Hinv1 Hw Hr) as [Hinv' Hload']. split; [done|]. unfold touches in *. cbn [List.filter]. destruct (is_touch op); cbn [length]; lia.
Qed.

(** If at most [k] calls look for a slot at a time, the resident agents and the slots
    that are reserved exceed the capacity by at most [k - 1], and by what is touched from
    outside; in particular calls one at a time respect it. Residents are listed once, the
    reserved slots are those that are held, and no call takes the thread it protects out of
    the queue. *)
Theorem residency_bounded limit k ops (reg : ActiveAgents Env) st :
  0 <= limit <= USIZE_MAX -> 1 <= k ->
  within limit k ops (rinitial reg) = true ->
  rrun ops (rinitial reg) = Some st ->
  nresidents (residency st) + pending_slots (residency st) <= limit + (k - 1) + touches ops
  /\ NoDup (residents (residency st))
  /\ pending_slots (residency st) = total holding (rcalls st)
  /\ (forall i c t, rcalls st !! i = Some c ->
        match rpc c with Inspect _ t' | TouchBack _ t' => t' = t | _ => False end -> protected c ≠ Some t).
Proof.
  intros Hl Hk Hw Hr. assert (resident_inv limit (rinitial reg)) as Hi.
  { split; cbn; [constructor|done|constructor|done]. }
  destruct (rrun_inv limit k ops (rinitial reg) st Hl Hk Hi Hw Hr) as [[Hn Hp Hc Hq] Hload]. split_and!; [|done..].
  unfold load in Hload. cbn in Hload. assert (0 <= total in_flight (rcalls st)); [|unfold nresidents in *; cbn in *; lia].
  apply seats_total_nonneg. intros c. unfold in_flight. destruct (rpc c); lia.
Qed.

(** ** Termination *)

(** The steps of one call that runs alone, with what the manager answers. *)
Definition alone (i : nat) (answers : nat -> Inspection Env) (from n : nat) : list (ROp Env) :=
  map (fun j => RStep i (answers j)) (seq from n).

Definition finished (pc : RPc) : bool := match pc with SlotHeld | SlotRefused | SlotDone => true | _ => false end.

(** The residents, with the one that the call has taken out; then what is left of a round. *)
Definition reach (self : V2ResidencyState) (c : Call) : nat :=
  length (residents self) + match rpc c with Inspect _ _ | TouchBack _ _ => 1 | _ => 0 end.

Definition phase (self : V2ResidencyState) (c : Call) : nat :=
  match rpc c with
  | TryReserve => 3 * length (residents self) + 3
  | CountResidents => 3 * length (residents self) + 2
  | Pop n => 3 * n + 1
  | Inspect n _ => 3 * n + 3
  | TouchBack n _ => 3 * n + 2
  | _ => 0
  end.

(** A round scans no more than there are residents. *)
Definition scan_ok (bound : nat) (self : V2ResidencyState) (c : Call) : Prop :=
  (reach self c <= bound /\ match rpc c with Pop n | TouchBack n _ => n <= bound | Inspect n _ => S n <= bound | _ => True end)%nat.

Definition measure (bound : nat) (self : V2ResidencyState) (c : Call) : nat :=
  (reach self c * (3 * bound + 4) + phase self c)%nat.

Lemma rexec_decreases bound self c (insp : Inspection Env) :
  NoDup (residents self) -> scan_ok bound self c -> finished (rpc c) = false ->
  exists self' pc un, rexec self c insp = Some (self', pc, un) /\ NoDup (residents self')
  /\ scan_ok bound self' (set_rpc c pc)
  /\ (measure bound self' (set_rpc c pc) < measure bound self c)%nat.
Proof.
  intros Hnd Hs Hf. unfold rexec. unfold scan_ok, measure, reach, phase in *. destruct (rpc c) as [| |[|n]|n t|n t| | |] eqn:Epc; try done.
  - unfold try_reserve_pending_slot. destruct (_ <=? _); cbn; eexists _, _, _; (split; [done|]); cbn; split_and!; try done; lia.
  - eexists _, _, _. split; [done|]. unfold resident_count. cbn. split_and!; try done; lia.
  - eexists _, _, _. split; [done|]. cbn. split_and!; try done; lia.
  - unfold pop_lru_candidate. pose proof (pop_loop_spec (length (residents self)) (residents self) (protected c) Hnd) as Hpop.
    destruct (pop_loop _ _ (protected c)) as [[t|] l]; eexists _, _, _; (split; [done|]); cbn.
    + destruct Hpop as (Hnd' & Hlen & _). split_and!; try done; try lia; rewrite Hlen; nia.
    + destruct Hpop as (Hnd' & Hlen). split_and!; try done; try lia; rewrite Hlen; nia.
  - destruct (inspect insp); eexists _, _, _; (split; [done|]); cbn; split_and!; try done; try lia; nia.
  - eexists _, _, _. split; [done|]. cbn. pose proof (touch_length (residents self) t).
    split_and!; try done; try lia; [by apply touch_NoDup|]. nia.
Qed.

Lemma alone_finishes bound i answers n from st c :
  NoDup (residents (residency st)) -> rcalls st !! i = Some c -> scan_ok bound (residency st) c ->
  (measure bound (residency st) c <= n)%nat ->
  exists m st' c', (m <= n)%nat /\ rrun (alone i answers from m) st = Some st' /\ rcalls st' !! i = Some c' /\ finished (rpc c') = true.
Proof.
  revert from st c. induction n as [|n IH]; intros from st c Hnd Hi Hs Hm; (destruct (finished (rpc c)) eqn:Hf; [exists 0%nat, st, c; split_and!; [lia|done..]|]).
  - destruct (rexec_decreases bound _ c (answers from) Hnd Hs Hf) as (? & ? & ? & _ & _ & _ & ?). lia.
  - destruct (rexec_decreases bound _ c (answers from) Hnd Hs Hf) as (self' & pc & un & He & Hnd' & Hs' & Hlt).
    set (st1 := {| residency := self'; rcalls := <[i := set_rpc c pc]> (rcalls st);
                   registered := match un with Some (t, e) => save_evicted_environments (registered st) t e | None => registered st end |}).
    assert (rapply st (RStep i (answers from)) = Some st1) as Ha by (cbn; rewrite Hi; cbn; rewrite He; done).
    destruct (IH (S from) st1 (set_rpc c pc)) as (m & st' & c' & Hmn & Hr & Hi' & Hf').
    { done. }
    { cbn. apply list_lookup_insert_eq. by apply lookup_lt_Some in Hi. }
    { done. }
    { cbn. lia. }
    exists (S m), st', c'. split_and!; [lia| |done|done]. change (alone i answers from (S m)) with (RStep i (answers from) :: alone i answers (S from) m).
    cbn [rrun]. by rewrite Ha.
Qed.

(** C36. A call of [reserve_slot] that runs alone ends, with a slot or with a refusal, within
    a number of steps that is quadratic in the number of residents: whatever the manager
    answers about the candidates. *)
Theorem reserve_slot_terminates st i c answers :
  NoDup (residents (residency st)) -> rcalls st !! i = Some c -> rpc c = TryReserve ->
  let n := length (residents (residency st)) in
  exists m st' c', (m <= n * (3 * n + 4) + 3 * n + 3)%nat
  /\ rrun (alone i answers 0 m) st = Some st' /\ rcalls st' !! i = Some c' /\ finished (rpc c') = true.
Proof.
  intros Hnd Hi Hp n. apply (alone_finishes n i answers _ 0 st c Hnd Hi).
  - unfold scan_ok, reach. rewrite Hp. subst n. lia.
  - unfold measure, reach, phase. rewrite Hp. subst n. lia.
Qed.
End Props.

(** ** Runs *)

Module ResidencyDemo.
Definition thread (status : AgentStatus) : WorkxThread :=
  {| multi_agent_version := Some V2; session_source := SubAgent Review; agent_status := status;
     has_active_turn := false; has_pending_mailbox_items := false |}.

Definition busy : Inspection unit := {| found := Some (thread Running); shuts_down := true; environment_selections := () |}.
Definition idle : Inspection unit := {| found := Some (thread (Completed None)); shuts_down := true; environment_selections := () |}.
Definition unloaded : Inspection unit := {| found := None; shuts_down := true; environment_selections := () |}.

Definition start_state : RState unit := rinitial (active_agents (registry (@initial unit))).

Definition after (ops : list (ROp unit)) : RState unit := default start_state (rrun ops start_state).

Definition steps (i n : nat) (insp : Inspection unit) : list (ROp unit) := repeat (RStep i insp) n.

(** One agent is loaded into the only slot. *)
Definition load_first : list (ROp unit) := [RStart 1 None] ++ steps 0 1 busy ++ [RCommit 0 7].

(** A second call finds the slot taken, unloads the idle agent and gets the slot. *)
Definition replace_first : list (ROp unit) := load_first ++ [RStart 1 None] ++ steps 1 5 idle ++ [RCommit 1 8].

Lemma residency_bounded_witness :
  residents (residency (after replace_first)) = [8]
  /\ nresidents (residency (after replace_first)) + pending_slots (residency (after replace_first)) <= 1.
Proof.
  split; [by vm_compute|].
  destruct (residency_bounded 1 1 replace_first (active_agents (registry (@initial unit))) (after replace_first)) as [H _];
    [done|done|by vm_compute|by vm_compute|exact H].
Defined.

Lemma reserve_slot_terminates_witness :
  exists m st' c', (m <= 13)%nat /\ rrun (alone 1 (fun _ => busy) 0 m) (after (load_first ++ [RStart 1 None])) = Some st'
  /\ rcalls st' !! 1%nat = Some c' /\ finished (rpc c') = true.
Proof.
  apply (reserve_slot_terminates (after (load_first ++ [RStart 1 None])) 1 {| capacity := 1; protected := None; rpc := TryReserve |} (fun _ => busy));
    [vm_compute; repeat constructor; set_solver|by vm_compute|done].
Defined.

(** While one call inspects the only resident, a second call gets its slot; the resident
    turns out to be busy and goes back to the queue: one resident and one slot, for a
    capacity of one. *)
Theorem residency_overcommit :
  exists ops, within 1 2 ops start_state = true /\ touches ops = 0
  /\ nresidents (residency (after ops)) + pending_slots (residency (after ops)) = 2.
Proof.
  exists (load_first ++ [RStart 1 None] ++ steps 1 3 busy ++ [RStart 1 None] ++ steps 2 1 busy ++ steps 1 2 busy).
  split_and!; by vm_compute.
Qed.

(** The only resident is no longer loaded. The search drops it from the queue, and the
    call is refused all the same, with nobody resident and no slot reserved. *)
Theorem stale_residents_refuse :
  exists ops c, rcalls (after ops) !! 1%nat = Some c /\ capacity c = 1 /\ rpc c = SlotRefused
  /\ residents (residency (after ops)) = [] /\ pending_slots (residency (after ops)) = 0.
Proof.
  exists (load_first ++ [RStart 1 None] ++ steps 1 5 unloaded), {| capacity := 1; protected := None; rpc := SlotRefused |}.
  split_and!; by vm_compute.
Qed.
End ResidencyDemo.
