(* ===== verification/WorldState.v ===== *)
(** * The state of the world and its patches

    Models the comparison state of [workx-rs/core/src/context/world_state/mod.rs]: snapshots
    of what the model was told about its environment, and the RFC 7386 merge patches in
    which their changes are recorded. A JSON value is an inductive type; an object is the
    list of its entries in the order of their keys. A build of [serde_json] that keeps the
    order of insertion differs only in an order that equality of objects ignores. *)
From S2P Require Import Prelude.

Set Default Goal Selector "!".

(** A number is its text. *)
Inductive Value :=
| VNull
| VBool (b : bool)
| VNumber (n : rstr)
| VString (s : rstr)
| VArray (l : list Value)
| VObject (entries : list (rstr * Value)).

(** Induction that reaches the elements of arrays and objects. *)
Section ValueInd.
Context (P : Value -> Prop).
Context (Hnull : P VNull) (Hbool : forall b, P (VBool b)) (Hnum : forall n, P (VNumber n)) (Hstr : forall s, P (VString s)).
Context (Harr : forall l, Forall P l -> P (VArray l)) (Hobj : forall m, Forall (fun kv => P kv.2) m -> P (VObject m)).

Fixpoint value_ind' (v : Value) : P v :=
  match v with
  | VNull => Hnull
  | VBool b => Hbool b
  | VNumber n => Hnum n
  | VString s => Hstr s
  | VArray l =>
      Harr l ((fix go (l : list Value) : Forall P l :=
                 match l with [] => List.Forall_nil _ | x :: l => List.Forall_cons _ _ _ (value_ind' x) (go l) end) l)
  | VObject m =>
      Hobj m ((fix go (m : list (rstr * Value)) : Forall (fun kv => P kv.2) m :=
                 match m with [] => List.Forall_nil _ | kv :: m => List.Forall_cons _ _ _ (value_ind' kv.2) (go m) end) m)
  end.
End ValueInd.

Fixpoint value_eqb (v w : Value) {struct v} : bool :=
  match v, w with
  | VNull, VNull => true
  | VBool b, VBool b' => Bool.eqb b b'
  | VNumber n, VNumber n' => n =s n'
  | VString s, VString s' => s =s s'
  | VArray l, VArray l' =>
      (fix go (l l' : list Value) : bool :=
         match l, l' with
         | [], [] => true
         | x :: l, y :: l' => value_eqb x y && go l l'
         | _, _ => false
         end) l l'
  | VObject m, VObject m' =>
      (fix go (m m' : list (rstr * Value)) : bool :=
         match m, m' with
         | [], [] => true
         | (k, x) :: m, (k', y) :: m' => (k =s k') && value_eqb x y && go m m'
         | _, _ => false
         end) m m'
  | _, _ => false
  end.

Definition is_null (v : Value) : bool := match v with VNull => true | _ => false end.

Definition as_object (v : Value) : option (list (rstr * Value)) := match v with VObject m => Some m | _ => None end.

(** ** Ordered maps *)

Section Maps.
Context {A : Type}.

Fixpoint map_get (k : rstr) (m : list (rstr * A)) : option A :=
  match m with
  | [] => None
  | (k', v) :: m => if k =s k' then Some v else map_get k m
  end.

Fixpoint map_insert (k : rstr) (v : A) (m : list (rstr * A)) : list (rstr * A) :=
  match m with
  | [] => [(k, v)]
  | (k', v') :: m' =>
      if k =s k' then (k, v) :: m'
      else if str_leb k k' then (k, v) :: m
      else (k', v') :: map_insert k v m'
  end.

Fixpoint map_remove (k : rstr) (m : list (rstr * A)) : list (rstr * A) :=
  match m with
  | [] => []
  | (k', v) :: m => if k =s k' then m else (k', v) :: map_remove k m
  end.

Definition key_lt (a b : rstr * A) : Prop := str_leb a.1 b.1 = true /\ a.1 ≠ b.1.

Definition ordered (m : list (rstr * A)) : Prop := StronglySorted key_lt m.
End Maps.

(** ** Patches *)

Fixpoint remove_null_object_fields (v : Value) : Value :=
  match v with
  | VObject m =>
      VObject ((fix go (m : list (rstr * Value)) : list (rstr * Value) :=
                  match m with
                  | [] => []
                  | (k, x) :: m => if is_null x then go m else (k, remove_null_object_fields x) :: go m
                  end) m)
  | _ => v
  end.

(** The keys of [previous] that [current] has no more. *)
Definition removals (previous current : list (rstr * Value)) : list (rstr * Value) :=
  foldl (fun patch kv => match map_get kv.1 current with
                         | None => map_insert kv.1 VNull patch
                         | Some _ => patch
                         end) [] previous.

Fixpoint create_merge_patch (previous current : Value) {struct current} : option Value :=
  if value_eqb previous current then None
  else
    match current with
    | VObject current =>
        let previous := as_object previous in
        let patch := match previous with Some previous => removals previous current | None => [] end in
        Some (VObject
          ((fix go (entries patch : list (rstr * Value)) : list (rstr * Value) :=
              match entries with
              | [] => patch
              | (key, current_value) :: entries =>
                  go entries
                    match previous ≫= map_get key with
                    | None => map_insert key current_value patch
                    | Some previous_value =>
                        match create_merge_patch previous_value current_value with
                        | Some value_patch => map_insert key value_patch patch
                        | None => patch
                        end
                    end
              end) current patch))
    | _ => Some current
    end.

Fixpoint apply_merge_patch_value (target patch : Value) {struct patch} : Value :=
  match patch with
  | VObject patch =>
      let target := match target with VObject m => m | _ => [] end in
      VObject
        ((fix go (patch target : list (rstr * Value)) : list (rstr * Value) :=
            match patch with
            | [] => target
            | (key, value) :: patch =>
                go patch
                  (if is_null value then map_remove key target
                   else match map_get key target with
                        | Some current => map_insert key (apply_merge_patch_value current value) target
                        | None => map_insert key (apply_merge_patch_value VNull value) target
                        end)
            end) patch target)
  | _ => patch
  end.

Record WorldStateSnapshot := { sections : list (rstr * Value) }.

Record WorldStateItem := { full : bool; state : list (rstr * Value) }.

Definition merge_step (previous : list (rstr * Value)) (patch : list (rstr * Value)) (kv : rstr * Value) : list (rstr * Value) :=
  match map_get kv.1 previous with
  | Some previous_value =>
      match create_merge_patch previous_value kv.2 with
      | Some value => map_insert kv.1 value patch
      | None => patch
      end
  | None => map_insert kv.1 kv.2 patch
  end.

Definition merge_patch_from (self previous : WorldStateSnapshot) : option (list (rstr * Value)) :=
  let patch := foldl (merge_step (sections previous)) (removals (sections previous) (sections self)) (sections self) in
  if is_empty patch then None else Some patch.

Definition patch_step (target : list (rstr * Value)) (kv : rstr * Value) : list (rstr * Value) :=
  if is_null kv.2 then map_remove kv.1 target
  else match map_get kv.1 target with
       | Some current => map_insert kv.1 (apply_merge_patch_value current kv.2) target
       | None => map_insert kv.1 (apply_merge_patch_value VNull kv.2) target
       end.

Definition apply_merge_patch (self : WorldStateSnapshot) (patch : list (rstr * Value)) : WorldStateSnapshot :=
  {| sections := foldl patch_step (sections self) patch |}.

(** [ContextManager::update_world_state]: the record of a new snapshot, given the last. *)
Definition update_world_state (baseline : option WorldStateSnapshot) (snapshot : WorldStateSnapshot)
  : option WorldStateItem * option WorldStateSnapshot :=
  let rollout_item :=
    match baseline with
    | None => Some {| full := true; state := sections snapshot |}
    | Some previous => (fun p => {| full := false; state := p |}) <$> merge_patch_from snapshot previous
    end in
  (rollout_item, Some snapshot).

(** ** Maps: lookups and order *)

Section MapLemmas.
Context {A : Type}.
Implicit Types m : list (rstr * A).

Lemma str_leb_total a b : str_leb a b = true \/ str_leb b a = true.
Proof. apply lex_leb_total; [apply Z.eqb_eq|]. intros x y. rewrite !Z.leb_le. lia. Qed.

Lemma str_leb_trans a b c : str_leb a b = true -> str_leb b c = true -> str_leb a c = true.
Proof.
  apply lex_leb_trans; [apply Z.eqb_eq|intros x y z; rewrite !Z.leb_le; lia|intros x y; rewrite !Z.leb_le; lia].
Qed.

Lemma key_lt_trans (a b c : rstr * A) : key_lt a b -> key_lt b c -> key_lt a c.
Proof.
  intros [H1 N1] [H2 N2]. split; [by eapply str_leb_trans|]. intros Heq. apply N1. apply str_leb_antisym; [done|]. by rewrite Heq.
Qed.

Lemma map_get_Forall k v m : map_get k m = Some v -> (k, v) ∈ m.
Proof.
  induction m as [|[k' v'] m IH]; cbn; [done|]. destruct (k =s k') eqn:E; [|right; by apply IH].
  apply streq_true in E as ->. intros [= ->]. left.
Qed.

Lemma ordered_cons k v m : ordered ((k, v) :: m) <-> ordered m /\ Forall (key_lt (k, v)) m.
Proof. split; [by inversion 1|]. intros []. by constructor. Qed.

Lemma get_below k v m : Forall (key_lt (k, v)) m -> map_get k m = None.
Proof.
  induction m as [|[k' v'] m IH]; cbn; [done|]. intros [[_ Hne] H]%Forall_cons. cbn in Hne. destruct (k =s k') eqn:E; [by apply streq_true in E|by apply IH].
Qed.

Lemma get_insert k k' v m : map_get k (map_insert k' v m) = if k =s k' then Some v else map_get k m.
Proof.
  induction m as [|[c w] m IH]; cbn; [done|]. destruct (k' =s c) eqn:E; cbn.
  - apply streq_true in E as ->. by destruct (k =s c).
  - destruct (str_leb k' c); cbn; [done|]. rewrite IH. destruct (k =s c) eqn:E2, (k =s k') eqn:E3; try done.
    apply streq_true in E2 as ->, E3 as ->. by rewrite streq_refl in E.
Qed.

Lemma get_remove k k' m : ordered m -> map_get k (map_remove k' m) = if k =s k' then None else map_get k m.
Proof.
  induction m as [|[c w] m IH]; cbn; [by destruct (k =s k')|]. intros [Ho Hb]%ordered_cons. destruct (k' =s c) eqn:E; cbn.
  - apply streq_true in E as ->. destruct (k =s c) eqn:E2; [|done]. apply streq_true in E2 as ->. by eapply get_below.
  - rewrite IH by done. destruct (k =s c) eqn:E2, (k =s k') eqn:E3; try done.
    apply streq_true in E2 as ->, E3 as ->. by rewrite streq_refl in E.
Qed.

Lemma insert_above (a : rstr * A) k v m : key_lt a (k, v) -> Forall (key_lt a) m -> Forall (key_lt a) (map_insert k v m).
Proof.
  intros Ha. induction m as [|[c w] m IH]; cbn; intros H; [by constructor|]. apply Forall_cons in H as [H1 H2].
  destruct (k =s c); [by constructor|]. destruct (str_leb k c); constructor; auto.
Qed.

Lemma key_lt_key (a : rstr * A) k v w : key_lt (k, v) a -> key_lt (k, w) a.
Proof. done. Qed.

Lemma ordered_insert k v m : ordered m -> ordered (map_insert k v m).
Proof.
  induction m as [|[c w] m IH]; cbn; intros H; [constructor; constructor|]. apply ordered_cons in H as [Ho Hb].
  destruct (k =s c) eqn:E; [apply streq_true in E as ->; by apply ordered_cons|].
  apply streq_false in E. destruct (str_leb k c) eqn:El.
  - apply ordered_cons. split; [by apply ordered_cons|]. constructor; [done|].
    eapply Forall_impl; [exact Hb|]. intros x Hx. by eapply (key_lt_trans _ (c, w)).
  - apply ordered_cons. split; [by apply IH|]. apply insert_above; [|done]. split; cbn [fst]; [|done]. destruct (str_leb_total k c); congruence.
Qed.

Lemma remove_incl (P : rstr * A -> Prop) k m : Forall P m -> Forall P (map_remove k m).
Proof.
  induction m as [|[c w] m IH]; cbn; [done|]. intros [H1 H2]%Forall_cons. destruct (k =s c); [done|]. constructor; auto.
Qed.

Lemma ordered_remove k m : ordered m -> ordered (map_remove k m).
Proof.
  induction m as [|[c w] m IH]; cbn; [done|]. intros [Ho Hb]%ordered_cons. destruct (k =s c); [done|].
  apply ordered_cons. split; [by apply IH|by apply remove_incl].
Qed.

Lemma map_ext m m' : ordered m -> ordered m' -> (forall k, map_get k m = map_get k m') -> m = m'.
Proof.
  revert m'. induction m as [|[k v] m IH]; intros [|[k' v'] m'] H H' Hg.
  - done.
  - specialize (Hg k'). cbn in Hg. by rewrite streq_refl in Hg.
  - specialize (Hg k). cbn in Hg. by rewrite streq_refl in Hg.
  - apply ordered_cons in H as [Ho Hb], H' as [Ho' Hb'].
    assert (k = k') as ->.
    { pose proof (Hg k) as H1. pose proof (Hg k') as H2. cbn in H1, H2. rewrite streq_refl in H1. rewrite streq_refl in H2.
      destruct (k =s k') eqn:E; [by apply streq_true|]. destruct (k' =s k) eqn:E'; [by symmetry; apply streq_true|]. exfalso.
      symmetry in H1. apply map_get_Forall in H1, H2. apply (proj1 (Forall_forall _ _) Hb') in H1. apply (proj1 (Forall_forall _ _) Hb) in H2.
      destruct H1 as [H1 N1], H2 as [H2 _]. cbn [fst] in *. apply N1. by apply str_leb_antisym. }
    pose proof (Hg k') as H1. cbn in H1. rewrite streq_refl in H1. simplify_eq. f_equal. apply IH; [done|done|]. intros k.
    specialize (Hg k). cbn in Hg. destruct (k =s k') eqn:E; [|done]. apply streq_true in E as ->. by rewrite !(get_below _ v').
Qed.
End MapLemmas.

(** A loop that makes at most one entry for each entry of a map. *)
Lemma get_foldl_insert {A B} (f : rstr * A -> option B) k l init :
  ordered l ->
  map_get k (foldl (fun p kv => match f kv with Some b => map_insert kv.1 b p | None => p end) init l)
  = match map_get k l ≫= (fun v => f (k, v)) with Some b => Some b | None => map_get k init end.
Proof.
  revert init. induction l as [|[c w] l IH]; intros init H; cbn; [done|]. apply ordered_cons in H as [Ho Hb]. rewrite IH by done.
  destruct (k =s c) eqn:E.
  - apply streq_true in E as ->. rewrite (get_below _ _ _ Hb). cbn. destruct (f (c, w)); [by rewrite get_insert, streq_refl|done].
  - destruct (map_get k l ≫= _); [done|]. destruct (f (c, w)); [by rewrite get_insert, E|done].
Qed.

Lemma ordered_foldl_insert {A B} (f : rstr * A -> option B) l init :
  ordered init -> ordered (foldl (fun p kv => match f kv with Some b => map_insert kv.1 b p | None => p end) init l).
Proof.
  revert init. induction l as [|kv l IH]; intros init H; cbn; [done|]. apply IH. destruct (f kv); [by apply ordered_insert|done].
Qed.

(** ** Values *)

Lemma value_eqb_eq v w : value_eqb v w = true <-> v = w.
Proof.
  split; [|intros <-; induction v as [| | | |l IH|m IH] using value_ind'; cbn; rewrite ?streq_refl; try done; [by destruct b| |]].
  - revert w. induction v as [|b|n|s|l IH|m IH] using value_ind'; intros [|b'|n'|s'|l'|m'] H; cbn in H; try done.
    + by apply Bool.eqb_prop in H as ->.
    + by apply streq_true in H as ->.
    + by apply streq_true in H as ->.
    + f_equal. revert l' H. induction IH as [|x l Hx _ IH]; intros [|y l'] H; try done. apply andb_true_iff in H as [H1 H2].
      f_equal; [by apply Hx|by apply IH].
    + f_equal. revert m' H. induction IH as [|[k x] m Hx _ IH]; intros [|[k' y] m'] H; try done.
      apply andb_true_iff in H as [H1 H2]. apply andb_true_iff in H1 as [H0%streq_true H1]. subst k'. cbn in Hx. f_equal; [by f_equal; apply Hx|by apply IH].
  - induction IH as [|x l Hx _ IH]; [done|]. by rewrite Hx.
  - induction IH as [|[k x] m Hx _ IH]; [done|]. cbn in Hx. by rewrite streq_refl, Hx.
Qed.

(** Objects have their entries in order, all the way down. *)
Inductive well_ordered : Value -> Prop :=
| wo_object m : ordered m -> Forall (fun kv => well_ordered kv.2) m -> well_ordered (VObject m)
| wo_other v : as_object v = None -> well_ordered v.

(** And no entry of an object is null. *)
Inductive clean : Value -> Prop :=
| clean_object m : ordered m -> Forall (fun kv => is_null kv.2 = false /\ clean kv.2) m -> clean (VObject m)
| clean_other v : as_object v = None -> clean v.

Definition clean_entries (m : list (rstr * Value)) : Prop := ordered m /\ Forall (fun kv => is_null kv.2 = false /\ clean kv.2) m.

Lemma clean_object_inv m : clean (VObject m) -> clean_entries m.
Proof. by inversion 1. Qed.

Lemma clean_get m k v : clean_entries m -> map_get k m = Some v -> is_null v = false /\ clean v.
Proof. intros [_ H] Hg. apply map_get_Forall in Hg. by apply (proj1 (Forall_forall _ _) H (k, v)). Qed.

Lemma clean_well_ordered v : clean v -> well_ordered v.
Proof.
  induction v as [| | | |l IH|m IH] using value_ind'; intros H; try by apply wo_other.
  apply clean_object_inv in H as [Ho Hf]. apply wo_object; [done|].
  rewrite Forall_forall in Hf, IH |- *. intros kv Hkv. apply IH; [done|]. by apply Hf.
Qed.

Definition entries_of (v : Value) : list (rstr * Value) := default [] (as_object v).

Lemma well_ordered_entries v : well_ordered v -> ordered (entries_of v) /\ forall k w, map_get k (entries_of v) = Some w -> well_ordered w.
Proof.
  intros [m Ho Hf|w Hw]; cbn.
  - split; [done|]. intros k x Hg. apply map_get_Forall in Hg. by apply (proj1 (Forall_forall _ _) Hf (k, x)).
  - unfold entries_of. rewrite Hw. split; [constructor|done].
Qed.

(** ** The loops *)

Lemma apply_object target p : apply_merge_patch_value target (VObject p) = VObject (foldl patch_step (entries_of target) p).
Proof.
  cbn. f_equal. replace (match target with VObject m => m | _ => [] end) with (entries_of target) by (by destruct target).
  generalize (entries_of target). induction p as [|[k v] p IH]; intros t; [done|]. apply IH.
Qed.

Lemma get_patch k t p :
  ordered t -> ordered p ->
  map_get k (foldl patch_step t p)
  = match map_get k p with
    | Some v => if is_null v then None else Some (apply_merge_patch_value (default VNull (map_get k t)) v)
    | None => map_get k t
    end.
Proof.
  revert t. induction p as [|[c w] p IH]; intros t Ht Hp; [done|]. apply ordered_cons in Hp as [Ho Hb]. cbn [foldl map_get].
  assert (forall k', map_get k' (patch_step t (c, w)) = if k' =s c then (if is_null w then None else Some (apply_merge_patch_value (default VNull (map_get c t)) w)) else map_get k' t) as Hs.
  { intros k'. unfold patch_step. cbn [fst snd]. destruct (is_null w); [by apply get_remove|]. by destruct (map_get c t); rewrite get_insert. }
  rewrite IH; [|unfold patch_step; destruct (is_null _); [by apply ordered_remove|]; destruct (map_get _ t); by apply ordered_insert|done].
  rewrite Hs. destruct (k =s c) eqn:E; [|done]. apply streq_true in E as ->. by rewrite (get_below _ _ _ Hb).
Qed.

Lemma ordered_patch t p : ordered t -> ordered (foldl patch_step t p).
Proof.
  revert t. induction p as [|kv p IH]; intros t H; cbn; [done|]. apply IH. unfold patch_step. destruct (is_null _); [by apply ordered_remove|].
  destruct (map_get _ t); by apply ordered_insert.
Qed.

(** The entries that a patch to [current] has for the entries of [current]. *)
Definition change (previous : list (rstr * Value)) (kv : rstr * Value) : option Value :=
  match map_get kv.1 previous with
  | Some previous_value => create_merge_patch previous_value kv.2
  | None => Some kv.2
  end.

Definition patch_of (previous current : list (rstr * Value)) : list (rstr * Value) :=
  foldl (merge_step previous) (removals previous current) current.

Lemma merge_step_change previous p kv :
  merge_step previous p kv = match change previous kv with Some b => map_insert kv.1 b p | None => p end.
Proof. unfold merge_step, change. by destruct (map_get kv.1 previous). Qed.

Lemma patch_of_foldl previous current :
  patch_of previous current
  = foldl (fun p kv => match change previous kv with Some b => map_insert kv.1 b p | None => p end) (removals previous current) current.
Proof.
  unfold patch_of. generalize (removals previous current). induction current as [|kv l IH]; intros p; cbn; [done|]. by rewrite merge_step_change, IH.
Qed.

Lemma create_object previous current :
  create_merge_patch previous (VObject current)
  = if value_eqb previous (VObject current) then None else Some (VObject (patch_of (entries_of previous) current)).
Proof.
  cbn [create_merge_patch]. destruct (value_eqb previous (VObject current)); [done|]. do 2 f_equal.
  assert (match as_object previous with Some previous => removals previous current | None => [] end = removals (entries_of previous) current) as ->.
  { unfold entries_of. by destruct (as_object previous). }
  unfold patch_of. generalize (removals (entries_of previous) current).
  induction current as [|[k v] l IH]; intros p; [done|]. cbn [foldl]. rewrite <- IH. clear IH. f_equal. unfold merge_step, entries_of. cbn [fst snd].
  destruct (as_object previous) as [m|]; cbn; [|done]. by destruct (map_get k m).
Qed.

Definition removal (current : list (rstr * Value)) (kv : rstr * Value) : option Value :=
  match map_get kv.1 current with None => Some VNull | Some _ => None end.

Lemma removals_foldl previous current :
  removals previous current
  = foldl (fun p kv => match removal current kv with Some b => map_insert kv.1 b p | None => p end) [] previous.
Proof.
  unfold removals. generalize (@nil (rstr * Value)). induction previous as [|kv l IH]; intros p; cbn; [done|]. rewrite IH. f_equal.
  unfold removal. by destruct (map_get kv.1 current).
Qed.

Lemma ordered_patch_of previous current : ordered (patch_of previous current).
Proof. rewrite patch_of_foldl. apply ordered_foldl_insert. rewrite removals_foldl. apply ordered_foldl_insert. constructor. Qed.

Lemma get_patch_of k previous current :
  ordered previous -> ordered current ->
  map_get k (patch_of previous current)
  = match map_get k current with
    | Some v => change previous (k, v)
    | None => match map_get k previous with Some _ => Some VNull | None => None end
    end.
Proof.
  intros Hp Hc. rewrite patch_of_foldl, get_foldl_insert by done. rewrite removals_foldl, get_foldl_insert by done. unfold removal. cbn [fst].
  destruct (map_get k current) as [v|] eqn:E; cbn.
  - destruct (change previous (k, v)); [done|]. by destruct (map_get k previous).
  - by destruct (map_get k previous).
Qed.

(** ** Round trip *)

Lemma patch_fresh v t : clean v -> as_object t = None -> apply_merge_patch_value t v = v.
Proof.
  revert t. induction v as [| | | |l IH|m IH] using value_ind'; intros t Hc Ht; try done.
  apply clean_object_inv in Hc as Hm. rewrite apply_object. f_equal. unfold entries_of. rewrite Ht. cbn.
  apply map_ext; [apply ordered_patch; constructor|by destruct Hm|]. intros k. rewrite get_patch; [|constructor|by destruct Hm]. cbn.
  destruct (map_get k m) as [w|] eqn:E; [|done]. destruct (clean_get _ _ _ Hm E) as [-> Hw]. f_equal.
  apply map_get_Forall in E. by apply (proj1 (Forall_forall _ _) IH (k, w)).
Qed.

Lemma create_not_null previous v p : create_merge_patch previous v = Some p -> is_null v = false -> is_null p = false.
Proof.
  destruct v as [| | | | |m]; [done| | | | |rewrite create_object]; cbn; destruct (value_eqb _ _); by intros [= <-].
Qed.

(** Entry-wise correct patches make a correct patch. *)
Lemma patch_entries previous current :
  ordered previous -> clean_entries current ->
  (forall k v w, map_get k current = Some v -> map_get k previous = Some w ->
   match create_merge_patch w v with None => w = v | Some p => apply_merge_patch_value w p = v end) ->
  foldl patch_step previous (patch_of previous current) = current.
Proof.
  intros Hp Hc Hrec. pose proof Hc as [Ho _]. apply map_ext; [by apply ordered_patch|done|]. intros k.
  rewrite get_patch by (done || apply ordered_patch_of). rewrite get_patch_of by done. unfold change. cbn [fst snd].
  destruct (map_get k current) as [v|] eqn:Ev.
  - destruct (clean_get _ _ _ Hc Ev) as [Hn Hv]. destruct (map_get k previous) as [w|] eqn:Ew; cbn.
    + specialize (Hrec k v w Ev Ew). destruct (create_merge_patch w v) as [p|] eqn:Ep; [|by rewrite Hrec].
      rewrite (create_not_null _ _ _ Ep Hn). cbn. by rewrite Hrec.
    + rewrite Hn. f_equal. by apply patch_fresh.
  - destruct (map_get k previous); done.
Qed.

Lemma patch_roundtrip current : clean current -> forall previous, well_ordered previous ->
  match create_merge_patch previous current with
  | None => previous = current
  | Some p => apply_merge_patch_value previous p = current
  end.
Proof.
  assert (forall previous v, as_object v = None ->
          match (if value_eqb previous v then None else Some v) with None => previous = v | Some p => apply_merge_patch_value previous p = v end) as Hleaf.
  { intros previous v Hv. destruct (value_eqb previous v) eqn:E; [by apply value_eqb_eq|]. by destruct v. }
  induction current as [| | | |l IH|m IH] using value_ind'; intros Hc previous Hp; try by apply (Hleaf previous).
  rewrite create_object. destruct (value_eqb previous (VObject m)) eqn:E; [by apply value_eqb_eq|].
  rewrite apply_object. f_equal. apply clean_object_inv in Hc. destruct (well_ordered_entries _ Hp) as [Ho Hw].
  apply patch_entries; [done|done|]. intros k v w Hv Hpw. apply map_get_Forall in Hv as Hin.
  apply (proj1 (Forall_forall _ _) IH (k, v) Hin); [by eapply clean_get|by eapply Hw].
Qed.

Definition clean_snapshot (s : WorldStateSnapshot) : Prop := clean_entries (sections s).

Lemma snapshot_patch_roundtrip self previous :
  clean_snapshot self -> clean_snapshot previous ->
  match merge_patch_from self previous with
  | None => previous = self
  | Some p => apply_merge_patch previous p = self
  end.
Proof.
  destruct self as [cur], previous as [prev]. unfold clean_snapshot. cbn. intros Hc Hp.
  assert (foldl patch_step prev (patch_of prev cur) = cur) as Hr.
  { apply patch_entries; [by destruct Hp|done|]. intros k v w Hv Hw. apply patch_roundtrip; [by destruct (clean_get _ _ _ Hc Hv)|].
    apply clean_well_ordered. by destruct (clean_get _ _ _ Hp Hw). }
  unfold merge_patch_from, apply_merge_patch. cbn [sections]. fold (patch_of prev cur). destruct (is_empty (patch_of prev cur)) eqn:E.
  - apply is_empty_true in E. rewrite E in Hr. cbn in Hr. by f_equal.
  - by rewrite Hr.
Qed.

Lemma remove_null_object m :
  remove_null_object_fields (VObject m)
  = VObject (map (fun kv => (kv.1, remove_null_object_fields kv.2)) (List.filter (fun kv => negb (is_null kv.2)) m)).
Proof. cbn. f_equal. induction m as [|[k x] m IH]; cbn; [done|]. destruct (is_null x); cbn; [done|]. by rewrite <- IH. Qed.

Lemma ordered_filter_map (f : Value -> Value) (p : rstr * Value -> bool) m :
  ordered m -> ordered (map (fun kv => (kv.1, f kv.2)) (List.filter p m)).
Proof.
  induction m as [|[k x] m IH]; cbn; [done|]. intros [Ho Hb]%ordered_cons. destruct (p (k, x)); [|by apply IH]. cbn. apply ordered_cons.
  split; [by apply IH|]. apply Forall_forall. intros kv Hkv. apply list_elem_of_In, List.in_map_iff in Hkv as (kv' & <- & Hin).
  apply List.filter_In in Hin as [Hin _]. apply list_elem_of_In in Hin. by apply (proj1 (Forall_forall _ _) Hb kv').
Qed.

(** Removing null fields makes a value that patches can carry. *)
Lemma remove_null_clean v : well_ordered v -> clean (remove_null_object_fields v).
Proof.
  induction v as [| | | |l IH|m IH] using value_ind'; intros H; try by apply clean_other.
  rewrite remove_null_object. inversion H as [? Ho Hall|]; [|done]. subst. apply clean_object; [by apply ordered_filter_map|].
  apply Forall_forall. intros kv Hkv. apply list_elem_of_In, List.in_map_iff in Hkv as (kv' & <- & Hin). apply List.filter_In in Hin as [Hin Hn].
  apply list_elem_of_In in Hin. cbn. split; [by destruct (kv'.2)|].
  apply (proj1 (Forall_forall _ _) IH kv' Hin). by apply (proj1 (Forall_forall _ _) Hall kv').
Qed.
