(* ===== verification/Rollout.v ===== *)
(** * Rebuilding a session from its rollout

    Models [workx-rs/core/src/session/rollout_reconstruction.rs], which rebuilds the
    history and the settings of a session from the items that were recorded, and
    [workx-rs/rollout/src/model_context.rs], which decides how many of them have to be
    loaded. Both read the items from the newest to the oldest.

    The operations of the context manager that the replay uses are the class
    [ContextManagerOps], which [Compact] implements; the classification of messages ([is_contextual_user_message_content]
    and [InterAgentCommunication::is_message_content], which look into texts and JSON) and
    the [uuid] crate are parameters. *)
From S2P Require Import Prelude Width History WorldState.

Set Default Goal Selector "!".

Local Open Scope Z_scope.

Section Rollout.
Context {Opaque Checkpoint Comm Uuid : Type}.
Local Abbreviation Envelope := (@ResponseItemEnvelope Opaque).
Local Abbreviation Item := (@ResponseItem Opaque).

(** ** Data *)

Inductive EventMsg :=
| ThreadRolledBack (num_turns : Z)
| TurnStarted (turn_id : rstr)
| TurnComplete (turn_id : rstr)
| TurnAborted (turn_id : option rstr)
| UserMessage
| ItemCompleted (turn_id : rstr) (is_user_message : bool)
| OtherEvent.

(** The fields that are read; [tc_rest] stands for the others. *)
Record TurnContextItem := {
  tc_turn_id : option rstr;
  tc_model : rstr;
  tc_model_provider_id : option rstr;
  tc_comp_hash : option rstr;
  tc_realtime_active : option bool;
  tc_rest : Opaque;
}.

Record CompactedItem := {
  ci_message : rstr;
  ci_replacement_history : option (list Envelope);
  ci_guardian_history : option Checkpoint;
  ci_window_number : option Z;
  ci_first_window_id : option rstr;
  ci_previous_window_id : option rstr;
  ci_window_id : option rstr;
  ci_rest : Opaque;
}.

(** The window id of the session, if it has a context window. *)
Record SessionMetaLine := { sm_context_window : option rstr; sm_rest : Opaque }.

Inductive RolloutItem :=
| SessionMeta (session_meta : SessionMetaLine)
| RResponseItem (response_item : Envelope)
| InterAgentCommunication (communication : Comm)
| InterAgentCommunicationMetadata (trigger_turn : bool)
| Compacted (compacted : CompactedItem)
| TurnContext (ctx : TurnContextItem)
| TokenUsageRecord (record : Opaque)
| WorldStateRecord (world_state : WorldStateItem)
| SecurityRiskScore (score : Opaque)
| REventMsg (event : EventMsg)
| RealtimeItem (realtime : Opaque).

Record PreviousTurnSettings := {
  model : rstr;
  model_provider_id : option rstr;
  comp_hash : option rstr;
  realtime_active : option bool;
}.

Record ReconstructedWindow := { number : Z; first_id : option Uuid; previous_id : option Uuid; w_id : option Uuid }.

Inductive TurnReferenceContextItem := NeverSet | Cleared | Latest (ctx : TurnContextItem).

Definition never_set (r : TurnReferenceContextItem) : bool := match r with NeverSet => true | _ => false end.

Record ReplayCheckpoint := { rc_compacted : CompactedItem; rc_suffix : list RolloutItem }.

Record ActiveReplaySegment := {
  turn_id : option rstr;
  counts_as_user_turn : bool;
  seg_settings : option PreviousTurnSettings;
  seg_reference : TurnReferenceContextItem;
  seg_replay : list RolloutItem;
  seg_base : option ReplayCheckpoint;
  seg_window : option ReconstructedWindow;
}.

Definition segment_default : ActiveReplaySegment :=
  {| turn_id := None; counts_as_user_turn := false; seg_settings := None; seg_reference := NeverSet;
     seg_replay := []; seg_base := None; seg_window := None |}.

(** ** Parameters *)

Context (is_contextual_user_message_content : list (@ContentItem Opaque) -> bool).
Context (is_message_content : list (@ContentItem Opaque) -> bool).
Context (parse_str : rstr -> option Uuid) (get_version_num : Uuid -> Z).

Definition parse_uuid_v7 (value : rstr) : option Uuid :=
  match parse_str value with
  | Some uuid => if get_version_num uuid =? 7 then Some uuid else None
  | None => None
  end.

(** [is_user_turn_boundary] of [context_manager/history.rs]. *)
Definition is_user_turn_boundary (i : Item) : bool :=
  match i with
  | AgentMessage _ _ _ _ _ => true
  | Message _ role content _ _ =>
      (role =s lit "user") && negb (is_contextual_user_message_content content)
      || (role =s lit "assistant") && is_message_content content
  | _ => false
  end.

Definition turn_ids_are_compatible (active_turn_id item_turn_id : option rstr) : bool :=
  match active_turn_id, item_turn_id with
  | Some turn_id, Some item_turn_id => item_turn_id =s turn_id
  | _, _ => true
  end.

(** ** The reverse replay *)

Record Scan := {
  base_compaction : option ReplayCheckpoint;
  previous_turn_settings : option PreviousTurnSettings;
  reference_context : TurnReferenceContextItem;
  world_state_replay : list RolloutItem;
  window : option ReconstructedWindow;
  pending_rollback_turns : Z;
  active_segment : option ActiveReplaySegment;
}.

Definition scan_start : Scan :=
  {| base_compaction := None; previous_turn_settings := None; reference_context := NeverSet; world_state_replay := [];
     window := None; pending_rollback_turns := 0; active_segment := None |}.

Definition is_compacted (i : RolloutItem) : bool := match i with Compacted _ => true | _ => false end.

Definition is_full_world_state (i : RolloutItem) : bool :=
  match i with WorldStateRecord s => full s | _ => false end.

(** [take_while(!Compacted).any(full world state)]. *)
Fixpoint full_state_first (l : list RolloutItem) : bool :=
  match l with
  | [] => false
  | i :: l => if is_compacted i then false else is_full_world_state i || full_state_first l
  end.

Definition has_context_baseline (segment : ActiveReplaySegment) : bool :=
  counts_as_user_turn segment || full_state_first (seg_replay segment).

Definition is_cleared (r : TurnReferenceContextItem) : bool := match r with Cleared => true | _ => false end.

(** [finalize_active_segment]; the segment that is passed is no longer active. *)
Definition finalize_active_segment (segment : ActiveReplaySegment) (s : Scan) : Scan :=
  if 0 <? pending_rollback_turns s then
    {| base_compaction := base_compaction s; previous_turn_settings := previous_turn_settings s;
       reference_context := reference_context s; world_state_replay := world_state_replay s; window := window s;
       pending_rollback_turns := if counts_as_user_turn segment then pending_rollback_turns s - 1 else pending_rollback_turns s;
       active_segment := None |}
  else
    {| base_compaction := match base_compaction s with None => seg_base segment | b => b end;
       previous_turn_settings :=
         match previous_turn_settings s with
         | None => if has_context_baseline segment then seg_settings segment else None
         | p => p
         end;
       reference_context :=
         if never_set (reference_context s) && (has_context_baseline segment || is_cleared (seg_reference segment))
         then seg_reference segment else reference_context s;
       world_state_replay := world_state_replay s ++ seg_replay segment;
       window := match window s with None => seg_window segment | w => w end;
       pending_rollback_turns := pending_rollback_turns s;
       active_segment := None |}.

Definition set_active (s : Scan) (segment : ActiveReplaySegment) : Scan :=
  {| base_compaction := base_compaction s; previous_turn_settings := previous_turn_settings s;
     reference_context := reference_context s; world_state_replay := world_state_replay s; window := window s;
     pending_rollback_turns := pending_rollback_turns s; active_segment := Some segment |}.

Definition add_rollback (s : Scan) (num_turns : Z) : Scan :=
  {| base_compaction := base_compaction s; previous_turn_settings := previous_turn_settings s;
     reference_context := reference_context s; world_state_replay := world_state_replay s; window := window s;
     pending_rollback_turns := saturating_add (pending_rollback_turns s) num_turns; active_segment := active_segment s |}.

(** Updates of the active segment. *)
Definition with_turn_id (segment : ActiveReplaySegment) (id : option rstr) : ActiveReplaySegment :=
  {| turn_id := match turn_id segment with None => id | t => t end; counts_as_user_turn := counts_as_user_turn segment;
     seg_settings := seg_settings segment; seg_reference := seg_reference segment; seg_replay := seg_replay segment;
     seg_base := seg_base segment; seg_window := seg_window segment |}.

Definition with_user_turn (segment : ActiveReplaySegment) (b : bool) : ActiveReplaySegment :=
  {| turn_id := turn_id segment; counts_as_user_turn := counts_as_user_turn segment || b;
     seg_settings := seg_settings segment; seg_reference := seg_reference segment; seg_replay := seg_replay segment;
     seg_base := seg_base segment; seg_window := seg_window segment |}.

Definition with_replay (segment : ActiveReplaySegment) (i : RolloutItem) : ActiveReplaySegment :=
  {| turn_id := turn_id segment; counts_as_user_turn := counts_as_user_turn segment;
     seg_settings := seg_settings segment; seg_reference := seg_reference segment; seg_replay := seg_replay segment ++ [i];
     seg_base := seg_base segment; seg_window := seg_window segment |}.

Definition compacted_window (compacted : CompactedItem) : option ReconstructedWindow :=
  window_number ← ci_window_number compacted;
  Some {| number := window_number;
          first_id := ci_first_window_id compacted ≫= parse_uuid_v7;
          previous_id := ci_previous_window_id compacted ≫= parse_uuid_v7;
          w_id := ci_window_id compacted ≫= parse_uuid_v7 |}.

Definition segment_compacted (segment : ActiveReplaySegment) (compacted : CompactedItem) (after : list RolloutItem)
  : ActiveReplaySegment :=
  {| turn_id := turn_id segment; counts_as_user_turn := counts_as_user_turn segment; seg_settings := seg_settings segment;
     seg_reference := if never_set (seg_reference segment) then Cleared else seg_reference segment;
     seg_replay := seg_replay segment ++ [Compacted compacted];
     seg_base :=
       match seg_base segment with
       | None =>
           match ci_replacement_history compacted with
           | Some _ => Some {| rc_compacted := compacted; rc_suffix := after |}
           | None => None
           end
       | b => b
       end;
     seg_window := match seg_window segment with None => compacted_window compacted | w => w end |}.

Definition settings_of (ctx : TurnContextItem) : PreviousTurnSettings :=
  {| model := tc_model ctx; model_provider_id := tc_model_provider_id ctx;
     comp_hash := tc_comp_hash ctx; realtime_active := tc_realtime_active ctx |}.

Definition segment_context (segment : ActiveReplaySegment) (ctx : TurnContextItem) : ActiveReplaySegment :=
  let segment := with_turn_id segment (tc_turn_id ctx) in
  if turn_ids_are_compatible (turn_id segment) (tc_turn_id ctx) then
    {| turn_id := turn_id segment; counts_as_user_turn := counts_as_user_turn segment;
       seg_settings := Some (settings_of ctx);
       seg_reference := if never_set (seg_reference segment) then Latest ctx else seg_reference segment;
       seg_replay := seg_replay segment; seg_base := seg_base segment; seg_window := seg_window segment |}
  else segment.

(** [active_segment.get_or_insert_with(default)]. *)
Definition active (s : Scan) : ActiveReplaySegment := default segment_default (active_segment s).

(** The body of the loop; [after] are the items newer than this one. *)
Definition scan_item (i : RolloutItem) (after : list RolloutItem) (s : Scan) : Scan :=
  match i with
  | Compacted compacted => set_active s (segment_compacted (active s) compacted after)
  | REventMsg (ThreadRolledBack num_turns) => add_rollback s num_turns
  | REventMsg (TurnComplete id) => set_active s (with_turn_id (active s) (Some id))
  | REventMsg (TurnAborted id) =>
      match active_segment s, id with
      | Some segment, _ => set_active s (with_turn_id segment id)
      | None, Some _ => set_active s (with_turn_id segment_default id)
      | None, None => s
      end
  | REventMsg UserMessage => set_active s (with_user_turn (active s) true)
  | TurnContext ctx => set_active s (segment_context (active s) ctx)
  | WorldStateRecord _ => set_active s (with_replay (active s) i)
  | REventMsg (TurnStarted id) =>
      match active_segment s with
      | Some segment =>
          if turn_ids_are_compatible (turn_id segment) (Some id) then finalize_active_segment segment s else s
      | None => s
      end
  | RResponseItem response_item =>
      set_active s (with_user_turn (active s) (is_user_turn_boundary (item response_item)))
  | InterAgentCommunication _ => set_active s (with_user_turn (active s) true)
  | REventMsg _ | SessionMeta _ | RealtimeItem _ | SecurityRiskScore _ | TokenUsageRecord _
  | InterAgentCommunicationMetadata _ => s
  end.

(** Whether the loop stops. *)
Definition settled (s : Scan) : bool :=
  match base_compaction s, previous_turn_settings s with
  | Some _, Some _ => negb (never_set (reference_context s))
  | _, _ => false
  end.

(** The items from the newest to the oldest, until the loop stops. *)
Fixpoint scan_loop (newest_first after : list RolloutItem) (s : Scan) : Scan :=
  match newest_first with
  | [] => s
  | i :: older =>
      let s := scan_item i after s in
      if settled s then s else scan_loop older (i :: after) s
  end.

Definition finish_scan (s : Scan) : Scan :=
  match active_segment s with Some segment => finalize_active_segment segment s | None => s end.

Definition reverse_scan (items : list RolloutItem) : Scan := finish_scan (scan_loop (reverse items) [] scan_start).

(** ** What is rebuilt *)

Definition reconstructed_window_from_session_context_window (window_id : rstr) : option ReconstructedWindow :=
  id ← parse_uuid_v7 window_id;
  Some {| number := 0; first_id := Some id; previous_id := None; w_id := Some id |}.

Definition without_number (i : RolloutItem) : bool :=
  match i with Compacted c => negb (bool_decide (is_Some (ci_window_number c))) | _ => false end.

Fixpoint find_map {A B} (f : A -> option B) (l : list A) : option B :=
  match l with [] => None | x :: l => match f x with Some y => Some y | None => find_map f l end end.

Definition session_window (i : RolloutItem) : option ReconstructedWindow :=
  match i with
  | SessionMeta m => sm_context_window m ≫= reconstructed_window_from_session_context_window
  | _ => None
  end.

Definition initial_window (items : list RolloutItem) : option ReconstructedWindow :=
  if existsb without_number items then None else find_map session_window items.

Definition fallback_window (items : list RolloutItem) : ReconstructedWindow :=
  {| number := Z.of_nat (length (List.filter is_compacted items)); first_id := None; previous_id := None; w_id := None |}.

(** The replay of the state of the world, from the oldest record; a record of another kind
    can not be among them. *)
Definition replay_world_state (baseline : option WorldStateSnapshot) (i : RolloutItem) : res unit (option WorldStateSnapshot) :=
  match i with
  | Compacted _ => Ok None
  | WorldStateRecord world_state =>
      if full world_state then Ok (Some {| sections := state world_state |})
      else Ok ((fun b => apply_merge_patch b (state world_state)) <$> baseline)
  | _ => Panic
  end.

(** The context manager, as far as the replay uses it. *)
Class ContextManagerOps (H : Type) := {
  cm_new : H;
  cm_replace_annotated : list Envelope -> H -> H;
  cm_restore_guardian_history : option Checkpoint -> H -> H;
  cm_record_annotated_item : Envelope -> H -> H;
  cm_record_communication : Comm -> H -> H;
  cm_compact : rstr -> H -> H;
  cm_drop_last_n_user_turns : Z -> H -> H;
  cm_annotated_items : H -> list Envelope;
  cm_guardian_history_checkpoint : H -> option Checkpoint;
}.

Context {H : Type} {CM : ContextManagerOps H}.

(** The forward loop: [cm_compact] is the legacy compaction, in which the history is rebuilt
    from its user messages and the summary. *)
Definition replay_item (s : H * bool) (i : RolloutItem) : H * bool :=
  let '(history, legacy) := s in
  match i with
  | RResponseItem response_item => (cm_record_annotated_item response_item history, legacy)
  | InterAgentCommunication communication => (cm_record_communication communication history, legacy)
  | Compacted compacted =>
      match ci_replacement_history compacted with
      | None => (cm_compact (ci_message compacted) history, true)
      | Some _ => (history, legacy)
      end
  | REventMsg (ThreadRolledBack num_turns) => (cm_drop_last_n_user_turns num_turns history, legacy)
  | _ => (history, legacy)
  end.

Record RolloutReconstruction := {
  r_history : list Envelope;
  r_guardian_history : option Checkpoint;
  r_previous_turn_settings : option PreviousTurnSettings;
  r_reference_context_item : option TurnContextItem;
  r_world_state_baseline : option WorldStateSnapshot;
  r_window : ReconstructedWindow;
}.

Definition base_history (base : option ReplayCheckpoint) : H :=
  match base with
  | Some checkpoint =>
      match ci_replacement_history (rc_compacted checkpoint) with
      | Some l =>
          cm_restore_guardian_history (ci_guardian_history (rc_compacted checkpoint)) (cm_replace_annotated l cm_new)
      | None => cm_new
      end
  | None => cm_new
  end.

(** The result, from what the reverse replay found. *)
Definition rebuild (items : list RolloutItem) (s : Scan) : res unit RolloutReconstruction :=
  let suffix := match base_compaction s with Some checkpoint => rc_suffix checkpoint | None => items end in
  let '(history, legacy) := foldl replay_item (base_history (base_compaction s), false) suffix in
  baseline ← fold_res replay_world_state None (reverse (world_state_replay s));
  Ok {| r_history := cm_annotated_items history;
        r_guardian_history := cm_guardian_history_checkpoint history;
        r_previous_turn_settings := previous_turn_settings s;
        r_reference_context_item :=
          if legacy then None else match reference_context s with Latest ctx => Some ctx | _ => None end;
        r_world_state_baseline := baseline;
        r_window := match window s with
                    | Some w => w
                    | None => default (fallback_window items) (initial_window items)
                    end |}.

Definition reconstruct_history_from_rollout (items : list RolloutItem) : res unit RolloutReconstruction :=
  rebuild items (reverse_scan items).

(** ** [ModelContextScan] *)

Record ActiveTurnSegment := {
  a_turn_id : option rstr;
  has_user_turn : bool;
  has_turn_context : bool;
  has_full_world_state : bool;
  a_saw_compaction : bool;
}.

Definition turn_segment_default : ActiveTurnSegment :=
  {| a_turn_id := None; has_user_turn := false; has_turn_context := false; has_full_world_state := false; a_saw_compaction := false |}.

Record ModelContextScan := {
  items_newest_first : list RolloutItem;
  saw_compaction : bool;
  saw_completed_turn_context : bool;
  must_scan_to_start : bool;
  m_active : ActiveTurnSegment;
}.

Definition context_scan_default : ModelContextScan :=
  {| items_newest_first := []; saw_compaction := false; saw_completed_turn_context := false; must_scan_to_start := false;
     m_active := turn_segment_default |}.

Definition response_item_counts_as_user_turn (i : Item) : bool :=
  match i with
  | AgentMessage _ _ _ _ _ => true
  | Message _ role content _ _ => (role =s lit "assistant") && is_message_content content
  | _ => false
  end.

Definition has_bounded_cutoff (self : ModelContextScan) : bool :=
  negb (must_scan_to_start self) && saw_compaction self && saw_completed_turn_context self.

Definition set_m_active (self : ModelContextScan) (a : ActiveTurnSegment) : ModelContextScan :=
  {| items_newest_first := items_newest_first self; saw_compaction := saw_compaction self;
     saw_completed_turn_context := saw_completed_turn_context self; must_scan_to_start := must_scan_to_start self;
     m_active := a |}.

Definition scan_to_start (self : ModelContextScan) : ModelContextScan :=
  {| items_newest_first := items_newest_first self; saw_compaction := saw_compaction self;
     saw_completed_turn_context := saw_completed_turn_context self; must_scan_to_start := true; m_active := m_active self |}.

Definition a_with_turn_id (a : ActiveTurnSegment) (id : option rstr) : ActiveTurnSegment :=
  {| a_turn_id := match a_turn_id a with None => id | t => t end; has_user_turn := has_user_turn a;
     has_turn_context := has_turn_context a; has_full_world_state := has_full_world_state a; a_saw_compaction := a_saw_compaction a |}.

Definition a_with_user_turn (a : ActiveTurnSegment) (b : bool) : ActiveTurnSegment :=
  {| a_turn_id := a_turn_id a; has_user_turn := has_user_turn a || b; has_turn_context := has_turn_context a;
     has_full_world_state := has_full_world_state a; a_saw_compaction := a_saw_compaction a |}.

Definition context_finalize (self : ModelContextScan) : ModelContextScan :=
  let a := m_active self in
  {| items_newest_first := items_newest_first self; saw_compaction := saw_compaction self;
     saw_completed_turn_context :=
       saw_completed_turn_context self || has_turn_context a && (has_user_turn a || has_full_world_state a);
     must_scan_to_start := must_scan_to_start self; m_active := turn_segment_default |}.

Definition observe_item (self : ModelContextScan) (i : RolloutItem) : ModelContextScan :=
  let a := m_active self in
  match i with
  | Compacted compacted =>
      match ci_replacement_history compacted, ci_window_number compacted with
      | Some _, Some _ =>
          {| items_newest_first := items_newest_first self; saw_compaction := true;
             saw_completed_turn_context := saw_completed_turn_context self; must_scan_to_start := must_scan_to_start self;
             m_active := {| a_turn_id := a_turn_id a; has_user_turn := has_user_turn a; has_turn_context := has_turn_context a;
                            has_full_world_state := has_full_world_state a; a_saw_compaction := true |} |}
      | _, _ => scan_to_start self
      end
  | REventMsg (ThreadRolledBack _) => scan_to_start self
  | REventMsg (ItemCompleted id is_user_message) =>
      let a := a_with_turn_id a (Some id) in
      set_m_active self (if turn_ids_are_compatible (a_turn_id a) (Some id) then a_with_user_turn a is_user_message else a)
  | REventMsg (TurnComplete id) => set_m_active self (a_with_turn_id a (Some id))
  | REventMsg (TurnAborted id) => set_m_active self (a_with_turn_id a id)
  | REventMsg (TurnStarted id) =>
      if turn_ids_are_compatible (a_turn_id a) (Some id) then context_finalize self else self
  | TurnContext ctx =>
      let a := a_with_turn_id a (tc_turn_id ctx) in
      set_m_active self
        (if turn_ids_are_compatible (a_turn_id a) (tc_turn_id ctx)
         then {| a_turn_id := a_turn_id a; has_user_turn := has_user_turn a; has_turn_context := true;
                 has_full_world_state := has_full_world_state a; a_saw_compaction := a_saw_compaction a |}
         else a)
  | RResponseItem response_item =>
      set_m_active self (a_with_user_turn a (response_item_counts_as_user_turn (item response_item)))
  | InterAgentCommunication _ | REventMsg UserMessage => set_m_active self (a_with_user_turn a true)
  | WorldStateRecord s =>
      set_m_active self
        {| a_turn_id := a_turn_id a; has_user_turn := has_user_turn a; has_turn_context := has_turn_context a;
           has_full_world_state := has_full_world_state a || full s && negb (a_saw_compaction a); a_saw_compaction := a_saw_compaction a |}
  | _ => self
  end.

(** [observe] and the progress it reports: whether the scan is complete. *)
Definition observe (self : ModelContextScan) (i : RolloutItem) : bool * ModelContextScan :=
  if must_scan_to_start self then (false, self)
  else let self := observe_item self i in (has_bounded_cutoff self, self).

Definition push (self : ModelContextScan) (i : RolloutItem) : bool * ModelContextScan :=
  let '(complete, self) := observe self i in
  (complete,
   {| items_newest_first := items_newest_first self ++ [i]; saw_compaction := saw_compaction self;
      saw_completed_turn_context := saw_completed_turn_context self; must_scan_to_start := must_scan_to_start self;
      m_active := m_active self |}).

Definition finish (self : ModelContextScan) (session_meta : SessionMetaLine) : list RolloutItem :=
  let chronological := reverse (items_newest_first self) in
  if has_bounded_cutoff self then SessionMeta session_meta :: chronological else chronological.

(** ** Loading the items of a thread

    [scan_model_context_from_lineage_blocking] of [thread-store/src/local/model_context.rs]:
    the files of a thread and of those it was forked from, each read backwards up to its
    session metadata; the scan ends when it is complete. *)
Fixpoint read_segment (self : ModelContextScan) (newest_first : list RolloutItem) : bool * ModelContextScan :=
  match newest_first with
  | [] => (false, self)
  | SessionMeta _ :: _ => (false, self)
  | i :: older => let '(complete, self) := push self i in if complete then (true, self) else read_segment self older
  end.

Fixpoint read_segments (self : ModelContextScan) (newest_first : list (list RolloutItem)) : ModelContextScan :=
  match newest_first with
  | [] => self
  | segment :: older =>
      let '(complete, self) := read_segment self (reverse segment) in if complete then self else read_segments self older
  end.

Definition scan_model_context_from_lineage (segments : list (list RolloutItem)) (session_meta : SessionMetaLine)
  : list RolloutItem :=
  let items := finish (read_segments context_scan_default (reverse segments)) session_meta in
  match items with
  | SessionMeta _ :: _ => items
  | _ => SessionMeta session_meta :: items
  end.
End Rollout.
