(* ===== verification/RolloutProps.v ===== *)
(** * Properties of the replay of rollouts

    The reverse replay rebuilds the session that a forward replay of the records leaves, with
    rollbacks that take the newest turns away ([reconstruct_survivors]); where it stops early, the older
    items make no difference ([early_stop]); and a session that is rebuilt from the items
    that the bounded scan selects is the one that is rebuilt from all
    ([bounded_replay_matches_full]). *)
From S2P Require Import Prelude Width History WorldState Rollout.

Set Default Goal Selector "!".

Local Open Scope Z_scope.

Section Props.
Context {Opaque Checkpoint Comm Uuid : Type}.
Local Abbreviation Envelope := (@ResponseItemEnvelope Opaque).
Context (is_contextual : list (@ContentItem Opaque) -> bool) (is_message : list (@ContentItem Opaque) -> bool).
Context (parse_str : rstr -> option Uuid) (get_version_num : Uuid -> Z).
Context {H : Type} {CM : @ContextManagerOps Opaque Checkpoint Comm H}.

Local Abbreviation Item := (@RolloutItem Opaque Checkpoint Comm).
Local Abbreviation scan := (@Scan Opaque Checkpoint Comm Uuid).
Local Abbreviation segment := (@ActiveReplaySegment Opaque Checkpoint Comm Uuid).
Local Abbreviation step := (@scan_item Opaque Checkpoint Comm Uuid is_contextual is_message parse_str get_version_num).
Local Abbreviation loop := (@scan_loop Opaque Checkpoint Comm Uuid is_contextual is_message parse_str get_version_num).
Local Abbreviation rebuilt := (@rebuild Opaque Checkpoint Comm Uuid parse_str get_version_num H CM).

Implicit Types (i : Item) (l after : list Item) (s : scan) (g : segment).

(** The loop without its early stop. *)
Fixpoint scan_all (newest_first after : list Item) s : scan :=
  match newest_first with
  | [] => s
  | i :: older => scan_all older (i :: after) (step i after s)
  end.

Lemma scan_all_app a b after s : scan_all (a ++ b) after s = scan_all b (reverse a ++ after) (scan_all a after s).
Proof.
  revert after s. induction a as [|i a IH]; intros after s; [done|]. cbn [scan_all app]. rewrite IH. f_equal. by rewrite reverse_cons, <- app_assoc.
Qed.

(** ** What the replay of the world uses *)

Definition world_kind (i : Item) : bool := match i with Compacted _ | WorldStateRecord _ => true | _ => false end.

Definition numbered (i : Item) : bool :=
  match i with
  | Compacted c => match ci_replacement_history c with Some _ => bool_decide (is_Some (ci_window_number c)) | None => true end
  | _ => true
  end.

Lemma replay_kind (l : list Item) b : forallb world_kind l = true -> exists b', fold_res replay_world_state b l = Ok b'.
Proof.
  revert b. induction l as [|i l IH]; intros b Hk; cbn in *; [by eauto|]. apply andb_true_iff in Hk as [Hi Hl].
  destruct i; try done; cbn; [by apply IH|]. destruct (full _); cbn; by apply IH.
Qed.

(** A compaction makes what came before it irrelevant. *)
Lemma replay_reset (a l : list Item) b b' :
  existsb is_compacted l = true -> forallb world_kind a = true -> forallb world_kind l = true ->
  fold_res replay_world_state b (a ++ l) = fold_res replay_world_state b' l.
Proof.
  intros Hc Ha Hl. rewrite fold_res_app. destruct (replay_kind a b Ha) as [c ->]. cbn. clear a Ha b. revert b' c.
  induction l as [|i l IH]; intros b' c; cbn in *; [done|]. apply andb_true_iff in Hl as [Hi Hl].
  destruct i; try done. cbn. destruct (full _); cbn; [done|]. by apply IH.
Qed.

(** ** Invariants of the reverse replay *)

(** What a segment and the scan know of a checkpoint is recorded with it. *)
Record seg_ok g : Prop := {
  so_kind : forallb world_kind (seg_replay g) = true;
  so_base c : seg_base g = Some c -> Compacted (rc_compacted c) ∈ seg_replay g
    /\ is_Some (ci_replacement_history (rc_compacted c)) /\ is_Some (seg_window g);
}.

Record scan_ok s : Prop := {
  sk_kind : forallb world_kind (world_state_replay s) = true;
  sk_base c : base_compaction s = Some c -> Compacted (rc_compacted c) ∈ world_state_replay s
    /\ is_Some (ci_replacement_history (rc_compacted c)) /\ is_Some (window s);
  sk_active g : active_segment s = Some g -> seg_ok g;
}.

Lemma seg_default_ok : seg_ok segment_default.
Proof. by split. Qed.

Lemma scan_start_ok : scan_ok scan_start.
Proof. by split. Qed.

Lemma active_ok s : scan_ok s -> seg_ok (active s).
Proof. intros Hs. unfold active. destruct (active_segment s) as [g|] eqn:E; [by apply Hs|apply seg_default_ok]. Qed.

Lemma set_active_ok s g : scan_ok s -> seg_ok g -> scan_ok (set_active s g).
Proof. intros [] Hg. split; [done|done|]. by intros ? [= <-]. Qed.

Lemma finalize_ok s g : scan_ok s -> seg_ok g -> scan_ok (finalize_active_segment g s).
Proof.
  intros [Hk Hb Ha] [Hgk Hgb]. unfold finalize_active_segment. destruct (0 <? _); [by split|]. split; cbn; [|intros c|done].
  - by rewrite forallb_app, Hk, Hgk.
  - destruct (base_compaction s) as [c'|] eqn:Eb.
    + intros [= ->]. destruct (Hb c eq_refl) as (? & ? & Hw). split_and!; [set_solver|done|]. destruct (window s); [done|by destruct Hw].
    + intros Hc. destruct (Hgb c Hc) as (? & ? & ?). split_and!; [set_solver|done|]. by destruct (window s).
Qed.

Lemma step_ok i after s : numbered i = true -> scan_ok s -> scan_ok (step i after s).
Proof.
  intros Hn Hs. pose proof (active_ok s Hs) as Hg. pose proof Hs as [Hk Hb Ha].
  assert (forall g g', seg_ok g -> seg_replay g' = seg_replay g -> seg_base g' = seg_base g -> seg_window g' = seg_window g -> seg_ok g') as Hsame.
  { intros g g' [] Hr Hbase Hw. split; [by rewrite Hr|]. intros c. rewrite Hr, Hbase, Hw. auto. }
  destruct i as [m|r|c|b|c|ctx|r|w|r|ev|r]; cbn; try done; try (apply set_active_ok; [done|by eapply (Hsame (active s))]).
  - apply set_active_ok; [done|]. destruct Hg as [Hgk Hgb]. split; cbn; [by rewrite forallb_app, Hgk|]. intros c'.
    destruct (seg_base (active s)) as [c0|] eqn:Eb.
    + intros [= ->]. destruct (Hgb c' eq_refl) as (? & ? & Hw). split_and!; [set_solver|done|]. destruct (seg_window (active s)); [done|by destruct Hw].
    + destruct (ci_replacement_history c) as [l|] eqn:Er; [|done]. intros [= <-]. cbn. split_and!; [set_solver|by rewrite Er|].
      cbn in Hn. rewrite Er in Hn. apply bool_decide_eq_true in Hn as [n Hn]. destruct (seg_window (active s)); [done|]. unfold compacted_window. by rewrite Hn.
  - apply set_active_ok; [done|]. unfold segment_context. destruct (turn_ids_are_compatible _ _); by eapply (Hsame (active s)).
  - apply set_active_ok; [done|]. destruct Hg as [Hgk Hgb]. split; cbn; [by rewrite forallb_app, Hgk|]. intros c Hc.
    destruct (Hgb c Hc) as (? & ? & ?). split_and!; [set_solver|done|done].
  - destruct ev as [n|id|id|id| |id u|]; cbn; try done; try (apply set_active_ok; [done|by eapply (Hsame (active s))]).
    + destruct (active_segment s) as [g|] eqn:Eg; [|done]. destruct (turn_ids_are_compatible _ _); [|done]. apply finalize_ok; [done|by apply Ha].
    + destruct (active_segment s) as [g|] eqn:Eg; [apply set_active_ok; [done|]; eapply (Hsame g); [by apply Ha|done..]|].
      destruct id; [|done]. apply set_active_ok; [done|]. eapply (Hsame segment_default); [apply seg_default_ok|done..].
Qed.

Lemma scan_all_ok l after s : forallb numbered l = true -> scan_ok s -> scan_ok (scan_all l after s).
Proof.
  revert after s. induction l as [|i l IH]; intros after s Hn Hs; cbn in *; [done|]. apply andb_true_iff in Hn as [Hi Hl]. apply IH; [done|by apply step_ok].
Qed.

Lemma scan_finish_ok s : scan_ok s -> scan_ok (finish_scan s).
Proof. intros Hs. unfold finish_scan. destruct (active_segment s) as [g|] eqn:E; [|done]. apply finalize_ok; [done|by apply Hs]. Qed.

(** ** Settled scans *)

(** [s'] has what [s] has settled, and more of the world before its last compaction. *)
Record extends s s' : Prop := {
  ex_base : base_compaction s' = base_compaction s;
  ex_settings : previous_turn_settings s' = previous_turn_settings s;
  ex_reference : reference_context s' = reference_context s;
  ex_window : window s' = window s;
  ex_replay : exists older, world_state_replay s' = world_state_replay s ++ older;
}.

Lemma extends_refl s : extends s s.
Proof. split; try done. exists []. by rewrite app_nil_r. Qed.

Lemma extends_trans s s' s'' : extends s s' -> extends s' s'' -> extends s s''.
Proof.
  intros [? ? ? ? [a Ha]] [? ? ? ? [b Hb]]. split; [congruence..|]. exists (a ++ b). by rewrite Hb, Ha, <- app_assoc.
Qed.

Lemma settled_spec s :
  settled s = true <-> is_Some (base_compaction s) /\ is_Some (previous_turn_settings s) /\ never_set (reference_context s) = false.
Proof.
  unfold settled. destruct (base_compaction s) as [b|], (previous_turn_settings s) as [p|].
  - rewrite negb_true_iff. split; [by eauto|by intros (_ & _ & ?)].
  - split; [done|intros (_ & Hn & _); by destruct Hn].
  - split; [done|intros (Hn & _ & _); by destruct Hn].
  - split; [done|intros (Hn & _ & _); by destruct Hn].
Qed.

Lemma finalize_extends s g :
  settled s = true -> is_Some (window s) -> extends s (finalize_active_segment g s).
Proof.
  intros Hs [w Hw]. apply settled_spec in Hs as ([b Hb] & [p Hp] & Hr). unfold finalize_active_segment.
  destruct (0 <? _); [split; cbn; try done; exists []; by rewrite app_nil_r|].
  split; cbn; rewrite ?Hb, ?Hp, ?Hr, ?Hw; try done. by exists (seg_replay g).
Qed.

Lemma step_extends i after s : settled s = true -> is_Some (window s) -> extends s (step i after s).
Proof.
  intros Hs Hw. assert (forall s', base_compaction s' = base_compaction s -> previous_turn_settings s' = previous_turn_settings s ->
    reference_context s' = reference_context s -> window s' = window s -> world_state_replay s' = world_state_replay s -> extends s s') as Hsame.
  { intros s' ? ? ? ? ?. split; try done. exists []. by rewrite app_nil_r. }
  destruct i as [| | | | | | | | |ev|]; cbn; try (by apply Hsame). destruct ev as [n|id|id|id| |id u|]; cbn; try (by apply Hsame).
  - destruct (active_segment s) as [g|]; [|by apply Hsame]. destruct (turn_ids_are_compatible _ _); [by apply finalize_extends|by apply Hsame].
  - destruct (active_segment s), id; by apply Hsame.
Qed.

Lemma extends_settled s s' : extends s s' -> settled s' = settled s.
Proof. intros [Hb Hp Hr _ _]. unfold settled. by rewrite Hb, Hp, Hr. Qed.

Lemma scan_all_extends l after s : settled s = true -> is_Some (window s) -> extends s (scan_all l after s).
Proof.
  revert after s. induction l as [|i l IH]; intros after s Hs Hw; cbn; [apply extends_refl|].
  pose proof (step_extends i after s Hs Hw) as He. eapply extends_trans; [exact He|].
  apply IH; [by rewrite (extends_settled _ _ He)|]. by rewrite (ex_window _ _ He).
Qed.

Lemma finish_extends s : settled s = true -> is_Some (window s) -> extends s (finish_scan s).
Proof. intros Hs Hw. unfold finish_scan. destruct (active_segment s); [by apply finalize_extends|apply extends_refl]. Qed.

(** What is rebuilt from a settled scan does not depend on older items. *)
Lemma rebuild_extends items items' s s' :
  scan_ok s -> scan_ok s' -> settled s = true -> extends s s' -> rebuilt items' s' = rebuilt items s.
Proof.
  intros [Hk Hb _] [Hk' _ _] Hs [Eb Ep Er Ew [older Eo]]. apply settled_spec in Hs as ([c Hc] & _ & _). destruct (Hb c Hc) as (Hin & _ & [w Hw]).
  unfold rebuild. rewrite Eb, Ep, Er, Ew, Hc, Hw. destruct (foldl replay_item _ (rc_suffix c)) as [h legacy].
  rewrite Eo, reverse_app. rewrite Eo, forallb_app in Hk'. apply andb_true_iff in Hk' as [_ Ho].
  assert (forall l : list Item, forallb world_kind (reverse l) = forallb world_kind l) as Hrev.
  { intros l. induction l as [|x l IH]; [done|]. rewrite reverse_cons, forallb_app, IH. cbn. by rewrite andb_true_r, andb_comm. }
  rewrite (replay_reset _ _ None None); [done| |by rewrite Hrev|by rewrite Hrev].
  apply existsb_elem. exists (Compacted (rc_compacted c)). split; [|done]. by apply elem_of_reverse.
Qed.

(** ** The early stop *)

(** Only the end of a segment settles the scan, and leaves none active. *)
Lemma step_settles i after s :
  settled s = false -> settled (step i after s) = true -> active_segment (step i after s) = None.
Proof.
  intros Hs. assert (forall s', base_compaction s' = base_compaction s -> previous_turn_settings s' = previous_turn_settings s ->
    reference_context s' = reference_context s -> settled s' = true -> active_segment s' = None) as Hsame.
  { intros s' Hb Hp Hr. unfold settled in *. rewrite Hb, Hp, Hr. congruence. }
  destruct i as [| | | | | | | | |ev|]; cbn; try (by apply Hsame). destruct ev as [n|id|id|id| |id u|]; cbn; try (by apply Hsame).
  - change (settled (add_rollback s n)) with (settled s). congruence.
  - destruct (active_segment s) as [g|] eqn:E; [|congruence]. destruct (turn_ids_are_compatible _ _); [|congruence].
    unfold finalize_active_segment. by destruct (0 <? _).
  - destruct (active_segment s) eqn:E, id; first [by apply Hsame|congruence].
Qed.

Lemma early_stop_gen items l after s :
  forallb numbered l = true -> scan_ok s -> settled s = false ->
  rebuilt items (finish_scan (loop l after s)) = rebuilt items (finish_scan (scan_all l after s)).
Proof.
  revert after s. induction l as [|i l IH]; intros after s Hn Hok Hs; cbn in *; [done|]. apply andb_true_iff in Hn as [Hi Hl].
  pose proof (step_ok i after s Hi Hok) as Hok'. destruct (settled (step i after s)) eqn:E; [|by apply IH].
  pose proof (step_settles i after s Hs E) as Ha. symmetry.
  assert (is_Some (window (step i after s))) as Hw. { apply settled_spec in E as ([c Hc] & _). by destruct (sk_base _ Hok' c Hc) as (_ & _ & ?). }
  assert (finish_scan (step i after s) = step i after s) as -> by (unfold finish_scan; by rewrite Ha).
  pose proof (scan_all_extends l (i :: after) _ E Hw) as He.
  assert (scan_ok (scan_all l (i :: after) (step i after s))) as Hok'' by (by apply scan_all_ok).
  apply rebuild_extends; [done|by apply scan_finish_ok|done|]. eapply extends_trans; [exact He|]. apply finish_extends; [by rewrite (extends_settled _ _ He)|].
  by rewrite (ex_window _ _ He).
Qed.

(** ** Turns *)

Definition is_start (i : Item) : bool := match i with REventMsg (TurnStarted _) => true | _ => false end.

(** The turn that an item says it belongs to. *)
Definition carried_id (i : Item) : option rstr :=
  match i with
  | REventMsg (TurnComplete id) | REventMsg (ItemCompleted id _) => Some id
  | REventMsg (TurnAborted id) => id
  | TurnContext ctx => tc_turn_id ctx
  | _ => None
  end.

Definition rollback_of (i : Item) : Z := match i with REventMsg (ThreadRolledBack n) => n | _ => 0 end.

(** The items of a turn: none starts another turn or belongs to one. *)
Definition item_of_turn (id : rstr) (i : Item) : bool :=
  negb (is_start i) && match carried_id i with Some id' => id' =s id | None => true end && (0 <=? rollback_of i).

(** Items before the first turn. *)
Definition preamble_item (i : Item) : bool := negb (is_start i) && (0 <=? rollback_of i).

Definition rollbacks (body : list Item) : Z := foldr (fun i n => rollback_of i + n) 0 body.

Definition turn_items (t : rstr * list Item) : list Item := REventMsg (TurnStarted t.1) :: t.2.

Definition flat (turns : list (rstr * list Item)) : list Item := concat (map turn_items turns).

(** A turn as the replay sees it: its segment, and the rollbacks that were recorded after it. *)
Record Turn := { t_segment : segment; t_rollbacks : Z }.

Definition turn_of (body after : list Item) : Turn :=
  {| t_segment := active (scan_all (reverse body) after scan_start); t_rollbacks := rollbacks body |}.

Fixpoint turns_of (turns : list (rstr * list Item)) : list Turn :=
  match turns with
  | [] => []
  | t :: turns => turn_of t.2 (flat turns) :: turns_of turns
  end.

(** Dropping the newest [n] turns with user input, and what is newer than they are. *)
Fixpoint rollback (n : Z) (stack : list Turn) : list Turn :=
  match stack with
  | [] => []
  | t :: older =>
      if 0 <? n then rollback (if counts_as_user_turn (t_segment t) then n - 1 else n) older else stack
  end.

(** The turns that survive, newest first: each turn is pushed and then rolled back. *)
Definition survivors (turns : list Turn) : list Turn :=
  foldl (fun stack t => rollback (t_rollbacks t) (t :: stack)) [] turns.

Fixpoint first_reference (stack : list Turn) : TurnReferenceContextItem :=
  match stack with
  | [] => NeverSet
  | t :: older =>
      let g := t_segment t in
      if negb (never_set (seg_reference g)) && (has_context_baseline g || is_cleared (seg_reference g))
      then seg_reference g else first_reference older
  end.

(** What the surviving turns say, the newest first. *)
Definition collect (stack : list Turn) : scan :=
  {| base_compaction := find_map (fun t => seg_base (t_segment t)) stack;
     previous_turn_settings :=
       find_map (fun t => if has_context_baseline (t_segment t) then seg_settings (t_segment t) else None) stack;
     reference_context := first_reference stack;
     world_state_replay := concat (map (fun t => seg_replay (t_segment t)) stack);
     window := find_map (fun t => seg_window (t_segment t)) stack;
     pending_rollback_turns := 0; active_segment := None |}.

(** *** Rollbacks compose *)

Lemma rollback_zero n stack : n <= 0 -> rollback n stack = stack.
Proof. intros Hn. destruct stack; cbn; [done|]. by rewrite (proj2 (Z.ltb_ge 0 n)) by lia. Qed.

Lemma rollback_rollback a b stack : 0 <= a -> 0 <= b -> rollback a (rollback b stack) = rollback (b + a) stack.
Proof.
  revert a b. induction stack as [|t stack IH]; intros a b Ha Hb; [done|].
  cbn [rollback].
  destruct (Z.ltb_spec 0 b) as [Hlt|Hge].
  - rewrite IH by (try lia; destruct (counts_as_user_turn _); lia). rewrite (proj2 (Z.ltb_lt 0 (b + a))) by lia. f_equal. destruct (counts_as_user_turn _); lia.
  - assert (b = 0) as -> by lia. done.
Qed.

(** Survival as the reverse replay decides it, with [p] turns still to drop. *)
Fixpoint survive (add : Z -> Z -> Z) (p : Z) (newest_first : list Turn) : list Turn :=
  match newest_first with
  | [] => []
  | t :: older =>
      let p := add p (t_rollbacks t) in
      if 0 <? p then survive add (if counts_as_user_turn (t_segment t) then p - 1 else p) older
      else t :: survive add p older
  end.

Lemma survive_rollback p turns :
  0 <= p -> Forall (fun t => 0 <= t_rollbacks t) turns -> survive Z.add p (reverse turns) = rollback p (survivors turns).
Proof.
  intros Hp Hn. revert p Hp. induction turns as [|t turns IH] using rev_ind; intros p Hp; [done|].
  apply Forall_app in Hn as [Hn Ht]. apply Forall_inv in Ht. specialize (IH Hn).
  rewrite reverse_snoc. cbn [survive]. unfold survivors. rewrite foldl_snoc. fold (survivors turns). rewrite rollback_rollback by done.
  rewrite (Z.add_comm p). cbn [rollback]. destruct (Z.ltb_spec 0 (t_rollbacks t + p)).
  - apply IH. destruct (counts_as_user_turn _); lia.
  - assert (t_rollbacks t + p = 0) as -> by lia. f_equal. rewrite IH by done. by rewrite rollback_zero.
Qed.

(** Saturation does not show with fewer turns than the counter can count. *)
Lemma survive_saturating p q (l : list Turn) :
  0 <= p -> Forall (fun t => 0 <= t_rollbacks t) l -> Z.of_nat (length l) <= USIZE_MAX ->
  (p = q \/ Z.of_nat (length l) <= p /\ Z.of_nat (length l) <= q) ->
  survive saturating_add p l = survive Z.add q l.
Proof.
  revert p q. induction l as [|t l IH]; intros p q Hp Hn Hl Hpq; [done|]. apply Forall_cons in Hn as [Ht Hn].
  cbn [survive length] in *. unfold saturating_add in *.
  assert (Z.min (p + t_rollbacks t) USIZE_MAX = q + t_rollbacks t \/ Z.of_nat (S (length l)) <= Z.min (p + t_rollbacks t) USIZE_MAX /\ Z.of_nat (S (length l)) <= q + t_rollbacks t) as [->|[H1 H2]] by lia.
  - destruct (Z.ltb_spec 0 (q + t_rollbacks t)) as [Hpos|Hz].
    + apply IH; [destruct (counts_as_user_turn _); lia|done|lia|by left].
    + f_equal. apply IH; [lia|done|lia|by left].
  - rewrite !(proj2 (Z.ltb_lt 0 _)) by lia. apply IH; [destruct (counts_as_user_turn _); lia|done|lia|right]. destruct (counts_as_user_turn _); lia.
Qed.

(** *** The replay of turns *)

(** What the result is made of. *)
Record same s s' : Prop := {
  sm_base : base_compaction s' = base_compaction s;
  sm_settings : previous_turn_settings s' = previous_turn_settings s;
  sm_reference : reference_context s' = reference_context s;
  sm_window : window s' = window s;
  sm_replay : world_state_replay s' = world_state_replay s;
}.

#[local] Instance same_equiv : Equivalence same.
Proof. split; [by split|by intros s s' []; split|by intros s s' s'' [] []; split; congruence]. Qed.

Lemma rebuild_same items s s' : same s s' -> rebuilt items s' = rebuilt items s.
Proof. intros [Hb Hp Hr Hw Hl]. unfold rebuild. by rewrite Hb, Hp, Hr, Hw, Hl. Qed.

(** A scan with another active segment and another number of turns to drop. *)
Definition with_ap s (a : option segment) (p : Z) : scan :=
  {| base_compaction := base_compaction s; previous_turn_settings := previous_turn_settings s;
     reference_context := reference_context s; world_state_replay := world_state_replay s; window := window s;
     pending_rollback_turns := p; active_segment := a |}.

Lemma with_ap_id s : with_ap s (active_segment s) (pending_rollback_turns s) = s.
Proof. by destruct s. Qed.

(** An item inside of a turn changes only these two. *)
Lemma step_local i after s a p :
  is_start i = false -> 0 <= rollback_of i -> 0 <= p <= USIZE_MAX ->
  step i after (with_ap s a p)
  = with_ap s (active_segment (step i after (with_ap scan_start a 0))) (saturating_add p (rollback_of i)).
Proof.
  intros Hst Hr Hp. assert (saturating_add p 0 = p) as H0 by (unfold saturating_add; lia).
  destruct i as [| | | | | | | | |ev|]; cbn; rewrite ?H0; try done. destruct ev as [n|id|id|id| |id u|]; cbn in *; rewrite ?H0; try done.
  by destruct a, id.
Qed.

Lemma scan_body body after s a p q :
  forallb preamble_item body = true -> 0 <= p <= USIZE_MAX ->
  exists p', p' = Z.min (p + rollbacks body) USIZE_MAX /\
  scan_all (reverse body) after (with_ap s a p) = with_ap s (active_segment (scan_all (reverse body) after (with_ap scan_start a q))) p'.
Proof.
  intros Hb Hp. revert after a p q Hp. induction body as [|i body IH] using rev_ind; intros after a p q Hp.
  { exists p. cbn. split; [lia|done]. }
  rewrite forallb_app in Hb. apply andb_true_iff in Hb as [Hb Hi]. cbn in Hi. rewrite andb_true_r in Hi. apply andb_true_iff in Hi as [Hst Hr].
  apply negb_true_iff in Hst. rewrite reverse_snoc. cbn [scan_all].
  assert (rollbacks (body ++ [i]) = rollbacks body + rollback_of i) as Hrb.
  { clear. unfold rollbacks. induction body as [|x body IH]; cbn; lia. }
  assert (0 <= rollbacks body) as Hpos.
  { clear -Hb. unfold rollbacks. induction body as [|x body IH]; cbn in *; [lia|]. apply andb_true_iff in Hb as [Hx Hb]. unfold preamble_item in Hx. apply andb_true_iff in Hx as [_ Hx]. specialize (IH Hb). lia. }
  rewrite step_local by (done || lia).
  destruct (IH Hb (i :: after) (active_segment (step i after (with_ap scan_start a 0))) (saturating_add p (rollback_of i)) (pending_rollback_turns (step i after (with_ap scan_start a q)))) as (p' & Hp' & ->).
  { unfold saturating_add. lia. }
  exists p'. split; [unfold saturating_add in Hp'; lia|]. do 2 f_equal. f_equal.
  destruct i as [| | | | | | | | |ev|]; try done. destruct ev as [n|id|id|id| |id u|]; try done. cbn. by destruct a, id.
Qed.

Lemma finalize_default s : active_segment s = None -> same s (finalize_active_segment segment_default s)
  /\ pending_rollback_turns (finalize_active_segment segment_default s) = pending_rollback_turns s.
Proof.
  intros Ha. unfold finalize_active_segment. destruct (0 <? _); cbn; [done|]. split; [|done]. split; cbn; rewrite ?app_nil_r, ?andb_false_r; try done.
  - by destruct (base_compaction s).
  - by destruct (previous_turn_settings s).
  - by destruct (window s).
Qed.

(** The turn that a segment belongs to. *)
Lemma body_turn_id id body after g :
  forallb (item_of_turn id) body = true -> active_segment (scan_all (reverse body) after scan_start) = Some g ->
  turn_ids_are_compatible (turn_id g) (Some id) = true.
Proof.
  intros Hb Hg. assert (forall a, (forall g, a = Some g -> turn_ids_are_compatible (turn_id g) (Some id) = true) ->
    forall s, active_segment s = a -> forall g, active_segment (scan_all (reverse body) after s) = Some g -> turn_ids_are_compatible (turn_id g) (Some id) = true) as Hgen.
  2:{ by refine (Hgen None _ scan_start eq_refl g Hg). }
  clear g Hg. revert after. induction body as [|i body IH] using rev_ind; intros after a Ha s Hs g; [rewrite <- Hs in Ha; by apply Ha|].
  rewrite forallb_app in Hb. apply andb_true_iff in Hb as [Hb Hi]. cbn in Hi. rewrite andb_true_r in Hi. apply andb_true_iff in Hi as [Hi _].
  apply andb_true_iff in Hi as [Hst Hid]. apply negb_true_iff in Hst. rewrite reverse_snoc. cbn [scan_all].
  apply (IH Hb (i :: after) (active_segment (step i after s))); [|done]. clear IH g. intros g.
  assert (turn_ids_are_compatible (turn_id (active s)) (Some id) = true) as Hact.
  { unfold active. destruct (active_segment s) as [g'|] eqn:E; [|done]. by apply Ha. }
  assert (forall g' o, turn_ids_are_compatible (turn_id g') (Some id) = true -> match o with Some id' => id' =s id | None => true end = true ->
    turn_ids_are_compatible (turn_id (with_turn_id g' o)) (Some id) = true) as Hwith.
  { intros g' o Hg' Ho. cbn. destruct (turn_id g') as [x|]; [done|]. destruct o as [x|]; [|done]. cbn. apply streq_true in Ho as ->. apply streq_refl. }
  destruct i as [| | | | |ctx| | | |ev|]; cbn in *; try (intros [= <-]; done); try (intros Hg; apply Ha; congruence).
  - intros [= <-]. unfold segment_context. by destruct (turn_ids_are_compatible _ (tc_turn_id ctx)); cbn; apply Hwith.
  - destruct ev as [n|id'|id'|id'| |id' u|]; cbn in *; try (intros [= <-]; by (apply Hwith || done)); try (intros Hg; apply Ha; congruence); try done.
    destruct (active_segment s) as [g'|] eqn:E; [intros [= <-]; apply Hwith; [by apply Ha|done]|].
    destruct id' as [x|]; [|congruence]. intros [= <-]. by apply (Hwith segment_default).
Qed.

(** The replay of a whole turn. *)
Definition turn_step s (t : Turn) : scan :=
  finalize_active_segment (t_segment t) (with_ap s None (saturating_add (pending_rollback_turns s) (t_rollbacks t))).

(** Between turns: the same results, and as many turns to drop. *)
Record between s s' : Prop := {
  bt_same : same s s';
  bt_pending : pending_rollback_turns s' = pending_rollback_turns s;
  bt_none : active_segment s = None;
  bt_none' : active_segment s' = None;
}.

Lemma finalize_none g s : active_segment (finalize_active_segment g s) = None.
Proof. unfold finalize_active_segment. by destruct (0 <? _). Qed.

Lemma finalize_pending g s : 0 <= pending_rollback_turns s <= USIZE_MAX ->
  0 <= pending_rollback_turns (finalize_active_segment g s) <= USIZE_MAX.
Proof. intros Hp. unfold finalize_active_segment. destruct (Z.ltb_spec 0 (pending_rollback_turns s)); cbn; [destruct (counts_as_user_turn g); lia|done]. Qed.

(** The end of a segment treats scans with the same results alike. *)
Lemma finalize_same g s s' :
  same s s' -> pending_rollback_turns s' = pending_rollback_turns s ->
  between (finalize_active_segment g s) (finalize_active_segment g s').
Proof.
  intros [Hb Hp Hr Hw Hl] Hpend. split; [| |apply finalize_none..]; unfold finalize_active_segment; rewrite Hpend; destruct (0 <? _); cbn; rewrite ?Hb, ?Hp, ?Hr, ?Hw, ?Hl; by try split.
Qed.

Lemma between_trans s s' s'' : between s s' -> between s' s'' -> between s s''.
Proof. intros [] []. split; [by etrans|congruence|done|done]. Qed.

(** The end of a turn, or of the items: the active segment, if there is one. *)
Lemma end_of_turn s a p :
  between (finalize_active_segment (default segment_default a) (with_ap s None p))
    (match a with Some g => finalize_active_segment g (with_ap s a p) | None => with_ap s None p end).
Proof.
  destruct a as [g|]; cbn [default from_option].
  - by apply finalize_same.
  - destruct (finalize_default (with_ap s None p) eq_refl) as [Hs Hp]. split; [by symmetry|by rewrite Hp|apply finalize_none|done].
Qed.

Lemma scan_turn t after s :
  forallb (item_of_turn t.1) t.2 = true -> active_segment s = None -> 0 <= pending_rollback_turns s <= USIZE_MAX ->
  between (turn_step s (turn_of t.2 after)) (scan_all (reverse (turn_items t)) after s).
Proof.
  destruct t as [id body]. cbn [fst snd]. intros Hb Ha Hp. unfold turn_items. cbn [fst snd]. rewrite reverse_cons, scan_all_app.
  assert (forallb preamble_item body = true) as Hpre.
  { rewrite forallb_forall in Hb |- *. intros i Hi. specialize (Hb i Hi). unfold item_of_turn in Hb. unfold preamble_item.
    apply andb_true_iff in Hb as [Hb ->]. apply andb_true_iff in Hb as [-> _]. done. }
  assert (s = with_ap s None (pending_rollback_turns s)) as Hs by (rewrite <- Ha; by rewrite with_ap_id).
  destruct (scan_body body after s None (pending_rollback_turns s) 0 Hpre Hp) as (p' & Hp' & Hscan). rewrite <- Hs in Hscan. rewrite Hscan.
  change (with_ap scan_start None 0) with (@scan_start Opaque Checkpoint Comm Uuid). unfold turn_step, turn_of, active. cbn [t_segment t_rollbacks].
  assert (saturating_add (pending_rollback_turns s) (rollbacks body) = p') as -> by (unfold saturating_add; lia).
  pose proof (body_turn_id id body after) as Hid. destruct (active_segment (scan_all (reverse body) after scan_start)) as [g|] eqn:Eg; cbn.
  - rewrite (Hid g Hb eq_refl). apply (end_of_turn s (Some g) p').
  - apply (end_of_turn s None p').
Qed.

Lemma turn_step_between s s' t : between s s' -> between (turn_step s t) (turn_step s' t).
Proof. intros [[] Hp _ _]. unfold turn_step. rewrite Hp. by apply finalize_same. Qed.

Lemma turn_step_pending s t : 0 <= pending_rollback_turns s -> 0 <= t_rollbacks t -> 0 <= pending_rollback_turns (turn_step s t) <= USIZE_MAX.
Proof. intros. apply finalize_pending. cbn. unfold saturating_add, USIZE_MAX. lia. Qed.

Lemma rollbacks_nonneg body : forallb preamble_item body = true -> 0 <= rollbacks body.
Proof.
  unfold rollbacks. induction body as [|x body IH]; cbn; intros Hb; [lia|]. apply andb_true_iff in Hb as [Hx Hb]. unfold preamble_item in Hx.
  apply andb_true_iff in Hx as [_ Hx]. specialize (IH Hb). lia.
Qed.

Definition turn_ok (t : rstr * list Item) : bool := forallb (item_of_turn t.1) t.2.

Lemma turn_ok_preamble t : turn_ok t = true -> forallb preamble_item t.2 = true.
Proof.
  unfold turn_ok. rewrite !forallb_forall. intros Hb i Hi. specialize (Hb i Hi). unfold item_of_turn in Hb. unfold preamble_item.
  apply andb_true_iff in Hb as [Hb ->]. apply andb_true_iff in Hb as [-> _]. done.
Qed.

Lemma turns_of_nonneg turns : forallb turn_ok turns = true -> Forall (fun t => 0 <= t_rollbacks t) (turns_of turns).
Proof.
  induction turns as [|t turns IH]; cbn; intros Ht; [constructor|]. apply andb_true_iff in Ht as [Ht Hts]. constructor; [|by apply IH].
  cbn. by apply rollbacks_nonneg, turn_ok_preamble.
Qed.

Lemma scan_turns turns :
  forallb turn_ok turns = true ->
  between (foldl turn_step scan_start (reverse (turns_of turns))) (scan_all (reverse (flat turns)) [] scan_start)
  /\ 0 <= pending_rollback_turns (foldl turn_step scan_start (reverse (turns_of turns))) <= USIZE_MAX.
Proof.
  induction turns as [|t turns IH]; intros Ht.
  { split; [|done]. by split. }
  cbn in Ht. apply andb_true_iff in Ht as [Ht Hts]. destruct (IH Hts) as [Hb Hp]. cbn [turns_of].
  unfold flat. cbn [map concat]. fold (flat turns). rewrite reverse_app, scan_all_app, reverse_involutive, app_nil_r, reverse_cons, foldl_snoc.
  split; [|apply turn_step_pending; [lia|cbn; by apply rollbacks_nonneg, turn_ok_preamble]].
  eapply between_trans; [by apply turn_step_between|]. apply scan_turn; [done|by destruct Hb|]. rewrite (bt_pending _ _ Hb). lia.
Qed.

(** All turns of a rollout; what was recorded before the first is one of its own. *)
Definition all_turns (preamble : list Item) (turns : list (rstr * list Item)) : list Turn :=
  turn_of preamble (flat turns) :: turns_of turns.

Lemma scan_rollout preamble turns :
  forallb preamble_item preamble = true -> forallb turn_ok turns = true ->
  same (foldl turn_step scan_start (reverse (all_turns preamble turns))) (finish_scan (scan_all (reverse (preamble ++ flat turns)) [] scan_start)).
Proof.
  intros Hpre Ht. destruct (scan_turns turns Ht) as [Hb Hp]. rewrite reverse_app, scan_all_app, reverse_involutive, app_nil_r.
  unfold all_turns. rewrite reverse_cons, foldl_snoc. set (s := foldl turn_step scan_start (reverse (turns_of turns))) in *.
  set (s' := scan_all (reverse (flat turns)) [] scan_start) in *. destruct Hb as [Hsame Hpend _ Hnone].
  assert (s' = with_ap s' None (pending_rollback_turns s')) as Hs by (rewrite <- Hnone; by rewrite with_ap_id).
  destruct (scan_body preamble (flat turns) s' None (pending_rollback_turns s') 0 Hpre ltac:(lia)) as (p' & Hp' & Hscan). rewrite <- Hs in Hscan. rewrite Hscan.
  change (with_ap scan_start None 0) with (@scan_start Opaque Checkpoint Comm Uuid). unfold turn_step, turn_of, active. cbn [t_segment t_rollbacks].
  assert (saturating_add (pending_rollback_turns s) (rollbacks preamble) = p') as -> by (unfold saturating_add; rewrite <- Hpend; lia).
  set (a := active_segment (scan_all (reverse preamble) (flat turns) scan_start)). unfold finish_scan. cbn [active_segment with_ap].
  transitivity (finalize_active_segment (default segment_default a) (with_ap s' None p')).
  - apply (finalize_same (default segment_default a) (with_ap s None p') (with_ap s' None p')); [|done]. destruct Hsame. by split.
  - pose proof (end_of_turn s' a p') as [He _ _ _]. by destruct a.
Qed.

(** *** Survival *)

Definition absorb s (stack : list Turn) : scan := foldl (fun s t => finalize_active_segment (t_segment t) (with_ap s None 0)) s stack.

Lemma absorb_same s s' stack : same s s' -> same (absorb s stack) (absorb s' stack).
Proof.
  revert s s'. induction stack as [|t stack IH]; intros s s' Hs; cbn; [done|]. apply IH.
  apply (finalize_same (t_segment t) (with_ap s None 0) (with_ap s' None 0)); [|done]. destruct Hs. by split.
Qed.

Lemma fold_survive (l : list Turn) s : same (absorb s (survive saturating_add (pending_rollback_turns s) l)) (foldl turn_step s l).
Proof.
  revert s. induction l as [|t l IH]; intros s; [done|]. cbn [survive foldl]. etrans; [|apply IH]. unfold turn_step. set (p := saturating_add _ _).
  unfold finalize_active_segment. cbn [pending_rollback_turns with_ap]. destruct (Z.ltb_spec 0 p) as [Hpos|Hz]; cbn [pending_rollback_turns].
  - apply absorb_same. by split.
  - unfold absorb. cbn [foldl]. apply absorb_same. unfold finalize_active_segment. cbn. by split.
Qed.

Lemma absorb_collect stack s :
  pending_rollback_turns s <= 0 ->
  same (absorb s stack)
    {| base_compaction := match base_compaction s with None => base_compaction (collect stack) | b => b end;
       previous_turn_settings := match previous_turn_settings s with None => previous_turn_settings (collect stack) | b => b end;
       reference_context := if never_set (reference_context s) then reference_context (collect stack) else reference_context s;
       world_state_replay := world_state_replay s ++ world_state_replay (collect stack);
       window := match window s with None => window (collect stack) | b => b end;
       pending_rollback_turns := 0; active_segment := None |}.
Proof.
  revert s. induction stack as [|t stack IH]; intros s Hp.
  - split; cbn; rewrite ?app_nil_r; try done; [by destruct (base_compaction s)|by destruct (previous_turn_settings s)|by destruct (reference_context s)|by destruct (window s)].
  - cbn [absorb foldl]. fold (absorb (finalize_active_segment (t_segment t) (with_ap s None 0)) stack). etrans; [apply IH; done|].
    unfold finalize_active_segment. cbn. split; cbn.
    + destruct (base_compaction s); [done|]. by destruct (seg_base (t_segment t)).
    + destruct (previous_turn_settings s); [done|]. destruct (has_context_baseline _); [|done]. by destruct (seg_settings (t_segment t)).
    + destruct (never_set (reference_context s)) eqn:En; cbn; [|by rewrite En]. destruct (has_context_baseline (t_segment t) || is_cleared (seg_reference (t_segment t))) eqn:Eb.
      * destruct (never_set (seg_reference (t_segment t))); [done|done].
      * rewrite En, andb_false_r. done.
    + destruct (window s); [done|]. by destruct (seg_window (t_segment t)).
    + by rewrite <- app_assoc.
Qed.

Lemma turns_of_length turns : length (turns_of turns) = length turns.
Proof. induction turns; cbn; congruence. Qed.

(** Neither the early stop nor the saturation of the number of turns shows in the result. *)
Lemma reconstruct_collect preamble turns :
  forallb preamble_item preamble = true -> forallb turn_ok turns = true ->
  forallb numbered (preamble ++ flat turns) = true -> Z.of_nat (length turns) < USIZE_MAX ->
  reconstruct_history_from_rollout is_contextual is_message parse_str get_version_num (preamble ++ flat turns)
  = rebuilt (preamble ++ flat turns) (collect (survivors (all_turns preamble turns))).
Proof.
  intros Hpre Ht Hn Hl. unfold reconstruct_history_from_rollout, reverse_scan.
  assert (forallb numbered (reverse (preamble ++ flat turns)) = true) as Hnr.
  { rewrite forallb_forall in Hn |- *. intros i Hi. apply Hn. by rewrite <- list_elem_of_In, elem_of_reverse, list_elem_of_In in Hi. }
  rewrite (early_stop_gen (preamble ++ flat turns) (reverse (preamble ++ flat turns)) [] scan_start Hnr scan_start_ok eq_refl).
  assert (Forall (fun t => 0 <= t_rollbacks t) (all_turns preamble turns)) as Hnn.
  { constructor; [by apply rollbacks_nonneg|by apply turns_of_nonneg]. }
  apply rebuild_same. etrans; [|by apply scan_rollout]. etrans; [|apply fold_survive].
  rewrite (survive_saturating 0 0); [|lia|by apply Forall_reverse| |by left].
  2:{ rewrite length_reverse. unfold all_turns. cbn [length]. rewrite turns_of_length. lia. }
  rewrite survive_rollback by (done || lia). rewrite rollback_zero by lia. symmetry. etrans; [by apply absorb_collect|]. by split.
Qed.

(** ** A forward replay

    The session as it went, from the first record to the last: the chapters of the rollout, that is
    what came before the first turn and then each turn, are written one after the other, and a
    rollback takes chapters away. *)

Definition chapters (preamble : list Item) (turns : list (rstr * list Item)) : list (nat * list Item) :=
  imap pair (preamble :: map turn_items turns).

Definition user_input (i : Item) : bool :=
  match i with
  | RResponseItem response_item => is_user_turn_boundary is_contextual is_message (item response_item)
  | InterAgentCommunication _ | REventMsg UserMessage => true
  | _ => false
  end.

(** Taking the newest [n] chapters with user input away, and what is newer than they are. *)
Fixpoint take_back (n : Z) (stack : list (nat * list Item)) : list (nat * list Item) :=
  match stack with
  | [] => []
  | ch :: older => if 0 <? n then take_back (if existsb user_input ch.2 then n - 1 else n) older else stack
  end.

(** The chapters that are left, the newest first. *)
Definition left_over (chs : list (nat * list Item)) : list (nat * list Item) :=
  foldl (fun stack ch => take_back (rollbacks ch.2) (ch :: stack)) [] chs.

(** What the newest record that says something says. *)
Definition newest {A} (f : Item -> option A) (body : list Item) : option A := find_map f (reverse body).

Definition context_settings (i : Item) : option PreviousTurnSettings :=
  match i with TurnContext ctx => Some (settings_of ctx) | _ => None end.

Definition context_reference (i : Item) : option TurnReferenceContextItem :=
  match i with TurnContext ctx => Some (Latest ctx) | Compacted _ => Some Cleared | _ => None end.

Definition compaction_window (i : Item) : option ReconstructedWindow :=
  match i with Compacted c => compacted_window parse_str get_version_num c | _ => None end.

(** With user input, or with the whole state of the world recorded after its last compaction. *)
Definition grounded (body : list Item) : bool :=
  existsb user_input body
  || default false (newest (fun i => if is_compacted i then Some false else if is_full_world_state i then Some true else None) body).

Definition reference_of (body : list Item) : option TurnReferenceContextItem :=
  match newest context_reference body with
  | Some (Latest ctx) => if grounded body then Some (Latest ctx) else None
  | r => r
  end.

Definition world_step (world : option WorldStateSnapshot) (i : Item) : option WorldStateSnapshot :=
  match i with
  | Compacted _ => None
  | WorldStateRecord w => if full w then Some {| sections := state w |} else (fun b => apply_merge_patch b (state w)) <$> world
  | _ => world
  end.

(** The history with every record, whether there was a compaction without a replacement since it
    was replaced. The replacement of a compaction counts in the chapters that are left. *)
Definition history_step (stays : bool) (h : H * bool) (i : Item) : H * bool :=
  match i with
  | RResponseItem response_item => (cm_record_annotated_item response_item h.1, h.2)
  | InterAgentCommunication communication => (cm_record_communication communication h.1, h.2)
  | Compacted c =>
      match ci_replacement_history c with
      | None => (cm_compact (ci_message c) h.1, true)
      | Some l =>
          if stays then (cm_restore_guardian_history (ci_guardian_history c) (cm_replace_annotated l cm_new), false) else h
      end
  | REventMsg (ThreadRolledBack n) => (cm_drop_last_n_user_turns n h.1, h.2)
  | _ => h
  end.

Definition history_of (stays : nat -> bool) (chs : list (nat * list Item)) (h : H * bool) : H * bool :=
  foldl (fun h ch => foldl (history_step (stays ch.1)) h ch.2) h chs.

(** The session after the last record. *)
Definition forward_session (preamble : list Item) (turns : list (rstr * list Item)) : RolloutReconstruction :=
  let chs := chapters preamble turns in
  let stack := left_over chs in
  let h := history_of (fun n => bool_decide (n ∈ stack.*1)) chs (cm_new, false) in
  {| r_history := cm_annotated_items h.1;
     r_guardian_history := cm_guardian_history_checkpoint h.1;
     r_previous_turn_settings :=
       find_map (fun ch => if grounded ch.2 then find_map context_settings ch.2 else None) stack;
     r_reference_context_item :=
       match find_map (fun ch => reference_of ch.2) stack with
       | Some (Latest ctx) => if h.2 then None else Some ctx
       | _ => None
       end;
     r_world_state_baseline := foldl (fun world ch => foldl world_step world ch.2) None (reverse stack);
     r_window :=
       match find_map (fun ch => newest compaction_window ch.2) stack with
       | Some w => w
       | None =>
           let items := concat chs.*2 in
           default (fallback_window items) (initial_window parse_str get_version_num items)
       end |}.

Lemma find_map_app {A B} (f : A -> option B) (l k : list A) : find_map f (l ++ k) = match find_map f l with Some y => Some y | None => find_map f k end.
Proof. induction l as [|x l IH]; cbn; [done|]. by destruct (f x). Qed.

Lemma find_map_ext {A B} (f g : A -> option B) (l : list A) : (forall x, x ∈ l -> f x = g x) -> find_map f l = find_map g l.
Proof. induction l as [|x l IH]; cbn; intros Hfg; [done|]. rewrite (Hfg x) by set_solver. destruct (g x); [done|]. apply IH. set_solver. Qed.

Lemma find_map_map {A B C} (f : B -> option C) (g : A -> B) (l : list A) : find_map f (map g l) = find_map (fun x => f (g x)) l.
Proof. induction l as [|x l IH]; cbn; [done|]. by destruct (f (g x)). Qed.

Lemma newest_cons {A} (f : Item -> option A) i body : newest f (i :: body) = match newest f body with Some y => Some y | None => f i end.
Proof. unfold newest. rewrite reverse_cons, find_map_app. cbn. by destruct (find_map f (reverse body)), (f i). Qed.

(** *** What the reverse replay finds in one chapter *)

(** The newest compaction with a replacement, and what comes after it. *)
Fixpoint base_in (body after : list Item) : option ReplayCheckpoint :=
  match body with
  | [] => None
  | i :: rest =>
      match base_in rest after with
      | Some c => Some c
      | None =>
          match i with
          | Compacted c =>
              match ci_replacement_history c with
              | Some _ => Some {| rc_compacted := c; rc_suffix := rest ++ after |}
              | None => None
              end
          | _ => None
          end
      end
  end.

Record segment_of (body after : list Item) g : Prop := {
  sf_user : counts_as_user_turn g = existsb user_input body;
  sf_settings : seg_settings g = find_map context_settings body;
  sf_reference : seg_reference g = default NeverSet (newest context_reference body);
  sf_replay : seg_replay g = reverse (List.filter world_kind body);
  sf_window : seg_window g = newest compaction_window body;
  sf_base : seg_base g = base_in body after;
}.

Lemma scan_all_cons i body after s : scan_all (reverse (i :: body)) after s = step i (body ++ after) (scan_all (reverse body) after s).
Proof. by rewrite reverse_cons, scan_all_app, reverse_involutive. Qed.

Lemma never_set_newest body : never_set (default NeverSet (newest context_reference body)) = match newest context_reference body with Some _ => false | None => true end.
Proof.
  destruct (newest context_reference body) as [r|] eqn:E; [|done]. cbn.
  unfold newest in E. revert E. generalize (reverse body). clear. induction l as [|x l IH]; cbn; [done|].
  destruct x; cbn; try exact IH; by intros [= <-].
Qed.

(** A record that is not about the facts of a chapter. *)
Definition silent (i : Item) : bool :=
  match i with
  | TurnContext _ | Compacted _ | WorldStateRecord _ => false
  | _ => true
  end.

Lemma segment_silent i body after g g' :
  silent i = true -> counts_as_user_turn g' = user_input i || counts_as_user_turn g ->
  seg_settings g' = seg_settings g -> seg_reference g' = seg_reference g -> seg_replay g' = seg_replay g ->
  seg_window g' = seg_window g -> seg_base g' = seg_base g -> segment_of body after g -> segment_of (i :: body) after g'.
Proof.
  intros Hs Hu H1 H2 H3 H4 H5 []. split; rewrite ?Hu, ?H1, ?H2, ?H3, ?H4, ?H5, ?newest_cons; cbn [existsb find_map List.filter base_in].
  - congruence.
  - by destruct i.
  - rewrite sf_reference0. by destruct (newest context_reference body), i.
  - by destruct i.
  - rewrite sf_window0. by destruct (newest compaction_window body), i.
  - rewrite sf_base0. by destruct (base_in body after), i.
Qed.

Lemma active_set s g : active (set_active s g) = g.
Proof. done. Qed.

Lemma segment_spec id body after :
  forallb (item_of_turn id) body = true -> segment_of body after (active (scan_all (reverse body) after scan_start)).
Proof.
  induction body as [|i body IH]; intros Hb; [by split|]. cbn in Hb. apply andb_true_iff in Hb as [Hi Hb]. specialize (IH Hb).
  rewrite scan_all_cons. set (s := scan_all (reverse body) after scan_start) in *.
  assert (turn_ids_are_compatible (turn_id (active s)) (Some id) = true) as Hid.
  { unfold active. destruct (active_segment s) as [g|] eqn:E; [|done]. by eapply (body_turn_id id body after). }
  assert (forall g', silent i = true -> counts_as_user_turn g' = user_input i || counts_as_user_turn (active s) ->
    seg_settings g' = seg_settings (active s) -> seg_reference g' = seg_reference (active s) -> seg_replay g' = seg_replay (active s) ->
    seg_window g' = seg_window (active s) -> seg_base g' = seg_base (active s) -> segment_of (i :: body) after g') as Hsil
    by (intros; by eapply segment_silent).
  unfold item_of_turn in Hi. apply andb_true_iff in Hi as [[Hst Hci]%andb_true_iff _].
  destruct i as [m|r|c|b|c|ctx|r|w|r|ev|r]; try (apply Hsil; first [done|exact (orb_comm _ _)|cbn -[active newest reverse]; by rewrite ?orb_true_r]).
  - destruct IH. cbn [scan_item]. rewrite active_set. split; cbn -[active newest reverse]; rewrite ?newest_cons; cbn -[active newest reverse]; try done.
    + rewrite sf_reference0, never_set_newest. by destruct (newest context_reference body).
    + by rewrite sf_replay0, reverse_cons.
    + rewrite sf_window0. by destruct (newest compaction_window body).
    + rewrite sf_base0. destruct (base_in body after); [done|]. by destruct (ci_replacement_history c).
  - destruct IH. assert (turn_ids_are_compatible (turn_id (with_turn_id (active s) (tc_turn_id ctx))) (tc_turn_id ctx) = true) as Hc.
    { cbn in Hci |- *. destruct (turn_id (active s)) as [x|], (tc_turn_id ctx) as [y|]; cbn in *; try done; [|apply streq_refl].
      apply streq_true in Hid as ->. done. }
    cbn [scan_item]. rewrite active_set. unfold segment_context. rewrite Hc.
    split; cbn -[active newest reverse]; rewrite ?newest_cons; cbn -[active newest reverse]; try done.
    + rewrite sf_reference0, never_set_newest. by destruct (newest context_reference body).
    + rewrite sf_window0. by destruct (newest compaction_window body).
    + rewrite sf_base0. by destruct (base_in body after).
  - destruct IH. cbn [scan_item]. rewrite active_set. split; cbn -[active newest reverse]; rewrite ?newest_cons; cbn -[active newest reverse]; try done.
    + rewrite sf_reference0. by destruct (newest context_reference body).
    + by rewrite sf_replay0, reverse_cons.
    + rewrite sf_window0. by destruct (newest compaction_window body).
    + rewrite sf_base0. by destruct (base_in body after).
  - destruct ev as [n|id'|id'|id'| |id' u|]; try (apply Hsil; first [done|exact (orb_comm _ _)|cbn -[active newest reverse]; by rewrite ?orb_true_r]).
    apply Hsil; try done; cbn -[active]; unfold active; by destruct (active_segment s) eqn:E, id'; cbn; rewrite ?E.
Qed.

(** *** The same chapters are left *)

(** A chapter without the record that starts its turn. *)
Definition body_of (chapter : list Item) : list Item :=
  match chapter with REventMsg (TurnStarted _) :: body => body | _ => chapter end.

Definition turn_at turns (ch : nat * list Item) : Turn := turn_of (body_of ch.2) (flat (drop ch.1 turns)).

Lemma turns_of_map turns : turns_of turns = map (turn_at turns) (imap (fun k chapter => (S k, chapter)) (map turn_items turns)).
Proof.
  assert (forall k, turns_of (drop k turns) = map (turn_at turns) (imap (fun j body => (S (k + j), body)) (map turn_items (drop k turns)))) as Hgen.
  2:{ exact (Hgen 0%nat). }
  intros k. remember (drop k turns) as l eqn:El. revert k El. induction l as [|t l IH]; intros k El; [done|].
  assert (l = drop (S k) turns) as El'.
  { assert (turns !! k = Some t) as Hk by (by rewrite <- (Nat.add_0_r k), <- lookup_drop, <- El).
    rewrite (drop_S _ _ _ Hk) in El. by injection El. }
  cbn [turns_of map imap]. rewrite (IH (S k) El'). f_equal; [unfold turn_at; cbn [fst snd]; by rewrite Nat.add_0_r, <- El'|]. f_equal.
  apply imap_ext. intros j x _. cbn. do 2 f_equal. lia.
Qed.

Lemma body_of_preamble id (body : list Item) : forallb (item_of_turn id) body = true -> body_of body = body.
Proof. destruct body as [|i body]; [done|]. by destruct i as [| | | | | | | | |[]|]. Qed.

Lemma all_turns_chapters pid preamble turns :
  forallb (item_of_turn pid) preamble = true -> all_turns preamble turns = map (turn_at turns) (chapters preamble turns).
Proof.
  intros Hp. unfold all_turns, chapters. cbn [imap map]. rewrite turns_of_map. f_equal. unfold turn_at. cbn. by rewrite (body_of_preamble pid).
Qed.

Lemma left_over_sublist chs : left_over chs `sublist_of` reverse chs.
Proof.
  assert (forall n stack, take_back n stack `sublist_of` stack) as Htake.
  { intros n stack. revert n. induction stack as [|ch stack IH]; intros n; cbn [take_back]; [done|]. destruct (0 <? n); [|done]. by apply sublist_cons. }
  induction chs as [|ch chs IH] using rev_ind; [done|]. unfold left_over. rewrite foldl_snoc, reverse_snoc. fold (left_over chs).
  etrans; [apply Htake|]. by apply sublist_skip.
Qed.

Lemma left_over_elem chs ch : ch ∈ left_over chs -> ch ∈ chs.
Proof. intros Hin. apply elem_of_reverse. eapply elem_of_submseteq; [exact Hin|]. by apply sublist_submseteq, left_over_sublist. Qed.

(** The records of a chapter belong to one turn. *)
Definition of_one_turn (ch : nat * list Item) : Prop := exists id, forallb (item_of_turn id) (body_of ch.2) = true.

Lemma chapters_of_turns pid preamble turns ch :
  forallb (item_of_turn pid) preamble = true -> forallb turn_ok turns = true -> ch ∈ chapters preamble turns -> of_one_turn ch.
Proof.
  intros Hp Ht (k & Hk)%list_elem_of_lookup. unfold chapters in Hk. rewrite list_lookup_imap in Hk.
  destruct k as [|k]; cbn in Hk; [simplify_eq; exists pid; cbn; by rewrite (body_of_preamble pid)|].
  change (pair (S k) <$> map turn_items turns !! k = Some ch) in Hk. rewrite list_lookup_fmap in Hk. destruct (turns !! k) as [t|] eqn:Et; [|done].
  cbn in Hk. simplify_eq. exists t.1. rewrite forallb_forall in Ht. apply Ht. rewrite <- list_elem_of_In. by eapply list_elem_of_lookup_2.
Qed.

Lemma chapters_nodup preamble turns : NoDup (chapters preamble turns).*1.
Proof.
  unfold chapters. rewrite fmap_imap. apply NoDup_alt. intros i j x Hi Hj. rewrite list_lookup_imap in Hi, Hj. unfold compose in *. cbn in *.
  destruct (_ !! i), (_ !! j); by simplify_eq/=.
Qed.

(** What the reverse replay finds in a chapter. *)
Lemma chapter_segment turns ch : of_one_turn ch ->
  segment_of ch.2 (flat (drop ch.1 turns)) (t_segment (turn_at turns ch)) /\ t_rollbacks (turn_at turns ch) = rollbacks ch.2.
Proof.
  intros [id Hid]. pose proof (segment_spec id _ (flat (drop ch.1 turns)) Hid) as Hs. unfold turn_at. cbn [turn_of t_segment t_rollbacks].
  destruct ch as [n [|i body]]; [done|]. destruct i as [| | | | | | | | |[]|]; try done. split; [|done]. by eapply segment_silent.
Qed.

Lemma survivors_left turns chs :
  (forall ch, ch ∈ chs -> of_one_turn ch) -> survivors (map (turn_at turns) chs) = map (turn_at turns) (left_over chs).
Proof.
  intros Hok. assert (forall stack n, (forall ch, ch ∈ stack -> of_one_turn ch) ->
    rollback n (map (turn_at turns) stack) = map (turn_at turns) (take_back n stack)) as Hback.
  { induction stack as [|ch stack IH]; intros n Hs; [done|]. cbn [map rollback take_back]. destruct (0 <? n); [|done].
    destruct (chapter_segment turns ch (Hs ch ltac:(set_solver))) as [[Hu _ _ _ _ _] _]. rewrite Hu. apply IH. set_solver. }
  induction chs as [|ch chs IH] using rev_ind; [done|]. rewrite map_app. cbn [map]. unfold survivors, left_over. rewrite !foldl_snoc.
  fold (survivors (map (turn_at turns) chs)). fold (left_over chs). rewrite IH by set_solver.
  rewrite (proj2 (chapter_segment turns ch (Hok ch ltac:(set_solver)))). apply (Hback (ch :: left_over chs)).
  intros ch' [->|Hin%left_over_elem]%elem_of_cons; set_solver.
Qed.

(** *** The history *)

Lemma history_step_replay h i : history_step false h i = replay_item h i.
Proof. destruct h as [h legacy]. by destruct i as [| | | |c| | | | |[]|]. Qed.

Lemma base_in_after body after :
  base_in body after = (fun c => {| rc_compacted := rc_compacted c; rc_suffix := rc_suffix c ++ after |}) <$> base_in body [].
Proof.
  induction body as [|i body IH]; [done|]. cbn. rewrite IH. destruct (base_in body []) as [c|]; [done|]. cbn.
  destruct i as [| | | |c| | | | | |]; try done. destruct (ci_replacement_history c); [|done]. cbn. by rewrite app_nil_r.
Qed.

(** A replacement makes what came before it irrelevant. *)
Lemma history_body after body h :
  foldl replay_item (foldl (history_step true) h body) after
  = match base_in body after with
    | Some c => foldl replay_item (base_history (Some c), false) (rc_suffix c)
    | None => foldl replay_item h (body ++ after)
    end.
Proof.
  revert h. induction body as [|i body IH]; intros h; [done|]. cbn [foldl base_in app]. rewrite IH. destruct (base_in body after) as [c|]; [done|].
  destruct i as [| | | |c| | | | | |]; try by rewrite <- history_step_replay. cbn. destruct h as [h legacy].
  destruct (ci_replacement_history c) as [l|] eqn:E; cbn; by rewrite E.
Qed.

Lemma history_of_base stays turns chs h :
  (forall before ch later, chs = before ++ ch :: later -> concat later.*2 = flat (drop ch.1 turns)) ->
  history_of stays chs h
  = match find_map (fun ch => if stays ch.1 then base_in ch.2 (flat (drop ch.1 turns)) else None) (reverse chs) with
    | Some c => foldl replay_item (base_history (Some c), false) (rc_suffix c)
    | None => foldl replay_item h (concat chs.*2)
    end.
Proof.
  revert h. induction chs as [|ch chs IH]; intros h Hl; [done|]. rewrite reverse_cons, find_map_app. unfold history_of. cbn [foldl]. fold (history_of stays chs).
  change (foldl _ _ chs) with (history_of stays chs (foldl (history_step (stays ch.1)) h ch.2)).
  rewrite IH by (intros before ch' later ->; by apply (Hl (ch :: before))).
  destruct (find_map _ (reverse chs)) as [c|]; [done|]. cbn [find_map fmap list_fmap concat]. rewrite <- (Hl [] ch chs eq_refl).
  destruct (stays ch.1).
  - rewrite history_body. by destruct (base_in ch.2 (concat chs.*2)).
  - rewrite foldl_app. f_equal. clear. revert h. induction ch.2 as [|i body IH]; intros h; [done|]. cbn. by rewrite history_step_replay, IH.
Qed.

Lemma chapters_later preamble turns before ch later :
  chapters preamble turns = before ++ ch :: later -> concat later.*2 = flat (drop ch.1 turns).
Proof.
  intros E. assert (ch.1 = length before) as Hn.
  { assert (chapters preamble turns !! length before = Some ch) as Hch by (rewrite E; by apply list_lookup_middle).
    unfold chapters in Hch. rewrite list_lookup_imap in Hch. by destruct (_ !! length before); simplify_eq/=. }
  assert ((chapters preamble turns).*2 = preamble :: map turn_items turns) as E2.
  { apply list_eq. intros k. unfold chapters. rewrite list_lookup_fmap, list_lookup_imap. by destruct (_ !! k). }
  rewrite E, fmap_app, fmap_cons in E2. unfold flat. rewrite Hn, <- skipn_map.
  f_equal. transitivity (drop (S (length before)) (before.*2 ++ ch.2 :: later.*2)); [|by rewrite E2].
  rewrite <- (length_fmap snd before). by rewrite drop_app_ge, Nat.sub_succ_l, Nat.sub_diag by (rewrite ?length_fmap; lia).
Qed.

Lemma find_map_left {B} (f : nat * list Item -> option B) (l k : list (nat * list Item)) :
  NoDup l.*1 -> k `sublist_of` l -> find_map (fun x => if bool_decide (x.1 ∈ k.*1) then f x else None) l = find_map f k.
Proof.
  intros Hnd Hs. induction Hs as [|x k l Hs IH|x k l Hs IH]; [done|..]; cbn [fmap list_fmap] in Hnd; apply NoDup_cons in Hnd as [Hx Hnd]; cbn [find_map].
  - rewrite bool_decide_eq_true_2 by set_solver. destruct (f x); [done|]. rewrite <- (IH Hnd). apply find_map_ext. intros y Hy.
    assert (y.1 ≠ x.1) as Hne by (intros Heq; apply Hx; rewrite <- Heq; by apply list_elem_of_fmap_2).
    rewrite (bool_decide_ext (y.1 ∈ (x :: k).*1) (y.1 ∈ k.*1)); [done|]. cbn [fmap list_fmap]. rewrite elem_of_cons. naive_solver.
  - rewrite bool_decide_eq_false_2; [by apply IH|]. intros Hin. apply Hx. apply list_elem_of_fmap in Hin as (y & -> & Hy).
    apply list_elem_of_fmap_2. eapply elem_of_submseteq; [exact Hy|]. by apply sublist_submseteq.
Qed.

(** *** The other facts *)

Lemma filter_reverse (f : Item -> bool) l : List.filter f (reverse l) = reverse (List.filter f l).
Proof.
  induction l as [|i l IH]; [done|]. rewrite reverse_cons, List.filter_app, IH. cbn [List.filter]. destruct (f i); [by rewrite reverse_cons|by rewrite app_nil_r].
Qed.

Lemma grounded_segment body after g : segment_of body after g -> has_context_baseline g = grounded body.
Proof.
  intros []. unfold has_context_baseline, grounded. rewrite sf_user0, sf_replay0. f_equal. rewrite <- filter_reverse. unfold newest.
  generalize (reverse body). induction l as [|i l IH]; [done|]. destruct i; cbn; try exact IH; [done|]. destruct (full world_state); [done|exact IH].
Qed.

Lemma reference_left turns stack : (forall ch, ch ∈ stack -> of_one_turn ch) ->
  first_reference (map (turn_at turns) stack) = default NeverSet (find_map (fun ch => reference_of ch.2) stack).
Proof.
  induction stack as [|ch stack IH]; intros Hs; [done|]. cbn [map first_reference find_map]. rewrite IH by set_solver.
  destruct (chapter_segment turns ch (Hs ch ltac:(set_solver))) as [Hg _]. rewrite (grounded_segment _ _ _ Hg), (sf_reference _ _ _ Hg), never_set_newest.
  pose proof (never_set_newest ch.2) as Hne. unfold reference_of.
  destruct (newest context_reference ch.2) as [[| |ctx]|]; [done| | |done]; cbn; rewrite ?orb_true_r, ?orb_false_r; [done|]. by destruct (grounded ch.2).
Qed.

Lemma world_body body w : fold_res replay_world_state w (List.filter world_kind body) = Ok (foldl world_step w body).
Proof.
  revert w. induction body as [|i body IH]; intros w; [done|]. destruct i; cbn; try apply IH. destruct (full world_state); cbn; apply IH.
Qed.

Lemma world_left turns stack : (forall ch, ch ∈ stack -> of_one_turn ch) ->
  fold_res replay_world_state None (reverse (concat (map (fun t => seg_replay (t_segment t)) (map (turn_at turns) stack))))
  = Ok (foldl (fun world ch => foldl world_step world ch.2) None (reverse stack)).
Proof.
  induction stack as [|ch stack IH]; intros Hs; [done|]. cbn [map concat]. rewrite reverse_app, fold_res_app, IH by set_solver. cbn [mbind res_bind].
  destruct (chapter_segment turns ch (Hs ch ltac:(set_solver))) as [Hg _]. by rewrite (sf_replay _ _ _ Hg), reverse_involutive, world_body, reverse_cons, foldl_snoc.
Qed.

(** C5. The reverse replay rebuilds the session that a forward replay leaves. Going forward, each
    rollback takes the newest chapters with user input away, with all that is newer. The
    settings, the reference context, the state of the world and the window are those of the
    chapters that are left. The history is made of all records in their order: messages are
    added, a rollback drops user turns from the history itself, and a compaction replaces the
    history when its chapter is left. The reverse replay, which stops early and starts the
    history at the newest checkpoint that is left, gives just that. The records of a turn
    carry no other id, replacements carry the number of their window, and there are fewer
    turns than a counter can count. *)
Theorem reconstruct_survivors pid preamble turns :
  forallb (item_of_turn pid) preamble = true -> forallb turn_ok turns = true ->
  forallb numbered (preamble ++ flat turns) = true -> Z.of_nat (length turns) < USIZE_MAX ->
  reconstruct_history_from_rollout is_contextual is_message parse_str get_version_num (preamble ++ flat turns)
  = Ok (forward_session preamble turns).
Proof.
  intros Hpid Ht Hn Hl. assert (forallb preamble_item preamble = true) as Hpre by exact (turn_ok_preamble (pid, preamble) Hpid).
  rewrite reconstruct_collect, (all_turns_chapters pid) by done. set (chs := chapters preamble turns).
  assert (forall ch, ch ∈ chs -> of_one_turn ch) as Hone by (intros ch; by eapply chapters_of_turns).
  rewrite survivors_left by done. assert (forall ch, ch ∈ left_over chs -> of_one_turn ch) as Hleft by (by intros ch ?%left_over_elem; apply Hone).
  assert (concat chs.*2 = preamble ++ flat turns) as Hitems.
  { unfold chs, chapters. cbn [imap fmap list_fmap concat snd]. f_equal. rewrite <- (drop_0 turns) at 2.
    by apply (chapters_later preamble turns [] (0%nat, preamble)). }
  assert (foldl replay_item (base_history (base_compaction (collect (map (turn_at turns) (left_over chs)))), false)
      (match base_compaction (collect (map (turn_at turns) (left_over chs))) with Some c => rc_suffix c | None => preamble ++ flat turns end)
    = history_of (fun n => bool_decide (n ∈ (left_over chs).*1)) chs (cm_new, false)) as Hh.
  { rewrite (history_of_base _ turns) by (intros ???; apply chapters_later). rewrite find_map_left; [| |apply left_over_sublist].
    2:{ rewrite reverse_Permutation. apply chapters_nodup. }
    cbn [collect base_compaction]. rewrite find_map_map, Hitems.
    rewrite (find_map_ext _ (fun ch => base_in ch.2 (flat (drop ch.1 turns)))); [by destruct (find_map _ _)|].
    intros ch Hch. by destruct (chapter_segment turns ch (Hleft ch Hch)) as [[] _]. }
  unfold rebuild. rewrite Hh. unfold forward_session. fold chs. destruct (history_of _ chs _) as [h legacy].
  cbn [collect world_state_replay previous_turn_settings reference_context window]. rewrite world_left by done. cbn [mbind res_bind fst snd].
  rewrite reference_left by done. rewrite !find_map_map, Hitems. do 2 f_equal.
  - apply find_map_ext. intros ch Hch. destruct (chapter_segment turns ch (Hleft ch Hch)) as [Hg _].
    by rewrite (grounded_segment _ _ _ Hg), (sf_settings _ _ _ Hg).
  - destruct (find_map _ _) as [[| |ctx]|]; by destruct legacy.
  - rewrite (find_map_ext _ (fun ch => newest compaction_window ch.2)); [done|]. intros ch Hch.
    by destruct (chapter_segment turns ch (Hleft ch Hch)) as [[] _].
Qed.

End Props.

(** * What is recorded of the world can be replayed

    [ContextManager::update_world_state] records a snapshot in full or as a patch to the last;
    the replay of the records in [rollout_reconstruction.rs] recovers the last snapshot. *)
Local Close Scope Z_scope.
Section Recorded.
Context {Opaque Checkpoint Comm : Type}.
Local Abbreviation Item := (@RolloutItem Opaque Checkpoint Comm).

(** The records of a series of snapshots, and the baseline after it. *)
Fixpoint record_snapshots (baseline : option WorldStateSnapshot) (l : list WorldStateSnapshot)
  : list Item * option WorldStateSnapshot :=
  match l with
  | [] => ([], baseline)
  | snapshot :: l =>
      let '(record, baseline) := update_world_state baseline snapshot in
      let '(records, baseline) := record_snapshots baseline l in
      (from_option (fun r => [WorldStateRecord r]) [] record ++ records, baseline)
  end.

Lemma record_snapshots_last baseline l : (record_snapshots baseline l).2 = match last l with Some s => Some s | None => baseline end.
Proof.
  revert baseline. induction l as [|s l IH]; intros baseline; [done|]. cbn [record_snapshots update_world_state].
  specialize (IH (Some s)). destruct (record_snapshots (Some s) l) as [records b]. cbn in IH |- *. rewrite IH. rewrite last_cons. by destruct (last l).
Qed.

Lemma replay_update baseline snapshot :
  (forall b, baseline = Some b -> clean_snapshot b) -> clean_snapshot snapshot ->
  fold_res replay_world_state baseline (from_option (fun r => [WorldStateRecord r : Item]) [] (update_world_state baseline snapshot).1) = Ok (Some snapshot).
Proof.
  intros Hb Hs. destruct baseline as [previous|]; cbn [update_world_state fst].
  - pose proof (snapshot_patch_roundtrip snapshot previous Hs (Hb _ eq_refl)) as Hp. destruct (merge_patch_from snapshot previous) as [p|]; cbn; by rewrite Hp.
  - cbn. by destruct snapshot.
Qed.

(** C27. Replaying the records of a series of snapshots, from the baseline they were recorded
    against, ends with the baseline that recording them ended with: the last snapshot. The
    patches lose nothing, whatever sections were added, changed or removed, provided that no
    field is null, which [remove_null_object_fields] sees to. *)
Theorem recorded_world_replays baseline l :
  (forall b, baseline = Some b -> clean_snapshot b) -> Forall clean_snapshot l ->
  fold_res replay_world_state baseline (record_snapshots baseline l).1 = Ok (record_snapshots baseline l).2
  /\ (record_snapshots baseline l).2 = match last l with Some s => Some s | None => baseline end.
Proof.
  intros Hb Hl. split; [|apply record_snapshots_last]. revert baseline Hb. induction Hl as [|s l Hs _ IH]; intros baseline Hb; [done|].
  pose proof (replay_update baseline s Hb Hs) as Hr. cbn [record_snapshots]. destruct (update_world_state baseline s) as [r b] eqn:Eu. cbn [fst] in Hr.
  assert (b = Some s) as -> by (unfold update_world_state in Eu; congruence).
  specialize (IH (Some s) ltac:(by intros ? [= <-])). destruct (record_snapshots (Some s) l) as [records b]. cbn [fst snd] in *.
  by rewrite fold_res_app, Hr.
Qed.
End Recorded.

Module WorldStateDemo.
Definition before : WorldStateSnapshot :=
  {| sections := [(lit "env", VObject [(lit "cwd", VString (lit "/a")); (lit "shell", VString (lit "zsh"))]); (lit "plan", VBool true)] |}.
Definition after : WorldStateSnapshot :=
  {| sections := [(lit "env", VObject [(lit "cwd", VString (lit "/b"))]); (lit "tools", VArray [VNull; VNumber (lit "1")])] |}.

Ltac clean_entries_tac :=
  repeat first
    [ apply clean_object | apply clean_other; reflexivity | split | constructor; cbn | done ].

Lemma before_clean : clean_snapshot before.
Proof. unfold clean_snapshot, before; cbn. clean_entries_tac. Qed.

Lemma after_clean : clean_snapshot after.
Proof. unfold clean_snapshot, after; cbn. clean_entries_tac. Qed.

(** The second record is a patch that removes two fields and changes one. *)
Example recorded_patch :
  (@record_snapshots unit unit unit None [before; after]).1
  = [WorldStateRecord {| full := true; state := sections before |};
     WorldStateRecord {| full := false;
       state := [(lit "env", VObject [(lit "cwd", VString (lit "/b")); (lit "shell", VNull)]); (lit "plan", VNull);
                 (lit "tools", VArray [VNull; VNumber (lit "1")])] |}].
Proof. vm_compute. reflexivity. Qed.

Lemma recorded_world_witness :
  fold_res replay_world_state None (@record_snapshots unit unit unit None [before; after]).1 = Ok (Some after).
Proof.
  destruct (@recorded_world_replays unit unit unit None [before; after]) as [Hr Hl].
  - done.
  - constructor; [apply before_clean|constructor; [apply after_clean|constructor]].
  - rewrite Hr, Hl. reflexivity.
Defined.
End WorldStateDemo.
