(* ===== verification/RolloutBounded.v ===== *)
(** * The bounded replay is the full replay

    [bounded_replay_matches_full]: the items that [ModelContextScan] selects, which stops
    reading as soon as it has seen a compaction and the context of a completed turn, rebuild
    the same session as all items. The two scans read the same items side by side ([sim]);
    at the cut either the checkpoint has been found or it is in the segment that is still
    active, and nothing older can change what was found ([replay_older]). *)
From S2P Require Import Prelude Width History WorldState Rollout RolloutProps.

Set Default Goal Selector "!".

Local Open Scope Z_scope.

Section Bounded.
Context {Opaque Checkpoint Comm Uuid : Type}.
Context (is_contextual : list (@ContentItem Opaque) -> bool) (is_message : list (@ContentItem Opaque) -> bool).
Context (parse_str : rstr -> option Uuid) (get_version_num : Uuid -> Z).
Context {H : Type} {CM : @ContextManagerOps Opaque Checkpoint Comm H}.

Local Abbreviation Item := (@RolloutItem Opaque Checkpoint Comm).
Local Abbreviation scan := (@Scan Opaque Checkpoint Comm Uuid).
Local Abbreviation segment := (@ActiveReplaySegment Opaque Checkpoint Comm Uuid).
Local Abbreviation context := (@ModelContextScan Opaque Checkpoint Comm).
Local Abbreviation step := (@scan_item Opaque Checkpoint Comm Uuid is_contextual is_message parse_str get_version_num).
Local Abbreviation scanned := (@scan_all Opaque Checkpoint Comm Uuid is_contextual is_message parse_str get_version_num).
Local Abbreviation rebuilt := (@rebuild Opaque Checkpoint Comm Uuid parse_str get_version_num H CM).
Local Abbreviation reconstruct := (@reconstruct_history_from_rollout Opaque Checkpoint Comm Uuid is_contextual is_message parse_str get_version_num H CM).

Implicit Types (i : Item) (l after rest : list Item) (s : scan) (g : segment) (m : context).

(** ** Rollouts as they are written, from the newest item *)

(** The turn that started last before these items. *)
Fixpoint start_ahead (rest : list Item) : option rstr :=
  match rest with
  | [] => None
  | REventMsg (TurnStarted id) :: _ => Some id
  | _ :: rest => start_ahead rest
  end.

Definition counts i : bool :=
  match i with
  | RResponseItem r => is_user_turn_boundary is_contextual is_message (item r)
  | InterAgentCommunication _ | REventMsg UserMessage => true
  | _ => false
  end.

(** Older items of the same turn. *)
Fixpoint counts_ahead (rest : list Item) : bool :=
  match rest with [] => false | i :: rest => if is_start i then false else counts i || counts_ahead rest end.

Fixpoint no_rollback_ahead (rest : list Item) : bool :=
  match rest with
  | [] => true
  | i :: rest =>
      if is_start i then true
      else match i with REventMsg (ThreadRolledBack _) => false | _ => no_rollback_ahead rest end
  end.

Definition is_marker i : bool := match i with REventMsg (ItemCompleted _ u) => u | _ => false end.

Definition id_agrees (id start : option rstr) : bool :=
  match id, start with Some x, Some y => x =s y | _, _ => true end.

(** An item names the turn it is recorded in; a turn with a completed user message has a
    message that counts as a user turn ([seen] tells whether one was seen); and no rollback
    is recorded in a turn before a compaction. *)
Fixpoint well_formed (seen : bool) (newest_first : list Item) : bool :=
  match newest_first with
  | [] => true
  | i :: rest =>
      id_agrees (carried_id i) (start_ahead rest)
      && (if is_marker i then seen || counts_ahead rest || bool_decide (start_ahead rest = None) else true)
      && (if is_compacted i then no_rollback_ahead rest else true)
      && well_formed (if is_start i then false else seen || counts i) rest
  end.

(** ** The two scans side by side *)

Definition observed (m : context) i : context := observe_item is_message m i.

Record sim (rest : list Item) s m : Prop := {
  m_pending : pending_rollback_turns s = 0;
  m_turn_id g : active_segment s = Some g -> id_agrees (turn_id g) (start_ahead rest) = true;
  m_a_turn_id : id_agrees (a_turn_id (m_active m)) (start_ahead rest) = true;
  m_user : is_Some (start_ahead rest) -> has_user_turn (m_active m) = true ->
    counts_as_user_turn (active s) || counts_ahead rest = true;
  m_context : is_Some (start_ahead rest) -> has_turn_context (m_active m) = true ->
    is_Some (seg_settings (active s)) /\ never_set (seg_reference (active s)) = false;
  m_full : has_full_world_state (m_active m) = true -> full_state_first (seg_replay (active s)) = true;
  m_saw : a_saw_compaction (m_active m) = existsb is_compacted (seg_replay (active s));
  m_completed : saw_completed_turn_context m = true ->
    is_Some (previous_turn_settings s) /\ never_set (reference_context s) = false;
  m_compaction : saw_compaction m = true -> is_Some (base_compaction s) \/ is_Some (seg_base (active s));
  m_closed : is_Some (seg_base (active s)) -> no_rollback_ahead rest = true;
}.

Lemma id_agrees_trans x y z : id_agrees (Some x) (Some z) = true -> id_agrees (Some y) (Some z) = true -> x = y.
Proof. cbn. by intros ->%streq_true ->%streq_true. Qed.

Lemma start_ahead_cons i rest : is_start i = false -> start_ahead (i :: rest) = start_ahead rest.
Proof. destruct i as [| | | | | | | | |ev|]; try done. by destruct ev. Qed.

Lemma full_state_app (l : list Item) i :
  full_state_first (l ++ [i]) = full_state_first l || negb (existsb is_compacted l) && full_state_first [i].
Proof.
  induction l as [|x l IH]; cbn [app full_state_first existsb]; [done|]. destruct (is_compacted x); cbn; [done|]. rewrite IH. by rewrite orb_assoc.
Qed.

Lemma existsb_snoc (l : list Item) f i : existsb f (l ++ [i]) = existsb f l || f i.
Proof. rewrite existsb_app. cbn. by rewrite orb_false_r. Qed.

(** An item that changes nothing but the turn of the segments. *)
Lemma no_rollback_cons i rest :
  is_start i = false -> no_rollback_ahead (i :: rest) = true -> no_rollback_ahead rest = true.
Proof. intros Hs. cbn. rewrite Hs. destruct i as [| | | | | | | | |ev|]; try done. by destruct ev. Qed.

Lemma counts_ahead_cons i rest : is_start i = false -> counts_ahead (i :: rest) = counts i || counts_ahead rest.
Proof. intros Hs. cbn. by rewrite Hs. Qed.

(** Compatible identifiers inside of a turn. *)
Lemma agrees_compatible (o o' st : option rstr) :
  is_Some st -> id_agrees o st = true -> id_agrees o' st = true -> turn_ids_are_compatible o o' = true.
Proof.
  intros [z ->]. destruct o as [x|], o' as [y|]; try done. cbn. intros ->%streq_true ->%streq_true. apply streq_refl.
Qed.

Lemma agrees_or (o o' st : option rstr) :
  id_agrees o st = true -> id_agrees o' st = true -> id_agrees (match o with Some x => Some x | None => o' end) st = true.
Proof. by destruct o. Qed.

Lemma sim_unset rest s m : sim rest (set_active s (active s)) m -> sim rest s m.
Proof.
  intros [Hp Ht Ha Hu Hc Hf Hs Hcm Hcp Hcl]. split; try done. intros g Hg. apply Ht. cbn. unfold active. by rewrite Hg.
Qed.

(** An item inside of a turn updates the active segments. *)
Lemma sim_active i rest s m g' m' :
  is_start i = false -> sim (i :: rest) s m ->
  id_agrees (turn_id g') (start_ahead rest) = true ->
  id_agrees (a_turn_id (m_active m')) (start_ahead rest) = true ->
  (is_Some (start_ahead rest) -> has_user_turn (m_active m') = true -> counts_as_user_turn g' || counts_ahead rest = true) ->
  (is_Some (start_ahead rest) -> has_turn_context (m_active m') = true ->
   is_Some (seg_settings g') /\ never_set (seg_reference g') = false) ->
  (has_full_world_state (m_active m') = true -> full_state_first (seg_replay g') = true) ->
  a_saw_compaction (m_active m') = existsb is_compacted (seg_replay g') ->
  saw_completed_turn_context m' = saw_completed_turn_context m ->
  (saw_compaction m' = true -> saw_compaction m = true \/ is_Some (seg_base g')) ->
  (is_Some (seg_base (active s)) -> is_Some (seg_base g')) ->
  (is_Some (seg_base g') -> is_Some (seg_base (active s)) \/ no_rollback_ahead rest = true) ->
  sim rest (set_active s g') m'.
Proof.
  intros Hst [Hp Ht Ha Hu Hc Hf Hs Hcm Hcp Hcl] ? ? ? ? ? ? Hcm' Hcp' Hb Hnb. split; try done.
  - by intros ? [= <-].
  - by rewrite Hcm'.
  - rewrite active_set. intros Hsaw. destruct (Hcp' Hsaw) as [Hm|Hg]; [|by right]. destruct (Hcp Hm) as [?|?]; [by left|right; by apply Hb].
  - rewrite active_set. intros Hg. destruct (Hnb Hg) as [Hold|?]; [|done]. eapply no_rollback_cons; [done|by apply Hcl].
Qed.

Lemma active_agrees rest s m : sim rest s m -> id_agrees (turn_id (active s)) (start_ahead rest) = true.
Proof. intros Hs. unfold active. destruct (active_segment s) as [g|] eqn:E; [by apply (m_turn_id _ _ _ Hs)|done]. Qed.

(** Cases on the comparisons of identifiers in the goal. *)
Ltac split_ids :=
  repeat match goal with |- context [turn_ids_are_compatible ?a ?b] => destruct (turn_ids_are_compatible a b) end.

Lemma sim_item i after rest seen s m :
  is_start i = false -> well_formed seen (i :: rest) = true -> seen = counts_as_user_turn (active s) -> sim (i :: rest) s m ->
  must_scan_to_start m = false -> must_scan_to_start (observed m i) = false ->
  sim rest (step i after s) (observed m i) /\ seen || counts i = counts_as_user_turn (active (step i after s)).
Proof.
  intros Hst Hwf Hseen Hsim Hm0 Hmust. pose proof (active_agrees _ _ _ Hsim) as Hact. pose proof Hsim as [Hp Ht Ha Hu Hc Hf Hs Hcm Hcp Hcl].
  rewrite start_ahead_cons in Ht, Ha, Hu, Hc, Hact by done. rewrite counts_ahead_cons in Hu by done.
  cbn [well_formed] in Hwf. rewrite Hst in Hwf. apply andb_true_iff in Hwf as [Hwf _]. apply andb_true_iff in Hwf as [Hwf Hclosed].
  apply andb_true_iff in Hwf as [Hid Hmark].
  assert (is_Some (start_ahead rest) -> has_user_turn (m_active m) = true -> (counts_as_user_turn (active s) || counts i) || counts_ahead rest = true) as Hu'
    by (intros ? ?; rewrite <- orb_assoc; by apply Hu).
  assert (forall m', counts i = false -> id_agrees (a_turn_id (m_active m')) (start_ahead rest) = true ->
    (is_Some (start_ahead rest) -> has_user_turn (m_active m') = true -> counts_as_user_turn (active s) || counts_ahead rest = true) ->
    has_turn_context (m_active m') = has_turn_context (m_active m) -> has_full_world_state (m_active m') = has_full_world_state (m_active m) ->
    a_saw_compaction (m_active m') = a_saw_compaction (m_active m) -> saw_completed_turn_context m' = saw_completed_turn_context m ->
    saw_compaction m' = saw_compaction m -> sim rest s m' /\ seen || counts i = counts_as_user_turn (active s)) as Hkeep.
  { intros m' Hci ? ? Hc' Hf' Hs' ? Hcp'. split; [|by rewrite Hci, orb_false_r]. apply sim_unset.
    eapply (sim_active i rest s m); rewrite ?Hc', ?Hf', ?Hs', ?Hcp'; try done; by (left || (intros; left)). }
  assert (counts i = false -> is_Some (start_ahead rest) -> has_user_turn (m_active m) = true -> counts_as_user_turn (active s) || counts_ahead rest = true) as Hu0.
  { intros Hci ? ?. specialize (Hu' H0 H1). by rewrite Hci, orb_false_r in Hu'. }
  destruct i as [sm|r|c|b|c|ctx|r|w|r|ev|r]; cbn [step observed observe_item]; try (by apply Hkeep; try done; apply Hu0).
  - split; [|rewrite active_set; cbn; by rewrite Hseen]. eapply sim_active; try done; try (intros; by left); cbn.
    intros Hstart. rewrite orb_true_iff. intros [Hh|Hh]; [by apply Hu'|]. assert (is_user_turn_boundary is_contextual is_message (item r) = true) as ->.
    { unfold response_item_counts_as_user_turn in Hh. unfold is_user_turn_boundary. destruct (item r); try done. by rewrite Hh, orb_true_r. }
    by rewrite orb_true_r.
  - split; [|rewrite active_set; cbn; by rewrite Hseen, !orb_true_r]. eapply sim_active; try done; try (intros; by left); cbn. intros; by rewrite orb_true_r.
  - cbn in Hmust. destruct (ci_replacement_history c) as [h|] eqn:Er; [|done]. destruct (ci_window_number c) as [n|] eqn:En; [|done].
    split; [|rewrite active_set; cbn; by rewrite Hseen, orb_false_r]. eapply sim_active; try done; cbn.
    + intros Hstart Hh. destruct (Hc Hstart Hh) as [? Hn]. split; [done|]. by destruct (seg_reference (active s)).
    + intros Hh. rewrite full_state_app. by rewrite (Hf Hh).
    + by rewrite existsb_snoc, orb_true_r.
    + intros _. right. destruct (seg_base (active s)); [done|]. by rewrite Er.
    + by destruct (seg_base (active s)).
    + intros _. by right.
  - assert (id_agrees (tc_turn_id ctx) (start_ahead rest) = true) as Hid' by done.
    split; [|rewrite active_set; unfold segment_context; split_ids; cbn; by rewrite Hseen, orb_false_r].
    assert (is_Some (start_ahead rest) -> turn_ids_are_compatible (turn_id (with_turn_id (active s) (tc_turn_id ctx))) (tc_turn_id ctx) = true) as Hcompat.
    { intros Hstart. eapply agrees_compatible; [exact Hstart| |done]. cbn. by apply agrees_or. }
    eapply sim_active; try done; cbn.
    + unfold segment_context. split_ids; cbn; by apply agrees_or.
    + split_ids; cbn; by apply agrees_or.
    + intros Hstart. unfold segment_context. rewrite Hcompat by done. cbn. split_ids; cbn; by apply Hu0.
    + intros Hstart _. unfold segment_context. rewrite Hcompat by done. cbn. split; [done|]. by destruct (seg_reference (active s)).
    + unfold segment_context. split_ids; done.
    + unfold segment_context. split_ids; done.
    + by left.
    + unfold segment_context. by split_ids.
    + unfold segment_context. split_ids; by left.
  - split; [|rewrite active_set; cbn; by rewrite Hseen, orb_false_r]. eapply sim_active; try done; try (intros; by left); cbn.
    + rewrite full_state_app, Hs. rewrite orb_true_iff. intros [Hh|Hh]; [by rewrite (Hf Hh)|]. apply andb_true_iff in Hh as [Hw Hn]. rewrite Hn. cbn. by rewrite Hw, orb_true_r.
    + by rewrite existsb_snoc, orb_false_r, Hs.
  - destruct ev as [n|id|id|id| |id u|]; cbn [step scan_item observed observe_item] in *; try done; try (by apply Hkeep; try done; apply Hu0).
    + split; [|rewrite active_set; cbn; by rewrite Hseen, orb_false_r]. eapply sim_active; try done; try (intros; by left); cbn; by apply agrees_or.
    + destruct (active_segment s) as [g|] eqn:Eg.
      * assert (active s = g) as Hg by (unfold active; by rewrite Eg).
        split; [|rewrite active_set; cbn; by rewrite Hseen, Hg, orb_false_r]. rewrite <- Hg. eapply sim_active; try done; try (intros; by left); cbn; by apply agrees_or.
      * assert (active s = segment_default) as Hg by (unfold active; by rewrite Eg). destruct id as [x|].
        -- split; [|rewrite active_set; cbn; by rewrite Hseen, Hg]. rewrite <- Hg. eapply sim_active; try done; try (intros; by left); cbn; by apply agrees_or.
        -- apply Hkeep; try done. cbn. by destruct (a_turn_id (m_active m)).
    + split; [|rewrite active_set; cbn; by rewrite Hseen, !orb_true_r]. eapply sim_active; try done; try (intros; by left); cbn. intros; by rewrite orb_true_r.
    + assert (id_agrees (match a_turn_id (m_active m) with Some x => Some x | None => Some id end) (start_ahead rest) = true) as Hag by (by apply agrees_or).
      split_ids; apply Hkeep; try done. cbn. intros Hstart. rewrite orb_true_iff. intros [Hh|Hh]; [by apply Hu0|].
      cbn in Hmark. rewrite Hh in Hmark. rewrite Hseen in Hmark. destruct Hstart as [x Hx]. rewrite Hx in Hmark. by rewrite orb_false_r in Hmark.
Qed.


(** The start of a turn ends the segments of both. *)
Lemma sim_turn_start id after rest s m :
  sim (REventMsg (TurnStarted id) :: rest) s m ->
  sim rest (step (REventMsg (TurnStarted id)) after s) (observed m (REventMsg (TurnStarted id)))
  /\ counts_as_user_turn (active (step (REventMsg (TurnStarted id)) after s)) = false.
Proof.
  intros [Hp Ht Ha Hu Hc Hf Hs Hcm Hcp Hcl]. cbn [start_ahead counts_ahead is_start] in *. rewrite orb_false_r in Hu.
  assert (turn_ids_are_compatible (a_turn_id (m_active m)) (Some id) = true) as Hma.
  { destruct (a_turn_id (m_active m)) as [x|]; [|done]. cbn in Ha |- *. apply streq_true in Ha as ->. apply streq_refl. }
  assert (forall s', pending_rollback_turns s' = 0 -> active_segment s' = None ->
    (is_Some (base_compaction s) \/ is_Some (seg_base (active s)) -> is_Some (base_compaction s')) ->
    (saw_completed_turn_context m || has_turn_context (m_active m) && (has_user_turn (m_active m) || has_full_world_state (m_active m)) = true ->
     is_Some (previous_turn_settings s') /\ never_set (reference_context s') = false) ->
    sim rest s' (context_finalize m) /\ counts_as_user_turn (active s') = false) as Hend.
  { intros s' Hp' Ha' Hb' Hc'. assert (active s' = segment_default) as Hd by (unfold active; by rewrite Ha').
    split; [|by rewrite Hd]. split; try done; rewrite ?Hd; try done.
    - intros g. by rewrite Ha'.
    - intros Hsaw. left. apply Hb'. by apply Hcp.
    - by intros []. }
  unfold observed. cbn [step scan_item observe_item]. rewrite Hma.
  destruct (active_segment s) as [g|] eqn:Eg.
  - assert (active s = g) as Hg by (unfold active; by rewrite Eg). rewrite Hg in *.
    assert (turn_ids_are_compatible (turn_id g) (Some id) = true) as ->.
    { specialize (Ht g eq_refl). destruct (turn_id g) as [x|]; [|done]. cbn in Ht |- *. apply streq_true in Ht as ->. apply streq_refl. }
    unfold finalize_active_segment. rewrite Hp. cbn [Z.ltb Z.compare]. apply Hend; [done|done| |]; cbn.
    + intros [[b ->]|[b ->]]; [done|]. by destruct (base_compaction s).
    + rewrite orb_true_iff. intros [Hold|Hnew].
      * destruct (Hcm Hold) as [[p ->] Hr]. rewrite Hr. done.
      * apply andb_true_iff in Hnew as [Hctx Huf]. destruct (Hc ltac:(eauto) Hctx) as [[p Hset] Href].
        assert (has_context_baseline g = true) as ->.
        { unfold has_context_baseline. apply orb_true_iff in Huf as [Hus|Hfu]; [by rewrite (Hu ltac:(eauto) Hus)|by rewrite (Hf Hfu), orb_true_r]. }
        rewrite Hset. cbn. split; [by destruct (previous_turn_settings s)|]. rewrite andb_true_r. by destruct (never_set (reference_context s)) eqn:En.
  - assert (active s = segment_default) as Hg by (unfold active; by rewrite Eg). rewrite Hg in Hc, Hend. apply Hend; [done|done| |].
    + intros [?|[? ?]]; done.
    + rewrite orb_true_iff. intros [Hold|Hnew]; [by apply Hcm|]. apply andb_true_iff in Hnew as [Hctx _]. by destruct (Hc ltac:(eauto) Hctx) as [[p ?] _].
Qed.

Lemma sim_step i after rest seen s m :
  well_formed seen (i :: rest) = true -> seen = counts_as_user_turn (active s) -> sim (i :: rest) s m ->
  must_scan_to_start m = false -> must_scan_to_start (observed m i) = false ->
  sim rest (step i after s) (observed m i)
  /\ (if is_start i then false else seen || counts i) = counts_as_user_turn (active (step i after s)).
Proof.
  intros Hwf Hseen Hsim Hm Hm'. destruct (is_start i) eqn:Hst; [|by apply sim_item].
  destruct i as [| | | | | | | | |ev|]; try done. destruct ev as [|id| | | | |]; try done.
  destruct (sim_turn_start id after rest s m Hsim). done.
Qed.

(** ** Reading until the scan is complete *)

Fixpoint read_list m (newest_first : list Item) : bool * context :=
  match newest_first with
  | [] => (false, m)
  | i :: older => let '(complete, m) := push is_message m i in if complete then (true, m) else read_list m older
  end.

Lemma push_items m i : items_newest_first (push is_message m i).2 = items_newest_first m ++ [i].
Proof.
  unfold push. destruct (observe is_message m i) as [c m'] eqn:E. cbn. f_equal. unfold observe in E. destruct (must_scan_to_start m); [by simplify_eq|].
  simplify_eq. unfold observe_item. destruct i as [| | | |c| | | | |ev|]; try done; [by destruct (ci_replacement_history c), (ci_window_number c)|].
  destruct ev; try done. by destruct (turn_ids_are_compatible _ _).
Qed.

(** A scan that has to read everything is never complete. *)
Lemma read_stuck m l m' : must_scan_to_start m = true -> read_list m l ≠ (true, m').
Proof.
  revert m. induction l as [|i l IH]; intros m Hm; [done|]. cbn. unfold push, observe. rewrite Hm. by apply IH.
Qed.

(** What a complete scan has collected, and what it knows. *)
Lemma read_list_complete l m l0 after s seen m' :
  well_formed seen l = true -> seen = counts_as_user_turn (active s) -> sim l s m -> must_scan_to_start m = false ->
  items_newest_first m = l0 -> read_list m l = (true, m') ->
  exists read rest, l = read ++ rest /\ items_newest_first m' = l0 ++ read /\ has_bounded_cutoff m' = true
  /\ well_formed (counts_as_user_turn (active (scanned read after s))) rest = true
  /\ sim rest (scanned read after s) m'.
Proof.
  revert m l0 after s seen. induction l as [|i l IH]; intros m l0 after s seen Hwf Hseen Hsim Hm Hl0 Hr; [done|]. cbn [read_list] in Hr.
  pose proof (push_items m i) as Hpi. unfold push, observe in Hr, Hpi. rewrite Hm in Hr, Hpi. cbn [snd items_newest_first] in Hpi. fold (observed m i) in Hr, Hpi.
  assert (must_scan_to_start (observed m i) = false) as Hmo.
  { apply not_true_iff_false. intros Hmt. assert (has_bounded_cutoff (observed m i) = false) as Hb by (unfold has_bounded_cutoff; by rewrite Hmt).
    rewrite Hb in Hr. by apply read_stuck in Hr. }
  destruct (sim_step i after l seen s m Hwf Hseen Hsim Hm Hmo) as [Hsim' Hseen'].
  cbn [well_formed] in Hwf. apply andb_true_iff in Hwf as [_ Hwf]. set (m1 := {| items_newest_first := items_newest_first (observed m i) ++ [i];
    saw_compaction := saw_compaction (observed m i); saw_completed_turn_context := saw_completed_turn_context (observed m i);
    must_scan_to_start := must_scan_to_start (observed m i); m_active := m_active (observed m i) |}) in *.
  assert (sim l (step i after s) m1) as Hsim1 by (destruct Hsim'; by split).
  destruct (has_bounded_cutoff (observed m i)) eqn:Hb.
  - simplify_eq. exists [i], l. split_and!; [done|cbn in Hpi |- *; by rewrite Hpi|exact Hb| |exact Hsim1]. cbn [scan_all]. by rewrite <- Hseen'.
  - destruct (IH m1 (l0 ++ [i]) (i :: after) (step i after s) _ Hwf Hseen' Hsim1 Hmo) as (read & rest & -> & Hit & Hcut & Hwf' & Hs'); [cbn; by rewrite <- Hl0, <- Hpi|exact Hr|].
    exists (i :: read), rest. split_and!; [done|by rewrite Hit, <- app_assoc|done|done|done].
Qed.

(** ** Older items *)

(** A segment that has its checkpoint, with older items added. *)
Record grows g g' : Prop := {
  gr_base : seg_base g' = seg_base g;
  gr_window : seg_window g' = seg_window g;
  gr_replay : exists older, seg_replay g' = seg_replay g ++ older;
}.

Lemma grows_refl g : grows g g.
Proof. split; try done. exists []. by rewrite app_nil_r. Qed.

Lemma grows_trans g g' g'' : grows g g' -> grows g' g'' -> grows g g''.
Proof. intros [? ? [a Ha]] [? ? [b Hb]]. split; [congruence..|]. exists (a ++ b). by rewrite Hb, Ha, app_assoc. Qed.

(** A scan that has found all but the checkpoint, which is in its active segment. *)
Record waiting s g : Prop := {
  w_pending : pending_rollback_turns s = 0;
  w_settings : is_Some (previous_turn_settings s);
  w_reference : never_set (reference_context s) = false;
  w_base : is_Some (seg_base g);
  w_window : is_Some (seg_window g);
}.

Lemma waiting_grows s g g' : waiting s g -> grows g g' -> waiting s g'.
Proof. intros [] [Hb Hw _]. split; rewrite ?Hb, ?Hw; done. Qed.

Lemma finalize_grows s g g' : waiting s g -> grows g g' -> extends (finalize_active_segment g s) (finalize_active_segment g' s).
Proof.
  intros [Hp [p Hs] Hr _ _] [Hb Hw [older Ho]]. unfold finalize_active_segment. rewrite Hp. cbn [Z.ltb Z.compare].
  split; cbn; rewrite ?Hb, ?Hw, ?Hs, ?Hr; try done. exists older. by rewrite Ho, app_assoc.
Qed.

Lemma finalize_settled s g : waiting s g -> settled (finalize_active_segment g s) = true /\ is_Some (window (finalize_active_segment g s)).
Proof.
  intros [Hp [p Hs] Hr [b Hb] [w Hw]]. unfold finalize_active_segment. rewrite Hp. cbn [Z.ltb Z.compare]. unfold settled. cbn. rewrite Hs, Hr, Hb, Hw. cbn. rewrite Hr.
  split; [by destruct (base_compaction s)|by destruct (window s)].
Qed.

Lemma step_waiting i after s g rest seen :
  is_start i = false -> no_rollback_ahead (i :: rest) = true -> well_formed seen (i :: rest) = true -> waiting s g ->
  id_agrees (turn_id g) (start_ahead rest) = true ->
  exists g', step i after (set_active s g) = set_active s g' /\ grows g g' /\ id_agrees (turn_id g') (start_ahead rest) = true.
Proof.
  intros Hst Hnr Hwf Hw Hid. cbn [well_formed] in Hwf. do 3 apply andb_true_iff in Hwf as [Hwf _].
  assert (forall g', grows g g' -> id_agrees (turn_id g') (start_ahead rest) = true ->
    exists g'', set_active s g' = set_active s g'' /\ grows g g'' /\ id_agrees (turn_id g'') (start_ahead rest) = true) as Hex by (intros g' ? ?; by exists g').
  destruct i as [sm|r|c|b|c|ctx|r|w|r|ev|r]; cbn [step scan_item]; try (apply Hex; [apply grows_refl|done]); try (apply Hex; [split; try done; exists []; by rewrite app_nil_r|done]).
  - apply Hex; [|done]. destruct Hw as [_ _ _ [b Hb] [w Hww]]. split; cbn; rewrite ?Hb, ?Hww; try done. by exists [Compacted c].
  - apply Hex; unfold active; cbn [active_segment set_active default from_option id].
    + unfold segment_context. split_ids; split; try done; exists []; by rewrite app_nil_r.
    + unfold segment_context. split_ids; cbn; by apply agrees_or.
  - apply Hex; [|done]. split; try done. by exists [WorldStateRecord w].
  - destruct ev as [n|id|id|id| |id u|]; cbn [scan_item active_segment set_active]; try done; try (apply Hex; [apply grows_refl|done]);
      try (apply Hex; [split; try done; exists []; by rewrite app_nil_r|cbn; by try apply agrees_or]).
Qed.

Lemma older_segment rest after s g seen :
  waiting s g -> no_rollback_ahead rest = true -> well_formed seen rest = true -> id_agrees (turn_id g) (start_ahead rest) = true ->
  extends (finalize_active_segment g s) (finish_scan (scanned rest after (set_active s g))).
Proof.
  revert after g seen. induction rest as [|i rest IH]; intros after g seen Hw Hnr Hwf Hid.
  - cbn [scan_all]. unfold finish_scan. cbn [active_segment set_active].
    change (finalize_active_segment g (set_active s g)) with (finalize_active_segment g s). apply finalize_grows; [done|apply grows_refl].
  - cbn [scan_all]. destruct (is_start i) eqn:Hst.
    + destruct i as [| | | | | | | | |ev|]; try done. destruct ev as [|id| | | | |]; try done. cbn [step scan_item active_segment set_active].
      assert (turn_ids_are_compatible (turn_id g) (Some id) = true) as ->.
      { cbn in Hid. destruct (turn_id g) as [x|]; [|done]. cbn in Hid |- *. apply streq_true in Hid as ->. apply streq_refl. }
      change (finalize_active_segment g (set_active s g)) with (finalize_active_segment g s).
      destruct (finalize_settled s g Hw) as [Hset Hwin]. pose proof (scan_all_extends is_contextual is_message parse_str get_version_num rest (REventMsg (TurnStarted id) :: after) _ Hset Hwin) as He.
      eapply extends_trans; [exact He|]. apply finish_extends; [by rewrite (extends_settled _ _ He)|by rewrite (ex_window _ _ He)].
    + rewrite start_ahead_cons in Hid by done. destruct (step_waiting i after s g rest seen Hst Hnr Hwf Hw Hid) as (g' & -> & Hgr & Hid').
      eapply extends_trans; [by apply finalize_grows|]. cbn [well_formed] in Hwf. apply andb_true_iff in Hwf as [_ Hwf].
      eapply IH; [by eapply waiting_grows|by eapply no_rollback_cons|exact Hwf|done].
Qed.

Lemma replay_older items items' rest after s m seen :
  scan_ok s -> forallb numbered rest = true -> well_formed seen rest = true -> sim rest s m ->
  saw_compaction m = true -> saw_completed_turn_context m = true ->
  rebuilt items' (finish_scan (scanned rest after s)) = rebuilt items (finish_scan s).
Proof.
  intros Hok Hn Hwf Hsim Hsc Hst. pose proof Hsim as [Hp Ht Ha Hu Hc Hf Hs Hcm Hcp Hcl]. destruct (Hcm Hst) as [Hset Href].
  assert (scan_ok (finish_scan (scanned rest after s))) as Hok' by (apply scan_finish_ok, scan_all_ok; done).
  assert (scan_ok (finish_scan s)) as Hokf by (by apply scan_finish_ok).
  destruct (base_compaction s) as [c|] eqn:Eb.
  - assert (settled s = true) as Hse by (apply settled_spec; rewrite Eb; eauto).
    assert (is_Some (window s)) as Hw by (by destruct (sk_base _ Hok c Eb) as (_ & _ & ?)).
    pose proof (scan_all_extends is_contextual is_message parse_str get_version_num rest after s Hse Hw) as He.
    rewrite (rebuild_extends parse_str get_version_num [] items' s); [|done|done|done|].
    + symmetry. apply rebuild_extends; [done|done|done|by apply finish_extends].
    + eapply extends_trans; [exact He|]. apply finish_extends; [by rewrite (extends_settled _ _ He)|by rewrite (ex_window _ _ He)].
  - destruct (Hcp Hsc) as [[? ?]|Hsb]; [done|]. unfold active in *. destruct (active_segment s) as [g|] eqn:Eg; [|by destruct Hsb].
    cbn [default from_option id] in *. destruct (sk_active _ Hok g Eg) as [_ Hgb]. destruct Hsb as [c Hsb].
    assert (waiting s g) as Hw. { destruct (Hgb c Hsb) as (_ & _ & ?). split; try done. }
    assert (finish_scan s = finalize_active_segment g s) as Hfin by (unfold finish_scan; by rewrite Eg). rewrite Hfin in *.
    assert (s = set_active s g) as Hsg by (destruct s; cbn in *; by subst). rewrite Hsg at 1.
    apply rebuild_extends; [done|by rewrite <- Hsg|by apply finalize_settled|]. eapply older_segment; [done|apply Hcl; by rewrite Hsb|done|by apply Ht].
Qed.

(** ** The items of a thread *)

Definition is_meta i : bool := match i with SessionMeta _ => true | _ => false end.

(** Up to the newest session metadata of a file. *)
Fixpoint before_meta (newest_first : list Item) : list Item :=
  match newest_first with
  | [] => []
  | i :: older => if is_meta i then [] else i :: before_meta older
  end.

(** What a file adds to the thread, and what its files add together. *)
Definition own_items (file : list Item) : list Item := reverse (before_meta (reverse file)).

Definition thread_items (files : list (list Item)) : list Item := concat (map own_items files).

Lemma read_segment_list m l : read_segment is_message m l = read_list m (before_meta l).
Proof.
  revert m. induction l as [|i l IH]; intros m; [done|]. cbn. destruct i; cbn [is_meta read_list]; try done; destruct (push _ _ _) as [[] ?]; done.
Qed.

Lemma read_list_app m l l' :
  read_list m (l ++ l') = let '(complete, m) := read_list m l in if complete then (true, m) else read_list m l'.
Proof.
  revert m. induction l as [|i l IH]; intros m; [done|]. cbn. destruct (push is_message m i) as [[] ?]; [done|]. apply IH.
Qed.

Lemma read_segments_list m files :
  read_segments is_message m files = (read_list m (concat (map (fun f => before_meta (reverse f)) files))).2.
Proof.
  revert m. induction files as [|f files IH]; intros m; [done|]. cbn. rewrite read_segment_list, read_list_app.
  destruct (read_list m (before_meta (reverse f))) as [[] m']; [done|]. apply IH.
Qed.

Lemma reverse_thread_items files :
  reverse (thread_items files) = concat (map (fun f => before_meta (reverse f)) (reverse files)).
Proof.
  unfold thread_items. induction files as [|f files IH]; [done|]. cbn [map concat]. rewrite reverse_app, IH, reverse_cons, map_app, concat_app. cbn [map concat].
  unfold own_items. by rewrite reverse_involutive, app_nil_r.
Qed.

(** A scan that is not complete has collected everything. *)
Lemma read_list_incomplete m l m' :
  has_bounded_cutoff m = false -> read_list m l = (false, m') ->
  items_newest_first m' = items_newest_first m ++ l /\ has_bounded_cutoff m' = false.
Proof.
  revert m. induction l as [|i l IH]; intros m Hb; cbn; [intros [= <-]; by rewrite app_nil_r|].
  pose proof (push_items m i) as Hi. unfold push, observe in *. destruct (must_scan_to_start m) eqn:Em.
  - intros Hr. apply IH in Hr as [-> ?]; [|done]. cbn. by rewrite <- app_assoc.
  - destruct (has_bounded_cutoff (observe_item is_message m i)) eqn:Ec; [done|]. intros Hr.
    apply IH in Hr as [-> ?]; [|done]. cbn in Hi |- *. by rewrite Hi, <- app_assoc.
Qed.

Lemma before_meta_none l : forallb (fun i => negb (is_meta i)) (before_meta l) = true.
Proof. induction l as [|i l IH]; [done|]. cbn. destruct (is_meta i) eqn:E; [done|]. cbn. by rewrite E, IH. Qed.

Lemma thread_items_none files i l : thread_items files = i :: l -> is_meta i = false.
Proof.
  intros He. assert (i ∈ reverse (thread_items files)) as Hin by (rewrite elem_of_reverse, He; by left). rewrite reverse_thread_items in Hin.
  apply list_elem_of_In, in_concat in Hin as (x & Hx & Hi). apply in_map_iff in Hx as (f & <- & _).
  pose proof (before_meta_none (reverse f)) as Hf. rewrite forallb_forall in Hf. by apply negb_true_iff, Hf.
Qed.

(** The metadata makes no difference to the reverse replay. *)
Lemma reconstruct_scanned meta l :
  forallb numbered l = true ->
  reconstruct (SessionMeta meta :: reverse l) = rebuilt (SessionMeta meta :: reverse l) (finish_scan (scanned l [] scan_start)).
Proof.
  intros Hn. unfold reconstruct_history_from_rollout, reverse_scan. rewrite reverse_cons, reverse_involutive.
  rewrite early_stop_gen; [|by rewrite forallb_app, Hn|apply scan_start_ok|done]. by rewrite scan_all_app.
Qed.

Lemma sim_start l : sim l scan_start context_scan_default.
Proof. split; try done; cbn; try (by intros ? ?); by intros []. Qed.


End Bounded.

(** * The replay of rollouts on concrete threads

    The theorems of [RolloutProps] and [RolloutBounded] at a thread of three turns, with a
    context manager that keeps the list of its items. *)
Module RolloutDemo.
Abbreviation checkpoint_t := (list (@ResponseItem unit)).
Abbreviation item_t := (@RolloutItem unit checkpoint_t unit).
Abbreviation envelope_t := (@ResponseItemEnvelope unit).

(** User messages count, and none is contextual. *)
Definition no_context (_ : list (@ContentItem unit)) : bool := false.
Definition parse_id (s : rstr) : option rstr := Some s.
Definition version (_ : rstr) : Z := 7.

Definition user_turn (e : envelope_t) : bool := is_user_turn_boundary no_context no_context (item e).

(** From the newest item: up to the user message that is dropped. *)
Fixpoint drop_turn (newest_first : list envelope_t) : list envelope_t :=
  match newest_first with [] => [] | e :: l => if user_turn e then l else drop_turn l end.

#[local] Instance list_manager : @ContextManagerOps unit checkpoint_t unit (list envelope_t) := {|
  cm_new := [];
  cm_replace_annotated l _ := l;
  cm_restore_guardian_history _ h := h;
  cm_record_annotated_item e h := h ++ [e];
  cm_record_communication _ h := h;
  cm_compact _ h := List.filter user_turn h;
  cm_drop_last_n_user_turns n h := reverse (Nat.iter (Z.to_nat n) drop_turn (reverse h));
  cm_annotated_items h := h;
  cm_guardian_history_checkpoint _ := None;
|}.

Definition message (role text : rstr) : envelope_t := envelope_new (Message None role [InputText text] None None).

Definition user (text : rstr) : item_t := RResponseItem (message (lit "user") text).
Definition reply (text : rstr) : item_t := RResponseItem (message (lit "assistant") text).
Definition context_of (id model : rstr) : item_t :=
  TurnContext {| tc_turn_id := Some id; tc_model := model; tc_model_provider_id := None; tc_comp_hash := None;
                 tc_realtime_active := None; tc_rest := tt |}.
Definition compaction (number : Z) : item_t :=
  Compacted {| ci_message := lit "summary"; ci_replacement_history := Some [message (lit "user") (lit "so far")];
               ci_guardian_history := None; ci_window_number := Some number; ci_first_window_id := Some (lit "w0");
               ci_previous_window_id := Some (lit "w0"); ci_window_id := Some (lit "w1"); ci_rest := tt |}.
Definition world (cwd : rstr) : item_t :=
  WorldStateRecord {| full := true; state := [(lit "cwd", VString cwd)] |}.
Definition completed (id : rstr) (is_user : bool) : item_t := REventMsg (ItemCompleted id is_user).

Definition t1 := (lit "t1", [context_of (lit "t1") (lit "m1"); user (lit "hello"); completed (lit "t1") true; reply (lit "hi");
                             REventMsg (TurnComplete (lit "t1"))] : list item_t).
Definition t2 := (lit "t2", [compaction 1; context_of (lit "t2") (lit "m2"); world (lit "/a"); user (lit "go on");
                             completed (lit "t2") true; reply (lit "done"); REventMsg (TurnComplete (lit "t2"))] : list item_t).
Definition t3 := (lit "t3", [context_of (lit "t3") (lit "m3"); user (lit "wrong"); reply (lit "oops");
                             REventMsg (TurnAborted (Some (lit "t3"))); REventMsg (ThreadRolledBack 1)] : list item_t).

Definition meta : SessionMetaLine := {| sm_context_window := Some (lit "w0"); sm_rest := tt |}.

Definition rebuilds (items : list item_t) :=
  reconstruct_history_from_rollout no_context no_context parse_id version items.

(** The third turn is rolled back: the context is that of the second, and the history starts at its
    compaction. *)
Lemma reconstruct_survivors_witness :
  let forward := forward_session no_context no_context parse_id version [SessionMeta meta] [t1; t2; t3] in
  rebuilds ([SessionMeta meta] ++ flat [t1; t2; t3]) = Ok forward
  /\ (left_over no_context no_context (chapters [SessionMeta meta] [t1; t2; t3])).*1 = [2; 1; 0]%nat
  /\ option_map tc_model (r_reference_context_item forward) = Some (lit "m2")
  /\ length (r_history forward) = 3%nat /\ number (r_window forward) = 1.
Proof.
  split; [|vm_compute; auto].
  apply (reconstruct_survivors no_context no_context parse_id version (lit "t0") [SessionMeta meta] [t1; t2; t3]); vm_compute; reflexivity.
Defined.

(** Two files; the second turn ends the scan, and nothing of the first is read. *)
Definition file1 : list item_t := SessionMeta meta :: flat [t1].
Definition file2 : list item_t := [SessionMeta meta] ++ flat [t2] ++ [REventMsg (TurnStarted (lit "t4")); context_of (lit "t4") (lit "m4"); user (lit "more")].

End RolloutDemo.
