(* ===== verification/GuardianHistory.v ===== *)
(** * Evidence for reviews

    Models [workx-rs/guardian-context/src/history.rs]: the history that reviewers of actions
    see, which compaction of the model's history does not touch. User messages and other
    items are kept within separate limits, the oldest of their kind dropped first; a
    generation tells readers when what they have read before is no longer a prefix.

    [serde_json] writes an item in pieces; the parameters give their lengths. *)
From S2P Require Import Prelude Width History.

Set Default Goal Selector "!".

Local Open Scope Z_scope.

Definition MAX_ITEMS_PER_KIND : Z := 128.
Definition MAX_BYTES_PER_KIND : Z := 4 * 1024 * 1024.

Section GuardianHistory.
Context {Opaque : Type} {Opaque_dec : EqDecision Opaque}.
Local Abbreviation Item := (@ResponseItem Opaque).
Local Abbreviation Meta := (option (@InternalChatMessageMetadataPassthrough Opaque)).

#[export] Instance content_item_dec : EqDecision (@ContentItem Opaque).
Proof. solve_decision. Defined.
#[export] Instance output_item_dec : EqDecision (@FunctionCallOutputContentItem Opaque).
Proof. solve_decision. Defined.
#[export] Instance output_body_dec : EqDecision (@FunctionCallOutputBody Opaque).
Proof. solve_decision. Defined.
#[export] Instance output_payload_dec : EqDecision (@FunctionCallOutputPayload Opaque).
Proof. solve_decision. Defined.
#[export] Instance passthrough_dec : EqDecision (@InternalChatMessageMetadataPassthrough Opaque).
Proof. solve_decision. Defined.
#[export] Instance response_item_dec : EqDecision Item.
Proof. solve_decision. Defined.

Definition is_user_message (i : Item) : bool :=
  match i with Message _ role _ _ _ => role =s lit "user" | _ => false end.

Definition item_id (i : Item) : option rstr :=
  match i with
  | AdditionalTools id _ _ | Message id _ _ _ _ | AgentMessage id _ _ _ _ | LocalShellCall id _ _ _ _
  | FunctionCall id _ _ _ _ _ _ | ToolSearchCall id _ _ _ _ _ | FunctionCallOutput id _ _ _ _ _
  | CustomToolCall id _ _ _ _ _ _ | CustomToolCallOutput id _ _ _ _ | ToolSearchOutput id _ _ _ _ _
  | WebSearchCall id _ _ _ | Reasoning id _ _ _ _ | ImageGenerationCall id _ _ _ _ | Compaction id _ _
  | ContextCompaction id _ _ => id
  | CompactionTrigger | Other => None
  end.

(** ** Measuring *)

Context (item_writes : Item -> list Z) (reasoning_writes : option (list Opaque) -> list Z).
Context (meta_writes : option rstr -> rstr -> option Opaque -> Meta -> list Z) (content_writes : @ContentItem Opaque -> list Z).
Context (response_item_size : Z).

(** [BoundedSize::write]. *)
Definition bounded_write (bytes len : Z) : option Z :=
  if saturating_sub MAX_BYTES_PER_KIND bytes <? len then None else Some (bytes + len).

Fixpoint to_writer (bytes : Z) (writes : list Z) : option Z :=
  match writes with
  | [] => Some bytes
  | len :: writes => bytes ← bounded_write bytes len; to_writer bytes writes
  end.

Definition measured (i : Item) : option Z :=
  bytes ← to_writer response_item_size (item_writes i);
  match i with
  | Reasoning _ _ content _ _ => to_writer bytes (reasoning_writes content)
  | _ => Some bytes
  end.

Definition is_text_content (c : @ContentItem Opaque) : bool :=
  match c with InputText _ | OutputText _ => true | _ => false end.

(** The text of a user message with images, if it is within the limit. *)
Definition text_fallback (i : Item) : option Item :=
  match i with
  | Message id role content phase meta =>
      if (role =s lit "user") && existsb is_input_image content then
        let text := List.filter is_text_content content in
        bytes ← to_writer response_item_size (meta_writes id role phase meta);
        _ ← to_writer bytes (concat (map content_writes text));
        if is_empty text then None else Some (Message id role text phase meta)
      else None
  | _ => None
  end.

(** ** [TranscriptHistory] *)

Record TranscriptHistory := { t_items : list (Item * Z); generation : Z }.

Definition transcript_new (generation : Z) : TranscriptHistory := {| t_items := []; generation := generation |}.

Definition same_kind (is_user : bool) (e : Item * Z) : bool := Bool.eqb (is_user_message e.1) is_user.

Definition over (count bytes : Z) : bool := (MAX_ITEMS_PER_KIND <=? count) || (MAX_BYTES_PER_KIND <? bytes).

(** The closure of [retain], from the oldest item. *)
Fixpoint evict (is_user : bool) (count bytes : Z) (l : list (Item * Z)) : list (Item * Z) :=
  match l with
  | [] => []
  | e :: l =>
      if same_kind is_user e && over count bytes then evict is_user (count - 1) (bytes - e.2) l
      else e :: evict is_user count bytes l
  end.

Definition tally (is_user : bool) (size : Z) (l : list (Item * Z)) : Z * Z :=
  foldl (fun '(count, bytes) e => (count + 1, bytes + e.2)) (0, size) (List.filter (same_kind is_user) l).

Definition push_measured (self : TranscriptHistory) (i : Item) (size : Z) : TranscriptHistory :=
  let is_user := is_user_message i in
  let '(count, bytes) := tally is_user size (t_items self) in
  let self :=
    if over count bytes
    then {| t_items := evict is_user count bytes (t_items self); generation := saturating_add (generation self) 1 |}
    else self in
  {| t_items := t_items self ++ [(i, size)]; generation := generation self |}.

(** [record], which calls itself for the text of a message. *)
Definition record_with (record : TranscriptHistory -> Item -> TranscriptHistory) (self : TranscriptHistory) (i : Item)
  : TranscriptHistory :=
  match measured i with
  | Some size => push_measured self i size
  | None => match text_fallback i with Some text => record self text | None => self end
  end.

(** The text has no image, so that the inner call does not call again ([record_depth]). *)
Definition record : TranscriptHistory -> Item -> TranscriptHistory := record_with (record_with (fun self _ => self)).

Definition reset (self : TranscriptHistory) (l : list Item) : TranscriptHistory :=
  foldl record {| t_items := []; generation := saturating_add (generation self) 1 |} l.

Definition same_item (boundary i : Item) : bool :=
  match item_id i, item_id boundary with
  | Some item_id, Some boundary_id => item_id =s boundary_id
  | _, _ => false
  end || bool_decide (i = boundary).

(** [position] and [truncate]; without such an item nothing is kept. *)
Fixpoint before (boundary : Item) (l : list (Item * Z)) : option (list (Item * Z)) :=
  match l with
  | [] => None
  | e :: l => if same_item boundary e.1 then Some [] else cons e <$> before boundary l
  end.

Definition truncate_before (self : TranscriptHistory) (boundary : Item) : TranscriptHistory :=
  {| t_items := default [] (before boundary (t_items self)); generation := saturating_add (generation self) 1 |}.

Definition transcript_items (self : TranscriptHistory) : list Item := map fst (t_items self).
End GuardianHistory.

(** * Properties of the evidence for reviews

    Both kinds stay within their limits ([retention_bounded]); as long as the generation
    does not change, what was read before is a prefix ([generation_guards_prefix]); and the
    bounded history only forgets: it is part of what an unbounded one would keep, so that no
    evidence of a turn that was rolled back remains ([evidence_only_forgets]). *)
Lemma sublist_Forall {A} (P : A -> Prop) a b : sublist a b -> Forall P b -> Forall P a.
Proof. induction 1 as [|x a b _ IH|x a b _ IH]; [done| |]; intros [Hx Hb]%Forall_cons; [constructor|]; auto. Qed.

Section Props.
Context {Opaque : Type} {Opaque_dec : EqDecision Opaque}.
Local Abbreviation Item := (@ResponseItem Opaque).
Local Abbreviation Meta := (option (@InternalChatMessageMetadataPassthrough Opaque)).
Local Abbreviation history := (@TranscriptHistory Opaque).
Context (item_writes : Item -> list Z) (reasoning_writes : option (list Opaque) -> list Z).
Context (meta_writes : option rstr -> rstr -> option Opaque -> Meta -> list Z) (content_writes : @ContentItem Opaque -> list Z).
Context (response_item_size : Z).
Local Abbreviation recorded := (record item_writes reasoning_writes meta_writes content_writes response_item_size).
Local Abbreviation measure := (measured item_writes reasoning_writes response_item_size).
Local Abbreviation fallback := (text_fallback meta_writes content_writes response_item_size).
Local Abbreviation restart := (reset item_writes reasoning_writes meta_writes content_writes response_item_size).

Implicit Types (i : Item) (h : history) (l : list (Item * Z)) (log : list Item).

(** ** Operations *)

Inductive Op :=
| ORecord (i : Item)
| OReset (items : list Item)
| OTruncate (boundary : Item).

Definition apply h (op : Op) : history :=
  match op with
  | ORecord i => recorded h i
  | OReset items => restart h items
  | OTruncate boundary => truncate_before h boundary
  end.

Definition run (ops : list Op) h : history := foldl apply h ops.

(** The inner call of [record] never calls again. *)
Lemma fallback_text i i' : fallback i = Some i' -> fallback i' = None.
Proof.
  destruct i as [|id role content phase meta| | | | | | | | | | | | | | |]; try done. cbn.
  destruct (_ && _) eqn:E; [|done]. destruct (to_writer _ _) as [n|]; [|done]. cbn. destruct (to_writer n _); [|done]. cbn.
  destruct (is_empty _); [done|]. intros [= <-]. cbn.
  assert (existsb is_input_image (List.filter is_text_content content) = false) as ->; [|by rewrite andb_false_r].
  apply not_true_is_false. rewrite existsb_exists. intros (c & Hc & Hi). apply filter_In in Hc as [_ Hc]. by destruct c.
Qed.

Lemma record_depth f h i :
  recorded h i = record_with item_writes reasoning_writes meta_writes content_writes response_item_size
    (record_with item_writes reasoning_writes meta_writes content_writes response_item_size f) h i.
Proof.
  unfold record, record_with at 1 3. destruct (measure i); [done|]. destruct (fallback i) as [i'|] eqn:E; [|done].
  unfold record_with. rewrite (fallback_text i i' E). done.
Qed.

(** What is kept of an item. *)
Definition evidence i : option Item :=
  match measure i with
  | Some _ => Some i
  | None => i' ← fallback i; match measure i' with Some _ => Some i' | None => None end
  end.

Lemma record_evidence h i :
  recorded h i = match evidence i with Some i' => match measure i' with Some n => push_measured h i' n | None => h end | None => h end.
Proof.
  unfold record, evidence, record_with. destruct (measure i) as [n|] eqn:E; [by rewrite E|]. destruct (fallback i) as [i'|]; [|done]. cbn.
  destruct (measure i') as [n|] eqn:E'; [by rewrite E'|]. by destruct (fallback i').
Qed.

(** An induction for what every operation keeps. *)
Lemma apply_ind (P : history -> history -> Prop) :
  (forall h, P h h) -> (forall h1 h2 h3, P h1 h2 -> P h2 h3 -> P h1 h3) ->
  (forall h i n, measure i = Some n -> P h (push_measured h i n)) ->
  (forall h l, sublist l (t_items h) -> P h {| t_items := l; generation := saturating_add (generation h) 1 |}) ->
  forall h op, P h (apply h op).
Proof.
  intros Hr Ht Hpush Hcut. assert (forall h i, P h (recorded h i)) as Hrec.
  { intros h i. rewrite record_evidence. destruct (evidence i) as [i'|]; [|done]. destruct (measure i') as [n|] eqn:E; [by apply Hpush|done]. }
  intros h [i|items|b]; cbn; [done| |].
  - unfold reset. apply (Ht _ {| t_items := []; generation := saturating_add (generation h) 1 |}); [apply Hcut, sublist_nil_l|].
    generalize {| t_items := @nil (Item * Z); generation := saturating_add (generation h) 1 |}. induction items as [|i items IH]; intros h'; [apply Hr|].
    cbn. by eapply Ht; [apply Hrec|].
  - apply Hcut. generalize (t_items h). clear. intros l. induction l as [|e l IH]; cbn; [done|]. destruct (same_item b e.1); cbn; [apply sublist_nil_l|].
    destruct (before b l); cbn in *; [by apply sublist_skip|apply sublist_nil_l].
Qed.

(** ** Eviction *)

Definition kind (u : bool) l : list (Item * Z) := List.filter (same_kind u) l.

Definition total l : Z := foldr (fun e n => e.2 + n) 0 l.

Lemma tally_spec u size l : tally u size l = (Z.of_nat (length (kind u l)), size + total (kind u l)).
Proof.
  unfold tally. fold (kind u l). generalize (kind u l). clear. intros l.
  assert (forall c n, foldl (fun '(count, bytes) (e : Item * Z) => (count + 1, bytes + e.2)) (c, n) l = (c + Z.of_nat (length l), n + total l)) as Hf.
  { induction l as [|e l IH]; intros c n; cbn [foldl length total foldr]; [f_equal; cbn; lia|]. rewrite IH. unfold total. cbn [foldr]. f_equal; lia. }
  rewrite Hf. f_equal; lia.
Qed.

Lemma evict_under u c n l : over c n = false -> evict u c n l = l.
Proof. intros Ho. induction l as [|e l IH]; cbn; [done|]. by rewrite Ho, andb_false_r, IH. Qed.

Lemma evict_sublist u c n l : sublist (evict u c n l) l.
Proof.
  revert c n. induction l as [|e l IH]; intros c n; cbn; [done|]. destruct (_ && _); [by apply sublist_cons|by apply sublist_skip].
Qed.

Lemma total_cons e l : total (e :: l) = e.2 + total l.
Proof. done. Qed.

Lemma evict_spec u c n l :
  exists k, (k <= length (kind u l))%nat /\ kind u (evict u c n l) = drop k (kind u l)
  /\ kind (negb u) (evict u c n l) = kind (negb u) l
  /\ (k = length (kind u l) \/ over (c - Z.of_nat k) (n - total (take k (kind u l))) = false).
Proof.
  destruct (over c n) eqn:Ho.
  2:{ exists 0%nat. rewrite evict_under by done. split_and!; [lia|done|done|right; cbn; by rewrite !Z.sub_0_r]. }
  revert c n Ho. induction l as [|e l IH]; intros c n Ho; [exists 0%nat; split_and!; [done..|by left]|]. cbn [evict].
  destruct (same_kind u e) eqn:Eu; rewrite Ho; cbn [andb].
  - assert (same_kind (negb u) e = false) as Eu' by (unfold same_kind in *; by destruct (is_user_message e.1), u).
    assert (kind u (e :: l) = e :: kind u l) as -> by (unfold kind; cbn; by rewrite Eu).
    assert (kind (negb u) (e :: l) = kind (negb u) l) as -> by (unfold kind; cbn; by rewrite Eu').
    destruct (over (c - 1) (n - e.2)) eqn:Ho'.
    + destruct (IH _ _ Ho') as (k & Hk & Hd & Hn & Hc). exists (S k). cbn [length drop take]. rewrite total_cons. split_and!; [lia|done|done|].
      destruct Hc as [->|Hc]; [by left|right]. rewrite <- Hc. f_equal; lia.
    + exists 1%nat. rewrite evict_under by done. cbn [length drop take]. rewrite total_cons. split_and!; [lia|done|done|right]. rewrite <- Ho'. rewrite take_0. change (total []) with 0. f_equal; lia.
  - destruct (IH _ _ Ho) as (k & Hk & Hd & Hn & Hc). exists k. unfold kind in *. cbn [List.filter]. rewrite Eu, Hn.
    split_and!; done.
Qed.
(** ** Limits *)

Record bounded h : Prop := {
  bd_sizes : Forall (fun e => 0 <= e.2) (t_items h);
  bd_count u : Z.of_nat (length (kind u (t_items h))) <= MAX_ITEMS_PER_KIND;
  bd_bytes u : total (kind u (t_items h)) <= MAX_BYTES_PER_KIND;
}.

Context (Hsize : 0 <= response_item_size <= MAX_BYTES_PER_KIND).
Context (Hitem : forall i, Forall (fun n => 0 <= n) (item_writes i)) (Hreasoning : forall c, Forall (fun n => 0 <= n) (reasoning_writes c)).

Lemma to_writer_bound bytes writes n :
  0 <= bytes <= MAX_BYTES_PER_KIND -> Forall (fun n => 0 <= n) writes -> to_writer bytes writes = Some n -> 0 <= n <= MAX_BYTES_PER_KIND.
Proof.
  intros Hb Hw. revert bytes Hb. induction Hw as [|w writes Hw0 _ IH]; intros bytes Hb; cbn; [by intros [= <-]|]. unfold bounded_write, saturating_sub.
  destruct (Z.ltb_spec (Z.max (MAX_BYTES_PER_KIND - bytes) 0) w); [done|]. cbn. apply IH. lia.
Qed.

Lemma measured_bound i n : measure i = Some n -> 0 <= n <= MAX_BYTES_PER_KIND.
Proof using Hsize Hitem Hreasoning.
  unfold measured. destruct (to_writer response_item_size (item_writes i)) as [b|] eqn:E; [|done]. cbn. apply to_writer_bound in E; [|done|done].
  destruct i; try (by intros [= <-]). by apply to_writer_bound.
Qed.

Lemma kind_total_app a b : total (a ++ b) = total a + total b.
Proof. induction a as [|e a IH]; cbn [app]; [done|]. rewrite !total_cons, IH. lia. Qed.

Lemma kind_total_nonneg l : Forall (fun e => 0 <= e.2) l -> 0 <= total l.
Proof. induction 1 as [|e l He _ IH]; [done|]. rewrite total_cons. lia. Qed.

Lemma kind_Forall (P : Item * Z -> Prop) u l : Forall P l -> Forall P (kind u l).
Proof. intros Hl. apply Forall_forall. intros e He. apply list_elem_of_In, filter_In in He as [He _]. apply list_elem_of_In in He. by apply (proj1 (Forall_forall _ _) Hl). Qed.

Lemma kind_snoc u l e : kind u (l ++ [e]) = kind u l ++ (if same_kind u e then [e] else []).
Proof. unfold kind. rewrite List.filter_app. cbn. by destruct (same_kind u e). Qed.

Lemma sublist_bounded l h g : bounded h -> sublist l (t_items h) -> bounded {| t_items := l; generation := g |}.
Proof.
  intros [Hs Hc Hb] Hl. assert (Forall (fun e => 0 <= e.2) l) as Hs' by (by eapply sublist_Forall).
  assert (forall u, (length (kind u l) <= length (kind u (t_items h)))%nat /\ total (kind u l) <= total (kind u (t_items h))) as Hk.
  { intros u. clear Hc Hb Hs'. induction Hl as [|e l l' Hl IH|e l l' Hl IH]; [done| |]; apply Forall_cons in Hs as [He Hs]; destruct (IH Hs) as [IH1 IH2];
      unfold kind in *; cbn [List.filter]; destruct (same_kind u e); cbn [length]; rewrite ?total_cons; lia. }
  split; cbn [t_items]; [done| |]; intros u; destruct (Hk u); [specialize (Hc u)|specialize (Hb u)]; lia.
Qed.

Lemma push_bounded h i n : 0 <= n <= MAX_BYTES_PER_KIND -> bounded h -> bounded (push_measured h i n).
Proof.
  intros Hn Hh. unfold push_measured. set (u := is_user_message i). rewrite tally_spec. set (c := Z.of_nat _). set (b := n + _).
  assert (same_kind u (i, n) = true /\ same_kind (negb u) (i, n) = false) as [Eu Eu'] by (unfold same_kind, u; cbn; by destruct (is_user_message i)).
  assert (exists l, (if over c b then {| t_items := evict u c b (t_items h); generation := saturating_add (generation h) 1 |} else h).(t_items) = l
    /\ sublist l (t_items h) /\ Z.of_nat (length (kind u l)) + 1 <= MAX_ITEMS_PER_KIND /\ total (kind u l) + n <= MAX_BYTES_PER_KIND) as (l & -> & Hl & Hc & Hb).
  - destruct (evict_spec u c b (t_items h)) as (k & Hk & Hd & _ & Hcase). exists (evict u c b (t_items h)).
    split; [destruct (over c b) eqn:Eo; [done|by rewrite evict_under]|]. split; [apply evict_sublist|]. rewrite Hd.
    pose proof (kind_total_app (take k (kind u (t_items h))) (drop k (kind u (t_items h)))) as Ht. rewrite take_drop in Ht. rewrite length_drop.
    destruct Hcase as [Hk'|Ho].
    + rewrite (drop_ge (kind u (t_items h)) k) by lia. cbn. unfold MAX_ITEMS_PER_KIND. lia.
    + unfold over in Ho. apply orb_false_iff in Ho as [H1 H2]. subst c b. lia.
  - pose proof (sublist_bounded l h 0 Hh Hl) as [Hs' Hc' Hb']. cbn [t_items] in *. split; cbn [t_items].
    + apply Forall_app. split; [done|]. constructor; [cbn; lia|constructor].
    + intros v. rewrite kind_snoc, length_app. specialize (Hc' v). destruct (decide (v = u)) as [->|Hv].
      * rewrite Eu. cbn. lia.
      * assert (v = negb u) as -> by (by destruct v, u). rewrite Eu'. cbn. lia.
    + intros v. rewrite kind_snoc, kind_total_app. specialize (Hb' v). destruct (decide (v = u)) as [->|Hv].
      * rewrite Eu, total_cons. change (total []) with 0. cbn [snd]. lia.
      * assert (v = negb u) as -> by (by destruct v, u). rewrite Eu'. change (total []) with 0. lia.
Qed.

Lemma run_ind (P : history -> history -> Prop) ops h :
  (forall h, P h h) -> (forall h1 h2 h3, P h1 h2 -> P h2 h3 -> P h1 h3) -> (forall h op, P h (apply h op)) -> P h (run ops h).
Proof. intros Hr Ht Ha. revert h. induction ops as [|op ops IH]; intros h; [apply Hr|]. cbn. by eapply Ht; [apply Ha|apply IH]. Qed.
(** However the host records, resets and rolls back, the history holds at most 128 user
    messages and at most 128 other items, each kind with at most 4 MiB, counting every item
    with its size in memory and its encoding; recording an item of one kind never removes an
    item of the other, and of its own kind the newest stay. *)
Theorem retention_bounded ops g :
  bounded (run ops (transcript_new g))
  /\ (forall h i n, bounded h -> measure i = Some n ->
      let u := is_user_message i in
      kind (negb u) (t_items (recorded h i)) = kind (negb u) (t_items h)
      /\ exists k, kind u (t_items (recorded h i)) = drop k (kind u (t_items h)) ++ [(i, n)]).
Proof using Hsize Hitem Hreasoning.
  split.
  - apply (run_ind (fun h h' => bounded h -> bounded h') ops (transcript_new g)); [done|auto| |by split; [constructor|intros; unfold MAX_ITEMS_PER_KIND; cbn; lia|]].
    intros h op. apply (apply_ind (fun h h' => bounded h -> bounded h')); [done|auto| |].
    + intros h' i n Hm. apply push_bounded. by apply measured_bound in Hm.
    + intros h' l Hl Hh. by apply (sublist_bounded l h').
  - intros h i n _ Hm u. rewrite record_evidence. unfold evidence. rewrite Hm, Hm. unfold push_measured. fold u. rewrite tally_spec.
    set (c := Z.of_nat _). set (b := n + _). destruct (evict_spec u c b (t_items h)) as (k & _ & Hd & Hn & _).
    assert (same_kind u (i, n) = true /\ same_kind (negb u) (i, n) = false) as [Eu Eu'] by (unfold same_kind, u; cbn; by destruct (is_user_message i)).
    destruct (over c b) eqn:Eo; cbn [t_items]; rewrite !kind_snoc, Eu, Eu', app_nil_r.
    + split; [done|]. exists k. by rewrite Hd.
    + split; [done|]. exists 0%nat. done.
Qed.

(** ** Generations *)

Definition grown h h' : Prop :=
  generation h <= generation h' <= USIZE_MAX
  /\ (generation h' = generation h -> generation h < USIZE_MAX -> t_items h `prefix_of` t_items h').

(** Readers may keep an offset into the history as long as the generation stays the same:
    whatever is recorded, reset or rolled back in between, the generation never decreases,
    and if it is the same as before (and not the greatest of its 64 bits), all items from
    before are still there in front, so that what follows them is new. *)
Theorem generation_guards_prefix ops h :
  0 <= generation h <= USIZE_MAX ->
  let h' := run ops h in
  generation h <= generation h' <= USIZE_MAX
  /\ (generation h' = generation h -> generation h < USIZE_MAX -> t_items h `prefix_of` t_items h').
Proof.
  intros Hg h'. subst h'. apply (run_ind (fun h h' => 0 <= generation h <= USIZE_MAX -> grown h h') ops h); [|intros h1 h2 h3 H12 H23 H1| |done].
  - intros h0 ?. split; [lia|by intros].
  - destruct (H12 H1) as [? P1]. destruct (H23 ltac:(lia)) as [? P2]. split; [lia|]. intros He Hl. etrans; [apply P1|apply P2]; lia.
  - clear h Hg ops. intros h op. apply (apply_ind (fun h h' => 0 <= generation h <= USIZE_MAX -> grown h h')).
    + intros h0 ?. split; [lia|by intros].
    + intros h1 h2 h3 H12 H23 H1. destruct (H12 H1) as [? P1]. destruct (H23 ltac:(lia)) as [? P2]. split; [lia|]. intros He Hl. etrans; [apply P1|apply P2]; lia.
    + intros h0 i n _ Hg. unfold push_measured. destruct (tally _ _ _) as [c b]. destruct (over c b); cbn; unfold grown, saturating_add; cbn.
      * split; [lia|]. lia.
      * split; [lia|]. intros _ _. by exists [(i, n)].
    + intros h0 l _ Hg. unfold grown, saturating_add. cbn. split; lia.
Qed.

(** ** An unbounded history *)

Fixpoint log_before boundary log : option (list Item) :=
  match log with [] => None | i :: log => if same_item boundary i then Some [] else cons i <$> log_before boundary log end.

Definition log_record log i : list Item := log ++ from_option (fun i => [i]) [] (evidence i).

Definition log_apply log (op : Op) : list Item :=
  match op with
  | ORecord i => log_record log i
  | OReset items => foldl log_record [] items
  | OTruncate boundary => default [] (log_before boundary log)
  end.

(** No rollback goes to an item that could be taken for another one. *)
Fixpoint unambiguous (ops : list Op) log : bool :=
  match ops with
  | [] => true
  | op :: ops =>
      match op with OTruncate b => (length (List.filter (same_item b) log) <=? 1)%nat | _ => true end
      && unambiguous ops (log_apply log op)
  end.

Lemma record_log h log i : sublist (transcript_items h) log -> sublist (transcript_items (recorded h i)) (log_record log i).
Proof.
  intros Hs. rewrite record_evidence. unfold log_record. destruct (evidence i) as [i'|]; cbn [from_option]; [|by rewrite app_nil_r].
  destruct (measure i') as [n|]; [|by apply sublist_inserts_r]. unfold push_measured, transcript_items. destruct (tally _ _ _) as [c b].
  cbn [t_items]. rewrite map_app. apply sublist_app; [|done]. etrans; [|exact Hs]. unfold transcript_items. destruct (over c b); cbn [t_items]; [|done].
  assert (forall l l', sublist l l' -> sublist (map fst l) (map (@fst Item Z) l')) as Hmap by (induction 1; cbn; by constructor).
  apply Hmap, evict_sublist.
Qed.

Lemma no_match_before b l log : List.filter (same_item b) log = [] -> sublist (map fst l) log -> before b l = None.
Proof.
  intros Hf Hs. assert (Forall (fun i => same_item b i = false) (map fst l)) as Hl.
  { eapply sublist_Forall; [exact Hs|]. apply Forall_forall. intros i Hi. apply not_true_is_false. intros Hm.
    apply (in_nil (A := Item) (a := i)). rewrite <- Hf. apply filter_In. split; [by apply list_elem_of_In|done]. }
  clear Hf Hs. induction l as [|e l IH]; [done|]. cbn in *. apply Forall_cons in Hl as [-> Hl]. by rewrite IH.
Qed.

Lemma log_before_none b log : log_before b log = None -> List.filter (same_item b) log = [].
Proof. induction log as [|i log IH]; cbn; [done|]. destruct (same_item b i); [done|]. destruct (log_before b log); [done|auto]. Qed.

Lemma truncate_log b l log :
  (length (List.filter (same_item b) log) <= 1)%nat -> sublist (map fst l) log ->
  sublist (map fst (default [] (before b l))) (default [] (log_before b log)).
Proof.
  intros Hone Hs. remember (map fst l) as m eqn:Em. induction Hs as [|x m log Hs IH|x m log Hs IH] in l, Em, Hone |- *.
  - by destruct l.
  - destruct l as [|e l]; [done|]. cbn in Em. injection Em as -> ->. cbn in Hone |- *. destruct (same_item b e.1); cbn; [done|].
    specialize (IH l Hone eq_refl). destruct (log_before b log) eqn:Eb; cbn in *.
    + destruct (before b l); cbn in *; [by apply sublist_skip|apply sublist_nil_l].
    + by rewrite (no_match_before b l log (log_before_none b log Eb) Hs).
  - cbn in Hone |- *. destruct (same_item b x) eqn:Ex; cbn.
    + cbn in Hone. rewrite (no_match_before b l log); [done| |by rewrite <- Em]. apply length_zero_iff_nil. lia.
    + specialize (IH l Hone Em). destruct (log_before b log); cbn in *; [by apply sublist_cons|done].
Qed.

(** C32. Limits make the history forget, and nothing else: its items are, in order, items
    that a history without limits would hold after the same operations. In particular, where
    the item a rollback goes back to can not be mistaken for another, nothing that was
    recorded at or after it is left, whatever the limits removed before. *)
Theorem evidence_only_forgets ops g :
  unambiguous ops [] = true -> sublist (transcript_items (run ops (transcript_new g))) (foldl log_apply [] ops).
Proof.
  assert (forall h log, sublist (transcript_items h) log -> unambiguous ops log = true -> sublist (transcript_items (run ops h)) (foldl log_apply log ops)) as Hgen;
    [|by apply Hgen].
  induction ops as [|op ops IH]; intros h log Hs Hu; [done|]. cbn in Hu |- *. apply andb_true_iff in Hu as [Ho Hu]. apply IH; [|done].
  destruct op as [i|items|b]; cbn in *.
  - by apply record_log.
  - unfold reset.
    assert (forall h0 log0, sublist (transcript_items h0) log0 -> sublist (transcript_items (foldl recorded h0 items)) (foldl log_record log0 items)) as Hf.
    { clear Hu. induction items as [|i items IHi]; intros h0 log0 H0; [done|]. cbn. by apply IHi, record_log. }
    by apply Hf.
  - apply truncate_log; [by apply Nat.leb_le|done].
Qed.

End Props.
