(* ===== verification/ContextManager.v ===== *)
(** * The history of a session: recording, compaction and rollback

    Models the operations of [workx-rs/core/src/context_manager/history.rs] that change the
    history ([History] has the normalisation before a prompt), the texts by which
    [event_mapping.rs] recognises context, and the legacy compaction of [compact.rs].
    [is_contextual_user_fragment] and [InterAgentCommunication::is_message_content] look into
    texts with markers and JSON and are parameters, as are the token estimate of audio and
    the text of a user message ([parse_turn_item]). The products with [f64] numbers are
    written out on integers. *)
From S2P Require Import Prelude Width History Truncation WorldState Rollout GuardianHistory.

Set Default Goal Selector "!".

Local Open Scope Z_scope.

(** ** [TruncationPolicy * 1.2] *)

(** A positive [f64]: [m * 2 ^ e]; an integer is rounded to 53 bits, half to even. *)
Definition round_f64 (m e : Z) : Z * Z :=
  let d := Z.max 0 (Z.log2 m - 52) in
  let q := Z.shiftr m d in
  let r := Z.land m (Z.ones d) in
  let up := (2 ^ d <? 2 * r) || (2 ^ d =? 2 * r) && (0 <? d) && Z.odd q in
  (if up then q + 1 else q, e + d).

Definition mul_f64 (a b : Z * Z) : Z * Z := round_f64 (a.1 * b.1) (a.2 + b.2).

(** [ceil() as usize]. *)
Definition ceil_usize (a : Z * Z) : Z :=
  Z.min (if 0 <=? a.2 then a.1 * 2 ^ a.2 else - ((- a.1) / 2 ^ (- a.2))) USIZE_MAX.

(** The [f64] nearest to 1.2. *)
Definition F64_1_2 : Z * Z := (5404319552844595, -52).

Definition scale (n : Z) (multiplier : Z * Z) : Z := ceil_usize (mul_f64 (round_f64 n 0) multiplier).

Definition mul_policy (policy : TruncationPolicy) (multiplier : Z * Z) : TruncationPolicy :=
  match policy with
  | Bytes bytes => Bytes (scale bytes multiplier)
  | Tokens tokens => Tokens (scale tokens multiplier)
  end.

(** ** Recognising context *)

(** The comparisons of [str::get] with an ASCII text, which ignore case. *)
Definition starts_ignoring_case (marker s : rstr) : bool := starts_with (to_ascii_lowercase marker) (to_ascii_lowercase s).
Definition ends_ignoring_case (marker s : rstr) : bool := ends_with (to_ascii_lowercase marker) (to_ascii_lowercase s).

Definition matches_marked_text (start_marker end_marker text : rstr) : bool :=
  if is_empty start_marker || is_empty end_marker then false
  else
    let trimmed := trim_start text in
    starts_ignoring_case start_marker trimmed && ends_ignoring_case end_marker (trim_end trimmed).

Definition is_model_switch (text : rstr) : bool := matches_marked_text (lit "<model_switch>") (lit "</model_switch>") text.
Definition is_persistent_mode (text : rstr) : bool := matches_marked_text (lit "<persistent_mode>") (lit "</persistent_mode>") text.

Definition CONTEXTUAL_DEVELOPER_PREFIXES : list rstr := [
  lit "<permissions instructions>"; lit "Approved command prefix saved:"; lit "<model_switch>";
  lit "<managed_developer_instructions>"; lit "<persistent_mode>"; lit "<apps_instructions>"; lit "<collaboration_mode>";
  lit "<multi_agent_role>"; lit "<multi_agent_mode>"; lit "<environments_instructions>"; lit "<git_attribution>";
  lit "<plugins_instructions>"; lit "<realtime_conversation>"; lit "<skills_instructions>"; lit "<tools>";
  lit "<personality_spec>"; lit "<token_budget>"; lit "<context_window>"; lit "<context_window_guidance>"; lit "<rollout_budget>"].

Section ContextManager.
Context {Opaque : Type} {Opaque_dec : EqDecision Opaque}.
Local Abbreviation Item := (@ResponseItem Opaque).
Local Abbreviation Envelope := (@ResponseItemEnvelope Opaque).
Local Abbreviation Content := (@ContentItem Opaque).
Local Abbreviation Meta := (option (@InternalChatMessageMetadataPassthrough Opaque)).

Definition is_contextual_dev_fragment (c : Content) : bool :=
  match c with
  | InputText text => existsb (fun prefix => starts_ignoring_case prefix (trim_start text)) CONTEXTUAL_DEVELOPER_PREFIXES
  | _ => false
  end.

Definition is_contextual_dev_message_content (message : list Content) : bool := existsb is_contextual_dev_fragment message.

Definition has_non_contextual_dev_message_content (message : list Content) : bool :=
  existsb (fun c => negb (is_contextual_dev_fragment c)) message.

Context (is_contextual_user_fragment : Content -> bool) (is_message_content : list Content -> bool).

Definition is_contextual_user_message_content (message : list Content) : bool := existsb is_contextual_user_fragment message.

Definition contextual_user (i : Item) : bool :=
  match i with
  | Message _ role content _ _ => (role =s lit "user") && is_contextual_user_message_content content
  | _ => false
  end.

Definition authorizing_kind (kind : rstr) : bool :=
  starts_with (lit "user.") kind || is_empty kind || (kind =s lit "unknown") || (kind =s lit "images.preparation_error")
  || (kind =s lit "images.unsupported") || (kind =s lit "audio.unsupported").

Definition is_user_authorization_message (i : Item) : bool :=
  match i with
  | Message _ role content _ meta =>
      (role =s lit "user")
      && match meta ≫= content_item_kinds with
         | None => true
         | Some kinds => is_empty kinds || negb (length kinds =? length content)%nat || existsb authorizing_kind kinds
         end
  | _ => false
  end.

Definition is_api_message (i : Item) : bool :=
  match i with
  | Message _ role _ _ _ => negb (role =s lit "system")
  | CompactionTrigger | Other => false
  | _ => true
  end.

Definition item_metadata (i : Item) : Meta :=
  match i with
  | Message _ _ _ _ m | AgentMessage _ _ _ _ m | Reasoning _ _ _ _ m | LocalShellCall _ _ _ _ m
  | FunctionCall _ _ _ _ _ _ m | ToolSearchCall _ _ _ _ _ m | FunctionCallOutput _ _ _ _ _ m
  | CustomToolCall _ _ _ _ _ _ m | CustomToolCallOutput _ _ _ _ m | ToolSearchOutput _ _ _ _ _ m
  | WebSearchCall _ _ _ m | ImageGenerationCall _ _ _ _ m | Compaction _ _ m | ContextCompaction _ _ m => m
  | CompactionTrigger | AdditionalTools _ _ _ | Other => None
  end.

Definition item_turn_id (i : Item) : option rstr :=
  id ← item_metadata i ≫= History.turn_id; if is_empty id then None else Some id.

(** ** The state *)

Context (item_writes : Item -> list Z) (reasoning_writes : option (list Opaque) -> list Z).
Context (meta_writes : option rstr -> rstr -> option Opaque -> Meta -> list Z) (content_writes : Content -> list Z).
Context (response_item_size : Z) (estimate_audio_token_count : rstr -> Z).
Context {TokenInfo : Type}.

Local Abbreviation manager := (@ContextManager Opaque (@TranscriptHistory Opaque) TokenInfo (@TurnContextItem Opaque) WorldStateSnapshot).
Local Abbreviation review_record := (record item_writes reasoning_writes meta_writes content_writes response_item_size).
Local Abbreviation review_reset := (reset item_writes reasoning_writes meta_writes content_writes response_item_size).

Definition manager_new : manager :=
  {| items := []; review_history := None; history_version := 0; user_message_revision := 0; token_info := None;
     reference_context_item := None; world_state_baseline := None |}.

Definition set_review (self : manager) (review : option TranscriptHistory) : manager :=
  {| items := items self; review_history := review; history_version := history_version self;
     user_message_revision := user_message_revision self; token_info := token_info self;
     reference_context_item := reference_context_item self; world_state_baseline := world_state_baseline self |}.

Definition set_reference (self : manager) (reference : option TurnContextItem) : manager :=
  {| items := items self; review_history := review_history self; history_version := history_version self;
     user_message_revision := user_message_revision self; token_info := token_info self;
     reference_context_item := reference; world_state_baseline := world_state_baseline self |}.

(** ** Evidence *)

Definition review_items (self : manager) : list Item :=
  match review_history self with
  | Some history => transcript_items history
  | None => List.filter (fun i => negb (contextual_user i)) (map item (items self))
  end.

Definition review_history_version (self : manager) : Z :=
  match review_history self with Some history => generation history | None => history_version self end.

Definition guardian_history_checkpoint (self : manager) : option (list Item) := transcript_items <$> review_history self.

Definition restore_guardian_history (self : manager) (checkpoint : option (list Item)) : manager :=
  let generation := saturating_add (review_history_version self) 1 in
  set_review self ((fun l => review_reset (transcript_new generation) l) <$> checkpoint).

(** ** Recording *)

Definition item_policy (policy : TruncationPolicy) (metadata : option WorkxHarnessMetadata) : TruncationPolicy :=
  match metadata ≫= fallback_token_limit_override with
  | Some n => Tokens (Z.of_nat n)
  | None => mul_policy policy F64_1_2
  end.

Definition process_item (policy : TruncationPolicy) (i : Item) (metadata : option WorkxHarnessMetadata) : res Empty_set Item :=
  match i with
  | FunctionCallOutput id call_id name namespace output meta =>
      output ← truncate_function_output_payload estimate_audio_token_count output (item_policy policy metadata);
      Ok (FunctionCallOutput id call_id name namespace output meta)
  | CustomToolCallOutput id call_id name output meta =>
      output ← truncate_function_output_payload estimate_audio_token_count output (item_policy policy metadata);
      Ok (CustomToolCallOutput id call_id name output meta)
  | _ => Ok i
  end.

Definition push_processed (self : manager) (i processed : Item) (metadata : option WorkxHarnessMetadata) : manager :=
  {| items := items self ++ [{| item := processed; metadata := metadata |}];
     review_history :=
       (fun history => if contextual_user i then history else review_record history processed) <$> review_history self;
     history_version := history_version self;
     user_message_revision :=
       if is_user_authorization_message i then saturating_add (user_message_revision self) 1 else user_message_revision self;
     token_info := token_info self; reference_context_item := reference_context_item self;
     world_state_baseline := world_state_baseline self |}.

Definition record_item (policy : TruncationPolicy) (self : manager) (e : Item * option WorkxHarnessMetadata) : res Empty_set manager :=
  if negb (is_api_message e.1) then Ok self
  else processed ← process_item policy e.1 e.2; Ok (push_processed self e.1 processed e.2).

Definition record_items_with_metadata (self : manager) (l : list (Item * option WorkxHarnessMetadata)) (policy : TruncationPolicy)
  : res Empty_set manager := fold_res (record_item policy) self l.

Definition record_items (self : manager) (l : list Item) (policy : TruncationPolicy) : res Empty_set manager :=
  record_items_with_metadata self (map (fun i => (i, None)) l) policy.

Definition record_annotated_items (self : manager) (l : list Envelope) (policy : TruncationPolicy) : res Empty_set manager :=
  record_items_with_metadata self (map (fun e => (item e, metadata e)) l) policy.

(** ** Replacing *)

Definition replace_annotated (self : manager) (l : list Envelope) : manager :=
  {| items := l;
     review_history :=
       (fun history => review_reset history (List.filter (fun i => negb (contextual_user i)) (map item l))) <$> review_history self;
     history_version := saturating_add (history_version self) 1;
     user_message_revision := saturating_add (user_message_revision self) 1;
     token_info := token_info self; reference_context_item := reference_context_item self; world_state_baseline := None |}.

Definition replace_compacted (self : manager) (l : list Envelope) : manager :=
  {| items := l;
     review_history :=
       match review_history self with
       | Some history => Some history
       | None =>
           Some (foldl review_record (transcript_new (saturating_add (history_version self) 1))
                   (List.filter (fun i => negb (contextual_user i)) (map item (items self))))
       end;
     history_version := saturating_add (history_version self) 1;
     user_message_revision := user_message_revision self;
     token_info := token_info self; reference_context_item := reference_context_item self; world_state_baseline := None |}.

(** ** Rollback *)

Definition turn_boundary (e : Envelope) : bool :=
  is_user_turn_boundary is_contextual_user_message_content is_message_content (item e).

Fixpoint user_message_positions (idx : nat) (l : list Envelope) : list nat :=
  match l with
  | [] => []
  | e :: l => (if turn_boundary e then [idx] else []) ++ user_message_positions (S idx) l
  end.

(** What an item above the cut is: context of the turn that is dropped, with the reference
    to be cleared or not, or something else. *)
Definition pre_turn_context (i : Item) : option bool :=
  match i with
  | Message _ role content _ _ =>
      if (role =s lit "developer") && is_contextual_dev_message_content content
      then Some (has_non_contextual_dev_message_content content)
      else if (role =s lit "user") && is_contextual_user_message_content content then Some false
      else None
  | _ => None
  end.

Definition context_above (snapshot : list Envelope) (above : nat) : option bool :=
  e ← snapshot !! above; pre_turn_context (item e).

Fixpoint trim_pre_turn_context_updates (snapshot : list Envelope) (first_instruction_turn_idx cut_idx : nat)
  (reference : option (@TurnContextItem Opaque)) : nat * option (@TurnContextItem Opaque) :=
  match cut_idx with
  | O => (O, reference)
  | S above =>
      if (first_instruction_turn_idx <? cut_idx)%nat then
        match context_above snapshot above with
        | Some clears =>
            trim_pre_turn_context_updates snapshot first_instruction_turn_idx above (if clears then None else reference)
        | None => (cut_idx, reference)
        end
      else (cut_idx, reference)
  end.

Definition rebuilt_content (c : Content * rstr) : bool :=
  match c.1 with InputText text => is_model_switch text || is_persistent_mode text | _ => false end.

(** The closure of [retain_mut]. *)
Definition retain_first_turn (first_turn_id : rstr) (e : Envelope) : option Envelope :=
  match item e with
  | Message _ role _ _ _ =>
      if bool_decide (item_turn_id (item e) = Some first_turn_id) && (role =s lit "developer") then
        match to_annotated_content (item e) with
        | (i, Some content) =>
            let content := List.filter (fun c => negb (rebuilt_content c)) content in
            if is_empty content then None
            else Some {| item := set_annotated_content i content; metadata := metadata e |}
        | (_, None) => None
        end
      else Some e
  | _ => Some e
  end.

(** Where the first of the dropped turns starts. *)
Definition cut_position (positions : list nat) (first : nat) (num_turns : nat) : nat :=
  if (length positions <=? num_turns)%nat then first
  else default first (positions !! (length positions - num_turns)%nat).

Definition retained_items (snapshot : list Envelope) (first cut : nat) : list Envelope :=
  let retained := take cut snapshot in
  match snapshot !! first ≫= (fun e => item_turn_id (item e)) with
  | Some first_turn_id => if (cut =? first)%nat then omap (retain_first_turn first_turn_id) retained else retained
  | None => retained
  end.

Definition drop_last_n_user_turns (self : manager) (num_turns : nat) : manager :=
  if (num_turns =? 0)%nat then self
  else
    let snapshot := items self in
    let user_positions := user_message_positions 0 snapshot in
    match user_positions with
    | [] => replace_annotated self snapshot
    | first_instruction_turn_idx :: _ =>
        let cut_idx := cut_position user_positions first_instruction_turn_idx num_turns in
        let review :=
          match review_history self, snapshot !! cut_idx with
          | Some history, Some boundary => Some (truncate_before history (item boundary))
          | review, _ => review
          end in
        let '(cut_idx, reference) :=
          trim_pre_turn_context_updates snapshot first_instruction_turn_idx cut_idx (reference_context_item self) in
        let retained := retained_items snapshot first_instruction_turn_idx cut_idx in
        set_review (replace_annotated (set_review (set_reference self reference) None) retained) review
    end.
End ContextManager.

(** * Properties of recording and rollback

    Recording never panics and appends what the model may see ([recording_appends]). A
    rollback drops exactly the last turns that were asked for ([rollback_drops_turns]), and
    two rollbacks are one of the sum ([rollback_composes]). *)
Local Close Scope Z_scope.

Section Rollback.
Context {Opaque : Type} {Opaque_dec : EqDecision Opaque}.
Local Abbreviation Item := (@ResponseItem Opaque).
Local Abbreviation Envelope := (@ResponseItemEnvelope Opaque).
Local Abbreviation Content := (@ContentItem Opaque).
Local Abbreviation Meta := (option (@InternalChatMessageMetadataPassthrough Opaque)).
Context (is_fragment : Content -> bool) (is_message : list Content -> bool).
Context (item_writes : Item -> list Z) (reasoning_writes : option (list Opaque) -> list Z).
Context (meta_writes : option rstr -> rstr -> option Opaque -> Meta -> list Z) (content_writes : Content -> list Z).
Context (response_item_size : Z).
Context {TokenInfo : Type}.
Local Abbreviation manager := (@ContextManager Opaque (@TranscriptHistory Opaque) TokenInfo (@TurnContextItem Opaque) WorldStateSnapshot).
Local Abbreviation boundary := (turn_boundary is_fragment is_message).
Local Abbreviation positions := (user_message_positions is_fragment is_message).
Local Abbreviation context := (context_above is_fragment).
Local Abbreviation trim := (trim_pre_turn_context_updates is_fragment).
Local Abbreviation rollback :=
  (drop_last_n_user_turns is_fragment is_message item_writes reasoning_writes meta_writes content_writes response_item_size (TokenInfo := TokenInfo)).

Implicit Types (l : list Envelope) (self : manager) (e : Envelope).

Definition turns l : nat := length (List.filter boundary l).

Lemma turns_app a b : turns (a ++ b) = turns a + turns b.
Proof. unfold turns. by rewrite List.filter_app, length_app. Qed.

Lemma turns_cons e l : turns (e :: l) = (if boundary e then 1 else 0) + turns l.
Proof. unfold turns. cbn. by destruct (boundary e). Qed.

(** ** Positions *)

Lemma positions_length k l : length (positions k l) = turns l.
Proof. revert k. induction l as [|e l IH]; intros k; cbn [user_message_positions]; [done|]. rewrite length_app, IH, turns_cons. by destruct (boundary e). Qed.

(** The position of a turn: that many turns are before it, and it starts with a boundary. *)
Lemma position_at k l i p :
  positions k l !! i = Some p -> exists e, k <= p /\ l !! (p - k) = Some e /\ boundary e = true /\ turns (take (p - k) l) = i.
Proof.
  revert k i. induction l as [|e l IH]; intros k i; cbn [user_message_positions]; [done|]. destruct (boundary e) eqn:Eb; cbn [app].
  - destruct i as [|i]; cbn.
    + intros [= <-]. exists e. rewrite Nat.sub_diag. done.
    + intros Hp. destruct (IH (S k) i Hp) as (e' & Hk & Hl & Hb & Ht). exists e'. replace (p - k) with (S (p - S k)) by lia. cbn [take].
      rewrite turns_cons, Eb, Ht. split_and!; [lia|done|done|done].
  - intros Hp. destruct (IH (S k) i Hp) as (e' & Hk & Hl & Hb & Ht). exists e'. replace (p - k) with (S (p - S k)) by lia. cbn [take].
    rewrite turns_cons, Eb, Ht. split_and!; [lia|done|done|done].
Qed.

Lemma positions_app k a b : positions k (a ++ b) = positions k a ++ positions (k + length a) b.
Proof.
  revert k. induction a as [|e a IH]; intros k; cbn [app user_message_positions length]; [by rewrite Nat.add_0_r|].
  rewrite IH, <- app_assoc. do 3 f_equal. lia.
Qed.

(** ** Trimming *)

Lemma context_not_boundary l p c : context l p = Some c -> exists e, l !! p = Some e /\ boundary e = false.
Proof.
  unfold context_above. destruct (l !! p) as [e|] eqn:E; [|done]. cbn [mbind option_bind]. intros Hc. exists e. split; [done|].
  unfold turn_boundary, is_user_turn_boundary, pre_turn_context in *. destruct (item e) as [|id role content phase meta| | | | | | | | | | | | | | |]; try done.
  destruct (role =s lit "developer") eqn:Ed; cbn [andb] in Hc.
  - apply streq_true in Ed as ->. reflexivity.
  - destruct (role =s lit "user") eqn:Eu; [|done]. apply streq_true in Eu as ->. cbn [andb] in *. by destruct (is_contextual_user_message_content is_fragment content).
Qed.

Lemma trim_spec l first p reference :
  first <= p ->
  let cut := (trim l first p reference).1 in
  first <= cut <= p /\ (forall q, cut <= q < p -> is_Some (context l q)) /\ (first < cut -> context l (cut - 1) = None).
Proof.
  revert reference. induction p as [|p IH]; intros reference Hp; cbn [trim_pre_turn_context_updates].
  - cbn. split_and!; [lia..|lia].
  - destruct (Nat.ltb_spec first (S p)) as [Hlt|Hge].
    + destruct (context l p) as [c|] eqn:Ec.
      * specialize (IH (if c then None else reference) ltac:(lia)). cbn zeta in *. set (cut := (trim l first p _).1) in *.
        destruct IH as (Hc & Hq & Hn). split_and!; [lia|lia| |done]. intros q Hq'. destruct (decide (q = p)) as [->|]; [by rewrite Ec|]. apply Hq. lia.
      * cbn. split_and!; [lia..|]. intros _. by rewrite Nat.sub_0_r.
    + cbn. split_and!; [lia..|lia].
Qed.

(** Trimming looks at what is above the cut only. *)
Lemma trim_agree l l' first p reference :
  (forall q, q < p -> l !! q = l' !! q) -> trim l first p reference = trim l' first p reference.
Proof.
  revert reference. induction p as [|p IH]; intros reference Hl; cbn [trim_pre_turn_context_updates]; [done|].
  unfold context_above. rewrite (Hl p) by lia. destruct (first <? S p); [|done]. destruct (_ ≫= _); [|done]. apply IH. intros q Hq. apply Hl. lia.
Qed.

Lemma turns_between l a b : (forall q, a <= q < b -> is_Some (context l q)) -> a <= b -> turns (take b l) = turns (take a l).
Proof.
  intros Hq. induction b as [|b IH]; intros Hab; [by replace a with 0 by lia|]. destruct (decide (a = S b)) as [->|]; [done|].
  destruct (Hq b ltac:(lia)) as [c Hc]. destruct (context_not_boundary _ _ _ Hc) as (e & He & Hb).
  rewrite (take_S_r l b e He), turns_app. rewrite IH; [|intros; apply Hq; lia|lia]. unfold turns at 2. cbn. rewrite Hb. cbn. lia.
Qed.

(** ** Stripping the first turn *)

Lemma retain_boundary t e e' : retain_first_turn t e = Some e' -> boundary e' = boundary e.
Proof.
  unfold retain_first_turn. destruct (item e) as [|id role content phase meta| | | | | | | | | | | | | | |] eqn:Ei; try (by intros [= ->]).
  destruct (bool_decide _ && _) eqn:Ed; [|by intros [= ->]]. apply andb_true_iff in Ed as [_ Ed]. apply streq_true in Ed as ->.
  cbn. destruct (is_empty _); [done|]. intros [= <-]. unfold turn_boundary. rewrite Ei. reflexivity.
Qed.

Lemma retain_none t e : retain_first_turn t e = None -> boundary e = false.
Proof.
  unfold retain_first_turn. destruct (item e) as [|id role content phase meta| | | | | | | | | | | | | | |] eqn:Ei; try done.
  destruct (bool_decide _ && _) eqn:Ed; [|done]. apply andb_true_iff in Ed as [_ Ed]. apply streq_true in Ed as ->.
  intros _. unfold turn_boundary. rewrite Ei. reflexivity.
Qed.

Lemma turns_retain t l : turns (omap (retain_first_turn t) l) = turns l.
Proof.
  induction l as [|e l IH]; [done|]. rewrite turns_cons. cbn [omap list_omap]. destruct (retain_first_turn t e) as [e'|] eqn:E.
  - rewrite turns_cons, IH. by rewrite (retain_boundary t e e' E).
  - rewrite IH. by rewrite (retain_none t e E).
Qed.
(** ** Rollback *)

(** The first turn, and the first of the last [n]. *)
Definition first_turn l : option nat := head (positions 0 l).

Lemma first_turn_spec l first :
  first_turn l = Some first -> exists e, l !! first = Some e /\ boundary e = true /\ turns (take first l) = 0 /\ 0 < turns l.
Proof.
  unfold first_turn. destruct (positions 0 l) as [|p ps] eqn:E; [done|]. cbn. intros [= ->].
  destruct (position_at 0 l 0 first) as (e & _ & He & Hb & Ht); [by rewrite E|]. rewrite Nat.sub_0_r in He, Ht. exists e. split_and!; try done.
  rewrite <- (positions_length 0), E. cbn. lia.
Qed.

Lemma cut_spec l first n :
  first_turn l = Some first -> 0 < n ->
  let p := cut_position (positions 0 l) first n in
  first <= p /\ turns (take p l) = turns l - n /\ (exists e, l !! p = Some e /\ boundary e = true) /\ (turns l <= n -> p = first).
Proof.
  intros Hf Hn p. destruct (first_turn_spec l first Hf) as (e & He & Hb & Ht & Hpos). subst p. unfold cut_position. rewrite positions_length.
  destruct (Nat.leb_spec (turns l) n) as [Hle|Hgt]; [rewrite Ht; split_and!; [lia..|by exists e|done]|].
  destruct (lookup_lt_is_Some_2 (positions 0 l) (turns l - n)) as [p Hp]; [rewrite positions_length; lia|]. rewrite Hp. cbn.
  destruct (position_at 0 l _ p Hp) as (e' & _ & He' & Hb' & Ht'). rewrite Nat.sub_0_r in He', Ht'. split_and!; [|done|by exists e'|lia].
  destruct (le_lt_dec first p) as [|Hlt]; [done|]. exfalso. assert (turns (take (S p) l) <= turns (take first l)) as Hmono.
  { replace (take (S p) l) with (take (S p) (take first l)) by (rewrite take_take; f_equal; lia). rewrite <- (take_drop (S p) (take first l)) at 2. rewrite turns_app. lia. }
  rewrite (take_S_r l p e' He'), turns_app, Ht in Hmono. rewrite turns_cons, Hb' in Hmono. cbn in Hmono. lia.
Qed.

(** The items of a rollback. *)
Definition rolled_back l (n : nat) (reference : option (@TurnContextItem Opaque)) : list Envelope :=
  match first_turn l with
  | None => l
  | Some first => retained_items l first (trim l first (cut_position (positions 0 l) first n) reference).1
  end.

Lemma rollback_items self n :
  items (rollback self n) = if (n =? 0)%nat then items self else rolled_back (items self) n (reference_context_item self).
Proof.
  unfold drop_last_n_user_turns, rolled_back, first_turn. destruct (n =? 0)%nat; [done|].
  destruct (positions 0 (items self)) as [|first ps] eqn:E; [done|]. cbn [head]. by destruct (trim _ _ _ _).
Qed.

(** The cut does not depend on the reference. *)
Lemma trim_reference l first p r r' : (trim l first p r).1 = (trim l first p r').1.
Proof.
  revert r r'. induction p as [|p IH]; intros r r'; cbn [trim_pre_turn_context_updates]; [done|]. destruct (first <? S p); [|done].
  destruct (context l p) as [c|]; [|done]. apply IH.
Qed.

Lemma retained_turns l first cut : turns (retained_items l first cut) = turns (take cut l).
Proof. unfold retained_items. destruct (_ ≫= _) as [t|]; [|done]. destruct (cut =? first)%nat; [apply turns_retain|done]. Qed.

Lemma retained_above l first cut : cut ≠ first -> retained_items l first cut = take cut l.
Proof. intros Hne. unfold retained_items. destruct (_ ≫= _) as [t|]; [|done]. by apply Nat.eqb_neq in Hne as ->. Qed.

Lemma rolled_back_turns l n r : 0 < n -> turns (rolled_back l n r) = turns l - n.
Proof.
  intros Hn. unfold rolled_back. destruct (first_turn l) as [first|] eqn:Ef.
  - destruct (cut_spec l first n Ef Hn) as (Hle & Ht & _ & _). destruct (trim_spec l first _ r Hle) as (Hc & Hq & _).
    rewrite retained_turns, <- Ht. symmetry. apply turns_between; [done|lia].
  - unfold first_turn in Ef. pose proof (positions_length 0 l) as Hp. destruct (positions 0 l); [|done]. cbn in Hp. lia.
Qed.

Lemma trim_same l first r : (trim l first first r).1 = first.
Proof. destruct first; cbn [trim_pre_turn_context_updates]; [done|]. by rewrite Nat.ltb_irrefl. Qed.

(** All turns are dropped. *)
Lemma rolled_back_all l n r first :
  first_turn l = Some first -> 0 < n -> turns l <= n -> rolled_back l n r = retained_items l first first.
Proof.
  intros Hf Hn Hle. unfold rolled_back. rewrite Hf. destruct (cut_spec l first n Hf Hn) as (_ & _ & _ & Hp). by rewrite (Hp Hle), trim_same.
Qed.

(** Some turns are left: a prefix, up to the context of the first turn that is dropped. *)
Lemma rolled_back_some l n r :
  0 < n -> n < turns l -> exists first cut p e,
  first_turn l = Some first /\ rolled_back l n r = take cut l /\ p = cut_position (positions 0 l) first n
  /\ first < cut <= p /\ l !! p = Some e /\ boundary e = true /\ turns (take p l) = turns l - n
  /\ (forall q, cut <= q < p -> is_Some (context l q)) /\ context l (cut - 1) = None.
Proof.
  intros Hn Hlt. unfold rolled_back. destruct (first_turn l) as [first|] eqn:Ef.
  2:{ unfold first_turn in Ef. pose proof (positions_length 0 l) as Hp. destruct (positions 0 l); [|done]. cbn in Hp. lia. }
  destruct (cut_spec l first n Ef Hn) as (Hle & Ht & (e & He & Hb) & _). destruct (first_turn_spec l first Ef) as (e0 & He0 & Hb0 & Ht0 & _).
  set (p := cut_position (positions 0 l) first n) in *. destruct (trim_spec l first p r Hle) as (Hc & Hq & Hstop). set (cut := (trim l first p r).1) in *.
  assert (first < cut) as Hfc.
  { destruct (decide (cut = first)) as [->|]; [|lia]. destruct (decide (p = first)) as [->|]; [rewrite Ht0 in Ht; lia|].
    destruct (Hq first ltac:(lia)) as [c Hc0]. destruct (context_not_boundary _ _ _ Hc0) as (e1 & He1 & Hb1). congruence. }
  exists first, cut, p, e. rewrite retained_above by lia. split_and!; try done; [lia|by apply Hstop].
Qed.

(** C21. A rollback of [n] turns leaves the history without its last [n] user turns, and drops
    nothing else but the context that was recorded for them: what is left is a prefix that
    ends above the first dropped turn, skipping the messages of context in front of it and
    never one that counts as a turn. When all turns go, what precedes the first stays, less
    the developer messages of that turn that have to be rebuilt; without turns nothing
    changes. The versions move on, and the state of the world has to be sent again. *)
Theorem rollback_drops_turns self n :
  0 < n ->
  let r := rollback self n in let l := items self in
  turns (items r) = turns l - n
  /\ (turns l = 0 -> items r = l)
  /\ (0 < turns l <= n -> exists first e, l !! first = Some e /\ boundary e = true /\ turns (take first l) = 0
        /\ items r = retained_items l first first)
  /\ (n < turns l -> exists cut p e, items r = take cut l /\ cut <= p /\ l !! p = Some e /\ boundary e = true
        /\ turns (take p l) = turns l - n /\ (forall q, cut <= q < p -> is_Some (context l q)) /\ context l (cut - 1) = None)
  /\ history_version r = saturating_add (history_version self) 1
  /\ user_message_revision r = saturating_add (user_message_revision self) 1 /\ world_state_baseline r = None.
Proof.
  intros Hn r l. assert ((n =? 0)%nat = false) as En by (apply Nat.eqb_neq; lia).
  assert (items r = rolled_back l n (reference_context_item self)) as Hr by (unfold r, l; by rewrite rollback_items, En).
  rewrite Hr. split_and!.
  - by apply rolled_back_turns.
  - intros H0. unfold rolled_back, first_turn. pose proof (positions_length 0 l) as Hp. destruct (positions 0 l); [done|]. cbn in Hp. lia.
  - intros Ht. destruct (first_turn l) as [first|] eqn:Ef.
    + destruct (first_turn_spec l first Ef) as (e & ? & ? & ? & _). exists first, e. split_and!; try done. apply rolled_back_all; [done|done|lia].
    + unfold first_turn in Ef. pose proof (positions_length 0 l) as Hp. destruct (positions 0 l); [|done]. cbn in Hp. lia.
  - intros Ht. destruct (rolled_back_some l n (reference_context_item self) Hn Ht) as (first & cut & p & e & _ & ? & _ & ? & ? & ? & ? & ? & ?).
    exists cut, p, e. split_and!; try done. lia.
  - unfold r, drop_last_n_user_turns. rewrite En. destruct (positions 0 (items self)); [done|]. by destruct (trim _ _ _ _).
  - unfold r, drop_last_n_user_turns. rewrite En. destruct (positions 0 (items self)); [done|]. by destruct (trim _ _ _ _).
  - unfold r, drop_last_n_user_turns. rewrite En. destruct (positions 0 (items self)); [done|]. by destruct (trim _ _ _ _).
Qed.

(** Positions in a prefix that ends above a turn. *)
Lemma positions_take l cut : cut <= length l -> positions 0 (take cut l) = take (turns (take cut l)) (positions 0 l).
Proof.
  intros Hc. rewrite <- (take_drop cut l) at 3. rewrite positions_app. rewrite take_app_le by (by rewrite positions_length).
  symmetry. apply take_ge. by rewrite positions_length.
Qed.

(** Without turns nothing is dropped. *)
Lemma rolled_back_none l n r : turns l = 0 -> rolled_back l n r = l.
Proof. intros H0. unfold rolled_back, first_turn. pose proof (positions_length 0 l) as Hp. destruct (positions 0 l); [done|]. cbn in Hp. lia. Qed.

(** The same first turn, and the same cut, in a prefix. *)
Lemma prefix_cut l cut m first :
  first_turn l = Some first -> cut <= length l -> 0 < m -> m < turns (take cut l) ->
  cut_position (positions 0 (take cut l)) first m = cut_position (positions 0 l) first (turns l - turns (take cut l) + m).
Proof.
  intros Hf Hc Hm Hlt. unfold cut_position. rewrite !positions_length, positions_take by done.
  assert (turns (take cut l) <= turns l) as Hle by (rewrite <- (take_drop cut l) at 2; rewrite turns_app; lia).
  rewrite (proj2 (Nat.leb_gt _ _) Hlt), (proj2 (Nat.leb_gt (turns l) _)) by lia.
  rewrite lookup_take_lt by lia. do 2 f_equal. lia.
Qed.

Lemma rolled_back_twice l n m r r' : 0 < n -> 0 < m -> rolled_back (rolled_back l n r) m r' = rolled_back l (n + m) r.
Proof.
  intros Hn Hm. destruct (decide (turns l <= n)) as [Hle|Hgt].
  - rewrite (rolled_back_none (rolled_back l n r)) by (rewrite rolled_back_turns; lia). unfold rolled_back. destruct (first_turn l) as [first|] eqn:Ef; [|done].
    destruct (cut_spec l first n Ef Hn) as (_ & _ & _ & Hp). destruct (cut_spec l first (n + m) Ef ltac:(lia)) as (_ & _ & _ & Hp').
    by rewrite Hp, Hp', !trim_same by lia.
  - destruct (rolled_back_some l n r Hn ltac:(lia)) as (first & cut & p & e & Hf & -> & Hpe & Hcut & He & Hb & Htp & Hq & _).
    assert (cut <= length l) as Hlen by (apply lookup_lt_Some in He; lia).
    assert (turns (take cut l) = turns l - n) as Ht by (rewrite <- Htp; symmetry; apply turns_between; [done|lia]).
    assert (first_turn (take cut l) = Some first) as Hf'.
    { unfold first_turn in *. rewrite positions_take, Ht by done. destruct (positions 0 l); [done|]. by replace (turns l - n) with (S (turns l - n - 1)) by lia. }
    unfold rolled_back. rewrite Hf, Hf'. destruct (decide (m < turns (take cut l))) as [Hlt|Hge].
    + rewrite (prefix_cut l cut m first) by done. replace (turns l - turns (take cut l) + m) with (n + m) by lia.
      destruct (cut_spec l first (n + m) Hf ltac:(lia)) as (Hfp & Htp2 & (e2 & He2 & Hb2) & _). set (p2 := cut_position (positions 0 l) first (n + m)) in *.
      assert (p2 < cut) as Hp2.
      { destruct (le_lt_dec cut p2) as [Hle|]; [|done]. assert (turns (take cut l) <= turns (take p2 l)) as Hmono; [|lia].
        replace (take cut l) with (take cut (take p2 l)) by (rewrite take_take; f_equal; lia). rewrite <- (take_drop cut (take p2 l)) at 2. rewrite turns_app. lia. }
      rewrite (trim_agree (take cut l) l) by (intros q Hq'; apply lookup_take_lt; lia). rewrite (trim_reference l first p2 r' r).
      destruct (trim_spec l first p2 r Hfp) as (Hc2 & _ & _). set (c2 := (trim l first p2 r).1) in *.
      unfold retained_items. rewrite take_take, Nat.min_l by lia. by rewrite lookup_take_lt by lia.
    + destruct (cut_spec (take cut l) first m Hf' Hm) as (_ & _ & _ & Hp'). destruct (cut_spec l first (n + m) Hf ltac:(lia)) as (_ & _ & _ & Hp).
      rewrite Hp', Hp, !trim_same by lia. unfold retained_items. rewrite take_take, Nat.min_l by lia. by rewrite lookup_take_lt by lia.
Qed.

(** Two rollbacks one after the other keep the same items as one of the sum: neither the
    context that the first one trims nor the developer messages it removes change what the
    second one drops. *)
Theorem rollback_composes self n m :
  items (rollback (rollback self n) m) = items (rollback self (n + m)).
Proof.
  rewrite !rollback_items. destruct (Nat.eqb_spec n 0) as [->|Hn]; [done|].
  destruct (Nat.eqb_spec m 0) as [->|Hm]; [rewrite Nat.add_0_r; by apply Nat.eqb_neq in Hn as ->|].
  assert ((n + m =? 0)%nat = false) as -> by (apply Nat.eqb_neq; lia). by apply rolled_back_twice; lia.
Qed.

End Rollback.

(** ** Recording *)

Section Recording.
Local Open Scope Z_scope.
Context {Opaque : Type} {Opaque_dec : EqDecision Opaque}.
Local Abbreviation Item := (@ResponseItem Opaque).
Local Abbreviation Envelope := (@ResponseItemEnvelope Opaque).
Local Abbreviation Content := (@ContentItem Opaque).
Local Abbreviation Meta := (option (@InternalChatMessageMetadataPassthrough Opaque)).
Context (is_fragment : Content -> bool).
Context (item_writes : Item -> list Z) (reasoning_writes : option (list Opaque) -> list Z).
Context (meta_writes : option rstr -> rstr -> option Opaque -> Meta -> list Z) (content_writes : Content -> list Z).
Context (response_item_size : Z) (estimate : rstr -> Z).
Context {TokenInfo : Type}.
Local Abbreviation manager := (@ContextManager Opaque (@TranscriptHistory Opaque) TokenInfo (@TurnContextItem Opaque) WorldStateSnapshot).
Local Abbreviation recorded :=
  (record_annotated_items is_fragment item_writes reasoning_writes meta_writes content_writes response_item_size estimate (TokenInfo := TokenInfo)).

Implicit Types (l : list Envelope) (self : manager) (e : Envelope).

Lemma round_nonneg m x : 0 <= m -> 0 <= (round_f64 m x).1.
Proof. intros Hm. unfold round_f64. cbn. rewrite Z.shiftr_div_pow2 by lia. pose proof (Z.div_pos m (2 ^ Z.max 0 (Z.log2 m - 52)) Hm ltac:(lia)). case_match; lia. Qed.

Lemma scale_usize n : 0 <= n -> usize (scale n F64_1_2).
Proof.
  intros Hn. unfold scale. pose proof (round_nonneg n 0 Hn) as H1. set (a := round_f64 n 0) in *.
  assert (0 <= (mul_f64 a F64_1_2).1) as H2 by (unfold mul_f64; apply round_nonneg, Z.mul_nonneg_nonneg; done). set (b := mul_f64 a F64_1_2) in *. clearbody b. unfold ceil_usize, usize.
  split; [|lia]. apply Z.min_glb; [|unfold USIZE_MAX; lia]. destruct (Z.leb_spec 0 b.2).
  - apply Z.mul_nonneg_nonneg; [done|]. apply Z.pow_nonneg. lia.
  - assert ((- b.1) / 2 ^ (- b.2) <= 0); [|lia]. apply Z.div_le_upper_bound; [apply Z.pow_pos_nonneg; lia|]. lia.
Qed.

(** A tool output that fits in memory. *)
Definition payload_ok (p : @FunctionCallOutputPayload Opaque) : Prop :=
  match body p with BodyText text => str_ok text | BodyContentItems l => items_ok l end.

Definition recordable e : Prop :=
  match item e with
  | FunctionCallOutput _ _ _ _ output _ | CustomToolCallOutput _ _ _ output _ => payload_ok output
  | _ => True
  end /\ match metadata e ≫= fallback_token_limit_override with Some n => usize (Z.of_nat n) | None => True end.

Lemma payload_total output policy : (forall url, 0 <= estimate url) -> policy_ok policy -> payload_ok output ->
  exists p, truncate_function_output_payload estimate output policy = Ok p.
Proof.
  intros He Hp Ho. unfold truncate_function_output_payload, payload_ok in *. destruct (body output) as [text|l].
  - destruct (truncate_text_as text policy Ho Hp) as (out & -> & _). by eexists.
  - destruct (truncate_items_budgeted estimate He l policy Hp Ho) as (kept & nt & na & -> & _). by eexists.
Qed.

Lemma process_total policy e : (forall url, 0 <= estimate url) -> policy_ok policy -> recordable e ->
  exists i, process_item estimate policy (item e) (metadata e) = Ok i.
Proof.
  intros He Hp [Ho Hm]. assert (policy_ok (item_policy policy (metadata e))) as Hip.
  { unfold item_policy. destruct (metadata e ≫= fallback_token_limit_override); [done|]. destruct policy; cbn in *; apply scale_usize; apply Hp. }
  destruct (item e) as [| | | | | | |id call name ns output meta| |id call name output meta| | | | | | |]; try (by eexists).
  - cbn. destruct (payload_total output _ He Hip Ho) as [p ->]. by eexists.
  - cbn. destruct (payload_total output _ He Hip Ho) as [p ->]. by eexists.
Qed.

Definition api e : bool := is_api_message (item e).

Definition authorizations l : Z := Z.of_nat (length (List.filter (fun e => is_user_authorization_message (item e)) (List.filter api l))).

Lemma authorizations_cons e l :
  authorizations (e :: l) = (if api e && is_user_authorization_message (item e) then 1 else 0) + authorizations l.
Proof. unfold authorizations. cbn [List.filter]. destruct (api e); cbn [List.filter andb]; [|done]. destruct (is_user_authorization_message (item e)); cbn [length]; lia. Qed.

Lemma record_step self policy e :
  record_item is_fragment item_writes reasoning_writes meta_writes content_writes response_item_size estimate policy self (item e, metadata e)
  = if api e then
      i ← process_item estimate policy (item e) (metadata e);
      Ok (push_processed is_fragment item_writes reasoning_writes meta_writes content_writes response_item_size self (item e) i (metadata e))
    else Ok self.
Proof. unfold record_item, api. cbn [fst snd]. by destruct (is_api_message (item e)). Qed.

(** Recording items never panics when they fit in memory: it appends those that the
    model may see, in their order and with their metadata, tool outputs cut to the policy
    with its allowance or to the limit they bring along; it changes neither what was there
    nor the version of the history, and counts the messages that may change what the user
    has authorised. *)
Theorem recording_appends self l policy :
  (forall url, 0 <= estimate url) -> policy_ok policy -> Forall recordable l -> 0 <= user_message_revision self <= USIZE_MAX ->
  exists self' new, recorded self l policy = Ok self' /\ items self' = items self ++ new
  /\ Forall2 (fun e p => process_item estimate policy (item e) (metadata e) = Ok (item p) /\ metadata p = metadata e) (List.filter api l) new
  /\ user_message_revision self' = Z.min (user_message_revision self + authorizations l) USIZE_MAX
  /\ history_version self' = history_version self.
Proof.
  intros He Hp Hl. unfold record_annotated_items, record_items_with_metadata. revert self.
  induction Hl as [|e l Hr _ IH]; intros self Hrev; cbn [map fold_res].
  - exists self, []. split_and!; [done|by rewrite app_nil_r|constructor|unfold authorizations; cbn; lia|done].
  - rewrite authorizations_cons. cbn [List.filter]. rewrite record_step. destruct (api e) eqn:Ea; cbn [mbind res_bind andb].
    2:{ rewrite Z.add_0_l. destruct (IH self Hrev) as (self' & new & H'). exists self', new. exact H'. }
    destruct (process_total policy e He Hp Hr) as [i Hi]. rewrite Hi. cbn [mbind res_bind]. set (self1 := push_processed _ _ _ _ _ _ self _ _ _).
    assert (0 <= user_message_revision self1 <= USIZE_MAX) as Hrev1 by (cbn; case_match; unfold saturating_add; lia).
    destruct (IH self1 Hrev1) as (self' & new & Hrec & Hit & Hf & Hu & Hv). exists self', ({| item := i; metadata := metadata e |} :: new).
    split_and!; [done| |by constructor| |done].
    + rewrite Hit. unfold self1. cbn. by rewrite <- app_assoc.
    + rewrite Hu. unfold self1. cbn [user_message_revision push_processed]. assert (0 <= authorizations l) by (unfold authorizations; lia).
      destruct (is_user_authorization_message (item e)); unfold saturating_add; lia.
Qed.
End Recording.
