(* ===== verification/Compact.v ===== *)
(** * Compaction of the history, and the session's replay

    Models [collect_annotated_user_messages], [build_compacted_history] and
    [insert_initial_context_before_last_real_user_or_summary] of
    [workx-rs/core/src/compact.rs], and makes the context manager of [ContextManager] the one
    that the replay of [Rollout] works on. [user_message_text] is the text of the user
    message that [parse_turn_item] finds in an item, [SUMMARY_PREFIX] a file of prompts and
    [is_final_answer] tells the content of an agent message that reports a result. *)
From S2P Require Import Prelude Width History Truncation WorldState Rollout GuardianHistory ContextManager.

Set Default Goal Selector "!".

Local Open Scope Z_scope.

Definition COMPACT_USER_MESSAGE_MAX_TOKENS : Z := 20000.

Section Compact.
Context {Opaque : Type} {Opaque_dec : EqDecision Opaque}.
Local Abbreviation Item := (@ResponseItem Opaque).
Local Abbreviation Envelope := (@ResponseItemEnvelope Opaque).
Local Abbreviation Content := (@ContentItem Opaque).
Local Abbreviation Meta := (option (@InternalChatMessageMetadataPassthrough Opaque)).
Context (user_message_text : Item -> option rstr) (SUMMARY_PREFIX : rstr) (is_final_answer : list Opaque -> bool).

Record CompactedUserMessage := {
  cu_message : rstr;
  cu_passthrough : Meta;
  cu_harness_metadata : option WorkxHarnessMetadata;
}.

Definition is_summary_message (message : rstr) : bool := starts_with (SUMMARY_PREFIX ++ [NL]) message.

Definition compacted_user_message (e : Envelope) : option CompactedUserMessage :=
  match user_message_text (item e) with
  | None => None
  | Some message =>
      if is_summary_message message then None
      else Some {| cu_message := message;
                   cu_passthrough := match item e with Message _ _ _ _ meta => meta | _ => None end;
                   cu_harness_metadata := metadata e |}
  end.

Definition collect_annotated_user_messages (l : list Envelope) : list CompactedUserMessage := omap compacted_user_message l.

(** ** The compacted history *)

(** From the newest message, until the budget is used up. *)
Fixpoint select_messages (remaining : Z) (newest_first : list CompactedUserMessage) : res Empty_set (list CompactedUserMessage) :=
  match newest_first with
  | [] => Ok []
  | message :: older =>
      if remaining =? 0 then Ok []
      else
        let tokens := approx_token_count (cu_message message) in
        if tokens <=? remaining then
          selected ← select_messages (saturating_sub remaining tokens) older;
          Ok (message :: selected)
        else
          truncated ← truncate_text (cu_message message) (Tokens remaining);
          Ok [{| cu_message := truncated; cu_passthrough := cu_passthrough message;
                 cu_harness_metadata := cu_harness_metadata message |}]
  end.

Definition user_message_item (message : CompactedUserMessage) : Envelope :=
  let i := Message None (lit "user") [InputText (cu_message message)] None (cu_passthrough message) in
  {| item :=
       match cu_passthrough message ≫= content_item_kinds with
       | Some _ => set_annotated_content i [(InputText (cu_message message), lit "user.text")]
       | None => i
       end;
     metadata := cu_harness_metadata message |}.

(** [CompactionSummary] as an item. *)
Definition summary_item (summary : rstr) : Envelope :=
  envelope_new
    (Message None (lit "user") [InputText summary] None
       (Some (set_kinds default_meta (Some [lit "compaction.summary"])))).

Definition build_compacted_history_with_limit (history : list Envelope) (user_messages : list CompactedUserMessage)
  (summary_text : rstr) (max_tokens : Z) : res Empty_set (list Envelope) :=
  selected ← (if 0 <? max_tokens then select_messages max_tokens (reverse user_messages) else Ok []);
  Ok (history ++ map user_message_item (reverse selected)
      ++ [summary_item (if is_empty summary_text then lit "(no summary available)" else summary_text)]).

Definition build_compacted_history (initial_context : list Envelope) (user_messages : list CompactedUserMessage)
  (summary_text : rstr) : res Empty_set (list Envelope) :=
  build_compacted_history_with_limit initial_context user_messages summary_text COMPACT_USER_MESSAGE_MAX_TOKENS.

(** ** Initial context *)

(** The loop over the items from the newest, which have the given index and less. *)
Fixpoint find_insertion (l : list (nat * Envelope)) (user_or_summary : option nat) : option nat * option nat :=
  match l with
  | [] => (None, user_or_summary)
  | (i, e) :: l =>
      match item e with
      | AgentMessage _ _ _ content _ =>
          if negb (is_final_answer content) then (Some i, user_or_summary)
          else find_insertion l user_or_summary
      | _ =>
          match user_message_text (item e) with
          | None => find_insertion l user_or_summary
          | Some message =>
              let user_or_summary := match user_or_summary with Some j => Some j | None => Some i end in
              if negb (is_summary_message message) then (Some i, user_or_summary) else find_insertion l user_or_summary
          end
      end
  end.

Definition is_compaction_item (e : Envelope) : bool :=
  match item e with Compaction _ _ _ | ContextCompaction _ _ _ => true | _ => false end.

Definition last_compaction_index (l : list (nat * Envelope)) : option nat :=
  fst <$> head (List.filter (fun ie => is_compaction_item ie.2) l).

Definition insertion_index (compacted_history : list Envelope) : option nat :=
  let newest_first := reverse (imap (fun i e => (i, e)) compacted_history) in
  let '(real, user_or_summary) := find_insertion newest_first None in
  match real, user_or_summary with
  | Some i, _ => Some i
  | None, Some i => Some i
  | None, None => last_compaction_index newest_first
  end.

Definition insert_initial_context_before_last_real_user_or_summary (compacted_history initial_context : list Envelope)
  : list Envelope :=
  match insertion_index compacted_history with
  | Some i => take i compacted_history ++ initial_context ++ drop i compacted_history
  | None => compacted_history ++ initial_context
  end.

(** ** The manager of the replay *)

Context (is_contextual_user_fragment : Content -> bool) (is_message_content : list Content -> bool).
Context (item_writes : Item -> list Z) (reasoning_writes : option (list Opaque) -> list Z).
Context (meta_writes : option rstr -> rstr -> option Opaque -> Meta -> list Z) (content_writes : Content -> list Z).
Context (response_item_size : Z) (estimate_audio_token_count : rstr -> Z).
Context {Comm TokenInfo : Type} (to_model_input_item : Comm -> Item) (policy : TruncationPolicy).

Local Abbreviation manager := (@ContextManager Opaque (@TranscriptHistory Opaque) TokenInfo (@TurnContextItem Opaque) WorldStateSnapshot).
Local Abbreviation replaced :=
  (replace_annotated is_contextual_user_fragment item_writes reasoning_writes meta_writes content_writes response_item_size).

Definition legacy_compaction (message : rstr) (self : manager) : res Empty_set manager :=
  rebuilt ← build_compacted_history [] (collect_annotated_user_messages (items self)) message;
  Ok (replaced self rebuilt).

(** A panic stops the replay. *)
Definition replay_manager : @ContextManagerOps Opaque (list Item) Comm (res Empty_set manager) := {|
  cm_new := Ok manager_new;
  cm_replace_annotated l h := self ← h; Ok (replaced self l);
  cm_restore_guardian_history checkpoint h :=
    self ← h;
    Ok (restore_guardian_history item_writes reasoning_writes meta_writes content_writes response_item_size self checkpoint);
  cm_record_annotated_item e h :=
    self ← h;
    record_annotated_items is_contextual_user_fragment item_writes reasoning_writes meta_writes content_writes
      response_item_size estimate_audio_token_count self [e] policy;
  cm_record_communication communication h :=
    self ← h;
    record_items is_contextual_user_fragment item_writes reasoning_writes meta_writes content_writes
      response_item_size estimate_audio_token_count self [to_model_input_item communication] policy;
  cm_compact message h := self ← h; legacy_compaction message self;
  cm_drop_last_n_user_turns n h :=
    self ← h;
    Ok (drop_last_n_user_turns is_contextual_user_fragment is_message_content item_writes reasoning_writes meta_writes
          content_writes response_item_size self (Z.to_nat n));
  cm_annotated_items h := match h with Ok self => items self | _ => [] end;
  cm_guardian_history_checkpoint h := match h with Ok self => guardian_history_checkpoint self | _ => None end;
|}.
End Compact.

(** * Properties of compaction

    The compacted history keeps the newest user messages within its budget
    ([compaction_keeps_newest]); initial context is put in front of the last message that
    counts ([context_before_last_message]). *)
Section Compaction.
Context {Opaque : Type} {Opaque_dec : EqDecision Opaque}.
Local Abbreviation Item := (@ResponseItem Opaque).
Local Abbreviation Envelope := (@ResponseItemEnvelope Opaque).
Local Abbreviation message := (@CompactedUserMessage Opaque).
Context (user_message_text : Item -> option rstr) (SUMMARY_PREFIX : rstr) (is_final_answer : list Opaque -> bool).

Implicit Types (l : list message) (m : message) (h : list Envelope).

(** ** The budget *)

Definition cost l : Z := foldr (fun m n => approx_token_count (cu_message m) + n) 0 l.

Definition texts_ok l : Prop := Forall (fun m => str_ok (cu_message m)) l.

(** A message cut to what is left of the budget. *)
Definition truncated_message (remaining : Z) m m' : Prop :=
  truncate_text (cu_message m) (Tokens remaining) = Ok (cu_message m')
  /\ byte_len (cu_message m') <= byte_budget (Tokens remaining) + MARKER_MAX
  /\ cu_passthrough m' = cu_passthrough m /\ cu_harness_metadata m' = cu_harness_metadata m.

(** What is selected of the messages, from the newest. *)
Inductive selection (budget : Z) : list message -> list message -> Prop :=
| select_whole l : cost l <= budget -> selection budget l l
| select_full newest older : cost newest = budget -> selection budget (newest ++ older) newest
| select_cut newest m m' older :
    cost newest < budget -> budget < cost newest + approx_token_count (cu_message m) ->
    truncated_message (budget - cost newest) m m' -> selection budget (newest ++ m :: older) (newest ++ [m']).

Lemma token_count_nonneg text : 0 <= approx_token_count text.
Proof.
  unfold approx_token_count, saturating_add, saturating_sub, APPROX_BYTES_PER_TOKEN, USIZE_MAX. pose proof (byte_len_nonneg text).
  apply Z.div_pos; lia.
Qed.

Lemma cost_cons m l : cost (m :: l) = approx_token_count (cu_message m) + cost l.
Proof. done. Qed.

Lemma select_spec budget l : usize budget -> texts_ok l -> exists selected, select_messages budget l = Ok selected /\ selection budget l selected.
Proof.
  intros Hb Ht. revert budget Hb. induction Ht as [|m l Hm _ IH]; intros budget Hb; cbn [select_messages].
  - exists []. split; [done|]. apply select_whole. cbn. apply Hb.
  - destruct (Z.eqb_spec budget 0) as [->|Hne]; [exists []; split; [done|]; by apply (select_full 0 [] (m :: l))|].
    pose proof (token_count_nonneg (cu_message m)) as Hpos. destruct (Z.leb_spec (approx_token_count (cu_message m)) budget) as [Hle|Hgt].
    + assert (saturating_sub budget (approx_token_count (cu_message m)) = budget - approx_token_count (cu_message m)) as -> by (unfold saturating_sub; lia).
      destruct (IH (budget - approx_token_count (cu_message m))) as (selected & -> & Hsel); [destruct Hb; split; lia|].
      exists (m :: selected). split; [done|]. inversion Hsel as [l' Hc|newest older Hc|newest m0 m' older Hc Hc' Hcut]; subst.
      * apply select_whole. rewrite cost_cons. lia.
      * apply (select_full budget (m :: selected) older). rewrite cost_cons. lia.
      * apply (select_cut budget (m :: newest) m0 m' older); rewrite cost_cons; [lia..|]. by replace (budget - (approx_token_count (cu_message m) + cost newest)) with (budget - approx_token_count (cu_message m) - cost newest) by lia.
    + destruct (truncate_text_as (cu_message m) (Tokens budget) Hm Hb) as (out & Hout & Has). rewrite Hout. cbn [mbind res_bind]. eexists. split; [done|].
      apply (select_cut budget [] m _ l); [cbn; destruct Hb; lia|cbn; lia|]. change (budget - cost []) with (budget - 0). rewrite Z.sub_0_r.
      split; [done|]. split; [|done]. eapply truncated_as_bound; [|exact Has]. by apply byte_budget_nonneg.
Qed.

(** Compaction never panics and keeps the newest user messages: the history is the
    initial context, the messages that were kept in their order, and the summary. Kept are
    the newest messages whose tokens fit the budget, whole; if the next older one does not
    fit what is left, it is kept cut to what is left, and nothing older is kept. *)
Theorem compaction_keeps_newest initial_context l summary budget :
  usize budget -> texts_ok l ->
  exists selected,
    build_compacted_history_with_limit initial_context l summary budget
    = Ok (initial_context ++ map user_message_item (reverse selected)
          ++ [summary_item (if is_empty summary then lit "(no summary available)" else summary)])
    /\ selection budget (reverse l) selected.
Proof.
  intros Hb Ht. unfold build_compacted_history_with_limit. destruct (Z.ltb_spec 0 budget) as [Hpos|Hz].
  - destruct (select_spec budget (reverse l) Hb) as (selected & -> & Hsel); [by apply Forall_reverse|]. by exists selected.
  - exists []. split; [done|]. assert (budget = 0) as -> by (destruct Hb; lia). by apply (select_full 0 [] (reverse l)).
Qed.

(** ** The place of the initial context *)

Local Abbreviation text := user_message_text.

(** A message that counts: from an agent, unless it reports a result, or from the user, unless
    it is a summary. *)
Definition real_message (e : Envelope) : bool :=
  match item e with
  | AgentMessage _ _ _ content _ => negb (is_final_answer content)
  | _ => match text (item e) with Some t => negb (is_summary_message SUMMARY_PREFIX t) | None => false end
  end.

Definition user_or_summary (e : Envelope) : bool :=
  match item e with AgentMessage _ _ _ _ _ => false | _ => bool_decide (is_Some (text (item e))) end.

(** The last item with a property. *)
Definition last_with (p : Envelope -> bool) h a (x : Envelope) b : Prop := h = a ++ x :: b /\ p x = true /\ forallb (fun e => negb (p e)) b = true.

Definition indexed h : list (nat * Envelope) := reverse (imap (fun i e => (i, e)) h).

Lemma indexed_snoc h e : indexed (h ++ [e]) = (length h, e) :: indexed h.
Proof. unfold indexed. rewrite imap_app, reverse_app. cbn. by rewrite Nat.add_0_r. Qed.

Local Abbreviation find := (find_insertion text SUMMARY_PREFIX is_final_answer).

Lemma find_cons i e rest start :
  real_message e = true /\ (find ((i, e) :: rest) start).1 = Some i
  \/ real_message e = false /\ find ((i, e) :: rest) start = find rest (if user_or_summary e then match start with Some j => Some j | None => Some i end else start).
Proof.
  unfold real_message, user_or_summary. cbn [find_insertion].
  destruct (item e) as [| |? ? ? content| | | | | | | | | | | | | |] eqn:Ei; rewrite <- ?Ei.
  3:{ destruct (is_final_answer content); cbn; [by right|by left]. }
  all: destruct (text (item e)) as [t|]; [|by right]; destruct (is_summary_message SUMMARY_PREFIX t); cbn; [by right|by left].
Qed.

Lemma last_with_snoc (p : Envelope -> bool) h a x b e : p e = false -> last_with p h a x b -> last_with p (h ++ [e]) a x (b ++ [e]).
Proof. intros Hp (-> & Hx & Hb). split_and!; [by rewrite <- app_assoc|done|]. rewrite forallb_app, Hb. cbn. by rewrite Hp. Qed.

Lemma last_with_last (p : Envelope -> bool) h e : p e = true -> last_with p (h ++ [e]) h e [].
Proof. intros Hp. split; [done|]. by split. Qed.

(** Where the scan ends. *)
Lemma find_spec h start :
  let '(real, found) := find (indexed h) start in
  match real with
  | Some i => exists a x b, last_with real_message h a x b /\ i = length a
  | None =>
      forallb (fun e => negb (real_message e)) h = true
      /\ match start, found with
         | Some j, _ => found = Some j
         | None, Some i => exists a x b, last_with user_or_summary h a x b /\ i = length a
         | None, None => forallb (fun e => negb (user_or_summary e)) h = true
         end
  end.
Proof.
  revert start. induction h as [|e h IH] using rev_ind; intros start; [by destruct start|]. rewrite indexed_snoc.
  destruct (find_cons (length h) e (indexed h) start) as [[Hr Hf]|[Hr ->]].
  { destruct (find _ start) as [real found]. cbn in Hf. subst real. exists h, e, []. split; [by apply last_with_last|done]. }
  set (start' := if user_or_summary e then _ else start). specialize (IH start'). destruct (find (indexed h) start') as [[i|] found].
  { destruct IH as (a & x & b & Hl & ->). exists a, x, (b ++ [e]). split; [by apply last_with_snoc|done]. }
  destruct IH as [Hn IH]. split; [by rewrite forallb_app, Hn; cbn; rewrite Hr|]. subst start'.
  destruct (user_or_summary e) eqn:Eu, start as [j|]; try done.
  - rewrite IH. exists h, e, []. split; [by apply last_with_last|done].
  - destruct found as [i|].
    + destruct IH as (a & x & b & Hl & ->). exists a, x, (b ++ [e]). split; [by apply last_with_snoc|done].
    + rewrite forallb_app, IH. cbn. by rewrite Eu.
Qed.

Lemma last_compaction_spec h :
  match last_compaction_index (indexed h) with
  | Some i => exists a x b, last_with is_compaction_item h a x b /\ i = length a
  | None => forallb (fun e => negb (is_compaction_item e)) h = true
  end.
Proof.
  unfold last_compaction_index. induction h as [|e h IH] using rev_ind; [done|]. rewrite indexed_snoc. cbn [List.filter snd].
  destruct (is_compaction_item e) eqn:Ee; cbn [head fmap option_fmap option_map fst].
  - exists h, e, []. split; [by apply last_with_last|done].
  - destruct (fst <$> head _) as [i|].
    + destruct IH as (a & x & b & Hl & ->). exists a, x, (b ++ [e]). split; [by apply last_with_snoc|done].
    + rewrite forallb_app, IH. cbn. by rewrite Ee.
Qed.

(** Initial context goes right in front of the last message that counts; without one, in
    front of the last summary, so that the summary stays last; without user messages, in
    front of the last compaction item; and else to the end. Nothing else moves. *)
Theorem context_before_last_message h context :
  let r := insert_initial_context_before_last_real_user_or_summary text SUMMARY_PREFIX is_final_answer h context in
  let none p := forallb (fun e => negb (p e)) h = true in
  (exists a x b, last_with real_message h a x b /\ r = a ++ context ++ x :: b)
  \/ none real_message /\ (exists a x b, last_with user_or_summary h a x b /\ r = a ++ context ++ x :: b)
  \/ none real_message /\ none user_or_summary /\ (exists a x b, last_with is_compaction_item h a x b /\ r = a ++ context ++ x :: b)
  \/ none real_message /\ none user_or_summary /\ none is_compaction_item /\ r = h ++ context.
Proof.
  cbn zeta. unfold insert_initial_context_before_last_real_user_or_summary, insertion_index. fold (indexed h).
  assert (forall (p : Envelope -> bool) a x b, last_with p h a x b -> take (length a) h ++ context ++ drop (length a) h = a ++ context ++ x :: b) as Hins.
  { intros p a x b (-> & _). by rewrite take_app_length, drop_app_length. }
  pose proof (find_spec h None) as Hf. destruct (find (indexed h) None) as [[i|] found].
  - destruct Hf as (a & x & b & Hl & ->). left. exists a, x, b. split; [done|]. by eapply Hins.
  - destruct Hf as [Hr Hf]. right. destruct found as [i|].
    + destruct Hf as (a & x & b & Hl & ->). left. split; [done|]. exists a, x, b. split; [done|]. by eapply Hins.
    + right. pose proof (last_compaction_spec h) as Hc. destruct (last_compaction_index (indexed h)) as [i|].
      * destruct Hc as (a & x & b & Hl & ->). left. split_and!; [done|done|]. exists a, x, b. split; [done|]. by eapply Hins.
      * right. by split_and!.
Qed.
End Compaction.
