(* ===== verification/SessionDemo.v ===== *)
(** * Recording, evidence, compaction and rollback on concrete sessions

    The theorems on the history of a session at small inputs, and the replay of a rollout on
    the context manager itself. *)
From S2P Require Import Prelude Width History Truncation WorldState Rollout RolloutBounded GuardianHistory ContextManager Compact.

Set Default Goal Selector "!".

Local Open Scope Z_scope.

Module SessionDemo.
Import RolloutBounded.RolloutDemo.

Abbreviation ritem := (@ResponseItem unit).
Abbreviation manager_t := (@ContextManager unit (@TranscriptHistory unit) unit (@TurnContextItem unit) WorldStateSnapshot).

(** Every item is written in two pieces. *)
Definition writes (_ : ritem) : list Z := [2; 40].
Definition reasoning (_ : option (list unit)) : list Z := [10].
Definition meta_pieces (_ : option rstr) (_ : rstr) (_ : option unit) (_ : option (@InternalChatMessageMetadataPassthrough unit)) : list Z := [5].
Definition content_pieces (_ : @ContentItem unit) : list Z := [20].
Definition no_fragment (_ : @ContentItem unit) : bool := false.
Definition audio_tokens (_ : rstr) : Z := 7.

Definition said (id text : rstr) : ritem := Message (Some id) (lit "user") [InputText text] None None.
Definition answered (id text : rstr) : ritem := Message (Some id) (lit "assistant") [InputText text] None None.

Lemma writes_nonneg : forall i, Forall (fun n => 0 <= n) (writes i).
Proof. intros i. repeat constructor; lia. Qed.

Lemma reasoning_nonneg : forall c, Forall (fun n => 0 <= n) (reasoning c).
Proof. intros c. repeat constructor; lia. Qed.

(** ** Evidence *)

Definition evidence_ops : list (@Op unit) :=
  [ORecord (said (lit "1") (lit "do it")); ORecord (answered (lit "2") (lit "done")); ORecord (said (lit "3") (lit "no"));
   OTruncate (said (lit "3") (lit "no")); ORecord (said (lit "4") (lit "stop"))].

Abbreviation run_ops := (run writes reasoning meta_pieces content_pieces 100).

Lemma retention_bounded_witness :
  bounded (run_ops evidence_ops (transcript_new 0)) /\ length (t_items (run_ops evidence_ops (transcript_new 0))) = 3%nat.
Proof.
  split; [|vm_compute; reflexivity].
  apply (retention_bounded writes reasoning meta_pieces content_pieces 100 ltac:(unfold MAX_BYTES_PER_KIND; lia) writes_nonneg reasoning_nonneg evidence_ops 0).
Defined.

Lemma generation_guards_prefix_witness :
  let h := run_ops (take 2 evidence_ops) (transcript_new 0) in
  generation (run_ops [ORecord (said (lit "3") (lit "no"))] h) = 0
  /\ t_items h `prefix_of` t_items (run_ops [ORecord (said (lit "3") (lit "no"))] h).
Proof.
  split; [vm_compute; reflexivity|].
  apply (generation_guards_prefix writes reasoning meta_pieces content_pieces 100 [ORecord (said (lit "3") (lit "no"))]
           (run_ops (take 2 evidence_ops) (transcript_new 0))); vm_compute; first [reflexivity|split; discriminate].
Defined.

Lemma evidence_only_forgets_witness :
  sublist (transcript_items (run_ops evidence_ops (transcript_new 0)))
    [said (lit "1") (lit "do it"); answered (lit "2") (lit "done"); said (lit "4") (lit "stop")].
Proof. apply (evidence_only_forgets writes reasoning meta_pieces content_pieces 100 evidence_ops 0). vm_compute. reflexivity. Defined.

(** ** Rollback *)

Definition context_message (text : rstr) : envelope_t := message (lit "developer") text.

Definition session : manager_t :=
  {| items := [context_message (lit "<permissions instructions> ask </permissions instructions>"); message (lit "user") (lit "one");
               message (lit "assistant") (lit "1"); context_message (lit "<collaboration_mode> plan"); message (lit "user") (lit "two");
               message (lit "assistant") (lit "2")];
     review_history := None; history_version := 0; user_message_revision := 0; token_info := None; reference_context_item := None;
     world_state_baseline := Some {| sections := [] |} |}.

Abbreviation rolled n :=
  (drop_last_n_user_turns no_fragment no_context writes reasoning meta_pieces content_pieces 100 session n).

(** The turn is dropped with the context in front of it. *)
Lemma rollback_drops_turns_witness : turns no_fragment no_context (items (rolled 1%nat)) = 1%nat /\ items (rolled 1%nat) = take 3 (items session).
Proof.
  split; [|vm_compute; reflexivity].
  destruct (rollback_drops_turns no_fragment no_context writes reasoning meta_pieces content_pieces 100 session 1 ltac:(lia)) as [H1 _].
  rewrite H1. vm_compute. reflexivity.
Defined.

(** ** Recording *)

Definition output_item : envelope_t :=
  envelope_new (FunctionCallOutput None (Some (lit "c")) None None (from_text (lit "0123456789")) None).

Lemma recording_appends_witness :
  exists self', record_annotated_items no_fragment writes reasoning meta_pieces content_pieces 100 audio_tokens session
      [output_item; message (lit "system") (lit "hidden"); message (lit "user") (lit "three")] (Bytes 1000) = Ok self'
  /\ user_message_revision self' = 1 /\ length (items self') = 8%nat.
Proof.
  destruct (recording_appends no_fragment writes reasoning meta_pieces content_pieces 100 audio_tokens session
    [output_item; message (lit "system") (lit "hidden"); message (lit "user") (lit "three")] (Bytes 1000)) as (self' & new & Hr & Hi & Hf & Hu & _).
  - intros url. vm_compute. discriminate.
  - vm_compute. split; discriminate.
  - repeat constructor. vm_compute. discriminate.
  - vm_compute. split; discriminate.
  - exists self'. split; [exact Hr|]. rewrite Hu, Hi, length_app. apply Forall2_length in Hf. rewrite <- Hf. vm_compute. split; reflexivity.
Defined.

(** ** Compaction *)

Definition short (text : rstr) : @CompactedUserMessage unit := {| cu_message := text; cu_passthrough := None; cu_harness_metadata := None |}.

Definition two_messages : list (@CompactedUserMessage unit) := [short (lit "abcdefghijklmnopqrstuvwx"); short (lit "newest")].

(** Two tokens are left for the older message, which has six. *)
Lemma compaction_keeps_newest_witness :
  exists selected,
    build_compacted_history_with_limit [] two_messages (lit "") 4
    = Ok (map user_message_item (reverse selected) ++ [summary_item (lit "(no summary available)")])
    /\ selection 4 (reverse two_messages) selected
    /\ exists h, build_compacted_history_with_limit [] two_messages (lit "") 4 = Ok h /\ length h = 3%nat.
Proof.
  destruct (compaction_keeps_newest [] two_messages (lit "") 4) as (selected & Hb & Hs).
  - vm_compute. split; discriminate.
  - repeat constructor; vm_compute; discriminate.
  - exists selected. split; [exact Hb|]. split; [exact Hs|]. eexists. split; [vm_compute; reflexivity|reflexivity].
Defined.

(** ** A turn with two messages *)

(** The user adds a message while the second turn runs. *)
Definition steered : list item_t :=
  [SessionMeta meta; REventMsg (TurnStarted (lit "t1")); context_of (lit "t1") (lit "m1"); user (lit "one"); reply (lit "1");
   REventMsg (TurnComplete (lit "t1")); REventMsg (TurnStarted (lit "t2")); context_of (lit "t2") (lit "m2"); user (lit "two");
   reply (lit "2"); user (lit "and this"); reply (lit "3"); REventMsg (TurnComplete (lit "t2")); REventMsg (ThreadRolledBack 1)].

Definition demo_manager := replay_manager (fun _ => None) [] no_fragment no_context writes reasoning meta_pieces content_pieces 100 audio_tokens
  (fun _ : unit => Other) (Bytes 1000) (TokenInfo := unit).

(** A rollback of one turn drops half of the second turn from the history, the second message
    and what follows, and all of it from the settings: the model continues the second turn
    with the settings and the reference context of the first. *)
Theorem steered_turn_halved :
  exists r, reconstruct_history_from_rollout (H := res Empty_set manager_t) (CM := demo_manager) no_context no_context parse_id version steered = Ok r
  /\ map item (r_history r) = map item [message (lit "user") (lit "one"); message (lit "assistant") (lit "1");
                                        message (lit "user") (lit "two"); message (lit "assistant") (lit "2")]
  /\ option_map model (r_previous_turn_settings r) = Some (lit "m1")
  /\ option_map tc_turn_id (r_reference_context_item r) = Some (Some (lit "t1")).
Proof. eexists. split; [vm_compute; reflexivity|]. vm_compute. auto. Qed.
End SessionDemo.
