(* ===== verification/Media.v ===== *)
(** * Inline media

    Models [workx-rs/utils/audio/src/lib.rs] (which audio a request may carry, and how many
    tokens it counts for), the data URLs and the estimate for images of
    [workx-rs/core/src/context_manager/history.rs], and the cache of
    [workx-rs/utils/cache/src/lib.rs] through which both estimates go. The [lru] and [sha1]
    crates, the decoders of base64 and of images and the probe for the length of audio are
    parameters. *)
From S2P Require Import Prelude Width History Truncation ContextManager.

Set Default Goal Selector "!".

Local Open Scope Z_scope.

(** ** The cache *)

(** The operations of [lru::LruCache] that are used. *)
Class LruCrate (K V : Type) := {
  Lru : Type;
  lru_get : K -> Lru -> option V * Lru;
  lru_put : K -> V -> Lru -> Lru;
}.
Arguments Lru K V {_}.

(** What is documented of them: a cache answers with the value that was put last for a key,
    if it has not been dropped. *)
Class LruLaws {K V : Type} (L : LruCrate K V) := {
  lru_has : Lru K V -> K -> V -> Prop;
  lru_get_has k c v : fst (lru_get k c) = Some v -> lru_has c k v;
  lru_get_keeps k c k' v : lru_has (snd (lru_get k c)) k' v -> lru_has c k' v;
  lru_put_has k v c k' v' : lru_has (lru_put k v c) k' v' -> (k' = k /\ v' = v) \/ (k' ≠ k /\ lru_has c k' v');
}.

Section Cache.
Context {K V : Type} {L : LruCrate K V}.

(** [BlockingLruCache::get_or_insert_with]; [runtime] says whether there is a Tokio runtime. *)
Definition get_or_insert_with (runtime : bool) (self : Lru K V) (key : K) (value : V) : V * Lru K V :=
  if runtime then
    match lru_get key self with
    | (Some v, self) => (v, self)
    | (None, self) => (value, lru_put key value self)
    end
  else (value, self).

(** A sequence of calls for arguments [l], as the estimators make them. *)
Fixpoint cached_calls {A} (digest : A -> K) (compute : A -> V) (l : list (bool * A)) (self : Lru K V) : list V * Lru K V :=
  match l with
  | [] => ([], self)
  | (runtime, a) :: l =>
      let '(v, self) := get_or_insert_with runtime self (digest a) (compute a) in
      let '(vs, self) := cached_calls digest compute l self in
      (v :: vs, self)
  end.
End Cache.

(** ** Data URLs *)

Definition eq_ignore_ascii_case (a b : rstr) : bool := to_ascii_lowercase a =s to_ascii_lowercase b.

(** [s.get(..n)] and [s.get(n..)]. *)
Definition get_to (n : Z) (s : rstr) : option rstr :=
  match split_at_byte (E := Empty_set) n s with Ok (a, _) => Some a | _ => None end.

Definition get_from (n : Z) (s : rstr) : option rstr :=
  match split_at_byte (E := Empty_set) n s with Ok (_, b) => Some b | _ => None end.

Definition has_prefix_ignoring_case (prefix s : rstr) : bool :=
  match get_to (byte_len prefix) s with Some p => eq_ignore_ascii_case p prefix | None => false end.

Definition COMMA : char := 44.
Definition SEMICOLON : char := 59.

(** The slice [&metadata["data:".len()..]] is in range ([data_url_slice]): [get_from] is
    never [None] here. *)
Definition parse_base64_data_url (url media_type_prefix : rstr) : option rstr :=
  if negb (has_prefix_ignoring_case (lit "data:") url) then None
  else
    '(metadata, payload) ← split_once COMMA url;
    metadata_without_scheme ← get_from 5 metadata;
    let metadata_parts := split_char SEMICOLON metadata_without_scheme in
    let mime_type := default [] (head metadata_parts) in
    let has_base64_marker := existsb (eq_ignore_ascii_case (lit "base64")) (tail metadata_parts) in
    if negb (has_prefix_ignoring_case media_type_prefix mime_type) then None
    else if negb has_base64_marker then None
    else Some payload.

Definition parse_base64_image_data_url (url : rstr) : option rstr := parse_base64_data_url url (lit "image/").
Definition parse_base64_audio_data_url (url : rstr) : option rstr := parse_base64_data_url url (lit "audio/").

(** ** Images *)

Definition RESIZED_IMAGE_BYTES_ESTIMATE : Z := 7373.
Definition ORIGINAL_IMAGE_PATCH_SIZE : Z := 32.
Definition ORIGINAL_IMAGE_MAX_PATCHES : Z := 10000.

Definition I64_MIN : Z := - 2 ^ 63.
Definition sat_i64 (n : Z) : Z := Z.max I64_MIN (Z.min n I64_MAX).
Definition i64_saturating_add (a b : Z) : Z := sat_i64 (a + b).
Definition i64_saturating_sub (a b : Z) : Z := sat_i64 (a - b).
Definition i64_saturating_mul (a b : Z) : Z := sat_i64 (a * b).
(** [i64::try_from(n).unwrap_or(i64::MAX)] of a [usize], and back for one that is not
    negative. *)
Definition i64_of_usize (n : Z) : Z := Z.min n I64_MAX.
Definition usize_of_i64 (n : Z) : Z := if n <? 0 then USIZE_MAX else n.

Inductive ImageDetail := Auto | Low | High | Original.

Section Media.
Context (base64_decode : rstr -> option (list Z)) (base64_encode : list Z -> rstr).
(** [image::load_from_memory], by the width and the height of the image it finds. *)
Context (image_size : list Z -> option (Z * Z)).

(** The computation that [estimate_original_image_bytes] caches. *)
Definition original_image_bytes (image_url : rstr) : option Z :=
  payload ← parse_base64_image_data_url image_url;
  bytes ← base64_decode payload;
  '(width, height) ← image_size bytes;
  let patch_size := ORIGINAL_IMAGE_PATCH_SIZE in
  let patches_wide := i64_saturating_add width (i64_saturating_sub patch_size 1) / patch_size in
  let patches_high := i64_saturating_add height (i64_saturating_sub patch_size 1) / patch_size in
  let patch_count := usize_of_i64 (i64_saturating_mul patches_wide patches_high) in
  let patch_count := Z.min patch_count ORIGINAL_IMAGE_MAX_PATCHES in
  Some (i64_of_usize (approx_bytes_for_tokens patch_count)).

Definition estimate_image_bytes (image_url : rstr) (detail : option ImageDetail) : Z :=
  match detail with
  | Some Original => default RESIZED_IMAGE_BYTES_ESTIMATE (original_image_bytes image_url)
  | _ => RESIZED_IMAGE_BYTES_ESTIMATE
  end.

(** ** Audio *)

Definition AUDIO_PROCESSING_ERROR_PLACEHOLDER : rstr := lit "audio content omitted because it could not be processed".
Definition AUDIO_TOO_LARGE_PLACEHOLDER : rstr :=
  lit "audio content omitted because it exceeded the supported size limit; use a smaller audio file".
Definition UNSUPPORTED_AUDIO_FORMAT_PLACEHOLDER : rstr :=
  lit "audio content omitted because its format is not supported; use wav, mp3, m4a, webm, or ogg".

Definition MAX_PROMPT_AUDIO_INPUT_BYTES : Z := 50 * 1024 * 1024.
Definition MAX_PROMPT_AUDIO_BASE64_BYTES : Z := (MAX_PROMPT_AUDIO_INPUT_BYTES + 2) / 3 * 4.

Inductive AudioPreparationError :=
| InvalidDataUrl (reason : rstr)
| UnsupportedFormat
| AudioTooLarge (size : Z).

Definition placeholder (e : AudioPreparationError) : rstr :=
  match e with
  | InvalidDataUrl _ => AUDIO_PROCESSING_ERROR_PLACEHOLDER
  | UnsupportedFormat => UNSUPPORTED_AUDIO_FORMAT_PLACEHOLDER
  | AudioTooLarge _ => AUDIO_TOO_LARGE_PLACEHOLDER
  end.

Definition is_data_url (audio_url : rstr) : bool := has_prefix_ignoring_case (lit "data:") audio_url.

Definition canonical_audio_mime (mime : rstr) : option rstr :=
  let same text := eq_ignore_ascii_case mime (lit text) in
  if same "audio/wav"%string || same "audio/x-wav"%string || same "audio/wave"%string || same "audio/vnd.wave"%string
  then Some (lit "audio/wav")
  else if same "audio/mpeg"%string || same "audio/mp3"%string then Some (lit "audio/mpeg")
  else if same "audio/mp4"%string || same "audio/m4a"%string || same "audio/x-m4a"%string then Some (lit "audio/mp4")
  else if same "audio/webm"%string then Some (lit "audio/webm")
  else if same "audio/ogg"%string then Some (lit "audio/ogg")
  else None.

(** The new URL, or why there is none. *)
Definition prepare_audio (audio_url : rstr) : res AudioPreparationError rstr :=
  if negb (is_data_url audio_url) then Err (InvalidDataUrl (lit "audio input must be a data URL"))
  else
    '(metadata, payload) ← ok_or (split_once COMMA audio_url) (InvalidDataUrl (lit "missing payload separator"));
    metadata ← ok_or (get_from 5 metadata) (InvalidDataUrl (lit "missing data URL prefix"));
    let parts := split_char SEMICOLON metadata in
    mime ← ok_or (mime ← head parts; if is_empty mime then None else Some mime) (InvalidDataUrl (lit "missing media type"));
    canonical_mime ← ok_or (canonical_audio_mime mime) UnsupportedFormat;
    if negb (existsb (eq_ignore_ascii_case (lit "base64")) (tail parts))
    then Err (InvalidDataUrl (lit "audio payload is not base64 encoded"))
    else if MAX_PROMPT_AUDIO_BASE64_BYTES <? byte_len payload then Err (AudioTooLarge (byte_len payload))
    else
      bytes ← ok_or (base64_decode payload) (InvalidDataUrl (lit "invalid base64 payload"));
      if MAX_PROMPT_AUDIO_INPUT_BYTES <? Z.of_nat (length bytes) then Err (AudioTooLarge (Z.of_nat (length bytes)))
      else Ok (lit "data:" ++ canonical_mime ++ lit ";base64," ++ base64_encode bytes).

Section Items.
Context {Opaque : Type}.

Definition prepare_message_item (c : @ContentItem Opaque) : ContentItem :=
  match c with
  | InputAudio audio_url =>
      match prepare_audio audio_url with
      | Ok url => InputAudio url
      | Err error => InputText (placeholder error)
      | Panic => c
      end
  | _ => c
  end.

Definition prepare_message_content (l : list (@ContentItem Opaque)) : list ContentItem := map prepare_message_item l.

Definition prepare_tool_output_item (c : @FunctionCallOutputContentItem Opaque) : FunctionCallOutputContentItem :=
  match c with
  | OutInputAudio audio_url =>
      match prepare_audio audio_url with
      | Ok url => OutInputAudio url
      | Err error => OutInputText (placeholder error)
      | Panic => c
      end
  | _ => c
  end.

Definition prepare_tool_output_content (l : list (@FunctionCallOutputContentItem Opaque)) : list FunctionCallOutputContentItem :=
  map prepare_tool_output_item l.

Definition prepare_output (output : @FunctionCallOutputPayload Opaque) : FunctionCallOutputPayload :=
  match body output with
  | BodyContentItems content => {| body := BodyContentItems (prepare_tool_output_content content); success := success output |}
  | BodyText _ => output
  end.

Definition prepare_response_item (i : @ResponseItem Opaque) : ResponseItem :=
  match i with
  | Message id role content phase meta => Message id role (prepare_message_content content) phase meta
  | FunctionCallOutput id call_id name namespace output meta =>
      FunctionCallOutput id call_id name namespace (prepare_output output) meta
  | CustomToolCallOutput id call_id name output meta => CustomToolCallOutput id call_id name (prepare_output output) meta
  | _ => i
  end.

Definition prepare_response_items (l : list (@ResponseItem Opaque)) : list ResponseItem := map prepare_response_item l.
End Items.

(** The probe of [symphonia] for a media type and bytes: the duration of the audio track and
    the time base that it counts in. *)
Context (probe_audio : rstr -> list Z -> option (Z * (Z * Z))).

(** The quotient of two [f64]s: enough bits of the exact quotient, and one that tells
    whether it has more. *)
Definition div_f64 (a b : Z * Z) : Z * Z :=
  let n := a.1 * 2 ^ 120 in
  round_f64 (2 * (n / b.1) + (if n mod b.1 =? 0 then 0 else 1)) (a.2 - b.2 - 121).

Definition audio_duration_seconds (audio_url : rstr) : option (Z * Z) :=
  '(metadata, payload) ← split_once COMMA audio_url;
  metadata ← get_from 5 metadata;
  let parts := split_char SEMICOLON metadata in
  mime ← head parts;
  canonical_mime ← canonical_audio_mime mime;
  if negb (existsb (eq_ignore_ascii_case (lit "base64")) (tail parts)) then None
  else
    bytes ← base64_decode payload;
    '(duration, (numer, denom)) ← probe_audio canonical_mime bytes;
    Some (div_f64 (mul_f64 (round_f64 duration 0) (round_f64 numer 0)) (round_f64 denom 0)).

(** The computation that [estimate_audio_token_count] caches. *)
Definition audio_token_count (audio_url : rstr) : Z :=
  match audio_duration_seconds audio_url with
  | None => approx_token_count audio_url
  | Some duration_seconds => ceil_usize (mul_f64 duration_seconds (10, 0))
  end.
End Media.

(** * Properties of inline media

    What the cache of estimates answers is what would be computed ([cached_estimates_agree]);
    prepared audio is in a form that preparing leaves alone, within its limits
    ([prepared_audio_stable]). With witnesses at an LRU list and a small base64. *)
(** ** The cache *)

Section Cache.
Context {K V : Type} {L : LruCrate K V} {Laws : LruLaws L}.
Context {A : Type} (digest : A -> K) (compute : A -> V).

(** Every entry for the digest of an argument in [dom] is the value for that argument. *)
Definition faithful (dom : list A) (c : Lru K V) : Prop :=
  forall a v, a ∈ dom -> lru_has c (digest a) v -> v = compute a.

Lemma get_or_insert_faithful dom runtime c a :
  (forall a b, a ∈ dom -> b ∈ dom -> digest a = digest b -> a = b) -> a ∈ dom -> faithful dom c ->
  fst (get_or_insert_with runtime c (digest a) (compute a)) = compute a
  /\ faithful dom (snd (get_or_insert_with runtime c (digest a) (compute a))).
Proof.
  intros Hinj Ha Hc. unfold get_or_insert_with. destruct runtime; [|done].
  pose proof (lru_get_has (digest a) c) as Hget. pose proof (lru_get_keeps (digest a) c) as Hkeep.
  destruct (lru_get (digest a) c) as [[v|] c'] eqn:E; cbn [fst snd] in *.
  - split; [eauto|]. intros b w Hb Hw. eauto.
  - split; [done|]. intros b w Hb Hw. apply lru_put_has in Hw as [[Hd ->]|[_ Hw]]; [|eauto].
    f_equal. symmetry. by apply Hinj.
Qed.

Lemma cached_calls_faithful l c :
  (forall a b, a ∈ l.*2 -> b ∈ l.*2 -> digest a = digest b -> a = b) ->
  forall l', l' ⊆ l -> faithful l.*2 c -> fst (cached_calls digest compute l' c) = map compute l'.*2.
Proof.
  intros Hinj l'. revert c. induction l' as [|[runtime a] l' IH]; intros c Hsub Hc; [done|].
  destruct (get_or_insert_faithful l.*2 runtime c a Hinj) as [Hv Hc']; [|done|].
  { apply list_elem_of_fmap. exists (runtime, a). set_solver. }
  cbn [cached_calls]. destruct (get_or_insert_with runtime c (digest a) (compute a)) as [v c1]; cbn [fst snd] in *.
  specialize (IH c1 ltac:(set_solver) Hc'). destruct (cached_calls digest compute l' c1). cbn in *. by subst.
Qed.

(** However often and in whatever order estimates are asked for, with a runtime or without,
    and whatever the cache drops in between, the answers are those that would be computed
    anew, as long as the digests of the arguments differ. *)
Theorem cached_estimates_agree l c :
  (forall a b, a ∈ l.*2 -> b ∈ l.*2 -> digest a = digest b -> a = b) ->
  (forall k v, ~ lru_has c k v) ->
  fst (cached_calls digest compute l c) = map compute l.*2.
Proof.
  intros Hinj Hempty. apply (cached_calls_faithful l); [done..|]. intros a v _ H. by destruct (Hempty _ _ H).
Qed.
End Cache.

(** ** Data URLs *)

Lemma split_at_byte_Ok n s a b : split_at_byte (E := Empty_set) n s = Ok (a, b) <-> s = a ++ b /\ byte_len a = n.
Proof.
  split.
  - revert n a. induction s as [|c s IH]; intros n a; cbn [split_at_byte].
    + destruct (Z.eqb_spec n 0); [|done]. intros [= <- <-]. done.
    + destruct (Z.eqb_spec n 0); [by intros [= <- <-]|]. destruct (len_utf8 c <=? n); [|done].
      destruct (split_at_byte (n - len_utf8 c) s) as [[a' b']| |] eqn:E; cbn [mbind res_bind]; [|done..].
      intros [= <- <-]. apply IH in E as [-> Hn]. split; [done|]. cbn [byte_len]. lia.
  - intros [-> <-]. apply split_at_byte_app.
Qed.

Lemma get_from_Some n s b : get_from n s = Some b <-> exists a, s = a ++ b /\ byte_len a = n.
Proof.
  unfold get_from. split.
  - destruct (split_at_byte n s) as [[a b']| |] eqn:E; [|done..]. intros [= ->]. apply split_at_byte_Ok in E. eauto.
  - intros (a & Ha). apply split_at_byte_Ok in Ha. by rewrite Ha.
Qed.

Lemma get_to_Some n s a : get_to n s = Some a <-> exists b, s = a ++ b /\ byte_len a = n.
Proof.
  unfold get_to. split.
  - destruct (split_at_byte n s) as [[a' b]| |] eqn:E; [|done..]. intros [= ->]. apply split_at_byte_Ok in E. eauto.
  - intros (b & Ha). apply split_at_byte_Ok in Ha. by rewrite Ha.
Qed.

Lemma ascii_lower_inv c d : ascii_lower c = d -> (d < 97 \/ 122 < d) -> c = d.
Proof. unfold ascii_lower. intros H Hd. case_match; lia. Qed.

Lemma has_prefix_data url :
  has_prefix_ignoring_case (lit "data:") url = true ->
  exists p rest, url = p ++ rest /\ byte_len p = 5 /\ to_ascii_lowercase p = lit "data:".
Proof.
  unfold has_prefix_ignoring_case. change (byte_len (lit "data:")) with 5.
  destruct (get_to 5 url) as [p|] eqn:E; [|done]. intros H%streq_true.
  apply get_to_Some in E as (rest & -> & Hp). by exists p, rest.
Qed.

Lemma comma_not_data p : to_ascii_lowercase p = lit "data:" -> COMMA ∉ p.
Proof.
  intros Hp H. apply (list_elem_of_fmap_2 ascii_lower) in H. unfold to_ascii_lowercase in Hp.
  change (ascii_lower COMMA ∈ map ascii_lower p) in H. rewrite Hp in H. by vm_compute in H; repeat (apply elem_of_cons in H as [H|H]; [done|]); apply elem_of_nil in H.
Qed.

(** The slice of [parse_base64_data_url] does not panic. *)
Lemma data_url_slice url metadata payload :
  has_prefix_ignoring_case (lit "data:") url = true -> split_once COMMA url = Some (metadata, payload) ->
  is_Some (get_from 5 metadata).
Proof.
  intros (p & rest & -> & Hp & Hl)%has_prefix_data [Hs Hm]%split_once_Some.
  apply app_eq_app in Hs as (k & [[-> Hk]|[-> Hk]]).
  - destruct k as [|c k].
    + exists []. apply get_from_Some. exists metadata. rewrite app_nil_r in *. done.
    + simplify_eq/=. destruct (comma_not_data _ Hl). set_solver.
  - exists k. apply get_from_Some. by exists p.
Qed.

(** ** Preparing audio *)

Section Audio.
Context {Opaque : Type} (base64_decode : rstr -> option (list Z)) (base64_encode : list Z -> rstr).

(** Base64 with padding: what was read is read back from what is written for it, and four
    characters are written for three bytes. *)
Hypothesis encode_decode : forall payload bytes, base64_decode payload = Some bytes -> base64_decode (base64_encode bytes) = Some bytes.
Hypothesis encode_length : forall payload bytes, base64_decode payload = Some bytes ->
  byte_len (base64_encode bytes) = (Z.of_nat (length bytes) + 2) / 3 * 4.

Definition CANONICAL : list rstr := [lit "audio/wav"; lit "audio/mpeg"; lit "audio/mp4"; lit "audio/webm"; lit "audio/ogg"].

(** The form of the URLs that are sent. *)
Definition prepared_url (url : rstr) : Prop :=
  exists mime payload bytes, mime ∈ CANONICAL /\ base64_decode payload = Some bytes
    /\ Z.of_nat (length bytes) <= MAX_PROMPT_AUDIO_INPUT_BYTES
    /\ url = lit "data:" ++ mime ++ lit ";base64," ++ base64_encode bytes.

Definition content_prepared (c : @ContentItem Opaque) : Prop :=
  match c with InputAudio url => prepared_url url | _ => True end.

Definition out_content_prepared (c : @FunctionCallOutputContentItem Opaque) : Prop :=
  match c with OutInputAudio url => prepared_url url | _ => True end.

Definition item_prepared (i : @ResponseItem Opaque) : Prop :=
  match i with
  | Message _ _ content _ _ => Forall content_prepared content
  | FunctionCallOutput _ _ _ _ output _ | CustomToolCallOutput _ _ _ output _ =>
      match body output with BodyContentItems l => Forall out_content_prepared l | BodyText _ => True end
  | _ => True
  end.

Lemma canonical_in mime canonical : canonical_audio_mime mime = Some canonical -> canonical ∈ CANONICAL.
Proof. unfold canonical_audio_mime, CANONICAL. repeat case_match; intros [= <-]; set_solver. Qed.

Lemma prepare_audio_form url url' : prepare_audio base64_decode base64_encode url = Ok url' -> prepared_url url'.
Proof.
  unfold prepare_audio, prepared_url. intros H. case_match; [done|].
  destruct (split_once COMMA url) as [[m p]|]; cbn [ok_or mbind res_bind] in H; [|done].
  destruct (get_from 5 m) as [m'|]; cbn [ok_or mbind res_bind] in H; [|done].
  match type of H with context [ok_or ?o (InvalidDataUrl (lit "missing media type"))] => destruct o as [mime|] end; cbn [ok_or mbind res_bind] in H; [|done].
  destruct (canonical_audio_mime mime) as [canonical|] eqn:Ec; cbn [ok_or mbind res_bind] in H; [|done].
  case_match; [done|]. case_match; [done|].
  destruct (base64_decode p) as [bytes|] eqn:Eb; cbn [ok_or mbind res_bind] in H; [|done].
  destruct (Z.ltb_spec MAX_PROMPT_AUDIO_INPUT_BYTES (Z.of_nat (length bytes))); [done|]. injection H as <-.
  exists canonical, p, bytes. eauto using canonical_in.
Qed.

(** The five URL prefixes are read as themselves. *)
Lemma canonical_read mime rest :
  mime ∈ CANONICAL ->
  is_data_url (lit "data:" ++ mime ++ lit ";base64," ++ rest) = true
  /\ split_once COMMA (lit "data:" ++ mime ++ lit ";base64," ++ rest) = Some (lit "data:" ++ mime ++ lit ";base64", rest)
  /\ get_from 5 (lit "data:" ++ mime ++ lit ";base64") = Some (mime ++ lit ";base64")
  /\ split_char SEMICOLON (mime ++ lit ";base64") = [mime; lit "base64"]
  /\ is_empty mime = false /\ canonical_audio_mime mime = Some mime.
Proof.
  unfold CANONICAL. intros H. repeat (apply elem_of_cons in H as [->|H]; [by vm_compute|]). by apply elem_of_nil in H.
Qed.

Lemma prepare_audio_prepared url : prepared_url url -> prepare_audio base64_decode base64_encode url = Ok url.
Proof.
  intros (mime & payload & bytes & Hm & Hd & Hl & ->).
  destruct (canonical_read mime (base64_encode bytes) Hm) as (H1 & H2 & H3 & H4 & H5 & H6).
  unfold prepare_audio. rewrite H1, H2. cbn [negb ok_or mbind res_bind]. rewrite H3. cbn [ok_or mbind res_bind].
  rewrite H4. cbn [head tail mbind option_bind]. rewrite H5. cbn [ok_or mbind res_bind]. rewrite H6.
  cbn [ok_or mbind res_bind existsb]. change (eq_ignore_ascii_case (lit "base64") (lit "base64")) with true. cbn [orb negb].
  rewrite (encode_length _ _ Hd).
  destruct (Z.ltb_spec MAX_PROMPT_AUDIO_BASE64_BYTES ((Z.of_nat (length bytes) + 2) / 3 * 4)) as [Hlt|].
  { unfold MAX_PROMPT_AUDIO_BASE64_BYTES in Hlt.
    pose proof (Z.div_le_mono (Z.of_nat (length bytes) + 2) (MAX_PROMPT_AUDIO_INPUT_BYTES + 2) 3). lia. }
  rewrite (encode_decode _ _ Hd). cbn [ok_or mbind res_bind].
  destruct (Z.ltb_spec MAX_PROMPT_AUDIO_INPUT_BYTES (Z.of_nat (length bytes))); [lia|done].
Qed.

Local Abbreviation prepare_all := (prepare_response_items base64_decode base64_encode (Opaque := Opaque)).

Lemma ok_or_bind_total {E A B} (o : option A) (e : E) (f : A -> res E B) :
  (forall a, f a ≠ Panic) -> (ok_or o e ≫= f) ≠ Panic.
Proof. intros H. by destruct o; cbn. Qed.

(** No audio URL panics, so that one that is kept has the form of a prepared URL. *)
Lemma prepare_audio_total url : prepare_audio base64_decode base64_encode url ≠ Panic.
Proof.
  unfold prepare_audio. case_match; [done|].
  repeat (first [apply ok_or_bind_total; intros ? | case_match]; try done).
Qed.

Lemma message_item_prepared c : content_prepared (prepare_message_item base64_decode base64_encode c).
Proof.
  destruct c as [| |url|]; cbn; try done. pose proof (prepare_audio_total url) as Ht. pose proof (prepare_audio_form url) as Hf.
  destruct (prepare_audio _ _ url); cbn; [by apply Hf|done|done].
Qed.

Lemma tool_output_item_prepared c : out_content_prepared (prepare_tool_output_item base64_decode base64_encode c).
Proof.
  destruct c as [| |url|]; cbn; try done. pose proof (prepare_audio_total url) as Ht. pose proof (prepare_audio_form url) as Hf.
  destruct (prepare_audio _ _ url); cbn; [by apply Hf|done|done].
Qed.

Lemma item_prepared_after i : item_prepared (prepare_response_item base64_decode base64_encode i).
Proof.
  assert (Hout : forall output : @FunctionCallOutputPayload Opaque,
    match body (prepare_output base64_decode base64_encode output) with BodyContentItems l => Forall out_content_prepared l | BodyText _ => True end).
  { intros [[|l] s]; [done|]. apply List.Forall_map, Forall_true. intros c. apply tool_output_item_prepared. }
  destruct i; cbn; try done; try apply Hout. apply List.Forall_map, Forall_true. intros c. apply message_item_prepared.
Qed.

Lemma map_id_on {A} (P : A -> Prop) (f : A -> A) l : (forall a, P a -> f a = a) -> Forall P l -> map f l = l.
Proof. intros Hf. induction 1; cbn; [done|]. f_equal; auto. Qed.

Lemma prepare_prepared_item i : item_prepared i -> prepare_response_item base64_decode base64_encode i = i.
Proof.
  assert (Hout : forall output : @FunctionCallOutputPayload Opaque,
    match body output with BodyContentItems l => Forall out_content_prepared l | BodyText _ => True end ->
    prepare_output base64_decode base64_encode output = output).
  { intros [[|l] s] H; [done|]. unfold prepare_output, prepare_tool_output_content. cbn in *. do 2 f_equal.
    eapply map_id_on; [|exact H]. intros [| |url|] Hc; cbn; try done. by rewrite prepare_audio_prepared. }
  destruct i; cbn; intros H; try done; f_equal; try by apply Hout.
  eapply map_id_on; [|exact H]. intros [| |url|] Hc; cbn; try done. by rewrite prepare_audio_prepared.
Qed.

(** What a request carries of audio after its preparation: every audio input that is left is
    a base64 data URL with one of the five media types, of bytes that decode and are within
    the limit; and preparing a prepared request again changes nothing, so that items that
    went through the history are sent as they are. *)
Theorem prepared_audio_stable l :
  Forall item_prepared (prepare_all l) /\ prepare_all (prepare_all l) = prepare_all l.
Proof.
  assert (H : Forall item_prepared (prepare_all l)).
  { apply List.Forall_map, Forall_true. apply item_prepared_after. }
  split; [done|]. eapply map_id_on; [apply prepare_prepared_item|done].
Qed.
End Audio.

(** ** Instances *)

Module MediaDemo.
(** An LRU cache of two entries, the most recently used first. *)
#[export] Instance lru_list : LruCrate Z Z := {
  Lru := list (Z * Z);
  lru_get k c :=
    match List.find (fun e => e.1 =? k) c with
    | Some e => (Some e.2, e :: List.filter (fun e => negb (e.1 =? k)) c)
    | None => (None, c)
    end;
  lru_put k v c := take 2 ((k, v) :: List.filter (fun e => negb (e.1 =? k)) c);
}.

#[export] Instance lru_list_laws : LruLaws lru_list.
Proof.
  refine {| lru_has := fun (c : Lru Z Z) k v => (k, v) ∈ (c : list (Z * Z)) |}.
  - intros k c v. cbn. destruct (List.find _ c) as [[k' v']|] eqn:E; cbn; [|done].
    apply List.find_some in E as [E Hk%Z.eqb_eq]. cbn in Hk. subst k'. intros [= ->]. by apply list_elem_of_In.
  - intros k c k' v. cbn. destruct (List.find _ c) as [e|] eqn:E; cbn; [|done].
    apply List.find_some in E as [E _]. rewrite elem_of_cons, (list_elem_of_In (List.filter _ _)), List.filter_In, <- list_elem_of_In.
    intros [->|[H _]]; [by apply list_elem_of_In|done].
  - intros k v c k' v' H. cbn -[take] in H. apply elem_of_take in H as (i & H & _). apply list_elem_of_lookup_2 in H.
    rewrite elem_of_cons, list_elem_of_In, List.filter_In, <- list_elem_of_In in H.
    destruct H as [[= -> ->]|[H Hk]]; [by left|]. right. split; [|done]. cbn in Hk. destruct (Z.eqb_spec k' k); done.
Defined.

Example cached_calls_evict :
  cached_calls (L := lru_list) (fun a => a) (fun a => a * a) [(true, 1); (true, 2); (true, 1); (true, 3); (false, 2); (true, 2)] []
  = ([1; 4; 1; 9; 4; 4], [(2, 4); (3, 9)]).
Proof. reflexivity. Qed.

(** Base64 of one file. *)
Definition encoded : rstr := lit "YXVkaW8=".
Definition decode (payload : rstr) : option (list Z) := if payload =s encoded then Some [97; 117; 100; 105; 111] else None.
Definition encode (_ : list Z) : rstr := encoded.

Definition request : list (@ResponseItem unit) :=
  [Message None (lit "user") [InputAudio (lit "DATA:audio/x-wav;rate=8000;BASE64,YXVkaW8="); InputAudio (lit "https://x/a.mp3");
                              InputAudio (lit "data:audio/flac;base64,YXVkaW8=")] None None;
   FunctionCallOutput None None None None {| body := BodyContentItems [OutInputAudio (lit "data:audio/mp3;base64,%%%")]; success := None |} None].

Example request_prepared :
  prepare_response_items decode encode request
  = [Message None (lit "user") [InputAudio (lit "data:audio/wav;base64,YXVkaW8="); InputText AUDIO_PROCESSING_ERROR_PLACEHOLDER;
                                InputText UNSUPPORTED_AUDIO_FORMAT_PLACEHOLDER] None None;
     FunctionCallOutput None None None None
       {| body := BodyContentItems [OutInputText AUDIO_PROCESSING_ERROR_PLACEHOLDER]; success := None |} None].
Proof. vm_compute. reflexivity. Qed.

Lemma prepared_audio_witness :
  prepare_response_items decode encode (prepare_response_items decode encode request) = prepare_response_items decode encode request.
Proof.
  apply (prepared_audio_stable decode encode).
  - intros payload bytes. unfold decode. case_match; [|done]. intros [= <-]. reflexivity.
  - intros payload bytes. unfold decode. case_match; [|done]. intros [= <-]. reflexivity.
Defined.
End MediaDemo.
