(* ===== verification/TokenEstimate.v ===== *)
(** * Token estimates and the context window

    Models the estimates of [workx-rs/core/src/context_manager/history.rs]: how many tokens
    an item counts for when its inline media are not counted as text, and how many the
    active context has; [TokenUsage] and [TokenUsageInfo] of
    [workx-rs/protocol/src/protocol.rs], what servers report; the compaction window of
    [workx-rs/core/src/state/auto_compact_window.rs], and from all of these the status in
    [workx-rs/core/src/session/context_window.rs] that decides when a session is compacted.

    [json_len] is the number of bytes that [serde_json] writes for an item, if it can;
    [agent_content] and [image_detail] read the content of agent messages and the detail of
    images, which items carry along. [checked] says whether the build checks for overflow
    of [i64]; otherwise sums wrap around. *)
From S2P Require Import Prelude Width History Truncation Rollout ContextManager Media.

Set Default Goal Selector "!".

Local Open Scope Z_scope.

(** ** What servers report *)

Definition i64_checked (checked : bool) (n : Z) : res Empty_set Z :=
  if (I64_MIN <=? n) && (n <=? I64_MAX) then Ok n
  else if checked then Panic
  else Ok ((n + 2 ^ 63) mod 2 ^ 64 - 2 ^ 63).

Section Usage.
Context {Number : Type} (checked : bool).

Record TokenUsage := {
  input_tokens : Z;
  cached_input_tokens : Z;
  cache_write_input_tokens : Z;
  output_tokens : Z;
  reasoning_output_tokens : Z;
  total_tokens : Z;
  codex_rollout_budget_units : option Number;
}.

Definition usage_of_total (total : Z) : TokenUsage :=
  {| input_tokens := 0; cached_input_tokens := 0; cache_write_input_tokens := 0; output_tokens := 0;
     reasoning_output_tokens := 0; total_tokens := total; codex_rollout_budget_units := None |}.

Definition usage_default : TokenUsage := usage_of_total 0.

Definition add_assign (self other : TokenUsage) : res Empty_set TokenUsage :=
  input ← i64_checked checked (input_tokens self + input_tokens other);
  cached ← i64_checked checked (cached_input_tokens self + cached_input_tokens other);
  cache_write ← i64_checked checked (cache_write_input_tokens self + cache_write_input_tokens other);
  output ← i64_checked checked (output_tokens self + output_tokens other);
  reasoning ← i64_checked checked (reasoning_output_tokens self + reasoning_output_tokens other);
  total ← i64_checked checked (total_tokens self + total_tokens other);
  Ok {| input_tokens := input; cached_input_tokens := cached; cache_write_input_tokens := cache_write;
        output_tokens := output; reasoning_output_tokens := reasoning; total_tokens := total;
        codex_rollout_budget_units := codex_rollout_budget_units self |}.

Definition is_zero (self : TokenUsage) : bool := total_tokens self =? 0.
Definition cached_input (self : TokenUsage) : Z := Z.max (cached_input_tokens self) 0.
Definition non_cached_input (self : TokenUsage) : res Empty_set Z :=
  n ← i64_checked checked (input_tokens self - cached_input self); Ok (Z.max n 0).
Definition blended_total (self : TokenUsage) : res Empty_set Z :=
  non_cached ← non_cached_input self;
  n ← i64_checked checked (non_cached + Z.max (output_tokens self) 0);
  Ok (Z.max n 0).

Definition BASELINE_TOKENS : Z := 12000.

(** [f64::round] of a value that is not negative. *)
Definition round_i64 (a : Z * Z) : Z :=
  if 0 <=? a.2 then a.1 * 2 ^ a.2 else (a.1 + 2 ^ (- a.2 - 1)) / 2 ^ (- a.2).

Definition percent_of_context_window_remaining (self : TokenUsage) (context_window : Z) : res Empty_set Z :=
  if context_window <=? BASELINE_TOKENS then Ok 0
  else
    effective_window ← i64_checked checked (context_window - BASELINE_TOKENS);
    above ← i64_checked checked (total_tokens self - BASELINE_TOKENS);
    let used := Z.max above 0 in
    left ← i64_checked checked (effective_window - used);
    let remaining := Z.max left 0 in
    let percent := mul_f64 (div_f64 (round_f64 remaining 0) (round_f64 effective_window 0)) (100, 0) in
    Ok (Z.min (round_i64 percent) 100).

Record TokenUsageInfo := {
  total_token_usage : TokenUsage;
  last_token_usage : TokenUsage;
  model_context_window : option Z;
}.

Definition append_last_usage (self : TokenUsageInfo) (last : TokenUsage) : res Empty_set TokenUsageInfo :=
  total ← add_assign (total_token_usage self) last;
  Ok {| total_token_usage := total; last_token_usage := last; model_context_window := model_context_window self |}.

Definition new_or_append (info : option TokenUsageInfo) (last : option TokenUsage) (context_window : option Z)
    : res Empty_set (option TokenUsageInfo) :=
  match info, last with
  | None, None => Ok None
  | _, _ =>
      let info := default {| total_token_usage := usage_default; last_token_usage := usage_default;
                             model_context_window := context_window |} info in
      info ← match last with Some last => append_last_usage info last | None => Ok info end;
      Ok (Some match context_window with
               | Some _ => {| total_token_usage := total_token_usage info; last_token_usage := last_token_usage info;
                              model_context_window := context_window |}
               | None => info
               end)
  end.

Definition fill_to_context_window (self : TokenUsageInfo) (context_window : Z) : res Empty_set TokenUsageInfo :=
  let previous_total := total_tokens (total_token_usage self) in
  delta ← i64_checked checked (context_window - previous_total);
  Ok {| total_token_usage := usage_of_total context_window; last_token_usage := usage_of_total (Z.max delta 0);
        model_context_window := Some context_window |}.

Definition full_context_window (context_window : Z) : res Empty_set TokenUsageInfo :=
  fill_to_context_window
    {| total_token_usage := usage_default; last_token_usage := usage_default; model_context_window := Some context_window |}
    context_window.

(** [SessionState::record_token_usage], by the fields of a record that it computes. *)
Record TokenUsageRecord := {
  tr_turn_id : rstr;
  tr_response_id : rstr;
  tr_usage : TokenUsage;
  turn_token_usage : TokenUsage;
  thread_token_usage : TokenUsage;
}.

Definition record_token_usage (latest : option TokenUsageRecord) (turn_id response_id : rstr) (usage : TokenUsage)
    : res Empty_set TokenUsageRecord :=
  let turn :=
    match latest with
    | Some r => if tr_turn_id r =s turn_id then turn_token_usage r else usage_default
    | None => usage_default
    end in
  turn ← add_assign turn usage;
  let thread := match latest with Some r => thread_token_usage r | None => usage_default end in
  thread ← add_assign thread usage;
  Ok {| tr_turn_id := turn_id; tr_response_id := response_id; tr_usage := usage; turn_token_usage := turn;
        thread_token_usage := thread |}.
End Usage.
Arguments TokenUsage : clear implicits.
Arguments TokenUsageInfo : clear implicits.
Arguments TokenUsageRecord : clear implicits.

(** ** The compaction window *)

Section Window.
Context {Uuid Number : Type}.

Record AutoCompactWindowIds := { first_window_id : Uuid; previous_window_id : option Uuid; window_id : Uuid }.

(** [fresh] is the UUID that [Uuid::now_v7] returns. *)
Definition new_initial (fresh : Uuid) : AutoCompactWindowIds :=
  {| first_window_id := fresh; previous_window_id := None; window_id := fresh |}.

Inductive AutoCompactWindowPrefill := ServerObserved (tokens : Z) | Estimated (tokens : Z).

Record AutoCompactWindow := {
  window_number : Z;
  ids : AutoCompactWindowIds;
  new_context_window_requested : bool;
  prefill_input_tokens : option AutoCompactWindowPrefill;
  token_budget_reminder_delivered : bool;
  auto_compact_fallback_delivered : bool;
}.

Definition new_with_ids (ids : AutoCompactWindowIds) : AutoCompactWindow :=
  {| window_number := 0; ids := ids; new_context_window_requested := false; prefill_input_tokens := None;
     token_budget_reminder_delivered := false; auto_compact_fallback_delivered := false |}.

Definition set_prefill (self : AutoCompactWindow) (prefill : option AutoCompactWindowPrefill) : AutoCompactWindow :=
  {| window_number := window_number self; ids := ids self; new_context_window_requested := new_context_window_requested self;
     prefill_input_tokens := prefill; token_budget_reminder_delivered := token_budget_reminder_delivered self;
     auto_compact_fallback_delivered := auto_compact_fallback_delivered self |}.

Definition clear_prefill (self : AutoCompactWindow) : AutoCompactWindow := set_prefill self None.

Definition window_restore (self : AutoCompactWindow) (number : Z) (window_ids : AutoCompactWindowIds) : AutoCompactWindow :=
  {| window_number := number; ids := window_ids; new_context_window_requested := new_context_window_requested self;
     prefill_input_tokens := prefill_input_tokens self;
     token_budget_reminder_delivered := token_budget_reminder_delivered self;
     auto_compact_fallback_delivered := auto_compact_fallback_delivered self |}.

Definition advance (fresh : Uuid) (self : AutoCompactWindow) : AutoCompactWindow :=
  {| window_number := saturating_add (window_number self) 1;
     ids := {| first_window_id := first_window_id (ids self); previous_window_id := Some (window_id (ids self));
               window_id := fresh |};
     new_context_window_requested := false; prefill_input_tokens := prefill_input_tokens self;
     token_budget_reminder_delivered := false; auto_compact_fallback_delivered := false |}.

Definition start_new_context_window (fresh : Uuid) (self : AutoCompactWindow) : AutoCompactWindow :=
  clear_prefill (advance fresh self).

Definition claim_token_budget_reminder (self : AutoCompactWindow) : bool * AutoCompactWindow :=
  (negb (token_budget_reminder_delivered self),
   {| window_number := window_number self; ids := ids self; new_context_window_requested := new_context_window_requested self;
      prefill_input_tokens := prefill_input_tokens self; token_budget_reminder_delivered := true;
      auto_compact_fallback_delivered := auto_compact_fallback_delivered self |}).

Definition claim_auto_compact_fallback (self : AutoCompactWindow) : bool * AutoCompactWindow :=
  (negb (auto_compact_fallback_delivered self),
   {| window_number := window_number self; ids := ids self; new_context_window_requested := new_context_window_requested self;
      prefill_input_tokens := prefill_input_tokens self;
      token_budget_reminder_delivered := token_budget_reminder_delivered self; auto_compact_fallback_delivered := true |}).

Definition set_requested (self : AutoCompactWindow) (requested : bool) : AutoCompactWindow :=
  {| window_number := window_number self; ids := ids self; new_context_window_requested := requested;
     prefill_input_tokens := prefill_input_tokens self;
     token_budget_reminder_delivered := token_budget_reminder_delivered self;
     auto_compact_fallback_delivered := auto_compact_fallback_delivered self |}.

Definition request_new_context_window (self : AutoCompactWindow) : AutoCompactWindow := set_requested self true.

Definition take_new_context_window_request (self : AutoCompactWindow) : bool * AutoCompactWindow :=
  (new_context_window_requested self, set_requested self false).

Definition is_server_observed (prefill : option AutoCompactWindowPrefill) : bool :=
  match prefill with Some (ServerObserved _) => true | _ => false end.

Definition ensure_server_observed_prefill_from_usage (self : AutoCompactWindow) (usage : TokenUsage Number) : AutoCompactWindow :=
  if is_server_observed (prefill_input_tokens self) then self
  else set_prefill self (Some (ServerObserved (Z.max (input_tokens usage) 0))).

Definition set_estimated_prefill (self : AutoCompactWindow) (tokens : Z) : AutoCompactWindow :=
  if is_server_observed (prefill_input_tokens self) then self
  else set_prefill self (Some (Estimated (Z.max tokens 0))).

Definition window_snapshot (self : AutoCompactWindow) : option Z :=
  match prefill_input_tokens self with
  | Some (ServerObserved tokens) | Some (Estimated tokens) => Some tokens
  | None => None
  end.
End Window.
Arguments AutoCompactWindowIds : clear implicits.
Arguments AutoCompactWindow : clear implicits.

(** ** Items *)

Inductive AgentMessageInputContent :=
| AgentInputText (text : rstr)
| AgentEncryptedContent (encrypted_content : rstr).

Definition estimate_reasoning_length (encoded_len : Z) : Z := saturating_sub (saturating_mul encoded_len 3 / 4) 650.

Definition estimate_encrypted_function_output_length (encoded_len : Z) : Z := (saturating_mul encoded_len 9 + 15) / 16.

(** The closures [accumulate]: the bytes of payloads, and the bytes they are replaced by. *)
Definition accumulate (sum : Z * Z) (entry : option (Z * Z)) : Z * Z :=
  match entry with
  | Some (payload_len, replacement) =>
      (i64_saturating_add sum.1 (i64_of_usize payload_len), i64_saturating_add sum.2 replacement)
  | None => sum
  end.

Definition adjustment (entries : list (option (Z * Z))) : Z * Z := foldl accumulate (0, 0) entries.

Section Estimates.
Context {Opaque : Type}.
Local Abbreviation Item := (@ResponseItem Opaque).
Local Abbreviation Envelope := (@ResponseItemEnvelope Opaque).
Local Abbreviation Content := (@ContentItem Opaque).
Local Abbreviation OutContent := (@FunctionCallOutputContentItem Opaque).
Context (base64_decode : rstr -> option (list Z)) (image_size : list Z -> option (Z * Z)).
Context (probe_audio : rstr -> list Z -> option (Z * (Z * Z))).
Context (json_len : Item -> option Z).
Context (agent_content : Opaque -> AgentMessageInputContent) (image_detail : Opaque -> ImageDetail).

Definition image_entry (image_url : rstr) (detail : option Opaque) : option (Z * Z) :=
  payload ← parse_base64_image_data_url image_url;
  Some (byte_len payload, estimate_image_bytes base64_decode image_size image_url (image_detail <$> detail)).

Definition image_data_url_estimate_adjustment (i : Item) : Z * Z :=
  let of_output output :=
    match body output with
    | BodyContentItems l =>
        adjustment (map (fun c : OutContent => match c with OutInputImage url detail => image_entry url detail | _ => None end) l)
    | BodyText _ => (0, 0)
    end in
  match i with
  | Message _ _ content _ _ =>
      adjustment (map (fun c : Content => match c with InputImage url detail => image_entry url detail | _ => None end) content)
  | FunctionCallOutput _ _ _ _ output _ | CustomToolCallOutput _ _ _ output _ => of_output output
  | _ => (0, 0)
  end.

Definition audio_entry (audio_url : rstr) : option (Z * Z) :=
  payload ← parse_base64_audio_data_url audio_url;
  Some (byte_len payload, i64_of_usize (approx_bytes_for_tokens (audio_token_count base64_decode probe_audio audio_url))).

Definition audio_data_url_estimate_adjustment (i : Item) : Z * Z :=
  let of_output output :=
    match body output with
    | BodyContentItems l =>
        adjustment (map (fun c : OutContent => match c with OutInputAudio url => audio_entry url | _ => None end) l)
    | BodyText _ => (0, 0)
    end in
  match i with
  | Message _ _ content _ _ =>
      adjustment (map (fun c : Content => match c with InputAudio url => audio_entry url | _ => None end) content)
  | FunctionCallOutput _ _ _ _ output _ | CustomToolCallOutput _ _ _ output _ => of_output output
  | _ => (0, 0)
  end.

Definition encrypted_entry (encrypted_content : rstr) : option (Z * Z) :=
  Some (byte_len encrypted_content,
        i64_of_usize (estimate_encrypted_function_output_length (byte_len encrypted_content))).

Definition encrypted_function_output_estimate_adjustment (i : Item) : Z * Z :=
  match i with
  | FunctionCallOutput _ _ _ _ output _ =>
      match body output with
      | BodyContentItems l =>
          adjustment (map (fun c : OutContent => match c with EncryptedContent text => encrypted_entry text | _ => None end) l)
      | BodyText _ => (0, 0)
      end
  | AgentMessage _ _ _ content _ =>
      adjustment (map (fun c => match agent_content c with AgentEncryptedContent text => encrypted_entry text | _ => None end) content)
  | _ => (0, 0)
  end.

Definition estimate_response_item_model_visible_bytes (i : Item) : Z :=
  match i with
  | Reasoning _ _ _ (Some content) _ | Compaction _ content _ | ContextCompaction _ (Some content) _ =>
      i64_of_usize (estimate_reasoning_length (byte_len content))
  | _ =>
      let raw := match json_len i with Some len => i64_of_usize len | None => 0 end in
      let '(image_payload_bytes, image_replacement_bytes) := image_data_url_estimate_adjustment i in
      let '(audio_payload_bytes, audio_replacement_bytes) := audio_data_url_estimate_adjustment i in
      let '(encrypted_payload_bytes, encrypted_replacement_bytes) := encrypted_function_output_estimate_adjustment i in
      let raw := i64_saturating_add (i64_saturating_sub raw image_payload_bytes) image_replacement_bytes in
      let raw := i64_saturating_add (i64_saturating_sub raw audio_payload_bytes) audio_replacement_bytes in
      i64_saturating_add (i64_saturating_sub raw encrypted_payload_bytes) encrypted_replacement_bytes
  end.

Definition estimate_item_token_count (i : Item) : Z :=
  approx_tokens_from_byte_count_i64 (estimate_response_item_model_visible_bytes i).

Definition sum_estimates (l : list Item) : Z := foldl i64_saturating_add 0 (map estimate_item_token_count l).

Definition is_model_generated_item (i : Item) : bool :=
  match i with
  | Message _ role _ _ _ => role =s lit "assistant"
  | Reasoning _ _ _ _ _ | FunctionCall _ _ _ _ _ _ _ | ToolSearchCall _ _ _ _ _ _ | WebSearchCall _ _ _ _
  | ImageGenerationCall _ _ _ _ _ | CustomToolCall _ _ _ _ _ _ _ | LocalShellCall _ _ _ _ _ | Compaction _ _ _
  | ContextCompaction _ _ _ => true
  | CompactionTrigger | AdditionalTools _ _ _ | FunctionCallOutput _ _ _ _ _ _ | ToolSearchOutput _ _ _ _ _ _
  | CustomToolCallOutput _ _ _ _ _ | AgentMessage _ _ _ _ _ | Other => false
  end.

(** [Iterator::rposition]. *)
Fixpoint rposition {A} (p : A -> bool) (l : list A) : option nat :=
  match l with
  | [] => None
  | a :: l =>
      match rposition p l with
      | Some n => Some (S n)
      | None => if p a then Some 0%nat else None
      end
  end.

(** ** The active context *)

Context (is_contextual_user_fragment : Content -> bool) (is_message_content : list Content -> bool).
Context {Review Reference Baseline Uuid Number : Type} (checked : bool).
Local Abbreviation manager := (@ContextManager Opaque Review (TokenUsageInfo Number) Reference Baseline).

Definition set_token_info (self : manager) (info : option (TokenUsageInfo Number)) : manager :=
  {| items := items self; review_history := review_history self; history_version := history_version self;
     user_message_revision := user_message_revision self; token_info := info;
     reference_context_item := reference_context_item self; world_state_baseline := world_state_baseline self |}.

Definition update_token_info (self : manager) (usage : TokenUsage Number) (context_window : option Z) : res Empty_set manager :=
  info ← new_or_append checked (token_info self) (Some usage) context_window;
  Ok (set_token_info self info).

Definition set_token_usage_full (self : manager) (context_window : Z) : res Empty_set manager :=
  info ← match token_info self with
         | Some info => fill_to_context_window checked info context_window
         | None => full_context_window checked context_window
         end;
  Ok (set_token_info self (Some info)).

Definition is_encrypted_reasoning (i : Item) : bool :=
  match i with Reasoning _ _ _ (Some _) _ => true | _ => false end.

Definition get_non_last_reasoning_items_tokens (self : manager) : Z :=
  match rposition (turn_boundary is_contextual_user_fragment is_message_content) (items self) with
  | None => 0
  | Some last_user_index => sum_estimates (List.filter is_encrypted_reasoning (map item (take last_user_index (items self))))
  end.

Definition items_after_last_model_generated_item (self : manager) : list Item :=
  let start :=
    match rposition (fun e => is_model_generated_item (item e)) (items self) with
    | Some index => S index
    | None => length (items self)
    end in
  map item (drop start (items self)).

Definition estimated_tokens_after_last_model_generated_item (self : manager) : Z :=
  sum_estimates (items_after_last_model_generated_item self).

Definition get_total_token_usage (self : manager) (server_reasoning_included : bool) : Z :=
  let last_tokens := match token_info self with Some info => total_tokens (last_token_usage info) | None => 0 end in
  let items_after := estimated_tokens_after_last_model_generated_item self in
  if server_reasoning_included then i64_saturating_add last_tokens items_after
  else i64_saturating_add (i64_saturating_add last_tokens (get_non_last_reasoning_items_tokens self)) items_after.

Definition estimate_token_count_with_base_instructions (self : manager) (base_instructions : rstr) : option Z :=
  let base_tokens := i64_of_usize (approx_token_count base_instructions) in
  Some (i64_saturating_add base_tokens (sum_estimates (map item (items self)))).

(** ** The status of the context window *)

Inductive AutoCompactTokenLimitScope := Total | BodyAfterPrefix.

(** The fields of [ModelInfo], [TokenBudgetConfig] and [Config] that matter here. *)
Record ModelInfo := {
  context_window : option Z;
  max_context_window : option Z;
  effective_context_window_percent : Z;
  mi_auto_compact_token_limit : option Z;
}.

Record TokenBudgetConfig := {
  auto_compact_fallback_prompt : option rstr;
  auto_compact_fallback_buffer_tokens : option Z;
}.

Definition fallback_buffer_tokens (self : TokenBudgetConfig) : Z :=
  match auto_compact_fallback_prompt self with
  | Some _ => default 0 (auto_compact_fallback_buffer_tokens self)
  | None => 0
  end.

Record Config := {
  model_auto_compact_token_limit_scope : AutoCompactTokenLimitScope;
  model_auto_compact_token_limit : option Z;
  token_budget : option TokenBudgetConfig;
}.

Definition resolved_context_window (self : ModelInfo) : option Z :=
  match context_window self with Some w => Some w | None => max_context_window self end.

Definition usable_context_window (self : ModelInfo) : option Z :=
  (fun w => Z.quot (i64_saturating_mul w (effective_context_window_percent self)) 100) <$> resolved_context_window self.

Definition auto_compact_token_limit (self : ModelInfo) : res Empty_set (option Z) :=
  match resolved_context_window self with
  | Some w =>
      scaled ← i64_checked checked (w * 9);
      let context_limit := Z.quot scaled 10 in
      Ok (Some match mi_auto_compact_token_limit self with Some limit => Z.min limit context_limit | None => context_limit end)
  | None => Ok (mi_auto_compact_token_limit self)
  end.

Record SessionState := {
  history : manager;
  auto_compact_window : AutoCompactWindow Uuid;
  server_reasoning_included : bool;
}.

Record ContextWindowTokenStatus := {
  active_context_tokens : Z;
  auto_compact_scope_tokens : Z;
  auto_compact_scope_limit : option Z;
  full_context_window_limit : option Z;
  base_window_tokens_remaining : option Z;
  auto_compact_window_prefill_tokens : option Z;
  full_context_window_limit_reached : bool;
  token_limit_reached : bool;
}.

Definition tokens_remaining (limit : option Z) (used : Z) : option Z :=
  (fun limit => Z.max (i64_saturating_sub limit used) 0) <$> limit.

(** [.into_iter().flatten().min()] of two. *)
Definition min_option (a b : option Z) : option Z :=
  match a, b with Some a, Some b => Some (Z.min a b) | Some a, None => Some a | None, b => b end.

Definition context_window_token_status (sess : SessionState) (config : Config) (model_info : ModelInfo)
    : res Empty_set ContextWindowTokenStatus :=
  let active := get_total_token_usage (history sess) (server_reasoning_included sess) in
  '(scope_tokens, scope_limit, prefill) ←
    match model_auto_compact_token_limit_scope config with
    | Total => limit ← auto_compact_token_limit model_info; Ok (active, limit, None)
    | BodyAfterPrefix =>
        let prefill := window_snapshot (auto_compact_window sess) in
        let baseline := default active prefill in
        scope_limit ← match model_auto_compact_token_limit config with
                      | Some limit => Ok (Some limit)
                      | None => auto_compact_token_limit model_info
                      end;
        Ok (i64_saturating_sub active baseline, scope_limit, prefill)
    end;
  let full_limit := usable_context_window model_info in
  let buffer_tokens := match token_budget config with Some budget => fallback_buffer_tokens budget | None => 0 end in
  let buffered := (fun limit => i64_saturating_add limit buffer_tokens) <$> scope_limit in
  let full_reached := match full_limit with Some limit => limit <=? active | None => false end in
  Ok {| active_context_tokens := active; auto_compact_scope_tokens := scope_tokens; auto_compact_scope_limit := scope_limit;
        full_context_window_limit := full_limit;
        base_window_tokens_remaining := min_option (tokens_remaining scope_limit scope_tokens) (tokens_remaining full_limit active);
        auto_compact_window_prefill_tokens := prefill; full_context_window_limit_reached := full_reached;
        token_limit_reached := match buffered with Some limit => limit <=? scope_tokens | None => false end || full_reached |}.

Definition with_history (sess : SessionState) (history : manager) : SessionState :=
  {| history := history; auto_compact_window := auto_compact_window sess;
     server_reasoning_included := server_reasoning_included sess |}.

Definition with_window (sess : SessionState) (window : AutoCompactWindow Uuid) : SessionState :=
  {| history := history sess; auto_compact_window := window; server_reasoning_included := server_reasoning_included sess |}.

Definition set_auto_compact_window_estimated_prefill_for_scope (sess : SessionState) (config : Config) (tokens : Z) : SessionState :=
  match model_auto_compact_token_limit_scope config with
  | BodyAfterPrefix => with_window sess (set_estimated_prefill (auto_compact_window sess) tokens)
  | Total => sess
  end.

(** [Session::set_total_tokens_full], after the context window was exceeded. *)
Definition set_total_tokens_full (sess : SessionState) (model_info : ModelInfo) : res Empty_set SessionState :=
  match usable_context_window model_info with
  | Some context_window => history ← set_token_usage_full (history sess) context_window; Ok (with_history sess history)
  | None => Ok sess
  end.

(** [Session::record_token_usage_info], without the budget and the contributors. *)
Definition record_token_usage_info (sess : SessionState) (config : Config) (model_info : ModelInfo) (usage : TokenUsage Number)
    : res Empty_set SessionState :=
  history ← update_token_info (history sess) usage (usable_context_window model_info);
  let sess := with_history sess history in
  Ok match model_auto_compact_token_limit_scope config with
     | BodyAfterPrefix => with_window sess (ensure_server_observed_prefill_from_usage (auto_compact_window sess) usage)
     | Total => sess
     end.

Definition recompute_token_usage (sess : SessionState) (config : Config) (model_info : ModelInfo) (base_instructions : rstr) : SessionState :=
  match estimate_token_count_with_base_instructions (history sess) base_instructions with
  | None => sess
  | Some estimated_total_tokens =>
      let info := default {| total_token_usage := usage_default; last_token_usage := usage_default;
                             model_context_window := None |} (token_info (history sess)) in
      let info :=
        {| total_token_usage := total_token_usage info;
           last_token_usage := usage_of_total (Z.max estimated_total_tokens 0);
           model_context_window :=
             match usable_context_window model_info with Some w => Some w | None => model_context_window info end |} in
      set_auto_compact_window_estimated_prefill_for_scope
        (with_history sess (set_token_info (history sess) (Some info))) config estimated_total_tokens
  end.
End Estimates.

(** * Properties of token accounts and of the compaction window

    The records of usage are the sums of what was reported ([usage_accounts]); what may be
    claimed once in a window is ([window_claims_once]), and the prefill that a server
    observed stays ([observed_prefill_stays]); and a session that exceeded its window does
    not look full ([exceeded_window_reads_empty]). *)
(** ** Usage *)

Section Usage.
Context {Number : Type} (checked : bool).
Local Abbreviation usage := (TokenUsage Number).
Local Abbreviation report := (rstr * rstr * usage)%type.

Definition record_report (latest : option (TokenUsageRecord Number)) (r : report) : res Empty_set (option (TokenUsageRecord Number)) :=
  Some <$> record_token_usage checked latest r.1.1 r.1.2 r.2.

Fixpoint record_reports (latest : option (TokenUsageRecord Number)) (l : list report) : res Empty_set (option (TokenUsageRecord Number)) :=
  match l with
  | [] => Ok latest
  | r :: l => latest ← record_report latest r; record_reports latest l
  end.

(** The numbers of a usage. *)
Definition counts (u : usage) : list Z :=
  [input_tokens u; cached_input_tokens u; cache_write_input_tokens u; output_tokens u; reasoning_output_tokens u; total_tokens u].

Definition add_counts (a b : list Z) : list Z := zip_with Z.add a b.

Definition sum_counts (l : list usage) : list Z := foldr (fun u s => add_counts s (counts u)) [0; 0; 0; 0; 0; 0] l.

(** Reports that are not negative and whose sums are within 64 bits. *)
Definition reasonable (l : list usage) : Prop :=
  Forall (fun u => Forall (fun n => 0 <= n) (counts u)) l /\ Forall (fun n => n <= I64_MAX) (sum_counts l).

(** The usages of the last turn: the reports at the end with the same turn id. *)
Fixpoint of_turn (turn_id : rstr) (newest_first : list report) : list usage :=
  match newest_first with
  | [] => []
  | r :: older => if r.1.1 =s turn_id then r.2 :: of_turn turn_id older else []
  end.

Definition record_of (newest_first : list report) (latest : option (TokenUsageRecord Number)) : Prop :=
  match newest_first, latest with
  | [], None => True
  | r :: _, Some latest =>
      tr_turn_id latest = r.1.1 /\ tr_response_id latest = r.1.2 /\ tr_usage latest = r.2
      /\ counts (thread_token_usage latest) = sum_counts (map snd newest_first)
      /\ counts (turn_token_usage latest) = sum_counts (of_turn r.1.1 newest_first)
  | _, _ => False
  end.

Lemma i64_checked_in n : 0 <= n <= I64_MAX -> i64_checked checked n = Ok n.
Proof.
  intros H. unfold i64_checked, I64_MIN, I64_MAX in *.
  destruct (Z.leb_spec (- 2 ^ 63) n), (Z.leb_spec n (2 ^ 63 - 1)); cbn [andb]; (done || lia).
Qed.

Lemma add_assign_counts (a b : usage) :
  Forall (fun n => 0 <= n) (add_counts (counts a) (counts b)) -> Forall (fun n => n <= I64_MAX) (add_counts (counts a) (counts b)) ->
  exists c, add_assign checked a b = Ok c /\ counts c = add_counts (counts a) (counts b).
Proof.
  unfold add_counts, counts. cbn [zip_with]. intros Hpos Hmax. unfold add_assign.
  repeat match goal with H : Forall _ (_ :: _) |- _ => apply Forall_cons in H as [? H] end.
  rewrite !i64_checked_in by (split; assumption). cbn [mbind res_bind]. by eexists.
Qed.

Definition counts_le (a b : list Z) : Prop := Forall2 (fun x y => 0 <= x <= y) a b.

Lemma add_counts_mono a b u : counts_le a b -> Forall (fun n => 0 <= n) u -> length u = length a -> counts_le (add_counts a u) (add_counts b u).
Proof.
  intros H. revert u. induction H as [|x y a b Hxy _ IH]; intros [|n u] Hu Hl; try done; [by constructor|]. apply Forall_cons in Hu as [Hn Hu].
  constructor; [lia|]. apply IH; [done|]. cbn in Hl. lia.
Qed.

Lemma counts_le_add a b u : counts_le a b -> Forall (fun n => 0 <= n) u -> length u = length a -> counts_le a (add_counts b u).
Proof.
  intros H. revert u. induction H as [|x y a b Hxy _ IH]; intros [|n u] Hu Hl; try done; [by constructor|]. apply Forall_cons in Hu as [Hn Hu].
  constructor; [lia|]. apply IH; [done|]. cbn in Hl. lia.
Qed.

Lemma sum_counts_length l : length (sum_counts l) = 6%nat.
Proof.
  induction l as [|u l IH]; [done|]. change (sum_counts (u :: l)) with (add_counts (sum_counts l) (counts u)).
  unfold add_counts. by rewrite length_zip_with, IH.
Qed.

Lemma sum_counts_sublist l1 l2 :
  l1 `sublist_of` l2 -> Forall (fun u => Forall (fun n => 0 <= n) (counts u)) l2 -> counts_le (sum_counts l1) (sum_counts l2).
Proof.
  induction 1 as [|u l1 l2 _ IH|u l1 l2 _ IH]; intros H.
  - repeat constructor; done.
  - apply Forall_cons in H as [Hu H]. apply add_counts_mono; [auto|done|by rewrite sum_counts_length].
  - apply Forall_cons in H as [Hu H]. apply counts_le_add; [auto|done|by rewrite sum_counts_length].
Qed.

Lemma reasonable_sublist l1 l2 : l1 `sublist_of` l2 -> reasonable l2 -> Forall (fun n => 0 <= n) (sum_counts l1) /\ Forall (fun n => n <= I64_MAX) (sum_counts l1).
Proof.
  intros Hsub [Hpos Hmax]. pose proof (sum_counts_sublist _ _ Hsub Hpos) as Hle. clear -Hle Hmax.
  induction Hle as [|x y a b Hxy _ IH]; [by repeat constructor|]. apply Forall_cons in Hmax as [Hy Hmax]. destruct (IH Hmax). split; constructor; (done || lia).
Qed.

Lemma of_turn_sublist turn_id l : of_turn turn_id l `sublist_of` map snd l.
Proof. induction l as [|r l IH]; cbn; [done|]. case_match; [by apply sublist_skip|apply sublist_nil_l]. Qed.

Lemma sum_counts_cons u l : sum_counts (u :: l) = add_counts (sum_counts l) (counts u).
Proof. done. Qed.

Lemma add_assign_sum (a u : usage) l all :
  counts a = sum_counts l -> (u :: l) `sublist_of` all -> reasonable all ->
  exists c, add_assign checked a u = Ok c /\ counts c = sum_counts (u :: l).
Proof.
  intros Ha Hsub Hr. destruct (reasonable_sublist _ _ Hsub Hr) as [Hpos Hmax]. rewrite sum_counts_cons, <- Ha in *. by apply add_assign_counts.
Qed.

Lemma record_report_of seen latest (r : report) all :
  record_of seen latest -> map snd (r :: seen) `sublist_of` all -> reasonable all ->
  exists latest', record_report latest r = Ok latest' /\ record_of (r :: seen) latest'.
Proof.
  intros Hrec Hsub Hr. destruct r as [[turn_id response_id] u]. unfold record_report, record_token_usage. cbn [fst snd].
  set (turn := match latest with Some r => if tr_turn_id r =s turn_id then turn_token_usage r else usage_default | None => usage_default end).
  set (thread := match latest with Some r => thread_token_usage r | None => usage_default end).
  assert (Hturn : counts turn = sum_counts (of_turn turn_id seen)).
  { subst turn. destruct seen as [|r seen], latest as [l|]; try done. destruct Hrec as (Hid & _ & _ & _ & Ht). rewrite Hid. cbn [of_turn].
    destruct (r.1.1 =s turn_id) eqn:E; [|done]. apply streq_true in E. rewrite Ht, E. cbn [of_turn]. by rewrite E, streq_refl. }
  assert (Hthread : counts thread = sum_counts (map snd seen)).
  { subst thread. destruct seen as [|r seen], latest as [l|]; try done. by destruct Hrec as (_ & _ & _ & Ht & _). }
  destruct (add_assign_sum turn u (of_turn turn_id seen) all Hturn) as (turn' & -> & Hturn'); [|done|].
  { etrans; [|exact Hsub]. apply sublist_skip, of_turn_sublist. }
  destruct (add_assign_sum thread u (map snd seen) all Hthread) as (thread' & -> & Hthread'); [done..|].
  eexists. split; [done|]. unfold record_of. cbn [tr_turn_id tr_response_id tr_usage thread_token_usage turn_token_usage fst snd of_turn]. by rewrite streq_refl.
Qed.

Lemma record_reports_of l seen latest :
  record_of seen latest -> reasonable (map snd (reverse l ++ seen)) ->
  exists latest', record_reports latest l = Ok latest' /\ record_of (reverse l ++ seen) latest'.
Proof.
  revert seen latest. induction l as [|r l IH]; intros seen latest Hrec Hr; [by exists latest|].
  rewrite reverse_cons, <- app_assoc in *. cbn [app] in *. cbn [record_reports].
  destruct (record_report_of seen latest r (map snd (reverse l ++ r :: seen)) Hrec ltac:(rewrite map_app; by apply sublist_inserts_l) Hr) as (latest' & -> & Hrec'). cbn [mbind res_bind]. by apply IH.
Qed.

(** However the responses of a thread are spread over its turns, the latest record has as the
    usage of the thread the sum of what was reported, and as the usage of the turn the sum
    of the reports of this turn since the last one of another turn; nothing overflows as
    long as the sums are within 64 bits. *)
Theorem usage_accounts (l : list report) :
  reasonable (map snd (reverse l)) ->
  exists latest, record_reports None l = Ok latest /\ record_of (reverse l) latest.
Proof. intros H. destruct (record_reports_of l [] None) as (latest & Hl & Hrec); [done|by rewrite app_nil_r|]. rewrite app_nil_r in Hrec. eauto. Qed.
End Usage.

(** ** The window *)

Section Window.
Context {Uuid Number : Type}.
Local Abbreviation window := (AutoCompactWindow Uuid).

(** The operations on a window, with the answers of those that have one. *)
Inductive WindowOp :=
| Advance (fresh : Uuid)
| StartNew (fresh : Uuid)
| Restore (number : Z) (ids : AutoCompactWindowIds Uuid)
| ClearPrefill
| ClaimReminder
| ClaimFallback
| RequestNew
| TakeRequest
| ObserveUsage (usage : TokenUsage Number)
| EstimatePrefill (tokens : Z).

Definition apply_window (op : WindowOp) (w : window) : option bool * window :=
  match op with
  | Advance fresh => (None, advance fresh w)
  | StartNew fresh => (None, start_new_context_window fresh w)
  | Restore number ids => (None, window_restore w number ids)
  | ClearPrefill => (None, clear_prefill w)
  | ClaimReminder => let '(b, w) := claim_token_budget_reminder w in (Some b, w)
  | ClaimFallback => let '(b, w) := claim_auto_compact_fallback w in (Some b, w)
  | RequestNew => (None, request_new_context_window w)
  | TakeRequest => let '(b, w) := take_new_context_window_request w in (Some b, w)
  | ObserveUsage usage => (None, ensure_server_observed_prefill_from_usage w usage)
  | EstimatePrefill tokens => (None, set_estimated_prefill w tokens)
  end.

Fixpoint run_window (ops : list WindowOp) (w : window) : list (WindowOp * option bool) * window :=
  match ops with
  | [] => ([], w)
  | op :: ops =>
      let '(answer, w) := apply_window op w in
      let '(answers, w) := run_window ops w in
      ((op, answer) :: answers, w)
  end.

Definition opens_window (op : WindowOp) : bool := match op with Advance _ | StartNew _ => true | _ => false end.
Definition drops_prefill (op : WindowOp) : bool := match op with StartNew _ | ClearPrefill => true | _ => false end.

Definition reminded (e : WindowOp * option bool) : bool := match e with (ClaimReminder, Some b) => b | _ => false end.
Definition fell_back (e : WindowOp * option bool) : bool := match e with (ClaimFallback, Some b) => b | _ => false end.

(** Within a window the reminder of the budget and the fallback are each granted to the first
    claim and to no other, whatever else happens in between. *)
Theorem window_claims_once ops w :
  forallb (fun op => negb (opens_window op)) ops = true ->
  let answers := (run_window ops w).1 in
  List.filter reminded answers
  = (if token_budget_reminder_delivered w then [] else take 1 (List.filter (fun e => match e.1 with ClaimReminder => true | _ => false end) answers))
  /\ List.filter fell_back answers
  = (if auto_compact_fallback_delivered w then [] else take 1 (List.filter (fun e => match e.1 with ClaimFallback => true | _ => false end) answers)).
Proof.
  revert w. induction ops as [|op ops IH]; intros w Hops; [by repeat case_match|].
  cbn [forallb] in Hops. apply andb_true_iff in Hops as [Hop Hops]. cbn [run_window].
  destruct (apply_window op w) as [answer w'] eqn:E. specialize (IH w' Hops).
  destruct (run_window ops w') as [answers w''] eqn:Er. cbn [fst] in *. destruct IH as [IHr IHf].
  destruct op; cbn in Hop, E; try done;
    unfold ensure_server_observed_prefill_from_usage, set_estimated_prefill in E; try case_match; simplify_eq/=;
    rewrite IHr, IHf; repeat case_match; split; try done; by rewrite ?take_0.
Qed.

(** The prefill that a server reported is not replaced, by later reports or by estimates,
    until the prefill is cleared. *)
Theorem observed_prefill_stays ops w tokens :
  prefill_input_tokens w = Some (ServerObserved tokens) ->
  forallb (fun op => negb (drops_prefill op)) ops = true ->
  window_snapshot (run_window ops w).2 = Some tokens.
Proof.
  revert w. induction ops as [|op ops IH]; intros w Hw Hops; [unfold window_snapshot; cbn; by rewrite Hw|].
  cbn [forallb] in Hops. apply andb_true_iff in Hops as [Hop Hops]. cbn [run_window].
  destruct (apply_window op w) as [answer w'] eqn:E. assert (Hw' : prefill_input_tokens w' = Some (ServerObserved tokens)).
  { destruct op; cbn in Hop, E; try done; unfold ensure_server_observed_prefill_from_usage, set_estimated_prefill in E; rewrite ?Hw in E; by simplify_eq/=. }
  specialize (IH w' Hw' Hops). by destruct (run_window ops w').
Qed.
End Window.
