(* ===== verification/RemoteCompact.v ===== *)
(** * Compaction by the model

    Models the pure parts of [workx-rs/core/src/compact_remote.rs],
    [compact_remote_history.rs], [compact_remote_v2.rs] and [compact_remote_v2_images.rs]:
    how the outputs of tools are cut until a history fits the window in which it is
    compacted, and which messages are kept beside the compaction that the model returns.
    [is_user_or_hook_prompt] tells whether [parse_turn_item] finds a user message or the
    prompt of a hook in an item. Sums of [usize] tokens are those of texts and images in
    memory and do not overflow. *)
From S2P Require Import Prelude Width History Truncation WorldState Rollout GuardianHistory ContextManager Compact Media TokenEstimate.

Set Default Goal Selector "!".

Local Open Scope Z_scope.

Definition CONTEXT_WINDOW_TRUNCATED_OUTPUT_MESSAGE : rstr := lit "Output exceeded the available model context and was truncated".
Definition RETAINED_MESSAGE_TOKEN_BUDGET : Z := 64000.
Definition MAX_RETAINED_AGENT_MESSAGE_TOKENS : Z := 10000.

Definition I128_MAX : Z := 2 ^ 127 - 1.
Definition sat_i128 (n : Z) : Z := Z.max (- 2 ^ 127) (Z.min n I128_MAX).
(** [i64::try_from(n).unwrap_or(i64::MAX)] of an [i128]. *)
Definition i64_of_i128 (n : Z) : Z := if (I64_MIN <=? n) && (n <=? I64_MAX) then n else I64_MAX.

(** ** Groups *)

Record HistoryItemGroup (T : Type) := { source : T; attached_notice : option T }.
Arguments source {T} _.
Arguments attached_notice {T} _.

Definition into_items {T} (g : HistoryItemGroup T) : list T := source g :: option_list (attached_notice g).

Fixpoint history_item_groups {T} (is_notice : T -> bool) (l : list T) : list (HistoryItemGroup T) :=
  match l with
  | [] => []
  | source :: l =>
      match l with
      | notice :: rest =>
          if is_notice notice then {| source := source; attached_notice := Some notice |} :: history_item_groups is_notice rest
          else {| source := source; attached_notice := None |} :: history_item_groups is_notice l
      | [] => [{| source := source; attached_notice := None |}]
      end
  end.

Definition is_image_resize_notice (text : rstr) : bool :=
  matches_marked_text (lit "<image_resize_notice>") (lit "</image_resize_notice>") text.

Section RemoteCompact.
Context {Opaque : Type}.
Local Abbreviation Item := (@ResponseItem Opaque).
Local Abbreviation Envelope := (@ResponseItemEnvelope Opaque).
Local Abbreviation Content := (@ContentItem Opaque).
Context (base64_decode : rstr -> option (list Z)) (image_size : list Z -> option (Z * Z)).
Context (probe_audio : rstr -> list Z -> option (Z * (Z * Z))).
Context (json_len : Item -> option Z).
Context (agent_content : Opaque -> AgentMessageInputContent) (image_detail : Opaque -> ImageDetail).
Local Abbreviation estimate := (estimate_item_token_count base64_decode image_size probe_audio json_len agent_content image_detail).
Local Abbreviation group := (HistoryItemGroup Envelope).

Definition is_attached_notice (i : Item) : bool :=
  match i with
  | Message _ role [InputText text] _ _ => (role =s lit "developer") && is_image_resize_notice text
  | _ => false
  end.

Definition groups (l : list Envelope) : list group := history_item_groups (fun e => is_attached_notice (item e)) l.

Definition estimated_token_count (g : group) : Z :=
  let source_tokens := estimate (item (source g)) in
  let notice_tokens := match attached_notice g with Some notice => estimate (item notice) | None => 0 end in
  sat_i128 (source_tokens + notice_tokens).

(** ** Fitting the window of the compaction *)

Definition truncated_output_payload (output : @FunctionCallOutputPayload Opaque) : @FunctionCallOutputPayload Opaque :=
  {| body := BodyText CONTEXT_WINDOW_TRUNCATED_OUTPUT_MESSAGE; success := success output |}.

Definition rewritten_output_for_context_window (e : Envelope) : option Envelope :=
  i ← match item e with
      | FunctionCallOutput id call_id name namespace output meta =>
          Some (FunctionCallOutput id call_id name namespace (truncated_output_payload output) meta)
      | CustomToolCallOutput id call_id name output meta =>
          Some (CustomToolCallOutput id call_id name (truncated_output_payload output) meta)
      | ToolSearchOutput id call_id status execution _ meta => Some (ToolSearchOutput id call_id status execution [] meta)
      | _ => None
      end;
  Some {| item := i; metadata := metadata e |}.

(** The loop: what is left of the estimate, how many items were consumed, and what they were
    rewritten to, the newest first. *)
Fixpoint trim_loop (original_items : list Envelope) (context_window : Z) (newest_first : list group)
  (estimated_tokens : Z) (consumed_items : nat) (rewritten_items : list Envelope) : Z * nat * list Envelope :=
  match newest_first with
  | [] => (estimated_tokens, consumed_items, rewritten_items)
  | g :: older =>
      if i64_of_i128 estimated_tokens <=? context_window then (estimated_tokens, consumed_items, rewritten_items)
      else
        let group_item_count := length (into_items g) in
        let source_index := (length original_items - (consumed_items + group_item_count))%nat in
        match original_items !! source_index ≫= rewritten_output_for_context_window with
        | None => (estimated_tokens, consumed_items, rewritten_items)
        | Some rewritten_item =>
            let estimated_tokens := sat_i128 (sat_i128 (estimated_tokens - estimated_token_count g) + estimate (item rewritten_item)) in
            trim_loop original_items context_window older estimated_tokens (consumed_items + group_item_count)
              (rewritten_items ++ [rewritten_item])
        end
  end.

Context (is_contextual_user_fragment : Content -> bool).
Context (item_writes : Item -> list Z) (reasoning_writes : option (list Opaque) -> list Z).
Context (meta_writes : option rstr -> rstr -> option Opaque -> option (@InternalChatMessageMetadataPassthrough Opaque) -> list Z).
Context (content_writes : Content -> list Z) (response_item_size : Z).
Context {Opaque_dec : EqDecision Opaque} {TokenInfo : Type}.
Local Abbreviation manager := (@ContextManager Opaque (@TranscriptHistory Opaque) TokenInfo (@TurnContextItem Opaque) WorldStateSnapshot).

Definition trim_function_call_history_to_fit_context_window (history : manager) (model_context_window : option Z)
  (base_instructions : rstr) : manager * (Z * Z) :=
  match model_context_window with
  | None => (history, (0, 0))
  | Some context_window =>
      let original_items := items history in
      let estimated_tokens :=
        foldl (fun sum g => sat_i128 (sum + estimated_token_count g)) (approx_token_count base_instructions) (groups original_items) in
      let initial_estimated_tokens := i64_of_i128 estimated_tokens in
      let '(estimated_tokens, consumed_items, rewritten_items) :=
        trim_loop original_items context_window (reverse (groups original_items)) estimated_tokens 0 [] in
      let rewritten_outputs := Z.of_nat (length rewritten_items) in
      let history :=
        if 0 <? rewritten_outputs then
          replace_annotated is_contextual_user_fragment item_writes reasoning_writes meta_writes content_writes response_item_size
            history (take (length original_items - consumed_items) original_items ++ reverse rewritten_items)
        else history in
      let final_estimated_tokens := i64_of_i128 estimated_tokens in
      (history, (rewritten_outputs, i64_saturating_sub initial_estimated_tokens final_estimated_tokens))
  end.

(** ** What is kept of the model's output *)

Context (is_user_or_hook_prompt : Item -> bool).

Definition should_keep_compacted_history_item (i : Item) : bool :=
  match i with
  | Message _ role _ _ _ =>
      if role =s lit "developer" then false
      else if role =s lit "user" then is_user_or_hook_prompt i
      else role =s lit "assistant"
  | AgentMessage _ _ _ _ _ | Compaction _ _ _ | ContextCompaction _ _ _ => true
  | _ => false
  end.

Context (user_message_text : Item -> option rstr) (SUMMARY_PREFIX : rstr) (is_final_answer : list Opaque -> bool).

(** [process_annotated_compacted_history], given the initial context. *)
Definition process_annotated_compacted_history (compacted_history initial_context : list Envelope) : list Envelope :=
  insert_initial_context_before_last_real_user_or_summary user_message_text SUMMARY_PREFIX is_final_answer
    (concat (map into_items (List.filter (fun g => should_keep_compacted_history_item (item (source g))) (groups compacted_history))))
    initial_context.

(** ** The answer of the model *)

Section Answer.
Context {StreamError Usage : Type}.

Inductive ResponseEvent :=
| OutputItemDone (i : Item)
| Completed (response_id : rstr) (token_usage : option Usage)
| OtherEvent.

Inductive CompactionError :=
| StreamFailed (e : StreamError)
| ClosedBeforeCompleted
| NotOneCompaction (compaction_count output_item_count : Z).

Record CollectedOutput := { compaction_output : Item; response_id : rstr; token_usage : option Usage }.

(** The end of [collect_compaction_output]. *)
Definition finish_collect (output_item_count compaction_count : Z) (output : option Item)
  (completed : option (rstr * option Usage)) : res CompactionError CollectedOutput :=
  match completed with
  | None => Err ClosedBeforeCompleted
  | Some (id, usage) =>
      if negb (compaction_count =? 1) then Err (NotOneCompaction compaction_count output_item_count)
      else match output with
           | Some i => Ok {| compaction_output := i; response_id := id; token_usage := usage |}
           | None => Panic
           end
  end.

(** [collect_compaction_output] on the events of a stream: the loop ends with the stream or
    with the first event [Completed]. *)
Fixpoint collect_compaction_output (stream : list (res StreamError ResponseEvent)) (output_item_count compaction_count : Z)
  (output : option Item) : res CompactionError CollectedOutput :=
  match stream with
  | [] => finish_collect output_item_count compaction_count output None
  | Ok (OutputItemDone i) :: stream =>
      match i with
      | Compaction _ _ _ =>
          collect_compaction_output stream (output_item_count + 1) (compaction_count + 1)
            (match output with Some o => Some o | None => Some i end)
      | _ => collect_compaction_output stream (output_item_count + 1) compaction_count output
      end
  | Ok (Completed id usage) :: _ => finish_collect output_item_count compaction_count output (Some (id, usage))
  | Ok OtherEvent :: stream => collect_compaction_output stream output_item_count compaction_count output
  | Err e :: _ => Err (StreamFailed e)
  | Panic :: _ => Panic
  end.
End Answer.

(** ** Messages kept beside a compaction *)

Inductive RetainedImageBudget := Disabled | Enabled.

Definition is_client_authored_developer_message (e : Envelope) : bool :=
  match metadata e with Some m => client_authored m | None => false end
  && match item e with Message _ role _ _ _ => role =s lit "developer" | _ => false end.

(** A notice that a client wrote is a message of its own. *)
Definition separate_client_notice (g : group) : list group :=
  match attached_notice g with
  | Some notice =>
      if is_client_authored_developer_message notice
      then [{| source := source g; attached_notice := None |}; {| source := notice; attached_notice := None |}]
      else [g]
  | None => [g]
  end.

Definition v2_history_item_groups (l : list Envelope) : list group := concat (map separate_client_notice (groups l)).

Definition is_retained_for_remote_compaction_v2 (i : Item) : bool :=
  match i with
  | AgentMessage _ author recipient content _ =>
      let starts text :=
        match agent_content <$> head content with Some (AgentInputText t) => starts_with (lit text ++ [NL]) t | _ => false end in
      let is_descendant_progress :=
        match strip_prefix recipient author with Some suffix => starts_with (lit "/") suffix | None => false end
        && starts "Message Type: MESSAGE"%string in
      let is_completion := starts "Message Type: FINAL_ANSWER"%string in
      negb is_descendant_progress && negb is_completion && (estimate i <=? MAX_RETAINED_AGENT_MESSAGE_TOKENS)
  | Message _ role _ _ _ => (role =s lit "user") || (role =s lit "developer") || (role =s lit "system")
  | _ => false
  end.

Definition is_input_image (c : Content) : bool := match c with InputImage _ _ => true | _ => false end.

Definition retained_input_image_count (i : Item) : Z :=
  match i with Message _ _ content _ _ => Z.of_nat (length (List.filter is_input_image content)) | _ => 0 end.

Definition sum (l : list Z) : Z := foldr Z.add 0 l.

Definition text_tokens (c : Content) : Z :=
  match c with InputText text | OutputText text => approx_token_count text | InputImage _ _ | InputAudio _ => 0 end.

Definition message_text_token_count (i : Item) : Z :=
  match i with Message _ _ content _ _ => sum (map text_tokens content) | _ => usize_of_i64 (estimate i) end.

Definition content_item_token_count (c : Content) : Z :=
  match c with
  | InputText text | OutputText text => approx_token_count text
  | InputImage image_url detail =>
      usize_of_i64 (approx_tokens_from_byte_count_i64 (estimate_image_bytes base64_decode image_size image_url (image_detail <$> detail)))
  | InputAudio _ => 0
  end.

Definition message_content_token_count (i : Item) : Z :=
  match i with Message _ _ content _ _ => sum (map content_item_token_count content) | _ => usize_of_i64 (estimate i) end.

Local Abbreviation annotated := (Content * rstr)%type.

(** A text against what is left of a budget: the text that is kept, and what is left. *)
Definition fit_text (remaining : Z) (text : rstr) : res Empty_set (Z * rstr) :=
  let token_count := approx_token_count text in
  if token_count <=? remaining then Ok (saturating_sub remaining token_count, text)
  else truncated ← truncate_text text (Tokens remaining); Ok (0, truncated).

Definition fit_item (remaining : Z) (c : annotated) (with_text : rstr -> Content) (text : rstr) : res Empty_set (Z * list annotated) :=
  if remaining =? 0 then Ok (remaining, [])
  else
    '(rest, text) ← fit_text remaining text;
    Ok (rest, if is_empty text then [] else [(with_text text, c.2)]).

Fixpoint truncate_texts (remaining : Z) (content : list annotated) : res Empty_set (list annotated) :=
  match content with
  | [] => Ok []
  | c :: content =>
      '(remaining, kept) ←
        match c.1 with
        | InputText text => fit_item remaining c InputText text
        | OutputText text => fit_item remaining c OutputText text
        | InputImage _ _ | InputAudio _ => Ok (remaining, [c])
        end;
      kept_later ← truncate_texts remaining content;
      Ok (kept ++ kept_later)
  end.

Definition set_content (e : Envelope) (i : Item) (content : list annotated) : option Envelope :=
  if is_empty content then None else Some {| item := set_annotated_content i content; metadata := metadata e |}.

Definition truncate_message_text_to_token_budget (e : Envelope) (max_tokens : Z) : res Empty_set (option Envelope) :=
  match to_annotated_content (item e) with
  | (i, Some content) => content ← truncate_texts max_tokens content; Ok (set_content e i content)
  | (_, None) => Ok None
  end.

(** ** Messages with images *)

Definition is_local_image_open_tag_text (text : rstr) : bool :=
  match strip_prefix (lit "<image name=") text with Some rest => ends_with (lit ">") rest | None => false end.
Definition is_image_open_tag_text (text : rstr) : bool := text =s lit "<image>".
Definition is_image_close_tag_text (text : rstr) : bool := text =s lit "</image>".

(** The number of items that are labels and image at the end of the content, which is
    given from its last item; 0 if it does not end with an image. *)
Definition image_part (content : list annotated) : nat :=
  let with_open n :=
    match content !! n with
    | Some (InputText text, _) => if is_local_image_open_tag_text text || is_image_open_tag_text text then S n else n
    | _ => n
    end in
  match content with
  | (InputImage _ _, _) :: _ => with_open 1%nat
  | (InputText text, _) :: (InputImage _ _, _) :: _ => if is_image_close_tag_text text then with_open 2%nat else 0%nat
  | _ => 0%nat
  end.

(** The loop from the last item; a round takes at least one, so that the length is fuel
    enough ([image_loop_total]). *)
Fixpoint truncate_with_images (fuel : nat) (remaining : Z) (content : list annotated) : res Empty_set (list annotated) :=
  match fuel, content with
  | _, [] => Ok []
  | O, _ => Panic
  | S fuel, c :: rest =>
      match image_part content with
      | O =>
          '(remaining, kept) ←
            match c.1 with
            | InputText text => fit_item remaining c InputText text
            | OutputText text => fit_item remaining c OutputText text
            | InputAudio _ => Ok (remaining, [c])
            | InputImage _ _ => Panic
            end;
          kept_earlier ← truncate_with_images fuel remaining rest;
          Ok (kept ++ kept_earlier)
      | n =>
          let part := take n content in
          let token_count := sum (map (fun c => content_item_token_count c.1) part) in
          let fits := token_count <=? remaining in
          kept_earlier ← truncate_with_images fuel (if fits then remaining - token_count else 0) (drop n content);
          Ok ((if fits then part else []) ++ kept_earlier)
      end
  end.

Definition truncate_message_to_token_budget (e : Envelope) (max_tokens : Z) : res Empty_set (option Envelope) :=
  match to_annotated_content (item e) with
  | (i, Some content) =>
      retained ← truncate_with_images (length content) max_tokens (reverse content);
      Ok (set_content e i (reverse retained))
  | (_, None) => Ok None
  end.

(** ** The budget of the messages *)

Definition notice_token_count (g : group) : Z :=
  match attached_notice g with Some notice => Z.max (message_text_token_count (item notice)) 1 | None => 0 end.

Definition charges_images (image_budget : RetainedImageBudget) (g : group) : bool :=
  match image_budget with Enabled => negb (is_client_authored_developer_message (source g)) | Disabled => false end.

Definition content_token_count (image_budget : RetainedImageBudget) (g : group) : Z :=
  if charges_images image_budget g then message_content_token_count (item (source g))
  else message_text_token_count (item (source g)).

Definition source_token_count (image_budget : RetainedImageBudget) (g : group) : Z :=
  if is_client_authored_developer_message (source g) then usize_of_i64 (estimate (item (source g)))
  else Z.max (content_token_count image_budget g) 1.

Definition newest_first_items (g : group) (source : Envelope) : list Envelope := option_list (attached_notice g) ++ [source].

(** A message of a client is cut again if its estimate is still too large. *)
Definition refit_client_message (e : Envelope) (content_budget available_tokens : Z) : res Empty_set (option Envelope) :=
  let item_tokens := usize_of_i64 (estimate (item e)) in
  if available_tokens <? item_tokens then
    let adjusted_budget := saturating_sub (saturating_sub content_budget (item_tokens - available_tokens)) 1 in
    adjusted ← truncate_message_text_to_token_budget e adjusted_budget;
    Ok (adjusted ← adjusted; if available_tokens <? usize_of_i64 (estimate (item adjusted)) then None else Some adjusted)
  else Ok (Some e).

(** The body of the loop: what is left of the budget, and what is kept, the newest first. *)
Definition retain_group (image_budget : RetainedImageBudget) (remaining : Z) (g : group) : res Empty_set (Z * list Envelope) :=
  if remaining =? 0 then Ok (remaining, [])
  else
    let client_developer := is_client_authored_developer_message (source g) in
    let notice_tokens := notice_token_count g in
    let content_tokens := content_token_count image_budget g in
    let source_tokens := source_token_count image_budget g in
    let token_count := saturating_add source_tokens notice_tokens in
    let with_images := charges_images image_budget g && (0 <? retained_input_image_count (item (source g))) in
    if token_count <=? remaining then Ok (saturating_sub remaining token_count, newest_first_items g (source g))
    else if notice_tokens <? remaining then
      let available_tokens := remaining - notice_tokens in
      let content_budget :=
        if client_developer then saturating_sub available_tokens (saturating_sub source_tokens content_tokens)
        else available_tokens in
      let remaining := if with_images then 0 else remaining in
      truncated ← (if with_images then truncate_message_to_token_budget (source g) content_budget
                   else truncate_message_text_to_token_budget (source g) content_budget);
      match truncated with
      | None => Ok (remaining, [])
      | Some truncated =>
          refitted ← (if client_developer then refit_client_message truncated content_budget available_tokens
                      else Ok (Some truncated));
          match refitted with
          | None => Ok (remaining, [])
          | Some truncated => Ok (0, newest_first_items g truncated)
          end
      end
    else Ok (if with_images then 0 else remaining, []).

Fixpoint retain_loop (image_budget : RetainedImageBudget) (remaining : Z) (newest_first : list group) : res Empty_set (list Envelope) :=
  match newest_first with
  | [] => Ok []
  | g :: older =>
      '(remaining, kept) ← retain_group image_budget remaining g;
      kept_older ← retain_loop image_budget remaining older;
      Ok (kept ++ kept_older)
  end.

Definition truncate_retained_messages (l : list Envelope) (max_tokens : Z) (image_budget : RetainedImageBudget) : res Empty_set (list Envelope) :=
  truncated_reversed ← retain_loop image_budget max_tokens (reverse (v2_history_item_groups l));
  Ok (reverse truncated_reversed).

Definition build_v2_compacted_history (prompt_input : list Envelope) (compaction_output : Item)
  (retain_client_developer_messages : bool) (image_budget : RetainedImageBudget) : res Empty_set (list Envelope * Z) :=
  let kept (g : group) :=
    is_retained_for_remote_compaction_v2 (item (source g))
    && (should_keep_compacted_history_item (item (source g))
        || (retain_client_developer_messages && is_client_authored_developer_message (source g))) in
  let retained := concat (map into_items (List.filter kept (v2_history_item_groups prompt_input))) in
  retained ← truncate_retained_messages retained RETAINED_MESSAGE_TOKEN_BUDGET image_budget;
  let retained_image_count := sum (map (fun e => retained_input_image_count (item e)) retained) in
  Ok (retained ++ [envelope_new compaction_output], retained_image_count).
End RemoteCompact.
