(* ===== verification/RemoteCompactProps.v ===== *)
(** * Properties of compaction by the model

    Messages that are kept beside a compaction stay within their budget
    ([retained_within_budget]), and a history that is cut for its compaction loses the
    outputs of its last calls only, until it fits ([trim_accounts]). *)
From S2P Require Import Prelude Width History Truncation WorldState Rollout GuardianHistory ContextManager Compact Media TokenEstimate RemoteCompact.

Set Default Goal Selector "!".

Local Open Scope Z_scope.

(** ** Sums and groups *)

Lemma sum_cons x l : sum (x :: l) = x + sum l.
Proof. done. Qed.

Lemma sum_app a b : sum (a ++ b) = sum a + sum b.
Proof. induction a as [|x a IH]; [done|]. cbn [app]. rewrite !sum_cons, IH. lia. Qed.

Lemma sum_map_reverse {A} (f : A -> Z) l : sum (map f (reverse l)) = sum (map f l).
Proof. induction l as [|x l IH]; [done|]. rewrite reverse_cons, map_app, sum_app, IH. cbn [map]. rewrite !sum_cons. change (sum []) with 0. lia. Qed.

Lemma sum_mono {A} (f g : A -> Z) l : (forall a, a ∈ l -> f a <= g a) -> sum (map f l) <= sum (map g l).
Proof.
  induction l as [|a l IH]; intros H; [done|]. pose proof (H a ltac:(set_solver)).
  specialize (IH ltac:(set_solver)). cbn [map]. rewrite !sum_cons. lia.
Qed.

Lemma sum_scale {A} k (f : A -> Z) l : sum (map (fun a => k * f a) l) = k * sum (map f l).
Proof. induction l as [|a l IH]; cbn [map]; [change (sum []) with 0; lia|]. rewrite !sum_cons, IH. lia. Qed.

Lemma sum_nonneg {A} (f : A -> Z) l : (forall a, 0 <= f a) -> 0 <= sum (map f l).
Proof. intros H. induction l as [|a l IH]; [done|]. cbn [map]. rewrite sum_cons. specialize (H a). lia. Qed.

Lemma history_item_groups_flat {T} (p : T -> bool) l : concat (map into_items (history_item_groups p l)) = l.
Proof.
  remember (length l) as n eqn:Hn. assert (Hle : (length l <= n)%nat) by lia. clear Hn. revert l Hle.
  induction n as [|n IH]; intros [|a [|b l]] Hle; cbn in *; try done; try lia.
  destruct (p b); cbn.
  - by rewrite IH by lia.
  - f_equal. apply (IH (b :: l)). cbn. lia.
Qed.

Section Props.
Context {Opaque : Type} {Opaque_dec : EqDecision Opaque}.
Local Abbreviation Item := (@ResponseItem Opaque).
Local Abbreviation Envelope := (@ResponseItemEnvelope Opaque).
Local Abbreviation Content := (@ContentItem Opaque).
Local Abbreviation group := (HistoryItemGroup Envelope).
Local Abbreviation annotated := (Content * rstr)%type.
Context (base64_decode : rstr -> option (list Z)) (image_size : list Z -> option (Z * Z)).
Context (probe_audio : rstr -> list Z -> option (Z * (Z * Z))) (json_len : Item -> option Z).
Context (agent_content : Opaque -> AgentMessageInputContent) (image_detail : Opaque -> ImageDetail).
Local Abbreviation estimate := (estimate_item_token_count base64_decode image_size probe_audio json_len agent_content image_detail).
Local Abbreviation item_tokens := (content_item_token_count base64_decode image_size image_detail).

(** ** Texts and images within a budget *)

(** What a content counts for, in bytes; images where they are charged. *)
Definition content_bytes (charged : bool) (c : Content) : Z :=
  match c with
  | InputText text | OutputText text => byte_len text
  | InputImage _ _ => if charged then 4 * item_tokens c else 0
  | InputAudio _ => 0
  end.

Definition contents_bytes (charged : bool) (l : list annotated) : Z := sum (map (fun c => content_bytes charged c.1) l).

Definition message_bytes (charged : bool) (e : Envelope) : Z :=
  match item e with Message _ _ content _ _ => sum (map (content_bytes charged) content) | _ => 0 end.

Definition content_ok (c : Content) : Prop := match c with InputText text | OutputText text => str_ok text | _ => True end.
Definition contents_ok (l : list annotated) : Prop := Forall (fun c => content_ok c.1) l.

(** A budget of tokens, and its bytes, which a marker may exceed. *)
Definition small (n : Z) : Prop := 0 <= n <= 2 ^ 60.
Definition slack (n : Z) : Z := if n =? 0 then 0 else MARKER_MAX.

Lemma slack_nonneg n : 0 <= slack n.
Proof. unfold slack, MARKER_MAX. case_match; lia. Qed.

Lemma item_tokens_nonneg c : 0 <= item_tokens c.
Proof.
  destruct c; cbn [content_item_token_count]; try done; unfold usize_of_i64, USIZE_MAX; try case_match; try lia;
    unfold approx_token_count, saturating_add, saturating_sub, APPROX_BYTES_PER_TOKEN, USIZE_MAX; pose proof (byte_len_nonneg text); apply Z.div_pos; lia.
Qed.

Lemma text_within text : str_ok text -> byte_len text <= 4 * approx_token_count text.
Proof. intros H. rewrite approx_token_count_ceil by done. pose proof (Z.mod_pos_bound (byte_len text + 3) 4). pose proof (Z.div_mod (byte_len text + 3) 4). lia. Qed.

Lemma small_policy n : small n -> policy_ok (Tokens n).
Proof. unfold small. intros H. cbn. unfold usize, USIZE_MAX. lia. Qed.

Lemma small_budget n : small n -> byte_budget (Tokens n) = 4 * n.
Proof. unfold small. intros H. cbn. unfold approx_bytes_for_tokens, saturating_mul, APPROX_BYTES_PER_TOKEN, USIZE_MAX. lia. Qed.

Lemma fit_text_spec n text :
  small n -> str_ok text ->
  exists n' out, fit_text n text = Ok (n', out) /\ 0 <= n' <= n /\ str_ok out /\
    byte_len out + 4 * n' + slack n' <= 4 * n + MARKER_MAX.
Proof.
  intros Hn Ht. unfold fit_text. destruct (Z.leb_spec (approx_token_count text) n) as [Hle|Hgt].
  - pose proof (text_within text Ht). pose proof (byte_len_nonneg text). exists (n - approx_token_count text), text.
    unfold saturating_sub. rewrite Z.max_l by lia. repeat split; try done; try lia.
    unfold slack. case_match; unfold MARKER_MAX; lia.
  - destruct (truncate_text_as text (Tokens n) Ht (small_policy n Hn)) as (out & -> & Has). cbn [mbind res_bind].
    apply truncated_as_bound in Has; [|by apply byte_budget_nonneg, small_policy]. rewrite small_budget in Has by done.
    exists 0, out. split; [done|]. unfold small in Hn. split; [lia|]. change (slack 0) with 0. unfold str_ok, I64_MAX. unfold MARKER_MAX in *. lia.
Qed.

Lemma fit_item_spec charged n (c : annotated) with_text text :
  (forall t, content_bytes charged (with_text t) = byte_len t) -> (forall t, content_ok (with_text t) = str_ok t) ->
  small n -> str_ok text ->
  exists n' kept, fit_item n c with_text text = Ok (n', kept) /\ 0 <= n' <= n /\ contents_ok kept
    /\ contents_bytes charged kept + 4 * n' + slack n' <= 4 * n + slack n.
Proof.
  intros Hb Hk Hn Ht. unfold fit_item. destruct (Z.eqb_spec n 0) as [->|Hne].
  - exists 0, []. repeat split; try done; constructor.
  - destruct (fit_text_spec n text Hn Ht) as (n' & out & -> & Hn' & Hout & Hle). cbn [mbind res_bind].
    exists n', (if is_empty out then [] else [(with_text out, c.2)]). split; [done|]. split; [done|].
    assert (slack n = MARKER_MAX) as -> by (unfold slack; case_match; lia). pose proof (byte_len_nonneg out).
    destruct (is_empty out); unfold contents_bytes, contents_ok; cbn [map fst]; rewrite ?sum_cons, ?Hb; change (sum []) with 0.
    + split; [constructor|]. lia.
    + split; [repeat constructor; cbn; by rewrite Hk|]. lia.
Qed.

Lemma contents_bytes_app charged a b : contents_bytes charged (a ++ b) = contents_bytes charged a + contents_bytes charged b.
Proof. unfold contents_bytes. by rewrite map_app, sum_app. Qed.

(** One item at the front of the content, by either of the two loops. *)
Definition fitted (charged : bool) (n : Z) (r : res Empty_set (Z * list annotated)) : Prop :=
  exists n' kept, r = Ok (n', kept) /\ 0 <= n' <= n /\ contents_ok kept
    /\ contents_bytes charged kept + 4 * n' + slack n' <= 4 * n + slack n.

Lemma fitted_then charged n r (k : Z -> res Empty_set (list annotated)) :
  fitted charged n r ->
  (forall n', 0 <= n' <= n -> exists later, k n' = Ok later /\ contents_ok later /\ contents_bytes charged later <= 4 * n' + slack n') ->
  exists l, (r ≫= fun '(n', kept) => k n' ≫= fun later => Ok (kept ++ later)) = Ok l
    /\ contents_ok l /\ contents_bytes charged l <= 4 * n + slack n.
Proof.
  intros (n' & kept & -> & Hn' & Hk & Hle) H. destruct (H n' Hn') as (later & Hlater & Hl & Hb). cbn. rewrite Hlater. cbn.
  exists (kept ++ later). split; [done|]. split; [by apply Forall_app|]. rewrite contents_bytes_app. lia.
Qed.

Lemma small_below n n' : small n -> 0 <= n' <= n -> small n'.
Proof. unfold small. lia. Qed.

Lemma fitted_uncharged charged n (c : annotated) : 0 <= n -> content_ok c.1 -> content_bytes charged c.1 = 0 -> fitted charged n (Ok (n, [c])).
Proof.
  intros Hn Hok Hb. exists n, [c]. split; [done|]. split; [lia|]. split; [by repeat constructor|].
  unfold contents_bytes. cbn [map]. rewrite sum_cons, Hb. change (sum []) with 0. lia.
Qed.

Lemma truncate_texts_spec charged content n :
  small n -> contents_ok content -> (charged = true -> Forall (fun c => is_input_image c.1 = false) content) ->
  exists l, truncate_texts n content = Ok l /\ contents_ok l /\ contents_bytes charged l <= 4 * n + slack n.
Proof.
  intros Hn Hok Hi. revert n Hn. induction content as [|c content IH]; intros n Hn; cbn [truncate_texts].
  - exists []. split; [done|]. split; [constructor|]. unfold small in Hn. cbn. pose proof (slack_nonneg n). lia.
  - apply Forall_cons in Hok as [Hc Hok]. assert (Hi' : charged = true -> Forall (fun c => is_input_image c.1 = false) content).
    { intros H%Hi. by apply Forall_cons in H as [_ H]. }
    apply (fitted_then charged n _ (fun n => truncate_texts n content)); [|intros n' Hn'; apply IH; eauto using small_below].
    destruct c as [[text|url detail|url|text] kind]; cbn [fst] in *; try by apply fit_item_spec.
    all: apply fitted_uncharged; [by destruct Hn|done|cbn; try done].
    destruct charged; [|done]. by specialize (Hi eq_refl); apply Forall_cons in Hi as [Hi _].
Qed.

Lemma tokens_cover part : contents_ok part -> contents_bytes true part <= 4 * sum (map (fun c : annotated => item_tokens c.1) part).
Proof.
  intros Hok. rewrite <- sum_scale. apply sum_mono. intros [c k] Hc. unfold contents_ok in Hok. rewrite Forall_forall in Hok. specialize (Hok _ Hc).
  destruct c; cbn in *; try by apply text_within. all: lia.
Qed.

(** A round of the loop over images takes at least one item. *)
Lemma image_part_range (content : list annotated) : (image_part content <= length content)%nat.
Proof.
  unfold image_part. repeat case_match; cbn; try lia; simplify_eq/=; try lia.
  all: match goal with H : ?l !! _ = Some _ |- _ => apply lookup_lt_Some in H; cbn in *; lia end.
Qed.

Lemma image_part_image c (content : list annotated) : is_input_image c.1 = true -> image_part (c :: content) ≠ 0%nat.
Proof. destruct c as [[] k]; cbn; try done. intros _. repeat case_match; done. Qed.

(** The fuel is enough, and what is kept fits. *)
Lemma image_loop_total fuel content n :
  (length content <= fuel)%nat -> small n -> contents_ok content ->
  exists l, truncate_with_images base64_decode image_size image_detail fuel n content = Ok l
    /\ contents_ok l /\ contents_bytes true l <= 4 * n + slack n.
Proof.
  revert content n. induction fuel as [|fuel IH]; intros [|c content] n Hf Hn Hok; cbn [length] in Hf; try lia.
  1,2: exists []; split; [done|]; split; [constructor|]; unfold small in Hn; cbn; pose proof (slack_nonneg n); lia.
  cbn [truncate_with_images]. pose proof (image_part_range (c :: content)) as Hr. pose proof (image_part_image c content) as Hi.
  destruct (image_part (c :: content)) as [|m]; [|clear Hi].
  - apply Forall_cons in Hok as [Hc Hok].
    apply (fitted_then true n _ (fun n => truncate_with_images base64_decode image_size image_detail fuel n content));
      [|intros n' Hn'; apply IH; [lia|eauto using small_below..]].
    destruct c as [[text|url detail|url|text] kind]; cbn [fst] in *; try by apply fit_item_spec.
    + by destruct (Hi eq_refl).
    + apply fitted_uncharged; [by destruct Hn|done..].
  - set (part := take (S m) (c :: content)). set (tokens := sum _).
    assert (Hp : contents_ok part) by (by apply Forall_take). pose proof (tokens_cover part Hp) as Hcover. fold tokens in Hcover.
    assert (Ht : 0 <= tokens). { apply sum_nonneg. intros a. apply item_tokens_nonneg. }
    assert (Hn' : small (if tokens <=? n then n - tokens else 0)). { unfold small in *. destruct (Z.leb_spec tokens n); lia. }
    destruct (IH (drop (S m) (c :: content)) _ ltac:(rewrite length_drop; cbn; lia) Hn' ltac:(by apply Forall_drop)) as (l & -> & Hl & Hb). cbn [mbind res_bind].
    eexists. split; [done|]. destruct (Z.leb_spec tokens n).
    + split; [by apply Forall_app|]. rewrite contents_bytes_app. assert (slack (n - tokens) <= slack n); [|lia].
      unfold slack, MARKER_MAX. repeat case_match; lia.
    + split; [done|]. change (slack 0) with 0 in Hb. pose proof (slack_nonneg n). unfold small in Hn. cbn [app]. lia.
Qed.

(** ** Messages within a budget *)

Definition envelope_ok (e : Envelope) : Prop := match item e with Message _ _ content _ _ => Forall content_ok content | _ => True end.

Definition has_images (e : Envelope) : bool := 0 <? retained_input_image_count (item e).

Lemma annotated_ok e i content : to_annotated_content (item e) = (i, Some content) -> envelope_ok e -> contents_ok content.
Proof.
  unfold envelope_ok, contents_ok. destruct (item e) as [|id role c phase meta| | | | | | | | | | | | | | |]; try done. cbn. intros [= _ <-] H.
  apply (List.Forall_map fst content_ok). by rewrite zip_kinds_fst.
Qed.

Lemma annotated_images e i content :
  to_annotated_content (item e) = (i, Some content) -> has_images e = false -> Forall (fun c => is_input_image c.1 = false) content.
Proof.
  unfold has_images. destruct (item e) as [|id role c phase meta| | | | | | | | | | | | | | |]; try done. cbn. intros [= _ <-] H.
  assert (Hf : List.filter is_input_image c = []) by (destruct (List.filter is_input_image c); [done|cbn in H; discriminate]).
  apply (List.Forall_map fst (fun c => is_input_image c = false)). rewrite zip_kinds_fst, Forall_forall. intros a Ha.
  destruct (is_input_image a) eqn:E; [|done]. assert (Hin : a ∈ List.filter is_input_image c) by (by apply list_elem_of_In, List.filter_In; rewrite <- list_elem_of_In).
  rewrite Hf in Hin. by apply elem_of_nil in Hin.
Qed.

Lemma set_content_spec charged e i content l e' :
  to_annotated_content (item e) = (i, Some content) -> contents_ok l -> set_content e i l = Some e' ->
  envelope_ok e' /\ message_bytes charged e' = contents_bytes charged l.
Proof.
  unfold set_content, envelope_ok, message_bytes, contents_bytes. destruct (item e) as [|id role c phase meta| | | | | | | | | | | | | | |]; try done.
  intros [= <- _] Hl. case_match; [done|]. intros [= <-]. cbn. rewrite map_map. split; [|done]. by apply List.Forall_map.
Qed.

(** What a cut message is, if anything is left of it. *)
Definition cut_message (charged : bool) (n : Z) (r : res Empty_set (option Envelope)) : Prop :=
  exists o, r = Ok o /\ forall e, o = Some e -> envelope_ok e /\ message_bytes charged e <= 4 * n + MARKER_MAX.

Lemma slack_le n : slack n <= MARKER_MAX.
Proof. unfold slack, MARKER_MAX. case_match; lia. Qed.

Lemma truncate_message_text_spec charged e n :
  small n -> envelope_ok e -> (charged = true -> has_images e = false) ->
  cut_message charged n (truncate_message_text_to_token_budget e n).
Proof.
  intros Hn Hok Hi. unfold truncate_message_text_to_token_budget, cut_message. destruct (to_annotated_content (item e)) as [i [content|]] eqn:E.
  - destruct (truncate_texts_spec charged content n Hn) as (l & -> & Hl & Hb); [by eapply annotated_ok|intros H; eauto using annotated_images|].
    cbn. eexists. split; [done|]. intros e' He'. destruct (set_content_spec charged _ _ _ _ _ E Hl He') as [? ->]. pose proof (slack_le n). split; [done|lia].
  - by exists None.
Qed.

Lemma truncate_message_spec e n :
  small n -> envelope_ok e -> cut_message true n (truncate_message_to_token_budget base64_decode image_size image_detail e n).
Proof.
  intros Hn Hok. unfold truncate_message_to_token_budget, cut_message. destruct (to_annotated_content (item e)) as [i [content|]] eqn:E.
  - destruct (image_loop_total (length content) (reverse content) n) as (l & -> & Hl & Hb); [by rewrite length_reverse|done|apply Forall_reverse; by eapply annotated_ok|].
    cbn. eexists. split; [done|]. intros e' He'. apply Forall_reverse in Hl.
    destruct (set_content_spec true _ _ _ _ _ E Hl He') as [? ->]. split; [done|]. pose proof (slack_le n).
    unfold contents_bytes in *. rewrite sum_map_reverse. lia.
  - by exists None.
Qed.

(** ** Groups within a budget *)

Local Abbreviation client e := (is_client_authored_developer_message e).
Local Abbreviation notice_tokens := (notice_token_count base64_decode image_size probe_audio json_len agent_content image_detail).
Local Abbreviation source_tokens := (source_token_count base64_decode image_size probe_audio json_len agent_content image_detail).

(** What a group takes of the budget when it is kept whole. *)
Definition charge (image_budget : RetainedImageBudget) (g : group) : Z := source_tokens image_budget g + notice_tokens g.

Definition charges (image_budget : RetainedImageBudget) (gs : list group) : Z := sum (map (charge image_budget) gs).

(** A group that does not fit [n], whose message is cut to what its notice leaves. *)
Definition cut_to (image_budget : RetainedImageBudget) (n : Z) (g : group) (e : Envelope) : Prop :=
  n < charge image_budget g /\ notice_tokens g < n
  /\ message_bytes (charges_images image_budget g) e <= 4 * (n - notice_tokens g) + MARKER_MAX
  /\ (client (source g) = true -> usize_of_i64 (estimate (item e)) <= n - notice_tokens g).

Definition group_ok (g : group) : Prop := envelope_ok (source g).

Lemma text_tokens_nonneg (c : Content) : 0 <= text_tokens c.
Proof.
  destruct c; cbn; try done; unfold approx_token_count, saturating_add, saturating_sub, APPROX_BYTES_PER_TOKEN, USIZE_MAX;
    pose proof (byte_len_nonneg text); apply Z.div_pos; lia.
Qed.

Lemma charge_parts image_budget g : 0 <= source_tokens image_budget g /\ 0 <= notice_tokens g.
Proof.
  unfold source_token_count, notice_token_count. split; repeat case_match; unfold usize_of_i64, USIZE_MAX; try case_match; lia.
Qed.

Lemma refit_spec e budget available :
  small available -> 0 <= budget <= available -> envelope_ok e -> message_bytes false e <= 4 * available + MARKER_MAX ->
  exists o, refit_client_message base64_decode image_size probe_audio json_len agent_content image_detail e budget available = Ok o
    /\ forall e', o = Some e' -> message_bytes false e' <= 4 * available + MARKER_MAX /\ usize_of_i64 (estimate (item e')) <= available.
Proof.
  intros Ha Hb Hok Hbytes. unfold refit_client_message. set (tokens := usize_of_i64 (estimate (item e))).
  destruct (Z.ltb_spec available tokens) as [Hlt|Hle].
  - set (adjusted := saturating_sub _ 1). assert (Hadj : small adjusted /\ adjusted <= available).
    { unfold small, adjusted, saturating_sub in *. lia. }
    destruct (truncate_message_text_spec false e adjusted (proj1 Hadj) Hok ltac:(done)) as (o & -> & Ho). cbn.
    eexists. split; [done|]. intros e' He'. destruct o as [e1|]; cbn in He'; [|done]. destruct (Ho e1 eq_refl) as [_ H].
    destruct (Z.ltb_spec available (usize_of_i64 (estimate (item e1)))); [done|]. injection He' as <-. lia.
  - eexists. split; [done|]. intros e' [= <-]. done.
Qed.

Definition retained_step image_budget n g (r : res Empty_set (Z * list Envelope)) : Prop :=
  exists n' kept, r = Ok (n', kept) /\ 0 <= n' <= n /\
    (kept = newest_first_items g (source g) /\ n = charge image_budget g + n'
     \/ (exists e, kept = newest_first_items g e /\ n' = 0 /\ cut_to image_budget n g e)
     \/ (kept = [] /\ (n' = n \/ n' = 0))).

Lemma charged_client image_budget (g : group) : client (source g) = true -> charges_images image_budget g = false.
Proof. unfold charges_images. intros ->. by destruct image_budget. Qed.

Lemma retain_group_spec image_budget n g :
  small n -> group_ok g ->
  retained_step image_budget n g
    (retain_group base64_decode image_size probe_audio json_len agent_content image_detail image_budget n g).
Proof.
  intros Hn Hok. unfold retain_group, retained_step. destruct (Z.eqb_spec n 0) as [->|Hne]; [exists 0, []; split; [done|]; split; [done|auto]|].
  destruct (charge_parts image_budget g) as [Hs Ht]. set (with_images := _ && _). set (content := content_token_count _ _ _ _ _ _ image_budget g).
  assert (Hskip : forall b : bool, 0 <= (if b then 0 else n) <= n /\ ((if b then 0 else n) = n \/ (if b then 0 else n) = 0)).
  { unfold small in Hn. intros []; lia. }
  destruct (Z.leb_spec (saturating_add (source_tokens image_budget g) (notice_tokens g)) n) as [Hle|Hgt].
  { exists (n - charge image_budget g), (newest_first_items g (source g)). unfold charge, saturating_add, saturating_sub, small, USIZE_MAX in *.
    split; [do 2 f_equal; lia|]. split; [lia|]. left. split; [done|lia]. }
  assert (Hfits : n < charge image_budget g) by (unfold charge, saturating_add, small, USIZE_MAX in *; lia).
  destruct (Z.ltb_spec (notice_tokens g) n) as [Hnotice|]; [|eexists _, []; split; [done|]; split; [apply Hskip|]; right; right; split; [done|apply Hskip]].
  set (available := n - notice_tokens g). set (budget := if client (source g) then _ else available).
  assert (Hb : 0 <= budget <= available). { unfold budget, available, saturating_sub. destruct (client (source g)); lia. }
  assert (Ha : small available) by (unfold small, available in *; lia). assert (Hsb : small budget) by (unfold small in *; lia).
  assert (Hcut : cut_message (charges_images image_budget g) budget
    (if with_images then truncate_message_to_token_budget base64_decode image_size image_detail (source g) budget
     else truncate_message_text_to_token_budget (source g) budget)).
  { destruct with_images eqn:Ew; unfold with_images in Ew.
    - apply andb_true_iff in Ew as [-> _]. by apply truncate_message_spec.
    - apply truncate_message_text_spec; [done..|]. intros Hc. by rewrite Hc in Ew. }
  destruct Hcut as ([e|] & -> & He); cbn [mbind res_bind]; [|eexists _, []; split; [done|]; split; [apply Hskip|]; right; right; split; [done|apply Hskip]].
  destruct (He e eq_refl) as [Heok Hbytes]. destruct (client (source g)) eqn:Ec.
  - rewrite charged_client in Hbytes by done.
    destruct (refit_spec e budget available Ha Hb Heok ltac:(lia)) as ([e'|] & -> & He'); cbn [mbind res_bind];
      [|eexists _, []; split; [done|]; split; [apply Hskip|]; right; right; split; [done|apply Hskip]].
    destruct (He' e' eq_refl) as [Hb' Hest]. eexists _, _. split; [done|]. split; [unfold small in Hn; lia|].
    right. left. exists e'. split; [done|]. split; [done|]. unfold cut_to. rewrite charged_client by done. fold available. auto.
  - cbn [mbind res_bind]. eexists _, _. split; [done|]. split; [unfold small in Hn; lia|].
    right. left. exists e. split; [done|]. split; [done|]. unfold cut_to. fold available. rewrite Ec. by repeat split.
Qed.

(** What the loop keeps: whole groups, and at most one that is cut, older than those. *)
Definition retained image_budget n (newest_first kept : list group) (cut : option (group * Envelope)) : Prop :=
  match cut with
  | None => kept `sublist_of` newest_first /\ charges image_budget kept <= n
  | Some (g, e) => exists newer older, newest_first = newer ++ g :: older /\ kept `sublist_of` newer
      /\ cut_to image_budget (n - charges image_budget kept) g e
  end.

Definition cut_items (cut : option (group * Envelope)) : list Envelope :=
  match cut with Some (g, e) => newest_first_items g e | None => [] end.

Local Abbreviation loop := (retain_loop base64_decode image_size probe_audio json_len agent_content image_detail).

Lemma retain_loop_empty image_budget gs : loop image_budget 0 gs = Ok [].
Proof.
  induction gs as [|g gs IH]; [done|]. cbn [retain_loop].
  assert (retain_group base64_decode image_size probe_audio json_len agent_content image_detail image_budget 0 g = Ok (0, [])) as -> by done.
  cbn [mbind res_bind]. by rewrite IH.
Qed.

Lemma retain_loop_spec image_budget n gs :
  small n -> Forall group_ok gs ->
  exists kept cut, loop image_budget n gs = Ok (concat (map (fun g => newest_first_items g (source g)) kept) ++ cut_items cut)
    /\ retained image_budget n gs kept cut.
Proof.
  intros Hn Hok. revert n Hn. induction Hok as [|g gs Hg _ IH]; intros n Hn.
  - exists [], None. split; [done|]. split; [done|]. by destruct Hn.
  - cbn [retain_loop]. destruct (retain_group_spec image_budget n g Hn Hg) as (n' & kept & -> & Hn' & Hcase). cbn [mbind res_bind].
    destruct Hcase as [[-> Hcharge]|[(e & -> & -> & Hcut)|[-> Hcase]]].
    + destruct (IH n' ltac:(eauto using small_below)) as (later & cut & -> & Hret). cbn [mbind res_bind].
      exists (g :: later), cut. split; [cbn; by rewrite app_assoc|]. unfold retained, charges in *. cbn [map]. rewrite sum_cons.
      destruct cut as [[g' e]|].
      * destruct Hret as (newer & older & -> & Hsub & Hcut). exists (g :: newer), older. split; [done|]. split; [by apply sublist_skip|].
        by replace (n - (charge image_budget g + sum (map (charge image_budget) later))) with (n' - sum (map (charge image_budget) later)) by lia.
      * destruct Hret. split; [by apply sublist_skip|lia].
    + exists [], (Some (g, e)). rewrite retain_loop_empty. cbn [mbind res_bind]. split; [cbn; by rewrite app_nil_r|].
      exists [], gs. split; [done|]. split; [done|]. change (charges image_budget []) with 0. by rewrite Z.sub_0_r.
    + destruct Hcase as [-> | ->].
      * destruct (IH n Hn) as (later & cut & -> & Hret). cbn [mbind res_bind]. exists later, cut. split; [done|].
        unfold retained in *. destruct cut as [[g' e]|].
        -- destruct Hret as (newer & older & -> & Hsub & Hcut). exists (g :: newer), older. split; [done|]. by split; [apply sublist_cons|].
        -- destruct Hret. split; [by apply sublist_cons|lia].
      * exists [], None. rewrite retain_loop_empty. split; [done|]. split; [apply sublist_nil_l|]. by destruct Hn.
Qed.

Lemma groups_ok l : Forall envelope_ok l -> Forall group_ok (v2_history_item_groups l).
Proof.
  intros H. assert (Hg : Forall (fun g => Forall envelope_ok (into_items g)) (groups l)).
  { apply List.Forall_map, List.Forall_concat. unfold groups. by rewrite history_item_groups_flat. }
  apply List.Forall_concat, List.Forall_map. eapply Forall_impl; [exact Hg|]. intros g Hok. unfold into_items in Hok. apply Forall_cons in Hok as [Hs Hnotice].
  unfold separate_client_notice, group_ok. destruct (attached_notice g) as [notice|] eqn:E; [|by repeat constructor].
  cbn in Hnotice. apply Forall_cons in Hnotice as [Hnotice _]. destruct (client notice); repeat constructor; done.
Qed.

Lemma reverse_whole kept : reverse (concat (map (fun g => newest_first_items g (source g)) kept)) = concat (map into_items (reverse kept) : list (list Envelope)).
Proof.
  induction kept as [|g kept IH]; [done|]. cbn [map concat]. rewrite reverse_app, IH, reverse_cons, map_app, concat_app. f_equal. cbn.
  unfold newest_first_items, into_items. by destruct (attached_notice g).
Qed.

(** Keeping messages beside a compaction never panics and stays within its budget: kept
    are whole messages with the notices that belong to them, in their order, whose tokens
    are at most the budget, and in front of them at most one message that did not fit what
    they leave. That one is cut to what is left (and one truncation marker), images counted
    where they are charged; nothing older than it is kept. *)
Theorem retained_within_budget l budget image_budget :
  0 <= budget <= 2 ^ 60 -> Forall envelope_ok l ->
  exists kept cut,
    truncate_retained_messages base64_decode image_size probe_audio json_len agent_content image_detail l budget image_budget
    = Ok (reverse (cut_items cut) ++ concat (map into_items kept))
    /\ retained image_budget budget (reverse (v2_history_item_groups l)) (reverse kept) cut.
Proof.
  intros Hb Hok. unfold truncate_retained_messages.
  destruct (retain_loop_spec image_budget budget (reverse (v2_history_item_groups l)) Hb) as (kept & cut & -> & Hret).
  { by apply Forall_reverse, groups_ok. }
  exists (reverse kept), cut. cbn [mbind res_bind]. rewrite reverse_app, reverse_whole, reverse_involutive. done.
Qed.

(** ** Fitting the window *)

Local Abbreviation rewrite_output := rewritten_output_for_context_window.
Local Abbreviation size e := (estimate (item e)).

(** The estimate of a history without the limits of the machine. *)
Definition total (base : Z) (l : list Envelope) : Z := base + sum (map (fun e => size e) l).

Lemma estimate_range (i : Item) : 0 <= estimate i <= I64_MAX.
Proof.
  unfold estimate_item_token_count, approx_tokens_from_byte_count_i64, I64_MAX. destruct (Z.leb_spec (estimate_response_item_model_visible_bytes base64_decode image_size probe_audio json_len agent_content image_detail i) 0); [lia|].
  unfold approx_tokens_from_byte_count, saturating_add, saturating_sub, APPROX_BYTES_PER_TOKEN, USIZE_MAX.
  match goal with |- context [?a / 4] => assert (0 <= a / 4) by (apply Z.div_pos; lia) end. lia.
Qed.

Lemma sizes_range l : 0 <= sum (map (fun e : Envelope => size e) l) <= Z.of_nat (length l) * I64_MAX.
Proof.
  induction l as [|e l IH]; [done|]. cbn [map length]. rewrite sum_cons. pose proof (estimate_range (item e)). lia.
Qed.

Lemma sizes_group g : estimated_token_count base64_decode image_size probe_audio json_len agent_content image_detail g = sum (map (fun e => size e) (into_items g)).
Proof.
  unfold estimated_token_count, into_items, sat_i128, I128_MAX. pose proof (estimate_range (item (source g))) as Hs.
  destruct (attached_notice g) as [n|]; [change (option_list (Some n)) with [n]|change (option_list None) with ([] : list Envelope)];
    cbn [map]; rewrite !sum_cons; change (sum []) with 0;
    [pose proof (estimate_range (item n))|]; unfold I64_MAX in *; lia.
Qed.

Definition fits_i128 (n : Z) : Prop := 0 <= n <= 2 ^ 126.

Lemma fits_i128_sat n : fits_i128 n -> sat_i128 n = n.
Proof. unfold fits_i128, sat_i128, I128_MAX. lia. Qed.

Lemma fits_i128_i64 n : fits_i128 n -> i64_of_i128 n = Z.min n I64_MAX.
Proof. unfold fits_i128, i64_of_i128, I64_MIN, I64_MAX. intros H. destruct (Z.leb_spec (- 2 ^ 63) n), (Z.leb_spec n (2 ^ 63 - 1)); cbn [andb]; lia. Qed.

Lemma total_fits base l : 0 <= base <= I64_MAX -> Z.of_nat (length l) <= 2 ^ 61 -> fits_i128 (total base l).
Proof. intros Hb Hl. pose proof (sizes_range l). unfold fits_i128, total, I64_MAX in *. nia. Qed.

Lemma estimate_total_app base a b : total base (a ++ b) = total base a + sum (map (fun e => size e) b).
Proof. unfold total. rewrite map_app, sum_app. lia. Qed.

Lemma initial_total base gs l :
  concat (map into_items gs) = l -> 0 <= base <= I64_MAX -> Z.of_nat (length l) <= 2 ^ 61 ->
  foldl (fun sum g => sat_i128 (sum + estimated_token_count base64_decode image_size probe_audio json_len agent_content image_detail g)) base gs = total base l.
Proof.
  intros <- Hb. revert gs. apply (rev_ind (fun gs => Z.of_nat (length (concat (map into_items gs))) <= 2 ^ 61 -> _ = _)).
  - intros _. cbn. unfold total. cbn. lia.
  - intros g gs IH Hl. rewrite foldl_snoc. rewrite map_app, concat_app in *. cbn [map concat] in *. rewrite app_nil_r in *. rewrite length_app in Hl.
    rewrite IH by lia. rewrite sizes_group, <- estimate_total_app. apply fits_i128_sat, total_fits; [done|]. rewrite length_app. lia.
Qed.

Definition output_of (g : group) (e : Envelope) : Prop := rewrite_output (source g) = Some e.

(** Why the loop stops at [kept]. *)
Definition settled_at (window base : Z) (kept : list group) (rewritten : list Envelope) : Prop :=
  Z.min (total base (concat (map into_items kept) ++ rewritten)) I64_MAX <= window
  \/ match last kept with Some g => rewrite_output (source g) = None | None => True end.

Local Abbreviation flat gs := (concat (map into_items gs) : list Envelope).
Local Abbreviation trim := (trim_loop base64_decode image_size probe_audio json_len agent_content image_detail).

Lemma flat_snoc gs g : flat (gs ++ [g]) = flat gs ++ into_items g.
Proof. rewrite map_app, concat_app. cbn. by rewrite app_nil_r. Qed.

Lemma trim_loop_spec window base original kept back rewritten :
  0 <= base <= I64_MAX -> original = flat kept ++ back -> Z.of_nat (length (flat kept) + length rewritten) <= 2 ^ 61 ->
  exists older cut more, kept = older ++ cut /\ Forall2 output_of cut more
    /\ trim original window (reverse kept) (total base (flat kept ++ reverse rewritten)) (length back) rewritten
       = (total base (flat older ++ more ++ reverse rewritten), (length (flat cut) + length back)%nat, rewritten ++ reverse more)
    /\ settled_at window base older (more ++ reverse rewritten).
Proof.
  intros Hb. revert kept back rewritten. apply (rev_ind (fun kept => forall back rewritten, original = flat kept ++ back -> _ -> _)).
  { intros back rewritten _ _. exists [], [], []. split; [done|]. split; [by constructor|]. split; [cbn; by rewrite app_nil_r|by right]. }
  intros g kept IH back rewritten Ho Hl. rewrite flat_snoc, length_app in Hl.
  assert (Hfit : fits_i128 (total base (flat (kept ++ [g]) ++ reverse rewritten))).
  { apply total_fits; [done|]. rewrite flat_snoc, !length_app, length_reverse. lia. }
  assert (Hstop : settled_at window base (kept ++ [g]) (reverse rewritten) -> exists older cut more, kept ++ [g] = older ++ cut /\ Forall2 output_of cut more
    /\ (total base (flat (kept ++ [g]) ++ reverse rewritten), length back, rewritten)
       = (total base (flat older ++ more ++ reverse rewritten), (length (flat cut) + length back)%nat, rewritten ++ reverse more)
    /\ settled_at window base older (more ++ reverse rewritten)).
  { intros H. exists (kept ++ [g]), [], []. rewrite reverse_nil, !app_nil_r. split; [done|]. split; [by constructor|]. by split. }
  rewrite reverse_snoc. cbn [trim_loop]. rewrite (fits_i128_i64 _ Hfit).
  destruct (Z.leb_spec (Z.min (total base (flat (kept ++ [g]) ++ reverse rewritten)) I64_MAX) window) as [Hle|Hgt]; [apply Hstop; by left|].
  assert (Hidx : original !! (length original - (length back + length (into_items g)))%nat = Some (source g)).
  { rewrite Ho, flat_snoc, !length_app, <- app_assoc. replace (_ - _)%nat with (length (flat kept) + 0)%nat by lia. by rewrite lookup_app_r, Nat.add_comm, Nat.add_sub by lia. }
  rewrite Hidx. cbn [mbind option_bind]. destruct (rewrite_output (source g)) as [e|] eqn:Ee.
  2: { apply Hstop. right. by rewrite last_snoc. }
  assert (Hest : sat_i128 (sat_i128 (total base (flat (kept ++ [g]) ++ reverse rewritten) - estimated_token_count base64_decode image_size probe_audio json_len agent_content image_detail g) + size e)
    = total base (flat kept ++ reverse (rewritten ++ [e]))).
  { rewrite sizes_group. assert (Hsub : total base (flat (kept ++ [g]) ++ reverse rewritten) - sum (map (fun e => size e) (into_items g)) = total base (flat kept ++ reverse rewritten)).
    { rewrite flat_snoc, !estimate_total_app. lia. }
    assert (Hadd : total base (flat kept ++ reverse rewritten) + size e = total base (flat kept ++ reverse (rewritten ++ [e]))).
    { rewrite reverse_snoc, !estimate_total_app. cbn [map]. rewrite sum_cons. lia. }
    rewrite Hsub, (fits_i128_sat (total base (flat kept ++ reverse rewritten))), Hadd; [apply fits_i128_sat|];
      (apply total_fits; [done|]; rewrite !length_app, length_reverse, ?length_app; cbn [length into_items] in *; lia). }
  rewrite Hest. rewrite Nat.add_comm, <- length_app.
  destruct (IH (into_items g ++ back) (rewritten ++ [e])) as (older & cut & more & -> & Hcut & Htrim & Hset).
  { rewrite Ho, flat_snoc. by rewrite app_assoc. }
  { rewrite length_app. cbn [length into_items] in *. lia. }
  assert (Heq : more ++ reverse (rewritten ++ [e]) = (more ++ [e]) ++ reverse rewritten) by (by rewrite reverse_snoc, <- app_assoc).
  rewrite Heq in *. rewrite Htrim. exists older, (cut ++ [g]), (more ++ [e]). split; [by rewrite app_assoc|].
  split; [apply Forall2_app; [done|by repeat constructor]|]. split; [|done].
  rewrite flat_snoc, reverse_snoc, !length_app, <- (app_assoc rewritten [e]). cbn [app]. do 2 f_equal. lia.
Qed.

Context (is_contextual_user_fragment : Content -> bool) (item_writes : Item -> list Z) (reasoning_writes : option (list Opaque) -> list Z).
Context (meta_writes : option rstr -> rstr -> option Opaque -> option (@InternalChatMessageMetadataPassthrough Opaque) -> list Z).
Context (content_writes : Content -> list Z) (response_item_size : Z) {TokenInfo : Type}.
Local Abbreviation manager := (@ContextManager Opaque (@TranscriptHistory Opaque) TokenInfo (@TurnContextItem Opaque) WorldStateSnapshot).
Local Abbreviation trimmed :=
  (trim_function_call_history_to_fit_context_window base64_decode image_size probe_audio json_len agent_content image_detail
     is_contextual_user_fragment item_writes reasoning_writes meta_writes content_writes response_item_size).

Lemma base_range text : 0 <= approx_token_count text <= I64_MAX.
Proof.
  unfold approx_token_count, saturating_add, saturating_sub, APPROX_BYTES_PER_TOKEN, USIZE_MAX, I64_MAX. pose proof (byte_len_nonneg text).
  split; [apply Z.div_pos; lia|apply Z.div_le_upper_bound; lia].
Qed.

(** A history that is cut for its compaction keeps everything but the outputs of its last
    calls: the items are those of the oldest groups as they were, followed by the outputs of
    the newest groups, each rewritten to a placeholder (its notice is dropped). The number
    of tokens that is reported is by how much the estimate of the history fell, although it
    is kept up to date step by step; and the cutting stops only when the estimate is within
    the window or the next group is not the output of a call. *)
Theorem trim_accounts (history : manager) window base_instructions :
  Z.of_nat (length (items history)) <= 2 ^ 60 ->
  let base := approx_token_count base_instructions in
  let '(history', (count, deleted)) := trimmed history (Some window) base_instructions in
  exists kept cut rewritten,
    groups (items history) = kept ++ cut /\ Forall2 output_of cut rewritten
    /\ items history' = flat kept ++ rewritten /\ count = Z.of_nat (length rewritten)
    /\ deleted = Z.min (total base (items history)) I64_MAX - Z.min (total base (items history')) I64_MAX
    /\ settled_at window base kept rewritten.
Proof.
  intros Hl base. unfold trim_function_call_history_to_fit_context_window. fold base. pose proof (base_range base_instructions) as Hb.
  assert (Hflat : flat (groups (items history)) = items history) by apply history_item_groups_flat.
  rewrite (initial_total base _ (items history)) by (done || lia).
  destruct (trim_loop_spec window base (items history) (groups (items history)) [] [] Hb) as (kept & cut & rewritten & Hgs & Hcut & Htrim & Hset).
  { by rewrite app_nil_r. }
  { rewrite Hflat. cbn. lia. }
  rewrite Hflat, reverse_nil, !app_nil_r in *. cbn [length] in Htrim. rewrite Htrim. rewrite Nat.add_0_r, length_app, length_reverse. cbn [length app Nat.add].
  rewrite Hgs in Hflat. rewrite map_app, concat_app in Hflat. assert (Hlen : (length rewritten <= length (flat cut))%nat).
  { clear -Hcut. induction Hcut; cbn; [lia|]. rewrite length_app. lia. }
  assert (Hlc : (length (flat kept) + length (flat cut) = length (items history))%nat) by (rewrite <- Hflat, length_app; lia).
  match goal with |- context [if 0 <? ?n then ?a else history] => set (history' := if 0 <? n then a else history) end. cbv zeta beta iota.
  assert (Hitems : items history' = flat kept ++ rewritten).
  { subst history'. destruct (Z.ltb_spec 0 (Z.of_nat (length rewritten))) as [Hpos|Hz]; cbn [items replace_annotated].
    - rewrite reverse_involutive. f_equal. rewrite <- Hflat. by rewrite take_app_length' by (rewrite length_app; lia).
    - destruct rewritten; [|cbn in Hz; lia]. inversion Hcut. subst. cbn in Hflat. by rewrite app_nil_r in *. }
  exists kept, cut, rewritten. split; [done|]. split; [done|]. split; [done|]. split; [done|]. split; [|done].
  pose proof (total_fits base (items history) Hb ltac:(lia)) as Hf. assert (Hf' : fits_i128 (total base (flat kept ++ rewritten))).
  { apply total_fits; [done|]. rewrite length_app. lia. }
  rewrite (fits_i128_i64 _ Hf), (fits_i128_i64 _ Hf'), Hitems. unfold i64_saturating_sub, sat_i64, I64_MIN, I64_MAX, fits_i128 in *. lia.
Qed.
End Props.

(** ** The answer of the model *)

Section Answer.
Context {Opaque StreamError Usage : Type}.
Local Abbreviation Item := (@ResponseItem Opaque).

Definition is_compaction (i : Item) : bool := match i with Compaction _ _ _ => true | _ => false end.

Definition done_event (i : Item) : res StreamError (@ResponseEvent Opaque Usage) := Ok (OutputItemDone i).

Lemma collect_items l m n output id usage rest :
  collect_compaction_output (map done_event l ++ Ok (Completed id usage) :: rest) m n output
  = finish_collect (m + Z.of_nat (length l)) (n + Z.of_nat (length (List.filter is_compaction l)))
      (match output with Some o => Some o | None => head (List.filter is_compaction l) end) (Some (id, usage)).
Proof.
  revert m n output. induction l as [|i l IH]; intros m n output.
  - cbn [map app collect_compaction_output length List.filter]. rewrite !Z.add_0_r. by destruct output.
  - cbn [map app length List.filter]. unfold done_event at 1. cbn [collect_compaction_output].
    destruct i; rewrite IH; cbn [is_compaction length]; f_equal; first [lia|by destruct output].
Qed.

(** A response to a compaction that completes gives its compaction if it has exactly one, and
    an error that counts them otherwise; it never reaches the branch that is unreachable. *)
Theorem one_compaction_expected l id usage rest :
  collect_compaction_output (map done_event l ++ Ok (Completed id usage) :: rest) 0 0 None
  = match List.filter is_compaction l with
    | [i] => Ok {| compaction_output := i; response_id := id; token_usage := usage |}
    | compactions => Err (NotOneCompaction (Z.of_nat (length compactions)) (Z.of_nat (length l)))
    end.
Proof.
  rewrite collect_items. unfold finish_collect. rewrite !Z.add_0_l. destruct (List.filter is_compaction l) as [|i [|j r]]; [done..|].
  destruct (Z.eqb_spec (Z.of_nat (length (i :: j :: r))) 1); [cbn [length] in *; lia|done].
Qed.
End Answer.

(** * Token accounts and remote compaction on concrete sessions

    The theorems of [RemoteCompactProps] at small histories, and a session that reports an
    almost empty context right after its window was exceeded. *)
From S2P Require Import TokenEstimate.
Module RemoteCompactDemo.
Definition Item := @ResponseItem unit.
Definition Envelope := @ResponseItemEnvelope unit.

(** Decoders that know nothing, and a serialisation that counts the characters of texts. *)
Definition no_decode (_ : rstr) : option (list Z) := None.
Definition no_image (_ : list Z) : option (Z * Z) := None.
Definition no_probe (_ : rstr) (_ : list Z) : option (Z * (Z * Z)) := None.
Definition read_agent (_ : unit) : AgentMessageInputContent := AgentInputText [].
Definition read_detail (_ : unit) : ImageDetail := High.

Definition content_len (c : @ContentItem unit) : Z :=
  match c with InputText t | OutputText t => 24 + byte_len t | InputImage u _ | InputAudio u => 24 + byte_len u end.

Definition json_len (i : Item) : option Z :=
  Some match i with
       | Message _ role content _ _ => 40 + byte_len role + sum (map content_len content)
       | FunctionCallOutput _ _ _ _ {| body := BodyText t |} _ => 60 + byte_len t
       | _ => 60
       end.

Definition message (role text : string) : Envelope := envelope_new (Message None (lit role) [InputText (lit text)] None None).
Definition image_message (text : string) : Envelope :=
  envelope_new (Message None (lit "user") [InputText (lit "<image>"); InputImage (lit "data:image/png;base64,AAAA") None;
                                           InputText (lit "</image>"); InputText (lit text)] None None).
Definition notice : Envelope := message "developer" "<image_resize_notice>Image 1 of 1 was resized.</image_resize_notice>".

(** ** Retention *)

Definition conversation : list Envelope :=
  [message "user" "An old question that is long enough to be cut in the middle when the budget ends";
   image_message "what is this?"; notice; message "user" "thanks"].

Definition keep := truncate_retained_messages no_decode no_image no_probe json_len read_agent read_detail.

Definition texts (r : res Empty_set (list Envelope)) : list (list rstr) :=
  match r with
  | Ok l => map (fun e => match item e with
                          | Message _ _ content _ _ => omap (fun c => match c with InputText t => Some t | _ => None end) content
                          | _ => []
                          end) l
  | _ => []
  end.

(** Where images are charged, the image does not fit 40 tokens: the text after it and its
    notice are kept, and nothing older is. *)
Example conversation_kept :
  texts (keep conversation 40 Enabled)
  = [[lit "what is this?"]; [lit "<image_resize_notice>Image 1 of 1 was resized.</image_resize_notice>"]; [lit "thanks"]].
Proof. vm_compute. reflexivity. Qed.

Lemma retained_within_budget_witness :
  exists kept cut, keep conversation 40 Enabled = Ok (reverse (cut_items cut) ++ concat (map into_items kept)).
Proof.
  destruct (retained_within_budget no_decode no_image no_probe json_len read_agent read_detail conversation 40 Enabled)
    as (kept & cut & H & _); [lia| |by exists kept, cut].
  repeat constructor; unfold str_ok, I64_MAX; vm_compute; discriminate.
Defined.

(** ** Cutting for the window *)

Definition output (text : string) : Envelope :=
  envelope_new (FunctionCallOutput None (Some (lit "c")) None None {| body := BodyText (lit text); success := None |} None).

Definition no_writes {A : Type} (_ : A) : list Z := [].

Definition session : @ContextManager unit (@TranscriptHistory unit) (TokenUsageInfo unit) (@TurnContextItem unit) WorldStateSnapshot :=
  {| items := [message "user" "look"; output "one two three"; message "assistant" "and";
               output "a rather long output that does not fit the window of the model in which the history is compacted";
               output "another rather long output that does not fit the window of the model in which it is compacted"; notice];
     review_history := None; history_version := 0; user_message_revision := 0; token_info := None;
     reference_context_item := None; world_state_baseline := None |}.

Definition trim_session (window : Z) :=
  trim_function_call_history_to_fit_context_window no_decode no_image no_probe json_len read_agent read_detail
    (fun _ => false) no_writes no_writes (fun _ _ _ _ => []) no_writes 0 session (Some window) (lit "instructions").

Example session_trimmed : (trim_session 140).2 = (1, 44) /\ length (items (trim_session 140).1) = 5%nat /\ (trim_session 20).2 = (2, 52).
Proof. vm_compute. done. Qed.

Lemma trim_accounts_witness :
  exists kept cut rewritten, groups (items session) = kept ++ cut /\ Forall2 output_of cut rewritten
    /\ items (trim_session 140).1 = concat (map into_items kept) ++ rewritten.
Proof.
  pose proof (trim_accounts no_decode no_image no_probe json_len read_agent read_detail (fun _ => false) no_writes no_writes
    (fun _ _ _ _ => []) no_writes 0 session 140 (lit "instructions")) as H.
  change (trim_function_call_history_to_fit_context_window _ _ _ _ _ _ _ _ _ _ _ _ session (Some 140) (lit "instructions")) with (trim_session 140) in H.
  destruct (trim_session 140) as [h [n d]]. destruct H as (kept & cut & rewritten & H1 & H2 & H3 & _); [cbn; lia|].
  by exists kept, cut, rewritten.
Defined.

(** ** A full window that looks empty *)

Definition usage (total : Z) : TokenUsage unit :=
  {| input_tokens := total - 50; cached_input_tokens := 0; cache_write_input_tokens := 0; output_tokens := 50;
     reasoning_output_tokens := 0; total_tokens := total; codex_rollout_budget_units := None |}.

Definition model : ModelInfo :=
  {| context_window := Some 1000; max_context_window := None; effective_context_window_percent := 100; mi_auto_compact_token_limit := None |}.

Definition config : Config :=
  {| model_auto_compact_token_limit_scope := Total; model_auto_compact_token_limit := None; token_budget := None |}.

Definition fresh_session : @SessionState unit (@TranscriptHistory unit) (@TurnContextItem unit) WorldStateSnapshot Z unit :=
  {| history := {| items := [message "user" "look"; message "assistant" "done"]; review_history := None; history_version := 0;
                   user_message_revision := 1; token_info := None; reference_context_item := None; world_state_baseline := None |};
     auto_compact_window := new_with_ids (new_initial 7); server_reasoning_included := false |}.

Definition status (sess : @SessionState unit (@TranscriptHistory unit) (@TurnContextItem unit) WorldStateSnapshot Z unit) : res Empty_set (Z * bool) :=
  s ← context_window_token_status no_decode no_image no_probe json_len read_agent read_detail (fun _ => false) (fun _ => false) true sess config model;
  Ok (active_context_tokens s, token_limit_reached s).

(** Two responses of a thread use 600 and 700 tokens of a window of 1000; the next request
    exceeds the window, and the session is marked as full. It then counts no token of its
    context at all, so that nothing compacts it: the mark goes to the sum over the thread,
    and the active context is counted from the difference to the sum before, which is not
    negative. Marked after the first response, it counts the 400 tokens that were left. *)
Theorem exceeded_window_reads_empty :
  exists once twice,
    record_token_usage_info true fresh_session config model (usage 600) = Ok once
    /\ record_token_usage_info true once config model (usage 700) = Ok twice
    /\ status twice = Ok (700, false)
    /\ (sess ← set_total_tokens_full true twice model; status sess) = Ok (0, false)
    /\ (sess ← set_total_tokens_full true once model; status sess) = Ok (400, false)
    /\ (sess ← set_total_tokens_full true fresh_session model; status sess) = Ok (1000, true).
Proof. do 2 eexists. do 2 (split; [vm_compute; reflexivity|]). vm_compute. repeat split. Qed.
End RemoteCompactDemo.
