(* ===== verification/ThreadItems.v ===== *)
(** * Items of a thread

    Models the items a client of the application server sees and how they are built from
    the events of a session: [workx-rs/app-server-protocol/src/protocol/v2/item.rs]
    ([ThreadItem] and the conversion from the items of the core),
    [workx-rs/app-server-protocol/src/protocol/item_builders.rs],
    [workx-rs/protocol/src/review_format.rs], and the payloads of the events that are read,
    from [workx-rs/protocol/src/protocol.rs], [approvals.rs] and [items.rs].

    Fields of a payload that no builder reads are left out. An enumeration of the protocol
    that the core and the application server both declare with the same variants, and
    convert variant by variant, is one type here. Paths are their text. The class
    [ThreadEnv] has what is not modelled: JSON, the crates [shlex], [quick_xml] and
    [uuid], the redaction of secrets, the parser of commands, and the two operations of
    path URIs that are used, which [PathUri] and [NativePath] model. *)
From S2P Require Import Prelude Width AbsPath History WorldState AgentResidency.

Set Default Goal Selector "!".

Local Open Scope Z_scope.

(** ** Enumerations *)

Inductive TurnStatus := TurnCompleted | TurnInterrupted | TurnFailed | TurnInProgress.

Inductive ExecCommandStatus := ExecCompleted | ExecFailed | ExecDeclined.

Inductive CommandExecutionStatus := CommandInProgress | CommandCompleted | CommandFailed | CommandDeclined.

Inductive ExecCommandSource := Agent | UserShell | UnifiedExecStartup | UnifiedExecInteraction.

(** The status of the core, then the one of the application server. *)
Inductive CorePatchApplyStatus := CorePatchCompleted | CorePatchFailed | CorePatchDeclined.
Inductive PatchApplyStatus := PatchInProgress | PatchCompleted | PatchFailed | PatchDeclined.

Inductive McpToolCallStatus := McpInProgress | McpCompleted | McpFailed.

Inductive DynamicToolCallStatus := DynamicInProgress | DynamicCompleted | DynamicFailed.

Inductive CollabAgentTool :=
| SpawnAgent | SendInput | ResumeAgent | Wait | CloseAgent | SendMessage | FollowupTask | InterruptAgent | ListAgents.

Inductive CollabAgentToolCallStatus := CollabInProgress | CollabCompleted | CollabFailed | CollabInterrupted.

Inductive SubAgentActivityKind := ActivityStarted | ActivityInteracted | ActivityInterrupted | ActivityCompleted.

Inductive CollabAgentStatus :=
| StatusPendingInit | StatusRunning | StatusInterrupted | StatusCompleted | StatusErrored | StatusShutdown | StatusNotFound.

Inductive GuardianAssessmentStatus :=
| AssessmentInProgress | AssessmentApproved | AssessmentDenied | AssessmentTimedOut | AssessmentAborted.

Inductive NonSteerableTurnKind := KindReview | KindCompact.

Inductive WorkxErrorInfo :=
| ContextWindowExceeded | SessionBudgetExceeded | UsageLimitExceeded | RateLimitExceeded | ServerOverloaded | CyberPolicy
| MisalignmentPolicyViolation
| HttpConnectionFailed (http_status_code : option Z)
| ResponseStreamConnectionFailed (http_status_code : option Z)
| InternalServerError | Unauthorized | BadRequest | SandboxError
| ResponseStreamDisconnected (http_status_code : option Z)
| ResponseTooManyFailedAttempts (http_status_code : option Z)
| ActiveTurnNotSteerable (turn_kind : NonSteerableTurnKind)
| ThreadRollbackFailed | OtherError.

Definition info_affects_turn_status (self : WorkxErrorInfo) : bool :=
  match self with ThreadRollbackFailed | ActiveTurnNotSteerable _ => false | _ => true end.

Definition command_status_of_exec (value : ExecCommandStatus) : CommandExecutionStatus :=
  match value with ExecCompleted => CommandCompleted | ExecFailed => CommandFailed | ExecDeclined => CommandDeclined end.

Definition patch_status_of_core (value : CorePatchApplyStatus) : PatchApplyStatus :=
  match value with
  | CorePatchCompleted => PatchCompleted
  | CorePatchFailed => PatchFailed
  | CorePatchDeclined => PatchDeclined
  end.

Record CollabAgentState := { ca_status : CollabAgentStatus; ca_message : option rstr }.

Definition collab_state_of_core (value : AgentStatus) : CollabAgentState :=
  match value with
  | PendingInit => {| ca_status := StatusPendingInit; ca_message := None |}
  | Running => {| ca_status := StatusRunning; ca_message := None |}
  | Interrupted => {| ca_status := StatusInterrupted; ca_message := None |}
  | Completed message => {| ca_status := StatusCompleted; ca_message := message |}
  | Errored message => {| ca_status := StatusErrored; ca_message := Some message |}
  | Shutdown => {| ca_status := StatusShutdown; ca_message := None |}
  | AgentNotFound => {| ca_status := StatusNotFound; ca_message := None |}
  end.

(** ** Patches, commands and reviews *)

Inductive FileChangeContent :=
| AddContent (content : rstr)
| DeleteContent (content : rstr)
| UpdateContent (unified_diff : rstr) (move_path : option rstr).

Inductive PatchChangeKind := KindAdd | KindDelete | KindUpdate (move_path : option rstr).

Record FileUpdateChange := { fu_path : rstr; fu_kind : PatchChangeKind; fu_diff : rstr }.

Definition map_patch_change_kind (change : FileChangeContent) : PatchChangeKind :=
  match change with
  | AddContent _ => KindAdd
  | DeleteContent _ => KindDelete
  | UpdateContent _ move_path => KindUpdate move_path
  end.

Definition format_file_change_diff (change : FileChangeContent) : rstr :=
  match change with
  | AddContent content => content
  | DeleteContent content => content
  | UpdateContent unified_diff (Some path) => unified_diff ++ [NL; NL] ++ lit "Moved to: " ++ path
  | UpdateContent unified_diff None => unified_diff
  end.

Definition file_update_change (p : rstr * FileChangeContent) : FileUpdateChange :=
  {| fu_path := p.1; fu_kind := map_patch_change_kind p.2; fu_diff := format_file_change_diff p.2 |}.

Definition path_leb (a b : FileUpdateChange) : bool := str_leb (fu_path a) (fu_path b).

(** The entries of the map in the order of an iteration, of which the result does not
    depend ([patch_changes_order]). *)
Definition convert_patch_changes (changes : list (rstr * FileChangeContent)) : list FileUpdateChange :=
  sort_by path_leb (map file_update_change changes).

Inductive ParsedCommand :=
| ParsedRead (cmd name path : rstr)
| ParsedListFiles (cmd : rstr) (path : option rstr)
| ParsedSearch (cmd : rstr) (query path : option rstr)
| ParsedUnknown (cmd : rstr).

Inductive CommandAction :=
| ActionRead (command name path : rstr)
| ActionListFiles (command : rstr) (path : option rstr)
| ActionSearch (command : rstr) (query path : option rstr)
| ActionUnknown (command : rstr).

Record ReviewFinding := {
  rf_title : rstr;
  rf_body : rstr;
  rf_absolute_file_path : rstr;
  rf_start : Z;
  rf_end : Z;
}.

Record ReviewOutputEvent := { ro_findings : list ReviewFinding; ro_overall_explanation : rstr }.

Definition format_location (f : ReviewFinding) : rstr :=
  rf_absolute_file_path f ++ lit ":" ++ dec (rf_start f) ++ lit "-" ++ dec (rf_end f).

Definition REVIEW_FALLBACK_MESSAGE : rstr := lit "Reviewer failed to output a response.".

(** U+2014 between spaces. *)
Definition EM_DASH : rstr := lit " " ++ [8212] ++ lit " ".

Definition finding_header (selection : option (list bool)) (idx : nat) (f : ReviewFinding) : rstr :=
  match selection with
  | Some flags =>
      let checked := default true (flags !! idx) in
      let marker := if checked then lit "[x]" else lit "[ ]" in
      lit "- " ++ marker ++ lit " " ++ rf_title f ++ EM_DASH ++ format_location f
  | None => lit "- " ++ rf_title f ++ EM_DASH ++ format_location f
  end.

Definition finding_lines (selection : option (list bool)) (idx : nat) (f : ReviewFinding) : list rstr :=
  [] :: finding_header selection idx f :: map (fun body_line => lit "  " ++ body_line) (str_lines (rf_body f)).

Definition format_review_findings_block (findings : list ReviewFinding) (selection : option (list bool)) : rstr :=
  join [NL] ([] :: (if (1 <? length findings)%nat then lit "Full review comments:" else lit "Review comment:")
             :: concat (imap (finding_lines selection) findings)).

Definition render_review_output_text (output : ReviewOutputEvent) : rstr :=
  let explanation := trim (ro_overall_explanation output) in
  let sections := if is_empty explanation then [] else [explanation] in
  let trimmed := trim (format_review_findings_block (ro_findings output) None) in
  let sections := if is_empty (ro_findings output) || is_empty trimmed then sections else sections ++ [trimmed] in
  if is_empty sections then REVIEW_FALLBACK_MESSAGE else join [NL; NL] sections.

Definition review_output_text (output : option ReviewOutputEvent) : rstr :=
  match output with Some o => render_review_output_text o | None => REVIEW_FALLBACK_MESSAGE end.

(** ** What is not modelled *)

Class ThreadEnv (Opaque Url : Type) := {
  (** [serde_json::Value::Null]. *)
  json_null : Opaque;
  (** [workx_secrets::redact_secrets], regular expressions over the text. *)
  redact_secrets : rstr -> rstr;
  (** [shlex::try_join]. *)
  try_join : list rstr -> option rstr;
  (** [workx_shell_command::parse_command]. *)
  parse_command : list rstr -> list ParsedCommand;
  (** [PathUri::join] and the text of a [PathUri] as a [LegacyAppPathString]. *)
  cwd_join : Url -> rstr -> option Url;
  cwd_text : Url -> rstr;
  (** The home and the working directory, which [AbsolutePathBuf::join] reads. *)
  path_env : PathEnv;
  (** [quick_xml::de::from_str] on a [HookPromptXml]: the text and the run. *)
  from_xml_str : rstr -> option (rstr * rstr);
  (** The text of the [n]-th [Uuid::now_v7] that is drawn. *)
  now_v7 : nat -> rstr;
}.

Section Items.
Context {Opaque Url : Type} {Env : ThreadEnv Opaque Url}.

(** ** Items *)

Inductive UserInput :=
| UserText (text : rstr) (text_elements : list Opaque)
| UserImage (url : rstr) (detail : option Opaque)
| UserLocalImage (path : rstr) (detail : option Opaque)
| UserAudio (url : rstr)
| UserLocalAudio (path : rstr)
| UserSkill (name path : rstr)
| UserMention (name path : rstr).

Record HookPromptFragment := { hp_text : rstr; hp_hook_run_id : rstr }.

Record HookPromptItem := { hp_id : rstr; hp_fragments : list HookPromptFragment }.

Record WebSearchItem := { ws_id : rstr; ws_query : rstr; ws_action : option Opaque; ws_results : option (list Opaque) }.

Record SleepItem := { sl_id : rstr; sl_duration_ms : Z }.

Record ImageGenerationItem := {
  ig_id : rstr;
  ig_status : rstr;
  ig_revised_prompt : option rstr;
  ig_result : rstr;
  ig_transparent_background : option bool;
  ig_failure : option Opaque;
  ig_saved_path : option rstr;
  ig_imagegen_request_id : option rstr;
}.

Record McpToolCallAppContext := {
  ac_connector_id : rstr;
  ac_link_id : option rstr;
  ac_resource_uri : option rstr;
  ac_app_name : option rstr;
  ac_action_name : option rstr;
}.

Record McpToolCallResult := { mr_content : list Opaque; mr_structured_content : option Opaque; mr_meta : option Opaque }.

Inductive ThreadItem :=
| UserMessage (id : rstr) (client_id : option rstr) (content : list UserInput)
| HookPrompt (id : rstr) (fragments : list HookPromptFragment)
| AgentMessage (id text : rstr) (phase memory_citation delivery : option Opaque) (questions : option (list Opaque))
| FunctionCallOutput (id name : rstr) (namespace : option rstr) (output : @FunctionCallOutputBody Opaque)
| Plan (id text : rstr)
| Reasoning (id : rstr) (summary content : list rstr)
| CommandExecution (id : rstr) (plugin_id script_path : option rstr) (command cwd : rstr) (process_id : option rstr)
    (source : ExecCommandSource) (status : CommandExecutionStatus) (command_actions : list CommandAction)
    (aggregated_output : option rstr) (exit_code : option Z) (duration_ms : option Z)
| FileChange (id : rstr) (changes : list FileUpdateChange) (status : PatchApplyStatus)
| McpToolCall (id server tool : rstr) (status : McpToolCallStatus) (arguments : Opaque)
    (app_context : option McpToolCallAppContext) (mcp_app_resource_uri plugin_id : option rstr)
    (read_only_hint : option bool) (result : option McpToolCallResult) (error : option rstr) (duration_ms : option Z)
| DynamicToolCall (id : rstr) (namespace : option rstr) (tool : rstr) (arguments : Opaque) (status : DynamicToolCallStatus)
    (content_items : option (list Opaque)) (success : option bool) (duration_ms : option Z)
| CollabAgentToolCall (id : rstr) (tool : CollabAgentTool) (status : CollabAgentToolCallStatus) (sender_thread_id : rstr)
    (receiver_thread_ids : list rstr) (prompt model : option rstr) (reasoning_effort : option Opaque)
    (agents_states : gmap rstr CollabAgentState)
| SubAgentActivity (id : rstr) (kind : SubAgentActivityKind) (agent_thread_id agent_path : rstr)
| WebSearch (web_search : WebSearchItem)
| ImageView (id path : rstr)
| Sleep (sleep : SleepItem)
| ImageGeneration (image_generation : ImageGenerationItem)
| EnteredReviewMode (id review : rstr)
| ExitedReviewMode (id review : rstr)
| ContextCompaction (id : rstr).

Definition item_id (self : ThreadItem) : rstr :=
  match self with
  | UserMessage id _ _ | HookPrompt id _ | AgentMessage id _ _ _ _ _ | FunctionCallOutput id _ _ _ | Plan id _
  | Reasoning id _ _ | CommandExecution id _ _ _ _ _ _ _ _ _ _ _ | FileChange id _ _
  | McpToolCall id _ _ _ _ _ _ _ _ _ _ _ | DynamicToolCall id _ _ _ _ _ _ _ | CollabAgentToolCall id _ _ _ _ _ _ _ _
  | SubAgentActivity id _ _ _ | ImageView id _ | EnteredReviewMode id _ | ExitedReviewMode id _
  | ContextCompaction id => id
  | WebSearch i => ws_id i
  | Sleep i => sl_id i
  | ImageGeneration i => ig_id i
  end.

(** ** Payloads *)

Record ErrorEvent := {
  ee_message : rstr;
  ee_workx_error_info : option WorkxErrorInfo;
  ee_misalignment : option Opaque;
}.

Definition affects_turn_status (self : ErrorEvent) : bool :=
  match ee_workx_error_info self with None => true | Some info => info_affects_turn_status info end.

Record TurnError := {
  te_message : rstr;
  te_workx_error_info : option WorkxErrorInfo;
  te_additional_details : option rstr;
  te_misalignment : option Opaque;
}.

(** The error of a turn that the handlers and the projection build. *)
Definition turn_error_of (payload : ErrorEvent) : TurnError :=
  {| te_message := ee_message payload; te_workx_error_info := ee_workx_error_info payload;
     te_additional_details := None; te_misalignment := ee_misalignment payload |}.

Record UserMessageEvent := {
  um_client_id : option rstr;
  um_message : rstr;
  um_images : option (list rstr);
  um_image_details : list (option Opaque);
  um_local_images : list rstr;
  um_local_image_details : list (option Opaque);
  um_audio : option (list rstr);
  um_local_audio : list rstr;
  um_text_elements : list Opaque;
}.

Record AgentMessageEvent := {
  am_message : rstr;
  am_phase : option Opaque;
  am_memory_citation : option Opaque;
  am_delivery : option Opaque;
  am_questions : option (list Opaque);
}.

Record ExecCommandBeginEvent := {
  xb_call_id : rstr;
  xb_plugin_id : option rstr;
  xb_script_path : option rstr;
  xb_process_id : option rstr;
  xb_turn_id : rstr;
  xb_command : list rstr;
  xb_cwd : Url;
  xb_parsed_cmd : list ParsedCommand;
  xb_source : ExecCommandSource;
}.

(** Durations are their milliseconds. *)
Record ExecCommandEndEvent := {
  xe_call_id : rstr;
  xe_plugin_id : option rstr;
  xe_script_path : option rstr;
  xe_process_id : option rstr;
  xe_turn_id : rstr;
  xe_command : list rstr;
  xe_cwd : Url;
  xe_parsed_cmd : list ParsedCommand;
  xe_source : ExecCommandSource;
  xe_aggregated_output : rstr;
  xe_exit_code : Z;
  xe_duration : Z;
  xe_status : ExecCommandStatus;
}.

(** The actions from which no item is built are one constructor. *)
Inductive GuardianAssessmentAction :=
| AssessCommand (command : rstr) (cwd : AbsolutePathBuf)
| AssessExecve (program : rstr) (argv : list rstr) (cwd : AbsolutePathBuf)
| AssessOther.

Record GuardianAssessmentEvent := {
  ga_target_item_id : option rstr;
  ga_plugin_id : option rstr;
  ga_script_path : option rstr;
  ga_turn_id : rstr;
  ga_status : GuardianAssessmentStatus;
  ga_action : GuardianAssessmentAction;
}.

(** [ApplyPatchApprovalRequestEvent] and [PatchApplyBeginEvent]: the fields read agree. *)
Record PatchBeginEvent := { pb_call_id : rstr; pb_turn_id : rstr; pb_changes : list (rstr * FileChangeContent) }.

Record PatchApplyEndEvent := {
  pe_call_id : rstr;
  pe_turn_id : rstr;
  pe_changes : list (rstr * FileChangeContent);
  pe_status : CorePatchApplyStatus;
}.

Record DynamicToolCallRequest := {
  dq_call_id : rstr;
  dq_turn_id : rstr;
  dq_namespace : option rstr;
  dq_tool : rstr;
  dq_arguments : Opaque;
}.

(** [convert_dynamic_tool_content_items] copies the items variant by variant. *)
Record DynamicToolCallResponseEvent := {
  dr_call_id : rstr;
  dr_turn_id : rstr;
  dr_namespace : option rstr;
  dr_tool : rstr;
  dr_arguments : Opaque;
  dr_content_items : list Opaque;
  dr_success : bool;
  dr_duration : Z;
}.

Record McpInvocation := { mi_server : rstr; mi_tool : rstr; mi_arguments : option Opaque }.

Record McpToolCallBeginEvent := {
  mb_call_id : rstr;
  mb_invocation : McpInvocation;
  mb_connector_id : option rstr;
  mb_mcp_app_resource_uri : option rstr;
  mb_link_id : option rstr;
  mb_app_name : option rstr;
  mb_action_name : option rstr;
  mb_plugin_id : option rstr;
  mb_read_only_hint : option bool;
}.

Record CallToolResult := {
  ct_content : list Opaque;
  ct_structured_content : option Opaque;
  ct_is_error : option bool;
  ct_meta : option Opaque;
}.

(** The fields that [McpToolCallBeginEvent] has too, then its own. *)
Record McpToolCallEndEvent := { me_begin : McpToolCallBeginEvent; me_duration : Z; me_result : CallToolResult + rstr }.

Definition is_success (self : McpToolCallEndEvent) : bool :=
  match me_result self with inl result => negb (default false (ct_is_error result)) | inr _ => false end.

Record WebSearchEndEvent := {
  se_call_id : rstr;
  se_query : rstr;
  se_action : Opaque;
  se_results : option (list Opaque);
}.

Record ImageGenerationEndEvent := {
  ie_call_id : rstr;
  ie_status : rstr;
  ie_revised_prompt : option rstr;
  ie_result : rstr;
  ie_transparent_background : option bool;
  ie_failure : option Opaque;
  ie_saved_path : option rstr;
}.

(** Thread ids are their text. *)
Record CollabAgentSpawnBeginEvent := {
  sb_call_id : rstr;
  sb_sender_thread_id : rstr;
  sb_prompt : rstr;
  sb_model : rstr;
  sb_reasoning_effort : Opaque;
}.

Record CollabAgentSpawnEndEvent := {
  sn_call_id : rstr;
  sn_sender_thread_id : rstr;
  sn_new_thread_id : option rstr;
  sn_prompt : rstr;
  sn_model : rstr;
  sn_reasoning_effort : Opaque;
  sn_status : AgentStatus;
}.

Record CollabAgentInteractionBeginEvent := {
  ib_call_id : rstr;
  ib_sender_thread_id : rstr;
  ib_receiver_thread_id : rstr;
  ib_prompt : rstr;
}.

Record CollabAgentInteractionEndEvent := {
  in_call_id : rstr;
  in_sender_thread_id : rstr;
  in_receiver_thread_id : rstr;
  in_prompt : rstr;
  in_status : AgentStatus;
}.

Record SubAgentActivityEvent := {
  sa_event_id : rstr;
  sa_agent_thread_id : rstr;
  sa_agent_path : rstr;
  sa_kind : SubAgentActivityKind;
}.

Record CollabWaitingBeginEvent := {
  wb_sender_thread_id : rstr;
  wb_receiver_thread_ids : list rstr;
  wb_call_id : rstr;
}.

Record CollabWaitingEndEvent := { we_sender_thread_id : rstr; we_call_id : rstr; we_statuses : gmap rstr AgentStatus }.

(** [CollabCloseBeginEvent] and [CollabResumeBeginEvent]. *)
Record CollabTargetBeginEvent := { cb_call_id : rstr; cb_sender_thread_id : rstr; cb_receiver_thread_id : rstr }.

(** [CollabCloseEndEvent] and [CollabResumeEndEvent]. *)
Record CollabTargetEndEvent := {
  ce_call_id : rstr;
  ce_sender_thread_id : rstr;
  ce_receiver_thread_id : rstr;
  ce_status : AgentStatus;
}.

Record EnteredReviewModeEvent := {
  er_user_facing_hint : option rstr;
  er_turn_id : option rstr;
  er_item_id : option rstr;
}.

Record ExitedReviewModeEvent := {
  xr_turn_id : option rstr;
  xr_item_id : option rstr;
  xr_review_output : option ReviewOutputEvent;
}.

Record TurnAbortedEvent := {
  ta_turn_id : option rstr;
  ta_started_at : option Z;
  ta_completed_at : option Z;
  ta_duration_ms : option Z;
}.

Record TurnStartedEvent := { ts_turn_id : rstr; ts_started_at : option Z }.

Record TurnCompleteEvent := {
  tc_turn_id : rstr;
  tc_error : option ErrorEvent;
  tc_started_at : option Z;
  tc_completed_at : option Z;
  tc_duration_ms : option Z;
}.

(** ** Items of the core *)

Record CommandExecutionItem := {
  cx_id : rstr;
  cx_plugin_id : option rstr;
  cx_script_path : option rstr;
  cx_process_id : option rstr;
  cx_command : list rstr;
  cx_cwd : Url;
  cx_parsed_cmd : list ParsedCommand;
  cx_source : ExecCommandSource;
  cx_status : CommandExecutionStatus;
  cx_aggregated_output : option rstr;
  cx_exit_code : option Z;
  cx_duration : option Z;
}.

Record DynamicToolCallItem := {
  dy_id : rstr;
  dy_namespace : option rstr;
  dy_tool : rstr;
  dy_arguments : Opaque;
  dy_status : DynamicToolCallStatus;
  dy_content_items : option (list Opaque);
  dy_success : option bool;
  dy_duration : option Z;
}.

Record CollabAgentToolCallItem := {
  cl_id : rstr;
  cl_tool : CollabAgentTool;
  cl_status : CollabAgentToolCallStatus;
  cl_sender_thread_id : rstr;
  cl_receiver_thread_ids : list rstr;
  cl_prompt : option rstr;
  cl_model : option rstr;
  cl_reasoning_effort : option Opaque;
  cl_agents_states : gmap rstr AgentStatus;
}.

Record McpToolCallItem := {
  mc_id : rstr;
  mc_server : rstr;
  mc_tool : rstr;
  mc_arguments : Opaque;
  mc_connector_id : option rstr;
  mc_mcp_app_resource_uri : option rstr;
  mc_link_id : option rstr;
  mc_app_name : option rstr;
  mc_action_name : option rstr;
  mc_plugin_id : option rstr;
  mc_read_only_hint : option bool;
  mc_status : McpToolCallStatus;
  mc_result : option CallToolResult;
  mc_error : option rstr;
  mc_duration : option Z;
}.

Inductive ExtensionItem :=
| ExtImageGeneration (i : ImageGenerationItem)
| ExtSleep (i : SleepItem)
| ExtWebSearch (i : WebSearchItem).

Inductive TurnItem :=
| CoreUserMessage (id : rstr) (client_id : option rstr) (content : list UserInput)
| CoreFunctionCallOutput (id name : rstr) (namespace : option rstr) (output : @FunctionCallOutputBody Opaque)
| CoreHookPrompt (hook_prompt : HookPromptItem)
| CoreAgentMessage (id : rstr) (content : list rstr) (phase memory_citation delivery : option Opaque)
    (questions : option (list Opaque))
| CorePlan (id text : rstr)
| CoreReasoning (id : rstr) (summary_text raw_content : list rstr)
| CoreCommandExecution (command : CommandExecutionItem)
| CoreDynamicToolCall (call : DynamicToolCallItem)
| CoreCollabAgentToolCall (call : CollabAgentToolCallItem)
| CoreSubAgentActivity (id : rstr) (kind : SubAgentActivityKind) (agent_thread_id agent_path : rstr)
| CoreWebSearch (id query : rstr) (action : Opaque) (results : option (list Opaque))
| CoreImageView (id : rstr) (path : Url)
| CoreExtension (extension : ExtensionItem)
| CoreImageGeneration (id status : rstr) (revised_prompt : option rstr) (result : rstr) (saved_path : option rstr)
| CoreEnteredReviewMode (id user_facing_hint : rstr)
| CoreExitedReviewMode (id : rstr) (review_output : option ReviewOutputEvent)
| CoreFileChange (id : rstr) (changes : list (rstr * FileChangeContent)) (status : option CorePatchApplyStatus)
| CoreMcpToolCall (mcp : McpToolCallItem)
| CoreContextCompaction (id : rstr).

(** [TurnItem::id]. *)
Definition turn_item_id (self : TurnItem) : rstr :=
  match self with
  | CoreUserMessage id _ _ | CoreFunctionCallOutput id _ _ _ | CoreAgentMessage id _ _ _ _ _ | CorePlan id _
  | CoreReasoning id _ _ | CoreSubAgentActivity id _ _ _ | CoreWebSearch id _ _ _ | CoreImageView id _
  | CoreImageGeneration id _ _ _ _ | CoreEnteredReviewMode id _ | CoreExitedReviewMode id _ | CoreFileChange id _ _
  | CoreContextCompaction id => id
  | CoreHookPrompt i => hp_id i
  | CoreCommandExecution i => cx_id i
  | CoreDynamicToolCall i => dy_id i
  | CoreCollabAgentToolCall i => cl_id i
  | CoreMcpToolCall i => mc_id i
  | CoreExtension (ExtImageGeneration i) => ig_id i
  | CoreExtension (ExtSleep i) => sl_id i
  | CoreExtension (ExtWebSearch i) => ws_id i
  end.

(** ** Builders *)

(** [i64::try_from(duration.as_millis()).ok()]. *)
Definition millis_i64 (millis : Z) : option Z := if millis <=? I64_MAX then Some millis else None.

Definition shlex_join (tokens : list rstr) : rstr := default (lit "<command included NUL byte>") (try_join tokens).

Definition command_action (cwd : Url) (parsed : ParsedCommand) : option CommandAction :=
  match parsed with
  | ParsedRead cmd name path =>
      match cwd_join cwd path with
      | Some path => Some (ActionRead (redact_secrets cmd) name (cwd_text path))
      | None => None
      end
  | ParsedListFiles cmd path => Some (ActionListFiles (redact_secrets cmd) path)
  | ParsedSearch cmd query path => Some (ActionSearch (redact_secrets cmd) (redact_secrets <$> query) path)
  | ParsedUnknown cmd => Some (ActionUnknown (redact_secrets cmd))
  end.

Definition command_actions_for_path_uri (parsed_cmd : list ParsedCommand) (cwd : Url) : list CommandAction :=
  omap (command_action cwd) parsed_cmd.

(** [CommandExecutionPresentation::from_raw]: the command and its actions. *)
Definition presentation_from_raw (command : list rstr) (parsed_cmd : list ParsedCommand) (cwd : Url)
  : rstr * list CommandAction :=
  (redact_secrets (shlex_join command), command_actions_for_path_uri parsed_cmd cwd).

Definition from_core_with_cwd (value : ParsedCommand) (cwd : AbsolutePathBuf) : CommandAction :=
  match value with
  | ParsedRead cmd name path => ActionRead cmd name (path_string (abs_join path_env cwd path))
  | ParsedListFiles cmd path => ActionListFiles cmd path
  | ParsedSearch cmd query path => ActionSearch cmd query path
  | ParsedUnknown cmd => ActionUnknown cmd
  end.

(** [build_file_change_approval_request_item] and [build_file_change_begin_item]. *)
Definition build_file_change_begin_item (payload : PatchBeginEvent) : ThreadItem :=
  FileChange (pb_call_id payload) (convert_patch_changes (pb_changes payload)) PatchInProgress.

Definition build_file_change_end_item (payload : PatchApplyEndEvent) : ThreadItem :=
  FileChange (pe_call_id payload) (convert_patch_changes (pe_changes payload)) (patch_status_of_core (pe_status payload)).

Definition build_command_execution_begin_item (payload : ExecCommandBeginEvent) : ThreadItem :=
  let '(command, command_actions) := presentation_from_raw (xb_command payload) (xb_parsed_cmd payload) (xb_cwd payload) in
  CommandExecution (xb_call_id payload) (xb_plugin_id payload) (xb_script_path payload) command (cwd_text (xb_cwd payload))
    (xb_process_id payload) (xb_source payload) CommandInProgress command_actions None None None.

Definition build_command_execution_end_item (payload : ExecCommandEndEvent) : ThreadItem :=
  let aggregated_output := if is_empty (xe_aggregated_output payload) then None else Some (xe_aggregated_output payload) in
  let duration_ms := default I64_MAX (millis_i64 (xe_duration payload)) in
  let '(command, command_actions) := presentation_from_raw (xe_command payload) (xe_parsed_cmd payload) (xe_cwd payload) in
  CommandExecution (xe_call_id payload) (xe_plugin_id payload) (xe_script_path payload) command (cwd_text (xe_cwd payload))
    (xe_process_id payload) (xe_source payload) (command_status_of_exec (xe_status payload)) command_actions
    aggregated_output (Some (xe_exit_code payload)) (Some duration_ms).

Definition guardian_command (assessment : GuardianAssessmentEvent) (status : CommandExecutionStatus) (id command : rstr)
    (cwd : AbsolutePathBuf) (command_actions : list CommandAction) : ThreadItem :=
  CommandExecution id (ga_plugin_id assessment) (ga_script_path assessment) command (path_string cwd) None Agent status
    command_actions None None None.

Definition build_item_from_guardian_event (assessment : GuardianAssessmentEvent) (status : CommandExecutionStatus)
  : option ThreadItem :=
  match ga_action assessment with
  | AssessCommand command cwd =>
      id ← ga_target_item_id assessment;
      Some (guardian_command assessment status id command cwd [ActionUnknown command])
  | AssessExecve program argv cwd =>
      id ← ga_target_item_id assessment;
      let argv := if is_empty argv then [program] else program :: drop 1 argv in
      let command := shlex_join argv in
      let parsed_cmd := parse_command argv in
      let command_actions :=
        if is_empty parsed_cmd then [ActionUnknown command]
        else map (fun parsed => from_core_with_cwd parsed cwd) parsed_cmd in
      Some (guardian_command assessment status id command cwd command_actions)
  | AssessOther => None
  end.

(** [From<CoreTurnItem> for ThreadItem]. *)
Definition thread_item_of_core (value : TurnItem) : ThreadItem :=
  match value with
  | CoreUserMessage id client_id content => UserMessage id client_id content
  | CoreHookPrompt hook_prompt => HookPrompt (hp_id hook_prompt) (hp_fragments hook_prompt)
  | CoreAgentMessage id content phase memory_citation delivery questions =>
      AgentMessage id (concat content) phase memory_citation delivery questions
  | CoreFunctionCallOutput id name namespace output => FunctionCallOutput id name namespace output
  | CorePlan id text => Plan id text
  | CoreReasoning id summary_text raw_content => Reasoning id summary_text raw_content
  | CoreCommandExecution c =>
      let '(command, command_actions) := presentation_from_raw (cx_command c) (cx_parsed_cmd c) (cx_cwd c) in
      CommandExecution (cx_id c) (cx_plugin_id c) (cx_script_path c) command (cwd_text (cx_cwd c)) (cx_process_id c)
        (cx_source c) (cx_status c) command_actions
        (o ← cx_aggregated_output c; if is_empty o then None else Some o)
        (cx_exit_code c) (cx_duration c ≫= millis_i64)
  | CoreDynamicToolCall c =>
      DynamicToolCall (dy_id c) (dy_namespace c) (dy_tool c) (dy_arguments c) (dy_status c) (dy_content_items c)
        (dy_success c) (dy_duration c ≫= millis_i64)
  | CoreCollabAgentToolCall c =>
      CollabAgentToolCall (cl_id c) (cl_tool c) (cl_status c) (cl_sender_thread_id c) (cl_receiver_thread_ids c)
        (cl_prompt c) (cl_model c) (cl_reasoning_effort c) (collab_state_of_core <$> cl_agents_states c)
  | CoreSubAgentActivity id kind agent_thread_id agent_path => SubAgentActivity id kind agent_thread_id agent_path
  | CoreWebSearch id query action results =>
      WebSearch {| ws_id := id; ws_query := query; ws_action := Some action; ws_results := results |}
  | CoreImageView id path => ImageView id (cwd_text path)
  | CoreExtension (ExtImageGeneration i) => ImageGeneration i
  | CoreExtension (ExtSleep i) => Sleep i
  | CoreExtension (ExtWebSearch i) => WebSearch i
  | CoreImageGeneration id status revised_prompt result saved_path =>
      ImageGeneration {| ig_id := id; ig_status := status; ig_revised_prompt := revised_prompt; ig_result := result;
                         ig_transparent_background := None; ig_failure := None; ig_saved_path := saved_path;
                         ig_imagegen_request_id := None |}
  | CoreEnteredReviewMode id user_facing_hint => EnteredReviewMode id user_facing_hint
  | CoreExitedReviewMode id review_output => ExitedReviewMode id (review_output_text review_output)
  | CoreFileChange id changes status =>
      FileChange id (convert_patch_changes changes) (default PatchInProgress (patch_status_of_core <$> status))
  | CoreMcpToolCall c =>
      McpToolCall (mc_id c) (mc_server c) (mc_tool c) (mc_status c) (mc_arguments c)
        ((fun connector_id =>
            {| ac_connector_id := connector_id; ac_link_id := mc_link_id c; ac_resource_uri := mc_mcp_app_resource_uri c;
               ac_app_name := mc_app_name c; ac_action_name := mc_action_name c |}) <$> mc_connector_id c)
        (mc_mcp_app_resource_uri c) (mc_plugin_id c) (mc_read_only_hint c)
        ((fun r => {| mr_content := ct_content r; mr_structured_content := ct_structured_content r;
                      mr_meta := ct_meta r |}) <$> mc_result c)
        (mc_error c) (mc_duration c ≫= millis_i64)
  | CoreContextCompaction id => ContextCompaction id
  end.

(** ** Hook prompts *)

Definition parse_hook_prompt_fragment (text : rstr) : option HookPromptFragment :=
  '(text, hook_run_id) ← from_xml_str (trim text);
  if is_empty (trim hook_run_id) then None else Some {| hp_text := text; hp_hook_run_id := hook_run_id |}.

Definition hook_fragment (c : @ContentItem Opaque) : option HookPromptFragment :=
  match c with InputText text => parse_hook_prompt_fragment text | _ => None end.

(** The fragments of a message, all of which have to be hook prompts. *)
Definition parse_hook_prompt_fragments (content : list (@ContentItem Opaque)) : option (list HookPromptFragment) :=
  fragments ← mapM hook_fragment content; if is_empty fragments then None else Some fragments.

(** The number of uuids drawn is threaded; an absent id takes the next one. *)
Definition parse_hook_prompt_message (drawn : nat) (id : option rstr) (content : list (@ContentItem Opaque))
  : option HookPromptItem * nat :=
  match parse_hook_prompt_fragments content with
  | None => (None, drawn)
  | Some fragments =>
      match id with
      | Some id => (Some {| hp_id := id; hp_fragments := fragments |}, drawn)
      | None => (Some {| hp_id := now_v7 drawn; hp_fragments := fragments |}, S drawn)
      end
  end.

(** ** Facts *)

(** Converting an item of the core keeps its id. *)
Lemma thread_item_of_core_id i : item_id (thread_item_of_core i) = turn_item_id i.
Proof. by destruct i as [| | | | | | | | | | | |[]| | | | | |]. Qed.

End Items.

(** ** The order of the files of a patch *)

Lemma path_leb_trans a b c : path_leb a b = true -> path_leb b c = true -> path_leb a c = true.
Proof. unfold path_leb. eauto using str_leb_trans. Qed.

Lemma insert_path_sorted x l : StronglySorted (fun a b => path_leb a b = true) l ->
  StronglySorted (fun a b => path_leb a b = true) (insert_by path_leb x l).
Proof.
  induction 1 as [|y l Hl IH Hy]; simpl; [by repeat constructor|]. destruct (path_leb x y) eqn:E.
  - repeat (constructor; auto). eapply Forall_impl; [done|]. intros z Hz. eauto using path_leb_trans.
  - constructor; [done|]. rewrite Forall_forall. intros z. rewrite insert_by_elem. intros [->|Hz].
    + unfold path_leb in *. destruct (str_leb_total (fu_path x) (fu_path y)); congruence.
    + by rewrite Forall_forall in Hy; apply Hy.
Qed.

Lemma convert_patch_changes_sorted changes : StronglySorted (fun a b => path_leb a b = true) (convert_patch_changes changes).
Proof. unfold convert_patch_changes. induction (map _ _); simpl; [constructor|by apply insert_path_sorted]. Qed.

Lemma NoDup_fst_unique {A B} (l : list (A * B)) x y z : NoDup l.*1 -> (x, y) ∈ l -> (x, z) ∈ l -> y = z.
Proof.
  induction l as [|[a b] l IH]; simpl; [by intros _ ?%not_elem_of_nil|]. rewrite NoDup_cons, !elem_of_cons.
  intros [Hn Hl] [?|Hy] [?|Hz]; simplify_eq; auto; contradict Hn; rewrite list_elem_of_fmap; eexists; (split; [|done]); done.
Qed.

(** The changes of a patch come out sorted by path and are the same whatever the order in
    which the map of changes is iterated. *)
Theorem patch_changes_order changes changes' : NoDup changes.*1 -> changes ≡ₚ changes' ->
  convert_patch_changes changes = convert_patch_changes changes' /\
  StronglySorted (fun a b => path_leb a b = true) (convert_patch_changes changes) /\
  convert_patch_changes changes ≡ₚ map file_update_change changes.
Proof.
  intros Hnd Hp. split_and!; [|apply convert_patch_changes_sorted|apply sort_by_perm].
  eapply StronglySorted_unique_strong; [|apply convert_patch_changes_sorted..|].
  - intros x y Hx Hy Hxy Hyx. unfold convert_patch_changes in Hx, Hy. rewrite sort_by_elem in Hx, Hy.
    apply list_elem_of_fmap in Hx as ([p c] & -> & Hx). apply list_elem_of_fmap in Hy as ([q d] & -> & Hy).
    rewrite <- Hp in Hy. unfold path_leb in *; simpl in *. pose proof (str_leb_antisym _ _ Hxy Hyx) as ->.
    by rewrite (NoDup_fst_unique changes q c d).
  - unfold convert_patch_changes. rewrite !sort_by_perm. by apply Permutation_map.
Qed.
