(* ===== verification/ThreadHistory.v ===== *)
(** * Thread history

    Models [workx-rs/app-server-protocol/src/protocol/thread_history.rs]: the reducer that
    turns the recorded events of a session into the turns and items a client reads
    ([build_turns_from_rollout_items]), that keeps the history of a running thread, and that
    reports the items and turns each event changed.

    A turn looks its items up by id through an index that is built once it has 32 items.
    Indexing a vector panics out of range, so the handlers return [res]; the properties show
    that it does not happen. Counters are unbounded: the code counts items in [i64] and lines
    in [usize]. [uuids_drawn] is the state of the generator of uuids, which the code does not
    keep in the struct. *)
From S2P Require Import Prelude Width AbsPath History AgentResidency ThreadItems.

Set Default Goal Selector "!".

Local Open Scope Z_scope.

Section History.
Context {Opaque Url : Type} {Env : ThreadEnv Opaque Url}.
Local Abbreviation Item := (@ThreadItem Opaque).
Local Abbreviation Error := (@TurnError Opaque).

(** ** Changes *)

Record ThreadHistoryItemChange := {
  ic_turn_id : rstr;
  ic_item : Item;
  ic_started_at_ms : option Z;
  ic_completed_at_ms : option Z;
}.

Record ThreadHistoryTurnChange := {
  tch_turn_id : rstr;
  tch_status : TurnStatus;
  tch_error : option Error;
  tch_started_at : option Z;
  tch_completed_at : option Z;
  tch_duration_ms : option Z;
}.

Record ThreadHistoryChangeSet := {
  changed_items : list ThreadHistoryItemChange;
  changed_turns : list ThreadHistoryTurnChange;
  removed_turn_ids : list rstr;
}.

Definition no_changes : ThreadHistoryChangeSet := {| changed_items := []; changed_turns := []; removed_turn_ids := [] |}.

Definition changes_is_empty (self : ThreadHistoryChangeSet) : bool :=
  is_empty (changed_items self) && is_empty (changed_turns self) && is_empty (removed_turn_ids self).

(** ** Turns and their index *)

Abbreviation TurnItemIndex := (option (gmap rstr nat)) (only parsing).

Definition TURN_ITEM_INDEX_THRESHOLD : nat := 32.

(** [HashMap::entry(key).or_insert(value)]. *)
Definition or_insert (key : rstr) (value : nat) (positions : gmap rstr nat) : gmap rstr nat :=
  match positions !! key with Some _ => positions | None => <[key := value]> positions end.

Definition index_push (self : TurnItemIndex) (items : list Item) (i : Item) : TurnItemIndex * list Item :=
  (or_insert (item_id i) (length items) <$> self, items ++ [i]).

Fixpoint index_positions (index : nat) (items : list Item) (positions : gmap rstr nat) : gmap rstr nat :=
  match items with
  | [] => positions
  | existing :: items' => index_positions (S index) items' (or_insert (item_id existing) index positions)
  end.

Definition index_ensure (self : TurnItemIndex) (items : list Item) : TurnItemIndex :=
  match self with
  | Some _ => self
  | None => if (TURN_ITEM_INDEX_THRESHOLD <=? length items)%nat then Some (index_positions 0 items ∅) else None
  end.

(** [Iterator::position]. *)
Fixpoint id_position (id : rstr) (items : list Item) : option nat :=
  match items with
  | [] => None
  | existing :: items' => if item_id existing =s id then Some 0%nat else S <$> id_position id items'
  end.

Definition index_lookup (self : TurnItemIndex) (items : list Item) (id : rstr) : option nat :=
  match self with Some positions => positions !! id | None => id_position id items end.

(** [v[index] = value], which panics out of range. *)
Definition vec_set {A} (index : nat) (value : A) (v : list A) : res () (list A) :=
  if (index <? length v)%nat then Ok (<[index := value]> v) else Panic.

(** The index and the items afterwards. *)
Definition index_upsert (self : TurnItemIndex) (items : list Item) (i : Item) : res () (TurnItemIndex * list Item) :=
  let self := index_ensure self items in
  match index_lookup self items (item_id i) with
  | Some index => items ← vec_set index i items; Ok (self, items)
  | None => Ok (index_push self items i)
  end.

Record PendingTurn := {
  pt_id : rstr;
  pt_items : list Item;
  pt_item_index : TurnItemIndex;
  pt_error : option Error;
  pt_status : TurnStatus;
  pt_started_at : option Z;
  pt_completed_at : option Z;
  pt_duration_ms : option Z;
  pt_opened_explicitly : bool;
  pt_saw_compaction : bool;
  pt_rollout_start_index : Z;
}.

Definition with_items (t : PendingTurn) (ii : TurnItemIndex * list Item) : PendingTurn :=
  {| pt_id := pt_id t; pt_items := ii.2; pt_item_index := ii.1; pt_error := pt_error t; pt_status := pt_status t;
     pt_started_at := pt_started_at t; pt_completed_at := pt_completed_at t; pt_duration_ms := pt_duration_ms t;
     pt_opened_explicitly := pt_opened_explicitly t; pt_saw_compaction := pt_saw_compaction t;
     pt_rollout_start_index := pt_rollout_start_index t |}.

Definition with_outcome (t : PendingTurn) (status : TurnStatus) (error : option Error) (completed_at duration_ms : option Z)
  : PendingTurn :=
  {| pt_id := pt_id t; pt_items := pt_items t; pt_item_index := pt_item_index t; pt_error := error; pt_status := status;
     pt_started_at := pt_started_at t; pt_completed_at := completed_at; pt_duration_ms := duration_ms;
     pt_opened_explicitly := pt_opened_explicitly t; pt_saw_compaction := pt_saw_compaction t;
     pt_rollout_start_index := pt_rollout_start_index t |}.

Definition with_compaction (t : PendingTurn) : PendingTurn :=
  {| pt_id := pt_id t; pt_items := pt_items t; pt_item_index := pt_item_index t; pt_error := pt_error t;
     pt_status := pt_status t; pt_started_at := pt_started_at t; pt_completed_at := pt_completed_at t;
     pt_duration_ms := pt_duration_ms t; pt_opened_explicitly := pt_opened_explicitly t; pt_saw_compaction := true;
     pt_rollout_start_index := pt_rollout_start_index t |}.

(** [with_status(InProgress).with_started_at(started_at).opened_explicitly()]. *)
Definition opened_at (t : PendingTurn) (started_at : option Z) : PendingTurn :=
  {| pt_id := pt_id t; pt_items := pt_items t; pt_item_index := pt_item_index t; pt_error := pt_error t;
     pt_status := TurnInProgress; pt_started_at := started_at; pt_completed_at := pt_completed_at t;
     pt_duration_ms := pt_duration_ms t; pt_opened_explicitly := true; pt_saw_compaction := pt_saw_compaction t;
     pt_rollout_start_index := pt_rollout_start_index t |}.

Definition from_pending_turn (turn : PendingTurn) : ThreadHistoryTurnChange :=
  {| tch_turn_id := pt_id turn; tch_status := pt_status turn; tch_error := pt_error turn;
     tch_started_at := pt_started_at turn; tch_completed_at := pt_completed_at turn;
     tch_duration_ms := pt_duration_ms turn |}.

(** [Turn], with [items_view] always full. *)
Record Turn := {
  turn_id : rstr;
  turn_items : list Item;
  turn_error : option Error;
  turn_status : TurnStatus;
  turn_started_at : option Z;
  turn_completed_at : option Z;
  turn_duration_ms : option Z;
}.

Definition turn_of (value : PendingTurn) : Turn :=
  {| turn_id := pt_id value; turn_items := pt_items value; turn_error := pt_error value; turn_status := pt_status value;
     turn_started_at := pt_started_at value; turn_completed_at := pt_completed_at value;
     turn_duration_ms := pt_duration_ms value |}.

(** ** The builder *)

Record ThreadHistoryBuilder := {
  turns : list PendingTurn;
  current_turn : option PendingTurn;
  next_item_index : Z;
  current_rollout_index : Z;
  next_rollout_index : Z;
  active_change_set : option ThreadHistoryChangeSet;
  uuids_drawn : nat;
}.

Definition builder_new : ThreadHistoryBuilder :=
  {| turns := []; current_turn := None; next_item_index := 1; current_rollout_index := 0; next_rollout_index := 0;
     active_change_set := None; uuids_drawn := 0 |}.

(** [reset] replaces the builder by a new one; the uuids drawn stay drawn. *)
Definition reset (self : ThreadHistoryBuilder) : ThreadHistoryBuilder :=
  {| turns := []; current_turn := None; next_item_index := 1; current_rollout_index := 0; next_rollout_index := 0;
     active_change_set := None; uuids_drawn := uuids_drawn self |}.

Definition set_turns (self : ThreadHistoryBuilder) (ts : list PendingTurn) (current : option PendingTurn)
  : ThreadHistoryBuilder :=
  {| turns := ts; current_turn := current; next_item_index := next_item_index self;
     current_rollout_index := current_rollout_index self; next_rollout_index := next_rollout_index self;
     active_change_set := active_change_set self; uuids_drawn := uuids_drawn self |}.

Definition set_next_item_index (self : ThreadHistoryBuilder) (n : Z) : ThreadHistoryBuilder :=
  {| turns := turns self; current_turn := current_turn self; next_item_index := n;
     current_rollout_index := current_rollout_index self; next_rollout_index := next_rollout_index self;
     active_change_set := active_change_set self; uuids_drawn := uuids_drawn self |}.

Definition set_rollout_index (self : ThreadHistoryBuilder) (current next : Z) : ThreadHistoryBuilder :=
  {| turns := turns self; current_turn := current_turn self; next_item_index := next_item_index self;
     current_rollout_index := current; next_rollout_index := next;
     active_change_set := active_change_set self; uuids_drawn := uuids_drawn self |}.

Definition set_changes (self : ThreadHistoryBuilder) (changes : option ThreadHistoryChangeSet) : ThreadHistoryBuilder :=
  {| turns := turns self; current_turn := current_turn self; next_item_index := next_item_index self;
     current_rollout_index := current_rollout_index self; next_rollout_index := next_rollout_index self;
     active_change_set := changes; uuids_drawn := uuids_drawn self |}.

Definition set_drawn (self : ThreadHistoryBuilder) (drawn : nat) : ThreadHistoryBuilder :=
  {| turns := turns self; current_turn := current_turn self; next_item_index := next_item_index self;
     current_rollout_index := current_rollout_index self; next_rollout_index := next_rollout_index self;
     active_change_set := active_change_set self; uuids_drawn := drawn |}.

Definition set_current (self : ThreadHistoryBuilder) (t : PendingTurn) : ThreadHistoryBuilder :=
  set_turns self (turns self) (Some t).

(** ** Recording changes *)

Definition is_tracking_changes (self : ThreadHistoryBuilder) : bool := bool_decide (is_Some (active_change_set self)).

Definition record_changed_item (self : ThreadHistoryBuilder) (turn_id : rstr) (i : Item) : ThreadHistoryBuilder :=
  match active_change_set self with
  | Some cs =>
      set_changes self (Some {| changed_items := changed_items cs ++
                                  [{| ic_turn_id := turn_id; ic_item := i; ic_started_at_ms := None; ic_completed_at_ms := None |}];
                                changed_turns := changed_turns cs; removed_turn_ids := removed_turn_ids cs |})
  | None => self
  end.

Definition record_changed_turn (self : ThreadHistoryBuilder) (turn : ThreadHistoryTurnChange) : ThreadHistoryBuilder :=
  match active_change_set self with
  | Some cs => set_changes self (Some {| changed_items := changed_items cs; changed_turns := changed_turns cs ++ [turn];
                                         removed_turn_ids := removed_turn_ids cs |})
  | None => self
  end.

Definition record_changed_pending_turn (self : ThreadHistoryBuilder) (turn : PendingTurn) : ThreadHistoryBuilder :=
  if is_tracking_changes self then record_changed_turn self (from_pending_turn turn) else self.

Definition record_removed_turn_ids (self : ThreadHistoryBuilder) (ids : list rstr) : ThreadHistoryBuilder :=
  match active_change_set self with
  | Some cs => set_changes self (Some {| changed_items := changed_items cs; changed_turns := changed_turns cs;
                                         removed_turn_ids := removed_turn_ids cs ++ ids |})
  | None => self
  end.

(** ** Turns *)

Definition turn_kept (turn : PendingTurn) : bool :=
  negb (is_empty (pt_items turn) && negb (pt_opened_explicitly turn) && negb (pt_saw_compaction turn)).

Definition finish_current_turn (self : ThreadHistoryBuilder) : ThreadHistoryBuilder :=
  match current_turn self with
  | Some turn => set_turns self (if turn_kept turn then turns self ++ [turn] else turns self) None
  | None => self
  end.

Definition fresh_turn (id : rstr) (rollout_start_index : Z) : PendingTurn :=
  {| pt_id := id; pt_items := []; pt_item_index := None; pt_error := None; pt_status := TurnCompleted;
     pt_started_at := None; pt_completed_at := None; pt_duration_ms := None; pt_opened_explicitly := false;
     pt_saw_compaction := false; pt_rollout_start_index := rollout_start_index |}.

Definition rollout_turn_id (index : Z) : rstr := lit "rollout-" ++ dec index.

Definition new_turn (self : ThreadHistoryBuilder) (id : option rstr) : PendingTurn * ThreadHistoryBuilder :=
  let '(id, self) :=
    match id with
    | Some id => (id, self)
    | None =>
        if next_rollout_index self =? 0 then (now_v7 (uuids_drawn self), set_drawn self (S (uuids_drawn self)))
        else (rollout_turn_id (current_rollout_index self), self)
    end in
  (fresh_turn id (current_rollout_index self), self).

(** The current turn, which the callers update, and the builder that has it. *)
Definition ensure_turn (self : ThreadHistoryBuilder) : PendingTurn * ThreadHistoryBuilder :=
  match current_turn self with
  | Some turn => (turn, self)
  | None =>
      let '(turn, self) := new_turn self None in
      (turn, set_current (record_changed_pending_turn self turn) turn)
  end.

(** ** Items *)

Definition push_item_in_current_turn (self : ThreadHistoryBuilder) (i : Item) : ThreadHistoryBuilder :=
  let '(turn, self) := ensure_turn self in
  let self := set_current self (with_items turn (index_push (pt_item_index turn) (pt_items turn) i)) in
  record_changed_item self (pt_id turn) i.

Definition upsert_item_in_current_turn (self : ThreadHistoryBuilder) (i : Item) : res () ThreadHistoryBuilder :=
  let '(turn, self) := ensure_turn self in
  ii ← index_upsert (pt_item_index turn) (pt_items turn) i;
  Ok (record_changed_item (set_current self (with_items turn ii)) (pt_id turn) i).

Definition find_turn (turn_id : rstr) (ts : list PendingTurn) : option (nat * PendingTurn) :=
  list_find (fun t => pt_id t = turn_id) ts.

(** The current turn, if it has this id. *)
Definition current_with_id (self : ThreadHistoryBuilder) (turn_id : rstr) : option PendingTurn :=
  match current_turn self with Some turn => if pt_id turn =s turn_id then Some turn else None | None => None end.

Definition upsert_item_in_turn_id (self : ThreadHistoryBuilder) (turn_id : rstr) (i : Item) : res () ThreadHistoryBuilder :=
  match current_with_id self turn_id with
  | Some turn =>
      ii ← index_upsert (pt_item_index turn) (pt_items turn) i;
      Ok (record_changed_item (set_current self (with_items turn ii)) (pt_id turn) i)
  | None =>
      match find_turn turn_id (turns self) with
      | Some (n, turn) =>
          ii ← index_upsert (pt_item_index turn) (pt_items turn) i;
          Ok (record_changed_item (set_turns self (<[n := with_items turn ii]> (turns self)) (current_turn self)) (pt_id turn) i)
      | None => Ok self
      end
  end.

(** The routing of the handlers whose payload may lack a turn id. *)
Definition upsert_item_routed (self : ThreadHistoryBuilder) (turn_id : rstr) (i : Item) : res () ThreadHistoryBuilder :=
  if is_empty turn_id then upsert_item_in_current_turn self i else upsert_item_in_turn_id self turn_id i.

Definition upsert_review_mode_item (self : ThreadHistoryBuilder) (turn_id : option rstr) (i : Item)
  : res () ThreadHistoryBuilder :=
  match turn_id with
  | None => upsert_item_in_current_turn self i
  | Some turn_id =>
      let current_turn_matches := bool_decide (is_Some (current_with_id self turn_id)) in
      let self :=
        if negb current_turn_matches && negb (existsb (fun turn => pt_id turn =s turn_id) (turns self)) then
          let self := finish_current_turn self in
          let '(turn, self) := new_turn self (Some turn_id) in
          set_current (record_changed_pending_turn self turn) turn
        else self in
      upsert_item_in_turn_id self turn_id i
  end.

Definition next_item_id (self : ThreadHistoryBuilder) : rstr * ThreadHistoryBuilder :=
  (lit "item-" ++ dec (next_item_index self), set_next_item_index self (next_item_index self + 1)).

(** ** Events *)

Inductive EventMsg :=
| EvUserMessage (payload : @UserMessageEvent Opaque)
| EvAgentMessage (payload : @AgentMessageEvent Opaque)
| EvAgentReasoning (text : rstr)
| EvAgentReasoningRawContent (text : rstr)
| EvWebSearchBegin (call_id : rstr)
| EvWebSearchEnd (payload : @WebSearchEndEvent Opaque)
| EvExecCommandBegin (payload : @ExecCommandBeginEvent Url)
| EvExecCommandEnd (payload : @ExecCommandEndEvent Url)
| EvGuardianAssessment (payload : GuardianAssessmentEvent)
| EvApplyPatchApprovalRequest (payload : PatchBeginEvent)
| EvPatchApplyBegin (payload : PatchBeginEvent)
| EvPatchApplyEnd (payload : PatchApplyEndEvent)
| EvDynamicToolCallRequest (payload : @DynamicToolCallRequest Opaque)
| EvDynamicToolCallResponse (payload : @DynamicToolCallResponseEvent Opaque)
| EvMcpToolCallBegin (payload : @McpToolCallBeginEvent Opaque)
| EvMcpToolCallEnd (payload : @McpToolCallEndEvent Opaque)
| EvViewImageToolCall (call_id : rstr) (path : Url)
| EvImageGenerationBegin (call_id : rstr)
| EvImageGenerationEnd (payload : @ImageGenerationEndEvent Opaque)
| EvCollabAgentSpawnBegin (payload : @CollabAgentSpawnBeginEvent Opaque)
| EvCollabAgentSpawnEnd (payload : @CollabAgentSpawnEndEvent Opaque)
| EvCollabAgentInteractionBegin (payload : CollabAgentInteractionBeginEvent)
| EvCollabAgentInteractionEnd (payload : CollabAgentInteractionEndEvent)
| EvSubAgentActivity (payload : SubAgentActivityEvent)
| EvCollabWaitingBegin (payload : CollabWaitingBeginEvent)
| EvCollabWaitingEnd (payload : CollabWaitingEndEvent)
| EvCollabCloseBegin (payload : CollabTargetBeginEvent)
| EvCollabCloseEnd (payload : CollabTargetEndEvent)
| EvCollabResumeBegin (payload : CollabTargetBeginEvent)
| EvCollabResumeEnd (payload : CollabTargetEndEvent)
| EvContextCompacted
| EvEnteredReviewMode (payload : EnteredReviewModeEvent)
| EvExitedReviewMode (payload : ExitedReviewModeEvent)
| EvItemStarted (turn_id : rstr) (i : @TurnItem Opaque Url)
| EvItemCompleted (turn_id : rstr) (i : @TurnItem Opaque Url) (started_at_ms : option Z) (completed_at_ms : Z)
| EvError (payload : @ErrorEvent Opaque)
| EvThreadRolledBack (num_turns : Z)
| EvTurnAborted (payload : TurnAbortedEvent)
| EvTurnStarted (payload : TurnStartedEvent)
| EvTurnComplete (payload : @TurnCompleteEvent Opaque)
| EvOther.

Inductive RolloutItem :=
| LineEventMsg (event : EventMsg)
| LineCompacted
| LineResponseItem (i : @ResponseItem Opaque)
| LineOther.

(** ** Messages *)

Definition image_inputs (images : list rstr) (details : list (option Opaque)) : list (@UserInput Opaque) :=
  imap (fun idx image => UserImage image (default None (details !! idx))) images.

Definition local_image_inputs (paths : list rstr) (details : list (option Opaque)) : list (@UserInput Opaque) :=
  imap (fun idx path => UserLocalImage path (default None (details !! idx))) paths.

Definition build_user_inputs (payload : @UserMessageEvent Opaque) : list (@UserInput Opaque) :=
  (if is_empty (trim (um_message payload)) then [] else [UserText (um_message payload) (um_text_elements payload)])
  ++ match um_images payload with Some images => image_inputs images (um_image_details payload) | None => [] end
  ++ local_image_inputs (um_local_images payload) (um_local_image_details payload)
  ++ match um_audio payload with Some audio => map UserAudio audio | None => [] end
  ++ map UserLocalAudio (um_local_audio payload).

Definition handle_user_message (self : ThreadHistoryBuilder) (payload : @UserMessageEvent Opaque) : ThreadHistoryBuilder :=
  let self :=
    match current_turn self with
    | Some turn =>
        if negb (pt_opened_explicitly turn) && negb (pt_saw_compaction turn && is_empty (pt_items turn))
        then finish_current_turn self else self
    | None => self
    end in
  let '(id, self) := next_item_id self in
  push_item_in_current_turn self (UserMessage id (um_client_id payload) (build_user_inputs payload)).

Definition handle_agent_message (self : ThreadHistoryBuilder) (payload : @AgentMessageEvent Opaque) : ThreadHistoryBuilder :=
  if is_empty (am_message payload) then self
  else
    let '(id, self) := next_item_id self in
    push_item_in_current_turn self
      (AgentMessage id (am_message payload) (am_phase payload) (am_memory_citation payload) (am_delivery payload)
         (am_questions payload)).

(** Both handlers of reasoning: the last item is extended if it is a reasoning item. *)
Definition extend_reasoning (self : ThreadHistoryBuilder) (extend : list rstr -> list rstr -> list rstr * list rstr)
  : ThreadHistoryBuilder + ThreadHistoryBuilder :=
  let '(turn, self) := ensure_turn self in
  match last (pt_items turn) with
  | Some (Reasoning id summary content) =>
      let '(summary, content) := extend summary content in
      let i := Reasoning id summary content in
      let items := removelast (pt_items turn) ++ [i] in
      inl (record_changed_item (set_current self (with_items turn (pt_item_index turn, items))) (pt_id turn) i)
  | _ => inr self
  end.

Definition handle_agent_reasoning (self : ThreadHistoryBuilder) (text : rstr) : ThreadHistoryBuilder :=
  if is_empty text then self
  else match extend_reasoning self (fun summary content => (summary ++ [text], content)) with
       | inl self => self
       | inr self => let '(id, self) := next_item_id self in push_item_in_current_turn self (Reasoning id [text] [])
       end.

Definition handle_agent_reasoning_raw_content (self : ThreadHistoryBuilder) (text : rstr) : ThreadHistoryBuilder :=
  if is_empty text then self
  else match extend_reasoning self (fun summary content => (summary, content ++ [text])) with
       | inl self => self
       | inr self => let '(id, self) := next_item_id self in push_item_in_current_turn self (Reasoning id [] [text])
       end.

Definition handle_context_compacted (self : ThreadHistoryBuilder) : ThreadHistoryBuilder :=
  let '(id, self) := next_item_id self in push_item_in_current_turn self (ContextCompaction id).

Definition handle_response_item (self : ThreadHistoryBuilder) (i : @ResponseItem Opaque) : ThreadHistoryBuilder :=
  match i with
  | Message id role content _ _ =>
      if role =s lit "user" then
        let '(hook_prompt, drawn) := parse_hook_prompt_message (uuids_drawn self) id content in
        match hook_prompt with
        | Some p => push_item_in_current_turn (set_drawn self drawn) (HookPrompt (hp_id p) (hp_fragments p))
        | None => self
        end
      else self
  | _ => self
  end.

(** ** Lifecycle items and tools *)

Definition is_review_mode_item (i : @TurnItem Opaque Url) : bool :=
  match i with CoreEnteredReviewMode _ _ | CoreExitedReviewMode _ _ => true | _ => false end.

Definition should_upsert (i : @TurnItem Opaque Url) : bool :=
  match i with
  | CorePlan _ text => negb (is_empty text)
  | CoreHookPrompt _ | CoreFunctionCallOutput _ _ _ _ | CoreCommandExecution _ | CoreDynamicToolCall _
  | CoreCollabAgentToolCall _ | CoreSubAgentActivity _ _ _ _ | CoreExtension _ | CoreEnteredReviewMode _ _
  | CoreExitedReviewMode _ _ => true
  | CoreUserMessage _ _ _ | CoreAgentMessage _ _ _ _ _ _ | CoreReasoning _ _ _ | CoreWebSearch _ _ _ _
  | CoreImageView _ _ | CoreImageGeneration _ _ _ _ _ | CoreFileChange _ _ _ | CoreMcpToolCall _
  | CoreContextCompaction _ => false
  end.

Definition handle_materialized_item_lifecycle (self : ThreadHistoryBuilder) (turn_id : rstr) (i : @TurnItem Opaque Url)
  : res () ThreadHistoryBuilder :=
  if should_upsert i then
    if is_review_mode_item i then upsert_review_mode_item self (Some turn_id) (thread_item_of_core i)
    else upsert_item_in_turn_id self turn_id (thread_item_of_core i)
  else Ok self.

Definition web_search_begin_item (call_id : rstr) : Item :=
  WebSearch {| ws_id := call_id; ws_query := []; ws_action := None; ws_results := None |}.

Definition web_search_end_item (payload : @WebSearchEndEvent Opaque) : Item :=
  WebSearch {| ws_id := se_call_id payload; ws_query := se_query payload; ws_action := Some (se_action payload);
               ws_results := se_results payload |}.

Definition handle_web_search_begin (self : ThreadHistoryBuilder) (call_id : rstr) : res () ThreadHistoryBuilder :=
  upsert_item_in_current_turn self (web_search_begin_item call_id).

Definition handle_web_search_end (self : ThreadHistoryBuilder) (payload : @WebSearchEndEvent Opaque)
  : res () ThreadHistoryBuilder :=
  upsert_item_in_current_turn self (web_search_end_item payload).

Definition handle_exec_command_begin (self : ThreadHistoryBuilder) (payload : @ExecCommandBeginEvent Url)
  : res () ThreadHistoryBuilder :=
  upsert_item_in_turn_id self (xb_turn_id payload) (build_command_execution_begin_item payload).

Definition handle_exec_command_end (self : ThreadHistoryBuilder) (payload : @ExecCommandEndEvent Url)
  : res () ThreadHistoryBuilder :=
  upsert_item_in_turn_id self (xe_turn_id payload) (build_command_execution_end_item payload).

Definition guardian_status (status : GuardianAssessmentStatus) : option CommandExecutionStatus :=
  match status with
  | AssessmentInProgress => Some CommandInProgress
  | AssessmentDenied | AssessmentAborted => Some CommandDeclined
  | AssessmentTimedOut => Some CommandFailed
  | AssessmentApproved => None
  end.

Definition handle_guardian_assessment (self : ThreadHistoryBuilder) (payload : GuardianAssessmentEvent)
  : res () ThreadHistoryBuilder :=
  match guardian_status (ga_status payload) with
  | None => Ok self
  | Some status =>
      match build_item_from_guardian_event payload status with
      | None => Ok self
      | Some i => upsert_item_routed self (ga_turn_id payload) i
      end
  end.

Definition handle_patch_apply_begin (self : ThreadHistoryBuilder) (payload : PatchBeginEvent) : res () ThreadHistoryBuilder :=
  upsert_item_routed self (pb_turn_id payload) (build_file_change_begin_item payload).

Definition handle_apply_patch_approval_request (self : ThreadHistoryBuilder) (payload : PatchBeginEvent)
  : res () ThreadHistoryBuilder :=
  upsert_item_routed self (pb_turn_id payload) (build_file_change_begin_item payload).

Definition handle_patch_apply_end (self : ThreadHistoryBuilder) (payload : PatchApplyEndEvent) : res () ThreadHistoryBuilder :=
  upsert_item_routed self (pe_turn_id payload) (build_file_change_end_item payload).

Definition dynamic_request_item (payload : @DynamicToolCallRequest Opaque) : Item :=
  DynamicToolCall (dq_call_id payload) (dq_namespace payload) (dq_tool payload) (dq_arguments payload) DynamicInProgress
    None None None.

Definition handle_dynamic_tool_call_request (self : ThreadHistoryBuilder) (payload : @DynamicToolCallRequest Opaque)
  : res () ThreadHistoryBuilder :=
  upsert_item_routed self (dq_turn_id payload) (dynamic_request_item payload).

Definition dynamic_response_item (payload : @DynamicToolCallResponseEvent Opaque) : Item :=
  DynamicToolCall (dr_call_id payload) (dr_namespace payload) (dr_tool payload) (dr_arguments payload)
    (if dr_success payload then DynamicCompleted else DynamicFailed) (Some (dr_content_items payload))
    (Some (dr_success payload)) (millis_i64 (dr_duration payload)).

Definition handle_dynamic_tool_call_response (self : ThreadHistoryBuilder) (payload : @DynamicToolCallResponseEvent Opaque)
  : res () ThreadHistoryBuilder :=
  upsert_item_routed self (dr_turn_id payload) (dynamic_response_item payload).

Definition mcp_app_context (payload : @McpToolCallBeginEvent Opaque) : option McpToolCallAppContext :=
  (fun connector_id =>
     {| ac_connector_id := connector_id; ac_link_id := mb_link_id payload;
        ac_resource_uri := mb_mcp_app_resource_uri payload; ac_app_name := mb_app_name payload;
        ac_action_name := mb_action_name payload |}) <$> mb_connector_id payload.

Definition mcp_item (payload : @McpToolCallBeginEvent Opaque) (status : McpToolCallStatus)
    (result : option (@McpToolCallResult Opaque)) (error : option rstr) (duration_ms : option Z) : Item :=
  McpToolCall (mb_call_id payload) (mi_server (mb_invocation payload)) (mi_tool (mb_invocation payload)) status
    (default json_null (mi_arguments (mb_invocation payload))) (mcp_app_context payload)
    (mb_mcp_app_resource_uri payload) (mb_plugin_id payload) (mb_read_only_hint payload) result error duration_ms.

Definition handle_mcp_tool_call_begin (self : ThreadHistoryBuilder) (payload : @McpToolCallBeginEvent Opaque)
  : res () ThreadHistoryBuilder :=
  upsert_item_in_current_turn self (mcp_item payload McpInProgress None None None).

Definition mcp_end_item (payload : @McpToolCallEndEvent Opaque) : Item :=
  let status := if is_success payload then McpCompleted else McpFailed in
  let '(result, error) :=
    match me_result payload with
    | inl value => (Some {| mr_content := ct_content value; mr_structured_content := ct_structured_content value;
                            mr_meta := ct_meta value |}, None)
    | inr message => (None, Some message)
    end in
  mcp_item (me_begin payload) status result error (millis_i64 (me_duration payload)).

Definition handle_mcp_tool_call_end (self : ThreadHistoryBuilder) (payload : @McpToolCallEndEvent Opaque)
  : res () ThreadHistoryBuilder :=
  upsert_item_in_current_turn self (mcp_end_item payload).

Definition handle_view_image_tool_call (self : ThreadHistoryBuilder) (call_id : rstr) (path : Url)
  : res () ThreadHistoryBuilder :=
  upsert_item_in_current_turn self (ImageView call_id (cwd_text path)).

Definition image_generation_begin_item (call_id : rstr) : Item :=
  ImageGeneration {| ig_id := call_id; ig_status := []; ig_revised_prompt := None; ig_result := [];
                     ig_transparent_background := None; ig_failure := None; ig_saved_path := None;
                     ig_imagegen_request_id := None |}.

Definition handle_image_generation_begin (self : ThreadHistoryBuilder) (call_id : rstr) : res () ThreadHistoryBuilder :=
  upsert_item_in_current_turn self (image_generation_begin_item call_id).

Definition image_generation_end_item (payload : @ImageGenerationEndEvent Opaque) : Item :=
  ImageGeneration {| ig_id := ie_call_id payload; ig_status := ie_status payload;
                     ig_revised_prompt := ie_revised_prompt payload; ig_result := ie_result payload;
                     ig_transparent_background := ie_transparent_background payload; ig_failure := ie_failure payload;
                     ig_saved_path := ie_saved_path payload; ig_imagegen_request_id := None |}.

Definition handle_image_generation_end (self : ThreadHistoryBuilder) (payload : @ImageGenerationEndEvent Opaque)
  : res () ThreadHistoryBuilder :=
  upsert_item_in_current_turn self (image_generation_end_item payload).

(** ** Collaboration *)

Definition agent_failed (status : AgentStatus) : bool := match status with Errored _ | AgentNotFound => true | _ => false end.

Definition collab_status (failed : bool) : CollabAgentToolCallStatus := if failed then CollabFailed else CollabCompleted.

Definition collab_spawn_begin_item (payload : @CollabAgentSpawnBeginEvent Opaque) : Item :=
  CollabAgentToolCall (sb_call_id payload) SpawnAgent CollabInProgress (sb_sender_thread_id payload) []
    (Some (sb_prompt payload)) (Some (sb_model payload)) (Some (sb_reasoning_effort payload)) ∅.

Definition handle_collab_agent_spawn_begin (self : ThreadHistoryBuilder) (payload : @CollabAgentSpawnBeginEvent Opaque)
  : res () ThreadHistoryBuilder :=
  upsert_item_in_current_turn self (collab_spawn_begin_item payload).

Definition collab_spawn_end_item (payload : @CollabAgentSpawnEndEvent Opaque) : Item :=
  let has_receiver := bool_decide (is_Some (sn_new_thread_id payload)) in
  let status := collab_status (agent_failed (sn_status payload) || negb has_receiver) in
  let '(receiver_thread_ids, agents_states) :=
    match sn_new_thread_id payload with
    | Some id => ([id], {[ id := collab_state_of_core (sn_status payload) ]})
    | None => ([], ∅)
    end in
  CollabAgentToolCall (sn_call_id payload) SpawnAgent status (sn_sender_thread_id payload) receiver_thread_ids
    (Some (sn_prompt payload)) (Some (sn_model payload)) (Some (sn_reasoning_effort payload)) agents_states.

Definition handle_collab_agent_spawn_end (self : ThreadHistoryBuilder) (payload : @CollabAgentSpawnEndEvent Opaque)
  : res () ThreadHistoryBuilder :=
  upsert_item_in_current_turn self (collab_spawn_end_item payload).

Definition collab_interaction_begin_item (payload : CollabAgentInteractionBeginEvent) : Item :=
  CollabAgentToolCall (ib_call_id payload) SendInput CollabInProgress (ib_sender_thread_id payload)
    [ib_receiver_thread_id payload] (Some (ib_prompt payload)) None None ∅.

Definition handle_collab_agent_interaction_begin (self : ThreadHistoryBuilder) (payload : CollabAgentInteractionBeginEvent)
  : res () ThreadHistoryBuilder :=
  upsert_item_in_current_turn self (collab_interaction_begin_item payload).

Definition collab_interaction_end_item (payload : CollabAgentInteractionEndEvent) : Item :=
  CollabAgentToolCall (in_call_id payload) SendInput (collab_status (agent_failed (in_status payload)))
    (in_sender_thread_id payload) [in_receiver_thread_id payload] (Some (in_prompt payload)) None None
    {[ in_receiver_thread_id payload := collab_state_of_core (in_status payload) ]}.

Definition handle_collab_agent_interaction_end (self : ThreadHistoryBuilder) (payload : CollabAgentInteractionEndEvent)
  : res () ThreadHistoryBuilder :=
  upsert_item_in_current_turn self (collab_interaction_end_item payload).

Definition handle_sub_agent_activity (self : ThreadHistoryBuilder) (payload : SubAgentActivityEvent)
  : res () ThreadHistoryBuilder :=
  upsert_item_in_current_turn self
    (SubAgentActivity (sa_event_id payload) (sa_kind payload) (sa_agent_thread_id payload) (sa_agent_path payload)).

Definition collab_waiting_begin_item (payload : CollabWaitingBeginEvent) : Item :=
  CollabAgentToolCall (wb_call_id payload) Wait CollabInProgress (wb_sender_thread_id payload)
    (wb_receiver_thread_ids payload) None None None ∅.

Definition handle_collab_waiting_begin (self : ThreadHistoryBuilder) (payload : CollabWaitingBeginEvent)
  : res () ThreadHistoryBuilder :=
  upsert_item_in_current_turn self (collab_waiting_begin_item payload).

Definition collab_waiting_end_item (payload : CollabWaitingEndEvent) : Item :=
  let statuses := map_to_list (we_statuses payload) in
  let status := collab_status (existsb (fun kv => agent_failed kv.2) statuses) in
  CollabAgentToolCall (we_call_id payload) Wait status (we_sender_thread_id payload) (sort_by str_leb statuses.*1)
    None None None (collab_state_of_core <$> we_statuses payload).

Definition handle_collab_waiting_end (self : ThreadHistoryBuilder) (payload : CollabWaitingEndEvent)
  : res () ThreadHistoryBuilder :=
  upsert_item_in_current_turn self (collab_waiting_end_item payload).

Definition collab_target_begin_item (tool : CollabAgentTool) (payload : CollabTargetBeginEvent) : Item :=
  CollabAgentToolCall (cb_call_id payload) tool CollabInProgress (cb_sender_thread_id payload)
    [cb_receiver_thread_id payload] None None None ∅.

Definition collab_target_end_item (tool : CollabAgentTool) (payload : CollabTargetEndEvent) : Item :=
  CollabAgentToolCall (ce_call_id payload) tool (collab_status (agent_failed (ce_status payload)))
    (ce_sender_thread_id payload) [ce_receiver_thread_id payload] None None None
    {[ ce_receiver_thread_id payload := collab_state_of_core (ce_status payload) ]}.

Definition handle_collab_close_begin (self : ThreadHistoryBuilder) (payload : CollabTargetBeginEvent)
  : res () ThreadHistoryBuilder :=
  upsert_item_in_current_turn self (collab_target_begin_item CloseAgent payload).

Definition handle_collab_close_end (self : ThreadHistoryBuilder) (payload : CollabTargetEndEvent) : res () ThreadHistoryBuilder :=
  upsert_item_in_current_turn self (collab_target_end_item CloseAgent payload).

Definition handle_collab_resume_begin (self : ThreadHistoryBuilder) (payload : CollabTargetBeginEvent)
  : res () ThreadHistoryBuilder :=
  upsert_item_in_current_turn self (collab_target_begin_item ResumeAgent payload).

Definition handle_collab_resume_end (self : ThreadHistoryBuilder) (payload : CollabTargetEndEvent) : res () ThreadHistoryBuilder :=
  upsert_item_in_current_turn self (collab_target_end_item ResumeAgent payload).

(** ** Review mode *)

(** [item_id.clone().unwrap_or_else(|| self.next_item_id())]. *)
Definition id_or_next (self : ThreadHistoryBuilder) (id : option rstr) : rstr * ThreadHistoryBuilder :=
  match id with Some id => (id, self) | None => next_item_id self end.

Definition handle_entered_review_mode (self : ThreadHistoryBuilder) (payload : EnteredReviewModeEvent)
  : res () ThreadHistoryBuilder :=
  let review := default (lit "Review requested.") (er_user_facing_hint payload) in
  let '(id, self) := id_or_next self (er_item_id payload) in
  upsert_review_mode_item self (er_turn_id payload) (EnteredReviewMode id review).

Definition handle_exited_review_mode (self : ThreadHistoryBuilder) (payload : ExitedReviewModeEvent)
  : res () ThreadHistoryBuilder :=
  let review := review_output_text (xr_review_output payload) in
  let '(id, self) := id_or_next self (xr_item_id payload) in
  upsert_review_mode_item self (xr_turn_id payload) (ExitedReviewMode id review).

(** ** Lifecycle of turns *)

Definition handle_error (self : ThreadHistoryBuilder) (payload : @ErrorEvent Opaque) : ThreadHistoryBuilder :=
  if affects_turn_status payload then
    match current_turn self with
    | Some turn =>
        let turn := with_outcome turn TurnFailed (Some (turn_error_of payload)) (pt_completed_at turn) (pt_duration_ms turn) in
        record_changed_turn (set_current self turn) (from_pending_turn turn)
    | None => self
    end
  else self.

Definition apply_abort (payload : TurnAbortedEvent) (turn : PendingTurn) : PendingTurn :=
  with_outcome turn TurnInterrupted (pt_error turn) (ta_completed_at payload) (ta_duration_ms payload).

Definition change_current (self : ThreadHistoryBuilder) (turn : PendingTurn) : ThreadHistoryBuilder :=
  record_changed_turn (set_current self turn) (from_pending_turn turn).

Definition change_finished (self : ThreadHistoryBuilder) (n : nat) (turn : PendingTurn) : ThreadHistoryBuilder :=
  record_changed_turn (set_turns self (<[n := turn]> (turns self)) (current_turn self)) (from_pending_turn turn).

Definition abort_active (self : ThreadHistoryBuilder) (payload : TurnAbortedEvent) : ThreadHistoryBuilder :=
  match current_turn self with Some turn => change_current self (apply_abort payload turn) | None => self end.

Definition handle_turn_aborted (self : ThreadHistoryBuilder) (payload : TurnAbortedEvent) : ThreadHistoryBuilder :=
  match ta_turn_id payload with
  | Some turn_id =>
      match current_with_id self turn_id with
      | Some turn => change_current self (apply_abort payload turn)
      | None =>
          match find_turn turn_id (turns self) with
          | Some (n, turn) => change_finished self n (apply_abort payload turn)
          | None => abort_active self payload
          end
      end
  | None => abort_active self payload
  end.

Definition handle_turn_started (self : ThreadHistoryBuilder) (payload : TurnStartedEvent) : ThreadHistoryBuilder :=
  let self := finish_current_turn self in
  let '(turn, self) := new_turn self (Some (ts_turn_id payload)) in
  let turn := opened_at turn (ts_started_at payload) in
  set_current (record_changed_pending_turn self turn) turn.

Definition apply_completion (payload : @TurnCompleteEvent Opaque) (turn : PendingTurn) : PendingTurn :=
  let '(status, error) :=
    match tc_error payload with
    | Some error => (TurnFailed, Some (turn_error_of error))
    | None =>
        (match pt_status turn with TurnCompleted | TurnInProgress => TurnCompleted | status => status end, pt_error turn)
    end in
  with_outcome turn status error (tc_completed_at payload) (tc_duration_ms payload).

Definition handle_turn_complete (self : ThreadHistoryBuilder) (payload : @TurnCompleteEvent Opaque) : ThreadHistoryBuilder :=
  match current_with_id self (tc_turn_id payload) with
  | Some turn => finish_current_turn (change_current self (apply_completion payload turn))
  | None =>
      match find_turn (tc_turn_id payload) (turns self) with
      | Some (n, turn) => change_finished self n (apply_completion payload turn)
      | None =>
          match current_turn self with
          | Some turn => finish_current_turn (change_current self (apply_completion payload turn))
          | None => self
          end
      end
  end.

Definition handle_compacted (self : ThreadHistoryBuilder) : ThreadHistoryBuilder :=
  let '(turn, self) := ensure_turn self in set_current self (with_compaction turn).

Definition item_count (ts : list PendingTurn) : nat := sum_list_with (fun t => length (pt_items t)) ts.

Definition handle_thread_rollback (self : ThreadHistoryBuilder) (num_turns : Z) : ThreadHistoryBuilder :=
  let self := finish_current_turn self in
  let n := Z.to_nat num_turns in
  let len := length (turns self) in
  let removed :=
    if (len <=? n)%nat then map pt_id (turns self)
    else if (n =? 0)%nat then [] else map pt_id (drop (len - n) (turns self)) in
  let self := record_removed_turn_ids self removed in
  let ts := if (len <=? n)%nat then [] else take (len - n) (turns self) in
  let self := set_turns self ts (current_turn self) in
  set_next_item_index self (Z.min (Z.of_nat (item_count ts) + 1) I64_MAX).

(** ** Dispatch *)

Definition handle_event (self : ThreadHistoryBuilder) (event : EventMsg) : res () ThreadHistoryBuilder :=
  match event with
  | EvUserMessage payload => Ok (handle_user_message self payload)
  | EvAgentMessage payload => Ok (handle_agent_message self payload)
  | EvAgentReasoning text => Ok (handle_agent_reasoning self text)
  | EvAgentReasoningRawContent text => Ok (handle_agent_reasoning_raw_content self text)
  | EvWebSearchBegin call_id => handle_web_search_begin self call_id
  | EvWebSearchEnd payload => handle_web_search_end self payload
  | EvExecCommandBegin payload => handle_exec_command_begin self payload
  | EvExecCommandEnd payload => handle_exec_command_end self payload
  | EvGuardianAssessment payload => handle_guardian_assessment self payload
  | EvApplyPatchApprovalRequest payload => handle_apply_patch_approval_request self payload
  | EvPatchApplyBegin payload => handle_patch_apply_begin self payload
  | EvPatchApplyEnd payload => handle_patch_apply_end self payload
  | EvDynamicToolCallRequest payload => handle_dynamic_tool_call_request self payload
  | EvDynamicToolCallResponse payload => handle_dynamic_tool_call_response self payload
  | EvMcpToolCallBegin payload => handle_mcp_tool_call_begin self payload
  | EvMcpToolCallEnd payload => handle_mcp_tool_call_end self payload
  | EvViewImageToolCall call_id path => handle_view_image_tool_call self call_id path
  | EvImageGenerationBegin call_id => handle_image_generation_begin self call_id
  | EvImageGenerationEnd payload => handle_image_generation_end self payload
  | EvCollabAgentSpawnBegin payload => handle_collab_agent_spawn_begin self payload
  | EvCollabAgentSpawnEnd payload => handle_collab_agent_spawn_end self payload
  | EvCollabAgentInteractionBegin payload => handle_collab_agent_interaction_begin self payload
  | EvCollabAgentInteractionEnd payload => handle_collab_agent_interaction_end self payload
  | EvSubAgentActivity payload => handle_sub_agent_activity self payload
  | EvCollabWaitingBegin payload => handle_collab_waiting_begin self payload
  | EvCollabWaitingEnd payload => handle_collab_waiting_end self payload
  | EvCollabCloseBegin payload => handle_collab_close_begin self payload
  | EvCollabCloseEnd payload => handle_collab_close_end self payload
  | EvCollabResumeBegin payload => handle_collab_resume_begin self payload
  | EvCollabResumeEnd payload => handle_collab_resume_end self payload
  | EvContextCompacted => Ok (handle_context_compacted self)
  | EvEnteredReviewMode payload => handle_entered_review_mode self payload
  | EvExitedReviewMode payload => handle_exited_review_mode self payload
  | EvItemStarted turn_id i => handle_materialized_item_lifecycle self turn_id i
  | EvItemCompleted turn_id i _ _ => handle_materialized_item_lifecycle self turn_id i
  | EvError payload => Ok (handle_error self payload)
  | EvThreadRolledBack num_turns => Ok (handle_thread_rollback self num_turns)
  | EvTurnAborted payload => Ok (handle_turn_aborted self payload)
  | EvTurnStarted payload => Ok (handle_turn_started self payload)
  | EvTurnComplete payload => Ok (handle_turn_complete self payload)
  | EvOther => Ok self
  end.

Definition handle_rollout_item (self : ThreadHistoryBuilder) (i : RolloutItem) : res () ThreadHistoryBuilder :=
  let self := set_rollout_index self (next_rollout_index self) (next_rollout_index self + 1) in
  match i with
  | LineEventMsg event => handle_event self event
  | LineCompacted => Ok (handle_compacted self)
  | LineResponseItem i => Ok (handle_response_item self i)
  | LineOther => Ok self
  end.

Definition finish (self : ThreadHistoryBuilder) : list Turn := map turn_of (turns (finish_current_turn self)).

Definition build_turns_from_rollout_items (items : list RolloutItem) : res () (list Turn) :=
  builder ← fold_res handle_rollout_item builder_new items; Ok (finish builder).

(** ** Snapshots *)

Definition active_turn (self : ThreadHistoryBuilder) : option PendingTurn :=
  match current_turn self with Some turn => Some turn | None => last (turns self) end.

Definition active_turn_snapshot (self : ThreadHistoryBuilder) : option Turn := turn_of <$> active_turn self.

Definition active_turn_id (self : ThreadHistoryBuilder) : option rstr := pt_id <$> active_turn self.

Definition turn_snapshot (self : ThreadHistoryBuilder) (turn_id : rstr) : option Turn :=
  match current_with_id self turn_id with
  | Some turn => Some (turn_of turn)
  | None => (fun nt => turn_of nt.2) <$> find_turn turn_id (turns self)
  end.

Definition active_turn_position (self : ThreadHistoryBuilder) : option nat :=
  match current_turn self with
  | Some _ => Some (length (turns self))
  | None => if is_empty (turns self) then None else Some (length (turns self) - 1)%nat
  end.

Definition has_open_turn (self : ThreadHistoryBuilder) : bool := bool_decide (is_Some (current_turn self)).

Definition active_turn_id_if_explicit (self : ThreadHistoryBuilder) : option rstr :=
  turn ← current_turn self; if pt_opened_explicitly turn then Some (pt_id turn) else None.

Definition active_turn_start_index (self : ThreadHistoryBuilder) : option Z := pt_rollout_start_index <$> current_turn self.

(** ** Handlers that return the changes *)

(** [debug_assert!(active_change_set.is_none())] holds as these calls do not nest. *)
Definition collect_changes (self : ThreadHistoryBuilder) (handle : ThreadHistoryBuilder -> res () ThreadHistoryBuilder)
  : res () (ThreadHistoryChangeSet * ThreadHistoryBuilder) :=
  self ← handle (set_changes self (Some no_changes));
  Ok (default no_changes (active_change_set self), set_changes self None).

Definition handle_event_with_changes (self : ThreadHistoryBuilder) (event : EventMsg)
  : res () (ThreadHistoryChangeSet * ThreadHistoryBuilder) :=
  collect_changes self (fun builder => handle_event builder event).

Definition handle_rollout_item_with_changes (self : ThreadHistoryBuilder) (i : RolloutItem)
  : res () (ThreadHistoryChangeSet * ThreadHistoryBuilder) :=
  collect_changes self (fun builder => handle_rollout_item builder i).

(** *** The accumulator *)

Record ThreadHistoryChangeAccumulator := {
  acc_changed_items : list (option ThreadHistoryItemChange);
  acc_changed_item_indexes : gmap (rstr * rstr) nat;
  acc_changed_turns : list (option ThreadHistoryTurnChange);
  acc_changed_turn_indexes : gmap rstr nat;
  acc_removed_turn_ids : list rstr;
  acc_removed_turn_indexes : gmap rstr nat;
}.

Definition acc_default : ThreadHistoryChangeAccumulator :=
  {| acc_changed_items := []; acc_changed_item_indexes := ∅; acc_changed_turns := []; acc_changed_turn_indexes := ∅;
     acc_removed_turn_ids := []; acc_removed_turn_indexes := ∅ |}.

Definition acc_set_items (self : ThreadHistoryChangeAccumulator) (items : list (option ThreadHistoryItemChange))
    (indexes : gmap (rstr * rstr) nat) : ThreadHistoryChangeAccumulator :=
  {| acc_changed_items := items; acc_changed_item_indexes := indexes; acc_changed_turns := acc_changed_turns self;
     acc_changed_turn_indexes := acc_changed_turn_indexes self; acc_removed_turn_ids := acc_removed_turn_ids self;
     acc_removed_turn_indexes := acc_removed_turn_indexes self |}.

Definition acc_set_turns (self : ThreadHistoryChangeAccumulator) (ts : list (option ThreadHistoryTurnChange))
    (indexes : gmap rstr nat) : ThreadHistoryChangeAccumulator :=
  {| acc_changed_items := acc_changed_items self; acc_changed_item_indexes := acc_changed_item_indexes self;
     acc_changed_turns := ts; acc_changed_turn_indexes := indexes; acc_removed_turn_ids := acc_removed_turn_ids self;
     acc_removed_turn_indexes := acc_removed_turn_indexes self |}.

Definition acc_set_removed (self : ThreadHistoryChangeAccumulator) (ids : list rstr) (indexes : gmap rstr nat)
  : ThreadHistoryChangeAccumulator :=
  {| acc_changed_items := acc_changed_items self; acc_changed_item_indexes := acc_changed_item_indexes self;
     acc_changed_turns := acc_changed_turns self; acc_changed_turn_indexes := acc_changed_turn_indexes self;
     acc_removed_turn_ids := ids; acc_removed_turn_indexes := indexes |}.

Definition item_change_key (change : ThreadHistoryItemChange) : rstr * rstr := (ic_turn_id change, item_id (ic_item change)).

Definition push_item_change (self : ThreadHistoryChangeAccumulator) (change : ThreadHistoryItemChange)
  : res () ThreadHistoryChangeAccumulator :=
  let key := item_change_key change in
  match acc_changed_item_indexes self !! key with
  | Some index =>
      items ← vec_set index (Some change) (acc_changed_items self);
      Ok (acc_set_items self items (acc_changed_item_indexes self))
  | None =>
      Ok (acc_set_items self (acc_changed_items self ++ [Some change])
            (<[key := length (acc_changed_items self)]> (acc_changed_item_indexes self)))
  end.

Definition push_turn_change (self : ThreadHistoryChangeAccumulator) (change : ThreadHistoryTurnChange)
  : res () ThreadHistoryChangeAccumulator :=
  match acc_changed_turn_indexes self !! tch_turn_id change with
  | Some index =>
      ts ← vec_set index (Some change) (acc_changed_turns self);
      Ok (acc_set_turns self ts (acc_changed_turn_indexes self))
  | None =>
      Ok (acc_set_turns self (acc_changed_turns self ++ [Some change])
            (<[tch_turn_id change := length (acc_changed_turns self)]> (acc_changed_turn_indexes self)))
  end.

Definition drop_item_key (self : ThreadHistoryChangeAccumulator) (key : rstr * rstr)
  : res () ThreadHistoryChangeAccumulator :=
  match acc_changed_item_indexes self !! key with
  | Some index =>
      items ← vec_set index None (acc_changed_items self);
      Ok (acc_set_items self items (delete key (acc_changed_item_indexes self)))
  | None => Ok self
  end.

Definition drop_turn_key (self : ThreadHistoryChangeAccumulator) (turn_id : rstr) : res () ThreadHistoryChangeAccumulator :=
  match acc_changed_turn_indexes self !! turn_id with
  | Some index =>
      ts ← vec_set index None (acc_changed_turns self);
      Ok (acc_set_turns self ts (delete turn_id (acc_changed_turn_indexes self)))
  | None => Ok self
  end.

Definition push_removed_turn_id (self : ThreadHistoryChangeAccumulator) (turn_id : rstr)
  : res () ThreadHistoryChangeAccumulator :=
  let self :=
    match acc_removed_turn_indexes self !! turn_id with
    | Some _ => self
    | None => acc_set_removed self (acc_removed_turn_ids self ++ [turn_id])
                (<[turn_id := length (acc_removed_turn_ids self)]> (acc_removed_turn_indexes self))
    end in
  self ← drop_turn_key self turn_id;
  let removed_item_keys := List.filter (fun key => key.1 =s turn_id) (map_to_list (acc_changed_item_indexes self)).*1 in
  fold_res drop_item_key self removed_item_keys.

Definition acc_push (self : ThreadHistoryChangeAccumulator) (changes : ThreadHistoryChangeSet)
  : res () ThreadHistoryChangeAccumulator :=
  self ← fold_res push_removed_turn_id self (removed_turn_ids changes);
  self ← fold_res push_item_change self (changed_items changes);
  fold_res push_turn_change self (changed_turns changes).

Definition acc_finish (self : ThreadHistoryChangeAccumulator) : ThreadHistoryChangeSet :=
  {| changed_items := omap id (acc_changed_items self); changed_turns := omap id (acc_changed_turns self);
     removed_turn_ids := acc_removed_turn_ids self |}.

Definition accumulate_item (s : ThreadHistoryChangeAccumulator * ThreadHistoryBuilder) (i : RolloutItem)
  : res () (ThreadHistoryChangeAccumulator * ThreadHistoryBuilder) :=
  '(changes, builder) ← handle_rollout_item_with_changes s.2 i;
  accumulator ← acc_push s.1 changes;
  Ok (accumulator, builder).

Definition handle_rollout_items_with_changes (self : ThreadHistoryBuilder) (items : list RolloutItem)
  : res () (ThreadHistoryChangeSet * ThreadHistoryBuilder) :=
  '(accumulator, builder) ← fold_res accumulate_item (acc_default, self) items;
  Ok (acc_finish accumulator, builder).

(** ** The stateless projection

    [thread_history_projection.rs], for rollouts whose items are all recorded as completed
    items. *)
Definition project_rollout_line (line : RolloutItem) : ThreadHistoryChangeSet :=
  match line with
  | LineEventMsg (EvTurnStarted event) =>
      {| changed_items := [];
         changed_turns := [{| tch_turn_id := ts_turn_id event; tch_status := TurnInProgress; tch_error := None;
                              tch_started_at := ts_started_at event; tch_completed_at := None; tch_duration_ms := None |}];
         removed_turn_ids := [] |}
  | LineEventMsg (EvTurnComplete event) =>
      {| changed_items := [];
         changed_turns := [{| tch_turn_id := tc_turn_id event;
                              tch_status := if bool_decide (is_Some (tc_error event)) then TurnFailed else TurnCompleted;
                              tch_error := turn_error_of <$> tc_error event; tch_started_at := tc_started_at event;
                              tch_completed_at := tc_completed_at event; tch_duration_ms := tc_duration_ms event |}];
         removed_turn_ids := [] |}
  | LineEventMsg (EvTurnAborted event) =>
      match ta_turn_id event with
      | None => no_changes
      | Some turn_id =>
          {| changed_items := [];
             changed_turns := [{| tch_turn_id := turn_id; tch_status := TurnInterrupted; tch_error := None;
                                  tch_started_at := ta_started_at event; tch_completed_at := ta_completed_at event;
                                  tch_duration_ms := ta_duration_ms event |}];
             removed_turn_ids := [] |}
      end
  | LineEventMsg (EvItemCompleted turn_id i started_at_ms completed_at_ms) =>
      {| changed_items := [{| ic_turn_id := turn_id; ic_item := thread_item_of_core i; ic_started_at_ms := started_at_ms;
                              ic_completed_at_ms := if completed_at_ms =? 0 then None else Some completed_at_ms |}];
         changed_turns := []; removed_turn_ids := [] |}
  | _ => no_changes
  end.

End History.
