(* ===== verification/ThreadHistoryProps.v ===== *)
(** * Thread history: properties

    The lazily built index of a turn is the linear search it replaces, so no handler panics
    and no turn is ever dropped; collecting changes does not disturb the history, and the
    changes that are returned take a client from the history before to the one after, one
    event at a time or coalesced over a batch. *)
From S2P Require Import Prelude Width AbsPath History AgentResidency ThreadItems ThreadHistory.

Set Default Goal Selector "!".

Create HintDb thread discriminated.

Section Props.
Context {Opaque Url : Type} {Env : ThreadEnv Opaque Url}.
Local Abbreviation Item := (@ThreadItem Opaque).
Local Abbreviation Builder := (@ThreadHistoryBuilder Opaque).
Local Abbreviation Pending := (@PendingTurn Opaque).
Local Abbreviation Changes := (@ThreadHistoryChangeSet Opaque).

(** ** The index *)

(** The update of a list of items by a linear search. *)
Definition upsert_linear (items : list Item) (i : Item) : list Item :=
  match id_position (item_id i) items with Some n => <[n := i]> items | None => items ++ [i] end.

Definition index_ok (index : option (gmap rstr nat)) (items : list Item) : Prop :=
  match index with Some positions => forall id, positions !! id = id_position id items | None => True end.

Lemma id_position_Some id (items : list Item) n :
  id_position id items = Some n -> exists i, items !! n = Some i /\ item_id i = id.
Proof.
  revert n. induction items as [|x items IH]; intros n; simpl; [done|]. case_match eqn:E.
  - intros ?; simplify_eq. bool_prop. by exists x.
  - intros (m & Hm & ->)%fmap_Some. eauto.
Qed.

Lemma id_position_None id (items : list Item) : id_position id items = None <-> id ∉ map item_id items.
Proof.
  induction items as [|x items IH]; simpl; [set_solver|]. unfold streq. rewrite not_elem_of_cons. case_bool_decide as E.
  - naive_solver.
  - rewrite fmap_None, IH. naive_solver.
Qed.

Lemma id_position_app id (items : list Item) i :
  id_position id (items ++ [i]) =
    match id_position id items with
    | Some n => Some n
    | None => if item_id i =s id then Some (length items) else None
    end.
Proof.
  induction items as [|x items IH]; simpl; [by case_match|]. destruct (item_id x =s id); [done|].
  rewrite IH. destruct (id_position id items); simpl; [done|]. by destruct (item_id i =s id).
Qed.

Lemma id_position_insert id (items : list Item) n i :
  id_position (item_id i) items = Some n -> id_position id (<[n := i]> items) = id_position id items.
Proof.
  revert n. induction items as [|x items IH]; intros n; simpl; [done|]. case_match eqn:E.
  - intros ?; simplify_eq/=. bool_prop. by rewrite E.
  - intros (m & Hm & ->)%fmap_Some. simpl. by rewrite IH.
Qed.

Lemma or_insert_lookup k v positions id :
  or_insert k v positions !! id = match positions !! id with Some n => Some n | None => if k =s id then Some v else None end.
Proof.
  unfold or_insert, streq. case_bool_decide as E.
  - subst. destruct (positions !! id) eqn:Ep; [by rewrite Ep|by rewrite lookup_insert_eq].
  - destruct (positions !! k); [by destruct (positions !! id)|]. rewrite lookup_insert_ne by done.
    by destruct (positions !! id).
Qed.

Lemma index_positions_lookup (items : list Item) n positions id :
  index_positions n items positions !! id =
    match positions !! id with Some m => Some m | None => (fun m => n + m) <$> id_position id items end.
Proof.
  revert n positions. induction items as [|x items IH]; intros n positions; simpl; [by case_match|].
  rewrite IH, or_insert_lookup. destruct (positions !! id); [done|]. destruct (item_id x =s id); simpl; [by rewrite Nat.add_0_r|].
  destruct (id_position id items); simpl; [|done]. f_equal. lia.
Qed.

Lemma index_push_ok index items i : index_ok index items ->
  index_ok (index_push index items i).1 (items ++ [i]).
Proof.
  destruct index as [positions|]; simpl; [|done]. intros H id. by rewrite or_insert_lookup, H, id_position_app.
Qed.

Lemma index_ensure_ok index items : index_ok index items -> index_ok (index_ensure index items) items.
Proof.
  destruct index; simpl; [done|]. intros _. case_match; simpl; [|done]. intros id.
  rewrite index_positions_lookup, lookup_empty. by destruct (id_position id items).
Qed.

Lemma index_lookup_ok index items id : index_ok index items -> index_lookup index items id = id_position id items.
Proof. destruct index; simpl; auto. Qed.

Lemma index_upsert_linear index items i : index_ok index items ->
  exists index', index_upsert index items i = Ok (index', upsert_linear items i) /\ index_ok index' (upsert_linear items i).
Proof.
  intros H%index_ensure_ok. unfold index_upsert, upsert_linear. rewrite index_lookup_ok by done.
  destruct (id_position _ items) as [n|] eqn:E.
  - destruct (id_position_Some _ _ _ E) as (x & Hx & _). unfold vec_set.
    rewrite (proj2 (Nat.ltb_lt _ _)) by (by eapply lookup_lt_Some). eexists. split; [done|].
    destruct (index_ensure index items); simpl in *; [|done]. intros id. by rewrite id_position_insert.
  - eexists. split; [done|]. by apply index_push_ok.
Qed.

Lemma upsert_linear_nonempty items i : is_empty (upsert_linear items i) = false.
Proof.
  unfold upsert_linear. destruct (id_position _ items) as [n|] eqn:E.
  - destruct (id_position_Some _ _ _ E) as (x & Hx & _). destruct items, n; simplify_eq/=; done.
  - by destruct items.
Qed.

(** ** Well-formed builders *)

Definition all_turns (b : Builder) : list Pending := turns b ++ option_list (current_turn b).

Definition turn_ok (t : Pending) : Prop := index_ok (pt_item_index t) (pt_items t).

(** Indexes are right, and the current turn is one that [finish_current_turn] keeps. *)
Record builder_ok (b : Builder) : Prop := {
  ok_turns : Forall turn_ok (all_turns b);
  ok_kept : forall t, current_turn b = Some t -> turn_kept t = true;
}.

Lemma new_builder_ok : builder_ok builder_new.
Proof. split; [constructor|done]. Qed.

(** [finish_current_turn] moves the turn over. *)
Lemma finish_all_turns b : builder_ok b -> all_turns (finish_current_turn b) = all_turns b.
Proof.
  intros H. unfold finish_current_turn, all_turns. destruct (current_turn b) as [t|] eqn:E; [|by rewrite E].
  simpl. rewrite (ok_kept _ H t) by done. by rewrite app_nil_r.
Qed.

Lemma finish_current_None (b : Builder) : current_turn (finish_current_turn b) = None.
Proof. unfold finish_current_turn. by destruct (current_turn b) eqn:E. Qed.

Lemma finish_builder_ok b : builder_ok b -> builder_ok (finish_current_turn b).
Proof.
  intros H. split; [rewrite finish_all_turns by done; apply H|]. by rewrite finish_current_None.
Qed.

(** ** What a client sees *)

(** The metadata and the items of a turn. *)
Abbreviation TurnView := ((@ThreadHistoryTurnChange Opaque * list Item)%type).

Definition turn_view (t : Pending) : TurnView := (from_pending_turn t, pt_items t).

Definition view (b : Builder) : list TurnView := map turn_view (all_turns b).

Definition view_id (e : TurnView) : rstr := tch_turn_id e.1.

(** Ids tell turns, and items within a turn, apart. *)
Definition unique_ids (v : list TurnView) : Prop := NoDup (map view_id v) /\ Forall (fun e => NoDup (map item_id e.2)) v.

(** A client that keeps turns and items by their ids: an entry that it has is updated, one
    that it does not have is put last. *)
Definition upsert_by {A} (same : A -> bool) (update : A -> A) (new : A) (l : list A) : list A :=
  if existsb same l then map (fun x => if same x then update x else x) l else l ++ [new].

Definition client_items (items : list Item) (i : Item) : list Item :=
  upsert_by (fun x => item_id x =s item_id i) (fun _ => i) i items.

Definition client_turn (v : list TurnView) (c : ThreadHistoryTurnChange) : list TurnView :=
  upsert_by (fun e => view_id e =s tch_turn_id c) (fun e => (c, e.2)) (c, []) v.

Definition client_item (v : list TurnView) (c : ThreadHistoryItemChange) : list TurnView :=
  map (fun e => if view_id e =s ic_turn_id c then (e.1, client_items e.2 (ic_item c)) else e) v.

Definition client_remove (v : list TurnView) (turn_id : rstr) : list TurnView :=
  List.filter (fun e => negb (view_id e =s turn_id)) v.

Definition apply_changes (cs : Changes) (v : list TurnView) : list TurnView :=
  foldl client_item (foldl client_turn (foldl client_remove v (removed_turn_ids cs)) (changed_turns cs)) (changed_items cs).

Lemma map_id_in {A} (f : A -> A) l : (forall x, x ∈ l -> f x = x) -> map f l = l.
Proof. induction l as [|x l IH]; intros H; simpl; [done|]. rewrite H, IH; [done|set_solver|set_solver]. Qed.

(** With unique ids the linear search and the client agree. *)
Lemma upsert_linear_client items i : NoDup (map item_id items) -> upsert_linear items i = client_items items i.
Proof.
  unfold upsert_linear, client_items, upsert_by. intros Hnd.
  destruct (existsb _ items) eqn:E.
  - destruct (id_position _ items) as [n|] eqn:En.
    + revert n En Hnd. clear E. induction items as [|x items IH]; intros n; simpl; [done|].
      rewrite NoDup_cons. intros En [Hx Hnd]. unfold streq in *. case_bool_decide as Ex.
      * simplify_eq. simpl. f_equal. symmetry. apply map_id_in. intros y Hy. rewrite bool_decide_eq_false_2; [done|].
        intros Hyx. apply Hx. rewrite Ex, <- Hyx. by apply list_elem_of_fmap_2.
      * apply fmap_Some in En as (m & Hm & ->). simpl. f_equal. by apply IH.
    + rewrite id_position_None in En. apply existsb_elem in E as (x & Hx & Ex). bool_prop. contradict En.
      rewrite <- Ex. by apply list_elem_of_fmap_2.
  - destruct (id_position _ items) as [n|] eqn:En; [|done]. apply id_position_Some in En as (x & Hx & Ex).
    assert (existsb (fun y => item_id y =s item_id i) items = true) as Hc; [|congruence]. apply existsb_elem.
    exists x. split; [by eapply list_elem_of_lookup_2|by apply bool_decide_eq_true_2].
Qed.

(** A push of an item with a new id. *)
Lemma client_items_new items i : NoDup (map item_id (items ++ [i])) -> client_items items i = items ++ [i].
Proof.
  rewrite map_app, NoDup_app. intros (_ & Hi & _). unfold client_items, upsert_by.
  destruct (existsb _ items) eqn:E; [|done]. apply existsb_elem in E as (x & Hx & Ex). bool_prop.
  exfalso. apply (Hi (item_id x)); [by apply list_elem_of_fmap_2|]. simpl. rewrite Ex. by apply list_elem_of_singleton.
Qed.

(** *** Changing one turn *)

(** [t] is turned into [t'], at one place. *)
Definition replaces (b b' : Builder) (t t' : Pending) : Prop :=
  exists n, all_turns b !! n = Some t /\ all_turns b' = <[n := t']> (all_turns b).

Lemma replaces_view b b' t t' : replaces b b' t t' -> pt_id t' = pt_id t -> NoDup (map view_id (view b)) ->
  view b' = map (fun e => if view_id e =s pt_id t then turn_view t' else e) (view b).
Proof.
  intros (n & Hn & Hb) Hid. unfold view. rewrite Hb. clear Hb. revert n Hn. generalize (all_turns b) as l.
  induction l as [|x l IH]; intros [|n] Hn; simplify_eq/=; rewrite NoDup_cons; intros [Hx Hnd].
  - unfold streq. rewrite bool_decide_eq_true_2 by done. f_equal. symmetry. apply map_id_in. intros y Hy.
    rewrite bool_decide_eq_false_2; [done|]. intros Hyt. apply Hx. unfold view_id at 1. simpl. rewrite <- Hyt.
    by apply list_elem_of_fmap_2.
  - f_equal; [|by apply IH]. unfold streq. rewrite bool_decide_eq_false_2; [done|]. intros Hxt. apply Hx.
    rewrite Hxt, map_map. change (pt_id t) with (view_id (turn_view t)).
    apply (list_elem_of_fmap_2 (fun y => view_id (turn_view y)) l t). by eapply list_elem_of_lookup_2.
Qed.

Lemma replaces_ok b b' t t' : replaces b b' t t' -> turn_ok t' ->
  (forall c, current_turn b' = Some c -> turn_kept c = true) -> builder_ok b -> builder_ok b'.
Proof.
  intros (n & Hn & Hb) Ht Hk H. split; [|done]. rewrite Hb. by apply Forall_insert; [apply H|].
Qed.

Lemma replaces_unique_items b b' t t' : replaces b b' t t' -> unique_ids (view b) -> NoDup (map item_id (pt_items t)).
Proof.
  intros (n & Hn & _) [_ H]. rewrite Forall_forall in H. apply (H (turn_view t)). unfold view.
  apply list_elem_of_fmap_2. by eapply list_elem_of_lookup_2.
Qed.

Lemma replaces_unique_items' b b' t t' : replaces b b' t t' -> unique_ids (view b') -> NoDup (map item_id (pt_items t')).
Proof.
  intros (n & Hn & Hb) [_ H]. rewrite Forall_forall in H. apply (H (turn_view t')). unfold view. rewrite Hb.
  apply list_elem_of_fmap_2. eapply list_elem_of_lookup_2. apply list_lookup_insert_eq. by eapply lookup_lt_Some.
Qed.

Lemma set_current_replaces b t t' : current_turn b = Some t -> replaces b (set_current b t') t t'.
Proof.
  intros E. exists (length (turns b)). unfold all_turns, set_current, set_turns. rewrite E. simpl.
  rewrite lookup_app_r, insert_app_r_alt by lia. by rewrite Nat.sub_diag.
Qed.

Lemma set_turns_replaces b n t t' : turns b !! n = Some t ->
  replaces b (set_turns b (<[n := t']> (turns b)) (current_turn b)) t t'.
Proof.
  intros E. exists n. unfold all_turns. simpl. rewrite lookup_app_l, insert_app_l by (by eapply lookup_lt_Some). done.
Qed.

Lemma find_turn_Some turn_id (ts : list Pending) n t :
  find_turn turn_id ts = Some (n, t) -> ts !! n = Some t /\ pt_id t = turn_id.
Proof. unfold find_turn. rewrite list_find_Some. tauto. Qed.

Lemma current_with_id_Some (b : Builder) turn_id t :
  current_with_id b turn_id = Some t -> current_turn b = Some t /\ pt_id t = turn_id.
Proof. unfold current_with_id. destruct (current_turn b); [|done]. case_match; [|done]. intros ?; simplify_eq. by bool_prop. Qed.

(** ** Soundness of the operations *)

(** The changed items belong to turns of the view. *)
Definition targeted (cs : Changes) (v : list TurnView) : Prop :=
  Forall (fun c => ic_turn_id c ∈ map view_id v) (changed_items cs).

(** The changes collected so far lead from [v0] to the view. *)
Definition tracked (v0 : list TurnView) (b : Builder) : Prop :=
  exists cs, active_change_set b = Some cs /\ view b = apply_changes cs v0 /\ targeted cs (view b).

Definition quiet (b : Builder) : Prop := active_change_set b = Some no_changes.

(** What each operation promises: the invariant is kept, and, at the beginning of an event,
    the changes it collects are those of the view. *)
Record sound (b b' : Builder) : Prop := {
  sound_ok : builder_ok b -> builder_ok b';
  sound_tracked v0 : builder_ok b -> quiet b -> tracked v0 b -> unique_ids (view b) -> unique_ids (view b') -> tracked v0 b';
}.

Lemma sound_refl b : sound b b.
Proof. by split. Qed.

(** Operations that leave the view and the changes alone. *)
Lemma sound_after b b1 b' : (builder_ok b -> builder_ok b1 /\ view b1 = view b) ->
  active_change_set b1 = active_change_set b -> sound b1 b' -> sound b b'.
Proof.
  intros Hv Ha [H1 H2]. split; [naive_solver|]. intros v0 Hok Hq (cs & Hcs & Hvw & Htg) Hu Hu'.
  destruct (Hv Hok) as [Hok1 Hv1]. apply H2; [done|..|done].
  - unfold quiet in *. congruence.
  - exists cs. rewrite Hv1. split_and!; congruence.
  - congruence.
Qed.

(** The current turn may be one that has just been opened. *)
Definition turns_ok (b : Builder) : Prop := Forall turn_ok (all_turns b).

(** An item of a turn is changed, and the change is recorded. *)
Record item_step (b b' : Builder) (i : Item) : Prop := {
  step_ok : turns_ok b -> (forall t, current_turn b' = Some t -> turn_kept t = true) -> builder_ok b';
  step_tracked v0 : turns_ok b -> tracked v0 b -> unique_ids (view b) -> unique_ids (view b') -> tracked v0 b';
  step_ids : map view_id (view b') = map view_id (view b);
}.

Lemma view_record_changed_item b id i : view (record_changed_item b id i) = view b.
Proof. unfold record_changed_item. by case_match. Qed.

Lemma all_turns_record_changed_item b id i : all_turns (record_changed_item b id i) = all_turns b.
Proof. unfold record_changed_item. by case_match. Qed.

Lemma item_step_replaces b b1 t ii i : replaces b b1 t (with_items t ii) -> active_change_set b1 = active_change_set b ->
  (turns_ok b -> index_ok ii.1 ii.2) ->
  (NoDup (map item_id (pt_items t)) -> NoDup (map item_id ii.2) -> ii.2 = client_items (pt_items t) i) ->
  item_step b (record_changed_item b1 (pt_id t) i) i.
Proof.
  intros Hr Ha Hii Hc.
  assert (map view_id (view b1) = map view_id (view b)) as Hids.
  { unfold view. destruct Hr as (n & Hn & ->). rewrite !map_map.
    change (pt_id <$> <[n := with_items t ii]> (all_turns b) = pt_id <$> all_turns b).
    rewrite list_fmap_insert. apply list_insert_id. by rewrite list_lookup_fmap, Hn. }
  split; [..|by rewrite view_record_changed_item].
  - intros Hok Hk. split; [|done]. rewrite all_turns_record_changed_item. destruct Hr as (n & Hn & ->).
    apply Forall_insert; [done|by apply Hii].
  - intros v0 Hok (cs & Hcs & Hv & Htg) Hu Hu'. rewrite view_record_changed_item in Hu'. unfold tracked.
    rewrite view_record_changed_item. unfold record_changed_item. rewrite Ha, Hcs. eexists. split; [done|]. split; cycle 1.
    { unfold targeted in *. simpl. rewrite Hids. apply Forall_app. split; [done|]. constructor; [|done]. simpl.
      destruct Hr as (n & Hn & _). apply (list_elem_of_fmap_2 view_id (view b) (turn_view t)), list_elem_of_fmap_2.
      by eapply list_elem_of_lookup_2. }
    unfold apply_changes in *. simpl. rewrite foldl_app. simpl. rewrite <- Hv.
    rewrite (replaces_view _ _ _ _ Hr) by (done || apply Hu). unfold client_item. simpl.
    pose proof (replaces_unique_items _ _ _ _ Hr Hu) as Hn. pose proof (replaces_unique_items' _ _ _ _ Hr Hu') as Hn'.
    destruct Hr as (n & Ht & _). simpl in Hn'. unfold turn_view at 1. simpl. rewrite (Hc Hn Hn').
    destruct Hu as [Hu _]. apply map_ext_in. intros e He. unfold streq. case_bool_decide as Ee; [|done].
    apply list_elem_of_In in He. unfold view in He, Hu. apply list_elem_of_fmap in He as (t2 & -> & He).
    assert (t2 = t) as ->; [|done]. apply list_elem_of_lookup in He as (m & Hm).
    rewrite map_map in Hu. assert (m = n) as ->; [|congruence].
    eapply (NoDup_lookup _ _ _ (pt_id t)); [exact Hu|..]; apply list_lookup_fmap_Some; eauto.
Qed.

(** *** Opening a turn *)

Record opened (b b1 : Builder) (t : Pending) : Prop := {
  op_turns : all_turns b1 = all_turns b ++ [t];
  op_current : current_turn b1 = Some t;
  op_items : pt_items t = [];
  op_ok : turn_ok t;
  op_changes : quiet b ->
    active_change_set b1 = Some {| changed_items := []; changed_turns := [from_pending_turn t]; removed_turn_ids := [] |};
}.

Lemma view_record_changed_turn b c : view (record_changed_turn b c) = view b.
Proof. unfold record_changed_turn. by case_match. Qed.

Lemma open_opened b t : current_turn b = None -> pt_items t = [] -> pt_item_index t = None ->
  opened b (set_current (record_changed_pending_turn b t) t) t.
Proof.
  intros Hc Hi Hx.
  assert (turns (record_changed_pending_turn b t) = turns b) as Ht.
  { unfold record_changed_pending_turn, record_changed_turn. by repeat case_match. }
  split; [..|done|done| |].
  - unfold all_turns. simpl. by rewrite Ht, Hc, app_nil_r.
  - unfold turn_ok. by rewrite Hx.
  - intros Hq. simpl. unfold record_changed_pending_turn, record_changed_turn, is_tracking_changes. by rewrite Hq.
Qed.

Lemma opened_turns_ok b b1 t : opened b b1 t -> turns_ok b -> turns_ok b1.
Proof. intros H Hb. unfold turns_ok. rewrite (op_turns _ _ _ H). apply Forall_app. split; [done|]. by constructor; [apply H|]. Qed.

Lemma opened_tracked b b1 t v0 : opened b b1 t -> quiet b -> tracked v0 b -> NoDup (map view_id (view b1)) -> tracked v0 b1.
Proof.
  intros H Hq (cs & Hcs & Hv & _) Hnd. eexists. split; [by apply H|]. split; [|by constructor]. unfold quiet in Hq. rewrite Hcs in Hq. simplify_eq/=.
  unfold apply_changes in *. simpl in *. rewrite <- Hv. unfold view in *. rewrite (op_turns _ _ _ H) in *.
  rewrite map_app in *. unfold client_turn, upsert_by. destruct (existsb _ _) eqn:E.
  - apply existsb_elem in E as (e & He & Ee). bool_prop. rewrite map_app, NoDup_app in Hnd. destruct Hnd as (_ & Hd & _).
    exfalso. apply (Hd (view_id e)); [by apply list_elem_of_fmap_2|]. rewrite Ee. by apply list_elem_of_singleton.
  - simpl. f_equal. unfold turn_view. by rewrite (op_items _ _ _ H).
Qed.

Lemma opened_unique b b1 t : opened b b1 t -> unique_ids (view b) -> NoDup (map view_id (view b1)) -> unique_ids (view b1).
Proof.
  intros H [_ Hi] Hnd. split; [done|]. unfold view in *. rewrite (op_turns _ _ _ H), map_app. apply Forall_app.
  split; [done|]. constructor; [|done]. simpl. rewrite (op_items _ _ _ H). constructor.
Qed.

(** Two builders that differ in their counters only. *)
Record same_state (b b' : Builder) : Prop := {
  ss_turns : turns b' = turns b;
  ss_current : current_turn b' = current_turn b;
  ss_changes : active_change_set b' = active_change_set b;
}.

Lemma same_all_turns b b' : same_state b b' -> all_turns b' = all_turns b.
Proof. intros [H1 H2 _]. unfold all_turns. congruence. Qed.

Lemma same_view b b' : same_state b b' -> view b' = view b.
Proof. intros H. unfold view. by rewrite (same_all_turns b b'). Qed.

Lemma same_ok b b' : same_state b b' -> builder_ok b -> builder_ok b'.
Proof. intros H [H1 H2]. split; [by rewrite (same_all_turns b b')|]. destruct H as [_ -> _]. done. Qed.

Lemma same_state_refl b : same_state b b.
Proof. done. Qed.

Lemma same_state_trans a b c : same_state a b -> same_state b c -> same_state a c.
Proof. intros [] []. split; congruence. Qed.

Lemma sound_same b b1 b' : same_state b b1 -> sound b1 b' -> sound b b'.
Proof. intros H. apply sound_after; [intros Hok; split; [by eapply same_ok|by apply same_view]|apply H]. Qed.

Lemma sound_finish b b' : sound (finish_current_turn b) b' -> sound b b'.
Proof.
  apply sound_after; [intros Hok; split; [by apply finish_builder_ok|unfold view; by rewrite finish_all_turns]|].
  unfold finish_current_turn. by case_match.
Qed.

Lemma sound_then b b1 b' : sound b b1 -> (builder_ok b1 -> builder_ok b' /\ view b' = view b1) ->
  active_change_set b' = active_change_set b1 -> sound b b'.
Proof.
  intros [H1 H2] Hv Ha. split; [naive_solver|]. intros v0 Hok Hq Ht Hu Hu'. destruct (Hv (H1 Hok)) as [Hok' Hv'].
  rewrite Hv' in Hu'. destruct (H2 v0 Hok Hq Ht Hu Hu') as (cs & Hcs & Hvw & Htg). exists cs. rewrite Hv'. split_and!; congruence.
Qed.

Lemma sound_then_finish b b1 : sound b b1 -> sound b (finish_current_turn b1).
Proof.
  intros H. eapply sound_then; [exact H|..].
  - intros Hok. split; [by apply finish_builder_ok|]. unfold view. by rewrite finish_all_turns.
  - unfold finish_current_turn. by case_match.
Qed.

(** An item step, in a turn that was there or in one opened before. *)
Lemma item_step_sound b b' i : item_step b b' i -> (builder_ok b -> forall t, current_turn b' = Some t -> turn_kept t = true) ->
  sound b b'.
Proof.
  intros [H1 H2 _] Hk. split.
  - intros Hok. apply H1; [apply Hok|auto].
  - intros v0 Hok Hq Ht Hu Hu'. apply H2; [apply Hok|done..].
Qed.

Lemma opened_item_sound b b1 b2 b' t i : opened b b1 t -> same_state b1 b2 -> item_step b2 b' i ->
  (forall t, current_turn b' = Some t -> turn_kept t = true) -> sound b b'.
Proof.
  intros Ho Hs [H1 H2 H3] Hk.
  assert (turns_ok b -> turns_ok b2) as Hok2.
  { intros Hb. unfold turns_ok. rewrite (same_all_turns _ _ Hs). by eapply opened_turns_ok. }
  split.
  - intros Hok. apply H1; [apply Hok2; apply Hok|done].
  - intros v0 Hok Hq Ht Hu Hu'.
    assert (NoDup (map view_id (view b1))) as Hnd. { rewrite <- (same_view _ _ Hs), <- H3. apply Hu'. }
    apply H2; [apply Hok2; apply Hok|..|done].
    + destruct (opened_tracked _ _ _ _ Ho Hq Ht Hnd) as (cs & Hcs & Hv & Htg). exists cs.
      rewrite (ss_changes _ _ Hs), (same_view _ _ Hs). done.
    + rewrite (same_view _ _ Hs). by eapply opened_unique.
Qed.

(** *** The operations *)

Lemma opened_same b b0 b1 t : same_state b b0 -> opened b0 b1 t -> opened b b1 t.
Proof.
  intros H [H1 H2 H3 H4 H5]. split; [by rewrite H1, (same_all_turns _ _ H)|done..|].
  intros Hq. apply H5. unfold quiet in *. by rewrite (ss_changes _ _ H).
Qed.

Lemma new_turn_fresh (b : Builder) id t b0 : new_turn b id = (t, b0) ->
  same_state b b0 /\ exists n, t = fresh_turn (pt_id t) n.
Proof. unfold new_turn. repeat case_match; intros ?; simplify_eq; (split; [done|by eexists]). Qed.

Lemma ensure_cases (b : Builder) t b1 : ensure_turn b = (t, b1) ->
  (current_turn b = Some t /\ b1 = b) \/ (current_turn b = None /\ opened b b1 t).
Proof.
  unfold ensure_turn. destruct (current_turn b) as [t'|] eqn:E; [intros ?; simplify_eq; by left|].
  destruct (new_turn b None) as [t' b0] eqn:En. intros ?; simplify_eq. right. split; [done|].
  apply new_turn_fresh in En as [Hs (n & Hn)]. eapply opened_same; [exact Hs|].
  apply open_opened; [rewrite (ss_current _ _ Hs); done|by rewrite Hn..].
Qed.

Lemma kept_with_items (t : Pending) ii : is_empty ii.2 = false -> turn_kept (with_items t ii) = true.
Proof. unfold turn_kept. simpl. by intros ->. Qed.

Lemma current_record_changed_item (b : Builder) id i : current_turn (record_changed_item b id i) = current_turn b.
Proof. unfold record_changed_item. by case_match. Qed.

Lemma current_turn_ok b t : turns_ok b -> current_turn b = Some t -> turn_ok t.
Proof.
  intros H E. unfold turns_ok, all_turns in H. rewrite E, Forall_app in H. destruct H as [_ H]. by inversion H.
Qed.

(** A change of an item of the current turn [t] of [b]. *)
Lemma current_item_step b t ii i : current_turn b = Some t -> (turns_ok b -> index_ok ii.1 ii.2) ->
  (NoDup (map item_id (pt_items t)) -> NoDup (map item_id ii.2) -> ii.2 = client_items (pt_items t) i) ->
  item_step b (record_changed_item (set_current b (with_items t ii)) (pt_id t) i) i.
Proof. intros Hc Hi Hn. eapply item_step_replaces; [by apply set_current_replaces|done..]. Qed.

(** ... which was there, or has just been opened. *)
Lemma ensured_item_sound b t b1 b2 ii i : ensure_turn b = (t, b1) -> same_state b1 b2 -> is_empty ii.2 = false ->
  (turn_ok t -> index_ok ii.1 ii.2) ->
  (NoDup (map item_id (pt_items t)) -> NoDup (map item_id ii.2) -> ii.2 = client_items (pt_items t) i) ->
  sound b (record_changed_item (set_current b2 (with_items t ii)) (pt_id t) i).
Proof.
  intros He Hs Hne Hi Hc.
  assert (current_turn b2 = Some t) as H2.
  { rewrite (ss_current _ _ Hs). destruct (ensure_cases _ _ _ He) as [[? ->]|[_ Ho]]; [done|apply Ho]. }
  assert (item_step b2 (record_changed_item (set_current b2 (with_items t ii)) (pt_id t) i) i) as Hstep.
  { apply current_item_step; [done| |done]. intros Hok. apply Hi. by eapply current_turn_ok. }
  assert (forall t', current_turn (record_changed_item (set_current b2 (with_items t ii)) (pt_id t) i) = Some t' ->
    turn_kept t' = true) as Hk.
  { rewrite current_record_changed_item. simpl. intros t' ?; simplify_eq. by apply kept_with_items. }
  destruct (ensure_cases _ _ _ He) as [[_ ->]|[_ Ho]].
  - eapply sound_same; [exact Hs|]. by eapply item_step_sound.
  - by eapply opened_item_sound.
Qed.

Lemma push_sound b i : sound b (push_item_in_current_turn b i).
Proof.
  unfold push_item_in_current_turn. destruct (ensure_turn b) as [t b1] eqn:E.
  eapply ensured_item_sound; [exact E|done|..]; simpl.
  - by destruct (pt_items t).
  - intros H. by apply index_push_ok.
  - intros _ Hn. by rewrite client_items_new.
Qed.

Lemma upsert_current_sound b i : builder_ok b -> exists b', upsert_item_in_current_turn b i = Ok b' /\ sound b b'.
Proof.
  intros Hb. unfold upsert_item_in_current_turn. destruct (ensure_turn b) as [t b1] eqn:E.
  assert (turn_ok t) as Ht.
  { destruct (ensure_cases _ _ _ E) as [[Hc ->]|[_ Ho]]; [eapply current_turn_ok; [apply Hb|done]|apply Ho]. }
  destruct (index_upsert_linear _ _ i Ht) as (index' & -> & Hi). simpl. eexists. split; [done|].
  eapply (ensured_item_sound b t b1 b1 (index', upsert_linear (pt_items t) i)); [exact E|done|..]; simpl.
  - apply upsert_linear_nonempty.
  - done.
  - intros Hn _. by apply upsert_linear_client.
Qed.

(** The turn is found by its id, or the item is dropped. *)
Lemma upsert_id_step b turn_id i : turns_ok b -> exists b', upsert_item_in_turn_id b turn_id i = Ok b' /\
  (b' = b /\ current_with_id b turn_id = None \/ item_step b b' i) /\
  ((forall t, current_turn b = Some t -> turn_kept t = true \/ pt_id t = turn_id) ->
   forall t, current_turn b' = Some t -> turn_kept t = true).
Proof.
  intros Hb. unfold upsert_item_in_turn_id. destruct (current_with_id b turn_id) as [t|] eqn:E.
  - apply current_with_id_Some in E as [Hc <-].
    destruct (index_upsert_linear _ _ i (current_turn_ok _ _ Hb Hc)) as (index' & -> & Hi). simpl. eexists. split_and!; [done|..].
    + right. apply (current_item_step b t (index', upsert_linear (pt_items t) i)); [done..|].
      intros Hn _. by apply upsert_linear_client.
    + intros _ t'. rewrite current_record_changed_item. simpl. intros ?; simplify_eq.
      apply kept_with_items, upsert_linear_nonempty.
  - assert (forall t, current_turn b = Some t -> pt_id t <> turn_id) as Hne.
    { intros t Hc <-. unfold current_with_id in E. rewrite Hc in E. unfold streq in E. by rewrite bool_decide_eq_true_2 in E. }
    destruct (find_turn turn_id (turns b)) as [[n t]|] eqn:Ef.
    + apply find_turn_Some in Ef as [Hn <-].
      assert (turn_ok t) as Ht.
      { unfold turns_ok, all_turns in Hb. rewrite Forall_app, !Forall_forall in Hb. eapply (proj1 Hb). by eapply list_elem_of_lookup_2. }
      destruct (index_upsert_linear _ _ i Ht) as (index' & -> & Hi). simpl. eexists. split_and!; [done|..].
      * right. eapply item_step_replaces; [by apply set_turns_replaces|done..|]. intros Hnd _. by apply upsert_linear_client.
      * intros Hk t'. rewrite current_record_changed_item. simpl. intros Hc. destruct (Hk t' Hc); [done|]. by destruct (Hne t' Hc).
    + eexists. split_and!; [done|by left|]. intros Hk t' Hc. destruct (Hk t' Hc); [done|]. by destruct (Hne t' Hc).
Qed.

Lemma upsert_id_sound b turn_id i : builder_ok b -> exists b', upsert_item_in_turn_id b turn_id i = Ok b' /\ sound b b'.
Proof.
  intros Hb. destruct (upsert_id_step b turn_id i (ok_turns _ Hb)) as (b' & E & Hs & Hk). exists b'. split; [done|].
  destruct Hs as [[-> _]|Hs]; [apply sound_refl|]. eapply item_step_sound; [exact Hs|]. intros _. apply Hk.
  intros t Ht. left. by apply Hb.
Qed.

Lemma current_with_id_current (b : Builder) t : current_turn b = Some t -> current_with_id b (pt_id t) = Some t.
Proof. unfold current_with_id. intros ->. unfold streq. by rewrite bool_decide_eq_true_2. Qed.

Lemma upsert_review_sound b turn_id i : builder_ok b -> exists b', upsert_review_mode_item b turn_id i = Ok b' /\ sound b b'.
Proof.
  intros Hb. unfold upsert_review_mode_item. destruct turn_id as [turn_id|]; [|by apply upsert_current_sound].
  destruct (negb _ && negb _); [|by apply upsert_id_sound]. cbn zeta.
  destruct (new_turn (finish_current_turn b) (Some turn_id)) as [t b0] eqn:E.
  assert (pt_id t = turn_id) as <-. { unfold new_turn in E. by simplify_eq. }
  apply new_turn_fresh in E as [Hs (n & Hn)].
  assert (opened (finish_current_turn b) (set_current (record_changed_pending_turn b0 t) t) t) as Ho.
  { eapply opened_same; [exact Hs|]. apply open_opened; [by rewrite (ss_current _ _ Hs), finish_current_None|by rewrite Hn..]. }
  set (b1 := set_current (record_changed_pending_turn b0 t) t) in *.
  destruct (upsert_id_step b1 (pt_id t) i) as (b' & -> & Hst & Hk).
  { eapply opened_turns_ok; [exact Ho|]. by apply finish_builder_ok. }
  exists b'. split; [done|]. apply sound_finish.
  destruct Hst as [[_ Hc]|Hst]; [by rewrite (current_with_id_current b1 t) in Hc|].
  eapply opened_item_sound; [exact Ho|done|exact Hst|]. apply Hk. intros t' Ht'. right. by simplify_eq/=.
Qed.

Lemma removelast_last {A} (l : list A) x : last l = Some x -> l = removelast l ++ [x].
Proof.
  induction l as [|y l IH]; [done|]. destruct l as [|z l]; intros H; simplify_eq/=; [done|]. f_equal. by apply IH.
Qed.

Lemma id_position_last (items : list Item) x i id : item_id i = item_id x ->
  id_position id (items ++ [i]) = id_position id (items ++ [x]).
Proof. intros H. by rewrite !id_position_app, H. Qed.

Lemma client_items_last items x i : item_id i = item_id x -> NoDup (map item_id (items ++ [x])) ->
  client_items (items ++ [x]) i = items ++ [i].
Proof.
  intros Hi Hnd. rewrite <- upsert_linear_client by done. unfold upsert_linear. rewrite id_position_app, Hi.
  rewrite map_app, NoDup_app in Hnd. destruct Hnd as (_ & Hd & _).
  destruct (id_position (item_id x) items) as [n|] eqn:E.
  - apply id_position_Some in E as (y & Hy & Hyx). exfalso. apply (Hd (item_id x)); [|by apply list_elem_of_singleton].
    rewrite <- Hyx. apply list_elem_of_fmap_2. by eapply list_elem_of_lookup_2.
  - unfold streq. rewrite bool_decide_eq_true_2 by done. rewrite insert_app_r_alt by lia. by rewrite Nat.sub_diag.
Qed.

(** Either the last item is extended, or the turn is there and nothing else happened. *)
Lemma extend_reasoning_cases (b : Builder) extend :
  match extend_reasoning b extend with
  | inl b' => sound b b'
  | inr b1 => exists t, ensure_turn b = (t, b1)
  end.
Proof.
  unfold extend_reasoning. destruct (ensure_turn b) as [t b1] eqn:E. destruct (last (pt_items t)) as [x|] eqn:El; [|by eauto].
  destruct x as [| | | | |id summary content| | | | | | | | | | | | |]; try by eexists.
  destruct (extend summary content) as [summary' content']. set (i := Reasoning id summary' content').
  apply removelast_last in El.
  eapply (ensured_item_sound b t b1 b1 (pt_item_index t, removelast (pt_items t) ++ [i])); [exact E|done|..]; simpl.
  - by destruct (removelast (pt_items t)).
  - unfold turn_ok. rewrite El at 1. destruct (pt_item_index t); simpl; [|done]. intros H id'. rewrite H. by apply id_position_last.
  - intros Hn _. rewrite El at 2. rewrite El in Hn. by rewrite client_items_last.
Qed.

(** A push after [ensure_turn], with other counters. *)
Lemma ensured_push_sound b t b1 b2 i : ensure_turn b = (t, b1) -> same_state b1 b2 ->
  sound b (push_item_in_current_turn b2 i).
Proof.
  intros E Hs.
  assert (current_turn b2 = Some t) as Hc.
  { rewrite (ss_current _ _ Hs). destruct (ensure_cases _ _ _ E) as [[? ->]|[_ Ho]]; [done|apply Ho]. }
  unfold push_item_in_current_turn, ensure_turn. rewrite Hc. eapply ensured_item_sound; [exact E|done|..]; simpl.
  - by destruct (pt_items t).
  - intros H. by apply index_push_ok.
  - intros _ Hn. by rewrite client_items_new.
Qed.

Lemma reasoning_sound b extend i :
  sound b match extend_reasoning b extend with
          | inl b' => b'
          | inr b1 => push_item_in_current_turn (set_next_item_index b1 (next_item_index b1 + 1)) (i b1)
          end.
Proof.
  pose proof (extend_reasoning_cases b extend) as H. destruct (extend_reasoning b extend) as [b'|b1]; [done|].
  destruct H as [t Ht]. by eapply ensured_push_sound.
Qed.

(** *** Changes of turns *)

Lemma turn_change_sound b b1 t t' : replaces b b1 t t' -> active_change_set b1 = active_change_set b ->
  pt_id t' = pt_id t -> pt_items t' = pt_items t -> pt_item_index t' = pt_item_index t ->
  (builder_ok b -> forall c, current_turn b1 = Some c -> turn_kept c = true) ->
  sound b (record_changed_turn b1 (from_pending_turn t')).
Proof.
  intros Hr Ha Hid Hit Hix Hk.
  assert (all_turns (record_changed_turn b1 (from_pending_turn t')) = all_turns b1) as Hall.
  { unfold record_changed_turn. by case_match. }
  assert (current_turn (record_changed_turn b1 (from_pending_turn t')) = current_turn b1) as Hcur.
  { unfold record_changed_turn. by case_match. }
  assert (turns_ok b -> turn_ok t') as Ht'.
  { intros Hb. destruct Hr as (n & Hn & _). unfold turn_ok. rewrite Hix, Hit.
    by apply (Forall_lookup_1 _ _ n t Hb). }
  split.
  - intros Hb. split; [|rewrite Hcur; auto]. rewrite Hall. destruct Hr as (n & Hn & ->).
    apply Forall_insert; [apply Hb|by apply Ht', Hb].
  - intros v0 Hb Hq (cs & Hcs & Hv & _) Hu _. unfold tracked. rewrite view_record_changed_turn.
    unfold record_changed_turn. rewrite Ha, Hcs. eexists. split; [done|]. unfold quiet in Hq. rewrite Hcs in Hq. simplify_eq/=.
    split; [|by constructor].
    unfold apply_changes in *. simpl in *. rewrite <- Hv. rewrite (replaces_view _ _ _ _ Hr) by (done || apply Hu).
    unfold client_turn, upsert_by. simpl. rewrite Hid. destruct Hr as (n & Hn & _).
    assert (existsb (fun e => view_id e =s pt_id t) (view b) = true) as ->.
    { apply existsb_elem. exists (turn_view t). split; [|by apply bool_decide_eq_true_2]. apply list_elem_of_fmap_2.
      by eapply list_elem_of_lookup_2. }
    apply map_ext_in. intros e He. unfold streq. case_bool_decide as Ee; [|done]. unfold turn_view. rewrite Hit.
    f_equal. destruct Hu as [Hu _]. apply list_elem_of_In in He. unfold view in He, Hu.
    apply list_elem_of_fmap in He as (t2 & -> & He). apply list_elem_of_lookup in He as (m & Hm).
    rewrite map_map in Hu. assert (m = n) as ->.
    { eapply (NoDup_lookup _ _ _ (pt_id t)); [exact Hu|..]; apply list_lookup_fmap_Some; eauto. }
    by simplify_eq.
Qed.

Lemma change_current_sound b t t' : current_turn b = Some t -> pt_id t' = pt_id t -> pt_items t' = pt_items t ->
  pt_item_index t' = pt_item_index t -> turn_kept t' = turn_kept t -> sound b (change_current b t').
Proof.
  intros Hc H1 H2 H3 H4. eapply turn_change_sound; [by apply set_current_replaces|done..|].
  intros Hb c. simpl. intros ?; simplify_eq. rewrite H4. by apply Hb.
Qed.

Lemma change_finished_sound b n t t' : turns b !! n = Some t -> pt_id t' = pt_id t -> pt_items t' = pt_items t ->
  pt_item_index t' = pt_item_index t -> sound b (change_finished b n t').
Proof.
  intros Hn H1 H2 H3. eapply turn_change_sound; [by apply set_turns_replaces|done..|].
  intros Hb c. simpl. apply Hb.
Qed.

(** *** Rollback *)

Lemma foldl_client_remove v ids : foldl client_remove v ids = List.filter (fun e => negb (existsb (streq (view_id e)) ids)) v.
Proof.
  revert v. induction ids as [|id ids IH]; intros v; simpl.
  - symmetry. induction v as [|e v IHv]; simpl; [done|]. by rewrite IHv.
  - rewrite IH. unfold client_remove. induction v as [|e v IHv]; simpl; [done|].
    destruct (view_id e =s id); simpl; [by rewrite IHv|]. destruct (existsb _ ids); simpl; by rewrite IHv.
Qed.

Lemma filter_none {A} (f : A -> bool) l : (forall x, x ∈ l -> f x = false) -> List.filter f l = [].
Proof. induction l as [|x l IH]; intros H; simpl; [done|]. rewrite H, IH; [done|set_solver|set_solver]. Qed.

Lemma filter_all {A} (f : A -> bool) l : (forall x, x ∈ l -> f x = true) -> List.filter f l = l.
Proof. induction l as [|x l IH]; intros H; simpl; [done|]. rewrite H, IH; [done|set_solver|set_solver]. Qed.

(** Removing the ids of a suffix leaves the prefix. *)
Lemma remove_suffix v1 v2 : NoDup (map view_id (v1 ++ v2)) -> foldl client_remove (v1 ++ v2) (map view_id v2) = v1.
Proof.
  rewrite foldl_client_remove, map_app, NoDup_app. intros (_ & Hd & _). rewrite List.filter_app, filter_all, filter_none.
  - by rewrite app_nil_r.
  - intros e He. rewrite negb_false_iff, existsb_elem. exists (view_id e).
    split; [by apply list_elem_of_fmap_2|by apply bool_decide_eq_true_2].
  - intros e He. rewrite negb_true_iff. destruct (existsb _ _) eqn:E; [|done]. apply existsb_elem in E as (x & Hx & Ex).
    bool_prop. subst. by destruct (Hd (view_id e)); [apply list_elem_of_fmap_2|].
Qed.

Lemma record_removed_turns (b : Builder) ids : turns (record_removed_turn_ids b ids) = turns b.
Proof. unfold record_removed_turn_ids. by case_match. Qed.

Lemma record_removed_current (b : Builder) ids : current_turn (record_removed_turn_ids b ids) = current_turn b.
Proof. unfold record_removed_turn_ids. by case_match. Qed.

(** What a rollback keeps and what it removes. *)
Lemma rollback_split (ts : list Pending) n :
  let kept := if (length ts <=? n)%nat then [] else take (length ts - n) ts in
  let removed := if (length ts <=? n)%nat then map pt_id ts
                 else if (n =? 0)%nat then [] else map pt_id (drop (length ts - n) ts) in
  ts = kept ++ drop (length ts - n) ts /\ removed = map pt_id (drop (length ts - n) ts) /\ kept = take (length ts - n) ts.
Proof.
  simpl. destruct (Nat.leb_spec (length ts) n) as [H|H].
  - rewrite (proj2 (Nat.sub_0_le _ _)) by done. by rewrite drop_0, take_0.
  - rewrite take_drop. split_and!; [done| |done]. destruct (Nat.eqb_spec n 0) as [->|]; [|done].
    by rewrite Nat.sub_0_r, drop_all.
Qed.

Lemma rollback_sound b num_turns : sound b (handle_thread_rollback b num_turns).
Proof.
  apply sound_finish. unfold handle_thread_rollback. pose proof (finish_current_None b) as Hc.
  assert (finish_current_turn (finish_current_turn b) = finish_current_turn b) as Hf.
  { unfold finish_current_turn at 1. by rewrite Hc. }
  revert Hc Hf. generalize (finish_current_turn b) as c. intros c Hc Hf.
  destruct (rollback_split (turns c) (Z.to_nat num_turns)) as (Hts & Hrem & Hkept). cbn zeta.
  rewrite record_removed_turns, record_removed_current, Hrem, Hkept, Hc.
  set (k := (length (turns c) - Z.to_nat num_turns)%nat) in *.
  assert (all_turns c = turns c) as Hall. { unfold all_turns. by rewrite Hc, app_nil_r. }
  split.
  - intros Hb. split; [|done]. unfold all_turns. simpl. rewrite app_nil_r. apply Forall_take. rewrite <- Hall. apply Hb.
  - intros v0 Hb Hq (cs & Hcs & Hv & _) Hu _. unfold quiet in Hq. rewrite Hcs in Hq. simplify_eq/=. eexists. split.
    { simpl. unfold record_removed_turn_ids. by rewrite Hcs. }
    split; [|by constructor].
    unfold view, all_turns. simpl. unfold apply_changes in *. simpl in *. rewrite <- Hv. rewrite app_nil_r.
    unfold view in *. rewrite Hall in *. destruct Hu as [Hu _].
    assert (map turn_view (turns c) = map turn_view (take k (turns c)) ++ map turn_view (drop k (turns c))) as Hmt.
    { by rewrite <- map_app, take_drop. }
    rewrite Hmt in *. rewrite <- (remove_suffix _ _ Hu) at 1. f_equal. by rewrite map_map.
Qed.

(** *** The handlers *)

Definition ok_sound (b : Builder) (r : res () Builder) : Prop := exists b', r = Ok b' /\ sound b b'.

Lemma ok_sound_Ok b b' : sound b b' -> ok_sound b (Ok b').
Proof. intros H. by exists b'. Qed.

Lemma ok_sound_same b b1 r : builder_ok b -> same_state b b1 -> (builder_ok b1 -> ok_sound b1 r) -> ok_sound b r.
Proof.
  intros Hb Hs H. destruct H as (b' & -> & H'); [by eapply same_ok|]. exists b'. split; [done|]. by eapply sound_same.
Qed.

Lemma opened_sound b b1 t : opened b b1 t -> turn_kept t = true -> sound b b1.
Proof.
  intros Ho Hk. split.
  - intros Hb. split; [eapply opened_turns_ok; [exact Ho|apply Hb]|]. intros t'. rewrite (op_current _ _ _ Ho). naive_solver.
  - intros v0 Hb Hq Ht Hu Hu'. eapply opened_tracked; [done..|apply Hu'].
Qed.

Lemma turn_started_sound b payload : sound b (handle_turn_started b payload).
Proof.
  apply sound_finish. unfold handle_turn_started. destruct (new_turn _ _) as [t b0] eqn:E.
  apply new_turn_fresh in E as [Hs (n & Hn)]. eapply opened_sound; [eapply opened_same; [exact Hs|]|].
  - apply open_opened; [by rewrite (ss_current _ _ Hs), finish_current_None|by rewrite Hn..].
  - unfold turn_kept. simpl. by rewrite andb_false_r.
Qed.

Lemma compacted_sound b : sound b (handle_compacted b).
Proof.
  unfold handle_compacted. destruct (ensure_turn b) as [t b1] eqn:E.
  destruct (ensure_cases _ _ _ E) as [[Hc ->]|[_ Ho]].
  - eapply sound_then; [apply sound_refl| |done]. intros Hb.
    assert (replaces b (set_current b (with_compaction t)) t (with_compaction t)) as Hr by (by apply set_current_replaces).
    split.
    + eapply replaces_ok; [exact Hr|apply (current_turn_ok b t); [apply Hb|done]| |done]. simpl.
      intros c ?; simplify_eq. unfold turn_kept. simpl. by rewrite andb_false_r.
    + unfold view. destruct Hr as (n & Hn & ->). change (turn_view <$> <[n := with_compaction t]> (all_turns b) = turn_view <$> all_turns b).
      rewrite list_fmap_insert. apply list_insert_id. by rewrite list_lookup_fmap, Hn.
  - eapply opened_sound; [split|].
    + unfold all_turns. simpl. destruct Ho as [H1 H2 _ _ _]. unfold all_turns in H1. rewrite H2 in H1. simpl in H1.
      apply app_inj_2 in H1 as [-> _]; [done|done].
    + done.
    + apply Ho.
    + apply Ho.
    + intros Hq. simpl. by rewrite (op_changes _ _ _ Ho Hq).
    + unfold turn_kept. simpl. by rewrite andb_false_r.
Qed.

Lemma user_message_sound b payload : sound b (handle_user_message b payload).
Proof.
  unfold handle_user_message. simpl.
  assert (forall c, sound c (push_item_in_current_turn (set_next_item_index c (next_item_index c + 1))
    (UserMessage (lit "item-" ++ dec (next_item_index c)) (um_client_id payload) (build_user_inputs payload)))) as H.
  { intros c. eapply sound_same; [|apply push_sound]. done. }
  destruct (current_turn b); [|apply H]. case_match; [apply sound_finish|]; apply H.
Qed.

Lemma agent_message_sound b payload : sound b (handle_agent_message b payload).
Proof.
  unfold handle_agent_message. case_match; [apply sound_refl|]. simpl. eapply sound_same; [|apply push_sound]. done.
Qed.

Lemma agent_reasoning_sound b text : sound b (handle_agent_reasoning b text).
Proof.
  unfold handle_agent_reasoning. case_match; [apply sound_refl|].
  apply (reasoning_sound b _ (fun b1 => Reasoning (lit "item-" ++ dec (next_item_index b1)) [text] [])).
Qed.

Lemma agent_reasoning_raw_sound b text : sound b (handle_agent_reasoning_raw_content b text).
Proof.
  unfold handle_agent_reasoning_raw_content. case_match; [apply sound_refl|].
  apply (reasoning_sound b _ (fun b1 => Reasoning (lit "item-" ++ dec (next_item_index b1)) [] [text])).
Qed.

Lemma context_compacted_sound b : sound b (handle_context_compacted b).
Proof. unfold handle_context_compacted. simpl. eapply sound_same; [|apply push_sound]. done. Qed.

Lemma response_item_sound b i : sound b (handle_response_item b i).
Proof.
  unfold handle_response_item. destruct i; try apply sound_refl. case_match; [|apply sound_refl].
  case_match. case_match; [|apply sound_refl]. eapply sound_same; [|apply push_sound]. done.
Qed.

Lemma error_sound b payload : sound b (handle_error b payload).
Proof.
  unfold handle_error. case_match; [|apply sound_refl]. destruct (current_turn b) as [t|] eqn:E; [|apply sound_refl].
  by eapply (change_current_sound b t).
Qed.

Lemma turn_aborted_sound b payload : sound b (handle_turn_aborted b payload).
Proof.
  assert (sound b (abort_active b payload)) as Ha.
  { unfold abort_active. destruct (current_turn b) as [t|] eqn:E; [|apply sound_refl]. by eapply change_current_sound. }
  unfold handle_turn_aborted. destruct (ta_turn_id payload) as [id|]; [|done].
  destruct (current_with_id b id) as [t|] eqn:E.
  { apply current_with_id_Some in E as [E _]. by eapply change_current_sound. }
  destruct (find_turn id (turns b)) as [[n t]|] eqn:Ef; [|done]. apply find_turn_Some in Ef as [Hn _].
  by eapply change_finished_sound.
Qed.

Lemma apply_completion_same payload (t : Pending) : let t' := apply_completion payload t in
  pt_id t' = pt_id t /\ pt_items t' = pt_items t /\ pt_item_index t' = pt_item_index t /\ turn_kept t' = turn_kept t.
Proof. unfold apply_completion. by destruct (tc_error payload). Qed.

Lemma turn_complete_sound b payload : sound b (handle_turn_complete b payload).
Proof.
  assert (forall t, current_turn b = Some t -> sound b (finish_current_turn (change_current b (apply_completion payload t)))) as Ha.
  { intros t E. apply sound_then_finish. destruct (apply_completion_same payload t) as (?&?&?&?). by eapply change_current_sound. }
  unfold handle_turn_complete. destruct (current_with_id b _) as [t|] eqn:E.
  { apply current_with_id_Some in E as [E _]. by apply Ha. }
  destruct (find_turn _ (turns b)) as [[n t]|] eqn:Ef.
  - apply find_turn_Some in Ef as [Hn _]. destruct (apply_completion_same payload t) as (?&?&?&_).
    by eapply change_finished_sound.
  - destruct (current_turn b) as [t|] eqn:Ec; [by apply Ha|apply sound_refl].
Qed.

Lemma upsert_routed_sound b turn_id i : builder_ok b -> ok_sound b (upsert_item_routed b turn_id i).
Proof. intros Hb. unfold upsert_item_routed. case_match; [by apply upsert_current_sound|by apply upsert_id_sound]. Qed.

Lemma guardian_sound b payload : builder_ok b -> ok_sound b (handle_guardian_assessment b payload).
Proof.
  intros Hb. unfold handle_guardian_assessment. destruct (guardian_status _); [|apply ok_sound_Ok, sound_refl].
  destruct (build_item_from_guardian_event _ _); [by apply upsert_routed_sound|apply ok_sound_Ok, sound_refl].
Qed.

Lemma lifecycle_sound b turn_id i : builder_ok b -> ok_sound b (handle_materialized_item_lifecycle b turn_id i).
Proof.
  intros Hb. unfold handle_materialized_item_lifecycle. case_match; [|apply ok_sound_Ok, sound_refl].
  case_match; [by apply upsert_review_sound|by apply upsert_id_sound].
Qed.

Lemma id_or_next_same (b : Builder) id id' b1 : id_or_next b id = (id', b1) -> same_state b b1.
Proof. unfold id_or_next, next_item_id. case_match; intros ?; simplify_eq; done. Qed.

Lemma entered_review_sound b payload : builder_ok b -> ok_sound b (handle_entered_review_mode b payload).
Proof.
  intros Hb. unfold handle_entered_review_mode. destruct (id_or_next b _) as [id b1] eqn:E.
  eapply ok_sound_same; [done|by eapply id_or_next_same|]. intros H1. by apply upsert_review_sound.
Qed.

Lemma exited_review_sound b payload : builder_ok b -> ok_sound b (handle_exited_review_mode b payload).
Proof.
  intros Hb. unfold handle_exited_review_mode. destruct (id_or_next b _) as [id b1] eqn:E.
  eapply ok_sound_same; [done|by eapply id_or_next_same|]. intros H1. by apply upsert_review_sound.
Qed.

#[local] Hint Resolve ok_sound_Ok sound_refl user_message_sound agent_message_sound agent_reasoning_sound
  agent_reasoning_raw_sound context_compacted_sound response_item_sound error_sound turn_aborted_sound turn_started_sound
  turn_complete_sound rollback_sound compacted_sound upsert_routed_sound guardian_sound lifecycle_sound
  entered_review_sound exited_review_sound : thread.

Lemma handle_event_sound b e : builder_ok b -> ok_sound b (handle_event b e).
Proof.
  intros Hb. destruct e; simpl; auto with thread;
    first [by apply upsert_current_sound|by apply upsert_id_sound|by apply upsert_routed_sound].
Qed.

Lemma handle_rollout_item_sound b i : builder_ok b -> ok_sound b (handle_rollout_item b i).
Proof.
  intros Hb. unfold handle_rollout_item. eapply ok_sound_same; [done| |].
  - instantiate (1 := set_rollout_index b (next_rollout_index b) (next_rollout_index b + 1)). done.
  - intros H1. destruct i; [by apply handle_event_sound|auto with thread..].
Qed.

(** ** Collecting changes does not disturb the history *)

Definition untracked (b : Builder) : Builder := set_changes b None.

Lemma untracked_record_item b id i : untracked (record_changed_item b id i) = untracked b.
Proof. unfold record_changed_item. by case_match. Qed.

Lemma untracked_record_turn b c : untracked (record_changed_turn b c) = untracked b.
Proof. unfold record_changed_turn. by case_match. Qed.

Lemma untracked_record_pending b t : untracked (record_changed_pending_turn b t) = untracked b.
Proof. unfold record_changed_pending_turn. case_match; [apply untracked_record_turn|done]. Qed.

Lemma untracked_record_removed b ids : untracked (record_removed_turn_ids b ids) = untracked b.
Proof. unfold record_removed_turn_ids. by case_match. Qed.

Lemma untracked_set_turns b ts c : untracked (set_turns b ts c) = set_turns (untracked b) ts c.
Proof. done. Qed.

Lemma untracked_finish b : untracked (finish_current_turn b) = finish_current_turn (untracked b).
Proof. unfold finish_current_turn. simpl. by case_match. Qed.

Lemma untracked_new_turn b id : new_turn (untracked b) id = (fun p => (p.1, untracked p.2)) (new_turn b id).
Proof. unfold new_turn. simpl. destruct id; [done|]. by destruct (next_rollout_index b =? 0)%Z. Qed.

Lemma untracked_ensure b : ensure_turn (untracked b) = (fun p => (p.1, untracked p.2)) (ensure_turn b).
Proof.
  unfold ensure_turn. simpl. destruct (current_turn b); [done|]. rewrite untracked_new_turn.
  destruct (new_turn b None) as [t b0]. simpl. f_equal. unfold set_current. rewrite untracked_set_turns.
  by rewrite untracked_record_pending; unfold record_changed_pending_turn, record_changed_turn; repeat case_match.
Qed.

Lemma untracked_push b i : untracked (push_item_in_current_turn b i) = push_item_in_current_turn (untracked b) i.
Proof.
  unfold push_item_in_current_turn. rewrite untracked_ensure. destruct (ensure_turn b) as [t b1]. simpl.
  by rewrite untracked_record_item.
Qed.

Lemma untracked_upsert_current b i :
  untracked <$> upsert_item_in_current_turn b i = upsert_item_in_current_turn (untracked b) i.
Proof.
  unfold upsert_item_in_current_turn. rewrite untracked_ensure. destruct (ensure_turn b) as [t b1]. simpl.
  destruct (index_upsert _ _ _); simpl; [|done..]. f_equal. by rewrite untracked_record_item.
Qed.

Lemma untracked_upsert_id b turn_id i :
  untracked <$> upsert_item_in_turn_id b turn_id i = upsert_item_in_turn_id (untracked b) turn_id i.
Proof.
  unfold upsert_item_in_turn_id. change (current_with_id (untracked b) turn_id) with (current_with_id b turn_id).
  change (turns (untracked b)) with (turns b).
  destruct (current_with_id b turn_id) as [t|].
  - destruct (index_upsert _ _ _); simpl; [|done..]. f_equal. by rewrite untracked_record_item.
  - destruct (find_turn turn_id (turns b)) as [[n t]|]; [|done].
    destruct (index_upsert _ _ _); simpl; [|done..]. f_equal. by rewrite untracked_record_item.
Qed.

Lemma untracked_routed b turn_id i : untracked <$> upsert_item_routed b turn_id i = upsert_item_routed (untracked b) turn_id i.
Proof. unfold upsert_item_routed. case_match; [apply untracked_upsert_current|apply untracked_upsert_id]. Qed.

Lemma untracked_set_current b t : untracked (set_current b t) = set_current (untracked b) t.
Proof. done. Qed.

Lemma set_current_record b t t' : set_current (untracked (record_changed_pending_turn b t)) t' = set_current (untracked b) t'.
Proof. by rewrite untracked_record_pending. Qed.

Lemma untracked_review b turn_id i :
  untracked <$> upsert_review_mode_item b turn_id i = upsert_review_mode_item (untracked b) turn_id i.
Proof.
  unfold upsert_review_mode_item. destruct turn_id as [turn_id|]; [|apply untracked_upsert_current]. cbn zeta.
  change (current_with_id (untracked b) turn_id) with (current_with_id b turn_id).
  change (turns (untracked b)) with (turns b). destruct (negb _ && negb _); [|apply untracked_upsert_id].
  rewrite <- untracked_finish, untracked_new_turn. destruct (new_turn _ _) as [t b0]. simpl.
  rewrite untracked_upsert_id. f_equal. rewrite untracked_set_current. by rewrite untracked_record_pending.
Qed.

Lemma untracked_change_current b t : untracked (change_current b t) = change_current (untracked b) t.
Proof. unfold change_current. by rewrite untracked_record_turn. Qed.

Lemma untracked_change_finished b n t : untracked (change_finished b n t) = change_finished (untracked b) n t.
Proof. unfold change_finished. by rewrite untracked_record_turn. Qed.

Lemma untracked_extend b extend :
  extend_reasoning (untracked b) extend =
    match extend_reasoning b extend with inl b' => inl (untracked b') | inr b' => inr (untracked b') end.
Proof.
  unfold extend_reasoning. rewrite untracked_ensure. destruct (ensure_turn b) as [t b1]. simpl.
  destruct (last (pt_items t)) as [x|]; [|done]. destruct x; try done. case_match. by rewrite untracked_record_item.
Qed.

Lemma untracked_reasoning b extend i : (forall b1, i (untracked b1) = i b1) ->
  untracked match extend_reasoning b extend with
            | inl b' => b'
            | inr b1 => push_item_in_current_turn (set_next_item_index b1 (next_item_index b1 + 1)) (i b1)
            end =
  match extend_reasoning (untracked b) extend with
  | inl b' => b'
  | inr b1 => push_item_in_current_turn (set_next_item_index b1 (next_item_index b1 + 1)) (i b1)
  end.
Proof.
  intros Hi. rewrite untracked_extend. destruct (extend_reasoning b extend) as [b'|b1]; [done|].
  by rewrite untracked_push, Hi.
Qed.

Lemma untracked_rollback b n : untracked (handle_thread_rollback b n) = handle_thread_rollback (untracked b) n.
Proof.
  unfold handle_thread_rollback. rewrite <- untracked_finish. generalize (finish_current_turn b) as c. intros c. cbn zeta.
  rewrite !record_removed_turns, !record_removed_current. change (turns (untracked c)) with (turns c).
  change (current_turn (untracked c)) with (current_turn c).
  set (removed := if (length (turns c) <=? _)%nat then _ else _). set (ts := if (length (turns c) <=? _)%nat then [] else _).
  assert (forall k, untracked (set_next_item_index (set_turns k ts (current_turn c)) (Z.min (Z.of_nat (item_count ts) + 1) I64_MAX)) =
    set_next_item_index (set_turns (untracked k) ts (current_turn c)) (Z.min (Z.of_nat (item_count ts) + 1) I64_MAX)) as ->
    by done.
  by rewrite untracked_record_removed.
Qed.

Lemma untracked_user_message b payload : untracked (handle_user_message b payload) = handle_user_message (untracked b) payload.
Proof.
  unfold handle_user_message. change (current_turn (untracked b)) with (current_turn b). destruct (current_turn b).
  - destruct (negb _ && negb _); simpl; rewrite untracked_push, <- ?untracked_finish; done.
  - simpl. by rewrite untracked_push.
Qed.

Lemma untracked_abort_active b payload : untracked (abort_active b payload) = abort_active (untracked b) payload.
Proof. unfold abort_active. simpl. case_match; [apply untracked_change_current|done]. Qed.

Lemma untracked_turn_aborted b payload : untracked (handle_turn_aborted b payload) = handle_turn_aborted (untracked b) payload.
Proof.
  unfold handle_turn_aborted. destruct (ta_turn_id payload) as [id|]; [|apply untracked_abort_active].
  change (current_with_id (untracked b) id) with (current_with_id b id). change (turns (untracked b)) with (turns b).
  destruct (current_with_id b id); [apply untracked_change_current|].
  destruct (find_turn id (turns b)) as [[n t]|]; [apply untracked_change_finished|apply untracked_abort_active].
Qed.

Lemma untracked_turn_complete b payload : untracked (handle_turn_complete b payload) = handle_turn_complete (untracked b) payload.
Proof.
  unfold handle_turn_complete. change (current_with_id (untracked b) (tc_turn_id payload)) with (current_with_id b (tc_turn_id payload)).
  change (turns (untracked b)) with (turns b). change (current_turn (untracked b)) with (current_turn b).
  destruct (current_with_id b _); [by rewrite untracked_finish, untracked_change_current|].
  destruct (find_turn _ (turns b)) as [[n t]|]; [apply untracked_change_finished|].
  destruct (current_turn b); [by rewrite untracked_finish, untracked_change_current|done].
Qed.

Lemma untracked_turn_started b payload : untracked (handle_turn_started b payload) = handle_turn_started (untracked b) payload.
Proof.
  unfold handle_turn_started. rewrite <- untracked_finish, untracked_new_turn. destruct (new_turn _ _) as [t b0]. simpl.
  rewrite untracked_set_current. by rewrite untracked_record_pending.
Qed.

Lemma untracked_compacted b : untracked (handle_compacted b) = handle_compacted (untracked b).
Proof. unfold handle_compacted. rewrite untracked_ensure. by destruct (ensure_turn b). Qed.

Lemma untracked_error b payload : untracked (handle_error b payload) = handle_error (untracked b) payload.
Proof.
  unfold handle_error. case_match; [|done]. simpl. case_match; [|done]. by rewrite untracked_record_turn.
Qed.

Lemma untracked_response_item b i : untracked (handle_response_item b i) = handle_response_item (untracked b) i.
Proof.
  unfold handle_response_item. destruct i; try done. case_match; [|done]. simpl. case_match. case_match; [|done].
  by rewrite untracked_push.
Qed.

Lemma untracked_id_or_next b id : id_or_next (untracked b) id = (fun p => (p.1, untracked p.2)) (id_or_next b id).
Proof. by destruct id. Qed.

Lemma untracked_event b e : untracked <$> handle_event b e = handle_event (untracked b) e.
Proof.
  destruct e; simpl;
    try first [apply untracked_upsert_current|apply untracked_upsert_id|apply untracked_routed|done].
  - f_equal. apply untracked_user_message.
  - f_equal. unfold handle_agent_message. case_match; [done|]. apply untracked_push.
  - f_equal. unfold handle_agent_reasoning. case_match; [done|].
    by apply (untracked_reasoning b _ (fun b1 => Reasoning (lit "item-" ++ dec (next_item_index b1)) [text] [])).
  - f_equal. unfold handle_agent_reasoning_raw_content. case_match; [done|].
    by apply (untracked_reasoning b _ (fun b1 => Reasoning (lit "item-" ++ dec (next_item_index b1)) [] [text])).
  - unfold handle_guardian_assessment. case_match; [|done]. case_match; [apply untracked_routed|done].
  - f_equal. apply untracked_push.
  - unfold handle_entered_review_mode. rewrite untracked_id_or_next. destruct (id_or_next b _). apply untracked_review.
  - unfold handle_exited_review_mode. rewrite untracked_id_or_next. destruct (id_or_next b _). apply untracked_review.
  - unfold handle_materialized_item_lifecycle. case_match; [|done]. case_match; [apply untracked_review|apply untracked_upsert_id].
  - unfold handle_materialized_item_lifecycle. case_match; [|done]. case_match; [apply untracked_review|apply untracked_upsert_id].
  - f_equal. apply untracked_error.
  - f_equal. apply untracked_rollback.
  - f_equal. apply untracked_turn_aborted.
  - f_equal. apply untracked_turn_started.
  - f_equal. apply untracked_turn_complete.
Qed.

Lemma untracked_rollout_item b i : untracked <$> handle_rollout_item b i = handle_rollout_item (untracked b) i.
Proof.
  unfold handle_rollout_item. destruct i; simpl.
  - apply untracked_event.
  - f_equal. apply untracked_compacted.
  - f_equal. apply untracked_response_item.
  - done.
Qed.

Lemma untracked_id b : active_change_set b = None -> untracked b = b.
Proof. destruct b. simpl. by intros ->. Qed.

(** Between two calls no changes are being collected. *)
Lemma collect_changes_transparent b handle : active_change_set b = None ->
  (forall c, untracked <$> handle c = handle (untracked c)) ->
  snd <$> collect_changes b handle = handle b.
Proof.
  intros Hb H. unfold collect_changes.
  transitivity (untracked <$> handle (set_changes b (Some no_changes))).
  - by destruct (handle _).
  - rewrite H. f_equal. by rewrite <- (untracked_id b Hb) at 2.
Qed.

(** ** Reachable builders *)

(** The public operations, from a new builder. *)
Inductive reachable : Builder -> Prop :=
| reach_new : reachable builder_new
| reach_reset b : reachable b -> reachable (reset b)
| reach_event b e b' : reachable b -> handle_event b e = Ok b' -> reachable b'
| reach_item b i b' : reachable b -> handle_rollout_item b i = Ok b' -> reachable b'
| reach_event_changes b e cs b' : reachable b -> handle_event_with_changes b e = Ok (cs, b') -> reachable b'
| reach_item_changes b i cs b' : reachable b -> handle_rollout_item_with_changes b i = Ok (cs, b') -> reachable b'.

Lemma untracked_event_none (b b' : Builder) e : active_change_set b = None -> handle_event b e = Ok b' -> active_change_set b' = None.
Proof.
  intros Hb H. pose proof (untracked_event b e) as Hu. rewrite (untracked_id b Hb), H in Hu. simpl in Hu.
  by injection Hu as <-.
Qed.

Lemma untracked_item_none (b b' : Builder) i : active_change_set b = None -> handle_rollout_item b i = Ok b' ->
  active_change_set b' = None.
Proof.
  intros Hb H. pose proof (untracked_rollout_item b i) as Hu. rewrite (untracked_id b Hb), H in Hu. simpl in Hu.
  by injection Hu as <-.
Qed.

Lemma with_changes_inv b handle cs b' : active_change_set b = None ->
  (forall c, untracked <$> handle c = handle (untracked c)) -> collect_changes b handle = Ok (cs, b') -> handle b = Ok b'.
Proof. intros Hb Hh H. rewrite <- (collect_changes_transparent b handle Hb Hh), H. done. Qed.

Lemma reachable_ok b : reachable b -> builder_ok b /\ active_change_set b = None.
Proof.
  assert (forall (b b' : Builder) e, builder_ok b -> handle_event b e = Ok b' -> builder_ok b') as He.
  { intros b0 b' e Hb H. destruct (handle_event_sound b0 e Hb) as (b1 & H1 & Hs). rewrite H1 in H. simplify_eq. by apply Hs. }
  assert (forall (b b' : Builder) i, builder_ok b -> handle_rollout_item b i = Ok b' -> builder_ok b') as Hi.
  { intros b0 b' i Hb H. destruct (handle_rollout_item_sound b0 i Hb) as (b1 & H1 & Hs). rewrite H1 in H. simplify_eq. by apply Hs. }
  induction 1 as [|b _ _|b e b' _ [Hb Ha] H|b i b' _ [Hb Ha] H|b e cs b' _ [Hb Ha] H|b i cs b' _ [Hb Ha] H].
  - by split; [apply new_builder_ok|].
  - by split; [split; [constructor|]|].
  - eauto using untracked_event_none.
  - eauto using untracked_item_none.
  - unfold handle_event_with_changes in H. apply with_changes_inv in H; [|done|intros; apply untracked_event]. eauto using untracked_event_none.
  - unfold handle_rollout_item_with_changes in H. apply with_changes_inv in H; [|done|intros; apply untracked_rollout_item]. eauto using untracked_item_none.
Qed.

Lemma finish_turns b : builder_ok b -> finish b = map turn_of (all_turns b).
Proof.
  intros Hb. unfold finish. f_equal. pose proof (finish_all_turns b Hb) as Hf. unfold all_turns in Hf.
  rewrite finish_current_None in Hf. simpl in Hf. by rewrite app_nil_r in Hf.
Qed.

(** C34. In every reachable history, handling an item of a rollout does not panic, collecting
    the changes gives the same history as not collecting them, and no turn that was opened is
    dropped when it is finished. *)
Theorem history_total b i : reachable b ->
  exists cs b', handle_rollout_item_with_changes b i = Ok (cs, b') /\ handle_rollout_item b i = Ok b' /\
    finish b' = map turn_of (all_turns b').
Proof.
  intros [Hb Ha]%reachable_ok. destruct (handle_rollout_item_sound b i Hb) as (b' & E & Hs).
  pose proof (collect_changes_transparent b (fun c => handle_rollout_item c i) Ha (fun c => untracked_rollout_item c i)) as Ht.
  unfold handle_rollout_item_with_changes. destruct (collect_changes _ _) as [[cs b'']|e|]; simpl in Ht; rewrite E in Ht; simplify_eq.
  exists cs, b'. split_and!; [done..|]. by apply finish_turns, Hs.
Qed.

(** A use of the index of a turn: an item is pushed, or replaces one with its id. *)
Inductive index_use := Push (i : Item) | Upsert (i : Item).

Definition use_index (ii : option (gmap rstr nat) * list Item) (u : index_use) : res () (option (gmap rstr nat) * list Item) :=
  match u with Push i => Ok (index_push ii.1 ii.2 i) | Upsert i => index_upsert ii.1 ii.2 i end.

Definition use_linear (items : list Item) (u : index_use) : list Item :=
  match u with Push i => items ++ [i] | Upsert i => upsert_linear items i end.

(** The index of a turn is transparent: whatever items are pushed and replaced, and
    whenever the index is built, no access is out of range and the items are those of a linear
    search for the first item with the id. *)
Theorem item_index_transparent (uses : list index_use) :
  exists index, fold_res use_index (None, []) uses = Ok (index, foldl use_linear [] uses).
Proof.
  assert (forall index items, index_ok index items ->
    exists index', fold_res use_index (index, items) uses = Ok (index', foldl use_linear items uses)) as H; [|by apply H].
  induction uses as [|u uses IH]; intros index items Hi; simpl; [by eexists|]. destruct u as [i|i]; simpl.
  - apply IH. by apply index_push_ok.
  - destruct (index_upsert_linear index items i Hi) as (index' & -> & Hi'). simpl. by apply IH.
Qed.

End Props.
