(* ===== verification/ThreadChanges.v ===== *)
(** * Thread history: change sets

    The changes collected for one line of a rollout, and the coalesced changes of a batch of
    lines, take a client that keeps turns and items by id from the history before to the
    history after. *)
From S2P Require Import Prelude Width AbsPath History AgentResidency ThreadItems ThreadHistory ThreadHistoryProps.

Set Default Goal Selector "!".

(** ** The algebra of updates by key *)

Section Put.
Context {A : Type} (key : A -> rstr).

Definition has (k : rstr) (l : list A) : bool := existsb (fun x => key x =s k) l.

Definition put (k : rstr) (f : A -> A) (new : A) (l : list A) : list A := upsert_by (fun x => key x =s k) f new l.

Lemma put_present k f new l : has k l = true -> put k f new l = map (fun x => if key x =s k then f x else x) l.
Proof. unfold put, upsert_by, has. by intros ->. Qed.

Lemma put_absent k f new l : has k l = false -> put k f new l = l ++ [new].
Proof. unfold put, upsert_by, has. by intros ->. Qed.

Lemma has_false k l : has k l = false -> forall x, x ∈ l -> (key x =s k) = false.
Proof.
  intros H x Hx. destruct (key x =s k) eqn:E; [|done]. assert (has k l = true); [|congruence]. apply existsb_elem. eauto.
Qed.

Lemma has_elem k l : has k l = true <-> k ∈ map key l.
Proof.
  unfold has. rewrite existsb_elem, list_elem_of_fmap. split.
  - intros (x & Hx & E). bool_prop. eauto.
  - intros (x & -> & Hx). exists x. split; [done|by apply bool_decide_eq_true_2].
Qed.

Lemma map_key_update k f l : (forall x, key (f x) = k) -> map key (map (fun x => if key x =s k then f x else x) l) = map key l.
Proof.
  intros Hf. rewrite map_map. apply map_ext. intros x. destruct (key x =s k) eqn:E; [|done]. bool_prop. by rewrite Hf.
Qed.

Lemma has_update j k f l : (forall x, key (f x) = k) -> has j (map (fun x => if key x =s k then f x else x) l) = has j l.
Proof. intros Hf. apply eq_true_iff_eq. by rewrite !has_elem, map_key_update. Qed.

Lemma put_has k f new l : (forall x, key (f x) = k) -> key new = k -> has k (put k f new l) = true.
Proof.
  intros Hf Hn. destruct (has k l) eqn:E; [by rewrite put_present, has_update|]. rewrite put_absent by done.
  apply has_elem. rewrite map_app, elem_of_app. right. simpl. rewrite Hn. by apply list_elem_of_singleton.
Qed.

Lemma has_put j k f new l : (forall x, key (f x) = k) -> key new = k -> j <> k -> has j (put k f new l) = has j l.
Proof.
  intros Hf Hn Hjk. destruct (has k l) eqn:E; [by rewrite put_present, has_update|]. rewrite put_absent by done.
  unfold has. rewrite existsb_app. simpl. unfold streq at 2. rewrite bool_decide_eq_false_2 by congruence. by rewrite !orb_false_r.
Qed.

(** The last update of a key wins. *)
Lemma put_twice k f g new new' l : (forall x, key (g x) = k) -> key new' = k -> (forall x, f (g x) = f x) -> f new' = new ->
  put k f new (put k g new' l) = put k f new l.
Proof.
  intros Hg Hn Hfg Hf. rewrite (put_present k f) by (by apply put_has). destruct (has k l) eqn:E.
  - rewrite !put_present by done. rewrite map_map. apply map_ext. intros x. destruct (key x =s k) eqn:Ex; [|by rewrite Ex].
    unfold streq. by rewrite Hg, bool_decide_eq_true_2.
  - rewrite !put_absent by done. rewrite map_app. simpl. unfold streq at 2. rewrite Hn, bool_decide_eq_true_2, Hf by done.
    f_equal. apply map_id_in. intros x Hx. by rewrite (has_false k l).
Qed.

(** An update of a key that is there commutes with updates of others. *)
Lemma put_comm k j f g new new' l : (forall x, key (f x) = k) -> (forall x, key (g x) = j) -> key new' = j -> k <> j ->
  has k l = true -> put k f new (put j g new' l) = put j g new' (put k f new l).
Proof.
  intros Hf Hg Hn' Hkj Hk.
  assert (has k (put j g new' l) = true) as Hk'. { rewrite has_put by (done || congruence). done. }
  rewrite (put_present k f) by done. rewrite (put_present k f new l) by done.
  destruct (has j l) eqn:Ej.
  - rewrite !put_present by (by rewrite ?has_update). rewrite !map_map. apply map_ext. intros x.
    destruct (key x =s k) eqn:Exk, (key x =s j) eqn:Exj; rewrite ?Exk, ?Exj; [bool_prop; congruence|..|done].
    + unfold streq. rewrite Hf. by rewrite bool_decide_eq_false_2.
    + unfold streq. rewrite Hg. by rewrite bool_decide_eq_false_2 by congruence.
  - rewrite !put_absent by (by rewrite ?has_update). rewrite map_app. simpl. unfold streq at 2. rewrite Hn'.
    by rewrite bool_decide_eq_false_2.
Qed.

End Put.

(** ** Slots with an index *)

Section Slots.
Context {X K : Type} `{Countable K} (key : X -> K).

(** The index has the position of each value that is there, under its key. *)
Definition slots_ok (slots : list (option X)) (indexes : gmap K nat) : Prop :=
  forall k n, indexes !! k = Some n <-> exists c, slots !! n = Some (Some c) /\ key c = k.

Lemma slots_ok_nil : slots_ok [] ∅.
Proof. intros k n. rewrite lookup_empty. split; [done|]. by intros (c & ? & _). Qed.

Lemma vec_set_Ok {A} n (x y : A) v : v !! n = Some y -> vec_set n x v = Ok (<[n := x]> v).
Proof. intros Hn. unfold vec_set. by rewrite (proj2 (Nat.ltb_lt _ _)) by (by eapply lookup_lt_Some). Qed.

Lemma omap_split (slots : list (option X)) n o : slots !! n = Some o ->
  exists l1 l2, omap id slots = l1 ++ option_list o ++ l2 /\
    (forall o', omap id (<[n := o']> slots) = l1 ++ option_list o' ++ l2) /\
    (forall x, x ∈ l1 ++ l2 -> exists m, m <> n /\ slots !! m = Some (Some x)).
Proof.
  intros Hn. exists (omap id (take n slots)), (omap id (drop (S n) slots)). split_and!.
  - rewrite <- (take_drop_middle slots n o Hn) at 1. rewrite omap_app. simpl. by destruct o.
  - intros o'. rewrite insert_take_drop by (by eapply lookup_lt_Some). rewrite omap_app. simpl. by destruct o'.
  - intros x. rewrite elem_of_app, !list_elem_of_omap. intros [(y & Hy & Ex)|(y & Hy & Ex)]; unfold id in Ex; subst.
    + apply list_elem_of_lookup in Hy as (m & Hm). apply lookup_take_Some in Hm as [Hm Hlt]. exists m. split; [lia|done].
    + apply list_elem_of_lookup in Hy as (m & Hm). rewrite lookup_drop in Hm. exists (S n + m)%nat. split; [lia|done].
Qed.

Lemma slots_other slots indexes n c : slots_ok slots indexes -> slots !! n = Some (Some c) ->
  forall m x, m <> n -> slots !! m = Some (Some x) -> key x <> key c.
Proof.
  intros Hok Hn m x Hm Hx Hk. assert (indexes !! key c = Some n) as H1 by (apply Hok; eauto).
  assert (indexes !! key c = Some m) as H2 by (apply Hok; eauto). congruence.
Qed.

Lemma slots_set slots indexes n c : slots_ok slots indexes -> indexes !! key c = Some n ->
  vec_set n (Some c) slots = Ok (<[n := Some c]> slots) /\ slots_ok (<[n := Some c]> slots) indexes /\
  exists l1 c0 l2, omap id slots = l1 ++ c0 :: l2 /\ omap id (<[n := Some c]> slots) = l1 ++ c :: l2 /\
    key c0 = key c /\ Forall (fun x => key x <> key c) l2.
Proof.
  intros Hok Hc. destruct (proj1 (Hok _ _) Hc) as (c0 & Hn & Hk). split_and!; [by eapply vec_set_Ok|..].
  - intros k m. rewrite (Hok k m). destruct (decide (m = n)) as [->|Hm].
    + rewrite list_lookup_insert_eq by (by eapply lookup_lt_Some). rewrite Hn. naive_solver.
    + by rewrite list_lookup_insert_ne.
  - destruct (omap_split slots n (Some c0) Hn) as (l1 & l2 & E & E' & Hx). exists l1, c0, l2.
    split_and!; [done|apply E'|done|]. rewrite Forall_forall. intros x Hx2. rewrite <- Hk.
    destruct (Hx x) as (m & Hm & Hsm); [set_solver|]. by eapply slots_other.
Qed.

Lemma slots_new slots indexes c : slots_ok slots indexes -> indexes !! key c = None ->
  slots_ok (slots ++ [Some c]) (<[key c := length slots]> indexes) /\ omap id (slots ++ [Some c]) = omap id slots ++ [c].
Proof.
  intros Hok Hc. split; [|by rewrite omap_app]. intros k n. destruct (decide (k = key c)) as [->|Hk].
  - rewrite lookup_insert_eq. split.
    + intros ?; simplify_eq. exists c. by rewrite lookup_app_r, Nat.sub_diag by lia.
    + intros (x & Hx & Hkx). apply lookup_app_Some in Hx as [Hx|[Hle Hx]].
      * assert (indexes !! key c = Some n) by (apply Hok; eauto). congruence.
      * apply list_lookup_singleton_Some in Hx as [Hx _]. f_equal. lia.
  - rewrite lookup_insert_ne by done. rewrite (Hok k n). split; intros (x & Hx & Hkx); exists x; (split; [|done]).
    + by apply lookup_app_l_Some.
    + apply lookup_app_Some in Hx as [Hx|[Hle Hx]]; [done|]. apply list_lookup_singleton_Some in Hx as [_ ?]. simplify_eq.
Qed.

Lemma slots_drop slots indexes k n : slots_ok slots indexes -> indexes !! k = Some n ->
  vec_set n None slots = Ok (<[n := None]> slots) /\ slots_ok (<[n := None]> slots) (delete k indexes) /\
  omap id (<[n := None]> slots) = List.filter (fun x => negb (bool_decide (key x = k))) (omap id slots).
Proof.
  intros Hok Hc. destruct (proj1 (Hok _ _) Hc) as (c0 & Hn & <-). split_and!; [by eapply vec_set_Ok|..].
  - intros k m. destruct (decide (k = key c0)) as [->|Hk].
    + rewrite lookup_delete_eq. split; [done|]. intros (x & Hx & Hkx). destruct (decide (m = n)) as [->|Hm].
      * by rewrite list_lookup_insert_eq in Hx by (by eapply lookup_lt_Some).
      * rewrite list_lookup_insert_ne in Hx by done. by destruct (slots_other _ _ _ _ Hok Hn m x Hm Hx).
    + rewrite lookup_delete_ne by done. rewrite (Hok k m). destruct (decide (m = n)) as [->|Hm].
      * rewrite list_lookup_insert_eq by (by eapply lookup_lt_Some). rewrite Hn. naive_solver.
      * by rewrite list_lookup_insert_ne.
  - destruct (omap_split slots n (Some c0) Hn) as (l1 & l2 & E & E' & Hx). rewrite E, E'. simpl. rewrite List.filter_app. simpl.
    rewrite bool_decide_eq_true_2 by done. simpl. rewrite !filter_all; [done|..]; intros x Hx';
      rewrite bool_decide_eq_false_2; try done; destruct (Hx x) as (m & Hm & Hsm); [set_solver| |set_solver|];
      by eapply slots_other.
Qed.

Lemma slots_absent slots indexes k : slots_ok slots indexes -> indexes !! k = None ->
  List.filter (fun x => negb (bool_decide (key x = k))) (omap id slots) = omap id slots.
Proof.
  intros Hok Hc. apply filter_all. intros x Hx. rewrite negb_true_iff. apply bool_decide_eq_false_2. intros <-.
  apply list_elem_of_omap in Hx as (o & Ho & E). unfold id in E. subst. apply list_elem_of_lookup in Ho as (n & Hn).
  assert (indexes !! key x = Some n) by (apply Hok; eauto). congruence.
Qed.

End Slots.

Section Changes.
Context {Opaque Url : Type} {Env : ThreadEnv Opaque Url}.
Local Abbreviation Item := (@ThreadItem Opaque).
Local Abbreviation Builder := (@ThreadHistoryBuilder Opaque).
Local Abbreviation Changes := (@ThreadHistoryChangeSet Opaque).
Local Abbreviation ItemChange := (@ThreadHistoryItemChange Opaque).
Local Abbreviation TurnChange := (@ThreadHistoryTurnChange Opaque).
Local Abbreviation View := (list (TurnChange * list Item)).
Local Abbreviation Acc := (@ThreadHistoryChangeAccumulator Opaque).

(** Decides the tests of ids. *)
Local Ltac id_cases := unfold view_id, streq in *; simpl in *; repeat (case_bool_decide; simpl in *); try congruence.

(** ** The algebra of a client *)

Lemma client_items_put (items : list Item) i : client_items items i = put item_id (item_id i) (fun _ => i) i items.
Proof. done. Qed.

Lemma client_turn_put (v : View) (c : TurnChange) : client_turn v c = put view_id (tch_turn_id c) (fun e => (c, e.2)) (c, []) v.
Proof. done. Qed.

(** The client has the item of a change, in every turn with its id. *)
Definition holds (c : ItemChange) (v : View) : Prop :=
  forall e, e ∈ v -> view_id e = ic_turn_id c -> has item_id (item_id (ic_item c)) e.2 = true.

Lemma client_item_ids v (c : ItemChange) : map view_id (client_item v c) = map view_id v.
Proof. unfold client_item. rewrite map_map. apply map_ext. intros e. by destruct (view_id e =s ic_turn_id c). Qed.

Lemma client_items_ids v (l : list ItemChange) : map view_id (foldl client_item v l) = map view_id v.
Proof. revert v. induction l as [|c l IH]; intros v; simpl; [done|]. by rewrite IH, client_item_ids. Qed.

Lemma elem_client_item v (x : ItemChange) e : e ∈ client_item v x -> exists e0, e0 ∈ v /\ view_id e0 = view_id e /\
  e.2 = (if view_id e =s ic_turn_id x then client_items e0.2 (ic_item x) else e0.2).
Proof.
  unfold client_item. intros (e0 & -> & He)%list_elem_of_fmap. exists e0. split; [done|].
  destruct (view_id e0 =s ic_turn_id x) eqn:E.
  - split; [done|]. unfold view_id in *. simpl. by rewrite E.
  - by rewrite E.
Qed.

Lemma key_eq (c d : ItemChange) : item_change_key c = item_change_key d <->
  ic_turn_id c = ic_turn_id d /\ item_id (ic_item c) = item_id (ic_item d).
Proof. unfold item_change_key. split; [by intros [= -> ->]|by intros [-> ->]]. Qed.

Lemma holds_after v (c c0 : ItemChange) : item_change_key c0 = item_change_key c -> holds c (client_item v c0).
Proof.
  rewrite key_eq. intros [Ht Hi] e (e0 & _ & Hid & E)%elem_client_item He. rewrite E, He, Ht. unfold streq at 1.
  rewrite bool_decide_eq_true_2 by done. rewrite client_items_put, <- Hi. by apply put_has.
Qed.

Lemma holds_other v (c x : ItemChange) : item_change_key x <> item_change_key c -> holds c v -> holds c (client_item v x).
Proof.
  rewrite key_eq. intros Hk Hv e (e0 & He0 & Hid & E)%elem_client_item He. rewrite E.
  assert (has item_id (item_id (ic_item c)) e0.2 = true) as H0 by (apply Hv; congruence).
  destruct (view_id e =s ic_turn_id x) eqn:Ex; [|done]. bool_prop.
  rewrite client_items_put, has_put; [done..|]. intros Hi. apply Hk. split; congruence.
Qed.

Lemma client_item_twice v (c c0 : ItemChange) : item_change_key c0 = item_change_key c ->
  client_item (client_item v c0) c = client_item v c.
Proof.
  rewrite key_eq. intros [Ht Hi]. unfold client_item. rewrite map_map. apply map_ext. intros e. rewrite Ht.
  destruct (view_id e =s ic_turn_id c) eqn:E; [|by rewrite E]. unfold view_id in *. simpl. rewrite E. f_equal.
  rewrite !client_items_put. rewrite <- Hi. by apply put_twice.
Qed.

Lemma client_item_comm v (c x : ItemChange) : item_change_key x <> item_change_key c -> holds c v ->
  client_item (client_item v x) c = client_item (client_item v c) x.
Proof.
  rewrite key_eq. intros Hk Hv. unfold client_item. rewrite !map_map. apply map_ext_in. intros e He%list_elem_of_In.
  destruct (view_id e =s ic_turn_id x) eqn:Ex, (view_id e =s ic_turn_id c) eqn:Ec; unfold view_id in *; simpl;
    rewrite ?Ex, ?Ec; [|done..]. f_equal. bool_prop. rewrite !client_items_put. apply put_comm; [done..| |].
  - intros Hi. apply Hk. split; congruence.
  - by apply Hv.
Qed.

Lemma client_items_comm (l : list ItemChange) : forall v (c : ItemChange), Forall (fun x => item_change_key x <> item_change_key c) l ->
  holds c v -> client_item (foldl client_item v l) c = foldl client_item (client_item v c) l.
Proof.
  induction l as [|x l IH]; intros v c Hl Hv; simpl; [done|]. apply Forall_cons in Hl as [Hx Hl].
  rewrite IH by auto using holds_other. by rewrite client_item_comm.
Qed.

(** Replacing a change by a later one of the same item is applying the later one last. *)
Lemma client_items_replace v (l1 l2 : list ItemChange) c0 c : item_change_key c0 = item_change_key c ->
  Forall (fun x => item_change_key x <> item_change_key c) l2 ->
  foldl client_item v (l1 ++ c :: l2) = client_item (foldl client_item v (l1 ++ c0 :: l2)) c.
Proof.
  intros Hk Hl. rewrite !foldl_app. simpl. rewrite (client_items_comm l2); [|done|by apply holds_after].
  by rewrite client_item_twice.
Qed.

Lemma client_turns_comm (l : list TurnChange) : forall (v : View) (c : TurnChange), Forall (fun x => tch_turn_id x <> tch_turn_id c) l ->
  has view_id (tch_turn_id c) v = true -> client_turn (foldl client_turn v l) c = foldl client_turn (client_turn v c) l.
Proof.
  induction l as [|x l IH]; intros v c Hl Hv; simpl; [done|]. apply Forall_cons in Hl as [Hx Hl]. rewrite IH; [|done|].
  - f_equal. rewrite !client_turn_put. by apply put_comm.
  - rewrite client_turn_put, has_put by (done || congruence). done.
Qed.

Lemma client_turns_replace v (l1 l2 : list TurnChange) c0 c : tch_turn_id c0 = tch_turn_id c ->
  Forall (fun x => tch_turn_id x <> tch_turn_id c) l2 ->
  foldl client_turn v (l1 ++ c :: l2) = client_turn (foldl client_turn v (l1 ++ c0 :: l2)) c.
Proof.
  intros Hk Hl. rewrite !foldl_app. simpl. rewrite (client_turns_comm l2); [|done|].
  - f_equal. rewrite !client_turn_put, Hk. symmetry. by apply put_twice.
  - rewrite client_turn_put, Hk. by apply put_has.
Qed.

(** A change of a turn commutes with changes of items, unless it would create their turn. *)
Lemma client_turn_item v (t : TurnChange) (c : ItemChange) : has view_id (tch_turn_id t) v = true \/ ic_turn_id c <> tch_turn_id t ->
  client_turn (client_item v c) t = client_item (client_turn v t) c.
Proof.
  intros H. rewrite !client_turn_put.
  assert (has view_id (tch_turn_id t) (client_item v c) = has view_id (tch_turn_id t) v) as Hh.
  { apply eq_true_iff_eq. by rewrite !has_elem, client_item_ids. }
  destruct (has view_id (tch_turn_id t) v) eqn:E.
  - rewrite !put_present by congruence. unfold client_item. rewrite !map_map. apply map_ext. intros e.
    id_cases.
  - destruct H as [|H]; [done|]. rewrite !put_absent by congruence. unfold client_item. rewrite map_app. simpl.
    f_equal. id_cases.
Qed.

Lemma client_turn_items (l : list ItemChange) : forall v (t : TurnChange),
  has view_id (tch_turn_id t) v = true \/ Forall (fun c => ic_turn_id c <> tch_turn_id t) l ->
  client_turn (foldl client_item v l) t = foldl client_item (client_turn v t) l.
Proof.
  induction l as [|c l IH]; intros v t H; simpl; [done|]. rewrite IH.
  - f_equal. apply client_turn_item. destruct H as [|H]; [by left|right]. by apply Forall_cons in H as [? _].
  - destruct H as [H|H]; [left|right; by apply Forall_cons in H as [_ ?]].
    rewrite has_elem in *. by rewrite client_item_ids.
Qed.

(** *** Removal *)

Lemma client_remove_item v (c : ItemChange) id : client_remove (client_item v c) id = client_item (client_remove v id) c.
Proof.
  unfold client_remove, client_item. induction v as [|e v IH]; simpl; [done|].
  assert (view_id (if view_id e =s ic_turn_id c then (e.1, client_items e.2 (ic_item c)) else e) = view_id e) as ->.
  { by destruct (view_id e =s ic_turn_id c). }
  destruct (view_id e =s id); simpl; [done|]. by rewrite IH.
Qed.

Lemma client_item_removed v (c : ItemChange) id : ic_turn_id c = id -> client_item (client_remove v id) c = client_remove v id.
Proof.
  intros <-. unfold client_item. apply map_id_in. intros e He. apply list_elem_of_In, filter_In in He as [_ He].
  bool_prop. unfold streq. by rewrite bool_decide_eq_false_2.
Qed.

Lemma has_removed (v : View) id id' : has view_id id (client_remove v id') = negb (id =s id') && has view_id id v.
Proof.
  apply eq_true_iff_eq. rewrite andb_true_iff, negb_true_iff, !has_elem, !list_elem_of_fmap. unfold client_remove. split.
  - intros (e & -> & He). apply list_elem_of_In, filter_In in He as [He%list_elem_of_In Hn]. apply negb_true_iff in Hn. eauto.
  - intros [Hn (e & -> & He)]. exists e. split; [done|]. apply list_elem_of_In, filter_In.
    split; [by apply list_elem_of_In|by rewrite Hn].
Qed.

Lemma client_remove_turn (v : View) (t : TurnChange) id : client_remove (client_turn v t) id =
  if tch_turn_id t =s id then client_remove v id else client_turn (client_remove v id) t.
Proof.
  rewrite !client_turn_put. destruct (has view_id (tch_turn_id t) v) eqn:E.
  - rewrite put_present by done. destruct (tch_turn_id t =s id) eqn:Et.
    + bool_prop. subst. unfold client_remove. clear E. induction v as [|e v IH]; simpl; [done|]. rewrite IH. id_cases.
    + rewrite put_present by (by rewrite has_removed, E, Et). unfold client_remove. clear E.
      induction v as [|e v IH]; simpl; [done|]. rewrite IH. id_cases.
  - rewrite put_absent by done. unfold client_remove at 1. rewrite List.filter_app. simpl. unfold view_id at 2. simpl.
    destruct (tch_turn_id t =s id) eqn:Et; simpl; [by rewrite app_nil_r|].
    by rewrite put_absent by (by rewrite has_removed, E, andb_false_r).
Qed.

(** ** The accumulator *)

Record acc_ok (a : Acc) : Prop := {
  ao_items : slots_ok item_change_key (acc_changed_items a) (acc_changed_item_indexes a);
  ao_turns : slots_ok tch_turn_id (acc_changed_turns a) (acc_changed_turn_indexes a);
  ao_removed : forall id, is_Some (acc_removed_turn_indexes a !! id) <-> id ∈ acc_removed_turn_ids a;
}.

(** The client after the removals and the turns of the accumulated changes, and after all of them. *)
Definition acc_turns_view (a : Acc) (v0 : View) : View :=
  foldl client_turn (foldl client_remove v0 (acc_removed_turn_ids a)) (omap id (acc_changed_turns a)).

Definition acc_view (a : Acc) (v0 : View) : View := foldl client_item (acc_turns_view a v0) (omap id (acc_changed_items a)).

Lemma acc_view_apply a v0 : acc_view a v0 = apply_changes (acc_finish a) v0.
Proof. done. Qed.

Definition acc_targets (a : Acc) (v0 : View) : Prop :=
  Forall (fun c => ic_turn_id c ∈ map view_id (acc_turns_view a v0)) (omap id (acc_changed_items a)).

(** What a push does to the client of the accumulated changes. *)
Record acc_step (v0 : View) (a a' : Acc) (f : View -> View) (g : View -> View) : Prop := {
  as_ok : acc_ok a';
  as_targets : acc_targets a' v0;
  as_turns : acc_turns_view a' v0 = f (acc_turns_view a v0);
  as_view : acc_view a' v0 = g (acc_view a v0);
}.

Lemma elem_of_replace (P : ItemChange -> Prop) l1 c0 c l2 : Forall P (l1 ++ c0 :: l2) -> P c -> Forall P (l1 ++ c :: l2).
Proof. rewrite !Forall_app, !Forall_cons. naive_solver. Qed.

Lemma push_item_change_ok v0 a (c : ItemChange) : acc_ok a -> acc_targets a v0 ->
  ic_turn_id c ∈ map view_id (acc_turns_view a v0) ->
  exists a', push_item_change a c = Ok a' /\ acc_step v0 a a' id (fun v => client_item v c).
Proof.
  intros [Hi Ht Hr] Htg Hc. unfold push_item_change. destruct (acc_changed_item_indexes a !! item_change_key c) as [n|] eqn:E.
  - destruct (slots_set _ _ _ _ _ Hi E) as (-> & Hi' & l1 & c0 & l2 & E1 & E2 & Hk & Hl). simpl. eexists. split; [done|].
    split; [by split| |done|].
    + unfold acc_targets in *. simpl. rewrite E2. rewrite E1 in Htg. by eapply elem_of_replace.
    + unfold acc_view. simpl. rewrite E1, E2. by apply client_items_replace.
  - destruct (slots_new _ _ _ c Hi E) as [Hi' E1]. eexists. split; [done|]. split; [by split| |done|].
    + unfold acc_targets in *. simpl. rewrite E1. apply Forall_app. split; [done|]. by constructor.
    + unfold acc_view. simpl. by rewrite E1, foldl_app.
Qed.

Lemma client_turn_ids (v : View) (t : TurnChange) id : id ∈ map view_id (client_turn v t) <-> id ∈ map view_id v \/ id = tch_turn_id t.
Proof.
  rewrite client_turn_put. rewrite <- !has_elem. destruct (decide (id = tch_turn_id t)) as [->|Hne].
  - rewrite put_has by done. naive_solver.
  - rewrite has_put by done. naive_solver.
Qed.

Lemma client_turns_has (l : list TurnChange) : forall (v : View) id, id ∈ map tch_turn_id l \/ id ∈ map view_id v ->
  id ∈ map view_id (foldl client_turn v l).
Proof.
  induction l as [|t l IH]; intros v id; simpl; [set_solver|]. intros H. apply IH.
  rewrite client_turn_ids. rewrite elem_of_cons in H. naive_solver.
Qed.

Lemma push_turn_change_ok v0 a (t : TurnChange) : acc_ok a -> acc_targets a v0 ->
  exists a', push_turn_change a t = Ok a' /\ acc_step v0 a a' (fun v => client_turn v t) (fun v => client_turn v t).
Proof.
  intros [Hi Ht Hr] Htg. unfold push_turn_change.
  assert (forall a', acc_ok a' -> acc_changed_items a' = acc_changed_items a ->
    acc_turns_view a' v0 = client_turn (acc_turns_view a v0) t ->
    acc_step v0 a a' (fun v => client_turn v t) (fun v => client_turn v t)) as Hstep.
  { intros a' Hok Hci Htv. split; [done|..|done|].
    - unfold acc_targets in *. rewrite Hci, Htv. eapply Forall_impl; [exact Htg|]. intros c Hc. apply client_turn_ids. by left.
    - unfold acc_view. rewrite Hci, Htv. symmetry. apply client_turn_items.
      destruct (has view_id (tch_turn_id t) (acc_turns_view a v0)) eqn:Eh; [by left|right].
      eapply Forall_impl; [exact Htg|]. intros c Hc Heq. cbv beta in Hc. rewrite Heq, <- has_elem, Eh in Hc. done. }
  destruct (acc_changed_turn_indexes a !! tch_turn_id t) as [n|] eqn:E.
  - destruct (slots_set _ _ _ _ _ Ht E) as (-> & Ht' & l1 & c0 & l2 & E1 & E2 & Hk & Hl). simpl. eexists. split; [done|].
    apply Hstep; [by split|done|]. unfold acc_turns_view. simpl. rewrite E1, E2. by apply client_turns_replace.
  - destruct (slots_new _ _ _ t Ht E) as [Ht' E1]. eexists. split; [done|].
    apply Hstep; [by split|done|]. unfold acc_turns_view. simpl. by rewrite E1, foldl_app.
Qed.

(** *** Removal of a turn *)

Lemma drop_turn_key_ok a id : acc_ok a -> exists a', drop_turn_key a id = Ok a' /\ acc_ok a' /\
  acc_changed_items a' = acc_changed_items a /\ acc_changed_item_indexes a' = acc_changed_item_indexes a /\
  acc_removed_turn_ids a' = acc_removed_turn_ids a /\
  omap Datatypes.id (acc_changed_turns a') =
    List.filter (fun t => negb (bool_decide (tch_turn_id t = id))) (omap Datatypes.id (acc_changed_turns a)).
Proof.
  intros [Hi Ht Hr]. unfold drop_turn_key. destruct (acc_changed_turn_indexes a !! id) as [n|] eqn:E.
  - destruct (slots_drop _ _ _ _ _ Ht E) as (-> & Ht' & E1). simpl. eexists. split_and!; [done|by split|done..].
  - eexists. split_and!; [done|by split|done..|]. symmetry. by eapply slots_absent.
Qed.

Lemma filter_filter {A} (f g : A -> bool) l : List.filter f (List.filter g l) = List.filter (fun x => g x && f x) l.
Proof. induction l as [|x l IH]; simpl; [done|]. destruct (g x); simpl; [destruct (f x)|]; by rewrite IH. Qed.

Lemma drop_item_keys_ok keys : forall a, acc_ok a -> exists a', fold_res drop_item_key a keys = Ok a' /\ acc_ok a' /\
  acc_changed_turns a' = acc_changed_turns a /\ acc_removed_turn_ids a' = acc_removed_turn_ids a /\
  omap Datatypes.id (acc_changed_items a') =
    List.filter (fun c => negb (bool_decide (item_change_key c ∈ keys))) (omap Datatypes.id (acc_changed_items a)).
Proof.
  induction keys as [|k keys IH]; intros a Ha; simpl.
  - exists a. split_and!; [done..|]. symmetry. by apply filter_all.
  - assert (exists a1, drop_item_key a k = Ok a1 /\ acc_ok a1 /\ acc_changed_turns a1 = acc_changed_turns a /\
      acc_removed_turn_ids a1 = acc_removed_turn_ids a /\
      omap Datatypes.id (acc_changed_items a1) =
        List.filter (fun c => negb (bool_decide (item_change_key c = k))) (omap Datatypes.id (acc_changed_items a)))
      as (a1 & -> & H1 & H2 & H3 & H4).
    { destruct Ha as [Hi Ht Hr]. unfold drop_item_key. destruct (acc_changed_item_indexes a !! k) as [n|] eqn:E.
      - destruct (slots_drop _ _ _ _ _ Hi E) as (-> & Hi' & E1). simpl. eexists. split_and!; [done|by split|done..].
      - eexists. split_and!; [done|by split|done..|]. symmetry. by eapply slots_absent. }
    simpl. destruct (IH a1 H1) as (a' & E & H1' & H2' & H3' & H4'). exists a'. split_and!; [done..|congruence|congruence|].
    rewrite H4', H4, filter_filter. apply filter_ext. intros c. rewrite <- negb_orb. f_equal.
    apply eq_true_iff_eq. rewrite orb_true_iff, !bool_decide_eq_true, elem_of_cons. done.
Qed.

Lemma removed_keys (a : Acc) id key : acc_ok a ->
  key ∈ List.filter (fun k => k.1 =s id) (map_to_list (acc_changed_item_indexes a)).*1 <->
  key.1 = id /\ exists c, c ∈ omap Datatypes.id (acc_changed_items a) /\ item_change_key c = key.
Proof.
  intros [Hi _ _]. rewrite list_elem_of_In, filter_In, <- list_elem_of_In, list_elem_of_fmap. split.
  - intros [([k n] & -> & Hk) E]. bool_prop. apply elem_of_map_to_list in Hk. apply Hi in Hk as (c & Hc & <-).
    split; [done|]. exists c. split; [|done]. apply list_elem_of_omap. exists (Some c). split; [by eapply list_elem_of_lookup_2|done].
  - intros [Hid (c & Hc & Hk)]. apply list_elem_of_omap in Hc as (o & Ho & E). unfold Datatypes.id in E. subst o.
    apply list_elem_of_lookup in Ho as (n & Hn). split; [|by apply bool_decide_eq_true_2]. exists (key, n).
    split; [done|]. apply elem_of_map_to_list. apply Hi. eauto.
Qed.

Lemma client_remove_turns (l : list TurnChange) id : forall (v : View), client_remove (foldl client_turn v l) id =
  foldl client_turn (client_remove v id) (List.filter (fun t => negb (bool_decide (tch_turn_id t = id))) l).
Proof.
  induction l as [|t l IH]; intros v; simpl; [done|]. rewrite IH, client_remove_turn. unfold streq.
  by destruct (bool_decide (tch_turn_id t = id)).
Qed.

Lemma client_remove_items (l : list ItemChange) id : forall (v : View), client_remove (foldl client_item v l) id =
  foldl client_item (client_remove v id) (List.filter (fun c => negb (bool_decide (ic_turn_id c = id))) l).
Proof.
  induction l as [|c l IH]; intros v; simpl; [done|]. rewrite IH, client_remove_item.
  case_bool_decide as E; simpl; [|done]. by rewrite client_item_removed.
Qed.

Lemma client_remove_again (v : View) ids id : id ∈ ids -> client_remove (foldl client_remove v ids) id = foldl client_remove v ids.
Proof.
  intros Hid. rewrite foldl_client_remove. unfold client_remove. apply filter_all. intros e He.
  apply list_elem_of_In, filter_In in He as [_ He]. apply negb_true_iff in He. rewrite negb_true_iff.
  destruct (view_id e =s id) eqn:E; [|done]. bool_prop. subst.
  assert (existsb (streq (view_id e)) ids = true); [|congruence]. apply existsb_elem. exists (view_id e).
  split; [done|by apply bool_decide_eq_true_2].
Qed.

(** The accumulator after the id has been noted as removed. *)
Lemma note_removed_ok (a : Acc) id : acc_ok a ->
  let a1 := match acc_removed_turn_indexes a !! id with
            | Some _ => a
            | None => acc_set_removed a (acc_removed_turn_ids a ++ [id])
                        (<[id := length (acc_removed_turn_ids a)]> (acc_removed_turn_indexes a))
            end in
  acc_ok a1 /\ acc_changed_items a1 = acc_changed_items a /\ acc_changed_turns a1 = acc_changed_turns a /\
  forall v : View, foldl client_remove v (acc_removed_turn_ids a1) = client_remove (foldl client_remove v (acc_removed_turn_ids a)) id.
Proof.
  intros [Hi Ht Hr]. simpl. destruct (acc_removed_turn_indexes a !! id) as [n|] eqn:E.
  - split_and!; [by split|done..|]. intros v. symmetry. apply client_remove_again. apply Hr. eauto.
  - split_and!; [split; [done|done|]|done..|].
    + intros id'. simpl. rewrite elem_of_app, list_elem_of_singleton, <- Hr. destruct (decide (id' = id)) as [->|Hne].
      * rewrite lookup_insert_eq. naive_solver.
      * rewrite lookup_insert_ne by done. naive_solver.
    + intros v. simpl. by rewrite foldl_app.
Qed.

Lemma push_removed_turn_id_ok v0 a id : acc_ok a -> acc_targets a v0 ->
  exists a', push_removed_turn_id a id = Ok a' /\
    acc_step v0 a a' (fun v => client_remove v id) (fun v => client_remove v id).
Proof.
  intros Ha Htg. unfold push_removed_turn_id. destruct (note_removed_ok a id Ha) as (H1 & Hi1 & Ht1 & Hr1). cbn zeta.
  revert H1 Hi1 Ht1 Hr1. generalize (match acc_removed_turn_indexes a !! id with Some _ => a | None =>
    acc_set_removed a (acc_removed_turn_ids a ++ [id]) (<[id := length (acc_removed_turn_ids a)]> (acc_removed_turn_indexes a)) end)
    as a1. intros a1 H1 Hi1 Ht1 Hr1.
  destruct (drop_turn_key_ok a1 id H1) as (a2 & -> & H2 & Hi2 & _ & Hr2 & Ht2). simpl.
  set (keys := List.filter _ _). destruct (drop_item_keys_ok keys a2 H2) as (a3 & -> & H3 & Ht3 & Hr3 & Hi3).
  exists a3. split; [done|].
  assert (omap Datatypes.id (acc_changed_items a3) =
    List.filter (fun c => negb (bool_decide (ic_turn_id c = id))) (omap Datatypes.id (acc_changed_items a))) as Hitems.
  { rewrite Hi3, Hi2, Hi1. apply filter_ext_in. intros c Hc%list_elem_of_In. f_equal. apply bool_decide_ext.
    unfold keys. rewrite removed_keys by done. rewrite Hi2, Hi1. unfold item_change_key at 1. simpl. naive_solver. }
  assert (acc_turns_view a3 v0 = client_remove (acc_turns_view a v0) id) as Htv.
  { unfold acc_turns_view. by rewrite Ht3, Ht2, Ht1, Hr3, Hr2, Hr1, client_remove_turns. }
  split; [done|..|done|].
  - unfold acc_targets in *. rewrite Hitems, Htv. rewrite Forall_forall in *. intros c Hc.
    apply list_elem_of_In, filter_In in Hc as [Hc%list_elem_of_In Hn]. bool_prop. apply Htg in Hc.
    rewrite <- has_elem in *. rewrite has_removed, Hc, andb_true_r. apply negb_true_iff. by apply bool_decide_eq_false_2.
  - unfold acc_view. by rewrite Hitems, Htv, client_remove_items.
Qed.

(** *** A whole change set *)

Lemma fold_push_ok {X} (v0 : View) (push : Acc -> X -> res () Acc) (f : View -> X -> View) (g : View -> X -> View)
    (P : X -> View -> Prop) (l : list X) :
  (forall a x, acc_ok a -> acc_targets a v0 -> P x (acc_turns_view a v0) ->
     exists a', push a x = Ok a' /\ acc_step v0 a a' (fun v => f v x) (fun v => g v x)) ->
  (forall x y v, P x v -> P x (f v y)) ->
  forall a, acc_ok a -> acc_targets a v0 -> Forall (fun x => P x (acc_turns_view a v0)) l ->
  exists a', fold_res push a l = Ok a' /\ acc_step v0 a a' (fun v => foldl f v l) (fun v => foldl g v l).
Proof.
  intros Hpush HP. induction l as [|x l IH]; intros a Ha Htg HPl; simpl; [by exists a|].
  apply Forall_cons in HPl as [HPx HPl]. destruct (Hpush a x Ha Htg HPx) as (a1 & -> & [H1 H2 H3 H4]). simpl.
  destruct (IH a1 H1 H2) as (a' & E & [H1' H2' H3' H4']).
  { rewrite H3. eapply Forall_impl; [exact HPl|]. intros y Hy. by apply HP. }
  exists a'. split; [done|]. split; [done..| |]; [by rewrite H3', H3|by rewrite H4', H4].
Qed.

Lemma push_comm (a : Acc) c t :
  (a1 ← push_item_change a c; push_turn_change a1 t) = (a1 ← push_turn_change a t; push_item_change a1 c).
Proof.
  unfold push_item_change, push_turn_change, mbind, res_bind.
  destruct (acc_changed_item_indexes a !! item_change_key c) as [n|] eqn:En,
    (acc_changed_turn_indexes a !! tch_turn_id t) as [m|] eqn:Em; simpl; rewrite ?En, ?Em;
    unfold vec_set; repeat (case_match; simpl in * ); simplify_eq/=; rewrite ?En, ?Em; try done; congruence.
Qed.

Lemma bind_assoc {E A B C} (r : res E A) (f : A -> res E B) (g : B -> res E C) :
  (y ← (x ← r; f x); g y) = (x ← r; y ← f x; g y).
Proof. by destruct r. Qed.

Lemma push_turns_comm ts : forall (a : Acc) c,
  (a1 ← push_item_change a c; fold_res push_turn_change a1 ts) = (a1 ← fold_res push_turn_change a ts; push_item_change a1 c).
Proof.
  induction ts as [|t ts IH]; intros a c; simpl; [by destruct (push_item_change a c)|].
  rewrite <- bind_assoc, push_comm, !bind_assoc. destruct (push_turn_change a t) as [a1|e|]; simpl; [apply IH|done..].
Qed.

Lemma push_items_turns_comm cs ts : forall a : Acc,
  (a1 ← fold_res push_item_change a cs; fold_res push_turn_change a1 ts) =
  (a1 ← fold_res push_turn_change a ts; fold_res push_item_change a1 cs).
Proof.
  induction cs as [|c cs IH]; intros a; simpl; [by destruct (fold_res push_turn_change a ts)|]. rewrite bind_assoc.
  transitivity (a1 ← push_item_change a c; a2 ← fold_res push_turn_change a1 ts; fold_res push_item_change a2 cs).
  - destruct (push_item_change a c) as [a1|e|]; simpl; [apply IH|done..].
  - rewrite <- bind_assoc, push_turns_comm. by rewrite bind_assoc.
Qed.

Lemma acc_push_ok v0 a (cs : Changes) : acc_ok a -> acc_targets a v0 ->
  targeted cs (apply_changes cs (acc_view a v0)) ->
  exists a', acc_push a cs = Ok a' /\ acc_ok a' /\ acc_targets a' v0 /\ acc_view a' v0 = apply_changes cs (acc_view a v0).
Proof.
  intros Ha Htg Hcs. unfold acc_push.
  destruct (fold_push_ok v0 push_removed_turn_id client_remove client_remove (fun _ _ => True) (removed_turn_ids cs)
    (fun a x H1 H2 _ => push_removed_turn_id_ok v0 a x H1 H2) (fun _ _ _ _ => I) a Ha Htg) as (a1 & -> & [H1 G1 _ V1]).
  { by apply Forall_true. }
  cbn [mbind res_bind]. rewrite push_items_turns_comm.
  destruct (fold_push_ok v0 push_turn_change client_turn client_turn (fun _ _ => True) (changed_turns cs)
    (fun a x H1 H2 _ => push_turn_change_ok v0 a x H1 H2) (fun _ _ _ _ => I) a1 H1 G1) as (a2 & -> & [H2 G2 _ V2]).
  { by apply Forall_true. }
  cbn [mbind res_bind].
  destruct (fold_push_ok v0 push_item_change (fun v _ => v) client_item (fun c v => ic_turn_id c ∈ map view_id v) (changed_items cs)
    (fun a x H1 H2 H3 => push_item_change_ok v0 a x H1 H2 H3) (fun _ _ _ H => H) a2 H2 G2) as (a3 & E & [H3 G3 _ V3]).
  { unfold targeted, apply_changes in Hcs. rewrite client_items_ids, <- V1, <- V2 in Hcs. unfold acc_view in Hcs.
    by rewrite client_items_ids in Hcs. }
  exists a3. split_and!; [done..|]. rewrite V3, V2, V1. done.
Qed.

(** ** Lines and batches of lines *)

Lemma start_collecting (b : Builder) : builder_ok b -> builder_ok (set_changes b (Some no_changes)) /\
  quiet (set_changes b (Some no_changes)) /\ tracked (view b) (set_changes b (Some no_changes)).
Proof. intros [H1 H2]. split_and!; [by split|done|]. eexists. split_and!; [done..|]. constructor. Qed.

Lemma line_changes (b : Builder) i b' : reachable b -> unique_ids (view b) -> handle_rollout_item b i = Ok b' -> unique_ids (view b') ->
  exists cs, handle_rollout_item_with_changes b i = Ok (cs, b') /\ view b' = apply_changes cs (view b) /\ targeted cs (view b').
Proof.
  intros Hr Hu E Hu'. destruct (reachable_ok b Hr) as [Hb Ha].
  pose proof (collect_changes_transparent b (fun c => handle_rollout_item c i) Ha (fun c => untracked_rollout_item c i)) as Ht.
  unfold handle_rollout_item_with_changes. cbv beta in Ht. rewrite E in Ht. destruct (start_collecting b Hb) as (Hb0 & Hq & Htr).
  destruct (handle_rollout_item_sound (set_changes b (Some no_changes)) i Hb0) as (b1 & E1 & Hs).
  unfold collect_changes in *. rewrite E1 in *. simpl in *. injection Ht as Hb'. subst b'.
  destruct (sound_tracked _ _ Hs (view b) Hb0 Hq Htr Hu Hu') as (cs & Hcs & Hv & Htg).
  exists cs. by rewrite Hcs.
Qed.

(** No two turns, and no two items of a turn, have the same id, all along the lines. *)
Definition unique_run (b : Builder) (items : list RolloutItem) : Prop :=
  forall n b', fold_res handle_rollout_item b (take n items) = Ok b' -> unique_ids (view b').

Lemma unique_run_cons b i items b1 : unique_run b (i :: items) -> handle_rollout_item b i = Ok b1 ->
  unique_ids (view b) /\ unique_run b1 items.
Proof.
  intros H E. split; [by apply (H 0%nat)|]. intros n b' Hn. apply (H (S n)). simpl. by rewrite E.
Qed.

Lemma batch_loop items : forall (b : Builder) (a : Acc) v0, reachable b -> unique_run b items -> acc_ok a -> acc_targets a v0 ->
  acc_view a v0 = view b ->
  exists a' b', fold_res accumulate_item (a, b) items = Ok (a', b') /\ fold_res handle_rollout_item b items = Ok b' /\
    acc_view a' v0 = view b'.
Proof.
  induction items as [|i items IH]; intros b a v0 Hr Hu Ha Htg Hv; simpl; [by exists a, b|].
  destruct (handle_rollout_item_sound b i (proj1 (reachable_ok b Hr))) as (b1 & E1 & _).
  destruct (unique_run_cons _ _ _ _ Hu E1) as [Hub Hu1].
  destruct (line_changes b i b1 Hr Hub E1 (Hu1 0%nat b1 eq_refl)) as (cs & E & Hv1 & Hcs).
  destruct (acc_push_ok v0 a cs Ha Htg) as (a1 & Ea & Ha1 & Htg1 & Hva1); [by rewrite Hv, <- Hv1|].
  assert (accumulate_item (a, b) i = Ok (a1, b1)) as ->. { unfold accumulate_item. simpl. rewrite E. simpl. by rewrite Ea. }
  rewrite E1. cbn [mbind res_bind]. apply IH; [by eapply reach_item|done..|]. by rewrite Hva1, Hv.
Qed.

(** The coalesced changes of a batch of lines, in which repeated changes of an item or a turn
    are replaced by the last one and changes of turns that were rolled back are dropped, lead
    a client from the history before the batch to the history after it; they are computed
    without a panic and the history is that of handling the lines without collecting. *)
Lemma batch_changes (b : Builder) items : reachable b -> unique_run b items ->
  exists cs b', handle_rollout_items_with_changes b items = Ok (cs, b') /\ fold_res handle_rollout_item b items = Ok b' /\
    view b' = apply_changes cs (view b).
Proof.
  intros Hr Hu. unfold handle_rollout_items_with_changes.
  destruct (batch_loop items b acc_default (view b) Hr Hu) as (a' & b' & E & E' & Hv).
  - split; [apply slots_ok_nil..|]. intros id. simpl. rewrite lookup_empty, elem_of_nil. by split; [intros []|].
  - constructor.
  - done.
  - rewrite E. cbn [mbind res_bind]. eexists _, b'. split_and!; [done..|]. by rewrite <- acc_view_apply.
Qed.

End Changes.
