(* ===== verification/ThreadRun.v ===== *)
(** * Thread history: runs

    What the session guarantees of the ids in its events, the guarantee that follows for the
    ids of a history, and a client that only reads the changes of batches of lines. *)
From S2P Require Import Prelude Width AbsPath History AgentRegistry AgentAccounts AgentResidency ThreadItems ThreadHistory ThreadHistoryProps ThreadChanges.

Set Default Goal Selector "!".

(** * Thread history: identifiers

    Turns that no event opened get the id [rollout-<line>] and items that events do not name
    get the id [item-<n>]; a rollback starts the count of items again. The way ids come and go
    is a small state machine, of which every handler is a sequence of steps: under what the
    session guarantees of the ids in its events, ids identify the turns of a history, the items
    of a turn, and, for the generated ones, the items of the whole thread. *)

Local Open Scope Z_scope.

(** ** Generated ids *)

Definition ITEM : rstr := lit "item-".
Definition ROLLOUT : rstr := lit "rollout-".

Definition gen_id (k : Z) : rstr := ITEM ++ dec k.

Definition generated (id : rstr) : bool := starts_with ITEM id.
Definition implicit (id : rstr) : bool := starts_with ROLLOUT id.

Lemma gen_id_generated k : generated (gen_id k) = true.
Proof. apply starts_with_app. Qed.

Lemma rollout_turn_id_implicit k : implicit (rollout_turn_id k) = true.
Proof. apply starts_with_app. Qed.

Definition DEC_MAX : Z := 10 ^ 20.

Lemma dec_inj k j : 0 <= k < DEC_MAX -> 0 <= j < DEC_MAX -> dec k = dec j -> k = j.
Proof.
  intros Hk Hj E. unfold dec in E. rewrite <- (dec_value_digits 20 k), <- (dec_value_digits 20 j) by done. by rewrite E.
Qed.

Lemma gen_id_inj k j : 0 <= k < DEC_MAX -> 0 <= j < DEC_MAX -> gen_id k = gen_id j -> k = j.
Proof. intros Hk Hj E%app_inv_head. by apply dec_inj. Qed.

Lemma rollout_turn_id_inj k j : 0 <= k < DEC_MAX -> 0 <= j < DEC_MAX -> rollout_turn_id k = rollout_turn_id j -> k = j.
Proof. intros Hk Hj E%app_inv_head. by apply dec_inj. Qed.

(** ** The machine of ids *)

(** The ids of the turns and of their items, the next number of an item, and a line before
    which all implicit turns were opened. *)
Record ids := { id_turns : list (rstr * list rstr); id_next : Z; id_line : Z }.

Definition id_count (ts : list (rstr * list rstr)) : nat := sum_list_with (fun t => length t.2) ts.

Inductive id_step : ids -> ids -> Prop :=
| step_open id ts n line : id ∉ map fst ts -> implicit id = false ->
    id_step {| id_turns := ts; id_next := n; id_line := line |} {| id_turns := ts ++ [(id, [])]; id_next := n; id_line := line |}
| step_implicit k ts n line : line <= k < DEC_MAX - 1 ->
    id_step {| id_turns := ts; id_next := n; id_line := line |}
            {| id_turns := ts ++ [(rollout_turn_id k, [])]; id_next := n; id_line := k + 1 |}
| step_generate ts id items n line : n < DEC_MAX - 1 ->
    id_step {| id_turns := ts ++ [(id, items)]; id_next := n; id_line := line |}
            {| id_turns := ts ++ [(id, items ++ [gen_id n])]; id_next := n + 1; id_line := line |}
| step_item ts1 id items ts2 i n line : i ∉ items -> generated i = false ->
    id_step {| id_turns := ts1 ++ (id, items) :: ts2; id_next := n; id_line := line |}
            {| id_turns := ts1 ++ (id, items ++ [i]) :: ts2; id_next := n; id_line := line |}
| step_rollback k ts n line : Z.of_nat (id_count (take k ts)) + 1 < DEC_MAX ->
    id_step {| id_turns := ts; id_next := n; id_line := line |}
            {| id_turns := take k ts; id_next := Z.of_nat (id_count (take k ts)) + 1; id_line := line |}.

(** All generated ids of the items, in order. *)
Definition gens (ts : list (rstr * list rstr)) : list rstr := List.filter generated (concat (map snd ts)).

Record ids_ok (s : ids) : Prop := {
  io_turns : NoDup (map fst (id_turns s));
  io_items : Forall (fun t => NoDup t.2) (id_turns s);
  io_implicit : forall id, id ∈ map fst (id_turns s) -> implicit id = true ->
    exists k, id = rollout_turn_id k /\ 0 <= k < id_line s;
  io_line : 0 <= id_line s < DEC_MAX;
  io_gens : NoDup (gens (id_turns s));
  io_next : 1 <= id_next s <= Z.of_nat (id_count (id_turns s)) + 1 /\ id_next s < DEC_MAX;
  (** Numbers are below the next one, and stay so when any suffix of the turns is dropped. *)
  io_bound : forall id, id ∈ gens (id_turns s) -> exists k, id = gen_id k /\ 1 <= k < id_next s;
  io_prefix : forall n id, id ∈ gens (take n (id_turns s)) ->
    exists k, id = gen_id k /\ 1 <= k <= Z.of_nat (id_count (take n (id_turns s)));
}.

Lemma gens_app ts1 ts2 : gens (ts1 ++ ts2) = gens ts1 ++ gens ts2.
Proof. unfold gens. by rewrite map_app, concat_app, List.filter_app. Qed.

Lemma gens_cons t ts : gens (t :: ts) = List.filter generated t.2 ++ gens ts.
Proof. unfold gens. simpl. by rewrite List.filter_app. Qed.

Lemma id_count_app ts1 ts2 : id_count (ts1 ++ ts2) = (id_count ts1 + id_count ts2)%nat.
Proof. unfold id_count. induction ts1 as [|t ts1 IH]; simpl; [done|]. rewrite IH. lia. Qed.

Lemma gens_take n ts id : id ∈ gens (take n ts) -> id ∈ gens ts.
Proof. intros H. rewrite <- (take_drop n ts), gens_app. set_solver. Qed.

Lemma gens_generated ts id : id ∈ gens ts -> generated id = true.
Proof. unfold gens. rewrite list_elem_of_In, filter_In. tauto. Qed.

Lemma ids_ok_new : ids_ok {| id_turns := []; id_next := 1; id_line := 0 |}.
Proof.
  split; simpl; [constructor|constructor|by intros ? ?%elem_of_nil|unfold DEC_MAX; lia|constructor| |by intros ? ?%elem_of_nil|].
  - unfold DEC_MAX; lia.
  - intros n id. rewrite take_nil. by intros ?%elem_of_nil.
Qed.

(** *** Each step keeps the invariant *)

Lemma ids_ok_open ts n line id line' : ids_ok {| id_turns := ts; id_next := n; id_line := line |} ->
  id ∉ map fst ts -> line <= line' < DEC_MAX ->
  (implicit id = true -> exists k, id = rollout_turn_id k /\ 0 <= k < line') ->
  ids_ok {| id_turns := ts ++ [(id, [])]; id_next := n; id_line := line' |}.
Proof.
  intros [H1 H2 H3 H4 H5 H6 H7 H8] Hid Hl Hi. simpl in *.
  assert (gens (ts ++ [(id, [])]) = gens ts) as Hg. { rewrite gens_app. by apply app_nil_r. }
  split; simpl.
  - rewrite map_app. apply NoDup_app. split_and!; [done| |apply NoDup_singleton]. intros x Hx Hx'. simpl in Hx'.
    apply list_elem_of_singleton in Hx'. by subst.
  - apply Forall_app. split; [done|]. constructor; [constructor|done].
  - intros x. rewrite map_app, elem_of_app. simpl. rewrite list_elem_of_singleton. intros [Hx| ->] Himp; [|by apply Hi].
    destruct (H3 x Hx Himp) as (k & -> & Hk). exists k. split; [done|lia].
  - lia.
  - by rewrite Hg.
  - rewrite id_count_app. simpl. by rewrite Nat.add_0_r.
  - by rewrite Hg.
  - intros m x Hx. destruct (decide (m <= length ts)%nat).
    + rewrite take_app_le in * by done. by apply H8.
    + rewrite take_ge in * by (rewrite length_app; simpl; lia). rewrite Hg in Hx. rewrite id_count_app. simpl.
      rewrite Nat.add_0_r. specialize (H8 (length ts) x). rewrite firstn_all in H8. by apply H8.
Qed.

Lemma take_middle {A} m (l1 : list A) x l2 :
  take m (l1 ++ x :: l2) = if decide (m <= length l1)%nat then take m l1 else l1 ++ x :: take (m - length l1 - 1) l2.
Proof.
  case_decide; [by rewrite take_app_le|]. rewrite take_app_ge by lia. f_equal.
  destruct (m - length l1)%nat eqn:E; [lia|]. simpl. by rewrite Nat.sub_0_r.
Qed.

Lemma fst_middle (ts1 ts2 : list (rstr * list rstr)) id items items' :
  map fst (ts1 ++ (id, items') :: ts2) = map fst (ts1 ++ (id, items) :: ts2).
Proof. by rewrite !map_app. Qed.

Lemma gens_middle_plain ts1 id items i ts2 : generated i = false ->
  gens (ts1 ++ (id, items ++ [i]) :: ts2) = gens (ts1 ++ (id, items) :: ts2).
Proof. intros Hi. rewrite !gens_app, !gens_cons. simpl. rewrite List.filter_app. simpl. by rewrite Hi, app_nil_r. Qed.

Lemma ids_ok_item ts1 id items ts2 i n line :
  ids_ok {| id_turns := ts1 ++ (id, items) :: ts2; id_next := n; id_line := line |} -> i ∉ items -> generated i = false ->
  ids_ok {| id_turns := ts1 ++ (id, items ++ [i]) :: ts2; id_next := n; id_line := line |}.
Proof.
  intros [H1 H2 H3 H4 H5 H6 H7 H8] Hi Hg. simpl in *. split; simpl.
  - by rewrite (fst_middle ts1 ts2 id items).
  - rewrite Forall_app, Forall_cons in *. simpl in *. destruct H2 as (? & ? & ?). split_and!; [done| |done].
    apply NoDup_app. split_and!; [done| |apply NoDup_singleton]. intros x Hx ->%list_elem_of_singleton. done.
  - by rewrite (fst_middle ts1 ts2 id items).
  - done.
  - by rewrite gens_middle_plain.
  - rewrite id_count_app in *. simpl in *. rewrite length_app. simpl. lia.
  - by rewrite gens_middle_plain.
  - intros m x. specialize (H8 m x). rewrite take_middle in *. case_decide; [done|]. rewrite gens_middle_plain by done.
    intros Hx. destruct (H8 Hx) as (k & -> & Hk). exists k. split; [done|]. rewrite id_count_app in *. simpl in *.
    rewrite length_app. simpl. lia.
Qed.

Lemma ids_ok_generate ts id items n line :
  ids_ok {| id_turns := ts ++ [(id, items)]; id_next := n; id_line := line |} -> n < DEC_MAX - 1 ->
  ids_ok {| id_turns := ts ++ [(id, items ++ [gen_id n])]; id_next := n + 1; id_line := line |}.
Proof.
  intros [H1 H2 H3 H4 H5 H6 H7 H8] Hn. simpl in *.
  assert (gens (ts ++ [(id, items ++ [gen_id n])]) = gens (ts ++ [(id, items)]) ++ [gen_id n]) as Hg.
  { rewrite !gens_app, !gens_cons. simpl. rewrite List.filter_app. unfold gens. simpl.
    by rewrite !app_nil_r, !app_assoc. }
  assert (gen_id n ∉ gens (ts ++ [(id, items)])) as Hnew.
  { intros Hin. destruct (H7 _ Hin) as (k & E & Hk). apply gen_id_inj in E; lia. }
  split; simpl.
  - by rewrite (fst_middle ts [] id items).
  - rewrite Forall_app, Forall_cons in *. simpl in *. destruct H2 as (? & ? & ?). split_and!; [done| |done].
    apply NoDup_app. split_and!; [done| |apply NoDup_singleton]. intros x Hx ->%list_elem_of_singleton. apply Hnew.
    rewrite gens_app, elem_of_app. right. rewrite gens_cons, elem_of_app. left. simpl.
    rewrite list_elem_of_In, filter_In, <- list_elem_of_In. split; [done|apply gen_id_generated].
  - by rewrite (fst_middle ts [] id items).
  - done.
  - rewrite Hg. apply NoDup_app. split_and!; [done| |apply NoDup_singleton]. intros x Hx ->%list_elem_of_singleton. done.
  - rewrite id_count_app in *. simpl in *. rewrite length_app. simpl. lia.
  - intros x. rewrite Hg, elem_of_app, list_elem_of_singleton. intros [Hx| ->].
    + destruct (H7 x Hx) as (k & -> & Hk). exists k. split; [done|lia].
    + exists n. split; [done|lia].
  - intros m x. specialize (H8 m x). rewrite take_middle in *. case_decide; [done|]. rewrite !take_nil in *. rewrite Hg.
    rewrite elem_of_app, list_elem_of_singleton, !id_count_app in *. simpl in *. rewrite length_app. simpl.
    intros [Hx| ->]; [destruct (H8 Hx) as (k & -> & Hk); exists k; split; [done|lia]|]. exists n. split; [done|lia].
Qed.

Lemma NoDup_take {A} n (l : list A) : NoDup l -> NoDup (take n l).
Proof. rewrite <- (take_drop n l) at 1. rewrite NoDup_app. tauto. Qed.

Lemma ids_ok_rollback k ts n line : ids_ok {| id_turns := ts; id_next := n; id_line := line |} ->
  Z.of_nat (id_count (take k ts)) + 1 < DEC_MAX ->
  ids_ok {| id_turns := take k ts; id_next := Z.of_nat (id_count (take k ts)) + 1; id_line := line |}.
Proof.
  intros [H1 H2 H3 H4 H5 H6 H7 H8] Hc. simpl in *. split; simpl.
  - rewrite <- firstn_map. by apply NoDup_take.
  - by apply Forall_take.
  - intros id Hid. apply H3. rewrite <- firstn_map in Hid. rewrite <- (take_drop k (map fst ts)). set_solver.
  - done.
  - rewrite <- (take_drop k ts), gens_app, NoDup_app in H5. tauto.
  - lia.
  - intros id Hid. destruct (H8 k id Hid) as (j & -> & Hj). exists j. split; [done|lia].
  - intros m id. rewrite take_take. apply H8.
Qed.

Lemma id_step_ok s s' : id_step s s' -> ids_ok s -> ids_ok s'.
Proof.
  destruct 1 as [id ts n line Hid Hi|k ts n line Hk|ts id items n line Hn|ts1 id items ts2 i n line Hi Hg|k ts n line Hk]; intros H.
  - apply (ids_ok_open ts n line id line); [done|done|pose proof (io_line _ H); simpl in *; lia|]. congruence.
  - apply (ids_ok_open ts n line _ (k + 1)); [done| |lia|].
    + intros Hin. destruct (io_implicit _ H _ Hin) as (j & E & Hj); [apply rollout_turn_id_implicit|].
      simpl in Hj. pose proof (io_line _ H). simpl in *. apply rollout_turn_id_inj in E; lia.
    + intros _. exists k. split; [done|]. pose proof (io_line _ H). simpl in *. lia.
  - by apply ids_ok_generate.
  - by apply ids_ok_item.
  - by eapply ids_ok_rollback.
Qed.

Lemma id_steps_ok s s' : rtc id_step s s' -> ids_ok s -> ids_ok s'.
Proof. induction 1; eauto using id_step_ok. Qed.

(** ** The handlers as steps *)

Section Handlers.
Context {Opaque Url : Type} {Env : ThreadEnv Opaque Url}.
Local Abbreviation Item := (@ThreadItem Opaque).
Local Abbreviation Builder := (@ThreadHistoryBuilder Opaque).
Local Abbreviation Pending := (@PendingTurn Opaque).

Definition shape_turn (t : Pending) : rstr * list rstr := (pt_id t, map item_id (pt_items t)).

Definition shape (b : Builder) : list (rstr * list rstr) := map shape_turn (all_turns b).

Definition state_of (b : Builder) (line : Z) : ids := {| id_turns := shape b; id_next := next_item_index b; id_line := line |}.

Lemma shape_unique b line : ids_ok (state_of b line) -> unique_ids (view b).
Proof.
  intros H. split.
  - unfold view. rewrite map_map. pose proof (io_turns _ H) as Ht. simpl in Ht. unfold shape in Ht. by rewrite map_map in Ht.
  - pose proof (io_items _ H) as Hi. simpl in Hi. unfold view, shape in *. rewrite Forall_forall in Hi.
    apply Forall_forall. intros e (t & -> & Ht)%list_elem_of_fmap. apply (Hi (shape_turn t)). by apply list_elem_of_fmap_2.
Qed.

(** The counters of lines stay as they are and the ids go through steps; a turn may be opened
    for the line that is being handled. *)
Record follows (b b' : Builder) : Prop := {
  fo_current : current_rollout_index b' = current_rollout_index b;
  fo_next : next_rollout_index b' = next_rollout_index b;
  fo_steps line : line <= current_rollout_index b -> ids_ok (state_of b line) ->
    exists line', line' <= current_rollout_index b + 1 /\ rtc id_step (state_of b line) (state_of b' line');
}.

(** The same without opening a turn for the line. *)
Record keeps (b b' : Builder) : Prop := {
  ke_current : current_rollout_index b' = current_rollout_index b;
  ke_next : next_rollout_index b' = next_rollout_index b;
  ke_steps line : ids_ok (state_of b line) -> rtc id_step (state_of b line) (state_of b' line);
}.

Lemma keeps_follows b b' : keeps b b' -> follows b b'.
Proof. intros [H1 H2 H3]. split; [done..|]. intros line Hl Hok. exists line. split; [lia|auto]. Qed.

Lemma follows_keeps b b1 b' : follows b b1 -> keeps b1 b' -> follows b b'.
Proof.
  intros [H1 H2 H3] [H4 H5 H6]. split; [congruence..|]. intros line Hl Hok. destruct (H3 line Hl Hok) as (line' & Hl' & Hr).
  exists line'. split; [done|]. etrans; [exact Hr|]. apply H6. by eapply id_steps_ok.
Qed.

(** A builder that handles a line, below the bounds of the counters. *)
Record handling (b : Builder) : Prop := {
  ha_line : 0 <= current_rollout_index b < DEC_MAX - 1;
  ha_next : next_rollout_index b <> 0;
  ha_items : 0 <= next_item_index b < DEC_MAX - 1;
}.

(** Only the ids and the counters matter. *)
Record same_ids (b b' : Builder) : Prop := {
  si_shape : shape b' = shape b;
  si_items : next_item_index b' = next_item_index b;
  si_line : current_rollout_index b' = current_rollout_index b;
  si_next : next_rollout_index b' = next_rollout_index b;
}.

Lemma same_ids_refl b : same_ids b b.
Proof. done. Qed.

Lemma same_ids_state b b' line : same_ids b b' -> state_of b' line = state_of b line.
Proof. intros [H1 H2 _ _]. unfold state_of. congruence. Qed.

Lemma same_ids_keeps b b' : same_ids b b' -> keeps b b'.
Proof. intros H. split; [apply H..|]. intros line _. rewrite (same_ids_state _ _ _ H). apply rtc_refl. Qed.

Lemma same_ids_follows b b' : same_ids b b' -> follows b b'.
Proof. intros H. by apply keeps_follows, same_ids_keeps. Qed.

Lemma keeps_then_same b b1 b' : keeps b b1 -> same_ids b1 b' -> keeps b b'.
Proof.
  intros [H1 H2 H3] Hs. pose proof (si_line _ _ Hs). pose proof (si_next _ _ Hs). split; [congruence..|]. intros line Hok.
  rewrite (same_ids_state _ _ _ Hs). auto.
Qed.

Lemma follows_refl b : follows b b.
Proof. by apply same_ids_follows. Qed.

Lemma same_ids_then b b1 b' : same_ids b b1 -> follows b1 b' -> follows b b'.
Proof.
  intros Hs [H1 H2 H3]. pose proof (si_line _ _ Hs). pose proof (si_next _ _ Hs). split; [congruence..|]. intros line Hl Hok.
  rewrite <- (same_ids_state _ _ _ Hs) in *. destruct (H3 line) as (line' & Hl' & Hr); [lia|done|]. exists line'. split; [lia|done].
Qed.

Lemma follows_same b b1 b' : follows b b1 -> same_ids b1 b' -> follows b b'.
Proof.
  intros [H1 H2 H3] Hs. pose proof (si_line _ _ Hs). pose proof (si_next _ _ Hs). split; [congruence..|]. intros line Hl Hok.
  destruct (H3 line Hl Hok) as (line' & Hl' & Hr). exists line'. split; [done|]. by rewrite (same_ids_state _ _ _ Hs).
Qed.

Lemma finish_same_ids b : builder_ok b -> same_ids b (finish_current_turn b).
Proof.
  intros Hb. split; [unfold shape; by rewrite finish_all_turns|..]; unfold finish_current_turn; by case_match.
Qed.

Lemma handling_same b b' : same_ids b b' -> handling b -> handling b'.
Proof. intros [_ H1 H2 H3] [H4 H5 H6]. split; congruence. Qed.

Lemma record_item_same b id i : same_ids b (record_changed_item b id i).
Proof. unfold record_changed_item. by case_match. Qed.

Lemma record_turn_same (b : Builder) c : same_ids b (record_changed_turn b c).
Proof. unfold record_changed_turn. by case_match. Qed.

Lemma record_pending_same (b : Builder) t : same_ids b (record_changed_pending_turn b t).
Proof. unfold record_changed_pending_turn. case_match; [apply record_turn_same|done]. Qed.

(** *** Changing one turn *)

Lemma replaces_shape b b' t t' : replaces b b' t t' ->
  exists ts1 ts2, shape b = ts1 ++ shape_turn t :: ts2 /\ shape b' = ts1 ++ shape_turn t' :: ts2.
Proof.
  intros (n & Hn & Hb). unfold shape. rewrite Hb. exists (map shape_turn (take n (all_turns b))), (map shape_turn (drop (S n) (all_turns b))).
  split.
  - rewrite <- (take_drop_middle (all_turns b) n t Hn) at 1. by rewrite map_app.
  - rewrite insert_take_drop by (by eapply lookup_lt_Some). by rewrite map_app.
Qed.

Lemma replaces_same_shape b b' t t' : replaces b b' t t' -> shape_turn t' = shape_turn t -> shape b' = shape b.
Proof. intros Hr E. destruct (replaces_shape _ _ _ _ Hr) as (ts1 & ts2 & -> & ->). by rewrite E. Qed.

Lemma upsert_linear_ids (items : list Item) i : map item_id (upsert_linear items i) =
  if bool_decide (item_id i ∈ map item_id items) then map item_id items else map item_id items ++ [item_id i].
Proof.
  unfold upsert_linear. destruct (id_position (item_id i) items) as [n|] eqn:E.
  - destruct (id_position_Some _ _ _ E) as (x & Hx & Ex). rewrite bool_decide_eq_true_2.
    + change (item_id <$> <[n := i]> items = item_id <$> items). rewrite list_fmap_insert. apply list_insert_id.
      by rewrite list_lookup_fmap, Hx, <- Ex.
    + rewrite <- Ex. apply list_elem_of_fmap_2. by eapply list_elem_of_lookup_2.
  - rewrite id_position_None in E. rewrite bool_decide_eq_false_2 by done. by rewrite map_app.
Qed.

(** Counters stay, one turn changes. *)
Record turn_changes (b b' : Builder) (t t' : Pending) : Prop := {
  tc_replaces : exists b1, replaces b b1 t t' /\ same_ids b1 b';
  tc_items : next_item_index b' = next_item_index b;
  tc_current : current_rollout_index b' = current_rollout_index b;
  tc_next : next_rollout_index b' = next_rollout_index b;
}.

Lemma current_changes b t t' b' : current_turn b = Some t -> same_ids (set_current b t') b' -> turn_changes b b' t t'.
Proof.
  intros Hc Hs. split; [|apply Hs..]. exists (set_current b t'). split; [by apply set_current_replaces|done].
Qed.

Lemma finished_changes b n t t' b' : turns b !! n = Some t ->
  same_ids (set_turns b (<[n := t']> (turns b)) (current_turn b)) b' -> turn_changes b b' t t'.
Proof. intros Hn Hs. split; [|apply Hs..]. eexists. split; [by apply set_turns_replaces|done]. Qed.

Lemma same_shape_keeps b b' t t' : turn_changes b b' t t' -> shape_turn t' = shape_turn t -> keeps b b'.
Proof.
  intros [(b1 & Hr & Hs) H1 H2 H3] E. apply same_ids_keeps. split; [|done..]. rewrite (si_shape _ _ Hs).
  by eapply replaces_same_shape.
Qed.

(** An upsert of an item that an event names. *)
Lemma upsert_plain_keeps b b' t ii i : turn_changes b b' t (with_items t (ii, upsert_linear (pt_items t) i)) ->
  generated (item_id i) = false -> keeps b b'.
Proof.
  intros [(b1 & Hr & Hs) Hn Hc Hx] Hg. split; [done..|]. intros line _.
  destruct (replaces_shape _ _ _ _ Hr) as (ts1 & ts2 & E1 & E2). unfold state_of.
  rewrite (si_shape _ _ Hs), E1, E2, Hn. unfold shape_turn. simpl.
  rewrite upsert_linear_ids. case_bool_decide as Hin; [apply rtc_refl|]. apply rtc_once. by constructor.
Qed.

Lemma upsert_id_keeps b turn_id i b' : turns_ok b -> generated (item_id i) = false ->
  upsert_item_in_turn_id b turn_id i = Ok b' -> keeps b b'.
Proof.
  intros Hb Hg. unfold upsert_item_in_turn_id. destruct (current_with_id b turn_id) as [t|] eqn:E.
  - apply current_with_id_Some in E as [Hc _].
    destruct (index_upsert_linear _ _ i (current_turn_ok _ _ Hb Hc)) as (index' & -> & _). simpl. intros ?; simplify_eq.
    eapply upsert_plain_keeps; [apply current_changes; [done|apply record_item_same]|done].
  - destruct (find_turn turn_id (turns b)) as [[n t]|] eqn:Ef; [|intros ?; simplify_eq; by apply same_ids_keeps].
    apply find_turn_Some in Ef as [Hn _].
    assert (turn_ok t) as Ht.
    { unfold turns_ok, all_turns in Hb. rewrite Forall_app, !Forall_forall in Hb. eapply (proj1 Hb). by eapply list_elem_of_lookup_2. }
    destruct (index_upsert_linear _ _ i Ht) as (index' & -> & _). simpl. intros ?; simplify_eq.
    eapply upsert_plain_keeps; [apply (finished_changes b n); [done|apply record_item_same]|done].
Qed.

(** *** The current turn *)

Lemma shape_current (b : Builder) t : current_turn b = Some t -> shape b = map shape_turn (turns b) ++ [shape_turn t].
Proof. intros Hc. unfold shape, all_turns. by rewrite Hc, map_app. Qed.

(** The last turn gets an item with the next number. *)
Lemma generate_keeps b b' t t' : current_turn b = Some t -> handling b ->
  same_ids (set_next_item_index (set_current b t') (next_item_index b + 1)) b' ->
  shape_turn t' = (pt_id t, map item_id (pt_items t) ++ [gen_id (next_item_index b)]) -> keeps b b'.
Proof.
  intros Hc Hh Hs E. split; [apply Hs..|]. intros line _. unfold state_of. rewrite (si_shape _ _ Hs), (si_items _ _ Hs). simpl.
  rewrite (shape_current b t Hc).
  assert (shape (set_next_item_index (set_current b t') (next_item_index b + 1)) = map shape_turn (turns b) ++ [shape_turn t']) as ->.
  { by rewrite (shape_current (set_next_item_index (set_current b t') (next_item_index b + 1)) t' eq_refl). }
  rewrite E. apply rtc_once. unfold shape_turn. constructor. apply Hh.
Qed.

Lemma opened_shape b b1 t : opened b b1 t -> shape b1 = shape b ++ [(pt_id t, [])].
Proof.
  intros Ho. unfold shape. rewrite (op_turns _ _ _ Ho), map_app. simpl. unfold shape_turn. by rewrite (op_items _ _ _ Ho).
Qed.

Lemma ensure_follows b t b1 : ensure_turn b = (t, b1) -> handling b ->
  follows b b1 /\ current_turn b1 = Some t /\ next_item_index b1 = next_item_index b.
Proof.
  intros E Hh. destruct (ensure_cases _ _ _ E) as [[Hc ->]|[Hc Ho]]; [by split; [apply follows_refl|]|].
  split_and!; [|apply Ho|].
  - unfold ensure_turn, new_turn in E. rewrite Hc in E. rewrite (proj2 (Z.eqb_neq _ _)) in E by apply Hh. simplify_eq.
    set (t := fresh_turn _ _) in *. set (b1 := set_current _ t) in *.
    assert (same_ids b (record_changed_pending_turn b t)) as Hs by apply record_pending_same.
    split; [apply Hs|apply Hs|]. intros line Hl _. exists (current_rollout_index b + 1). split; [lia|].
    unfold state_of. rewrite (opened_shape _ _ _ Ho).
    assert (next_item_index b1 = next_item_index b) as -> by apply Hs. apply rtc_once. simpl. constructor.
    pose proof (ha_line _ Hh). lia.
  - unfold ensure_turn, new_turn in E. rewrite Hc in E. rewrite (proj2 (Z.eqb_neq _ _)) in E by apply Hh. simplify_eq.
    simpl. apply record_pending_same.
Qed.

Lemma handling_follows b b1 : follows b b1 -> next_item_index b1 = next_item_index b -> handling b -> handling b1.
Proof. intros [H1 H2 _] H3 [H4 H5 H6]. split; congruence. Qed.

Lemma ensure_next b t b1 n : ensure_turn b = (t, b1) ->
  ensure_turn (set_next_item_index b n) = (t, set_next_item_index b1 n).
Proof.
  unfold ensure_turn. simpl. destruct (current_turn b) as [t'|]; [intros ?; by simplify_eq|].
  unfold new_turn. simpl. intros E. repeat case_match; simplify_eq;
    unfold record_changed_pending_turn, record_changed_turn, is_tracking_changes; simpl; by repeat case_match.
Qed.

(** An item with the next number is pushed. *)
Lemma push_generated_follows b (i : Item) : handling b -> item_id i = gen_id (next_item_index b) ->
  follows b (push_item_in_current_turn (set_next_item_index b (next_item_index b + 1)) i).
Proof.
  intros Hh Hi. destruct (ensure_turn b) as [t b1] eqn:E. destruct (ensure_follows b t b1 E Hh) as (Hf & Hc & Hn).
  eapply follows_keeps; [exact Hf|]. unfold push_item_in_current_turn. rewrite (ensure_next _ _ _ _ E), <- Hn.
  eapply (generate_keeps b1 _ t (with_items t (index_push (pt_item_index t) (pt_items t) i)));
    [done|by eapply handling_follows|apply record_item_same|]. unfold shape_turn. simpl. by rewrite map_app, Hn, <- Hi.
Qed.

(** ... or put, as it is new. *)
Lemma generated_new b t line : ids_ok (state_of b line) -> current_turn b = Some t -> next_item_index b < DEC_MAX ->
  gen_id (next_item_index b) ∉ map item_id (pt_items t).
Proof.
  intros Hok Hc Hn Hin. destruct (io_bound _ Hok (gen_id (next_item_index b))) as (k & E & Hk).
  - simpl. rewrite (shape_current b t Hc), gens_app, elem_of_app, gens_cons, elem_of_app. right. left. simpl.
    rewrite list_elem_of_In, filter_In, <- list_elem_of_In. split; [done|apply gen_id_generated].
  - simpl in *. pose proof (io_next _ Hok) as [? _]. simpl in *. apply gen_id_inj in E; lia.
Qed.

Lemma upsert_generated_keeps b b' t ii (i : Item) : current_turn b = Some t -> handling b ->
  same_ids (set_next_item_index (set_current b (with_items t (ii, upsert_linear (pt_items t) i))) (next_item_index b + 1)) b' ->
  item_id i = gen_id (next_item_index b) -> keeps b b'.
Proof.
  intros Hc Hh Hs Hi. split; [apply Hs..|]. intros line Hok.
  eapply (generate_keeps b b' t (with_items t (ii, upsert_linear (pt_items t) i))); [done|done|done| |done].
  unfold shape_turn. simpl. rewrite upsert_linear_ids, bool_decide_eq_false_2; [by rewrite Hi|]. rewrite Hi.
  eapply generated_new; [done|done|]. pose proof (ha_items _ Hh). lia.
Qed.

(** *** Items in the current turn *)

Lemma upsert_current_follows b i b' : turns_ok b -> handling b -> generated (item_id i) = false ->
  upsert_item_in_current_turn b i = Ok b' -> follows b b'.
Proof.
  intros Hb Hh Hg. unfold upsert_item_in_current_turn. destruct (ensure_turn b) as [t b1] eqn:E.
  destruct (ensure_follows b t b1 E Hh) as (Hf & Hc & _).
  assert (turn_ok t) as Ht.
  { destruct (ensure_cases _ _ _ E) as [[Hc' ->]|[_ Ho]]; [by eapply current_turn_ok|apply Ho]. }
  destruct (index_upsert_linear _ _ i Ht) as (index' & -> & _). simpl. intros ?; simplify_eq.
  eapply follows_keeps; [exact Hf|]. eapply upsert_plain_keeps; [apply current_changes; [done|apply record_item_same]|done].
Qed.

Lemma upsert_current_generated b i b' : turns_ok b -> handling b -> item_id i = gen_id (next_item_index b) ->
  upsert_item_in_current_turn (set_next_item_index b (next_item_index b + 1)) i = Ok b' -> follows b b'.
Proof.
  intros Hb Hh Hi. unfold upsert_item_in_current_turn. destruct (ensure_turn b) as [t b1] eqn:E.
  destruct (ensure_follows b t b1 E Hh) as (Hf & Hc & Hn). rewrite (ensure_next _ _ _ _ E).
  assert (turn_ok t) as Ht.
  { destruct (ensure_cases _ _ _ E) as [[Hc' ->]|[_ Ho]]; [by eapply current_turn_ok|apply Ho]. }
  destruct (index_upsert_linear _ _ i Ht) as (index' & -> & _). simpl. intros ?; simplify_eq.
  eapply follows_keeps; [exact Hf|]. rewrite <- Hn in *.
  eapply (upsert_generated_keeps b1 _ t index' i); [done|by eapply handling_follows|apply record_item_same|done].
Qed.

(** A push of an item that an event names, new in the current turn. *)
Lemma push_plain_follows b (i : Item) : handling b -> generated (item_id i) = false ->
  (forall t, current_turn b = Some t -> item_id i ∉ map item_id (pt_items t)) -> follows b (push_item_in_current_turn b i).
Proof.
  intros Hh Hg Hnew. unfold push_item_in_current_turn. destruct (ensure_turn b) as [t b1] eqn:E.
  destruct (ensure_follows b t b1 E Hh) as (Hf & Hc & _). eapply follows_keeps; [exact Hf|].
  assert (item_id i ∉ map item_id (pt_items t)) as Hin.
  { destruct (ensure_cases _ _ _ E) as [[Hc' ->]|[_ Ho]]; [auto|]. rewrite (op_items _ _ _ Ho). apply not_elem_of_nil. }
  assert (turn_changes b1 (record_changed_item (set_current b1 (with_items t (index_push (pt_item_index t) (pt_items t) i))) (pt_id t) i)
    t (with_items t (index_push (pt_item_index t) (pt_items t) i))) as Ht.
  { apply current_changes; [done|apply record_item_same]. }
  destruct Ht as [(b2 & Hr & Hs) H1 H2 H3]. split; [done..|]. intros line _.
  destruct (replaces_shape _ _ _ _ Hr) as (ts1 & ts2 & E1 & E2). unfold state_of.
  rewrite (si_shape _ _ Hs), E1, E2, H1. unfold shape_turn. simpl. rewrite map_app. apply rtc_once. by constructor.
Qed.

(** *** Reasoning *)

Lemma extend_reasoning_follows b extend : handling b ->
  match extend_reasoning b extend with
  | inl b' => follows b b'
  | inr b1 => exists t, ensure_turn b = (t, b1)
  end.
Proof.
  intros Hh. unfold extend_reasoning. destruct (ensure_turn b) as [t b1] eqn:E.
  destruct (ensure_follows b t b1 E Hh) as (Hf & Hc & _).
  destruct (last (pt_items t)) as [x|] eqn:El; [|by eauto].
  destruct x as [| | | | |id summary content| | | | | | | | | | | | |]; try by eexists.
  destruct (extend summary content) as [summary' content']. eapply follows_keeps; [exact Hf|].
  eapply same_shape_keeps; [apply current_changes; [done|apply record_item_same]|]. apply removelast_last in El.
  unfold shape_turn. simpl. rewrite El at 2. by rewrite !map_app.
Qed.

Lemma reasoning_follows b extend (i : Builder -> Item) : handling b ->
  (forall b1, item_id (i b1) = gen_id (next_item_index b1)) ->
  follows b match extend_reasoning b extend with
            | inl b' => b'
            | inr b1 => push_item_in_current_turn (set_next_item_index b1 (next_item_index b1 + 1)) (i b1)
            end.
Proof.
  intros Hh Hi. pose proof (extend_reasoning_follows b extend Hh) as H.
  destruct (extend_reasoning b extend) as [b'|b1]; [done|]. destruct H as [t E].
  destruct (ensure_follows b t b1 E Hh) as (Hf & Hc & Hn). eapply follows_keeps; [exact Hf|].
  unfold push_item_in_current_turn, ensure_turn. simpl. rewrite Hc.
  eapply (generate_keeps b1 _ t (with_items t (index_push (pt_item_index t) (pt_items t) (i b1))));
    [done|by eapply handling_follows|apply record_item_same|]. unfold shape_turn. simpl. by rewrite map_app, <- Hi.
Qed.

(** *** Turns that events open *)

Lemma open_explicit_follows b b0 t b1 : current_turn b = None -> new_turn b (Some (pt_id t)) = (b0, b) ->
  opened b b1 t -> same_ids (set_current b t) b1 -> pt_id t ∉ map pt_id (all_turns b) -> implicit (pt_id t) = false ->
  follows b b1.
Proof.
  intros Hc _ Ho Hs Hid Hi. split; [apply Hs..|]. intros line Hl _. exists line. split; [lia|].
  unfold state_of. rewrite (opened_shape _ _ _ Ho), (si_items _ _ Hs). simpl. apply rtc_once. constructor; [|done].
  unfold shape. by rewrite map_map.
Qed.

Lemma set_current_record_same (b : Builder) t : same_ids (set_current b t) (set_current (record_changed_pending_turn b t) t).
Proof.
  assert (turns (record_changed_pending_turn b t) = turns b) as Ht.
  { unfold record_changed_pending_turn, record_changed_turn. by repeat case_match. }
  destruct (record_pending_same b t) as [_ H1 H2 H3]. split; [unfold shape, all_turns; simpl; by rewrite Ht|done..].
Qed.

Lemma turn_started_follows b payload : builder_ok b -> ts_turn_id payload ∉ map pt_id (all_turns b) ->
  implicit (ts_turn_id payload) = false -> follows b (handle_turn_started b payload).
Proof.
  intros Hb Hid Hi. eapply same_ids_then; [by apply finish_same_ids|]. unfold handle_turn_started. simpl.
  set (t := opened_at _ _). eapply (open_explicit_follows _ _ t); [apply finish_current_None|done|..].
  - by apply open_opened; [apply finish_current_None|..].
  - apply set_current_record_same.
  - by rewrite finish_all_turns.
  - done.
Qed.

(** *** Review mode *)

(** The turn of a review item is known or gets a name of its own; an item without a name is one
    of the current turn or of a turn that is opened for it. *)
Definition review_wf (b : Builder) (turn_id item_id : option rstr) : Prop :=
  match turn_id with
  | None => True
  | Some turn_id =>
      (turn_id ∈ map pt_id (all_turns b) \/ implicit turn_id = false) /\
      (item_id = None -> is_Some (current_with_id b turn_id) \/ turn_id ∉ map pt_id (all_turns b))
  end /\ match item_id with Some id => generated id = false | None => True end.

Lemma known_turn (b : Builder) turn_id :
  negb (bool_decide (is_Some (current_with_id b turn_id))) && negb (existsb (fun t => pt_id t =s turn_id) (turns b)) = true ->
  turn_id ∉ map pt_id (all_turns b).
Proof.
  intros H. bool_prop. intros (t & -> & Ht)%list_elem_of_fmap. unfold all_turns in Ht. apply elem_of_app in Ht as [Ht|Ht].
  - assert (existsb (fun t' => pt_id t' =s pt_id t) (turns b) = true); [|congruence]. apply existsb_elem. exists t.
    split; [done|by apply bool_decide_eq_true_2].
  - destruct (current_turn b) as [c|] eqn:E; simpl in Ht; [|by apply elem_of_nil in Ht]. apply list_elem_of_singleton in Ht as ->.
    match goal with H : ~ is_Some _ |- _ => apply H end. rewrite (current_with_id_current b c E). eauto.
Qed.

(** An item with the next number, in the current turn. *)
Lemma upsert_id_generated b turn_id i b' t : turns_ok b -> handling b -> current_with_id b turn_id = Some t ->
  item_id i = gen_id (next_item_index b) ->
  upsert_item_in_turn_id (set_next_item_index b (next_item_index b + 1)) turn_id i = Ok b' -> keeps b b'.
Proof.
  intros Hb Hh Hc Hi. unfold upsert_item_in_turn_id.
  change (current_with_id (set_next_item_index b (next_item_index b + 1)) turn_id) with (current_with_id b turn_id).
  rewrite Hc. apply current_with_id_Some in Hc as [Hc _].
  destruct (index_upsert_linear _ _ i (current_turn_ok _ _ Hb Hc)) as (index' & -> & _). simpl. intros ?; simplify_eq.
  eapply (upsert_generated_keeps b _ t index' i); [done|done|apply record_item_same|done].
Qed.

(** The turn that a review item opens, with the counter of items at [n]. *)
Lemma review_opened b turn_id n : builder_ok b -> turn_id ∉ map pt_id (all_turns b) -> implicit turn_id = false ->
  exists b1 t, pt_id t = turn_id /\ opened (finish_current_turn b) b1 t /\ follows b b1 /\ next_item_index b1 = next_item_index b /\
    (let self := finish_current_turn (set_next_item_index b n) in
     let '(turn, self) := new_turn self (Some turn_id) in
     set_current (record_changed_pending_turn self turn) turn) = set_next_item_index b1 n.
Proof.
  intros Hb Hid Hi. set (c := finish_current_turn b).
  set (t := fresh_turn (Opaque := Opaque) turn_id (current_rollout_index c)).
  exists (set_current (record_changed_pending_turn c t) t), t.
  assert (opened c (set_current (record_changed_pending_turn c t) t) t) as Ho.
  { by apply open_opened; [apply finish_current_None|..]. }
  split_and!; [done|done|..].
  - eapply same_ids_then; [by apply finish_same_ids|]. fold c.
    eapply (open_explicit_follows c _ t); [apply finish_current_None|done|done|apply set_current_record_same| |done].
    unfold c. by rewrite finish_all_turns.
  - simpl. rewrite (si_items _ _ (record_pending_same c t)). apply (finish_same_ids b Hb).
  - unfold t, c, new_turn, finish_current_turn, record_changed_pending_turn, record_changed_turn, is_tracking_changes, set_current. simpl.
    destruct (current_turn b); simpl; by repeat case_match.
Qed.

Lemma review_follows b turn_id iid b' (mk : rstr -> Item) : builder_ok b -> handling b -> review_wf b turn_id iid ->
  (forall id, item_id (mk id) = id) ->
  (let '(id, self) := id_or_next b iid in upsert_review_mode_item self turn_id (mk id)) = Ok b' -> follows b b'.
Proof.
  intros Hb Hh [Ht Hi] Hmk. destruct turn_id as [turn_id|]; simpl in Ht.
  - destruct Ht as [Htn Hcur].
    destruct iid as [id|]; simpl; (destruct (negb _ && negb _) eqn:E; [|]).
    + assert (turn_id ∉ map pt_id (all_turns b)) as Hid by (by apply known_turn).
      destruct Htn as [|Hn]; [done|].
      destruct (review_opened b turn_id (next_item_index b) Hb Hid Hn) as (b1 & t & Hpt & Ho & Hf & Hx & Eq).
      assert (set_next_item_index b (next_item_index b) = b) as Eb by (by destruct b).
      assert (set_next_item_index b1 (next_item_index b) = b1) as Eb1 by (rewrite <- Hx; by destruct b1).
      rewrite Eb, Eb1 in Eq. intros Hu.
      assert (upsert_item_in_turn_id b1 turn_id (mk id) = Ok b') as Hu' by (rewrite <- Eq; exact Hu). clear Hu. rename Hu' into Hu.
      eapply follows_keeps; [exact Hf|]. eapply upsert_id_keeps; [|by rewrite Hmk|exact Hu].
      eapply opened_turns_ok; [exact Ho|]. by apply finish_builder_ok.
    + intros Hu. apply keeps_follows. eapply upsert_id_keeps; [apply Hb|by rewrite Hmk|exact Hu].
    + assert (turn_id ∉ map pt_id (all_turns b)) as Hid by (by apply known_turn).
      destruct Htn as [|Hn]; [done|].
      destruct (review_opened b turn_id (next_item_index b + 1) Hb Hid Hn) as (b1 & t & Hpt & Ho & Hf & Hx & Eq).
      intros Hu. rewrite <- Hx in *.
      assert (upsert_item_in_turn_id (set_next_item_index b1 (next_item_index b1 + 1)) turn_id (mk (gen_id (next_item_index b1))) = Ok b') as Hu'.
      { rewrite <- Eq. exact Hu. }
      clear Hu. rename Hu' into Hu. eapply follows_keeps; [exact Hf|].
      eapply (upsert_id_generated b1 turn_id _ _ t); [|by eapply handling_follows| |by rewrite Hmk|exact Hu].
      * eapply opened_turns_ok; [exact Ho|]. by apply finish_builder_ok.
      * rewrite <- Hpt. apply current_with_id_current, Ho.
    + intros Hu. apply keeps_follows. destruct (Hcur eq_refl) as [[t Hc]|Hno].
      * eapply (upsert_id_generated b turn_id _ _ t); [apply Hb|done|done|by rewrite Hmk|exact Hu].
      * exfalso. apply andb_false_iff in E. rewrite !negb_false_iff, bool_decide_eq_true, existsb_elem in E.
        change (current_with_id (set_next_item_index b (next_item_index b + 1)) turn_id) with (current_with_id b turn_id) in E.
        destruct E as [[t Hc]|(t & Hin & Et)].
        -- apply current_with_id_Some in Hc as [Hc <-]. apply Hno. unfold all_turns. rewrite Hc, map_app, elem_of_app. right.
           by apply list_elem_of_singleton.
        -- bool_prop. subst. apply Hno. unfold all_turns. rewrite map_app, elem_of_app. left. by apply list_elem_of_fmap_2.
  - destruct iid as [id|]; simpl.
    + intros Hu. eapply upsert_current_follows; [apply Hb|done|by rewrite Hmk|exact Hu].
    + intros Hu. eapply upsert_current_generated; [apply Hb|done| |exact Hu]. by rewrite Hmk.
Qed.

(** *** Rollback *)

Lemma shape_take (ts : list Pending) n : map shape_turn (take n ts) = take n (map shape_turn ts).
Proof. symmetry. apply firstn_map. Qed.

Lemma shape_count (ts : list Pending) : id_count (map shape_turn ts) = item_count ts.
Proof.
  unfold id_count, item_count. induction ts as [|t ts IH]; simpl; [done|]. by rewrite IH, length_map.
Qed.

Lemma item_count_take (ts : list Pending) n : (item_count (take n ts) <= item_count ts)%nat.
Proof.
  unfold item_count. revert n. induction ts as [|t ts IH]; intros [|n]; simpl; [lia..|]. specialize (IH n). lia.
Qed.

Lemma record_removed_same (b : Builder) l : same_ids b (record_removed_turn_ids b l).
Proof. unfold record_removed_turn_ids. by case_match. Qed.

Lemma rollback_follows b n : builder_ok b -> Z.of_nat (item_count (all_turns b)) + 1 <= I64_MAX ->
  follows b (handle_thread_rollback b n).
Proof.
  intros Hb Hc. apply keeps_follows. pose proof (finish_same_ids b Hb) as Hf. unfold handle_thread_rollback. cbn zeta.
  set (c := finish_current_turn b) in *. set (len := length (turns c)). set (k := (len - Z.to_nat n)%nat).
  set (removed := if (len <=? Z.to_nat n)%nat then _ else _).
  assert (turns c = all_turns b) as Ht.
  { rewrite <- (finish_all_turns b Hb). unfold all_turns. fold c. unfold c. rewrite finish_current_None. simpl. by rewrite app_nil_r. }
  rewrite record_removed_turns, record_removed_current. fold len.
  assert ((if (len <=? Z.to_nat n)%nat then [] else take k (turns c)) = take k (turns c)) as ->.
  { destruct (Nat.leb_spec len (Z.to_nat n)); [|done]. unfold k. by rewrite (proj2 (Nat.sub_0_le _ _)). }
  pose proof (record_removed_same c removed) as Hr. rewrite Ht. pose proof (item_count_take (all_turns b) k).
  rewrite Z.min_l by lia. split; simpl; [rewrite (si_line _ _ Hr); apply Hf|rewrite (si_next _ _ Hr); apply Hf|].
  intros line _. unfold state_of. simpl.
  assert (shape (set_next_item_index (set_turns (record_removed_turn_ids c removed) (take k (all_turns b)) (current_turn c))
    (Z.of_nat (item_count (take k (all_turns b))) + 1)) = take k (shape b)) as ->.
  { unfold shape. rewrite <- shape_take. unfold c. rewrite finish_current_None. unfold all_turns at 1. simpl. by rewrite app_nil_r. }
  assert (item_count (take k (all_turns b)) = id_count (take k (shape b))) as E.
  { unfold shape. by rewrite <- shape_take, shape_count. }
  rewrite E. apply rtc_once, step_rollback. rewrite <- E.
  unfold I64_MAX, DEC_MAX in *. lia.
Qed.

(** *** The outcome of turns *)

Lemma change_current_keeps b t t' : current_turn b = Some t -> pt_id t' = pt_id t -> pt_items t' = pt_items t ->
  keeps b (change_current b t').
Proof.
  intros Hc H1 H2. eapply same_shape_keeps; [apply current_changes; [done|apply record_turn_same]|]. unfold shape_turn. congruence.
Qed.

Lemma change_finished_keeps b n t t' : turns b !! n = Some t -> pt_id t' = pt_id t -> pt_items t' = pt_items t ->
  keeps b (change_finished b n t').
Proof.
  intros Hn H1 H2. eapply same_shape_keeps; [apply (finished_changes b n); [done|apply record_turn_same]|]. unfold shape_turn. congruence.
Qed.

Lemma error_follows b payload : follows b (handle_error b payload).
Proof.
  unfold handle_error. case_match; [|apply follows_refl]. destruct (current_turn b) as [t|] eqn:E; [|apply follows_refl].
  apply keeps_follows. by eapply (change_current_keeps b t).
Qed.

Lemma turn_aborted_follows b payload : follows b (handle_turn_aborted b payload).
Proof.
  apply keeps_follows. assert (keeps b (abort_active b payload)) as Ha.
  { unfold abort_active. destruct (current_turn b) as [t|] eqn:E; [by eapply change_current_keeps|by apply same_ids_keeps]. }
  unfold handle_turn_aborted. destruct (ta_turn_id payload) as [id|]; [|done].
  destruct (current_with_id b id) as [t|] eqn:E.
  { apply current_with_id_Some in E as [E _]. by eapply change_current_keeps. }
  destruct (find_turn id (turns b)) as [[n t]|] eqn:Ef; [|done]. apply find_turn_Some in Ef as [Hn _].
  by eapply change_finished_keeps.
Qed.

Lemma turn_complete_follows b payload : builder_ok b -> follows b (handle_turn_complete b payload).
Proof.
  intros Hb. apply keeps_follows.
  assert (forall t, current_turn b = Some t -> keeps b (finish_current_turn (change_current b (apply_completion payload t)))) as Ha.
  { intros t E. destruct (apply_completion_same payload t) as (H1 & H2 & H3 & H4).
    eapply keeps_then_same; [by eapply (change_current_keeps b t)|]. apply finish_same_ids.
    by apply (change_current_sound b t _ E H1 H2 H3 H4). }
  unfold handle_turn_complete. destruct (current_with_id b _) as [t|] eqn:E.
  { apply current_with_id_Some in E as [E _]. by apply Ha. }
  destruct (find_turn _ (turns b)) as [[n t]|] eqn:Ef.
  - apply find_turn_Some in Ef as [Hn _]. destruct (apply_completion_same payload t) as (?&?&_). by eapply change_finished_keeps.
  - destruct (current_turn b) as [t|] eqn:Ec; [by apply Ha|by apply same_ids_keeps].
Qed.

Lemma compacted_follows b : handling b -> follows b (handle_compacted b).
Proof.
  intros Hh. unfold handle_compacted. destruct (ensure_turn b) as [t b1] eqn:E. destruct (ensure_follows b t b1 E Hh) as (Hf & Hc & _).
  eapply follows_keeps; [exact Hf|]. by eapply same_shape_keeps; [apply current_changes|].
Qed.

(** *** Messages *)

Lemma user_message_follows b payload : builder_ok b -> handling b -> follows b (handle_user_message b payload).
Proof.
  intros Hb Hh. unfold handle_user_message. simpl. set (c := match current_turn b with Some _ => _ | None => b end).
  assert (same_ids b c) as Hs. { unfold c. repeat case_match; try done. by apply finish_same_ids. }
  eapply same_ids_then; [exact Hs|]. by apply push_generated_follows; [eapply handling_same|].
Qed.

Lemma agent_message_follows b payload : handling b -> follows b (handle_agent_message b payload).
Proof. intros Hh. unfold handle_agent_message. case_match; [apply follows_refl|]. simpl. by apply push_generated_follows. Qed.

Lemma agent_reasoning_follows b text : handling b -> follows b (handle_agent_reasoning b text).
Proof.
  intros Hh. unfold handle_agent_reasoning. case_match; [apply follows_refl|].
  by apply (reasoning_follows b _ (fun b1 => Reasoning (gen_id (next_item_index b1)) [text] [])).
Qed.

Lemma agent_reasoning_raw_follows b text : handling b -> follows b (handle_agent_reasoning_raw_content b text).
Proof.
  intros Hh. unfold handle_agent_reasoning_raw_content. case_match; [apply follows_refl|].
  by apply (reasoning_follows b _ (fun b1 => Reasoning (gen_id (next_item_index b1)) [] [text])).
Qed.

Lemma context_compacted_follows b : handling b -> follows b (handle_context_compacted b).
Proof. intros Hh. unfold handle_context_compacted. simpl. by apply push_generated_follows. Qed.

Lemma routed_follows b turn_id i b' : turns_ok b -> handling b -> generated (item_id i) = false ->
  upsert_item_routed b turn_id i = Ok b' -> follows b b'.
Proof.
  intros Hb Hh Hg. unfold upsert_item_routed. case_match; [by apply upsert_current_follows|].
  intros Hu. apply keeps_follows. by eapply upsert_id_keeps.
Qed.

End Handlers.

Section Run.
Context {Opaque Url : Type} {Env : ThreadEnv Opaque Url}.
Local Abbreviation Item := (@ThreadItem Opaque).
Local Abbreviation Builder := (@ThreadHistoryBuilder Opaque).
Local Abbreviation Event := (@EventMsg Opaque Url).
Local Abbreviation Line := (@RolloutItem Opaque Url).
Local Abbreviation View := (list (@ThreadHistoryTurnChange Opaque * list Item)).

(** ** What is known of the ids in events *)

(** The item that an event names and that the history puts under that name. *)
Definition event_item (e : Event) : option Item :=
  match e with
  | EvWebSearchBegin call_id => Some (web_search_begin_item call_id)
  | EvWebSearchEnd payload => Some (web_search_end_item payload)
  | EvExecCommandBegin payload => Some (build_command_execution_begin_item payload)
  | EvExecCommandEnd payload => Some (build_command_execution_end_item payload)
  | EvGuardianAssessment payload => status ← guardian_status (ga_status payload); build_item_from_guardian_event payload status
  | EvApplyPatchApprovalRequest payload | EvPatchApplyBegin payload => Some (build_file_change_begin_item payload)
  | EvPatchApplyEnd payload => Some (build_file_change_end_item payload)
  | EvDynamicToolCallRequest payload => Some (dynamic_request_item payload)
  | EvDynamicToolCallResponse payload => Some (dynamic_response_item payload)
  | EvMcpToolCallBegin payload => Some (mcp_item payload McpInProgress None None None)
  | EvMcpToolCallEnd payload => Some (mcp_end_item payload)
  | EvViewImageToolCall call_id path => Some (ImageView call_id (cwd_text path))
  | EvImageGenerationBegin call_id => Some (image_generation_begin_item call_id)
  | EvImageGenerationEnd payload => Some (image_generation_end_item payload)
  | EvCollabAgentSpawnBegin payload => Some (collab_spawn_begin_item payload)
  | EvCollabAgentSpawnEnd payload => Some (collab_spawn_end_item payload)
  | EvCollabAgentInteractionBegin payload => Some (collab_interaction_begin_item payload)
  | EvCollabAgentInteractionEnd payload => Some (collab_interaction_end_item payload)
  | EvSubAgentActivity payload =>
      Some (SubAgentActivity (sa_event_id payload) (sa_kind payload) (sa_agent_thread_id payload) (sa_agent_path payload))
  | EvCollabWaitingBegin payload => Some (collab_waiting_begin_item payload)
  | EvCollabWaitingEnd payload => Some (collab_waiting_end_item payload)
  | EvCollabCloseBegin payload => Some (collab_target_begin_item CloseAgent payload)
  | EvCollabCloseEnd payload => Some (collab_target_end_item CloseAgent payload)
  | EvCollabResumeBegin payload => Some (collab_target_begin_item ResumeAgent payload)
  | EvCollabResumeEnd payload => Some (collab_target_end_item ResumeAgent payload)
  | EvItemStarted _ i | EvItemCompleted _ i _ _ =>
      if should_upsert i && negb (is_review_mode_item i) then Some (thread_item_of_core i) else None
  | _ => None
  end.

(** Names are not of the form of generated ones, a turn that starts is a new one, and review
    items go to a turn as [review_wf] says. *)
Definition event_wf (b : Builder) (e : Event) : Prop :=
  match event_item e with Some i => generated (item_id i) = false | None => True end /\
  match e with
  | EvEnteredReviewMode payload => review_wf b (er_turn_id payload) (er_item_id payload)
  | EvExitedReviewMode payload => review_wf b (xr_turn_id payload) (xr_item_id payload)
  | EvItemStarted turn_id i | EvItemCompleted turn_id i _ _ =>
      is_review_mode_item i = true -> review_wf b (Some turn_id) (Some (turn_item_id i))
  | EvTurnStarted payload => (ts_turn_id payload ∉ map pt_id (all_turns b)) /\ implicit (ts_turn_id payload) = false
  | _ => True
  end.

(** The prompt of a hook is a new item of the current turn. *)
Definition response_item_wf (b : Builder) (i : @ResponseItem Opaque) : Prop :=
  match i with
  | Message id _ content _ _ =>
      match (parse_hook_prompt_message (uuids_drawn b) id content).1 with
      | Some p => generated (hp_id p) = false /\ forall t, current_turn b = Some t -> hp_id p ∉ map item_id (pt_items t)
      | None => True
      end
  | _ => True
  end.

Definition line_wf (b : Builder) (i : Line) : Prop :=
  match i with LineEventMsg e => event_wf b e | LineResponseItem r => response_item_wf b r | LineCompacted | LineOther => True end.

(** Lines and items can be counted. *)
Definition countable (b : Builder) : Prop :=
  next_rollout_index b < I64_MAX /\ Z.of_nat (item_count (all_turns b)) < I64_MAX.

Fixpoint run_wf (b : Builder) (lines : list Line) : Prop :=
  match lines with
  | [] => True
  | i :: lines' => countable b /\ line_wf b i /\ forall b', handle_rollout_item b i = Ok b' -> run_wf b' lines'
  end.

(** ** Every event goes through steps *)

Lemma lifecycle_follows b turn_id i b' : builder_ok b -> handling b ->
  match (if should_upsert i && negb (is_review_mode_item i) then Some (thread_item_of_core i) else None) with
  | Some i => generated (item_id i) = false
  | None => True
  end ->
  (is_review_mode_item i = true -> review_wf b (Some turn_id) (Some (turn_item_id i))) ->
  handle_materialized_item_lifecycle b turn_id i = Ok b' -> follows b b'.
Proof.
  intros Hb Hh Hg Hw. unfold handle_materialized_item_lifecycle. destruct (should_upsert i); [|intros ?; simplify_eq; apply follows_refl].
  destruct (is_review_mode_item i) eqn:Er; simpl in Hg.
  - intros Hu. destruct i as [| | | | | | | | | | | | | |id review|id review| | |]; try done.
    + by eapply (review_follows b (Some turn_id) (Some id) b' (fun id => EnteredReviewMode id review)); [..|by apply Hw| |exact Hu].
    + by eapply (review_follows b (Some turn_id) (Some id) b' (fun id => ExitedReviewMode id (review_output_text review))); [..|by apply Hw| |exact Hu].
  - intros Hu. apply keeps_follows. eapply upsert_id_keeps; [apply Hb|done|exact Hu].
Qed.

Lemma guardian_follows b payload b' : builder_ok b -> handling b ->
  match (status ← guardian_status (ga_status payload); build_item_from_guardian_event payload status) with
  | Some i => generated (item_id i) = false
  | None => True
  end -> handle_guardian_assessment b payload = Ok b' -> follows b b'.
Proof.
  intros Hb Hh. unfold handle_guardian_assessment. destruct (guardian_status _) as [status|]; simpl; [|intros _ ?; simplify_eq; apply follows_refl].
  destruct (build_item_from_guardian_event _ _); [|intros _ ?; simplify_eq; apply follows_refl].
  intros Hg. apply routed_follows; [apply Hb|done..].
Qed.

Lemma handle_event_follows b e b' : builder_ok b -> handling b -> Z.of_nat (item_count (all_turns b)) < I64_MAX -> event_wf b e -> handle_event b e = Ok b' -> follows b b'.
Proof.
  intros Hb Hh Hn [Hg Hw]. pose proof (ok_turns _ Hb) as Ht.
  destruct e; simpl in *; try first [by apply upsert_current_follows|by apply routed_follows|intros Hu; apply keeps_follows; eapply upsert_id_keeps; [exact Ht| |exact Hu]; exact Hg];
    try (intros ?; simplify_eq).
  - by apply user_message_follows.
  - by apply agent_message_follows.
  - by apply agent_reasoning_follows.
  - by apply agent_reasoning_raw_follows.
  - eapply guardian_follows; eassumption.
  - by apply context_compacted_follows.
  - by eapply (review_follows b (er_turn_id payload) (er_item_id payload) b' (fun id => EnteredReviewMode id _)); [done..| |eassumption].
  - by eapply (review_follows b (xr_turn_id payload) (xr_item_id payload) b' (fun id => ExitedReviewMode id _)); [done..| |eassumption].
  - eapply lifecycle_follows; eassumption.
  - eapply lifecycle_follows; eassumption.
  - apply error_follows.
  - apply rollback_follows; [done|lia].
  - apply turn_aborted_follows.
  - by apply turn_started_follows; [|apply Hw..].
  - by apply turn_complete_follows.
  - apply follows_refl.
Qed.

(** ** Runs *)

Record run_ok (b : Builder) : Prop := {
  ro_reachable : reachable b;
  ro_line : 0 <= next_rollout_index b;
  ro_ids : exists line, line <= next_rollout_index b /\ ids_ok (state_of b line);
}.

Lemma run_ok_new : run_ok builder_new.
Proof. split; [constructor|done|]. exists 0. split; [done|apply ids_ok_new]. Qed.

Lemma handle_line_follows b i b' : builder_ok b -> handling b -> Z.of_nat (item_count (all_turns b)) < I64_MAX -> line_wf b i ->
  match i with
  | LineEventMsg event => handle_event b event
  | LineCompacted => Ok (handle_compacted b)
  | LineResponseItem i => Ok (handle_response_item b i)
  | LineOther => Ok b
  end = Ok b' -> follows b b'.
Proof.
  intros Hb Hh Hc Hw. destruct i as [e| |r|]; simpl in *; [by apply handle_event_follows|..]; intros ?; simplify_eq.
  - by apply compacted_follows.
  - destruct r as [id role content| | | | | | | | | | | | | | | |]; try apply follows_refl. unfold handle_response_item. unfold response_item_wf in Hw. destruct (role =s _); [|apply follows_refl].
    destruct (parse_hook_prompt_message _ _ _) as [[p|] drawn]; [|apply follows_refl]. destruct Hw as [Hg Hnew].
    apply (same_ids_then b (set_drawn b drawn)); [done|]. by apply push_plain_follows; [apply (handling_same b)|..].
  - apply follows_refl.
Qed.

Lemma line_run_ok b i b' : run_ok b -> countable b -> line_wf b i -> handle_rollout_item b i = Ok b' -> run_ok b'.
Proof.
  intros [Hr Hn (line & Hl & Hok)] [Hc1 Hc2] Hw E. set (c := set_rollout_index b (next_rollout_index b) (next_rollout_index b + 1)).
  assert (builder_ok c) as Hb. { destruct (reachable_ok b Hr) as [[H1 H2] _]. by split. }
  assert (ids_ok (state_of c line)) as Hokc by exact Hok.
  assert (handling c) as Hh.
  { pose proof (io_next _ Hok) as [Hi _].
    change (1 <= next_item_index b <= Z.of_nat (id_count (map shape_turn (all_turns b))) + 1) in Hi. rewrite shape_count in Hi.
    assert (I64_MAX < DEC_MAX - 1) as Hm by done. split.
    - change (0 <= next_rollout_index b < DEC_MAX - 1). lia.
    - change (next_rollout_index b + 1 <> 0). lia.
    - change (0 <= next_item_index b < DEC_MAX - 1). lia. }
  assert (follows c b') as [H1 H2 H3].
  { exact (handle_line_follows c i b' Hb Hh Hc2 Hw E). }
  destruct (H3 line Hl Hokc) as (line' & Hl' & Hs). split; [by eapply reach_item|rewrite H2; simpl; lia|].
  exists line'. split; [rewrite H2; done|]. by eapply id_steps_ok.
Qed.

Lemma run_ok_run lines : forall b b', run_ok b -> run_wf b lines -> fold_res handle_rollout_item b lines = Ok b' -> run_ok b'.
Proof.
  induction lines as [|i lines IH]; intros b b' Hr Hw; simpl in *; [intros ?; by simplify_eq|]. destruct Hw as (Hc & Hl & Hw).
  destruct (handle_rollout_item b i) as [b1|e|] eqn:E; simpl; [|done..]. eauto using line_run_ok.
Qed.

Lemma run_wf_take n : forall b lines, run_wf b lines -> run_wf b (take n lines).
Proof.
  induction n as [|n IH]; intros b [|i lines]; simpl; [done..|]. intros (Hc & Hl & Hw). split_and!; [done..|]. eauto.
Qed.

Lemma run_wf_app lines1 lines2 : forall b b', run_wf b (lines1 ++ lines2) -> fold_res handle_rollout_item b lines1 = Ok b' ->
  run_wf b lines1 /\ run_wf b' lines2.
Proof.
  induction lines1 as [|i lines1 IH]; intros b b' Hw; simpl in *; [intros ?; by simplify_eq|]. destruct Hw as (Hc & Hl & Hw).
  destruct (handle_rollout_item b i) as [b1|e|] eqn:E; simpl; [|done..]. intros Hf.
  destruct (IH b1 b' (Hw b1 eq_refl) Hf) as [H1 H2]. split; [|done]. split_and!; [done..|]. intros b2 ?; by simplify_eq.
Qed.

Lemma run_ok_unique b : run_ok b -> unique_ids (view b).
Proof. intros [_ _ (line & _ & Hok)]. by eapply shape_unique. Qed.

Lemma run_unique b lines : run_ok b -> run_wf b lines -> unique_run b lines.
Proof. intros Hr Hw n b' Hf. eapply run_ok_unique, run_ok_run; [done| |done]. by apply run_wf_take. Qed.

(** C23. Under what the session guarantees of the ids in its events, at every line of a rollout
    and whatever was rolled back, ids tell the turns of the history and the items of each turn
    apart, and the ids [item-<n>] that the history gives tell the items of the whole thread
    apart, also after a rollback has started their count again. *)
Theorem thread_ids_unique lines n b : run_wf builder_new lines ->
  fold_res handle_rollout_item builder_new (take n lines) = Ok b ->
  NoDup (map turn_id (finish b)) /\ Forall (fun t => NoDup (map item_id (turn_items t))) (finish b) /\
  NoDup (List.filter generated (concat (map (fun t => map item_id (turn_items t)) (finish b)))).
Proof.
  intros Hw Hf. assert (run_ok b) as Hr. { eapply run_ok_run; [apply run_ok_new| |done]. by apply run_wf_take. }
  assert (finish b = map turn_of (all_turns b)) as ->. { apply finish_turns, reachable_ok, Hr. }
  destruct (run_ok_unique b Hr) as [H1 H2]. unfold view in *. rewrite map_map in H1. split_and!.
  - by rewrite map_map.
  - rewrite Forall_map in *. exact H2.
  - destruct (ro_ids _ Hr) as (line & _ & Hok). pose proof (io_gens _ Hok) as Hg. unfold gens in Hg. simpl in Hg.
    unfold shape in Hg. rewrite map_map in *. exact Hg.
Qed.

(** ** A client of batches *)

Definition turn_of_view (e : @ThreadHistoryTurnChange Opaque * list Item) : Turn :=
  {| turn_id := tch_turn_id e.1; turn_items := e.2; turn_error := tch_error e.1; turn_status := tch_status e.1;
     turn_started_at := tch_started_at e.1; turn_completed_at := tch_completed_at e.1; turn_duration_ms := tch_duration_ms e.1 |}.

(** The server handles a batch of lines, the client gets its changes. *)
Definition feed (s : Builder * View) (batch : list Line) : res () (Builder * View) :=
  '(changes, builder) ← handle_rollout_items_with_changes s.1 batch;
  Ok (builder, apply_changes changes s.2).

Lemma feed_run batches : forall b, run_ok b -> run_wf b (concat batches) ->
  exists b', fold_res feed (b, view b) batches = Ok (b', view b') /\ fold_res handle_rollout_item b (concat batches) = Ok b'.
Proof.
  induction batches as [|batch batches IH]; intros b Hr Hw; simpl in *; [by eexists|].
  destruct (batch_changes b batch (ro_reachable _ Hr)) as (cs & b1 & E & E1 & Hv).
  { intros n b1 Hf. eapply (run_unique b _ Hr Hw (min n (length batch))). by rewrite take_app_le, <- take_take, firstn_all by lia. }
  destruct (run_wf_app _ _ _ _ Hw E1) as [Hw1 Hw2].
  destruct (IH b1) as (b' & E2 & E3); [by eapply run_ok_run|done|]. exists b'.
  unfold feed at 2. simpl. rewrite E. cbn [mbind res_bind]. rewrite <- Hv, E2. split; [done|].
  by rewrite fold_res_app, E1.
Qed.

(** C22. However the lines of a rollout are cut into batches, a client that keeps turns and items
    by their ids and applies the coalesced changes of one batch after the other ends with the
    turns that [build_turns_from_rollout_items] makes of all the lines, and no step panics. *)
Theorem client_follows batches : run_wf builder_new (concat batches) ->
  exists b v, fold_res feed (builder_new, []) batches = Ok (b, v) /\
    build_turns_from_rollout_items (concat batches) = Ok (map turn_of_view v).
Proof.
  intros Hw. destruct (feed_run batches builder_new run_ok_new Hw) as (b & E & E1). exists b, (view b). split; [exact E|].
  unfold build_turns_from_rollout_items. rewrite E1. cbn [mbind res_bind]. f_equal.
  rewrite finish_turns by (by eapply reachable_ok, (run_ok_run (concat batches) builder_new); [apply run_ok_new|..]).
  unfold view. by rewrite map_map.
Qed.

End Run.

(** * Thread history on concrete rollouts

    The theorems of the thread history at small rollouts, and a rollout that shows why review
    items without a name must go to the current turn. *)
Module ThreadHistoryDemo.

(** No secrets, commands that are not understood, paths as text, uuids that count. *)
#[export] Instance demo_env : ThreadEnv unit rstr := {|
  json_null := ();
  redact_secrets := fun text => text;
  try_join := fun tokens => Some (concat tokens);
  parse_command := fun _ => [];
  cwd_join := fun _ _ => None;
  cwd_text := fun path => path;
  path_env := {| env_home := None; env_cwd := None |};
  from_xml_str := fun text => Some (text, lit "run");
  now_v7 := fun n => lit "uuid-" ++ dec (Z.of_nat n);
|}.

Abbreviation Line := (@RolloutItem unit rstr).

Definition started (id : string) : Line := LineEventMsg (EvTurnStarted {| ts_turn_id := lit id; ts_started_at := Some 7 |}).
Definition completed (id : string) : Line :=
  LineEventMsg (EvTurnComplete {| tc_turn_id := lit id; tc_error := None; tc_started_at := Some 7; tc_completed_at := Some 9;
                                  tc_duration_ms := Some 2000 |}).
Definition user (text : string) : Line :=
  LineEventMsg (EvUserMessage {| um_client_id := None; um_message := lit text; um_images := None; um_image_details := [];
                                 um_local_images := []; um_local_image_details := []; um_audio := None; um_local_audio := [];
                                 um_text_elements := [] |}).
Definition agent (text : string) : Line :=
  LineEventMsg (EvAgentMessage {| am_message := lit text; am_phase := None; am_memory_citation := None; am_delivery := None;
                                  am_questions := None |}).
Definition reasoning (text : string) : Line := LineEventMsg (EvAgentReasoning (lit text)).
Definition search (call_id : string) : Line := LineEventMsg (EvWebSearchBegin (lit call_id)).
Definition found (call_id : string) : Line :=
  LineEventMsg (EvWebSearchEnd {| se_call_id := lit call_id; se_query := lit "q"; se_action := (); se_results := None |}).
Definition rollback (n : Z) : Line := LineEventMsg (EvThreadRolledBack n).
Definition review (turn_id : string) : Line :=
  LineEventMsg (EvEnteredReviewMode {| er_user_facing_hint := None; er_turn_id := Some (lit turn_id); er_item_id := None |}).

(** The ids of a history. *)
Definition ids_of (r : res () (list (@Turn unit))) : list (rstr * list rstr) :=
  match r with Ok ts => map (fun t => (turn_id t, map item_id (turn_items t))) ts | _ => [] end.

(** A turn that no event opened, two turns, the last of which is rolled back after its item
    was completed, and a turn that gets the numbers again. *)
Definition session : list (list Line) :=
  [[user "hello"; agent "hi"]; [started "t1"; user "look it up"; search "call-1"; reasoning "hm"];
   [reasoning "so"; found "call-1"; completed "t1"; started "t2"; user "never mind"]; [rollback 1; started "t3"; user "again"];
   [LineCompacted; agent "done"; completed "t3"]].

Example session_ids : ids_of (build_turns_from_rollout_items (concat session)) =
  [(lit "rollout-0", [lit "item-1"; lit "item-2"]); (lit "t1", [lit "item-3"; lit "call-1"; lit "item-4"]);
   (lit "t3", [lit "item-6"; lit "item-7"])].
Proof. vm_compute. reflexivity. Qed.

(** Evaluates the guarantees of a line and goes on with the next one. *)
Ltac wf_fact := first [exact I | reflexivity | lia | (apply (bool_decide_unpack _); vm_compute; exact I)].
Ltac wf_line :=
  cbn [run_wf]; split; [split; vm_compute; reflexivity|]; split;
  [first [exact I | (split; [vm_compute; wf_fact|first [exact I | (split; wf_fact)]])]|];
  let E := fresh in intros ? E; vm_compute in E; injection E as <-.

Lemma session_wf : run_wf builder_new (concat session).
Proof. unfold session. cbn [concat app]. repeat wf_line. exact I. Qed.

Lemma thread_ids_unique_witness : run_wf builder_new (concat session) /\
  exists b, fold_res handle_rollout_item builder_new (take 20 (concat session)) = Ok b /\
    NoDup (List.filter generated (concat (map (fun t => map item_id (turn_items t)) (finish b)))).
Proof.
  split; [exact session_wf|]. eexists. split; [vm_compute; reflexivity|].
  eapply (thread_ids_unique (concat session) 20); [exact session_wf|vm_compute; reflexivity].
Defined.

Lemma client_follows_witness : run_wf builder_new (concat session) /\
  exists b v, fold_res feed (builder_new, []) session = Ok (b, v) /\
    build_turns_from_rollout_items (concat session) = Ok (map turn_of_view v).
Proof. split; [exact session_wf|]. apply (client_follows session). exact session_wf. Defined.

Lemma history_total_witness :
  exists b, reachable b /\ fold_res handle_rollout_item builder_new (concat session) = Ok b /\
    exists cs b', handle_rollout_item_with_changes b (user "more") = Ok (cs, b') /\
      handle_rollout_item b (user "more") = Ok b' /\ finish b' = map turn_of (all_turns b').
Proof.
  assert (forall (lines : list Line) b b', reachable b -> fold_res handle_rollout_item b lines = Ok b' -> reachable b') as Hr.
  { induction lines as [|i lines IH]; intros b b' Hb; simpl; [intros ?; by simplify_eq|].
    destruct (handle_rollout_item b i) as [b1|e|] eqn:E; simpl; [|done..]. apply IH. by eapply reach_item. }
  eexists. assert (fold_res handle_rollout_item builder_new (concat session) = Ok _) as E by (vm_compute; reflexivity).
  split; [|split; [exact E|]]; [exact (Hr _ _ _ reach_new E)|]. apply (history_total _ (user "more")). exact (Hr _ _ _ reach_new E).
Defined.

(** A review item without a name that goes to an older turn takes a number above the count of
    the items that a rollback keeps: the next item gets the same id. *)
Theorem unnamed_review_repeats_id :
  ids_of (build_turns_from_rollout_items
    [started "t1"; user "one"; completed "t1"; started "t2"; user "two"; review "t1"; rollback 1; started "t3"; user "three"]) =
  [(lit "t1", [lit "item-1"; lit "item-3"]); (lit "t3", [lit "item-3"])].
Proof. vm_compute. reflexivity. Qed.

End ThreadHistoryDemo.
