(* ===== verification/Interaction.v ===== *)
(** * Interaction

    Code that waits for answers of other parties, the user, a reviewer, a process, is a
    program that asks and goes on with the answer. Nothing is assumed of the answers, and a
    program may be dropped while it waits, as a future is when its task is cancelled: what
    holds of all partial runs holds of every execution. *)
From S2P Require Import Prelude.

Set Default Goal Selector "!".

Section Interaction.
Context {Event : Type} {Answer : Event -> Type}.

Inductive prog (A : Type) :=
| Return (a : A)
| Ask (e : Event) (k : Answer e -> prog A).
Arguments Return {A} a.
Arguments Ask {A} e k.

Definition ask (e : Event) : prog (Answer e) := Ask e Return.

#[global] Instance prog_ret : MRet prog := fun A a => Return a.

#[global] Instance prog_bind : MBind prog := fun A B f =>
  fix bind (p : prog A) : prog B :=
    match p with Return a => f a | Ask e k => Ask e (fun r => bind (k r)) end.

(** An event and its answer. *)
Definition exchange : Type := sigT Answer.

Definition said (e : Event) (r : Answer e) : exchange := existT e r.

(** A program that has got some answers. *)
Inductive steps {A} : prog A -> list exchange -> prog A -> Prop :=
| steps_nil p : steps p [] p
| steps_ask e k r t p : steps (k r) t p -> steps (Ask e k) (said e r :: t) p.

(** It asks [e] after the exchanges [t]. *)
Definition asks {A} (p : prog A) (t : list exchange) (e : Event) : Prop := exists k, steps p t (Ask e k).

Definition returns {A} (p : prog A) (t : list exchange) (a : A) : Prop := steps p t (Return a).

(** Whatever is answered: [P] holds of every event and the exchanges before it, and [Q] of the
    result. *)
Fixpoint always {A} (P : list exchange -> Event -> Prop) (Q : list exchange -> A -> Prop) (h : list exchange) (p : prog A) : Prop :=
  match p with
  | Return a => Q h a
  | Ask e k => P h e /\ forall r, always P Q (h ++ [said e r]) (k r)
  end.

Lemma always_bind {A B} P (Q : list exchange -> B -> Prop) (p : prog A) (f : A -> prog B) : forall h,
  always P (fun h a => always P Q h (f a)) h p -> always P Q h (p ≫= f).
Proof. induction p as [a|e k IH]; intros h; [done|]. intros [H1 H2]. split; [done|]. intros r. apply IH, H2. Qed.

Lemma always_mono {A} (P P' : list exchange -> Event -> Prop) (Q Q' : list exchange -> A -> Prop) p : forall h,
  (forall h e, P h e -> P' h e) -> (forall h a, Q h a -> Q' h a) -> always P Q h p -> always P' Q' h p.
Proof. induction p as [a|e k IH]; intros h HP HQ; simpl; [auto|]. intros [H1 H2]. split; auto. Qed.

Lemma always_asks {A} P Q (p : prog A) t e : forall h, always P Q h p -> asks p t e -> P (h ++ t) e.
Proof.
  intros h Ha [k Hs]. remember (Ask e k) as q eqn:Eq. revert h Ha. induction Hs as [p|e' k' r t p Hs IH]; intros h Ha; subst.
  - rewrite app_nil_r. apply Ha.
  - destruct Ha as [_ Ha]. specialize (IH eq_refl _ (Ha r)). by rewrite <- app_assoc in IH.
Qed.

Lemma always_returns {A} P Q (p : prog A) t a : forall h, always P Q h p -> returns p t a -> Q (h ++ t) a.
Proof.
  intros h Ha Hs. unfold returns in Hs. remember (Return a) as q eqn:Eq. revert h Ha.
  induction Hs as [p|e' k' r t p Hs IH]; intros h Ha; subst.
  - by rewrite app_nil_r.
  - destruct Ha as [_ Ha]. specialize (IH eq_refl _ (Ha r)). by rewrite <- app_assoc in IH.
Qed.

Lemma steps_snoc {A} (p : prog A) t e k (r : Answer e) : steps p t (Ask e k) -> steps p (t ++ [said e r]) (k r).
Proof.
  remember (Ask e k) as q eqn:Eq. induction 1 as [p|e' k' r' t p Hs IH]; subst; [|constructor; by apply IH].
  rewrite <- (app_nil_l [_]). repeat constructor.
Qed.

Lemma always_itself {A} (p0 p : prog A) : forall h, steps p0 h p -> always (asks p0) (returns p0) h p.
Proof.
  induction p as [a|e k IH]; intros h Hs; [done|]. split; [by exists k|]. intros r. by apply IH, steps_snoc.
Qed.

(** What is made of the result asks nothing. *)
Lemma asks_then_return {A B} (p : prog A) (g : A -> B) t e : asks (a ← p; Return (g a)) t e -> asks p t e.
Proof.
  apply (always_asks (asks p) (fun _ _ => True) _ _ _ []). apply always_bind.
  eapply always_mono; [done| |apply (always_itself p p); constructor]. done.
Qed.

(** A party that answers every event. *)
Fixpoint answered {A} (reply : forall e, Answer e) (p : prog A) : list exchange * A :=
  match p with
  | Return a => ([], a)
  | Ask e k => let '(t, a) := answered reply (k (reply e)) in (said e (reply e) :: t, a)
  end.

(** What it is asked on the way. *)
Fixpoint asked {A} (reply : forall e, Answer e) (h : list exchange) (p : prog A) : list (list exchange * Event) :=
  match p with Return _ => [] | Ask e k => (h, e) :: asked reply (h ++ [said e (reply e)]) (k (reply e)) end.

Lemma asked_asks {A} reply (p0 p : prog A) t e : forall h, steps p0 h p -> (t, e) ∈ asked reply h p -> asks p0 t e.
Proof.
  induction p as [a|e' k IH]; intros h Hs; simpl; [by intros ?%elem_of_nil|]. intros [[= -> ->]|Hin]%elem_of_cons; [by exists k|].
  eapply IH; [|exact Hin]. by apply steps_snoc.
Qed.

Lemma answered_returns {A} reply (p : prog A) : returns p (answered reply p).1 (answered reply p).2.
Proof.
  induction p as [a|e k IH]; simpl; [constructor|]. specialize (IH (reply e)).
  destruct (answered reply (k (reply e))) as [t a]. by constructor.
Qed.

(** The number of events of a kind that are still to come is bounded. *)
Fixpoint at_most {A} (kind : Event -> bool) (n : nat) (p : prog A) : Prop :=
  match p with
  | Return _ => True
  | Ask e k => if kind e then match n with O => False | S n' => forall r, at_most kind n' (k r) end
               else forall r, at_most kind n (k r)
  end.

Lemma at_most_steps {A} kind (p p' : prog A) t : forall n, at_most kind n p -> steps p t p' ->
  (length (List.filter (fun x => kind (projT1 x)) t) <= n)%nat.
Proof.
  intros n Ha Hs. revert n Ha. induction Hs as [p|e k r t p Hs IH]; intros n Ha; simpl in *; [lia|].
  destruct (kind e) eqn:E; simpl.
  - destruct n as [|n]; [done|]. specialize (IH n (Ha r)). lia.
  - by apply IH.
Qed.

Lemma at_most_mono {A} kind (p : prog A) : forall n m, (n <= m)%nat -> at_most kind n p -> at_most kind m p.
Proof.
  induction p as [a|e k IH]; intros n m Hnm; simpl; [done|]. destruct (kind e); [|eauto].
  destruct n as [|n]; [done|]. destruct m as [|m]; [lia|]. intros H r. eapply IH; [|by apply H]. lia.
Qed.

Lemma at_most_bind {A B} kind n m (p : prog A) (f : A -> prog B) :
  at_most kind n p -> (forall a, at_most kind m (f a)) -> at_most kind (n + m) (p ≫= f).
Proof.
  intros Hp Hf. revert n Hp. induction p as [a|e k IH]; intros n Hp; simpl in *.
  - eapply at_most_mono; [|apply Hf]. lia.
  - destruct (kind e); [|intros r; by apply IH]. destruct n as [|n]; [done|]. intros r. by apply IH.
Qed.

End Interaction.
Arguments prog {Event} Answer A.
Arguments Return {Event Answer A} a.
Arguments Ask {Event Answer A} e k.
