(* ===== verification/ToolApproval.v ===== *)
(** * Approvals

    Models [workx-rs/core/src/tools/approvals.rs] and the approval cache of
    [core/src/tools/sandboxing.rs], with [core/src/tools/hook_names.rs], the requests that
    [core/src/session/mod.rs] sends to the user, and the decisions that
    [protocol/src/approvals.rs] offers: who is asked before a tool runs, in which order, and
    what counts as a yes.

    Hooks, the automatic reviewer (the guardian), the user and the cache are parties of an
    interaction; the identifiers of reviews, telemetry and logging are left out. A MCP tool
    call asks the user through [request_mcp_tool_user_approval], one question here. *)
From S2P Require Import Prelude AbsPath PathUri SandboxPolicy Approval ExecApproval PolicyTransforms NetworkProxy WorldState ThreadItems Interaction.

Set Default Goal Selector "!".

Local Open Scope Z_scope.

(** ** Decisions *)

Inductive NetworkApprovalProtocol := ApprovalHttp | ApprovalHttps | ApprovalSocks5Tcp | ApprovalSocks5Udp.

Record NetworkApprovalContext := { nc_host : rstr; nc_protocol : NetworkApprovalProtocol }.

Inductive NetworkPolicyRuleAction := RuleAllow | RuleDeny.

Record NetworkPolicyAmendment := { am_host : rstr; am_action : NetworkPolicyRuleAction }.

Inductive ReviewDecision :=
| Approved
| ApprovedExecpolicyAmendment (proposed_execpolicy_amendment : list rstr)
| ApprovedForSession
| ApprovedMcpPolicyAmendment
| NetworkAmendment (amendment : NetworkPolicyAmendment)
| Denied (rejection : rstr)
| TimedOut
| DecisionAbort.

#[export] Instance NetworkPolicyRuleAction_eq_dec : EqDecision NetworkPolicyRuleAction.
Proof. solve_decision. Defined.
#[export] Instance NetworkPolicyAmendment_eq_dec : EqDecision NetworkPolicyAmendment.
Proof. solve_decision. Defined.
#[export] Instance ReviewDecision_eq_dec : EqDecision ReviewDecision.
Proof. solve_decision. Defined.

Inductive PermissionRequestDecision := HookAllow | HookDeny (message : rstr).

Inductive ApprovalsReviewer := ReviewerUser | ReviewerAutoReview.

Inductive ExecApprovalKind := KindCommand | KindWriteStdin.

Definition routes_approval_policy_to_guardian (approval_policy : AskForApproval) (approvals_reviewer : ApprovalsReviewer) : bool :=
  match approval_policy, approvals_reviewer with
  | (OnRequest | Granular _), ReviewerAutoReview => true
  | _, _ => false
  end.

(** ** Names *)

Record ToolName := { tn_name : rstr; tn_namespace : option rstr }.

Definition DEFAULT_FUNCTION_NAMESPACE : rstr := lit "functions".

Definition is_default_namespace (self : ToolName) : bool :=
  match tn_namespace self with None => true | Some namespace => is_empty namespace || (namespace =s DEFAULT_FUNCTION_NAMESPACE) end.

Definition flat_tool_name (tool_name : ToolName) : rstr :=
  if is_default_namespace tool_name then tn_name tool_name
  else match tn_namespace tool_name with Some namespace => namespace ++ tn_name tool_name | None => tn_name tool_name end.

Record HookToolName := { hn_name : rstr; hn_matcher_aliases : list rstr }.

Definition hook_name_new (name : rstr) : HookToolName := {| hn_name := name; hn_matcher_aliases := [] |}.

Definition hook_name_apply_patch : HookToolName :=
  {| hn_name := lit "apply_patch"; hn_matcher_aliases := [lit "Write"; lit "Edit"] |}.

Definition hook_name_bash : HookToolName := hook_name_new (lit "Bash").

Record PermissionRequestPayload := { pp_tool_name : HookToolName; pp_tool_input : Value }.

(** [serde_json::Map] keeps its keys sorted: [command] comes before [description]. *)
Definition payload_bash (command : rstr) (description : option rstr) : PermissionRequestPayload :=
  {| pp_tool_name := hook_name_bash;
     pp_tool_input := VObject ([(lit "command", VString command)]
       ++ match description with Some d => [(lit "description", VString d)] | None => [] end) |}.

(** ** Errors *)

Record NetworkPolicyDecisionPayload := {
  dp_decision : NetworkPolicyDecision;
  dp_source : NetworkDecisionSource;
  dp_protocol : option NetworkApprovalProtocol;
  dp_host : option rstr;
  dp_reason : option rstr;
  dp_port : option Z;
}.

(** The details of an error that the callers tell apart; other errors are their texts. *)
Inductive WorkxErr :=
| SandboxDenied (output : rstr) (network_policy_decision : option NetworkPolicyDecisionPayload)
| SandboxTimeout (output : rstr)
| SandboxSignal (signal : Z)
| TurnAborted
| OtherError (message : rstr).

Inductive ToolError := Rejected (message : rstr) | WorkxError (err : WorkxErr).

Section Approvals.
Context {Opaque Url : Type} `{UrlCrate Url}.
Variable crates : Crates.
Variable host : Host.
Set Default Proof Using "Type".
Local Abbreviation Permissions := (@AdditionalPermissionProfile Url).

(** ** Actions *)

Record GuardianNetworkAccessTrigger := {
  gt_call_id : rstr;
  gt_tool_name : rstr;
  gt_command : list rstr;
  gt_cwd : Url;
  gt_sandbox_permissions : SandboxPermissions;
  gt_additional_permissions : option Permissions;
  gt_justification : option rstr;
  gt_tty : option bool;
}.

Inductive ApprovalAction :=
| ExecCommandAction (id environment_id : rstr) (command : list rstr) (hook_command : rstr) (cwd : Url)
    (sandbox_permissions : SandboxPermissions) (additional_permissions : option Permissions) (justification : option rstr)
    (tty : bool) (proposed_execpolicy_amendment : option (list rstr))
| WriteStdinAction (id approval_id environment_id : rstr) (process_id : Z) (input : rstr) (cwd : Url) (tty : bool)
    (sandbox_permissions : SandboxPermissions) (additional_permissions : option Permissions)
| ExecveAction (id approval_id environment_id : rstr) (source : Opaque) (program : AbsolutePathBuf) (argv command : list rstr)
    (cwd : AbsolutePathBuf) (additional_permissions : option Permissions)
| ApplyPatchAction (id environment_id : rstr) (cwd : Url) (files : list Url) (patch : rstr)
    (changes : list (rstr * FileChangeContent)) (permissions_preapproved : bool)
| McpToolCallAction (id server tool_name : rstr) (arguments : option Value) (details : Opaque) (hook_tool_name : HookToolName)
    (approval_policy : AskForApproval) (reviewer : ApprovalsReviewer) (settings : Opaque)
| NetworkAccessAction (id turn_id environment_id target host : rstr) (protocol : NetworkApprovalProtocol) (port : Z)
    (trigger : option GuardianNetworkAccessTrigger) (hook_command hook_run_id : rstr) (command : list rstr) (cwd : AbsolutePathBuf)
| RequestPermissionsAction (id turn_id : rstr) (reason : option rstr) (permissions : Opaque).

Record UnifiedExecApprovalKey := {
  uk_environment_id : rstr;
  uk_executable : option rstr;
  uk_command : list rstr;
  uk_cwd : Url;
  uk_tty : bool;
  uk_sandbox_permissions : SandboxPermissions;
  uk_additional_permissions : option Permissions;
}.

Inductive ApprovalCacheKey := ExecCommandKey (key : UnifiedExecApprovalKey) | ApplyPatchKey (environment_id : rstr) (path : Url).

(** What is serialised to the key of the cache: for a command with the fingerprint of the
    policy of its environment, for a patch alone. *)
Inductive CacheKey := WithFingerprint (key : ApprovalCacheKey) (fingerprint : option rstr) | Plain (key : ApprovalCacheKey).

Definition cache_keys (self : ApprovalAction) : list ApprovalCacheKey :=
  match self with
  | ExecCommandAction _ environment_id command _ cwd sandbox_permissions additional_permissions _ tty _ =>
      [ExecCommandKey {| uk_environment_id := environment_id; uk_executable := head command;
                         uk_command := canonicalize_command_for_approval crates command; uk_cwd := cwd; uk_tty := tty;
                         uk_sandbox_permissions := sandbox_permissions;
                         uk_additional_permissions := additional_permissions |}]
  | ApplyPatchAction _ environment_id _ files _ _ _ => map (ApplyPatchKey environment_id) files
  | ExecveAction _ _ _ _ _ _ _ _ _ | McpToolCallAction _ _ _ _ _ _ _ _ _ | NetworkAccessAction _ _ _ _ _ _ _ _ _ _ _ _
  | RequestPermissionsAction _ _ _ _ | WriteStdinAction _ _ _ _ _ _ _ _ _ => []
  end.

(** Serialisations of [serde_json], the texts of errors, and the text for a review that timed out. *)
Record ApprovalEnv := {
  ae_permissions_json : option Permissions -> Value;
  ae_request_permissions_json : Opaque -> Value;
  (** [guardian_timeout_message] of the model of the turn. *)
  ae_timeout_message : rstr;
  ae_uri_error : PathUriParseError -> rstr;
  ae_path_error : PathError -> rstr;
}.
Variable aenv : ApprovalEnv.

Definition sandbox_permissions_json (p : SandboxPermissions) : Value :=
  VString match p with
          | UseDefault => lit "use_default"
          | RequireEscalated => lit "require_escalated"
          | WithAdditionalPermissions => lit "with_additional_permissions"
          end.

Definition permission_request_payload (self : ApprovalAction) : PermissionRequestPayload :=
  match self with
  | ExecCommandAction _ _ _ hook_command _ _ _ justification _ _ => payload_bash hook_command justification
  | WriteStdinAction id approval_id environment_id process_id input cwd tty sandbox_permissions additional_permissions =>
      {| pp_tool_name := hook_name_new (lit "write_stdin");
         pp_tool_input := VObject
           [(lit "additional_permissions", ae_permissions_json aenv additional_permissions);
            (lit "approval_id", VString approval_id); (lit "chars", VString input); (lit "cwd", VString (url_as_str cwd));
            (lit "environment_id", VString environment_id); (lit "parent_call_id", VString id);
            (lit "sandbox_permissions", sandbox_permissions_json sandbox_permissions);
            (lit "session_id", VNumber (dec process_id)); (lit "tty", VBool tty)] |}
  | ExecveAction _ _ _ _ _ _ command _ _ =>
      payload_bash (default (lit "<command included NUL byte>") (shlex_try_join crates command)) None
  | ApplyPatchAction _ _ _ _ patch _ _ =>
      {| pp_tool_name := hook_name_apply_patch; pp_tool_input := VObject [(lit "command", VString patch)] |}
  | McpToolCallAction _ _ _ arguments _ hook_tool_name _ _ _ =>
      {| pp_tool_name := hook_tool_name; pp_tool_input := default (VObject []) arguments |}
  | NetworkAccessAction _ _ _ target _ _ _ _ hook_command _ _ _ =>
      payload_bash hook_command (Some (lit "network-access " ++ target))
  | RequestPermissionsAction _ _ reason permissions =>
      {| pp_tool_name := hook_name_new (lit "request_permissions");
         pp_tool_input := VObject
           [(lit "permissions", ae_request_permissions_json aenv permissions);
            (lit "reason", match reason with Some r => VString r | None => VNull end)] |}
  end.
(** ** Requests to the guardian *)

Inductive GuardianApprovalRequest :=
| GuardianExecCommand (id : rstr) (command : list rstr) (cwd : AbsolutePathBuf) (sandbox_permissions : SandboxPermissions)
    (additional_permissions : option Permissions) (justification : option rstr) (tty : bool)
| GuardianWriteStdin (id approval_id environment_id : rstr) (process_id : Z) (input : rstr) (cwd : Url) (tty : bool)
    (sandbox_permissions : SandboxPermissions) (additional_permissions : option Permissions)
| GuardianExecve (id : rstr) (source : Opaque) (program : rstr) (argv : list rstr) (cwd : AbsolutePathBuf)
    (additional_permissions : option Permissions)
| GuardianApplyPatch (id : rstr) (cwd : AbsolutePathBuf) (files : list AbsolutePathBuf) (patch : rstr)
| GuardianNetworkAccess (id turn_id target host : rstr) (protocol : NetworkApprovalProtocol) (port : Z)
    (trigger : option GuardianNetworkAccessTrigger)
| GuardianMcpToolCall (id server tool_name : rstr) (arguments : option Value) (details : Opaque)
| GuardianRequestPermissions (id turn_id : rstr) (reason : option rstr) (permissions : Opaque).

Definition LOCAL_ENVIRONMENT_ID : rstr := lit "local".

(** The error is its text. *)
Definition guardian_cwd (environment_id : rstr) (cwd : Url) : res rstr AbsolutePathBuf :=
  let uri := lit "local cwd URI " ++ [BACKTICK] ++ url_as_str cwd ++ [BACKTICK] in
  match to_abs_path (h_env host) cwd with
  | Ok cwd => Ok cwd
  | Err err =>
      if environment_id =s LOCAL_ENVIRONMENT_ID then
        match url_to_file_path cwd with
        | None => Err (uri ++ lit " is not a host-native path")
        | Some path =>
            match from_absolute_path_checked (h_env host) path with
            | Ok path => Ok path
            | Err err => Err (uri ++ lit " is not absolute: " ++ ae_path_error aenv err)
            | Panic => Panic
            end
        end
      else Err (ae_uri_error aenv err)
  | Panic => Panic
  end.

Definition file_abs_path (path : Url) : res rstr AbsolutePathBuf :=
  match to_abs_path (h_env host) path with Ok p => Ok p | Err err => Err (ae_uri_error aenv err) | Panic => Panic end.

Definition into_guardian_request (self : ApprovalAction) : res rstr GuardianApprovalRequest :=
  match self with
  | ExecCommandAction id environment_id command _ cwd sandbox_permissions additional_permissions justification tty _ =>
      cwd ← guardian_cwd environment_id cwd;
      Ok (GuardianExecCommand id command cwd sandbox_permissions additional_permissions justification tty)
  | WriteStdinAction id approval_id environment_id process_id input cwd tty sandbox_permissions additional_permissions =>
      Ok (GuardianWriteStdin id approval_id environment_id process_id input cwd tty sandbox_permissions additional_permissions)
  | ExecveAction id _ _ source program argv _ cwd additional_permissions =>
      Ok (GuardianExecve id source (path_string program) argv cwd additional_permissions)
  | ApplyPatchAction id environment_id cwd files patch _ _ =>
      cwd ← guardian_cwd environment_id cwd;
      files ← map_res file_abs_path files;
      Ok (GuardianApplyPatch id cwd files patch)
  | McpToolCallAction id server tool_name arguments details _ _ _ _ =>
      Ok (GuardianMcpToolCall id server tool_name arguments details)
  | NetworkAccessAction id turn_id _ target host protocol port trigger _ _ _ _ =>
      Ok (GuardianNetworkAccess id turn_id target host protocol port trigger)
  | RequestPermissionsAction id turn_id reason permissions => Ok (GuardianRequestPermissions id turn_id reason permissions)
  end.

(** ** The parties *)

(** A request to the user: of [request_command_approval], [request_patch_approval] and
    [request_mcp_tool_user_approval]. The fields for display that are computed from these, and
    times, are left out. *)
Inductive UserQuestion :=
| CommandQuestion (kind : ExecApprovalKind) (call_id : rstr) (approval_id environment_id : option rstr) (command : list rstr)
    (cwd : Url) (reason : option rstr) (network_approval_context : option NetworkApprovalContext)
    (proposed_execpolicy_amendment : option (list rstr)) (additional_permissions : option Permissions)
    (available_decisions : list ReviewDecision)
| PatchQuestion (call_id : rstr) (changes : list (rstr * FileChangeContent)) (reason : option rstr)
| McpQuestion (call_id : rstr) (action : ApprovalAction).

Record ApprovalRequestReasons := { ar_approval : option rstr; ar_retry : option rstr }.

(** [network_approval.rs]: what a tool declares of its network use, and a registered call. The
    proxy and the tokens are handles. *)
Record NetworkApprovalSpec := {
  ns_network : option Z;
  ns_trigger : GuardianNetworkAccessTrigger;
  ns_tool_name : ToolName;
  ns_command : rstr;
  ns_environment_id : rstr;
  ns_permission_profile : @PermissionProfile Url;
  ns_network_policy : option Opaque;
}.

Record DeferredNetworkApproval := { df_registration_id : rstr; df_cancellation_token : Z; df_execution_proxy : Z }.

Record ActiveNetworkApproval := { an_registration_id : option rstr; an_cancellation_token : Z; an_execution_proxy : Z }.

Definition into_deferred (self : ActiveNetworkApproval) : option DeferredNetworkApproval :=
  (fun registration_id =>
     {| df_registration_id := registration_id; df_cancellation_token := an_cancellation_token self;
        df_execution_proxy := an_execution_proxy self |}) <$> an_registration_id self.

(** [SandboxAttempt], without the manager, which holds no policy. *)
Record SandboxAttempt := {
  at_sandbox : SandboxType;
  at_sandbox_requested : bool;
  at_permissions : @PermissionProfile Url;
  at_exec_server_permissions : @PermissionProfile Url;
  at_enforce_managed_network : bool;
  at_sandbox_cwd : Url;
  at_workspace_roots : list Url;
  at_workx_linux_sandbox_exe : option rstr;
  at_use_legacy_landlock : bool;
  at_windows_sandbox_level : WindowsSandboxLevel;
  at_windows_sandbox_private_desktop : bool;
  at_network_denial_cancellation_token : option Z;
  at_network_proxy : option Z;
}.

(** What is asked of hooks, the guardian, the user, the cache of approvals, the service for
    network approvals, and the tool that runs. *)
Inductive Event :=
| AskHooks (run_id : rstr) (payload : PermissionRequestPayload)
| AskGuardian (spawned : bool) (request : GuardianApprovalRequest) (reasons : ApprovalRequestReasons)
| AskUser (question : UserQuestion)
| CacheHas (keys : list CacheKey)
| CachePut (keys : list CacheKey)
| StartNetwork (spec : NetworkApprovalSpec)
| FinishNetwork (deferred : DeferredNetworkApproval)
| RunTool (attempt : SandboxAttempt).

(** Why a proxy could not be set up for a call. *)
Inductive NetworkStartError := StartRejected (message : rstr) | StartIo (message : rstr).

(** A spawned review may fail to complete, and the channel of a question to the user may be
    closed. The end of a network approval answers with the reason for a denial, if there was
    one. *)
Definition Answer (Out : Type) (e : Event) : Type :=
  match e with
  | AskHooks _ _ => option PermissionRequestDecision
  | AskGuardian spawned _ _ => if spawned then option ReviewDecision else ReviewDecision
  | AskUser _ => option ReviewDecision
  | CacheHas _ => bool
  | CachePut _ => unit
  | StartNetwork _ => option ActiveNetworkApproval + NetworkStartError
  | FinishNetwork _ => option rstr
  | RunTool _ => Out + ToolError
  end.

Context {Out : Type}.
Local Abbreviation M := (prog (Answer Out)).

(** ** Asking *)

Definition find_allow (amendments : list NetworkPolicyAmendment) : option NetworkPolicyAmendment :=
  head (List.filter (fun a => bool_decide (am_action a = RuleAllow)) amendments).

Definition default_available_decisions (network_approval_context : option NetworkApprovalContext)
    (proposed_execpolicy_amendment : option (list rstr)) (proposed_network_policy_amendments : option (list NetworkPolicyAmendment))
    (additional_permissions : option Permissions) : list ReviewDecision :=
  match network_approval_context with
  | Some _ =>
      [Approved; ApprovedForSession]
      ++ match proposed_network_policy_amendments ≫= find_allow with Some a => [NetworkAmendment a] | None => [] end
      ++ [DecisionAbort]
  | None =>
      match additional_permissions with
      | Some _ => [Approved; DecisionAbort]
      | None =>
          [Approved]
          ++ match proposed_execpolicy_amendment with Some prefix => [ApprovedExecpolicyAmendment prefix] | None => [] end
          ++ [DecisionAbort]
      end
  end.

Definition request_command_approval (kind : ExecApprovalKind) (call_id : rstr) (approval_id environment_id : option rstr)
    (command : list rstr) (cwd : Url) (reason : option rstr) (network_approval_context : option NetworkApprovalContext)
    (proposed_execpolicy_amendment : option (list rstr)) (additional_permissions : option Permissions)
    (available_decisions : option (list ReviewDecision)) : M ReviewDecision :=
  let proposed_network_policy_amendments :=
    (fun context => [{| am_host := nc_host context; am_action := RuleAllow |}; {| am_host := nc_host context; am_action := RuleDeny |}])
    <$> network_approval_context in
  let available_decisions :=
    default (default_available_decisions network_approval_context proposed_execpolicy_amendment
               proposed_network_policy_amendments additional_permissions) available_decisions in
  answer ← ask (AskUser (CommandQuestion kind call_id approval_id environment_id command cwd reason network_approval_context
                           proposed_execpolicy_amendment additional_permissions available_decisions));
  Return (default DecisionAbort answer).

Definition request_patch_approval (call_id : rstr) (changes : list (rstr * FileChangeContent)) (reason : option rstr) : M ReviewDecision :=
  answer ← ask (AskUser (PatchQuestion call_id changes reason)); Return (default DecisionAbort answer).

Definition request_mcp_tool_user_approval (call_id : rstr) (action : ApprovalAction) : M ReviewDecision :=
  answer ← ask (AskUser (McpQuestion call_id action)); Return (default DecisionAbort answer).

(** *** The cache *)

Definition with_cached_approval (keys : list CacheKey) (fetch : M ReviewDecision) : M ReviewDecision :=
  if is_empty keys then fetch
  else
    already_approved ← ask (CacheHas keys);
    if already_approved : bool then Return ApprovedForSession
    else
      decision ← fetch;
      match decision with
      | ApprovedForSession => _ ← ask (CachePut keys); Return decision
      | _ => Return decision
      end.

(** *** Context *)

(** A ready environment of the turn: its id and the fingerprint of its exec policy. *)
Record GuardianReviewContext := {
  rc_turn_approval_policy : AskForApproval;
  rc_environments : list (rstr * option rstr);
  rc_approval_policy : AskForApproval;
  rc_approvals_reviewer : ApprovalsReviewer;
}.

Record ApprovalContext := {
  ac_review_context : GuardianReviewContext;
  ac_has_cancellation_token : bool;
  ac_call_id : rstr;
  ac_tool_name : ToolName;
  ac_strict_auto_review : bool;
  ac_approval_reason : option rstr;
  ac_retry_reason : option rstr;
  ac_network_approval_context : option NetworkApprovalContext;
}.

(** [Option::or]. *)
Definition option_or {A} (a b : option A) : option A := match a with Some x => Some x | None => b end.

Definition policy_fingerprint (ctx : ApprovalContext) (environment_id : rstr) : option rstr :=
  head (List.filter (fun e => e.1 =s environment_id) (rc_environments (ac_review_context ctx))) ≫= snd.

(** [Panic] is the [unreachable!] for requests of permissions. *)
Definition request_user_approval (action : ApprovalAction) (ctx : ApprovalContext) : M (res () ReviewDecision) :=
  let plain (p : M ReviewDecision) : M (res () ReviewDecision) := decision ← p; Return (Ok decision) in
  match action with
  | ExecCommandAction _ environment_id command _ cwd _ additional_permissions justification _ proposed_execpolicy_amendment =>
      match guardian_cwd environment_id cwd with
      | Err err => Return (Ok (Denied (lit "failed to resolve approval command cwd: " ++ err)))
      | Panic => Return Panic
      | Ok native_cwd =>
          match from_abs_path (path_string native_cwd) with
          | Ok cwd =>
              let reason := option_or (ac_retry_reason ctx) (option_or (ac_approval_reason ctx) justification) in
              let keys := map (fun key => WithFingerprint key (policy_fingerprint ctx environment_id)) (cache_keys action) in
              plain (with_cached_approval keys
                (request_command_approval KindCommand (ac_call_id ctx) None (Some environment_id) command cwd reason
                   (ac_network_approval_context ctx) proposed_execpolicy_amendment additional_permissions None))
          | _ => Return Panic
          end
      end
  | WriteStdinAction id approval_id environment_id process_id input cwd _ _ additional_permissions =>
      plain (request_command_approval KindWriteStdin id (Some approval_id) (Some environment_id)
               [lit "write_stdin"; lit "--session-id"; dec process_id; input] cwd (ac_approval_reason ctx) None None
               additional_permissions (Some [Approved; DecisionAbort]))
  | ExecveAction _ approval_id environment_id _ _ _ command cwd additional_permissions =>
      match from_abs_path (path_string cwd) with
      | Ok cwd =>
          plain (request_command_approval KindCommand (ac_call_id ctx) (Some approval_id) (Some environment_id) command cwd None None
                   None additional_permissions (Some [Approved; DecisionAbort]))
      | _ => Return Panic
      end
  | ApplyPatchAction _ _ _ _ _ changes permissions_preapproved =>
      let reason := option_or (ac_retry_reason ctx) (ac_approval_reason ctx) in
      match reason with
      | None =>
          if permissions_preapproved then Return (Ok Approved)
          else plain (with_cached_approval (map Plain (cache_keys action)) (request_patch_approval (ac_call_id ctx) changes None))
      | Some _ => plain (request_patch_approval (ac_call_id ctx) changes reason)
      end
  | McpToolCallAction _ _ _ _ _ _ _ _ _ => plain (request_mcp_tool_user_approval (ac_call_id ctx) action)
  | NetworkAccessAction _ _ environment_id _ _ _ _ _ _ _ command cwd =>
      match from_abs_path (path_string cwd) with
      | Ok cwd =>
          plain (request_command_approval KindCommand (ac_call_id ctx) None (Some environment_id) command cwd (ac_approval_reason ctx)
                   (ac_network_approval_context ctx) None None None)
      | _ => Return Panic
      end
  | RequestPermissionsAction _ _ _ _ => Return Panic
  end.

Definition NOT_COMPLETE : rstr := lit "automatic approval review could not complete".

Definition is_network_action (action : ApprovalAction) : bool :=
  match action with NetworkAccessAction _ _ _ _ _ _ _ _ _ _ _ _ => true | _ => false end.

Definition is_mcp_action (action : ApprovalAction) : bool :=
  match action with McpToolCallAction _ _ _ _ _ _ _ _ _ => true | _ => false end.

Definition terminal_unreachable (action : ApprovalAction) (ctx : ApprovalContext) : bool :=
  match action with
  | WriteStdinAction _ _ environment_id _ _ _ _ _ _ =>
      negb (existsb (fun e => e.1 =s environment_id) (rc_environments (ac_review_context ctx)))
  | _ => false
  end.

Definition request_guardian_approval (action : ApprovalAction) (ctx : ApprovalContext) : M (res () ReviewDecision) :=
  if terminal_unreachable action ctx then
    Return (Ok (Denied (lit "automatic approval review cannot access the terminal's environment; select it before retrying")))
  else
    match into_guardian_request action with
    | Err _ => Return (Ok (Denied (lit "automatic approval review could not prepare the action")))
    | Panic => Return Panic
    | Ok request =>
        let reasons := {| ar_approval := ac_approval_reason ctx; ar_retry := ac_retry_reason ctx |} in
        if ac_has_cancellation_token ctx then
          decision ← ask (AskGuardian true request reasons); Return (Ok (default (Denied NOT_COMPLETE) decision))
        else if is_network_action action then
          decision ← ask (AskGuardian true request {| ar_approval := None; ar_retry := ac_retry_reason ctx |});
          Return (Ok (default (Denied NOT_COMPLETE) decision))
        else decision ← ask (AskGuardian false request reasons); Return (Ok decision)
    end.

(** ** Resolutions *)

Inductive ApprovalReviewer := Guardian | User.

Definition for_policy (approval_policy : AskForApproval) (reviewer : ApprovalsReviewer) : ApprovalReviewer :=
  if routes_approval_policy_to_guardian approval_policy reviewer then Guardian else User.

Inductive ApprovalResolutionSource := FromHook | FromGuardian | FromUser.

Record ApprovalResolution := { re_decision : ReviewDecision; re_source : ApprovalResolutionSource }.

Definition into_tool_result (self : ApprovalResolution) : res ToolError ReviewDecision :=
  match re_decision self with
  | ApprovedMcpPolicyAmendment => Err (Rejected (lit "Error while requesting approval"))
  | NetworkAmendment {| am_action := RuleDeny |} =>
      Err (Rejected match re_source self with
                    | FromHook => lit "rejected by configuration"
                    | FromGuardian => lit "automatic approval review denied the action"
                    | FromUser => lit "rejected by user"
                    end)
  | Denied rejection => Err (Rejected rejection)
  | TimedOut => Err (Rejected (ae_timeout_message aenv))
  | DecisionAbort => Err (WorkxError TurnAborted)
  | decision => Ok decision
  end.

Definition reviewer_of (action : ApprovalAction) (ctx : ApprovalContext) : ApprovalReviewer :=
  if ac_strict_auto_review ctx then Guardian
  else match action with
       | McpToolCallAction _ _ _ _ _ _ approval_policy reviewer _ => for_policy approval_policy reviewer
       | _ => for_policy (rc_approval_policy (ac_review_context ctx)) (rc_approvals_reviewer (ac_review_context ctx))
       end.

Definition request_reviewer_approval (action : ApprovalAction) (ctx : ApprovalContext) : M (res () ApprovalResolution) :=
  let reviewer := reviewer_of action ctx in
  decision ← (match reviewer with
              | Guardian => request_guardian_approval action ctx
              | User => request_user_approval action ctx
              end : M (res () ReviewDecision));
  let source := match reviewer with Guardian => FromGuardian | User => FromUser end in
  Return (fmap (M := res ()) (fun d => {| re_decision := d; re_source := source |}) decision).

(** Input for a terminal that exceeds the permissions needs a new approval of the sandbox. *)
Definition stdin_rejected (action : ApprovalAction) (ctx : ApprovalContext) : option rstr :=
  let policy := rc_turn_approval_policy (ac_review_context ctx) in
  match action with
  | WriteStdinAction _ _ _ _ _ _ _ sandbox_permissions _ =>
      if requests_sandbox_override sandbox_permissions && negb (ac_strict_auto_review ctx && bool_decide (policy = Never))
      then prompt_is_rejected_by_policy policy false else None
  | _ => None
  end.

Definition permission_request_run_id (action : ApprovalAction) (ctx : ApprovalContext) : rstr :=
  match action with
  | ExecveAction _ approval_id _ _ _ _ _ _ _ => approval_id
  | NetworkAccessAction _ _ _ _ _ _ _ _ _ hook_run_id _ _ => hook_run_id
  | _ => match ac_retry_reason ctx with Some _ => ac_call_id ctx ++ lit ":retry" | None => ac_call_id ctx end
  end.

(** What is made of a resolution. *)
Definition conclude (action : ApprovalAction) (resolution : ApprovalResolution) : res ToolError ReviewDecision :=
  if is_mcp_action action && bool_decide (re_decision resolution = ApprovedMcpPolicyAmendment) then Ok (re_decision resolution)
  else if is_network_action action then
    match re_decision resolution, re_source resolution with
    | NetworkAmendment {| am_action := RuleDeny |}, _ => Ok (re_decision resolution)
    | DecisionAbort, FromGuardian => Err (Rejected (lit "automatic approval review was cancelled"))
    | _, _ => into_tool_result resolution
    end
  else into_tool_result resolution.

Definition request_approval (action : ApprovalAction) (ctx : ApprovalContext) : M (res ToolError ReviewDecision) :=
  match stdin_rejected action ctx with
  | Some reason => Return (Err (Rejected reason))
  | None =>
      hooks ← ask (AskHooks (permission_request_run_id action ctx) (permission_request_payload action));
      resolution ← (match hooks : option PermissionRequestDecision with
                    | Some HookAllow => Return (Ok {| re_decision := Approved; re_source := FromHook |})
                    | Some (HookDeny message) => Return (Ok {| re_decision := Denied message; re_source := FromHook |})
                    | None => request_reviewer_approval action ctx
                    end : M (res () ApprovalResolution));
      Return match resolution with
             | Ok resolution => conclude action resolution
             | Err _ | Panic => Panic
             end
  end.

End Approvals.
