(* ===== verification/Orchestrator.v ===== *)
(** * The tool orchestrator

    Models [workx-rs/core/src/tools/orchestrator.rs] with the traits and helpers of
    [core/src/tools/sandboxing.rs], the choice of the sandbox in [sandboxing/src/manager.rs],
    and the two runtimes that it drives, [core/src/tools/runtimes/unified_exec.rs] and
    [runtimes/apply_patch.rs]: approval, a first attempt under the selected sandbox, and after
    a denial by the sandbox a second attempt, under which conditions, with which question.

    A tool that runs is a party of the interaction ([RunTool]); what it tells of itself, the
    methods of its traits, are functions of the request. Telemetry is left out. *)
From S2P Require Import Prelude Truncation AbsPath ExecPolicy PathUri NativePath SandboxPolicy Approval ExecApproval PolicyTransforms NetworkProxy WorldState ThreadItems Interaction ToolApproval.

Set Default Goal Selector "!".

Local Open Scope Z_scope.

(** ** Requirements *)

Definition requires_escalated_permissions (self : SandboxPermissions) : bool :=
  match self with RequireEscalated => true | _ => false end.

Inductive SandboxablePreference := PreferAuto | PreferRequire | PreferForbid.

Inductive SandboxOverride := NoOverride | BypassSandboxFirstAttempt.

Definition proposed_execpolicy_amendment (self : ExecApprovalRequirement) : option (list rstr) :=
  match self with NeedsApproval _ (Some prefix) | Skip _ (Some prefix) => Some prefix | _ => None end.

Definition REJECTION_MESSAGE_MAX_TOKENS : Z := 900.

(** On a [str] the truncation returns, as [Truncation] shows. *)
Definition truncate_rejection_message (message : rstr) : rstr :=
  match truncate_middle_with_token_budget message REJECTION_MESSAGE_MAX_TOKENS with Ok (text, _) => text | _ => message end.

Section Orchestrator.
Context {Opaque Url : Type} `{UrlCrate Url}.
Variable crates : Crates.
Variable host : Host.
Variable target_os : TargetOs.
Set Default Proof Using "Type".
Local Abbreviation Profile := (@PermissionProfile Url).
Local Abbreviation Policy := (@FileSystemSandboxPolicy Url).
Local Abbreviation Permissions := (@AdditionalPermissionProfile Url).
Local Abbreviation Attempt := (@SandboxAttempt Url).
Local Abbreviation Spec := (@NetworkApprovalSpec Opaque Url).

Definition default_exec_approval_requirement (policy : AskForApproval) (file_system_sandbox_policy : Policy) : ExecApprovalRequirement :=
  let needs_approval :=
    match policy with
    | Never => false
    | OnRequest | Granular _ => bool_decide (fp_kind file_system_sandbox_policy = Restricted)
    | UnlessTrusted => true
    end in
  let disallowed := match policy with Granular granular_config => negb (g_sandbox_approval granular_config) | _ => false end in
  if needs_approval && disallowed then ForbiddenReq (lit "approval policy disallowed sandbox approval prompt")
  else if needs_approval then NeedsApproval None None
  else Skip false None.

Definition unsandboxed_execution_allowed (file_system_sandbox_policy : Policy) : bool :=
  negb (has_denied_read_restrictions file_system_sandbox_policy).

Definition sandbox_override_for_first_attempt (sandbox_permissions : SandboxPermissions)
    (exec_approval_requirement : ExecApprovalRequirement) (file_system_sandbox_policy : Policy) : SandboxOverride :=
  if negb (unsandboxed_execution_allowed file_system_sandbox_policy) then NoOverride
  else match exec_approval_requirement with
       | Skip true _ => BypassSandboxFirstAttempt
       | _ => if requires_escalated_permissions sandbox_permissions then BypassSandboxFirstAttempt else NoOverride
       end.

Definition sandbox_permissions_preserving_denied_reads (sandbox_permissions : SandboxPermissions)
    (file_system_sandbox_policy : Policy) : SandboxPermissions :=
  if requires_escalated_permissions sandbox_permissions && negb (unsandboxed_execution_allowed file_system_sandbox_policy)
  then UseDefault else sandbox_permissions.

Definition managed_network_for_sandbox_permissions {A} (network : option A) (sandbox_permissions : SandboxPermissions) : option A :=
  if requires_escalated_permissions sandbox_permissions then None else network.

(** ** The sandbox manager *)

Definition should_sandbox (permission_profile : Profile) (pref : SandboxablePreference) (has_managed_network_requirements : bool) : bool :=
  match pref with
  | PreferForbid => false
  | PreferRequire => true
  | PreferAuto =>
      should_require_platform_sandbox host (file_system_sandbox_policy permission_profile)
        (network_sandbox_policy permission_profile) has_managed_network_requirements
  end.

Definition select_initial (permission_profile : Profile) (pref : SandboxablePreference)
    (windows_sandbox_level : WindowsSandboxLevel) (has_managed_network_requirements : bool) : SandboxType :=
  if should_sandbox permission_profile pref has_managed_network_requirements
  then default SandboxNone (get_platform_sandbox target_os (windows_sandbox_enabled windows_sandbox_level))
  else SandboxNone.

Definition is_escalated (self : Attempt) : bool :=
  negb (at_sandbox_requested self)
  && should_sandbox (at_permissions self) PreferAuto (at_enforce_managed_network self).

(** ** Environments *)

Definition resolve_scoped_workspace_path (root : Url) (subpath : rstr) : option Url :=
  convention ← infer_path_convention root;
  let windows := bool_decide (convention = Windows) in
  let segments := path_segments convention subpath in
  if starts_with [SLASH] subpath || (windows && starts_with [BACKSLASH] subpath)
     || existsb (fun s => (s =s lit ".") || (s =s lit "..")) segments
     || (windows && existsb (existsb (Z.eqb COLON)) segments)
  then None
  else
    path ← ok_of (uri_join root subpath);
    if uri_starts_with path root then Some path else None.

Definition materialize_root (entry : @FileSystemSandboxEntry Url) (subpath : option rstr) (is_glob : bool) (root : Url)
    : option (@FileSystemSandboxEntry Url) :=
  let path := match subpath with None => Some root | Some subpath => resolve_scoped_workspace_path root subpath end in
  '(path, access) ← match path with
                    | Some path =>
                        if is_glob then Some (PGlob (native_string path), fe_access entry) else Some (PPath path, fe_access entry)
                    | None => if can_write (fe_access entry) then None else Some (PPath root, Deny)
                    end;
  Some {| fe_path := path; fe_access := access; fe_skip_missing := fe_skip_missing entry |}.

Definition materialize_entry_with_path_uris (workspace_roots : list Url) (entry : @FileSystemSandboxEntry Url)
    : list (@FileSystemSandboxEntry Url) :=
  match fe_path entry with
  | PSpecial (ProjectRoots subpath) => omap (materialize_root entry subpath false) workspace_roots
  | PGlob pattern =>
      match parse_project_roots_glob_pattern pattern with
      | Some subpath => omap (materialize_root entry (Some subpath) true) workspace_roots
      | None => [entry]
      end
  | PPath _ | PSpecial _ => [entry]
  end.

(** A [PathUri] has a text that [from_abs_path] accepts, so that [to_abs_path] does not panic. *)
Definition materialize_project_roots_with_path_uris (self : Policy) (workspace_roots : list Url) : Policy :=
  match map_res (to_abs_path (h_env host)) workspace_roots with
  | Ok native_workspace_roots => materialize_project_roots_with_workspace_roots host self native_workspace_roots
  | _ => with_entries self (flat_map (materialize_entry_with_path_uris workspace_roots) (fp_entries self))
  end.

Definition profile_materialize_project_roots_with_path_uris (self : Profile) (workspace_roots : list Url) : res unit Profile :=
  match self with
  | Managed file_system network =>
      file_system ← from_sandbox_policy (materialize_project_roots_with_path_uris (to_sandbox_policy file_system) workspace_roots);
      Ok (Managed file_system network)
  | Disabled => Ok Disabled
  | External network => Ok (External network)
  end.

(** [TurnEnvironment] with its [EnvironmentConfig]. *)
Record TurnEnvironment := {
  te_environment_id : rstr;
  te_cwd : Url;
  te_is_remote : bool;
  te_user_home_dir : option Url;
  te_temporary_directories : option (list Url);
  te_executor_platform_os : option rstr;
  te_workspace_roots : list Url;
  te_permission_profile : Profile;
  te_network_policy : option Opaque;
  te_exec_policy : option ExecPolicy.Policy;
  te_windows_sandbox_level : WindowsSandboxLevel;
  te_windows_sandbox_private_desktop : bool;
  te_use_legacy_landlock : bool;
}.

Definition permission_profile_with_workspace_roots (self : TurnEnvironment) : res unit Profile :=
  profile_materialize_project_roots_with_path_uris (te_permission_profile self) (te_workspace_roots self).

(** ** Tools *)

(** [Approvable], [Sandboxable] and [ToolRuntime], without [run]. *)
Class ToolRuntime (Rq : Type) := {
  sandbox_permissions : Rq -> SandboxPermissions;
  should_bypass_approval : AskForApproval -> bool -> bool;
  exec_approval_requirement : Rq -> option ExecApprovalRequirement;
  wants_no_sandbox_approval : AskForApproval -> bool;
  approval_action : Rq -> rstr -> res rstr (@ApprovalAction Opaque Url);
  sandbox_preference : SandboxablePreference;
  escalate_on_failure : bool;
  turn_environment : Rq -> TurnEnvironment;
  uses_executor_managed_process_sandbox : Rq -> bool;
  network_approval_spec : Rq -> rstr -> ToolName -> option Spec;
  sandbox_cwd : Rq -> option Url;
}.

(** The defaults of the traits. *)
Definition default_should_bypass_approval (policy : AskForApproval) (already_approved : bool) : bool :=
  if already_approved then true else bool_decide (policy = Never).

Definition default_wants_no_sandbox_approval (policy : AskForApproval) : bool :=
  match policy with
  | UnlessTrusted => true
  | Never => false
  | OnRequest => false
  | Granular granular_config => g_sandbox_approval granular_config
  end.

(** [StepContext] and the [TurnContext] in it, as far as they are read. [tx_config_network] is
    whether the configured network proxy is enabled, if there is one. *)
Record StepContext := {
  sc_approval_policy : AskForApproval;
  sc_approvals_reviewer : ApprovalsReviewer;
  sc_environments : list (rstr * option rstr);
  tx_approval_policy : AskForApproval;
  tx_network : bool;
  tx_config_network : option bool;
  tx_workx_linux_sandbox_exe : option rstr;
  (** [active_turn_context_and_strict_auto_review], as it is read at the start of a call. *)
  sc_strict_auto_review : bool;
}.

Record ToolCtx := { tc_step_context : StepContext; tc_call_id : rstr; tc_tool_name : ToolName }.

Definition review_context (ctx : ToolCtx) : GuardianReviewContext :=
  let step := tc_step_context ctx in
  {| rc_turn_approval_policy := tx_approval_policy step; rc_environments := sc_environments step;
     rc_approval_policy := sc_approval_policy step; rc_approvals_reviewer := sc_approvals_reviewer step |}.

(** ** Network approvals *)

Variable aenv : @ApprovalEnv Opaque Url.
Context {Out : Type}.
Local Abbreviation M := (prog (@Answer Opaque Url Out)).

Definition begin_network_approval (managed_network_active : bool) (spec : option Spec)
    : M (option ActiveNetworkApproval + ToolError) :=
  match spec with
  | None => Return (inl None)
  | Some spec =>
      if negb managed_network_active then Return (inl None)
      else
        answer ← ask (StartNetwork spec);
        Return match answer with
               | inl active => inl active
               | inr (StartRejected message) => inr (Rejected message)
               | inr (StartIo message) => inr (WorkxError (OtherError message))
               end
  end.

Definition network_approval_outcome_to_result (outcome : option rstr) : unit + ToolError :=
  match outcome with Some rejection => inr (Rejected (truncate_rejection_message rejection)) | None => inl () end.

Definition finish_deferred_network_approval (deferred : option DeferredNetworkApproval) : M (unit + ToolError) :=
  match deferred with
  | None => Return (inl ())
  | Some deferred => outcome ← ask (FinishNetwork deferred); Return (network_approval_outcome_to_result outcome)
  end.

Definition is_ask_from_decider (self : NetworkPolicyDecisionPayload) : bool :=
  match dp_decision self, dp_source self with DecisionAsk, Decider => true | _, _ => false end.

Definition network_approval_context_from_payload (payload : NetworkPolicyDecisionPayload) : option NetworkApprovalContext :=
  if negb (is_ask_from_decider payload) then None
  else
    protocol ← dp_protocol payload;
    host ← dp_host payload;
    let host := trim host in
    if is_empty host then None else Some {| nc_host := host; nc_protocol := protocol |}.

(** ** Attempts *)

Definition with_network (attempt : Attempt) (network_approval : option ActiveNetworkApproval) : Attempt :=
  {| at_sandbox := at_sandbox attempt; at_sandbox_requested := at_sandbox_requested attempt;
     at_permissions := at_permissions attempt; at_exec_server_permissions := at_exec_server_permissions attempt;
     at_enforce_managed_network := at_enforce_managed_network attempt; at_sandbox_cwd := at_sandbox_cwd attempt;
     at_workspace_roots := at_workspace_roots attempt; at_workx_linux_sandbox_exe := at_workx_linux_sandbox_exe attempt;
     at_use_legacy_landlock := at_use_legacy_landlock attempt; at_windows_sandbox_level := at_windows_sandbox_level attempt;
     at_windows_sandbox_private_desktop := at_windows_sandbox_private_desktop attempt;
     at_network_denial_cancellation_token := an_cancellation_token <$> network_approval;
     at_network_proxy := an_execution_proxy <$> network_approval |}.

Definition run_attempt (attempt : Attempt) (spec : option Spec) : M ((Out + ToolError) * option DeferredNetworkApproval) :=
  network_approval ← begin_network_approval (at_enforce_managed_network attempt) spec;
  match network_approval with
  | inr err => Return (inr err, None)
  | inl network_approval =>
      run_result ← ask (RunTool (with_network attempt network_approval));
      match network_approval with
      | None => Return (run_result, None)
      | Some network_approval =>
          let deferred := into_deferred network_approval in
          match run_result with
          | inr _ =>
              finalize_result ← finish_deferred_network_approval deferred;
              Return match finalize_result with inr err => (inr err, None) | inl _ => (run_result, None) end
          | inl _ => Return (run_result, deferred)
          end
      end
  end.

Record OrchestratorRunResult := { or_output : Out; or_deferred_network_approval : option DeferredNetworkApproval }.

(** ** A call *)

(** The [?] of a step. *)
Definition then_ok {A B} (p : M (res ToolError A)) (f : A -> M (res ToolError B)) : M (res ToolError B) :=
  r ← p; match r with Ok a => f a | Err err => Return (Err err) | Panic => Return Panic end.

Section Call.
Context {Rq : Type} `{ToolRuntime Rq}.
Variables (req : Rq) (ctx : ToolCtx).
Let step := tc_step_context ctx.
Let approval_policy := sc_approval_policy step.
Let strict_auto_review := sc_strict_auto_review step.
Let environment := turn_environment req.
Let owner_network_policy := bool_decide (is_Some (te_network_policy environment)).
Let executor_managed := uses_executor_managed_process_sandbox req.

Definition approve (approval_reason retry_reason : option rstr) (network_approval_context : option NetworkApprovalContext)
    : M (res ToolError ReviewDecision) :=
  match approval_action req (tc_call_id ctx) with
  | Err err => Return (Err (Rejected (lit "could not prepare approval action: " ++ err)))
  | Panic => Return Panic
  | Ok action =>
      request_approval crates host aenv action
        {| ac_review_context := review_context ctx; ac_has_cancellation_token := true; ac_call_id := tc_call_id ctx;
           ac_tool_name := tc_tool_name ctx; ac_strict_auto_review := strict_auto_review;
           ac_approval_reason := approval_reason; ac_retry_reason := retry_reason;
           ac_network_approval_context := network_approval_context |}
  end.

(** Approval before the first attempt: whether it was given. *)
Definition initial_approval (requirement : ExecApprovalRequirement) : M (res ToolError bool) :=
  match requirement with
  | Skip _ _ =>
      if strict_auto_review then then_ok (approve None None None) (fun _ => Return (Ok true)) else Return (Ok false)
  | ForbiddenReq reason => Return (Err (Rejected reason))
  | NeedsApproval reason _ => then_ok (approve reason None None) (fun _ => Return (Ok true))
  end.

Definition requirement_for (permissions : Profile) : ExecApprovalRequirement :=
  default (default_exec_approval_requirement approval_policy (file_system_sandbox_policy permissions))
    (exec_approval_requirement req).

Definition unsandboxed_allowed (permissions : Profile) : bool :=
  negb owner_network_policy && unsandboxed_execution_allowed (file_system_sandbox_policy permissions).

Definition sandbox_override (permissions : Profile) : SandboxOverride :=
  if unsandboxed_allowed permissions
  then sandbox_override_for_first_attempt (sandbox_permissions req) (requirement_for permissions)
         (file_system_sandbox_policy permissions)
  else NoOverride.

Definition spec_of : option Spec := network_approval_spec req (tc_call_id ctx) (tc_tool_name ctx).

Definition managed_network_active : bool :=
  if owner_network_policy then
    bool_decide (tx_config_network step = Some true)
    || match spec_of with
       | Some spec =>
           net_is_enabled (effective_network_sandbox_policy (network_sandbox_policy (te_permission_profile environment))
                             (gt_additional_permissions (ns_trigger spec)))
       | None => false
       end
  else tx_network step.

Definition attempt_of (permissions : Profile) (sandbox_requested : bool) (exe : option rstr) : Attempt :=
  {| at_sandbox :=
       if sandbox_requested && negb executor_managed
       then select_initial permissions sandbox_preference (te_windows_sandbox_level environment) managed_network_active
       else SandboxNone;
     at_sandbox_requested := sandbox_requested; at_permissions := permissions;
     at_exec_server_permissions := te_permission_profile environment; at_enforce_managed_network := managed_network_active;
     at_sandbox_cwd := default (te_cwd environment) (sandbox_cwd req); at_workspace_roots := te_workspace_roots environment;
     at_workx_linux_sandbox_exe := exe; at_use_legacy_landlock := te_use_legacy_landlock environment;
     at_windows_sandbox_level := te_windows_sandbox_level environment;
     at_windows_sandbox_private_desktop := te_windows_sandbox_private_desktop environment;
     at_network_denial_cancellation_token := None; at_network_proxy := None |}.

Definition initial_attempt (permissions : Profile) : Attempt :=
  attempt_of permissions
    match sandbox_override permissions with
    | BypassSandboxFirstAttempt => false
    | NoOverride => should_sandbox permissions sandbox_preference managed_network_active
    end (tx_workx_linux_sandbox_exe step).

Definition retry_attempt (permissions : Profile) : Attempt :=
  attempt_of permissions
    (negb (unsandboxed_allowed permissions) && should_sandbox permissions sandbox_preference managed_network_active)
    (if unsandboxed_allowed permissions then None else tx_workx_linux_sandbox_exe step).

Definition allow_on_request_network_prompt (permissions : Profile) (network_approval_context : option NetworkApprovalContext) : bool :=
  bool_decide (approval_policy = OnRequest) && bool_decide (is_Some network_approval_context)
  && match default_exec_approval_requirement approval_policy (file_system_sandbox_policy permissions) with
     | NeedsApproval _ _ => true
     | _ => false
     end.

Definition build_denial_reason_from_output (_ : rstr) : rstr := lit "command failed; retry without sandbox?".

Definition network_context_of (network_policy_decision : option NetworkPolicyDecisionPayload) : option NetworkApprovalContext :=
  if managed_network_active then network_policy_decision ≫= network_approval_context_from_payload else None.

(** A denied attempt is final, or is tried again. *)
Definition denial_is_final (permissions : Profile) (network_policy_decision : option NetworkPolicyDecisionPayload) : bool :=
  let network_approval_context := network_context_of network_policy_decision in
  (bool_decide (is_Some network_policy_decision) && bool_decide (network_approval_context = None))
  || negb escalate_on_failure
  || (negb (wants_no_sandbox_approval approval_policy)
      && negb (allow_on_request_network_prompt permissions network_approval_context))
  || (negb (unsandboxed_allowed permissions) && bool_decide (network_approval_context = None)).

Definition bypass_retry_approval (already_approved : bool) (network_approval_context : option NetworkApprovalContext) : bool :=
  negb strict_auto_review && should_bypass_approval approval_policy already_approved
  && bool_decide (network_approval_context = None).

Definition retry_approval (permissions : Profile) (already_approved : bool) (output : rstr)
    (network_approval_context : option NetworkApprovalContext) : M (res ToolError ()) :=
  let retry_reason :=
    match network_approval_context with
    | Some context => lit "Network access to " ++ [DQUOTE] ++ nc_host context ++ [DQUOTE] ++ lit " is blocked by policy."
    | None => build_denial_reason_from_output output
    end in
  if bypass_retry_approval already_approved network_approval_context then Return (Ok ())
  else
    let approval_reason := match requirement_for permissions with NeedsApproval reason _ => reason | _ => None end in
    then_ok (approve approval_reason (Some retry_reason) network_approval_context) (fun _ => Return (Ok ())).

Definition finish_attempt (r : (Out + ToolError) * option DeferredNetworkApproval) : res ToolError OrchestratorRunResult :=
  match r with
  | (inl output, deferred) => Ok {| or_output := output; or_deferred_network_approval := deferred |}
  | (inr err, _) => Err err
  end.

Definition after_first (permissions : Profile) (already_approved : bool)
    (first : (Out + ToolError) * option DeferredNetworkApproval) : M (res ToolError OrchestratorRunResult) :=
  match first.1 with
  | inr (WorkxError (SandboxDenied output network_policy_decision)) =>
      if denial_is_final permissions network_policy_decision then Return (finish_attempt first)
      else
        then_ok (retry_approval permissions already_approved output (network_context_of network_policy_decision)) (fun _ =>
          retry ← run_attempt (retry_attempt permissions) spec_of;
          Return (finish_attempt retry))
  | _ => Return (finish_attempt first)
  end.

Definition run_with (permissions : Profile) : M (res ToolError OrchestratorRunResult) :=
  then_ok (initial_approval (requirement_for permissions)) (fun already_approved =>
    first ← run_attempt (initial_attempt permissions) spec_of;
    after_first permissions already_approved first).

(** The permissions that the call goes by. The roots of an executor that applies its own sandbox
    stay symbolic. *)
Definition call_permissions : res unit Profile :=
  if executor_managed then Ok (te_permission_profile environment) else permission_profile_with_workspace_roots environment.

Definition run : M (res ToolError OrchestratorRunResult) :=
  if owner_network_policy && requires_escalated_permissions (sandbox_permissions req) then
    Return (Err (Rejected (lit "attachment-owned network policy cannot be bypassed by sandbox escalation")))
  else
    match call_permissions with
    | Ok permissions => run_with permissions
    | _ => Return Panic
    end.

End Call.
End Orchestrator.
