(* ===== verification/ToolRuntimes.v ===== *)
(** * The runtimes of the tools

    Models what [workx-rs/core/src/tools/runtimes/unified_exec.rs] and
    [runtimes/apply_patch.rs] tell the orchestrator of a request, how
    [core/src/apply_patch.rs] prepares a patch, and how [core/src/unified_exec/process_manager.rs]
    prepares a command. [LawfulRuntime] is what the theorems on the orchestrator use of a
    runtime; both runtimes have it. *)
From stdpp Require Import gmap.
From S2P Require Import Prelude AbsPath ExecRule ExecPolicy ExecAmend PathUri NativePath SandboxPolicy Approval DangerousCommand ExecApproval PolicyTransforms NetworkProxy WorldState ThreadItems FileUpdate ApplyHunks Invocation Safety Interaction ToolApproval Orchestrator.

Set Default Goal Selector "!".

Section Runtimes.
Context {Opaque Url : Type} `{UrlCrate Url}.
Set Default Proof Using "Type".
Local Abbreviation Permissions := (@AdditionalPermissionProfile Url).
Local Abbreviation Environment := (@TurnEnvironment Opaque Url).

(** ** Commands *)

(** [UnifiedExecRequest], without the process id, the kind of the shell and the variables of
    the environment, which only the process sees. The network proxy is a handle. *)
Record UnifiedExecRequest := {
  ur_command : list rstr;
  ur_hook_command : rstr;
  ur_cwd : Url;
  ur_sandbox_cwd : Url;
  ur_turn_environment : Environment;
  ur_shell_snapshot : option Opaque;
  ur_network : option Z;
  ur_tty : bool;
  ur_sandbox_permissions : SandboxPermissions;
  ur_additional_permissions : option Permissions;
  ur_justification : option rstr;
  ur_exec_approval_requirement : ExecApprovalRequirement;
}.

Definition exec_approval_action (req : UnifiedExecRequest) (call_id : rstr) : res rstr (@ApprovalAction Opaque Url) :=
  Ok (ExecCommandAction call_id (te_environment_id (ur_turn_environment req)) (ur_command req) (ur_hook_command req)
        (ur_cwd req) (ur_sandbox_permissions req) (ur_additional_permissions req) (ur_justification req) (ur_tty req)
        (proposed_execpolicy_amendment (ur_exec_approval_requirement req))).

Definition exec_network_approval_spec (req : UnifiedExecRequest) (call_id : rstr) (tool_name : ToolName)
    : option (@NetworkApprovalSpec Opaque Url) :=
  let environment := ur_turn_environment req in
  let sandbox_permissions :=
    sandbox_permissions_preserving_denied_reads (ur_sandbox_permissions req)
      (file_system_sandbox_policy (te_permission_profile environment)) in
  let network := managed_network_for_sandbox_permissions (ur_network req) sandbox_permissions in
  match network, te_network_policy environment with
  | None, None => None
  | _, _ =>
      Some {| ns_network := network;
              ns_trigger := {| gt_call_id := call_id; gt_tool_name := flat_tool_name tool_name; gt_command := ur_command req;
                               gt_cwd := ur_cwd req; gt_sandbox_permissions := ur_sandbox_permissions req;
                               gt_additional_permissions := ur_additional_permissions req;
                               gt_justification := ur_justification req; gt_tty := Some (ur_tty req) |};
              ns_tool_name := tool_name; ns_command := ur_hook_command req; ns_environment_id := te_environment_id environment;
              ns_permission_profile := te_permission_profile environment; ns_network_policy := te_network_policy environment |}
  end.

#[export] Instance UnifiedExecRuntime : ToolRuntime UnifiedExecRequest := {|
  sandbox_permissions := ur_sandbox_permissions;
  should_bypass_approval := default_should_bypass_approval;
  exec_approval_requirement req := Some (ur_exec_approval_requirement req);
  wants_no_sandbox_approval := default_wants_no_sandbox_approval;
  approval_action := exec_approval_action;
  sandbox_preference := PreferAuto;
  escalate_on_failure := true;
  turn_environment := ur_turn_environment;
  uses_executor_managed_process_sandbox req :=
    te_is_remote (ur_turn_environment req) || bool_decide (is_Some (ur_shell_snapshot req));
  network_approval_spec := exec_network_approval_spec;
  sandbox_cwd req := Some (ur_sandbox_cwd req);
|}.

(** ** Patches *)

Context `{Countable Url}.

Record ApplyPatchRequest := {
  pq_turn_environment : Environment;
  pq_action : @Invocation.ApplyPatchAction Url _ _;
  pq_file_paths : list Url;
  pq_changes : list (rstr * FileChangeContent);
  pq_exec_approval_requirement : ExecApprovalRequirement;
  pq_additional_permissions : option Permissions;
  pq_permissions_preapproved : bool;
}.

Definition build_approval_action (req : ApplyPatchRequest) (call_id : rstr) : res rstr (@ApprovalAction Opaque Url) :=
  Ok (ApplyPatchAction call_id (te_environment_id (pq_turn_environment req)) (aa_cwd (pq_action req)) (pq_file_paths req)
        (aa_patch (pq_action req)) (pq_changes req) (pq_permissions_preapproved req)).

Definition patch_wants_no_sandbox_approval (policy : AskForApproval) : bool :=
  match policy with
  | Never => false
  | Granular granular_config => g_sandbox_approval granular_config
  | OnRequest => true
  | UnlessTrusted => true
  end.

#[export] Instance ApplyPatchRuntime : ToolRuntime ApplyPatchRequest := {|
  sandbox_permissions _ := UseDefault;
  should_bypass_approval := default_should_bypass_approval;
  exec_approval_requirement req := Some (pq_exec_approval_requirement req);
  wants_no_sandbox_approval := patch_wants_no_sandbox_approval;
  approval_action := build_approval_action;
  sandbox_preference := PreferAuto;
  escalate_on_failure := true;
  turn_environment := pq_turn_environment;
  uses_executor_managed_process_sandbox req := te_is_remote (pq_turn_environment req);
  network_approval_spec _ _ _ := None;
  sandbox_cwd req := Some (aa_cwd (pq_action req));
|}.

(** *** The sandbox of an attempt *)

Definition executor_windows_sandbox_level (windows_sandbox_level : WindowsSandboxLevel) (cwd : Url) : WindowsSandboxLevel :=
  if negb (windows_sandbox_enabled windows_sandbox_level) && bool_decide (infer_path_convention cwd = Some PathUri.Windows)
  then WslRestrictedToken else windows_sandbox_level.

(** [FileSystemSandboxContext], without the temporary directories and the proxy settings, which
    are absent here. *)
Record FileSystemSandboxContext := {
  sx_permissions : @PermissionProfile Url;
  sx_cwd : Url;
  sx_workspace_roots : list Url;
  sx_user_home_dir : option Url;
  sx_windows_sandbox_level : WindowsSandboxLevel;
  sx_windows_sandbox_private_desktop : bool;
  sx_use_legacy_landlock : bool;
}.

Definition file_system_sandbox_context_for_attempt (req : ApplyPatchRequest) (attempt : @SandboxAttempt Url)
    : res unit (option FileSystemSandboxContext) :=
  if negb (at_sandbox_requested attempt) then Ok None
  else
    permissions ← effective_permission_profile (at_exec_server_permissions attempt) (pq_additional_permissions req);
    Ok (Some {| sx_permissions := permissions; sx_cwd := at_sandbox_cwd attempt; sx_workspace_roots := at_workspace_roots attempt;
                sx_user_home_dir := te_user_home_dir (pq_turn_environment req);
                sx_windows_sandbox_level := executor_windows_sandbox_level (at_windows_sandbox_level attempt) (at_sandbox_cwd attempt);
                sx_windows_sandbox_private_desktop := at_windows_sandbox_private_desktop attempt;
                sx_use_legacy_landlock := at_use_legacy_landlock attempt |}).

Definition patch_options (host : Host) (req : ApplyPatchRequest) (attempt : @SandboxAttempt Url) : ApplyPatchOptions :=
  {| update_file_mode := aa_update_file_mode (pq_action req);
     follow_symlinks :=
       at_sandbox_requested attempt
       || negb (should_sandbox host (at_permissions attempt) PreferAuto (at_enforce_managed_network attempt)) |}.

(** A patch has a sandbox exactly if the attempt asks for one, and outside a sandbox that the
    policy asks for it does not follow links. *)
Lemma patch_follows_links host req attempt : follow_symlinks (patch_options host req attempt) = negb (is_escalated host attempt).
Proof using Type. unfold is_escalated. by rewrite negb_andb, negb_involutive. Qed.

(** ** What the theorems use *)

Class LawfulRuntime (Rq : Type) `{!@ToolRuntime Opaque Url Rq} := {
  law_bypass policy already : should_bypass_approval (Rq := Rq) policy already = true -> already = true \/ policy = Never;
  law_never : wants_no_sandbox_approval (Rq := Rq) Never = false;
  law_preference : sandbox_preference (Rq := Rq) = PreferAuto;
  law_action (req : Rq) call_id action : approval_action req call_id = Ok action ->
    is_network_action action = false /\ is_mcp_action action = false;
}.

Lemma default_bypass policy already : default_should_bypass_approval policy already = true -> already = true \/ policy = Never.
Proof. unfold default_should_bypass_approval. destruct already; [by left|]. case_bool_decide; by right. Qed.

#[export] Instance UnifiedExecRuntime_lawful : LawfulRuntime UnifiedExecRequest.
Proof. split; [apply default_bypass|done|done|]. by intros req call_id action [= <-]. Qed.

#[export] Instance ApplyPatchRuntime_lawful : LawfulRuntime ApplyPatchRequest.
Proof. split; [apply default_bypass|done|done|]. by intros req call_id action [= <-]. Qed.

End Runtimes.
