(* ===== verification/OrchestratorProps.v ===== *)
(** * What the orchestrator guarantees

    Theorems on [Orchestrator], for every request, every partial run and whatever hooks, the
    guardian, the user, the cache and the tool answer: an attempt leaves the sandbox only on
    a rule, on an escalation that needed no approval, or on a grant of this call; denied
    reads and the network policy of an owner survive every approval; nothing runs after a
    refusal; a strict automatic review precedes each attempt; and what the cache remembers
    was granted for the session on a question with the same key. *)
From S2P Require Import Prelude AbsPath PathUri SandboxPolicy Approval ExecApproval PolicyTransforms NetworkProxy WorldState ThreadItems Interaction ToolApproval Orchestrator ToolRuntimes.

Set Default Goal Selector "!".

(** ** Answers *)

Definition approves (d : ReviewDecision) : bool :=
  match d with
  | Approved | ApprovedExecpolicyAmendment _ | ApprovedForSession => true
  | NetworkAmendment a => bool_decide (am_action a = RuleAllow)
  | ApprovedMcpPolicyAmendment | Denied _ | TimedOut | DecisionAbort => false
  end.

Section Answers.
Context {Opaque Url Out : Type}.
Set Default Proof Using "Type".
Local Abbreviation Ev := (@Event Opaque Url).
Local Abbreviation exchanges := (list (exchange (Event := Ev) (Answer := Answer Out))).

Definition is_attempt (e : Ev) : bool := match e with RunTool _ => true | _ => false end.

Definition asks_user (e : Ev) : bool := match e with AskUser _ | CacheHas _ | CachePut _ => true | _ => false end.

(** The decision of the guardian. *)
Definition guardian_decision (spawned : bool) (request : @GuardianApprovalRequest Opaque Url) (reasons : ApprovalRequestReasons)
    : Answer Out (AskGuardian spawned request reasons) -> option ReviewDecision :=
  match spawned with true => fun d => d | false => Some end.

Definition yes (d : option ReviewDecision) : bool := match d with Some d => approves d | None => false end.

(** A hook or the guardian agreed. *)
Definition reviewed (x : exchange (Event := Ev) (Answer := Answer Out)) : bool :=
  match x with
  | existT (AskHooks _ _) r => match r with Some HookAllow => true | _ => false end
  | existT (AskGuardian spawned request reasons) r => yes (guardian_decision spawned request reasons r)
  | _ => false
  end.

(** One of them agreed, or the user did, now or for the session. *)
Definition granted (x : exchange (Event := Ev) (Answer := Answer Out)) : bool :=
  match x with
  | existT (AskUser _) r => yes r
  | existT (CacheHas _) r => r
  | _ => reviewed x
  end.

(** A question was answered, and not by a yes. *)
Definition refused (x : exchange (Event := Ev) (Answer := Answer Out)) : bool :=
  match x with
  | existT (AskHooks _ _) r => match r with Some (HookDeny _) => true | _ => false end
  | existT (AskGuardian spawned request reasons) r => negb (yes (guardian_decision spawned request reasons r))
  | existT (AskUser _) r => negb (yes r)
  | _ => false
  end.

(** No attempt. *)
Definition quiet (t : exchanges) : bool := forallb (fun x => negb (is_attempt (projT1 x))) t.

Lemma quiet_app t t' : quiet (t ++ t') = quiet t && quiet t'.
Proof. apply forallb_app. Qed.

Lemma reviewed_granted x : reviewed x = true -> granted x = true.
Proof. destruct x as [[] r]; done. Qed.

(** What is known when a question has been settled: the exchanges [t] ran nothing, and the
    result follows from a yes in them, unless [free]. *)
Definition settled {A} (good : exchange (Event := Ev) (Answer := Answer Out) -> bool) (free : bool) (h : exchanges) (h' : exchanges) (r : res ToolError A) : Prop :=
  exists t, h' = h ++ t /\ quiet t = true /\
    forall a, r = Ok a -> existsb refused t = false /\ (existsb good t = true \/ free = true).

End Answers.

(** ** Approvals *)

Section Approvals.
Context {Opaque Url : Type} `{UrlCrate Url}.
Variable crates : Crates.
Variable host : Host.
Variable aenv : @ApprovalEnv Opaque Url.
Context {Out : Type}.
Set Default Proof Using "Type".
Local Abbreviation Ev := (@Event Opaque Url).
Local Abbreviation Ex := (exchange (Event := Ev) (Answer := Answer Out)).
Implicit Types (h t : list Ex) (action : @ApprovalAction Opaque Url).

(** Nothing is run, and under a strict review the user and the cache are not asked. *)
Definition no_attempt (strict : bool) (h : list Ex) (e : Ev) : Prop :=
  is_attempt e = false /\ (strict = true -> asks_user e = false).

(** A decision that was asked for: [t] since [h]. *)
Definition decided (good : Ex -> bool) (free : bool) h h' (d : res () ReviewDecision) : Prop :=
  exists t, h' = h ++ t /\ quiet t = true /\
    forall a, d = Ok a -> approves a = true -> existsb refused t = false /\ (existsb good t = true \/ free = true).

Lemma decided_now good free h (d : res () ReviewDecision) :
  (forall a, d = Ok a -> approves a = true -> free = true) -> decided good free h h d.
Proof. intros Hd. exists []. rewrite app_nil_r. split; [done|]. split; [done|]. intros a Ha Hap. eauto. Qed.

Lemma decided_free good free h h' d : decided good false h h' d -> decided good free h h' d.
Proof. intros (t & -> & Hq & Ht). exists t. split; [done|]. split; [done|]. intros a Ha Hap. destruct (Ht a Ha Hap) as [? [?|?]]; [auto|done]. Qed.

Lemma always_asked (q : UserQuestion) h :
  always (no_attempt false) (fun h' d => decided granted false h h' (Ok d)) h
    (answer ← ask (AskUser q); Return (default DecisionAbort answer) : prog (Answer Out) ReviewDecision).
Proof.
  split; [done|]. intros [d|]; (eexists; split; [reflexivity|]); (split; [done|]).
  - intros a [= <-] Ha. simpl. rewrite Ha. by split; [|left].
  - by intros a [= <-].
Qed.

(** Asking behind a cache. *)
Lemma always_cached keys (fetch : prog (Answer Out) ReviewDecision) h :
  (forall h, always (no_attempt false) (fun h' d => decided granted false h h' (Ok d)) h fetch) ->
  always (no_attempt false) (decided granted false h) h
    (decision ← with_cached_approval keys fetch; Return (Ok decision) : prog (Answer Out) (res () ReviewDecision)).
Proof.
  intros Hf. apply always_bind. unfold with_cached_approval. destruct (is_empty keys).
  { eapply always_mono; [| |apply Hf]; done. }
  split; [done|]. intros [|].
  { exists [said (CacheHas keys) (true : Answer Out (CacheHas keys))]. repeat split; auto. }
  apply always_bind. eapply always_mono; [| |apply Hf]; [done|]. intros h' d (t & -> & Hq & Ht).
  assert (forall u, decided granted false h (((h ++ [said (CacheHas keys) (false : Answer Out (CacheHas keys))]) ++ t)
     ++ match d with ApprovedForSession => [said (CachePut keys) u] | _ => [] end) (Ok d)) as Hd.
  { intros u. eexists. rewrite <- !app_assoc. split; [done|]. rewrite !quiet_app, Hq. split; [by destruct d|].
    intros a Ha Hap. destruct (Ht a Ha Hap) as [H1 H2]. rewrite !existsb_app, H1. destruct d; simpl; rewrite ?orb_false_r; auto;
      (split; [done|]; left; destruct H2 as [->|]; done). }
  destruct d; try (specialize (Hd ()); rewrite app_nil_r in Hd; exact Hd). split; [done|]. intros u. exact (Hd u).
Qed.

Definition preapproved action (ctx : ApprovalContext) : bool :=
  match action with
  | ApplyPatchAction _ _ _ _ _ _ permissions_preapproved =>
      permissions_preapproved && bool_decide (option_or (ac_retry_reason ctx) (ac_approval_reason ctx) = None)
  | _ => false
  end.

Local Ltac asked := first
  [ apply decided_now; intros ? [= <-]; done
  | eapply always_mono; [done|intros ? ?; apply decided_free|];
    first [apply always_cached|apply (always_cached [])]; intros ?; apply always_asked ].

Lemma always_user action ctx h :
  always (no_attempt false) (decided granted (preapproved action ctx) h) h (request_user_approval crates host aenv action ctx).
Proof.
  destruct action; unfold request_user_approval.
  - destruct (guardian_cwd _ _ _ _); [|asked..]. destruct (from_abs_path _); asked.
  - asked.
  - destruct (from_abs_path _); asked.
  - destruct (option_or _ _) as [reason|] eqn:Er; [asked|]. destruct permissions_preapproved; [|asked].
    apply decided_now. intros ? _ _. simpl. by rewrite Er.
  - asked.
  - destruct (from_abs_path _); asked.
  - asked.
Qed.

Lemma always_guardian strict action ctx h :
  always (no_attempt strict) (decided reviewed false h) h (request_guardian_approval host aenv action ctx).
Proof.
  unfold request_guardian_approval. destruct (terminal_unreachable action ctx); [asked|].
  destruct (into_guardian_request _ _ action) as [request| |]; [|asked..].
  destruct (ac_has_cancellation_token ctx); [|destruct (is_network_action action)].
  1,2: split; [done|]; intros [d|]; (eexists; split; [reflexivity|]); (split; [done|]); intros a [= <-] Ha; simpl in *;
    rewrite ?Ha; auto; done.
  split; [done|]. intros d. eexists. split; [reflexivity|]. split; [done|]. intros a [= <-] Ha. simpl in *. rewrite Ha. auto.
Qed.

(** By whom a question may be settled, and whether it may be settled without one. *)
Definition good_of (strict : bool) : Ex -> bool := if strict then reviewed else granted.

Lemma always_reviewer action ctx h :
  always (no_attempt (ac_strict_auto_review ctx)) (fun h' r => decided (good_of (ac_strict_auto_review ctx)) (negb (ac_strict_auto_review ctx) && preapproved action ctx) h h'
    (fmap (M := res ()) re_decision r)) h (request_reviewer_approval crates host aenv action ctx).
Proof.
  assert (always (no_attempt (ac_strict_auto_review ctx)) (decided (good_of (ac_strict_auto_review ctx)) (negb (ac_strict_auto_review ctx) && preapproved action ctx) h) h
    (match reviewer_of action ctx with
     | Guardian => request_guardian_approval host aenv action ctx
     | User => request_user_approval crates host aenv action ctx
     end : prog (Answer Out) (res () ReviewDecision))) as Ha.
  { unfold reviewer_of, good_of. destruct (ac_strict_auto_review ctx); cbn [negb andb]; [apply always_guardian|].
    destruct (match action with McpToolCallAction _ _ _ _ _ _ _ _ _ => _ | _ => _ end); [|apply always_user].
    eapply always_mono; [done| |apply always_guardian]. intros h' d (t & -> & Hq & Ht). exists t. split; [done|]. split; [done|].
    intros a Hd Hap. destruct (Ht a Hd Hap) as [Hr [(x & Hin & Hx)%existsb_exists|?]]; [|done]. split; [done|]. left.
    apply existsb_exists. exists x. split; [done|]. by apply reviewed_granted. }
  unfold request_reviewer_approval. apply always_bind. eapply always_mono; [done| |exact Ha].
  intros h' [d| |] (t & -> & Hq & Ht); exists t; (split; [done|]); (split; [done|]); intros a [= <-] Hap. eauto.
Qed.

Lemma conclude_approves action r d :
  is_network_action action = false -> is_mcp_action action = false -> conclude aenv action r = Ok d -> approves (re_decision r) = true.
Proof.
  unfold conclude, into_tool_result. intros -> ->. cbn [andb].
  destruct (re_decision r) as [| | | |[? []]| | |]; done.
Qed.

Lemma always_request action ctx h :
  is_network_action action = false -> is_mcp_action action = false ->
  always (no_attempt (ac_strict_auto_review ctx)) (settled (good_of (ac_strict_auto_review ctx)) (negb (ac_strict_auto_review ctx) && preapproved action ctx) h) h
    (request_approval crates host aenv action ctx).
Proof.
  intros Hn Hm. unfold request_approval. destruct (stdin_rejected action ctx).
  { exists []. rewrite app_nil_r. by split. }
  split; [done|]. intros hooks. apply always_bind.
  destruct hooks as [[|message]|].
  - eexists. split; [reflexivity|]. split; [done|]. intros _ _. split; [done|]. left. by destruct (ac_strict_auto_review ctx).
  - eexists. split; [reflexivity|]. split; [done|]. intros a Ha. by apply conclude_approves in Ha.
  - eapply always_mono; [done| |apply always_reviewer]. intros h' r (t & -> & Hq & Ht). eexists. rewrite <- app_assoc.
    split; [reflexivity|]. split; [by rewrite quiet_app, Hq|]. intros d Hd. destruct r as [r| |]; [|done..].
    apply conclude_approves in Hd; [|done..]. destruct (Ht _ eq_refl Hd) as [Hr Hg]. rewrite !existsb_app, Hr. split; [done|].
    destruct Hg as [->| ->]; [left; apply orb_true_r|by right].
Qed.

End Approvals.

(** ** Calls *)

Section Calls.
Context {Opaque Url : Type} `{UrlCrate Url}.
Variable crates : Crates.
Variable host : Host.
Variable target_os : TargetOs.
Variable aenv : @ApprovalEnv Opaque Url.
Context {Out : Type}.
Set Default Proof Using "Type".
Local Abbreviation Ev := (@Event Opaque Url).
Local Abbreviation Ex := (exchange (Event := Ev) (Answer := Answer Out)).
Implicit Types (h t : list Ex).

(** The tool was denied by the sandbox. *)
Definition denied (a : @SandboxAttempt Url) (output : rstr) (decision : option NetworkPolicyDecisionPayload) : Ex :=
  said (RunTool a) (inr (WorkxError (SandboxDenied output decision)) : Answer Out (RunTool a)).

(** The exchanges of one attempt; a denial that it reports comes from the tool. *)
Definition one_attempt (attempt : @SandboxAttempt Url) t (r : Out + ToolError) : Prop :=
  existsb refused t = false /\
  forall output decision, r = inr (WorkxError (SandboxDenied output decision)) ->
    exists t1 n t2, t = t1 ++ denied (with_network attempt n) output decision :: t2 /\ quiet t1 = true /\ quiet t2 = true.

Lemma always_run_attempt (P : list Ex -> Ev -> Prop) (Q : list Ex -> (Out + ToolError) * option DeferredNetworkApproval -> Prop) attempt spec h :
  (forall h' e, is_attempt e = false -> asks_user e = false -> P h' e) ->
  (forall t n, quiet t = true -> existsb refused t = false -> P (h ++ t) (RunTool (with_network attempt n))) ->
  (forall t r, one_attempt attempt t r.1 -> Q (h ++ t) r) ->
  always P Q h (run_attempt attempt spec).
Proof.
  intros HP HR HQ. unfold run_attempt. apply always_bind.
  assert (forall t n, quiet t = true -> existsb refused t = false -> always P Q (h ++ t)
    (run_result ← ask (RunTool (with_network attempt n));
     match n with
     | None => Return (run_result, None)
     | Some network_approval =>
         match run_result : Out + ToolError with
         | inr _ =>
             finalize_result ← finish_deferred_network_approval (into_deferred network_approval);
             Return match finalize_result with inr err => (inr err, None) | inl _ => (run_result, None) end
         | inl _ => Return (run_result, into_deferred network_approval)
         end
     end)) as Hrun.
  { intros t n Hq Hr. split; [by apply HR|]. intros r.
    assert (forall t2, quiet t2 = true -> existsb refused t2 = false ->
      one_attempt attempt (t ++ said (RunTool (with_network attempt n)) r :: t2) r) as Hone.
    { intros t2 Hq2 Hr2. split; [by rewrite existsb_app, Hr|]. intros output decision ->. by exists t, n, t2. }
    assert (forall t2, ((h ++ t) ++ [said (RunTool (with_network attempt n)) r]) ++ t2
      = h ++ t ++ said (RunTool (with_network attempt n)) r :: t2) as Eq by (intros; by rewrite <- !app_assoc).
    assert (forall d, Q ((h ++ t) ++ [said (RunTool (with_network attempt n)) r]) (r, d)) as Hdone.
    { intros d. rewrite <- (app_nil_r (_ ++ [_])), Eq. apply HQ, Hone; done. }
    destruct n as [n|]; [|apply Hdone]. destruct r as [out|err] eqn:Er; [apply Hdone|]. apply always_bind.
    unfold finish_deferred_network_approval. destruct (into_deferred n) as [deferred|]; [|apply Hdone].
    split; [by apply HP|]. intros outcome. cbn -[app]. rewrite Eq. destruct outcome as [rejection|]; apply HQ; [|by apply Hone].
    split; [by rewrite existsb_app, Hr|]. done. }
  unfold begin_network_approval. destruct spec as [spec|]; [|specialize (Hrun [] None); rewrite app_nil_r in Hrun; by apply Hrun].
  destruct (at_enforce_managed_network attempt); cbn [negb];
    [|specialize (Hrun [] None); rewrite app_nil_r in Hrun; by apply Hrun].
  split; [by apply HP|]. intros [n|[]]; [by apply Hrun| |]; by apply HQ; split.
Qed.

Context {Rq : Type} `{!@ToolRuntime Opaque Url Rq} `{lawful : !LawfulRuntime Rq}.
Variables (req : Rq) (ctx : ToolCtx).
Local Abbreviation strict := (sc_strict_auto_review (tc_step_context ctx)).
Implicit Types (perms : @PermissionProfile Url) (a : @SandboxAttempt Url).

(** The files of the patch were approved before. *)
Definition patch_preapproved : bool :=
  match approval_action req (tc_call_id ctx) with Ok (ApplyPatchAction _ _ _ _ _ _ p) => p | _ => false end.

Lemma always_approve reason retry network h :
  always (no_attempt strict) (settled (good_of strict) (negb strict && (patch_preapproved && bool_decide (option_or retry reason = None))) h) h
    (approve crates host aenv req ctx reason retry network).
Proof using All.
  unfold approve, patch_preapproved. destruct (approval_action req (tc_call_id ctx)) as [action| |] eqn:Ea.
  - apply law_action in Ea as [Hn Hm]. pose proof (always_request crates host aenv (Out := Out) action
      {| ac_review_context := review_context ctx; ac_has_cancellation_token := true; ac_call_id := tc_call_id ctx;
         ac_tool_name := tc_tool_name ctx; ac_strict_auto_review := strict; ac_approval_reason := reason;
         ac_retry_reason := retry; ac_network_approval_context := network |} h Hn Hm) as Hr.
    by destruct action.
  - exists []. rewrite app_nil_r. by split.
  - exists []. rewrite app_nil_r. by split.
Qed.

(** What precedes the first attempt. *)
Definition admitted perms t : Prop :=
  existsb refused t = false /\
  match requirement_for req ctx perms with
  | Skip _ _ => strict = true -> existsb reviewed t = true
  | ForbiddenReq _ => False
  | NeedsApproval _ _ => existsb (good_of strict) t = true \/ (strict = false /\ patch_preapproved = true)
  end.

Lemma admitted_app perms t t' : admitted perms t -> existsb refused t' = false -> admitted perms (t ++ t').
Proof using Type.
  intros [Hr Hreq] Hr'. split; [by rewrite existsb_app, Hr, Hr'|]. rewrite !existsb_app.
  destruct (requirement_for req ctx perms); [intros Hs; by rewrite (Hreq Hs)| |done]. destruct Hreq as [->|]; auto.
Qed.

Definition first_attempt perms t a : Prop :=
  quiet t = true /\ admitted perms t /\ exists n, a = with_network (initial_attempt host target_os req ctx perms) n.

(** What precedes the second: the first was denied, the denial is not final, and there was a
    grant since, or before the first attempt. *)
Definition second_attempt perms t a : Prop :=
  exists t1 a1 output decision t2,
    t = t1 ++ denied a1 output decision :: t2 /\ first_attempt perms t1 a1 /\
    quiet t2 = true /\ existsb refused t2 = false /\ denial_is_final req ctx perms decision = false /\
    (exists n, a = with_network (retry_attempt host target_os req ctx perms) n) /\
    (existsb (good_of strict) t2 = true \/
     strict = false /\ network_context_of req ctx decision = None /\
     exists reason amendment, requirement_for req ctx perms = NeedsApproval reason amendment).

Definition attempt_allowed t a : Prop :=
  exists perms, call_permissions host req = Ok perms /\
    (is_Some (te_network_policy (turn_environment req)) -> requires_escalated_permissions (sandbox_permissions req) = false) /\
    (first_attempt perms t a \/ second_attempt perms t a).

Definition attempts_allowed t (e : Ev) : Prop := match e with RunTool a => attempt_allowed t a | AskUser _ | CacheHas _ | CachePut _ => strict = false | _ => True end.

Lemma no_attempt_allowed t e : no_attempt strict t e -> attempts_allowed t e.
Proof using Type. destruct e; intros [? Hs]; try done; simpl in *; destruct strict; try done; by specialize (Hs eq_refl). Qed.

(** Approval before the first attempt. *)
Lemma always_initial_approval perms :
  always (no_attempt strict) (fun t r => forall already, r = Ok already -> quiet t = true /\ admitted perms t /\
      (already = true -> strict = false -> exists reason amendment, requirement_for req ctx perms = NeedsApproval reason amendment))
    [] (initial_approval crates host aenv req ctx (requirement_for req ctx perms)).
Proof using All.
  unfold initial_approval, admitted. destruct (requirement_for req ctx perms) as [bypass amendment|reason amendment|reason] eqn:Er.
  - destruct strict eqn:Es; [|by intros ? [= <-]]. apply always_bind.
    eapply (always_mono (no_attempt strict)); [by rewrite Es| |apply always_approve].
    rewrite Es. intros h [d| |] (t & -> & Hq & Ht); [|done..]. intros ? [= <-]. destruct (Ht d eq_refl) as [Hr [Hg|?]]; done.
  - apply always_bind. eapply always_mono; [done| |apply always_approve].
    intros h [d| |] (t & -> & Hq & Ht); [|done..]. intros ? [= <-]. destruct (Ht d eq_refl) as [Hr Hg]. split; [done|].
    split; [|by eauto]. split; [done|]. destruct Hg as [Hg|[Hs [Hp _]%andb_true_iff]%andb_true_iff]; [by left|]. right.
    by destruct strict.
  - done.
Qed.

Lemma never_denial_final perms decision :
  sc_approval_policy (tc_step_context ctx) = Never -> denial_is_final req ctx perms decision = true.
Proof using lawful.
  intros Hp. unfold denial_is_final, allow_on_request_network_prompt. rewrite Hp, law_never. cbn [negb andb].
  rewrite (bool_decide_eq_false_2 (Never = OnRequest)) by done. cbn [negb andb]. by rewrite !orb_true_r, ?orb_true_l.
Qed.

(** Approval between the attempts. *)
Lemma always_retry_approval perms already output decision h :
  denial_is_final req ctx perms decision = false ->
  (already = true -> strict = false -> exists reason amendment, requirement_for req ctx perms = NeedsApproval reason amendment) ->
  always (no_attempt strict) (fun h' r => exists t, h' = h ++ t /\ quiet t = true /\ forall u, r = Ok u ->
      existsb refused t = false /\ (existsb (good_of strict) t = true \/
        strict = false /\ network_context_of req ctx decision = None /\
        exists reason amendment, requirement_for req ctx perms = NeedsApproval reason amendment))
    h (retry_approval crates host aenv req ctx perms already output (network_context_of req ctx decision)).
Proof using All.
  intros Hd Ha. unfold retry_approval. destruct (bypass_retry_approval _ _ _) eqn:Eb.
  - exists []. rewrite app_nil_r. split; [done|]. split; [done|]. intros _ _. split; [done|]. right.
    unfold bypass_retry_approval in Eb. apply andb_true_iff in Eb as [[Hs Hb]%andb_true_iff Hn%bool_decide_eq_true].
    apply negb_true_iff in Hs. split; [done|]. split; [done|]. apply law_bypass in Hb as [->|Hp]; [by apply Ha|].
    by rewrite never_denial_final in Hd.
  - apply always_bind. eapply always_mono; [done| |apply always_approve].
    intros h' [d| |] (t & -> & Hq & Ht); exists t; (split; [done|]); (split; [done|]); [intros _ _|done..].
    destruct (Ht d eq_refl) as [Hr [Hg|[_ [_ Hb]%andb_true_iff]%andb_true_iff]]; [by auto|]. by apply bool_decide_eq_true in Hb.
Qed.

Lemma always_run : always attempts_allowed (fun _ _ => True) [] (run crates host target_os aenv (Out := Out) req ctx).
Proof using All.
  unfold run. destruct (_ && requires_escalated_permissions _) eqn:Eo; [done|].
  destruct (call_permissions host req) as [perms| |] eqn:Ep; [|done..].
  assert (forall t a, first_attempt perms t a \/ second_attempt perms t a -> attempt_allowed t a) as Hall.
  { intros t a Ha. exists perms. split; [done|]. split; [|done]. intros Ho. rewrite bool_decide_eq_true_2 in Eo by done. done. }
  unfold run_with. apply always_bind. eapply always_mono; [apply no_attempt_allowed| |apply (always_initial_approval perms)].
  intros t1 [already| |] Hi; [|done..]. destruct (Hi already eq_refl) as (Hq1 & Had & Hal). apply always_bind.
  apply always_run_attempt; [by intros ? []| |].
  { intros t n Hq Hr. apply Hall. left. split; [by rewrite quiet_app, Hq1, Hq|]. split; [|by exists n].
    by apply admitted_app. }
  intros t r [Hr Hden]. unfold after_first. destruct r.1 as [out|[m|[output decision| | | |]]] eqn:Er; try done.
  destruct (denial_is_final req ctx perms decision) eqn:Ef; [done|].
  destruct (Hden _ _ eq_refl) as (u1 & n & u2 & -> & Hu1 & Hu2). apply always_bind.
  eapply always_mono; [apply no_attempt_allowed| |by apply always_retry_approval].
  intros h [u| |] (t2 & -> & Hq2 & Ht2); [|done..]. destruct (Ht2 u eq_refl) as [Hr2 Hg2]. apply always_bind.
  apply always_run_attempt; [by intros ? []| |done].
  intros t3 n3 Hq3 Hr3. apply Hall. right.
  rewrite existsb_app in Hr. simpl in Hr. apply orb_false_iff in Hr as [Hru1 Hru2].
  exists (t1 ++ u1), (with_network (initial_attempt host target_os req ctx perms) n), output, decision, (u2 ++ t2 ++ t3).
  split; [by rewrite <- !app_assoc|]. split; [|split; [by rewrite !quiet_app, Hu2, Hq2, Hq3|]].
  - split; [by rewrite quiet_app, Hq1, Hu1|]. split; [|by exists n].
    by apply admitted_app.
  - split; [by rewrite !existsb_app, Hru2, Hr2, Hr3|]. split; [done|]. split; [by exists n3|].
    destruct Hg2 as [Hg2|?]; [left|by right]. rewrite !existsb_app, Hg2. by rewrite orb_true_l, orb_true_r.
Qed.

(** Every attempt of a call is allowed by what was exchanged before it. *)
Lemma run_attempt_allowed t a : asks (run crates host target_os aenv (Out := Out) req ctx) t (RunTool a) -> attempt_allowed t a.
Proof using All. intros Ha. apply (always_asks _ _ _ _ _ [] always_run Ha). Qed.

(** *** Which sandbox an attempt has *)

Lemma escalated_unrequested perms requested exe n :
  is_escalated host (with_network (attempt_of host target_os req ctx perms requested exe) n) = true ->
  requested = false /\ should_sandbox host perms PreferAuto (managed_network_active req ctx) = true.
Proof using Type. unfold is_escalated. cbn. by intros [->%negb_true_iff ?]%andb_true_iff. Qed.

(** An escalated first attempt was bypassed by the requirement or the request. *)
Lemma escalated_first perms n :
  is_escalated host (with_network (initial_attempt host target_os req ctx perms) n) = true ->
  match requirement_for req ctx perms with
  | Skip true _ => True
  | _ => requires_escalated_permissions (sandbox_permissions req) = true
  end.
Proof using lawful.
  intros [Hr Hs]%escalated_unrequested. rewrite law_preference, Hs in Hr. unfold sandbox_override, sandbox_override_for_first_attempt in Hr.
  destruct (unsandboxed_allowed req perms); [|done]. destruct (negb _); [done|].
  destruct (requirement_for req ctx perms) as [[] ?| |]; [done|..]; by destruct (requires_escalated_permissions _).
Qed.

Lemma granted_of_good t : existsb (good_of strict) t = true -> existsb granted t = true.
Proof using Type.
  intros (x & Hin & Hx)%existsb_exists. apply existsb_exists. exists x. split; [done|]. unfold good_of in Hx.
  destruct strict; [by apply reviewed_granted|done].
Qed.

(** An attempt of a tool leaves the sandbox that the policy asks for only on a grant, whatever
    hooks, the reviewer, the user, the cache and the tool answer, and wherever the call is
    cancelled: a hook, the automatic reviewer or the user agreed in this call, or the user had
    agreed for the session; or the patch may write its files by a grant that was made before;
    or nothing had to be asked, and then the first attempt is meant to run outside. *)
Lemma escalation_cause t a :
  asks (run crates host target_os aenv (Out := Out) req ctx) t (RunTool a) -> is_escalated host a = true ->
  existsb granted t = true \/
  (strict = false /\ patch_preapproved = true) \/
  (strict = false /\ quiet t = true /\ exists perms bypass amendment,
     call_permissions host req = Ok perms /\ requirement_for req ctx perms = Skip bypass amendment /\
     (bypass = true \/ requires_escalated_permissions (sandbox_permissions req) = true)).
Proof using All.
  intros (perms & Hp & _ & [(Hq & [_ Had] & n & ->)|Hsec])%run_attempt_allowed He.
  - apply escalated_first in He. destruct (requirement_for req ctx perms) as [bypass amendment| |] eqn:Er; [| |done].
    + destruct strict eqn:Es.
      * left. apply granted_of_good. rewrite Es. by apply Had.
      * right. right. split; [done|]. split; [done|]. exists perms, bypass, amendment. split; [done|]. split; [done|].
        destruct bypass; auto.
    + destruct Had as [Hg%granted_of_good|?]; auto.
  - destruct Hsec as (t1 & a1 & output & decision & t2 & -> & (_ & [_ Had] & _) & _ & _ & _ & _ & Hg).
    rewrite existsb_app. cbn [existsb]. destruct Hg as [->%granted_of_good|(Hs & _ & reason & amendment & Er)].
    { left. by rewrite !orb_true_r. }
    rewrite Er in Had. destruct Had as [->%granted_of_good|?]; auto.
Qed.

(** C9. Denied reads and a network policy of the owner of the environment survive every approval:
    whatever is answered, each attempt runs under the permissions of the call, asks for the
    sandbox exactly if the policy does, and on this host, unless the executor applies its own,
    gets the platform sandbox that the policy selects; and with such a network policy, a
    request to leave the sandbox runs nothing. *)
Theorem restrictions_survive_approval perms t a :
  asks (run crates host target_os aenv (Out := Out) req ctx) t (RunTool a) -> call_permissions host req = Ok perms ->
  has_denied_read_restrictions (file_system_sandbox_policy perms) = true \/ is_Some (te_network_policy (turn_environment req)) ->
  at_permissions a = perms /\
  at_sandbox_requested a = should_sandbox host perms PreferAuto (at_enforce_managed_network a) /\
  at_sandbox a = (if uses_executor_managed_process_sandbox req then SandboxNone
                  else select_initial host target_os perms PreferAuto (te_windows_sandbox_level (turn_environment req))
                         (at_enforce_managed_network a)) /\
  (is_Some (te_network_policy (turn_environment req)) -> requires_escalated_permissions (sandbox_permissions req) = false).
Proof using All.
  intros (perms' & Hp & Howner & Hcase)%run_attempt_allowed Hp' Hres. rewrite Hp in Hp'. injection Hp' as ->.
  assert (unsandboxed_allowed req perms = false) as Hun.
  { unfold unsandboxed_allowed, unsandboxed_execution_allowed. destruct Hres as [->|Hs]; [apply andb_false_r|].
    by rewrite bool_decide_eq_true_2. }
  assert (exists exe n, a = with_network (attempt_of host target_os req ctx perms
    (should_sandbox host perms PreferAuto (managed_network_active req ctx)) exe) n) as (exe & n & ->).
  { destruct Hcase as [(_ & _ & n & ->)|(? & ? & ? & ? & ? & _ & _ & _ & _ & _ & (n & ->) & _)].
    - unfold initial_attempt, sandbox_override. rewrite Hun, law_preference. by eexists _, n.
    - unfold retry_attempt. rewrite Hun, law_preference. by eexists _, n. }
  split; [done|]. split; [done|]. split; [|done].
  cbn [with_network attempt_of at_sandbox at_enforce_managed_network]. rewrite law_preference. unfold select_initial.
  by destruct (should_sandbox _ _ _ _), (uses_executor_managed_process_sandbox req).
Qed.

(** C19. A call runs its tool at most twice, the second time only if the sandbox denied the first,
    and nothing runs after a refusal: before an attempt no hook, reviewer or user has said
    no, failed to answer, or let the time pass. *)
Theorem nothing_runs_after_refusal t a :
  asks (run crates host target_os aenv (Out := Out) req ctx) t (RunTool a) ->
  existsb refused t = false /\
  (quiet t = true \/
   exists t1 a1 output decision t2, t = t1 ++ denied a1 output decision :: t2 /\ quiet t1 = true /\ quiet t2 = true).
Proof using All.
  intros (perms & _ & _ & [(Hq & [Hr _] & _)|Hsec])%run_attempt_allowed; [by auto|].
  destruct Hsec as (t1 & a1 & output & decision & t2 & -> & (Hq1 & [Hr1 _] & _) & Hq2 & Hr2 & _).
  split; [by rewrite existsb_app, Hr1|]. right. by exists t1, a1, output, decision, t2.
Qed.

(** C10. Under a strict automatic review every attempt has a review of its own: since the last
    attempt, or the start of the call, a hook or the automatic reviewer has agreed, also if the
    rules or an earlier grant would have let the call pass; and the user and the cache of
    approvals are never asked in its place. *)
Theorem strict_review_each_attempt t e :
  strict = true -> asks (run crates host target_os aenv (Out := Out) req ctx) t e ->
  asks_user e = false /\
  forall a, e = RunTool a -> exists t1 t2, t = t1 ++ t2 /\ quiet t2 = true /\ existsb reviewed t2 = true /\
    (t1 = [] \/ exists t1' a1 output decision, t1 = t1' ++ [denied a1 output decision]).
Proof using All.
  intros Hs Ha. split.
  { pose proof (always_asks _ _ _ _ _ [] always_run Ha) as Hal. destruct e; try done; simpl in Hal; by rewrite Hs in Hal. }
  intros a ->. apply run_attempt_allowed in Ha as (perms & _ & _ & [(Hq & [_ Had] & _)|Hsec]).
  - exists [], t. split; [done|]. split; [done|]. split; [|by left]. unfold good_of in Had. rewrite Hs in Had.
    destruct (requirement_for req ctx perms); [by apply Had| |done]. by destruct Had as [?|[? _]].
  - destruct Hsec as (t1 & a1 & output & decision & t2 & -> & _ & Hq2 & _ & _ & _ & Hg).
    exists (t1 ++ [denied a1 output decision]), t2. split; [by rewrite <- app_assoc|]. split; [done|].
    unfold good_of in Hg. rewrite Hs in Hg. split; [by destruct Hg as [?|[? _]]|]. right. by exists t1, a1, output, decision.
Qed.
End Calls.
