(* ===== verification/ExecHandler.v ===== *)
(** * Commands on their way to the orchestrator

    Models how [workx-rs/core/src/tools/handlers/unified_exec/exec_command.rs] and
    [handlers/mod.rs] settle the permissions of a command, with the grants of the session and
    the turn, and how [core/src/unified_exec/process_manager.rs] derives the approval that it
    needs from the exec policy and hands it to the orchestrator. The interception of
    [apply_patch] commands, a path of its own, and the environment variables are left out. *)
From S2P Require Import Prelude AbsPath ExecRule ExecPolicy ExecAmend PathUri NativePath SandboxPolicy Approval DangerousCommand ExecApproval ExecApprovalProps PolicyTransforms Interaction ToolApproval Orchestrator ToolRuntimes OrchestratorProps.

Set Default Goal Selector "!".

Definition uses_additional_permissions (self : SandboxPermissions) : bool :=
  match self with WithAdditionalPermissions => true | _ => false end.

(** The derived [Debug] of the settings. *)
Definition debug_bool (b : bool) : rstr := if b then lit "true" else lit "false".

Definition debug_policy (policy : AskForApproval) : rstr :=
  match policy with
  | UnlessTrusted => lit "UnlessTrusted"
  | OnRequest => lit "OnRequest"
  | Granular g =>
      lit "Granular(GranularApprovalConfig { sandbox_approval: " ++ debug_bool (g_sandbox_approval g)
      ++ lit ", rules: " ++ debug_bool (g_rules g) ++ lit ", skill_approval: " ++ debug_bool (g_skill_approval g)
      ++ lit ", request_permissions: " ++ debug_bool (g_request_permissions g)
      ++ lit ", mcp_elicitations: " ++ debug_bool (g_mcp_elicitations g) ++ lit " })"
  | Never => lit "Never"
  end.

#[export] Instance NetworkPermissions_eq_dec : EqDecision NetworkPermissions.
Proof. solve_decision. Defined.

Section Handler.
Context {Opaque Url : Type} `{UrlCrate Url}.
Variable crates : Crates.
Variable host : Host.
Set Default Proof Using "Type".
Local Abbreviation Permissions := (@AdditionalPermissionProfile Url).
Local Abbreviation Environment := (@TurnEnvironment Opaque Url).
Local Abbreviation Context := (@FileSystemSandboxPolicyContext Url).

(** ** Permissions *)

Record EffectiveAdditionalPermissions := {
  ea_sandbox_permissions : SandboxPermissions;
  ea_additional_permissions : option Permissions;
  ea_permissions_preapproved : bool;
}.

(** [sandbox_context(None)] of the environment, for the working directory of a command. *)
Definition file_system_sandbox_policy_context_for_cwd (environment : Environment) (cwd : Url) : Context :=
  {| cx_cwd := cwd; cx_workspace_roots := te_workspace_roots environment; cx_user_home_dir := te_user_home_dir environment;
     cx_temporary_directories := te_temporary_directories environment |}.

Definition unanchored (cx : Context) (e : @FileSystemSandboxEntry Url) : bool :=
  match fe_path e with
  | PSpecial Tmpdir => match cx_temporary_directories cx with None => true | Some dirs => is_empty dirs end
  | PSpecial (ProjectRoots _) => is_empty (cx_workspace_roots cx)
  | _ => false
  end.

Definition preapproved_permission_profile (effective_permissions granted_permissions : Permissions) (cx : Context)
    : option Permissions :=
  if match ap_file_system effective_permissions with Some fs => existsb (unanchored cx) (fs_entries fs) | None => false end then None
  else
    match materialize_additional_permissions_with_context effective_permissions cx,
          materialize_additional_permissions_with_context granted_permissions cx with
    | Ok effective, Ok granted =>
        if negb (bool_decide (ap_network effective = ap_network granted)) then None
        else
          let unchanged :=
            match ap_file_system effective, ap_file_system granted with
            | Some effective, Some granted =>
                bool_decide (fs_glob_scan_max_depth effective = fs_glob_scan_max_depth granted)
                && (length (fs_entries effective) =? length (fs_entries granted))%nat
                && forallb (fun e => existsb (fun x => entry_eq x e) (fs_entries granted)) (fs_entries effective)
            | None, None => true
            | _, _ => false
            end in
          if unchanged then Some granted_permissions else None
    | _, _ => None
    end.

(** With the permissions granted for the session and for the turn, in this environment. *)
Definition apply_granted_turn_permissions (granted_session_permissions granted_turn_permissions : option Permissions)
    (environment : Environment) (cwd : Url) (sandbox_permissions : SandboxPermissions) (additional_permissions : option Permissions)
    : EffectiveAdditionalPermissions :=
  match sandbox_permissions with
  | RequireEscalated =>
      {| ea_sandbox_permissions := sandbox_permissions; ea_additional_permissions := additional_permissions;
         ea_permissions_preapproved := false |}
  | _ =>
      let granted_permissions := merge_permission_profiles granted_session_permissions granted_turn_permissions in
      let effective_permissions := merge_permission_profiles additional_permissions granted_permissions in
      let cx := file_system_sandbox_policy_context_for_cwd environment cwd in
      let preapproved_permissions :=
        granted ← granted_permissions;
        match additional_permissions with
        | None => Some granted
        | Some _ => effective ← effective_permissions; preapproved_permission_profile effective granted cx
        end in
      let effective_permissions := option_or preapproved_permissions effective_permissions in
      {| ea_sandbox_permissions :=
           if bool_decide (is_Some effective_permissions) && negb (uses_additional_permissions sandbox_permissions)
           then WithAdditionalPermissions else sandbox_permissions;
         ea_additional_permissions := effective_permissions;
         ea_permissions_preapproved := bool_decide (is_Some preapproved_permissions) |}
  end.

Definition implicit_granted_permissions (sandbox_permissions : SandboxPermissions) (additional_permissions : option Permissions)
    (effective : EffectiveAdditionalPermissions) : option Permissions :=
  if negb (uses_additional_permissions sandbox_permissions) && negb (requires_escalated_permissions sandbox_permissions)
     && bool_decide (additional_permissions = None)
  then ea_additional_permissions effective else None.

Definition normalize_and_validate_additional_permissions (additional_permissions_allowed : bool) (approval_policy : AskForApproval)
    (sandbox_permissions : SandboxPermissions) (additional_permissions : option Permissions) (permissions_preapproved : bool)
    (cx : Context) : res rstr (option Permissions) :=
  let uses_additional := uses_additional_permissions sandbox_permissions in
  if negb permissions_preapproved && negb additional_permissions_allowed
     && (uses_additional || bool_decide (is_Some additional_permissions))
  then Err (lit "additional permissions are disabled; enable " ++ [BACKTICK] ++ lit "features.exec_permission_approvals" ++ [BACKTICK]
            ++ lit " before using " ++ [BACKTICK] ++ lit "with_additional_permissions" ++ [BACKTICK])
  else if uses_additional then
    if negb permissions_preapproved && negb (bool_decide (approval_policy = OnRequest)) then
      Err (lit "approval policy is " ++ debug_policy approval_policy ++ lit "; reject command " ++ [8212%Z]
           ++ lit " you cannot request additional permissions unless the approval policy is OnRequest")
    else
      match additional_permissions with
      | None =>
          Err (lit "missing " ++ [BACKTICK] ++ lit "additional_permissions" ++ [BACKTICK] ++ lit "; provide at least one of "
               ++ [BACKTICK] ++ lit "network" ++ [BACKTICK] ++ lit " or " ++ [BACKTICK] ++ lit "file_system" ++ [BACKTICK]
               ++ lit " when using " ++ [BACKTICK] ++ lit "with_additional_permissions" ++ [BACKTICK])
      | Some additional_permissions =>
          normalized ← normalize_additional_permissions_with_context additional_permissions cx;
          if ap_is_empty normalized then
            Err ([BACKTICK] ++ lit "additional_permissions" ++ [BACKTICK] ++ lit " must include at least one requested permission in "
                 ++ [BACKTICK] ++ lit "network" ++ [BACKTICK] ++ lit " or " ++ [BACKTICK] ++ lit "file_system" ++ [BACKTICK])
          else Ok (Some normalized)
      end
  else
    match additional_permissions with
    | Some _ =>
        Err ([BACKTICK] ++ lit "additional_permissions" ++ [BACKTICK] ++ lit " requires " ++ [BACKTICK]
             ++ lit "sandbox_permissions" ++ [BACKTICK] ++ lit " set to " ++ [BACKTICK] ++ lit "with_additional_permissions" ++ [BACKTICK])
    | None => Ok None
    end.

(** ** The handler *)

(** The arguments of [exec_command], the grants, and the features that it reads. *)
Record ExecCommandArgs := {
  xa_command : list rstr;
  xa_hook_command : rstr;
  xa_cwd : Url;
  xa_environment_cwd : Url;
  xa_environment : Environment;
  xa_shell_mode : UnifiedExecShellMode;
  xa_network : option Z;
  xa_tty : bool;
  xa_sandbox_permissions : SandboxPermissions;
  xa_additional_permissions : option Permissions;
  xa_justification : option rstr;
  xa_prefix_rule : option (list rstr);
  xa_granted_session_permissions : option Permissions;
  xa_granted_turn_permissions : option Permissions;
  xa_exec_permission_approvals : bool;
  xa_request_permissions_tool : bool;
}.

Record ExecCommandRequest := {
  xr_command : list rstr;
  xr_hook_command : rstr;
  xr_cwd : Url;
  xr_sandbox_cwd : Url;
  xr_turn_environment : Environment;
  xr_shell_mode : UnifiedExecShellMode;
  xr_network : option Z;
  xr_tty : bool;
  xr_sandbox_permissions : SandboxPermissions;
  xr_additional_permissions : option Permissions;
  xr_additional_permissions_preapproved : bool;
  xr_justification : option rstr;
  xr_prefix_rule : option (list rstr);
}.

(** The errors are what is told to the model. *)
Definition exec_command_request (args : ExecCommandArgs) (approval_policy : AskForApproval) : res rstr ExecCommandRequest :=
  let environment := xa_environment args in
  let effective :=
    apply_granted_turn_permissions (xa_granted_session_permissions args) (xa_granted_turn_permissions args) environment
      (xa_cwd args) (xa_sandbox_permissions args) (xa_additional_permissions args) in
  let additional_permissions_allowed :=
    xa_exec_permission_approvals args || (xa_request_permissions_tool args && ea_permissions_preapproved effective) in
  if requests_sandbox_override (ea_sandbox_permissions effective) && negb (ea_permissions_preapproved effective)
     && bool_decide (is_Some (prompt_is_rejected_by_policy approval_policy false))
  then Err (lit "approval policy is " ++ debug_policy approval_policy ++ lit "; reject command " ++ [8212%Z]
            ++ lit " you cannot ask for escalated permissions if the approval policy is " ++ debug_policy approval_policy)
  else
    normalized ← match implicit_granted_permissions (xa_sandbox_permissions args) (xa_additional_permissions args) effective with
                 | Some permissions => Ok (Some permissions)
                 | None =>
                     normalize_and_validate_additional_permissions additional_permissions_allowed approval_policy
                       (ea_sandbox_permissions effective) (ea_additional_permissions effective)
                       (ea_permissions_preapproved effective)
                       (file_system_sandbox_policy_context_for_cwd environment (xa_cwd args))
                 end;
    Ok {| xr_command := xa_command args; xr_hook_command := xa_hook_command args; xr_cwd := xa_cwd args;
          xr_sandbox_cwd := xa_environment_cwd args; xr_turn_environment := environment; xr_shell_mode := xa_shell_mode args;
          xr_network := xa_network args; xr_tty := xa_tty args; xr_sandbox_permissions := ea_sandbox_permissions effective;
          xr_additional_permissions := normalized;
          xr_additional_permissions_preapproved := ea_permissions_preapproved effective;
          xr_justification := xa_justification args; xr_prefix_rule := xa_prefix_rule args |}.

(** ** The process manager *)

(** [cfg!(windows)]. *)
Variable cfg_windows : bool.
Variable target_os : TargetOs.
Variable aenv : @ApprovalEnv Opaque Url.
Context {Out : Type}.
Local Abbreviation M := (prog (@Answer Opaque Url Out)).

Definition command_platform (environment : Environment) : DangerousCommandPlatform :=
  match te_executor_platform_os environment with
  | Some os => if (os =s lit "linux") || (os =s lit "macos") then PosixPlatform else WindowsPlatform
  | None => if cfg_windows then WindowsPlatform else PosixPlatform
  end.

Definition approval_request (request : ExecCommandRequest) (approval_policy : AskForApproval) (allow_prefix_rules : AllowPrefixRules)
    : @ExecApprovalRequest Url :=
  let environment := xr_turn_environment request in
  {| rq_command := xr_command request; rq_approval_policy := approval_policy;
     rq_permission_profile := te_permission_profile environment; rq_environment_policy := te_exec_policy environment;
     rq_windows_sandbox_level := te_windows_sandbox_level environment;
     rq_sandbox_permissions := if xr_additional_permissions_preapproved request then UseDefault else xr_sandbox_permissions request;
     rq_prefix_rule := xr_prefix_rule request; rq_allow_prefix_rules := allow_prefix_rules |}.

Definition tool_request (request : ExecCommandRequest) (shell_snapshot : option Opaque) (requirement : ExecApprovalRequirement)
    : @UnifiedExecRequest Opaque Url :=
  {| ur_command := xr_command request; ur_hook_command := xr_hook_command request; ur_cwd := xr_cwd request;
     ur_sandbox_cwd := xr_sandbox_cwd request; ur_turn_environment := xr_turn_environment request;
     ur_shell_snapshot := shell_snapshot; ur_network := xr_network request; ur_tty := xr_tty request;
     ur_sandbox_permissions := xr_sandbox_permissions request; ur_additional_permissions := xr_additional_permissions request;
     ur_justification := xr_justification request; ur_exec_approval_requirement := requirement |}.

(** What a session keeps for its commands: the exec policy, the path of the configured shell,
    and whether the model of the turn honours allow rules. *)
Record ExecSession := { es_exec_policy : ExecPolicyManager; es_configured_shell : rstr; es_allow_prefix_rules : AllowPrefixRules }.

Definition exec_requirement (session : ExecSession) (request : ExecCommandRequest) (approval_policy : AskForApproval)
    : res Error ExecApprovalRequirement :=
  create_exec_approval_requirement_for_shell crates host cfg_windows (es_exec_policy session)
    (approval_request request approval_policy (es_allow_prefix_rules session)) (es_configured_shell session)
    (xr_shell_mode request) (command_platform (xr_turn_environment request)).

Definition open_session_with_sandbox (session : ExecSession) (request : ExecCommandRequest) (shell_snapshot : option Opaque)
    (step_context : StepContext) (call_id : rstr) : M (res ToolError (@OrchestratorRunResult Out)) :=
  match exec_requirement session request (sc_approval_policy step_context) with
  | Ok requirement =>
      run crates host target_os aenv (tool_request request shell_snapshot requirement)
        {| tc_step_context := step_context; tc_call_id := call_id;
           tc_tool_name := {| tn_name := lit "exec_command"; tn_namespace := None |} |}
  | _ => Return Panic
  end.

(** [exec_command]: the permissions, then the session. *)
Definition exec_command (session : ExecSession) (args : ExecCommandArgs) (shell_snapshot : option Opaque)
    (step_context : StepContext) (call_id : rstr) : M (rstr + res ToolError (@OrchestratorRunResult Out)) :=
  match exec_command_request args (sc_approval_policy step_context) with
  | Ok request => r ← open_session_with_sandbox session request shell_snapshot step_context call_id; Return (inr r)
  | Err err => Return (inl err)
  | Panic => Return (inr Panic)
  end.
End Handler.
