(* ===== verification/PatchHandler.v ===== *)
(** * Patches on their way to the orchestrator

    Models how [workx-rs/core/src/tools/handlers/apply_patch.rs] settles the permissions of a
    verified patch and hands it to the orchestrator, with [core/src/apply_patch.rs], which
    asks [Safety] whether it needs an approval. The iteration order of the changes, a hash map
    in the code, is that of the map here. *)
From stdpp Require Import gmap.
From S2P Require Import Prelude AbsPath ExecAmend PathUri SandboxPolicy Approval ExecApproval PolicyTransforms ThreadItems Invocation Safety Interaction ToolApproval Orchestrator ToolRuntimes OrchestratorProps ExecHandler.

Set Default Goal Selector "!".

(** ** Sets of paths *)

(** The order of [Path]: by components. *)
Fixpoint str_leb (a b : rstr) : bool :=
  match a, b with
  | [], _ => true
  | _ :: _, [] => false
  | x :: a, y :: b => if Z.eqb x y then str_leb a b else Z.leb x y
  end.

Definition component_leb (a b : Component) : bool :=
  let rank c := match c with RootDir => 0 | CurDir => 1 | ParentDir => 2 | Normal _ => 3 end%nat in
  match a, b with Normal a, Normal b => str_leb a b | _, _ => Nat.leb (rank a) (rank b) end.

Fixpoint path_leb (a b : list Component) : bool :=
  match a, b with
  | [], _ => true
  | _ :: _, [] => false
  | x :: a, y :: b => if bool_decide (x = y) then path_leb a b else component_leb x y
  end.

(** [collect::<BTreeSet<_>>]. *)
Definition path_set (paths : list (list Component)) : list (list Component) := dedup (sort_by path_leb paths).

Section Patch.
Context {Opaque Url : Type} `{UrlCrate Url} `{Countable Url}.
Variable crates : Crates.
Variable host : Host.
Variable target_os : TargetOs.
Set Default Proof Using "Type".
Local Abbreviation Permissions := (@AdditionalPermissionProfile Url).
Local Abbreviation Environment := (@TurnEnvironment Opaque Url).
Local Abbreviation Policy := (@FileSystemSandboxPolicy Url).
Local Abbreviation Action := (@Invocation.ApplyPatchAction Url _ _).

(** ** Permissions *)

Definition file_paths_for_action (action : Action) : list Url :=
  flat_map (fun pc : Url * ApplyPatchFileChange =>
    pc.1 :: match pc.2 with FileUpdate _ (Some dest) _ => [dest] | _ => [] end) (map_to_list (aa_changes action)).

Definition from_read_write_roots (read write : list AbsolutePathBuf) : res PathUriParseError (@FileSystemPermissions Url) :=
  let entries access paths := map_res (fun path => uri ← from_abs_path (path_string path); Ok (entry_new (PPath uri) access)) paths in
  read ← entries Read read;
  write ← entries Write write;
  Ok {| fs_entries := read ++ write; fs_glob_scan_max_depth := None |}.

Definition write_permissions_for_paths (file_paths : list AbsolutePathBuf) (file_system_sandbox_policy : Policy)
    (cwd : AbsolutePathBuf) : option Permissions :=
  let not_writable (path : AbsolutePathBuf) :=
    negb (can_write_path_with_cwd host file_system_sandbox_policy (path_string path) (path_string cwd)) in
  let write_paths :=
    path_set (List.filter not_writable
      (map (fun path => default path (path_parent (path_string path))) (List.filter not_writable file_paths))) in
  write_paths ← ok_of (map_res (fun path => from_absolute_path_checked (h_env host) (path_string path)) write_paths);
  if is_empty write_paths then None
  else
    file_system ← ok_of (from_read_write_roots [] write_paths);
    ok_of (normalize_additional_permissions {| ap_network := None; ap_file_system := Some file_system |}).

(** With the permissions granted for the session and the turn; an error of a path is [None]. *)
Definition effective_patch_permissions (granted_session_permissions granted_turn_permissions : option Permissions)
    (environment : Environment) (action : Action) (cwd : Url)
    : option (list Url * @EffectiveAdditionalPermissions Url * Policy) :=
  let file_paths := file_paths_for_action action in
  native_cwd ← ok_of (to_abs_path (h_env host) cwd);
  let granted_permissions := merge_permission_profiles granted_session_permissions granted_turn_permissions in
  base ← ok_of (permission_profile_with_workspace_roots host environment);
  let file_system_sandbox_policy := effective_file_system_sandbox_policy (file_system_sandbox_policy base) granted_permissions in
  native_file_paths ← ok_of (map_res (to_abs_path (h_env host)) file_paths);
  Some (file_paths,
        apply_granted_turn_permissions granted_session_permissions granted_turn_permissions environment cwd UseDefault
          (write_permissions_for_paths native_file_paths file_system_sandbox_policy native_cwd),
        file_system_sandbox_policy).

Definition patch_permissions_without_path_matching (action : Action) : list Url * @EffectiveAdditionalPermissions Url * Policy :=
  (file_paths_for_action action,
   {| ea_sandbox_permissions := UseDefault; ea_additional_permissions := None; ea_permissions_preapproved := false |},
   unrestricted).

(** ** Preparation *)

Record ApplyPatchRuntimeInvocation := {
  pi_action : Action;
  pi_auto_approved : bool;
  pi_exec_approval_requirement : ExecApprovalRequirement;
}.

Definition prepare_apply_patch (approval_policy : AskForApproval) (environment : Environment)
    (file_system_sandbox_policy : Policy) (action : Action) : res rstr ApplyPatchRuntimeInvocation :=
  match assess_patch_safety host target_os action approval_policy (te_permission_profile environment)
          file_system_sandbox_policy (aa_cwd action) (te_windows_sandbox_level environment) with
  | AutoApprove =>
      Ok {| pi_action := action; pi_auto_approved := true; pi_exec_approval_requirement := Skip false None |}
  | Safety.AskUser =>
      Ok {| pi_action := action; pi_auto_approved := false; pi_exec_approval_requirement := NeedsApproval None None |}
  | Reject reason => Err (lit "patch rejected: " ++ reason)
  end.

Definition convert_apply_patch_to_protocol (action : Action) : list (rstr * FileChangeContent) :=
  map (fun pc : Url * ApplyPatchFileChange =>
    (native_string pc.1,
     match pc.2 with
     | FileAdd content => AddContent content
     | FileDelete content => DeleteContent content
     | FileUpdate unified_diff move_path _ => UpdateContent unified_diff (native_string <$> move_path)
     end)) (map_to_list (aa_changes action)).

(** ** Execution *)

Variable aenv : @ApprovalEnv Opaque Url.
Context {Out : Type}.
Local Abbreviation M := (prog (@Answer Opaque Url Out)).

Definition patch_request (environment : Environment) (file_paths : list Url) (effective : @EffectiveAdditionalPermissions Url)
    (apply : ApplyPatchRuntimeInvocation) : @ApplyPatchRequest Opaque Url _ _ :=
  {| pq_turn_environment := environment; pq_action := pi_action apply; pq_file_paths := file_paths;
     pq_changes := convert_apply_patch_to_protocol (pi_action apply);
     pq_exec_approval_requirement := pi_exec_approval_requirement apply;
     pq_additional_permissions := ea_additional_permissions effective;
     pq_permissions_preapproved := ea_permissions_preapproved effective |}.

Definition patch_permissions (granted_session_permissions granted_turn_permissions : option Permissions)
    (environment : Environment) (action : Action) (cwd : Url) : list Url * @EffectiveAdditionalPermissions Url * Policy :=
  default (patch_permissions_without_path_matching action)
    (effective_patch_permissions granted_session_permissions granted_turn_permissions environment action cwd).

(** The error on the left is told to the model. The events that announce the patch are left out. *)
Definition execute_verified_patch (granted_session_permissions granted_turn_permissions : option Permissions)
    (action : Action) (cwd : Url) (environment : Environment) (ctx : ToolCtx) : M (rstr + res ToolError (@OrchestratorRunResult Out)) :=
  let '(file_paths, effective, policy) :=
    patch_permissions granted_session_permissions granted_turn_permissions environment action cwd in
  match prepare_apply_patch (sc_approval_policy (tc_step_context ctx)) environment policy action with
  | Err err => Return (inl err)
  | Panic => Return (inr Panic)
  | Ok apply =>
      r ← run crates host target_os aenv (patch_request environment file_paths effective apply) ctx; Return (inr r)
  end.
End Patch.
