(* ===== verification/HandlerProps.v ===== *)
(** * From a request of the model to a process

    Theorems on [ExecHandler] and [PatchHandler] with the orchestrator: what has to have been
    said before a command or a patch runs outside the sandbox, and before a patch runs at all. *)
From stdpp Require Import gmap.
From S2P Require Import Prelude AbsPath ExecRule ExecPolicy ExecAmend PathUri SandboxPolicy Approval DangerousCommand ExecApproval ExecApprovalProps PolicyTransforms Invocation Safety Interaction ToolApproval Orchestrator ToolRuntimes OrchestratorProps ExecHandler PatchHandler.

Set Default Goal Selector "!".

Section Commands.
Context {Opaque Url : Type} `{UrlCrate Url}.
Variable crates : Crates.
Variable host : Host.
Variable cfg_windows : bool.
Variable target_os : TargetOs.
Variable aenv : @ApprovalEnv Opaque Url.
Context {Out : Type}.
Set Default Proof Using "Type".
Implicit Types (session : ExecSession) (args : @ExecCommandArgs Opaque Url) (step : StepContext).

(** Every rule for the command allows it, and there is one. *)
Definition allowed_by_rules (policy : Policy) (command : list rstr) : Prop :=
  explicitly_allowed host policy command = true /\
  forall rm, rm ∈ matches_for_command_with_options (h_env host) policy command None match_options -> rm_decision rm = Allow.

(** What a requirement that asks nothing says of the commands. *)
Lemma skip_commands self (req : @ExecApprovalRequest Url) path mode platform bypass amendment :
  create_exec_approval_requirement_for_shell crates host cfg_windows self req path mode platform = Ok (Skip bypass amendment) ->
  forall c, c ∈ ec_commands (evaluated crates (rq_command req) path mode platform) ->
    allowed_by_rules (policy_for self req) c \/
    (bypass = false /\ exists origin, fallback_of crates host cfg_windows req origin platform c = Allow).
Proof.
  rewrite create_for_shell_unfold. set (cmds := evaluated crates (rq_command req) path mode platform).
  set (req' := evaluated_request req path mode).
  destruct (create_total crates host cfg_windows self req' cmds platform (evaluated_nonempty _ _ _ _ _)) as (ev & -> & Hms & Hmax).
  change (policy_for self req') with (policy_for self req) in *. intros Hreq c Hc.
  assert (ev_decision ev = Allow /\ bypass = forallb (explicitly_allowed host (policy_for self req)) (ec_commands cmds)) as [Ha Hb].
  { unfold requirement_of in Hreq. by repeat case_match; simplify_eq. }
  rewrite (max_decision_Allow _ _ Hmax), Hms in Ha.
  assert (forall rm, rm ∈ matches_for_command_with_options (h_env host) (policy_for self req) c
    (Some (fallback_of crates host cfg_windows req' (ec_origin cmds) platform)) match_options -> rm_decision rm = Allow) as Hrm.
  { intros rm Hin. apply Ha, elem_of_flat_map. by exists c. }
  rewrite matches_none in Hrm. cbv zeta in Hrm. unfold allowed_by_rules, explicitly_allowed in *.
  pose proof (explicit_is_rule (h_env host) (policy_for self req) c match_options) as Hrule.
  destruct (matches_for_command_with_options (h_env host) (policy_for self req) c None match_options) as [|rm ms] eqn:E.
  - right. split; [|exists (ec_origin cmds); exact (Hrm _ (list_elem_of_here _ _))].
    rewrite Hb. apply not_true_iff_false. intros Hall. rewrite forallb_forall in Hall.
    specialize (Hall c (proj1 (list_elem_of_In _ _) Hc)). simpl in Hall. by rewrite E in Hall.
  - left. split; [|done]. apply existsb_exists. exists rm. split; [by left|]. unfold is_rule_with.
    rewrite (Hrule rm), (Hrm rm) by set_solver. done.
Qed.

(** A command that asks to be run outside is not allowed by default where files are restricted. *)
Lemma escalation_fallback (req : @ExecApprovalRequest Url) origin platform c :
  rq_sandbox_permissions req = RequireEscalated -> prompt_is_rejected_by_policy (rq_approval_policy req) false = None ->
  fp_kind (file_system_sandbox_policy (rq_permission_profile req)) = Restricted ->
  fallback_of crates host cfg_windows req origin platform c ≠ Allow.
Proof.
  intros Hs Hp Hk. unfold fallback_of, render_decision_for_unmatched_command_for_platform.
  cbn [uc_approval_policy uc_permission_profile uc_sandbox_permissions]. rewrite Hs, Hk.
  destruct (_ || _), (rq_approval_policy req); done.
Qed.

Lemma escalation_not_preapproved gs gt (environment : @TurnEnvironment Opaque Url) cwd permissions additional :
  let effective := apply_granted_turn_permissions gs gt environment cwd permissions additional in
  ea_sandbox_permissions effective = RequireEscalated -> ea_permissions_preapproved effective = false.
Proof.
  unfold apply_granted_turn_permissions. destruct permissions; cbv zeta; cbn [ea_sandbox_permissions]; [|done|].
  - destruct (bool_decide (is_Some (option_or _ _))); done.
  - cbn [uses_additional_permissions negb]. by rewrite andb_false_r.
Qed.

(** The handler lets a command ask for escalation only where the user may be asked. *)
Lemma escalated_request args policy request :
  exec_command_request args policy = Ok request -> xr_sandbox_permissions request = RequireEscalated ->
  xr_additional_permissions_preapproved request = false /\ prompt_is_rejected_by_policy policy false = None.
Proof.
  unfold exec_command_request. set (effective := apply_granted_turn_permissions _ _ _ _ _ _). intros Hr Hs.
  assert (ea_sandbox_permissions effective = RequireEscalated -> ea_permissions_preapproved effective = false) as Hpre
    by apply escalation_not_preapproved.
  destruct (requests_sandbox_override _ && _ && _) eqn:Eg; [done|].
  destruct (match implicit_granted_permissions _ _ _ with Some _ => _ | None => _ end); simplify_eq/=.
  specialize (Hpre Hs). split; [done|]. rewrite Hs, Hpre in Eg. cbn in Eg. apply bool_decide_eq_false in Eg.
  destruct (prompt_is_rejected_by_policy policy false); [|done]. by destruct Eg.
Qed.

Lemma exec_command_asks session args snapshot step call_id t e :
  asks (exec_command crates host cfg_windows target_os aenv (Out := Out) session args snapshot step call_id) t e ->
  exists request requirement, exec_command_request args (sc_approval_policy step) = Ok request /\
    exec_requirement crates host cfg_windows session request (sc_approval_policy step) = Ok requirement /\
    asks (run crates host target_os aenv (Out := Out) (tool_request request snapshot requirement)
            {| tc_step_context := step; tc_call_id := call_id;
               tc_tool_name := {| tn_name := lit "exec_command"; tn_namespace := None |} |}) t e.
Proof.
  unfold exec_command. destruct (exec_command_request args _) as [request| |]; [|by intros [? Hs]; inversion Hs..].
  intros Ha%asks_then_return. unfold open_session_with_sandbox in Ha.
  destruct (exec_requirement _ _ _ _ _ _) as [requirement| |] eqn:E; [|by destruct Ha as [? Hs]; inversion Hs..].
  by exists request, requirement.
Qed.

(** C8. A command runs outside the sandbox only on rules or on a grant. Where the files are
    restricted, whatever the model asks for and whatever is answered: an attempt that leaves the
    sandbox follows a yes to this call, of a hook, the automatic reviewer, the user or an approval
    for the session; or it is the first, no strict review is on, and every command that the
    request stands for is allowed by a rule, with no rule against it. *)
Theorem command_leaves_sandbox_only_if_allowed session args snapshot step call_id t a :
  asks (exec_command crates host cfg_windows target_os aenv (Out := Out) session args snapshot step call_id) t (RunTool a) ->
  is_escalated host a = true ->
  fp_kind (file_system_sandbox_policy (te_permission_profile (xa_environment args))) = Restricted ->
  existsb granted t = true \/
  (quiet t = true /\ sc_strict_auto_review step = false /\
   forall c, c ∈ ec_commands (evaluated crates (xa_command args) (es_configured_shell session) (xa_shell_mode args)
                                (command_platform cfg_windows (xa_environment args))) ->
     allowed_by_rules (current_for_environment (es_exec_policy session) (te_exec_policy (xa_environment args))
                         (es_allow_prefix_rules session)) c).
Proof.
  intros (request & requirement & Hx & Hq & Ha)%exec_command_asks He Hk.
  assert (xr_turn_environment request = xa_environment args /\ xr_command request = xa_command args /\
          xr_shell_mode request = xa_shell_mode args) as (Eenv & Ecmd & Emode).
  { unfold exec_command_request in Hx. destruct (_ && _ && _) in Hx; [done|].
    destruct (match implicit_granted_permissions _ _ _ with Some _ => _ | None => _ end) in Hx; by simplify_eq/=. }
  destruct (escalation_cause _ _ _ _ _ _ _ _ Ha He) as [?|[[_ Hpre]|(Hs & Hquiet & perms & bypass & amendment & _ & Hreq & Hcause)]];
    [by left|done|]. right. split; [done|]. split; [done|].
  change (requirement = Skip bypass amendment) in Hreq. subst requirement. unfold exec_requirement in Hq.
  pose proof (skip_commands _ _ _ _ _ _ _ Hq) as Hc. cbn [approval_request rq_command] in Hc.
  rewrite Eenv, Ecmd, Emode in Hc. intros c Hin. destruct (Hc c Hin) as [?|(Hb & origin & Hf)].
  { unfold policy_for in *. cbn [approval_request rq_environment_policy rq_allow_prefix_rules] in *. by rewrite Eenv in *. }
  exfalso. destruct Hcause as [->|Hesc]; [done|].
  assert (xr_sandbox_permissions request = RequireEscalated) as Esp by (cbn in Hesc; by destruct (xr_sandbox_permissions request)).
  destruct (escalated_request _ _ _ Hx Esp) as [Epre Hp].
  eapply escalation_fallback; [| | |exact Hf]; cbn; [by rewrite Epre|done|by rewrite Eenv].
Qed.
End Commands.

(** ** What a grant covers *)

(** The path that an absolute path that was read back stands for. *)
Lemma checked_normalized env s p : from_absolute_path_checked env s = Ok p -> normalized p.
Proof.
  unfold from_absolute_path_checked. destruct (is_absolute _) eqn:E; [|done]. intros [= <-]. unfold absolutize_from. rewrite E.
  by apply normalize_path_normalized.
Qed.

Lemma checked_path_string env p : normalized p -> from_absolute_path_checked env (path_string p) = Ok p.
Proof.
  intros Hp. destruct (normalize_path_string p Hp) as [Habs Hid]. unfold from_absolute_path_checked.
  assert (maybe_expand_home_directory env (path_string p) = path_string p) as ->.
  { unfold maybe_expand_home_directory. unfold is_absolute in Habs. destruct (path_string p) as [|c s]; [done|].
    cbn [strip_prefix]. destruct (Z.eqb_spec TILDE c) as [<-|]; [|done]. by vm_compute in Habs. }
  rewrite Habs. unfold absolutize_from. by rewrite Habs, Hid.
Qed.

(** The directory that a file is in. *)
Definition directory_of (p : AbsolutePathBuf) : AbsolutePathBuf := default p (path_parent (path_string p)).

Lemma directory_normalized p : normalized p -> normalized (directory_of p).
Proof.
  intros Hp. pose proof Hp as (ns & -> & Hns). unfold directory_of, path_parent.
  assert (components (path_string (RootDir :: map Normal ns)) = RootDir :: map Normal ns) as ->.
  { destruct (path_string_segments ns Hns) as [Hs Hsplit]. unfold components.
    assert (is_absolute (path_string (RootDir :: map Normal ns)) = true) as -> by by rewrite Hs. rewrite Hsplit. f_equal.
    destruct ns as [|n ns]; [done|]. cbn [is_empty]. by rewrite <- omap_good_names. }
  destruct ns as [|n ns _] using rev_ind; [done|]. rewrite map_app, app_comm_cons. cbn [map]. rewrite last_snoc, removelast_last. cbn.
  exists ns. split; [done|]. by apply Forall_app in Hns as [? _].
Qed.

Section Grants.
Context {Opaque Url : Type} `{UrlCrate Url} `{Countable Url}.
Variable host : Host.
Set Default Proof Using "Type".
Local Abbreviation entry := (@FileSystemSandboxEntry Url).
Local Abbreviation Permissions := (@AdditionalPermissionProfile Url).
Local Abbreviation Environment := (@TurnEnvironment Opaque Url).
Local Abbreviation Action := (@Invocation.ApplyPatchAction Url _ _).
Implicit Types (gs gt : option Permissions) (action : Action) (environment : Environment).

Lemma to_abs_path_normalized env (u : Url) p : to_abs_path env u = Ok p -> normalized p.
Proof.
  unfold to_abs_path. intros Hp. repeat case_match; simplify_eq; by eapply checked_normalized.
Qed.

(** The files of a patch: those that it changes, and those that it moves files to. *)
Definition touches action (path : Url) : Prop :=
  is_Some (aa_changes action !! path) \/ exists from unified_diff new_content, aa_changes action !! from = Some (FileUpdate unified_diff (Some path) new_content).

Lemma file_paths_touched action path : path ∈ file_paths_for_action action <-> touches action path.
Proof.
  unfold file_paths_for_action, touches. rewrite elem_of_flat_map. split.
  - intros ([from c] & Hin & [->|Hd]%elem_of_cons); apply elem_of_map_to_list in Hin; [by left; eexists|].
    destruct c as [| |d [dest|] new]; cbn in Hd; [set_solver..| |set_solver]. right. apply list_elem_of_singleton in Hd as ->. by exists from, d, new.
  - intros [[c Hc]|(from & d & new & Hf)].
    + exists (path, c). split; [by apply elem_of_map_to_list|]. set_solver.
    + exists (from, FileUpdate d (Some path) new). split; [by apply elem_of_map_to_list|]. set_solver.
Qed.

(** *** Entries for a path *)

Lemma uri_eq_trans (u v w : Url) : uri_eq u v = true -> uri_eq v w = true -> uri_eq u w = true.
Proof.
  unfold uri_eq. intros [->%bool_decide_eq_true|Huv]%orb_true_iff; [done|]. intros [<-%bool_decide_eq_true|Hvw]%orb_true_iff; [by rewrite Huv, orb_true_r|].
  apply orb_true_iff. right. destruct (windows_identity_path_bytes u), (windows_identity_path_bytes v), (windows_identity_path_bytes w); try done.
  apply andb_true_iff in Huv as [E1%bool_decide_eq_true E2], Hvw as [E3%bool_decide_eq_true E4]. unfold PathUri.eq_ignore_ascii_case in *.
  apply streq_true in E2 as ->. apply andb_true_iff. split; [apply bool_decide_eq_true; congruence|done].
Qed.

(** There is an entry that lets the path be written. *)
Definition write_entry (u : Url) (entries : list entry) : Prop :=
  exists e v, e ∈ entries /\ fe_path e = PPath v /\ uri_eq v u = true /\ fe_access e = Write.

Lemma push_new_keeps u (new entries : list entry) :
  write_entry u entries \/ write_entry u new -> write_entry u (foldl push_new entries new).
Proof.
  revert entries. induction new as [|x new IH]; intros entries; cbn [foldl].
  { by intros [?|(? & ? & ?%not_elem_of_nil & _)]. }
  intros Hw. apply IH. unfold push_new. destruct Hw as [(e & v & He & Hrest)|(e & v & [->|He]%elem_of_cons & Hp & Hv & Ha)].
  - left. exists e, v. destruct (existsb _ entries); set_solver.
  - left. destruct (existsb _ entries) eqn:E; [|exists x, v; set_solver].
    apply existsb_exists in E as (y & Hy%list_elem_of_In & Heq). unfold entry_eq in Heq. rewrite Hp, !andb_true_iff in Heq. destruct Heq as [[Heq Hacc%bool_decide_eq_true] _].
    destruct (fe_path y) as [w| |] eqn:Ey; try done. exists y, w. split_and!; [done..| |congruence]. by eapply uri_eq_trans.
  - right. by exists e, v.
Qed.

Lemma push_new_from (new : list entry) e : forall entries, e ∈ foldl push_new entries new -> e ∈ entries \/ e ∈ new.
Proof.
  induction new as [|x new IH]; intros entries; cbn [foldl]; [by left|]. intros [Hin|Hin]%IH; [|set_solver].
  unfold push_new in Hin. destruct (existsb _ entries); set_solver.
Qed.

Lemma normalize_fold (l : list entry) : forall acc m,
  fold_res normalize_entry acc l = Ok m -> m = foldl push_new acc l.
Proof.
  induction l as [|e l IH]; intros acc m; cbn [fold_res foldl]; [by intros [= <-]|].
  destruct (normalize_entry acc e) as [acc'| |] eqn:E; cbn [mbind res_bind]; [|done..]. unfold normalize_entry in E.
  destruct (is_glob _ && _); simplify_eq. apply IH.
Qed.

(** The entries of permissions. *)
Definition entries_of (p : Permissions) : list entry := match ap_file_system p with Some fs => fs_entries fs | None => [] end.

Lemma normalize_entries_of (p q : Permissions) : normalize_additional_permissions p = Ok q -> entries_of q = foldl push_new [] (entries_of p).
Proof.
  unfold normalize_additional_permissions, entries_of. destruct (ap_file_system p) as [fs|]; cbn [mbind res_bind]; [|by intros [= <-]].
  destruct (fold_res normalize_entry [] (fs_entries fs)) as [m| |] eqn:E; cbn [mbind res_bind]; [|done..]. intros [= <-].
  apply normalize_fold in E as ->. cbn. unfold fs_is_empty. cbn. by destruct (foldl push_new [] (fs_entries fs)).
Qed.

Lemma materialize_entries_of (p q : Permissions) cx :
  materialize_additional_permissions_with_context p cx = Ok q ->
  exists entries, materialize_context_dependent_entries (entries_of p) cx = Some entries /\ entries_of q = foldl push_new [] entries.
Proof.
  assert (forall p q : Permissions, normalize_additional_permissions_with_context p cx = Ok q -> entries_of q = foldl push_new [] (entries_of p)) as Hn.
  { intros p' q'. unfold normalize_additional_permissions_with_context. destruct (normalize_additional_permissions p') as [n| |] eqn:E; [|done..]. cbn [mbind res_bind].
    destruct (ap_file_system n); [destruct (existsb _ _); [done|]|]; intros [= <-]; by apply normalize_entries_of. }
  unfold materialize_additional_permissions_with_context, entries_of at 1. destruct (ap_file_system p) as [fs|] eqn:Ep.
  - destruct (materialize_context_dependent_entries (fs_entries fs) cx) as [entries|]; cbn [ok_or mbind res_bind]; [|done]. intros Hq%Hn. by exists entries.
  - intros Hq%Hn. exists []. unfold entries_of in Hq at 2. by rewrite Ep in Hq.
Qed.

Lemma materialize_keeps u cx : forall (l m : list entry),
  materialize_context_dependent_entries l cx = Some m -> write_entry u l -> write_entry u m.
Proof.
  induction l as [|x l IH]; intros m; cbn [materialize_context_dependent_entries]; [by intros _ (? & ? & ?%not_elem_of_nil & _)|].
  destruct (materialize_context_entry cx x) as [first|] eqn:Ef; [|done]. destruct (materialize_context_dependent_entries l cx) as [rest|]; [|done].
  intros [= <-] (e & v & [->|He]%elem_of_cons & Hp & Hv & Ha).
  - unfold materialize_context_entry, materialize_cwd_dependent_entry in Ef. rewrite Hp in Ef. injection Ef as <-. exists x, v. set_solver.
  - destruct (IH rest eq_refl) as (e' & v' & ? & ?); [by exists e, v|]. exists e', v'. set_solver.
Qed.

Lemma merge_keeps u (p q : Permissions) (merged : Permissions) :
  merge_permission_profiles (Some p) (Some q) = Some merged -> write_entry u (entries_of p) -> write_entry u (entries_of merged).
Proof.
  unfold merge_permission_profiles, entries_of. destruct (ap_file_system p) as [fp|]; [|by intros _ (? & ? & ?%not_elem_of_nil & _)].
  destruct (ap_file_system q) as [fq|]; cbn [option_filter].
  - intros Hm Hw. assert (write_entry u (merge_permission_entries (fs_entries fp) (fs_entries fq))) as Hw'.
    { apply push_new_keeps. right. destruct Hw as (e & v & ? & ?). exists e, v. set_solver. }
    unfold fs_is_empty in Hm. cbn [fs_entries] in Hm. destruct (is_empty (merge_permission_entries _ _)) eqn:E; cbn [negb] in Hm.
    { destruct (merge_permission_entries _ _); [|done]. by destruct Hw' as (? & ? & ?%not_elem_of_nil & _). }
    destruct (negb _); simplify_eq/=. done.
  - intros Hm Hw. destruct (negb _); simplify_eq/=. done.
Qed.

(** *** The permissions that a patch needs *)

Definition may_write policy (cwd p : AbsolutePathBuf) : Prop :=
  can_write_path_with_cwd host policy (path_string p) (path_string cwd) = true.

(** A write entry for the path of the host. *)
Definition lets_write (p : AbsolutePathBuf) (entries : list entry) : Prop :=
  exists u, from_abs_path (path_string p) = Ok u /\ write_entry u entries.

Lemma map_res_all {E A B} (f : A -> res E B) l : (forall x, x ∈ l -> exists y, f x = Ok y) -> exists l', map_res f l = Ok l' /\ Forall2 (fun x y => f x = Ok y) l l'.
Proof.
  intros Hl. assert (exists l', Forall2 (fun x y => f x = Ok y) l l') as [l' Hl'].
  { induction l as [|x l IH]; [by exists []|]. destruct (Hl x ltac:(set_solver)) as [y Hy], IH as [l' Hl']; [set_solver|]. exists (y :: l'). by constructor. }
  exists l'. split; [by apply map_res_Ok|done].
Qed.

Lemma write_roots_entries (dirs : list AbsolutePathBuf) :
  (forall d, d ∈ dirs -> exists u : Url, from_abs_path (path_string d) = Ok u) ->
  exists fs, from_read_write_roots [] dirs = Ok fs /\ (forall d, d ∈ dirs -> lets_write d (fs_entries fs)) /\
    Forall (fun e => is_glob (fe_path e) = false) (fs_entries fs).
Proof.
  intros Hu. unfold from_read_write_roots. cbn [map_res mbind res_bind].
  destruct (map_res_all (fun path => uri ← from_abs_path (path_string path); Ok (entry_new (PPath uri) Write) : res PathUriParseError entry) dirs) as (l & -> & Hl).
  { intros d Hd. destruct (Hu d Hd) as [u ->]. by eexists. }
  eexists. split; [reflexivity|]. cbn [fs_entries app]. split.
  - intros d (k & Hk)%list_elem_of_lookup. destruct (Forall2_lookup_l _ _ _ _ _ Hl Hk) as (e & He & Hde).
    destruct (from_abs_path (path_string d)) as [u| |] eqn:Eu; simplify_eq/=. exists u. split; [done|].
    eexists _, u. split; [by eapply list_elem_of_lookup_2|]. split_and!; try done. unfold uri_eq. by rewrite bool_decide_true.
  - apply Forall_forall. intros e (k & Hk)%list_elem_of_lookup. destruct (Forall2_lookup_r _ _ _ _ _ Hl Hk) as (d & _ & Hde).
    by destruct (from_abs_path (path_string d)); simplify_eq/=.
Qed.

Lemma normalize_plain network depth (l : list entry) : Forall (fun e => is_glob (fe_path e) = false) l ->
  exists q, normalize_additional_permissions {| ap_network := network; ap_file_system := Some {| fs_entries := l; fs_glob_scan_max_depth := depth |} |} = Ok q.
Proof.
  intros Hl. unfold normalize_additional_permissions. cbn [ap_file_system fs_entries]. assert (forall acc, exists m, fold_res normalize_entry acc l = Ok m) as Hf.
  { induction Hl as [|e l He _ IH]; intros acc; cbn [fold_res]; [by eexists|]. unfold normalize_entry. rewrite He. cbn [andb mbind res_bind]. apply IH. }
  destruct (Hf []) as [m ->]. by eexists.
Qed.

Lemma write_permissions_needed (files : list AbsolutePathBuf) policy cwd :
  Forall normalized files -> (forall p, p ∈ files -> exists u : Url, from_abs_path (path_string (directory_of p)) = Ok u) ->
  forall p, p ∈ files -> may_write policy cwd p \/ may_write policy cwd (directory_of p) \/
    exists additional, write_permissions_for_paths host files policy cwd = Some additional /\ lets_write (directory_of p) (entries_of additional).
Proof.
  intros Hn Hu p Hp. unfold may_write, write_permissions_for_paths.
  set (w := fun path => can_write_path_with_cwd host policy (path_string path) (path_string cwd)).
  fold (w p) (w (directory_of p)). set (dirs := path_set _).
  assert (forall d, d ∈ dirs <-> (exists q, q ∈ files /\ w q = false /\ d = directory_of q) /\ w d = false) as Hd.
  { intros d. unfold dirs, path_set. rewrite dedup_elem, sort_by_elem, list_elem_of_In, filter_In, in_map_iff.
    setoid_rewrite filter_In. setoid_rewrite <- list_elem_of_In. unfold directory_of, w. setoid_rewrite negb_true_iff. naive_solver. }
  destruct (w p) eqn:Ep; [by left|]. destruct (w (directory_of p)) eqn:Ed; [by right; left|]. right. right.
  assert (map_res (fun path => from_absolute_path_checked (h_env host) (path_string path)) dirs = Ok dirs) as ->.
  { apply map_res_Ok. apply Forall2_same_length_lookup_2; [done|]. intros k d d' Hk Hk'. simplify_eq. apply checked_path_string.
    apply list_elem_of_lookup_2, Hd in Hk as [(q & Hq & _ & ->) _]. rewrite Forall_forall in Hn. by apply directory_normalized, Hn. }
  cbn [ok_of mbind option_bind]. assert (directory_of p ∈ dirs) as Hdir by (apply Hd; eauto).
  destruct (is_empty dirs) eqn:Ee. { by destruct dirs; [apply not_elem_of_nil in Hdir|]. }
  destruct (write_roots_entries dirs) as (fs & -> & Hlets & Hplain).
  { intros d [(q & Hq & _ & ->) _]%Hd. by apply Hu. }
  cbn [ok_of mbind option_bind]. destruct fs as [l depth]. destruct (normalize_plain None depth l Hplain) as [additional Ea]. rewrite Ea. exists additional.
  split; [done|]. destruct (Hlets _ Hdir) as (u & Eu & Hw). exists u. split; [done|]. rewrite (normalize_entries_of _ _ Ea). apply push_new_keeps. by right.
Qed.

(** *** Permissions that were granted before *)

Lemma preapproved_entries (effective granted : Permissions) cx permissions u :
  preapproved_permission_profile effective granted cx = Some permissions -> write_entry u (entries_of effective) ->
  exists entries, materialize_context_dependent_entries (entries_of granted) cx = Some entries /\ write_entry u entries.
Proof.
  unfold preapproved_permission_profile. destruct (match ap_file_system effective with Some _ => _ | None => _ end); [done|].
  destruct (materialize_additional_permissions_with_context effective cx) as [me| |] eqn:Ee; [|done..].
  destruct (materialize_additional_permissions_with_context granted cx) as [mg| |] eqn:Eg; [|done..].
  destruct (negb _); [done|]. destruct (materialize_entries_of _ _ _ Ee) as (le & Hle & Ele), (materialize_entries_of _ _ _ Eg) as (lg & Hlg & Elg).
  intros Hpre Hw. exists lg. split; [done|].
  assert (write_entry u (entries_of me)) as (e & v & He & Hp & Hv & Ha).
  { rewrite Ele. apply push_new_keeps. right. by eapply materialize_keeps. }
  unfold entries_of in He, Elg. destruct (ap_file_system me) as [fe|]; [|by apply not_elem_of_nil in He].
  destruct (ap_file_system mg) as [fg|]; [|done]. destruct (bool_decide _ && _ && forallb _ _) eqn:Eu; [|done].
  apply andb_true_iff in Eu as [_ Eu]. rewrite forallb_forall in Eu. apply list_elem_of_In, Eu, existsb_exists in He as (x & Hx%list_elem_of_In & Heq).
  unfold entry_eq in Heq. rewrite Hp, !andb_true_iff in Heq. destruct Heq as [[Heq Hacc%bool_decide_eq_true] _]. destruct (fe_path x) as [y| |] eqn:Ex; try done.
  rewrite Elg in Hx. apply push_new_from in Hx as [?%not_elem_of_nil|Hx]; [done|]. exists x, y. split_and!; [done..| |congruence]. by eapply uri_eq_trans.
Qed.

(** Every file of the patch lies where the policy with the grants lets it or its directory be
    written, or in a directory that the grants name to be written to. *)
Definition covered_by_grant gs gt environment action (cwd : Url) : Prop :=
  exists granted base native_cwd, merge_permission_profiles gs gt = Some granted /\
    permission_profile_with_workspace_roots host environment = Ok base /\ to_abs_path (h_env host) cwd = Ok native_cwd /\
    let policy := effective_file_system_sandbox_policy (file_system_sandbox_policy base) (Some granted) in
    forall path, touches action path -> exists p, to_abs_path (h_env host) path = Ok p /\
      (may_write policy native_cwd p \/ may_write policy native_cwd (directory_of p) \/
       exists entries, materialize_context_dependent_entries (entries_of granted)
                         (file_system_sandbox_policy_context_for_cwd environment cwd) = Some entries /\ lets_write (directory_of p) entries).

(** The directories of the files have URIs; [PathUri::from_abs_path] gives one to every path. *)
Definition directories_named action : Prop :=
  forall path p, touches action path -> to_abs_path (h_env host) path = Ok p ->
    exists u : Url, from_abs_path (path_string (directory_of p)) = Ok u.

Lemma preapproved_covered gs gt environment action cwd paths effective policy :
  patch_permissions host gs gt environment action cwd = (paths, effective, policy) -> directories_named action ->
  ea_permissions_preapproved effective = true -> covered_by_grant gs gt environment action cwd.
Proof.
  unfold patch_permissions, effective_patch_permissions, patch_permissions_without_path_matching. intros Hp Hnamed Hpre.
  destruct (to_abs_path (h_env host) cwd) as [native_cwd| |] eqn:Ecwd; cbn [ok_of mbind option_bind default from_option] in Hp; [|by simplify_eq/=..].
  destruct (permission_profile_with_workspace_roots host environment) as [base| |] eqn:Ebase; cbn [ok_of mbind option_bind default from_option] in Hp; [|by simplify_eq/=..].
  destruct (map_res (to_abs_path (h_env host)) (file_paths_for_action action)) as [files| |] eqn:Efiles;
    cbn [ok_of mbind option_bind default from_option id] in Hp; [|by simplify_eq/=..].
  set (fsp := effective_file_system_sandbox_policy _ _) in Hp. injection Hp as _ <- _. cbn [apply_granted_turn_permissions ea_permissions_preapproved] in Hpre.
  apply bool_decide_eq_true in Hpre as [preapproved Hpre]. destruct (merge_permission_profiles gs gt) as [granted|] eqn:Eg; [|done].
  cbn [mbind option_bind] in Hpre. exists granted, base, native_cwd. split_and!; [done..|]. fold fsp. intros policy' path Ht. unfold policy'. clear policy'.
  apply map_res_Ok in Efiles. pose proof (proj2 (file_paths_touched action path) Ht) as (k & Hk)%list_elem_of_lookup.
  destruct (Forall2_lookup_l _ _ _ _ _ Efiles Hk) as (p & Hpk & Ep). exists p. split; [done|].
  destruct (write_permissions_needed files fsp native_cwd) with (p := p) as [?|[?|(additional & Eadd & Hlets)]]; [| | |by left|by right; left|].
  - apply Forall_forall. intros q (j & Hj)%list_elem_of_lookup. destruct (Forall2_lookup_r _ _ _ _ _ Efiles Hj) as (? & _ & ?). by eapply to_abs_path_normalized.
  - intros q (j & Hj)%list_elem_of_lookup. destruct (Forall2_lookup_r _ _ _ _ _ Efiles Hj) as (path' & Hj' & ?).
    apply (Hnamed path'); [|done]. apply file_paths_touched. by eapply list_elem_of_lookup_2.
  - by eapply list_elem_of_lookup_2.
  - right. right. rewrite Eadd in Hpre. destruct (merge_permission_profiles (Some additional) (Some granted)) as [merged|] eqn:Em; [|done].
    cbn [mbind option_bind] in Hpre. destruct Hlets as (u & Eu & Hw). destruct (preapproved_entries _ _ _ _ u Hpre) as (entries & Hent & Hwe); [by eapply merge_keeps|].
    exists entries. split; [done|]. by exists u.
Qed.
End Grants.

Section Patches.
Context {Opaque Url : Type} `{UrlCrate Url} `{Countable Url}.
Variable crates : Crates.
Variable host : Host.
Variable target_os : TargetOs.
Variable aenv : @ApprovalEnv Opaque Url.
Context {Out : Type}.
Set Default Proof Using "Type".

Lemma execute_patch_asks gs gt action cwd (environment : @TurnEnvironment Opaque Url) ctx t e :
  asks (execute_verified_patch crates host target_os aenv (Out := Out) gs gt action cwd environment ctx) t e ->
  exists paths effective policy apply,
    patch_permissions host gs gt environment action cwd = (paths, effective, policy) /\
    prepare_apply_patch host target_os (sc_approval_policy (tc_step_context ctx)) environment policy action = Ok apply /\
    asks (run crates host target_os aenv (Out := Out) (patch_request environment paths effective apply) ctx) t e.
Proof.
  unfold execute_verified_patch. destruct (patch_permissions host gs gt environment action cwd) as [[paths effective] policy].
  destruct (prepare_apply_patch _ _ _ _ _ _) as [apply| |] eqn:Ep; [|by intros [? Hs]; inversion Hs..].
  intros Ha%asks_then_return. by exists paths, effective, policy, apply.
Qed.

End Patches.
