(* ===== verification/ApprovalSession.v ===== *)
(** * Approvals for the session

    Models [ApprovalStore] of [workx-rs/core/src/tools/sandboxing.rs], the cache that the
    approvals of a session share, and the calls of a session that run side by side: each takes
    its next step whenever it is answered, and the cache answers with what it holds then. A
    yes of the cache always goes back to a yes of the user, to a question that showed what the
    yes is used for. *)
From stdpp Require Import gmap.
From S2P Require Import Prelude AbsPath PathUri SandboxPolicy Approval ExecApproval PolicyTransforms NetworkProxy WorldState ThreadItems Invocation Interaction ToolApproval Orchestrator ToolRuntimes OrchestratorProps ExecHandler PatchHandler HandlerProps.

Set Default Goal Selector "!".

Section Session.
Context {Opaque Url : Type} `{UrlCrate Url} `{Countable Url}.
Variable crates : Crates.
Variable host : Host.
Variable cfg_windows : bool.
Variable target_os : TargetOs.
Variable aenv : @ApprovalEnv Opaque Url.
Context {Out : Type}.
Set Default Proof Using "Type".
Local Abbreviation Ev := (@Event Opaque Url).
Local Abbreviation Ex := (exchange (Event := Ev) (Answer := Answer Out)).
Local Abbreviation Key := (@CacheKey Url).
(** [serde_json::to_string] of a key. *)
Variable to_string : Key -> option rstr.

(** ** The store *)

Definition ApprovalStore : Type := gmap rstr ReviewDecision.

Definition store_get (self : ApprovalStore) (key : Key) : option ReviewDecision := s ← to_string key; self !! s.

Definition store_put (self : ApprovalStore) (key : Key) (value : ReviewDecision) : ApprovalStore :=
  match to_string key with Some s => <[s := value]> self | None => self end.

Definition all_approved (store : ApprovalStore) (keys : list Key) : bool :=
  forallb (fun key => bool_decide (store_get store key = Some ApprovedForSession)) keys.

Definition put_all (store : ApprovalStore) (keys : list Key) : ApprovalStore :=
  foldl (fun store key => store_put store key ApprovedForSession) store keys.

(** The store takes part in the exchanges about it. *)
Definition store_answers (store : ApprovalStore) (x : Ex) : Prop :=
  match x with existT (CacheHas keys) r => r = all_approved store keys | _ => True end.

Definition store_after (store : ApprovalStore) (x : Ex) : ApprovalStore :=
  match x with existT (CachePut keys) _ => put_all store keys | _ => store end.

(** ** Calls side by side *)

(** The calls of a session that ask for approvals: a command, a patch, and an action of any other
    kind, which goes to [request_approval]. *)
Inductive SessionCall :=
| ExecCall (session : ExecSession) (args : @ExecCommandArgs Opaque Url) (shell_snapshot : option Opaque)
    (step_context : StepContext) (call_id : rstr)
| PatchCall (granted_session_permissions granted_turn_permissions : option (@AdditionalPermissionProfile Url))
    (action : @Invocation.ApplyPatchAction Url _ _) (cwd : Url) (environment : @TurnEnvironment Opaque Url) (ctx : ToolCtx)
| OtherCall (action : @ApprovalAction Opaque Url) (ctx : ApprovalContext).

Definition call_allowed (call : SessionCall) : Prop :=
  match call with
  | OtherCall (ExecCommandAction _ _ _ _ _ _ _ _ _ _ | ApplyPatchAction _ _ _ _ _ _ _) _ => False
  | _ => True
  end.

Local Abbreviation Run := (prog (@Answer Opaque Url Out) ()).

(** What a call does; its result goes to the model. *)
Definition program_of (call : SessionCall) : Run :=
  match call with
  | ExecCall session args shell_snapshot step_context call_id =>
      _ ← exec_command crates host cfg_windows target_os aenv session args shell_snapshot step_context call_id; Return tt
  | PatchCall gs gt action cwd environment ctx =>
      _ ← execute_verified_patch crates host target_os aenv gs gt action cwd environment ctx; Return tt
  | OtherCall action ctx => _ ← request_approval crates host aenv action ctx; Return tt
  end.

(** The cache, and the calls with what they have yet to do. *)
Record SessionState := { ss_store : ApprovalStore; ss_calls : list (SessionCall * Run) }.

(** What has happened: the exchanges, each with the number of its call. *)
Inductive session : SessionState -> list (nat * Ex) -> Prop :=
| session_new : session {| ss_store := ∅; ss_calls := [] |} []
| session_call st trace call :
    session st trace -> call_allowed call ->
    session {| ss_store := ss_store st; ss_calls := ss_calls st ++ [(call, program_of call)] |} trace
| session_answer st trace i call e k r :
    session st trace -> ss_calls st !! i = Some (call, Ask e k) -> store_answers (ss_store st) (said e r) ->
    session {| ss_store := store_after (ss_store st) (said e r); ss_calls := <[i := (call, k r)]> (ss_calls st) |}
      (trace ++ [(i, said e r)]).

(** ** What is put in the store *)

(** A file is named in the changes that are shown, as changed or as the destination of a move. *)
Definition shows (changes : list (rstr * FileChangeContent)) (name : rstr) : Prop :=
  (exists content, (name, content) ∈ changes) \/
  exists from unified_diff, (from, UpdateContent unified_diff (Some name)) ∈ changes.

(** In the call the user was asked about what the key stands for: the command with its environment,
    directory and additional permissions; or a patch that touches the file of the key in the
    environment of the key, with every file that it touches shown. *)
Definition asked_about (call : SessionCall) (q : @UserQuestion Opaque Url) (key : Key) : Prop :=
  match call, key, q with
  | ExecCall _ args _ _ _, WithFingerprint (ExecCommandKey k) _,
    CommandQuestion KindCommand _ _ environment_id command cwd _ _ _ additional_permissions _ =>
      uk_environment_id k = te_environment_id (xa_environment args) /\ environment_id = Some (uk_environment_id k) /\
      command = xa_command args /\ uk_executable k = head command /\
      uk_command k = canonicalize_command_for_approval crates command /\
      uk_cwd k = xa_cwd args /\ (exists native_cwd, guardian_cwd host aenv (uk_environment_id k) (uk_cwd k) = Ok native_cwd /\
                                   from_abs_path (path_string native_cwd) = Ok cwd) /\
      uk_tty k = xa_tty args /\ uk_additional_permissions k = additional_permissions
  | PatchCall _ _ action _ environment _, Plain (ApplyPatchKey environment_id path), PatchQuestion _ changes _ =>
      environment_id = te_environment_id environment /\ touches action path /\
      forall path', touches action path' -> shows changes (native_string path')
  | _, _, _ => False
  end.

(** The keys that a call looks up are for all that it does: its command, or every file of its
    patch. *)
Definition keys_cover (call : SessionCall) (keys : list Key) : Prop :=
  match call with
  | ExecCall _ args _ _ _ =>
      exists k fingerprint, WithFingerprint (ExecCommandKey k) fingerprint ∈ keys /\
        uk_environment_id k = te_environment_id (xa_environment args) /\ uk_executable k = head (xa_command args) /\
        uk_command k = canonicalize_command_for_approval crates (xa_command args) /\ uk_cwd k = xa_cwd args /\ uk_tty k = xa_tty args
  | PatchCall _ _ action _ environment _ =>
      forall path, touches action path -> Plain (ApplyPatchKey (te_environment_id environment) path) ∈ keys
  | OtherCall _ _ => False
  end.

Definition session_yes (q : @UserQuestion Opaque Url) : Ex := said (AskUser q) (Some ApprovedForSession : Answer Out (AskUser q)).

(** A call looks its own keys up, and puts keys right after the user agreed for the session. *)
Definition cache_use (call : SessionCall) (h : list Ex) (e : Ev) : Prop :=
  match e with
  | CacheHas keys => keys_cover call keys
  | CachePut keys => exists h' q, h = h' ++ [session_yes q] /\ Forall (asked_about call q) keys
  | _ => True
  end.

Lemma always_true {A} (p : prog (Answer Out) A) (P : list Ex -> Ev -> Prop) h :
  always P (fun _ _ => True) h p -> forall B (f : A -> prog (Answer Out) B) Q, (forall h a, always P Q h (f a)) -> always P Q h (p ≫= f).
Proof. intros Hp B f Q Hf. apply always_bind. eapply always_mono; [done| |exact Hp]. intros h' a _. apply Hf. Qed.

Section Uses.
Variable call : SessionCall.
Local Abbreviation used := (cache_use call).

Lemma always_question q h : always used (fun _ _ => True) h
  (answer ← ask (AskUser q); Return (Ok (default DecisionAbort answer)) : prog (Answer Out) (res () ReviewDecision)).
Proof. by split. Qed.

Lemma always_cached_question keys q h :
  keys_cover call keys -> Forall (asked_about call q) keys ->
  always used (fun _ _ => True) h
    (decision ← with_cached_approval keys (answer ← ask (AskUser q); Return (default DecisionAbort answer));
     Return (Ok decision) : prog (Answer Out) (res () ReviewDecision)).
Proof.
  intros Hc Hk. unfold with_cached_approval. destruct (is_empty keys); [by split|]. split; [done|]. intros [|]; [done|].
  split; [done|]. intros [[]|]; try done. split; [|done]. by eexists _, q.
Qed.

(** An action that stands for the call: what it shows the user, and what its keys are. *)
Definition action_for (action : @ApprovalAction Opaque Url) : Prop :=
  match action with
  | ExecCommandAction _ environment_id command _ cwd sandbox_permissions additional_permissions _ tty _ =>
      exists session args shell_snapshot step_context call_id, call = ExecCall session args shell_snapshot step_context call_id /\
        environment_id = te_environment_id (xa_environment args) /\ command = xa_command args /\ cwd = xa_cwd args /\ tty = xa_tty args
  | ApplyPatchAction _ environment_id _ files _ changes _ =>
      exists gs gt action cwd environment ctx, call = PatchCall gs gt action cwd environment ctx /\
        environment_id = te_environment_id environment /\ files = file_paths_for_action action /\
        changes = convert_apply_patch_to_protocol action
  | _ => cache_keys crates action = []
  end.

Lemma changes_shown (action : @Invocation.ApplyPatchAction Url _ _) path :
  touches action path -> shows (convert_apply_patch_to_protocol action) (native_string path).
Proof.
  unfold convert_apply_patch_to_protocol, shows. intros [[c Hc]|(from & d & new & Hf)]; [left|right].
  - eexists. apply list_elem_of_fmap. exists (path, c). split; [reflexivity|by apply elem_of_map_to_list].
  - exists (native_string from), d. apply list_elem_of_fmap. exists (from, FileUpdate d (Some path) new). split; [done|by apply elem_of_map_to_list].
Qed.

Lemma always_user_puts action ctx h :
  action_for action -> always used (fun _ _ => True) h (request_user_approval crates host aenv action ctx).
Proof.
  intros Hact. destruct action; unfold request_user_approval; try done; try apply always_question.
  - destruct Hact as (session & args & snapshot & step & id' & Ecall & -> & -> & -> & ->).
    destruct (guardian_cwd _ _ _ _) as [native| |] eqn:En; [|done..]. destruct (from_abs_path _) as [u| |] eqn:Eu; [|done..].
    apply always_cached_question; rewrite Ecall.
    + eexists _, _. split; [by apply list_elem_of_singleton|]. done.
    + constructor; [|done]. cbn. split_and!; try done. by exists native.
  - destruct (from_abs_path _); [|done..]. apply always_question.
  - destruct Hact as (gs & gt & action & cwd' & environment & tctx & Ecall & -> & -> & ->).
    destruct (option_or _ _); [apply always_question|]. destruct permissions_preapproved; [done|]. cbn [cache_keys]. rewrite map_map.
    apply always_cached_question; rewrite Ecall.
    + intros path Ht. apply list_elem_of_fmap. exists path. split; [done|by apply file_paths_touched].
    + apply Forall_forall. intros key (path & -> & Hin)%list_elem_of_fmap. cbn. split; [done|]. split; [by apply file_paths_touched|].
      intros path'. apply changes_shown.
  - destruct (from_abs_path _); [|done..]. apply always_question.
Qed.

Lemma always_guardian_puts action ctx h :
  always used (fun _ _ => True) h (request_guardian_approval host aenv action ctx).
Proof. unfold request_guardian_approval. repeat case_match; done. Qed.

Lemma always_request_puts action ctx h :
  action_for action -> always used (fun _ _ => True) h (request_approval crates host aenv action ctx).
Proof.
  intros Hact. unfold request_approval. destruct (stdin_rejected action ctx); [done|]. split; [done|]. intros hooks.
  apply always_true; [|done]. destruct hooks as [[]|]; [done..|]. unfold request_reviewer_approval.
  apply always_true; [|done]. destruct (reviewer_of action ctx); [apply always_guardian_puts|by apply always_user_puts].
Qed.

Section Puts.
Context {Rq : Type} `{!@ToolRuntime Opaque Url Rq}.
Variables (req : Rq) (ctx : ToolCtx).
Hypothesis req_for : forall id action, approval_action req id = Ok action -> action_for action.

Lemma always_approve_puts reason retry network h :
  always used (fun _ _ => True) h (approve crates host aenv req ctx reason retry network).
Proof using req_for. unfold approve. destruct (approval_action req _) eqn:E; [eapply always_request_puts, req_for, E|done..]. Qed.

Lemma always_attempt_puts {A} attempt spec h (f : (Out + ToolError) * option DeferredNetworkApproval -> prog (Answer Out) A) :
  (forall h r, always used (fun _ _ => True) h (f r)) ->
  always used (fun _ _ => True) h (run_attempt attempt spec ≫= f).
Proof.
  intros Hf. apply always_true; [|done]. apply always_run_attempt; [|done..]. intros h' [] Ha Hu; done.
Qed.

Lemma always_run_puts : always used (fun _ _ => True) [] (run crates host target_os aenv req ctx).
Proof using req_for.
  unfold run. destruct (_ && _); [done|]. destruct (call_permissions host req) as [perms| |]; [|done..].
  unfold run_with. apply always_true.
  { unfold initial_approval. destruct (requirement_for req ctx perms); [destruct (sc_strict_auto_review _)| |];
      try done; (apply always_true; [apply always_approve_puts|]); by intros ? []. }
  intros h [already| |]; [|done..]. apply always_attempt_puts. clear h. intros h r. unfold after_first.
  destruct r.1 as [out|[m|[output decision| | | |]]]; try done. destruct (denial_is_final _ _ _ _); [done|].
  apply always_true.
  { unfold retry_approval. destruct (bypass_retry_approval _ _ _); [done|]. apply always_true; [apply always_approve_puts|].
    by intros ? []. }
  intros h' [u| |]; [|done..]. by apply always_attempt_puts.
Qed.
End Puts.
End Uses.

Lemma call_uses call h e : call_allowed call -> asks (program_of call) h e -> cache_use call h e.
Proof.
  destruct call as [session args snapshot step id|gs gt action cwd environment ctx|action ctx]; cbn [program_of]; intros Hok Ha%asks_then_return.
  - apply exec_command_asks in Ha as (request & requirement & Hx & _ & Ha). refine (always_asks _ (fun _ _ => True) _ h e [] _ Ha). apply always_run_puts.
    intros id' action [= <-]. exists session, args, snapshot, step, id. unfold exec_command_request in Hx. destruct (_ && _ && _) in Hx; [done|].
    destruct (match implicit_granted_permissions _ _ _ with Some _ => _ | None => _ end) in Hx; by simplify_eq/=.
  - apply execute_patch_asks in Ha as (paths & effective & policy & apply & Hp & Hprep & Ha). refine (always_asks _ (fun _ _ => True) _ h e [] _ Ha).
    apply always_run_puts. intros id' action' [= <-]. exists gs, gt, action, cwd, environment, ctx. split; [done|]. split; [done|]. split.
    + unfold patch_permissions, effective_patch_permissions, patch_permissions_without_path_matching in Hp. destruct (ok_of (to_abs_path _ cwd)); cbn in Hp; [|by simplify_eq].
      destruct (ok_of (permission_profile_with_workspace_roots _ _)); cbn in Hp; [|by simplify_eq].
      destruct (ok_of (map_res _ _)); cbn in Hp; by simplify_eq.
    + unfold prepare_apply_patch in Hprep. by destruct (Safety.assess_patch_safety _ _ _ _ _ _ _ _); simplify_eq/=.
  - refine (always_asks _ (fun _ _ => True) _ h e [] _ Ha). apply always_request_puts. by destruct action.
Qed.

(** ** The calls of a session *)

(** The exchanges of one call. *)
Definition own (i : nat) (trace : list (nat * Ex)) : list Ex := omap (fun x => if (x.1 =? i)%nat then Some x.2 else None) trace.

Lemma own_snoc i trace j x : own i (trace ++ [(j, x)]) = own i trace ++ (if (j =? i)%nat then [x] else []).
Proof. unfold own. rewrite omap_app. simpl. by destruct (j =? i)%nat. Qed.

Lemma own_elem i trace x : x ∈ own i trace -> (i, x) ∈ trace.
Proof. unfold own. rewrite list_elem_of_omap. intros ([j y] & Hin & Hy). simpl in Hy. case_match eqn:E; simplify_eq. by apply Nat.eqb_eq in E as ->. Qed.

(** Each call has taken the steps that are its own. *)
Lemma session_calls st trace : session st trace ->
  (forall i call p, ss_calls st !! i = Some (call, p) -> call_allowed call /\ steps (program_of call) (own i trace) p) /\
  (forall i, (length (ss_calls st) <= i)%nat -> own i trace = []).
Proof.
  induction 1 as [|st trace call Hs [IH1 IH2] Hp|st trace i call e k r Hs [IH1 IH2] Hi Hr]; simpl.
  - split; [by intros ? ? ? [=]|done].
  - split.
    + intros i c q [Hi|[Hi Hq]]%lookup_app_Some; [by apply IH1|]. apply list_lookup_singleton_Some in Hq as [Hi0 [= -> ->]].
      split; [exact Hp|]. rewrite IH2 by lia. constructor.
    + intros i. rewrite length_app. simpl. intros Hl. apply IH2. lia.
  - split.
    + intros j c q. rewrite own_snoc. destruct (Nat.eq_dec i j) as [<-|Hij].
      * rewrite list_lookup_insert_eq by (by eapply lookup_lt_Some). intros [= <- <-]. rewrite Nat.eqb_refl.
        destruct (IH1 _ _ _ Hi) as [Hc Hst]. split; [done|]. by apply steps_snoc.
      * rewrite list_lookup_insert_ne by done. intros Hq. apply Nat.eqb_neq in Hij as ->. rewrite app_nil_r. by apply IH1.
    + intros j. rewrite length_insert, own_snoc. intros Hl. rewrite IH2 by done.
      assert (i <> j) as ->%Nat.eqb_neq; [|done]. apply lookup_lt_Some in Hi. lia.
Qed.

(** A serialised key for which the user agreed for the session, in one of its calls. *)
Definition vouched (st : SessionState) (trace : list (nat * Ex)) (s : rstr) : Prop :=
  exists i call p q key, ss_calls st !! i = Some (call, p) /\ (i, session_yes q) ∈ trace /\
    asked_about call q key /\ to_string key = Some s.

Lemma put_all_lookup keys : forall (store : ApprovalStore) s d, put_all store keys !! s = Some d ->
  store !! s = Some d \/ exists key, key ∈ keys /\ to_string key = Some s.
Proof.
  induction keys as [|key keys IH]; intros store s d; simpl; [by left|]. intros [Hs|(key' & Hin & Hk)]%IH; [|right; set_solver].
  unfold store_put in Hs. destruct (to_string key) as [s'|] eqn:E; [|by left].
  apply lookup_insert_Some in Hs as [[<- _]|[_ Hs]]; [right; set_solver|by left].
Qed.

Lemma store_vouched st trace : session st trace -> forall s d, ss_store st !! s = Some d -> vouched st trace s.
Proof.
  induction 1 as [|st trace call Hs IH Hp|st trace i call e k r Hs IH Hi Hr]; simpl; intros s d Hd; [done|..].
  - destruct (IH s d Hd) as (j & c & p & q & key & Hj & ?). exists j, c, p, q, key. split; [|done]. by apply lookup_app_l_Some.
  - set (st' := {| ss_store := _; ss_calls := _ |}).
    assert (forall j c p, ss_calls st !! j = Some (c, p) -> exists p', ss_calls st' !! j = Some (c, p')) as Hkeep.
    { intros j c p Hj. cbn. destruct (Nat.eq_dec i j) as [<-|Hij]; [|rewrite list_lookup_insert_ne by done; eauto].
      rewrite list_lookup_insert_eq by (by eapply lookup_lt_Some). rewrite Hi in Hj. simplify_eq. eauto. }
    assert (ss_store st !! s = Some d -> vouched st' (trace ++ [(i, said e r)]) s) as Hold.
    { intros (j & c & p & q & key & Hj & Hin & ?)%IH. destruct (Hkeep j c p Hj) as [p' ?]. exists j, c, p', q, key. split; [done|]. split; [set_solver|done]. }
    destruct e; try by apply Hold. simpl in Hd. apply put_all_lookup in Hd as [Hd|(key & Hin & Hk)]; [by apply Hold|].
    destruct (proj1 (session_calls _ _ Hs) _ _ _ Hi) as [Hc Hst].
    destruct (call_uses call (own i trace) (CachePut keys) Hc) as (h' & q & Eh & Hall); [by exists k|].
    destruct (Hkeep i call _ Hi) as [p' Hp']. exists i, call, p', q, key. split; [done|]. split; [|split; [|done]].
    + apply elem_of_app. left. apply own_elem. rewrite Eh. set_solver.
    + rewrite Forall_forall in Hall. by apply Hall.
Qed.

(** C14. A yes of the cache goes back to a yes of the user: however the calls of a session are
    interleaved and wherever they are cancelled, when the cache lets a call pass then its keys
    are for its command or for every file that its patch touches, and for each of them the
    user was asked before, in some call of the session, and agreed for the session, under a
    key with the same text: about that command, with its environment, directory and additional
    permissions; or about a patch in that environment that touches that file, with all files
    that it touches shown. *)
Theorem cached_approval_was_given st trace i call keys k :
  session st trace -> ss_calls st !! i = Some (call, Ask (CacheHas keys) k) -> all_approved (ss_store st) keys = true ->
  keys_cover call keys /\ forall key, key ∈ keys -> exists s, to_string key = Some s /\ vouched st trace s.
Proof.
  intros Hs Hi Hall. split.
  - destruct (proj1 (session_calls _ _ Hs) _ _ _ Hi) as [Hc Hst]. apply (call_uses call (own i trace) (CacheHas keys) Hc). by exists k.
  - intros key Hin. unfold all_approved in Hall. rewrite forallb_forall in Hall.
    specialize (Hall key). rewrite <- list_elem_of_In in Hall. specialize (Hall Hin). apply bool_decide_eq_true in Hall.
    unfold store_get in Hall. destruct (to_string key) as [s|]; [|done]. exists s. split; [done|]. by eapply store_vouched.
Qed.
End Session.
