(* ===== verification/OrchestratorDemo.v ===== *)
(** * Concrete calls

    The theorems on the orchestrator, the handlers and the approvals of a session applied to
    concrete commands and patches, and three things that the code lets pass without a question. *)
From stdpp Require Import gmap.
From S2P Require Import Prelude AbsPath ExecRule ExecPolicy PathUri SandboxPolicy Approval DangerousCommand ExecApproval ExecApprovalProps PolicyTransforms NetworkProxy WorldState UrlModel SandboxDemo Invocation Safety Interaction ToolApproval Orchestrator ToolRuntimes OrchestratorProps ApprovalSession ExecHandler PatchHandler HandlerProps.

Set Default Goal Selector "!".

Import UrlModel.UrlModel SafetyDemo.

Module OrchestratorDemo.
Abbreviation Ev := (@Event () UrlModel.t).
Abbreviation Ex := (exchange (Event := Ev) (Answer := Answer ())).

Definition aenv : @ApprovalEnv () UrlModel.t :=
  {| ae_permissions_json _ := VNull; ae_request_permissions_json _ := VNull; ae_timeout_message := lit "timed out";
     ae_uri_error _ := lit "not a path"; ae_path_error _ := lit "not absolute" |}.

(** Files below the project may be written, all may be read. *)
Definition open_project : @PermissionProfile UrlModel.t :=
  Managed (MRestricted [entry_new (PSpecial Root) Read; entry_new (PSpecial (ProjectRoots None)) Write] None) NetRestricted.

Definition environment (profile : @PermissionProfile UrlModel.t) : @TurnEnvironment () UrlModel.t :=
  {| te_environment_id := lit "local"; te_cwd := UriDemo.w; te_is_remote := false; te_user_home_dir := None;
     te_temporary_directories := None; te_executor_platform_os := Some (lit "linux"); te_workspace_roots := [UriDemo.w];
     te_permission_profile := profile; te_network_policy := None; te_exec_policy := None;
     te_windows_sandbox_level := WslDisabled; te_windows_sandbox_private_desktop := false; te_use_legacy_landlock := false |}.

Definition step (policy : AskForApproval) (network strict : bool) : StepContext :=
  {| sc_approval_policy := policy; sc_approvals_reviewer := ReviewerUser; sc_environments := [(lit "local", None)];
     tx_approval_policy := policy; tx_network := network; tx_config_network := None;
     tx_workx_linux_sandbox_exe := Some (lit "/bin/sandbox"); sc_strict_auto_review := strict |}.

(** What is answered: a tool that is sandboxed answers [first]. *)
Definition reply (hook : option PermissionRequestDecision) (guardian user : option ReviewDecision) (cached : bool)
    (first : () + ToolError) (e : Ev) : Answer () e :=
  match e with
  | AskHooks _ _ => hook
  | AskGuardian spawned _ _ => match spawned with true => guardian | false => default TimedOut guardian end
  | AskUser _ => user
  | CacheHas _ => cached
  | CachePut _ => tt
  | StartNetwork _ => inl None
  | FinishNetwork _ => None
  | RunTool a => if at_sandbox_requested a then first else inl tt
  end.

Definition sandbox_denied : () + ToolError := inr (WorkxError (SandboxDenied (lit "denied") None)).

(** The attempts that the parties see, each with what came before. *)
Definition attempts {A} (r : forall e, Answer () e) (p : prog (Answer ()) A) : list (list Ex * @SandboxAttempt UrlModel.t) :=
  omap (fun x => match x.2 with RunTool a => Some (x.1, a) | _ => None end) (asked r [] p).

Lemma attempts_asks {A} r (p : prog (Answer ()) A) i t a : attempts r p !! i = Some (t, a) -> asks p t (RunTool a).
Proof.
  intros Hi%list_elem_of_lookup_2. unfold attempts in Hi. apply list_elem_of_omap in Hi as ([t' e] & Hin & He).
  simpl in He. destruct e; simplify_eq. eapply (asked_asks r p p); [constructor|exact Hin].
Qed.

(** ** Commands *)

Definition session : ExecSession :=
  {| es_exec_policy := ApprovalDemo.manager; es_configured_shell := lit "/bin/bash"; es_allow_prefix_rules := Honor |}.

Definition args (profile : @PermissionProfile UrlModel.t) (permissions : SandboxPermissions) (network : option Z)
    : @ExecCommandArgs () UrlModel.t :=
  {| xa_command := [lit "make"; lit "test"]; xa_hook_command := lit "make test"; xa_cwd := UriDemo.w; xa_environment_cwd := UriDemo.w;
     xa_environment := environment profile; xa_shell_mode := Direct; xa_network := network; xa_tty := false;
     xa_sandbox_permissions := permissions; xa_additional_permissions := None; xa_justification := None; xa_prefix_rule := None;
     xa_granted_session_permissions := None; xa_granted_turn_permissions := None; xa_exec_permission_approvals := false;
     xa_request_permissions_tool := false |}.

Definition command (profile : @PermissionProfile UrlModel.t) (permissions : SandboxPermissions) (network : option Z) (st : StepContext) :=
  exec_command ApprovalDemo.crates SandboxDemo.host false Linux aenv (Out := ()) session (args profile permissions network) None st (lit "c1").

(** The call of the orchestrator for a command with a given requirement. *)
Definition request (profile : @PermissionProfile UrlModel.t) (requirement : ExecApprovalRequirement) : @UnifiedExecRequest () UrlModel.t :=
  {| ur_command := [lit "make"]; ur_hook_command := lit "make"; ur_cwd := UriDemo.w; ur_sandbox_cwd := UriDemo.w;
     ur_turn_environment := environment profile; ur_shell_snapshot := None; ur_network := None; ur_tty := false;
     ur_sandbox_permissions := UseDefault; ur_additional_permissions := None; ur_justification := None;
     ur_exec_approval_requirement := requirement |}.

Definition tool_ctx (st : StepContext) : ToolCtx :=
  {| tc_step_context := st; tc_call_id := lit "c1"; tc_tool_name := {| tn_name := lit "exec_command"; tn_namespace := None |} |}.

Definition call (profile : @PermissionProfile UrlModel.t) (requirement : ExecApprovalRequirement) (st : StepContext) :=
  run ApprovalDemo.crates SandboxDemo.host Linux aenv (Out := ()) (request profile requirement) (tool_ctx st).

Definition allow : forall e : Ev, Answer () e := reply None (Some Approved) (Some Approved) false sandbox_denied.

Lemma command_leaves_sandbox_only_if_allowed_witness :
  exists t a, asks (command open_project RequireEscalated None (step OnRequest false false)) t (RunTool a) /\
    is_escalated SandboxDemo.host a = true /\
    (existsb granted t = true \/
     (quiet t = true /\ sc_strict_auto_review (step OnRequest false false) = false /\
      forall c, c ∈ ec_commands (evaluated ApprovalDemo.crates [lit "make"; lit "test"] (lit "/bin/bash") Direct PosixPlatform) ->
        allowed_by_rules SandboxDemo.host policy_empty c)).
Proof.
  assert (match attempts allow (command open_project RequireEscalated None (step OnRequest false false)) !! 0%nat with
          | Some (t, a) => is_escalated SandboxDemo.host a
          | None => false
          end = true) as Hb by (vm_compute; reflexivity).
  destruct (attempts _ _ !! 0%nat) as [[t a]|] eqn:E; [|done]. apply attempts_asks in E. exists t, a. split; [done|]. split; [done|].
  exact (command_leaves_sandbox_only_if_allowed ApprovalDemo.crates SandboxDemo.host false Linux aenv session
           (args open_project RequireEscalated None) None (step OnRequest false false) (lit "c1") t a E Hb eq_refl).
Defined.

Lemma restrictions_survive_approval_witness :
  exists perms t a, asks (call SafetyChecks.managed (NeedsApproval None None) (step UnlessTrusted false false)) t (RunTool a) /\
    at_permissions a = perms /\
    at_sandbox_requested a = should_sandbox SandboxDemo.host perms PreferAuto (at_enforce_managed_network a) /\
    at_sandbox a = select_initial SandboxDemo.host Linux perms PreferAuto WslDisabled (at_enforce_managed_network a).
Proof.
  assert (match call_permissions SandboxDemo.host (request SafetyChecks.managed (NeedsApproval None None)) with
          | Ok perms => has_denied_read_restrictions (file_system_sandbox_policy perms)
          | _ => false
          end = true) as Hp by (vm_compute; reflexivity).
  destruct (call_permissions _ _) as [perms| |] eqn:Ep; [|done..]. exists perms.
  destruct (attempts allow (call SafetyChecks.managed (NeedsApproval None None) (step UnlessTrusted false false)) !! 0%nat) as [[t a]|] eqn:E;
    [|vm_compute in E; discriminate E]. apply attempts_asks in E. exists t, a. split; [done|].
  destruct (restrictions_survive_approval ApprovalDemo.crates SandboxDemo.host Linux aenv (request SafetyChecks.managed (NeedsApproval None None))
    (tool_ctx (step UnlessTrusted false false)) perms t a E Ep (or_introl Hp)) as (H1 & H2 & H3 & _). done.
Defined.

Lemma nothing_runs_after_refusal_witness :
  exists t a, asks (call open_project (NeedsApproval None None) (step UnlessTrusted false false)) t (RunTool a) /\
    existsb refused t = false /\ quiet t = false.
Proof.
  assert (match attempts allow (call open_project (NeedsApproval None None) (step UnlessTrusted false false)) !! 1%nat with
          | Some (t, _) => negb (quiet t)
          | None => false
          end = true) as Hb by (vm_compute; reflexivity).
  destruct (attempts _ _ !! 1%nat) as [[t a]|] eqn:E; [|done]. apply attempts_asks in E. exists t, a. split; [done|].
  split; [|by apply negb_true_iff].
  exact (proj1 (nothing_runs_after_refusal ApprovalDemo.crates SandboxDemo.host Linux aenv (request open_project (NeedsApproval None None))
    (tool_ctx (step UnlessTrusted false false)) t a E)).
Defined.

Lemma strict_review_each_attempt_witness :
  exists t a, asks (call open_project (Skip true None) (step UnlessTrusted false true)) t (RunTool a) /\
    exists t1 t2, t = t1 ++ t2 /\ quiet t2 = true /\ existsb reviewed t2 = true /\
      (t1 = [] \/ exists t1' a1 output decision, t1 = t1' ++ [denied a1 output decision]).
Proof.
  destruct (attempts allow (call open_project (Skip true None) (step UnlessTrusted false true)) !! 0%nat) as [[t a]|] eqn:E;
    [|vm_compute in E; discriminate E]. apply attempts_asks in E. exists t, a. split; [done|].
  exact (proj2 (strict_review_each_attempt ApprovalDemo.crates SandboxDemo.host Linux aenv (request open_project (Skip true None))
    (tool_ctx (step UnlessTrusted false true)) t (RunTool a) eq_refl E) a eq_refl).
Defined.

(** ** Patches *)

Definition patch (granted : option (@AdditionalPermissionProfile UrlModel.t)) (st : StepContext)
    (action : @Invocation.ApplyPatchAction UrlModel.t _ SafetyDemo.t_countable) :=
  execute_verified_patch ApprovalDemo.crates SandboxDemo.host Linux aenv (Out := ()) None granted action UriDemo.w
    (environment open_project) (tool_ctx st).

Definition network_grant : option (@AdditionalPermissionProfile UrlModel.t) :=
  Some {| ap_network := Some {| np_enabled := Some true |}; ap_file_system := None |}.

(** The files of a patch have directories with URIs. *)
Definition named (action : @Invocation.ApplyPatchAction UrlModel.t _ SafetyDemo.t_countable) : bool :=
  forallb (fun path => match to_abs_path (h_env SandboxDemo.host) path with
                       | Ok p => match from_abs_path (path_string (directory_of p)) : res PathUriParseError UrlModel.t with Ok _ => true | _ => false end
                       | _ => true
                       end) (file_paths_for_action action).

Lemma named_spec action : named action = true -> directories_named SandboxDemo.host action.
Proof.
  unfold named. rewrite forallb_forall. intros Hn path p Ht%file_paths_touched Hp. specialize (Hn path (proj1 (list_elem_of_In _ _) Ht)).
  rewrite Hp in Hn. destruct (from_abs_path _) as [u| |]; [by exists u|done..].
Qed.


(** ** A session *)

(** The text of a key, as far as the examples need it apart. *)
Definition to_string (key : @CacheKey UrlModel.t) : option rstr :=
  Some match key with
       | WithFingerprint (ExecCommandKey k) _ => lit "exec " ++ join (lit " ") (uk_command k)
       | WithFingerprint (ApplyPatchKey _ path) _ | Plain (ApplyPatchKey _ path) => lit "patch " ++ url_as_str path
       | Plain (ExecCommandKey k) => lit "plain " ++ join (lit " ") (uk_command k)
       end.

Definition store_reply (store : ApprovalStore) (e : Ev) : Answer () e -> Answer () e :=
  match e with CacheHas keys => fun _ => all_approved to_string store keys | _ => id end.

(** A call is answered, by the store where it is asked, until an event of the kind [stop]. *)
Fixpoint serve {A} (stop : Ev -> bool) (r : forall e, Answer () e) (store : ApprovalStore) (p : prog (Answer ()) A)
    : list Ex * ApprovalStore * prog (Answer ()) A :=
  match p with
  | Return a => ([], store, Return a)
  | Ask e k =>
      if stop e then ([], store, Ask e k)
      else
        let answer := store_reply store e (r e) in
        let '(t, store', p') := serve stop r (store_after to_string store (said e answer)) (k answer) in
        (said e answer :: t, store', p')
  end.

Lemma serve_session crates host windows os (env : @ApprovalEnv () UrlModel.t) stop r i call (p : prog (Answer ()) ()) : forall st trace,
  ApprovalSession.session crates host windows os env (Out := ()) to_string st trace -> ss_calls st !! i = Some (call, p) ->
  ApprovalSession.session crates host windows os env to_string
    {| ss_store := (serve stop r (ss_store st) p).1.2; ss_calls := <[i := (call, (serve stop r (ss_store st) p).2)]> (ss_calls st) |}
    (trace ++ map (pair i) (serve stop r (ss_store st) p).1.1).
Proof.
  induction p as [a|e k IH]; intros st trace Hs Hi; simpl.
  { rewrite list_insert_id, app_nil_r by done. by destruct st. }
  destruct (stop e); simpl. { rewrite list_insert_id, app_nil_r by done. by destruct st. }
  set (answer := store_reply (ss_store st) e (r e)).
  assert (store_answers to_string (ss_store st) (said e answer)) as Hans by (unfold answer; by destruct e).
  pose proof (session_answer crates host windows os env to_string st trace i call e k answer Hs Hi Hans) as Hs'.
  specialize (IH answer _ _ Hs'). cbn [ss_calls ss_store] in IH.
  rewrite list_lookup_insert_eq in IH by (by eapply lookup_lt_Some). specialize (IH eq_refl).
  destruct (serve stop r _ (k answer)) as [[t store'] p'] eqn:E. cbn [fst snd] in *.
  rewrite list_insert_insert_eq, <- app_assoc in IH. exact IH.
Qed.

Definition is_cache_question (e : Ev) : bool := match e with CacheHas _ => true | _ => false end.

(** The user agrees for the session. *)
Definition for_session : forall e : Ev, Answer () e := reply None None (Some ApprovedForSession) false (inl tt).

(** A patch that the user is asked about. *)
Definition asked_call (action : @Invocation.ApplyPatchAction UrlModel.t _ SafetyDemo.t_countable) : SessionCall :=
  PatchCall None None action UriDemo.w (environment open_project) (tool_ctx (step UnlessTrusted false false)).

Definition asked_program action : prog (Answer ()) () :=
  program_of ApprovalDemo.crates SandboxDemo.host false Linux aenv (asked_call action).

Definition first_served action := serve (fun _ => false) for_session ∅ (asked_program action).
Definition second_served action := serve is_cache_question for_session (first_served action).1.2 (asked_program action).

(** The second time the cache lets the patch pass. *)
Lemma cached_approval_was_given_witness :
  exists action st trace keys k, SafetyDemo.verified = Ok action /\
    ApprovalSession.session ApprovalDemo.crates SandboxDemo.host false Linux aenv (Out := ()) to_string st trace /\
    ss_calls st !! 1%nat = Some (asked_call action, Ask (CacheHas keys) k) /\ keys ≠ [] /\
    keys_cover ApprovalDemo.crates (asked_call action) keys /\
    forall key, key ∈ keys -> exists s, to_string key = Some s /\ vouched ApprovalDemo.crates SandboxDemo.host aenv to_string st trace s.
Proof.
  assert (match SafetyDemo.verified with
          | Ok action =>
              match (second_served action).2 with
              | Ask (CacheHas keys) _ => negb (is_empty keys) && all_approved to_string (second_served action).1.2 keys
              | _ => false
              end
          | _ => false
          end = true) as Hb by (vm_compute; reflexivity).
  destruct SafetyDemo.verified as [action| |]; [|discriminate Hb..]. exists action.
  pose proof (session_call _ _ _ _ _ _ _ _ _ (session_new ApprovalDemo.crates SandboxDemo.host false Linux aenv (Out := ()) to_string) (I : call_allowed (asked_call action))) as H1.
  pose proof (serve_session _ _ _ _ _ (fun _ => false) for_session 0 (asked_call action) (asked_program action) _ _ H1 eq_refl) as H2.
  pose proof (session_call _ _ _ _ _ _ _ _ _ H2 (I : call_allowed (asked_call action))) as H3.
  pose proof (serve_session _ _ _ _ _ is_cache_question for_session 1 (asked_call action) (asked_program action) _ _ H3 eq_refl) as H4.
  cbn [ss_store] in H4. fold (first_served action) in H4. fold (second_served action) in H4.
  destruct (second_served action) as [[t store] [|[| | |keys| | | |] k]]; try discriminate Hb.
  apply andb_true_iff in Hb as [Hne Hall]. eexists _, _, keys, k. split; [done|]. split; [exact H4|].
  split; [reflexivity|]. split; [by destruct keys|].
  exact (cached_approval_was_given ApprovalDemo.crates SandboxDemo.host false Linux aenv to_string _ _ 1%nat (asked_call action) keys k H4 eq_refl Hall).
Defined.

(** ** What passes without a question *)

Definition asks_someone (x : Ex) : bool := match projT1 x with AskUser _ | AskGuardian _ _ _ => true | _ => false end.

Definition unrestricted_files : @PermissionProfile UrlModel.t := Managed MUnrestricted NetRestricted.

(** With unrestricted files but a restricted network, a command that asks to be run outside the
    sandbox is, under [OnRequest] and with nobody asked, and leaves the network sandbox. *)
Theorem unrestricted_files_escalate_unasked :
  exists t a, asks (command unrestricted_files RequireEscalated None (step OnRequest false false)) t (RunTool a) /\
    existsb asks_someone t = false /\ existsb granted t = false /\ is_escalated SandboxDemo.host a = true.
Proof.
  assert (match attempts allow (command unrestricted_files RequireEscalated None (step OnRequest false false)) !! 0%nat with
          | Some (t, a) => negb (existsb asks_someone t) && negb (existsb granted t) && is_escalated SandboxDemo.host a
          | None => false
          end = true) as Hb by (vm_compute; reflexivity).
  destruct (attempts _ _ !! 0%nat) as [[t a]|] eqn:E; [|done]. apply attempts_asks in E. exists t, a. split; [done|].
  by apply andb_true_iff in Hb as [[H1%negb_true_iff H2%negb_true_iff]%andb_true_iff H3].
Qed.

(** The network policy asks about a host. *)
Definition host_denied (name : rstr) : () + ToolError :=
  inr (WorkxError (SandboxDenied (lit "denied") (Some {| dp_decision := DecisionAsk; dp_source := Decider;
    dp_protocol := Some ApprovalHttps; dp_host := Some name; dp_reason := None; dp_port := Some 443%Z |}))).

Definition network_call := command open_project UseDefault (Some 7%Z) (step OnRequest true false).

Definition asked_host (x : Ex) : option rstr :=
  match projT1 x with AskUser (CommandQuestion _ _ _ _ _ _ _ network _ _ _) => nc_host <$> network | _ => None end.

Definition attempt_of_exchange (x : Ex) : option (@SandboxAttempt UrlModel.t) :=
  match projT1 x with RunTool a => Some a | _ => None end.

(** After the user has agreed for the session to the access of a command to one host, the same
    command is not only let through to another host unasked, it is run again without the
    sandbox: the key of the approval does not name the host. *)
Theorem network_approval_covers_other_hosts :
  let '(t1, store, _) := serve (fun _ => false) (reply None None (Some ApprovedForSession) false (host_denied (lit "a.example"))) ∅ network_call in
  let '(t2, _, _) := serve (fun _ => false) (reply None None None false (host_denied (lit "b.example"))) store network_call in
  omap asked_host t1 = [lit "a.example"] /\
  existsb asks_someone t2 = false /\
  map (is_escalated SandboxDemo.host) (omap attempt_of_exchange t2) = [false; true].
Proof. vm_compute. repeat split. Qed.

(** Any permission that was granted before, here only network access, answers the question for a
    patch: under [UnlessTrusted], where each patch is to be asked for, it is applied with
    nobody asked, and after a denial by the sandbox once more outside of it. *)
Theorem network_grant_silences_patch :
  exists action, SafetyDemo.verified = Ok action /\
    map (fun ta => (existsb asks_someone ta.1, existsb granted ta.1, is_escalated SandboxDemo.host ta.2))
      (attempts (reply None None None false sandbox_denied)
        (patch network_grant (step UnlessTrusted false false) action))
      = [(false, false, false); (false, false, true)].
Proof.
  assert (match SafetyDemo.verified with
          | Ok action => bool_decide (map (fun ta => (existsb asks_someone ta.1, existsb granted ta.1, is_escalated SandboxDemo.host ta.2))
              (attempts (reply None None None false sandbox_denied)
                (patch network_grant (step UnlessTrusted false false) action))
              = [(false, false, false); (false, false, true)])
          | _ => false
          end = true) as Hb by (vm_compute; reflexivity).
  destruct SafetyDemo.verified as [action| |]; [|discriminate Hb..]. exists action. split; [done|]. by apply bool_decide_eq_true in Hb.
Qed.
End OrchestratorDemo.
